(* ===== verification/_CoqProject ===== *)
-Q . S2P
Prelude.v
RustStr.v
BTree.v
Calendar.v
Canonical.v
FieldCodec.v
Config.v
TopoSort.v
ConfigProps.v
PlanProps.v
Storage.v
PlanClaims.v
Receipt.v
ReceiptProps.v
ReceiptClaims.v
Verify.v
ComparePlan.v
VerifyProps.v
VerifyClaims.v
Matrix.v
MatrixProps.v
MatrixReceipt.v
MatrixReceiptProps.v
MatrixClaims.v
MatrixReceiptClaims.v
Durable.v
RunJournal.v
RunJournalProps.v
JournalStore.v
JournalClaims.v
Resource.v
ResourceProps.v
ResourceClaims.v
Admission.v
AdmissionProps.v
AdmissionScan.v
AdmissionOps.v
AdmissionEnter.v
Reconcile.v
ReconcileProps.v
AdmissionWorld.v
AdmissionClaims.v
ReconcileClaims.v
Evaluation.v
Benchmark.v
BenchmarkClaims.v
ResourceHistory.v
ResourceHistoryClaims.v
AgentSession.v
FileSystem.v
CachePayload.v
CachePayloadClaims.v
CacheRoot.v
Cache.v
CacheProps.v
CachePromotion.v
CacheClaims.v
Workspace.v
WorkspaceProps.v
Artifacts.v
ArtifactProps.v
ArtifactClaims.v
WorkspaceClaims.v
Ports.v
Process.v
ProcessProps.v
ProcessClaims.v
Runtime.v
RuntimeProps.v
RuntimeClaims.v
SourceSnapshot.v
SourceSnapshotProps.v
SourceSnapshotClaims.v
RunParts.v
Run.v
RunProps.v
RunPartsProps.v
RunClaims.v
Command.v
CommandClaims.v
