(* ===== verification/Prelude.v ===== *)
(** Verification of commit-ci-preflight.

    The program runs a repository's checks locally in a container, before a
    commit is pushed, and writes a receipt; a verifier later decides, from the
    receipt, a policy and a trusted configuration, whether the commit may count
    as checked.  This library models the parts that decide something, as Rocq
    functions that can be evaluated, and proves what makes them correct.  Source
    files are named below as they are under [src/src/].

    * The parts and how they interact

    A configuration ([config.rs]) is validated and normalised into an execution
    plan, identified by the digest of its canonical JSON ([receipt.rs]).  The
    storage preflight ([storage.rs]) checks the budget of the plan.  A run is
    recorded in the run journal ([run_journal.rs]) with durable writes
    ([durable_fs.rs]), is admitted and supervised by the resource guard
    ([resource.rs]), and ends in a receipt ([receipt.rs]) that embeds the plan.
    One run at a time has the host: the processes queue in the admission
    coordinator ([admission.rs]), a directory of tickets, leases and lock files.
    The verifier ([verify.rs]) reads the receipt, evaluates the policy and compares
    the embedded plan with the one rebuilt from the trusted configuration.  A
    matrix ([matrix.rs], [matrix_legacy.rs]) runs its checks in several runtimes:
    its plan holds one plan and its receipt one receipt per runtime.
    Three smaller parts stand beside: a guarded run leaves a record in the resource
    history ([resource_history.rs]) and identifies the session of the agent that
    started it ([agent_session.rs]).  Build caches are kept in a store
    ([cache.rs], [cache_payload.rs]) whose entries are prepared beside the current
    generation and promoted together.  The workspace of a run ([workspace.rs])
    mounts the repository, the caches and the artifacts, under a lock; after the run
    its artifacts are observed for the receipt.  A check runs in a container whose
    life the runtime keeps ([runtime.rs]), by commands that the supervisor of
    processes ([process.rs]) starts, watches and cleans up.  The run ([run.rs]) puts
    these together, from a plan to a sealed receipt and its file, on the repository or
    on a snapshot of a commit ([source_snapshot.rs]).  The command ([main.rs],
    [terminal.rs]) makes that snapshot, keeps the journal of the run, holds the slot
    while the run lasts, and turns what happened into an exit code; it also runs any
    other program under the same slot and watchdog.  [benchmark.rs] times a fixed
    workload, and [economic_evaluation.rs] compares hosted and local runs.

    * Which file models what

    - [Prelude]: results with the [?] operator, loops that may fail, machine
      integers, and the tactics [bool_prop], [res_inv], [res_step], [opt_inv].
    - [RustStr]: [str] as its UTF-8 bytes, with decoding, trimming, splitting and
      parsing of numbers.  [BTree]: [BTreeSet] and [BTreeMap] as sorted lists.
    - [Calendar]: [parse_utc_seconds], [format_unix_utc] and the two conversions
      between days and dates of [verify.rs].
    - [Canonical]: [normalize_json], [canonical_json] and [canonical_digest] of
      [receipt.rs].  Class [Backend] is the code outside the repository:
      [serde_json::to_vec] on a value and SHA-256; [BackendOk] states that a hash
      has 32 bytes.
    - [Config]: [config.rs], each type with its serialisation, each validator, and
      [into_plan].  [TopoSort] and [ConfigProps] hold the
      lemmas on the sort of the checks and on the loops; [PlanProps] those on paths
      and environments; [Storage] is [storage.rs]; [PlanClaims] has the theorems.
    - [Receipt]: both receipt versions with validation, [seal] and [verify]
      (functions of one name in several [impl]s carry the version: [verify1],
      [verify2]); lemmas in [ReceiptProps], theorems in [ReceiptClaims].
    - [Verify]: the policies 1.0 and 1.1, reports and plan comparison of
      [verify.rs].  Class [Parsers] is [serde_json::from_slice] at the three types
      it reads, [ParsersStrict] its documented strictness.  [ComparePlan] has the
      lemmas on the comparison, [VerifyProps] the abstract acceptance
      predicates, [VerifyClaims] the theorems.
    - [Matrix]: the configuration and the plan of [matrix.rs] under both profiles,
      with the projection of [matrix_legacy.rs]; [MatrixReceipt]: its receipts, its
      policy and the verification of a document.  Class [MatrixParser] is
      [serde_json::from_slice] at the envelope.  Lemmas in [MatrixProps] and
      [MatrixReceiptProps], theorems in [MatrixClaims] and [MatrixReceiptClaims].
    - [Durable]: the operations of [durable_fs.rs] on a tree of files, directories
      and links.
    - [RunJournal]: [run_journal.rs]; the store is the token of its root and the
      tree below [runs].  Each operation is a program of [disk] ([create_run_on_disk]
      and the like), whose effects may fail and leave a part of what they do; on a disk
      that does not fail it is a function of the store ([create_run] and the like), which
      the commands use.  Class [Codec] is [serde_json] at the three record types,
      [JournalLaws] its round trips and the size of the two small records.
      [RunJournalProps] says what a readable journal is, [JournalStore] has the
      invariants of the store and the step relations of its operations, on a disk that
      does not fail ([journal_step]) and on any disk ([disk_step]), [JournalClaims] the
      theorems.
    - [Resource]: [resource.rs], with the types it takes from [process.rs]: parsers
      and probe, admission, watchdog state and loop; lemmas and the declarative
      policy in [ResourceProps], theorems in [ResourceClaims].
    - [Admission]: [admission.rs] on a [Host], the tree of the coordinator with the
      holders of its locks.  Each operation that holds the queue lock is one step;
      [enter] is [acquire] up to its loop, [poll] one turn of the loop, [heartbeat]
      one beat of the thread.  Record [Env] is what a process reads of its
      surroundings.  [Reconcile]: its preview and apply, record [Faults] what
      fails on the way.  Lemmas: [AdmissionProps] on names and the tree,
      [AdmissionScan] on the scan of the tickets, [AdmissionOps], [AdmissionEnter]
      and [ReconcileProps] on the operations.  [AdmissionWorld]
      has the processes, the step relation [world_step] and its invariant;
      [AdmissionClaims] and [ReconcileClaims] the theorems.  Class
      [AdmissionLaws] has the round trips of [serde_json] at the two records;
      [AdmissionExample] instantiates it with [FieldCodec].
    - [Evaluation], [Benchmark], [ResourceHistory], [AgentSession]: the files of
      those names, each with its lemmas, its declarative account and its theorems
      there or in the [...Claims] file beside it.  What fails while a file is written is a
      record of faults, the answers of the platform are a record of answers.
    - [FileSystem]: a tree addressed by paths, and the monad [fs] of programs that
      change it effect by effect.  A list of fates decides for each effect whether
      it happens, fails or is the last thing the process does, with what a partial
      write or removal leaves.  [crash_triple] says what holds after a completed
      run and wherever it was left, [runs] what an uninterrupted run does, [keeps]
      what a program does not touch.
    - [CachePayload], [CacheRoot], [Cache]: [cache_payload.rs] and [cache.rs] in
      that monad; class [CacheParser] is [serde_json::from_slice] at the manifest
      and the journal, record [PathOracle] what the system says of paths, record
      [CacheProcess] the identifier and the platform of the process.  [CacheProps]
      has the states in which a promotion can leave an entry and the recovery of
      each, [CachePromotion] the promotion of several entries,
      [CachePayloadClaims] and [CacheClaims] the theorems.
    - [Workspace], [Artifacts]: [workspace.rs] in the same monad, up to the mounts
      before use and from the observation of the artifacts on; record [HostView] is
      what the system says of paths outside the cache root.  [between] of
      [Artifacts] is what other processes do while a file is read.
      [WorkspaceProps] has the lemmas on targets, sources and the mounts of a
      plan, [ArtifactProps] the reference observation and the lemmas on it,
      [WorkspaceClaims] and [ArtifactClaims] the theorems.
    - [Ports]: the monad [io] of programs that call the system through ports, with
      total correctness [meets] and what holds if they end, [ends].
    - [Process]: [process.rs] in it.  Class [Surroundings] is the traits of a child
      with the clock, the token and the guard; [std_surroundings] implements it over
      class [Os], the calls of the system.  [ProcessProps] has class
      [SurroundingsLaws], what the supervisor relies on, and its theorem over that
      interface; [ProcessClaims] shows that the child of Unix keeps the laws, given
      what is documented of the system ([OsLaws]), and has the theorems.
    - [Runtime]: [runtime.rs] over class [SupervisorPort], the trait of [process.rs];
      class [ValueParser] is [serde_json] on the answers of the daemon.
      [RuntimeProps] has the lemmas on arguments and environments and the contract
      of the life of a container ([life]), [RuntimeClaims] the theorems, some with
      what is documented of the daemon ([DaemonLaws]).
    - [SourceSnapshot]: [source_snapshot.rs] on [HostFiles], the tree of the host with
      the files that are executable.  Class [SourceBlobPort] is the port for large
      objects.  [SourceSnapshotProps] has the lemmas on listings, trees and programs
      over the host, and what is documented of Git ([GitLaws]);
      [SourceSnapshotClaims] the theorems.
    - [RunParts], [Run]: [run.rs], in [RunParts] the evidence, the status, the clock and
      the receipt file, in [Run] the run itself on a [machine] with the trees of the
      cache root and of the host.  Classes [RuntimePort] and [RunPorts] are the traits
      that a run is given; [docker_runtime] implements the first with [Runtime].
      [RunProps] says what a receipt tells of its run ([truthful]), [RunPartsProps] has the
      lemmas on the receipt file and the clock, [RunClaims] the theorems.
    - [Command]: [main.rs] and [terminal.rs].  [print_run] is a local run on a machine
      with a [Shell]: its journal ([JournalStore]), the barrier of its watchdog and the
      guards it owns; the rest of the machine is framed ([frame]), so that no port
      changes the shell.  [print_guard_exec] is the guarded execution.  Classes
      [CommandPorts] and [GuardPorts] are the slot, the watchdog and the system.
      [CommandClaims] has the lemmas and the theorems.

    * What the theorems show

    - Plans ([PlanClaims]): the checks of a plan are the configured ones in the
      least topological order; a reported cycle is real; [into_plan] never panics;
      the plan and its digest do not depend on the order of the configuration, but for
      the arguments and the artifact contracts of a check; the
      locations a plan writes never overlap; names are bound once and remote
      secrets never reach the container; the storage budget never overflows; the
      digest identifies the plan up to a collision.
    - Receipts ([ReceiptClaims]): an envelope verifies exactly when sealing its
      receipt gives it; its identifier binds the whole receipt; its status, its
      evidence and its artifacts are what its plan and its checks say.
    - Verification ([VerifyClaims]): a report passes exactly when the abstract
      policy accepts, findings and statuses agree on every path, and a passing
      trusted-plan report means that the trusted configuration ran.
    - Matrix ([MatrixClaims], [MatrixReceiptClaims]): the plan of a matrix is the
      plans of its runtimes; a report passes exactly when the abstract policy
      accepts, and then every required check passed in its runtime.  One theorem
      states that the freshness of a matrix is that of its outer run alone.
    - Run journal ([JournalClaims]): nothing recorded is lost by any sequence of
      operations, journals never skip a state, and each operation does what it says, on
      a disk that does not fail; every directory that the operations leave on any disk
      is understood by recovery, where only the run of an operation that was broken off
      may need the operator.
    - Resource guard ([ResourceClaims]): the watchdog trips exactly as its policy
      on the whole history says; samples are exact and never make a later step
      fail; sizes are read exactly.

    - Admission ([AdmissionClaims], [ReconcileClaims]): the coordinator
      implements a first-come queue with one place, whatever processes die between
      operations; one process runs at a time; the dead keep nobody waiting; the
      status and reconciliation reports are true, in each classification.  Two theorems state that a
      leftover or a passing temporary file makes operations fail.
    - The smaller parts: an evaluation reports exactly what a declarative account
      of the worksheet says ([Evaluation]); a benchmark document is accepted
      exactly when it keeps the contract, and its publication is atomic
      ([BenchmarkClaims]); the history holds the newest records whose append
      succeeded ([ResourceHistoryClaims]); a session is reported live exactly when
      all the evidence agrees ([AgentSession]).
    - The cache ([CacheClaims], [CachePayloadClaims]): a promotion that is interrupted
      once its journal is written recovers to whole generations, the new ones a prefix
      of the journal, and before that only the journal has changed; the root
      is only accepted where it is safe; a key names its inputs; copies and sizes of
      payloads and the clean-up report are exact, and a copy into its own source never
      completes.  Three theorems show where
      recovery is refused: a first payload without its marker, a recovery that was
      interrupted itself, and entries whose locks the caller holds.
    - Workspaces ([WorkspaceClaims], [ArtifactClaims]): what a container can write
      to is confined to the cache root, and a plan is refused only for two
      characters; a run has its workspace for itself; the evidence of artifacts is
      that of a reference listing, and with others at work it is of what was read.
      One theorem states what the preparation of artifacts leads to: an artifact
      that no check writes counts as present.
    - Processes ([ProcessClaims]): the supervisor always returns and leaves no process
      behind unless it says so; what it captures of a stream is exact.
    - Containers ([RuntimeClaims]): a result is that of a life as the contract has it,
      and a check only passes when its container ran it and is gone; mounts, commands
      and environments are exactly those of the plan, but for a dropped argument;
      the evidence of the preflight makes a valid receipt.  One theorem states which
      lost commands leave a container.
    - Source snapshots ([SourceSnapshotClaims]): a listing of Git is read exactly; a
      snapshot that is revalidated holds the files of its commit and no others; one
      that cannot be made leaves nothing behind.
    - Runs ([RunClaims]): a passing receipt means that its checks ran on its commit and
      passed, and on Docker each evidence is that of a life of a container; what is
      published is that receipt, whole wherever the writing is interrupted; its clock
      is that of the verification.  Two theorems state which results make no receipt.
    - Commands ([CommandClaims]): a local run is accounted for in its journal whichever
      way it ends and keeps no slot; it exits with zero only on a passing receipt; a
      receipt that is published is never contradicted by the watchdog, only by a slot
      that cannot be released or a snapshot that cannot be removed; a matrix run seals nothing before its slot and snapshot
      are gone; the exit code of a guarded execution, and what its history records.

    * Fuel, widths and hypotheses

    The fuel of [Config.topo_loop] is the number of checks: each turn emits one
    check, and [PlanClaims.into_plan_total] proves that it never runs out.  That of
    [CacheRoot.canonicalize_loop] is the number of components, of which each turn
    drops one; its waits have the number of turns of the code.  That of
    [CachePayload.copy_payload_node] is one more than the nodes that are left to count;
    each call counts one first, and any greater fuel gives the same copy
    ([CachePayloadClaims.copy_fuel_enough]).  That of
    [Artifacts.observe_loop] is the number of directories
    ([ArtifactClaims.observe_artifacts_exact]).  The supervisor needs a turn for each
    poll within the time of its request, and the waits of a child one for each poll
    within the grace period ([ProcessClaims.supervision_leaves_nothing]).  Integers are [Z] with the bounds of their types; checked, saturating and
    wrapping operations are written out.  A panic of the source is the value
    [Panic] of [fault], so its absence is a theorem and its presence too.  Statements
    on digests say "or a collision exists" ([Canonical.Collision]) and
    assume nothing about SHA-256 but the length of its output.  The order in
    which the system lists a directory is any permutation of its entries
    ([AdmissionOps.env_ok]); a process of the coordinator may end between any two
    operations, and within one only in the theorems on temporary files.

    * What is not modelled

    Reading files, parsing the command line and printing, and the commands that only
    print a report; what a matrix run gives to its lifecycle; texts of error messages, generated JSON schemas, threads and processes.  In the run journal,
    the creation of its root directory and of the root token; what a machine that loses
    its power has not yet made durable.  The commands work on a journal whose disk does
    not fail; the theorems on the journal itself have both disks.  In the
    admission coordinator, the choice of its root directory.  In the matrix, the
    execution of a run and the overlay of its sources.  Of the agent sessions,
    the boot identifier and the random capability.  In the cache, reading the
    environment, creating the directories above the root, and [clonefile], whose
    answer is given; reads of a file that is there succeed; the recovery of a promotion
    whose journal was only written in part.  Of the processes, the Windows
    variants and the threads that read, whose answers are given.  Of a run, the public
    functions that only fill in default traits.  The import of GitHub Actions walks
    the values and events of a third-party YAML parser, and its report is for a
    person; a capability pack expands into a configuration, which is modelled from
    there on; the JSON schemas are generated. *)
From stdpp Require Export base tactics option list numbers sets strings sorting.
From Stdlib Require Export Ascii.
From Stdlib Require Export ZArith Lia Sorted.

#[global] Set Warnings "-clear-no-such-hyp,-register-all".

Declare Scope ccp_scope.
Delimit Scope ccp_scope with ccp.

(** * Results

    [Result<T, E>] of the source is [result E T]; the error type comes first so
    that [result E] is a monad and stdpp's [x ← e; k] notation is the [?]
    operator. *)
Inductive result (E T : Type) : Type :=
  | Ok (x : T)
  | Err (e : E).
Arguments Ok {E T} x.
Arguments Err {E T} e.

#[global] Instance result_ret (E : Type) : MRet (result E) := λ _ x, Ok x.
#[global] Instance result_bind (E : Type) : MBind (result E) :=
  λ _ _ f m, match m with Ok x => f x | Err e => Err e end.

(** [Result::is_ok]. *)
Definition is_ok {E T} (r : result E T) : bool :=
  match r with Ok _ => true | Err _ => false end.

(** [if !b { return Err(e) }]. *)
Definition ensure {E} (b : bool) (e : E) : result E () :=
  if b then Ok () else Err e.

(** [Option::ok_or]. *)
Definition ok_or {E T} (o : option T) (e : E) : result E T :=
  match o with Some x => Ok x | None => Err e end.

(** [Result::map_err]. *)
Definition map_err {E F T} (f : E → F) (r : result E T) : result F T :=
  match r with Ok x => Ok x | Err e => Err (f e) end.

(** [Vec::is_empty]. *)
Definition is_nil {T} (l : list T) : bool := match l with [] => true | _ => false end.

(** [Option::is_some]. *)
Definition is_Some_b {T} (o : option T) : bool :=
  match o with Some _ => true | None => false end.

(** [Result::ok]. *)
Definition to_option {E T} (r : result E T) : option T :=
  match r with Ok x => Some x | Err _ => None end.

(** A [for] loop whose body may leave with [?], threading its mutable locals. *)
Fixpoint try_fold {E S A} (f : S → A → result E S) (s : S) (l : list A) : result E S :=
  match l with
  | [] => Ok s
  | a :: l => s' ← f s a; try_fold f s' l
  end.

(** A [for] loop without mutable locals. *)
Fixpoint try_each {E A} (f : A → result E ()) (l : list A) : result E () :=
  match l with
  | [] => Ok ()
  | a :: l => _ ← f a; try_each f l
  end.

(** [Iterator::try_fold] on [Option]. *)
Fixpoint opt_fold {S A} (f : S → A → option S) (s : S) (l : list A) : option S :=
  match l with
  | [] => Some s
  | a :: l => s' ← f s a; opt_fold f s' l
  end.

(** What a model can reach and the code does not return: a panic, or a loop that
    would need more turns than its fuel.  An error type that has a constructor for
    it makes their absence a theorem. *)
Inductive fault : Type := Panic | OutOfFuel.

(** * Machine integers

    A [w]-bit integer is a [Z] in its range; the checked operations of the
    source return [None] outside it. *)
Definition u8_max : Z := 2 ^ 8 - 1.
Definition u32_max : Z := 2 ^ 32 - 1.
Definition u64_max : Z := 2 ^ 64 - 1.
Definition u128_max : Z := 2 ^ 128 - 1.
Definition i64_min : Z := - 2 ^ 63.
Definition i64_max : Z := 2 ^ 63 - 1.

Definition u64 (z : Z) : Prop := (0 ≤ z ≤ u64_max)%Z.

Definition checked_u64 (z : Z) : option Z :=
  if (0 <=? z)%Z && (z <=? u64_max)%Z then Some z else None.
Definition checked_u128 (z : Z) : option Z :=
  if (0 <=? z)%Z && (z <=? u128_max)%Z then Some z else None.
Definition checked_i64 (z : Z) : option Z :=
  if (i64_min <=? z)%Z && (z <=? i64_max)%Z then Some z else None.

(** Wrap-around of the unchecked operations, and the saturating ones. *)
Definition wrap_u128 (z : Z) : Z := (z mod 2 ^ 128)%Z.
Definition saturating_u64 (z : Z) : Z := (0 `max` (u64_max `min` z))%Z.
Definition saturating_u8 (z : Z) : Z := (0 `max` (u8_max `min` z))%Z.

(** [(lo..=hi).contains(&x)]. *)
Definition in_range (lo hi x : Z) : bool := (lo <=? x)%Z && (x <=? hi)%Z.

(** * Automation *)

(** [bool_prop] turns the boolean tests of the code into the propositions they
    decide, everywhere in the context. *)
Ltac bool_prop :=
  repeat match goal with
  | H : is_true _ |- _ => unfold is_true in H
  | H : Is_true _ |- _ => apply Is_true_true in H
  | H : andb _ _ = true |- _ => apply andb_true_iff in H; destruct H
  | H : orb _ _ = false |- _ => apply orb_false_iff in H; destruct H
  | H : negb _ = true |- _ => apply negb_true_iff in H
  | H : negb _ = false |- _ => apply negb_false_iff in H
  | H : Z.leb _ _ = true |- _ => apply Z.leb_le in H
  | H : Z.leb _ _ = false |- _ => apply Z.leb_gt in H
  | H : Z.ltb _ _ = true |- _ => apply Z.ltb_lt in H
  | H : Z.ltb _ _ = false |- _ => apply Z.ltb_ge in H
  | H : Z.eqb _ _ = true |- _ => apply Z.eqb_eq in H
  | H : Z.eqb _ _ = false |- _ => apply Z.eqb_neq in H
  | H : Nat.eqb _ _ = true |- _ => apply Nat.eqb_eq in H
  | H : Nat.eqb _ _ = false |- _ => apply Nat.eqb_neq in H
  | H : Nat.leb _ _ = true |- _ => apply Nat.leb_le in H
  | H : Nat.leb _ _ = false |- _ => apply Nat.leb_gt in H
  | H : Nat.ltb _ _ = true |- _ => apply Nat.ltb_lt in H
  | H : Nat.ltb _ _ = false |- _ => apply Nat.ltb_ge in H
  | H : String.eqb _ _ = true |- _ => apply String.eqb_eq in H
  | H : String.eqb _ _ = false |- _ => apply String.eqb_neq in H
  | H : bool_decide _ = true |- _ => apply bool_decide_eq_true in H
  | H : bool_decide _ = false |- _ => apply bool_decide_eq_false in H
  end.

Lemma ok_inj {E T} (x y : T) : @Ok E T x = Ok y → x = y.
Proof. congruence. Qed.

Lemma bind_ok {E A B} (m : result E A) (f : A → result E B) b :
  (m ≫= f) = Ok b ↔ ∃ a, m = Ok a ∧ f a = Ok b.
Proof. destruct m; cbn; naive_solver. Qed.

Lemma bind_err {E A B} (m : result E A) (f : A → result E B) e :
  (m ≫= f) = Err e ↔ m = Err e ∨ ∃ a, m = Ok a ∧ f a = Err e.
Proof. destruct m; cbn; naive_solver. Qed.

Lemma ensure_ok {E} b (e : E) u : ensure b e = Ok u ↔ b = true.
Proof. destruct b, u; cbn; naive_solver. Qed.

Lemma ensure_err {E} b (e e' : E) : ensure b e = Err e' ↔ b = false ∧ e = e'.
Proof. destruct b; cbn; naive_solver. Qed.

Lemma ok_or_ok {E T} (o : option T) (e : E) x : ok_or o e = Ok x ↔ o = Some x.
Proof. destruct o; cbn; naive_solver. Qed.

Lemma map_err_ok {E F T} (f : E → F) (r : result E T) x : map_err f r = Ok x ↔ r = Ok x.
Proof. destruct r; cbn; naive_solver. Qed.

Lemma is_ok_spec {E T} (r : result E T) : is_ok r = true ↔ ∃ x, r = Ok x.
Proof. destruct r; cbn; naive_solver. Qed.

Lemma is_ok_unit {E} (r : result E ()) : is_ok r = true ↔ r = Ok ().
Proof. destruct r as [[]|]; cbn; naive_solver. Qed.

(** [res_inv] opens every successful sequence of [?] steps in the context. *)
Ltac res_inv :=
  repeat match goal with
  | H : mbind _ _ = Ok _ |- _ => apply bind_ok in H; destruct H as (? & ? & H)
  | H : ensure _ _ = Ok _ |- _ => apply ensure_ok in H
  | H : ok_or _ _ = Ok _ |- _ => apply ok_or_ok in H
  | H : map_err _ _ = Ok _ |- _ => apply map_err_ok in H
  | H : mret _ = Ok _ |- _ => injection H as H
  | H : Ok _ = Ok _ |- _ => injection H as H
  | H : Err _ = Ok _ |- _ => discriminate H
  | H : Ok _ = Err _ |- _ => discriminate H
  | u : unit |- _ => destruct u
  end.

(** [err_inv] splits a failed sequence of steps into the steps that can fail. *)
Ltac err_inv :=
  repeat match goal with
  | H : mbind _ _ = Err _ |- _ => apply bind_err in H as [H|(? & ? & H)]
  | H : ensure _ _ = Err _ |- _ => apply ensure_err in H as [_ H]
  | H : map_err _ ?r = Err _ |- _ => destruct r; cbn in H
  | H : ok_or ?o _ = Err _ |- _ => destruct o; cbn in H
  | H : Ok _ = Err _ |- _ => discriminate H
  | H : Err _ = Ok _ |- _ => discriminate H
  | H : Err _ = Err _ |- _ => injection H as H
  end.

(** [res_step] goes forward: it splits a goal that a sequence of [?] steps
    succeeds into its first step and the rest. *)
Ltac res_step := apply bind_ok; first [exists (); split | eexists; split].

(** [opt_inv] does the same for [Option]. *)
Ltac opt_inv :=
  repeat match goal with
  | H : mbind _ _ = Some _ |- _ => apply bind_Some in H; destruct H as (? & ? & H)
  | H : Some _ = Some _ |- _ => injection H as H
  | H : None = Some _ |- _ => discriminate H
  end.

(** * Loops *)

Lemma try_each_ok {E A} (f : A → result E ()) l :
  try_each f l = Ok () ↔ Forall (λ a, f a = Ok ()) l.
Proof.
  induction l as [|a l IH]; cbn; [split; auto|].
  rewrite bind_ok, Forall_cons, <-IH. split; [|naive_solver].
  intros ([] & ? & ?); auto.
Qed.

Lemma try_fold_app {E S A} (f : S → A → result E S) s l1 l2 :
  try_fold f s (l1 ++ l2) = (s' ← try_fold f s l1; try_fold f s' l2).
Proof.
  revert s; induction l1 as [|a l IH]; intros s; cbn; [done|].
  destruct (f s a); cbn; auto.
Qed.

(** The loop invariant rule: [I] holds of the prefix consumed so far. *)
Lemma try_fold_inv {E S A} (I : list A → S → Prop) (f : S → A → result E S) l :
  ∀ s s',
  I [] s →
  (∀ pre a st st', I pre st → f st a = Ok st' → I (pre ++ [a]) st') →
  try_fold f s l = Ok s' → I l s'.
Proof.
  intros s s' H0 Hstep.
  assert (G : ∀ l pre st, I pre st → try_fold f st l = Ok s' → I (pre ++ l) s').
  { clear -Hstep. induction l as [|a l IH]; intros pre st HI H; cbn in H; res_inv.
    - subst. by rewrite app_nil_r.
    - replace (pre ++ a :: l) with ((pre ++ [a]) ++ l) by by rewrite <-app_assoc.
      eauto. }
  apply (G l [] s H0).
Qed.

Lemma try_fold_err {E S A} (f : S → A → result E S) s l e :
  try_fold f s l = Err e → ∃ st a, f st a = Err e.
Proof.
  revert s. induction l as [|a l IH]; intros s; cbn; [done|].
  intros [H|(s' & _ & H)]%bind_err; [by exists s, a|by eapply IH].
Qed.

(** * Checked arithmetic *)

Lemma checked_u64_some z w : checked_u64 z = Some w ↔ w = z ∧ u64 z.
Proof.
  unfold checked_u64, u64. destruct (_ && _) eqn:E.
  - bool_prop. naive_solver.
  - split; [done|]. intros [-> [? ?]].
    apply andb_false_iff in E as [?|?]; bool_prop; lia.
Qed.

Lemma checked_i64_some z w :
  checked_i64 z = Some w ↔ w = z ∧ (i64_min ≤ z ≤ i64_max)%Z.
Proof.
  unfold checked_i64. destruct (_ && _) eqn:E.
  - bool_prop. naive_solver.
  - split; [done|]. intros [-> [? ?]].
    apply andb_false_iff in E as [?|?]; bool_prop; lia.
Qed.

Lemma checked_u128_some z w :
  checked_u128 z = Some w ↔ w = z ∧ (0 ≤ z ≤ u128_max)%Z.
Proof.
  unfold checked_u128. destruct (_ && _) eqn:E.
  - bool_prop. naive_solver.
  - split; [done|]. intros [-> [? ?]].
    apply andb_false_iff in E as [?|?]; bool_prop; lia.
Qed.

Lemma in_range_spec lo hi x : in_range lo hi x = true ↔ (lo ≤ x ≤ hi)%Z.
Proof. unfold in_range. rewrite andb_true_iff, !Z.leb_le. lia. Qed.

(** * Lists *)

Lemma existsb_false {A} (f : A → bool) l :
  existsb f l = false ↔ Forall (λ x, f x = false) l.
Proof.
  induction l as [|a l IH]; cbn; [split; auto|].
  by rewrite orb_false_iff, Forall_cons, IH.
Qed.

Lemma forallb_Forall {A} (f : A → bool) l :
  forallb f l = true ↔ Forall (λ x, f x = true) l.
Proof.
  induction l as [|a l IH]; cbn; [split; auto|].
  by rewrite andb_true_iff, Forall_cons, IH.
Qed.

Create HintDb ccp discriminated.
Create Rewrite HintDb ccp_ok.
#[export] Hint Rewrite @ensure_ok @ok_or_ok @map_err_ok @is_ok_unit in_range_spec : ccp_ok.
#[export] Hint Resolve Forall_nil_2 Forall_cons_2 : ccp.
