(* ===== verification/RustStr.v ===== *)
(** Rust's [str]: a string is its UTF-8 bytes.

    A Rocq [string] is a sequence of bytes ([ascii]), which is what a Rust [str]
    stores; [len], [as_bytes], [==] and [<] are the byte-level operations, and
    [chars] decodes the bytes into scalar values the way the core library does,
    so that [char::is_control], [char::is_whitespace] and [trim] see characters
    and not bytes.  The operations below are the ones the sources use. *)
From S2P Require Import Prelude.
Local Open Scope Z_scope.

(** * Bytes *)

Definition bytes (s : string) : list ascii := String.list_ascii_of_string s.
Definition str (l : list ascii) : string := String.string_of_list_ascii l.

(** The value of a byte. *)
Definition code (a : ascii) : Z := Z.of_N (N_of_ascii a).

(** [str::len], the number of bytes. *)
Definition len (s : string) : Z := Z.of_nat (String.length s).
Definition is_empty (s : string) : bool := (s =? "")%string.

Definition is_ascii_digit (a : ascii) : bool := in_range 48 57 (code a).
Definition is_ascii_lowercase (a : ascii) : bool := in_range 97 122 (code a).
Definition is_ascii_alphabetic (a : ascii) : bool :=
  in_range 65 90 (code a) || in_range 97 122 (code a).
Definition is_ascii_alphanumeric (a : ascii) : bool :=
  is_ascii_digit a || is_ascii_alphabetic a.
(** [byte.is_ascii_digit() || (b'a'..=b'f').contains(&byte)]. *)
Definition is_lower_hex (a : ascii) : bool :=
  is_ascii_digit a || in_range 97 102 (code a).
Definition is_ascii_whitespace (a : ascii) : bool :=
  existsb (Z.eqb (code a)) [9; 10; 12; 13; 32].

Definition all_bytes (f : ascii → bool) (s : string) : bool := forallb f (bytes s).

(** * Characters *)

(** Decoding of the UTF-8 bytes: each scalar value with the bytes it was read
    from ([core::str::next_code_point], which relies on the string being
    well-formed UTF-8). *)
Fixpoint decode_utf8 (l : list ascii) : list (Z * list ascii) :=
  match l with
  | [] => []
  | b0 :: r0 =>
    let x := code b0 in
    if x <? 128 then (x, [b0]) :: decode_utf8 r0 else
    match r0 with
    | [] => []
    | b1 :: r1 =>
      let y := Z.land (code b1) 63 in
      if x <? 224 then
        (Z.lor (Z.shiftl (Z.land x 31) 6) y, [b0; b1]) :: decode_utf8 r1
      else
      match r1 with
      | [] => []
      | b2 :: r2 =>
        let z := Z.land (code b2) 63 in
        if x <? 240 then
          (Z.lor (Z.shiftl (Z.land x 15) 12) (Z.lor (Z.shiftl y 6) z), [b0; b1; b2])
            :: decode_utf8 r2
        else
        match r2 with
        | [] => []
        | b3 :: r3 =>
          let w := Z.land (code b3) 63 in
          (Z.lor (Z.shiftl (Z.land x 7) 18)
             (Z.lor (Z.shiftl y 12) (Z.lor (Z.shiftl z 6) w)), [b0; b1; b2; b3])
            :: decode_utf8 r3
        end
      end
    end
  end.

(** Whether [std::str::from_utf8] accepts the bytes: no overlong form, no
    surrogate, no value above U+10FFFF, nothing truncated. *)
Fixpoint valid_utf8 (l : list ascii) : bool :=
  match l with
  | [] => true
  | b0 :: r0 =>
    let x := code b0 in
    if x <? 128 then valid_utf8 r0 else
    match r0 with
    | [] => false
    | b1 :: r1 =>
      let y := code b1 in
      if in_range 194 223 x then in_range 128 191 y && valid_utf8 r1 else
      match r1 with
      | [] => false
      | b2 :: r2 =>
        let third := in_range 128 191 (code b2) in
        if x =? 224 then in_range 160 191 y && third && valid_utf8 r2
        else if in_range 225 236 x || in_range 238 239 x then
          in_range 128 191 y && third && valid_utf8 r2
        else if x =? 237 then in_range 128 159 y && third && valid_utf8 r2
        else
        match r2 with
        | [] => false
        | b3 :: r3 =>
          let fourth := in_range 128 191 (code b3) in
          (if x =? 240 then in_range 144 191 y
           else if in_range 241 243 x then in_range 128 191 y
           else (x =? 244) && in_range 128 143 y) && third && fourth && valid_utf8 r3
        end
      end
    end
  end.

(** [std::str::from_utf8]. *)
Definition from_utf8 (l : list ascii) : option string :=
  if valid_utf8 l then Some (str l) else None.

(** [str::split_at], which panics ([None]) inside a character. *)
Definition is_char_boundary (s : string) (i : nat) : bool :=
  match drop i (bytes s) with
  | a :: _ => (i =? 0)%nat || negb (in_range 128 191 (code a))
  | [] => (i <=? length (bytes s))%nat
  end.
Definition split_at (i : nat) (s : string) : option (string * string) :=
  if is_char_boundary s i then Some (str (take i (bytes s)), str (drop i (bytes s))) else None.

Definition chars (s : string) : list Z := (decode_utf8 (bytes s)).*1.

(** [char::is_control]: general category Cc. *)
Definition is_control (c : Z) : bool := in_range 0 31 c || in_range 127 159 c.

(** [char::is_whitespace]: the property White_Space. *)
Definition is_whitespace (c : Z) : bool :=
  in_range 9 13 c || existsb (Z.eqb c) [32; 133; 160; 5760; 8232; 8233; 8239; 8287; 12288]
  || in_range 8192 8202 c.

Definition has_control (s : string) : bool := existsb is_control (chars s).

(** [char::is_ascii_alphabetic] and [char::is_ascii_alphanumeric]. *)
Definition char_is_alphabetic (c : Z) : bool := in_range 65 90 c || in_range 97 122 c.
Definition char_is_alphanumeric (c : Z) : bool := in_range 48 57 c || char_is_alphabetic c.

Fixpoint drop_while {A} (f : A → bool) (l : list A) : list A :=
  match l with
  | [] => []
  | a :: l' => if f a then drop_while f l' else l
  end.

(** [str::trim]. *)
Definition trim (s : string) : string :=
  let ws := λ p : Z * list ascii, is_whitespace p.1 in
  str (concat (reverse (drop_while ws (reverse (drop_while ws (decode_utf8 (bytes s)))))).*2).

(** * Searching and splitting *)

Definition contains_char (c : ascii) (s : string) : bool :=
  existsb (Ascii.eqb c) (bytes s).

Fixpoint strip_list (p l : list ascii) : option (list ascii) :=
  match p, l with
  | [], _ => Some l
  | a :: p, b :: l => if Ascii.eqb a b then strip_list p l else None
  | _ :: _, [] => None
  end.

(** [str::strip_prefix], [str::strip_suffix], [str::starts_with]. *)
Definition strip_prefix (p s : string) : option string :=
  str <$> strip_list (bytes p) (bytes s).
Definition strip_suffix (p s : string) : option string :=
  (str ∘ reverse) <$> strip_list (reverse (bytes p)) (reverse (bytes s)).
Definition starts_with (p s : string) : bool :=
  match strip_prefix p s with Some _ => true | None => false end.

Fixpoint contains_list (p l : list ascii) : bool :=
  match strip_list p l with
  | Some _ => true
  | None => match l with [] => false | _ :: l => contains_list p l end
  end.
(** [str::contains] with a string pattern. *)
Definition contains_str (p s : string) : bool := contains_list (bytes p) (bytes s).

Fixpoint split_list (c : ascii) (l : list ascii) : list (list ascii) :=
  match l with
  | [] => [[]]
  | a :: l =>
    let r := split_list c l in
    if Ascii.eqb a c then [] :: r
    else match r with
         | [] => [[a]]
         | w :: r => (a :: w) :: r
         end
  end.
(** [str::split] with an ASCII character. *)
Definition split (c : ascii) (s : string) : list string := str <$> split_list c (bytes s).

Fixpoint split_once_list (c : ascii) (l : list ascii) : option (list ascii * list ascii) :=
  match l with
  | [] => None
  | a :: l =>
    if Ascii.eqb a c then Some ([], l)
    else '(x, y) ← split_once_list c l; Some (a :: x, y)
  end.
(** [str::split_once] and [str::rsplit_once] with an ASCII character. *)
Definition split_once (c : ascii) (s : string) : option (string * string) :=
  '(x, y) ← split_once_list c (bytes s); Some (str x, str y).
Definition rsplit_once (c : ascii) (s : string) : option (string * string) :=
  '(x, y) ← split_once_list c (reverse (bytes s)); Some (str (reverse y), str (reverse x)).

(** [str::lines]: split at line feeds, an empty last piece dropped and one
    carriage return before each line feed removed. *)
Definition line_feed : ascii := ascii_of_nat 10.
Definition carriage_return : ascii := ascii_of_nat 13.
Definition strip_cr (l : list ascii) : list ascii :=
  match reverse l with
  | c :: r => if Ascii.eqb c carriage_return then reverse r else l
  | [] => l
  end.
Fixpoint lines_list (ws : list (list ascii)) : list (list ascii) :=
  match ws with
  | [] => []
  | [w] => match w with [] => [] | _ => [w] end
  | w :: ws => strip_cr w :: lines_list ws
  end.
Definition lines (s : string) : list string :=
  str <$> lines_list (split_list line_feed (bytes s)).

Fixpoint words (cur : list ascii) (l : list (Z * list ascii)) : list (list ascii) :=
  match l with
  | [] => match cur with [] => [] | _ => [cur] end
  | (c, b) :: l =>
    if is_whitespace c
    then match cur with [] => words [] l | _ => cur :: words [] l end
    else words (cur ++ b) l
  end.
(** [str::split_whitespace]. *)
Definition split_whitespace (s : string) : list string :=
  str <$> words [] (decode_utf8 (bytes s)).

(** * Numbers *)

Definition digit_val (a : ascii) : Z := code a - 48.

Fixpoint digits_val (acc : Z) (l : list ascii) : option Z :=
  match l with
  | [] => Some acc
  | a :: l => if is_ascii_digit a then digits_val (acc * 10 + digit_val a) l else None
  end.

(** [str::parse] into an unsigned integer at most [max]: an optional plus sign,
    then at least one digit, and no overflow. *)
Definition parse_unsigned (max : Z) (s : string) : option Z :=
  let l := match bytes s with
           | a :: r => if Ascii.eqb a "+" then r else bytes s
           | [] => []
           end in
  match l with
  | [] => None
  | _ => v ← digits_val 0 l; if v <=? max then Some v else None
  end.

(** The ASCII digit of [d], and [n] in exactly [width] decimal digits, which is
    [{n:0width}] for [n] below [10 ^ width]. *)
Definition digit (d : Z) : ascii := ascii_of_N (Z.to_N (48 + d)).
Fixpoint pad_decimal (width : nat) (n : Z) : list ascii :=
  match width with
  | O => []
  | S w => pad_decimal w (n / 10) ++ [digit (n mod 10)]
  end.

(** [{n}]: no leading zeros. *)
Definition decimal_text (n : Z) : string :=
  match drop_while (λ a, Ascii.eqb a "0") (pad_decimal 40 n) with
  | [] => "0"
  | l => str l
  end.

(** * Properties *)

Lemma str_bytes s : str (bytes s) = s.
Proof. apply String.string_of_list_ascii_of_string. Qed.

Lemma bytes_str l : bytes (str l) = l.
Proof. apply String.list_ascii_of_string_of_list_ascii. Qed.

Lemma bytes_inj s t : bytes s = bytes t → s = t.
Proof. intros H. rewrite <-(str_bytes s), <-(str_bytes t). by rewrite H. Qed.

Lemma str_inj l m : str l = str m → l = m.
Proof. intros H. rewrite <-(bytes_str l), <-(bytes_str m). by rewrite H. Qed.

Lemma length_bytes s : length (bytes s) = String.length s.
Proof. unfold bytes. induction s; cbn; auto. Qed.

Lemma bytes_append s t : bytes (s +:+ t) = bytes s ++ bytes t.
Proof. unfold bytes, String.app. induction s; cbn; [done|]. by f_equal. Qed.

Lemma str_app l m : str (l ++ m) = str l +:+ str m.
Proof. apply bytes_inj. by rewrite bytes_append, !bytes_str. Qed.

Lemma code_bound a : 0 ≤ code a < 256.
Proof. unfold code. pose proof (N_ascii_bounded a). lia. Qed.

Lemma code_inj a b : code a = code b → a = b.
Proof.
  unfold code. intros H. apply N2Z.inj in H.
  by rewrite <-(ascii_N_embedding a), H, ascii_N_embedding.
Qed.

Lemma code_digit d : 0 ≤ d < 10 → code (digit d) = 48 + d.
Proof.
  intros H. unfold code, digit. rewrite N_ascii_embedding by lia. lia.
Qed.

Lemma digit_val_digit d : 0 ≤ d < 10 → digit_val (digit d) = d.
Proof. intros H. unfold digit_val. rewrite code_digit; lia. Qed.

Lemma is_ascii_digit_digit d : 0 ≤ d < 10 → is_ascii_digit (digit d) = true.
Proof. intros H. unfold is_ascii_digit. rewrite code_digit, in_range_spec by done. lia. Qed.

Lemma digit_of_val a : is_ascii_digit a = true → digit (digit_val a) = a.
Proof.
  unfold is_ascii_digit. rewrite in_range_spec. intros H. apply code_inj.
  unfold digit_val. rewrite code_digit; lia.
Qed.

Lemma digit_val_bound a : is_ascii_digit a = true → 0 ≤ digit_val a < 10.
Proof. unfold is_ascii_digit, digit_val. rewrite in_range_spec. lia. Qed.

Lemma length_pad_decimal w n : length (pad_decimal w n) = w.
Proof.
  revert n. induction w as [|w IH]; intros n; cbn; [done|].
  rewrite length_app, IH. cbn. lia.
Qed.

Lemma digits_val_app acc l m :
  digits_val acc (l ++ m) = (v ← digits_val acc l; digits_val v m).
Proof.
  revert acc. induction l as [|a l IH]; intros acc; cbn; [done|].
  destruct (is_ascii_digit a); cbn; auto.
Qed.

(** Printing in a fixed width and reading back. *)
Lemma digits_val_pad w n :
  0 ≤ n < 10 ^ Z.of_nat w → digits_val 0 (pad_decimal w n) = Some n.
Proof.
  revert n. induction w as [|w IH]; intros n Hn.
  - cbn in *. f_equal. lia.
  - cbn [pad_decimal]. rewrite digits_val_app, IH.
    + cbn. pose proof (Z.mod_pos_bound n 10).
      rewrite is_ascii_digit_digit, digit_val_digit by lia.
      f_equal. pose proof (Z.div_mod n 10). lia.
    + rewrite Nat2Z.inj_succ, Z.pow_succ_r in Hn by lia.
      split; [apply Z.div_pos; lia|]. apply Z.div_lt_upper_bound; lia.
Qed.

(** Reading digits and printing them back in the same width. *)
Lemma pad_digits_val l :
  ∀ n, digits_val 0 l = Some n →
  pad_decimal (length l) n = l ∧ 0 ≤ n < 10 ^ Z.of_nat (length l).
Proof.
  induction l as [|a l IH] using rev_ind; intros n H.
  - cbn in *. injection H as <-. split; [done|lia].
  - rewrite digits_val_app in H. destruct (digits_val 0 l) as [v|]; [|done].
    cbn in H. destruct (is_ascii_digit a) eqn:Ha; [|done]. injection H as <-.
    destruct (IH v eq_refl) as [Hp Hb]. pose proof (digit_val_bound a Ha).
    rewrite length_app, Nat.add_comm. cbn [length Nat.add pad_decimal].
    rewrite Nat2Z.inj_succ, Z.pow_succ_r by lia.
    rewrite Z.div_add_l, (Z.div_small (digit_val a)), Z.add_0_r by lia.
    rewrite Z.add_comm, Z.mod_add, Z.mod_small by lia.
    rewrite Hp, digit_of_val by done. split; [done|lia].
Qed.

Lemma digits_val_all l n : digits_val 0 l = Some n → forallb is_ascii_digit l = true.
Proof.
  generalize 0. induction l as [|a l IH]; intros acc; cbn; [done|].
  destruct (is_ascii_digit a); cbn; [eauto|done].
Qed.

Lemma strip_list_some p l r : strip_list p l = Some r ↔ l = p ++ r.
Proof.
  revert l. induction p as [|a p IH]; intros [|b l]; cbn; [naive_solver..|].
  destruct (Ascii.eqb_spec a b) as [->|]; [|naive_solver].
  rewrite IH. naive_solver.
Qed.

Lemma strip_prefix_some p s r : strip_prefix p s = Some r ↔ s = p +:+ r.
Proof.
  unfold strip_prefix. split.
  - intros H. apply fmap_Some in H as (l & H & ->). apply strip_list_some in H.
    apply bytes_inj. by rewrite bytes_append, bytes_str.
  - intros ->. apply fmap_Some. exists (bytes r).
    by rewrite strip_list_some, bytes_append, str_bytes.
Qed.

Lemma contains_char_spec c s : contains_char c s = true ↔ In c (bytes s).
Proof.
  unfold contains_char. rewrite existsb_exists. split.
  - intros (x & Hx & E). apply Ascii.eqb_eq in E. by subst.
  - intros H. exists c. by rewrite Ascii.eqb_refl.
Qed.

(** ASCII strings decode to their bytes. *)
Lemma decode_ascii l :
  Forall (λ a, code a < 128) l → decode_utf8 l = (λ a, (code a, [a])) <$> l.
Proof.
  induction 1 as [|a l Ha _ IH]; cbn; [done|].
  rewrite (proj2 (Z.ltb_lt _ _) Ha). by rewrite IH.
Qed.

Lemma chars_ascii s :
  Forall (λ a, code a < 128) (bytes s) → chars s = code <$> bytes s.
Proof.
  intros H. unfold chars. rewrite decode_ascii by done. rewrite <-list_fmap_compose.
  by apply list_fmap_ext.
Qed.


Lemma drop_while_none {A} (f : A → bool) l : Forall (λ a, f a = false) l → drop_while f l = l.
Proof. destruct 1 as [|a l Ha _]; cbn; [done|]. by rewrite Ha. Qed.

(** A string of printable ASCII characters other than the space. *)
Definition graphic (s : string) : Prop := Forall (λ a, 33 ≤ code a ≤ 126) (bytes s).

Lemma graphic_chars s : graphic s → Forall (λ c, 33 ≤ c ≤ 126) (chars s).
Proof.
  intros H. rewrite chars_ascii by (eapply Forall_impl; [exact H|]; cbn; lia).
  by apply Forall_fmap.
Qed.

Lemma graphic_no_control s : graphic s → has_control s = false.
Proof.
  intros H. apply existsb_false. eapply Forall_impl; [by apply graphic_chars|]. cbn.
  intros c Hc. unfold is_control, in_range. lia.
Qed.

Lemma graphic_no_whitespace c : 33 ≤ c ≤ 126 → is_whitespace c = false.
Proof. intros Hc. unfold is_whitespace, in_range. cbn. lia. Qed.

Lemma graphic_trim s : graphic s → trim s = s.
Proof.
  intros H. unfold trim. rewrite decode_ascii by (eapply Forall_impl; [exact H|]; cbn; lia).
  assert (Hw : Forall (λ p : Z * list ascii, is_whitespace p.1 = false)
                 ((λ a, (code a, [a])) <$> bytes s)).
  { apply Forall_fmap. eapply Forall_impl; [exact H|]. intros a. apply graphic_no_whitespace. }
  rewrite (drop_while_none _ _ Hw), drop_while_none by by apply Forall_reverse.
  rewrite reverse_involutive. apply bytes_inj. rewrite bytes_str.
  clear H Hw. induction (bytes s) as [|a l IH]; [done|]. cbn. by rewrite IH.
Qed.

Lemma pad_decimal_codes w n : Forall (λ a, 48 ≤ code a ≤ 57) (pad_decimal w n).
Proof.
  revert n. induction w as [|w IH]; intros n; cbn [pad_decimal]; [constructor|].
  apply Forall_app. split; [done|]. apply Forall_singleton.
  pose proof (Z.mod_pos_bound n 10). rewrite code_digit; lia.
Qed.

(** ** Splitting and joining at a character *)

Fixpoint join_list (c : ascii) (ws : list (list ascii)) : list ascii :=
  match ws with
  | [] => []
  | [w] => w
  | w :: ws => w ++ c :: join_list c ws
  end.

Lemma split_list_nonempty c l : split_list c l ≠ [].
Proof. destruct l as [|a l]; cbn; [done|]. destruct (Ascii.eqb a c), (split_list c l); done. Qed.

Lemma join_list_cons c w ws : ws ≠ [] → join_list c (w :: ws) = w ++ c :: join_list c ws.
Proof. by destruct ws. Qed.

Lemma join_split_list c l : join_list c (split_list c l) = l.
Proof.
  induction l as [|a l IH]; [done|]. pose proof (split_list_nonempty c l) as Hne.
  cbn [split_list]. destruct (Ascii.eqb_spec a c) as [->|].
  - rewrite join_list_cons by done. cbn. by rewrite IH.
  - destruct (split_list c l) as [|w r]; [done|]. by destruct r; cbn in *; rewrite <-IH.
Qed.

Lemma split_list_app c l m : split_list c (l ++ c :: m) = split_list c l ++ split_list c m.
Proof.
  induction l as [|a l IH]; cbn; [by rewrite Ascii.eqb_refl|]. rewrite IH.
  destruct (Ascii.eqb a c); [done|]. pose proof (split_list_nonempty c l).
  by destruct (split_list c l).
Qed.

Lemma bytes_concat ws : bytes (String.concat "/" ws) = join_list "/" (bytes <$> ws).
Proof.
  induction ws as [|w ws IH]; [done|]. destruct ws as [|v ws]; [done|].
  change (String.concat "/" (w :: v :: ws)) with (w +:+ "/" +:+ String.concat "/" (v :: ws)).
  rewrite !bytes_append, IH. done.
Qed.

Lemma split_join_list c ws : ws ≠ [] → Forall (λ w, ¬ In c w) ws → split_list c (join_list c ws) = ws.
Proof.
  induction ws as [|w ws IH]; [done|]. intros _ Hw. inversion Hw as [|? ? Hc Hws]; subst.
  assert (Hsplit : ∀ w, ¬ In c w → split_list c w = [w]).
  { clear. induction w as [|a w IH]; [done|]. cbn. intros Hn. rewrite IH by tauto. by destruct (Ascii.eqb_spec a c); [naive_solver|]. }
  destruct ws as [|v ws]; [cbn; auto|]. rewrite join_list_cons by done. rewrite split_list_app, IH by done. by rewrite Hsplit.
Qed.

Lemma join_list_app c ws vs :
  ws ≠ [] → vs ≠ [] → join_list c (ws ++ vs) = join_list c ws ++ c :: join_list c vs.
Proof.
  intros Hw Hv. induction ws as [|w ws IH]; [done|]. cbn [app].
  rewrite join_list_cons by (by destruct ws, vs). destruct ws as [|w' ws]; [done|].
  rewrite IH by done. rewrite (join_list_cons c w) by done. by rewrite <-app_assoc.
Qed.

Lemma split_inj c s t : split c s = split c t → s = t.
Proof.
  unfold split. intros H. apply list_fmap_eq_inj in H; [|intros ? ?; apply str_inj].
  apply bytes_inj. by rewrite <-(join_split_list c (bytes s)), H, join_split_list.
Qed.

(** The pieces of one string begin the pieces of another exactly when the
    strings are equal or the first, followed by the separator, begins the
    second. *)
Lemma split_prefix c s t :
  split c s `prefix_of` split c t ↔ s = t ∨ ∃ r, t = s +:+ String c r.
Proof.
  split.
  - intros [k Hk]. destruct k as [|w k].
    { left. rewrite app_nil_r in Hk. by apply split_inj in Hk. }
    right. unfold split in Hk.
    apply fmap_app_inv in Hk as (l1 & l2 & H1 & H2 & Hl).
    assert (l1 = split_list c (bytes s)) as ->
      by (apply list_fmap_eq_inj in H1; [done|intros ? ?; apply str_inj]).
    exists (str (join_list c l2)). apply bytes_inj.
    change (String c (str (join_list c l2))) with (str (c :: join_list c l2)).
    rewrite bytes_append, bytes_str, <-(join_split_list c (bytes t)), Hl, join_list_app.
    + by rewrite join_split_list.
    + apply split_list_nonempty.
    + by destruct l2.
  - intros [->|(r & ->)]; [done|]. unfold split. rewrite bytes_append.
    change (bytes (String c r)) with (c :: bytes r). rewrite split_list_app, fmap_app.
    by eexists.
Qed.

(** ** Numbers without padding *)

Lemma digits_val_zeros l : digits_val 0 (drop_while (λ a, Ascii.eqb a "0") l) = digits_val 0 l.
Proof.
  induction l as [|a l IH]; [done|]. cbn [drop_while].
  destruct (Ascii.eqb_spec a "0") as [->|_]; [|done]. rewrite IH. done.
Qed.

Lemma drop_while_suffix {A} (f : A → bool) l : drop_while f l `suffix_of` l.
Proof.
  induction l as [|a l IH]; cbn; [done|]. destruct (f a); [|done]. by apply suffix_cons_r.
Qed.

Lemma decimal_text_digits n : 0 ≤ n < 10 ^ 40 →
  bytes (decimal_text n) ≠ [] ∧ forallb is_ascii_digit (bytes (decimal_text n)) = true ∧
  digits_val 0 (bytes (decimal_text n)) = Some n.
Proof.
  intros Hn. pose proof (digits_val_pad 40 n Hn) as Hv. rewrite <-digits_val_zeros in Hv.
  unfold decimal_text. destruct (drop_while _ _) as [|a l]; [by injection Hv as <-|].
  rewrite bytes_str. split; [done|]. split; [by eapply digits_val_all|done].
Qed.

Lemma parse_decimal_text max n :
  0 ≤ n < 10 ^ 40 → n ≤ max → parse_unsigned max (decimal_text n) = Some n.
Proof.
  intros Hn Hmax. destruct (decimal_text_digits n Hn) as (Hne & Hd & Hv). unfold parse_unsigned.
  destruct (bytes (decimal_text n)) as [|a l]; [done|]. cbn in Hd. apply andb_true_iff in Hd as [Ha _].
  destruct (Ascii.eqb_spec a "+") as [->|_]; [done|]. rewrite Hv. cbn.
  by rewrite (proj2 (Z.leb_le n max)).
Qed.

(** Trimming removes the line feed after a number. *)
Lemma trim_line s : graphic s → bytes s ≠ [] → trim (s +:+ str [line_feed]) = s.
Proof.
  intros Hg Hne. unfold trim. rewrite bytes_append, bytes_str. unfold graphic in Hg.
  assert (Hall : Forall (λ a, code a < 128) (bytes s ++ [line_feed])).
  { apply Forall_app. split; [eapply Forall_impl; [exact Hg|cbn; lia]|by repeat constructor]. }
  rewrite decode_ascii by done. rewrite fmap_app.
  set (l := (λ a, (code a, [a])) <$> bytes s).
  assert (Hw : Forall (λ p : Z * list ascii, is_whitespace p.1 = false) l).
  { apply Forall_fmap. eapply Forall_impl; [exact Hg|]. intros a. apply graphic_no_whitespace. }
  assert (Hl : drop_while (λ p : Z * list ascii, is_whitespace p.1) (l ++ [(code line_feed, [line_feed])])
               = l ++ [(code line_feed, [line_feed])]).
  { subst l. destruct (bytes s) as [|a r]; [done|]. cbn in *. apply Forall_cons in Hw as [Ha _].
    cbn in Ha. by rewrite Ha. }
  cbn [fmap list_fmap]. rewrite Hl, reverse_snoc. cbn [drop_while fst].
  replace (is_whitespace (code line_feed)) with true by by vm_compute.
  rewrite drop_while_none by by apply Forall_reverse. rewrite reverse_involutive.
  apply bytes_inj. rewrite bytes_str. subst l. clear.
  induction (bytes s) as [|a l IH]; [done|]. cbn. by rewrite IH.
Qed.

Lemma digits_graphic s : forallb is_ascii_digit (bytes s) = true → graphic s.
Proof.
  unfold graphic. rewrite forallb_Forall. intros H. eapply Forall_impl; [exact H|]. intros a.
  unfold is_ascii_digit. rewrite in_range_spec. lia.
Qed.

(** A number written on a line is read back. *)
Lemma parse_decimal_line max n :
  0 ≤ n < 10 ^ 40 → n ≤ max →
  parse_unsigned max (trim (decimal_text n +:+ str [line_feed])) = Some n.
Proof.
  intros Hn Hmax. destruct (decimal_text_digits n Hn) as (Hne & Hd & _).
  rewrite trim_line by (done || by apply digits_graphic). by apply parse_decimal_text.
Qed.

(** ASCII is well-formed. *)
Lemma valid_utf8_ascii l : Forall (λ a, code a < 128) l → valid_utf8 l = true.
Proof.
  induction 1 as [|a l Ha Hl IH]; [done|]. cbn [valid_utf8]. by rewrite (proj2 (Z.ltb_lt _ _) Ha).
Qed.

(** Well-formed bytes can be taken off the front. *)
Lemma valid_utf8_app l m : valid_utf8 l = true → valid_utf8 (l ++ m) = valid_utf8 m.
Proof.
  remember (length l) as n eqn:En. revert l En. induction (lt_wf n) as [n _ IH]. intros l ->.
  destruct l as [|b0 r0]; [done|]. cbn [valid_utf8 app].
  destruct (code b0 <? 128); [apply IH with (length r0); cbn; lia|].
  destruct r0 as [|b1 r1]; [done|]. cbn [app].
  destruct (in_range 194 223 (code b0)).
  { intros [-> H]%andb_true_iff. cbn. eapply IH; [|done|done]. cbn; lia. }
  destruct r1 as [|b2 r2]; [done|]. cbn [app].
  assert (IH2 : valid_utf8 r2 = true → valid_utf8 (r2 ++ m) = valid_utf8 m) by (eapply IH; [|done]; cbn; lia).
  destruct (code b0 =? 224); [intros [-> H]%andb_true_iff; by apply IH2|].
  destruct (_ || _); [intros [-> H]%andb_true_iff; by apply IH2|].
  destruct (code b0 =? 237); [intros [-> H]%andb_true_iff; by apply IH2|].
  destruct r2 as [|b3 r3]; [done|]. cbn [app]. intros [-> H]%andb_true_iff. cbn. eapply IH; [|done|done]. cbn; lia.
Qed.

(** ** Prefixes *)

Lemma starts_with_append p s : starts_with p (p +:+ s) = true.
Proof. unfold starts_with. by rewrite (proj2 (strip_prefix_some _ _ _) eq_refl). Qed.

Lemma starts_with_ne p s t : starts_with p s = true → starts_with p t = false → t ≠ s.
Proof. intros Hs Ht ->. congruence. Qed.
