(* ===== verification/BTree.v ===== *)
(** [std::collections::BTreeMap] and [BTreeSet]: association lists and lists
    kept in the strictly increasing order of their keys.

    Iteration in key order is what the sources rely on (normalisation, canonical
    JSON, the deterministic topological order), so the order is part of the
    model.  Keys are ordered by the class [RustOrd], the [Ord] trait. *)
From S2P Require Import Prelude.
From S2P Require Import RustStr.

(** * The [Ord] trait *)

Class RustOrd (A : Type) := {
  cmp : A → A → comparison;
  cmp_eq : ∀ x y, cmp x y = Eq ↔ x = y;
  cmp_antisym : ∀ x y, cmp y x = CompOpp (cmp x y);
  cmp_trans : ∀ x y z, cmp x y = Lt → cmp y z = Lt → cmp x z = Lt;
}.

Definition lt_ord {A} `{RustOrd A} (x y : A) : Prop := cmp x y = Lt.

(** [BTreeSet<A>] and [BTreeMap<K, V>]. *)
Abbreviation btset A := (list A) (only parsing).
Abbreviation btmap K V := (list (K * V)) (only parsing).

Section Ops.
Context {K : Type} `{RustOrd K}.

(** [BTreeSet::insert]: whether the value was new, and the set after it. *)
Fixpoint set_insert (x : K) (s : btset K) : bool * btset K :=
  match s with
  | [] => (true, [x])
  | y :: s' =>
    match cmp x y with
    | Lt => (true, x :: s)
    | Eq => (false, s)
    | Gt => let '(b, r) := set_insert x s' in (b, y :: r)
    end
  end.

(** [BTreeSet::contains]. *)
Definition set_contains (x : K) (s : btset K) : bool :=
  existsb (λ y, match cmp x y with Eq => true | _ => false end) s.

(** [FromIterator] for [BTreeSet]. *)
Definition set_from_list (l : list K) : btset K :=
  fold_left (λ s x, (set_insert x s).2) l [].

(** [BTreeMap::insert], [get], [contains_key], [keys], [values] and
    [FromIterator]. *)
Fixpoint map_insert {V} (k : K) (v : V) (m : btmap K V) : btmap K V :=
  match m with
  | [] => [(k, v)]
  | (k', v') :: m' =>
    match cmp k k' with
    | Lt => (k, v) :: m
    | Eq => (k, v) :: m'
    | Gt => (k', v') :: map_insert k v m'
    end
  end.

Fixpoint map_get {V} (k : K) (m : btmap K V) : option V :=
  match m with
  | [] => None
  | (k', v) :: m => match cmp k k' with Eq => Some v | _ => map_get k m end
  end.

Definition map_contains {V} (k : K) (m : btmap K V) : bool :=
  match map_get k m with Some _ => true | None => false end.

Definition map_keys {V} (m : btmap K V) : list K := m.*1.
Definition map_values {V} (m : btmap K V) : list V := m.*2.

Definition map_from_list {V} (l : list (K * V)) : btmap K V :=
  fold_left (λ m kv, map_insert kv.1 kv.2 m) l [].
End Ops.

(** The order of a tree: strictly increasing keys. *)
Definition set_sorted {A} `{RustOrd A} (s : btset A) : Prop := StronglySorted lt_ord s.
Definition map_sorted {K V} `{RustOrd K} (m : btmap K V) : Prop := set_sorted (map_keys m).

(** * Instances *)

Lemma ascii_compare_trans a b c :
  Ascii.compare a b = Lt → Ascii.compare b c = Lt → Ascii.compare a c = Lt.
Proof. unfold Ascii.compare. rewrite !N.compare_lt_iff. lia. Qed.

Lemma ascii_compare_eq a b : Ascii.compare a b = Eq ↔ a = b.
Proof.
  split; [apply Ascii.compare_eq_iff|]. intros ->. unfold Ascii.compare.
  apply N.compare_refl.
Qed.

Lemma string_compare_trans s t u :
  String.compare s t = Lt → String.compare t u = Lt → String.compare s u = Lt.
Proof.
  revert t u. induction s as [|a s IH]; intros [|b t] [|c u]; cbn; try done.
  destruct (Ascii.compare a b) eqn:E1; try done.
  - apply ascii_compare_eq in E1 as ->.
    destruct (Ascii.compare b c) eqn:E2; try done. eauto.
  - intros _. destruct (Ascii.compare b c) eqn:E2; try done.
    + apply ascii_compare_eq in E2 as ->. by rewrite E1.
    + intros _. by rewrite (ascii_compare_trans a b c).
Qed.

Lemma string_compare_eq s t : String.compare s t = Eq ↔ s = t.
Proof.
  split; [apply String.compare_eq_iff|]. intros ->.
  induction t as [|a t IH]; cbn; [done|]. by rewrite (proj2 (ascii_compare_eq a a)).
Qed.

Lemma string_compare_antisym s t : String.compare t s = CompOpp (String.compare s t).
Proof. apply String.compare_antisym. Qed.

(** Strings are ordered by their bytes. *)
#[global] Instance string_ord : RustOrd string := {|
  cmp := String.compare;
  cmp_eq := string_compare_eq;
  cmp_antisym := string_compare_antisym;
  cmp_trans := string_compare_trans;
|}.

Definition cmp_pair {A B} `{RustOrd A, RustOrd B} (p q : A * B) : comparison :=
  match cmp p.1 q.1 with Eq => cmp p.2 q.2 | c => c end.

(** Tuples are ordered lexicographically. *)
#[global] Program Instance pair_ord {A B} `{RustOrd A, RustOrd B} : RustOrd (A * B) :=
  {| cmp := cmp_pair |}.
Next Obligation.
  intros A B ? ? [a b] [a' b']. unfold cmp_pair. cbn.
  destruct (cmp a a') eqn:E.
  - apply cmp_eq in E as ->. rewrite cmp_eq. naive_solver.
  - split; [done|]. intros [= -> ->]. by rewrite (proj2 (cmp_eq a' a')) in E.
  - split; [done|]. intros [= -> ->]. by rewrite (proj2 (cmp_eq a' a')) in E.
Qed.
Next Obligation.
  intros A B ? ? [a b] [a' b']. unfold cmp_pair. cbn.
  rewrite (cmp_antisym a a'), (cmp_antisym b b'). by destruct (cmp a a').
Qed.
Next Obligation.
  intros A B ? ? [a b] [a' b'] [a'' b'']. unfold cmp_pair. cbn.
  destruct (cmp a a') eqn:E1; try done.
  - apply cmp_eq in E1 as ->. destruct (cmp a' a'') eqn:E2; try done. apply cmp_trans.
  - intros _. destruct (cmp a' a'') eqn:E2; try done.
    + apply cmp_eq in E2 as ->. by rewrite E1.
    + intros _. by rewrite (cmp_trans a a' a'').
Qed.

(** * Properties *)

Section Props.
Context {K : Type} `{RustOrd K}.

Lemma cmp_refl (x : K) : cmp x x = Eq.
Proof. by apply cmp_eq. Qed.

Lemma lt_ord_irrefl (x : K) : ¬ lt_ord x x.
Proof. unfold lt_ord. by rewrite cmp_refl. Qed.

Lemma cmp_gt (x y : K) : cmp x y = Gt ↔ lt_ord y x.
Proof. unfold lt_ord. rewrite (cmp_antisym x y). by destruct (cmp x y). Qed.

#[global] Instance lt_ord_trans : Transitive (@lt_ord K _).
Proof. intros x y z. apply cmp_trans. Qed.

#[local] Instance ord_eq_dec : EqDecision K.
Proof.
  intros x y. destruct (cmp x y) eqn:E.
  - left. by apply cmp_eq.
  - right. intros ->. by rewrite cmp_refl in E.
  - right. intros ->. by rewrite cmp_refl in E.
Defined.

Lemma sorted_nodup (s : btset K) : set_sorted s → NoDup s.
Proof.
  induction 1 as [|x s Hs IH Hx]; constructor; [|done].
  rewrite Forall_forall in Hx. intros Hin. by apply (lt_ord_irrefl x), Hx.
Qed.

(** A strictly sorted list is determined by its elements. *)
Lemma sorted_ext (s t : btset K) :
  set_sorted s → set_sorted t → (∀ x, x ∈ s ↔ x ∈ t) → s = t.
Proof.
  intros Hs. revert t. induction Hs as [|x s Hs IH Hx]; intros [|y t] Ht Hext; [done|..].
  - exfalso. specialize (Hext y). set_solver.
  - exfalso. specialize (Hext x). set_solver.
  - inversion Ht as [|?? Ht' Hy]; subst. rewrite Forall_forall in Hx, Hy.
    assert (x = y) as ->.
    { assert (Hxt : x ∈ y :: t) by (apply Hext; by left).
      assert (Hys : y ∈ x :: s) by (apply Hext; by left).
      apply elem_of_cons in Hxt as [?|?]; [done|].
      apply elem_of_cons in Hys as [?|?]; [done|].
      exfalso. apply (lt_ord_irrefl x). transitivity y; auto. }
    f_equal. apply IH; [done|]. intros z.
    specialize (Hext z). rewrite !elem_of_cons in Hext. split; intros Hz.
    + destruct (proj1 Hext (or_intror Hz)) as [->|]; [|done].
      exfalso. by apply (lt_ord_irrefl y), Hx.
    + destruct (proj2 Hext (or_intror Hz)) as [->|]; [|done].
      exfalso. by apply (lt_ord_irrefl y), Hy.
Qed.

(** ** Sets *)

Lemma elem_of_set_insert x y (s : btset K) : y ∈ (set_insert x s).2 ↔ y = x ∨ y ∈ s.
Proof.
  induction s as [|z s IH]; cbn; [set_solver|].
  destruct (cmp x z) eqn:E.
  - apply cmp_eq in E as ->. set_solver.
  - set_solver.
  - destruct (set_insert x s) as [b r]. cbn in *. set_solver.
Qed.

Lemma set_insert_sorted x (s : btset K) : set_sorted s → set_sorted (set_insert x s).2.
Proof.
  induction 1 as [|z s Hs IH Hz]; cbn; [repeat constructor|].
  destruct (cmp x z) eqn:E.
  - by constructor.
  - constructor; [by constructor|]. constructor; [done|].
    eapply Forall_impl; [done|]. intros y Hy. by transitivity z.
  - apply cmp_gt in E. pose proof (elem_of_set_insert x) as Hin.
    destruct (set_insert x s) as [b r] eqn:Er. cbn in *. constructor; [done|].
    apply Forall_forall. intros y Hy. specialize (Hin y s). rewrite Er in Hin.
    apply Hin in Hy as [->|Hy]; [done|]. rewrite Forall_forall in Hz. auto.
Qed.

Lemma set_insert_new x (s : btset K) :
  set_sorted s → (set_insert x s).1 = true ↔ x ∉ s.
Proof.
  induction 1 as [|z s Hs IH Hz]; cbn; [set_solver|].
  destruct (cmp x z) eqn:E; cbn.
  - apply cmp_eq in E as ->. set_solver.
  - split; [|done]. intros _ Hin.
    apply elem_of_cons in Hin as [->|Hin]; [by apply lt_ord_irrefl in E|].
    rewrite Forall_forall in Hz. apply (lt_ord_irrefl x). transitivity z; auto.
  - destruct (set_insert x s) as [b r]. cbn in *. rewrite IH.
    apply cmp_gt in E. rewrite elem_of_cons. split; [|tauto].
    intros Hx [->|]; [by apply lt_ord_irrefl in E|done].
Qed.

Lemma length_set_insert x (s : btset K) :
  length (set_insert x s).2 = if (set_insert x s).1 then S (length s) else length s.
Proof.
  induction s as [|z s IH]; cbn; [done|].
  destruct (cmp x z); [done..|]. destruct (set_insert x s) as [[] r]; cbn in *; auto.
Qed.

Lemma set_contains_spec x (s : btset K) : set_contains x s = true ↔ x ∈ s.
Proof.
  unfold set_contains. rewrite existsb_exists. setoid_rewrite <-list_elem_of_In. split.
  - intros (y & Hy & E). destruct (cmp x y) eqn:C; try done. apply cmp_eq in C as ->. done.
  - intros Hx. exists x. by rewrite cmp_refl.
Qed.

Lemma set_from_list_spec (l : list K) :
  set_sorted (set_from_list l) ∧ ∀ x, x ∈ set_from_list l ↔ x ∈ l.
Proof.
  unfold set_from_list.
  assert (G : ∀ s : list K, set_sorted s →
    set_sorted (fold_left (λ s x, (set_insert x s).2) l s) ∧
    ∀ x, x ∈ fold_left (λ s x, (set_insert x s).2) l s ↔ x ∈ l ∨ x ∈ s).
  { induction l as [|a l IH]; intros s Hs; cbn; [set_solver|].
    destruct (IH (set_insert a s).2) as [H1 H2]; [by apply set_insert_sorted|].
    split; [done|]. intros x. rewrite H2, elem_of_set_insert. set_solver. }
  destruct (G []) as [H1 H2]; [constructor|]. split; [done|]. set_solver.
Qed.

Lemma set_from_list_snoc (l : list K) x :
  set_from_list (l ++ [x]) = (set_insert x (set_from_list l)).2.
Proof. unfold set_from_list. by rewrite fold_left_app. Qed.

(** The idiom [if !set.insert(x) { return Err(e) }]. *)
Lemma fresh_ok {E T} (x : K) (names : btset K) (k : btset K → result E T) e r :
  set_sorted names →
  (let '(fresh, names) := set_insert x names in _ ← ensure fresh e; k names) = Ok r ↔
  (x ∉ names) ∧ k (set_insert x names).2 = Ok r.
Proof.
  intros Hs. pose proof (set_insert_new x names Hs) as Hnew.
  destruct (set_insert x names) as [fresh names']. cbn in *. rewrite <-Hnew, bind_ok.
  split; [intros (u & ->%ensure_ok & ?); auto|]. intros [-> ?]. by exists ().
Qed.

(** ** Maps *)

Lemma map_get_insert {V} k k' (v : V) (m : btmap K V) :
  map_get k' (map_insert k v m) = if decide (k' = k) then Some v else map_get k' m.
Proof.
  induction m as [|[z w] m IH]; cbn.
  - case_decide as D; [subst; by rewrite cmp_refl|].
    destruct (cmp k' k) eqn:E; try done. by apply cmp_eq in E.
  - destruct (cmp k z) eqn:E; cbn.
    + apply cmp_eq in E as ->. case_decide as D; [subst; by rewrite cmp_refl|].
      destruct (cmp k' z) eqn:E; try done. by apply cmp_eq in E.
    + case_decide as D; [subst; by rewrite cmp_refl|].
      destruct (cmp k' k) eqn:E'; try done. by apply cmp_eq in E'.
    + rewrite IH. case_decide as D; [|done]. subst. by rewrite E.
Qed.

Lemma map_keys_insert {V} k (v : V) (m : btmap K V) :
  map_keys (map_insert k v m) = (set_insert k (map_keys m)).2.
Proof.
  unfold map_keys. induction m as [|[z w] m IH]; cbn; [done|].
  destruct (cmp k z) eqn:E; cbn; [by apply cmp_eq in E as ->|done|].
  rewrite IH. by destruct (set_insert k _).
Qed.

Lemma map_insert_sorted {V} k (v : V) (m : btmap K V) :
  map_sorted m → map_sorted (map_insert k v m).
Proof. unfold map_sorted. rewrite map_keys_insert. apply set_insert_sorted. Qed.

Lemma map_get_none {V} k (m : btmap K V) : map_get k m = None ↔ k ∉ map_keys m.
Proof.
  unfold map_keys. induction m as [|[z w] m IH]; cbn; [set_solver|].
  destruct (cmp k z) eqn:E.
  - apply cmp_eq in E as ->. set_solver.
  - rewrite IH. assert (k ≠ z) by (intros ->; by rewrite cmp_refl in E). set_solver.
  - rewrite IH. assert (k ≠ z) by (intros ->; by rewrite cmp_refl in E). set_solver.
Qed.

Lemma map_contains_spec {V} k (m : btmap K V) : map_contains k m = true ↔ k ∈ map_keys m.
Proof.
  unfold map_contains. pose proof (map_get_none k m) as Hn.
  destruct (map_get k m) as [v|].
  - split; [|done]. intros _. destruct (decide (k ∈ map_keys m)) as [|N]; [done|].
    by apply Hn in N.
  - split; [done|]. intros Hin. by apply Hn in Hin.
Qed.

Lemma map_get_in {V} k (v : V) (m : btmap K V) : map_get k m = Some v → (k, v) ∈ m.
Proof.
  induction m as [|[z w] m IH]; cbn; [done|]. destruct (cmp k z) eqn:E; [|by right; auto..].
  intros [= ->]. apply cmp_eq in E as ->. left.
Qed.

Lemma map_get_elem {V} k (v : V) (m : btmap K V) :
  map_sorted m → map_get k m = Some v ↔ (k, v) ∈ m.
Proof.
  unfold map_sorted, map_keys. induction m as [|[z w] m IH]; cbn; intros Hs; [set_solver|].
  inversion Hs as [|?? Hs' Hz]; subst. rewrite elem_of_cons.
  destruct (cmp k z) eqn:E.
  - apply cmp_eq in E as ->. split; [naive_solver|].
    intros [[= <-]|Hin]; [done|]. exfalso. rewrite Forall_forall in Hz.
    apply (lt_ord_irrefl z), Hz. apply (list_elem_of_fmap_2 fst _ _ Hin).
  - rewrite IH by done. split; [by right|]. intros [[= -> ->]|]; [|done].
    by rewrite cmp_refl in E.
  - rewrite IH by done. split; [by right|]. intros [[= -> ->]|]; [|done].
    by rewrite cmp_refl in E.
Qed.

(** Two maps in key order with the same lookups are equal. *)
Lemma map_ext {V} (m n : btmap K V) :
  map_sorted m → map_sorted n → (∀ k, map_get k m = map_get k n) → m = n.
Proof.
  revert n. induction m as [|[k v] m IH]; intros n Hm Hn Hext.
  - destruct n as [|[k v] n]; [done|]. specialize (Hext k). cbn in Hext.
    by rewrite cmp_refl in Hext.
  - assert (Hk : map_keys ((k, v) :: m) = map_keys n).
    { apply sorted_ext; [done..|]. intros x. specialize (Hext x).
      pose proof (map_get_none x ((k, v) :: m)) as H1. pose proof (map_get_none x n) as H2.
      rewrite Hext, H2 in H1.
      destruct (decide (x ∈ map_keys ((k, v) :: m))), (decide (x ∈ map_keys n)); tauto. }
    destruct n as [|[k' v'] n]; [done|]. injection Hk as <- Hk.
    pose proof (Hext k) as E. cbn in E. rewrite cmp_refl in E. injection E as <-.
    inversion Hm as [|?? Hm' Hx]; subst. inversion Hn as [|?? Hn' Hy]; subst.
    f_equal. apply IH; [done..|]. intros x. specialize (Hext x). cbn in Hext.
    destruct (cmp x k) eqn:E; [|done..]. apply cmp_eq in E as ->.
    rewrite !(proj2 (map_get_none k _)); [done|..]; intros Hin;
      rewrite Forall_forall in Hx, Hy; apply (lt_ord_irrefl k); auto.
Qed.

(** ** Building a map from its entries *)

Lemma map_insert_perm {V} k (v : V) (m : btmap K V) :
  k ∉ map_keys m → map_insert k v m ≡ₚ (k, v) :: m.
Proof.
  unfold map_keys. induction m as [|[z w] m IH]; cbn; intros Hk; [done|].
  apply not_elem_of_cons in Hk as [Hne Hk].
  destruct (cmp k z) eqn:E; [by apply cmp_eq in E|done|].
  rewrite IH by done. apply Permutation_swap.
Qed.

Lemma map_from_list_snoc {V} (l : list (K * V)) k v :
  map_from_list (l ++ [(k, v)]) = map_insert k v (map_from_list l).
Proof. unfold map_from_list. by rewrite fold_left_app. Qed.

Lemma map_from_list_sorted {V} (l : list (K * V)) : map_sorted (map_from_list l).
Proof.
  induction l as [|[k v] l IH] using rev_ind; [constructor|].
  rewrite map_from_list_snoc. by apply map_insert_sorted.
Qed.

Lemma elem_of_map_keys_from_list {V} (l : list (K * V)) k :
  k ∈ map_keys (map_from_list l) ↔ k ∈ l.*1.
Proof.
  induction l as [|[k' v] l IH] using rev_ind; [done|].
  rewrite map_from_list_snoc, map_keys_insert, elem_of_set_insert, IH, fmap_app.
  rewrite elem_of_app. cbn. rewrite list_elem_of_singleton. tauto.
Qed.

Lemma map_from_list_elem {V} (l : list (K * V)) k v :
  map_get k (map_from_list l) = Some v → (k, v) ∈ l.
Proof.
  induction l as [|[k' v'] l IH] using rev_ind; [done|].
  rewrite map_from_list_snoc, map_get_insert, elem_of_app.
  case_decide as D; [subst; intros [= ->]; right; by left|]. intros Hg. left. by apply IH.
Qed.

Lemma map_from_list_perm {V} (l : list (K * V)) : NoDup l.*1 → map_from_list l ≡ₚ l.
Proof.
  induction l as [|[k v] l IH] using rev_ind; [done|].
  rewrite fmap_app, NoDup_app. intros (Hl & Hk & _).
  rewrite map_from_list_snoc, map_insert_perm.
  - rewrite IH by done. apply Permutation_cons_append.
  - rewrite elem_of_map_keys_from_list. intros Hin. apply (Hk k Hin). cbn. by left.
Qed.

Lemma map_get_perm {V} (l m : list (K * V)) k :
  NoDup l.*1 → l ≡ₚ m → map_get k l = map_get k m.
Proof.
  assert (G : ∀ l : list (K * V), NoDup l.*1 → ∀ v, map_get k l = Some v ↔ (k, v) ∈ l).
  { clear. induction l as [|[z w] l IH]; cbn; intros Hnd v; [set_solver|].
    apply NoDup_cons in Hnd as [Hz Hnd]. rewrite elem_of_cons, <-(IH Hnd v).
    destruct (cmp k z) eqn:E.
    - apply cmp_eq in E as ->. split; [naive_solver|]. intros [[= ->]|Hg]; [done|].
      apply (IH Hnd) in Hg. exfalso. apply Hz. apply (list_elem_of_fmap_2 fst _ _ Hg).
    - split; [tauto|]. intros [[= -> ->]|?]; [by rewrite cmp_refl in E|done].
    - split; [tauto|]. intros [[= -> ->]|?]; [by rewrite cmp_refl in E|done]. }
  intros Hl Hp. assert (Hm : NoDup m.*1) by (by rewrite <-Hp).
  destruct (map_get k l) as [v|] eqn:E.
  - symmetry. apply G; [done|]. rewrite <-Hp. by apply G.
  - destruct (map_get k m) as [v|] eqn:E'; [|done]. apply G in E'; [|done].
    rewrite <-Hp in E'. apply G in E'; [|done]. by rewrite E in E'.
Qed.

Lemma map_get_from_list {V} (l : list (K * V)) k :
  NoDup l.*1 → map_get k (map_from_list l) = map_get k l.
Proof.
  intros Hl. symmetry. apply map_get_perm; [done|]. symmetry. by apply map_from_list_perm.
Qed.

Lemma map_from_list_equal {V} (l m : list (K * V)) :
  NoDup l.*1 → l ≡ₚ m → map_from_list l = map_from_list m.
Proof.
  intros Hl Hp. assert (Hm : NoDup m.*1) by (by rewrite <-Hp).
  apply map_ext; [apply map_from_list_sorted..|]. intros k.
  rewrite !map_get_from_list by done. by apply map_get_perm.
Qed.

Lemma map_from_list_of_sorted {V} (m : btmap K V) : map_sorted m → map_from_list m = m.
Proof.
  intros Hm. apply map_ext; [apply map_from_list_sorted|done|]. intros k.
  apply map_get_from_list. by apply sorted_nodup.
Qed.
End Props.

#[export] Hint Resolve set_insert_sorted map_insert_sorted sorted_nodup : ccp.

(** * Sorting by a key *)

(** [sort_by(|l, r| l.name.cmp(&r.name))]: a stable insertion sort. *)
Fixpoint insert_by {A} (key : A → string) (x : A) (l : list A) : list A :=
  match l with
  | [] => [x]
  | y :: l' => match String.compare (key x) (key y) with
               | Gt => y :: insert_by key x l'
               | _ => x :: l
               end
  end.
Definition sort_by {A} (key : A → string) (l : list A) : list A := foldr (insert_by key) [] l.

Lemma insert_by_perm {A} (key : A → string) x l : insert_by key x l ≡ₚ x :: l.
Proof.
  induction l as [|y l IH]; cbn; [done|]. destruct (String.compare _ _); [done..|].
  rewrite IH. constructor.
Qed.

Lemma sort_by_perm {A} (key : A → string) l : sort_by key l ≡ₚ l.
Proof. induction l as [|x l IH]; cbn; [done|]. by rewrite insert_by_perm, IH. Qed.

(** [x] stands before [y] when its key is not greater. *)
Definition key_le {A} (key : A → string) (x y : A) : Prop := cmp (key x) (key y) ≠ Gt.

Lemma key_le_total {A} (key : A → string) x y : ¬ key_le key x y → key_le key y x.
Proof.
  unfold key_le. intros H. assert (E : cmp (key x) (key y) = Gt) by (destruct (cmp _ _); [by destruct H..|done]).
  apply cmp_gt in E. unfold lt_ord in E. by rewrite E.
Qed.

Lemma key_le_trans {A} (key : A → string) x y z : key_le key x y → key_le key y z → key_le key x z.
Proof.
  unfold key_le. intros Hxy Hyz Hxz. apply cmp_gt in Hxz.
  destruct (cmp (key x) (key y)) eqn:E1; [|clear Hxy|done].
  - apply cmp_eq in E1. rewrite E1 in Hxz. by apply Hyz, cmp_gt.
  - apply Hyz, cmp_gt. by transitivity (key x).
Qed.

Lemma insert_by_sorted {A} (key : A → string) x m :
  StronglySorted (key_le key) m → StronglySorted (key_le key) (insert_by key x m).
Proof.
  induction 1 as [|y m Hm IHm Hy]; cbn [insert_by].
  { by repeat constructor. }
  destruct (String.compare (key x) (key y)) eqn:E.
  1,2: assert (Hxy : key_le key x y) by (unfold key_le; cbn; by rewrite E);
    constructor; [by constructor|]; constructor; [done|];
    eapply Forall_impl; [exact Hy|]; intros z; by apply key_le_trans.
  constructor; [done|]. rewrite (insert_by_perm key x m). constructor; [|done].
  apply key_le_total. unfold key_le. cbn. rewrite E. tauto.
Qed.

Lemma sort_by_sorted {A} (key : A → string) l : StronglySorted (key_le key) (sort_by key l).
Proof. induction l; cbn; [constructor|by apply insert_by_sorted]. Qed.

(** With distinct keys the result of the sort is determined by the elements. *)
Lemma sort_by_equal {A} (key : A → string) l m :
  NoDup (key <$> l) → l ≡ₚ m → sort_by key l = sort_by key m.
Proof.
  intros Hnd Hp. apply (StronglySorted_unique_strong (key_le key)); try apply sort_by_sorted.
  2: by rewrite !sort_by_perm.
  intros x y Hx Hy Hxy Hyx. rewrite sort_by_perm in Hx. rewrite sort_by_perm, <-Hp in Hy.
  assert (E : key x = key y).
  { unfold key_le in *. apply cmp_eq. destruct (cmp (key x) (key y)) eqn:E; [done| |done].
    destruct Hyx. by apply cmp_gt. }
  apply list_elem_of_lookup in Hx as [i Hi], Hy as [j Hj].
  assert (i = j) as ->; [|congruence].
  eapply NoDup_lookup; [exact Hnd|rewrite list_lookup_fmap, Hi|rewrite list_lookup_fmap, Hj];
    cbn; by rewrite ?E.
Qed.

(** * Removal *)

(** [BTreeMap::remove] of a string key. *)
Definition remove_key {V} (name : string) (m : btmap string V) : btmap string V :=
  List.filter (λ kv, negb (kv.1 =? name)%string) m.

Lemma map_get_filter_ne {V} (m : btmap string V) k k' :
  map_get k' (List.filter (λ kv, negb (kv.1 =? k)%string) m)
  = if decide (k' = k) then None else map_get k' m.
Proof.
  induction m as [|[z v] m IH]; cbn; [by case_decide|].
  destruct (String.eqb_spec z k) as [->|Hz]; cbn.
  - rewrite IH. case_decide as D; [done|]. destruct (String.compare k' k) eqn:E; [|done..].
    by apply string_compare_eq in E.
  - rewrite IH. destruct (String.compare k' z) eqn:E; [|done..].
    apply string_compare_eq in E as ->. by rewrite decide_False.
Qed.

Lemma filter_keys_sorted {V} (m : btmap string V) (f : string * V → bool) :
  map_sorted m → map_sorted (List.filter f m).
Proof.
  unfold map_sorted, set_sorted, map_keys. induction m as [|[z v] m IH]; cbn; [done|].
  intros Hs. apply StronglySorted_inv in Hs as [Hs Hf]. destruct (f (z, v)); cbn; [|auto].
  constructor; [auto|]. clear -Hf. induction m as [|[y w] m IH]; cbn in *; [constructor|].
  apply Forall_cons in Hf as [? ?]. destruct (f (y, w)); cbn; [constructor|]; auto.
Qed.

Lemma map_get_remove_key {V} (m : btmap string V) k k' :
  map_get k' (remove_key k m) = if decide (k' = k) then None else map_get k' m.
Proof. apply map_get_filter_ne. Qed.

Lemma remove_key_sorted {V} (m : btmap string V) k : map_sorted m → map_sorted (remove_key k m).
Proof. apply filter_keys_sorted. Qed.

Lemma remove_key_absent {V} (m : btmap string V) k : map_get k m = None → remove_key k m = m.
Proof.
  intros Hk%map_get_none. unfold remove_key, map_keys in *. induction m as [|[z v] m IH]; [done|].
  cbn in *. apply not_elem_of_cons in Hk as [Hz Hk]. destruct (String.eqb_spec z k) as [->|_]; [done|].
  cbn. by rewrite IH.
Qed.

Lemma length_remove_key {V} (m : btmap string V) k : (length (remove_key k m) ≤ length m)%nat.
Proof. apply List.filter_length_le. Qed.
