(* ===== verification/Calendar.v ===== *)
(** UTC timestamps ([src/src/verify.rs], lines 1006-1089): the strict
    [YYYY-MM-DDThh:mm:ssZ] reader and printer that freshness checks use.

    [parse_utc_seconds], [format_unix_utc] and [civil_from_days] are the
    functions of the source on [i64]/[u64] values with their checked
    operations; the theorems say that they are inverse to each other on the
    representable range and that comparing two timestamps as strings, which is
    what receipts do, is comparing the instants they denote. *)
From S2P Require Import Prelude.
From S2P Require Import RustStr.
From S2P Require Import BTree.
Local Open Scope Z_scope.

(** * Definitions *)

(** [bytes[i]] under a preceding length test, and [&bytes[a..b]]. *)
Definition byte_is (l : list ascii) (i : nat) (c : ascii) : bool :=
  match l !! i with Some a => Ascii.eqb a c | None => false end.
Definition slice (a b : nat) (l : list ascii) : list ascii := take (b - a) (drop a l).

(** The separators of [YYYY-MM-DDThh:mm:ssZ]. *)
Definition separators_ok (l : list ascii) : bool :=
  (length l =? 20)%nat && byte_is l 4 "-" && byte_is l 7 "-" && byte_is l 10 "T"
  && byte_is l 13 ":" && byte_is l 16 ":" && byte_is l 19 "Z".

Definition decimal (l : list ascii) : option Z := digits_val 0 l.

Definition leap_year (year : Z) : bool :=
  (Z.rem year 4 =? 0) && (negb (Z.rem year 100 =? 0) || (Z.rem year 400 =? 0)).

Definition days_in_month (leap : bool) (month : Z) : Z :=
  match month with
  | 1 | 3 | 5 | 7 | 8 | 10 | 12 => 31
  | 4 | 6 | 9 | 11 => 30
  | 2 => if leap then 29 else 28
  | _ => 0
  end.

(** The days since 1970-01-01 that [parse_utc_seconds] computes. *)
Definition days_from_civil (year month day : Z) : Z :=
  let adjusted_year := year - (if month <=? 2 then 1 else 0) in
  let era := adjusted_year / 400 in
  let year_of_era := adjusted_year - era * 400 in
  let shifted_month := month + (if month >? 2 then -3 else 9) in
  let day_of_year := Z.quot (153 * shifted_month + 2) 5 + day - 1 in
  let day_of_era :=
    year_of_era * 365 + Z.quot year_of_era 4 - Z.quot year_of_era 100 + day_of_year in
  era * 146097 + day_of_era - 719468.

Definition parse_utc_seconds (value : string) : option Z :=
  let b := bytes value in
  if negb (separators_ok b) then None else
  year ← decimal (slice 0 4 b);
  month ← decimal (slice 5 7 b);
  day ← decimal (slice 8 10 b);
  hour ← decimal (slice 11 13 b);
  minute ← decimal (slice 14 16 b);
  second ← decimal (slice 17 19 b);
  let dim := days_in_month (leap_year year) month in
  if (year =? 0) || negb (in_range 1 dim day) || (hour >? 23) || (minute >? 59)
     || (second >? 59)
  then None else
  let days := days_from_civil year month day in
  product ← checked_i64 (days * 86400);
  checked_i64 (product + (hour * 3600 + minute * 60 + second)).

Definition civil_from_days (days_since_epoch : Z) : option (Z * Z * Z) :=
  shifted ← checked_i64 (days_since_epoch + 719468);
  numerator ← (if shifted >=? 0 then Some shifted else checked_i64 (shifted - 146096));
  let era := Z.quot numerator 146097 in
  scaled ← checked_i64 (era * 146097);
  day_of_era ← checked_i64 (shifted - scaled);
  let year_of_era :=
    Z.quot (day_of_era - Z.quot day_of_era 1460 + Z.quot day_of_era 36524
            - Z.quot day_of_era 146096) 365 in
  era_years ← checked_i64 (era * 400);
  year ← checked_i64 (year_of_era + era_years);
  day_of_year ← checked_i64
    (day_of_era - (365 * year_of_era + Z.quot year_of_era 4 - Z.quot year_of_era 100));
  let month_prime := Z.quot (5 * day_of_year + 2) 153 in
  let day := day_of_year - Z.quot (153 * month_prime + 2) 5 + 1 in
  let month := month_prime + (if month_prime <? 10 then 3 else -9) in
  let year := year + (if month <=? 2 then 1 else 0) in
  month ← checked_u64 month;
  day ← checked_u64 day;
  Some (year, month, day).

(** The text [format!] produces for fields below their widths. *)
Definition timestamp (year month day hour minute second : Z) : list ascii :=
  pad_decimal 4 year ++ "-"%char :: pad_decimal 2 month ++ "-"%char :: pad_decimal 2 day
  ++ "T"%char :: pad_decimal 2 hour ++ ":"%char :: pad_decimal 2 minute
  ++ ":"%char :: pad_decimal 2 second ++ ["Z"%char].

Definition format_unix_utc (seconds : Z) : option string :=
  days ← checked_i64 (seconds / 86400);
  let seconds_of_day := seconds mod 86400 in
  '(year, month, day) ← civil_from_days days;
  if negb (in_range 1 9999 year) then None else
  let hour := seconds_of_day / 3600 in
  let minute := (seconds_of_day mod 3600) / 60 in
  let second := seconds_of_day mod 60 in
  Some (str (timestamp year month day hour minute second)).

(** * The proleptic Gregorian calendar *)

(** The fields a timestamp may have. *)
Definition civil_ok (year month day hour minute second : Z) : Prop :=
  1 ≤ year ≤ 9999 ∧ 1 ≤ day ≤ days_in_month (leap_year year) month ∧
  0 ≤ hour ≤ 23 ∧ 0 ≤ minute ≤ 59 ∧ 0 ≤ second ≤ 59.

Definition seconds_of (year month day hour minute second : Z) : Z :=
  days_from_civil year month day * 86400 + (hour * 3600 + minute * 60 + second).

(** Comparison of byte strings. *)
Fixpoint bytes_cmp (l m : list ascii) : comparison :=
  match l, m with
  | [], [] => Eq
  | [], _ => Lt
  | _, [] => Gt
  | a :: l, b :: m => match Ascii.compare a b with Eq => bytes_cmp l m | c => c end
  end.

(** * Proofs *)

#[local] Ltac Zify.zify_post_hook ::= Z.to_euclidean_division_equations.

Lemma days_in_month_cases leap month :
  1 ≤ days_in_month leap month → 1 ≤ month ≤ 12.
Proof.
  destruct month as [|p|p]; cbn; [lia| |lia].
  destruct p as [[[[p|p|]|[p|p|]|]|[[p|p|]|[p|p|]|]|]|[[[p|p|]|[p|p|]|]|[[p|p|]|[p|p|]|]|]|];
    cbn; lia.
Qed.

Lemma leap_year_spec year :
  0 ≤ year →
  leap_year year = true ↔ year mod 4 = 0 ∧ (year mod 100 ≠ 0 ∨ year mod 400 = 0).
Proof.
  intros H. unfold leap_year.
  rewrite andb_true_iff, orb_true_iff, negb_true_iff, !Z.eqb_eq, Z.eqb_neq. lia.
Qed.

(** One goal per month. *)
#[local] Ltac month_cases m :=
  let H := fresh in
  assert (H : m = 1 ∨ m = 2 ∨ m = 3 ∨ m = 4 ∨ m = 5 ∨ m = 6 ∨ m = 7 ∨ m = 8 ∨ m = 9 ∨
              m = 10 ∨ m = 11 ∨ m = 12) by lia;
  destruct H as [H|[H|[H|[H|[H|[H|[H|[H|[H|[H|[H|H]]]]]]]]]]]; subst m.

(** The year that starts in March: its number, and the day within it. *)
Definition march_year (year month : Z) : Z := if month <=? 2 then year - 1 else year.
Definition march_month (month : Z) : Z := if month <=? 2 then month + 9 else month - 3.
Definition month_start (m' : Z) : Z := (153 * m' + 2) / 5.
Definition year_start (y' : Z) : Z := 365 * y' + y' / 4 - y' / 100 + y' / 400.

Lemma days_from_civil_march year month day :
  0 < year → 1 ≤ month ≤ 12 →
  days_from_civil year month day =
    year_start (march_year year month) + month_start (march_month month) + day - 1 - 719468.
Proof.
  intros Hy Hm. unfold days_from_civil, year_start, month_start, march_year, march_month.
  month_cases month; cbn; lia.
Qed.

Lemma month_start_gap y' : month_start 11 + 27 < year_start (y' + 1) - year_start y'.
Proof. unfold month_start, year_start. lia. Qed.

(** A day of a month is before the next month starts, and before the year ends. *)
Lemma day_bound year month day :
  0 < year → 1 ≤ day ≤ days_in_month (leap_year year) month →
  1 ≤ month ≤ 12 ∧
  month_start (march_month month) + day - 1 <
    (if march_month month <? 11 then month_start (march_month month + 1)
     else year_start (march_year year month + 1) - year_start (march_year year month)).
Proof.
  intros Hy Hd. assert (Hm : 1 ≤ month ≤ 12) by (apply (days_in_month_cases (leap_year year)); lia).
  split; [done|]. pose proof (leap_year_spec year ltac:(lia)) as Hl.
  pose proof (month_start_gap (year - 1)) as Hg.
  unfold march_month, march_year.
  month_cases month; cbn in *; case Z.ltb_spec; intros; try lia;
    try (unfold month_start; lia).
  change (2 + 9) with 11. destruct (leap_year year); [|lia]. destruct (proj1 Hl eq_refl).
  unfold month_start, year_start in *. lia.
Qed.

Lemma year_start_mono a b : a ≤ b → year_start a ≤ year_start b.
Proof. unfold year_start. lia. Qed.

Lemma month_start_mono a b : 0 ≤ a ≤ b → b ≤ 11 → month_start a ≤ month_start b.
Proof. unfold month_start. lia. Qed.

Lemma march_month_bound month : 1 ≤ month ≤ 12 → 0 ≤ march_month month ≤ 11.
Proof. unfold march_month. intros H. destruct (Z.leb_spec month 2); lia. Qed.

(** The day number of a date within its March year. *)
Lemma march_day_bound year month day :
  0 < year → 1 ≤ day ≤ days_in_month (leap_year year) month →
  0 ≤ month_start (march_month month) + day - 1 <
    year_start (march_year year month + 1) - year_start (march_year year month).
Proof.
  intros Hy Hd. destruct (day_bound _ _ _ Hy Hd) as [Hm Hb].
  pose proof (march_month_bound _ Hm). pose proof (month_start_gap (march_year year month)).
  assert (0 ≤ month_start (march_month month)) by (unfold month_start; lia).
  destruct (Z.ltb_spec (march_month month) 11) as [Hlt|]; [|lia].
  pose proof (month_start_mono (march_month month + 1) 11). lia.
Qed.

(** ** From days to dates *)

Lemma year_of_era_spec doe :
  0 ≤ doe < 146097 →
  let yoe := (doe - doe / 1460 + doe / 36524 - doe / 146096) / 365 in
  0 ≤ yoe ≤ 399 ∧ 0 ≤ doe - (365 * yoe + yoe / 4 - yoe / 100) ≤ 365 ∧
  (yoe < 399 → doe < 365 * (yoe + 1) + (yoe + 1) / 4 - (yoe + 1) / 100).
Proof. intros H. cbn. lia. Qed.

(** What [civil_from_days] computes, as floor divisions and without the checks. *)
Definition civil (shifted : Z) : Z * Z * Z :=
  let era := shifted / 146097 in
  let doe := shifted mod 146097 in
  let yoe := (doe - doe / 1460 + doe / 36524 - doe / 146096) / 365 in
  let doy := doe - (365 * yoe + yoe / 4 - yoe / 100) in
  let mp := (5 * doy + 2) / 153 in
  let month := mp + (if mp <? 10 then 3 else -9) in
  (yoe + era * 400 + (if month <=? 2 then 1 else 0), month, doy - (153 * mp + 2) / 5 + 1).

Lemma checked_i64_ok z : i64_min ≤ z ≤ i64_max → checked_i64 z = Some z.
Proof. intros H. by apply checked_i64_some. Qed.

Lemma checked_u64_ok z : u64 z → checked_u64 z = Some z.
Proof. intros H. by apply checked_u64_some. Qed.

(** The bound of the development's day counts: about 10^14 days. *)
Definition max_days : Z := 10 ^ 14.

Lemma civil_from_days_civil days :
  0 ≤ days ≤ max_days → civil_from_days days = Some (civil (days + 719468)).
Proof.
  unfold max_days. intros H. unfold civil_from_days, civil.
  set (sh := days + 719468). assert (Hsh : 719468 ≤ sh ≤ 10 ^ 14 + 719468) by lia.
  rewrite (checked_i64_ok sh) by (unfold i64_min, i64_max; lia). cbn [mbind option_bind].
  destruct (sh >=? 0) eqn:E; [|lia]. cbn [mbind option_bind].
  rewrite !(Z.quot_div_nonneg sh) by lia.
  assert (Hera : 0 ≤ sh / 146097 ≤ 10 ^ 10) by lia.
  rewrite (checked_i64_ok (sh / 146097 * 146097)) by (unfold i64_min, i64_max; lia).
  cbn [mbind option_bind].
  replace (sh - sh / 146097 * 146097) with (sh mod 146097) by lia.
  set (doe := sh mod 146097). assert (Hdoe : 0 ≤ doe < 146097) by (subst doe; lia).
  rewrite (checked_i64_ok doe) by (unfold i64_min, i64_max; lia). cbn [mbind option_bind].
  rewrite (checked_i64_ok (sh / 146097 * 400)) by (unfold i64_min, i64_max; lia).
  cbn [mbind option_bind].
  pose proof (year_of_era_spec doe Hdoe) as Hy. cbn zeta in Hy.
  rewrite !(Z.quot_div_nonneg doe) by lia.
  rewrite (Z.quot_div_nonneg (_ - _)) by lia.
  set (yoe := (doe - doe / 1460 + doe / 36524 - doe / 146096) / 365) in *.
  rewrite (checked_i64_ok (yoe + _)) by (unfold i64_min, i64_max; lia).
  cbn [mbind option_bind]. rewrite !(Z.quot_div_nonneg yoe) by lia.
  set (doy := doe - (365 * yoe + yoe / 4 - yoe / 100)) in *.
  rewrite (checked_i64_ok doy) by (unfold i64_min, i64_max; lia).
  cbn [mbind option_bind]. rewrite !(Z.quot_div_nonneg (5 * doy + 2)) by lia.
  set (mp := (5 * doy + 2) / 153). assert (Hmp : 0 ≤ mp ≤ 11) by (subst mp; lia).
  rewrite (Z.quot_div_nonneg (153 * mp + 2)) by lia.
  rewrite (checked_u64_ok (mp + _))
    by (unfold u64, u64_max; destruct (Z.ltb_spec mp 10); lia).
  cbn [mbind option_bind].
  by rewrite checked_u64_ok by (unfold u64, u64_max; subst mp; lia).
Qed.

(** ** Dates are ordered like their day numbers *)

Definition date_lt (y1 m1 d1 y2 m2 d2 : Z) : Prop :=
  y1 < y2 ∨ (y1 = y2 ∧ (m1 < m2 ∨ (m1 = m2 ∧ d1 < d2))).

Lemma days_from_civil_mono y1 m1 d1 y2 m2 d2 :
  0 < y1 → 0 < y2 →
  1 ≤ d1 ≤ days_in_month (leap_year y1) m1 → 1 ≤ d2 ≤ days_in_month (leap_year y2) m2 →
  date_lt y1 m1 d1 y2 m2 d2 → days_from_civil y1 m1 d1 < days_from_civil y2 m2 d2.
Proof.
  intros Hy1 Hy2 Hd1 Hd2 Hlt.
  destruct (day_bound _ _ _ Hy1 Hd1) as [Hm1 Hb1]. destruct (day_bound _ _ _ Hy2 Hd2) as [Hm2 _].
  pose proof (march_day_bound _ _ _ Hy1 Hd1) as Hr1.
  pose proof (march_day_bound _ _ _ Hy2 Hd2) as Hr2.
  rewrite !days_from_civil_march by done.
  assert (Hc : march_year y1 m1 < march_year y2 m2 ∨
    (march_year y1 m1 = march_year y2 m2 ∧
     (march_month m1 < march_month m2 ∨ (march_month m1 = march_month m2 ∧ d1 < d2)))).
  { unfold date_lt, march_year, march_month in *.
    destruct (Z.leb_spec m1 2), (Z.leb_spec m2 2); lia. }
  destruct Hc as [Hc|[Hc [Hm|[Hm Hd]]]].
  - pose proof (year_start_mono (march_year y1 m1 + 1) (march_year y2 m2)). lia.
  - rewrite Hc in *. pose proof (march_month_bound _ Hm1). pose proof (march_month_bound _ Hm2).
    pose proof (month_start_mono (march_month m1 + 1) (march_month m2)).
    destruct (Z.ltb_spec (march_month m1) 11); lia.
  - rewrite Hc, Hm. lia.
Qed.

Lemma days_from_civil_inj y1 m1 d1 y2 m2 d2 :
  0 < y1 → 0 < y2 →
  1 ≤ d1 ≤ days_in_month (leap_year y1) m1 → 1 ≤ d2 ≤ days_in_month (leap_year y2) m2 →
  days_from_civil y1 m1 d1 = days_from_civil y2 m2 d2 → y1 = y2 ∧ m1 = m2 ∧ d1 = d2.
Proof.
  intros Hy1 Hy2 Hd1 Hd2 He.
  assert (Hc : (y1 = y2 ∧ m1 = m2 ∧ d1 = d2) ∨ date_lt y1 m1 d1 y2 m2 d2 ∨
    date_lt y2 m2 d2 y1 m1 d1) by (unfold date_lt; lia).
  destruct Hc as [?|[Hc|Hc]]; [done|..].
  - pose proof (days_from_civil_mono _ _ _ _ _ _ Hy1 Hy2 Hd1 Hd2 Hc). lia.
  - pose proof (days_from_civil_mono _ _ _ _ _ _ Hy2 Hy1 Hd2 Hd1 Hc). lia.
Qed.

(** ** [civil] gives the date of a day number *)

Lemma leap_of_last_day era yoe doe :
  0 ≤ era → 0 ≤ yoe ≤ 399 →
  (yoe < 399 → doe < 365 * (yoe + 1) + (yoe + 1) / 4 - (yoe + 1) / 100) →
  doe - (365 * yoe + yoe / 4 - yoe / 100) = 365 →
  leap_year (yoe + era * 400 + 1) = true.
Proof. intros He Hy Hd H. apply leap_year_spec; lia. Qed.

Lemma days_in_month_start leap month :
  3 ≤ month ≤ 12 →
  days_in_month leap month = month_start (month - 2) - month_start (month - 3).
Proof. intros H. month_cases month; try lia; by vm_compute. Qed.

(** March to December: the month [mp] of the shifted year is in the year [y]. *)
Lemma civil_spring sh y mp doy :
  306 ≤ sh → 0 ≤ y → 0 ≤ mp < 10 → month_start mp ≤ doy < month_start (mp + 1) →
  sh = year_start y + doy →
  1 ≤ y ∧ 1 ≤ doy - month_start mp + 1 ≤ days_in_month (leap_year y) (mp + 3) ∧
  days_from_civil y (mp + 3) (doy - month_start mp + 1) = sh - 719468.
Proof.
  intros Hsh Hy Hmp Hms Hsum.
  assert (Hd : 1 ≤ doy - month_start mp + 1 ≤ days_in_month (leap_year y) (mp + 3)).
  { rewrite days_in_month_start by lia. replace (mp + 3 - 3) with mp by lia.
    replace (mp + 3 - 2) with (mp + 1) by lia. lia. }
  assert (Hpos : 1 ≤ y).
  { destruct (Z.eq_dec y 0) as [->|]; [|lia]. exfalso. change (year_start 0) with 0 in Hsum.
    assert (month_start (mp + 1) ≤ 306) by (unfold month_start; lia). lia. }
  split; [done|split; [done|]]. rewrite days_from_civil_march by lia. unfold march_year, march_month.
  rewrite (proj2 (Z.leb_gt (mp + 3) 2)) by lia. replace (mp + 3 - 3) with mp by lia. lia.
Qed.

(** January and February belong to the next year. *)
Lemma civil_winter sh y mp doy :
  0 ≤ y → 10 ≤ mp ≤ 11 → month_start mp ≤ doy < month_start (mp + 1) → doy ≤ 365 →
  (doy = 365 → leap_year (y + 1) = true) → sh = year_start y + doy →
  1 ≤ doy - month_start mp + 1 ≤ days_in_month (leap_year (y + 1)) (mp + -9) ∧
  days_from_civil (y + 1) (mp + -9) (doy - month_start mp + 1) = sh - 719468.
Proof.
  intros Hy Hmp Hms Hdoy Hleap Hsum.
  assert (Hd : 1 ≤ doy - month_start mp + 1 ≤ days_in_month (leap_year (y + 1)) (mp + -9)).
  { assert (Hm : mp = 10 ∨ mp = 11) by lia. destruct Hm as [->| ->].
    - change (days_in_month _ (10 + -9)) with 31. unfold month_start in *. lia.
    - change (11 + -9) with 2. change (month_start 11) with 337 in *. unfold days_in_month.
      destruct (Z.eq_dec doy 365) as [E|]; [rewrite Hleap by done; lia|].
      destruct (leap_year _); lia. }
  split; [done|]. rewrite days_from_civil_march by lia. unfold march_year, march_month.
  rewrite (proj2 (Z.leb_le (mp + -9) 2)) by lia. replace (mp + -9 + 9) with mp by lia.
  replace (y + 1 - 1) with y by lia. lia.
Qed.

Lemma civil_spec sh :
  306 ≤ sh →
  let '(year, month, day) := civil sh in
  1 ≤ year ∧ 1 ≤ day ≤ days_in_month (leap_year year) month ∧
  days_from_civil year month day = sh - 719468.
Proof.
  intros Hsh. unfold civil.
  set (era := sh / 146097). set (doe := sh mod 146097).
  assert (Hsum : sh = era * 146097 + doe) by (subst era doe; lia).
  assert (Hdoe : 0 ≤ doe < 146097) by (subst doe; lia).
  assert (Hera : 0 ≤ era) by (subst era; lia). clearbody era doe.
  pose proof (year_of_era_spec doe Hdoe) as Hy. cbn zeta in Hy.
  set (yoe := (doe - doe / 1460 + doe / 36524 - doe / 146096) / 365) in *.
  destruct Hy as (Hyoe & Hdoy & Hlast). clearbody yoe.
  pose proof (leap_of_last_day era yoe doe Hera Hyoe Hlast) as Hleap.
  assert (Hys : year_start (yoe + era * 400)
      = era * 146097 + (365 * yoe + yoe / 4 - yoe / 100)) by (unfold year_start; lia).
  set (doy := doe - (365 * yoe + yoe / 4 - yoe / 100)) in *.
  assert (Hsh' : sh = year_start (yoe + era * 400) + doy) by (subst doy; lia).
  set (mp := (5 * doy + 2) / 153).
  assert (Hmp : 0 ≤ mp ≤ 11) by (subst mp; lia).
  assert (Hms : month_start mp ≤ doy < month_start (mp + 1))
    by (subst mp; unfold month_start; lia).
  change ((153 * mp + 2) / 5) with (month_start mp). clearbody mp.
  destruct (Z.ltb_spec mp 10) as [Hlt|Hge].
  - rewrite (proj2 (Z.leb_gt (mp + 3) 2)), Z.add_0_r by lia. apply civil_spring; lia.
  - rewrite (proj2 (Z.leb_le (mp + -9) 2)) by lia. split; [lia|]. apply civil_winter; lia || done.
Qed.

Lemma civil_of_date year month day :
  0 < year → 1 ≤ day ≤ days_in_month (leap_year year) month →
  civil (days_from_civil year month day + 719468) = (year, month, day).
Proof.
  intros Hy Hd. assert (Hsh : 306 ≤ days_from_civil year month day + 719468).
  { destruct (day_bound _ _ _ Hy Hd) as [Hm _]. rewrite days_from_civil_march by done.
    unfold year_start, march_year, march_month. month_cases month; cbn;
      unfold month_start; lia. }
  pose proof (civil_spec _ Hsh) as H. destruct (civil _) as [[y m] d].
  destruct H as (Hy' & Hd' & He).
  destruct (days_from_civil_inj y m d year month day) as (-> & -> & ->); try done; lia.
Qed.

(** ** The text of a timestamp *)

#[local] Ltac explode l H :=
  repeat (destruct l as [|? l]; [discriminate H|]; cbn in H);
  destruct l; [clear H|discriminate H].

(** The six numeric fields between their separators. *)
Definition layout (Y M D h m s : list ascii) : list ascii :=
  Y ++ "-"%char :: M ++ "-"%char :: D ++ "T"%char :: h ++ ":"%char :: m
  ++ ":"%char :: s ++ ["Z"%char].

Lemma separators_ok_layout l :
  separators_ok l = true →
  l = layout (slice 0 4 l) (slice 5 7 l) (slice 8 10 l) (slice 11 13 l) (slice 14 16 l)
        (slice 17 19 l).
Proof.
  unfold separators_ok. intros H. bool_prop.
  match goal with Hl : length l = 20%nat |- _ => explode l Hl end.
  unfold byte_is in *. cbn in *.
  repeat match goal with E : Ascii.eqb _ _ = true |- _ => apply Ascii.eqb_eq in E; subst end.
  done.
Qed.

Lemma layout_slices Y M D h m s :
  length Y = 4%nat → length M = 2%nat → length D = 2%nat → length h = 2%nat →
  length m = 2%nat → length s = 2%nat →
  let l := layout Y M D h m s in
  separators_ok l = true ∧ slice 0 4 l = Y ∧ slice 5 7 l = M ∧ slice 8 10 l = D ∧
  slice 11 13 l = h ∧ slice 14 16 l = m ∧ slice 17 19 l = s.
Proof.
  intros HY HM HD Hh Hm Hs. explode Y HY. explode M HM. explode D HD. explode h Hh.
  explode m Hm. explode s Hs. cbn. repeat split.
Qed.

Lemma layout_lengths l :
  separators_ok l = true →
  length (slice 0 4 l) = 4%nat ∧ length (slice 5 7 l) = 2%nat ∧ length (slice 8 10 l) = 2%nat ∧
  length (slice 11 13 l) = 2%nat ∧ length (slice 14 16 l) = 2%nat ∧ length (slice 17 19 l) = 2%nat.
Proof.
  unfold separators_ok, slice. intros H. bool_prop.
  rewrite !length_take, !length_drop. repeat match goal with E : length l = _ |- _ => rewrite E end.
  done.
Qed.

(** Reading the six fields of a text: their decimal digits. *)
Lemma decimal_pad w l n :
  length l = w → decimal l = Some n → l = pad_decimal w n ∧ 0 ≤ n < 10 ^ Z.of_nat w.
Proof. intros <- H. by apply pad_digits_val in H as [-> ?]. Qed.

Lemma timestamp_layout year month day hour minute second :
  timestamp year month day hour minute second =
    layout (pad_decimal 4 year) (pad_decimal 2 month) (pad_decimal 2 day)
      (pad_decimal 2 hour) (pad_decimal 2 minute) (pad_decimal 2 second).
Proof. done. Qed.

Lemma timestamp_slices year month day hour minute second :
  let l := timestamp year month day hour minute second in
  separators_ok l = true ∧ slice 0 4 l = pad_decimal 4 year ∧
  slice 5 7 l = pad_decimal 2 month ∧ slice 8 10 l = pad_decimal 2 day ∧
  slice 11 13 l = pad_decimal 2 hour ∧ slice 14 16 l = pad_decimal 2 minute ∧
  slice 17 19 l = pad_decimal 2 second.
Proof. apply layout_slices; apply length_pad_decimal. Qed.

Lemma civil_ok_bounds year month day hour minute second :
  civil_ok year month day hour minute second →
  (0 ≤ year < 10 ^ 4) ∧ (0 ≤ month < 10 ^ 2) ∧ (0 ≤ day < 10 ^ 2) ∧ (0 ≤ hour < 10 ^ 2) ∧
  (0 ≤ minute < 10 ^ 2) ∧ (0 ≤ second < 10 ^ 2).
Proof.
  intros (Hy & Hd & Hh & Hm & Hs).
  assert (1 ≤ month ≤ 12) by (apply (days_in_month_cases (leap_year year)); lia).
  assert (days_in_month (leap_year year) month ≤ 31).
  { month_cases month; cbn; try lia. destruct (leap_year _); lia. }
  lia.
Qed.

Lemma days_from_civil_bounds year month day :
  1 ≤ year ≤ 9999 → 1 ≤ day ≤ days_in_month (leap_year year) month →
  -719162 ≤ days_from_civil year month day ≤ 2932896.
Proof.
  intros Hy Hd. destruct (day_bound year month day) as [Hm _]; [lia|done|].
  assert (day ≤ 31) by (pose proof (civil_ok_bounds year month day 0 0 0) as B;
    month_cases month; cbn in Hd; destruct (leap_year year); lia).
  change (-719162) with (days_from_civil 1 1 1).
  change 2932896 with (days_from_civil 9999 12 31). split.
  - assert (Hc : (year = 1 ∧ month = 1 ∧ day = 1) ∨ date_lt 1 1 1 year month day)
      by (unfold date_lt; lia).
    destruct Hc as [(-> & -> & ->)|Hc]; [lia|]. apply Z.lt_le_incl.
    apply days_from_civil_mono; [lia..|cbn; lia|done|done].
  - assert (Hc : (year = 9999 ∧ month = 12 ∧ day = 31) ∨ date_lt year month day 9999 12 31)
      by (unfold date_lt; lia).
    destruct Hc as [(-> & -> & ->)|Hc]; [lia|]. apply Z.lt_le_incl.
    apply days_from_civil_mono; [lia..|done|cbn; lia|done].
Qed.

Lemma seconds_of_bounds year month day hour minute second :
  civil_ok year month day hour minute second →
  -62135596800 ≤ seconds_of year month day hour minute second ≤ 253402300799.
Proof.
  intros (Hy & Hd & Hh & Hm & Hs). unfold seconds_of.
  pose proof (days_from_civil_bounds _ _ _ Hy Hd). lia.
Qed.

(** Six numbers read at the positions of a timestamp give the text back. *)
Lemma decimals_timestamp value y mo d h mi sec :
  let b := bytes value in
  separators_ok b = true →
  decimal (slice 0 4 b) = Some y → decimal (slice 5 7 b) = Some mo →
  decimal (slice 8 10 b) = Some d → decimal (slice 11 13 b) = Some h →
  decimal (slice 14 16 b) = Some mi → decimal (slice 17 19 b) = Some sec →
  value = str (timestamp y mo d h mi sec) ∧
  0 ≤ y < 10 ^ 4 ∧ 0 ≤ mo < 10 ^ 2 ∧ 0 ≤ d < 10 ^ 2 ∧ 0 ≤ h < 10 ^ 2 ∧ 0 ≤ mi < 10 ^ 2 ∧
  0 ≤ sec < 10 ^ 2.
Proof.
  cbn zeta. intros Hs E1 E2 E3 E4 E5 E6.
  pose proof (layout_lengths _ Hs) as (L1 & L2 & L3 & L4 & L5 & L6).
  apply (decimal_pad _ _ _ L1) in E1 as [R1 B1]. apply (decimal_pad _ _ _ L2) in E2 as [R2 B2].
  apply (decimal_pad _ _ _ L3) in E3 as [R3 B3]. apply (decimal_pad _ _ _ L4) in E4 as [R4 B4].
  apply (decimal_pad _ _ _ L5) in E5 as [R5 B5]. apply (decimal_pad _ _ _ L6) in E6 as [R6 B6].
  split; [|done]. rewrite timestamp_layout, <-R1, <-R2, <-R3, <-R4, <-R5, <-R6.
  rewrite <-(separators_ok_layout _ Hs). by rewrite str_bytes.
Qed.

Lemma parse_utc_seconds_inv value n :
  parse_utc_seconds value = Some n →
  ∃ year month day hour minute second,
    value = str (timestamp year month day hour minute second) ∧
    civil_ok year month day hour minute second ∧
    n = seconds_of year month day hour minute second.
Proof.
  unfold parse_utc_seconds. destruct (separators_ok (bytes value)) eqn:Hs; [|done].
  cbn [negb]. intros H. apply bind_Some in H as (y & E1 & H).
  apply bind_Some in H as (mo & E2 & H). apply bind_Some in H as (d & E3 & H).
  apply bind_Some in H as (h & E4 & H). apply bind_Some in H as (mi & E5 & H).
  apply bind_Some in H as (sec & E6 & H). cbv zeta in H.
  destruct (decimals_timestamp _ _ _ _ _ _ _ Hs E1 E2 E3 E4 E5 E6) as (-> & ? & ? & ? & ? & ? & ?).
  destruct (_ || _) eqn:Hg; [done|]. bool_prop. rewrite in_range_spec in *.
  apply bind_Some in H as (w & C1 & C2).
  apply checked_i64_some in C1 as [-> _]. apply checked_i64_some in C2 as [-> _].
  exists y, mo, d, h, mi, sec. split; [done|]. split; [unfold civil_ok; lia|done].
Qed.

Lemma parse_timestamp year month day hour minute second :
  civil_ok year month day hour minute second →
  parse_utc_seconds (str (timestamp year month day hour minute second)) =
    Some (seconds_of year month day hour minute second).
Proof.
  intros Hok.
  destruct (timestamp_slices year month day hour minute second) as (Hs & S1 & S2 & S3 & S4 & S5 & S6).
  destruct (civil_ok_bounds _ _ _ _ _ _ Hok) as (B1 & B2 & B3 & B4 & B5 & B6).
  unfold parse_utc_seconds. rewrite bytes_str, Hs, S1, S2, S3, S4, S5, S6. cbn [negb].
  unfold decimal. rewrite !digits_val_pad by done. cbn [mbind option_bind].
  pose proof (seconds_of_bounds _ _ _ _ _ _ Hok) as Hb.
  pose proof Hok as (Hy & Hd & Hh & Hm & Hsec).
  pose proof (days_from_civil_bounds _ _ _ Hy Hd).
  rewrite (proj2 (in_range_spec _ _ _) Hd).
  destruct (_ || _) eqn:Hg; [exfalso; lia|].
  rewrite checked_i64_ok by (unfold i64_min, i64_max; lia). cbn [mbind option_bind].
  by rewrite checked_i64_ok by (unfold i64_min, i64_max, seconds_of in *; lia).
Qed.

(** A timestamp is accepted exactly when it is the text of valid fields. *)
Lemma parse_utc_seconds_spec value n :
  parse_utc_seconds value = Some n ↔
  ∃ year month day hour minute second,
    value = str (timestamp year month day hour minute second) ∧
    civil_ok year month day hour minute second ∧
    n = seconds_of year month day hour minute second.
Proof.
  split; [apply parse_utc_seconds_inv|].
  intros (y & mo & d & h & mi & sec & -> & Hok & ->). by apply parse_timestamp.
Qed.

(** ** Printing *)

Lemma format_unix_utc_timestamp seconds :
  0 ≤ seconds ≤ 253402300799 →
  ∃ year month day hour minute second,
    format_unix_utc seconds = Some (str (timestamp year month day hour minute second)) ∧
    civil_ok year month day hour minute second ∧
    seconds_of year month day hour minute second = seconds.
Proof.
  intros Hs. unfold format_unix_utc.
  assert (Hd : 0 ≤ seconds / 86400 ≤ 2932896) by lia.
  rewrite checked_i64_ok by (unfold i64_min, i64_max; lia). cbn [mbind option_bind].
  rewrite civil_from_days_civil by (unfold max_days; lia). cbn [mbind option_bind].
  pose proof (civil_spec (seconds / 86400 + 719468)) as Hc.
  destruct (civil _) as [[y m] d]. destruct Hc as (Hy & Hdim & Hdays); [lia|].
  assert (Hy' : y ≤ 9999).
  { destruct (Z.le_gt_cases y 9999) as [|Hgt]; [done|]. exfalso.
    assert (Hlt : days_from_civil 9999 12 31 < days_from_civil y m d)
      by (apply days_from_civil_mono; [lia..|cbn; lia|done|unfold date_lt; lia]).
    change (days_from_civil 9999 12 31) with 2932896 in Hlt. lia. }
  rewrite (proj2 (in_range_spec _ _ _)) by lia. cbn [negb].
  do 6 eexists. split; [done|]. split.
  - unfold civil_ok. repeat split; lia.
  - unfold seconds_of. rewrite Hdays. lia.
Qed.

(** ** Order *)

Lemma string_compare_bytes s t : String.compare s t = bytes_cmp (bytes s) (bytes t).
Proof.
  revert t. induction s as [|a s IH]; intros [|b t]; cbn; try done.
  destruct (Ascii.compare a b); [apply IH|done..].
Qed.

Lemma bytes_cmp_app p q l m :
  length p = length q →
  bytes_cmp (p ++ l) (q ++ m) =
    match bytes_cmp p q with Eq => bytes_cmp l m | c => c end.
Proof.
  revert q. induction p as [|a p IH]; intros [|b q] Hl; cbn in *; try done.
  destruct (Ascii.compare a b); [|done..]. apply IH. lia.
Qed.

Lemma bytes_cmp_cons a l m : bytes_cmp (a :: l) (a :: m) = bytes_cmp l m.
Proof. cbn. by rewrite (proj2 (ascii_compare_eq a a)). Qed.

Lemma digit_compare d e :
  0 ≤ d < 10 → 0 ≤ e < 10 → Ascii.compare (digit d) (digit e) = (d ?= e).
Proof.
  intros Hd He. unfold Ascii.compare, digit. rewrite !N_ascii_embedding by lia.
  rewrite <-N2Z.inj_compare, !Z2N.id by lia. by rewrite Z.add_compare_mono_l.
Qed.

(** Fixed-width decimals are ordered like the numbers they print. *)
Lemma pad_compare w a b :
  0 ≤ a < 10 ^ Z.of_nat w → 0 ≤ b < 10 ^ Z.of_nat w →
  bytes_cmp (pad_decimal w a) (pad_decimal w b) = (a ?= b).
Proof.
  revert a b. induction w as [|w IH]; intros a b Ha Hb; cbn [pad_decimal].
  - cbn in *. replace a with b by lia. by rewrite Z.compare_refl.
  - rewrite Nat2Z.inj_succ, Z.pow_succ_r in Ha, Hb by lia.
    rewrite bytes_cmp_app by by rewrite !length_pad_decimal.
    rewrite IH by lia. cbn. rewrite digit_compare by lia.
    destruct (Z.compare_spec (a / 10) (b / 10)) as [E|E|E].
    + replace (match a mod 10 ?= b mod 10 with Eq => Eq | c => c end)
        with (a mod 10 ?= b mod 10) by by destruct (_ ?= _).
      destruct (Z.compare_spec (a mod 10) (b mod 10)); symmetry;
        [apply Z.compare_eq_iff|apply Z.compare_lt_iff|apply Z.compare_gt_iff]; lia.
    + symmetry. apply Z.compare_lt_iff. lia.
    + symmetry. apply Z.compare_gt_iff. lia.
Qed.

Definition then_cmp (c d : comparison) : comparison := match c with Eq => d | _ => c end.

Lemma timestamp_compare y1 m1 d1 h1 n1 s1 y2 m2 d2 h2 n2 s2 :
  civil_ok y1 m1 d1 h1 n1 s1 → civil_ok y2 m2 d2 h2 n2 s2 →
  bytes_cmp (timestamp y1 m1 d1 h1 n1 s1) (timestamp y2 m2 d2 h2 n2 s2) =
  then_cmp (y1 ?= y2) (then_cmp (m1 ?= m2) (then_cmp (d1 ?= d2) (then_cmp (h1 ?= h2)
    (then_cmp (n1 ?= n2) (s1 ?= s2))))).
Proof.
  intros H1 H2.
  destruct (civil_ok_bounds _ _ _ _ _ _ H1) as (A1 & A2 & A3 & A4 & A5 & A6).
  destruct (civil_ok_bounds _ _ _ _ _ _ H2) as (B1 & B2 & B3 & B4 & B5 & B6).
  unfold timestamp, then_cmp.
  repeat (rewrite bytes_cmp_app by (by rewrite !length_pad_decimal); rewrite pad_compare by done;
          match goal with |- context [?a ?= ?b] => destruct (a ?= b) end; [|done..];
          rewrite bytes_cmp_cons).
  done.
Qed.

Lemma seconds_of_mono y1 m1 d1 h1 n1 s1 y2 m2 d2 h2 n2 s2 :
  civil_ok y1 m1 d1 h1 n1 s1 → civil_ok y2 m2 d2 h2 n2 s2 →
  (seconds_of y1 m1 d1 h1 n1 s1 ?= seconds_of y2 m2 d2 h2 n2 s2) =
  then_cmp (y1 ?= y2) (then_cmp (m1 ?= m2) (then_cmp (d1 ?= d2) (then_cmp (h1 ?= h2)
    (then_cmp (n1 ?= n2) (s1 ?= s2))))).
Proof.
  intros (A1 & A2 & A3 & A4 & A5) (B1 & B2 & B3 & B4 & B5). unfold seconds_of.
  assert (Hdate : ∀ a b, a < b → (a ?= b) = Lt) by (intros; by apply Z.compare_lt_iff).
  assert (Hdate' : ∀ a b, a > b → (a ?= b) = Gt) by (intros; by apply Z.compare_gt_iff, Z.gt_lt).
  pose proof (days_from_civil_mono y1 m1 d1 y2 m2 d2 ltac:(lia) ltac:(lia) A2 B2) as Hlt.
  pose proof (days_from_civil_mono y2 m2 d2 y1 m1 d1 ltac:(lia) ltac:(lia) B2 A2) as Hgt.
  unfold date_lt in Hlt, Hgt. unfold then_cmp.
  destruct (Z.compare_spec y1 y2) as [->|E|E]; [|apply Hdate; lia|apply Hdate'; lia].
  destruct (Z.compare_spec m1 m2) as [->|E|E]; [|apply Hdate; lia|apply Hdate'; lia].
  destruct (Z.compare_spec d1 d2) as [->|E|E]; [|apply Hdate; lia|apply Hdate'; lia].
  destruct (Z.compare_spec h1 h2) as [->|E|E]; [|apply Hdate; lia|apply Hdate'; lia].
  destruct (Z.compare_spec n1 n2) as [->|E|E]; [|apply Hdate; lia|apply Hdate'; lia].
  destruct (Z.compare_spec s1 s2) as [->|E|E]; [|apply Hdate; lia|apply Hdate'; lia].
  apply Z.compare_refl.
Qed.

(** * Theorems *)

(**  Printing an instant and reading it back: every second from the epoch to
    9999-12-31T23:59:59Z has a timestamp, and [parse_utc_seconds] returns the
    instant it was made from. *)
Theorem format_parse_roundtrip (seconds : Z) :
  0 ≤ seconds ≤ 253402300799 →
  ∃ t, format_unix_utc seconds = Some t ∧ parse_utc_seconds t = Some seconds.
Proof.
  intros Hs. destruct (format_unix_utc_timestamp _ Hs) as (y & m & d & h & mi & s & Hf & Hok & <-).
  eexists. split; [done|]. by apply parse_timestamp.
Qed.

Lemma format_parse_roundtrip_witness :
  (0 ≤ 951827696 ≤ 253402300799) ∧
  ∃ t, format_unix_utc 951827696 = Some t ∧ parse_utc_seconds t = Some 951827696.
Proof. split; [lia|]. apply (format_parse_roundtrip 951827696). lia. Defined.

(** Reading a timestamp and printing the instant gives the same text back,
    for every accepted timestamp that is not before the epoch: the reader
    accepts one spelling of each instant. *)
Theorem parse_format_roundtrip (t : string) (seconds : Z) :
  parse_utc_seconds t = Some seconds → 0 ≤ seconds → format_unix_utc seconds = Some t.
Proof.
  intros Hp Hs. apply parse_utc_seconds_inv in Hp as (y & m & d & h & mi & s & -> & Hok & ->).
  pose proof (seconds_of_bounds _ _ _ _ _ _ Hok) as Hb.
  destruct (format_unix_utc_timestamp (seconds_of y m d h mi s)) as
    (y' & m' & d' & h' & mi' & s' & -> & Hok' & Heq); [lia|].
  do 2 f_equal. pose proof (seconds_of_mono _ _ _ _ _ _ _ _ _ _ _ _ Hok' Hok) as Hc.
  rewrite Heq, Z.compare_refl in Hc. unfold then_cmp in Hc.
  destruct (Z.compare_spec y' y) as [->|?|?], (Z.compare_spec m' m) as [->|?|?],
    (Z.compare_spec d' d) as [->|?|?], (Z.compare_spec h' h) as [->|?|?],
    (Z.compare_spec mi' mi) as [->|?|?], (Z.compare_spec s' s) as [->|?|?]; done.
Qed.

Lemma parse_format_roundtrip_witness :
  parse_utc_seconds "2026-08-01T00:00:00Z" = Some 1785542400 ∧
  format_unix_utc 1785542400 = Some "2026-08-01T00:00:00Z".
Proof.
  split; [by vm_compute|].
  apply (parse_format_roundtrip "2026-08-01T00:00:00Z" 1785542400); [by vm_compute|lia].
Defined.

Lemma timestamp_string_order_aux (s t : string) (a b : Z) :
  parse_utc_seconds s = Some a → parse_utc_seconds t = Some b →
  String.compare s t = (a ?= b).
Proof.
  intros Hs Ht. apply parse_utc_seconds_inv in Hs as (? & ? & ? & ? & ? & ? & -> & Hs & ->).
  apply parse_utc_seconds_inv in Ht as (? & ? & ? & ? & ? & ? & -> & Ht & ->).
  rewrite string_compare_bytes, !bytes_str, timestamp_compare, seconds_of_mono by done. done.
Qed.
