(* ===== verification/Canonical.v ===== *)
(** Canonical JSON and its digest ([src/src/receipt.rs], lines 528-583).

    [Value] is [serde_json::Value] for the integers, strings, booleans, arrays
    and objects the sources serialise.  An object lists its entries in iteration
    order; [serde_json] is built without [preserve_order], so the objects that
    [obj] builds are in key order.  [normalize_json] is defined on any entry
    order, as the source writes it.  The byte encoder of [serde_json] and the
    hash of [sha2] are the operations of the class [Backend]: the model is
    parametric in both. *)
From S2P Require Import Prelude.
From S2P Require Import RustStr.
From S2P Require Import BTree.
Local Open Scope Z_scope.

(** * Values *)

Inductive Value : Type :=
  | Null
  | Bool (b : bool)
  | Number (n : Z)
  | Str (s : string)
  | Array (items : list Value)
  | Object (items : list (string * Value)).

Section ValueInd.
Variable P : Value → Prop.
Hypothesis Hnull : P Null.
Hypothesis Hbool : ∀ b, P (Bool b).
Hypothesis Hnumber : ∀ n, P (Number n).
Hypothesis Hstr : ∀ s, P (Str s).
Hypothesis Harray : ∀ l, Forall P l → P (Array l).
Hypothesis Hobject : ∀ l, Forall (λ kv, P kv.2) l → P (Object l).

Fixpoint Value_rect' (v : Value) : P v :=
  match v with
  | Null => Hnull
  | Bool b => Hbool b
  | Number n => Hnumber n
  | Str s => Hstr s
  | Array l =>
    Harray l ((fix go (l : list Value) : Forall P l :=
      match l with
      | [] => Forall_nil_2 P
      | v :: l => Forall_cons_2 P v l (Value_rect' v) (go l)
      end) l)
  | Object l =>
    Hobject l ((fix go (l : list (string * Value)) : Forall (λ kv, P kv.2) l :=
      match l with
      | [] => Forall_nil_2 (λ kv, P kv.2)
      | kv :: l => Forall_cons_2 (λ kv, P kv.2) kv l (Value_rect' kv.2) (go l)
      end) l)
  end.
End ValueInd.

(** [Value::get] on an object. *)
Definition value_get (k : string) (v : Value) : option Value :=
  match v with Object l => map_get k l | _ => None end.

(** [Value::as_str]. *)
Definition as_str (v : Value) : option string :=
  match v with Str s => Some s | _ => None end.

(** [PartialEq] on values. *)
Fixpoint Value_eqb (v w : Value) : bool :=
  match v, w with
  | Null, Null => true
  | Bool a, Bool b => Bool.eqb a b
  | Number a, Number b => a =? b
  | Str a, Str b => (a =? b)%string
  | Array l, Array m =>
    (fix go (l m : list Value) : bool :=
       match l, m with
       | [], [] => true
       | v :: l, w :: m => Value_eqb v w && go l m
       | _, _ => false
       end) l m
  | Object l, Object m =>
    (fix go (l m : list (string * Value)) : bool :=
       match l, m with
       | [], [] => true
       | (k, v) :: l, (k', w) :: m => (k =? k')%string && Value_eqb v w && go l m
       | _, _ => false
       end) l m
  | _, _ => false
  end.

(** * Serialisation

    The [Serialize] trait, [serde]'s derive for the sources' types, and the
    fields a struct serialises to. *)
Class Serialize (T : Type) := to_value : T → Value.
#[global] Hint Mode Serialize ! : typeclass_instances.

Definition obj (fields : list (string * Value)) : Value := Object (map_from_list fields).

(** A field with [skip_serializing_if = "Option::is_none"]. *)
Definition opt_field {T} `{Serialize T} (k : string) (o : option T) : list (string * Value) :=
  match o with Some x => [(k, to_value x)] | None => [] end.

(** A field with [skip_serializing_if = "Vec::is_empty"]. *)
Definition list_field {T} `{Serialize T} (k : string) (l : list T) : list (string * Value) :=
  match l with [] => [] | _ => [(k, Array (to_value <$> l))] end.

#[global] Instance string_serialize : Serialize string := Str.
#[global] Instance Z_serialize : Serialize Z := Number.
#[global] Instance bool_serialize : Serialize bool := Bool.
#[global] Instance list_serialize {T} `{Serialize T} : Serialize (list T) :=
  λ l, Array (to_value <$> l).
#[global] Instance option_serialize {T} `{Serialize T} : Serialize (option T) :=
  λ o, match o with Some x => to_value x | None => Null end.

(** What a digest needs of a serialiser: different values serialise
    differently, and a value under an [Option] is not [null]. *)
Class SerializeInj (T : Type) `{Serialize T} :=
  to_value_inj : ∀ x y : T, to_value x = to_value y → x = y.
Class NonNull (T : Type) `{Serialize T} := to_value_nonnull : ∀ x : T, to_value x ≠ Null.

(** * Evidence status and errors of [receipt.rs] *)

Inductive EvidenceStatus : Type := Pass | Fail | Pending | NotRun.
#[global] Instance EvidenceStatus_eq_dec : EqDecision EvidenceStatus.
Proof. solve_decision. Defined.

#[global] Instance EvidenceStatus_serialize : Serialize EvidenceStatus :=
  λ s, Str match s with
           | Pass => "PASS" | Fail => "FAIL" | Pending => "PENDING" | NotRun => "NOT_RUN"
           end.

Inductive ReceiptError : Type :=
  | Serialization
  | UnsupportedSchemaVersion (version : string)
  | UnsupportedSourceSnapshotSchemaVersion (version : string)
  | EmptyField (field : string)
  | ControlCharacter (field : string)
  | InvalidCommitSha (value : string)
  | InvalidRepositoryIdentity
  | InvalidSha256 (field : string)
  | InvalidTimestamp (field : string)
  | InvalidRunWindow
  | ImageDigestMismatch
  | UnsafePath (field : string)
  | NoChecks
  | NoRequiredChecks
  | DuplicateCheckId (id : string)
  | InvalidCommand (id : string)
  | InvalidCheckResult (id : string)
  | MissingIncompleteReason (field : string)
  | UnexpectedIncompleteReason (field : string)
  | InvalidSourceSnapshotEntryCount (count : Z)
  | OverallStatusMismatch (expected actual : EvidenceStatus)
  | DigestMismatch (expected actual : string)
  | ExecutionPlanDigestMismatch (expected actual : string)
  | ExecutionPlanCheckMismatch (id : string)
  | DuplicateArtifactEvidence (path : string)
  | ArtifactManifestMismatch (path : string)
  | MissingRuntimeCapabilityEvidence
  | UnexpectedRuntimeCapabilityEvidence
  | InvalidRuntimeCapabilityEvidence (field : string)
  | RuntimeCapabilityEvidenceMismatch.

(** * Canonical form *)

Fixpoint normalize_json (value : Value) : Value :=
  match value with
  | Array items => Array (List.map normalize_json items)
  | Object items =>
    let sorted := map_from_list (List.map (λ kv, (kv.1, normalize_json kv.2)) items) in
    Object sorted
  | scalar => scalar
  end.

Definition HEX : list ascii := bytes "0123456789abcdef".

Definition hex_char (d : Z) : ascii := nth (Z.to_nat d) HEX "0"%char.

Definition encode_hex (l : list ascii) : string :=
  str (concat ((λ b, [hex_char (Z.shiftr (code b) 4); hex_char (Z.land (code b) 15)]) <$> l)).

(** [serde_json::to_vec] on a value and [Sha256::digest]. *)
Class Backend := {
  json_to_vec : Value → option (list ascii);
  sha256 : list ascii → list ascii;
}.

Definition RECEIPT_ID_PREFIX : string := "sha256:".

Definition canonical_json `{Backend} {T} `{Serialize T} (value : T) : result ReceiptError (list ascii) :=
  let normalized := normalize_json (to_value value) in
  ok_or (json_to_vec normalized) Serialization.

Definition canonical_digest `{Backend} {T} `{Serialize T} (value : T) : result ReceiptError string :=
  b ← canonical_json value;
  let digest := sha256 b in
  Ok (RECEIPT_ID_PREFIX +:+ encode_hex digest).

(** [serde_json::to_vec] and [serde_json::from_slice] at one type. *)
Class Codec (T : Type) := {
  to_vec : T → option (list ascii);
  from_slice : list ascii → option T;
}.

(** What [sha2] documents of SHA-256 and a digest's shape relies on. *)
Class BackendOk `{Backend} := sha256_length : ∀ b, length (sha256 b) = 32%nat.

(** Two different inputs of the digest with the same hash. *)
Definition Collision `{Backend} : Prop :=
  ∃ v w b c, v ≠ w ∧ json_to_vec v = Some b ∧ json_to_vec w = Some c ∧ sha256 b = sha256 c.

(** Equality of values as documents: arrays in order, objects as maps. *)
Inductive json_equiv : Value → Value → Prop :=
  | equiv_null : json_equiv Null Null
  | equiv_bool b : json_equiv (Bool b) (Bool b)
  | equiv_number n : json_equiv (Number n) (Number n)
  | equiv_str s : json_equiv (Str s) (Str s)
  | equiv_array l m : Forall2 json_equiv l m → json_equiv (Array l) (Array m)
  | equiv_object l m m' :
    m ≡ₚ m' → Forall2 (λ p q, p.1 = q.1 ∧ json_equiv p.2 q.2) l m' →
    json_equiv (Object l) (Object m).

(** Objects have one entry per key. *)
Inductive json_wf : Value → Prop :=
  | wf_null : json_wf Null
  | wf_bool b : json_wf (Bool b)
  | wf_number n : json_wf (Number n)
  | wf_str s : json_wf (Str s)
  | wf_array l : Forall json_wf l → json_wf (Array l)
  | wf_object l : NoDup l.*1 → Forall (λ kv, json_wf kv.2) l → json_wf (Object l).

(** Objects are in key order, at every depth. *)
Inductive json_sorted : Value → Prop :=
  | sorted_null : json_sorted Null
  | sorted_bool b : json_sorted (Bool b)
  | sorted_number n : json_sorted (Number n)
  | sorted_str s : json_sorted (Str s)
  | sorted_array l : Forall json_sorted l → json_sorted (Array l)
  | sorted_object l : map_sorted l → Forall (λ kv, json_sorted kv.2) l → json_sorted (Object l).

(** Serialisers whose objects are all in key order. *)
Class SerializeSorted (T : Type) `{Serialize T} :=
  to_value_sorted : ∀ x : T, json_sorted (to_value x).

(** * Properties of [normalize_json] *)

Lemma Forall_map_values (P : Value → Prop) (l : list (string * Value)) :
  Forall (λ kv, P kv.2) l → Forall (λ kv, P kv.2) (map_from_list l).
Proof.
  induction l as [|[k v] l IH] using rev_ind; intros H; [constructor|].
  apply Forall_app in H as [Hl Hk]. apply Forall_cons in Hk as [Hk _].
  rewrite map_from_list_snoc. specialize (IH Hl). revert IH. generalize (map_from_list l).
  intros m. induction m as [|[k' v'] m IHm]; intros Hm; cbn.
  - apply Forall_cons_2; [exact Hk|constructor].
  - apply Forall_cons in Hm as [Hv Hm].
    destruct (String.compare k k'); repeat constructor; auto.
Qed.

Lemma normalize_json_sorted v : json_sorted (normalize_json v).
Proof.
  induction v as [| | | |l IH|l IH] using Value_rect'; cbn; constructor.
  - by apply Forall_fmap.
  - apply map_from_list_sorted.
  - apply Forall_map_values, Forall_fmap. done.
Qed.

Lemma normalize_json_of_sorted v : json_sorted v → normalize_json v = v.
Proof.
  induction v as [| | | |l IH|l IH] using Value_rect'; intros Hs; cbn; try done.
  - inversion Hs as [| | | |? Hl|]; subst. f_equal.
    rewrite <-(map_id l) at 2. apply map_ext_in. intros a Ha%list_elem_of_In.
    rewrite Forall_forall in IH, Hl. auto.
  - inversion Hs as [| | | | |? Hk Hl]; subst. f_equal.
    replace (List.map _ l) with l; [by apply map_from_list_of_sorted|].
    symmetry. rewrite <-(map_id l) at 2. apply map_ext_in. intros [k v] Ha%list_elem_of_In.
    rewrite Forall_forall in IH, Hl. cbn. f_equal. apply (IH _ Ha), (Hl _ Ha).
Qed.

Lemma keys_map_values (f : Value → Value) (l : list (string * Value)) :
  (List.map (λ kv, (kv.1, f kv.2)) l).*1 = l.*1.
Proof. induction l as [|[k v] l IH]; cbn; [done|]. by f_equal. Qed.

Lemma normalize_json_equiv v : ∀ w,
  json_wf v → json_wf w → json_equiv v w → normalize_json v = normalize_json w.
Proof.
  induction v as [| | | |l IH|l IH] using Value_rect'; intros w Hv Hw Hvw;
    inversion Hvw; subst; cbn; try done; f_equal.
  - inversion Hv as [| | | |? Hl|]; inversion Hw as [| | | |? Hm|]; subst.
    rename select (Forall2 _ _ _) into H2. clear -IH Hl Hm H2.
    induction H2 as [|a b l m Hab H2 IHl]; cbn; [done|].
    decompose_Forall_hyps. f_equal; auto.
  - inversion Hv as [| | | | |? Hk Hl]; inversion Hw as [| | | | |? Hk' Hm]; subst.
    rename select (_ ≡ₚ _) into Hp. rename select (Forall2 _ _ _) into H2.
    trans (map_from_list (List.map (λ kv, (kv.1, normalize_json kv.2)) m')).
    + f_equal. rewrite Hp in Hm. clear -IH Hl Hm H2.
      induction H2 as [|[a x] [b y] l m [E Hab] H2 IHl]; cbn in *; [done|].
      decompose_Forall_hyps. f_equal; auto. f_equal; auto.
    + symmetry. apply map_from_list_equal; [by rewrite keys_map_values|]. by apply Permutation_map.
Qed.

Lemma normalize_json_equiv_inv v : ∀ w,
  json_wf v → json_wf w → normalize_json v = normalize_json w → json_equiv v w.
Proof.
  induction v as [| | | |l IH|l IH] using Value_rect'; intros w Hv Hw Hn;
    destruct w; cbn in Hn; simplify_eq; try constructor.
  - inversion Hv as [| | | |? Hl|]; inversion Hw as [| | | |? Hm|]; subst.
    rename select (List.map _ _ = _) into He. clear -IH Hl Hm He.
    revert items Hm He. induction l as [|a l IHl]; intros [|b m] Hm He; cbn in *; simplify_eq;
      constructor; decompose_Forall_hyps; auto.
  - inversion Hv as [| | | | |? Hk Hl]; inversion Hw as [| | | | |? Hk' Hm]; subst.
    rename select (map_from_list _ = _) into He.
    assert (Hp : List.map (λ kv, (kv.1, normalize_json kv.2)) l
      ≡ₚ List.map (λ kv, (kv.1, normalize_json kv.2)) items).
    { rewrite <-(map_from_list_perm (List.map _ l)) by by rewrite keys_map_values.
      rewrite He. by rewrite map_from_list_perm by by rewrite keys_map_values. }
    apply Permutation_map_inv in Hp as (m' & Heq & Hperm).
    econstructor; [exact Hperm|]. rewrite Hperm in Hm. clear -IH Hl Hm Heq.
    revert m' Hm Heq. induction l as [|[k v] l IHl]; intros [|[k' v'] m'] Hm Heq; cbn in *;
      simplify_eq; constructor; decompose_Forall_hyps; auto.
Qed.

Lemma json_sorted_wf v : json_sorted v → json_wf v.
Proof.
  induction v as [| | | |l IH|l IH] using Value_rect'; intros Hs; try constructor.
  - inversion Hs; subst. rewrite Forall_forall in *. auto.
  - inversion Hs; subst. by apply sorted_nodup.
  - inversion Hs as [| | | | |? _ Hl]; subst. rewrite Forall_forall in *. auto.
Qed.

Lemma Value_eqb_eq v : ∀ w, Value_eqb v w = true ↔ v = w.
Proof.
  induction v as [| | | |l IH|l IH] using Value_rect'; intros w; destruct w as [| | | |m|m];
    cbn; try (split; congruence).
  - rewrite Bool.eqb_true_iff. split; congruence.
  - rewrite Z.eqb_eq. split; congruence.
  - rewrite String.eqb_eq. split; congruence.
  - revert m. induction l as [|a l IHl]; intros [|b m]; try (split; congruence).
    apply Forall_cons in IH as [Ha IH]. rewrite andb_true_iff, (Ha b), (IHl IH m).
    split; [intros [-> [= ->]]|intros [= -> ->]]; done.
  - revert m. induction l as [|[k a] l IHl]; intros [|[k' b] m]; try (split; congruence).
    apply Forall_cons in IH as [Ha IH]. cbn in Ha.
    rewrite !andb_true_iff, String.eqb_eq, (Ha b), (IHl IH m).
    split; [intros [[-> ->] [= ->]]|intros [= -> -> ->]]; done.
Qed.

(** * Hexadecimal *)

(** Reading one hexadecimal digit back. *)
Definition hex_val (a : ascii) : Z :=
  if is_ascii_digit a then code a - 48 else code a - 87.

Lemma hex_char_spec d :
  0 ≤ d < 16 → hex_val (hex_char d) = d ∧ is_lower_hex (hex_char d) = true.
Proof.
  intros H. assert (Hd : d = 0 ∨ d = 1 ∨ d = 2 ∨ d = 3 ∨ d = 4 ∨ d = 5 ∨ d = 6 ∨ d = 7 ∨
    d = 8 ∨ d = 9 ∨ d = 10 ∨ d = 11 ∨ d = 12 ∨ d = 13 ∨ d = 14 ∨ d = 15) by lia.
  repeat (destruct Hd as [->|Hd]; [by vm_compute|]). subst. by vm_compute.
Qed.

Lemma nibbles b :
  code b = 16 * Z.shiftr (code b) 4 + Z.land (code b) 15 ∧
  0 ≤ Z.shiftr (code b) 4 < 16 ∧ 0 ≤ Z.land (code b) 15 < 16.
Proof.
  pose proof (code_bound b). rewrite Z.shiftr_div_pow2 by lia.
  change 15 with (Z.ones 4). rewrite Z.land_ones by lia. change (2 ^ 4) with 16.
  pose proof (Z.div_mod (code b) 16). pose proof (Z.mod_pos_bound (code b) 16).
  split; [lia|]. split; [|lia]. split; [apply Z.div_pos; lia|].
  apply Z.div_lt_upper_bound; lia.
Qed.

Lemma encode_hex_cons b l :
  bytes (encode_hex (b :: l)) =
    hex_char (Z.shiftr (code b) 4) :: hex_char (Z.land (code b) 15) :: bytes (encode_hex l).
Proof. unfold encode_hex. by rewrite !bytes_str. Qed.

Lemma encode_hex_length l : length (bytes (encode_hex l)) = (2 * length l)%nat.
Proof.
  induction l as [|b l IH]; [done|]. rewrite encode_hex_cons. cbn [length]. lia.
Qed.

Lemma encode_hex_lower l : all_bytes is_lower_hex (encode_hex l) = true.
Proof.
  unfold all_bytes. induction l as [|b l IH]; [done|]. rewrite encode_hex_cons.
  destruct (nibbles b) as (_ & H1 & H2). cbn [forallb].
  rewrite (proj2 (hex_char_spec _ H1)), (proj2 (hex_char_spec _ H2)). done.
Qed.

Lemma encode_hex_inj l m : encode_hex l = encode_hex m → l = m.
Proof.
  intros H. apply (f_equal bytes) in H. revert m H.
  induction l as [|a l IH]; intros [|b m]; rewrite ?encode_hex_cons; [done|done|done|].
  intros [= H1 H2 H3]. destruct (nibbles a) as (Ha & A1 & A2), (nibbles b) as (Hb & B1 & B2).
  f_equal; [|auto]. apply code_inj. rewrite Ha, Hb.
  rewrite <-(proj1 (hex_char_spec _ A1)), H1, (proj1 (hex_char_spec _ B1)).
  rewrite <-(proj1 (hex_char_spec _ A2)), H2, (proj1 (hex_char_spec _ B2)). done.
Qed.

(** * Digests *)

Lemma append_inj p s t : p +:+ s = p +:+ t → s = t.
Proof.
  intros H. apply bytes_inj. apply (f_equal bytes) in H. rewrite !bytes_append in H.
  by apply app_inv_head in H.
Qed.

Section Digests.
Context `{Backend}.

Lemma canonical_digest_ok {T} `{Serialize T} (x : T) d :
  canonical_digest x = Ok d ↔
  ∃ b, json_to_vec (normalize_json (to_value x)) = Some b ∧
       d = RECEIPT_ID_PREFIX +:+ encode_hex (sha256 b).
Proof.
  unfold canonical_digest, canonical_json. split.
  - intros Hd. res_inv. subst. eauto.
  - intros (b & -> & ->). done.
Qed.

(** A digest is the prefix and 64 lower-case hexadecimal digits. *)
Lemma canonical_digest_shape `{!BackendOk} {T} `{Serialize T} (x : T) d :
  canonical_digest x = Ok d →
  ∃ hex, strip_prefix RECEIPT_ID_PREFIX d = Some hex ∧ len hex = 64 ∧
         all_bytes is_lower_hex hex = true.
Proof.
  intros (b & _ & ->)%canonical_digest_ok. exists (encode_hex (sha256 b)).
  split; [by apply strip_prefix_some|]. split; [|apply encode_hex_lower].
  unfold len. rewrite <-length_bytes, encode_hex_length, sha256_length. done.
Qed.

Lemma canonical_digest_bind {T U} `{Serialize T, Serialize U} (x : T) (y : U) d :
  canonical_digest x = Ok d → canonical_digest y = Ok d →
  normalize_json (to_value x) = normalize_json (to_value y) ∨ Collision.
Proof.
  intros (b & Hb & ->)%canonical_digest_ok (c & Hc & Hd)%canonical_digest_ok.
  apply append_inj, encode_hex_inj in Hd.
  destruct (Value_eqb (normalize_json (to_value x)) (normalize_json (to_value y))) eqn:E.
  - left. by apply Value_eqb_eq.
  - right. exists (normalize_json (to_value x)), (normalize_json (to_value y)), b, c.
    split; [|done]. intros Hn. apply Value_eqb_eq in Hn. congruence.
Qed.

(** The digest of a document determines the document, up to a collision. *)
Lemma canonical_digest_inj {T} `{SerializeInj T, !SerializeSorted T} (x y : T) d :
  canonical_digest x = Ok d → canonical_digest y = Ok d → x = y ∨ Collision.
Proof.
  intros Hx Hy. destruct (canonical_digest_bind _ _ _ Hx Hy) as [Hn|]; [left|by right].
  rewrite !normalize_json_of_sorted in Hn by apply to_value_sorted. by apply to_value_inj.
Qed.
End Digests.

(** * Serialisers of the basic types *)

#[global] Instance string_inj : SerializeInj string.
Proof. intros x y. by intros [= ->]. Qed.
#[global] Instance Z_inj : SerializeInj Z.
Proof. intros x y. by intros [= ->]. Qed.
#[global] Instance bool_inj : SerializeInj bool.
Proof. intros x y. by intros [= ->]. Qed.
#[global] Instance list_inj {T} `{SerializeInj T} : SerializeInj (list T).
Proof.
  intros l m. unfold to_value, list_serialize. intros [= Hl]. revert m Hl.
  induction l as [|x l IH]; intros [|y m]; cbn; try done.
  intros [= Hx Hl]. f_equal; [by apply to_value_inj|auto].
Qed.
#[global] Instance option_inj {T} `{SerializeInj T, !NonNull T} : SerializeInj (option T).
Proof.
  intros [x|] [y|]; unfold to_value, option_serialize; intros E; try done.
  - f_equal. by apply to_value_inj.
  - exfalso. by eapply to_value_nonnull.
  - exfalso. by eapply to_value_nonnull.
Qed.
#[global] Instance EvidenceStatus_inj : SerializeInj EvidenceStatus.
Proof. by intros [] []. Qed.

#[global] Instance string_nonnull : NonNull string. Proof. done. Qed.
#[global] Instance Z_nonnull : NonNull Z. Proof. done. Qed.

#[global] Instance string_sorted : SerializeSorted string. Proof. constructor. Qed.
#[global] Instance Z_sorted : SerializeSorted Z. Proof. constructor. Qed.
#[global] Instance bool_sorted : SerializeSorted bool. Proof. constructor. Qed.
#[global] Instance EvidenceStatus_sorted : SerializeSorted EvidenceStatus. Proof. constructor. Qed.
#[global] Instance list_sorted {T} `{SerializeSorted T} : SerializeSorted (list T).
Proof. intros l. constructor. apply Forall_fmap, Forall_true. intros x. apply to_value_sorted. Qed.
#[global] Instance option_sorted {T} `{SerializeSorted T} : SerializeSorted (option T).
Proof. intros [x|]; [exact (to_value_sorted x)|constructor]. Qed.

(** Objects built from fields with distinct names. *)
Lemma obj_sorted l : Forall (λ kv, json_sorted kv.2) l → json_sorted (obj l).
Proof. intros Hl. constructor; [apply map_from_list_sorted|]. by apply Forall_map_values. Qed.

Lemma obj_get l m k :
  obj l = obj m → NoDup l.*1 → NoDup m.*1 → map_get k l = map_get k m.
Proof.
  intros [= E] Hl Hm. rewrite <-(map_get_from_list l), <-(map_get_from_list m) by done.
  by rewrite E.
Qed.

Lemma opt_field_sorted {T} `{SerializeSorted T} k (o : option T) :
  Forall (λ kv, json_sorted kv.2) (opt_field k o).
Proof. destruct o as [x|]; [by apply Forall_singleton, to_value_sorted|constructor]. Qed.

Lemma list_field_sorted {T} `{SerializeSorted T} k (l : list T) :
  Forall (λ kv, json_sorted kv.2) (list_field k l).
Proof. destruct l as [|x l]; [constructor|]. apply Forall_singleton. exact (to_value_sorted (x :: l)). Qed.

(** [ser_sorted]: the object of a record is in key order at every level. *)
Ltac ser_sorted inst :=
  let x := fresh in
  intros x; unfold to_value, inst; apply obj_sorted;
  repeat first
    [ apply Forall_nil_2 | apply Forall_app_2 | apply opt_field_sorted | apply list_field_sorted
    | apply Forall_cons_2; [cbn [snd]; apply to_value_sorted|] ].

(** [ser_inj]: a record is determined by its object, field by field; the fields
    that may be absent are split beforehand. *)
Ltac ser_split :=
  repeat match goal with
  | H : context [opt_field _ ?o] |- _ => is_var o; destruct o
  | H : context [list_field _ ?l] |- _ => is_var l; destruct l
  end.

Lemma Object_inj l m : Object l = Object m → l = m.
Proof. by intros [= ->]. Qed.
Lemma entry_inj (k k' : string) (v w : Value) l m :
  (k, v) :: l = (k', w) :: m → k = k' ∧ v = w ∧ l = m.
Proof. by intros [= -> -> ->]. Qed.

Lemma list_field_inj {T} `{SerializeInj T} (l m : list T) :
  Array (to_value <$> l) = Array (to_value <$> m) → l = m.
Proof. intros E. by apply to_value_inj. Qed.

(** Evaluates the insertion of the literal keys and nothing of the values. *)
Ltac ser_eval E :=
  lazy beta iota zeta delta
    [obj opt_field list_field app map_from_list fold_left map_insert cmp string_ord
     String.compare Ascii.compare N_of_ascii N_of_digits N.compare N.add N.mul
     Pos.compare Pos.compare_cont Pos.add Pos.mul Pos.succ fst snd] in E.

Ltac ser_inj inst :=
  let x := fresh in let y := fresh in let E := fresh "E" in
  let K := fresh "K" in let V := fresh "V" in
  intros x y; destruct x, y; unfold to_value at 1 2, inst; cbn;
  intros E; ser_split; ser_eval E; apply Object_inj in E;
  repeat (apply entry_inj in E; destruct E as (K & V & E); try discriminate K; clear K;
          first [apply to_value_inj in V | apply list_field_inj in V];
          try (injection V; clear V; intros); subst);
  try discriminate E; reflexivity.

(** * Theorems *)

(** Canonical JSON is canonical: two documents with one entry per key have
    the same normal form exactly when they are the same document, arrays compared
    in order and objects as maps, so the digest does not depend on the order in
    which fields were written. *)
Theorem normalize_json_canonical (v w : Value) :
  json_wf v → json_wf w → normalize_json v = normalize_json w ↔ json_equiv v w.
Proof.
  intros Hv Hw. split; [by apply normalize_json_equiv_inv|by apply normalize_json_equiv].
Qed.

Lemma normalize_json_canonical_witness :
  normalize_json (Object [("b", Number 1); ("a", Null)]) =
  normalize_json (Object [("a", Null); ("b", Number 1)]).
Proof.
  apply (normalize_json_canonical (Object [("b", Number 1); ("a", Null)])
           (Object [("a", Null); ("b", Number 1)])).
  - constructor; [by apply (bool_decide_unpack _)|repeat constructor].
  - constructor; [by apply (bool_decide_unpack _)|repeat constructor].
  - apply (equiv_object _ _ [("b", Number 1); ("a", Null)]); [apply Permutation_swap|].
    repeat constructor.
Defined.

