(* ===== verification/FieldCodec.v ===== *)
(** A concrete [Codec], at which the theorems that assume one are evaluated. *)
From S2P Require Import Prelude.
From S2P Require Import RustStr.
From S2P Require Import Canonical.
Local Open Scope Z_scope.

(** A stand-in for JSON: the fields in order, each byte after a ["1"], each field
    ended by a ["0"]. *)
Definition write_field (f : string) : list ascii := flat_map (λ a, ["1"%char; a]) (bytes f) ++ ["0"%char].

Fixpoint read_fields (field l : list ascii) : list string :=
  match l with
  | "0"%char :: r => str field :: read_fields [] r
  | "1"%char :: a :: r => read_fields (field ++ [a]) r
  | _ => []
  end.

Definition number (z : Z) : string := str (pad_decimal 20 z).
Definition read_number (s : string) : option Z := digits_val 0 (bytes s).

Definition write_index {A} `{EqDecision A} (l : list A) (x : A) : string :=
  match list_find (eq x) l with Some (i, _) => number (Z.of_nat i) | None => "" end.
Definition read_index {A} (l : list A) (s : string) : option A :=
  n ← read_number s; l !! Z.to_nat n.

(** A codec that writes only what it can read back, on a line that is not too
    long. *)
Definition codec {T} `{EqDecision T} (write : T → list string) (read : list string → option T) :
    Codec T :=
  let from_slice := λ l, read (read_fields [] l) in
  {| to_vec := λ x,
       let b := flat_map write_field (write x) in
       if bool_decide (from_slice (b ++ [line_feed]) = Some x) && (Z.of_nat (length b) <? 4096)
       then Some b else None;
     from_slice := from_slice |}.

Lemma codec_law {T} `{EqDecision T} write read (x : T) b :
  to_vec (Codec := codec write read) x = Some b →
  from_slice (Codec := codec write read) (b ++ [line_feed]) = Some x ∧ Z.of_nat (length b) < 4096.
Proof.
  cbn. destruct (_ && _) eqn:E; [|done]. intros [= <-].
  apply andb_true_iff in E as [E%bool_decide_eq_true Hl]. split; [done|lia].
Qed.

(** A codec that writes every value, for a type whose values are read back from
    their fields. *)
Definition total_codec {T} (write : T → list string) (read : list string → option T) : Codec T :=
  {| to_vec := λ x, Some (flat_map write_field (write x));
     from_slice := λ l, read (read_fields [] l) |}.

Lemma read_write_field f fs field :
  read_fields field (write_field f ++ fs) = str (field ++ bytes f) :: read_fields [] fs.
Proof.
  unfold write_field. rewrite <-app_assoc. revert field.
  induction (bytes f) as [|a l IH]; intros field; cbn; [by rewrite app_nil_r|].
  rewrite IH. by rewrite <-app_assoc.
Qed.

Lemma read_write_fields fs : read_fields [] (flat_map write_field fs ++ [line_feed]) = fs.
Proof.
  induction fs as [|f fs IH]; [done|]. cbn [flat_map].
  rewrite <-app_assoc, read_write_field, IH. cbn. by rewrite str_bytes.
Qed.

Lemma total_codec_law {T} write read (x : T) :
  read (write x) = Some x →
  ∃ b, to_vec (Codec := total_codec write read) x = Some b ∧
    from_slice (Codec := total_codec write read) (b ++ [line_feed]) = Some x.
Proof. intros H. eexists. split; [done|]. cbn. by rewrite read_write_fields. Qed.

Lemma read_number_number z : 0 ≤ z < 10 ^ 20 → read_number (number z) = Some z.
Proof. intros Hz. unfold read_number, number. rewrite bytes_str. by apply digits_val_pad. Qed.
