(* ===== verification/Config.v ===== *)
(** Configuration and its normalisation into an execution plan
    ([src/src/config.rs]).

    The configuration records, the plan records and [ConfigError] are the
    source's; [into_plan] is the pipeline of validation and normalisation with
    every early return.  [ConfigError] has one constructor the source does not
    have: [ConfigFault] stands for a panic of the topological sort (a failed
    [expect], or the subtraction of the in-degree below zero) or for the
    exhaustion of the fuel of its loop.  [TopoSort.v] shows that neither
    happens. *)
From S2P Require Import Prelude.
From S2P Require Import RustStr.
From S2P Require Import BTree.
From S2P Require Import Canonical.
Local Open Scope Z_scope.

(** * Bounds *)

Definition CONFIG_SCHEMA_VERSION : string := "1.0".
Definition MAX_CONFIG_BYTES : Z := 1048576.
Definition MAX_CHECKS : Z := 128.
Definition MAX_CACHES : Z := 32.
Definition MAX_ARGV_PARTS : Z := 64.
Definition MAX_STRING_BYTES : Z := 4096.
Definition MAX_TIMEOUT_SECONDS : Z := 86400.
Definition MAX_MEMORY_MIB : Z := 262144.
Definition MAX_CPU_COUNT : Z := 256.
Definition MAX_PIDS : Z := 65536.
Definition MAX_STORAGE_BYTES : Z := 1099511627776.
Definition MIN_RECEIPT_JOURNAL_RESERVE_BYTES : Z := 4096.

(** * The configuration document *)

Inductive RuntimeKind : Type := DockerCompatible | Host.
Inductive RuntimePullPolicy : Type := Never.
Inductive RuntimeSwapMode : Type := Disabled.
Inductive ArtifactKind : Type := RegularFile | Directory.

#[global] Instance RuntimeKind_eq_dec : EqDecision RuntimeKind.
Proof. solve_decision. Defined.
#[global] Instance RuntimePullPolicy_eq_dec : EqDecision RuntimePullPolicy.
Proof. solve_decision. Defined.
#[global] Instance RuntimeSwapMode_eq_dec : EqDecision RuntimeSwapMode.
Proof. solve_decision. Defined.
#[global] Instance ArtifactKind_eq_dec : EqDecision ArtifactKind.
Proof. solve_decision. Defined.

Record RuntimeConfig : Type := {
  rc_kind : RuntimeKind;
  rc_image : string;
  rc_cpu_count : Z;
  rc_memory_mib : Z;
  rc_pids_limit : Z;
  rc_network : bool;
  rc_pull_policy : option RuntimePullPolicy;
  rc_swap_mode : option RuntimeSwapMode;
}.

Record ReceiptConfig : Type := {
  rec_output : string;
  rec_freshness_seconds : Z;
}.

Definition ReceiptConfig_default : ReceiptConfig :=
  {| rec_output := ".ccp/receipt.json"; rec_freshness_seconds := 86400 |}.

Record RuntimeInternalEnvironmentConfig : Type := {
  ri_name : string;
  ri_cache_id : string;
}.

Record EnvironmentConfig : Type := {
  ec_allow : list string;
  ec_fixed : btmap string string;
  ec_runtime_internal : list RuntimeInternalEnvironmentConfig;
  ec_remote_secret_only : list string;
}.

Record CacheConfig : Type := {
  cc_id : string;
  cc_mount_path : string;
}.

Record StorageConfig : Type := {
  sc_min_free_bytes : Z;
  sc_receipt_journal_reserve_bytes : Z;
  sc_max_cache_growth_bytes : Z;
}.

Record ArtifactContractConfig : Type := {
  ac_path : string;
  ac_kind : ArtifactKind;
  ac_max_bytes : Z;
  ac_max_entries : Z;
}.

Record CheckConfig : Type := {
  ck_id : string;
  ck_required : bool;
  ck_argv : list string;
  ck_working_directory : string;
  ck_timeout_seconds : Z;
  ck_depends_on : list string;
  ck_artifacts : list string;
  ck_artifact_contracts : list ArtifactContractConfig;
}.

Record ConfigV1 : Type := {
  cfg_schema_version : string;
  cfg_project : string;
  cfg_runtime : RuntimeConfig;
  cfg_receipt : ReceiptConfig;
  cfg_environment : EnvironmentConfig;
  cfg_caches : list CacheConfig;
  cfg_storage : option StorageConfig;
  cfg_checks : list CheckConfig;
}.

(** * The execution plan *)

Record NormalizedRuntime : Type := {
  nr_kind : RuntimeKind;
  nr_image : string;
  nr_cpu_count : Z;
  nr_memory_mib : Z;
  nr_pids_limit : Z;
  nr_network : bool;
  nr_pull_policy : option RuntimePullPolicy;
  nr_swap_mode : option RuntimeSwapMode;
}.

Record NormalizedReceipt : Type := {
  nrec_output : string;
  nrec_freshness_seconds : Z;
}.

Record NormalizedFixedEnvironment : Type := {
  nfe_name : string;
  nfe_value_digest : string;
}.

Record NormalizedRuntimeInternalEnvironment : Type := {
  nri_name : string;
  nri_cache_id : string;
  nri_container_target : string;
}.

Record NormalizedEnvironment : Type := {
  ne_inherit : list string;
  ne_fixed : list NormalizedFixedEnvironment;
  ne_runtime_internal : list NormalizedRuntimeInternalEnvironment;
  ne_remote_secret_only : list string;
}.

Record NormalizedCache : Type := {
  nc_id : string;
  nc_mount_path : string;
}.

Record NormalizedStorage : Type := {
  ns_min_free_bytes : Z;
  ns_receipt_journal_reserve_bytes : Z;
  ns_max_cache_growth_bytes : Z;
  ns_max_artifact_bytes : Z;
}.

Record NormalizedArtifactContract : Type := {
  na_path : string;
  na_kind : ArtifactKind;
  na_max_bytes : Z;
  na_max_entries : Z;
  na_producer_check : string;
}.

Record NormalizedCheck : Type := {
  nk_id : string;
  nk_required : bool;
  nk_argv : list string;
  nk_working_directory : string;
  nk_timeout_seconds : Z;
  nk_depends_on : list string;
  nk_artifacts : list string;
  nk_artifact_contracts : list NormalizedArtifactContract;
}.

Record ExecutionPlanV1 : Type := {
  ep_schema_version : string;
  ep_project : string;
  ep_runtime : NormalizedRuntime;
  ep_receipt : NormalizedReceipt;
  ep_environment : NormalizedEnvironment;
  ep_caches : list NormalizedCache;
  ep_storage : option NormalizedStorage;
  ep_checks : list NormalizedCheck;
}.

Record ExecutionPlanEnvelopeV1 : Type := {
  pe_plan_digest : string;
  pe_plan : ExecutionPlanV1;
  pe_fixed_environment : btmap string string;
}.

(** * Errors *)

Inductive ConfigError : Type :=
  | ConfigParse
  | ConfigReceipt (e : ReceiptError)
  | ConfigUnsupportedSchemaVersion (version : string)
  | ConfigTooLarge (actual maximum : Z)
  | InvalidField (field : string)
  | OutOfRange (field : string) (minimum maximum actual : Z)
  | TooManyItems (field : string) (actual maximum : Z)
  | ConfigNoChecks
  | ConfigNoRequiredChecks
  | DuplicateId (field id : string)
  | DuplicateValue (field : string)
  | DuplicateArtifact (path : string)
  | PathOverlap (first second : string)
  | SelfDependency (check : string)
  | UnknownDependency (check dependency : string)
  | UnknownEnvironmentCache (name cache_id : string)
  | MissingStoragePolicy
  | MissingRuntimeCapabilityPolicy
  | DependencyCycle (checks : list string)
  | PlanDigestMismatch
  | ConfigFault (f : fault).

(** * Field validation *)

Definition validate_text (field value : string) : result ConfigError () :=
  ensure (negb (is_empty value || (len value >? MAX_STRING_BYTES) || has_control value))
    (InvalidField field).

Definition identifier_char (c : Z) : bool :=
  char_is_alphanumeric c || existsb (Z.eqb c) [code "-"; code "_"; code "."].

Definition validate_identifier (field value : string) : result ConfigError () :=
  _ ← validate_text field value;
  ensure ((len value <=? 64) && forallb identifier_char (chars value)
          && negb (value =? ".")%string && negb (value =? "..")%string)
    (InvalidField field).

Definition validate_environment_name (value : string) : result ConfigError () :=
  _ ← validate_text "environment.allow" value;
  match chars value with
  | [] => Err (InvalidField "environment.allow")
  | c :: rest =>
    ensure (((c =? code "_") || char_is_alphabetic c)
            && forallb (λ c, (c =? code "_") || char_is_alphanumeric c) rest)
      (InvalidField "environment.allow")
  end.

Definition validate_repository_identity (value : string) : result ConfigError () :=
  let segments := split "/" value in
  let owner := nth 0 segments "" in
  let repository := nth 1 segments "" in
  _ ← validate_identifier "project" owner;
  _ ← validate_identifier "project" repository;
  ensure (length segments <=? 2)%nat (InvalidField "project").

(** The shape of a path that stays below the directory it is joined to. *)
Definition safe_relative (value : string) : bool :=
  (value =? ".")%string
  || (negb (starts_with "/" value) && negb (starts_with "~" value)
      && negb (contains_char "\" value) && negb (contains_char ":" value)
      && forallb (λ segment, negb (is_empty segment) && negb (segment =? ".")%string
                             && negb (segment =? "..")%string) (split "/" value)).

Definition validate_relative_path (field value : string) : result ConfigError () :=
  _ ← validate_text field value;
  ensure (safe_relative value) (InvalidField field).

Definition validate_image_reference (value : string) : result ConfigError () :=
  _ ← validate_text "runtime.image" value;
  match rsplit_once "@" value with
  | None => Err (InvalidField "runtime.image")
  | Some (name, digest) =>
    match strip_prefix "sha256:" digest with
    | None => Err (InvalidField "runtime.image")
    | Some hex =>
      ensure (negb (is_empty name) && negb (existsb is_whitespace (chars name))
              && negb (contains_char "@" name) && negb (contains_str "://" name)
              && negb (contains_char "\" name) && (len hex =? 64)
              && all_bytes is_lower_hex hex)
        (InvalidField "runtime.image")
    end
  end.

Definition validate_bounded (field : string) (value minimum maximum : Z) : result ConfigError () :=
  ensure (in_range minimum maximum value) (OutOfRange field minimum maximum value).

Definition unique_step (field : string) (validate : string → result ConfigError ())
    (unique : btset string) (value : string) : result ConfigError (btset string) :=
  _ ← validate value;
  let '(fresh, unique) := set_insert value unique in
  _ ← ensure fresh (DuplicateValue field);
  Ok unique.

Definition unique_sorted (field : string) (values : list string)
    (validate : string → result ConfigError ()) : result ConfigError (list string) :=
  try_fold (unique_step field validate) [] values.

(** * Runtime, caches and storage *)

Definition validate_top_level (c : ConfigV1) : result ConfigError () :=
  _ ← ensure (existsb (String.eqb (cfg_schema_version c)) [CONFIG_SCHEMA_VERSION; "1.1"; "1.2"; "1.3"])
        (ConfigUnsupportedSchemaVersion (cfg_schema_version c));
  _ ← validate_repository_identity (cfg_project c);
  _ ← validate_image_reference (rc_image (cfg_runtime c));
  _ ← validate_bounded "runtime.cpu_count" (rc_cpu_count (cfg_runtime c)) 1 MAX_CPU_COUNT;
  _ ← validate_bounded "runtime.memory_mib" (rc_memory_mib (cfg_runtime c)) 64 MAX_MEMORY_MIB;
  _ ← validate_bounded "runtime.pids_limit" (rc_pids_limit (cfg_runtime c)) 1 MAX_PIDS;
  _ ← validate_relative_path "receipt.output" (rec_output (cfg_receipt c));
  _ ← ensure (negb (rec_output (cfg_receipt c) =? ".")%string) (InvalidField "receipt.output");
  validate_bounded "receipt.freshness_seconds" (rec_freshness_seconds (cfg_receipt c)) 1 31536000.

Definition normalize_runtime (schema_version : string) (runtime : RuntimeConfig) :
    result ConfigError NormalizedRuntime :=
  '(pull_policy, swap_mode) ←
    (if (schema_version =? "1.3")%string then
       pull ← ok_or (rc_pull_policy runtime) MissingRuntimeCapabilityPolicy;
       swap ← ok_or (rc_swap_mode runtime) MissingRuntimeCapabilityPolicy;
       Ok (Some pull, Some swap)
     else
       _ ← ensure (negb (is_Some_b (rc_pull_policy runtime))) (InvalidField "runtime.pull_policy");
       _ ← ensure (negb (is_Some_b (rc_swap_mode runtime))) (InvalidField "runtime.swap_mode");
       Ok (None, None));
  Ok {| nr_kind := rc_kind runtime; nr_image := rc_image runtime;
        nr_cpu_count := rc_cpu_count runtime; nr_memory_mib := rc_memory_mib runtime;
        nr_pids_limit := rc_pids_limit runtime; nr_network := rc_network runtime;
        nr_pull_policy := pull_policy; nr_swap_mode := swap_mode |}.

(** The body of the loop of [normalize_caches], over its two locals. *)
Definition cache_step (st : btmap string NormalizedCache * btset string) (cache : CacheConfig) :
    result ConfigError (btmap string NormalizedCache * btset string) :=
  let '(by_id, mount_paths) := st in
  _ ← validate_identifier "cache.id" (cc_id cache);
  _ ← validate_relative_path "cache.mount_path" (cc_mount_path cache);
  _ ← ensure (negb (cc_mount_path cache =? ".")%string) (InvalidField "cache.mount_path");
  _ ← ensure (negb (map_contains (cc_id cache) by_id)) (DuplicateId "cache.id" (cc_id cache));
  let '(fresh, mount_paths) := set_insert (cc_mount_path cache) mount_paths in
  _ ← ensure fresh (DuplicateValue "cache.mount_path");
  Ok (map_insert (cc_id cache)
        {| nc_id := cc_id cache; nc_mount_path := cc_mount_path cache |} by_id, mount_paths).

Definition normalize_caches (caches : list CacheConfig) : result ConfigError (list NormalizedCache) :=
  _ ← ensure (negb (Z.of_nat (length caches) >? MAX_CACHES))
        (TooManyItems "caches" (Z.of_nat (length caches)) MAX_CACHES);
  '(by_id, _) ← try_fold cache_step ([], []) caches;
  Ok (map_values by_id).

Definition sum_max_bytes (contracts : list NormalizedArtifactContract) : option Z :=
  opt_fold (λ total a, checked_u64 (total + na_max_bytes a)) 0 contracts.

Definition normalize_storage (schema_version : string) (storage : option StorageConfig)
    (checks : list NormalizedCheck) : result ConfigError (option NormalizedStorage) :=
  if negb (existsb (String.eqb schema_version) ["1.2"; "1.3"]) then
    _ ← ensure (negb (is_Some_b storage)) (InvalidField "storage");
    Ok None
  else
  s ← ok_or storage MissingStoragePolicy;
  _ ← validate_bounded "storage.min_free_bytes" (sc_min_free_bytes s) 1 MAX_STORAGE_BYTES;
  _ ← validate_bounded "storage.receipt_journal_reserve_bytes"
        (sc_receipt_journal_reserve_bytes s) MIN_RECEIPT_JOURNAL_RESERVE_BYTES MAX_STORAGE_BYTES;
  _ ← validate_bounded "storage.max_cache_growth_bytes" (sc_max_cache_growth_bytes s) 0
        MAX_STORAGE_BYTES;
  max_artifact_bytes ← ok_or (sum_max_bytes (checks ≫= nk_artifact_contracts))
    (InvalidField "storage.max_artifact_bytes");
  required ← ok_or
    (total ← checked_u64 (sc_min_free_bytes s + sc_receipt_journal_reserve_bytes s);
     total ← checked_u64 (total + sc_max_cache_growth_bytes s);
     checked_u64 (total + max_artifact_bytes)) (InvalidField "storage");
  _ ← ensure (negb (required >? MAX_STORAGE_BYTES))
        (OutOfRange "storage.required_free_bytes" 1 MAX_STORAGE_BYTES required);
  Ok (Some {| ns_min_free_bytes := sc_min_free_bytes s;
              ns_receipt_journal_reserve_bytes := sc_receipt_journal_reserve_bytes s;
              ns_max_cache_growth_bytes := sc_max_cache_growth_bytes s;
              ns_max_artifact_bytes := max_artifact_bytes |}).

(** * Checks *)

Definition validate_check (check : CheckConfig) : result ConfigError () :=
  _ ← validate_identifier "check.id" (ck_id check);
  _ ← ensure (negb ((length (ck_argv check) =? 0)%nat
                    || (Z.of_nat (length (ck_argv check)) >? MAX_ARGV_PARTS)))
        (InvalidField "check.argv");
  _ ← try_each (validate_text "check.argv") (ck_argv check);
  _ ← validate_relative_path "check.working_directory" (ck_working_directory check);
  validate_bounded "check.timeout_seconds" (ck_timeout_seconds check) 1 MAX_TIMEOUT_SECONDS.

Definition artifact_contract_step (artifacts : list string) (paths : btset string)
    (artifact : ArtifactContractConfig) : result ConfigError (btset string) :=
  _ ← validate_relative_path "check.artifact_contracts.path" (ac_path artifact);
  _ ← ensure (negb ((ac_path artifact =? ".")%string
                    || negb (existsb (String.eqb (ac_path artifact)) artifacts)))
        (InvalidField "check.artifact_contracts.path");
  let '(fresh, paths) := set_insert (ac_path artifact) paths in
  _ ← ensure fresh (DuplicateValue "check.artifact_contracts.path");
  _ ← validate_bounded "check.artifact_contracts.max_bytes" (ac_max_bytes artifact) 1 1073741824;
  let maximum_entries := match ac_kind artifact with RegularFile => 1 | Directory => 10000 end in
  _ ← validate_bounded "check.artifact_contracts.max_entries" (ac_max_entries artifact) 1
        maximum_entries;
  _ ← ensure (negb (bool_decide (ac_kind artifact = RegularFile)
                    && negb (ac_max_entries artifact =? 1)))
        (InvalidField "check.artifact_contracts.max_entries");
  Ok paths.

Definition validate_artifact_contracts (check : CheckConfig) : result ConfigError () :=
  _ ← try_fold (artifact_contract_step (ck_artifacts check)) [] (ck_artifact_contracts check);
  Ok ().

Definition normalize_check (check : CheckConfig) : NormalizedCheck :=
  {| nk_id := ck_id check; nk_required := ck_required check; nk_argv := ck_argv check;
     nk_working_directory := ck_working_directory check;
     nk_timeout_seconds := ck_timeout_seconds check;
     nk_depends_on := ck_depends_on check; nk_artifacts := ck_artifacts check;
     nk_artifact_contracts :=
       (λ artifact, {| na_path := ac_path artifact; na_kind := ac_kind artifact;
                       na_max_bytes := ac_max_bytes artifact;
                       na_max_entries := ac_max_entries artifact;
                       na_producer_check := ck_id check |}) <$> ck_artifact_contracts check |}.

(** The part of the loop body of [normalize_checks] that looks at one check:
    validation, and the sorting of its dependencies and artifacts. *)
Definition prepare_check (check : CheckConfig) : result ConfigError CheckConfig :=
  _ ← validate_check check;
  depends_on ← unique_sorted "check.depends_on" (ck_depends_on check)
    (validate_identifier "check.depends_on");
  artifacts ← unique_sorted "check.artifacts" (ck_artifacts check)
    (validate_relative_path "check.artifacts");
  _ ← ensure (negb (existsb (String.eqb ".") artifacts)) (InvalidField "check.artifacts");
  let check :=
    {| ck_id := ck_id check; ck_required := ck_required check; ck_argv := ck_argv check;
       ck_working_directory := ck_working_directory check;
       ck_timeout_seconds := ck_timeout_seconds check;
       ck_depends_on := depends_on; ck_artifacts := artifacts;
       ck_artifact_contracts := ck_artifact_contracts check |} in
  _ ← validate_artifact_contracts check;
  Ok check.

Definition check_step (by_id : btmap string CheckConfig) (check : CheckConfig) :
    result ConfigError (btmap string CheckConfig) :=
  check ← prepare_check check;
  match map_get (ck_id check) by_id with
  | Some _ => Err (DuplicateId "check.id" (ck_id check))
  | None => Ok (map_insert (ck_id check) check by_id)
  end.

Definition dependency_step (by_id : btmap string CheckConfig) (check : CheckConfig)
    (dependency : string) : result ConfigError () :=
  _ ← ensure (negb (dependency =? ck_id check)%string) (SelfDependency (ck_id check));
  ensure (map_contains dependency by_id) (UnknownDependency (ck_id check) dependency).

Definition validate_dependencies (by_id : btmap string CheckConfig) : result ConfigError () :=
  try_each (λ check, try_each (dependency_step by_id check) (ck_depends_on check))
    (map_values by_id).

(** ** Kahn's algorithm *)

Definition initial_indegree (by_id : btmap string CheckConfig) : btmap string nat :=
  map_from_list ((λ kv, (kv.1, length (ck_depends_on kv.2))) <$> by_id).

(** [dependents.entry(dependency).or_default().insert(id)]. *)
Definition add_dependent (id : string) (m : btmap string (btset string)) (dependency : string) :
    btmap string (btset string) :=
  map_insert dependency (set_insert id (default [] (map_get dependency m))).2 m.

Definition dependents_of (by_id : btmap string CheckConfig) : btmap string (btset string) :=
  fold_left (λ m kv, fold_left (add_dependent kv.1) (ck_depends_on kv.2) m) by_id [].

Definition initial_ready (indegree : btmap string nat) : btset string :=
  set_from_list (filter (λ kv, kv.2 = 0%nat) indegree).*1.

(** The loop over the dependents of the check just emitted: [get_mut] with
    [expect], the decrement, and the insertion of a check that became ready. *)
Definition child_step (st : btset string * btmap string nat) (child : string) :
    result fault (btset string * btmap string nat) :=
  let '(ready, indegree) := st in
  count ← ok_or (map_get child indegree) Panic;
  count ← ok_or (match count with S n => Some n | O => None end) Panic;
  let indegree := map_insert child count indegree in
  Ok (if (count =? 0)%nat then (set_insert child ready).2 else ready, indegree).

Fixpoint topo_loop (fuel : nat) (by_id : btmap string CheckConfig)
    (dependents : btmap string (btset string)) (ready : btset string)
    (indegree : btmap string nat) (ordered : list NormalizedCheck) :
    result fault (list NormalizedCheck * btmap string nat) :=
  match ready with
  | [] => Ok (ordered, indegree)
  | id :: ready =>
    match fuel with
    | O => Err OutOfFuel
    | S fuel =>
      check ← ok_or (map_get id by_id) Panic;
      '(ready, indegree) ←
        try_fold child_step (ready, indegree) (default [] (map_get id dependents));
      topo_loop fuel by_id dependents ready indegree (ordered ++ [normalize_check check])
    end
  end.

Definition topological_checks (by_id : btmap string CheckConfig) :
    result ConfigError (list NormalizedCheck) :=
  let indegree := initial_indegree by_id in
  let dependents := dependents_of by_id in
  let ready := initial_ready indegree in
  '(ordered, indegree) ←
    map_err ConfigFault (topo_loop (length by_id) by_id dependents ready indegree []);
  if negb (length ordered =? length by_id)%nat then
    Err (DependencyCycle (filter (λ kv, 0 < kv.2)%nat indegree).*1)
  else Ok ordered.

Definition normalize_checks (checks : list CheckConfig) : result ConfigError (list NormalizedCheck) :=
  _ ← ensure (negb (length checks =? 0)%nat) ConfigNoChecks;
  _ ← ensure (negb (Z.of_nat (length checks) >? MAX_CHECKS))
        (TooManyItems "checks" (Z.of_nat (length checks)) MAX_CHECKS);
  _ ← ensure (existsb ck_required checks) ConfigNoRequiredChecks;
  by_id ← try_fold check_step [] checks;
  _ ← validate_dependencies by_id;
  topological_checks by_id.

(** * Path isolation *)

Definition paths_overlap (first second : string) : bool :=
  (first =? second)%string
  || (match strip_prefix second first with Some suffix => starts_with "/" suffix | None => false end)
  || (match strip_prefix first second with Some suffix => starts_with "/" suffix | None => false end).

Definition reject_path_overlap (first second : string) : result ConfigError () :=
  ensure (negb (paths_overlap first second)) (PathOverlap first second).

Fixpoint isolate_caches (receipt : NormalizedReceipt) (caches : list NormalizedCache) :
    result ConfigError () :=
  match caches with
  | [] => Ok ()
  | cache :: others =>
    _ ← try_each (λ other, reject_path_overlap (nc_mount_path cache) (nc_mount_path other)) others;
    _ ← reject_path_overlap (nc_mount_path cache) (nrec_output receipt);
    isolate_caches receipt others
  end.

Definition isolate_artifact (receipt : NormalizedReceipt) (caches : list NormalizedCache)
    (artifacts : btset string) (artifact : string) : result ConfigError (btset string) :=
  _ ← ensure (negb (set_contains artifact artifacts)) (DuplicateArtifact artifact);
  _ ← try_each (reject_path_overlap artifact) artifacts;
  _ ← reject_path_overlap artifact (nrec_output receipt);
  _ ← try_each (λ cache, reject_path_overlap artifact (nc_mount_path cache)) caches;
  Ok (set_insert artifact artifacts).2.

Definition validate_path_isolation (receipt : NormalizedReceipt) (caches : list NormalizedCache)
    (checks : list NormalizedCheck) : result ConfigError () :=
  _ ← isolate_caches receipt caches;
  _ ← try_fold (λ artifacts check,
                  try_fold (isolate_artifact receipt caches) artifacts (nk_artifacts check))
        [] checks;
  Ok ().

(** * Environment and plan *)

#[global] Instance RuntimeKind_serialize : Serialize RuntimeKind :=
  λ k, Str match k with DockerCompatible => "docker_compatible" | Host => "host" end.
#[global] Instance RuntimePullPolicy_serialize : Serialize RuntimePullPolicy := λ _, Str "never".
#[global] Instance RuntimeSwapMode_serialize : Serialize RuntimeSwapMode := λ _, Str "disabled".
#[global] Instance ArtifactKind_serialize : Serialize ArtifactKind :=
  λ k, Str match k with RegularFile => "regular-file" | Directory => "directory" end.

#[global] Instance NormalizedRuntime_serialize : Serialize NormalizedRuntime := λ r,
  obj ([("kind", to_value (nr_kind r)); ("image", to_value (nr_image r));
        ("cpu_count", to_value (nr_cpu_count r)); ("memory_mib", to_value (nr_memory_mib r));
        ("pids_limit", to_value (nr_pids_limit r)); ("network", to_value (nr_network r))]
       ++ opt_field "pull_policy" (nr_pull_policy r) ++ opt_field "swap_mode" (nr_swap_mode r)).

#[global] Instance NormalizedReceipt_serialize : Serialize NormalizedReceipt := λ r,
  obj [("output", to_value (nrec_output r));
       ("freshness_seconds", to_value (nrec_freshness_seconds r))].

#[global] Instance NormalizedFixedEnvironment_serialize : Serialize NormalizedFixedEnvironment := λ b,
  obj [("name", to_value (nfe_name b)); ("value_digest", to_value (nfe_value_digest b))].

#[global] Instance NormalizedRuntimeInternalEnvironment_serialize :
  Serialize NormalizedRuntimeInternalEnvironment := λ b,
  obj [("name", to_value (nri_name b)); ("cache_id", to_value (nri_cache_id b));
       ("container_target", to_value (nri_container_target b))].

#[global] Instance NormalizedEnvironment_serialize : Serialize NormalizedEnvironment := λ e,
  obj [("inherit", to_value (ne_inherit e)); ("fixed", to_value (ne_fixed e));
       ("runtime_internal", to_value (ne_runtime_internal e));
       ("remote_secret_only", to_value (ne_remote_secret_only e))].

#[global] Instance NormalizedCache_serialize : Serialize NormalizedCache := λ c,
  obj [("id", to_value (nc_id c)); ("mount_path", to_value (nc_mount_path c))].

#[global] Instance NormalizedStorage_serialize : Serialize NormalizedStorage := λ s,
  obj [("min_free_bytes", to_value (ns_min_free_bytes s));
       ("receipt_journal_reserve_bytes", to_value (ns_receipt_journal_reserve_bytes s));
       ("max_cache_growth_bytes", to_value (ns_max_cache_growth_bytes s));
       ("max_artifact_bytes", to_value (ns_max_artifact_bytes s))].

#[global] Instance NormalizedArtifactContract_serialize : Serialize NormalizedArtifactContract := λ a,
  obj [("path", to_value (na_path a)); ("kind", to_value (na_kind a));
       ("max_bytes", to_value (na_max_bytes a)); ("max_entries", to_value (na_max_entries a));
       ("producer_check", to_value (na_producer_check a))].

#[global] Instance NormalizedCheck_serialize : Serialize NormalizedCheck := λ c,
  obj ([("id", to_value (nk_id c)); ("required", to_value (nk_required c));
        ("argv", to_value (nk_argv c)); ("working_directory", to_value (nk_working_directory c));
        ("timeout_seconds", to_value (nk_timeout_seconds c));
        ("depends_on", to_value (nk_depends_on c)); ("artifacts", to_value (nk_artifacts c))]
       ++ list_field "artifact_contracts" (nk_artifact_contracts c)).

#[global] Instance ExecutionPlanV1_serialize : Serialize ExecutionPlanV1 := λ p,
  obj ([("schema_version", to_value (ep_schema_version p)); ("project", to_value (ep_project p));
        ("runtime", to_value (ep_runtime p)); ("receipt", to_value (ep_receipt p));
        ("environment", to_value (ep_environment p)); ("caches", to_value (ep_caches p))]
       ++ opt_field "storage" (ep_storage p) ++ [("checks", to_value (ep_checks p))]).

(** [fixed_environment] has [#[serde(skip)]]. *)
#[global] Instance ExecutionPlanEnvelopeV1_serialize : Serialize ExecutionPlanEnvelopeV1 := λ e,
  obj [("plan_digest", to_value (pe_plan_digest e)); ("plan", to_value (pe_plan e))].

Section Plan.
Context `{Backend}.

Definition fixed_step (st : btset string * list NormalizedFixedEnvironment)
    (binding : string * string) :
    result ConfigError (btset string * list NormalizedFixedEnvironment) :=
  let '(names, fixed) := st in
  let '(name, value) := binding in
  _ ← validate_environment_name name;
  _ ← validate_text "environment.fixed" value;
  let '(fresh, names) := set_insert name names in
  _ ← ensure fresh (DuplicateValue "environment");
  value_digest ← map_err ConfigReceipt (canonical_digest value);
  Ok (names, fixed ++ [{| nfe_name := name; nfe_value_digest := value_digest |}]).

Definition internal_step (cache_targets : btmap string string)
    (st : btset string * list NormalizedRuntimeInternalEnvironment)
    (binding : RuntimeInternalEnvironmentConfig) :
    result ConfigError (btset string * list NormalizedRuntimeInternalEnvironment) :=
  let '(names, internal) := st in
  _ ← validate_environment_name (ri_name binding);
  _ ← validate_identifier "environment.runtime_internal.cache_id" (ri_cache_id binding);
  let '(fresh, names) := set_insert (ri_name binding) names in
  _ ← ensure fresh (DuplicateValue "environment");
  mount_path ← ok_or (map_get (ri_cache_id binding) cache_targets)
    (UnknownEnvironmentCache (ri_name binding) (ri_cache_id binding));
  Ok (names, internal ++ [{| nri_name := ri_name binding; nri_cache_id := ri_cache_id binding;
                             nri_container_target := "/workspace/" +:+ mount_path |}]).

Definition name_step (names : btset string) (name : string) : result ConfigError (btset string) :=
  let '(fresh, names) := set_insert name names in
  _ ← ensure fresh (DuplicateValue "environment");
  Ok names.

Definition normalize_environment (schema_version : string) (environment : EnvironmentConfig)
    (caches : list NormalizedCache) : result ConfigError NormalizedEnvironment :=
  inherit ← unique_sorted "environment.allow" (ec_allow environment) validate_environment_name;
  remote_secret_only ← unique_sorted "environment.remote_secret_only"
    (ec_remote_secret_only environment) validate_environment_name;
  _ ← ensure (negb ((schema_version =? CONFIG_SCHEMA_VERSION)%string
                    && (negb (length (ec_fixed environment) =? 0)%nat
                        || negb (length (ec_runtime_internal environment) =? 0)%nat
                        || negb (length remote_secret_only =? 0)%nat)))
        (InvalidField "environment");
  _ ← ensure (negb (negb (schema_version =? CONFIG_SCHEMA_VERSION)%string
                    && negb (length inherit =? 0)%nat))
        (InvalidField "environment.allow");
  let names := set_from_list inherit in
  '(names, fixed) ← try_fold fixed_step (names, []) (ec_fixed environment);
  let cache_targets := map_from_list ((λ c, (nc_id c, nc_mount_path c)) <$> caches) in
  '(names, runtime_internal) ←
    try_fold (internal_step cache_targets) (names, []) (ec_runtime_internal environment);
  _ ← try_fold name_step names remote_secret_only;
  Ok {| ne_inherit := inherit; ne_fixed := sort_by nfe_name fixed;
        ne_runtime_internal := sort_by nri_name runtime_internal;
        ne_remote_secret_only := remote_secret_only |}.

Definition into_plan (c : ConfigV1) : result ConfigError ExecutionPlanEnvelopeV1 :=
  _ ← validate_top_level c;
  let schema_version := cfg_schema_version c in
  let fixed_environment := ec_fixed (cfg_environment c) in
  caches ← normalize_caches (cfg_caches c);
  runtime ← normalize_runtime schema_version (cfg_runtime c);
  environment ← normalize_environment schema_version (cfg_environment c) caches;
  checks ← normalize_checks (cfg_checks c);
  storage ← normalize_storage schema_version (cfg_storage c) checks;
  let receipt := {| nrec_output := rec_output (cfg_receipt c);
                    nrec_freshness_seconds := rec_freshness_seconds (cfg_receipt c) |} in
  _ ← validate_path_isolation receipt caches checks;
  let plan := {| ep_schema_version := schema_version; ep_project := cfg_project c;
                 ep_runtime := runtime; ep_receipt := receipt; ep_environment := environment;
                 ep_caches := caches; ep_storage := storage; ep_checks := checks |} in
  plan_digest ← map_err ConfigReceipt (canonical_digest plan);
  Ok {| pe_plan_digest := plan_digest; pe_plan := plan;
        pe_fixed_environment := fixed_environment |}.

Definition plan_canonical_bytes (e : ExecutionPlanEnvelopeV1) : result ConfigError (list ascii) :=
  expected ← map_err ConfigReceipt (canonical_digest (pe_plan e));
  _ ← ensure (pe_plan_digest e =? expected)%string PlanDigestMismatch;
  map_err ConfigReceipt (canonical_json e).
End Plan.

(** [NormalizedEnvironment::names]. *)
Definition environment_names (e : NormalizedEnvironment) : list string :=
  sort_by id (ne_inherit e ++ (nfe_name <$> ne_fixed e) ++ (nri_name <$> ne_runtime_internal e)).

(** [ConfigV1::parse]: the size bound before [toml::from_str], which is the
    argument [from_toml]. *)
Definition config_parse (from_toml : string → option ConfigV1) (input : string) :
    result ConfigError ConfigV1 :=
  _ ← ensure (negb (len input >? MAX_CONFIG_BYTES)) (ConfigTooLarge (len input) MAX_CONFIG_BYTES);
  ok_or (from_toml input) ConfigParse.

(** * The serialisation of a plan determines the plan

    Instances of the laws of [Canonical.v] for every record that is part of the
    canonical JSON of a plan. *)

#[global] Instance RuntimeKind_inj : SerializeInj RuntimeKind.
Proof. by intros [] []. Qed.
#[global] Instance RuntimePullPolicy_inj : SerializeInj RuntimePullPolicy.
Proof. by intros [] []. Qed.
#[global] Instance RuntimeSwapMode_inj : SerializeInj RuntimeSwapMode.
Proof. by intros [] []. Qed.
#[global] Instance ArtifactKind_inj : SerializeInj ArtifactKind.
Proof. by intros [] []. Qed.
#[global] Instance RuntimeKind_sorted : SerializeSorted RuntimeKind.
Proof. constructor. Qed.
#[global] Instance RuntimePullPolicy_sorted : SerializeSorted RuntimePullPolicy.
Proof. constructor. Qed.
#[global] Instance RuntimeSwapMode_sorted : SerializeSorted RuntimeSwapMode.
Proof. constructor. Qed.
#[global] Instance ArtifactKind_sorted : SerializeSorted ArtifactKind.
Proof. constructor. Qed.

#[global] Instance NormalizedRuntime_sorted : SerializeSorted NormalizedRuntime.
Proof. ser_sorted NormalizedRuntime_serialize. Qed.
#[global] Instance NormalizedRuntime_inj : SerializeInj NormalizedRuntime.
Proof. ser_inj NormalizedRuntime_serialize. Qed.
#[global] Instance NormalizedReceipt_sorted : SerializeSorted NormalizedReceipt.
Proof. ser_sorted NormalizedReceipt_serialize. Qed.
#[global] Instance NormalizedReceipt_inj : SerializeInj NormalizedReceipt.
Proof. ser_inj NormalizedReceipt_serialize. Qed.
#[global] Instance NormalizedFixedEnvironment_sorted : SerializeSorted NormalizedFixedEnvironment.
Proof. ser_sorted NormalizedFixedEnvironment_serialize. Qed.
#[global] Instance NormalizedFixedEnvironment_inj : SerializeInj NormalizedFixedEnvironment.
Proof. ser_inj NormalizedFixedEnvironment_serialize. Qed.
#[global] Instance NormalizedRuntimeInternalEnvironment_sorted :
  SerializeSorted NormalizedRuntimeInternalEnvironment.
Proof. ser_sorted NormalizedRuntimeInternalEnvironment_serialize. Qed.
#[global] Instance NormalizedRuntimeInternalEnvironment_inj :
  SerializeInj NormalizedRuntimeInternalEnvironment.
Proof. ser_inj NormalizedRuntimeInternalEnvironment_serialize. Qed.
#[global] Instance NormalizedEnvironment_sorted : SerializeSorted NormalizedEnvironment.
Proof. ser_sorted NormalizedEnvironment_serialize. Qed.
#[global] Instance NormalizedEnvironment_inj : SerializeInj NormalizedEnvironment.
Proof. ser_inj NormalizedEnvironment_serialize. Qed.
#[global] Instance NormalizedCache_sorted : SerializeSorted NormalizedCache.
Proof. ser_sorted NormalizedCache_serialize. Qed.
#[global] Instance NormalizedCache_inj : SerializeInj NormalizedCache.
Proof. ser_inj NormalizedCache_serialize. Qed.
#[global] Instance NormalizedStorage_sorted : SerializeSorted NormalizedStorage.
Proof. ser_sorted NormalizedStorage_serialize. Qed.
#[global] Instance NormalizedStorage_inj : SerializeInj NormalizedStorage.
Proof. ser_inj NormalizedStorage_serialize. Qed.
#[global] Instance NormalizedArtifactContract_sorted : SerializeSorted NormalizedArtifactContract.
Proof. ser_sorted NormalizedArtifactContract_serialize. Qed.
#[global] Instance NormalizedArtifactContract_inj : SerializeInj NormalizedArtifactContract.
Proof. ser_inj NormalizedArtifactContract_serialize. Qed.
#[global] Instance NormalizedCheck_sorted : SerializeSorted NormalizedCheck.
Proof. ser_sorted NormalizedCheck_serialize. Qed.
#[global] Instance NormalizedCheck_inj : SerializeInj NormalizedCheck.
Proof. ser_inj NormalizedCheck_serialize. Qed.
#[global] Instance ExecutionPlanV1_sorted : SerializeSorted ExecutionPlanV1.
Proof. ser_sorted ExecutionPlanV1_serialize. Qed.
#[global] Instance ExecutionPlanV1_inj : SerializeInj ExecutionPlanV1.
Proof. ser_inj ExecutionPlanV1_serialize. Qed.
