(* ===== verification/TopoSort.v ===== *)
(** The topological order of the checks ([src/src/config.rs], lines 653-695):
    correctness of [topological_checks].

    The loop is Kahn's algorithm with the ready set kept in key order.  The
    section proves, for a table of checks whose dependencies exist and are
    listed once, that the loop never panics, stops within one iteration per
    check, emits every check after its dependencies and always the smallest one
    available, and reports a cycle exactly when some checks wait for each
    other. *)
From S2P Require Import Prelude.
From S2P Require Import RustStr.
From S2P Require Import BTree.
From S2P Require Import Canonical.
From S2P Require Import Config.

(** * Auxiliary facts on maps *)

Lemma map_get_fmap {V W} (g : V → W) (m : btmap string V) k :
  map_get k ((λ kv, (kv.1, g kv.2)) <$> m) = g <$> map_get k m.
Proof.
  induction m as [|[k' v] m IH]; cbn; [done|]. by destruct (String.compare k k').
Qed.

Lemma keys_fmap {V W} (g : V → W) (m : btmap string V) :
  ((λ kv, (kv.1, g kv.2)) <$> m).*1 = map_keys m.
Proof. unfold map_keys. induction m as [|[k v] m IH]; cbn; [done|]. by f_equal. Qed.

Lemma filter_ext_in (P Q : string → Prop) `{!∀ x, Decision (P x), !∀ x, Decision (Q x)} (l : list string) :
  (∀ x, x ∈ l → P x ↔ Q x) → filter P l = filter Q l.
Proof.
  induction l as [|a l IH]; intros Hpq; [done|]. rewrite !filter_cons.
  pose proof (Hpq a ltac:(left)) as Ha.
  rewrite IH by (intros x Hx; apply Hpq; by right).
  destruct (decide (P a)), (decide (Q a)); tauto.
Qed.

(** Removing one element from what a duplicate-free list still waits for. *)
Lemma filter_not_in_snoc (O l : list string) x :
  NoDup l → x ∈ l → x ∉ O →
  length (filter (λ d, d ∉ O) l) = S (length (filter (λ d, d ∉ O ++ [x]) l)).
Proof.
  induction 1 as [|a l Ha Hl IH]; intros Hx HO; [by apply not_elem_of_nil in Hx|].
  rewrite !filter_cons. apply elem_of_cons in Hx as [->|Hx].
  - rewrite decide_True by done. rewrite decide_False by set_solver. cbn. f_equal.
    f_equal. apply filter_ext_in. intros y Hy. set_solver.
  - assert (a ≠ x) by (intros ->; done).
    destruct (decide (a ∈ O)).
    + rewrite decide_False by tauto. rewrite decide_False by set_solver. auto.
    + rewrite decide_True by tauto. rewrite decide_True by set_solver. cbn. f_equal. auto.
Qed.

Section Topo.
Context (by_id : btmap string CheckConfig).
Hypothesis Hsorted : map_sorted by_id.
Hypothesis Hid : ∀ k c, map_get k by_id = Some c → ck_id c = k.
Hypothesis Hclosed :
  ∀ k c d, map_get k by_id = Some c → d ∈ ck_depends_on c → d ∈ map_keys by_id.
Hypothesis Hunique : ∀ k c, map_get k by_id = Some c → NoDup (ck_depends_on c).

Abbreviation K := (map_keys by_id).

(** The dependencies of a check, and how many are not yet in [O]. *)
Definition deps (k : string) : list string :=
  match map_get k by_id with Some c => ck_depends_on c | None => [] end.
Definition unmet (O : list string) (k : string) : nat :=
  length (filter (λ d, d ∉ O) (deps k)).

Lemma key_some k : k ∈ K ↔ ∃ c, map_get k by_id = Some c.
Proof.
  rewrite <-map_contains_spec. unfold map_contains.
  destruct (map_get k by_id); naive_solver.
Qed.

Lemma deps_closed k d : d ∈ deps k → d ∈ K ∧ k ∈ K.
Proof.
  unfold deps. destruct (map_get k by_id) as [c|] eqn:E; [|by intros ?%not_elem_of_nil].
  intros Hd. split; [by eapply Hclosed|]. apply key_some. eauto.
Qed.

Lemma deps_nodup k : NoDup (deps k).
Proof.
  unfold deps. destruct (map_get k by_id) as [c|] eqn:E; [by eapply Hunique|constructor].
Qed.

(** ** The tables built before the loop *)

Lemma initial_indegree_get k :
  map_get k (initial_indegree by_id) = if decide (k ∈ K) then Some (unmet [] k) else None.
Proof.
  unfold initial_indegree. 
  rewrite map_get_from_list
    by (rewrite (keys_fmap (λ c, length (ck_depends_on c))); by apply sorted_nodup).
  rewrite (map_get_fmap (λ c, length (ck_depends_on c))). unfold unmet, deps. case_decide as Hk.
  - apply key_some in Hk as [c ->]. cbn. do 2 f_equal. symmetry.
    induction (ck_depends_on c) as [|d l IH]; [done|].
    rewrite filter_cons, decide_True by apply not_elem_of_nil. by f_equal.
  - apply map_get_none in Hk. by rewrite Hk.
Qed.

Lemma initial_indegree_sorted : map_sorted (initial_indegree by_id).
Proof. apply map_from_list_sorted. Qed.

Definition children (m : btmap string (btset string)) (d : string) : btset string :=
  default [] (map_get d m).

Lemma children_add id m d d' :
  children (add_dependent id m d) d' =
    if decide (d' = d) then (set_insert id (children m d')).2 else children m d'.
Proof.
  unfold children, add_dependent. rewrite map_get_insert.
  repeat case_decide; simplify_eq; done.
Qed.

Lemma children_fold_deps id l m :
  (∀ d, set_sorted (children m d)) →
  (∀ d, set_sorted (children (fold_left (add_dependent id) l m) d)) ∧
  (∀ d x, x ∈ children (fold_left (add_dependent id) l m) d ↔
          x ∈ children m d ∨ (x = id ∧ d ∈ l)).
Proof.
  revert m. induction l as [|a l IH]; intros m Hm; cbn [fold_left]; [set_solver|].
  destruct (IH (add_dependent id m a)) as [H1 H2].
  { intros d. rewrite children_add. case_decide; auto with ccp. }
  split; [done|]. intros d x. rewrite H2, children_add. case_decide as D.
  - subst. rewrite elem_of_set_insert. set_solver.
  - set_solver.
Qed.

Lemma children_fold l m :
  (∀ d, set_sorted (children m d)) →
  let r := fold_left (λ m kv, fold_left (add_dependent kv.1) (ck_depends_on kv.2) m) l m in
  (∀ d, set_sorted (children r d)) ∧
  (∀ d x, x ∈ children r d ↔
          x ∈ children m d ∨ ∃ c, (x, c) ∈ l ∧ d ∈ ck_depends_on c).
Proof.
  revert m. induction l as [|[k c] l IH]; intros m Hm; cbn [fold_left fst snd].
  - split; [done|]. intros d x. split; [by left|]. intros [?|(c & Hc & _)]; [done|].
    by apply not_elem_of_nil in Hc.
  - destruct (children_fold_deps k (ck_depends_on c) m Hm) as [H1 H2].
    destruct (IH _ H1) as [H3 H4]. split; [done|]. intros d x. rewrite H4, H2.
    split.
    + intros [[?|[-> ?]]|(c' & ? & ?)]; [by left|right..].
      * exists c. split; [by left|done].
      * exists c'. split; [by right|done].
    + intros [?|(c' & [[= -> ->]|?]%elem_of_cons & ?)]; eauto.
Qed.

Lemma dependents_spec d :
  set_sorted (children (dependents_of by_id) d) ∧
  ∀ x, x ∈ children (dependents_of by_id) d ↔ d ∈ deps x.
Proof.
  unfold dependents_of. destruct (children_fold by_id []) as [H1 H2]; [constructor|].
  split; [apply H1|]. intros x. rewrite H2. unfold deps, children. cbn. split.
  - intros [Hx|(c & Hc & Hd)]; [by apply not_elem_of_nil in Hx|].
    apply map_get_elem in Hc; [|done]. by rewrite Hc.
  - destruct (map_get x by_id) as [c|] eqn:E; [|by intros ?%not_elem_of_nil].
    intros Hd. right. exists c. by rewrite <-map_get_elem.
Qed.

Lemma initial_ready_spec :
  set_sorted (initial_ready (initial_indegree by_id)) ∧
  ∀ x, x ∈ initial_ready (initial_indegree by_id) ↔ x ∈ K ∧ unmet [] x = 0.
Proof.
  unfold initial_ready. destruct (set_from_list_spec
    (filter (λ kv, kv.2 = 0) (initial_indegree by_id)).*1) as [H1 H2].
  split; [done|]. intros x. rewrite H2, list_elem_of_fmap. split.
  - intros ([k n] & -> & [Hn Hin]%list_elem_of_filter). cbn in *. subst n.
    apply map_get_elem in Hin; [|apply initial_indegree_sorted].
    rewrite initial_indegree_get in Hin. case_decide; naive_solver.
  - intros [Hk Hn]. exists (x, 0). split; [done|]. apply list_elem_of_filter. split; [done|].
    apply map_get_elem; [apply initial_indegree_sorted|].
    rewrite initial_indegree_get, decide_True by done. by rewrite Hn.
Qed.

(** ** The loop over the dependents of one check *)

Lemma child_step_some ready indegree c n :
  map_get c indegree = Some (S n) →
  child_step (ready, indegree) c =
    Ok (if (n =? 0)%nat then (set_insert c ready).2 else ready, map_insert c n indegree).
Proof. intros Hn. unfold child_step. by rewrite Hn. Qed.

Lemma child_loop cs : ∀ ready indegree,
  NoDup cs → set_sorted ready → map_sorted indegree →
  (∀ c, c ∈ cs → ∃ n, map_get c indegree = Some (S n)) →
  ∃ ready' indegree',
    try_fold child_step (ready, indegree) cs = Ok (ready', indegree') ∧
    set_sorted ready' ∧ map_sorted indegree' ∧
    (∀ x, map_get x indegree' =
          if decide (x ∈ cs) then pred <$> map_get x indegree else map_get x indegree) ∧
    (∀ x, x ∈ ready' ↔ x ∈ ready ∨ (x ∈ cs ∧ map_get x indegree = Some 1)).
Proof.
  induction cs as [|c cs IH]; intros ready indegree Hnd Hr Hd Hc; cbn [try_fold].
  - exists ready, indegree. split; [done|]. split; [done|]. split; [done|].
    split; intros x; [by rewrite decide_False by apply not_elem_of_nil|].
    split; [by left|]. by intros [?|[?%not_elem_of_nil _]].
  - apply NoDup_cons in Hnd as [Hc' Hnd]. destruct (Hc c ltac:(left)) as [n Hn].
    rewrite (child_step_some _ _ _ _ Hn). cbn [mbind result_bind].
    set (ready1 := if (n =? 0)%nat then (set_insert c ready).2 else ready).
    assert (Hr1 : set_sorted ready1) by (unfold ready1; destruct (n =? 0)%nat; auto with ccp).
    destruct (IH ready1 (map_insert c n indegree) Hnd Hr1) as
      (ready' & indegree' & E & S1 & S2 & G & R); [auto with ccp|..].
    { intros x Hx. rewrite map_get_insert. case_decide as D; [by subst|].
      apply Hc. by right. }
    exists ready', indegree'. split; [done|]. split; [done|]. split; [done|]. split; intros x.
    + rewrite G, map_get_insert. destruct (decide (x = c)) as [->|Hne].
      * rewrite (decide_False (P := c ∈ cs)), (decide_True (P := c ∈ c :: cs)) by (done || left).
        by rewrite Hn.
      * destruct (decide (x ∈ cs)), (decide (x ∈ c :: cs)) as [Hx|Hx]; try done.
        -- exfalso. apply Hx. by right.
        -- apply elem_of_cons in Hx as [?|?]; done.
    + rewrite R, map_get_insert, elem_of_cons. unfold ready1.
      destruct (decide (x = c)) as [->|Hne].
      * rewrite Hn. destruct (Nat.eqb_spec n 0) as [->|Hz].
        -- rewrite elem_of_set_insert. tauto.
        -- split; [tauto|]. intros [?|[_ [= ->]]]; [tauto|done].
      * destruct (n =? 0)%nat; [rewrite elem_of_set_insert|]; tauto.
Qed.

(** ** The invariant of the main loop *)

(** The emitted checks [O] in order, the ready set [R] and the in-degrees [D]. *)
Record Inv (O : list string) (R : btset string) (D : btmap string nat) : Prop := {
  inv_nodup : NoDup O;
  inv_keys : ∀ x, x ∈ O → x ∈ K ∧ unmet O x = 0;
  inv_ready_sorted : set_sorted R;
  inv_indegree_sorted : map_sorted D;
  inv_indegree : ∀ x, map_get x D = if decide (x ∈ K) then Some (unmet O x) else None;
  inv_ready : ∀ x, x ∈ R ↔ (x ∈ K ∧ (x ∉ O) ∧ unmet O x = 0);
  inv_order : ∀ pre x post, O = (pre ++ x :: post) →
    (∀ d, d ∈ deps x → d ∈ pre) ∧
    (∀ y, y ∈ K → y ∉ pre → (∀ d, d ∈ deps y → d ∈ pre) → y = x ∨ lt_ord x y);
}.

Lemma unmet_zero O x : unmet O x = 0 ↔ ∀ d, d ∈ deps x → d ∈ O.
Proof.
  unfold unmet. rewrite length_zero_iff_nil. split.
  - intros Hf d Hd. destruct (decide (d ∈ O)) as [|N]; [done|].
    assert (d ∈ filter (λ d, d ∉ O) (deps x)) as Hin by by apply list_elem_of_filter.
    rewrite Hf in Hin. by apply not_elem_of_nil in Hin.
  - intros Hd. destruct (filter _ _) as [|d l] eqn:E; [done|].
    assert (d ∈ filter (λ d, d ∉ O) (deps x)) as Hin by (rewrite E; left).
    apply list_elem_of_filter in Hin as [N Hin]. exfalso. auto.
Qed.

Lemma unmet_snoc_dep O x id :
  id ∈ deps x → id ∉ O → unmet O x = S (unmet (O ++ [id]) x).
Proof. intros. apply filter_not_in_snoc; auto using deps_nodup. Qed.

Lemma unmet_snoc_other O x id : id ∉ deps x → unmet (O ++ [id]) x = unmet O x.
Proof.
  intros Hd. unfold unmet. f_equal. apply filter_ext_in. intros d Hin. split; intros N; set_solver.
Qed.

Lemma inv_initial : Inv [] (initial_ready (initial_indegree by_id)) (initial_indegree by_id).
Proof.
  destruct initial_ready_spec as [H1 H2]. constructor.
  - constructor.
  - by intros x ?%not_elem_of_nil.
  - done.
  - apply initial_indegree_sorted.
  - apply initial_indegree_get.
  - intros x. rewrite H2. split; [|tauto]. intros [? ?]. split; [done|]. split; [|done].
    apply not_elem_of_nil.
  - by intros [].
Qed.

Lemma inv_step_order O id R D :
  Inv O (id :: R) D → ∀ pre x post, O ++ [id] = pre ++ x :: post →
  (∀ d, d ∈ deps x → d ∈ pre) ∧
  (∀ y, y ∈ K → y ∉ pre → (∀ d, d ∈ deps y → d ∈ pre) → y = x ∨ lt_ord x y).
Proof.
  intros HI pre x post E.
  destruct (decide (post = [])) as [->|Hp].
  - apply app_inj_tail in E as [-> ->].
    destruct (proj1 (inv_ready _ _ _ HI x)) as (_ & _ & Hz); [left|].
    split; [by apply unmet_zero|]. intros y HyK HyO Hyd.
    assert (y ∈ x :: R) as Hin by (apply (inv_ready _ _ _ HI); by rewrite unmet_zero).
    apply elem_of_cons in Hin as [->|Hin]; [by left|right].
    pose proof (inv_ready_sorted _ _ _ HI) as Hs. inversion Hs as [|?? _ Hall]; subst.
    rewrite Forall_forall in Hall. auto.
  - destruct (exists_last Hp) as (post' & z & ->).
    rewrite app_comm_cons, app_assoc in E. apply app_inj_tail in E as [-> _].
    by apply (inv_order _ _ _ HI) with post'.
Qed.

Lemma inv_step O id R D :
  Inv O (id :: R) D →
  ∃ R' D',
    try_fold child_step (R, D) (children (dependents_of by_id) id) = Ok (R', D') ∧
    Inv (O ++ [id]) R' D'.
Proof.
  intros HI. destruct (dependents_spec id) as [Hcs Hch].
  destruct (proj1 (inv_ready _ _ _ HI id)) as (HidK & HidO & Hid0); [left|].
  pose proof (inv_ready_sorted _ _ _ HI) as Hs. inversion Hs as [|?? HsR Hall]; subst.
  assert (HidR : id ∉ R) by (apply sorted_nodup, NoDup_cons in Hs; tauto).
  destruct (child_loop (children (dependents_of by_id) id) R D) as (R' & D' & E & S1 & S2 & G & HR);
    [by apply sorted_nodup|done|apply HI|..].
  { intros c Hc. apply Hch in Hc. rewrite (inv_indegree _ _ _ HI).
    destruct (deps_closed c id Hc) as [_ HcK]. rewrite decide_True by done.
    rewrite (unmet_snoc_dep O c id) by done. eauto. }
  exists R', D'. split; [done|].
  assert (Hun : ∀ x, unmet (O ++ [id]) x = if decide (id ∈ deps x) then pred (unmet O x) else unmet O x).
  { intros x. case_decide; [by rewrite (unmet_snoc_dep O x id)|by apply unmet_snoc_other]. }
  constructor; try done.
  - apply NoDup_app. split; [apply HI|]. split; [|repeat constructor; apply not_elem_of_nil].
    intros x Hx ?%list_elem_of_singleton. by subst.
  - intros x Hx. rewrite Hun. apply elem_of_app in Hx as [Hx|?%list_elem_of_singleton]; subst.
    + destruct (inv_keys _ _ _ HI x Hx) as [? ->]. by case_decide.
    + rewrite Hid0. by case_decide.
  - intros x. rewrite G, (inv_indegree _ _ _ HI), Hun.
    destruct (decide (x ∈ children _ id)) as [Hx|Hx]; rewrite Hch in Hx.
    + rewrite (decide_True (P := id ∈ deps x)) by done. by case_decide.
    + by rewrite (decide_False (P := id ∈ deps x)) by done.
  - intros x. rewrite HR, Hch, (inv_indegree _ _ _ HI), Hun.
    pose proof (inv_ready _ _ _ HI x) as Hx. rewrite elem_of_cons in Hx.
    rewrite elem_of_app, list_elem_of_singleton. pose proof (deps_closed x id) as Hcl.
    destruct (decide (id ∈ deps x)) as [Hd|Hd].
    + destruct (Hcl Hd) as [_ HxK]. rewrite (decide_True (P := x ∈ K)) by done.
      pose proof (unmet_snoc_dep O x id Hd HidO) as Hpos.
      split.
      * intros [Hin|[_ [= Hone]]]; [exfalso; destruct Hx as [Hx _]; destruct Hx; [by right|lia]|].
        repeat split; [done| |lia]. intros [Hin| ->]; [|lia]. destruct (inv_keys _ _ _ HI x Hin). lia.
      * intros (_ & _ & Hz). right. split; [done|]. f_equal. lia.
    + split.
      * intros [Hin|[? _]]; [|done]. destruct Hx as [Hx _]. destruct Hx as (? & ? & ?); [by right|].
        repeat split; [done| |done]. intros [?|?]; [done|by subst].
      * intros (HxK & HxO & Hz). left. destruct Hx as [_ Hx].
        destruct Hx as [?|?]; [tauto| |done]. subst. tauto.
  - by apply (inv_step_order O id R D).
Qed.

(** The checks emitted for a list of identifiers. *)
Definition emitted (O : list string) (l : list NormalizedCheck) : Prop :=
  Forall2 (λ k n, ∃ c, map_get k by_id = Some c ∧ n = normalize_check c) O l.

Lemma topo_loop_spec fuel : ∀ O R D ordered,
  Inv O R D → emitted O ordered → length K ≤ length O + fuel →
  ∃ O' D' ordered',
    topo_loop fuel by_id (dependents_of by_id) R D ordered = Ok (ordered', D') ∧
    Inv O' [] D' ∧ emitted O' ordered'.
Proof.
  induction fuel as [|fuel IH]; intros O [|id R] D ordered HI Hem Hf; cbn [topo_loop].
  - eauto 10.
  - exfalso. destruct (proj1 (inv_ready _ _ _ HI id)) as (HidK & HidO & _); [left|].
    assert (Hsub : O ++ [id] ⊆ K).
    { intros x [Hx| ->%list_elem_of_singleton]%elem_of_app; [|done].
      by apply (inv_keys _ _ _ HI). }
    assert (Hnd : NoDup (O ++ [id])).
    { apply NoDup_app. split; [apply HI|]. split; [|repeat constructor; apply not_elem_of_nil].
      intros x Hx ->%list_elem_of_singleton. done. }
    pose proof (submseteq_length _ _ (NoDup_submseteq _ _ Hnd Hsub)) as Hlen.
    rewrite length_app in Hlen. cbn in Hlen. lia.
  - eauto 10.
  - destruct (proj1 (inv_ready _ _ _ HI id)) as (HidK & _ & _); [left|].
    apply key_some in HidK as [c Hc]. rewrite Hc. cbn [ok_or mbind result_bind].
    destruct (inv_step _ _ _ _ HI) as (R' & D' & E & HI'). unfold children in E. rewrite E.
    cbn [mbind result_bind]. apply IH with (O ++ [id]); [done|..].
    + apply Forall2_app; [done|]. repeat constructor. eauto.
    + rewrite length_app. cbn. lia.
Qed.

Lemma emitted_lookup O l : emitted O l → nk_id <$> l = O.
Proof.
  induction 1 as [|k n O l (c & Hc & ->) _ IH]; [done|]. cbn. by rewrite IH, (Hid _ _ Hc).
Qed.

Lemma emitted_perm O l :
  emitted O l → O ≡ₚ K → l ≡ₚ normalize_check <$> map_values by_id.
Proof.
  intros Hem Hp.
  assert (Hl : l = (λ k, normalize_check (default
      {| ck_id := k; ck_required := false; ck_argv := []; ck_working_directory := k;
         ck_timeout_seconds := 0; ck_depends_on := []; ck_artifacts := [];
         ck_artifact_contracts := [] |} (map_get k by_id))) <$> O).
  { clear Hp. induction Hem as [|k n O l (c & Hc & ->) _ IH]; [done|]. cbn. by rewrite Hc, <-IH. }
  rewrite Hl, Hp. unfold map_values, map_keys. rewrite <-!list_fmap_compose.
  apply reflexive_eq, list_fmap_ext. intros i [k c] Hi. cbn.
  apply list_elem_of_lookup_2, map_get_elem in Hi; [|done]. by rewrite Hi.
Qed.

Lemma emitted_split O l pre c post :
  emitted O l → l = pre ++ c :: post →
  ∃ cfg, map_get (nk_id c) by_id = Some cfg ∧ c = normalize_check cfg ∧
         O = (nk_id <$> pre) ++ nk_id c :: (nk_id <$> post).
Proof.
  intros Hem ->. pose proof (emitted_lookup _ _ Hem) as HO.
  rewrite fmap_app, fmap_cons in HO. subst O.
  apply Forall2_app_inv_r in Hem as (l1 & l2 & _ & H2 & E).
  apply Forall2_cons_inv_r in H2 as (k & l2' & (cfg & Hc & Hn) & _ & ->).
  exists cfg. subst c. cbn. rewrite (Hid _ _ Hc). done.
Qed.

(** The outcome of the whole function. *)
Lemma topological_checks_outcome :
  (∃ O l D, topological_checks by_id = Ok l ∧ Inv O [] D ∧ emitted O l ∧ O ≡ₚ K) ∨
  (∃ O D, topological_checks by_id = Err (DependencyCycle (filter (λ kv, 0 < kv.2) D).*1) ∧
          Inv O [] D ∧ length O ≠ length K).
Proof.
  destruct (topo_loop_spec (length by_id) [] _ _ [] inv_initial) as (O & D & l & E & HI & Hem).
  { constructor. }
  { unfold map_keys. rewrite length_fmap. cbn. lia. }
  unfold topological_checks. rewrite E. cbn [map_err mbind result_bind].
  assert (Hlen : length l = length O) by (symmetry; by apply Forall2_length in Hem).
  assert (HK : length by_id = length K) by (unfold map_keys; by rewrite length_fmap).
  rewrite Hlen, HK. destruct (Nat.eqb_spec (length O) (length K)) as [Heq|Hne]; cbn [negb].
  - left. exists O, l, D. split; [done|]. split; [done|]. split; [done|].
    apply submseteq_length_Permutation; [|lia].
    apply NoDup_submseteq; [apply HI|]. intros x Hx. by apply (inv_keys _ _ _ HI).
  - right. eauto.
Qed.

(** What remains when the ready set is empty waits for itself. *)
Lemma stuck_cycle O D :
  Inv O [] D → length O ≠ length K →
  let cycle := (filter (λ kv, 0 < kv.2) D).*1 in
  cycle ≠ [] ∧ ∀ x, x ∈ cycle → x ∈ K ∧ ∃ d, d ∈ deps x ∧ d ∈ cycle.
Proof.
  intros HI Hlen cycle.
  assert (Hcyc : ∀ x, x ∈ cycle ↔ x ∈ K ∧ x ∉ O).
  { intros x. unfold cycle. rewrite list_elem_of_fmap. split.
    - intros ([k n] & -> & [Hn Hin]%list_elem_of_filter). cbn in *.
      apply map_get_elem in Hin; [|apply HI]. rewrite (inv_indegree _ _ _ HI) in Hin.
      case_decide; [|done]. split; [done|]. intros Hk. injection Hin as <-.
      destruct (inv_keys _ _ _ HI k Hk). lia.
    - intros [Hk HO]. exists (x, unmet O x). split; [done|]. apply list_elem_of_filter.
      split; cbn.
      + destruct (decide (unmet O x = 0)) as [Hz|]; [|lia]. exfalso.
        assert (x ∈ []) as Hin by by apply (inv_ready _ _ _ HI). by apply not_elem_of_nil in Hin.
      + apply map_get_elem; [apply HI|]. by rewrite (inv_indegree _ _ _ HI), decide_True. }
  split.
  - intros Hnil. apply Hlen. apply Permutation_length, NoDup_Permutation;
      [apply HI|by apply sorted_nodup|]. intros x. split; [by intros Hx; apply (inv_keys _ _ _ HI)|].
    intros Hx. destruct (decide (x ∈ O)) as [|N]; [done|]. exfalso.
    assert (x ∈ cycle) as Hin by by apply Hcyc. rewrite Hnil in Hin. by apply not_elem_of_nil in Hin.
  - intros x Hx. apply Hcyc in Hx as [Hk HO]. split; [done|].
    assert (Hu : unmet O x ≠ 0).
    { intros Hz. assert (x ∈ []) as Hin by by apply (inv_ready _ _ _ HI).
      by apply not_elem_of_nil in Hin. }
    unfold unmet in Hu. destruct (filter (λ d, d ∉ O) (deps x)) as [|d l] eqn:E; [done|].
    assert (d ∈ filter (λ d, d ∉ O) (deps x)) as Hin by (rewrite E; left).
    apply list_elem_of_filter in Hin as [HdO Hd]. exists d. split; [done|]. apply Hcyc.
    split; [|done]. by apply (deps_closed x d).
Qed.
End Topo.

(** * Specification *)

(** What [normalize_checks] establishes of its table before sorting. *)
Record check_table (by_id : btmap string CheckConfig) : Prop := {
  table_sorted : map_sorted by_id;
  table_id : ∀ k c, map_get k by_id = Some c → ck_id c = k;
  table_closed :
    ∀ k c d, map_get k by_id = Some c → d ∈ ck_depends_on c → d ∈ map_keys by_id;
  table_unique : ∀ k c, map_get k by_id = Some c → NoDup (ck_depends_on c);
}.

(** Every check comes after the checks it depends on. *)
Definition dependencies_first (l : list NormalizedCheck) : Prop :=
  ∀ pre c post, l = pre ++ c :: post → ∀ d, d ∈ nk_depends_on c → d ∈ nk_id <$> pre.

(** At every position stands the least check whose dependencies came before. *)
Definition least_ready_first (l : list NormalizedCheck) : Prop :=
  ∀ pre c post, l = pre ++ c :: post →
  ∀ c', c' ∈ post → (∀ d, d ∈ nk_depends_on c' → d ∈ nk_id <$> pre) →
  lt_ord (nk_id c) (nk_id c').

Lemma topological_checks_ok by_id l :
  check_table by_id → topological_checks by_id = Ok l →
  l ≡ₚ normalize_check <$> map_values by_id ∧ dependencies_first l ∧ least_ready_first l.
Proof.
  intros [Hs Hi Hc Hu] Hl.
  destruct (topological_checks_outcome by_id Hs Hi Hc Hu) as
    [(O & l' & D & E & HI & Hem & Hp)|(O & D & E & _)]; [|congruence].
  assert (l' = l) as -> by congruence. split; [by apply (emitted_perm by_id Hs O)|].
  split; intros pre c post El; destruct (emitted_split by_id Hi _ _ _ _ _ Hem El) as
    (cfg & Hg & -> & HO); destruct (inv_order _ _ _ _ HI _ _ _ HO) as [Hd Hm]; cbn in *.
  - intros d Hin. apply Hd. unfold deps. by rewrite Hg.
  - intros c' Hc' Hdeps. pose proof (inv_nodup _ _ _ _ HI) as Hnd. rewrite HO in Hnd.
    apply list_elem_of_split in Hc' as (p1 & p2 & ->).
    destruct (emitted_split by_id Hi O l (pre ++ normalize_check cfg :: p1) c' p2 Hem) as
      (cfg' & Hg' & -> & HO'); [by rewrite El, <-app_assoc|]. cbn in *.
    destruct (Hm (ck_id cfg')) as [He|]; [..|done].
    + apply (key_some by_id). eauto.
    + intros Hin. apply NoDup_app in Hnd as (_ & Hnd & _). apply (Hnd _ Hin).
      rewrite fmap_app. cbn. set_solver.
    + unfold deps. by rewrite Hg'.
    + exfalso. apply NoDup_app in Hnd as (_ & _ & Hnd). apply NoDup_cons in Hnd as [Hnd _].
      apply Hnd. rewrite fmap_app. cbn. rewrite He. set_solver.
Qed.

Lemma topological_checks_err by_id e :
  check_table by_id → topological_checks by_id = Err e →
  ∃ cycle, e = DependencyCycle cycle ∧ cycle ≠ [] ∧
    ∀ x, x ∈ cycle → ∃ c d, map_get x by_id = Some c ∧ d ∈ ck_depends_on c ∧ d ∈ cycle.
Proof.
  intros [Hs Hi Hc Hu] He.
  destruct (topological_checks_outcome by_id Hs Hi Hc Hu) as
    [(O & l' & D & E & _)|(O & D & E & HI & Hlen)]; [congruence|].
  rewrite E in He. injection He as <-. eexists. split; [done|].
  destruct (stuck_cycle by_id Hs Hc O D HI Hlen) as [Hne Hcyc]. split; [done|].
  intros x Hx. destruct (Hcyc x Hx) as (Hk & d & Hd & Hin).
  apply key_some in Hk as [c Hg]. exists c, d. unfold deps in Hd. rewrite Hg in Hd. done.
Qed.

(** Checks that wait for each other have no order. *)
Lemma cycle_no_order by_id cycle l :
  (∀ k c, map_get k by_id = Some c → ck_id c = k) → map_sorted by_id →
  cycle ≠ [] →
  (∀ x, x ∈ cycle → ∃ c d, map_get x by_id = Some c ∧ d ∈ ck_depends_on c ∧ d ∈ cycle) →
  l ≡ₚ normalize_check <$> map_values by_id → ¬ dependencies_first l.
Proof.
  intros Hi Hs Hne Hcyc Hp Hord. destruct cycle as [|x0 cycle]; [done|].
  set (cyc := x0 :: cycle) in *.
  assert (Hin : ∀ x, x ∈ cyc → x ∈ nk_id <$> l).
  { intros x Hx. destruct (Hcyc x Hx) as (c & _ & Hg & _). rewrite Hp.
    apply list_elem_of_fmap. exists (normalize_check c). split; [cbn; symmetry; by apply Hi|].
    apply list_elem_of_fmap_2. unfold map_values.
    apply map_get_elem in Hg; [|done]. apply (list_elem_of_fmap_2 snd _ _ Hg). }
  assert (Hno : ∀ n pre post, length pre = n → l = pre ++ post →
    ∀ x, x ∈ cyc → x ∉ nk_id <$> pre).
  { induction n as [n IH] using lt_wf_ind; intros pre post Hlen El x Hx Hpre.
    apply list_elem_of_fmap in Hpre as (c & -> & Hc). apply list_elem_of_split in Hc as (p1 & p2 & ->).
    destruct (Hcyc _ Hx) as (cfg & d & Hg & Hd & Hdc).
    assert (Hcn : c ∈ l) by (rewrite El; set_solver). rewrite Hp in Hcn.
    apply list_elem_of_fmap in Hcn as (cfg' & -> & Hv). cbn in *.
    unfold map_values in Hv. apply list_elem_of_fmap in Hv as ([k cfg''] & -> & Hv). cbn in *.
    apply map_get_elem in Hv; [|done]. rewrite (Hi _ _ Hv) in Hg. rewrite Hg in Hv.
    injection Hv as <-.
    apply (IH (length p1)) with p1 (normalize_check cfg :: p2 ++ post) d; [|done| |done|].
    - rewrite <-Hlen, length_app. cbn. lia.
    - by rewrite El, <-app_assoc.
    - apply (Hord p1 (normalize_check cfg) (p2 ++ post)); [by rewrite El, <-app_assoc|done]. }
  apply (Hno (length l) l [] eq_refl ltac:(by rewrite app_nil_r) x0 ltac:(left)).
  apply Hin. left.
Qed.
