(* ===== verification/ConfigProps.v ===== *)
(** The loops of the configuration pipeline of [Config.v]: for caches, checks
    and unique lists, the exact condition under which the loop succeeds and what
    it returns, which error each stage can return, and the order of the checks. *)
From S2P Require Import Prelude.
From S2P Require Import RustStr.
From S2P Require Import BTree.
From S2P Require Import Canonical.
From S2P Require Import Config.
From S2P Require Import TopoSort.
Local Open Scope Z_scope.

(** * Definitions for the statements *)

(** A result that is not the fault the source cannot return. *)
Definition no_fault {T} (r : result ConfigError T) : Prop := ∀ f, r ≠ Err (ConfigFault f).

(** * Loops *)

(** Collecting into a set forgets the order. *)
#[global] Instance set_from_list_proper : Proper ((≡ₚ) ==> (=)) (@set_from_list string _).
Proof.
  intros l m Hp. destruct (set_from_list_spec l) as [S1 E1], (set_from_list_spec m) as [S2 E2].
  apply sorted_ext; [done..|]. intros x. by rewrite E1, E2, Hp.
Qed.

Lemma unique_sorted_ok field values validate l :
  unique_sorted field values validate = Ok l ↔
  Forall (λ v, validate v = Ok ()) values ∧ NoDup values ∧ l = set_from_list values.
Proof.
  unfold unique_sorted. revert l.
  induction values as [|v values IH] using rev_ind; intros l.
  - cbn. split; [intros [= <-]; repeat constructor|intros (_ & _ & ->); done].
  - rewrite try_fold_app, bind_ok, Forall_app, NoDup_app, set_from_list_snoc.
    destruct (set_from_list_spec values) as [Hs He].
    cbn. unfold unique_step. split.
    + intros (s & (Hv & Hnd & ->)%IH & H). res_inv.
      destruct (set_insert v (set_from_list values)) as [fresh s'] eqn:E. res_inv. subst.
      assert (v ∉ values).
      { rewrite <-He. apply set_insert_new; [done|]. by rewrite E. }
      split; [split; [done|by repeat constructor]|]. split; [|done].
      split; [done|]. split; [by intros x Hx ->%list_elem_of_singleton|apply NoDup_singleton].
    + intros ([Hv Hv1] & (Hnd & Hx & _) & ->). exists (set_from_list values).
      split; [by apply IH|]. apply Forall_cons in Hv1 as [-> _]. cbn.
      assert (Hfresh : (set_insert v (set_from_list values)).1 = true).
      { apply set_insert_new; [done|]. rewrite He. intros Hin. apply (Hx v Hin). left. }
      destruct (set_insert v (set_from_list values)) as [fresh s']. cbn in *. by rewrite Hfresh.
Qed.

Lemma unique_sorted_perm field values values' validate l :
  values ≡ₚ values' → unique_sorted field values validate = Ok l →
  unique_sorted field values' validate = Ok l.
Proof.
  rewrite !unique_sorted_ok. intros Hp (Hv & Hnd & ->).
  split; [by rewrite <-Hp|]. split; [by rewrite <-Hp|]. by apply set_from_list_proper.
Qed.

Lemma Forall2_perm_l {A B} (R : A → B → Prop) l l' m :
  l ≡ₚ l' → Forall2 R l m → ∃ m', m ≡ₚ m' ∧ Forall2 R l' m'.
Proof.
  intros Hp. revert m. induction Hp as [|x l l' Hp IH|x y l|l1 l2 l3 H1 IH1 H2 IH2]; intros m Hm.
  - inversion Hm; subst. eauto.
  - apply Forall2_cons_inv_l in Hm as (b & m' & Hb & Hm & ->).
    destruct (IH _ Hm) as (m'' & ? & ?). exists (b :: m''). split; [by constructor|by constructor].
  - apply Forall2_cons_inv_l in Hm as (b & m' & Hb & Hm & ->).
    apply Forall2_cons_inv_l in Hm as (b' & m'' & Hb' & Hm & ->).
    exists (b' :: b :: m''). split; [constructor|by repeat constructor].
  - destruct (IH1 _ Hm) as (m' & ? & Hm'). destruct (IH2 _ Hm') as (m'' & ? & ?).
    exists m''. split; [by etrans|done].
Qed.

(** ** Caches *)

Definition cache_ok (c : CacheConfig) : Prop :=
  validate_identifier "cache.id" (cc_id c) = Ok () ∧
  validate_relative_path "cache.mount_path" (cc_mount_path c) = Ok () ∧
  cc_mount_path c ≠ ".".

Definition cache_entry (c : CacheConfig) : string * NormalizedCache :=
  (cc_id c, {| nc_id := cc_id c; nc_mount_path := cc_mount_path c |}).

Lemma cache_entry_keys l : (cache_entry <$> l).*1 = cc_id <$> l.
Proof. rewrite <-list_fmap_compose. by apply list_fmap_ext. Qed.

Lemma cache_step_ok st c st' :
  set_sorted st.2 →
  cache_step st c = Ok st' ↔
  cache_ok c ∧ (cc_id c ∉ map_keys st.1) ∧ (cc_mount_path c ∉ st.2) ∧
  st' = (map_insert (cc_id c) (cache_entry c).2 st.1, (set_insert (cc_mount_path c) st.2).2).
Proof.
  intros Hs. destruct st as [by_id mounts]. unfold cache_step, cache_ok. cbn in *.
  pose proof (set_insert_new (cc_mount_path c) mounts Hs) as Hnew.
  pose proof (map_contains_spec (cc_id c) by_id) as Hc.
  split.
  - intros H. res_inv. bool_prop. destruct (set_insert _ mounts) as [fresh m'] eqn:E. res_inv.
    subst. cbn in *. repeat split; try done; [|by apply Hnew].
    rewrite <-Hc. congruence.
  - intros ((-> & -> & Hdot) & Hid & Hm & ->). cbn.
    rewrite (proj2 (String.eqb_neq _ _) Hdot). cbn.
    rewrite (proj1 (not_true_iff_false (map_contains (cc_id c) by_id))) by (by rewrite Hc). cbn.
    apply Hnew in Hm. destruct (set_insert _ mounts) as [fresh m']. cbn in *. by rewrite Hm.
Qed.

Lemma cache_loop_ok caches by_id mounts :
  try_fold cache_step ([], []) caches = Ok (by_id, mounts) ↔
  Forall cache_ok caches ∧ NoDup (cc_id <$> caches) ∧ NoDup (cc_mount_path <$> caches) ∧
  by_id = map_from_list (cache_entry <$> caches) ∧
  mounts = set_from_list (cc_mount_path <$> caches).
Proof.
  revert by_id mounts. induction caches as [|c caches IH] using rev_ind; intros by_id mounts.
  { cbn. split; [intros [= <- <-]; by repeat constructor|by intros (_ & _ & _ & -> & ->)]. }
  rewrite try_fold_app, bind_ok, Forall_app, !fmap_app, !NoDup_app.
  destruct (set_from_list_spec (cc_mount_path <$> caches)) as [Hs He]. cbn [fmap list_fmap].
  rewrite set_from_list_snoc. change (cache_entry c) with (cc_id c, (cache_entry c).2).
  rewrite map_from_list_snoc.
  assert (Hk : ∀ k, k ∈ map_keys (map_from_list (cache_entry <$> caches)) ↔ k ∈ cc_id <$> caches)
    by (intros k; by rewrite elem_of_map_keys_from_list, cache_entry_keys).
  split.
  - intros ([b m] & (Hok & N1 & N2 & -> & ->)%IH & H). cbn [try_fold] in H.
    apply bind_ok in H as (st' & (Hc & Hid & Hm & ->)%cache_step_ok & [= <- <-]); [|done].
    cbn in Hid, Hm. rewrite Hk in Hid. rewrite He in Hm.
    split; [split; [done|by apply Forall_singleton]|].
    repeat split; try done; try apply NoDup_singleton;
      by intros x Hx ->%list_elem_of_singleton.
  - intros ([Hok Hc] & (N1 & D1 & _) & (N2 & D2 & _) & -> & ->).
    eexists (_, _). split; [by apply IH|]. cbn [try_fold]. apply bind_ok. eexists.
    split; [|done]. apply cache_step_ok; [done|]. cbn. rewrite Hk, He.
    apply Forall_cons in Hc as [Hc _]. repeat split; try done; try apply Hc.
    + intros Hin. apply (D1 _ Hin). left.
    + intros Hin. apply (D2 _ Hin). left.
Qed.

Lemma normalize_caches_ok caches l :
  normalize_caches caches = Ok l ↔
  Z.of_nat (length caches) ≤ MAX_CACHES ∧
  Forall cache_ok caches ∧ NoDup (cc_id <$> caches) ∧ NoDup (cc_mount_path <$> caches) ∧
  l = map_values (map_from_list (cache_entry <$> caches)).
Proof.
  unfold normalize_caches. split.
  - intros H. res_inv. bool_prop. destruct x0 as [by_id mounts]. res_inv.
    rename select (try_fold _ _ _ = _) into Hf. apply cache_loop_ok in Hf as (? & ? & ? & -> & _).
    subst. repeat split; try done. lia.
  - intros (Hlen & Hok & N1 & N2 & ->).
    rewrite (proj2 (ensure_ok _ _ ())) by (apply negb_true_iff; lia). cbn.
    by rewrite (proj2 (cache_loop_ok caches _ _) (conj Hok (conj N1 (conj N2 (conj eq_refl eq_refl))))).
Qed.

Lemma normalize_caches_perm caches caches' l :
  caches ≡ₚ caches' → normalize_caches caches = Ok l → normalize_caches caches' = Ok l.
Proof.
  rewrite !normalize_caches_ok. intros Hp (Hlen & Hok & N1 & N2 & ->).
  repeat split; try (by rewrite <-Hp). f_equal.
  apply map_from_list_equal; [by rewrite cache_entry_keys|by rewrite Hp].
Qed.

(** ** Checks *)

Definition check_entry (c : CheckConfig) : string * CheckConfig := (ck_id c, c).

Lemma check_entry_keys l : (check_entry <$> l).*1 = ck_id <$> l.
Proof. rewrite <-list_fmap_compose. by apply list_fmap_ext. Qed.

Lemma check_loop_ok checks by_id :
  try_fold check_step [] checks = Ok by_id ↔
  ∃ ps, Forall2 (λ c p, prepare_check c = Ok p) checks ps ∧ NoDup (ck_id <$> ps) ∧
        by_id = map_from_list (check_entry <$> ps).
Proof.
  revert by_id. induction checks as [|c checks IH] using rev_ind; intros by_id.
  { cbn. split.
    - intros [= <-]. exists []. by repeat constructor.
    - by intros (ps & ->%Forall2_nil_inv_l & _ & ->). }
  rewrite try_fold_app, bind_ok.
  assert (Hk : ∀ ps k, map_get k (map_from_list (check_entry <$> ps)) = None ↔ k ∉ ck_id <$> ps)
    by (intros ps k; by rewrite map_get_none, elem_of_map_keys_from_list, check_entry_keys).
  split.
  - intros (b & (ps & Hps & Hnd & ->)%IH & H). cbn [try_fold] in H. unfold check_step in H.
    res_inv. rename x0 into p. destruct (map_get _ _) eqn:E; [done|]. res_inv. subst.
    exists (ps ++ [p]). split; [by apply Forall2_app; [|repeat constructor]|].
    rewrite !fmap_app. split; [|by rewrite <-map_from_list_snoc].
    apply NoDup_app. split; [done|]. split; [|apply NoDup_singleton].
    intros k Hin ->%list_elem_of_singleton. by apply Hk in E.
  - intros (ps' & Hps & Hnd & ->). apply Forall2_app_inv_l in Hps as (ps & l & Hps & Hl & ->).
    apply Forall2_cons_inv_l in Hl as (p & l' & Hp & ->%Forall2_nil_inv_l & ->).
    rewrite fmap_app in Hnd. apply NoDup_app in Hnd as (Hnd & Hd & _).
    exists (map_from_list (check_entry <$> ps)). split; [apply IH; eauto|].
    cbn [try_fold]. unfold check_step. rewrite Hp. cbn [mbind result_bind].
    rewrite (proj2 (Hk _ _)) by (intros Hin; apply (Hd _ Hin); left). cbn [mbind result_bind].
    by rewrite fmap_app, <-map_from_list_snoc.
Qed.

Lemma prepare_check_id c p : prepare_check c = Ok p → ck_id p = ck_id c ∧ ck_required p = ck_required c.
Proof. unfold prepare_check. intros H. res_inv. by subst. Qed.

Lemma prepare_check_deps c p : prepare_check c = Ok p → NoDup (ck_depends_on p).
Proof.
  unfold prepare_check. intros H. res_inv. subst. cbn.
  rename select (unique_sorted "check.depends_on" _ _ = _) into Hu.
  apply unique_sorted_ok in Hu as (_ & _ & ->). apply sorted_nodup, set_from_list_spec.
Qed.

Lemma elem_of_check_table ps k c :
  NoDup (ck_id <$> ps) →
  map_get k (map_from_list (check_entry <$> ps)) = Some c ↔ c ∈ ps ∧ k = ck_id c.
Proof.
  intros Hnd. rewrite map_get_elem by apply map_from_list_sorted.
  rewrite map_from_list_perm by by rewrite check_entry_keys.
  rewrite list_elem_of_fmap. unfold check_entry. naive_solver.
Qed.

(** The table of the prepared checks satisfies what the sort relies on. *)
Lemma check_table_of checks ps :
  Forall2 (λ c p, prepare_check c = Ok p) checks ps → NoDup (ck_id <$> ps) →
  validate_dependencies (map_from_list (check_entry <$> ps)) = Ok () →
  check_table (map_from_list (check_entry <$> ps)).
Proof.
  intros Hps Hnd Hv. constructor.
  - apply map_from_list_sorted.
  - intros k c (_ & ->)%elem_of_check_table; done.
  - intros k c d Hg Hd. unfold validate_dependencies in Hv. rewrite try_each_ok, Forall_forall in Hv.
    specialize (Hv c). rewrite try_each_ok, Forall_forall in Hv.
    apply map_get_elem in Hg; [|apply map_from_list_sorted].
    assert (Hin : c ∈ map_values (map_from_list (check_entry <$> ps)))
      by apply (list_elem_of_fmap_2 snd _ _ Hg).
    specialize (Hv Hin d Hd). unfold dependency_step in Hv. res_inv.
    by apply map_contains_spec.
  - intros k c (Hin & _)%elem_of_check_table; [|done].
    apply list_elem_of_lookup in Hin as [i Hi].
    destruct (Forall2_lookup_r _ _ _ _ _ Hps Hi) as (c' & _ & Hp). by eapply prepare_check_deps.
Qed.

Lemma normalize_checks_ok checks l :
  normalize_checks checks = Ok l ↔
  checks ≠ [] ∧ Z.of_nat (length checks) ≤ MAX_CHECKS ∧ existsb ck_required checks = true ∧
  ∃ ps, Forall2 (λ c p, prepare_check c = Ok p) checks ps ∧ NoDup (ck_id <$> ps) ∧
        let by_id := map_from_list (check_entry <$> ps) in
        validate_dependencies by_id = Ok () ∧ topological_checks by_id = Ok l.
Proof.
  unfold normalize_checks. split.
  - intros H. res_inv. bool_prop.
    rename select (try_fold _ _ _ = _) into Hf. apply check_loop_ok in Hf as (ps & ? & ? & ->).
    split; [by intros ->|]. split; [lia|]. split; [done|]. eauto 10.
  - intros (Hne & Hlen & Hreq & ps & Hps & Hnd & Hv & Ht).
    res_step; [by apply ensure_ok, negb_true_iff; destruct checks|].
    res_step; [apply ensure_ok, negb_true_iff; lia|]. res_step; [by apply ensure_ok|].
    res_step; [apply check_loop_ok; eauto|]. by res_step.
Qed.

Lemma existsb_perm {A} (f : A → bool) l m : l ≡ₚ m → existsb f l = existsb f m.
Proof.
  induction 1 as [|x l m _ IH|x y l|l1 l2 l3 _ IH1 _ IH2]; cbn; [done|by rewrite IH| |congruence].
  by destruct (f x), (f y).
Qed.

Lemma normalize_checks_perm checks checks' l :
  checks ≡ₚ checks' → normalize_checks checks = Ok l → normalize_checks checks' = Ok l.
Proof.
  rewrite !normalize_checks_ok. intros Hp (Hne & Hlen & Hreq & ps & Hps & Hnd & Hv & Ht).
  destruct (Forall2_perm_l _ _ _ _ Hp Hps) as (ps' & Hpp & Hps').
  assert (E : map_from_list (check_entry <$> ps) = map_from_list (check_entry <$> ps'))
    by (apply map_from_list_equal; [by rewrite check_entry_keys|by rewrite Hpp]).
  split; [intros ->; by apply Permutation_nil_r in Hp|]. rewrite <-(Permutation_length Hp).
  split; [done|]. rewrite <-(existsb_perm _ _ _ Hp). split; [done|].
  exists ps'. split; [done|]. split; [by rewrite <-Hpp|]. cbn. by rewrite <-E.
Qed.


(** What the prepared form of a check keeps of the check it comes from. *)
Lemma prepare_check_fields c p :
  prepare_check c = Ok p →
  ck_id p = ck_id c ∧ ck_required p = ck_required c ∧
  (∀ d, d ∈ ck_depends_on p ↔ d ∈ ck_depends_on c) ∧
  (∀ a, a ∈ ck_artifacts p ↔ a ∈ ck_artifacts c).
Proof.
  unfold prepare_check. intros H. res_inv. subst. cbn.
  repeat match goal with Hu : unique_sorted _ _ _ = _ |- _ =>
    apply unique_sorted_ok in Hu as (_ & _ & ->) end.
  split_and!; [done..| |]; intros x; apply set_from_list_spec.
Qed.

Lemma check_values_perm ps :
  NoDup (ck_id <$> ps) → map_values (map_from_list (check_entry <$> ps)) ≡ₚ ps.
Proof.
  intros Hnd. unfold map_values. rewrite map_from_list_perm by by rewrite check_entry_keys.
  rewrite <-list_fmap_compose. cbn. by rewrite list_fmap_id.
Qed.

Lemma normalize_checks_sorted checks l :
  normalize_checks checks = Ok l →
  ∃ ps, Forall2 (λ c p, prepare_check c = Ok p) checks ps ∧
        l ≡ₚ normalize_check <$> ps ∧ NoDup (nk_id <$> l) ∧
        dependencies_first l ∧ least_ready_first l.
Proof.
  intros (_ & _ & _ & ps & Hps & Hnd & Hv & Ht)%normalize_checks_ok.
  pose proof (check_table_of _ _ Hps Hnd Hv) as Htab.
  apply topological_checks_ok in Ht as (Hp & Hd & Hm); [|done]. rewrite check_values_perm in Hp by done.
  exists ps. split_and!; try done.
  rewrite Hp. by rewrite <-list_fmap_compose.
Qed.

(** ** Which errors a step can return

    Only the topological sort reports a cycle, and only it could fault. *)

Definition plain (e : ConfigError) : Prop :=
  match e with DependencyCycle _ | ConfigFault _ => False | _ => True end.
Definition plain_result {T} (r : result ConfigError T) : Prop := ∀ e, r = Err e → plain e.

Lemma plain_ok {T} (x : T) : plain_result (Ok x).
Proof. done. Qed.
Lemma plain_err {T} e : plain e → plain_result (@Err _ T e).
Proof. by intros ? ? [= <-]. Qed.
Lemma plain_bind {A B} (m : result ConfigError A) (f : A → result ConfigError B) :
  plain_result m → (∀ a, m = Ok a → plain_result (f a)) → plain_result (m ≫= f).
Proof. intros Hm Hf e [?|(a & ? & ?)]%bind_err; [by apply Hm|by eapply Hf]. Qed.
Lemma plain_ensure b e : plain e → plain_result (ensure b e).
Proof. by intros ? ? [_ <-]%ensure_err. Qed.
Lemma plain_ok_or {T} (o : option T) e : plain e → plain_result (ok_or o e).
Proof. intros ? e'. destruct o; cbn; naive_solver. Qed.
Lemma plain_receipt {T} (r : result ReceiptError T) : plain_result (map_err ConfigReceipt r).
Proof. intros e. by destruct r; intros [= <-]. Qed.
Lemma plain_try_each {A} (f : A → result ConfigError ()) l :
  (∀ a, plain_result (f a)) → plain_result (try_each f l).
Proof. intros Hf. induction l; cbn; [apply plain_ok|by apply plain_bind]. Qed.
Lemma plain_try_fold {S A} (f : S → A → result ConfigError S) l :
  (∀ s a, plain_result (f s a)) → ∀ s, plain_result (try_fold f s l).
Proof. intros Hf. induction l; intros s; cbn; [apply plain_ok|by apply plain_bind]. Qed.

#[local] Hint Resolve plain_ok plain_receipt : ccp.

(** One step of a [plain_result] goal, following the shape of the code. *)
Ltac plain_step :=
  match goal with
  | |- plain_result (_ ≫= _) => apply plain_bind; [|intros ? ?]
  | |- plain_result (try_each _ _) => apply plain_try_each; intros ?
  | |- plain_result (try_fold _ _ _) => apply plain_try_fold; intros ? ?
  | |- plain_result (match ?x with _ => _ end) => destruct x
  | |- plain_result (ensure _ _) => apply plain_ensure; exact I
  | |- plain_result (ok_or _ _) => apply plain_ok_or; exact I
  | |- plain_result (Err _) => apply plain_err; exact I
  | |- _ => solve [auto with ccp]
  end.
Ltac plain_tac := repeat plain_step.

Lemma plain_text f v : plain_result (validate_text f v).
Proof. unfold validate_text. plain_tac. Qed.
#[local] Hint Resolve plain_text : ccp.
Lemma plain_identifier f v : plain_result (validate_identifier f v).
Proof. unfold validate_identifier. plain_tac. Qed.
Lemma plain_environment_name v : plain_result (validate_environment_name v).
Proof. unfold validate_environment_name. plain_tac. Qed.
Lemma plain_relative f v : plain_result (validate_relative_path f v).
Proof. unfold validate_relative_path. plain_tac. Qed.
Lemma plain_image v : plain_result (validate_image_reference v).
Proof. unfold validate_image_reference. plain_tac. Qed.
Lemma plain_bounded f v lo hi : plain_result (validate_bounded f v lo hi).
Proof. unfold validate_bounded. plain_tac. Qed.
#[local] Hint Resolve plain_identifier plain_environment_name plain_relative plain_image
  plain_bounded : ccp.
Lemma plain_unique f l v : (∀ x, plain_result (v x)) → plain_result (unique_sorted f l v).
Proof. intros. unfold unique_sorted, unique_step. plain_tac. Qed.
#[local] Hint Resolve plain_unique : ccp.

Lemma plain_top_level c : plain_result (validate_top_level c).
Proof. unfold validate_top_level, validate_repository_identity. plain_tac. Qed.
Lemma plain_runtime v r : plain_result (normalize_runtime v r).
Proof. unfold normalize_runtime. plain_tac. Qed.
Lemma plain_caches l : plain_result (normalize_caches l).
Proof. unfold normalize_caches, cache_step. plain_tac. Qed.
Lemma plain_storage v s l : plain_result (normalize_storage v s l).
Proof. unfold normalize_storage. plain_tac. Qed.
Lemma plain_prepare c : plain_result (prepare_check c).
Proof.
  unfold prepare_check, validate_check, validate_artifact_contracts, artifact_contract_step.
  plain_tac.
Qed.
Lemma plain_check_step b c : plain_result (check_step b c).
Proof. unfold check_step. plain_tac; apply plain_prepare. Qed.
Lemma plain_dependencies b : plain_result (validate_dependencies b).
Proof. unfold validate_dependencies, dependency_step. plain_tac. Qed.
Lemma plain_isolate_caches r l : plain_result (isolate_caches r l).
Proof. induction l; cbn; unfold reject_path_overlap; plain_tac. Qed.
Lemma plain_isolation r l m : plain_result (validate_path_isolation r l m).
Proof.
  unfold validate_path_isolation, isolate_artifact, reject_path_overlap.
  plain_tac; apply plain_isolate_caches.
Qed.
Lemma plain_environment `{Backend} v e l : plain_result (normalize_environment v e l).
Proof. unfold normalize_environment, fixed_step, internal_step, name_step. plain_tac. Qed.

(** An error of [normalize_checks] that is not plain is one of the sort. *)
Lemma normalize_checks_err checks e :
  normalize_checks checks = Err e → ¬ plain e →
  ∃ ps, Forall2 (λ c p, prepare_check c = Ok p) checks ps ∧ NoDup (ck_id <$> ps) ∧
        let by_id := map_from_list (check_entry <$> ps) in
        check_table by_id ∧ topological_checks by_id = Err e.
Proof.
  intros H Hp. unfold normalize_checks in H.
  apply bind_err in H as [[_ <-]%ensure_err|(_ & _ & H)]; [by destruct Hp|].
  apply bind_err in H as [[_ <-]%ensure_err|(_ & _ & H)]; [by destruct Hp|].
  apply bind_err in H as [[_ <-]%ensure_err|(_ & _ & H)]; [by destruct Hp|].
  apply bind_err in H as [H|(by_id & (ps & Hps & Hnd & ->)%check_loop_ok & H)].
  { destruct Hp. revert H. apply plain_try_fold. intros; apply plain_check_step. }
  apply bind_err in H as [H|([] & Hv & H)]; [destruct Hp; by eapply plain_dependencies|].
  exists ps. split; [done|]. split; [done|]. split; [by eapply check_table_of|done].
Qed.

Lemma normalize_checks_cycle_aux checks cycle :
  normalize_checks checks = Err (DependencyCycle cycle) →
  cycle ≠ [] ∧
  (∀ x, x ∈ cycle → ∃ c d, c ∈ checks ∧ ck_id c = x ∧ d ∈ ck_depends_on c ∧ d ∈ cycle) ∧
  ∃ ps, Forall2 (λ c p, prepare_check c = Ok p) checks ps ∧
        ∀ l, l ≡ₚ normalize_check <$> ps → ¬ dependencies_first l.
Proof.
  intros H. destruct (normalize_checks_err _ _ H) as (ps & Hps & Hnd & Htab & Ht); [tauto|].
  destruct (topological_checks_err _ _ Htab Ht) as (cyc & [= <-] & Hne & Hcyc).
  split; [done|]. split.
  - intros x Hx. destruct (Hcyc x Hx) as (p & d & Hg & Hd & Hin).
    apply elem_of_check_table in Hg as [Hp ->]; [|done].
    apply list_elem_of_lookup in Hp as [i Hi].
    destruct (Forall2_lookup_r _ _ _ _ _ Hps Hi) as (c & Hc & Hp).
    apply prepare_check_fields in Hp as (Hid & _ & Hdeps & _). exists c, d.
    split_and!; [by eapply list_elem_of_lookup_2|done|by apply Hdeps|done].
  - exists ps. split; [done|]. intros l Hl. destruct Htab as [Hs Hi _ _].
    apply (cycle_no_order _ cycle l Hi Hs Hne Hcyc). by rewrite check_values_perm.
Qed.

Lemma into_plan_no_fault `{B : Backend} c : no_fault (into_plan c).
Proof.
  intros f. unfold into_plan. intros H.
  apply bind_err in H as [H|(_ & _ & H)]; [by apply plain_top_level in H|].
  apply bind_err in H as [H|(? & _ & H)]; [by apply plain_caches in H|].
  apply bind_err in H as [H|(? & _ & H)]; [by apply plain_runtime in H|].
  apply bind_err in H as [H|(? & _ & H)]; [by apply plain_environment in H|].
  apply bind_err in H as [H|(? & _ & H)].
  { destruct (normalize_checks_err _ _ H) as (ps & _ & _ & Htab & Ht); [tauto|].
    by destruct (topological_checks_err _ _ Htab Ht) as (cyc & ? & _). }
  apply bind_err in H as [H|(? & _ & H)]; [by apply plain_storage in H|].
  apply bind_err in H as [H|(? & _ & H)]; [by apply plain_isolation in H|].
  apply bind_err in H as [H|(? & _ & H)]; [by apply plain_receipt in H|done].
Qed.
