(* ===== verification/PlanProps.v ===== *)
(** What an accepted configuration guarantees: the properties of [into_plan]
    ([src/src/config.rs]).  The plan does not depend on the order in which the
    configuration lists its items, its checks run in dependency order, no two of
    its write locations overlap, no name is both given to the container and
    reserved for remote secrets, and its storage budget is bounded. *)
From S2P Require Import Prelude.
From S2P Require Import RustStr.
From S2P Require Import BTree.
From S2P Require Import Canonical.
From S2P Require Import Config.
From S2P Require Import TopoSort.
From S2P Require Import ConfigProps.
Local Open Scope Z_scope.

(** * Definitions for the statements *)

(** The segments of a path, and containment of one location in another: the
    segments of the outer path begin the segments of the inner one. *)
Definition segments (p : string) : list string := split "/" p.
Definition contains_path (outer inner : string) : Prop := segments outer `prefix_of` segments inner.

(** Every location a plan may write: the receipt, the cache mounts and the
    declared artifacts. *)
Definition plan_locations (p : ExecutionPlanV1) : list string :=
  nrec_output (ep_receipt p)
    :: (nc_mount_path <$> ep_caches p) ++ (ep_checks p ≫= nk_artifacts).

(** Two checks that list the same dependencies and artifacts in another order, their
    arguments and contracts in the same one; two configurations that list the same
    checks, caches, environment names and cache bindings in another order. *)
Record check_reordered (c c' : CheckConfig) : Prop := {
  cr_id : ck_id c = ck_id c';
  cr_required : ck_required c = ck_required c';
  cr_argv : ck_argv c = ck_argv c';
  cr_directory : ck_working_directory c = ck_working_directory c';
  cr_timeout : ck_timeout_seconds c = ck_timeout_seconds c';
  cr_depends : ck_depends_on c ≡ₚ ck_depends_on c';
  cr_artifacts : ck_artifacts c ≡ₚ ck_artifacts c';
  cr_contracts : ck_artifact_contracts c = ck_artifact_contracts c';
}.

Record reordered (c c' : ConfigV1) : Prop := {
  re_schema : cfg_schema_version c = cfg_schema_version c';
  re_project : cfg_project c = cfg_project c';
  re_runtime : cfg_runtime c = cfg_runtime c';
  re_receipt : cfg_receipt c = cfg_receipt c';
  re_storage : cfg_storage c = cfg_storage c';
  re_fixed : ec_fixed (cfg_environment c) = ec_fixed (cfg_environment c');
  re_internal : ec_runtime_internal (cfg_environment c) ≡ₚ ec_runtime_internal (cfg_environment c');
  re_allow : ec_allow (cfg_environment c) ≡ₚ ec_allow (cfg_environment c');
  re_secret : ec_remote_secret_only (cfg_environment c) ≡ₚ
              ec_remote_secret_only (cfg_environment c');
  re_caches : cfg_caches c ≡ₚ cfg_caches c';
  re_checks : ∃ mid, cfg_checks c ≡ₚ mid ∧ Forall2 check_reordered mid (cfg_checks c');
}.

(** * Path isolation *)

Lemma starts_with_slash r : starts_with "/" r = true ↔ ∃ t, r = String "/" t.
Proof.
  unfold starts_with. destruct (strip_prefix "/" r) as [t|] eqn:E.
  - apply strip_prefix_some in E as ->. split; [by exists t|done].
  - split; [done|]. intros (t & ->).
    by rewrite (proj2 (strip_prefix_some "/" (String "/" t) t) eq_refl) in E.
Qed.

Lemma strip_slash p s :
  (match strip_prefix p s with Some r => starts_with "/" r | None => false end) = true ↔
  ∃ t, s = p +:+ String "/" t.
Proof.
  destruct (strip_prefix p s) as [r|] eqn:E.
  - apply strip_prefix_some in E as ->. rewrite starts_with_slash. split.
    + intros (t & ->). by exists t.
    + intros (t & H). exists t. apply (f_equal bytes) in H. rewrite !bytes_append in H.
      apply app_inv_head in H. by apply bytes_inj.
  - split; [done|]. intros (t & ->).
    by rewrite (proj2 (strip_prefix_some p _ (String "/" t)) eq_refl) in E.
Qed.

(** The textual test of the code is containment of path segments. *)
Lemma paths_overlap_spec a b :
  paths_overlap a b = true ↔ contains_path a b ∨ contains_path b a.
Proof.
  unfold paths_overlap, contains_path, segments.
  rewrite !orb_true_iff, String.eqb_eq, !strip_slash, !split_prefix. naive_solver.
Qed.

(** Two locations that do not contain each other. *)
Definition disjoint_paths (a b : string) : Prop := ¬ contains_path a b ∧ ¬ contains_path b a.

Lemma reject_ok a b : reject_path_overlap a b = Ok () ↔ disjoint_paths a b.
Proof.
  unfold reject_path_overlap, disjoint_paths. rewrite ensure_ok, negb_true_iff.
  rewrite <-not_true_iff_false, paths_overlap_spec. tauto.
Qed.

Lemma disjoint_sym a b : disjoint_paths a b → disjoint_paths b a.
Proof. unfold disjoint_paths. tauto. Qed.

Lemma isolate_caches_ok receipt caches :
  isolate_caches receipt caches = Ok () →
  ForallOrdPairs disjoint_paths (nc_mount_path <$> caches) ∧
  Forall (disjoint_paths (nrec_output receipt)) (nc_mount_path <$> caches).
Proof.
  induction caches as [|c caches IH]; [by repeat constructor|]. intros H. cbn in H. res_inv.
  rename select (try_each _ _ = _) into Ht. rewrite try_each_ok in Ht.
  rename select (reject_path_overlap _ _ = _) into Hr. apply reject_ok in Hr.
  destruct (IH H) as [IH1 IH2]. cbn. split; constructor; [|done|by apply disjoint_sym|done].
  apply Forall_fmap. eapply Forall_impl; [exact Ht|]. intros x. by rewrite reject_ok.
Qed.

Lemma ordpairs_app {A} (R : A → A → Prop) l m :
  ForallOrdPairs R (l ++ m) ↔
  ForallOrdPairs R l ∧ ForallOrdPairs R m ∧ ∀ x y, x ∈ l → y ∈ m → R x y.
Proof.
  induction l as [|a l IH]; cbn.
  - split; [intros H; split_and!; [constructor|done|set_solver]|tauto].
  - split.
    + inversion 1 as [|? ? Ha Hl]; subst. apply IH in Hl as (? & ? & ?).
      apply Forall_app in Ha as [? Hm]. rewrite Forall_forall in Hm.
      split_and!; [by constructor|done|]. intros x y [->|?]%elem_of_cons ?; auto.
    + intros (Ha & Hm & Hx). inversion Ha as [|? ? Ha' Hl]; subst. constructor.
      * apply Forall_app. split; [done|]. rewrite Forall_forall. intros y ?. apply Hx; [left|done].
      * apply IH. split_and!; [done..|]. intros x y ? ?. apply Hx; [by right|done].
Qed.

Lemma ordpairs_lookup {A} (R : A → A → Prop) l i j x y :
  (∀ a b, R a b → R b a) → ForallOrdPairs R l → i ≠ j → l !! i = Some x → l !! j = Some y → R x y.
Proof.
  intros Hsym H. revert i j. induction H as [|a l Ha Hl IH]; intros i j Hij Hi Hj; [done|].
  rewrite Forall_forall in Ha.
  destruct i as [|i], j as [|j]; cbn in *; [done|..].
  - injection Hi as <-. apply Ha. by eapply list_elem_of_lookup_2.
  - injection Hj as <-. apply Hsym, Ha. by eapply list_elem_of_lookup_2.
  - apply (IH i j); [lia|done..].
Qed.

Lemma try_fold_flat {E S A B} (f : S → B → result E S) (g : A → list B) l s :
  try_fold (λ s a, try_fold f s (g a)) s l = try_fold f s (l ≫= g).
Proof.
  revert s. induction l as [|a l IH]; intros s; [done|].
  cbn [try_fold mbind list_bind]. rewrite try_fold_app.
  destruct (try_fold f s (g a)); cbn [mbind result_bind]; [apply IH|done].
Qed.

Lemma isolate_artifacts_ok receipt caches artifacts s :
  try_fold (isolate_artifact receipt caches) [] artifacts = Ok s →
  ForallOrdPairs disjoint_paths artifacts ∧
  Forall (disjoint_paths (nrec_output receipt)) artifacts ∧
  ∀ m a, m ∈ nc_mount_path <$> caches → a ∈ artifacts → disjoint_paths m a.
Proof.
  intros H. eapply (try_fold_inv (λ pre st, (∀ x, x ∈ st ↔ x ∈ pre) ∧
    ForallOrdPairs disjoint_paths pre ∧ Forall (disjoint_paths (nrec_output receipt)) pre ∧
    ∀ m a, m ∈ nc_mount_path <$> caches → a ∈ pre → disjoint_paths m a)) in H.
  - by destruct H as (_ & ?).
  - split_and!; [done|constructor|constructor|set_solver].
  - intros pre a st st' (He & HP & Hr & Hc) Hst. unfold isolate_artifact in Hst. res_inv. subst st'.
    repeat match goal with Ht : try_each _ _ = _ |- _ => rewrite try_each_ok, Forall_forall in Ht end.
    rename select (reject_path_overlap _ _ = _) into Hrej. apply reject_ok, disjoint_sym in Hrej.
    split_and!.
    + intros x. rewrite elem_of_set_insert, He. set_solver.
    + apply ordpairs_app. split_and!; [done|by repeat constructor|].
      intros x y Hx ->%list_elem_of_singleton. apply disjoint_sym, reject_ok. apply He in Hx. auto.
    + apply Forall_app. split; [done|by apply Forall_singleton].
    + intros m x Hm [Hx| ->%list_elem_of_singleton]%elem_of_app; [auto|].
      apply list_elem_of_fmap in Hm as (c & -> & Hm). apply disjoint_sym, reject_ok. auto.
Qed.

Lemma validate_path_isolation_ok receipt caches checks :
  validate_path_isolation receipt caches checks = Ok () →
  ForallOrdPairs disjoint_paths
    (nrec_output receipt :: (nc_mount_path <$> caches) ++ (checks ≫= nk_artifacts)).
Proof.
  unfold validate_path_isolation. intros H. res_inv.
  rename select (isolate_caches _ _ = _) into Hc. apply isolate_caches_ok in Hc as [Hc1 Hc2].
  rename select (try_fold _ _ _ = _) into Ha. rewrite try_fold_flat in Ha.
  apply isolate_artifacts_ok in Ha as (Ha1 & Ha2 & Ha3).
  constructor; [by apply Forall_app|]. apply ordpairs_app. split_and!; auto.
Qed.

(** * Environment *)

(** The three loops over the names of the environment: each item adds a name
    that was not there and appends what it is translated to. *)
Definition add_names {A} (name : A → string) (l : list A) (names : btset string) : btset string :=
  fold_left (λ s a, (set_insert (name a) s).2) l names.

Lemma add_names_spec {A} (name : A → string) l names :
  set_sorted names →
  set_sorted (add_names name l names) ∧
  ∀ x, x ∈ add_names name l names ↔ x ∈ name <$> l ∨ x ∈ names.
Proof.
  unfold add_names. revert names. induction l as [|a l IH]; intros names Hs; cbn.
  - split; [done|set_solver].
  - destruct (IH _ (set_insert_sorted (name a) _ Hs)) as [? He]. split; [done|].
    intros x. rewrite He, elem_of_set_insert. set_solver.
Qed.

Lemma add_names_perm {A} (name : A → string) l m names :
  set_sorted names → l ≡ₚ m → add_names name l names = add_names name m names.
Proof.
  intros Hs Hp. destruct (add_names_spec name l names Hs) as [S1 E1].
  destruct (add_names_spec name m names Hs) as [S2 E2].
  apply sorted_ext; [done..|]. intros x. by rewrite E1, E2, Hp.
Qed.

Section NamedLoop.
Context {A C : Type} (name : A → string) (R : A → C → Prop).
Context (step : btset string * list C → A → result ConfigError (btset string * list C)).
Hypothesis step_ok : ∀ names out a st', set_sorted names →
  step (names, out) a = Ok st' ↔
  ∃ b, R a b ∧ (name a ∉ names) ∧ st' = ((set_insert (name a) names).2, out ++ [b]).

Lemma named_loop l : ∀ names out st', set_sorted names →
  try_fold step (names, out) l = Ok st' ↔
  ∃ bs, Forall2 R l bs ∧ NoDup (name <$> l) ∧ (∀ x, x ∈ name <$> l → x ∉ names) ∧
        st' = (add_names name l names, out ++ bs).
Proof.
  induction l as [|a l IH]; intros names out st' Hs; cbn [try_fold].
  { split.
    - intros [= <-]. exists []. rewrite app_nil_r. split_and!; [constructor|constructor|set_solver|done].
    - intros (bs & ->%Forall2_nil_inv_l & _ & _ & ->). by rewrite app_nil_r. }
  rewrite bind_ok. setoid_rewrite step_ok; [|done]. split.
  - intros (st & (b & HR & Hn & ->) & Hl). apply IH in Hl as (bs & HF & Hnd & Hd & ->); [|eauto with ccp].
    exists (b :: bs). rewrite <-app_assoc. cbn.
    setoid_rewrite elem_of_set_insert in Hd.
    split_and!; [by constructor|constructor; [|done]|..|done].
    + intros Hin. apply (Hd _ Hin). by left.
    + intros x [->|Hx]%elem_of_cons; [done|]. intros Hin. apply (Hd _ Hx). by right.
  - intros (bs' & HF & Hnd & Hd & ->). apply Forall2_cons_inv_l in HF as (b & bs & HR & HF & ->).
    cbn in Hnd. apply NoDup_cons in Hnd as [Ha Hnd].
    eexists. split; [exists b; split_and!; [done| |done]; apply Hd; by left|].
    apply IH; [eauto with ccp|]. exists bs. rewrite <-app_assoc. cbn.
    split_and!; [done..| |done]. intros x Hx [->|Hin]%elem_of_set_insert; [done|].
    apply (Hd x); [by right|done].
Qed.
End NamedLoop.

Section Environment.
Context `{B : Backend}.

Definition fixed_rel (b : string * string) (n : NormalizedFixedEnvironment) : Prop :=
  validate_environment_name b.1 = Ok () ∧ validate_text "environment.fixed" b.2 = Ok () ∧
  nfe_name n = b.1 ∧ canonical_digest b.2 = Ok (nfe_value_digest n).

Definition internal_rel (targets : btmap string string) (b : RuntimeInternalEnvironmentConfig)
    (n : NormalizedRuntimeInternalEnvironment) : Prop :=
  validate_environment_name (ri_name b) = Ok () ∧
  validate_identifier "environment.runtime_internal.cache_id" (ri_cache_id b) = Ok () ∧
  nri_name n = ri_name b ∧ nri_cache_id n = ri_cache_id b ∧
  ∃ path, map_get (ri_cache_id b) targets = Some path ∧
          nri_container_target n = "/workspace/" +:+ path.

Lemma fixed_step_ok names out b st' :
  set_sorted names →
  fixed_step (names, out) b = Ok st' ↔
  ∃ n, fixed_rel b n ∧ (b.1 ∉ names) ∧ st' = ((set_insert b.1 names).2, out ++ [n]).
Proof.
  intros Hs. destruct b as [x v]. unfold fixed_step, fixed_rel. cbn [fst snd]. split.
  - intros H. res_inv. apply fresh_ok in H as [Hx H]; [|done]. res_inv. subst.
    eexists. split; [|done]. by split_and!.
  - intros (n & (H1 & H2 & Hn & Hd) & Hx & ->). res_step; [done|]. res_step; [done|].
    apply fresh_ok; [done|]. split; [done|]. res_step; [by apply map_err_ok|].
    by destruct n; cbn in *; subst.
Qed.

Lemma internal_step_ok targets names out b st' :
  set_sorted names →
  internal_step targets (names, out) b = Ok st' ↔
  ∃ n, internal_rel targets b n ∧ (ri_name b ∉ names) ∧
       st' = ((set_insert (ri_name b) names).2, out ++ [n]).
Proof.
  intros Hs. unfold internal_step, internal_rel. split.
  - intros H. res_inv. apply fresh_ok in H as [Hx H]; [|done]. res_inv. subst.
    eexists. split; [|done]. split_and!; try done. by eexists.
  - intros (n & (H1 & H2 & Hn & Hc & path & Hg & Ht) & Hx & ->). res_step; [done|]. res_step; [done|].
    apply fresh_ok; [done|]. split; [done|]. res_step; [by apply ok_or_ok|].
    by destruct n; cbn in *; subst.
Qed.

Lemma name_loop_ok l names st' :
  set_sorted names →
  try_fold name_step names l = Ok st' ↔
  NoDup l ∧ (∀ x, x ∈ l → x ∉ names) ∧ st' = add_names id l names.
Proof.
  revert names. induction l as [|a l IH]; intros names Hs; cbn [try_fold].
  { split; [intros [= <-]; split_and!; [constructor|set_solver|done]|by intros (_ & _ & ->)]. }
  rewrite bind_ok. unfold name_step at 1. setoid_rewrite (fresh_ok a names); [|done]. split.
  - intros (s & [Hx [= <-]] & (Hnd & Hd & ->)%IH); [|eauto with ccp].
    setoid_rewrite elem_of_set_insert in Hd. split_and!; [constructor; [|done]|..|done].
    + intros Hin. apply (Hd _ Hin). by left.
    + intros x [->|Hx']%elem_of_cons; [done|]. intros Hin. apply (Hd _ Hx'). by right.
  - intros ([Ha Hnd]%NoDup_cons & Hd & ->). eexists. split; [split; [apply Hd; by left|done]|].
    apply IH; [eauto with ccp|]. split_and!; [done| |done].
    intros x Hx [->|Hin]%elem_of_set_insert; [done|]. apply (Hd x); [by right|done].
Qed.

Lemma fixed_rel_names l bs : Forall2 fixed_rel l bs → nfe_name <$> bs = l.*1.
Proof. induction 1 as [|b n l bs (_ & _ & Hn & _) _ IH]; cbn; [done|]. by rewrite Hn, IH. Qed.

Lemma internal_rel_names t l bs : Forall2 (internal_rel t) l bs → nri_name <$> bs = ri_name <$> l.
Proof. induction 1 as [|b n l bs (_ & _ & Hn & _) _ IH]; cbn; [done|]. by rewrite Hn, IH. Qed.

(** The guards on what each schema version allows in the environment. *)
Definition environment_guards (v : string) (e : EnvironmentConfig)
    (inherit secrets : list string) : Prop :=
  if (v =? CONFIG_SCHEMA_VERSION)%string
  then ec_fixed e = [] ∧ ec_runtime_internal e = [] ∧ secrets = []
  else inherit = [].

Lemma length_zero {A} (l : list A) : (length l =? 0)%nat = true ↔ l = [].
Proof. by destruct l. Qed.

Lemma guards_ok v e inherit secrets :
  (negb ((v =? CONFIG_SCHEMA_VERSION)%string
         && (negb (length (ec_fixed e) =? 0)%nat || negb (length (ec_runtime_internal e) =? 0)%nat
             || negb (length secrets =? 0)%nat)) = true ∧
   negb (negb (v =? CONFIG_SCHEMA_VERSION)%string && negb (length inherit =? 0)%nat) = true) ↔
  environment_guards v e inherit secrets.
Proof.
  unfold environment_guards. destruct (v =? _)%string; cbn;
    rewrite ?negb_true_iff, ?orb_false_iff, ?negb_false_iff, ?length_zero; naive_solver.
Qed.

Definition cache_targets (caches : list NormalizedCache) : btmap string string :=
  map_from_list ((λ c, (nc_id c, nc_mount_path c)) <$> caches).

(** Names added one list after another to [names0]. *)
Definition fresh_names (names0 : list string) (l : list string) : Prop :=
  NoDup l ∧ ∀ x, x ∈ l → x ∉ names0.

Lemma fresh_names_app names0 l m :
  fresh_names names0 (l ++ m) ↔ fresh_names names0 l ∧ fresh_names (l ++ names0) m.
Proof.
  unfold fresh_names. rewrite NoDup_app. setoid_rewrite elem_of_app. naive_solver.
Qed.

Lemma fresh_names_ext names1 names2 l :
  (∀ x, x ∈ names1 ↔ x ∈ names2) → fresh_names names1 l ↔ fresh_names names2 l.
Proof. unfold fresh_names. naive_solver. Qed.

(** The three loops in a row. *)
Lemma environment_loops inherit secrets e targets fixed internal :
  (∃ names names' names'',
     try_fold fixed_step (set_from_list inherit, []) (ec_fixed e) = Ok (names, fixed) ∧
     try_fold (internal_step targets) (names, []) (ec_runtime_internal e) = Ok (names', internal) ∧
     try_fold name_step names' secrets = Ok names'') ↔
  Forall2 fixed_rel (ec_fixed e) fixed ∧
  Forall2 (internal_rel targets) (ec_runtime_internal e) internal ∧
  fresh_names inherit ((ec_fixed e).*1 ++ (ri_name <$> ec_runtime_internal e) ++ secrets).
Proof.
  destruct (set_from_list_spec inherit) as [S0 E0].
  destruct (add_names_spec fst (ec_fixed e) _ S0) as [S1 E1].
  destruct (add_names_spec ri_name (ec_runtime_internal e) _ S1) as [S2 E2].
  rewrite !fresh_names_app.
  rewrite <-(fresh_names_ext (add_names fst (ec_fixed e) (set_from_list inherit)) (_ ++ inherit))
    by (intros x; rewrite E1, E0, elem_of_app; done).
  rewrite <-(fresh_names_ext (add_names ri_name (ec_runtime_internal e) _) (_ ++ _ ++ inherit))
    by (intros x; rewrite E2, E1, E0, !elem_of_app; done).
  rewrite <-(fresh_names_ext _ _ _ E0). unfold fresh_names. split.
  - intros (names & names' & names'' & Hf & Hn & Hm).
    apply (named_loop fst fixed_rel fixed_step fixed_step_ok) in Hf
      as (? & ? & ? & ? & [= -> ->]); [|done].
    apply (named_loop ri_name _ _ (internal_step_ok _)) in Hn
      as (? & ? & ? & ? & [= -> ->]); [|done].
    apply name_loop_ok in Hm as (? & ? & _); [|done]. tauto.
  - intros (? & ? & [? ?] & [? ?] & [? ?]). do 3 eexists. split_and!.
    + apply (named_loop fst fixed_rel fixed_step fixed_step_ok); [done|]. by eexists.
    + apply (named_loop ri_name _ _ (internal_step_ok _)); [done|]. by eexists.
    + by apply name_loop_ok.
Qed.

(** Exactly when the environment is accepted, and what it becomes. *)
Lemma normalize_environment_ok v e caches n :
  normalize_environment v e caches = Ok n ↔
  ∃ inherit secrets fixed internal,
    unique_sorted "environment.allow" (ec_allow e) validate_environment_name = Ok inherit ∧
    unique_sorted "environment.remote_secret_only" (ec_remote_secret_only e)
      validate_environment_name = Ok secrets ∧
    environment_guards v e inherit secrets ∧
    (Forall2 fixed_rel (ec_fixed e) fixed ∧
     Forall2 (internal_rel (cache_targets caches)) (ec_runtime_internal e) internal ∧
     fresh_names inherit ((ec_fixed e).*1 ++ (ri_name <$> ec_runtime_internal e) ++ secrets)) ∧
    n = {| ne_inherit := inherit; ne_fixed := sort_by nfe_name fixed;
           ne_runtime_internal := sort_by nri_name internal; ne_remote_secret_only := secrets |}.
Proof.
  unfold normalize_environment. fold (cache_targets caches). split.
  - intros H. apply bind_ok in H as (inherit & Hi & H). apply bind_ok in H as (secrets & Hs & H).
    apply bind_ok in H as ([] & G1%ensure_ok & H). apply bind_ok in H as ([] & G2%ensure_ok & H).
    apply bind_ok in H as ([names fixed] & Hf & H). apply bind_ok in H as ([names' internal] & Hn & H).
    apply bind_ok in H as (names'' & Hm & H). injection H as <-.
    exists inherit, secrets, fixed, internal.
    split; [done|]. split; [done|]. split; [by apply guards_ok|]. split; [|done].
    apply environment_loops. by exists names, names', names''.
  - intros (inherit & secrets & fixed & internal & Hi & Hs & G & HL & ->).
    apply guards_ok in G as [G1 G2]. apply environment_loops in HL as (? & ? & ? & Hf & Hn & Hm).
    res_step; [done|]. res_step; [done|]. res_step; [by apply ensure_ok|].
    res_step; [by apply ensure_ok|]. res_step; [done|]. res_step; [done|]. by res_step.
Qed.
End Environment.

Lemma normalize_environment_perm `{Backend} v e e' caches n :
  ec_allow e ≡ₚ ec_allow e' → ec_fixed e = ec_fixed e' →
  ec_runtime_internal e ≡ₚ ec_runtime_internal e' →
  ec_remote_secret_only e ≡ₚ ec_remote_secret_only e' →
  normalize_environment v e caches = Ok n → normalize_environment v e' caches = Ok n.
Proof.
  intros Ha Hf Hi Hs. rewrite !normalize_environment_ok.
  intros (inherit & secrets & fixed & internal & Hal & Hse & G & (F1 & F2 & Hnd & Hd) & ->).
  destruct (Forall2_perm_l _ _ _ _ Hi F2) as (internal' & Hp & F2').
  exists inherit, secrets, fixed, internal'.
  split; [by eapply unique_sorted_perm|]. split; [by eapply unique_sorted_perm|].
  rewrite <-Hf. split; [|split; [split_and!; [done|done|..]|]].
  - unfold environment_guards in *. destruct (v =? _)%string; [|done].
    destruct G as (? & Hn & ?). rewrite Hn in Hi. rewrite <-Hf. split_and!; [done| |done].
    by apply Permutation_nil_l in Hi.
  - split; [by rewrite <-Hi|]. intros x. rewrite <-Hi. apply Hd.
  - f_equal. apply sort_by_equal; [|done]. rewrite (internal_rel_names _ _ _ F2).
    apply NoDup_app in Hnd as (_ & _ & Hnd). by apply NoDup_app in Hnd as [? _].
Qed.

(** * The plan *)

Lemma prepare_check_reordered c c' p :
  check_reordered c c' → prepare_check c = Ok p → prepare_check c' = Ok p.
Proof.
  destruct c, c'. intros []; cbn in *; subst. unfold prepare_check. intros H. res_inv.
  res_step; [done|].
  res_step; [by eapply unique_sorted_perm|]. res_step; [by eapply unique_sorted_perm|].
  res_step; [by apply ensure_ok|]. res_step; [done|]. by subst.
Qed.

Lemma normalize_checks_reordered checks mid checks' l :
  checks ≡ₚ mid → Forall2 check_reordered mid checks' →
  normalize_checks checks = Ok l → normalize_checks checks' = Ok l.
Proof.
  intros Hp HF H. apply (normalize_checks_perm _ _ _ Hp) in H. clear checks Hp.
  rewrite normalize_checks_ok in H |- *.
  destruct H as (Hne & Hlen & Hreq & ps & Hps & Hnd & Hrest).
  rewrite <-(Forall2_length _ _ _ HF).
  split; [intros ->; by apply Forall2_nil_inv_r in HF|]. split; [done|]. split.
  - rewrite <-Hreq. clear -HF. induction HF as [|c c' l l' Hc _ IH]; cbn; [done|].
    by rewrite IH, (cr_required _ _ Hc).
  - exists ps. split; [|done]. clear -HF Hps. revert ps Hps.
    induction HF as [|c c' l l' Hc _ IH]; intros ps Hps; [done|].
    apply Forall2_cons_inv_l in Hps as (p & ps' & Hp & Hps & ->).
    constructor; [by eapply prepare_check_reordered|auto].
Qed.

Lemma into_plan_reordered `{Backend} c c' e :
  reordered c c' → into_plan c = Ok e → into_plan c' = Ok e.
Proof.
  intros [? ? ? ? ? ? ? ? ? ? (mid & Hm & HF)] Hp. unfold into_plan in Hp. res_inv.
  unfold into_plan, validate_top_level in *.
  repeat match goal with E : _ = _ c' |- _ => rewrite <-E; clear E end.
  res_step; [done|]. res_step; [by eapply normalize_caches_perm|]. res_step; [done|].
  res_step; [by eapply normalize_environment_perm|].
  res_step; [by eapply normalize_checks_reordered|]. res_step; [done|]. res_step; [done|].
  res_step; [by apply map_err_ok|]. subst. congruence.
Qed.

(** What an accepted configuration went through. *)
Lemma into_plan_ok `{Backend} c e :
  into_plan c = Ok e →
  let p := pe_plan e in
  validate_top_level c = Ok () ∧
  normalize_caches (cfg_caches c) = Ok (ep_caches p) ∧
  normalize_environment (cfg_schema_version c) (cfg_environment c) (ep_caches p)
    = Ok (ep_environment p) ∧
  normalize_checks (cfg_checks c) = Ok (ep_checks p) ∧
  normalize_storage (cfg_schema_version c) (cfg_storage c) (ep_checks p) = Ok (ep_storage p) ∧
  validate_path_isolation (ep_receipt p) (ep_caches p) (ep_checks p) = Ok () ∧
  canonical_digest p = Ok (pe_plan_digest e).
Proof. unfold into_plan. intros Hp. res_inv. subst. by split_and!. Qed.

(** ** Environment of a plan *)

Lemma plan_environment_names `{Backend} v e caches n :
  normalize_environment v e caches = Ok n →
  NoDup (environment_names n ++ ne_remote_secret_only n).
Proof.
  rewrite normalize_environment_ok.
  intros (inherit & secrets & fixed & internal & Hal & Hse & _ & (F1 & F2 & Hnd & Hd) & ->).
  unfold environment_names. rewrite sort_by_perm. cbn.
  rewrite !sort_by_perm, (fixed_rel_names _ _ F1), (internal_rel_names _ _ _ F2), <-!app_assoc.
  apply NoDup_app. split_and!; [|intros x Hx Hin; by apply (Hd x)|done].
  apply unique_sorted_ok in Hal as (_ & _ & ->). apply sorted_nodup, set_from_list_spec.
Qed.

(** Every binding of a cache directory names a cache of the plan. *)
Lemma plan_environment_caches `{Backend} v e caches n b :
  normalize_environment v e caches = Ok n → b ∈ ne_runtime_internal n →
  ∃ cache, cache ∈ caches ∧ nc_id cache = nri_cache_id b ∧
           nri_container_target b = "/workspace/" +:+ nc_mount_path cache.
Proof.
  rewrite normalize_environment_ok.
  intros (inherit & secrets & fixed & internal & _ & _ & _ & (_ & F2 & _) & ->). cbn.
  rewrite sort_by_perm. intros Hb. apply list_elem_of_lookup in Hb as [i Hi].
  destruct (Forall2_lookup_r _ _ _ _ _ F2 Hi) as (r & _ & (_ & _ & _ & Hc & path & Hg & Ht)).
  unfold cache_targets in Hg. apply map_from_list_elem, list_elem_of_fmap in Hg as (cache & [= E1 E2] & Hcache).
  exists cache. split; [done|]. split; [congruence|]. by rewrite Ht, E2.
Qed.
