(* ===== verification/Storage.v ===== *)
(** The storage preflight of a run ([src/src/storage.rs]).

    The probe of the file system is the argument [available_bytes]; the theorem
    connects the budget that [normalize_storage] accepted with the sum that the
    preflight computes again in 64 bits. *)
From S2P Require Import Prelude.
From S2P Require Import RustStr.
From S2P Require Import BTree.
From S2P Require Import Canonical.
From S2P Require Import Config.
Local Open Scope Z_scope.

Inductive StorageError : Type :=
  | Probe (path : string)
  | PolicyOverflow
  | Insufficient (available_bytes required_bytes : Z).

Record StoragePreflight : Type := {
  sp_available_bytes : Z;
  sp_required_bytes : Z;
}.

Definition required_bytes (policy : NormalizedStorage) : result StorageError Z :=
  ok_or
    (total ← checked_u64 (ns_min_free_bytes policy + ns_receipt_journal_reserve_bytes policy);
     total ← checked_u64 (total + ns_max_cache_growth_bytes policy);
     checked_u64 (total + ns_max_artifact_bytes policy)) PolicyOverflow.

Definition preflight (available_bytes : string → result StorageError Z)
    (policy : NormalizedStorage) (cache_root : string) : result StorageError StoragePreflight :=
  required ← required_bytes policy;
  available ← available_bytes cache_root;
  _ ← ensure (negb (available <? required)) (Insufficient available required);
  Ok {| sp_available_bytes := available; sp_required_bytes := required |}.

(** * Properties *)

(** The budget of a plan: the sum of its four parts, and the sum of the limits
    of the declared artifacts. *)
Definition budget (s : NormalizedStorage) : Z :=
  ns_min_free_bytes s + ns_receipt_journal_reserve_bytes s + ns_max_cache_growth_bytes s
  + ns_max_artifact_bytes s.
Definition artifact_budget (checks : list NormalizedCheck) : Z :=
  foldr Z.add 0 (na_max_bytes <$> (checks ≫= nk_artifact_contracts)).

Lemma sum_max_bytes_some l total :
  sum_max_bytes l = Some total → total = foldr Z.add 0 (na_max_bytes <$> l).
Proof.
  unfold sum_max_bytes. enough (G : ∀ acc, opt_fold
    (λ total a, checked_u64 (total + na_max_bytes a)) acc l = Some total →
    total = acc + foldr Z.add 0 (na_max_bytes <$> l)) by (intros H; apply G in H; lia).
  induction l as [|a l IH]; intros acc; cbn; [intros [= ->]; lia|].
  intros H. opt_inv. rename select (checked_u64 _ = _) into Hc.
  apply checked_u64_some in Hc as [-> _]. apply IH in H. lia.
Qed.

(** An accepted budget: within the limit, and each part non-negative. *)
Lemma normalize_storage_some v storage checks s :
  normalize_storage v storage checks = Ok (Some s) →
  0 < ns_min_free_bytes s ∧
  MIN_RECEIPT_JOURNAL_RESERVE_BYTES ≤ ns_receipt_journal_reserve_bytes s ∧
  0 ≤ ns_max_cache_growth_bytes s ∧ 0 ≤ ns_max_artifact_bytes s ∧
  ns_max_artifact_bytes s = artifact_budget checks ∧ budget s ≤ MAX_STORAGE_BYTES.
Proof.
  unfold normalize_storage, validate_bounded. destruct (negb _); intros H; res_inv; [done|].
  bool_prop. repeat match goal with B : in_range _ _ _ = true |- _ => apply in_range_spec in B end.
  opt_inv.
  repeat match goal with B : checked_u64 _ = Some _ |- _ => apply checked_u64_some in B as [? ?] end.
  rename select (sum_max_bytes _ = _) into Hsum.
  assert (Ha : 0 ≤ x3).
  { unfold sum_max_bytes in Hsum. destruct (checks ≫= nk_artifact_contracts) as [|a l] using rev_ind.
    - cbn in Hsum. injection Hsum. lia.
    - clear IHl. revert Hsum. generalize 0 at 1. induction l as [|b l IH]; intros z; cbn.
      + intros H'. opt_inv. subst. rename select (checked_u64 _ = _) into Hc.
        apply checked_u64_some in Hc as [-> []]. lia.
      + intros H'. opt_inv. eauto. }
  apply sum_max_bytes_some in Hsum. subst. cbn. unfold budget. cbn.
  split_and!; [lia..|done|lia].
Qed.

Lemma required_bytes_budget v storage checks s :
  normalize_storage v storage checks = Ok (Some s) → required_bytes s = Ok (budget s).
Proof.
  intros (? & ? & ? & ? & _ & ?)%normalize_storage_some. unfold required_bytes, budget in *.
  assert (Hu : ∀ z, 0 ≤ z ≤ MAX_STORAGE_BYTES → checked_u64 z = Some z).
  { intros z Hz. apply checked_u64_some. split; [done|]. unfold u64, u64_max, MAX_STORAGE_BYTES in *. lia. }
  unfold MIN_RECEIPT_JOURNAL_RESERVE_BYTES in *.
  rewrite Hu by lia. cbn. rewrite Hu by lia. cbn. by rewrite Hu by lia.
Qed.
