(* ===== verification/PlanClaims.v ===== *)
(** The theorems on configurations and plans, with the examples at which their
    hypotheses hold. *)
From S2P Require Import Prelude.
From S2P Require Import RustStr.
From S2P Require Import BTree.
From S2P Require Import Canonical.
From S2P Require Import Config.
From S2P Require Import TopoSort.
From S2P Require Import ConfigProps.
From S2P Require Import PlanProps.
From S2P Require Import Storage.
Local Open Scope Z_scope.

(** * Example *)

Module PlanExample.

(** A printer that keeps the strings of a document and a stand-in for the hash,
    enough to evaluate the pipeline. *)
Fixpoint print (v : Value) : list ascii :=
  match v with
  | Null => bytes "null"
  | Bool b => bytes (if b then "true" else "false")
  | Number z => pad_decimal 20 z
  | Str s => bytes s
  | Array l => "["%char :: concat (List.map print l) ++ ["]"%char]
  | Object l => "{"%char :: concat (List.map (λ kv, bytes kv.1 ++ print kv.2) l) ++ ["}"%char]
  end.

#[global] Instance backend : Backend :=
  {| json_to_vec := λ v, Some (print v); sha256 := λ b, take 32 (b ++ repeat "0"%char 32) |}.

#[global] Instance backend_ok : BackendOk.
Proof.
  intros b. unfold sha256, backend. rewrite length_take, length_app, repeat_length. lia.
Qed.

Definition image : string :=
  "rust@sha256:0123456789abcdef0123456789abcdef0123456789abcdef0123456789abcdef".

Definition check (id : string) (deps artifacts : list string) : CheckConfig :=
  {| ck_id := id; ck_required := true; ck_argv := ["run"; id]; ck_working_directory := ".";
     ck_timeout_seconds := 60; ck_depends_on := deps; ck_artifacts := artifacts;
     ck_artifact_contracts :=
       (λ a, {| ac_path := a; ac_kind := RegularFile; ac_max_bytes := 1024; ac_max_entries := 1 |})
         <$> artifacts |}.

Definition config (checks : list CheckConfig) (caches : list CacheConfig) : ConfigV1 :=
  {| cfg_schema_version := "1.3"; cfg_project := "owner/repository";
     cfg_runtime := {| rc_kind := DockerCompatible; rc_image := image; rc_cpu_count := 2;
                       rc_memory_mib := 512; rc_pids_limit := 64; rc_network := false;
                       rc_pull_policy := Some Never; rc_swap_mode := Some Disabled |};
     cfg_receipt := ReceiptConfig_default;
     cfg_environment :=
       {| ec_allow := []; ec_fixed := [("MODE", "strict")];
          ec_runtime_internal := [{| ri_name := "CARGO_HOME"; ri_cache_id := "cargo" |}];
          ec_remote_secret_only := ["TOKEN"] |};
     cfg_caches := caches;
     cfg_storage := Some {| sc_min_free_bytes := 1000; sc_receipt_journal_reserve_bytes := 4096;
                            sc_max_cache_growth_bytes := 10 |};
     cfg_checks := checks |}.

Definition caches : list CacheConfig :=
  [{| cc_id := "cargo"; cc_mount_path := ".cargo" |}; {| cc_id := "npm"; cc_mount_path := ".npm" |}].

Definition checks : list CheckConfig :=
  [check "test" ["build"; "lint"] []; check "build" [] ["target/app"]; check "lint" [] []].

Definition demo : ConfigV1 := config checks caches.
Definition demo' : ConfigV1 := config (reverse checks) (reverse caches).

Definition get {E T} (r : result E T) (H : is_ok r = true) : T :=
  match r as r return is_ok r = true → T with
  | Ok x => λ _, x
  | Err _ => λ H, match diff_false_true H with end
  end H.

Lemma get_ok {E T} (r : result E T) H : r = Ok (get r H).
Proof. destruct r; [done|discriminate H]. Defined.

Definition demo_plan : ExecutionPlanEnvelopeV1 := get (into_plan demo) eq_refl.

Definition cyclic : list CheckConfig :=
  [check "a" ["b"] []; check "b" ["a"] []; check "c" [] []].
End PlanExample.
Import PlanExample.

(** * Order of the checks *)

(** The checks of a plan are the configured checks, each prepared once, in a
    topological order: every check comes after the checks it depends on, and among
    the checks that could run next the one with the least identifier comes first,
    so the order is determined. *)
Theorem checks_topologically_sorted (checks : list CheckConfig) (l : list NormalizedCheck) :
  normalize_checks checks = Ok l →
  ∃ prepared, Forall2 (λ c p, prepare_check c = Ok p) checks prepared ∧
    l ≡ₚ normalize_check <$> prepared ∧ NoDup (nk_id <$> l) ∧
    dependencies_first l ∧ least_ready_first l.
Proof. apply normalize_checks_sorted. Qed.

Lemma checks_topologically_sorted_witness :
  ∃ prepared, Forall2 (λ c p, prepare_check c = Ok p) checks prepared ∧
    ep_checks (pe_plan demo_plan) ≡ₚ normalize_check <$> prepared ∧
    NoDup (nk_id <$> ep_checks (pe_plan demo_plan)) ∧
    dependencies_first (ep_checks (pe_plan demo_plan)) ∧
    least_ready_first (ep_checks (pe_plan demo_plan)).
Proof. apply (checks_topologically_sorted checks). vm_compute. reflexivity. Defined.

(** A reported dependency cycle is real: it is not empty, every reported
    check depends on a reported check, and no arrangement of the prepared checks
    puts dependencies first. *)
Theorem checks_cycle_rejected (checks : list CheckConfig) (cycle : list string) :
  normalize_checks checks = Err (DependencyCycle cycle) →
  cycle ≠ [] ∧
  (∀ x, x ∈ cycle → ∃ c d, c ∈ checks ∧ ck_id c = x ∧ d ∈ ck_depends_on c ∧ d ∈ cycle) ∧
  ∃ prepared, Forall2 (λ c p, prepare_check c = Ok p) checks prepared ∧
    ∀ l, l ≡ₚ normalize_check <$> prepared → ¬ dependencies_first l.
Proof. apply normalize_checks_cycle_aux. Qed.

Lemma checks_cycle_rejected_witness : ["a"; "b"] ≠ ([] : list string).
Proof. apply (checks_cycle_rejected cyclic ["a"; "b"]). vm_compute. reflexivity. Defined.

(** * The plan *)

(** C37.  Building a plan never panics and its sort never runs out of steps: the
    result is a plan or one of the errors of the source. *)
Theorem into_plan_total `{Backend} (c : ConfigV1) (f : fault) : into_plan c ≠ Err (ConfigFault f).
Proof. apply into_plan_no_fault. Qed.

(** What preparing a check keeps. *)
Lemma prepare_check_keeps c p :
  prepare_check c = Ok p → ck_id p = ck_id c ∧ ck_argv p = ck_argv c ∧ ck_artifact_contracts p = ck_artifact_contracts c.
Proof. unfold prepare_check. intros H. res_inv. by subst p. Qed.

(** A configured check in the plan. *)
Lemma check_in_plan `{Backend} (c : ConfigV1) (e : ExecutionPlanEnvelopeV1) check :
  into_plan c = Ok e → check ∈ cfg_checks c →
  NoDup (nk_id <$> ep_checks (pe_plan e)) ∧
  ∃ k, k ∈ ep_checks (pe_plan e) ∧ nk_id k = ck_id check ∧ nk_argv k = ck_argv check ∧
    na_path <$> nk_artifact_contracts k = ac_path <$> ck_artifact_contracts check.
Proof.
  intros Hplan Hin. pose proof (into_plan_ok _ _ Hplan) as (_ & _ & _ & (l & Hp & Hl & Hnd & _)%normalize_checks_sorted & _).
  split; [done|]. apply list_elem_of_lookup in Hin as [i Hi].
  destruct (Forall2_lookup_l _ _ _ _ _ Hp Hi) as (p & Hpi & (Hid & Ha & Hc)%prepare_check_keeps).
  exists (normalize_check p). split.
  - rewrite Hl. apply list_elem_of_fmap_2. by eapply list_elem_of_lookup_2.
  - cbn. rewrite Hid, Ha, Hc. split_and!; [done..|]. by rewrite <-list_fmap_compose.
Qed.

(** C38.  The plan, its digest included, does not depend on the order in which
    the configuration lists checks, caches, dependencies, artifacts, inherited and
    secret environment names, or cache bindings.  The order of the arguments of a
    check and that of its artifact contracts do count: a configuration that has them
    in another order has another plan. *)
Theorem into_plan_order_independent `{Backend} (c : ConfigV1) (e : ExecutionPlanEnvelopeV1) :
  into_plan c = Ok e →
  (∀ c', reordered c c' → into_plan c' = Ok e) ∧
  ∀ c' e' check check', into_plan c' = Ok e' → check ∈ cfg_checks c → check' ∈ cfg_checks c' → ck_id check' = ck_id check →
    ck_argv check' ≠ ck_argv check ∨
    ac_path <$> ck_artifact_contracts check' ≠ ac_path <$> ck_artifact_contracts check →
    pe_plan e' ≠ pe_plan e.
Proof.
  intros Hplan. split; [intros c' Hc'; by eapply into_plan_reordered|].
  intros c' e' check check' Hplan' Hin Hin' Hid Hne He.
  destruct (check_in_plan _ _ _ Hplan Hin) as (Hnd & k & Hk & Hkid & Hka & Hkc).
  destruct (check_in_plan _ _ _ Hplan' Hin') as (_ & k' & Hk' & Hkid' & Hka' & Hkc'). rewrite He in Hk'.
  assert (k' = k) as ->.
  { apply list_elem_of_lookup in Hk as [i Hi]. apply list_elem_of_lookup in Hk' as [j Hj].
    assert (j = i) as ->; [|congruence]. eapply NoDup_lookup; [exact Hnd|by rewrite list_lookup_fmap, Hj|].
    rewrite list_lookup_fmap, Hi. cbn. congruence. }
  destruct Hne; congruence.
Qed.

(** The example with its first check's artifacts, and their contracts, in two orders. *)
Definition two_contracts (paths : list string) : ConfigV1 :=
  config [{| ck_id := "build"; ck_required := true; ck_argv := ["make"]; ck_working_directory := "."; ck_timeout_seconds := 60;
             ck_depends_on := []; ck_artifacts := ["out/a"; "out/b"];
             ck_artifact_contracts := (λ a, {| ac_path := a; ac_kind := RegularFile; ac_max_bytes := 8; ac_max_entries := 1 |}) <$> paths |}]
    caches.
Lemma into_plan_order_independent_witness :
  into_plan demo' = Ok demo_plan ∧
  ∃ e e', into_plan (two_contracts ["out/a"; "out/b"]) = Ok e ∧ into_plan (two_contracts ["out/b"; "out/a"]) = Ok e' ∧ pe_plan e' ≠ pe_plan e.
Proof.
  split.
  - assert (H : into_plan demo = Ok demo_plan) by exact (get_ok (into_plan demo) eq_refl).
    apply (proj1 (into_plan_order_independent demo demo_plan H)).
    constructor; try reflexivity.
    + exact (Permutation_sym (reverse_Permutation caches)).
    + exists (reverse checks). split; [exact (Permutation_sym (reverse_Permutation checks))|].
      repeat constructor.
  - destruct (into_plan (two_contracts ["out/a"; "out/b"])) as [e|] eqn:H1; [|vm_compute in H1; discriminate H1].
    destruct (into_plan (two_contracts ["out/b"; "out/a"])) as [e'|] eqn:H2; [|vm_compute in H2; discriminate H2].
    exists e, e'. split; [reflexivity|]. split; [reflexivity|].
    refine (proj2 (into_plan_order_independent _ _ H1) _ _ _ _ H2 (list_elem_of_here _ _) (list_elem_of_here _ _) eq_refl (or_intror _)).
    discriminate.
Defined.

(** The locations a plan writes, which are the receipt, the cache mounts and
    the declared artifacts, are pairwise separate: the path segments of none begin
    the path segments of another. *)
Theorem plan_paths_isolated `{Backend} (c : ConfigV1) (e : ExecutionPlanEnvelopeV1) (i j : nat)
    (first second : string) :
  into_plan c = Ok e → i ≠ j →
  plan_locations (pe_plan e) !! i = Some first → plan_locations (pe_plan e) !! j = Some second →
  ¬ contains_path first second.
Proof.
  intros (_ & _ & _ & _ & _ & Hi & _)%into_plan_ok Hij H1 H2.
  apply validate_path_isolation_ok in Hi.
  by apply (ordpairs_lookup disjoint_paths _ i j first second disjoint_sym Hi Hij H1 H2).
Qed.

Lemma plan_paths_isolated_witness : ¬ contains_path ".ccp/receipt.json" "target/app".
Proof.
  apply (plan_paths_isolated demo demo_plan 0 3); [exact (get_ok (into_plan demo) eq_refl)|done|..];
    vm_compute; reflexivity.
Defined.

(** In the environment of a plan every name is bound once and no name that
    is reserved for remote secrets is given to the container; every cache binding
    points below the workspace at the mount of a cache of the plan. *)
Theorem plan_environment_separated `{Backend} (c : ConfigV1) (e : ExecutionPlanEnvelopeV1) :
  into_plan c = Ok e →
  let p := pe_plan e in
  NoDup (environment_names (ep_environment p) ++ ne_remote_secret_only (ep_environment p)) ∧
  ∀ b, b ∈ ne_runtime_internal (ep_environment p) →
  ∃ cache, cache ∈ ep_caches p ∧ nc_id cache = nri_cache_id b ∧
           nri_container_target b = "/workspace/" +:+ nc_mount_path cache.
Proof.
  intros (_ & _ & He & _)%into_plan_ok. split; [by eapply plan_environment_names|].
  intros b. by eapply plan_environment_caches.
Qed.

Lemma plan_environment_separated_witness :
  NoDup (environment_names (ep_environment (pe_plan demo_plan)) ++ ["TOKEN"]).
Proof. exact (proj1 (plan_environment_separated demo demo_plan (get_ok (into_plan demo) eq_refl))). Defined.

(** The storage budget of a plan is within the limit of one tebibyte, counts
    the limit of every declared artifact, and is the number of bytes the preflight
    asks for: the 64-bit sum never overflows, and the preflight fails only when the
    probe fails or fewer bytes are available. *)
Theorem plan_storage_preflight `{Backend} (c : ConfigV1) (e : ExecutionPlanEnvelopeV1)
    (s : NormalizedStorage) (available : string → result StorageError Z) (root : string) :
  into_plan c = Ok e → ep_storage (pe_plan e) = Some s →
  budget s ≤ MAX_STORAGE_BYTES ∧
  ns_max_artifact_bytes s = artifact_budget (ep_checks (pe_plan e)) ∧
  preflight available s root =
    (free ← available root;
     if free <? budget s then Err (Insufficient free (budget s))
     else Ok {| sp_available_bytes := free; sp_required_bytes := budget s |}).
Proof.
  intros (_ & _ & _ & _ & Hs & _ & _)%into_plan_ok Es. rewrite Es in Hs.
  pose proof (required_bytes_budget _ _ _ _ Hs) as Hr.
  apply normalize_storage_some in Hs as (_ & _ & _ & _ & Ha & Hb).
  split_and!; [done..|]. unfold preflight. rewrite Hr. cbn [mbind result_bind].
  destruct (available root) as [free|]; [|done]. cbn. by destruct (free <? budget s).
Qed.

Definition demo_storage : NormalizedStorage :=
  {| ns_min_free_bytes := 1000; ns_receipt_journal_reserve_bytes := 4096;
     ns_max_cache_growth_bytes := 10; ns_max_artifact_bytes := 1024 |}.

Lemma plan_storage_preflight_witness : budget demo_storage ≤ MAX_STORAGE_BYTES.
Proof.
  apply (plan_storage_preflight demo demo_plan demo_storage (λ _, Ok 0) "");
    [exact (get_ok (into_plan demo) eq_refl)|vm_compute; reflexivity].
Defined.

(** The plan digest identifies the plan: two accepted configurations with
    the same digest have the same plan, or two different documents with the same
    SHA-256 are at hand. *)
Theorem plan_digest_binding `{Backend} (c c' : ConfigV1) (e e' : ExecutionPlanEnvelopeV1) :
  into_plan c = Ok e → into_plan c' = Ok e' → pe_plan_digest e = pe_plan_digest e' →
  pe_plan e = pe_plan e' ∨ Collision.
Proof.
  intros (_ & _ & _ & _ & _ & _ & H1)%into_plan_ok (_ & _ & _ & _ & _ & _ & H2)%into_plan_ok Hd.
  rewrite Hd in H1. by apply (canonical_digest_inj _ _ _ H1).
Qed.

Lemma plan_digest_binding_witness : pe_plan demo_plan = pe_plan demo_plan ∨ Collision.
Proof.
  apply (plan_digest_binding demo demo' demo_plan demo_plan);
    [exact (get_ok (into_plan demo) eq_refl)|vm_compute; reflexivity|reflexivity].
Defined.
