(* ===== verification/Receipt.v ===== *)
(** Receipts: the evidence of one run ([src/src/receipt.rs]).

    Both versions of the receipt, the validation of every field with its error,
    and [seal]/[verify] of the digest-sealed envelope.  [RuntimeCapabilityEvidenceV1]
    is the record of [src/src/runtime.rs] that receipts embed.  The canonical
    JSON, the digest and [ReceiptError] are in [Canonical.v]. *)
From S2P Require Import Prelude.
From S2P Require Import RustStr.
From S2P Require Import BTree.
From S2P Require Import Calendar.
From S2P Require Import Canonical.
From S2P Require Import Config.
Local Open Scope Z_scope.

Definition RECEIPT_SCHEMA_VERSION : string := "1.0".
Definition RECEIPT_V2_SCHEMA_VERSION : string := "2.0".
Definition SOURCE_SNAPSHOT_SCHEMA_VERSION : string := "1.0".

(** * Data *)

Record ProducerEvidence : Type := { pr_name : string; pr_version : string }.

Record RepositoryEvidence : Type := {
  rp_repository : string;
  rp_commit_sha : string;
  rp_dirty : bool;
}.

Record RunEvidence : Type := {
  rn_run_id : string;
  rn_generation : Z;
  rn_started_at_utc : string;
  rn_finished_at_utc : string;
}.

Record PlatformEvidence : Type := {
  pl_host_os : string;
  pl_host_arch : string;
  pl_runtime_kind : string;
  pl_runtime_version : string;
  pl_image_reference : string;
  pl_image_digest : string;
}.

Record CheckEvidence : Type := {
  ce_id : string;
  ce_required : bool;
  ce_argv : list string;
  ce_working_directory : string;
  ce_status : EvidenceStatus;
  ce_exit_code : option Z;
  ce_duration_ms : Z;
  ce_timed_out : bool;
  ce_cancelled : bool;
  ce_output_digest : option string;
  ce_incomplete_reason : option string;
}.

Inductive SourceSnapshotStrategy : Type := GitObject | GitArchive | DetachedWorktree.

Record SourceSnapshotEvidence : Type := {
  ss_schema_version : string;
  ss_strategy : SourceSnapshotStrategy;
  ss_manifest_digest : string;
  ss_entry_count : Z;
}.

Record ArtifactEvidence : Type := {
  ae_path : string;
  ae_kind : ArtifactKind;
  ae_producer_check : string;
  ae_entry_count : Z;
  ae_total_bytes : Z;
  ae_manifest_digest : string;
}.

Record RuntimeCapabilityEvidenceV1 : Type := {
  rt_schema_version : string;
  rt_memory_limit_supported : bool;
  rt_swap_limit_supported : bool;
  rt_context_digest : string;
  rt_resolved_image_id : string;
  rt_resolved_image_reference : string;
}.

Record ReceiptV1 : Type := {
  r1_schema_version : string;
  r1_producer : ProducerEvidence;
  r1_repository : RepositoryEvidence;
  r1_run : RunEvidence;
  r1_platform : PlatformEvidence;
  r1_configuration_digest : string;
  r1_checks : list CheckEvidence;
  r1_overall_status : EvidenceStatus;
  r1_incomplete_reason : option string;
  r1_redaction_policy_version : string;
}.

Record ReceiptV2 : Type := {
  r2_schema_version : string;
  r2_producer : ProducerEvidence;
  r2_repository : RepositoryEvidence;
  r2_run : RunEvidence;
  r2_source_snapshot : SourceSnapshotEvidence;
  r2_platform : PlatformEvidence;
  r2_configuration_digest : string;
  r2_execution_plan : ExecutionPlanV1;
  r2_runtime_capability_evidence : option RuntimeCapabilityEvidenceV1;
  r2_artifact_manifest : list ArtifactEvidence;
  r2_checks : list CheckEvidence;
  r2_overall_status : EvidenceStatus;
  r2_incomplete_reason : option string;
  r2_redaction_policy_version : string;
}.

Record ReceiptEnvelopeV1 : Type := { e1_receipt_id : string; e1_receipt : ReceiptV1 }.
Record ReceiptEnvelopeV2 : Type := { e2_receipt_id : string; e2_receipt : ReceiptV2 }.

(** The borrowed view both versions are validated through. *)
Record ReceiptCommon : Type := {
  rc_expected_schema_version : string;
  rc_schema_version : string;
  rc_producer : ProducerEvidence;
  rc_repository : RepositoryEvidence;
  rc_run : RunEvidence;
  rc_platform : PlatformEvidence;
  rc_configuration_digest : string;
  rc_checks : list CheckEvidence;
  rc_overall_status : EvidenceStatus;
  rc_incomplete_reason : option string;
  rc_redaction_policy_version : string;
}.

(** * Serialisation *)

#[global] Instance ProducerEvidence_serialize : Serialize ProducerEvidence := λ p,
  obj [("name", to_value (pr_name p)); ("version", to_value (pr_version p))].
#[global] Instance RepositoryEvidence_serialize : Serialize RepositoryEvidence := λ r,
  obj [("repository", to_value (rp_repository r)); ("commit_sha", to_value (rp_commit_sha r));
       ("dirty", to_value (rp_dirty r))].
#[global] Instance RunEvidence_serialize : Serialize RunEvidence := λ r,
  obj [("run_id", to_value (rn_run_id r)); ("generation", to_value (rn_generation r));
       ("started_at_utc", to_value (rn_started_at_utc r));
       ("finished_at_utc", to_value (rn_finished_at_utc r))].
#[global] Instance PlatformEvidence_serialize : Serialize PlatformEvidence := λ p,
  obj [("host_os", to_value (pl_host_os p)); ("host_arch", to_value (pl_host_arch p));
       ("runtime_kind", to_value (pl_runtime_kind p));
       ("runtime_version", to_value (pl_runtime_version p));
       ("image_reference", to_value (pl_image_reference p));
       ("image_digest", to_value (pl_image_digest p))].
#[global] Instance CheckEvidence_serialize : Serialize CheckEvidence := λ c,
  obj [("id", to_value (ce_id c)); ("required", to_value (ce_required c));
       ("argv", to_value (ce_argv c)); ("working_directory", to_value (ce_working_directory c));
       ("status", to_value (ce_status c)); ("exit_code", to_value (ce_exit_code c));
       ("duration_ms", to_value (ce_duration_ms c)); ("timed_out", to_value (ce_timed_out c));
       ("cancelled", to_value (ce_cancelled c)); ("output_digest", to_value (ce_output_digest c));
       ("incomplete_reason", to_value (ce_incomplete_reason c))].
#[global] Instance SourceSnapshotStrategy_serialize : Serialize SourceSnapshotStrategy := λ s,
  Str match s with
      | GitObject => "git-object" | GitArchive => "git-archive"
      | DetachedWorktree => "detached-worktree"
      end.
#[global] Instance SourceSnapshotEvidence_serialize : Serialize SourceSnapshotEvidence := λ s,
  obj [("schema_version", to_value (ss_schema_version s)); ("strategy", to_value (ss_strategy s));
       ("manifest_digest", to_value (ss_manifest_digest s));
       ("entry_count", to_value (ss_entry_count s))].
#[global] Instance ArtifactEvidence_serialize : Serialize ArtifactEvidence := λ a,
  obj [("path", to_value (ae_path a)); ("kind", to_value (ae_kind a));
       ("producer_check", to_value (ae_producer_check a));
       ("entry_count", to_value (ae_entry_count a)); ("total_bytes", to_value (ae_total_bytes a));
       ("manifest_digest", to_value (ae_manifest_digest a))].
#[global] Instance RuntimeCapabilityEvidenceV1_serialize :
  Serialize RuntimeCapabilityEvidenceV1 := λ r,
  obj [("schema_version", to_value (rt_schema_version r));
       ("memory_limit_supported", to_value (rt_memory_limit_supported r));
       ("swap_limit_supported", to_value (rt_swap_limit_supported r));
       ("context_digest", to_value (rt_context_digest r));
       ("resolved_image_id", to_value (rt_resolved_image_id r));
       ("resolved_image_reference", to_value (rt_resolved_image_reference r))].
#[global] Instance ReceiptV1_serialize : Serialize ReceiptV1 := λ r,
  obj [("schema_version", to_value (r1_schema_version r)); ("producer", to_value (r1_producer r));
       ("repository", to_value (r1_repository r)); ("run", to_value (r1_run r));
       ("platform", to_value (r1_platform r));
       ("configuration_digest", to_value (r1_configuration_digest r));
       ("checks", to_value (r1_checks r)); ("overall_status", to_value (r1_overall_status r));
       ("incomplete_reason", to_value (r1_incomplete_reason r));
       ("redaction_policy_version", to_value (r1_redaction_policy_version r))].
#[global] Instance ReceiptV2_serialize : Serialize ReceiptV2 := λ r,
  obj ([("schema_version", to_value (r2_schema_version r)); ("producer", to_value (r2_producer r));
        ("repository", to_value (r2_repository r)); ("run", to_value (r2_run r));
        ("source_snapshot", to_value (r2_source_snapshot r));
        ("platform", to_value (r2_platform r));
        ("configuration_digest", to_value (r2_configuration_digest r));
        ("execution_plan", to_value (r2_execution_plan r))]
       ++ opt_field "runtime_capability_evidence" (r2_runtime_capability_evidence r)
       ++ list_field "artifact_manifest" (r2_artifact_manifest r)
       ++ [("checks", to_value (r2_checks r)); ("overall_status", to_value (r2_overall_status r));
           ("incomplete_reason", to_value (r2_incomplete_reason r));
           ("redaction_policy_version", to_value (r2_redaction_policy_version r))]).
#[global] Instance ReceiptEnvelopeV1_serialize : Serialize ReceiptEnvelopeV1 := λ e,
  obj [("receipt_id", to_value (e1_receipt_id e)); ("receipt", to_value (e1_receipt e))].
#[global] Instance ReceiptEnvelopeV2_serialize : Serialize ReceiptEnvelopeV2 := λ e,
  obj [("receipt_id", to_value (e2_receipt_id e)); ("receipt", to_value (e2_receipt e))].

(** * Field validation *)

Module Fields.

Definition require_text (field value : string) : result ReceiptError () :=
  if is_empty (trim value) then Err (EmptyField field)
  else if has_control value then Err (ControlCharacter field)
  else Ok ().

Definition validate_commit_sha (value : string) : result ReceiptError () :=
  ensure (existsb (Z.eqb (len value)) [40; 64] && all_bytes is_lower_hex value)
    (InvalidCommitSha value).

Definition validate_repository_identity (value : string) : result ReceiptError () :=
  _ ← require_text "repository.repository" value;
  let segments := split "/" value in
  let owner := nth 0 segments "" in
  let repository := nth 1 segments "" in
  ensure (negb (is_empty owner) && negb (is_empty repository) && (length segments <=? 2)%nat
          && forallb identifier_char (chars owner) && forallb identifier_char (chars repository))
    InvalidRepositoryIdentity.

Definition validate_sha256 (field value : string) : result ReceiptError () :=
  match strip_prefix RECEIPT_ID_PREFIX value with
  | None => Err (InvalidSha256 field)
  | Some hex => ensure ((len hex =? 64) && all_bytes is_lower_hex hex) (InvalidSha256 field)
  end.

Definition parse_decimal (l : list ascii) : option Z := digits_val 0 l.

Definition divisible_by (value divisor : Z) : bool := value / divisor * divisor =? value.

Definition require_timestamp (field value : string) : result ReceiptError () :=
  _ ← require_text field value;
  let b := bytes value in
  _ ← ensure (separators_ok b) (InvalidTimestamp field);
  year ← ok_or (parse_decimal (slice 0 4 b)) (InvalidTimestamp field);
  month ← ok_or (parse_decimal (slice 5 7 b)) (InvalidTimestamp field);
  day ← ok_or (parse_decimal (slice 8 10 b)) (InvalidTimestamp field);
  hour ← ok_or (parse_decimal (slice 11 13 b)) (InvalidTimestamp field);
  minute ← ok_or (parse_decimal (slice 14 16 b)) (InvalidTimestamp field);
  second ← ok_or (parse_decimal (slice 17 19 b)) (InvalidTimestamp field);
  let leap_year := divisible_by year 4 && (negb (divisible_by year 100) || divisible_by year 400) in
  let days_in_month :=
    match month with
    | 1 | 3 | 5 | 7 | 8 | 10 | 12 => 31
    | 4 | 6 | 9 | 11 => 30
    | 2 => if leap_year then 29 else 28
    | _ => 0
    end in
  ensure ((year >? 0) && in_range 1 days_in_month day && (hour <=? 23) && (minute <=? 59)
          && (second <=? 59))
    (InvalidTimestamp field).

Definition validate_relative_path (field value : string) : result ReceiptError () :=
  _ ← require_text field value;
  let is_safe := (value =? ".")%string
    || (negb (starts_with "/" value) && negb (starts_with "~" value)
        && negb (contains_char "\" value) && negb (contains_char ":" value)
        && forallb (λ segment, negb (is_empty segment) && negb (segment =? ".")%string
                               && negb (segment =? "..")%string) (split "/" value)) in
  ensure is_safe (UnsafePath field).

Definition incomplete (status : EvidenceStatus) : bool :=
  match status with Pending | NotRun => true | _ => false end.

Definition validate_incomplete_reason (field : string) (status : EvidenceStatus)
    (reason : option string) : result ReceiptError () :=
  match incomplete status, trim <$> reason with
  | true, None => Err (MissingIncompleteReason field)
  | true, Some r => if is_empty r then Err (MissingIncompleteReason field) else Ok ()
  | false, Some r => if is_empty r then Ok () else Err (UnexpectedIncompleteReason field)
  | false, None => Ok ()
  end.

Definition derive_overall_status (statuses : list EvidenceStatus) : EvidenceStatus :=
  if existsb (λ s, bool_decide (s = Fail)) statuses then Fail
  else if existsb incomplete statuses then Pending
  else Pass.
End Fields.
Import Fields.

(** * Validation *)

Definition CheckEvidence_validate (c : CheckEvidence) : result ReceiptError () :=
  _ ← require_text "check.id" (ce_id c);
  _ ← ensure (negb ((length (ce_argv c) =? 0)%nat || existsb is_empty (ce_argv c)))
        (InvalidCommand (ce_id c));
  _ ← validate_relative_path "check.working_directory" (ce_working_directory c);
  _ ← validate_incomplete_reason "check.incomplete_reason" (ce_status c) (ce_incomplete_reason c);
  _ ← match ce_status c with
      | Pass =>
        ensure (negb (negb (bool_decide (ce_exit_code c = Some 0)) || ce_timed_out c
                      || ce_cancelled c)) (InvalidCheckResult (ce_id c))
      | Fail =>
        ensure (negb (match ce_exit_code c with None => true | Some z => z =? 0 end
                      && negb (ce_timed_out c) && negb (ce_cancelled c)))
          (InvalidCheckResult (ce_id c))
      | Pending | NotRun =>
        ensure (negb (is_Some_b (ce_exit_code c) || negb (ce_duration_ms c =? 0)
                      || ce_timed_out c || ce_cancelled c || is_Some_b (ce_output_digest c)))
          (InvalidCheckResult (ce_id c))
      end;
  match ce_output_digest c with
  | Some digest => validate_sha256 "check.output_digest" digest
  | None => Ok ()
  end.

(** The loop over the checks: the identifiers seen and the required statuses. *)
Definition evidence_step (st : btset string * list EvidenceStatus) (check : CheckEvidence) :
    result ReceiptError (btset string * list EvidenceStatus) :=
  let '(check_ids, required_statuses) := st in
  _ ← CheckEvidence_validate check;
  let '(fresh, check_ids) := set_insert (ce_id check) check_ids in
  _ ← ensure fresh (DuplicateCheckId (ce_id check));
  Ok (check_ids,
      if ce_required check then required_statuses ++ [ce_status check] else required_statuses).

Definition ReceiptCommon_validate (c : ReceiptCommon) : result ReceiptError () :=
  _ ← ensure (rc_schema_version c =? rc_expected_schema_version c)%string
        (UnsupportedSchemaVersion (rc_schema_version c));
  _ ← require_text "producer.name" (pr_name (rc_producer c));
  _ ← require_text "producer.version" (pr_version (rc_producer c));
  _ ← validate_repository_identity (rp_repository (rc_repository c));
  _ ← validate_commit_sha (rp_commit_sha (rc_repository c));
  _ ← require_text "run.run_id" (rn_run_id (rc_run c));
  _ ← require_timestamp "run.started_at_utc" (rn_started_at_utc (rc_run c));
  _ ← require_timestamp "run.finished_at_utc" (rn_finished_at_utc (rc_run c));
  _ ← ensure (negb (String.ltb (rn_finished_at_utc (rc_run c)) (rn_started_at_utc (rc_run c))))
        InvalidRunWindow;
  _ ← require_text "platform.host_os" (pl_host_os (rc_platform c));
  _ ← require_text "platform.host_arch" (pl_host_arch (rc_platform c));
  _ ← require_text "platform.runtime_kind" (pl_runtime_kind (rc_platform c));
  _ ← require_text "platform.runtime_version" (pl_runtime_version (rc_platform c));
  _ ← require_text "platform.image_reference" (pl_image_reference (rc_platform c));
  _ ← validate_sha256 "platform.image_digest" (pl_image_digest (rc_platform c));
  let image_reference_digest := snd <$> rsplit_once "@" (pl_image_reference (rc_platform c)) in
  _ ← ensure (bool_decide (image_reference_digest = Some (pl_image_digest (rc_platform c))))
        ImageDigestMismatch;
  _ ← validate_sha256 "configuration_digest" (rc_configuration_digest c);
  _ ← require_text "redaction_policy_version" (rc_redaction_policy_version c);
  _ ← ensure (negb (length (rc_checks c) =? 0)%nat) NoChecks;
  '(_, required_statuses) ← try_fold evidence_step ([], []) (rc_checks c);
  _ ← ensure (negb (length required_statuses =? 0)%nat) NoRequiredChecks;
  let expected_status := derive_overall_status required_statuses in
  _ ← ensure (bool_decide (rc_overall_status c = expected_status))
        (OverallStatusMismatch expected_status (rc_overall_status c));
  validate_incomplete_reason "receipt.incomplete_reason" (rc_overall_status c)
    (rc_incomplete_reason c).

Definition common1 (r : ReceiptV1) : ReceiptCommon :=
  {| rc_expected_schema_version := RECEIPT_SCHEMA_VERSION;
     rc_schema_version := r1_schema_version r; rc_producer := r1_producer r;
     rc_repository := r1_repository r; rc_run := r1_run r; rc_platform := r1_platform r;
     rc_configuration_digest := r1_configuration_digest r; rc_checks := r1_checks r;
     rc_overall_status := r1_overall_status r; rc_incomplete_reason := r1_incomplete_reason r;
     rc_redaction_policy_version := r1_redaction_policy_version r |}.

Definition common2 (r : ReceiptV2) : ReceiptCommon :=
  {| rc_expected_schema_version := RECEIPT_V2_SCHEMA_VERSION;
     rc_schema_version := r2_schema_version r; rc_producer := r2_producer r;
     rc_repository := r2_repository r; rc_run := r2_run r; rc_platform := r2_platform r;
     rc_configuration_digest := r2_configuration_digest r; rc_checks := r2_checks r;
     rc_overall_status := r2_overall_status r; rc_incomplete_reason := r2_incomplete_reason r;
     rc_redaction_policy_version := r2_redaction_policy_version r |}.

Definition ReceiptV1_validate (r : ReceiptV1) : result ReceiptError () :=
  ReceiptCommon_validate (common1 r).

Definition SourceSnapshotEvidence_validate (s : SourceSnapshotEvidence) : result ReceiptError () :=
  _ ← ensure (ss_schema_version s =? SOURCE_SNAPSHOT_SCHEMA_VERSION)%string
        (UnsupportedSourceSnapshotSchemaVersion (ss_schema_version s));
  _ ← require_text "source_snapshot.manifest_digest" (ss_manifest_digest s);
  _ ← validate_sha256 "source_snapshot.manifest_digest" (ss_manifest_digest s);
  ensure (negb (ss_entry_count s =? 0)) (InvalidSourceSnapshotEntryCount (ss_entry_count s)).

Definition validate_runtime_capability_evidence (r : ReceiptV2) : result ReceiptError () :=
  let runtime := ep_runtime (r2_execution_plan r) in
  if (ep_schema_version (r2_execution_plan r) =? "1.3")%string then
    _ ← ensure (negb (bool_decide (nr_pull_policy runtime ≠ Some Never)
                      || bool_decide (nr_swap_mode runtime ≠ Some Disabled)))
          RuntimeCapabilityEvidenceMismatch;
    evidence ← ok_or (r2_runtime_capability_evidence r) MissingRuntimeCapabilityEvidence;
    _ ← ensure ((rt_schema_version evidence =? "1.0")%string && rt_memory_limit_supported evidence
                && rt_swap_limit_supported evidence)
          (InvalidRuntimeCapabilityEvidence "schema_version or capability booleans");
    _ ← map_err (λ _, InvalidRuntimeCapabilityEvidence "context_digest")
          (validate_sha256 "runtime_capability.context_digest" (rt_context_digest evidence));
    _ ← map_err (λ _, InvalidRuntimeCapabilityEvidence "resolved_image_id")
          (validate_sha256 "runtime_capability.resolved_image_id" (rt_resolved_image_id evidence));
    _ ← require_text "runtime_capability.resolved_image_reference"
          (rt_resolved_image_reference evidence);
    ensure (rt_resolved_image_reference evidence =? nr_image runtime)%string
      RuntimeCapabilityEvidenceMismatch
  else
    ensure (negb (is_Some_b (r2_runtime_capability_evidence r)))
      UnexpectedRuntimeCapabilityEvidence.

(** [expected]: the planned contracts by path, a later one replacing an earlier
    one with the same path. *)
Definition expected_artifacts (plan : ExecutionPlanV1) : btmap string NormalizedArtifactContract :=
  map_from_list ((λ a, (na_path a, a)) <$> (ep_checks plan ≫= nk_artifact_contracts)).

Definition artifact_step (expected : btmap string NormalizedArtifactContract)
    (observed : btset string) (artifact : ArtifactEvidence) : result ReceiptError (btset string) :=
  let '(fresh, observed) := set_insert (ae_path artifact) observed in
  _ ← ensure fresh (DuplicateArtifactEvidence (ae_path artifact));
  planned ← ok_or (map_get (ae_path artifact) expected) (ArtifactManifestMismatch (ae_path artifact));
  _ ← ensure (negb (negb (bool_decide (ae_kind artifact = na_kind planned))
                    || negb (ae_producer_check artifact =? na_producer_check planned)%string
                    || (bool_decide (ae_kind artifact = RegularFile)
                        && negb (ae_entry_count artifact =? 1))
                    || (ae_entry_count artifact >? na_max_entries planned)
                    || (ae_total_bytes artifact >? na_max_bytes planned)))
        (ArtifactManifestMismatch (ae_path artifact));
  _ ← validate_sha256 "artifact.manifest_digest" (ae_manifest_digest artifact);
  Ok observed.

Definition validate_artifact_manifest (r : ReceiptV2) : result ReceiptError () :=
  let expected := expected_artifacts (r2_execution_plan r) in
  observed ← try_fold (artifact_step expected) [] (r2_artifact_manifest r);
  ensure (negb (negb (length observed =? length expected)%nat
                || existsb (λ path, negb (set_contains path observed)) (map_keys expected)))
    (ArtifactManifestMismatch "artifact set").

(** The loop over the planned checks: [find] by identifier and the comparison of
    the command. *)
Definition planned_step (checks : list CheckEvidence) (planned : NormalizedCheck) :
    result ReceiptError () :=
  evidence ← ok_or (List.find (λ evidence, ce_id evidence =? nk_id planned)%string checks)
    (ExecutionPlanCheckMismatch (nk_id planned));
  ensure (negb (negb (Bool.eqb (ce_required evidence) (nk_required planned))
                || negb (bool_decide (ce_argv evidence = nk_argv planned))
                || negb (ce_working_directory evidence =? nk_working_directory planned)%string))
    (ExecutionPlanCheckMismatch (nk_id planned)).

Section Seal.
Context `{Backend}.

Definition ReceiptV2_validate (r : ReceiptV2) : result ReceiptError () :=
  _ ← ReceiptCommon_validate (common2 r);
  _ ← SourceSnapshotEvidence_validate (r2_source_snapshot r);
  expected_plan_digest ← canonical_digest (r2_execution_plan r);
  _ ← ensure (r2_configuration_digest r =? expected_plan_digest)%string
        (ExecutionPlanDigestMismatch expected_plan_digest (r2_configuration_digest r));
  _ ← validate_runtime_capability_evidence r;
  _ ← ensure (length (ep_checks (r2_execution_plan r)) =? length (r2_checks r))%nat
        (ExecutionPlanCheckMismatch "check set");
  _ ← try_each (planned_step (r2_checks r)) (ep_checks (r2_execution_plan r));
  validate_artifact_manifest r.

Definition seal1 (receipt : ReceiptV1) : result ReceiptError ReceiptEnvelopeV1 :=
  _ ← ReceiptV1_validate receipt;
  receipt_id ← canonical_digest receipt;
  Ok {| e1_receipt_id := receipt_id; e1_receipt := receipt |}.

Definition verify1 (e : ReceiptEnvelopeV1) : result ReceiptError () :=
  _ ← ReceiptV1_validate (e1_receipt e);
  expected ← canonical_digest (e1_receipt e);
  ensure (e1_receipt_id e =? expected)%string (DigestMismatch expected (e1_receipt_id e)).

Definition canonical_bytes1 (e : ReceiptEnvelopeV1) : result ReceiptError (list ascii) :=
  _ ← verify1 e; canonical_json e.

Definition seal2 (receipt : ReceiptV2) : result ReceiptError ReceiptEnvelopeV2 :=
  _ ← ReceiptV2_validate receipt;
  receipt_id ← canonical_digest receipt;
  Ok {| e2_receipt_id := receipt_id; e2_receipt := receipt |}.

Definition verify2 (e : ReceiptEnvelopeV2) : result ReceiptError () :=
  _ ← ReceiptV2_validate (e2_receipt e);
  expected ← canonical_digest (e2_receipt e);
  ensure (e2_receipt_id e =? expected)%string (DigestMismatch expected (e2_receipt_id e)).

Definition canonical_bytes2 (e : ReceiptEnvelopeV2) : result ReceiptError (list ascii) :=
  _ ← verify2 e; canonical_json e.
End Seal.
