(* ===== verification/ReceiptProps.v ===== *)
(** Properties of receipts ([Receipt.v]): what validation accepts, field by
    field, and that the lemmas of the canonical digest apply to them. *)
From S2P Require Import Prelude.
From S2P Require Import RustStr.
From S2P Require Import BTree.
From S2P Require Import Calendar.
From S2P Require Import Canonical.
From S2P Require Import Config.
From S2P Require Import Receipt.
Import Fields.
Local Open Scope Z_scope.

(** * Serialisation determines the receipt *)

#[global] Instance ProducerEvidence_sorted : SerializeSorted ProducerEvidence.
Proof. ser_sorted ProducerEvidence_serialize. Qed.
#[global] Instance ProducerEvidence_inj : SerializeInj ProducerEvidence.
Proof. ser_inj ProducerEvidence_serialize. Qed.
#[global] Instance RepositoryEvidence_sorted : SerializeSorted RepositoryEvidence.
Proof. ser_sorted RepositoryEvidence_serialize. Qed.
#[global] Instance RepositoryEvidence_inj : SerializeInj RepositoryEvidence.
Proof. ser_inj RepositoryEvidence_serialize. Qed.
#[global] Instance RunEvidence_sorted : SerializeSorted RunEvidence.
Proof. ser_sorted RunEvidence_serialize. Qed.
#[global] Instance RunEvidence_inj : SerializeInj RunEvidence.
Proof. ser_inj RunEvidence_serialize. Qed.
#[global] Instance PlatformEvidence_sorted : SerializeSorted PlatformEvidence.
Proof. ser_sorted PlatformEvidence_serialize. Qed.
#[global] Instance PlatformEvidence_inj : SerializeInj PlatformEvidence.
Proof. ser_inj PlatformEvidence_serialize. Qed.
#[global] Instance CheckEvidence_sorted : SerializeSorted CheckEvidence.
Proof. ser_sorted CheckEvidence_serialize. Qed.
#[global] Instance CheckEvidence_inj : SerializeInj CheckEvidence.
Proof. ser_inj CheckEvidence_serialize. Qed.
#[global] Instance SourceSnapshotStrategy_sorted : SerializeSorted SourceSnapshotStrategy.
Proof. constructor. Qed.
#[global] Instance SourceSnapshotStrategy_inj : SerializeInj SourceSnapshotStrategy.
Proof. by intros [] []. Qed.
#[global] Instance SourceSnapshotEvidence_sorted : SerializeSorted SourceSnapshotEvidence.
Proof. ser_sorted SourceSnapshotEvidence_serialize. Qed.
#[global] Instance SourceSnapshotEvidence_inj : SerializeInj SourceSnapshotEvidence.
Proof. ser_inj SourceSnapshotEvidence_serialize. Qed.
#[global] Instance ArtifactEvidence_sorted : SerializeSorted ArtifactEvidence.
Proof. ser_sorted ArtifactEvidence_serialize. Qed.
#[global] Instance ArtifactEvidence_inj : SerializeInj ArtifactEvidence.
Proof. ser_inj ArtifactEvidence_serialize. Qed.
#[global] Instance RuntimeCapabilityEvidenceV1_sorted : SerializeSorted RuntimeCapabilityEvidenceV1.
Proof. ser_sorted RuntimeCapabilityEvidenceV1_serialize. Qed.
#[global] Instance RuntimeCapabilityEvidenceV1_inj : SerializeInj RuntimeCapabilityEvidenceV1.
Proof. ser_inj RuntimeCapabilityEvidenceV1_serialize. Qed.
#[global] Instance ReceiptV1_sorted : SerializeSorted ReceiptV1.
Proof. ser_sorted ReceiptV1_serialize. Qed.
#[global] Instance ReceiptV1_inj : SerializeInj ReceiptV1.
Proof. ser_inj ReceiptV1_serialize. Qed.
#[global] Instance ReceiptV2_sorted : SerializeSorted ReceiptV2.
Proof. ser_sorted ReceiptV2_serialize. Qed.
#[global] Instance ReceiptV2_inj : SerializeInj ReceiptV2.
Proof. ser_inj ReceiptV2_serialize. Qed.

(** * Timestamps *)

Lemma timestamp_graphic year month day hour minute second :
  graphic (str (timestamp year month day hour minute second)).
Proof.
  unfold graphic. rewrite bytes_str. unfold timestamp.
  assert (Hp : ∀ w n, Forall (λ a, 33 ≤ code a ≤ 126) (pad_decimal w n))
    by (intros w n; eapply Forall_impl; [apply pad_decimal_codes|]; cbn; lia).
  repeat first [apply Forall_nil_2 | apply Forall_cons; split; [by vm_compute|]
               | apply Forall_app; split; [apply Hp|]].
Qed.

Lemma require_text_graphic f s : graphic s → s ≠ "" → require_text f s = Ok ().
Proof.
  intros Hg Hne. unfold require_text. rewrite graphic_trim, graphic_no_control by done.
  unfold is_empty. by rewrite (proj2 (String.eqb_neq _ _) Hne).
Qed.

Lemma divisible_by_rem y d : 0 ≤ y → 0 < d → divisible_by y d = (Z.rem y d =? 0).
Proof.
  intros Hy Hd. unfold divisible_by. rewrite Z.rem_mod_nonneg by lia.
  pose proof (Z.div_mod y d). apply Bool.eq_iff_eq_true. rewrite !Z.eqb_eq. nia.
Qed.

(** The receipt's reader of timestamps accepts what the verifier's reader
    accepts. *)
Lemma require_timestamp_spec field value :
  require_timestamp field value = Ok () ↔ is_Some (parse_utc_seconds value).
Proof.
  split.
  - unfold require_timestamp. intros H. res_inv. bool_prop.
    repeat match goal with E : parse_decimal _ = _ |- _ => revert E end.
    intros E1 E2 E3 E4 E5 E6.
    rename select (separators_ok _ = true) into Hs.
    destruct (decimals_timestamp _ _ _ _ _ _ _ Hs E1 E2 E3 E4 E5 E6) as (-> & ? & ? & ? & ? & ? & ?).
    rename select (in_range _ _ _ = true) into Hd. apply in_range_spec in Hd.
    rewrite !divisible_by_rem in Hd by lia. eexists. apply parse_timestamp.
    unfold civil_ok. split; [lia|]. split; [exact Hd|lia].
  - intros [n (y & mo & d & h & mi & sec & -> & Hok & _)%parse_utc_seconds_inv].
    destruct (timestamp_slices y mo d h mi sec) as (Hs & S1 & S2 & S3 & S4 & S5 & S6).
    destruct (civil_ok_bounds _ _ _ _ _ _ Hok) as (B1 & B2 & B3 & B4 & B5 & B6).
    unfold require_timestamp. rewrite bytes_str, Hs, S1, S2, S3, S4, S5, S6.
    unfold parse_decimal. rewrite !digits_val_pad by done.
    rewrite require_text_graphic; [|apply timestamp_graphic|].
    + cbn [mbind result_bind ensure ok_or]. apply ensure_ok. rewrite !divisible_by_rem by lia.
      destruct Hok as (Hy & Hd & Hh & Hm & Hsec).
      rewrite !andb_true_iff, in_range_spec.
      split; [split; [split; [split; [lia|exact Hd]|lia]|lia]|lia].
    + intros E. apply (f_equal bytes) in E. by rewrite bytes_str in E.
Qed.

(** * Checks and overall status *)

(** A check that ran to success, and one that counts as failed. *)
Definition succeeded (c : CheckEvidence) : Prop :=
  ce_exit_code c = Some 0 ∧ ce_timed_out c = false ∧ ce_cancelled c = false.
Definition did_fail (c : CheckEvidence) : Prop :=
  (∃ code, ce_exit_code c = Some code ∧ code ≠ 0) ∨ ce_timed_out c = true ∨ ce_cancelled c = true.
Definition did_not_run (c : CheckEvidence) : Prop :=
  ce_exit_code c = None ∧ ce_duration_ms c = 0 ∧ ce_timed_out c = false ∧
  ce_cancelled c = false ∧ ce_output_digest c = None.

(** The recorded status agrees with the recorded outcome. *)
Definition status_consistent (c : CheckEvidence) : Prop :=
  match ce_status c with
  | Pass => succeeded c
  | Fail => did_fail c
  | Pending | NotRun => did_not_run c
  end.

Lemma check_status_consistent c : CheckEvidence_validate c = Ok () → status_consistent c.
Proof.
  unfold CheckEvidence_validate, status_consistent. intros H. res_inv. clear H.
  destruct (ce_status c); res_inv; bool_prop.
  - by repeat split.
  - rename select (_ && _ && _ = false) into Hf. unfold did_fail.
    destruct (ce_timed_out c); [by right; left|]. destruct (ce_cancelled c); [by right; right|].
    left. destruct (ce_exit_code c) as [z|]; cbn in Hf; [|done].
    rewrite !andb_true_r in Hf. bool_prop. eauto.
  - unfold did_not_run. destruct (ce_exit_code c), (ce_output_digest c); done.
  - unfold did_not_run. destruct (ce_exit_code c), (ce_output_digest c); done.
Qed.

Definition required_statuses (checks : list CheckEvidence) : list EvidenceStatus :=
  ce_status <$> filter (λ c, ce_required c = true) checks.

Lemma evidence_loop_ok checks ids statuses :
  try_fold evidence_step ([], []) checks = Ok (ids, statuses) →
  Forall (λ c, CheckEvidence_validate c = Ok ()) checks ∧ NoDup (ce_id <$> checks) ∧
  statuses = required_statuses checks.
Proof.
  intros H.
  apply (try_fold_inv (λ pre st, set_sorted st.1 ∧ (∀ x, x ∈ st.1 ↔ x ∈ ce_id <$> pre) ∧
    Forall (λ c, CheckEvidence_validate c = Ok ()) pre ∧ NoDup (ce_id <$> pre) ∧
    st.2 = required_statuses pre)) in H; [by destruct H as (_ & _ & ? & ? & ?)|..].
  { split_and!; [constructor|set_solver|constructor|constructor|done]. }
  clear. intros pre c [ids st] st' (Hs & He & Hv & Hnd & Hst) H. cbn in *.
  unfold evidence_step in H. res_inv.
  destruct (set_insert (ce_id c) ids) as [fresh ids'] eqn:Ei. res_inv. subst.
  pose proof (set_insert_new (ce_id c) ids Hs) as Hnew.
  pose proof (set_insert_sorted (ce_id c) ids Hs) as Hs'.
  pose proof (elem_of_set_insert (ce_id c)) as Hins. rewrite Ei in *. cbn in *.
  split_and!; [done|..].
  - intros x. specialize (Hins x ids). rewrite Ei in Hins. cbn in Hins.
    rewrite Hins, He, fmap_app. set_solver.
  - apply Forall_app. split; [done|by apply Forall_singleton].
  - rewrite fmap_app. apply NoDup_app. split_and!; [done| |apply NoDup_singleton].
    intros x Hx ->%list_elem_of_singleton. apply Hnew; [done|]. by apply He.
  - unfold required_statuses. rewrite filter_app, fmap_app. cbn.
    destruct (ce_required c); cbn; [done|by rewrite app_nil_r].
Qed.

Lemma existsb_elem {A} (f : A → bool) l : existsb f l = true ↔ ∃ x, x ∈ l ∧ f x = true.
Proof. rewrite existsb_exists. by setoid_rewrite list_elem_of_In. Qed.

(** The derived status: any failure fails, otherwise anything incomplete is
    pending, otherwise everything passed. *)
Lemma derive_overall_status_spec l :
  match derive_overall_status l with
  | Fail => Fail ∈ l
  | Pending => (Fail ∉ l) ∧ (Pending ∈ l ∨ NotRun ∈ l)
  | Pass => Forall (.= Pass) l
  | NotRun => False
  end.
Proof.
  unfold derive_overall_status. destruct (existsb _ l) eqn:E1.
  { apply existsb_elem in E1 as (s & Hs & E). bool_prop. by subst. }
  rewrite existsb_false, Forall_forall in E1.
  assert (Hf : Fail ∉ l) by (intros Hin; apply E1 in Hin; bool_prop; done).
  destruct (existsb incomplete l) eqn:E2.
  - apply existsb_elem in E2 as ([] & Hs & E); try done; auto.
  - rewrite existsb_false, Forall_forall in E2. apply Forall_forall. intros [] Hs; try done.
    + by apply E2 in Hs.
    + by apply E2 in Hs.
Qed.

(** What [ReceiptCommon::validate] establishes. *)
Record common_valid (c : ReceiptCommon) : Prop := {
  cv_schema : rc_schema_version c = rc_expected_schema_version c;
  cv_window : ∃ started finished,
    parse_utc_seconds (rn_started_at_utc (rc_run c)) = Some started ∧
    parse_utc_seconds (rn_finished_at_utc (rc_run c)) = Some finished ∧ started ≤ finished;
  cv_image : ∃ name, rsplit_once "@" (pl_image_reference (rc_platform c))
                     = Some (name, pl_image_digest (rc_platform c));
  cv_checks : Forall (λ k, CheckEvidence_validate k = Ok ()) (rc_checks c);
  cv_unique : NoDup (ce_id <$> rc_checks c);
  cv_required : required_statuses (rc_checks c) ≠ [];
  cv_status : rc_overall_status c = derive_overall_status (required_statuses (rc_checks c));
}.

Lemma ltb_timestamps s t a b :
  parse_utc_seconds s = Some a → parse_utc_seconds t = Some b → String.ltb s t = (a <? b).
Proof.
  intros Hs Ht. unfold String.ltb, Z.ltb. by rewrite (timestamp_string_order_aux _ _ _ _ Hs Ht).
Qed.

Lemma ReceiptCommon_validate_ok c : ReceiptCommon_validate c = Ok () → common_valid c.
Proof.
  unfold ReceiptCommon_validate. intros H. res_inv.
  rename select (require_timestamp "run.started_at_utc" _ = _) into Hs.
  rename select (require_timestamp "run.finished_at_utc" _ = _) into Hf.
  apply require_timestamp_spec in Hs as [s Hs], Hf as [f Hf].
  rename select (negb (String.ltb _ _) = true) into Hw.
  rewrite (ltb_timestamps _ _ _ _ Hf Hs) in Hw.
  match goal with p : _ * _ |- _ => destruct p as [ids statuses] end. res_inv.
  rename select (try_fold _ _ _ = _) into Hl. apply evidence_loop_ok in Hl as (Hv & Hnd & ->).
  bool_prop. constructor; try done.
  - exists s, f. by split_and!.
  - rename select (snd <$> _ = _) into Hi. apply fmap_Some in Hi as ([name d] & Hi & Hd).
    cbn in Hd. subst. by exists name.
  - by intros E; rewrite E in *.
Qed.

(** The meaning of a receipt's status. *)
Lemma overall_status_meaning c :
  common_valid c →
  (rc_overall_status c = Pass ↔
   ∀ k, k ∈ rc_checks c → ce_required k = true → ce_status k = Pass ∧ succeeded k) ∧
  (rc_overall_status c = Fail ↔
   ∃ k, k ∈ rc_checks c ∧ ce_required k = true ∧ ce_status k = Fail ∧ did_fail k) ∧
  rc_overall_status c ≠ NotRun ∧ (∃ k, k ∈ rc_checks c ∧ ce_required k = true).
Proof.
  intros [_ _ _ Hv _ Hne ->]. rewrite Forall_forall in Hv.
  pose proof (derive_overall_status_spec (required_statuses (rc_checks c))) as Hd.
  assert (Hin : ∀ s, s ∈ required_statuses (rc_checks c) ↔
                     ∃ k, k ∈ rc_checks c ∧ ce_required k = true ∧ ce_status k = s).
  { intros s. unfold required_statuses. rewrite list_elem_of_fmap.
    setoid_rewrite list_elem_of_filter. naive_solver. }
  assert (Hst : ∀ k, k ∈ rc_checks c → status_consistent k)
    by (intros k Hk; by apply check_status_consistent, Hv).
  assert (Hsome : ∃ k, k ∈ rc_checks c ∧ ce_required k = true).
  { destruct (required_statuses (rc_checks c)) as [|s l]; [done|].
    destruct (proj1 (Hin s)) as (k & ? & ? & _); [by left|eauto]. }
  unfold status_consistent in Hst.
  destruct (derive_overall_status _); split_and!; try done; try split; try done.
  - rewrite Forall_forall in Hd. intros _ k Hk Hr.
    assert (E : ce_status k = Pass) by (apply Hd, Hin; eauto).
    specialize (Hst k Hk). by rewrite E in Hst.
  - intros (k & Hk & Hr & E & _). rewrite Forall_forall in Hd.
    assert (ce_status k = Pass) by (apply Hd, Hin; eauto). congruence.
  - intros Hall. apply Hin in Hd as (k & Hk & Hr & E). destruct (Hall k Hk Hr). congruence.
  - intros _. apply Hin in Hd as (k & Hk & Hr & E). exists k. specialize (Hst k Hk).
    rewrite E in Hst. eauto.
  - intros Hall. destruct Hd as [_ [Hd|Hd]]; apply Hin in Hd as (k & Hk & Hr & E);
      destruct (Hall k Hk Hr); congruence.
  - intros (k & Hk & Hr & E & _). destruct Hd as [Hd _]. destruct Hd. apply Hin. eauto.
Qed.

(** * Sealing *)

Section Seal.
Context `{B : Backend}.

Lemma seal1_verify1 e : verify1 e = Ok () ↔ seal1 (e1_receipt e) = Ok e.
Proof.
  unfold seal1, verify1. destruct e as [id r]; cbn. split; intros H; res_inv.
  - bool_prop. subst. res_step; [done|]. by res_step.
  - subst. res_step; [done|]. res_step; [done|]. apply ensure_ok. by apply String.eqb_eq.
Qed.

Lemma seal2_verify2 e : verify2 e = Ok () ↔ seal2 (e2_receipt e) = Ok e.
Proof.
  unfold seal2, verify2. destruct e as [id r]; cbn. split; intros H; res_inv.
  - bool_prop. subst. res_step; [done|]. by res_step.
  - subst. res_step; [done|]. res_step; [done|]. apply ensure_ok. by apply String.eqb_eq.
Qed.

Lemma verify1_digest e : verify1 e = Ok () → canonical_digest (e1_receipt e) = Ok (e1_receipt_id e).
Proof. unfold verify1. intros H. res_inv. bool_prop. congruence. Qed.
Lemma verify2_digest e : verify2 e = Ok () → canonical_digest (e2_receipt e) = Ok (e2_receipt_id e).
Proof. unfold verify2. intros H. res_inv. bool_prop. congruence. Qed.

Lemma verify1_valid e : verify1 e = Ok () → ReceiptV1_validate (e1_receipt e) = Ok ().
Proof. unfold verify1. intros H. by res_inv. Qed.
Lemma verify2_valid e : verify2 e = Ok () → ReceiptV2_validate (e2_receipt e) = Ok ().
Proof. unfold verify2. intros H. by res_inv. Qed.

(** * The evidence of a version 2 receipt against its plan *)

(** The evidence of a check repeats the planned command. *)
Definition evidence_for (planned : NormalizedCheck) (k : CheckEvidence) : Prop :=
  ce_id k = nk_id planned ∧ ce_required k = nk_required planned ∧ ce_argv k = nk_argv planned ∧
  ce_working_directory k = nk_working_directory planned.

Lemma planned_step_ok checks planned :
  planned_step checks planned = Ok () → ∃ k, k ∈ checks ∧ evidence_for planned k.
Proof.
  unfold planned_step. intros H. res_inv. bool_prop.
  rename select (List.find _ _ = Some _) into Hf. apply find_some in Hf as [Hin He].
  bool_prop. repeat match goal with E : Bool.eqb _ _ = true |- _ => apply Bool.eqb_prop in E end.
  eexists. split; [by apply list_elem_of_In|]. by split_and!.
Qed.

Lemma planned_all_ok checks plan :
  NoDup (nk_id <$> plan) → length plan = length checks → NoDup (ce_id <$> checks) →
  try_each (planned_step checks) plan = Ok () →
  (∀ p, p ∈ plan → ∃ k, k ∈ checks ∧ evidence_for p k) ∧
  (∀ k, k ∈ checks → ∃ p, p ∈ plan ∧ evidence_for p k) ∧
  nk_id <$> plan ≡ₚ ce_id <$> checks.
Proof.
  intros N1 Hlen N2 H. rewrite try_each_ok, Forall_forall in H.
  assert (H1 : ∀ p, p ∈ plan → ∃ k, k ∈ checks ∧ evidence_for p k)
    by (intros p Hp; by apply planned_step_ok, H).
  assert (Hsub : nk_id <$> plan ⊆ ce_id <$> checks).
  { intros x Hx. apply list_elem_of_fmap in Hx as (p & -> & Hp).
    destruct (H1 p Hp) as (k & Hk & Hid & _). rewrite <-Hid. by apply list_elem_of_fmap_2. }
  assert (Hperm : nk_id <$> plan ≡ₚ ce_id <$> checks).
  { apply submseteq_length_Permutation; [by apply NoDup_submseteq|]. rewrite !length_fmap. lia. }
  split_and!; [done| |done]. intros k Hk.
  assert (Hx : ce_id k ∈ nk_id <$> plan) by (rewrite Hperm; by apply list_elem_of_fmap_2).
  apply list_elem_of_fmap in Hx as (p & Hid & Hp). destruct (H1 p Hp) as (k' & Hk' & Hev).
  exists p. split; [done|]. replace k with k'; [done|].
  destruct Hev as (Hid' & _). apply list_elem_of_lookup in Hk as [i Hi], Hk' as [j Hj].
  assert (i = j) as ->; [|congruence].
  eapply NoDup_lookup; [exact N2|rewrite list_lookup_fmap, Hi; done|].
  rewrite list_lookup_fmap, Hj. cbn. congruence.
Qed.
End Seal.

(** ** Artifacts *)

(** Evidence of an artifact that stays within the contract of the plan. *)
Definition artifact_within (c : NormalizedArtifactContract) (a : ArtifactEvidence) : Prop :=
  ae_kind a = na_kind c ∧ ae_producer_check a = na_producer_check c ∧
  (ae_kind a = RegularFile → ae_entry_count a = 1) ∧ ae_entry_count a ≤ na_max_entries c ∧
  ae_total_bytes a ≤ na_max_bytes c.

Definition artifact_ok (expected : btmap string NormalizedArtifactContract) (a : ArtifactEvidence) :
    Prop :=
  (∃ c, map_get (ae_path a) expected = Some c ∧ artifact_within c a) ∧
  validate_sha256 "artifact.manifest_digest" (ae_manifest_digest a) = Ok ().

Lemma artifact_guard c a :
  negb (negb (bool_decide (ae_kind a = na_kind c))
        || negb (ae_producer_check a =? na_producer_check c)%string
        || (bool_decide (ae_kind a = RegularFile) && negb (ae_entry_count a =? 1))
        || (ae_entry_count a >? na_max_entries c) || (ae_total_bytes a >? na_max_bytes c)) = true
  ↔ artifact_within c a.
Proof.
  unfold artifact_within.
  rewrite negb_true_iff, !orb_false_iff, !negb_false_iff, andb_false_iff, negb_false_iff.
  rewrite bool_decide_eq_true, bool_decide_eq_false, String.eqb_eq, Z.eqb_eq, !Z.gtb_ltb, !Z.ltb_ge.
  destruct (decide (ae_kind a = RegularFile)); tauto.
Qed.

Lemma artifact_step_ok expected observed a observed' :
  set_sorted observed →
  artifact_step expected observed a = Ok observed' ↔
  (ae_path a ∉ observed) ∧ artifact_ok expected a ∧ observed' = (set_insert (ae_path a) observed).2.
Proof.
  intros Hs. unfold artifact_step. rewrite fresh_ok by done. unfold artifact_ok. split.
  - intros [Hx H]. res_inv. subst. rename select (negb _ = true) into Hg. apply artifact_guard in Hg.
    split_and!; eauto.
  - intros (Hx & ((c & Hg & Hw) & Hd) & ->). split; [done|].
    res_step; [by apply ok_or_ok|]. res_step; [by apply ensure_ok, artifact_guard|]. by res_step.
Qed.

Lemma artifact_loop_ok expected l observed :
  try_fold (artifact_step expected) [] l = Ok observed ↔
  NoDup (ae_path <$> l) ∧ Forall (artifact_ok expected) l ∧ observed = set_from_list (ae_path <$> l).
Proof.
  revert observed. induction l as [|a l IH] using rev_ind; intros observed.
  { cbn. split; [intros [= <-]; by repeat constructor|by intros (_ & _ & ->)]. }
  rewrite try_fold_app, bind_ok, fmap_app, NoDup_app, Forall_app. cbn [fmap list_fmap].
  rewrite set_from_list_snoc. destruct (set_from_list_spec (ae_path <$> l)) as [Hs He].
  cbn [try_fold]. setoid_rewrite bind_ok. setoid_rewrite IH. split.
  - intros (? & (Hnd & Hv & ->) & ? & (Hx & Ha & ->)%artifact_step_ok & [= <-]); [|done].
    rewrite He in Hx. split_and!; [done| |apply NoDup_singleton|done|by apply Forall_singleton|done].
    by intros x Hin ->%list_elem_of_singleton.
  - intros ((Hnd & Hx & _) & (Hv & [Ha _]%Forall_cons) & ->).
    eexists. split; [done|]. eexists. split; [|done]. apply artifact_step_ok; [done|].
    rewrite He. split_and!; [|done..]. intros Hin. apply (Hx _ Hin). left.
Qed.

(** The manifest lists exactly the planned paths, each once and within its
    contract. *)
Lemma validate_artifact_manifest_ok r :
  let expected := expected_artifacts (r2_execution_plan r) in
  validate_artifact_manifest r = Ok () ↔
  ae_path <$> r2_artifact_manifest r ≡ₚ map_keys expected ∧
  Forall (artifact_ok expected) (r2_artifact_manifest r).
Proof.
  cbn zeta. unfold validate_artifact_manifest. set (expected := expected_artifacts _).
  rewrite bind_ok. setoid_rewrite artifact_loop_ok.
  set (paths := ae_path <$> r2_artifact_manifest r).
  assert (Hk : NoDup (map_keys expected))
    by apply sorted_nodup, (map_from_list_sorted (V := NormalizedArtifactContract)).
  destruct (set_from_list_spec paths) as [Hs He]. split.
  - intros (? & (Hnd & Hv & ->) & Hg%ensure_ok). bool_prop. split; [|done].
    rename select (existsb _ _ = false) into Hall. rewrite existsb_false, Forall_forall in Hall.
    symmetry. apply submseteq_length_Permutation.
    + apply NoDup_submseteq; [done|]. intros x Hx. specialize (Hall x Hx). bool_prop.
      by rewrite <-He, <-set_contains_spec.
    + assert (Hp : set_from_list paths ≡ₚ paths)
        by (apply NoDup_Permutation; [by apply sorted_nodup|done|done]).
      rewrite <-Hp. unfold map_keys. rewrite length_fmap. lia.
  - intros [Hp Hv]. exists (set_from_list paths). assert (Hnd : NoDup paths) by by rewrite Hp.
    split; [done|]. apply ensure_ok.
    assert (Hq : set_from_list paths ≡ₚ map_keys expected).
    { rewrite <-Hp. apply NoDup_Permutation; [by apply sorted_nodup|done|done]. }
    apply negb_true_iff, orb_false_iff. split.
    + apply negb_false_iff, Nat.eqb_eq. rewrite Hq. unfold map_keys. by rewrite length_fmap.
    + apply existsb_false, Forall_forall. intros x Hx. apply negb_false_iff.
      apply set_contains_spec. by rewrite Hq.
Qed.

Lemma artifact_manifest_exact r :
  let contracts := ep_checks (r2_execution_plan r) ≫= nk_artifact_contracts in
  validate_artifact_manifest r = Ok () →
  NoDup (ae_path <$> r2_artifact_manifest r) ∧
  (∀ path, path ∈ ae_path <$> r2_artifact_manifest r ↔ path ∈ na_path <$> contracts) ∧
  (∀ a, a ∈ r2_artifact_manifest r →
     ∃ c, c ∈ contracts ∧ na_path c = ae_path a ∧ artifact_within c a).
Proof.
  cbn zeta. rewrite validate_artifact_manifest_ok. intros [Hp Hv]. split_and!.
  - rewrite Hp. apply sorted_nodup, map_from_list_sorted.
  - intros path. rewrite Hp. unfold expected_artifacts.
    rewrite elem_of_map_keys_from_list, <-list_fmap_compose. done.
  - intros a Ha. rewrite Forall_forall in Hv. destruct (Hv a Ha) as [(c & Hg & Hw) _].
    apply map_from_list_elem, list_elem_of_fmap in Hg as (c' & [= -> ->] & Hc). eauto.
Qed.

(** * Whole receipts *)

Lemma receipt_documents_differ (r1 : ReceiptV1) (r2 : ReceiptV2) : to_value r1 ≠ to_value r2.
Proof.
  unfold to_value at 1 2, ReceiptV1_serialize, ReceiptV2_serialize. intros E.
  destruct r1, r2; cbn in E. ser_split; ser_eval E; apply Object_inj in E;
    repeat (apply entry_inj in E; destruct E as (K & _ & E); try discriminate K; clear K).
Qed.

Section Validate2.
Context `{B : Backend}.

Lemma ReceiptV2_validate_common r : ReceiptV2_validate r = Ok () → common_valid (common2 r).
Proof. unfold ReceiptV2_validate. intros H. res_inv. by apply ReceiptCommon_validate_ok. Qed.

Lemma ReceiptV2_validate_plan r :
  ReceiptV2_validate r = Ok () →
  canonical_digest (r2_execution_plan r) = Ok (r2_configuration_digest r) ∧
  length (ep_checks (r2_execution_plan r)) = length (r2_checks r) ∧
  try_each (planned_step (r2_checks r)) (ep_checks (r2_execution_plan r)) = Ok () ∧
  validate_artifact_manifest r = Ok ().
Proof. unfold ReceiptV2_validate. intros H. res_inv. bool_prop. split_and!; congruence. Qed.
End Validate2.
