(* ===== verification/ReceiptClaims.v ===== *)
(** The theorems on receipts, with the example receipt at which their
    hypotheses hold. *)
From S2P Require Import Prelude.
From S2P Require Import RustStr.
From S2P Require Import BTree.
From S2P Require Import Calendar.
From S2P Require Import Canonical.
From S2P Require Import Config.
From S2P Require Import PlanClaims.
From S2P Require Import Receipt.
From S2P Require Import ReceiptProps.
Import PlanExample.
Import Fields.
Local Open Scope Z_scope.

(** * Example *)

Module ReceiptExample.

Definition sha (c : ascii) : string := "sha256:" +:+ str (repeat c 64).

Definition evidence (k : NormalizedCheck) : CheckEvidence :=
  {| ce_id := nk_id k; ce_required := nk_required k; ce_argv := nk_argv k;
     ce_working_directory := nk_working_directory k; ce_status := Pass; ce_exit_code := Some 0;
     ce_duration_ms := 12; ce_timed_out := false; ce_cancelled := false;
     ce_output_digest := Some (sha "a"); ce_incomplete_reason := None |}.

Definition artifact (c : NormalizedArtifactContract) : ArtifactEvidence :=
  {| ae_path := na_path c; ae_kind := na_kind c; ae_producer_check := na_producer_check c;
     ae_entry_count := 1; ae_total_bytes := 512; ae_manifest_digest := sha "b" |}.

Definition receipt_for (e : ExecutionPlanEnvelopeV1) : ReceiptV2 :=
  let plan := pe_plan e in
  {| r2_schema_version := "2.0";
     r2_producer := {| pr_name := "commit-ci-preflight"; pr_version := "0.1.0" |};
     r2_repository := {| rp_repository := "owner/repository"; rp_dirty := false;
                         rp_commit_sha := "0123456789abcdef0123456789abcdef01234567" |};
     r2_run := {| rn_run_id := "run-1"; rn_generation := 1;
                  rn_started_at_utc := "2026-01-02T03:04:05Z";
                  rn_finished_at_utc := "2026-01-02T03:05:05Z" |};
     r2_source_snapshot := {| ss_schema_version := "1.0"; ss_strategy := GitObject;
                              ss_manifest_digest := sha "c"; ss_entry_count := 3 |};
     r2_platform := {| pl_host_os := "linux"; pl_host_arch := "x86_64";
                       pl_runtime_kind := "docker"; pl_runtime_version := "27.0";
                       pl_image_reference := nr_image (ep_runtime plan);
                       pl_image_digest :=
                         "sha256:0123456789abcdef0123456789abcdef0123456789abcdef0123456789abcdef" |};
     r2_configuration_digest := pe_plan_digest e;
     r2_execution_plan := plan;
     r2_runtime_capability_evidence :=
       Some {| rt_schema_version := "1.0"; rt_memory_limit_supported := true;
               rt_swap_limit_supported := true; rt_context_digest := sha "d";
               rt_resolved_image_id := sha "e";
               rt_resolved_image_reference := nr_image (ep_runtime plan) |};
     r2_artifact_manifest := artifact <$> (ep_checks plan ≫= nk_artifact_contracts);
     r2_checks := evidence <$> ep_checks plan;
     r2_overall_status := Pass; r2_incomplete_reason := None;
     r2_redaction_policy_version := "1" |}.

Definition demo_receipt : ReceiptV2 := receipt_for demo_plan.
Definition demo_envelope : ReceiptEnvelopeV2 := get (seal2 demo_receipt) eq_refl.

Definition demo_receipt1 : ReceiptV1 :=
  {| r1_schema_version := "1.0"; r1_producer := r2_producer demo_receipt;
     r1_repository := r2_repository demo_receipt; r1_run := r2_run demo_receipt;
     r1_platform := r2_platform demo_receipt; r1_configuration_digest := sha "f";
     r1_checks := r2_checks demo_receipt; r1_overall_status := Pass;
     r1_incomplete_reason := None; r1_redaction_policy_version := "1" |}.
Definition demo_envelope1 : ReceiptEnvelopeV1 := get (seal1 demo_receipt1) eq_refl.

Lemma demo_verified1 : verify1 demo_envelope1 = Ok ().
Proof. vm_compute. reflexivity. Defined.
Lemma demo_verified : verify2 demo_envelope = Ok ().
Proof. vm_compute. reflexivity. Defined.

(** A plan that names one check twice, which [into_plan] never builds but a
    receipt may embed. *)
Definition build : NormalizedCheck := normalize_check (check "build" [] []).
Definition extra : NormalizedCheck := normalize_check (check "extra" [] []).
Definition repeated_plan : ExecutionPlanV1 :=
  let p := pe_plan demo_plan in
  {| ep_schema_version := ep_schema_version p; ep_project := ep_project p;
     ep_runtime := ep_runtime p; ep_receipt := ep_receipt p; ep_environment := ep_environment p;
     ep_caches := ep_caches p; ep_storage := ep_storage p; ep_checks := [build; build] |}.
Definition repeated_envelope : ExecutionPlanEnvelopeV1 :=
  {| pe_plan_digest := get (canonical_digest repeated_plan) eq_refl; pe_plan := repeated_plan;
     pe_fixed_environment := [] |}.
Definition gap_receipt : ReceiptV2 :=
  let r := receipt_for repeated_envelope in
  {| r2_schema_version := r2_schema_version r; r2_producer := r2_producer r;
     r2_repository := r2_repository r; r2_run := r2_run r;
     r2_source_snapshot := r2_source_snapshot r; r2_platform := r2_platform r;
     r2_configuration_digest := r2_configuration_digest r;
     r2_execution_plan := r2_execution_plan r;
     r2_runtime_capability_evidence := r2_runtime_capability_evidence r;
     r2_artifact_manifest := []; r2_checks := [evidence build; evidence extra];
     r2_overall_status := Pass; r2_incomplete_reason := None;
     r2_redaction_policy_version := "1" |}.
Definition gap_envelope : ReceiptEnvelopeV2 := get (seal2 gap_receipt) eq_refl.
End ReceiptExample.
Import ReceiptExample.

(** * Theorems *)

(** C33.  Sealing and verifying agree for both versions: an envelope verifies
    exactly when it is what sealing its receipt produces. *)
Theorem verify_iff_sealed `{Backend} (e1 : ReceiptEnvelopeV1) (e2 : ReceiptEnvelopeV2) :
  (verify1 e1 = Ok () ↔ seal1 (e1_receipt e1) = Ok e1) ∧
  (verify2 e2 = Ok () ↔ seal2 (e2_receipt e2) = Ok e2).
Proof. split; [apply seal1_verify1|apply seal2_verify2]. Qed.

(** A receipt identifier binds the whole receipt: two verified envelopes
    with the same identifier are equal, or two different documents with the same
    SHA-256 are at hand. *)
Theorem receipt_id_binding `{Backend} (e e' : ReceiptEnvelopeV2) :
  verify2 e = Ok () → verify2 e' = Ok () → e2_receipt_id e = e2_receipt_id e' →
  e = e' ∨ Collision.
Proof.
  intros H1%verify2_digest H2%verify2_digest Hid. rewrite Hid in H1.
  destruct (canonical_digest_inj _ _ _ H1 H2) as [Hr|]; [left|by right].
  destruct e, e'; cbn in *; congruence.
Qed.

Lemma receipt_id_binding_witness : demo_envelope = demo_envelope ∨ Collision.
Proof. exact (receipt_id_binding demo_envelope demo_envelope demo_verified demo_verified eq_refl). Defined.

(**  A version 1 and a version 2 receipt never share an identifier, unless
    two different documents with the same SHA-256 are at hand. *)
Theorem receipt_versions_disjoint `{Backend} (e1 : ReceiptEnvelopeV1) (e2 : ReceiptEnvelopeV2) :
  verify1 e1 = Ok () → verify2 e2 = Ok () → e1_receipt_id e1 ≠ e2_receipt_id e2 ∨ Collision.
Proof.
  intros H1%verify1_digest H2%verify2_digest.
  destruct (String.eqb_spec (e1_receipt_id e1) (e2_receipt_id e2)) as [Hid|]; [right|by left].
  rewrite Hid in H1. destruct (canonical_digest_bind _ _ _ H1 H2) as [Hn|]; [|done].
  rewrite !normalize_json_of_sorted in Hn by apply to_value_sorted.
  by apply receipt_documents_differ in Hn.
Qed.

Lemma receipt_versions_disjoint_witness :
  e1_receipt_id demo_envelope1 ≠ e2_receipt_id demo_envelope ∨ Collision.
Proof. exact (receipt_versions_disjoint demo_envelope1 demo_envelope demo_verified1 demo_verified). Defined.

(** The overall status of a verified receipt means what it says: it is PASS
    exactly when every required check exited with code 0 without timeout or
    cancellation, FAIL exactly when a required check failed, never NOT_RUN, and
    there is at least one required check. *)
Theorem receipt_status_meaning `{Backend} (e : ReceiptEnvelopeV2) :
  verify2 e = Ok () →
  let r := e2_receipt e in
  (r2_overall_status r = Pass ↔
   ∀ k, k ∈ r2_checks r → ce_required k = true → ce_status k = Pass ∧ succeeded k) ∧
  (r2_overall_status r = Fail ↔
   ∃ k, k ∈ r2_checks r ∧ ce_required k = true ∧ ce_status k = Fail ∧ did_fail k) ∧
  r2_overall_status r ≠ NotRun ∧ (∃ k, k ∈ r2_checks r ∧ ce_required k = true).
Proof.
  intros Hv%verify2_valid. apply ReceiptV2_validate_common, overall_status_meaning in Hv. exact Hv.
Qed.

Lemma receipt_status_meaning_witness : r2_overall_status demo_receipt ≠ NotRun.
Proof. exact (proj1 (proj2 (proj2 (receipt_status_meaning demo_envelope demo_verified)))). Defined.

(**  The run window of a verified receipt is chronological: both ends are
    valid UTC timestamps and the run does not finish, in seconds since the epoch,
    before it started, although the code compares the two strings. *)
Theorem receipt_run_window `{Backend} (e : ReceiptEnvelopeV2) :
  verify2 e = Ok () →
  ∃ started finished,
    parse_utc_seconds (rn_started_at_utc (r2_run (e2_receipt e))) = Some started ∧
    parse_utc_seconds (rn_finished_at_utc (r2_run (e2_receipt e))) = Some finished ∧
    started ≤ finished.
Proof. intros Hv%verify2_valid%ReceiptV2_validate_common. apply (cv_window _ Hv). Qed.

Lemma receipt_run_window_witness :
  ∃ started finished,
    parse_utc_seconds "2026-01-02T03:04:05Z" = Some started ∧
    parse_utc_seconds "2026-01-02T03:05:05Z" = Some finished ∧ started ≤ finished.
Proof. exact (receipt_run_window demo_envelope demo_verified). Defined.

(**  The timestamps a receipt accepts are exactly those the verifier can
    read: the two independent readers of the sources agree on every string. *)
Theorem timestamp_readers_agree (field value : string) :
  require_timestamp field value = Ok () ↔ is_Some (parse_utc_seconds value).
Proof. apply require_timestamp_spec. Qed.

(** C34.  The evidence of a verified receipt is the evidence of its plan: when
    the embedded plan names each check once, checks and evidence correspond one to
    one, with the same requirement, command and working directory, and the
    configuration digest is the digest of the embedded plan. *)
Theorem receipt_evidence_matches_plan `{Backend} (e : ReceiptEnvelopeV2) :
  verify2 e = Ok () → NoDup (nk_id <$> ep_checks (r2_execution_plan (e2_receipt e))) →
  let r := e2_receipt e in
  let plan := ep_checks (r2_execution_plan r) in
  canonical_digest (r2_execution_plan r) = Ok (r2_configuration_digest r) ∧
  nk_id <$> plan ≡ₚ ce_id <$> r2_checks r ∧
  (∀ p, p ∈ plan → ∃ k, k ∈ r2_checks r ∧ evidence_for p k) ∧
  (∀ k, k ∈ r2_checks r → ∃ p, p ∈ plan ∧ evidence_for p k).
Proof.
  intros Hv%verify2_valid Hnd. pose proof (cv_unique _ (ReceiptV2_validate_common _ Hv)) as Hu.
  apply ReceiptV2_validate_plan in Hv as (Hd & Hlen & Ht & _).
  destruct (planned_all_ok _ _ Hnd Hlen Hu Ht) as (? & ? & ?). by split_and!.
Qed.

Lemma receipt_evidence_matches_plan_witness :
  canonical_digest (pe_plan demo_plan) = Ok (pe_plan_digest demo_plan).
Proof.
  apply (receipt_evidence_matches_plan demo_envelope demo_verified).
  apply (bool_decide_unpack _). vm_compute. exact I.
Defined.

(** The artifact manifest of a verified receipt is exact: it lists the path
    of every artifact contract of the plan once and nothing else, and every entry
    has the kind and producer of its contract and stays within its limits. *)
Theorem receipt_artifacts_exact `{Backend} (e : ReceiptEnvelopeV2) :
  verify2 e = Ok () →
  let r := e2_receipt e in
  let contracts := ep_checks (r2_execution_plan r) ≫= nk_artifact_contracts in
  NoDup (ae_path <$> r2_artifact_manifest r) ∧
  (∀ path, path ∈ ae_path <$> r2_artifact_manifest r ↔ path ∈ na_path <$> contracts) ∧
  (∀ a, a ∈ r2_artifact_manifest r →
     ∃ c, c ∈ contracts ∧ na_path c = ae_path a ∧ artifact_within c a).
Proof.
  intros Hv%verify2_valid. apply ReceiptV2_validate_plan in Hv as (_ & _ & _ & Ha).
  by apply artifact_manifest_exact.
Qed.

Lemma receipt_artifacts_exact_witness : NoDup (ae_path <$> r2_artifact_manifest demo_receipt).
Proof. exact (proj1 (receipt_artifacts_exact demo_envelope demo_verified)). Defined.

(** The hypothesis of [receipt_evidence_matches_plan] on the plan is needed:
    an embedded plan that plans [build] twice verifies together with evidence for
    [build] and for [extra], a check that was never planned. *)
Theorem repeated_plan_ids_admit_unplanned_evidence :
  ∃ e : ReceiptEnvelopeV2,
    verify2 e = Ok () ∧ ep_checks (r2_execution_plan (e2_receipt e)) = [build; build] ∧
    ce_id <$> r2_checks (e2_receipt e) = ["build"; "extra"].
Proof. exists gap_envelope. vm_compute. split_and!; reflexivity. Qed.
