(* ===== verification/Verify.v ===== *)
(** Verification of receipts against repository policy ([src/src/verify.rs]).

    The policies of versions 1.0 and 1.1 with their validation, the evaluation
    of a receipt document into a report, and the trusted-plan verification that
    compares the receipt's plan with the plan rebuilt from the trusted
    configuration.  Findings are the [Vec] that the source extends in place:
    every function takes the findings so far and returns the longer list.
    [serde_json::from_slice] at the three types the source reads is the argument
    [Parsers].  The matrix policy (version 2) and reading policies from files are
    not part of this file. *)
From stdpp Require Import pretty.
From S2P Require Import Prelude.
From S2P Require Import RustStr.
From S2P Require Import BTree.
From S2P Require Import Calendar.
From S2P Require Import Canonical.
From S2P Require Import Config.
From S2P Require Import Receipt.
Local Open Scope Z_scope.

Definition POLICY_SCHEMA_VERSION : string := "1.0".
Definition TRUSTED_PLAN_POLICY_SCHEMA_VERSION : string := "1.1".
Definition VERIFICATION_REPORT_SCHEMA_VERSION : string := "1.0".
Definition MAX_RECEIPT_BYTES : Z := 4 * 1024 * 1024.
Definition MAX_REQUIRED_CHECKS : Z := 128.
Definition MAX_PLATFORMS : Z := 32.
Definition MAX_FRESHNESS_SECONDS : Z := 31536000.
Definition MAX_PLAN_FINDINGS : nat := 128.

(** * Data *)

Record AcceptedPlatformV1 : Type := {
  ap_host_os : string;
  ap_host_arch : string;
  ap_runtime_kind : string;
}.

Record VerificationPolicyV1 : Type := {
  vp_schema_version : string;
  vp_project : string;
  vp_configuration_digest : string;
  vp_required_checks : list string;
  vp_image_reference : string;
  vp_max_age_seconds : Z;
  vp_platforms : list AcceptedPlatformV1;
}.

Record ProducerContractV1_1 : Type := { pc_name : string; pc_version : string }.

Record VerificationPolicyV1_1 : Type := {
  tp_schema_version : string;
  tp_project : string;
  tp_configuration_digest : string;
  tp_required_checks : list string;
  tp_image_reference : string;
  tp_max_age_seconds : Z;
  tp_platforms : list AcceptedPlatformV1;
  tp_trusted_config : string;
  tp_source_snapshot_strategy : SourceSnapshotStrategy;
  tp_supported_producers : list ProducerContractV1_1;
  tp_revoked_producers : list ProducerContractV1_1;
}.

Inductive PolicyError : Type :=
  | PolicyIo
  | PolicyTooLarge
  | PolicyInvalidUtf8
  | PolicyParse
  | PolicyUnsupportedSchemaVersion
  | PolicyInvalidField (field : string)
  | PolicyDuplicateValue (field : string).

Inductive TrustedPlanError : Type :=
  | PolicyPath
  | TrustedPlanIo
  | UnsafeConfigurationPath
  | TrustedPlanConfig (e : ConfigError).

Inductive VerificationError : Type :=
  | VerificationPolicy (e : PolicyError)
  | PolicyDocument (message : string)
  | TrustedPlan (e : TrustedPlanError)
  | TrustedPolicyPathRequired
  | InvalidExpectedCommit
  | InvalidEvaluationTime
  | VerificationReceipt (e : ReceiptError)
  | Matrix (message : string).

Inductive VerificationStatus : Type := VPass | VFail | VNotRun.
Inductive VerificationDecision : Type := DPass | DFail.
#[global] Instance VerificationStatus_eq_dec : EqDecision VerificationStatus.
Proof. solve_decision. Defined.
#[global] Instance SourceSnapshotStrategy_eq_dec : EqDecision SourceSnapshotStrategy.
Proof. solve_decision. Defined.

Record VerificationFindingV1 : Type := {
  vf_code : string;
  vf_field : string;
  vf_message : string;
}.

Record VerificationReportV1 : Type := {
  vr_schema_version : string;
  vr_assurance_scope : string;
  vr_evaluated_at_utc : string;
  vr_expected_commit : string;
  vr_receipt_id : option string;
  vr_integrity_status : VerificationStatus;
  vr_policy_status : VerificationStatus;
  vr_decision : VerificationDecision;
  vr_findings : list VerificationFindingV1;
}.

Definition exit_code (r : VerificationReportV1) : Z :=
  match vr_decision r with DPass => 0 | DFail => 3 end.

Record ReceiptPolicyView : Type := {
  pv_repository : RepositoryEvidence;
  pv_run : RunEvidence;
  pv_platform : PlatformEvidence;
  pv_configuration_digest : string;
  pv_checks : list CheckEvidence;
  pv_overall_status : EvidenceStatus;
}.

Inductive VerifiedReceipt : Type :=
  | V1 (value : ReceiptEnvelopeV1)
  | V2 (value : ReceiptEnvelopeV2).

Definition receipt_id (r : VerifiedReceipt) : string :=
  match r with V1 value => e1_receipt_id value | V2 value => e2_receipt_id value end.

Definition view (r : VerifiedReceipt) : ReceiptPolicyView :=
  match r with
  | V1 value =>
    let r := e1_receipt value in
    {| pv_repository := r1_repository r; pv_run := r1_run r; pv_platform := r1_platform r;
       pv_configuration_digest := r1_configuration_digest r; pv_checks := r1_checks r;
       pv_overall_status := r1_overall_status r |}
  | V2 value =>
    let r := e2_receipt value in
    {| pv_repository := r2_repository r; pv_run := r2_run r; pv_platform := r2_platform r;
       pv_configuration_digest := r2_configuration_digest r; pv_checks := r2_checks r;
       pv_overall_status := r2_overall_status r |}
  end.

Definition VerifiedReceipt_verify `{Backend} (r : VerifiedReceipt) : result ReceiptError () :=
  match r with V1 value => verify1 value | V2 value => verify2 value end.

(** * Policy validation *)

Module PolicyFields.

Definition valid_name (value : string) : bool :=
  negb (is_empty value)
  && all_bytes (λ b, is_ascii_alphanumeric b || existsb (Ascii.eqb b) ["."; "_"; "-"]%char) value.

Definition validate_name (field value : string) : result PolicyError () :=
  ensure (negb ((len value >? 128) || negb (valid_name value))) (PolicyInvalidField field).

Definition validate_project (value : string) : result PolicyError () :=
  _ ← ensure (negb ((len value >? 255) || has_control value)) (PolicyInvalidField "project");
  let parts := split "/" value in
  let owner := nth 0 parts "" in
  let repository := nth 1 parts "" in
  ensure (negb (is_empty owner || is_empty repository || negb (length parts <=? 2)%nat
                || negb (valid_name owner) || negb (valid_name repository)))
    (PolicyInvalidField "project").

Definition validate_digest (value : string) : result PolicyError () :=
  match strip_prefix "sha256:" value with
  | None => Err (PolicyInvalidField "configuration_digest")
  | Some hex =>
    ensure (negb (negb (len hex =? 64) || negb (all_bytes is_lower_hex hex)))
      (PolicyInvalidField "configuration_digest")
  end.

Definition validate_image_reference (value : string) : result PolicyError () :=
  match rsplit_once "@" value with
  | None => Err (PolicyInvalidField "image_reference")
  | Some (name, digest) =>
    _ ← ensure (negb (is_empty name || contains_char "@" name || has_control name))
          (PolicyInvalidField "image_reference");
    map_err (λ _, PolicyInvalidField "image_reference") (validate_digest digest)
  end.

Definition validate_trusted_config_path (value : string) : result PolicyError () :=
  ensure (negb (is_empty value || (len value >? 255) || starts_with "/" value
                || starts_with "~" value || contains_char "\" value || contains_char ":" value
                || existsb (λ segment, is_empty segment || (segment =? ".")%string
                                       || (segment =? "..")%string) (split "/" value)))
    (PolicyInvalidField "trusted_config").

Definition validate_producer_contract (value : ProducerContractV1_1) : result PolicyError () :=
  _ ← validate_name "producers.name" (pc_name value);
  ensure (negb (is_empty (pc_version value) || (len (pc_version value) >? 128)
                || has_control (pc_version value)))
    (PolicyInvalidField "producers.version").

Definition validate_commit (value : string) : result VerificationError () :=
  ensure (negb (negb (existsb (Z.eqb (len value)) [40; 64]) || negb (all_bytes is_lower_hex value)))
    InvalidExpectedCommit.
End PolicyFields.
Import PolicyFields.

Definition required_check_step (checks : btset string) (check : string) :
    result PolicyError (btset string) :=
  _ ← validate_name "required_checks" check;
  let '(fresh, checks) := set_insert check checks in
  _ ← ensure fresh (PolicyDuplicateValue "required_checks");
  Ok checks.

Definition platform_step (platforms : btset (string * string * string))
    (platform : AcceptedPlatformV1) : result PolicyError (btset (string * string * string)) :=
  _ ← validate_name "platforms.host_os" (ap_host_os platform);
  _ ← validate_name "platforms.host_arch" (ap_host_arch platform);
  _ ← validate_name "platforms.runtime_kind" (ap_runtime_kind platform);
  let '(fresh, platforms) :=
    set_insert (ap_host_os platform, ap_host_arch platform, ap_runtime_kind platform) platforms in
  _ ← ensure fresh (PolicyDuplicateValue "platforms");
  Ok platforms.

Definition PolicyV1_validate (p : VerificationPolicyV1) : result PolicyError () :=
  _ ← ensure (vp_schema_version p =? POLICY_SCHEMA_VERSION)%string PolicyUnsupportedSchemaVersion;
  _ ← validate_project (vp_project p);
  _ ← validate_digest (vp_configuration_digest p);
  _ ← validate_image_reference (vp_image_reference p);
  _ ← ensure (in_range 1 MAX_FRESHNESS_SECONDS (vp_max_age_seconds p))
        (PolicyInvalidField "max_age_seconds");
  _ ← ensure (negb ((length (vp_required_checks p) =? 0)%nat
                    || (Z.of_nat (length (vp_required_checks p)) >? MAX_REQUIRED_CHECKS)))
        (PolicyInvalidField "required_checks");
  _ ← try_fold required_check_step [] (vp_required_checks p);
  _ ← ensure (negb ((length (vp_platforms p) =? 0)%nat
                    || (Z.of_nat (length (vp_platforms p)) >? MAX_PLATFORMS)))
        (PolicyInvalidField "platforms");
  _ ← try_fold platform_step [] (vp_platforms p);
  Ok ().

Definition baseline (p : VerificationPolicyV1_1) : VerificationPolicyV1 :=
  {| vp_schema_version := POLICY_SCHEMA_VERSION; vp_project := tp_project p;
     vp_configuration_digest := tp_configuration_digest p;
     vp_required_checks := tp_required_checks p; vp_image_reference := tp_image_reference p;
     vp_max_age_seconds := tp_max_age_seconds p; vp_platforms := tp_platforms p |}.

Definition contract_key (p : ProducerContractV1_1) : string * string := (pc_name p, pc_version p).

Definition supported_step (supported : btset (string * string)) (producer : ProducerContractV1_1) :
    result PolicyError (btset (string * string)) :=
  _ ← validate_producer_contract producer;
  let '(fresh, supported) := set_insert (contract_key producer) supported in
  _ ← ensure fresh (PolicyDuplicateValue "supported_producers");
  Ok supported.

Definition revoked_step (supported : btset (string * string)) (revoked : btset (string * string))
    (producer : ProducerContractV1_1) : result PolicyError (btset (string * string)) :=
  _ ← validate_producer_contract producer;
  let key := contract_key producer in
  let '(fresh, revoked) := set_insert key revoked in
  _ ← ensure fresh (PolicyDuplicateValue "revoked_producers");
  _ ← ensure (negb (set_contains key supported)) (PolicyDuplicateValue "producer_contracts");
  Ok revoked.

Definition PolicyV1_1_validate (p : VerificationPolicyV1_1) : result PolicyError () :=
  _ ← ensure (tp_schema_version p =? TRUSTED_PLAN_POLICY_SCHEMA_VERSION)%string
        PolicyUnsupportedSchemaVersion;
  _ ← PolicyV1_validate (baseline p);
  _ ← validate_trusted_config_path (tp_trusted_config p);
  _ ← ensure (negb (length (tp_supported_producers p) =? 0)%nat)
        (PolicyInvalidField "supported_producers");
  supported ← try_fold supported_step [] (tp_supported_producers p);
  _ ← try_fold (revoked_step supported) [] (tp_revoked_producers p);
  Ok ().

(** * Findings *)

Definition finding (code field message : string) : VerificationFindingV1 :=
  {| vf_code := code; vf_field := field; vf_message := message |}.

(** [if cond { findings.push(f) }]. *)
Definition push_if (cond : bool) (f : VerificationFindingV1)
    (findings : list VerificationFindingV1) : list VerificationFindingV1 :=
  if cond then findings ++ [f] else findings.

Definition check_equal (actual expected code field message : string)
    (findings : list VerificationFindingV1) : list VerificationFindingV1 :=
  push_if (negb (actual =? expected)%string) (finding code field message) findings.

Definition evaluate_policy (receipt : ReceiptPolicyView) (policy : VerificationPolicyV1)
    (expected_commit : string) (evaluated_at : Z) (findings : list VerificationFindingV1) :
    list VerificationFindingV1 :=
  let findings := check_equal (rp_repository (pv_repository receipt)) (vp_project policy)
    "policy.repository" "repository.repository"
    "receipt project does not match repository policy" findings in
  let findings := check_equal (rp_commit_sha (pv_repository receipt)) expected_commit
    "policy.commit" "repository.commit_sha"
    "receipt commit does not match the externally supplied commit" findings in
  let findings := push_if (rp_dirty (pv_repository receipt))
    (finding "policy.dirty" "repository.dirty" "repository policy requires a clean checkout")
    findings in
  let findings := check_equal (pv_configuration_digest receipt) (vp_configuration_digest policy)
    "policy.configuration" "configuration_digest"
    "receipt configuration digest does not match repository policy" findings in
  let findings := check_equal (pl_image_reference (pv_platform receipt)) (vp_image_reference policy)
    "policy.image" "platform.image_reference"
    "receipt image does not match repository policy" findings in
  let findings := push_if
    (negb (existsb (λ accepted,
             (ap_host_os accepted =? pl_host_os (pv_platform receipt))%string
             && (ap_host_arch accepted =? pl_host_arch (pv_platform receipt))%string
             && (ap_runtime_kind accepted =? pl_runtime_kind (pv_platform receipt))%string)
           (vp_platforms policy)))
    (finding "policy.platform" "platform"
       "receipt platform tuple is not accepted by repository policy") findings in
  let findings := push_if (bool_decide (pv_overall_status receipt ≠ Pass))
    (finding "policy.overall_status" "overall_status"
       "repository policy requires an overall PASS receipt") findings in
  let actual_required :=
    set_from_list (ce_id <$> filter (λ c, ce_required c = true) (pv_checks receipt)) in
  let expected_required := set_from_list (vp_required_checks policy) in
  let findings := push_if (bool_decide (actual_required ≠ expected_required))
    (finding "policy.required_check_set" "checks"
       "required check set does not exactly match repository policy") findings in
  let findings := push_if
    (existsb (λ check, set_contains (ce_id check) expected_required
                       && bool_decide (ce_status check ≠ Pass)) (pv_checks receipt))
    (finding "policy.required_check_result" "checks.status"
       "one or more policy-required checks did not PASS") findings in
  match parse_utc_seconds (rn_finished_at_utc (pv_run receipt)) with
  | Some finished_at =>
    if finished_at >? evaluated_at then
      findings ++ [finding "policy.future_receipt" "run.finished_at_utc"
                     "receipt completion time is later than verification time"]
    else if evaluated_at - finished_at >? vp_max_age_seconds policy then
      findings ++ [finding "policy.stale_receipt" "run.finished_at_utc"
                     "receipt exceeds repository freshness policy"]
    else findings
  | None =>
    findings ++ [finding "policy.invalid_time" "run.finished_at_utc"
                   "receipt completion time cannot be evaluated"]
  end.

(** * Comparison of plans *)

(** [str::replace] of one character by a string. *)
Definition replace (c : ascii) (by_ s : string) : string :=
  str (concat ((λ a, if Ascii.eqb a c then bytes by_ else [a]) <$> bytes s)).

Definition escape_json_pointer (value : string) : string :=
  replace "/" "~1" (replace "~" "~0" value).

Definition push_plan_finding (path : string) (findings : list VerificationFindingV1) :
    list VerificationFindingV1 :=
  push_if (length findings <? MAX_PLAN_FINDINGS)%nat
    (finding "policy.execution_plan.field_mismatch" ("execution_plan" +:+ path)
       "receipt execution-plan field does not match trusted configuration") findings.

(** One turn of the loops of [compare_plan_value] per child: [Some f] compares
    the child, [None] stands for a child that one side does not have. *)
Definition comparison : Type :=
  string → list VerificationFindingV1 → list VerificationFindingV1.

Fixpoint compare_children (children : list (string * option comparison))
    (findings : list VerificationFindingV1) : list VerificationFindingV1 :=
  match children with
  | [] => findings
  | (child_path, child) :: children =>
    let findings := match child with
                    | Some compare => compare child_path findings
                    | None => push_plan_finding child_path findings
                    end in
    if (MAX_PLAN_FINDINGS <=? length findings)%nat then findings
    else compare_children children findings
  end.

Fixpoint compare_plan_value (trusted receipt : Value) (path : string)
    (findings : list VerificationFindingV1) : list VerificationFindingV1 :=
  if (MAX_PLAN_FINDINGS <=? length findings)%nat || Value_eqb trusted receipt then findings else
  match trusted, receipt with
  | Object trusted, Object receipt =>
    let compare := List.map (λ kv, (kv.1, compare_plan_value kv.2)) trusted in
    let keys := set_from_list (map_keys trusted ++ map_keys receipt) in
    compare_children
      ((λ key, (path +:+ "/" +:+ escape_json_pointer key,
                match map_get key compare, map_get key receipt with
                | Some f, Some v => Some (f v)
                | _, _ => None
                end)) <$> keys) findings
  | Array trusted, Array receipt =>
    let compare := List.map compare_plan_value trusted in
    let longest := Nat.max (length trusted) (length receipt) in
    compare_children
      ((λ index, (path +:+ "/" +:+ pretty index,
                  match compare !! index, receipt !! index with
                  | Some f, Some v => Some (f v)
                  | _, _ => None
                  end)) <$> seq 0 longest) findings
  | _, _ => push_plan_finding path findings
  end.

Definition compare_execution_plan (trusted receipt : ExecutionPlanV1)
    (findings : list VerificationFindingV1) : list VerificationFindingV1 :=
  compare_plan_value (to_value trusted) (to_value receipt) "" findings.

(** * Reports *)

(** What [serde_json::from_slice] reads from the bytes of a document. *)
Class Parsers := {
  from_slice_value : list ascii → option Value;
  from_slice_v1 : list ascii → option ReceiptEnvelopeV1;
  from_slice_v2 : list ascii → option ReceiptEnvelopeV2;
}.

Section Documents.
Context `{Backend, Parsers}.

(** The report before the document is looked at, and one that stops with a
    finding on integrity. *)
Definition initial_report (expected_commit evaluated_at_utc : string) : VerificationReportV1 :=
  {| vr_schema_version := VERIFICATION_REPORT_SCHEMA_VERSION;
     vr_assurance_scope := "integrity_and_repository_policy_only";
     vr_evaluated_at_utc := evaluated_at_utc; vr_expected_commit := expected_commit;
     vr_receipt_id := None; vr_integrity_status := VFail; vr_policy_status := VNotRun;
     vr_decision := DFail; vr_findings := [] |}.

Definition with_finding (r : VerificationReportV1) (f : VerificationFindingV1) :
    VerificationReportV1 :=
  {| vr_schema_version := vr_schema_version r; vr_assurance_scope := vr_assurance_scope r;
     vr_evaluated_at_utc := vr_evaluated_at_utc r; vr_expected_commit := vr_expected_commit r;
     vr_receipt_id := vr_receipt_id r; vr_integrity_status := vr_integrity_status r;
     vr_policy_status := vr_policy_status r; vr_decision := vr_decision r;
     vr_findings := vr_findings r ++ [f] |}.

(** The status of the policy and the decision from the findings, as both
    verification functions end. *)
Definition finalize_trusted_plan_report (r : VerificationReportV1) : VerificationReportV1 :=
  let policy_status :=
    if negb (length (vr_findings r) =? 0)%nat then VFail else vr_policy_status r in
  {| vr_schema_version := vr_schema_version r; vr_assurance_scope := vr_assurance_scope r;
     vr_evaluated_at_utc := vr_evaluated_at_utc r; vr_expected_commit := vr_expected_commit r;
     vr_receipt_id := vr_receipt_id r; vr_integrity_status := vr_integrity_status r;
     vr_policy_status := policy_status;
     vr_decision := if bool_decide (vr_integrity_status r = VPass)
                       && bool_decide (policy_status = VPass) then DPass else DFail;
     vr_findings := vr_findings r |}.

Definition integrity_finding (e : ReceiptError) : VerificationFindingV1 :=
  match e with
  | UnsupportedSchemaVersion _ =>
    finding "receipt.unsupported_schema" "receipt" "receipt schema version is unsupported"
  | DigestMismatch _ _ =>
    finding "receipt.digest_mismatch" "receipt"
      "receipt payload does not match its integrity identifier"
  | _ =>
    finding "receipt.semantic_invalid" "receipt" "receipt violates schema semantic invariants"
  end.

Definition parse_failure : VerificationFindingV1 :=
  finding "receipt.parse_or_shape" "receipt" "receipt is not valid strict schema v1 or v2 JSON".

(** From the bytes to an envelope that verified, or the finding that says why
    not. *)
Definition read_envelope (bytes : list ascii) : result VerificationFindingV1 VerifiedReceipt :=
  _ ← ensure (negb (Z.of_nat (length bytes) >? MAX_RECEIPT_BYTES))
        (finding "receipt.too_large" "receipt" "receipt exceeds the bounded verification input size");
  document ← ok_or (from_slice_value bytes) parse_failure;
  schema_version ← ok_or
    (r ← value_get "receipt" document; s ← value_get "schema_version" r; as_str s)
    (finding "receipt.parse_or_shape" "receipt.schema_version"
       "receipt schema version is missing or invalid");
  envelope ←
    (if (schema_version =? "1.0")%string then ok_or (V1 <$> from_slice_v1 bytes) parse_failure
     else if (schema_version =? "2.0")%string then ok_or (V2 <$> from_slice_v2 bytes) parse_failure
     else Err (finding "receipt.unsupported_schema" "receipt.schema_version"
                 "receipt schema version is unsupported"));
  _ ← map_err integrity_finding (VerifiedReceipt_verify envelope);
  Ok envelope.

Definition verify_receipt_document (bytes : list ascii) (policy : VerificationPolicyV1)
    (expected_commit evaluated_at_utc : string) : result VerificationError VerificationReportV1 :=
  _ ← map_err VerificationPolicy (PolicyV1_validate policy);
  _ ← validate_commit expected_commit;
  evaluated_at ← ok_or (parse_utc_seconds evaluated_at_utc) InvalidEvaluationTime;
  let report := initial_report expected_commit evaluated_at_utc in
  match read_envelope bytes with
  | Err f => Ok (with_finding report f)
  | Ok envelope =>
    Ok (finalize_trusted_plan_report
      {| vr_schema_version := vr_schema_version report;
         vr_assurance_scope := vr_assurance_scope report;
         vr_evaluated_at_utc := vr_evaluated_at_utc report;
         vr_expected_commit := vr_expected_commit report;
         vr_receipt_id := Some (receipt_id envelope);
         vr_integrity_status := VPass; vr_policy_status := VPass;
         vr_decision := vr_decision report;
         vr_findings := evaluate_policy (view envelope) policy expected_commit evaluated_at
                          (vr_findings report) |})
  end.

Definition producer_finding (policy : VerificationPolicyV1_1) (producer : string * string)
    (findings : list VerificationFindingV1) : list VerificationFindingV1 :=
  if existsb (λ c, bool_decide (contract_key c = producer)) (tp_revoked_producers policy) then
    findings ++ [finding "policy.producer_revoked" "producer"
                   "receipt producer is explicitly revoked by trusted policy"]
  else push_if (negb (existsb (λ c, bool_decide (contract_key c = producer))
                        (tp_supported_producers policy)))
    (finding "policy.producer_unsupported" "producer"
       "receipt producer is not supported by trusted policy") findings.

Definition with_findings (r : VerificationReportV1) (scope : string)
    (findings : list VerificationFindingV1) : VerificationReportV1 :=
  {| vr_schema_version := vr_schema_version r; vr_assurance_scope := scope;
     vr_evaluated_at_utc := vr_evaluated_at_utc r; vr_expected_commit := vr_expected_commit r;
     vr_receipt_id := vr_receipt_id r; vr_integrity_status := vr_integrity_status r;
     vr_policy_status := vr_policy_status r; vr_decision := vr_decision r;
     vr_findings := findings |}.

Definition verify_trusted_plan_receipt_document (bytes : list ascii)
    (policy : VerificationPolicyV1_1) (trusted_plan : ExecutionPlanEnvelopeV1)
    (expected_commit evaluated_at_utc : string) : result VerificationError VerificationReportV1 :=
  report ← verify_receipt_document bytes (baseline policy) expected_commit evaluated_at_utc;
  let scope := "integrity_and_trusted_plan_policy" in
  if negb (bool_decide (vr_integrity_status report = VPass)) then
    Ok (with_findings report scope (vr_findings report))
  else
  let findings := push_if
    (negb (pe_plan_digest trusted_plan =? tp_configuration_digest policy)%string)
    (finding "policy.trusted_config_digest" "trusted_config"
       "trusted configuration does not reconstruct the policy execution-plan digest")
    (vr_findings report) in
  match from_slice_v2 bytes with
  | None =>
    let findings := findings ++
      [finding "policy.receipt_schema" "receipt.schema_version"
         "trusted-plan policy requires a strict receipt v2"] in
    Ok (finalize_trusted_plan_report (with_findings report scope findings))
  | Some receipt =>
    let findings := compare_execution_plan (pe_plan trusted_plan)
      (r2_execution_plan (e2_receipt receipt)) findings in
    let findings := push_if
      (bool_decide (ss_strategy (r2_source_snapshot (e2_receipt receipt))
                    ≠ tp_source_snapshot_strategy policy))
      (finding "policy.source_snapshot_strategy" "source_snapshot.strategy"
         "receipt source snapshot strategy is not accepted by trusted policy") findings in
    let producer := r2_producer (e2_receipt receipt) in
    let findings := producer_finding policy (pr_name producer, pr_version producer) findings in
    Ok (finalize_trusted_plan_report (with_findings report scope findings))
  end.

Definition receipt_input_failure_report (expected_commit evaluated_at_utc : string) :
    result VerificationError VerificationReportV1 :=
  _ ← validate_commit expected_commit;
  _ ← ok_or (parse_utc_seconds evaluated_at_utc) InvalidEvaluationTime;
  Ok (with_finding (initial_report expected_commit evaluated_at_utc)
        (finding "receipt.read_failed" "receipt"
           "receipt could not be read from the caller-supplied path")).
End Documents.
