(* ===== verification/ComparePlan.v ===== *)
(** Comparison of plans ([compare_plan_value] and [escape_json_pointer] of
    [src/src/verify.rs]): below its limit of findings the comparison is exact,
    every finding names a place where the documents differ, and the escaping of
    keys is invertible. *)
From stdpp Require Import pretty.
From S2P Require Import Prelude.
From S2P Require Import RustStr.
From S2P Require Import BTree.
From S2P Require Import Canonical.
From S2P Require Import Config.
From S2P Require Import TopoSort.
From S2P Require Import Verify.
Local Open Scope nat_scope.

(** * Pointers *)

(** A step into a document and the text [compare_plan_value] prints for it. *)
Inductive pointer_step : Type := Key (k : string) | Index (i : nat).

Definition step_text (s : pointer_step) : string :=
  "/" +:+ match s with Key k => escape_json_pointer k | Index i => pretty i end.

Fixpoint pointer_text (steps : list pointer_step) : string :=
  match steps with [] => "" | s :: steps => step_text s +:+ pointer_text steps end.

(** The value a pointer leads to. *)
Definition step_into (s : pointer_step) (v : Value) : option Value :=
  match s, v with
  | Key k, Object l => map_get k l
  | Index i, Array l => l !! i
  | _, _ => None
  end.
Fixpoint resolve (steps : list pointer_step) (v : Value) : option Value :=
  match steps with [] => Some v | s :: steps => step_into s v ≫= resolve steps end.

(** A finding that names a place below [path] where two documents differ. *)
Definition reports (t r : Value) (path : string) (f : VerificationFindingV1) : Prop :=
  vf_code f = "policy.execution_plan.field_mismatch" ∧
  ∃ steps, vf_field f = "execution_plan" +:+ path +:+ pointer_text steps ∧
           resolve steps t ≠ resolve steps r.

Lemma append_assoc (s t u : string) : (s +:+ t) +:+ u = s +:+ (t +:+ u).
Proof. apply bytes_inj. by rewrite !bytes_append, app_assoc. Qed.
Lemma append_nil_r (s : string) : s +:+ "" = s.
Proof. apply bytes_inj. rewrite bytes_append. apply app_nil_r. Qed.

Lemma reports_child s t r t' r' path f :
  step_into s t = Some t' → step_into s r = Some r' →
  reports t' r' (path +:+ step_text s) f → reports t r path f.
Proof.
  intros Ht Hr (Hc & steps & Hf & Hd). split; [done|]. exists (s :: steps). split.
  - by rewrite Hf, append_assoc.
  - cbn. by rewrite Ht, Hr.
Qed.

(** * One comparison *)

(** [c] appends findings that satisfy [Q], never beyond the limit, and when it
    appends none below the limit, [D] holds. *)
Definition behaves (Q : VerificationFindingV1 → Prop) (D : Prop)
    (c : list VerificationFindingV1 → list VerificationFindingV1) : Prop :=
  ∀ fs, ∃ new, c fs = fs ++ new ∧ Forall Q new ∧
    (length fs ≤ MAX_PLAN_FINDINGS → length fs + length new ≤ MAX_PLAN_FINDINGS) ∧
    (length fs < MAX_PLAN_FINDINGS → new = [] → D).

Lemma behaves_impl (Q Q' : VerificationFindingV1 → Prop) (D D' : Prop) c :
  (∀ f, Q f → Q' f) → (D → D') → behaves Q D c → behaves Q' D' c.
Proof.
  intros HQ HD Hc fs. destruct (Hc fs) as (new & -> & Hq & Hl & Hd). exists new.
  split_and!; [done|by eapply Forall_impl|done|auto].
Qed.

Lemma behaves_id Q (D : Prop) : D → behaves Q D (λ fs, fs).
Proof. intros HD fs. exists []. rewrite app_nil_r. split_and!; [done|constructor|cbn; lia|done]. Qed.

Lemma push_behaves t r path s :
  resolve s t ≠ resolve s r →
  behaves (reports t r path) False (push_plan_finding (path +:+ pointer_text s)).
Proof.
  intros Hd fs. unfold push_plan_finding, push_if.
  destruct (length fs <? MAX_PLAN_FINDINGS) eqn:E; bool_prop.
  - eexists. split; [done|]. split_and!; [|cbn; lia|done].
    apply Forall_singleton. split; [done|]. exists s. by rewrite <-append_assoc.
  - exists []. rewrite app_nil_r. split_and!; [done|constructor|cbn; lia|lia].
Qed.

(** The loop over the children. *)
Definition run_child (child : string * option comparison)
    (fs : list VerificationFindingV1) : list VerificationFindingV1 :=
  match child.2 with
  | Some compare => compare child.1 fs
  | None => push_plan_finding child.1 fs
  end.

Lemma compare_children_behaves {A} Q (f : A → string * option comparison) keys (D : A → Prop) :
  (∀ a, a ∈ keys → behaves Q (D a) (run_child (f a))) →
  behaves Q (∀ a, a ∈ keys → D a) (compare_children (f <$> keys)).
Proof.
  induction keys as [|a keys IH]; intros Hc.
  { apply behaves_id. set_solver. }
  intros fs. destruct (Hc a ltac:(left) fs) as (new & E & Hq & Hl & Hd).
  cbn [fmap list_fmap compare_children]. destruct (f a) as [p c]. unfold run_child in E. cbn in E.
  cbn zeta. rewrite E.
  destruct (MAX_PLAN_FINDINGS <=? length (fs ++ new)) eqn:El; bool_prop; rewrite length_app in El.
  - exists new. split_and!; [done..|]. intros Hlt ->. cbn in El. lia.
  - destruct (IH ltac:(intros c' Hc'; apply Hc; by right) (fs ++ new)) as (more & E' & Hq' & Hl' & Hd').
    rewrite length_app in Hl', Hd'. exists (new ++ more). rewrite E', app_assoc, length_app.
    split_and!; [done|by apply Forall_app|lia|].
    intros Hlt Hnil. apply app_nil in Hnil as [-> ->]. cbn in *.
    intros c' [->|Hin]%elem_of_cons; [by apply Hd|apply Hd'; [lia|done|done]].
Qed.

(** * Documents *)

Definition agree (t r : Value) : Prop := json_sorted t → json_sorted r → t = r.

(** A child reached by [s]: present on both sides and compared, or reported. *)
Lemma child_behaves s t r path (c : option comparison) :
  (∀ t' r', step_into s t = Some t' → step_into s r = Some r' →
     c = Some (λ p, compare_plan_value t' r' p) ∧
     ∀ p, behaves (reports t' r' p) (agree t' r') (compare_plan_value t' r' p)) →
  (step_into s t = None ∨ step_into s r = None → c = None) →
  (step_into s t ≠ None ∨ step_into s r ≠ None) →
  behaves (reports t r path)
    (∃ t' r', step_into s t = Some t' ∧ step_into s r = Some r' ∧ agree t' r')
    (run_child (path +:+ step_text s, c)).
Proof.
  intros Hboth Hnone Hsome. unfold run_child. cbn [fst snd].
  destruct (step_into s t) as [t'|] eqn:Et, (step_into s r) as [r'|] eqn:Er.
  - destruct (Hboth _ _ eq_refl eq_refl) as [-> Hb].
    eapply behaves_impl; [| |exact (Hb _)]; [by intros f; apply reports_child|eauto].
  - rewrite Hnone by auto. rewrite <-(append_nil_r (step_text s)).
    eapply behaves_impl; [done| |apply (push_behaves t r path [s])]; [done|].
    cbn. by rewrite Et, Er.
  - rewrite Hnone by auto. rewrite <-(append_nil_r (step_text s)).
    eapply behaves_impl; [done| |apply (push_behaves t r path [s])]; [done|].
    cbn. by rewrite Et, Er.
  - naive_solver.
Qed.

Lemma guarded_behaves Q (D : Prop) (eq : bool) c :
  (eq = true → D) → (eq = false → behaves Q D c) →
  behaves Q D (λ fs, if (MAX_PLAN_FINDINGS <=? length fs) || eq then fs else c fs).
Proof.
  intros Heq Hc fs. destruct (MAX_PLAN_FINDINGS <=? length fs) eqn:E; bool_prop; cbn.
  - exists []. rewrite app_nil_r. split_and!; [done|constructor|cbn; lia|lia].
  - destruct eq; [apply (behaves_id Q D (Heq eq_refl) fs)|by apply Hc].
Qed.

(** A mismatch reported at the path itself. *)
Lemma here_behaves t r path :
  Value_eqb t r = false → behaves (reports t r path) (agree t r) (push_plan_finding path).
Proof.
  intros Hne. rewrite <-(append_nil_r path) at 2.
  eapply behaves_impl; [done| |apply (push_behaves t r path [])]; [done|].
  cbn. intros [= E]. apply Value_eqb_eq in E. congruence.
Qed.

Lemma object_behaves t r path :
  Forall (λ kv, ∀ r path,
    behaves (reports kv.2 r path) (agree kv.2 r) (compare_plan_value kv.2 r path)) t →
  behaves (reports (Object t) (Object r) path) (agree (Object t) (Object r))
    (compare_children
      ((λ key, (path +:+ "/" +:+ escape_json_pointer key,
                match map_get key (List.map (λ kv, (kv.1, compare_plan_value kv.2)) t),
                      map_get key r with
                | Some f, Some v => Some (f v)
                | _, _ => None
                end)) <$> set_from_list (map_keys t ++ map_keys r))).
Proof.
  intros IH. rewrite Forall_forall in IH.
  assert (Hm : ∀ k, map_get k (List.map (λ kv, (kv.1, compare_plan_value kv.2)) t)
                    = compare_plan_value <$> map_get k t) by apply map_get_fmap.
  assert (Hk : ∀ k, k ∈ set_from_list (map_keys t ++ map_keys r) ↔
                    map_get k t ≠ None ∨ map_get k r ≠ None).
  { intros k. rewrite (proj2 (set_from_list_spec _)), elem_of_app, !map_get_none.
    destruct (decide (k ∈ map_keys t)), (decide (k ∈ map_keys r)); tauto. }
  eapply behaves_impl; [done| |apply (compare_children_behaves _ _ _ (λ k, ∃ t' r',
    map_get k t = Some t' ∧ map_get k r = Some r' ∧ agree t' r'))].
  - intros Hall Hst Hsr. inversion Hst as [| | | | |? St Ft]; inversion Hsr as [| | | | |? Sr Fr]; subst.
    rewrite Forall_forall in Ft, Fr. f_equal. apply map_ext; [done..|]. intros k.
    destruct (decide (k ∈ set_from_list (map_keys t ++ map_keys r))) as [Hin|Hout].
    + destruct (Hall k Hin) as (t' & r' & Et & Er & Ha). rewrite Et, Er. f_equal.
      apply Ha; [apply (Ft (k, t'))|apply (Fr (k, r'))]; by apply map_get_elem.
    + rewrite Hk in Hout. destruct (map_get k t), (map_get k r); naive_solver.
  - intros k Hin. rewrite Hm. apply (child_behaves (Key k) (Object t) (Object r) path); cbn.
    + intros t' r' Et ->. rewrite Et. split; [done|]. intros p.
      apply (IH (k, t')). by apply map_get_in.
    + intros [-> | ->]; [done|]. by destruct (map_get k t).
    + by apply Hk.
Qed.

Lemma array_behaves t r path :
  Forall (λ v, ∀ r path, behaves (reports v r path) (agree v r) (compare_plan_value v r path)) t →
  behaves (reports (Array t) (Array r) path) (agree (Array t) (Array r))
    (compare_children
      ((λ index, (path +:+ "/" +:+ pretty index,
                  match List.map compare_plan_value t !! index, r !! index with
                  | Some f, Some v => Some (f v)
                  | _, _ => None
                  end)) <$> seq 0 (Nat.max (length t) (length r)))).
Proof.
  intros IH. rewrite Forall_forall in IH.
  assert (Hm : ∀ i, List.map compare_plan_value t !! i = compare_plan_value <$> t !! i)
    by (intros i; apply list_lookup_fmap).
  assert (Hk : ∀ i, i ∈ seq 0 (Nat.max (length t) (length r)) ↔ t !! i ≠ None ∨ r !! i ≠ None).
  { intros i. rewrite elem_of_seq, !not_eq_None_Some, !lookup_lt_is_Some. lia. }
  eapply behaves_impl; [done| |apply (compare_children_behaves _ _ _ (λ i, ∃ t' r',
    t !! i = Some t' ∧ r !! i = Some r' ∧ agree t' r'))].
  - intros Hall Hst Hsr. inversion Hst as [| | | |? Ft|]; inversion Hsr as [| | | |? Fr|]; subst.
    rewrite Forall_forall in Ft, Fr. f_equal. apply list_eq. intros i.
    destruct (decide (i ∈ seq 0 (Nat.max (length t) (length r)))) as [Hin|Hout].
    + destruct (Hall i Hin) as (t' & r' & Et & Er & Ha). rewrite Et, Er. f_equal.
      apply Ha; [apply Ft|apply Fr]; by eapply list_elem_of_lookup_2.
    + rewrite Hk in Hout. destruct (t !! i), (r !! i); naive_solver.
  - intros i Hin. rewrite Hm. apply (child_behaves (Index i) (Array t) (Array r) path); cbn.
    + intros t' r' Et ->. rewrite Et. split; [done|]. intros p.
      apply IH. by eapply list_elem_of_lookup_2.
    + intros [-> | ->]; [done|]. by destruct (t !! i).
    + by apply Hk.
Qed.

Lemma compare_plan_value_behaves t : ∀ r path,
  behaves (reports t r path) (agree t r) (compare_plan_value t r path).
Proof.
  induction t as [|b|n|s|t IH|t IH] using Value_rect'; intros r path; cbn [compare_plan_value];
    (apply guarded_behaves; [by intros E ? ?; apply Value_eqb_eq|intros Hne]);
    destruct r; try (by apply here_behaves).
  - by apply array_behaves.
  - by apply object_behaves.
Qed.

(** The comparison as the verifier uses it, on two documents in key order. *)
Lemma compare_plan_value_exact t r path fs :
  json_sorted t → json_sorted r → length fs < MAX_PLAN_FINDINGS →
  compare_plan_value t r path fs = fs ↔ t = r.
Proof.
  intros Ht Hr Hlen. destruct (compare_plan_value_behaves t r path fs) as (new & E & _ & _ & Hd).
  rewrite E. split.
  - intros Hn. apply Hd; [done| |done..]. rewrite <-(app_nil_r fs) in Hn at 2.
    by apply app_inv_head in Hn.
  - intros ->. rewrite <-E. destruct r; cbn [compare_plan_value];
      rewrite (proj2 (Value_eqb_eq _ _) eq_refl), orb_true_r; done.
Qed.

(** * Escaping *)

(** Unescaping of one reference token (RFC 6901): [~1] is a slash and [~0] a
    tilde. *)
Fixpoint unescape_list (l : list ascii) : list ascii :=
  match l with
  | [] => []
  | a :: l' =>
    if Ascii.eqb a "~" then
      match l' with
      | b :: l'' => (if Ascii.eqb b "1" then "/"%char else "~"%char) :: unescape_list l''
      | [] => ["~"%char]
      end
    else a :: unescape_list l'
  end.
Definition unescape_json_pointer (s : string) : string := str (unescape_list (bytes s)).

Definition escape_char (a : ascii) : list ascii :=
  if Ascii.eqb a "~" then ["~"; "0"]%char else if Ascii.eqb a "/" then ["~"; "1"]%char else [a].

(** The two replacements in a row treat each character by itself. *)
Lemma escape_chars s : bytes (escape_json_pointer s) = concat (escape_char <$> bytes s).
Proof.
  unfold escape_json_pointer, replace. rewrite !bytes_str.
  induction (bytes s) as [|a l IH]; [done|]. cbn [fmap list_fmap concat].
  rewrite fmap_app, concat_app, IH. f_equal. unfold escape_char.
  destruct (Ascii.eqb_spec a "~") as [->|]; cbn; [done|]. by destruct (Ascii.eqb a "/").
Qed.

Lemma unescape_escape s : unescape_json_pointer (escape_json_pointer s) = s.
Proof.
  unfold unescape_json_pointer. rewrite escape_chars. apply bytes_inj. rewrite bytes_str.
  induction (bytes s) as [|a l IH]; [done|]. cbn [fmap list_fmap concat]. unfold escape_char at 1.
  destruct (Ascii.eqb_spec a "~") as [->|Ht]; [cbn; by rewrite IH|].
  destruct (Ascii.eqb_spec a "/") as [->|Hs]; [cbn; by rewrite IH|].
  cbn. rewrite (proj2 (Ascii.eqb_neq _ _) Ht). by rewrite IH.
Qed.

Lemma escape_no_slash s : contains_char "/" (escape_json_pointer s) = false.
Proof.
  unfold contains_char. rewrite escape_chars. apply existsb_false.
  induction (bytes s) as [|a l IH]; [constructor|]. cbn [fmap list_fmap concat].
  apply Forall_app. split; [|done]. unfold escape_char.
  destruct (Ascii.eqb_spec a "~") as [->|]; [by repeat constructor|].
  destruct (Ascii.eqb_spec a "/") as [->|Hs]; [by repeat constructor|].
  apply Forall_singleton. apply Ascii.eqb_neq. congruence.
Qed.
