(* ===== verification/VerifyProps.v ===== *)
(** Properties of the verifier ([Verify.v]): the policy a passing report stands
    for, the shape of every report, and what a trusted-plan report adds. *)
From S2P Require Import Prelude.
From S2P Require Import RustStr.
From S2P Require Import BTree.
From S2P Require Import Calendar.
From S2P Require Import Canonical.
From S2P Require Import Config.
From S2P Require Import Receipt.
From S2P Require Import ReceiptProps.
From S2P Require Import Verify.
From S2P Require Import ComparePlan.
Import PolicyFields.
Local Open Scope Z_scope.

(** * The policy *)

(** What repository policy asks of a receipt, without findings. *)
Record policy_accepts (v : ReceiptPolicyView) (p : VerificationPolicyV1) (commit : string)
    (evaluated_at : Z) : Prop := {
  pa_project : rp_repository (pv_repository v) = vp_project p;
  pa_commit : rp_commit_sha (pv_repository v) = commit;
  pa_clean : rp_dirty (pv_repository v) = false;
  pa_configuration : pv_configuration_digest v = vp_configuration_digest p;
  pa_image : pl_image_reference (pv_platform v) = vp_image_reference p;
  pa_platform : ∃ a, a ∈ vp_platforms p ∧ ap_host_os a = pl_host_os (pv_platform v) ∧
    ap_host_arch a = pl_host_arch (pv_platform v) ∧
    ap_runtime_kind a = pl_runtime_kind (pv_platform v);
  pa_overall : pv_overall_status v = Pass;
  pa_required : ∀ id, (∃ k, k ∈ pv_checks v ∧ ce_required k = true ∧ ce_id k = id) ↔
                      id ∈ vp_required_checks p;
  pa_passed : ∀ k, k ∈ pv_checks v → ce_id k ∈ vp_required_checks p → ce_status k = Pass;
  pa_fresh : ∃ finished, parse_utc_seconds (rn_finished_at_utc (pv_run v)) = Some finished ∧
    finished ≤ evaluated_at ≤ finished + vp_max_age_seconds p;
}.

Lemma push_if_nil b f l : push_if b f l = [] ↔ l = [] ∧ b = false.
Proof. unfold push_if. destruct b; [|naive_solver]. destruct l; naive_solver. Qed.

Lemma check_equal_nil a b c f m l : check_equal a b c f m l = [] ↔ l = [] ∧ a = b.
Proof. unfold check_equal. by rewrite push_if_nil, negb_false_iff, String.eqb_eq. Qed.

Lemma snoc_nil {A} (l : list A) x : l ++ [x] = [] ↔ False.
Proof. destruct l; naive_solver. Qed.

Lemma required_set_spec v p :
  set_from_list (ce_id <$> filter (λ c, ce_required c = true) (pv_checks v))
    = set_from_list (vp_required_checks p) ↔
  ∀ id, (∃ k, k ∈ pv_checks v ∧ ce_required k = true ∧ ce_id k = id) ↔ id ∈ vp_required_checks p.
Proof.
  assert (Hl : ∀ id, id ∈ ce_id <$> filter (λ c, ce_required c = true) (pv_checks v) ↔
                     ∃ k, k ∈ pv_checks v ∧ ce_required k = true ∧ ce_id k = id).
  { intros id. rewrite list_elem_of_fmap. setoid_rewrite list_elem_of_filter. naive_solver. }
  destruct (set_from_list_spec (ce_id <$> filter (λ c, ce_required c = true) (pv_checks v)))
    as [S1 E1], (set_from_list_spec (vp_required_checks p)) as [S2 E2].
  split.
  - intros E id. rewrite <-Hl, <-E1, <-E2. by rewrite E.
  - intros E. apply sorted_ext; [done..|]. intros id. by rewrite E1, E2, Hl.
Qed.

(** The test on the results of the required checks. *)
Lemma required_results_spec v p :
  existsb (λ check, set_contains (ce_id check) (set_from_list (vp_required_checks p))
                    && bool_decide (ce_status check ≠ Pass)) (pv_checks v) = false ↔
  ∀ k, k ∈ pv_checks v → ce_id k ∈ vp_required_checks p → ce_status k = Pass.
Proof.
  rewrite existsb_false, Forall_forall. apply forall_proper. intros k.
  rewrite andb_false_iff, bool_decide_eq_false.
  rewrite <-not_true_iff_false, set_contains_spec, (proj2 (set_from_list_spec _)).
  destruct (decide (ce_id k ∈ vp_required_checks p)), (decide (ce_status k = Pass)); tauto.
Qed.

Lemma platform_spec v p :
  existsb (λ accepted, (ap_host_os accepted =? pl_host_os (pv_platform v))%string
             && (ap_host_arch accepted =? pl_host_arch (pv_platform v))%string
             && (ap_runtime_kind accepted =? pl_runtime_kind (pv_platform v))%string)
    (vp_platforms p) = true ↔
  ∃ a, a ∈ vp_platforms p ∧ ap_host_os a = pl_host_os (pv_platform v) ∧
    ap_host_arch a = pl_host_arch (pv_platform v) ∧
    ap_runtime_kind a = pl_runtime_kind (pv_platform v).
Proof.
  rewrite existsb_elem. setoid_rewrite andb_true_iff. setoid_rewrite andb_true_iff.
  setoid_rewrite String.eqb_eq. naive_solver.
Qed.

Lemma freshness_spec at_ max finished (fs : list VerificationFindingV1) f g :
  (if finished >? at_ then fs ++ [f] else if at_ - finished >? max then fs ++ [g] else fs) = [] ↔
  fs = [] ∧ finished ≤ at_ ≤ finished + max.
Proof.
  destruct (finished >? at_) eqn:E1; [rewrite snoc_nil; lia|].
  destruct (at_ - finished >? max) eqn:E2; [rewrite snoc_nil; lia|]. split; [|tauto].
  intros ->. split; [done|lia].
Qed.

Lemma evaluate_policy_accepts v p commit at_ :
  evaluate_policy v p commit at_ [] = [] ↔ policy_accepts v p commit at_.
Proof.
  unfold evaluate_policy. cbv zeta. set (fs := push_if (existsb _ _) _ _).
  assert (Hfs : fs = [] ↔ rp_repository (pv_repository v) = vp_project p ∧
    rp_commit_sha (pv_repository v) = commit ∧ rp_dirty (pv_repository v) = false ∧
    pv_configuration_digest v = vp_configuration_digest p ∧
    pl_image_reference (pv_platform v) = vp_image_reference p ∧
    (∃ a, a ∈ vp_platforms p ∧ ap_host_os a = pl_host_os (pv_platform v) ∧
       ap_host_arch a = pl_host_arch (pv_platform v) ∧
       ap_runtime_kind a = pl_runtime_kind (pv_platform v)) ∧
    pv_overall_status v = Pass ∧
    (∀ id, (∃ k, k ∈ pv_checks v ∧ ce_required k = true ∧ ce_id k = id) ↔
           id ∈ vp_required_checks p) ∧
    (∀ k, k ∈ pv_checks v → ce_id k ∈ vp_required_checks p → ce_status k = Pass)).
  { subst fs. rewrite !push_if_nil, !check_equal_nil, push_if_nil, !check_equal_nil.
    rewrite negb_false_iff, platform_spec, !bool_decide_eq_false, required_results_spec.
    rewrite <-(required_set_spec v p).
    assert (D1 := decide (pv_overall_status v = Pass)).
    match goal with |- context [¬ (?x ≠ set_from_list (vp_required_checks p))] =>
      assert (D2 := decide (x = set_from_list (vp_required_checks p))) end.
    tauto. }
  destruct (parse_utc_seconds _) as [finished|] eqn:Ep.
  - rewrite freshness_spec, Hfs. split.
    + intros [Hall Hf]. destruct_and! Hall. constructor; try done. eauto.
    + intros []. split; [by split_and!|]. naive_solver.
  - rewrite snoc_nil. split; [done|]. intros [? ? ? ? ? ? ? ? ? (? & ? & _)]. congruence.
Qed.

(** * Reports *)

(** How the fields of a report hang together. *)
Record report_consistent (r : VerificationReportV1) : Prop := {
  rw_decision : vr_decision r = DPass ↔ vr_integrity_status r = VPass ∧ vr_policy_status r = VPass;
  rw_findings : vr_decision r = DPass ↔ vr_findings r = [];
  rw_receipt : vr_receipt_id r = None ↔ vr_integrity_status r = VFail;
  rw_policy : vr_policy_status r = VNotRun ↔ vr_integrity_status r = VFail;
  rw_exit : exit_code r = (if bool_decide (vr_findings r = []) then 0 else 3);
}.

Lemma finalize_decision r :
  vr_integrity_status r = VPass → vr_policy_status r = VPass ∨ vr_findings r ≠ [] →
  let r' := finalize_trusted_plan_report r in
  (vr_decision r' = DPass ↔ vr_findings r = []) ∧
  (vr_decision r' = DPass ↔ vr_policy_status r' = VPass) ∧ vr_policy_status r' ≠ VNotRun.
Proof.
  intros Hi Hp. unfold finalize_trusted_plan_report. cbn. rewrite Hi.
  destruct (vr_findings r) as [|f l] eqn:E; cbn; [|naive_solver].
  destruct Hp as [->|]; [|done]. cbn. naive_solver.
Qed.

Lemma finalize_consistent r :
  vr_integrity_status r = VPass → vr_policy_status r = VPass ∨ vr_findings r ≠ [] →
  vr_receipt_id r ≠ None → report_consistent (finalize_trusted_plan_report r).
Proof.
  intros Hi Hp Hid. destruct (finalize_decision r Hi Hp) as (D1 & D2 & D3).
  constructor.
  - rewrite D2. cbn [finalize_trusted_plan_report vr_integrity_status]. rewrite Hi. tauto.
  - exact D1.
  - cbn. rewrite Hi. naive_solver.
  - cbn [finalize_trusted_plan_report vr_integrity_status]. rewrite Hi. split; [tauto|done].
  - unfold exit_code. cbn [finalize_trusted_plan_report vr_findings].
    destruct (decide (vr_findings r = [])) as [E|E].
    + rewrite bool_decide_true by done. by rewrite (proj2 D1 E).
    + rewrite bool_decide_false by done. destruct (vr_decision _) eqn:Ed; [|done].
      by rewrite (proj1 D1) in E.
Qed.

Section Verify.
Context `{B : Backend, PS : Parsers}.

Lemma failed_consistent commit at_ f : report_consistent (with_finding (initial_report commit at_) f).
Proof. constructor; cbn; naive_solver. Qed.

(** The two shapes of a report on a document. *)
Lemma verify_receipt_document_shape b p commit at_ r :
  verify_receipt_document b p commit at_ = Ok r →
  ∃ t, parse_utc_seconds at_ = Some t ∧
  match read_envelope b with
  | Err f => r = with_finding (initial_report commit at_) f
  | Ok env => ∃ q,
      r = finalize_trusted_plan_report q ∧ vr_integrity_status q = VPass ∧
      vr_policy_status q = VPass ∧ vr_receipt_id q = Some (receipt_id env) ∧
      vr_findings q = evaluate_policy (view env) p commit t []
  end.
Proof.
  unfold verify_receipt_document. intros H. res_inv. eexists. split; [done|].
  destruct (read_envelope b) as [env|f]; res_inv; subst; [|done]. by eexists.
Qed.

Lemma verify_receipt_document_consistent b p commit at_ r :
  verify_receipt_document b p commit at_ = Ok r → report_consistent r.
Proof.
  intros (t & _ & Hr)%verify_receipt_document_shape. destruct (read_envelope b) as [env|f].
  - destruct Hr as (q & -> & Hi & Hp & Hid & _). apply finalize_consistent; [done|by left|].
    by rewrite Hid.
  - subst. apply failed_consistent.
Qed.

Lemma verify_receipt_document_pass b p commit at_ r :
  verify_receipt_document b p commit at_ = Ok r →
  vr_decision r = DPass ↔
  ∃ env t, read_envelope b = Ok env ∧ parse_utc_seconds at_ = Some t ∧
           policy_accepts (view env) p commit t.
Proof.
  intros (t & Ht & Hr)%verify_receipt_document_shape. destruct (read_envelope b) as [env|f].
  - destruct Hr as (q & -> & Hi & Hp & Hid & Hf).
    destruct (finalize_decision q Hi (or_introl Hp)) as (-> & _). rewrite Hf.
    rewrite evaluate_policy_accepts. naive_solver.
  - subst. cbn. naive_solver.
Qed.

Lemma read_envelope_verified b env :
  read_envelope b = Ok env → VerifiedReceipt_verify env = Ok () ∧
  match env with V1 e => from_slice_v1 b = Some e | V2 e => from_slice_v2 b = Some e end.
Proof.
  unfold read_envelope. intros H. res_inv. subst. split; [done|].
  rename select (_ = Ok env) into E. revert E.
  destruct (_ =? "1.0")%string; [|destruct (_ =? "2.0")%string; [|done]];
    intros E%ok_or_ok; by apply fmap_Some in E as (e & -> & ->).
Qed.

(** ** Trusted plans *)

Lemma compare_execution_plan_nil t r fs :
  compare_execution_plan t r fs = [] ↔ fs = [] ∧ r = t.
Proof.
  unfold compare_execution_plan.
  assert (Hx : compare_plan_value (to_value t) (to_value r) "" [] = [] ↔ r = t).
  { rewrite compare_plan_value_exact; [|apply to_value_sorted..|cbn; unfold MAX_PLAN_FINDINGS; lia].
    split; [intros E; symmetry; by apply to_value_inj|by intros ->]. }
  split.
  - destruct (compare_plan_value_behaves (to_value t) (to_value r) "" fs) as (new & E & _).
    rewrite E. intros [-> ->]%app_nil. split; [done|]. by apply Hx.
  - intros [-> Hr]. by apply Hx.
Qed.

Lemma producer_finding_nil p producer fs :
  producer_finding p producer fs = [] ↔
  fs = [] ∧ producer ∈ contract_key <$> tp_supported_producers p ∧
  (producer ∉ contract_key <$> tp_revoked_producers p).
Proof.
  unfold producer_finding.
  assert (Hin : ∀ l, existsb (λ c, bool_decide (contract_key c = producer)) l = true ↔
                     producer ∈ contract_key <$> l).
  { intros l. rewrite existsb_elem, list_elem_of_fmap. setoid_rewrite bool_decide_eq_true.
    naive_solver. }
  destruct (existsb _ (tp_revoked_producers p)) eqn:E.
  - apply Hin in E. rewrite snoc_nil. tauto.
  - apply not_true_iff_false in E. rewrite Hin in E.
    rewrite push_if_nil, negb_false_iff, Hin. tauto.
Qed.

(** The shape of the report on a document whose integrity holds. *)
Lemma trusted_report_shape b p trusted commit at_ r :
  verify_trusted_plan_receipt_document b p trusted commit at_ = Ok r →
  ∃ base, verify_receipt_document b (baseline p) commit at_ = Ok base ∧
  (vr_integrity_status base ≠ VPass ∧
   r = with_findings base "integrity_and_trusted_plan_policy" (vr_findings base) ∨
   vr_integrity_status base = VPass ∧ ∃ fs,
   r = finalize_trusted_plan_report (with_findings base "integrity_and_trusted_plan_policy" fs) ∧
   (vr_findings base ≠ [] → fs ≠ []) ∧
   (fs = [] ↔ vr_findings base = [] ∧ pe_plan_digest trusted = tp_configuration_digest p ∧
      ∃ e, from_slice_v2 b = Some e ∧ r2_execution_plan (e2_receipt e) = pe_plan trusted ∧
        ss_strategy (r2_source_snapshot (e2_receipt e)) = tp_source_snapshot_strategy p ∧
        let producer := (pr_name (r2_producer (e2_receipt e)), pr_version (r2_producer (e2_receipt e))) in
        producer ∈ contract_key <$> tp_supported_producers p ∧
        (producer ∉ contract_key <$> tp_revoked_producers p))).
Proof.
  unfold verify_trusted_plan_receipt_document. intros H. res_inv. eexists. split; [done|].
  rename x into base. destruct (bool_decide (vr_integrity_status base = VPass)) eqn:Hi; bool_prop;
    cbn [negb] in H; [right; split; [done|]|left; by res_inv].
  destruct (from_slice_v2 b) as [e|] eqn:Ee; res_inv; eexists; (split; [done|]).
  - rewrite producer_finding_nil, push_if_nil, compare_execution_plan_nil, push_if_nil.
    rewrite negb_false_iff, String.eqb_eq, bool_decide_eq_false.
    assert (Hs := decide (ss_strategy (r2_source_snapshot (e2_receipt e))
                          = tp_source_snapshot_strategy p)).
    split; [tauto|]. split; [intros; destruct_and!; split_and!; try done; exists e; tauto|].
    intros (? & ? & e' & [= <-] & ?). tauto.
  - rewrite snoc_nil. split; [tauto|]. split; [done|].
    intros (_ & _ & e & ? & _). done.
Qed.

Lemma trusted_report_consistent b p trusted commit at_ r :
  verify_trusted_plan_receipt_document b p trusted commit at_ = Ok r → report_consistent r.
Proof.
  intros (base & Hb & Hr)%trusted_report_shape. apply verify_receipt_document_consistent in Hb.
  destruct Hr as [[Hi ->]|(Hi & fs & -> & Hne & _)].
  - destruct Hb. by constructor.
  - apply finalize_consistent; cbn [with_findings vr_integrity_status vr_policy_status vr_findings vr_receipt_id].
    + done.
    + destruct Hb as [Hd Hf _ _ _]. destruct (decide (fs = [])) as [->|]; [left|by right].
      destruct (decide (vr_findings base = [])) as [E|E]; [|by apply Hne in E].
      apply Hf in E. by apply Hd in E as [_ ?].
    + intros E. apply (rw_receipt _ Hb) in E. congruence.
Qed.

(** No document reads as both versions: the shapes of the two envelopes reject
    each other's fields. *)
Class ParsersStrict := parsers_strict :
  ∀ b e1 e2, from_slice_v1 b = Some e1 → from_slice_v2 b = Some e2 → False.

(** What a passing trusted-plan report stands for. *)
Record trusted_accepts (e : ReceiptEnvelopeV2) (p : VerificationPolicyV1_1)
    (trusted : ExecutionPlanEnvelopeV1) (commit : string) (evaluated_at : Z) : Prop := {
  ta_verified : verify2 e = Ok ();
  ta_policy : policy_accepts (view (V2 e)) (baseline p) commit evaluated_at;
  ta_digest : pe_plan_digest trusted = tp_configuration_digest p;
  ta_plan : r2_execution_plan (e2_receipt e) = pe_plan trusted;
  ta_strategy : ss_strategy (r2_source_snapshot (e2_receipt e)) = tp_source_snapshot_strategy p;
  ta_producer :
    let producer := (pr_name (r2_producer (e2_receipt e)), pr_version (r2_producer (e2_receipt e))) in
    producer ∈ contract_key <$> tp_supported_producers p ∧
    (producer ∉ contract_key <$> tp_revoked_producers p);
}.

Lemma trusted_report_pass `{PST : !ParsersStrict} b p trusted commit at_ r :
  verify_trusted_plan_receipt_document b p trusted commit at_ = Ok r →
  vr_decision r = DPass ↔
  ∃ e t, read_envelope b = Ok (V2 e) ∧ parse_utc_seconds at_ = Some t ∧
         trusted_accepts e p trusted commit t.
Proof.
  intros H. pose proof (trusted_report_consistent _ _ _ _ _ _ H) as Hc.
  apply trusted_report_shape in H as (base & Hb & Hr).
  pose proof (verify_receipt_document_pass _ _ _ _ _ Hb) as Hp.
  pose proof (rw_findings _ (verify_receipt_document_consistent _ _ _ _ _ Hb)) as Hf.
  pose proof (rw_decision _ (verify_receipt_document_consistent _ _ _ _ _ Hb)) as Hd.
  destruct Hr as [[Hi ->]|(Hi & fs & -> & _ & Hfs)].
  { cbn. split; [tauto|]. intros (e & t & He & Ht & Ha). destruct Hi. apply Hd, Hp.
    exists (V2 e), t. split_and!; [done..|apply (ta_policy _ _ _ _ _ Ha)]. }
  rewrite (rw_findings _ Hc). cbn [finalize_trusted_plan_report with_findings vr_findings].
  rewrite Hfs, <-Hf, Hp. split.
  - intros ((env & t & He & Ht & Ha) & Hdig & e & Hs & Hplan & Hst & Hprod).
    destruct (read_envelope_verified _ _ He) as [Hv Hparse].
    destruct env as [e1|e2]; [exfalso; by eapply parsers_strict|].
    assert (e2 = e) as -> by congruence. exists e, t. by split_and!.
  - intros (e & t & He & Ht & []). destruct (read_envelope_verified _ _ He) as [_ Hparse].
    split; [by exists (V2 e), t|]. split; [done|]. by exists e.
Qed.
End Verify.
