(* ===== verification/VerifyClaims.v ===== *)
(** The theorems on the verifier, with the example policy and document at which
    their hypotheses hold. *)
From stdpp Require Import pretty.
From S2P Require Import Prelude.
From S2P Require Import RustStr.
From S2P Require Import BTree.
From S2P Require Import Calendar.
From S2P Require Import Canonical.
From S2P Require Import Config.
From S2P Require Import ConfigProps.
From S2P Require Import PlanProps.
From S2P Require Import PlanClaims.
From S2P Require Import Receipt.
From S2P Require Import ReceiptProps.
From S2P Require Import ReceiptClaims.
From S2P Require Import Verify.
From S2P Require Import ComparePlan.
From S2P Require Import VerifyProps.
Import PlanExample ReceiptExample PolicyFields.
Local Open Scope Z_scope.

(** * Lemmas *)

Lemma plan_ids_unique `{Backend} c e :
  into_plan c = Ok e → NoDup (nk_id <$> ep_checks (pe_plan e)).
Proof.
  intros (_ & _ & _ & Hc & _)%into_plan_ok.
  by apply normalize_checks_sorted in Hc as (ps & _ & _ & ? & _).
Qed.

(** The evidence of a receipt accepted for a plan built from a configuration. *)
Lemma accepted_evidence `{Backend} c trusted e p commit t :
  into_plan c = Ok trusted → trusted_accepts e p trusted commit t →
  (∀ planned, planned ∈ ep_checks (pe_plan trusted) →
     ∃ k, k ∈ r2_checks (e2_receipt e) ∧ evidence_for planned k ∧
          (nk_required planned = true → succeeded k)) ∧
  (∀ id, id ∈ tp_required_checks p ↔
     ∃ planned, planned ∈ ep_checks (pe_plan trusted) ∧ nk_required planned = true ∧
                nk_id planned = id).
Proof.
  intros Hnd%plan_ids_unique [Hv [_ _ _ _ _ _ Hov Hreq _ _] _ Hplan _ _]. cbn in *.
  pose proof (verify2_valid _ Hv) as Hval. pose proof (ReceiptV2_validate_common _ Hval) as Hcom.
  destruct (overall_status_meaning _ Hcom) as (Hpass & _). cbn in Hpass.
  pose proof (proj1 Hpass Hov) as Hall.
  apply ReceiptV2_validate_plan in Hval as (_ & Hlen & Ht & _). rewrite Hplan in Hlen, Ht.
  destruct (planned_all_ok _ _ Hnd Hlen (cv_unique _ Hcom) Ht) as (Hfwd & Hbwd & _).
  split.
  - intros planned Hp. destruct (Hfwd planned Hp) as (k & Hk & Hev). exists k. split_and!; [done..|].
    destruct Hev as (_ & Hr & _). intros Hreq'. apply Hall; [done|congruence].
  - intros id. rewrite <-Hreq. split.
    + intros (k & Hk & Hr & Hid). destruct (Hbwd k Hk) as (pl & Hpl & Hid' & Hr' & _).
      exists pl. split_and!; congruence.
    + intros (pl & Hpl & Hr & Hid). destruct (Hfwd pl Hpl) as (k & Hk & Hid' & Hr' & _).
      exists k. split_and!; congruence.
Qed.

Lemma elem_of_push_if f b g fs : f ∈ push_if b g fs → f = g ∨ f ∈ fs.
Proof. unfold push_if. destruct b; [|auto]. intros [?| ->%list_elem_of_singleton]%elem_of_app; auto. Qed.

(** A finding that the completion time cannot be read stands for just that. *)
Lemma evaluate_policy_time v p commit t f :
  f ∈ evaluate_policy v p commit t [] → vf_code f = "policy.invalid_time" →
  parse_utc_seconds (rn_finished_at_utc (pv_run v)) = None.
Proof.
  unfold evaluate_policy, check_equal. cbv zeta. intros Hin Hc.
  destruct (parse_utc_seconds _) as [fin|]; [exfalso|done].
  assert (G : ∀ (b : bool) g fs, vf_code g ≠ "policy.invalid_time" → f ∈ push_if b g fs → f ∈ fs)
    by (intros b g fs Hg [->|]%elem_of_push_if; [by destruct Hg|done]).
  revert Hin. set (fs := push_if (existsb _ _) _ _).
  assert (Hfs : f ∉ fs).
  { subst fs. intros Hin. do 9 (apply G in Hin; [|done]). by apply elem_of_nil in Hin. }
  destruct (fin >? t); [intros [?| ->%list_elem_of_singleton]%elem_of_app; by try done|].
  destruct (_ >? _); [intros [?| ->%list_elem_of_singleton]%elem_of_app; by try done|done].
Qed.

Lemma read_envelope_codes `{Backend, Parsers} b f :
  read_envelope b = Err f → vf_code f ≠ "policy.invalid_time".
Proof.
  unfold read_envelope. intros Hr.
  apply bind_err in Hr as [[_ <-]%ensure_err|(_ & _ & Hr)]; [done|].
  apply bind_err in Hr as [Hr|(v & _ & Hr)].
  { destruct (from_slice_value b); [done|]. by injection Hr as <-. }
  apply bind_err in Hr as [Hr|(s & _ & Hr)].
  { destruct (value_get _ v ≫= _); [done|]. by injection Hr as <-. }
  apply bind_err in Hr as [Hr|(env & _ & Hr)].
  { destruct (_ =? "1.0")%string; [|destruct (_ =? "2.0")%string];
      [destruct (from_slice_v1 b)|destruct (from_slice_v2 b)|]; cbn in Hr;
      try done; by injection Hr as <-. }
  apply bind_err in Hr as [Hr|(u & _ & Hr)]; [|done].
  destruct (VerifiedReceipt_verify env) as [|e]; [done|]. injection Hr as <-. by destruct e.
Qed.

Lemma verify_receipt_document_time `{Backend, Parsers} b p commit at_ r f :
  verify_receipt_document b p commit at_ = Ok r → f ∈ vr_findings r →
  vf_code f ≠ "policy.invalid_time".
Proof.
  intros (t & _ & Hr)%verify_receipt_document_shape. destruct (read_envelope b) as [env|g] eqn:He.
  - destruct Hr as (q & -> & _ & _ & _ & Hq). cbn. rewrite Hq. intros Hin Hc.
    apply evaluate_policy_time in Hin; [|done].
    destruct (read_envelope_verified _ _ He) as [Hv _]. revert Hin.
    destruct env as [e|e]; cbn in *.
    + apply verify1_valid, ReceiptCommon_validate_ok in Hv.
      destruct (cv_window _ Hv) as (? & ? & _ & E & _). cbn in E. by rewrite E.
    + apply verify2_valid, ReceiptV2_validate_common in Hv.
      destruct (cv_window _ Hv) as (? & ? & _ & E & _). cbn in E. by rewrite E.
  - subst. cbn. intros ->%list_elem_of_singleton. by eapply read_envelope_codes.
Qed.

(** * Example *)

Module VerifyExample.

Definition policy : VerificationPolicyV1_1 :=
  {| tp_schema_version := "1.1"; tp_project := "owner/repository";
     tp_configuration_digest := pe_plan_digest demo_plan;
     tp_required_checks := ["lint"; "test"; "build"]; tp_image_reference := image;
     tp_max_age_seconds := 3600;
     tp_platforms := [{| ap_host_os := "linux"; ap_host_arch := "x86_64";
                         ap_runtime_kind := "docker" |}];
     tp_trusted_config := "ccp.toml"; tp_source_snapshot_strategy := GitObject;
     tp_supported_producers := [{| pc_name := "commit-ci-preflight"; pc_version := "0.1.0" |}];
     tp_revoked_producers := [{| pc_name := "commit-ci-preflight"; pc_version := "0.0.9" |}] |}.

(** A reader that finds the example receipt in every document. *)
#[global] Instance parsers : Parsers :=
  {| from_slice_value := λ _, Some (Object [("receipt", Object [("schema_version", Str "2.0")])]);
     from_slice_v1 := λ _, None; from_slice_v2 := λ _, Some demo_envelope |}.
#[global] Instance parsers_strict : ParsersStrict.
Proof. done. Qed.

Definition commit : string := "0123456789abcdef0123456789abcdef01234567".
Definition now : string := "2026-01-02T03:30:00Z".

Definition report : VerificationReportV1 :=
  get (verify_trusted_plan_receipt_document [] policy demo_plan commit now)
    ltac:(vm_cast_no_check (eq_refl true)).
Definition base_report : VerificationReportV1 :=
  get (verify_receipt_document [] (baseline policy) commit now)
    ltac:(vm_cast_no_check (eq_refl true)).
End VerifyExample.
Import VerifyExample.

Lemma report_ok :
  verify_trusted_plan_receipt_document [] policy demo_plan commit now = Ok report.
Proof. vm_compute. reflexivity. Defined.
Lemma base_report_ok : verify_receipt_document [] (baseline policy) commit now = Ok base_report.
Proof. vm_compute. reflexivity. Defined.

(** * Theorems *)

(** C12.  A passing trusted-plan report means that the trusted configuration ran:
    the document is a version 2 receipt whose identifier verifies, for the expected
    commit of a clean checkout, with the very plan the configuration builds; every
    check of that plan has evidence with its command, the required ones exited with
    code 0, and they are exactly the checks the policy requires. *)
Theorem trusted_pass_means_configuration_ran `{Backend, Parsers, !ParsersStrict} (c : ConfigV1)
    (trusted : ExecutionPlanEnvelopeV1) (document : list ascii) (p : VerificationPolicyV1_1)
    (commit at_ : string) (r : VerificationReportV1) :
  into_plan c = Ok trusted →
  verify_trusted_plan_receipt_document document p trusted commit at_ = Ok r →
  vr_decision r = DPass →
  ∃ e, from_slice_v2 document = Some e ∧ verify2 e = Ok () ∧
    rp_commit_sha (r2_repository (e2_receipt e)) = commit ∧
    rp_dirty (r2_repository (e2_receipt e)) = false ∧
    r2_execution_plan (e2_receipt e) = pe_plan trusted ∧
    (∀ planned, planned ∈ ep_checks (pe_plan trusted) →
       ∃ k, k ∈ r2_checks (e2_receipt e) ∧ evidence_for planned k ∧
            (nk_required planned = true → succeeded k)) ∧
    (∀ id, id ∈ tp_required_checks p ↔
       ∃ planned, planned ∈ ep_checks (pe_plan trusted) ∧ nk_required planned = true ∧
                  nk_id planned = id).
Proof.
  intros Hc Hr Hd. apply (trusted_report_pass _ _ _ _ _ _ Hr) in Hd as (e & t & He & _ & Ha).
  destruct (read_envelope_verified _ _ He) as [_ Hparse]. exists e.
  destruct (accepted_evidence _ _ _ _ _ _ Hc Ha) as [H1' H2'].
  destruct Ha as [Hv Hp _ Hplan _ _]. split_and!; try done; apply Hp.
Qed.

Lemma trusted_pass_means_configuration_ran_witness :
  ∃ e, from_slice_v2 [] = Some e ∧ verify2 e = Ok () ∧
    rp_commit_sha (r2_repository (e2_receipt e)) = commit ∧
    rp_dirty (r2_repository (e2_receipt e)) = false ∧
    r2_execution_plan (e2_receipt e) = pe_plan demo_plan ∧
    (∀ planned, planned ∈ ep_checks (pe_plan demo_plan) →
       ∃ k, k ∈ r2_checks (e2_receipt e) ∧ evidence_for planned k ∧
            (nk_required planned = true → succeeded k)) ∧
    (∀ id, id ∈ tp_required_checks policy ↔
       ∃ planned, planned ∈ ep_checks (pe_plan demo_plan) ∧ nk_required planned = true ∧
                  nk_id planned = id).
Proof.
  exact (trusted_pass_means_configuration_ran demo demo_plan [] policy commit now report
           (get_ok (into_plan demo) eq_refl) report_ok eq_refl).
Defined.

(** C18.  The decision of a trusted-plan report is PASS exactly when the document is
    a verified version 2 receipt that the baseline policy accepts, its plan is the
    trusted plan, the trusted plan has the digest of the policy, its snapshot
    strategy is the one of the policy and its producer is supported and not
    revoked. *)
Theorem trusted_report_decision `{Backend, Parsers, !ParsersStrict} (document : list ascii)
    (p : VerificationPolicyV1_1) (trusted : ExecutionPlanEnvelopeV1) (commit at_ : string)
    (r : VerificationReportV1) :
  verify_trusted_plan_receipt_document document p trusted commit at_ = Ok r →
  vr_decision r = DPass ↔
  ∃ e t, read_envelope document = Ok (V2 e) ∧ parse_utc_seconds at_ = Some t ∧
         trusted_accepts e p trusted commit t.
Proof. apply trusted_report_pass. Qed.

Lemma trusted_report_decision_witness :
  vr_decision report = DPass ↔
  ∃ e t, read_envelope [] = Ok (V2 e) ∧ parse_utc_seconds now = Some t ∧
         trusted_accepts e policy demo_plan commit t.
Proof. exact (trusted_report_decision [] policy demo_plan commit now report report_ok). Defined.

(** The decision of a policy report is PASS exactly when the document reads
    as a receipt whose identifier verifies and the receipt satisfies the policy:
    project, commit, clean checkout, configuration, image, platform, status, the
    exact set of required checks, their results and freshness. *)
Theorem policy_report_decision `{Backend, Parsers} (document : list ascii)
    (p : VerificationPolicyV1) (commit at_ : string) (r : VerificationReportV1) :
  verify_receipt_document document p commit at_ = Ok r →
  vr_decision r = DPass ↔
  ∃ env t, read_envelope document = Ok env ∧ parse_utc_seconds at_ = Some t ∧
           policy_accepts (view env) p commit t.
Proof. apply verify_receipt_document_pass. Qed.

Lemma policy_report_decision_witness :
  vr_decision base_report = DPass ↔
  ∃ env t, read_envelope [] = Ok env ∧ parse_utc_seconds now = Some t ∧
           policy_accepts (view env) (baseline policy) commit t.
Proof. exact (policy_report_decision [] (baseline policy) commit now base_report base_report_ok). Defined.

(** Every report is consistent and fails closed: it passes exactly when it
    has no finding and exactly when both of its statuses pass, the policy was not
    evaluated exactly when integrity failed, which is when no identifier is
    reported, and the exit code is 0 for a pass and 3 otherwise. *)
Theorem reports_fail_closed `{Backend, Parsers} (document : list ascii)
    (p : VerificationPolicyV1_1) (trusted : ExecutionPlanEnvelopeV1) (commit at_ : string)
    (r : VerificationReportV1) :
  verify_receipt_document document (baseline p) commit at_ = Ok r ∨
  verify_trusted_plan_receipt_document document p trusted commit at_ = Ok r ∨
  receipt_input_failure_report commit at_ = Ok r →
  report_consistent r.
Proof.
  intros [Hr|[Hr|Hr]].
  - by eapply verify_receipt_document_consistent.
  - by eapply trusted_report_consistent.
  - unfold receipt_input_failure_report in Hr. res_inv. subst. apply failed_consistent.
Qed.

Lemma reports_fail_closed_witness : report_consistent report.
Proof.
  exact (reports_fail_closed [] policy demo_plan commit now report (or_intror (or_introl report_ok))).
Defined.

(** The comparison of two plans is exact below its limit of 128 findings: it
    adds nothing exactly when the plans are equal, it never exceeds the limit, and
    every finding it adds names by its pointer a place where the two documents
    differ. *)
Theorem plan_comparison_exact (trusted receipt : ExecutionPlanV1)
    (findings : list VerificationFindingV1) :
  (length findings < MAX_PLAN_FINDINGS)%nat →
  (compare_execution_plan trusted receipt findings = findings ↔ trusted = receipt) ∧
  ∃ new, compare_execution_plan trusted receipt findings = findings ++ new ∧
    (length (findings ++ new) ≤ MAX_PLAN_FINDINGS)%nat ∧
    Forall (reports (to_value trusted) (to_value receipt) "") new.
Proof.
  intros Hlen. unfold compare_execution_plan. split.
  - rewrite compare_plan_value_exact; [|apply to_value_sorted..|done].
    split; [apply to_value_inj|by intros ->].
  - destruct (compare_plan_value_behaves (to_value trusted) (to_value receipt) "" findings)
      as (new & E & Hq & Hl & _). exists new. rewrite length_app.
    split_and!; [done| |done]. apply Hl. lia.
Qed.

Lemma plan_comparison_exact_witness :
  compare_execution_plan repeated_plan (pe_plan demo_plan) [] = [] ↔ repeated_plan = pe_plan demo_plan.
Proof.
  refine (proj1 (plan_comparison_exact repeated_plan (pe_plan demo_plan) [] _)).
  unfold MAX_PLAN_FINDINGS. cbn. lia.
Defined.

(**  Keys are escaped in findings the way JSON pointers ask: the escaped key
    has no slash, and unescaping gives the key back, so different keys have
    different pointers. *)
Theorem escape_json_pointer_roundtrip (key : string) :
  unescape_json_pointer (escape_json_pointer key) = key ∧
  contains_char "/" (escape_json_pointer key) = false.
Proof. split; [apply unescape_escape|apply escape_no_slash]. Qed.

(**  The finding that a completion time cannot be evaluated never occurs: a
    receipt that reaches the policy has been verified, and verification only
    accepts times the verifier can read. *)
Theorem completion_time_always_evaluated `{Backend, Parsers} (document : list ascii)
    (p : VerificationPolicyV1) (commit at_ : string) (r : VerificationReportV1)
    (f : VerificationFindingV1) :
  verify_receipt_document document p commit at_ = Ok r → f ∈ vr_findings r →
  vf_code f ≠ "policy.invalid_time".
Proof.
  intros Hr Hf. by eapply verify_receipt_document_time.
Qed.

(** A receipt that is stale for the example policy. *)
Definition stale_report : VerificationReportV1 :=
  get (verify_receipt_document [] (baseline policy) commit "2026-02-02T03:30:00Z")
    ltac:(vm_cast_no_check (eq_refl true)).

Lemma completion_time_always_evaluated_witness : "policy.stale_receipt" ≠ "policy.invalid_time".
Proof.
  apply (completion_time_always_evaluated [] (baseline policy) commit "2026-02-02T03:30:00Z"
    stale_report (finding "policy.stale_receipt" "run.finished_at_utc"
                    "receipt exceeds repository freshness policy")).
  - vm_compute. reflexivity.
  - vm_compute. left.
Defined.
