(* ===== verification/Matrix.v ===== *)
(** The plan of a matrix: checks that run in several pinned runtimes
    ([src/src/matrix.rs]), and its projection to the plan of the earlier format
    ([src/src/matrix_legacy.rs]).

    A matrix plan is built from one plan of [Config.v] per runtime. *)
From S2P Require Import Prelude.
From S2P Require Import RustStr.
From S2P Require Import BTree.
From S2P Require Import Calendar.
From S2P Require Import Canonical.
From S2P Require Import Config.
From S2P Require Import Receipt.
From S2P Require Import Verify.
Local Open Scope Z_scope.

Definition MATRIX_CONFIG_SCHEMA_VERSION : string := "2.0".
Definition MATRIX_RECEIPT_SCHEMA_VERSION : string := "2.0".
Definition MATRIX_POLICY_SCHEMA_VERSION : string := "2.0".
Definition MAX_MATRIX_RUNTIMES : Z := 32.
Definition MAX_MATRIX_BYTES : Z := 1048576.

(** [env!("CARGO_PKG_NAME")] and [env!("CARGO_PKG_VERSION")]. *)
Definition CARGO_PKG_NAME : string := "commit-ci-preflight".
Definition CARGO_PKG_VERSION : string := "0.1.0".

(** * The configuration document *)

Record MatrixEnvironmentConfigV2 : Type := { me_allow : list string }.

Record MatrixRuntimeConfigV2 : Type := {
  mr_id : string;
  mr_kind : RuntimeKind;
  mr_image : string;
  mr_cpu_count : Z;
  mr_memory_mib : Z;
  mr_pids_limit : Z;
  mr_network : bool;
}.

Record MatrixCheckConfigV2 : Type := {
  mk_id : string;
  mk_runtime_id : string;
  mk_required : bool;
  mk_argv : list string;
  mk_working_directory : string;
  mk_timeout_seconds : Z;
  mk_depends_on : list string;
  mk_artifacts : list string;
}.

Record MatrixConfigV2 : Type := {
  mc_schema_version : string;
  mc_project : string;
  mc_runtimes : list MatrixRuntimeConfigV2;
  mc_receipt : ReceiptConfig;
  mc_environment : MatrixEnvironmentConfigV2;
  mc_caches : list CacheConfig;
  mc_checks : list MatrixCheckConfigV2;
}.

Definition environment_as_v1 (e : MatrixEnvironmentConfigV2) : EnvironmentConfig :=
  {| ec_allow := me_allow e; ec_fixed := []; ec_runtime_internal := []; ec_remote_secret_only := [] |}.

Definition as_runtime (r : MatrixRuntimeConfigV2) : RuntimeConfig :=
  {| rc_kind := mr_kind r; rc_image := mr_image r; rc_cpu_count := mr_cpu_count r;
     rc_memory_mib := mr_memory_mib r; rc_pids_limit := mr_pids_limit r; rc_network := mr_network r;
     rc_pull_policy := None; rc_swap_mode := None |}.

Definition check_as_v1 (c : MatrixCheckConfigV2) : CheckConfig :=
  {| ck_id := mk_id c; ck_required := mk_required c; ck_argv := mk_argv c;
     ck_working_directory := mk_working_directory c; ck_timeout_seconds := mk_timeout_seconds c;
     ck_depends_on := mk_depends_on c; ck_artifacts := mk_artifacts c; ck_artifact_contracts := [] |}.

(** * The plan *)

Record MatrixRuntimePlanV2 : Type := {
  mrp_id : string;
  mrp_configuration_digest : string;
  mrp_runtime : NormalizedRuntime;
  mrp_checks : list NormalizedCheck;
}.

Record MatrixPlanV2 : Type := {
  mp_schema_version : string;
  mp_project : string;
  mp_receipt : NormalizedReceipt;
  mp_environment : NormalizedEnvironment;
  mp_caches : list NormalizedCache;
  mp_runtimes : list MatrixRuntimePlanV2;
}.

Inductive MatrixPlanProfile : Type := CurrentV2 | LegacyV1.

Definition producer_version (p : MatrixPlanProfile) : string :=
  match p with
  | CurrentV2 => CARGO_PKG_VERSION
  | LegacyV1 => CARGO_PKG_VERSION +:+ "+matrix-v2-legacy-v1"
  end.

(** [MPolicy] holds the error whose text the source keeps; [MFault] stands for a
    panic. *)
Inductive MatrixError : Type :=
  | MatrixParse
  | MConfig (e : ConfigError)
  | MReceipt (e : ReceiptError)
  | MPolicy (e : PolicyError)
  | MVerification (e : VerificationError)
  | MUnsupportedSchemaVersion (version : string)
  | MConfigTooLarge
  | MInvalidField (field : string)
  | MDuplicateValue (field : string)
  | UnknownRuntime (id : string)
  | RuntimeWithoutRequiredCheck (id : string)
  | CrossRuntimeDependency (check dependency : string)
  | LegacyPlanNotRepresentable (field : string)
  | MPlanDigestMismatch
  | ReceiptIdMismatch
  | InvalidReceipt
  | MInvalidEvaluationTime
  | MFault (f : fault).

#[global] Instance MatrixRuntimePlanV2_serialize : Serialize MatrixRuntimePlanV2 := λ r,
  obj [("id", to_value (mrp_id r)); ("configuration_digest", to_value (mrp_configuration_digest r));
       ("runtime", to_value (mrp_runtime r)); ("checks", to_value (mrp_checks r))].

#[global] Instance MatrixPlanV2_serialize : Serialize MatrixPlanV2 := λ p,
  obj [("schema_version", to_value (mp_schema_version p)); ("project", to_value (mp_project p));
       ("receipt", to_value (mp_receipt p)); ("environment", to_value (mp_environment p));
       ("caches", to_value (mp_caches p)); ("runtimes", to_value (mp_runtimes p))].

(** * The plan of the earlier format *)

Record LegacyNormalizedRuntime : Type := {
  lr_kind : RuntimeKind;
  lr_image : string;
  lr_cpu_count : Z;
  lr_memory_mib : Z;
  lr_pids_limit : Z;
  lr_network : bool;
}.

Record LegacyNormalizedReceipt : Type := {
  lrc_output : string;
  lrc_freshness_seconds : Z;
}.

Record LegacyNormalizedCache : Type := {
  lc_id : string;
  lc_mount_path : string;
}.

Record LegacyNormalizedCheck : Type := {
  lk_id : string;
  lk_required : bool;
  lk_argv : list string;
  lk_working_directory : string;
  lk_timeout_seconds : Z;
  lk_depends_on : list string;
  lk_artifacts : list string;
}.

Record LegacyExecutionPlanV1 : Type := {
  le_schema_version : string;
  le_project : string;
  le_runtime : LegacyNormalizedRuntime;
  le_receipt : LegacyNormalizedReceipt;
  le_environment_allow : list string;
  le_caches : list LegacyNormalizedCache;
  le_checks : list LegacyNormalizedCheck;
}.

Record LegacyMatrixRuntimePlanV2 : Type := {
  lmr_id : string;
  lmr_configuration_digest : string;
  lmr_runtime : LegacyNormalizedRuntime;
  lmr_checks : list LegacyNormalizedCheck;
}.

Record LegacyMatrixPlanV2 : Type := {
  lm_schema : string;
  lm_project : string;
  lm_receipt : LegacyNormalizedReceipt;
  lm_environment_allow : list string;
  lm_caches : list LegacyNormalizedCache;
  lm_runtimes : list LegacyMatrixRuntimePlanV2;
}.

Record LegacyMatrixDigestBasisV1 : Type := {
  lb_plan : LegacyMatrixPlanV2;
  lb_runtime_digests : btmap string string;
}.

#[global] Instance LegacyNormalizedRuntime_eq_dec : EqDecision LegacyNormalizedRuntime.
Proof. solve_decision. Defined.
#[global] Instance LegacyNormalizedReceipt_eq_dec : EqDecision LegacyNormalizedReceipt.
Proof. solve_decision. Defined.
#[global] Instance LegacyNormalizedCache_eq_dec : EqDecision LegacyNormalizedCache.
Proof. solve_decision. Defined.
#[global] Instance LegacyNormalizedCheck_eq_dec : EqDecision LegacyNormalizedCheck.
Proof. solve_decision. Defined.
#[global] Instance LegacyMatrixRuntimePlanV2_eq_dec : EqDecision LegacyMatrixRuntimePlanV2.
Proof. solve_decision. Defined.
#[global] Instance LegacyMatrixPlanV2_eq_dec : EqDecision LegacyMatrixPlanV2.
Proof. solve_decision. Defined.
#[global] Instance LegacyMatrixDigestBasisV1_eq_dec : EqDecision LegacyMatrixDigestBasisV1.
Proof.
  intros [p1 d1] [p2 d2]. destruct (decide (p1 = p2)) as [->|]; [|right; congruence].
  destruct (decide ((d1 : list (string * string)) = d2)) as [->|]; [by left|right; congruence].
Defined.

#[global] Instance LegacyNormalizedRuntime_serialize : Serialize LegacyNormalizedRuntime := λ r,
  obj [("kind", to_value (lr_kind r)); ("image", to_value (lr_image r));
       ("cpu_count", to_value (lr_cpu_count r)); ("memory_mib", to_value (lr_memory_mib r));
       ("pids_limit", to_value (lr_pids_limit r)); ("network", to_value (lr_network r))].

#[global] Instance LegacyNormalizedReceipt_serialize : Serialize LegacyNormalizedReceipt := λ r,
  obj [("output", to_value (lrc_output r)); ("freshness_seconds", to_value (lrc_freshness_seconds r))].

#[global] Instance LegacyNormalizedCache_serialize : Serialize LegacyNormalizedCache := λ c,
  obj [("id", to_value (lc_id c)); ("mount_path", to_value (lc_mount_path c))].

#[global] Instance LegacyNormalizedCheck_serialize : Serialize LegacyNormalizedCheck := λ c,
  obj [("id", to_value (lk_id c)); ("required", to_value (lk_required c));
       ("argv", to_value (lk_argv c)); ("working_directory", to_value (lk_working_directory c));
       ("timeout_seconds", to_value (lk_timeout_seconds c));
       ("depends_on", to_value (lk_depends_on c)); ("artifacts", to_value (lk_artifacts c))].

#[global] Instance LegacyExecutionPlanV1_serialize : Serialize LegacyExecutionPlanV1 := λ p,
  obj [("schema_version", to_value (le_schema_version p)); ("project", to_value (le_project p));
       ("runtime", to_value (le_runtime p)); ("receipt", to_value (le_receipt p));
       ("environment_allow", to_value (le_environment_allow p)); ("caches", to_value (le_caches p));
       ("checks", to_value (le_checks p))].

#[global] Instance LegacyMatrixRuntimePlanV2_serialize : Serialize LegacyMatrixRuntimePlanV2 := λ r,
  obj [("id", to_value (lmr_id r)); ("configuration_digest", to_value (lmr_configuration_digest r));
       ("runtime", to_value (lmr_runtime r)); ("checks", to_value (lmr_checks r))].

#[global] Instance LegacyMatrixPlanV2_serialize : Serialize LegacyMatrixPlanV2 := λ p,
  obj [("schema_version", to_value (lm_schema p)); ("project", to_value (lm_project p));
       ("receipt", to_value (lm_receipt p)); ("environment_allow", to_value (lm_environment_allow p));
       ("caches", to_value (lm_caches p)); ("runtimes", to_value (lm_runtimes p))].

Definition legacy_environment (e : NormalizedEnvironment) : result MatrixError (list string) :=
  _ ← ensure (is_nil (ne_fixed e)) (LegacyPlanNotRepresentable "environment.fixed");
  _ ← ensure (is_nil (ne_runtime_internal e)) (LegacyPlanNotRepresentable "environment.runtime_internal");
  _ ← ensure (is_nil (ne_remote_secret_only e)) (LegacyPlanNotRepresentable "environment.remote_secret_only");
  Ok (ne_inherit e).

Definition legacy_receipt (r : NormalizedReceipt) : LegacyNormalizedReceipt :=
  {| lrc_output := nrec_output r; lrc_freshness_seconds := nrec_freshness_seconds r |}.

Definition legacy_cache (c : NormalizedCache) : LegacyNormalizedCache :=
  {| lc_id := nc_id c; lc_mount_path := nc_mount_path c |}.

Definition legacy_runtime (r : NormalizedRuntime) : result MatrixError LegacyNormalizedRuntime :=
  _ ← ensure (negb (is_Some_b (nr_pull_policy r))) (LegacyPlanNotRepresentable "runtime.pull_policy");
  _ ← ensure (negb (is_Some_b (nr_swap_mode r))) (LegacyPlanNotRepresentable "runtime.swap_mode");
  Ok {| lr_kind := nr_kind r; lr_image := nr_image r; lr_cpu_count := nr_cpu_count r;
        lr_memory_mib := nr_memory_mib r; lr_pids_limit := nr_pids_limit r; lr_network := nr_network r |}.

Definition legacy_check (c : NormalizedCheck) : result MatrixError LegacyNormalizedCheck :=
  _ ← ensure (is_nil (nk_artifact_contracts c)) (LegacyPlanNotRepresentable "checks.artifact_contracts");
  Ok {| lk_id := nk_id c; lk_required := nk_required c; lk_argv := nk_argv c;
        lk_working_directory := nk_working_directory c; lk_timeout_seconds := nk_timeout_seconds c;
        lk_depends_on := nk_depends_on c; lk_artifacts := nk_artifacts c |}.

Section Plan.
Context `{Backend}.

Definition legacy_runtime_step (p : MatrixPlanV2) (environment_allow : list string)
    (st : btmap string string * list LegacyMatrixRuntimePlanV2) (r : MatrixRuntimePlanV2) :
    result MatrixError (btmap string string * list LegacyMatrixRuntimePlanV2) :=
  let '(runtime_digests, runtimes) := st in
  checks ← mapM legacy_check (mrp_checks r);
  runtime ← legacy_runtime (mrp_runtime r);
  configuration_digest ← map_err MReceipt (canonical_digest
    {| le_schema_version := "1.0"; le_project := mp_project p; le_runtime := runtime;
       le_receipt := legacy_receipt (mp_receipt p); le_environment_allow := environment_allow;
       le_caches := legacy_cache <$> mp_caches p; le_checks := checks |});
  Ok (map_insert (mrp_id r) configuration_digest runtime_digests,
      runtimes ++ [{| lmr_id := mrp_id r; lmr_configuration_digest := configuration_digest;
                      lmr_runtime := runtime; lmr_checks := checks |}]).

Definition project_legacy_basis (p : MatrixPlanV2) : result MatrixError LegacyMatrixDigestBasisV1 :=
  environment_allow ← legacy_environment (mp_environment p);
  '(runtime_digests, runtimes) ← try_fold (legacy_runtime_step p environment_allow) ([], []) (mp_runtimes p);
  Ok {| lb_plan := {| lm_schema := mp_schema_version p; lm_project := mp_project p;
                      lm_receipt := legacy_receipt (mp_receipt p);
                      lm_environment_allow := environment_allow;
                      lm_caches := legacy_cache <$> mp_caches p; lm_runtimes := runtimes |};
        lb_runtime_digests := runtime_digests |}.

Definition outer_digest (b : LegacyMatrixDigestBasisV1) : result MatrixError string :=
  map_err MReceipt (canonical_digest (lb_plan b)).

Definition runtime_digest (b : LegacyMatrixDigestBasisV1) (id : string) : result MatrixError string :=
  ok_or (map_get id (lb_runtime_digests b)) (UnknownRuntime id).

(** [serde_json::to_value] of a struct of strings, numbers and lists. *)
Definition report_value (b : LegacyMatrixDigestBasisV1) : Value := to_value (lb_plan b).

(** * Building the plan *)

Definition runtime_step (runtime_by_id : btmap string MatrixRuntimeConfigV2) (r : MatrixRuntimeConfigV2) :
    result MatrixError (btmap string MatrixRuntimeConfigV2) :=
  _ ← map_err MConfig (validate_identifier "runtimes.id" (mr_id r));
  _ ← ensure (negb (map_contains (mr_id r) runtime_by_id)) (MDuplicateValue "runtimes.id");
  Ok (map_insert (mr_id r) r runtime_by_id).

(** The runtime of each check, and the checks of each runtime. *)
Definition assignment_step (runtime_by_id : btmap string MatrixRuntimeConfigV2)
    (st : btmap string string * btmap string (list CheckConfig)) (c : MatrixCheckConfigV2) :
    result MatrixError (btmap string string * btmap string (list CheckConfig)) :=
  let '(check_runtime, checks_by_runtime) := st in
  _ ← map_err MConfig (validate_identifier "checks.runtime_id" (mk_runtime_id c));
  _ ← ensure (map_contains (mk_runtime_id c) runtime_by_id) (UnknownRuntime (mk_runtime_id c));
  _ ← ensure (negb (map_contains (mk_id c) check_runtime)) (MDuplicateValue "checks.id");
  Ok (map_insert (mk_id c) (mk_runtime_id c) check_runtime,
      map_insert (mk_runtime_id c) (default [] (map_get (mk_runtime_id c) checks_by_runtime) ++ [check_as_v1 c])
        checks_by_runtime).

Definition dependency_in_runtime (check_runtime : btmap string string) (c : MatrixCheckConfigV2)
    (dependency : string) : result MatrixError () :=
  match map_get dependency check_runtime with
  | Some runtime => ensure (runtime =? mk_runtime_id c)%string (CrossRuntimeDependency (mk_id c) dependency)
  | None => Ok ()
  end.

(** The configuration of one runtime alone. *)
Definition group_config (c : MatrixConfigV2) (r : MatrixRuntimeConfigV2) (checks : list CheckConfig) : ConfigV1 :=
  {| cfg_schema_version := "1.0"; cfg_project := mc_project c; cfg_runtime := as_runtime r;
     cfg_receipt := mc_receipt c; cfg_environment := environment_as_v1 (mc_environment c);
     cfg_caches := mc_caches c; cfg_storage := None; cfg_checks := checks |}.

(** What is taken from the first plan for all of them. *)
Record shared_parts : Type := {
  sh_receipt : NormalizedReceipt;
  sh_environment : NormalizedEnvironment;
  sh_caches : list NormalizedCache;
}.

Definition group_step (c : MatrixConfigV2)
    (st : btmap string (list CheckConfig) * option shared_parts * list MatrixRuntimePlanV2)
    (entry : string * MatrixRuntimeConfigV2) :
    result MatrixError (btmap string (list CheckConfig) * option shared_parts * list MatrixRuntimePlanV2) :=
  let '(checks_by_runtime, shared, runtime_plans) := st in
  let '(id, r) := entry in
  let group_checks := default [] (map_get id checks_by_runtime) in
  _ ← ensure (existsb ck_required group_checks) (RuntimeWithoutRequiredCheck id);
  group ← map_err MConfig (into_plan (group_config c r group_checks));
  let plan := pe_plan group in
  let shared := match shared with
                | Some shared => shared
                | None => {| sh_receipt := ep_receipt plan; sh_environment := ep_environment plan;
                             sh_caches := ep_caches plan |}
                end in
  Ok (remove_key id checks_by_runtime, Some shared,
      runtime_plans ++ [{| mrp_id := id; mrp_configuration_digest := pe_plan_digest group;
                           mrp_runtime := ep_runtime plan; mrp_checks := ep_checks plan |}]).

Record MatrixPlanEnvelopeV2 : Type := {
  mpe_plan_digest : string;
  mpe_plan : MatrixPlanV2;
  mpe_profile : MatrixPlanProfile;
  mpe_legacy_basis : option LegacyMatrixDigestBasisV1;
}.

(** The plan before its profile is applied. *)
Definition matrix_plan (c : MatrixConfigV2) : result MatrixError MatrixPlanV2 :=
  _ ← ensure (mc_schema_version c =? MATRIX_CONFIG_SCHEMA_VERSION)%string
        (MUnsupportedSchemaVersion (mc_schema_version c));
  _ ← ensure (in_range 2 MAX_MATRIX_RUNTIMES (Z.of_nat (length (mc_runtimes c)))) (MInvalidField "runtimes");
  runtime_by_id ← try_fold runtime_step [] (mc_runtimes c);
  '(check_runtime, checks_by_runtime) ← try_fold (assignment_step runtime_by_id) ([], []) (mc_checks c);
  _ ← try_each (λ check, try_each (dependency_in_runtime check_runtime check) (mk_depends_on check)) (mc_checks c);
  '(_, shared, runtime_plans) ← try_fold (group_step c) (checks_by_runtime, None, []) runtime_by_id;
  shared ← ok_or shared (MFault Panic);
  Ok {| mp_schema_version := MATRIX_CONFIG_SCHEMA_VERSION; mp_project := mc_project c;
        mp_receipt := sh_receipt shared; mp_environment := sh_environment shared;
        mp_caches := sh_caches shared; mp_runtimes := runtime_plans |}.

Definition set_runtimes (runtimes : list MatrixRuntimePlanV2) (p : MatrixPlanV2) : MatrixPlanV2 :=
  {| mp_schema_version := mp_schema_version p; mp_project := mp_project p; mp_receipt := mp_receipt p;
     mp_environment := mp_environment p; mp_caches := mp_caches p; mp_runtimes := runtimes |}.

(** The runtime with the digest of the earlier format. *)
Definition legacy_digest_of (b : LegacyMatrixDigestBasisV1) (r : MatrixRuntimePlanV2) :
    result MatrixError MatrixRuntimePlanV2 :=
  configuration_digest ← runtime_digest b (mrp_id r);
  Ok {| mrp_id := mrp_id r; mrp_configuration_digest := configuration_digest;
        mrp_runtime := mrp_runtime r; mrp_checks := mrp_checks r |}.

Definition build_plan_with_profile (c : MatrixConfigV2) (profile : MatrixPlanProfile) :
    result MatrixError MatrixPlanEnvelopeV2 :=
  plan ← matrix_plan c;
  match profile with
  | CurrentV2 =>
    plan_digest ← map_err MReceipt (canonical_digest plan);
    Ok {| mpe_plan_digest := plan_digest; mpe_plan := plan; mpe_profile := profile; mpe_legacy_basis := None |}
  | LegacyV1 =>
    legacy_basis ← project_legacy_basis plan;
    runtimes ← mapM (legacy_digest_of legacy_basis) (mp_runtimes plan);
    plan_digest ← outer_digest legacy_basis;
    Ok {| mpe_plan_digest := plan_digest; mpe_plan := set_runtimes runtimes plan; mpe_profile := profile;
          mpe_legacy_basis := Some legacy_basis |}
  end.

Definition build_matrix_plan : MatrixConfigV2 → MatrixPlanProfile → result MatrixError MatrixPlanEnvelopeV2 :=
  build_plan_with_profile.

(** [MatrixConfigV2::into_plan]. *)
Definition matrix_into_plan (c : MatrixConfigV2) : result MatrixError MatrixPlanEnvelopeV2 :=
  build_matrix_plan c CurrentV2.

(** * The envelope *)

Definition runtime_digest_bound (b : LegacyMatrixDigestBasisV1) (r : MatrixRuntimePlanV2) :
    result MatrixError () :=
  digest ← runtime_digest b (mrp_id r);
  ensure (digest =? mrp_configuration_digest r)%string MPlanDigestMismatch.

Definition validate_profile_binding (e : MatrixPlanEnvelopeV2) : result MatrixError () :=
  match mpe_profile e with
  | CurrentV2 =>
    _ ← ensure (negb (is_Some_b (mpe_legacy_basis e))) MPlanDigestMismatch;
    digest ← map_err MReceipt (canonical_digest (mpe_plan e));
    ensure (digest =? mpe_plan_digest e)%string MPlanDigestMismatch
  | LegacyV1 =>
    basis ← ok_or (mpe_legacy_basis e) MPlanDigestMismatch;
    projected ← project_legacy_basis (mpe_plan e);
    _ ← ensure (bool_decide (projected = basis)) MPlanDigestMismatch;
    digest ← outer_digest projected;
    _ ← ensure (digest =? mpe_plan_digest e)%string MPlanDigestMismatch;
    try_each (runtime_digest_bound projected) (mp_runtimes (mpe_plan e))
  end.

(** [plan_digest]. *)
Definition matrix_plan_digest (e : MatrixPlanEnvelopeV2) : result MatrixError string :=
  _ ← validate_profile_binding e;
  Ok (mpe_plan_digest e).

Definition runtime_configuration_digest (e : MatrixPlanEnvelopeV2) (id : string) : result MatrixError string :=
  _ ← validate_profile_binding e;
  match mpe_profile e with
  | LegacyV1 => basis ← ok_or (mpe_legacy_basis e) MPlanDigestMismatch; runtime_digest basis id
  | CurrentV2 =>
    ok_or (mrp_configuration_digest <$> List.find (λ r, mrp_id r =? id)%string (mp_runtimes (mpe_plan e)))
      (UnknownRuntime id)
  end.

Definition legacy_digest_basis_value (e : MatrixPlanEnvelopeV2) : result MatrixError (option Value) :=
  _ ← validate_profile_binding e;
  match mpe_profile e with
  | CurrentV2 => Ok None
  | LegacyV1 => basis ← ok_or (mpe_legacy_basis e) MPlanDigestMismatch; Ok (Some (report_value basis))
  end.

(** [profile] and [legacy_basis] have [#[serde(skip)]]. *)
#[global] Instance MatrixPlanEnvelopeV2_serialize : Serialize MatrixPlanEnvelopeV2 := λ e,
  obj [("plan_digest", to_value (mpe_plan_digest e)); ("plan", to_value (mpe_plan e))].

Definition matrix_canonical_bytes (e : MatrixPlanEnvelopeV2) : result MatrixError (list ascii) :=
  _ ← validate_profile_binding e;
  map_err MReceipt (canonical_json e).

(** The plan of one runtime alone. *)
Definition runtime_plan (p : MatrixPlanV2) (r : MatrixRuntimePlanV2) : ExecutionPlanV1 :=
  {| ep_schema_version := "1.0"; ep_project := mp_project p; ep_runtime := mrp_runtime r;
     ep_receipt := mp_receipt p; ep_environment := mp_environment p; ep_caches := mp_caches p;
     ep_storage := None; ep_checks := mrp_checks r |}.

Definition runtime_envelope (e : MatrixPlanEnvelopeV2) (r : MatrixRuntimePlanV2) :
    result MatrixError (string * ExecutionPlanEnvelopeV1) :=
  let plan := runtime_plan (mpe_plan e) r in
  plan_digest ←
    match mpe_profile e with
    | CurrentV2 =>
      digest ← map_err MReceipt (canonical_digest plan);
      _ ← ensure (digest =? mrp_configuration_digest r)%string MPlanDigestMismatch;
      Ok digest
    | LegacyV1 => runtime_configuration_digest e (mrp_id r)
    end;
  Ok (mrp_id r, {| pe_plan_digest := plan_digest; pe_plan := plan; pe_fixed_environment := [] |}).

Definition runtime_envelopes (e : MatrixPlanEnvelopeV2) :
    result MatrixError (list (string * ExecutionPlanEnvelopeV1)) :=
  _ ← validate_profile_binding e;
  mapM (runtime_envelope e) (mp_runtimes (mpe_plan e)).
End Plan.

(** [MatrixConfigV2::parse]; [from_toml] is [toml::from_str]. *)
Definition matrix_config_parse (from_toml : string → option MatrixConfigV2) (input : string) :
    result MatrixError MatrixConfigV2 :=
  _ ← ensure (negb (len input >? MAX_MATRIX_BYTES)) MConfigTooLarge;
  ok_or (from_toml input) MatrixParse.
