(* ===== verification/MatrixProps.v ===== *)
(** Lemmas on matrix plans ([Matrix.v]): the loops of the builder, the plans of the
    single runtimes, and the projection to the earlier format. *)
From S2P Require Import Prelude.
From S2P Require Import RustStr.
From S2P Require Import BTree.
From S2P Require Import Calendar.
From S2P Require Import Canonical.
From S2P Require Import Config.
From S2P Require Import ConfigProps.
From S2P Require Import PlanProps.
From S2P Require Import Receipt.
From S2P Require Import Verify.
From S2P Require Import Matrix.
Local Open Scope Z_scope.

(** ** [mapM] on results *)

Lemma mapM_result_ok {E A B} (f : A → result E B) l k :
  mapM f l = Ok k ↔ Forall2 (λ x y, f x = Ok y) l k.
Proof.
  revert k. induction l as [|x l IH]; intros k; cbn.
  - split; [by intros [= <-]|]. by inversion 1.
  - split.
    + intros H. res_inv. subst. constructor; [done|]. by apply IH.
    + inversion 1 as [|? y ? k' Hx Hl]; subst. rewrite Hx. cbn. by rewrite (proj2 (IH _) Hl).
Qed.

Lemma mapM_result_total {E A B} (f : A → result E B) l :
  (∀ x, x ∈ l → ∃ y, f x = Ok y) → ∃ k, mapM f l = Ok k.
Proof.
  induction l as [|x l IH]; intros Hf; [by exists []|]. cbn.
  destruct (Hf x) as [y ->]; [left|]. destruct IH as [k ->]; [|by eexists]. intros z Hz. apply Hf. by right.
Qed.

Lemma map_from_list_last {V} (l : list (string * V)) x :
  map_from_list (l ++ [x]) = map_insert x.1 x.2 (map_from_list l).
Proof. destruct x. apply map_from_list_snoc. Qed.

Lemma map_get_of_list {V} (l : list (string * V)) k v :
  NoDup l.*1 → (k, v) ∈ l → map_get k (map_from_list l) = Some v.
Proof.
  intros Hnd Hin. apply map_get_elem; [apply map_from_list_sorted|]. by rewrite map_from_list_perm.
Qed.

(** ** The loops of the builder *)

Definition by_id (r : MatrixRuntimeConfigV2) : string * MatrixRuntimeConfigV2 := (mr_id r, r).

Lemma runtime_loop rs m :
  try_fold runtime_step [] rs = Ok m → NoDup (mr_id <$> rs) ∧ m = map_from_list (by_id <$> rs).
Proof.
  apply (try_fold_inv (λ rs m, NoDup (mr_id <$> rs) ∧ m = map_from_list (by_id <$> rs))).
  - by split; [constructor|].
  - intros pre r st st' [Hnd ->] H. unfold runtime_step in H. res_inv. bool_prop. subst.
    rename select (map_contains _ _ = false) into Hc. split.
    + rewrite fmap_app. apply NoDup_app. split_and!; [done| |apply NoDup_singleton].
      intros x Hx ->%list_elem_of_singleton. apply not_true_iff_false in Hc. apply Hc, map_contains_spec.
      apply elem_of_map_keys_from_list. rewrite <-list_fmap_compose. exact Hx.
    + rewrite fmap_app. cbn [fmap list_fmap]. by rewrite map_from_list_last.
Qed.

Definition of_runtime (id : string) (cs : list MatrixCheckConfigV2) : list CheckConfig :=
  check_as_v1 <$> filter (λ c, mk_runtime_id c = id) cs.

Definition assigned (c : MatrixCheckConfigV2) : string * string := (mk_id c, mk_runtime_id c).

Record assignments (runtimes : btmap string MatrixRuntimeConfigV2) (cs : list MatrixCheckConfigV2)
    (check_runtime : btmap string string) (checks_by_runtime : btmap string (list CheckConfig)) : Prop := {
  as_nodup : NoDup (mk_id <$> cs);
  as_runtime_of : check_runtime = map_from_list (assigned <$> cs);
  as_groups : ∀ id, default [] (map_get id checks_by_runtime) = of_runtime id cs;
  as_known : ∀ c, c ∈ cs → mk_runtime_id c ∈ map_keys runtimes;
}.

Lemma of_runtime_snoc id cs c :
  of_runtime id (cs ++ [c]) = of_runtime id cs ++ (if decide (mk_runtime_id c = id) then [check_as_v1 c] else []).
Proof.
  unfold of_runtime. rewrite filter_app, fmap_app. f_equal.
  destruct (decide (mk_runtime_id c = id)) as [E|E].
  - by rewrite filter_cons_True, filter_nil by done.
  - by rewrite filter_cons_False, filter_nil by done.
Qed.

Lemma assignment_loop runtimes cs st :
  try_fold (assignment_step runtimes) ([], []) cs = Ok st → assignments runtimes cs st.1 st.2.
Proof.
  apply (try_fold_inv (λ cs st, assignments runtimes cs st.1 st.2)).
  - constructor; [constructor|done..|]. intros c Hc. by apply elem_of_nil in Hc.
  - intros pre c [m g] st' [Hnd Hm Hg Hk] H. cbn [fst snd] in *. unfold assignment_step in H. res_inv. bool_prop. subst.
    rename select (map_contains _ (map_from_list _) = false) into Hc.
    rename select (map_contains _ runtimes = true) into Hr. constructor; cbn [fst snd].
    + rewrite fmap_app. apply NoDup_app. split_and!; [done| |apply NoDup_singleton].
      intros x Hx ->%list_elem_of_singleton. apply not_true_iff_false in Hc. apply Hc, map_contains_spec.
      apply elem_of_map_keys_from_list. rewrite <-list_fmap_compose. exact Hx.
    + rewrite fmap_app. cbn [fmap list_fmap]. by rewrite map_from_list_last.
    + intros id. rewrite map_get_insert, of_runtime_snoc, <-!Hg.
      destruct (decide (id = mk_runtime_id c)) as [->|D]; [by rewrite decide_True|].
      rewrite decide_False by congruence. by rewrite app_nil_r.
    + intros x [Hx|Hx%list_elem_of_singleton]%elem_of_app; [auto|subst x]. by apply map_contains_spec.
Qed.

(** ** The plan of one runtime *)

(** What the plans of all runtimes share. *)
Definition shares `{Backend} (c : MatrixConfigV2) (s : shared_parts) : Prop :=
  normalize_caches (mc_caches c) = Ok (sh_caches s) ∧
  normalize_environment "1.0" (environment_as_v1 (mc_environment c)) (sh_caches s) = Ok (sh_environment s) ∧
  sh_receipt s = {| nrec_output := rec_output (mc_receipt c);
                    nrec_freshness_seconds := rec_freshness_seconds (mc_receipt c) |}.

Lemma shares_functional `{Backend} c s s' : shares c s → shares c s' → s = s'.
Proof.
  intros (Hc & He & Hr) (Hc' & He' & Hr'). destruct s, s'; cbn in *. rewrite Hc in Hc'. injection Hc' as <-.
  rewrite He in He'. injection He' as <-. congruence.
Qed.

Lemma group_plan_parts `{Backend} c r checks g :
  into_plan (group_config c r checks) = Ok g →
  shares c {| sh_receipt := ep_receipt (pe_plan g); sh_environment := ep_environment (pe_plan g);
              sh_caches := ep_caches (pe_plan g) |} ∧
  ep_schema_version (pe_plan g) = "1.0" ∧ ep_project (pe_plan g) = mc_project c ∧
  ep_storage (pe_plan g) = None ∧ canonical_digest (pe_plan g) = Ok (pe_plan_digest g) ∧
  pe_fixed_environment g = [].
Proof.
  intros Hg. pose proof (into_plan_ok _ _ Hg) as (_ & Hc & He & _ & Hs & _ & Hd). unfold into_plan in Hg.
  res_inv. subst. cbn in *. unfold shares. cbn. split_and!; try done.
  unfold normalize_storage in Hs. cbn in Hs. by injection Hs.
Qed.

(** The plan a runtime of a configuration has alone. *)
Definition group_plan `{Backend} (c : MatrixConfigV2) (entry : string * MatrixRuntimeConfigV2) :
    result ConfigError ExecutionPlanEnvelopeV1 :=
  into_plan (group_config c entry.2 (of_runtime entry.1 (mc_checks c))).

Definition planned `{Backend} (c : MatrixConfigV2) (entry : string * MatrixRuntimeConfigV2)
    (r : MatrixRuntimePlanV2) : Prop :=
  existsb ck_required (of_runtime entry.1 (mc_checks c)) = true ∧
  ∃ g, group_plan c entry = Ok g ∧
    r = {| mrp_id := entry.1; mrp_configuration_digest := pe_plan_digest g;
           mrp_runtime := ep_runtime (pe_plan g); mrp_checks := ep_checks (pe_plan g) |}.

Lemma group_loop `{Backend} c checks_by_runtime l st :
  (∀ id, default [] (map_get id checks_by_runtime) = of_runtime id (mc_checks c)) → NoDup l.*1 →
  try_fold (group_step c) (checks_by_runtime, None, []) l = Ok st →
  Forall2 (planned c) l st.2 ∧ match st.1.2 with Some s => shares c s | None => l = [] end.
Proof.
  intros Hg Hnd Hf.
  assert (Hinv : NoDup l.*1 →
    Forall2 (planned c) l st.2 ∧ match st.1.2 with Some s => shares c s | None => l = [] end ∧
    ∀ id, id ∉ l.*1 → default [] (map_get id st.1.1) = of_runtime id (mc_checks c)).
  { revert Hf. apply (try_fold_inv (λ l st, NoDup l.*1 →
      Forall2 (planned c) l st.2 ∧ match st.1.2 with Some s => shares c s | None => l = [] end ∧
      ∀ id, id ∉ l.*1 → default [] (map_get id st.1.1) = of_runtime id (mc_checks c))).
    - intros _. split_and!; [constructor|done|auto].
    - intros pre [id r] [[m sh] ps] st' IH H1 Hnd'. rewrite fmap_app in Hnd'. apply NoDup_app in Hnd' as (Hpre & Hid & _).
      destruct (IH Hpre) as (Hps & Hsh & Hm). cbn [fst snd] in *. unfold group_step in H1. res_inv. bool_prop. subst.
      rewrite Hm in * by (intros Hin; by apply (Hid id), list_elem_of_singleton).
      rename select (into_plan _ = Ok _) into Hplan. cbn [fst snd]. split_and!.
      + apply Forall2_app; [done|]. constructor; [|constructor]. split; [done|]. by eexists.
      + destruct sh as [s|]; [done|]. by apply group_plan_parts in Hplan as [? _].
      + intros id' Hn. rewrite fmap_app in Hn. apply not_elem_of_app in Hn as [Hn Hne].
        rewrite map_get_remove_key, decide_False; [auto|]. intros ->. apply Hne. by left. }
  destruct (Hinv Hnd) as (? & ? & _). done.
Qed.

Lemma matrix_plan_ok `{Backend} c p :
  matrix_plan c = Ok p →
  NoDup (mr_id <$> mc_runtimes c) ∧ (2 ≤ length (mc_runtimes c))%nat ∧ NoDup (mk_id <$> mc_checks c) ∧
  (∀ check, check ∈ mc_checks c → mk_runtime_id check ∈ mr_id <$> mc_runtimes c) ∧
  mp_project p = mc_project c ∧
  shares c {| sh_receipt := mp_receipt p; sh_environment := mp_environment p; sh_caches := mp_caches p |} ∧
  Forall2 (planned c) (map_from_list (by_id <$> mc_runtimes c)) (mp_runtimes p).
Proof.
  unfold matrix_plan. intros Hm0. res_inv. bool_prop. subst.
  rename select (try_fold runtime_step _ _ = _) into Hr. apply runtime_loop in Hr as [Hnd ->].
  rename select (try_fold (assignment_step _) _ _ = _) into Ha. apply assignment_loop in Ha as [Hck Hm Hg Hk].
  destruct x2 as [check_runtime groups]. res_inv.
  rename select (try_fold (group_step _) _ _ = _) into Hp.
  match type of Hp with _ = Ok ?st => destruct st as [[rest sh] plans] end. res_inv. cbn [fst snd] in *.
  apply group_loop in Hp as [Hplans Hsh]; [|done|apply sorted_nodup, map_from_list_sorted]. cbn [fst snd] in *.
  rename select (in_range _ _ _ = true) into Hlen. apply in_range_spec in Hlen. subst. cbn in Hsh.
  split_and!; try done; [lia|]. intros check Hin. apply Hk in Hin. rewrite elem_of_map_keys_from_list in Hin.
  by rewrite <-list_fmap_compose in Hin.
Qed.

(** The plan of a runtime in the matrix is the plan it has alone. *)
Lemma planned_runtime_plan `{Backend} c p entry r :
  shares c {| sh_receipt := mp_receipt p; sh_environment := mp_environment p; sh_caches := mp_caches p |} →
  mp_project p = mc_project c → planned c entry r →
  ∃ g, group_plan c entry = Ok g ∧ mrp_id r = entry.1 ∧ mrp_configuration_digest r = pe_plan_digest g ∧
    runtime_plan p r = pe_plan g ∧ canonical_digest (pe_plan g) = Ok (pe_plan_digest g) ∧
    pe_fixed_environment g = [].
Proof.
  intros Hs Hproj (_ & g & Hg & ->). exists g. pose proof (group_plan_parts _ _ _ _ Hg) as (Hs' & Hv & Hp & Hst & Hd & Hf).
  pose proof (shares_functional _ _ _ Hs Hs') as [= E1 E2 E3]. split_and!; try done.
  unfold runtime_plan. cbn. rewrite E1, E2, E3, Hproj, <-Hp, <-Hv, <-Hst. by destruct (pe_plan g).
Qed.

Lemma mapM_Forall2 {E A B C} (f : B → result E C) (P : A → B → Prop) (Q : A → C → Prop) l rs :
  Forall2 P l rs → (∀ x r, x ∈ l → r ∈ rs → P x r → ∃ y, f r = Ok y ∧ Q x y) →
  ∃ ys, mapM f rs = Ok ys ∧ Forall2 Q l ys.
Proof.
  induction 1 as [|x r l rs Hx _ IH]; intros Hf; [by exists []|].
  destruct (Hf x r) as (y & Hy & HQ); [left|left|done|].
  destruct IH as (ys & Hys & HQs); [intros ? ? ? ?; apply Hf; by right|].
  exists (y :: ys). cbn. rewrite Hy. cbn. rewrite Hys. by split; [|constructor].
Qed.

Lemma find_by_id (rs : list MatrixRuntimePlanV2) r :
  NoDup (mrp_id <$> rs) → r ∈ rs → List.find (λ x, mrp_id x =? mrp_id r)%string rs = Some r.
Proof.
  induction rs as [|x rs IH]; [by intros _ ?%elem_of_nil|]. cbn. intros [Hx Hnd]%NoDup_cons Hr.
  destruct (String.eqb_spec (mrp_id x) (mrp_id r)) as [E|D].
  - apply elem_of_cons in Hr as [->|Hr]; [done|]. destruct Hx. rewrite E. by apply list_elem_of_fmap_2.
  - apply elem_of_cons in Hr as [->|Hr]; [done|auto].
Qed.

(** ** The projection to the earlier format *)

(** The earlier form of the plan of one runtime. *)
Definition legacy_execution_plan (p : ExecutionPlanV1) : result MatrixError LegacyExecutionPlanV1 :=
  environment_allow ← legacy_environment (ep_environment p);
  checks ← mapM legacy_check (ep_checks p);
  runtime ← legacy_runtime (ep_runtime p);
  Ok {| le_schema_version := ep_schema_version p; le_project := ep_project p; le_runtime := runtime;
        le_receipt := legacy_receipt (ep_receipt p); le_environment_allow := environment_allow;
        le_caches := legacy_cache <$> ep_caches p; le_checks := checks |}.

Definition legacy_of `{Backend} (p : MatrixPlanV2) (r : MatrixRuntimePlanV2) (l : LegacyMatrixRuntimePlanV2) : Prop :=
  ∃ plan digest, legacy_execution_plan (runtime_plan p r) = Ok plan ∧ canonical_digest plan = Ok digest ∧
    l = {| lmr_id := mrp_id r; lmr_configuration_digest := digest; lmr_runtime := le_runtime plan;
           lmr_checks := le_checks plan |}.

Definition digest_entry (l : LegacyMatrixRuntimePlanV2) : string * string :=
  (lmr_id l, lmr_configuration_digest l).

Lemma project_legacy_ok `{Backend} p b :
  project_legacy_basis p = Ok b →
  Forall2 (legacy_of p) (mp_runtimes p) (lm_runtimes (lb_plan b)) ∧
  legacy_environment (mp_environment p) = Ok (lm_environment_allow (lb_plan b)) ∧
  lb_runtime_digests b = map_from_list (digest_entry <$> lm_runtimes (lb_plan b)) ∧
  lm_schema (lb_plan b) = mp_schema_version p ∧ lm_project (lb_plan b) = mp_project p ∧
  lm_receipt (lb_plan b) = legacy_receipt (mp_receipt p) ∧
  lm_caches (lb_plan b) = legacy_cache <$> mp_caches p.
Proof.
  unfold project_legacy_basis. intros Hp. apply bind_ok in Hp as (allow & Hallow & Hp).
  apply bind_ok in Hp as ([digests ls] & Hf & [= <-]). cbn.
  assert (Hinv : Forall2 (legacy_of p) (mp_runtimes p) ls ∧ digests = map_from_list (digest_entry <$> ls)).
  { revert Hf. apply (try_fold_inv (λ rs st, Forall2 (legacy_of p) rs st.2 ∧
      st.1 = map_from_list (digest_entry <$> st.2)) (legacy_runtime_step p allow) (mp_runtimes p) ([], []) (digests, ls)).
    - by split; [constructor|].
    - intros pre r [m l] st' [Hl Hm] Hstep. cbn [fst snd] in *. unfold legacy_runtime_step in Hstep. res_inv. subst.
      cbn [fst snd]. split.
      + apply Forall2_app; [done|]. constructor; [|constructor]. eexists _, _. split_and!; [|done|done].
        unfold legacy_execution_plan. cbn. rewrite Hallow. cbn.
        rename select (mapM _ _ = _) into Hc. rewrite Hc. cbn. rename select (legacy_runtime _ = _) into Hr. by rewrite Hr.
      + rewrite fmap_app. cbn [fmap list_fmap]. by rewrite map_from_list_last. }
  destruct Hinv as [? ->]. by split_and!.
Qed.

(** The digests of the runtimes are not part of the projection. *)
Definition same_runtime (r r' : MatrixRuntimePlanV2) : Prop :=
  mrp_id r = mrp_id r' ∧ mrp_runtime r = mrp_runtime r' ∧ mrp_checks r = mrp_checks r'.

Lemma legacy_runtime_same `{Backend} p q allow st r r' :
  mp_project q = mp_project p → mp_receipt q = mp_receipt p → mp_caches q = mp_caches p → same_runtime r r' →
  legacy_runtime_step q allow st r' = legacy_runtime_step p allow st r.
Proof.
  intros Hp Hr Hc (Hid & Hrt & Hck). unfold legacy_runtime_step. destruct st as [m l].
  by rewrite Hp, Hr, Hc, Hid, Hrt, Hck.
Qed.

Lemma project_legacy_digests `{Backend} p rs :
  Forall2 same_runtime (mp_runtimes p) rs → project_legacy_basis (set_runtimes rs p) = project_legacy_basis p.
Proof.
  intros Hs. unfold project_legacy_basis. cbn. destruct (legacy_environment _) as [allow|]; [|done]. cbn.
  assert (E : ∀ st, try_fold (legacy_runtime_step (set_runtimes rs p) allow) st rs
                    = try_fold (legacy_runtime_step p allow) st (mp_runtimes p)); [|by rewrite E].
  set (q := set_runtimes rs p). assert (mp_project q = mp_project p ∧ mp_receipt q = mp_receipt p ∧ mp_caches q = mp_caches p)
    as (? & ? & ?) by done. clearbody q. induction Hs as [|r r' l l' Hr _ IH]; intros st; [done|]. cbn.
  rewrite (legacy_runtime_same p q allow st r r') by done.
  destruct (legacy_runtime_step p allow st r); [apply IH|done].
Qed.

Lemma legacy_digest_ok b rs rs' :
  mapM (legacy_digest_of b) rs = Ok rs' →
  Forall2 same_runtime rs rs' ∧ Forall (λ r, runtime_digest b (mrp_id r) = Ok (mrp_configuration_digest r)) rs'.
Proof.
  rewrite mapM_result_ok. induction 1 as [|r r' rs rs' Hr _ [IH1 IH2]]; [by split; constructor|].
  unfold legacy_digest_of in Hr. res_inv. subst. split; constructor; [done|done|done|done].
Qed.

(** The digest a basis has for a runtime is that of its earlier form. *)
Lemma basis_digest `{Backend} p b r :
  project_legacy_basis p = Ok b → NoDup (mrp_id <$> mp_runtimes p) → r ∈ mp_runtimes p →
  ∃ plan digest, legacy_execution_plan (runtime_plan p r) = Ok plan ∧ canonical_digest plan = Ok digest ∧
    runtime_digest b (mrp_id r) = Ok digest.
Proof.
  intros (Hl & _ & Hd & _)%project_legacy_ok Hnd Hr. apply list_elem_of_lookup in Hr as [i Hi].
  destruct (Forall2_lookup_l _ _ _ _ _ Hl Hi) as (l & Hli & plan & digest & Hplan & Hdig & E).
  exists plan, digest. split_and!; [done|done|]. unfold runtime_digest. rewrite Hd.
  assert (Hkeys : (digest_entry <$> lm_runtimes (lb_plan b)).*1 = mrp_id <$> mp_runtimes p).
  { clear -Hl. induction Hl as [|r l rs ls (? & ? & _ & _ & ->) _ IH]; [done|]. cbn. by rewrite IH. }
  rewrite (map_get_of_list _ _ digest); [done|by rewrite Hkeys|]. apply list_elem_of_fmap. exists l.
  split; [by rewrite E|by eapply list_elem_of_lookup_2].
Qed.

(** ** The envelope that is built *)

Lemma planned_ids `{Backend} c l rs : Forall2 (planned c) l rs → mrp_id <$> rs = l.*1.
Proof. induction 1 as [|x r l rs (_ & g & _ & ->) _ IH]; [done|]. cbn. by rewrite IH. Qed.

Lemma plan_ids `{Backend} c p :
  matrix_plan c = Ok p →
  NoDup (mrp_id <$> mp_runtimes p) ∧ set_sorted (mrp_id <$> mp_runtimes p) ∧
  mrp_id <$> mp_runtimes p ≡ₚ mr_id <$> mc_runtimes c.
Proof.
  intros (Hnd & _ & _ & _ & _ & _ & Hp)%matrix_plan_ok. rewrite (planned_ids _ _ _ Hp).
  pose proof (map_from_list_sorted (by_id <$> mc_runtimes c)) as Hs. unfold map_sorted, map_keys in Hs.
  split_and!; [by apply sorted_nodup|done|]. rewrite map_from_list_perm by by rewrite <-list_fmap_compose.
  by rewrite <-list_fmap_compose.
Qed.

(** What the builder returns, by profile. *)
Lemma build_ok `{Backend} c profile e :
  build_matrix_plan c profile = Ok e →
  ∃ p, matrix_plan c = Ok p ∧ mpe_profile e = profile ∧
    match profile with
    | CurrentV2 => mpe_plan e = p ∧ mpe_legacy_basis e = None ∧ canonical_digest p = Ok (mpe_plan_digest e)
    | LegacyV1 => ∃ b rs, project_legacy_basis p = Ok b ∧ mapM (legacy_digest_of b) (mp_runtimes p) = Ok rs ∧
        outer_digest b = Ok (mpe_plan_digest e) ∧ mpe_plan e = set_runtimes rs p ∧ mpe_legacy_basis e = Some b
    end.
Proof.
  unfold build_matrix_plan, build_plan_with_profile. intros Hb. apply bind_ok in Hb as (p & Hp & Hb).
  exists p. split; [done|]. destruct profile; res_inv; subst; cbn; split; try done. eauto 10.
Qed.

Lemma build_bound `{Backend} c profile e :
  build_matrix_plan c profile = Ok e → validate_profile_binding e = Ok ().
Proof.
  intros (p & Hp & Hprof & Hcase)%build_ok. unfold validate_profile_binding. rewrite Hprof. destruct profile.
  - destruct Hcase as (-> & -> & Hd). cbn. rewrite Hd. cbn. by rewrite String.eqb_refl.
  - destruct Hcase as (b & rs & Hb & Hrs & Hd & -> & ->). apply legacy_digest_ok in Hrs as [Hsame Hdig]. cbn.
    rewrite project_legacy_digests, Hb by done. cbn. rewrite bool_decide_true by done. cbn. rewrite Hd. cbn.
    rewrite String.eqb_refl. cbn. apply try_each_ok. eapply Forall_impl; [exact Hdig|]. intros r Hr.
    unfold runtime_digest_bound. rewrite Hr. cbn. by rewrite String.eqb_refl.
Qed.

(** ** The checks of the runtimes *)

Lemma partition_by {A} (f : A → string) ids (cs : list A) :
  NoDup ids → (∀ c, c ∈ cs → f c ∈ ids) → (ids ≫= λ i, filter (λ c, f c = i) cs) ≡ₚ cs.
Proof.
  intros Hnd. induction cs as [|c cs IH]; intros Hin.
  { clear. induction ids as [|i ids IH]; [done|]. cbn. exact IH. }
  specialize (IH (λ x Hx, Hin x (list_elem_of_further _ _ _ Hx))).
  assert (Hc : f c ∈ ids) by (apply Hin; left). apply list_elem_of_split in Hc as (pre & post & ->).
  apply NoDup_app in Hnd as (_ & Hpre & Hpost). apply NoDup_cons in Hpost as [Hpost _].
  assert (Hskip : ∀ l, f c ∉ l → (l ≫= λ i, filter (λ x, f x = i) (c :: cs)) = (l ≫= λ i, filter (λ x, f x = i) cs)).
  { induction l as [|i l IHl]; [done|]. intros [Hi Hl]%not_elem_of_cons. rewrite !bind_cons, IHl by done.
    by rewrite filter_cons_False. }
  rewrite !bind_app, !bind_cons, !Hskip, filter_cons_True by
    (done || (intros Hi; apply (Hpre _ Hi); by left)).
  rewrite <-app_comm_cons, <-Permutation_middle. f_equiv. by rewrite bind_app, bind_cons in IH.
Qed.

Lemma normalize_checks_ids checks l : normalize_checks checks = Ok l → nk_id <$> l ≡ₚ ck_id <$> checks.
Proof.
  intros (ps & Hps & Hp & _)%normalize_checks_sorted. rewrite Hp, <-list_fmap_compose. clear Hp.
  induction Hps as [|c p cs ps Hc _ IH]; [done|]. cbn. apply prepare_check_id in Hc as [E _].
  rewrite IH. by rewrite E.
Qed.

Lemma group_plan_checks `{Backend} c entry g :
  group_plan c entry = Ok g →
  nk_id <$> ep_checks (pe_plan g) ≡ₚ mk_id <$> filter (λ check, mk_runtime_id check = entry.1) (mc_checks c).
Proof.
  unfold group_plan. intros (_ & _ & _ & Hc & _)%into_plan_ok. cbn in Hc. apply normalize_checks_ids in Hc.
  rewrite Hc. unfold of_runtime. by rewrite <-list_fmap_compose.
Qed.
