(* ===== verification/MatrixReceipt.v ===== *)
(** Receipts of a matrix and their verification ([src/src/matrix.rs]): one sealed
    receipt of [Receipt.v] per runtime inside an outer receipt, and a policy that
    assigns every required check to a runtime. *)
From S2P Require Import Prelude.
From S2P Require Import RustStr.
From S2P Require Import BTree.
From S2P Require Import Calendar.
From S2P Require Import Canonical.
From S2P Require Import Config.
From S2P Require Import Receipt.
From S2P Require Import Verify.
From S2P Require Import Matrix.
Local Open Scope Z_scope.

(** * Data *)

Record MatrixRuntimeReceiptV2 : Type := {
  mrr_runtime_id : string;
  mrr_receipt : ReceiptEnvelopeV1;
}.

Record MatrixReceiptV2 : Type := {
  mrc_schema_version : string;
  mrc_producer : ProducerEvidence;
  mrc_repository : RepositoryEvidence;
  mrc_run : RunEvidence;
  mrc_configuration_digest : string;
  mrc_runtime_receipts : list MatrixRuntimeReceiptV2;
  mrc_overall_status : EvidenceStatus;
  mrc_incomplete_reason : option string;
  mrc_redaction_policy_version : string;
}.

Record MatrixReceiptEnvelopeV2 : Type := {
  mre_receipt_id : string;
  mre_receipt : MatrixReceiptV2;
}.

Record MatrixRequiredCheckV2 : Type := {
  mq_id : string;
  mq_runtime_id : string;
}.

Record MatrixRuntimePolicyV2 : Type := {
  mpr_id : string;
  mpr_configuration_digest : string;
  mpr_image_reference : string;
  mpr_platforms : list AcceptedPlatformV1;
}.

Record MatrixVerificationPolicyV2 : Type := {
  mvp_schema_version : string;
  mvp_project : string;
  mvp_configuration_digest : string;
  mvp_required_checks : list MatrixRequiredCheckV2;
  mvp_max_age_seconds : Z;
  mvp_runtimes : list MatrixRuntimePolicyV2;
}.

#[global] Instance ProducerEvidence_eq_dec : EqDecision ProducerEvidence.
Proof. solve_decision. Defined.
#[global] Instance RepositoryEvidence_eq_dec : EqDecision RepositoryEvidence.
Proof. solve_decision. Defined.

#[global] Instance MatrixRuntimeReceiptV2_serialize : Serialize MatrixRuntimeReceiptV2 := λ r,
  obj [("runtime_id", to_value (mrr_runtime_id r)); ("receipt", to_value (mrr_receipt r))].

#[global] Instance MatrixReceiptV2_serialize : Serialize MatrixReceiptV2 := λ r,
  obj [("schema_version", to_value (mrc_schema_version r)); ("producer", to_value (mrc_producer r));
       ("repository", to_value (mrc_repository r)); ("run", to_value (mrc_run r));
       ("configuration_digest", to_value (mrc_configuration_digest r));
       ("runtime_receipts", to_value (mrc_runtime_receipts r));
       ("overall_status", to_value (mrc_overall_status r));
       ("incomplete_reason", to_value (mrc_incomplete_reason r));
       ("redaction_policy_version", to_value (mrc_redaction_policy_version r))].

#[global] Instance MatrixReceiptEnvelopeV2_serialize : Serialize MatrixReceiptEnvelopeV2 := λ e,
  obj [("receipt_id", to_value (mre_receipt_id e)); ("receipt", to_value (mre_receipt e))].

Definition derive_status (required : list EvidenceStatus) : EvidenceStatus :=
  if existsb (λ s, bool_decide (s = Fail)) required then Fail
  else if existsb (λ s, match s with Pending | NotRun => true | _ => false end) required then Pending
  else Pass.

(** [serde_json::from_slice] at the envelope. *)
Class MatrixParser := from_slice_matrix : list ascii → option MatrixReceiptEnvelopeV2.

Section Receipt.
Context `{Backend}.

(** * Validation *)

Definition check_id_step (st : btset string * list CheckEvidence) (check : CheckEvidence) :
    result MatrixError (btset string * list CheckEvidence) :=
  let '(check_ids, all_checks) := st in
  let '(fresh, check_ids) := set_insert (ce_id check) check_ids in
  _ ← ensure fresh (MDuplicateValue "runtime_receipts.checks.id");
  Ok (check_ids, all_checks ++ [check]).

Definition group_receipt_step (r : MatrixReceiptV2)
    (st : btset string * btset string * list CheckEvidence) (group : MatrixRuntimeReceiptV2) :
    result MatrixError (btset string * btset string * list CheckEvidence) :=
  let '(runtime_ids, check_ids, all_checks) := st in
  _ ← map_err MConfig (validate_identifier "runtime_receipts.runtime_id" (mrr_runtime_id group));
  let '(fresh, runtime_ids) := set_insert (mrr_runtime_id group) runtime_ids in
  _ ← ensure fresh (MDuplicateValue "runtime_receipts.runtime_id");
  _ ← map_err MReceipt (verify1 (mrr_receipt group));
  let receipt := e1_receipt (mrr_receipt group) in
  _ ← ensure (negb (bool_decide (r1_repository receipt ≠ mrc_repository r)
                    || bool_decide (r1_producer receipt ≠ mrc_producer r))) InvalidReceipt;
  '(check_ids, all_checks) ← try_fold check_id_step (check_ids, all_checks) (r1_checks receipt);
  Ok (runtime_ids, check_ids, all_checks).

(** The outer receipt as one receipt over all checks. *)
Definition combined_receipt (r : MatrixReceiptV2) (platform : PlatformEvidence)
    (all_checks : list CheckEvidence) : ReceiptV1 :=
  {| r1_schema_version := RECEIPT_SCHEMA_VERSION; r1_producer := mrc_producer r;
     r1_repository := mrc_repository r; r1_run := mrc_run r; r1_platform := platform;
     r1_configuration_digest := mrc_configuration_digest r; r1_checks := all_checks;
     r1_overall_status := mrc_overall_status r; r1_incomplete_reason := mrc_incomplete_reason r;
     r1_redaction_policy_version := mrc_redaction_policy_version r |}.

Definition MatrixReceiptV2_validate (r : MatrixReceiptV2) : result MatrixError () :=
  _ ← ensure (mrc_schema_version r =? MATRIX_RECEIPT_SCHEMA_VERSION)%string
        (MUnsupportedSchemaVersion (mrc_schema_version r));
  _ ← ensure (negb (rp_dirty (mrc_repository r) || (length (mrc_runtime_receipts r) <? 2)%nat)) InvalidReceipt;
  '(_, _, all_checks) ← try_fold (group_receipt_step r) ([], [], []) (mrc_runtime_receipts r);
  _ ← ensure (negb (is_nil all_checks)) InvalidReceipt;
  first ← ok_or (head (mrc_runtime_receipts r)) (MFault Panic);
  let platform := r1_platform (e1_receipt (mrr_receipt first)) in
  map_err MReceipt (ReceiptV1_validate (combined_receipt r platform all_checks)).

Definition matrix_seal (receipt : MatrixReceiptV2) : result MatrixError MatrixReceiptEnvelopeV2 :=
  _ ← MatrixReceiptV2_validate receipt;
  receipt_id ← map_err MReceipt (canonical_digest receipt);
  Ok {| mre_receipt_id := receipt_id; mre_receipt := receipt |}.

Definition matrix_verify (e : MatrixReceiptEnvelopeV2) : result MatrixError () :=
  _ ← MatrixReceiptV2_validate (mre_receipt e);
  expected ← map_err MReceipt (canonical_digest (mre_receipt e));
  ensure (expected =? mre_receipt_id e)%string ReceiptIdMismatch.

Definition matrix_receipt_bytes (e : MatrixReceiptEnvelopeV2) : result MatrixError (list ascii) :=
  _ ← matrix_verify e;
  map_err MReceipt (canonical_json e).

(** * Sealing a run *)

Definition seal_step (envelope : MatrixPlanEnvelopeV2) (expected_producer first : ProducerEvidence)
    (r : MatrixRuntimeReceiptV2) : result MatrixError () :=
  expected_configuration_digest ← runtime_configuration_digest envelope (mrr_runtime_id r);
  let receipt := e1_receipt (mrr_receipt r) in
  ensure (negb (bool_decide (r1_producer receipt ≠ first)
                || bool_decide (r1_producer receipt ≠ expected_producer)
                || negb (r1_configuration_digest receipt =? expected_configuration_digest)%string))
    InvalidReceipt.

Definition validate_matrix_receipts_for_seal (envelope : MatrixPlanEnvelopeV2)
    (runtime_receipts : list MatrixRuntimeReceiptV2) : result MatrixError ProducerEvidence :=
  _ ← validate_profile_binding envelope;
  let expected_producer := {| pr_name := CARGO_PKG_NAME;
                              pr_version := producer_version (mpe_profile envelope) |} in
  first ← ok_or (head runtime_receipts) InvalidReceipt;
  let producer := r1_producer (e1_receipt (mrr_receipt first)) in
  _ ← ensure (bool_decide (producer = expected_producer)) InvalidReceipt;
  _ ← try_each (seal_step envelope expected_producer producer) runtime_receipts;
  Ok expected_producer.

Definition seal_matrix_run_material (envelope : MatrixPlanEnvelopeV2) (receipt : MatrixReceiptV2) :
    result MatrixError MatrixReceiptEnvelopeV2 :=
  _ ← validate_matrix_receipts_for_seal envelope (mrc_runtime_receipts receipt);
  matrix_seal receipt.
End Receipt.

(** * The policy *)

Definition runtime_baseline (p : MatrixVerificationPolicyV2) (r : MatrixRuntimePolicyV2) :
    VerificationPolicyV1 :=
  {| vp_schema_version := "1.0"; vp_project := mvp_project p;
     vp_configuration_digest := mpr_configuration_digest r; vp_required_checks := [mpr_id r];
     vp_image_reference := mpr_image_reference r; vp_max_age_seconds := mvp_max_age_seconds p;
     vp_platforms := mpr_platforms r |}.

Definition runtime_policy_step (p : MatrixVerificationPolicyV2) (runtime_ids : btset string)
    (r : MatrixRuntimePolicyV2) : result MatrixError (btset string) :=
  _ ← map_err MConfig (validate_identifier "runtimes.id" (mpr_id r));
  let '(fresh, runtime_ids) := set_insert (mpr_id r) runtime_ids in
  _ ← ensure fresh (MDuplicateValue "runtimes.id");
  _ ← map_err MPolicy (PolicyV1_validate (runtime_baseline p r));
  Ok runtime_ids.

Definition required_step (runtime_ids : btset string) (st : btset string * btset string)
    (check : MatrixRequiredCheckV2) : result MatrixError (btset string * btset string) :=
  let '(check_ids, coverage) := st in
  _ ← map_err MConfig (validate_identifier "required_checks.id" (mq_id check));
  _ ← map_err MConfig (validate_identifier "required_checks.runtime_id" (mq_runtime_id check));
  _ ← ensure (set_contains (mq_runtime_id check) runtime_ids) (UnknownRuntime (mq_runtime_id check));
  let '(fresh, check_ids) := set_insert (mq_id check) check_ids in
  _ ← ensure fresh (MDuplicateValue "required_checks.id");
  Ok (check_ids, (set_insert (mq_runtime_id check) coverage).2).

Definition MatrixPolicy_validate (p : MatrixVerificationPolicyV2) : result MatrixError () :=
  _ ← ensure (mvp_schema_version p =? MATRIX_POLICY_SCHEMA_VERSION)%string
        (MUnsupportedSchemaVersion (mvp_schema_version p));
  _ ← ensure (negb (negb (in_range 2 MAX_MATRIX_RUNTIMES (Z.of_nat (length (mvp_runtimes p))))
                    || is_nil (mvp_required_checks p))) (MInvalidField "runtimes_or_required_checks");
  runtime_ids ← try_fold (runtime_policy_step p) [] (mvp_runtimes p);
  '(_, coverage) ← try_fold (required_step runtime_ids) ([], []) (mvp_required_checks p);
  ensure (length coverage =? length runtime_ids)%nat (MInvalidField "required_checks.runtime_coverage").

(** [MatrixVerificationPolicyV2::parse]; [from_toml] is [toml::from_str]. *)
Definition matrix_policy_parse (from_toml : string → option MatrixVerificationPolicyV2) (source : string) :
    result MatrixError MatrixVerificationPolicyV2 :=
  _ ← ensure (negb (len source >? MAX_MATRIX_BYTES)) MConfigTooLarge;
  policy ← ok_or (from_toml source) MatrixParse;
  _ ← MatrixPolicy_validate policy;
  Ok policy.

(** * Verification *)

(** [as i64] of a [u64]. *)
Definition as_i64 (n : Z) : Z := if n >? i64_max then n - 2 ^ 64 else n.

Definition platform_accepted (platforms : list AcceptedPlatformV1) (platform : PlatformEvidence) : bool :=
  existsb (λ accepted, (ap_host_os accepted =? pl_host_os platform)%string
                       && (ap_host_arch accepted =? pl_host_arch platform)%string
                       && (ap_runtime_kind accepted =? pl_runtime_kind platform)%string) platforms.

Definition runtime_findings (receipt_runtimes : btmap string MatrixRuntimeReceiptV2)
    (findings : list VerificationFindingV1) (entry : string * MatrixRuntimePolicyV2) :
    list VerificationFindingV1 :=
  let '(runtime_id, expected) := entry in
  match map_get runtime_id receipt_runtimes with
  | None => findings
  | Some actual =>
    let receipt := e1_receipt (mrr_receipt actual) in
    let platform := r1_platform receipt in
    let findings := check_equal (r1_configuration_digest receipt) (mpr_configuration_digest expected)
      "policy.runtime_configuration" "runtime_receipts.configuration_digest"
      "receipt runtime configuration does not match repository policy" findings in
    let findings := check_equal (pl_image_reference platform) (mpr_image_reference expected)
      "policy.runtime_image" "runtime_receipts.platform.image_reference"
      "receipt runtime image does not match repository policy" findings in
    push_if (negb (platform_accepted (mpr_platforms expected) platform))
      (finding "policy.runtime_platform" "runtime_receipts.platform"
         "receipt runtime platform tuple is not accepted by repository policy") findings
  end.

Definition check_findings (actual_checks : btmap string (string * CheckEvidence))
    (findings : list VerificationFindingV1) (entry : string * string) : list VerificationFindingV1 :=
  let '(id, runtime_id) := entry in
  match map_get id actual_checks with
  | Some (actual_runtime, check) =>
    if (actual_runtime =? runtime_id)%string && bool_decide (ce_status check = Pass) then findings
    else if negb (actual_runtime =? runtime_id)%string then
      findings ++ [finding "policy.check_runtime" "checks.runtime_id"
                     "required check ran in a different runtime than repository policy"]
    else findings ++ [finding "policy.required_check_result" "checks.status"
                        "one or more policy-required checks did not PASS"]
  | None => findings
  end.

(** The required checks of the receipt with their runtimes, in its order. *)
Definition required_evidence (r : MatrixReceiptV2) : list (string * (string * CheckEvidence)) :=
  mrc_runtime_receipts r ≫= λ group,
    (λ check, (ce_id check, (mrr_runtime_id group, check)))
      <$> filter (λ check, ce_required check = true) (r1_checks (e1_receipt (mrr_receipt group))).

Definition freshness_findings (finished_at_utc : string) (evaluated_at max_age_seconds : Z)
    (findings : list VerificationFindingV1) : list VerificationFindingV1 :=
  match parse_utc_seconds finished_at_utc with
  | Some finished =>
    if finished >? evaluated_at then
      findings ++ [finding "policy.future_receipt" "run.finished_at_utc"
                     "receipt completion time is later than verification time"]
    else if evaluated_at - finished >? as_i64 max_age_seconds then
      findings ++ [finding "policy.stale_receipt" "run.finished_at_utc"
                     "receipt exceeds repository freshness policy"]
    else findings
  | None => findings ++ [finding "policy.invalid_time" "run.finished_at_utc"
                           "receipt completion time cannot be evaluated"]
  end.

Definition evaluate_matrix_policy (e : MatrixReceiptEnvelopeV2) (policy : MatrixVerificationPolicyV2)
    (expected_commit : string) (evaluated_at : Z) (findings : list VerificationFindingV1) :
    list VerificationFindingV1 :=
  let receipt := mre_receipt e in
  let findings := check_equal (rp_repository (mrc_repository receipt)) (mvp_project policy)
    "policy.repository" "repository.repository"
    "receipt project does not match repository policy" findings in
  let findings := check_equal (rp_commit_sha (mrc_repository receipt)) expected_commit
    "policy.commit" "repository.commit_sha"
    "receipt commit does not match the externally supplied commit" findings in
  let findings := push_if (rp_dirty (mrc_repository receipt))
    (finding "policy.dirty" "repository.dirty" "repository policy requires a clean checkout") findings in
  let findings := check_equal (mrc_configuration_digest receipt) (mvp_configuration_digest policy)
    "policy.configuration" "configuration_digest"
    "receipt configuration digest does not match repository policy" findings in
  let findings := push_if (bool_decide (mrc_overall_status receipt ≠ Pass))
    (finding "policy.overall_status" "overall_status"
       "repository policy requires an overall PASS receipt") findings in
  let policy_runtimes := map_from_list ((λ r, (mpr_id r, r)) <$> mvp_runtimes policy) in
  let receipt_runtimes := map_from_list ((λ r, (mrr_runtime_id r, r)) <$> mrc_runtime_receipts receipt) in
  let findings := push_if
    (negb (length policy_runtimes =? length receipt_runtimes)%nat
     || existsb (λ id, negb (map_contains id receipt_runtimes)) (map_keys policy_runtimes))
    (finding "policy.runtime_set" "runtime_receipts"
       "receipt runtime set does not exactly match repository policy") findings in
  let findings := foldl (runtime_findings receipt_runtimes) findings policy_runtimes in
  let expected_checks := map_from_list ((λ c, (mq_id c, mq_runtime_id c)) <$> mvp_required_checks policy) in
  let actual_checks := map_from_list (required_evidence receipt) in
  let findings := push_if
    (negb (length actual_checks =? length expected_checks)%nat
     || existsb (λ id, negb (map_contains id actual_checks)) (map_keys expected_checks))
    (finding "policy.required_check_set" "checks"
       "required check set does not exactly match repository policy") findings in
  let findings := foldl (check_findings actual_checks) findings expected_checks in
  freshness_findings (rn_finished_at_utc (mrc_run receipt)) evaluated_at (mvp_max_age_seconds policy) findings.

(** The report before the document is looked at. *)
Definition matrix_report (expected_commit evaluated_at_utc : string)
    (findings : list VerificationFindingV1) : VerificationReportV1 :=
  {| vr_schema_version := VERIFICATION_REPORT_SCHEMA_VERSION;
     vr_assurance_scope := "integrity_and_repository_policy_only";
     vr_evaluated_at_utc := evaluated_at_utc; vr_expected_commit := expected_commit;
     vr_receipt_id := None; vr_integrity_status := VFail; vr_policy_status := VNotRun;
     vr_decision := DFail; vr_findings := findings |}.

Definition verify_matrix_receipt_document `{Backend, MatrixParser} (bytes : list ascii)
    (policy : MatrixVerificationPolicyV2) (expected_commit evaluated_at_utc : string) :
    result MatrixError VerificationReportV1 :=
  _ ← MatrixPolicy_validate policy;
  _ ← map_err MVerification (PolicyFields.validate_commit expected_commit);
  evaluated_at ← ok_or (parse_utc_seconds evaluated_at_utc) MInvalidEvaluationTime;
  match from_slice_matrix bytes with
  | None => Ok (matrix_report expected_commit evaluated_at_utc
                  [finding "receipt.parse_or_shape" "receipt" "receipt is not valid strict schema v2 JSON"])
  | Some envelope =>
    if negb (is_ok (matrix_verify envelope)) then
      Ok (matrix_report expected_commit evaluated_at_utc
            [finding "receipt.semantic_or_digest_invalid" "receipt" "receipt violates v2 integrity invariants"])
    else
      let findings := evaluate_matrix_policy envelope policy expected_commit evaluated_at [] in
      let policy_status := if negb (is_nil findings) then VFail else VPass in
      Ok {| vr_schema_version := VERIFICATION_REPORT_SCHEMA_VERSION;
            vr_assurance_scope := "integrity_and_repository_policy_only";
            vr_evaluated_at_utc := evaluated_at_utc; vr_expected_commit := expected_commit;
            vr_receipt_id := Some (mre_receipt_id envelope); vr_integrity_status := VPass;
            vr_policy_status := policy_status;
            vr_decision := if bool_decide (policy_status = VPass) then DPass else DFail;
            vr_findings := findings |}
  end.
