(* ===== verification/MatrixReceiptProps.v ===== *)
(** Lemmas on the receipts of a matrix and on their policy ([MatrixReceipt.v]):
    what validation guarantees, and what a policy accepts. *)
From S2P Require Import Prelude.
From S2P Require Import RustStr.
From S2P Require Import BTree.
From S2P Require Import Calendar.
From S2P Require Import Canonical.
From S2P Require Import Config.
From S2P Require Import Receipt.
From S2P Require Import ReceiptProps.
From S2P Require Import Verify.
From S2P Require Import VerifyProps.
From S2P Require Import Matrix.
From S2P Require Import MatrixProps.
From S2P Require Import MatrixReceipt.
Local Open Scope Z_scope.

(** ** Collecting distinct names *)

Lemma collect_fresh (l : list string) x fresh s :
  NoDup l → set_insert x (set_from_list l) = (fresh, s) → fresh = true →
  NoDup (l ++ [x]) ∧ s = set_from_list (l ++ [x]).
Proof.
  intros Hnd E ->. destruct (set_from_list_spec l) as [Hs Hin]. split.
  - apply NoDup_app. split_and!; [done| |apply NoDup_singleton]. intros y Hy ->%list_elem_of_singleton.
    pose proof (set_insert_new x _ Hs) as Hnew. rewrite E in Hnew. by apply Hnew, Hin.
  - by rewrite set_from_list_snoc, E.
Qed.

Lemma length_set_from_list (l : list string) : NoDup l → length (set_from_list l) = length l.
Proof.
  intros Hnd. apply Permutation_length, NoDup_Permutation; [apply sorted_nodup, set_from_list_spec|done|].
  apply set_from_list_spec.
Qed.

(** Two lists of names without repetition name the same things. *)
Lemma same_names (l m : list string) :
  NoDup l → NoDup m → (length l = length m ∧ ∀ x, x ∈ l → x ∈ m) ↔ ∀ x, x ∈ l ↔ x ∈ m.
Proof.
  intros Hl Hm. split.
  - intros [Hlen Hin] x. split; [auto|]. intros Hx.
    assert (Hs : l ⊆+ m) by (apply NoDup_submseteq; done).
    apply submseteq_length_Permutation in Hs; [by rewrite Hs|lia].
  - intros Hin. split; [|by intros x ?%Hin]. by apply Permutation_length, NoDup_Permutation.
Qed.

(** ** Validation of a receipt *)

Definition checks_of (g : MatrixRuntimeReceiptV2) : list CheckEvidence := r1_checks (e1_receipt (mrr_receipt g)).

Definition group_valid `{Backend} (r : MatrixReceiptV2) (g : MatrixRuntimeReceiptV2) : Prop :=
  verify1 (mrr_receipt g) = Ok () ∧ r1_repository (e1_receipt (mrr_receipt g)) = mrc_repository r ∧
  r1_producer (e1_receipt (mrr_receipt g)) = mrc_producer r.

Lemma check_id_loop (all l : list CheckEvidence) ids st :
  ids = set_from_list (ce_id <$> all) → NoDup (ce_id <$> all) →
  try_fold check_id_step (ids, all) l = Ok st →
  NoDup (ce_id <$> all ++ l) ∧ st = (set_from_list (ce_id <$> all ++ l), all ++ l).
Proof.
  intros -> Hnd. apply (try_fold_inv (λ l st, NoDup (ce_id <$> all ++ l) ∧
    st = (set_from_list (ce_id <$> all ++ l), all ++ l))).
  - by rewrite app_nil_r.
  - intros pre c st1 st2 [Hnd1 ->] Hstep. unfold check_id_step in Hstep.
    destruct (set_insert _ _) as [fresh ids'] eqn:Ei. res_inv. bool_prop. subst.
    eapply collect_fresh in Ei as [Hnd2 ->]; [|done|done]. rewrite app_assoc, !fmap_app in *. cbn. done.
Qed.

Record groups_valid `{Backend} (r : MatrixReceiptV2) (gs : list MatrixRuntimeReceiptV2)
    (st : btset string * btset string * list CheckEvidence) : Prop := {
  gv_runtimes : NoDup (mrr_runtime_id <$> gs);
  gv_runtime_ids : st.1.1 = set_from_list (mrr_runtime_id <$> gs);
  gv_all : st.2 = gs ≫= checks_of;
  gv_checks : NoDup (ce_id <$> (gs ≫= checks_of));
  gv_check_ids : st.1.2 = set_from_list (ce_id <$> (gs ≫= checks_of));
  gv_groups : Forall (group_valid r) gs;
}.

Lemma group_receipt_loop `{Backend} r gs st :
  try_fold (group_receipt_step r) ([], [], []) gs = Ok st → groups_valid r gs st.
Proof.
  apply (try_fold_inv (groups_valid r)).
  - constructor; (done || constructor).
  - intros pre g [[rids cids] all] st' [Hr Eids Eall Hc Ecids Hg] Hstep. cbn [fst snd] in *.
    unfold group_receipt_step in Hstep. res_inv. destruct (set_insert _ _) as [fresh rids'] eqn:Ei. res_inv. bool_prop.
    subst. eapply collect_fresh in Ei as [Hr2 ->]; [|done|done].
    match goal with p : _ * _ |- _ => destruct p as [cids' all'] end. res_inv. subst.
    rename select (try_fold _ _ _ = _) into Hloop. eapply check_id_loop in Hloop as [Hc2 [= -> ->]]; [|done|done].
    assert (E : (pre ++ [g]) ≫= checks_of = (pre ≫= checks_of) ++ checks_of g)
      by (rewrite bind_app; cbn; by rewrite app_nil_r).
    constructor; cbn [fst snd]; rewrite ?E, ?fmap_app in *; try done.
    apply Forall_app. split; [done|]. constructor; [|constructor]. split_and!; [done|by apply dec_stable..].
Qed.

Definition all_checks (r : MatrixReceiptV2) : list CheckEvidence := mrc_runtime_receipts r ≫= checks_of.

Lemma MatrixReceiptV2_validate_ok `{Backend} r :
  MatrixReceiptV2_validate r = Ok () →
  rp_dirty (mrc_repository r) = false ∧ (2 ≤ length (mrc_runtime_receipts r))%nat ∧
  NoDup (mrr_runtime_id <$> mrc_runtime_receipts r) ∧ NoDup (ce_id <$> all_checks r) ∧
  Forall (group_valid r) (mrc_runtime_receipts r) ∧
  ∃ platform, common_valid (common1 (combined_receipt r platform (all_checks r))).
Proof.
  unfold MatrixReceiptV2_validate. intros Hv. res_inv. bool_prop.
  match goal with p : _ * _ |- _ => destruct p as [[rids cids] all] end. res_inv. bool_prop.
  rename select (try_fold _ _ _ = _) into Hl. apply group_receipt_loop in Hl as [Hr _ Eall Hc _ Hg]. cbn in Eall. subst.
  split_and!; try (done || lia). eexists. unfold ReceiptV1_validate in Hv. apply ReceiptCommon_validate_ok in Hv. exact Hv.
Qed.

Lemma matrix_seal_verify `{Backend} e : matrix_verify e = Ok () ↔ matrix_seal (mre_receipt e) = Ok e.
Proof.
  unfold matrix_seal, matrix_verify. destruct e as [id r]; cbn. split; intros Hv; res_inv.
  - bool_prop. subst. res_step; [done|]. rename select (canonical_digest _ = _) into Hd. by rewrite Hd.
  - subst. res_step; [done|]. rename select (canonical_digest _ = _) into Hd. rewrite Hd. cbn.
    by rewrite String.eqb_refl.
Qed.

(** ** Validation of a policy *)

Lemma runtime_policy_loop p rs ids :
  try_fold (runtime_policy_step p) [] rs = Ok ids →
  NoDup (mpr_id <$> rs) ∧ ids = set_from_list (mpr_id <$> rs) ∧
  Forall (λ r, PolicyV1_validate (runtime_baseline p r) = Ok ()) rs.
Proof.
  apply (try_fold_inv (λ rs ids, NoDup (mpr_id <$> rs) ∧ ids = set_from_list (mpr_id <$> rs) ∧
    Forall (λ r, PolicyV1_validate (runtime_baseline p r) = Ok ()) rs)).
  - split_and!; (done || constructor).
  - intros pre r ids0 ids1 (Hnd & -> & Hv) Hstep. unfold runtime_policy_step in Hstep. res_inv.
    destruct (set_insert _ _) as [fresh ids2] eqn:Ei. res_inv. bool_prop. subst.
    eapply collect_fresh in Ei as [Hnd2 ->]; [|done|done]. rewrite !fmap_app. split_and!; [done|done|].
    by apply Forall_app_2, Forall_singleton.
Qed.

Lemma required_loop ids qs st :
  try_fold (required_step ids) ([], []) qs = Ok st →
  NoDup (mq_id <$> qs) ∧ st.1 = set_from_list (mq_id <$> qs) ∧ Forall (λ q, mq_runtime_id q ∈ ids) qs ∧
  st.2 = set_from_list (mq_runtime_id <$> qs).
Proof.
  apply (try_fold_inv (λ qs st, NoDup (mq_id <$> qs) ∧ st.1 = set_from_list (mq_id <$> qs) ∧
    Forall (λ q, mq_runtime_id q ∈ ids) qs ∧ st.2 = set_from_list (mq_runtime_id <$> qs))).
  - split_and!; (done || constructor).
  - intros pre q [cids cov] st' (Hnd & Ec & Hk & Ev) Hstep. cbn [fst snd] in *. subst. unfold required_step in Hstep.
    res_inv. destruct (set_insert _ _) as [fresh ids2] eqn:Ei. res_inv. bool_prop. subst.
    rename select (set_contains _ _ = true) into Hc. apply set_contains_spec in Hc.
    eapply collect_fresh in Ei as [Hnd2 ->]; [|done|done]. cbn [fst snd]. rewrite !fmap_app. cbn.
    split_and!; [done|done| |by rewrite set_from_list_snoc]. by apply Forall_app_2, Forall_singleton.
Qed.

(** A valid policy names runtimes and checks once, has a required check in every
    runtime, and bounds the age of a receipt. *)
Lemma MatrixPolicy_validate_ok p :
  MatrixPolicy_validate p = Ok () →
  NoDup (mpr_id <$> mvp_runtimes p) ∧ NoDup (mq_id <$> mvp_required_checks p) ∧
  (∀ id, id ∈ mpr_id <$> mvp_runtimes p ↔ id ∈ mq_runtime_id <$> mvp_required_checks p) ∧
  1 ≤ mvp_max_age_seconds p ≤ MAX_FRESHNESS_SECONDS.
Proof.
  unfold MatrixPolicy_validate. intros Hv. res_inv. bool_prop.
  rename select (try_fold (runtime_policy_step _) _ _ = _) into Hr. apply runtime_policy_loop in Hr as (Hnd & -> & Hp).
  match goal with p : _ * _ |- _ => destruct p as [cids cov] end. res_inv. bool_prop.
  rename select (try_fold (required_step _) _ _ = _) into Hq. apply required_loop in Hq as (Hnq & _ & Hk & E).
  cbn in E. subst. rename select (in_range _ _ _ = true) into Hlen. apply in_range_spec in Hlen.
  destruct (set_from_list_spec (mq_runtime_id <$> mvp_required_checks p)) as [Hcs Hcin].
  destruct (set_from_list_spec (mpr_id <$> mvp_runtimes p)) as [Hrs Hrin]. assert (Hage : 1 ≤ mvp_max_age_seconds p ≤ MAX_FRESHNESS_SECONDS).
  { destruct (mvp_runtimes p) as [|r rs]; [cbn in *; lia|]. apply Forall_cons in Hp as [Hp _].
    unfold PolicyV1_validate in Hp. res_inv. bool_prop. rename select (in_range 1 _ _ = true) into Hm.
    by apply in_range_spec in Hm. }
  split_and!; [done|done| |lia|lia]. intros id. rewrite <-Hcin, <-Hrin. symmetry. revert id.
  apply same_names; [by apply sorted_nodup..|].
  split; [done|]. intros x Hx%Hcin%list_elem_of_fmap. destruct Hx as (q & -> & Hx).
  by apply (proj1 (Forall_forall _ _) Hk).
Qed.

(** ** What a policy accepts *)

Definition runtime_accepts (expected : MatrixRuntimePolicyV2) (actual : MatrixRuntimeReceiptV2) : Prop :=
  let receipt := e1_receipt (mrr_receipt actual) in
  r1_configuration_digest receipt = mpr_configuration_digest expected ∧
  pl_image_reference (r1_platform receipt) = mpr_image_reference expected ∧
  ∃ a, a ∈ mpr_platforms expected ∧ ap_host_os a = pl_host_os (r1_platform receipt) ∧
    ap_host_arch a = pl_host_arch (r1_platform receipt) ∧ ap_runtime_kind a = pl_runtime_kind (r1_platform receipt).

Record matrix_accepts (r : MatrixReceiptV2) (p : MatrixVerificationPolicyV2) (commit : string)
    (evaluated_at : Z) : Prop := {
  ma_project : rp_repository (mrc_repository r) = mvp_project p;
  ma_commit : rp_commit_sha (mrc_repository r) = commit;
  ma_clean : rp_dirty (mrc_repository r) = false;
  ma_configuration : mrc_configuration_digest r = mvp_configuration_digest p;
  ma_status : mrc_overall_status r = Pass;
  ma_runtimes : ∀ id, id ∈ mpr_id <$> mvp_runtimes p ↔ id ∈ mrr_runtime_id <$> mrc_runtime_receipts r;
  ma_runtime : ∀ expected actual, expected ∈ mvp_runtimes p → actual ∈ mrc_runtime_receipts r →
    mrr_runtime_id actual = mpr_id expected → runtime_accepts expected actual;
  ma_checks : ∀ id, id ∈ mq_id <$> mvp_required_checks p ↔ id ∈ (required_evidence r).*1;
  ma_check : ∀ q actual_runtime check, q ∈ mvp_required_checks p →
    (mq_id q, (actual_runtime, check)) ∈ required_evidence r →
    actual_runtime = mq_runtime_id q ∧ ce_status check = Pass;
  ma_fresh : ∃ finished, parse_utc_seconds (rn_finished_at_utc (mrc_run r)) = Some finished ∧
    finished ≤ evaluated_at ≤ finished + mvp_max_age_seconds p;
}.

Lemma findings_fold {A} (step : list VerificationFindingV1 → A → list VerificationFindingV1) (ok : A → Prop) l :
  (∀ fs x, x ∈ l → step fs x = [] ↔ fs = [] ∧ ok x) →
  ∀ fs, foldl step fs l = [] ↔ fs = [] ∧ ∀ x, x ∈ l → ok x.
Proof.
  intros Hstep. induction l as [|x l IH]; intros fs; cbn.
  { split; [intros ->; split; [done|by intros ? ?%elem_of_nil]|by intros []]. }
  rewrite IH, Hstep by (intros; apply Hstep; by right) || by left. clear. split.
  - intros [[-> Hx] Hl]. split; [done|]. intros y [->|Hy]%elem_of_cons; auto.
  - intros [-> Hl]. split_and!; [done|apply Hl; left|]. intros y Hy. apply Hl. by right.
Qed.

Lemma platform_accepted_spec platforms platform :
  platform_accepted platforms platform = true ↔
  ∃ a, a ∈ platforms ∧ ap_host_os a = pl_host_os platform ∧ ap_host_arch a = pl_host_arch platform ∧
    ap_runtime_kind a = pl_runtime_kind platform.
Proof.
  unfold platform_accepted. rewrite existsb_exists. setoid_rewrite <-list_elem_of_In.
  setoid_rewrite andb_true_iff. setoid_rewrite andb_true_iff. setoid_rewrite String.eqb_eq. naive_solver.
Qed.

Lemma runtime_findings_nil receipt_runtimes fs id expected :
  runtime_findings receipt_runtimes fs (id, expected) = [] ↔
  fs = [] ∧ ∀ actual, map_get id receipt_runtimes = Some actual → runtime_accepts expected actual.
Proof.
  unfold runtime_findings. destruct (map_get id receipt_runtimes) as [actual|]; [|naive_solver].
  rewrite push_if_nil, !check_equal_nil, negb_false_iff, platform_accepted_spec. unfold runtime_accepts. naive_solver.
Qed.

Lemma check_findings_nil actual_checks fs id runtime :
  check_findings actual_checks fs (id, runtime) = [] ↔
  fs = [] ∧ ∀ actual_runtime check, map_get id actual_checks = Some (actual_runtime, check) →
    actual_runtime = runtime ∧ ce_status check = Pass.
Proof.
  unfold check_findings. destruct (map_get id actual_checks) as [[a k]|]; [|naive_solver].
  destruct (String.eqb_spec a runtime) as [->|D]; cbn [andb negb].
  - case_bool_decide; [naive_solver|]. rewrite snoc_nil. naive_solver.
  - rewrite snoc_nil. naive_solver.
Qed.

Lemma names_finding {V W} (m : btmap string V) (n : btmap string W) (l k : list string) :
  (∀ x, x ∈ map_keys m ↔ x ∈ l) → (∀ x, x ∈ map_keys n ↔ x ∈ k) →
  NoDup (map_keys m) → NoDup (map_keys n) →
  negb (length m =? length n)%nat || existsb (λ id, negb (map_contains id n)) (map_keys m) = false ↔
  ∀ x, x ∈ l ↔ x ∈ k.
Proof.
  intros Hm Hn Hdm Hdn. rewrite orb_false_iff, negb_false_iff, Nat.eqb_eq, existsb_false, Forall_forall.
  setoid_rewrite <-Hm. setoid_rewrite <-Hn. rewrite <-(same_names _ _ Hdm Hdn).
  assert (El : length (map_keys m) = length m) by apply length_fmap.
  assert (En : length (map_keys n) = length n) by apply length_fmap. rewrite El, En.
  split; intros [E Hin]; (split; [done|]); intros x Hx; specialize (Hin x Hx);
    rewrite negb_false_iff, map_contains_spec in *; done.
Qed.

Lemma freshness_findings_nil finished_at evaluated_at max fs :
  0 ≤ max ≤ MAX_FRESHNESS_SECONDS →
  freshness_findings finished_at evaluated_at max fs = [] ↔
  fs = [] ∧ ∃ finished, parse_utc_seconds finished_at = Some finished ∧ finished ≤ evaluated_at ≤ finished + max.
Proof.
  intros Hmax. unfold freshness_findings. assert (Hcast : as_i64 max = max).
  { unfold as_i64, i64_max, MAX_FRESHNESS_SECONDS in *. destruct (max >? _) eqn:E; [|done]. lia. }
  rewrite Hcast. destruct (parse_utc_seconds finished_at) as [finished|].
  - rewrite freshness_spec. naive_solver.
  - rewrite snoc_nil. naive_solver.
Qed.

(** Entries of a map built from values with distinct keys. *)
Lemma keyed_elem {A V} (k : A → string) (v : A → V) (l : list A) id x :
  NoDup (k <$> l) → (id, x) ∈ map_from_list ((λ a, (k a, v a)) <$> l) ↔ ∃ a, a ∈ l ∧ k a = id ∧ v a = x.
Proof.
  intros Hnd. rewrite map_from_list_perm by by rewrite <-list_fmap_compose. rewrite list_elem_of_fmap. naive_solver.
Qed.

Lemma keyed_get {A V} (k : A → string) (v : A → V) (l : list A) id x :
  NoDup (k <$> l) → map_get id (map_from_list ((λ a, (k a, v a)) <$> l)) = Some x ↔ ∃ a, a ∈ l ∧ k a = id ∧ v a = x.
Proof. intros Hnd. rewrite map_get_elem by apply map_from_list_sorted. by apply keyed_elem. Qed.

Lemma keyed_keys {A V} (k : A → string) (v : A → V) (l : list A) id :
  id ∈ map_keys (map_from_list ((λ a, (k a, v a)) <$> l)) ↔ id ∈ k <$> l.
Proof. rewrite elem_of_map_keys_from_list. by rewrite <-list_fmap_compose. Qed.

Lemma evaluate_matrix_policy_accepts e p commit at_ :
  let r := mre_receipt e in
  NoDup (mrr_runtime_id <$> mrc_runtime_receipts r) → NoDup (mpr_id <$> mvp_runtimes p) →
  NoDup (mq_id <$> mvp_required_checks p) → NoDup (required_evidence r).*1 →
  0 ≤ mvp_max_age_seconds p ≤ MAX_FRESHNESS_SECONDS →
  evaluate_matrix_policy e p commit at_ [] = [] ↔ matrix_accepts r p commit at_.
Proof.
  cbn. set (r := mre_receipt e). intros Hr Hp Hq Hev Hmax. unfold evaluate_matrix_policy. cbv zeta. fold r.
  rewrite freshness_findings_nil by done.
  rewrite (findings_fold _ (λ x : string * string, ∀ actual_runtime check,
    map_get x.1 (map_from_list (required_evidence r)) = Some (actual_runtime, check) →
    actual_runtime = x.2 ∧ ce_status check = Pass)) by (intros fs [id rt] _; apply check_findings_nil).
  rewrite push_if_nil, (Nat.eqb_sym (length (map_from_list (required_evidence r)))).
  rewrite (names_finding _ _ (mq_id <$> mvp_required_checks p) (required_evidence r).*1);
    [|intros x; apply keyed_keys|intros x; apply elem_of_map_keys_from_list
     |apply sorted_nodup, map_from_list_sorted..].
  rewrite (findings_fold _ (λ x : string * MatrixRuntimePolicyV2, ∀ actual,
    map_get x.1 (map_from_list ((λ r, (mrr_runtime_id r, r)) <$> mrc_runtime_receipts r)) = Some actual →
    runtime_accepts x.2 actual)) by (intros fs [id rt] _; apply runtime_findings_nil).
  rewrite push_if_nil.
  rewrite (names_finding _ _ (mpr_id <$> mvp_runtimes p) (mrr_runtime_id <$> mrc_runtime_receipts r));
    [|intros x; apply keyed_keys|intros x; apply keyed_keys|apply sorted_nodup, map_from_list_sorted..].
  rewrite !push_if_nil, !check_equal_nil, push_if_nil, !check_equal_nil, bool_decide_eq_false.
  assert (Hevg : ∀ id x, map_get id (map_from_list (required_evidence r)) = Some x ↔ (id, x) ∈ required_evidence r).
  { intros id x. rewrite map_get_elem by apply map_from_list_sorted. by rewrite map_from_list_perm. }
  split.
  - intros [[[[[[[[[[_ H1] H2] H3] H4] H5] H6] H7] H8] H9] H10]. constructor; try done.
    + by apply dec_stable.
    + intros expected actual Hx Ha E. apply (H7 (mpr_id expected, expected)).
      * apply keyed_elem; eauto.
      * apply keyed_get; eauto.
    + intros q a k Hx Hk. apply (H9 (mq_id q, mq_runtime_id q)); [apply keyed_elem; eauto|by apply Hevg].
  - intros []. split_and!; try done; [tauto|..].
    + intros [id expected] Hx actual Ha. apply keyed_elem in Hx as (x & Hx & Hid & [= <-]); [|done].
      apply keyed_get in Ha as (y & Hy & Hid' & [= <-]); [|done]. cbn in *. apply ma_runtime0; [done|done|congruence].
    + intros [id rt] Hx a k Hk. apply keyed_elem in Hx as (q & Hx & Hid & Hrt); [|done]. cbn in *.
      apply Hevg in Hk. subst. by apply ma_check0.
Qed.

Lemma required_evidence_ids r :
  (required_evidence r).*1 = ce_id <$> filter (λ k, ce_required k = true) (all_checks r).
Proof.
  unfold required_evidence, all_checks. induction (mrc_runtime_receipts r) as [|g gs IH]; [done|].
  rewrite !bind_cons, filter_app, !fmap_app, IH. f_equal. by rewrite <-list_fmap_compose.
Qed.

Lemma nodup_fmap_filter {A B} (f : A → B) (P : A → Prop) `{!∀ x, Decision (P x)} l :
  NoDup (f <$> l) → NoDup (f <$> filter P l).
Proof.
  induction l as [|x l IH]; [done|]. rewrite fmap_cons, filter_cons. intros [Hx Hl]%NoDup_cons.
  destruct (decide (P x)); [|auto]. rewrite fmap_cons. constructor; [|auto]. intros Hin. apply Hx.
  apply list_elem_of_fmap in Hin as (y & -> & [_ Hy]%list_elem_of_filter). by apply list_elem_of_fmap_2.
Qed.

Lemma required_evidence_elem r id runtime check :
  (id, (runtime, check)) ∈ required_evidence r ↔
  ∃ g, g ∈ mrc_runtime_receipts r ∧ mrr_runtime_id g = runtime ∧ check ∈ checks_of g ∧
    ce_required check = true ∧ ce_id check = id.
Proof.
  unfold required_evidence. rewrite list_elem_of_bind. split.
  - intros (g & Hin & Hg). apply list_elem_of_fmap in Hin as (k & [= -> -> ->] & [Hr Hk]%list_elem_of_filter).
    exists g. done.
  - intros (g & Hg & <- & Hk & Hr & <-). exists g. split; [|done]. apply list_elem_of_fmap.
    exists check. split; [done|]. by apply list_elem_of_filter.
Qed.

(** ** The report *)

Lemma matrix_policy_of_verified `{Backend} e p commit at_ :
  matrix_verify e = Ok () → MatrixPolicy_validate p = Ok () →
  evaluate_matrix_policy e p commit at_ [] = [] ↔ matrix_accepts (mre_receipt e) p commit at_.
Proof.
  intros Hv Hp. unfold matrix_verify in Hv. res_inv. rename select (MatrixReceiptV2_validate _ = _) into Hval.
  apply MatrixReceiptV2_validate_ok in Hval as (_ & _ & Hr & Hc & _ & _).
  apply MatrixPolicy_validate_ok in Hp as (Hp & Hq & _ & Hage).
  apply evaluate_matrix_policy_accepts; [done..| |lia]. rewrite required_evidence_ids. by apply nodup_fmap_filter.
Qed.

(** The two shapes of a report. *)
Lemma matrix_report_shape `{Backend, MatrixParser} bytes p commit at_ r :
  verify_matrix_receipt_document bytes p commit at_ = Ok r →
  MatrixPolicy_validate p = Ok () ∧ ∃ t, parse_utc_seconds at_ = Some t ∧
    ((∃ f, r = matrix_report commit at_ [f] ∧
        (from_slice_matrix bytes = None ∨ ∃ e, from_slice_matrix bytes = Some e ∧ is_ok (matrix_verify e) = false)) ∨
     ∃ e, from_slice_matrix bytes = Some e ∧ matrix_verify e = Ok () ∧
       let fs := evaluate_matrix_policy e p commit t [] in
       vr_findings r = fs ∧ vr_integrity_status r = VPass ∧ vr_receipt_id r = Some (mre_receipt_id e) ∧
       vr_policy_status r = (if is_nil fs then VPass else VFail) ∧
       vr_decision r = (if is_nil fs then DPass else DFail)).
Proof.
  unfold verify_matrix_receipt_document. intros Hr. res_inv. split; [done|]. bool_prop.
  eexists. split; [done|]. destruct (from_slice_matrix bytes) as [e|] eqn:Ep.
  2:{ injection Hr as <-. left. eexists. split; [done|]. by left. }
  destruct (matrix_verify e) as [[]|err] eqn:Ev; cbn [is_ok negb] in Hr.
  - injection Hr as <-. right. exists e. cbn. by destruct (is_nil _).
  - injection Hr as <-. left. eexists. split; [done|]. right. exists e. by rewrite Ev.
Qed.

Lemma matrix_report_pass `{Backend, MatrixParser} bytes p commit at_ r :
  verify_matrix_receipt_document bytes p commit at_ = Ok r →
  report_consistent r ∧
  (vr_decision r = DPass ↔
   ∃ e t, from_slice_matrix bytes = Some e ∧ matrix_verify e = Ok () ∧ parse_utc_seconds at_ = Some t ∧
     matrix_accepts (mre_receipt e) p commit t).
Proof.
  intros (Hp & t & Ht & [(f & -> & Hno)|(e & He & Hv & Hf & Hi & Hid & Hps & Hd)])%matrix_report_shape.
  - split; [constructor; cbn; naive_solver|]. split; [done|]. intros (e & t' & He & Hv & _).
    destruct Hno as [Hno|(e' & He' & Hno)]; [congruence|]. assert (e = e') as <- by congruence. by rewrite Hv in Hno.
  - pose proof (matrix_policy_of_verified e p commit t Hv Hp) as Hacc. rewrite <-Hf in *.
    destruct (vr_findings r) as [|f fs] eqn:Efs; cbn in *; (split; [constructor|]);
      unfold exit_code; rewrite ?Efs, ?Hd, ?Hi, ?Hid, ?Hps; naive_solver.
Qed.
