(* ===== verification/MatrixClaims.v ===== *)
(** What the plans and receipts of a matrix promise ([Matrix.v],
    [MatrixReceipt.v]). *)
From S2P Require Import Prelude.
From S2P Require Import RustStr.
From S2P Require Import BTree.
From S2P Require Import Calendar.
From S2P Require Import Canonical.
From S2P Require Import Config.
From S2P Require Import ConfigProps.
From S2P Require Import PlanProps.
From S2P Require Import PlanClaims.
From S2P Require Import Receipt.
From S2P Require Import Verify.
From S2P Require Import Matrix.
From S2P Require Import MatrixProps.
Local Open Scope Z_scope.

Section Plan.
Context `{Backend}.

(** What holds of the envelope of one runtime. *)
Definition runtime_envelope_ok (c : MatrixConfigV2) (e : MatrixPlanEnvelopeV2)
    (x : string * ExecutionPlanEnvelopeV1) : Prop :=
  runtime_configuration_digest e x.1 = Ok (pe_plan_digest x.2) ∧ pe_fixed_environment x.2 = [] ∧
  ∃ r g, r ∈ mc_runtimes c ∧ mr_id r = x.1 ∧ group_plan c (by_id r) = Ok g ∧ pe_plan x.2 = pe_plan g ∧
    match mpe_profile e with
    | CurrentV2 => pe_plan_digest x.2 = pe_plan_digest g
    | LegacyV1 => ∃ plan, legacy_execution_plan (pe_plan g) = Ok plan ∧ canonical_digest plan = Ok (pe_plan_digest x.2)
    end.

Lemma entry_of c entry : entry ∈ map_from_list (by_id <$> mc_runtimes c) → NoDup (mr_id <$> mc_runtimes c) →
  entry.2 ∈ mc_runtimes c ∧ entry = by_id entry.2.
Proof.
  intros Hin Hnd. rewrite map_from_list_perm in Hin by by rewrite <-list_fmap_compose.
  apply list_elem_of_fmap in Hin as (r & -> & Hr). done.
Qed.

Lemma current_envelopes c e :
  build_matrix_plan c CurrentV2 = Ok e →
  ∃ envelopes, mapM (runtime_envelope e) (mp_runtimes (mpe_plan e)) = Ok envelopes ∧
    Forall2 (λ entry x, x.1 = entry.1 ∧ runtime_envelope_ok c e x)
      (map_from_list (by_id <$> mc_runtimes c)) envelopes.
Proof.
  intros Hb. pose proof (build_bound _ _ _ Hb) as Hbound. apply build_ok in Hb as (p & Hp & Hprof & <- & _ & _).
  pose proof (plan_ids _ _ Hp) as (Hids & _). apply matrix_plan_ok in Hp as (Hnd & _ & _ & _ & Hproj & Hsh & Hpl).
  eapply mapM_Forall2; [exact Hpl|]. intros entry r Hentry Hr Hplanned.
  destruct (planned_runtime_plan _ _ _ _ Hsh Hproj Hplanned) as (g & Hg & Hid & Hdig & Hplan & Hcd & _).
  unfold runtime_envelope. rewrite Hprof, Hplan, Hcd. cbn. rewrite Hdig, String.eqb_refl. cbn.
  eexists. split; [done|]. cbn. split; [done|]. destruct (entry_of _ _ Hentry Hnd) as [Hin E]. split_and!; [|done|].
  - unfold runtime_configuration_digest. rewrite Hbound, Hprof. cbn. rewrite find_by_id by done. cbn. by rewrite Hdig.
  - exists entry.2, g. rewrite Hprof. split_and!; [done|by rewrite Hid, E|by rewrite <-E|done|done].
Qed.

Lemma legacy_envelopes c e :
  build_matrix_plan c LegacyV1 = Ok e →
  ∃ envelopes, mapM (runtime_envelope e) (mp_runtimes (mpe_plan e)) = Ok envelopes ∧
    Forall2 (λ entry x, x.1 = entry.1 ∧ runtime_envelope_ok c e x)
      (map_from_list (by_id <$> mc_runtimes c)) envelopes.
Proof.
  intros Hb. pose proof (build_bound _ _ _ Hb) as Hbound.
  apply build_ok in Hb as (p & Hp & Hprof & b & rs & Hbasis & Hrs & _ & Hplan & Hleg).
  pose proof (plan_ids _ _ Hp) as (Hids & _). apply matrix_plan_ok in Hp as (Hnd & _ & _ & _ & Hproj & Hsh & Hpl).
  rewrite Hplan. cbn. apply legacy_digest_ok in Hrs as [Hsame Hdig].
  assert (Hpl' : Forall2 (λ entry r', ∃ r, r ∈ mp_runtimes p ∧ planned c entry r ∧ same_runtime r r')
    (map_from_list (by_id <$> mc_runtimes c)) rs).
  { apply Forall2_same_length_lookup_2; [by rewrite (Forall2_length _ _ _ Hpl), (Forall2_length _ _ _ Hsame)|].
    intros i entry r' Hi Hi'. destruct (Forall2_lookup_l _ _ _ _ _ Hpl Hi) as (r & Hir & Hr).
    exists r. split_and!; [by eapply list_elem_of_lookup_2|done|]. by eapply Forall2_lookup_lr. }
  eapply mapM_Forall2; [exact Hpl'|]. intros entry r' Hentry Hr' (r & Hr & Hplanned & Hid & Hrt & Hck).
  destruct (planned_runtime_plan _ _ _ _ Hsh Hproj Hplanned) as (g & Hg & Hidr & _ & Hrp & _).
  destruct (basis_digest _ _ _ Hbasis Hids Hr) as (plan & digest & Hleg' & Hcd & Hbd). rewrite Hrp in Hleg'.
  rewrite Hid in Hbd. assert (Hconf : runtime_configuration_digest e (mrp_id r') = Ok digest).
  { unfold runtime_configuration_digest. by rewrite Hbound, Hprof, Hleg. }
  unfold runtime_envelope. rewrite Hprof, Hconf. cbn. eexists. split; [done|]. cbn.
  split; [congruence|]. destruct (entry_of _ _ Hentry Hnd) as [Hin E]. split_and!; [done|done|].
  exists entry.2, g. rewrite Hprof. split_and!; [done|by rewrite <-Hid, Hidr, E|by rewrite <-E| |by exists plan].
  rewrite <-Hrp, Hplan. unfold runtime_plan. cbn. by rewrite Hrt, Hck.
Qed.

(** C31. The plan of a matrix is the plans of its runtimes: under either profile the
    envelopes taken from it are, in the order of their identifiers, one for every
    configured runtime, each with the plan the runtime has alone for the checks
    assigned to it; its digest is the digest of that plan, or of its form in the
    earlier format, and is the one the matrix plan records.  Every check is in
    exactly one of them. *)
Theorem matrix_plan_is_runtime_plans (c : MatrixConfigV2) (profile : MatrixPlanProfile) (e : MatrixPlanEnvelopeV2) :
  build_matrix_plan c profile = Ok e →
  ∃ envelopes, runtime_envelopes e = Ok envelopes ∧
    set_sorted envelopes.*1 ∧ envelopes.*1 ≡ₚ mr_id <$> mc_runtimes c ∧
    (envelopes ≫= λ x, nk_id <$> ep_checks (pe_plan x.2)) ≡ₚ mk_id <$> mc_checks c ∧
    NoDup (mk_id <$> mc_checks c) ∧ Forall (runtime_envelope_ok c e) envelopes.
Proof.
  intros Hb. unfold runtime_envelopes. rewrite (build_bound _ _ _ Hb). cbn.
  assert (Henv : ∃ envelopes, mapM (runtime_envelope e) (mp_runtimes (mpe_plan e)) = Ok envelopes ∧
    Forall2 (λ entry x, x.1 = entry.1 ∧ runtime_envelope_ok c e x) (map_from_list (by_id <$> mc_runtimes c)) envelopes)
    by (destruct profile; [by apply current_envelopes|by apply legacy_envelopes]).
  destruct Henv as (envelopes & -> & Hall). exists envelopes. split; [done|].
  apply build_ok in Hb as (p & Hp & _). apply matrix_plan_ok in Hp as (Hnd & _ & Hck & Hknown & _).
  assert (Hkeys : envelopes.*1 = map_keys (map_from_list (by_id <$> mc_runtimes c))).
  { clear -Hall. induction Hall as [|entry x l es [E _] _ IH]; [done|]. cbn. by rewrite IH, E. }
  assert (Hperm : envelopes.*1 ≡ₚ mr_id <$> mc_runtimes c).
  { rewrite Hkeys. unfold map_keys. rewrite map_from_list_perm; by rewrite <-list_fmap_compose. }
  split_and!; [rewrite Hkeys; apply map_from_list_sorted|done| |done|].
  - rewrite <-(partition_by mk_runtime_id (envelopes.*1) (mc_checks c)).
    + clear -Hall. induction Hall as [|entry x l es [_ (_ & _ & r & g & _ & Hr & Hg & Hp & _)] _ IH]; [done|].
      rewrite fmap_cons, !bind_cons, fmap_app, IH. f_equiv. rewrite Hp, (group_plan_checks _ _ _ Hg). cbn. by rewrite Hr.
    + by rewrite Hperm.
    + intros check Hin. rewrite Hperm. by apply Hknown.
  - clear -Hall. induction Hall as [|entry x l es [_ Hx] _ IH]; constructor; done.
Qed.
End Plan.

(** * Example *)

Module MatrixExample.
Import PlanExample.

Definition runtime (id : string) : MatrixRuntimeConfigV2 :=
  {| mr_id := id; mr_kind := DockerCompatible; mr_image := image; mr_cpu_count := 2;
     mr_memory_mib := 512; mr_pids_limit := 64; mr_network := false |}.

Definition check (id runtime_id : string) (required : bool) (depends_on : list string) : MatrixCheckConfigV2 :=
  {| mk_id := id; mk_runtime_id := runtime_id; mk_required := required; mk_argv := ["run"; id];
     mk_working_directory := "."; mk_timeout_seconds := 60; mk_depends_on := depends_on; mk_artifacts := [] |}.

Definition matrix : MatrixConfigV2 :=
  {| mc_schema_version := "2.0"; mc_project := "owner/repository";
     mc_runtimes := [runtime "stable"; runtime "nightly"]; mc_receipt := ReceiptConfig_default;
     mc_environment := {| me_allow := ["PATH"] |}; mc_caches := [];
     mc_checks := [check "test" "stable" true ["build"]; check "fuzz" "nightly" true [];
                   check "build" "stable" false []] |}.

Definition plan : MatrixPlanEnvelopeV2 :=
  get (build_matrix_plan matrix CurrentV2) ltac:(vm_cast_no_check (eq_refl true)).
Definition legacy_plan : MatrixPlanEnvelopeV2 :=
  get (build_matrix_plan matrix LegacyV1) ltac:(vm_cast_no_check (eq_refl true)).
End MatrixExample.
Import PlanExample MatrixExample.

Lemma matrix_plan_is_runtime_plans_witness :
  (∃ envelopes, runtime_envelopes plan = Ok envelopes ∧
    set_sorted envelopes.*1 ∧ envelopes.*1 ≡ₚ mr_id <$> mc_runtimes matrix ∧
    (envelopes ≫= λ x, nk_id <$> ep_checks (pe_plan x.2)) ≡ₚ mk_id <$> mc_checks matrix ∧
    NoDup (mk_id <$> mc_checks matrix) ∧ Forall (runtime_envelope_ok matrix plan) envelopes) ∧
  ∃ envelopes, runtime_envelopes legacy_plan = Ok envelopes ∧
    set_sorted envelopes.*1 ∧ envelopes.*1 ≡ₚ mr_id <$> mc_runtimes matrix ∧
    (envelopes ≫= λ x, nk_id <$> ep_checks (pe_plan x.2)) ≡ₚ mk_id <$> mc_checks matrix ∧
    NoDup (mk_id <$> mc_checks matrix) ∧ Forall (runtime_envelope_ok matrix legacy_plan) envelopes.
Proof.
  split.
  - apply (matrix_plan_is_runtime_plans matrix CurrentV2 plan). vm_compute. reflexivity.
  - apply (matrix_plan_is_runtime_plans matrix LegacyV1 legacy_plan). vm_compute. reflexivity.
Defined.
