(* ===== verification/MatrixReceiptClaims.v ===== *)
(** What the verification of a matrix receipt promises ([MatrixReceipt.v]), with
    the example policy and document at which the hypotheses hold. *)
From S2P Require Import Prelude.
From S2P Require Import RustStr.
From S2P Require Import BTree.
From S2P Require Import Calendar.
From S2P Require Import Canonical.
From S2P Require Import Config.
From S2P Require Import PlanClaims.
From S2P Require Import Receipt.
From S2P Require Import ReceiptProps.
From S2P Require Import ReceiptClaims.
From S2P Require Import Verify.
From S2P Require Import VerifyProps.
From S2P Require Import VerifyClaims.
From S2P Require Import Matrix.
From S2P Require Import MatrixProps.
From S2P Require Import MatrixReceipt.
From S2P Require Import MatrixReceiptProps.
From S2P Require Import MatrixClaims.
Import PlanExample ReceiptExample MatrixExample.
Local Open Scope Z_scope.

(** * Example *)

Module MatrixReceiptExample.

Definition inner (run : RunEvidence) (e : string * ExecutionPlanEnvelopeV1) : ReceiptV1 :=
  {| r1_schema_version := "1.0";
     r1_producer := {| pr_name := CARGO_PKG_NAME; pr_version := CARGO_PKG_VERSION |};
     r1_repository := r2_repository demo_receipt; r1_run := run;
     r1_platform := r2_platform demo_receipt; r1_configuration_digest := pe_plan_digest e.2;
     r1_checks := evidence <$> ep_checks (pe_plan e.2); r1_overall_status := Pass;
     r1_incomplete_reason := None; r1_redaction_policy_version := "1" |}.

Definition envelopes : list (string * ExecutionPlanEnvelopeV1) :=
  get (runtime_envelopes plan) ltac:(vm_cast_no_check (eq_refl true)).

Definition sealed (r : ReceiptV1) : ReceiptEnvelopeV1 :=
  match seal1 r with Ok e => e | Err _ => demo_envelope1 end.

Definition matrix_receipt (run : RunEvidence) : MatrixReceiptV2 :=
  {| mrc_schema_version := "2.0";
     mrc_producer := {| pr_name := CARGO_PKG_NAME; pr_version := CARGO_PKG_VERSION |};
     mrc_repository := r2_repository demo_receipt; mrc_run := r2_run demo_receipt;
     mrc_configuration_digest := mpe_plan_digest plan;
     mrc_runtime_receipts := (λ e, {| mrr_runtime_id := e.1; mrr_receipt := sealed (inner run e) |}) <$> envelopes;
     mrc_overall_status := Pass; mrc_incomplete_reason := None; mrc_redaction_policy_version := "1" |}.

Definition document (run : RunEvidence) : MatrixReceiptEnvelopeV2 :=
  match matrix_seal (matrix_receipt run) with
  | Ok e => e
  | Err _ => {| mre_receipt_id := ""; mre_receipt := matrix_receipt run |}
  end.

(** The time of the outer run, and a run of years before. *)
Definition this_run : RunEvidence := r2_run demo_receipt.
Definition old_run : RunEvidence :=
  {| rn_run_id := "run-0"; rn_generation := 1; rn_started_at_utc := "2019-01-02T03:04:05Z";
     rn_finished_at_utc := "2019-01-02T03:05:05Z" |}.

Definition policy : MatrixVerificationPolicyV2 :=
  {| mvp_schema_version := "2.0"; mvp_project := "owner/repository";
     mvp_configuration_digest := mpe_plan_digest plan;
     mvp_required_checks := [{| mq_id := "test"; mq_runtime_id := "stable" |};
                             {| mq_id := "fuzz"; mq_runtime_id := "nightly" |}];
     mvp_max_age_seconds := 3600;
     mvp_runtimes := (λ e, {| mpr_id := e.1; mpr_configuration_digest := pe_plan_digest e.2;
                              mpr_image_reference := image;
                              mpr_platforms := tp_platforms VerifyExample.policy |}) <$> envelopes |}.
End MatrixReceiptExample.
Import MatrixReceiptExample.

(** A reader that finds the example in every document, with inner receipts of
    years before in those that are not empty. *)
#[global] Instance document_parser : MatrixParser := λ bytes,
  Some (document (if is_nil bytes then this_run else old_run)).

Definition matrix_pass : VerificationReportV1 :=
  get (verify_matrix_receipt_document [] policy VerifyExample.commit VerifyExample.now)
    ltac:(vm_cast_no_check (eq_refl true)).
Definition old_pass : VerificationReportV1 :=
  get (verify_matrix_receipt_document ["a"%char] policy VerifyExample.commit VerifyExample.now)
    ltac:(vm_cast_no_check (eq_refl true)).

Lemma matrix_pass_ok :
  verify_matrix_receipt_document [] policy VerifyExample.commit VerifyExample.now = Ok matrix_pass.
Proof. vm_compute. reflexivity. Defined.
Lemma old_pass_ok :
  verify_matrix_receipt_document ["a"%char] policy VerifyExample.commit VerifyExample.now = Ok old_pass.
Proof. vm_compute. reflexivity. Defined.

(** * Theorems *)

(** C29.  The decision of a matrix report is PASS exactly when the document reads as
    an envelope whose identifiers, outer and inner, verify and whose receipt the
    policy accepts: project, commit, clean checkout, plan, status, the exact set of
    runtimes each with its plan, image and platform, the exact set of required
    checks each passed in its runtime, and freshness.  Every report is consistent
    and fails closed. *)
Theorem matrix_report_decision `{Backend, MatrixParser} (bytes : list ascii)
    (p : MatrixVerificationPolicyV2) (commit at_ : string) (r : VerificationReportV1) :
  verify_matrix_receipt_document bytes p commit at_ = Ok r →
  report_consistent r ∧
  (vr_decision r = DPass ↔
   ∃ e t, from_slice_matrix bytes = Some e ∧ matrix_verify e = Ok () ∧ parse_utc_seconds at_ = Some t ∧
     matrix_accepts (mre_receipt e) p commit t).
Proof. apply matrix_report_pass. Qed.

Lemma matrix_report_decision_witness : report_consistent matrix_pass.
Proof. apply (matrix_report_decision [] policy VerifyExample.commit VerifyExample.now). exact matrix_pass_ok. Defined.

(** C27.  A passing matrix report means that every required check passed where the
    policy wants it: in a receipt of its runtime, whose own identifier verifies, for
    the expected commit of a clean checkout, under the plan and with the image the
    policy pins for that runtime, with exit code 0; and the receipt has no other
    required check, in whatever runtime. *)
Theorem matrix_pass_means `{Backend, MatrixParser} (bytes : list ascii)
    (p : MatrixVerificationPolicyV2) (commit at_ : string) (r : VerificationReportV1) :
  verify_matrix_receipt_document bytes p commit at_ = Ok r → vr_decision r = DPass →
  ∃ e, from_slice_matrix bytes = Some e ∧
    (∀ q, q ∈ mvp_required_checks p → ∃ g k pr,
       g ∈ mrc_runtime_receipts (mre_receipt e) ∧ mrr_runtime_id g = mq_runtime_id q ∧
       pr ∈ mvp_runtimes p ∧ mpr_id pr = mq_runtime_id q ∧ runtime_accepts pr g ∧
       verify1 (mrr_receipt g) = Ok () ∧
       rp_commit_sha (r1_repository (e1_receipt (mrr_receipt g))) = commit ∧
       rp_dirty (r1_repository (e1_receipt (mrr_receipt g))) = false ∧
       k ∈ checks_of g ∧ ce_id k = mq_id q ∧ ce_required k = true ∧ succeeded k) ∧
    (∀ g k, g ∈ mrc_runtime_receipts (mre_receipt e) → k ∈ checks_of g → ce_required k = true →
       ∃ q, q ∈ mvp_required_checks p ∧ mq_id q = ce_id k ∧ mq_runtime_id q = mrr_runtime_id g).
Proof.
  intros (Hp & t & Ht & [(f & -> & Hno)|(e & He & Hv & _ & _ & _ & _ & Hd)])%matrix_report_shape Hpass; [done|].
  rewrite Hd in Hpass. assert (Ha : matrix_accepts (mre_receipt e) p commit t).
  { apply matrix_policy_of_verified; [done..|]. by destruct (evaluate_matrix_policy _ _ _ _ _). }
  clear Hd Hpass. exists e. split; [done|]. unfold matrix_verify in Hv. res_inv.
  rename select (MatrixReceiptV2_validate _ = _) into Hval.
  apply MatrixReceiptV2_validate_ok in Hval as (_ & _ & _ & _ & Hgs & platform & Hcom).
  destruct (overall_status_meaning _ Hcom) as (Hst & _). cbn in Hst. pose proof (proj1 Hst (ma_status _ _ _ _ Ha)) as Hall.
  rewrite Forall_forall in Hgs. apply MatrixPolicy_validate_ok in Hp as (_ & _ & Hcover & _). split.
  - intros q Hq. assert (Hin : mq_id q ∈ (required_evidence (mre_receipt e)).*1)
      by (apply (ma_checks _ _ _ _ Ha), list_elem_of_fmap_2, Hq).
    apply list_elem_of_fmap in Hin as ([? [rt k]] & E & Hin). cbn in E. subst.
    destruct (ma_check _ _ _ _ Ha q rt k Hq Hin) as [-> _].
    apply required_evidence_elem in Hin as (g & Hg & Hrt & Hk & Hreq & Hid).
    assert (Hpr : mq_runtime_id q ∈ mpr_id <$> mvp_runtimes p) by (apply Hcover, list_elem_of_fmap_2, Hq).
    apply list_elem_of_fmap in Hpr as (pr & Hpr & Hpin). destruct (Hgs g Hg) as (Hgv & Hrep & _).
    exists g, k, pr. split_and!; try done; [..|by rewrite Hrep; apply Ha|by rewrite Hrep; apply Ha|].
    + apply (ma_runtime _ _ _ _ Ha); [done..|congruence].
    + apply Hall; [|done]. apply list_elem_of_bind. by exists g.
  - intros g k Hg Hk Hreq.
    assert (Hin : (ce_id k, (mrr_runtime_id g, k)) ∈ required_evidence (mre_receipt e))
      by (apply required_evidence_elem; by exists g).
    assert (Hid : ce_id k ∈ mq_id <$> mvp_required_checks p)
      by (apply (ma_checks _ _ _ _ Ha); by apply (list_elem_of_fmap_2 fst) in Hin).
    apply list_elem_of_fmap in Hid as (q & Hid & Hq). exists q. split_and!; [done..|].
    rewrite Hid in Hin. by destruct (ma_check _ _ _ _ Ha q _ _ Hq Hin) as [-> _].
Qed.

Lemma matrix_pass_means_witness :
  ∃ e, from_slice_matrix [] = Some e ∧
    (∀ q, q ∈ mvp_required_checks policy → ∃ g k pr,
       g ∈ mrc_runtime_receipts (mre_receipt e) ∧ mrr_runtime_id g = mq_runtime_id q ∧
       pr ∈ mvp_runtimes policy ∧ mpr_id pr = mq_runtime_id q ∧ runtime_accepts pr g ∧
       verify1 (mrr_receipt g) = Ok () ∧
       rp_commit_sha (r1_repository (e1_receipt (mrr_receipt g))) = VerifyExample.commit ∧
       rp_dirty (r1_repository (e1_receipt (mrr_receipt g))) = false ∧
       k ∈ checks_of g ∧ ce_id k = mq_id q ∧ ce_required k = true ∧ succeeded k) ∧
    (∀ g k, g ∈ mrc_runtime_receipts (mre_receipt e) → k ∈ checks_of g → ce_required k = true →
       ∃ q, q ∈ mvp_required_checks policy ∧ mq_id q = ce_id k ∧ mq_runtime_id q = mrr_runtime_id g).
Proof.
  exact (matrix_pass_means [] policy VerifyExample.commit VerifyExample.now matrix_pass matrix_pass_ok eq_refl).
Defined.

(** The evidence of one runtime up to the run that produced it. *)
Definition same_but_run (g g' : MatrixRuntimeReceiptV2) : Prop :=
  mrr_runtime_id g = mrr_runtime_id g' ∧
  r1_configuration_digest (e1_receipt (mrr_receipt g)) = r1_configuration_digest (e1_receipt (mrr_receipt g')) ∧
  r1_platform (e1_receipt (mrr_receipt g)) = r1_platform (e1_receipt (mrr_receipt g')) ∧ checks_of g = checks_of g'.

Lemma accepts_same_but_run r r' p commit t :
  mrc_repository r = mrc_repository r' → mrc_run r = mrc_run r' →
  mrc_configuration_digest r = mrc_configuration_digest r' → mrc_overall_status r = mrc_overall_status r' →
  Forall2 same_but_run (mrc_runtime_receipts r) (mrc_runtime_receipts r') →
  matrix_accepts r p commit t → matrix_accepts r' p commit t.
Proof.
  intros Erep Erun Econf Est Hall [Hp Hc Hcl Hd Hs Hrs Hr Hks Hk Hf].
  assert (Eids : mrr_runtime_id <$> mrc_runtime_receipts r = mrr_runtime_id <$> mrc_runtime_receipts r').
  { clear -Hall. induction Hall as [|g g' l l' (E & _) _ IH]; [done|]. by rewrite !fmap_cons, E, IH. }
  assert (Eev : required_evidence r = required_evidence r').
  { unfold required_evidence. clear -Hall. induction Hall as [|g g' l l' (E & _ & _ & Ek) _ IH]; [done|].
    unfold checks_of in Ek. by rewrite !bind_cons, E, Ek, IH. }
  constructor; try congruence; try (by rewrite <-?Eids, <-?Eev); [|by rewrite <-Erun].
  intros expected g' Hx [i Hi]%list_elem_of_lookup_1 E.
  destruct (Forall2_lookup_r _ _ _ _ _ Hall Hi) as (g & Hg%list_elem_of_lookup_2 & Eid & Econf' & Epl & _).
  destruct (Hr expected g Hx Hg) as (H1 & H2 & H3); [congruence|]. unfold runtime_accepts.
  by rewrite <-Econf', <-Epl.
Qed.

Lemma same_but_run_sym l l' : Forall2 same_but_run l l' → Forall2 same_but_run l' l.
Proof. intros H. induction H as [|g g' l l' (?&?&?&?)]; constructor; [by repeat split|done]. Qed.

(** The freshness of a matrix receipt is the one of its outer run alone: the
    times at which the checks of a runtime really ran, which its own receipt
    records, do not change the decision.  The receipts of the runtimes can be of
    any age. *)
Theorem matrix_freshness_ignores_inner_runs `{Backend, MatrixParser} (bytes bytes' : list ascii)
    (p : MatrixVerificationPolicyV2) (commit at_ : string) (r r' : VerificationReportV1)
    (e e' : MatrixReceiptEnvelopeV2) :
  verify_matrix_receipt_document bytes p commit at_ = Ok r →
  verify_matrix_receipt_document bytes' p commit at_ = Ok r' →
  from_slice_matrix bytes = Some e → from_slice_matrix bytes' = Some e' →
  matrix_verify e = Ok () → matrix_verify e' = Ok () →
  mrc_repository (mre_receipt e) = mrc_repository (mre_receipt e') →
  mrc_run (mre_receipt e) = mrc_run (mre_receipt e') →
  mrc_configuration_digest (mre_receipt e) = mrc_configuration_digest (mre_receipt e') →
  mrc_overall_status (mre_receipt e) = mrc_overall_status (mre_receipt e') →
  Forall2 same_but_run (mrc_runtime_receipts (mre_receipt e)) (mrc_runtime_receipts (mre_receipt e')) →
  vr_decision r = vr_decision r'.
Proof.
  intros [_ Hr]%matrix_report_pass [_ Hr']%matrix_report_pass He He' Hv Hv' Erep Erun Ec Es Hall.
  assert (Hiff : vr_decision r = DPass ↔ vr_decision r' = DPass).
  { rewrite Hr, Hr'. split; intros (e0 & t & He0 & _ & Ht & Ha).
    - assert (e0 = e) as -> by congruence. exists e', t. split_and!; [done..|]. by eapply accepts_same_but_run.
    - assert (e0 = e') as -> by congruence. exists e, t. split_and!; [done..|].
      eapply (accepts_same_but_run (mre_receipt e')); [..|by apply same_but_run_sym|done]; done. }
  destruct (vr_decision r), (vr_decision r'); try done; [by rewrite (proj1 Hiff)|by rewrite (proj2 Hiff)].
Qed.

(** The outer run ended 25 minutes before, the inner runs years before, and the
    policy allows an hour. *)
Lemma matrix_freshness_ignores_inner_runs_witness :
  mvp_max_age_seconds policy = 3600 ∧
  (λ g, rn_finished_at_utc (r1_run (e1_receipt (mrr_receipt g)))) <$>
    mrc_runtime_receipts (mre_receipt (document old_run)) = ["2019-01-02T03:05:05Z"; "2019-01-02T03:05:05Z"] ∧
  vr_decision old_pass = DPass.
Proof.
  split; [reflexivity|]. split; [vm_compute; reflexivity|].
  rewrite <-(matrix_freshness_ignores_inner_runs [] ["a"%char] policy VerifyExample.commit VerifyExample.now
    matrix_pass old_pass (document this_run) (document old_run) matrix_pass_ok old_pass_ok eq_refl eq_refl).
  - vm_compute. reflexivity.
  - vm_compute. reflexivity.
  - vm_compute. reflexivity.
  - vm_compute. reflexivity.
  - vm_compute. reflexivity.
  - vm_compute. reflexivity.
  - vm_compute. reflexivity.
  - vm_compute. repeat constructor.
Defined.
