(* ===== verification/Durable.v ===== *)
(** Durable file-system operations ([src/src/durable_fs.rs]).

    A directory tree is a [node]; the operations act on the node of the parent
    directory and the name of the entry, and return the new parent.  The checks
    for absolute paths are left out, and every operation here either happens or is
    refused for the reason the code gives; what one leaves that fails on the way is
    said where it is used ([RunJournal.v]). *)
From S2P Require Import Prelude.
From S2P Require Import RustStr.
From S2P Require Import BTree.

(** A symbolic link records whether its target exists ([Path::exists] follows
    links, [symlink_metadata] does not) and the bytes of its target; [Special] is a
    device, a socket or a pipe. *)
Inductive node : Type :=
  | File (content : list ascii)
  | Dir (entries : list (string * node))
  | Symlink (target_exists : bool) (target : list ascii)
  | Special.

Inductive io_kind : Type := NotFound | AlreadyExists | OtherIo.

Inductive DurableFsError : Type :=
  | DurableIo (kind : io_kind)
  | UnsafePath (message : string)
  | DurableOwnershipMismatch
  | AtomicReplacementUnavailable.

(** [Path::exists]. *)
Definition exists_node (n : option node) : bool :=
  match n with
  | None => false
  | Some (Symlink target_exists _) => target_exists
  | Some _ => true
  end.

Definition validate_plain_directory (n : option node) : result DurableFsError (btmap string node) :=
  match n with
  | None => Err (DurableIo NotFound)
  | Some (Dir entries) => Ok entries
  | Some _ => Err (UnsafePath "parent must be a plain directory")
  end.

Definition create_new_directory (parent : option node) (name : string) : result DurableFsError node :=
  entries ← validate_plain_directory parent;
  _ ← ensure (negb (map_contains name entries)) (DurableIo AlreadyExists);
  Ok (Dir (map_insert name (Dir []) entries)).

Definition create_directory (parent : option node) (name : string) : result DurableFsError node :=
  entries ← validate_plain_directory parent;
  if map_contains name entries then
    _ ← validate_plain_directory (map_get name entries);
    Ok (Dir entries)
  else Ok (Dir (map_insert name (Dir []) entries)).

Definition create_new (parent : option node) (name : string) (bytes : list ascii) :
    result DurableFsError node :=
  entries ← validate_plain_directory parent;
  _ ← ensure (negb (map_contains name entries)) (DurableIo AlreadyExists);
  Ok (Dir (map_insert name (File bytes) entries)).

Definition validate_owned_tree (tree : option node) (marker_name : string)
    (marker_bytes : list ascii) : result DurableFsError () :=
  _ ← ensure (negb (is_empty marker_name || contains_char "/" marker_name
                    || contains_char "\" marker_name)) (UnsafePath "invalid owner marker name");
  entries ← validate_plain_directory tree;
  match map_get marker_name entries with
  | None => Err (DurableIo NotFound)
  | Some (File content) => ensure (bool_decide (content = marker_bytes)) DurableOwnershipMismatch
  | Some _ => Err DurableOwnershipMismatch
  end.

(** [fs::rename] of an entry within one directory, over what has the new name. *)
Definition rename_entry (entries : btmap string node) (name quarantine : string) (tree : node) :
    btmap string node :=
  map_insert quarantine tree (List.filter (λ kv, negb (kv.1 =? name)%string) entries).

(** [fs::remove_file]; its failure on a directory is ignored where it is called. *)
Definition remove_file (name : string) (entries : btmap string node) : btmap string node :=
  match map_get name entries with
  | Some (Dir _) | None => entries
  | Some _ => List.filter (λ kv, negb (kv.1 =? name)%string) entries
  end.

Definition reject_symlink_or_non_file (n : option node) : result DurableFsError () :=
  match n with
  | Some (File _) | None => Ok ()
  | Some _ => Err (UnsafePath "replacement target must be a plain file")
  end.

(** The replacement on the platforms that can replace a file; [temporary] is the
    generated name.  The parent directory is returned in both outcomes. *)
Definition atomic_replace (parent : option node) (name temporary : string) (bytes : list ascii) :
    result DurableFsError () * option node :=
  match validate_plain_directory parent with
  | Err e => (Err e, parent)
  | Ok entries =>
    match reject_symlink_or_non_file (map_get name entries) with
    | Err e => (Err e, parent)
    | Ok _ =>
      let '(outcome, after) :=
        if map_contains temporary entries then (Err (DurableIo AlreadyExists), entries)
        else (Ok (), rename_entry entries temporary name (File bytes)) in
      (outcome, Some (Dir (if exists_node (map_get temporary after)
                           then remove_file temporary after else after)))
    end
  end.

(** The parent directory once [atomic_replace] has written its temporary file and
    before the rename: what a process that ends in between leaves. *)
Definition replace_started (parent : option node) (temporary : string) (bytes : list ascii) : option node :=
  match parent with
  | Some (Dir entries) => Some (Dir (map_insert temporary (File bytes) entries))
  | _ => parent
  end.

(** The rename of a directory fails on a dangling link, which [exists] does not
    see. *)
Definition quarantine_owned_tree (entries : btmap string node) (name quarantine : string)
    (marker_name : string) (marker_bytes : list ascii) : result DurableFsError (btmap string node) :=
  _ ← validate_owned_tree (map_get name entries) marker_name marker_bytes;
  _ ← ensure (negb (exists_node (map_get quarantine entries)))
        (UnsafePath "quarantine destination already exists");
  tree ← ok_or (map_get name entries) (DurableIo NotFound);
  _ ← ensure (negb (map_contains quarantine entries)) (DurableIo OtherIo);
  Ok (rename_entry entries name quarantine tree).

Definition remove_owned_tree (entries : btmap string node) (name : string) (marker_name : string)
    (marker_bytes : list ascii) : result DurableFsError (btmap string node) :=
  _ ← validate_owned_tree (map_get name entries) marker_name marker_bytes;
  Ok (List.filter (λ kv, negb (kv.1 =? name)%string) entries).

(** * Properties *)

Lemma rename_entry_get entries name quarantine tree k :
  map_get k (rename_entry entries name quarantine tree) =
  if decide (k = quarantine) then Some tree else if decide (k = name) then None else map_get k entries.
Proof. unfold rename_entry. rewrite map_get_insert, map_get_filter_ne. by repeat case_decide. Qed.

Lemma map_contains_get_none {V} k (m : btmap string V) :
  map_contains k m = false → map_get k m = None.
Proof. intros Hc%not_true_iff_false. apply map_get_none. by rewrite <-map_contains_spec. Qed.

(** An owned tree is a plain directory that holds the marker. *)
Lemma validate_owned_tree_ok tree marker_name marker_bytes :
  validate_owned_tree tree marker_name marker_bytes = Ok () →
  ∃ entries, tree = Some (Dir entries) ∧ map_get marker_name entries = Some (File marker_bytes).
Proof.
  unfold validate_owned_tree. intros H. apply bind_ok in H as ([] & _ & H).
  apply bind_ok in H as (entries & Hd & H). exists entries. split.
  - by destruct tree as [[]|]; cbn in Hd; try done; injection Hd as ->.
  - destruct (map_get marker_name entries) as [[]|]; try done.
    apply ensure_ok, bool_decide_eq_true in H. by subst.
Qed.
