(* ===== verification/RunJournal.v ===== *)
(** The run journal ([src/src/run_journal.rs]).

    The store keeps one directory per run below [runs]: an ownership marker, one
    file per state entry, named by its zero-padded sequence number and state, and
    optionally a source binding and a directory of resources.  The state is the
    content of [runs] as a tree ([Durable.v]) and the token of the root.  Reading
    and writing JSON of the three record types is the class [Codec].

    Each operation is a program of [disk], where every change of the tree is one
    effect that may fail, or be the last of the process, and then leaves nothing or a
    part of it; the operation ends there with what was done before.  The same
    operation on a disk that does not fail is a function of the store
    ([completed]), which the rest of the development uses. *)
From S2P Require Import Prelude.
From S2P Require Import RustStr.
From S2P Require Import BTree.
From S2P Require Import Calendar.
From S2P Require Import Canonical.
From S2P Require Import Durable.
Local Open Scope Z_scope.

Definition RUN_JOURNAL_SCHEMA_VERSION : string := "1.0".
Definition RUN_MARKER : string := ".ccp-run-owner-v1.json".
Definition JOURNAL_DIR : string := "run-journal-v1".
Definition RUNS_DIR : string := "runs".
Definition RESOURCES_DIR : string := "resources".
Definition SOURCE_BINDING : string := "source-snapshot-v1.json".
Definition QUARANTINE_PREFIX : string := "quarantined-".

(** * Data *)

(** [RunAdmitted] is the code's [Admitted]. *)
Inductive RunJournalStateV1 : Type :=
  | Created | RunAdmitted | Prepared | Executing | Finalizing | CleanupPending | Failed | Sealed.
#[global] Instance RunJournalStateV1_eq_dec : EqDecision RunJournalStateV1.
Proof. solve_decision. Defined.

Inductive RunFailureKindV1 : Type :=
  | AdmissionRejected | PreparationFailed | ExecutionFailed | FinalizationFailed | CleanupFailed
  | ResourcePressure | StaleCommit | Invariant | Unknown.

Record RunOwnerMarkerV1 : Type := {
  om_schema_version : string;
  om_owner : string;
  om_purpose : string;
  om_root_token : string;
  om_run_id : string;
  om_run_token : string;
}.

Record RunJournalSourceV1 : Type := {
  js_schema_version : string;
  js_commit_sha : string;
  js_manifest_digest : string;
  js_entry_count : Z;
  js_resource_id : string;
}.

Record RunJournalEntryV1 : Type := {
  je_schema_version : string;
  je_run_id : string;
  je_seq : Z;
  je_state : RunJournalStateV1;
  je_at_utc : string;
  je_failure_kind : option RunFailureKindV1;
}.

Inductive RecoveryClassificationV1 : Type :=
  | Restartable | CleanupRequired | Terminal | Quarantined | OperatorRequired.
#[global] Instance RecoveryClassificationV1_eq_dec : EqDecision RecoveryClassificationV1.
Proof. solve_decision. Defined.

Record RecoveryRunStatusV1 : Type := {
  rs_run_id : string;
  rs_state : option RunJournalStateV1;
  rs_classification : RecoveryClassificationV1;
}.

Record RecoveryStatusV1 : Type := {
  rr_schema_version : string;
  rr_runs : list RecoveryRunStatusV1;
}.

Record RecoveryApplyV1 : Type := {
  ra_schema_version : string;
  ra_run_id : string;
  ra_outcome : RecoveryClassificationV1;
}.

Inductive RunJournalError : Type :=
  | JournalIo (kind : io_kind)
  | JournalDurable (e : DurableFsError)
  | InvalidRunId
  | JournalInvalidTimestamp
  | InvalidTransition
  | Corrupt
  | OwnershipMismatch
  | NonActionable.

Definition journal_exit_code (e : RunJournalError) : Z :=
  match e with
  | InvalidRunId | JournalInvalidTimestamp | InvalidTransition | OwnershipMismatch => 2
  | NonActionable => 5
  | JournalIo _ | JournalDurable _ | Corrupt => 70
  end.

Record RunJournalStore : Type := {
  st_root_token : string;
  st_runs : btmap string node;
}.

(** * States *)

Definition legal_transition (previous next : RunJournalStateV1) : bool :=
  match previous, next with
  | Created, (RunAdmitted | Failed | CleanupPending)
  | RunAdmitted, (Prepared | Failed | CleanupPending)
  | Prepared, (Executing | Failed | CleanupPending)
  | Executing, (Finalizing | Failed | CleanupPending)
  | Finalizing, (Sealed | Failed | CleanupPending)
  | CleanupPending, Failed => true
  | _, _ => false
  end.

Definition classify (state : RunJournalStateV1) : RecoveryClassificationV1 :=
  match state with
  | Created | RunAdmitted | Prepared => Restartable
  | Executing | Finalizing | CleanupPending => CleanupRequired
  | Failed | Sealed => Terminal
  end.

Definition state_name (state : RunJournalStateV1) : string :=
  match state with
  | Created => "created"
  | RunAdmitted => "admitted"
  | Prepared => "prepared"
  | Executing => "executing"
  | Finalizing => "finalizing"
  | CleanupPending => "cleanup-pending"
  | Failed => "failed"
  | Sealed => "sealed"
  end.

(** [format!("{seq:020}-{}.json", state_name(state))]. *)
Definition entry_filename (seq : Z) (state : RunJournalStateV1) : string :=
  str (pad_decimal 20 seq ++ bytes ("-" +:+ state_name state +:+ ".json")).

(** * Validation *)

Definition validate_run_id (value : string) : result RunJournalError () :=
  ensure ((len value =? 64) && all_bytes is_lower_hex value) InvalidRunId.

Definition validate_resource_id (value : string) : result RunJournalError () :=
  ensure (negb (is_empty value) && (len value <=? 64)
          && all_bytes (λ b, is_ascii_lowercase b || is_ascii_digit b || Ascii.eqb b "-") value)
    InvalidRunId.

Definition validate_hex_identity (value : string) : result RunJournalError () :=
  ensure (existsb (Z.eqb (len value)) [40; 64] && all_bytes is_lower_hex value) Corrupt.

Definition validate_digest (value : string) : result RunJournalError () :=
  match strip_prefix "sha256:" value with
  | Some hex => ensure ((len hex =? 64) && all_bytes is_lower_hex hex) Corrupt
  | None => Err Corrupt
  end.

(** The positions that hold separators. *)
Definition separator_index (i : nat) : bool := existsb (Nat.eqb i) [4; 7; 10; 13; 16; 19]%nat.

Definition validate_timestamp (value : string) : result RunJournalError () :=
  let b := bytes value in
  if separators_ok b
     && forallb (λ ib : nat * ascii, separator_index ib.1 || is_ascii_digit ib.2)
          (imap (λ i a, (i, a)) b)
  then
    let number start end_ :=
      ok_or (parse_unsigned u32_max (str (slice start end_ b))) JournalInvalidTimestamp in
    year ← number 0%nat 4%nat; month ← number 5%nat 7%nat; day ← number 8%nat 10%nat;
    hour ← number 11%nat 13%nat; minute ← number 14%nat 16%nat; second ← number 17%nat 19%nat;
    let leap := (Z.rem year 4 =? 0) && (negb (Z.rem year 100 =? 0) || (Z.rem year 400 =? 0)) in
    max_day ← match month with
              | 1 | 3 | 5 | 7 | 8 | 10 | 12 => Ok 31
              | 4 | 6 | 9 | 11 => Ok 30
              | 2 => Ok (if leap then 29 else 28)
              | _ => Err JournalInvalidTimestamp
              end;
    ensure (negb (year =? 0) && in_range 1 max_day day && (hour <? 24) && (minute <? 60)
            && (second <? 60)) JournalInvalidTimestamp
  else Err JournalInvalidTimestamp.

Definition is_failed (s : RunJournalStateV1) : bool := bool_decide (s = Failed).

Definition validate_entry (entry : RunJournalEntryV1) (run_id : string) (seq : Z) :
    result RunJournalError () :=
  ensure (negb (negb (je_schema_version entry =? RUN_JOURNAL_SCHEMA_VERSION)%string
                || negb (je_run_id entry =? run_id)%string
                || negb (je_seq entry =? seq)
                || negb (is_ok (validate_timestamp (je_at_utc entry)))
                || negb (Bool.eqb (is_failed (je_state entry)) (is_Some_b (je_failure_kind entry)))
                || ((seq =? 0) && negb (bool_decide (je_state entry = Created))))) Corrupt.

Definition bounded_run_id (value : string) : string :=
  if is_ok (validate_run_id value) then value else "unknown".

Definition operator_required (run_id : string) : RecoveryRunStatusV1 :=
  {| rs_run_id := bounded_run_id run_id; rs_state := None; rs_classification := OperatorRequired |}.

Definition quarantined_result (run_id : string) : RecoveryApplyV1 :=
  {| ra_schema_version := RUN_JOURNAL_SCHEMA_VERSION; ra_run_id := run_id;
     ra_outcome := Quarantined |}.

Definition validate_existing_plain_directory (n : option node) :
    result RunJournalError (btmap string node) :=
  match n with Some (Dir entries) => Ok entries | _ => Err OwnershipMismatch end.

Definition read_json_marker {T} `{Codec T} (n : option node) : result RunJournalError T :=
  match n with
  | Some (File content) =>
    _ ← ensure (negb (Z.of_nat (length content) >? 4096)) OwnershipMismatch;
    ok_or (from_slice content) OwnershipMismatch
  | _ => Err OwnershipMismatch
  end.

(** * The store *)

(** The seed of [derived_run_token]. *)
Definition run_token_seed (root_token run_id : string) : Value :=
  obj [("schema_version", Str RUN_JOURNAL_SCHEMA_VERSION); ("purpose", Str "run-journal-entry");
       ("root_token", Str root_token); ("run_id", Str run_id)].

Section Store.
Context `{Backend} `{Codec RunJournalEntryV1} `{Codec RunOwnerMarkerV1} `{Codec RunJournalSourceV1}.

#[local] Instance Value_serialize : Serialize Value := λ v, v.

Definition token_digest (value : Value) : result RunJournalError string :=
  digest ← map_err (λ _, Corrupt) (canonical_digest value);
  ok_or (strip_prefix "sha256:" digest) Corrupt.

Definition derived_run_token (root_token run_id : string) : result RunJournalError string :=
  token_digest (run_token_seed root_token run_id).

Definition run_marker (root_token run_id run_token : string) : RunOwnerMarkerV1 :=
  {| om_schema_version := RUN_JOURNAL_SCHEMA_VERSION; om_owner := "commit-ci-preflight";
     om_purpose := "run-journal-entry"; om_root_token := root_token; om_run_id := run_id;
     om_run_token := run_token |}.

(** [serde_json::to_vec] followed by a line feed. *)
Definition json_line {T} `{Codec T} (value : T) : result RunJournalError (list ascii) :=
  b ← ok_or (to_vec value) Corrupt;
  Ok (b ++ [line_feed]).

Definition run_marker_bytes (root_token run_id : string) : result RunJournalError (list ascii) :=
  run_token ← derived_run_token root_token run_id;
  json_line (run_marker root_token run_id run_token).

Definition validate_run_marker (store : RunJournalStore) (run : option node) (run_id : string) :
    result RunJournalError () :=
  entries ← validate_existing_plain_directory run;
  marker ← read_json_marker (T := RunOwnerMarkerV1) (map_get RUN_MARKER entries);
  _ ← ensure ((om_schema_version marker =? RUN_JOURNAL_SCHEMA_VERSION)%string
              && (om_owner marker =? "commit-ci-preflight")%string
              && (om_purpose marker =? "run-journal-entry")%string
              && (om_root_token marker =? st_root_token store)%string
              && (om_run_id marker =? run_id)%string) OwnershipMismatch;
  run_token ← derived_run_token (st_root_token store) run_id;
  ensure (om_run_token marker =? run_token)%string OwnershipMismatch.

(** The files of a run that are journal entries. *)
Definition is_entry_name (name : string) : bool :=
  negb (name =? RUN_MARKER)%string && negb (name =? RESOURCES_DIR)%string
  && negb (name =? SOURCE_BINDING)%string.

Definition validate_binding (n : option node) : result RunJournalError () :=
  if exists_node n then
    binding ← read_json_marker (T := RunJournalSourceV1) n;
    ensure (negb (negb (js_schema_version binding =? RUN_JOURNAL_SCHEMA_VERSION)%string
                  || negb (is_ok (validate_hex_identity (js_commit_sha binding)))
                  || negb (is_ok (validate_digest (js_manifest_digest binding)))
                  || (js_entry_count binding =? 0)
                  || negb (js_resource_id binding =? "source-snapshot-v1")%string)) Corrupt
  else Ok ().

Definition entry_step (run_id : string) (entries : list RunJournalEntryV1) (file : string * node) :
    result RunJournalError (list RunJournalEntryV1) :=
  content ← match file.2 with File content => Ok content | _ => Err Corrupt end;
  entry ← ok_or (from_slice content) Corrupt;
  _ ← validate_entry entry run_id (Z.of_nat (length entries));
  _ ← ensure (file.1 =? entry_filename (je_seq entry) (je_state entry))%string Corrupt;
  _ ← match last entries with
      | Some previous => ensure (legal_transition (je_state previous) (je_state entry)) Corrupt
      | None => Ok ()
      end;
  Ok (entries ++ [entry]).

Definition read_entries (store : RunJournalStore) (run_id : string) :
    result RunJournalError (list RunJournalEntryV1) :=
  let run := map_get run_id (st_runs store) in
  entries ← validate_existing_plain_directory run;
  _ ← validate_run_marker store run run_id;
  let paths := List.filter (λ kv, is_entry_name kv.1) entries in
  _ ← (if exists_node (map_get RESOURCES_DIR entries) then
         _ ← validate_existing_plain_directory (map_get RESOURCES_DIR entries); Ok ()
       else Ok ());
  _ ← validate_binding (map_get SOURCE_BINDING entries);
  try_fold (entry_step run_id) [] paths.

(** The store with the directory of a run replaced. *)
Definition with_run (store : RunJournalStore) (run_id : string) (run : node) : RunJournalStore :=
  {| st_root_token := st_root_token store; st_runs := map_insert run_id run (st_runs store) |}.

(** ** The disk *)

(** What the disk does with an effect; one that fails leaves nothing, or what was
    done of it. *)
Inductive durable_fate : Type :=
  | Completes
  | Fails (part : option nat).

(** [jd_fates] decides the next effects, and later ones complete. *)
Record JournalDisk : Type := {
  jd_store : RunJournalStore;
  jd_fates : list durable_fate;
}.

Definition disk (A : Type) : Type := JournalDisk → result RunJournalError A * JournalDisk.
#[export] Instance disk_ret : MRet disk := λ A x d, (Ok x, d).
#[export] Instance disk_bind : MBind disk := λ A B f m d,
  match m d with
  | (Ok x, d) => f x d
  | (Err e, d) => (Err e, d)
  end.
Definition disk_lift {A} (r : result RunJournalError A) : disk A := λ d, (r, d).
(** What only looks at the store. *)
Definition disk_look {A} (f : RunJournalStore → result RunJournalError A) : disk A := λ d, (f (jd_store d), d).

(** One effect; [partial n] is what it leaves when it fails after [n] bytes. *)
Definition durable (act : RunJournalStore → result DurableFsError RunJournalStore)
    (partial : nat → RunJournalStore → result DurableFsError RunJournalStore) : disk () := λ d,
  match act (jd_store d) with
  | Err e => (Err (JournalDurable e), d)
  | Ok store =>
    let ends r store := (r, {| jd_store := store; jd_fates := tail (jd_fates d) |}) in
    match head (jd_fates d) with
    | None | Some Completes => ends (Ok ()) store
    | Some (Fails part) =>
      ends (Err (JournalDurable (DurableIo OtherIo)))
        match part with
        | None => jd_store d
        | Some n => match partial n (jd_store d) with Ok store => store | Err _ => jd_store d end
        end
    end
  end.
(** An effect that is one call of the system, whose synchronisation may fail. *)
Definition durable_call (act : RunJournalStore → result DurableFsError RunJournalStore) : disk () :=
  durable act (λ _, act).

Definition make_directory (run_id name : string) (store : RunJournalStore) : result DurableFsError RunJournalStore :=
  run ← create_new_directory (map_get run_id (st_runs store)) name; Ok (with_run store run_id run).
Definition make_run (run_id : string) (store : RunJournalStore) : result DurableFsError RunJournalStore :=
  runs ← create_new_directory (Some (Dir (st_runs store))) run_id;
  entries ← validate_plain_directory (Some runs);
  Ok {| st_root_token := st_root_token store; st_runs := entries |}.
Definition make_file (run_id name : string) (bytes : list ascii) (store : RunJournalStore) :
    result DurableFsError RunJournalStore :=
  run ← create_new (map_get run_id (st_runs store)) name bytes; Ok (with_run store run_id run).
(** A file may be left with the first bytes of its content. *)
Definition durable_file (run_id name : string) (bytes : list ascii) : disk () :=
  durable (make_file run_id name bytes) (λ n, make_file run_id name (take n bytes)).
Definition move_run (run_id quarantine : string) (marker : list ascii) (store : RunJournalStore) :
    result DurableFsError RunJournalStore :=
  runs ← quarantine_owned_tree (st_runs store) run_id quarantine RUN_MARKER marker;
  Ok {| st_root_token := st_root_token store; st_runs := runs |}.

(** ** The operations *)

Definition append_entry_on_disk (run_id : string) (seq : Z) (state : RunJournalStateV1) (at_utc : string)
    (failure_kind : option RunFailureKindV1) : disk RunJournalEntryV1 :=
  let entry := {| je_schema_version := RUN_JOURNAL_SCHEMA_VERSION; je_run_id := run_id;
                  je_seq := seq; je_state := state; je_at_utc := at_utc;
                  je_failure_kind := failure_kind |} in
  b ← disk_lift (json_line entry);
  _ ← durable_file run_id (entry_filename seq state) b;
  mret entry.

Definition create_run_on_disk (run_id at_utc : string) : disk RunJournalEntryV1 :=
  _ ← disk_lift (validate_run_id run_id);
  _ ← disk_lift (validate_timestamp at_utc);
  _ ← durable_call (make_run run_id);
  marker ← disk_look (λ store, run_marker_bytes (st_root_token store) run_id);
  _ ← durable_file run_id RUN_MARKER marker;
  append_entry_on_disk run_id 0 Created at_utc None.

Definition transition_on_disk (run_id : string) (state : RunJournalStateV1) (at_utc : string)
    (failure_kind : option RunFailureKindV1) : disk RunJournalEntryV1 :=
  _ ← disk_lift (validate_run_id run_id);
  _ ← disk_lift (validate_timestamp at_utc);
  entries ← disk_look (λ store, read_entries store run_id);
  previous ← disk_lift (ok_or (last entries) Corrupt);
  _ ← disk_lift (ensure (negb (negb (legal_transition (je_state previous) state)
                    || (bool_decide (je_state previous = Created)
                        && bool_decide (state = CleanupPending)))) InvalidTransition);
  _ ← disk_lift (ensure (Bool.eqb (is_failed state) (is_Some_b failure_kind)) InvalidTransition);
  append_entry_on_disk run_id (je_seq previous + 1) state at_utc failure_kind.

Definition cleanup_pending_on_disk (run_id at_utc : string) : disk RunJournalEntryV1 :=
  _ ← disk_lift (validate_run_id run_id);
  _ ← disk_lift (validate_timestamp at_utc);
  entries ← disk_look (λ store, read_entries store run_id);
  previous ← disk_lift (ok_or (last entries) Corrupt);
  _ ← disk_lift (ensure (match je_state previous with
              | Created | RunAdmitted | Prepared | Executing | Finalizing => true
              | _ => false
              end) InvalidTransition);
  append_entry_on_disk run_id (je_seq previous + 1) CleanupPending at_utc None.

(** The directory of the run and that of its resources. *)
Definition run_directory (run_id : string) (store : RunJournalStore) : result RunJournalError (btmap string node) :=
  validate_existing_plain_directory (map_get run_id (st_runs store)).
Definition resources_directory (run_id : string) (store : RunJournalStore) : result RunJournalError (btmap string node) :=
  entries ← run_directory run_id store; validate_existing_plain_directory (map_get RESOURCES_DIR entries).

Definition reserve_resource_on_disk (run_id resource_id : string) : disk () :=
  _ ← disk_lift (validate_run_id run_id);
  _ ← disk_lift (validate_resource_id resource_id);
  _ ← disk_look (λ store, validate_run_marker store (map_get run_id (st_runs store)) run_id);
  _ ← disk_look (run_directory run_id);
  _ ← (λ d, match durable_call (make_directory run_id RESOURCES_DIR) d with
            | (Err (JournalDurable (DurableIo AlreadyExists)), d) =>
              (_ ← disk_look (resources_directory run_id); mret ()) d
            | r => r
            end);
  resources ← disk_look (resources_directory run_id);
  disk_lift (ensure (negb (map_contains resource_id resources)) OwnershipMismatch).

Definition bind_source_on_disk (run_id commit_sha manifest_digest : string) (entry_count : Z) : disk RunJournalSourceV1 :=
  _ ← disk_lift (validate_run_id run_id);
  _ ← disk_lift (validate_hex_identity commit_sha);
  _ ← disk_lift (validate_digest manifest_digest);
  _ ← disk_lift (ensure (negb (entry_count =? 0)) Corrupt);
  _ ← disk_look (λ store, validate_run_marker store (map_get run_id (st_runs store)) run_id);
  let binding := {| js_schema_version := RUN_JOURNAL_SCHEMA_VERSION; js_commit_sha := commit_sha;
                    js_manifest_digest := manifest_digest; js_entry_count := entry_count;
                    js_resource_id := "source-snapshot-v1" |} in
  b ← disk_lift (json_line binding);
  _ ← durable_file run_id SOURCE_BINDING b;
  mret binding.

Definition apply_on_disk (run_id : string) : disk RecoveryApplyV1 :=
  _ ← disk_lift (validate_run_id run_id);
  let quarantine := QUARANTINE_PREFIX +:+ run_id in
  quarantined ← disk_look (λ store, Ok (exists_node (map_get quarantine (st_runs store))));
  if quarantined : bool then
    _ ← disk_look (λ store, ensure (negb (exists_node (map_get run_id (st_runs store)))) Corrupt);
    _ ← disk_look (λ store, validate_run_marker store (map_get quarantine (st_runs store)) run_id);
    mret (quarantined_result run_id)
  else
    entries ← disk_look (λ store, read_entries store run_id);
    e ← disk_lift (ok_or (last entries) Corrupt);
    _ ← disk_lift (ensure (negb (bool_decide (classify (je_state e) = Terminal))) NonActionable);
    marker ← disk_look (λ store, run_marker_bytes (st_root_token store) run_id);
    _ ← durable_call (move_run run_id quarantine marker);
    mret (quarantined_result run_id).

(** ** The operations on a disk that does not fail *)

Definition completed {A} (m : disk A) (store : RunJournalStore) : result RunJournalError (A * RunJournalStore) :=
  let '(r, d) := m {| jd_store := store; jd_fates := [] |} in
  value ← r; Ok (value, jd_store d).

Definition append_entry (store : RunJournalStore) (run_id : string) (seq : Z)
    (state : RunJournalStateV1) (at_utc : string) (failure_kind : option RunFailureKindV1) :
    result RunJournalError (RunJournalEntryV1 * RunJournalStore) :=
  completed (append_entry_on_disk run_id seq state at_utc failure_kind) store.
Definition create_run (store : RunJournalStore) (run_id at_utc : string) :
    result RunJournalError (RunJournalEntryV1 * RunJournalStore) :=
  completed (create_run_on_disk run_id at_utc) store.
Definition transition (store : RunJournalStore) (run_id : string) (state : RunJournalStateV1)
    (at_utc : string) (failure_kind : option RunFailureKindV1) :
    result RunJournalError (RunJournalEntryV1 * RunJournalStore) :=
  completed (transition_on_disk run_id state at_utc failure_kind) store.
Definition transition_cleanup_pending_after_admission_acquired (store : RunJournalStore)
    (run_id at_utc : string) : result RunJournalError (RunJournalEntryV1 * RunJournalStore) :=
  completed (cleanup_pending_on_disk run_id at_utc) store.
Definition reserve_resource (store : RunJournalStore) (run_id resource_id : string) :
    result RunJournalError RunJournalStore :=
  '(_, store) ← completed (reserve_resource_on_disk run_id resource_id) store; Ok store.
Definition bind_source (store : RunJournalStore) (run_id commit_sha manifest_digest : string)
    (entry_count : Z) : result RunJournalError (RunJournalSourceV1 * RunJournalStore) :=
  completed (bind_source_on_disk run_id commit_sha manifest_digest entry_count) store.
Definition apply (store : RunJournalStore) (run_id : string) :
    result RunJournalError (RecoveryApplyV1 * RunJournalStore) :=
  completed (apply_on_disk run_id) store.

(** The status of one entry of the directory of runs. *)
Definition run_status (store : RunJournalStore) (entry : string * node) : RecoveryRunStatusV1 :=
  let '(name, n) := entry in
  match strip_prefix QUARANTINE_PREFIX name with
  | Some run_id =>
    {| rs_run_id := bounded_run_id run_id; rs_state := None;
       rs_classification :=
         if is_ok (validate_existing_plain_directory (Some n)) && is_ok (validate_run_id run_id)
            && is_ok (validate_run_marker store (Some n) run_id)
         then Quarantined else OperatorRequired |}
  | None =>
    if negb (is_ok (validate_run_id name)) then operator_required "unknown" else
    match read_entries store name with
    | Ok journal =>
      match last journal with
      | Some e => {| rs_run_id := name; rs_state := Some (je_state e);
                     rs_classification := classify (je_state e) |}
      | None => operator_required name
      end
    | Err _ => operator_required name
    end
  end.

Definition status (store : RunJournalStore) : RecoveryStatusV1 :=
  {| rr_schema_version := RUN_JOURNAL_SCHEMA_VERSION;
     rr_runs := run_status store <$> st_runs store |}.
End Store.
