(* ===== verification/RunJournalProps.v ===== *)
(** Properties of the run journal ([RunJournal.v]): what a readable journal is,
    that appending to it is read back, and the invariant of every store that the
    operations build. *)
From S2P Require Import Prelude.
From S2P Require Import RustStr.
From S2P Require Import BTree.
From S2P Require Import Calendar.
From S2P Require Import Canonical.
From S2P Require Import Durable.
From S2P Require Import RunJournal.
Local Open Scope Z_scope.

(** * The operations on a disk that does not fail *)

Section Completed.
Context `{B : Backend} `{CE : Codec RunJournalEntryV1} `{CM : Codec RunOwnerMarkerV1} `{CS : Codec RunJournalSourceV1}.

Lemma completed_ret {A} (x : A) store : completed (mret x) store = Ok (x, store).
Proof. done. Qed.
Lemma completed_lift {A C} (r : result RunJournalError A) (f : A → disk C) store :
  completed (disk_lift r ≫= f) store = (a ← r; completed (f a) store).
Proof. by destruct r. Qed.
Lemma completed_look {A C} (g : RunJournalStore → result RunJournalError A) (f : A → disk C) store :
  completed (disk_look g ≫= f) store = (a ← g store; completed (f a) store).
Proof. unfold completed, mbind, disk_bind, disk_look. cbn. by destruct (g store). Qed.
Lemma completed_durable {C} act partial (f : () → disk C) store :
  completed (durable act partial ≫= f) store = (store' ← map_err JournalDurable (act store); completed (f ()) store').
Proof. unfold completed, mbind, disk_bind, durable. cbn. by destruct (act store). Qed.
Lemma result_bind_ext {E A C} (r : result E A) (f g : A → result E C) : (∀ a, f a = g a) → (r ≫= f) = (r ≫= g).
Proof. intros Hfg. destruct r; cbn; [apply Hfg|done]. Qed.

Ltac undisturbed := rewrite ?completed_lift, ?completed_look; apply result_bind_ext; intros ?.

Lemma append_entry_completed store run_id seq state at_utc failure_kind :
  append_entry store run_id seq state at_utc failure_kind =
  (let entry := {| je_schema_version := RUN_JOURNAL_SCHEMA_VERSION; je_run_id := run_id;
                    je_seq := seq; je_state := state; je_at_utc := at_utc;
                    je_failure_kind := failure_kind |} in
    b ← json_line entry;
    run ← map_err JournalDurable
      (create_new (map_get run_id (st_runs store)) (entry_filename seq state) b);
    Ok (entry, with_run store run_id run)).
Proof.
  unfold append_entry, append_entry_on_disk. cbv zeta. undisturbed. unfold durable_file. rewrite completed_durable. unfold make_file.
  by destruct (create_new _ _ _).
Qed.

Lemma create_run_completed store run_id at_utc :
  create_run store run_id at_utc =
  (_ ← validate_run_id run_id;
    _ ← validate_timestamp at_utc;
    runs ← map_err JournalDurable (create_new_directory (Some (Dir (st_runs store))) run_id);
    entries ← map_err JournalDurable (validate_plain_directory (Some runs));
    let store := {| st_root_token := st_root_token store; st_runs := entries |} in
    marker ← run_marker_bytes (st_root_token store) run_id;
    run ← map_err JournalDurable (create_new (map_get run_id (st_runs store)) RUN_MARKER marker);
    append_entry (with_run store run_id run) run_id 0 Created at_utc None).
Proof.
  unfold create_run, create_run_on_disk. do 2 undisturbed. unfold durable_call. rewrite completed_durable. unfold make_run, create_new_directory.
  cbn [validate_plain_directory mbind result_bind]. destruct (negb _); [|done]. cbn [ensure mbind result_bind map_err validate_plain_directory].
  rewrite completed_look. cbn [st_root_token]. apply result_bind_ext. intros m. unfold durable_file. rewrite completed_durable. unfold make_file.
  cbn [st_runs]. by destruct (create_new _ _ _).
Qed.

Lemma transition_completed store run_id state at_utc failure_kind :
  transition store run_id state at_utc failure_kind =
  (_ ← validate_run_id run_id;
    _ ← validate_timestamp at_utc;
    entries ← read_entries store run_id;
    previous ← ok_or (last entries) Corrupt;
    _ ← ensure (negb (negb (legal_transition (je_state previous) state)
                      || (bool_decide (je_state previous = Created)
                          && bool_decide (state = CleanupPending)))) InvalidTransition;
    _ ← ensure (Bool.eqb (is_failed state) (is_Some_b failure_kind)) InvalidTransition;
    append_entry store run_id (je_seq previous + 1) state at_utc failure_kind).
Proof.
  unfold transition, transition_on_disk. by do 6 undisturbed.
Qed.

Lemma cleanup_pending_completed store run_id at_utc :
  transition_cleanup_pending_after_admission_acquired store run_id at_utc =
  (_ ← validate_run_id run_id;
    _ ← validate_timestamp at_utc;
    entries ← read_entries store run_id;
    previous ← ok_or (last entries) Corrupt;
    _ ← ensure (match je_state previous with
                | Created | RunAdmitted | Prepared | Executing | Finalizing => true
                | _ => false
                end) InvalidTransition;
    append_entry store run_id (je_seq previous + 1) CleanupPending at_utc None).
Proof.
  unfold transition_cleanup_pending_after_admission_acquired, cleanup_pending_on_disk. by do 5 undisturbed.
Qed.

Lemma reserve_resource_completed store run_id resource_id :
  reserve_resource store run_id resource_id =
  (_ ← validate_run_id run_id;
    _ ← validate_resource_id resource_id;
    let run := map_get run_id (st_runs store) in
    _ ← validate_run_marker store run run_id;
    entries ← validate_existing_plain_directory run;
    store ← match create_new_directory run RESOURCES_DIR with
            | Ok run => Ok (with_run store run_id run)
            | Err (DurableIo AlreadyExists) =>
              _ ← validate_existing_plain_directory (map_get RESOURCES_DIR entries); Ok store
            | Err e => Err (JournalDurable e)
            end;
    entries ← validate_existing_plain_directory (map_get run_id (st_runs store));
    resources ← validate_existing_plain_directory (map_get RESOURCES_DIR entries);
    _ ← ensure (negb (map_contains resource_id resources)) OwnershipMismatch;
    Ok store).
Proof.
  unfold reserve_resource, reserve_resource_on_disk.
  rewrite completed_lift. destruct (validate_run_id run_id); cbn [mbind result_bind]; [|done].
  rewrite completed_lift. destruct (validate_resource_id resource_id); cbn [mbind result_bind]; [|done].
  rewrite completed_look. cbv zeta. destruct (validate_run_marker _ _ _); cbn [mbind result_bind]; [|done].
  rewrite completed_look. unfold run_directory at 1. destruct (validate_existing_plain_directory (map_get run_id _)) as [entries|e] eqn:Ee;
    cbn [mbind result_bind]; [|done].
  unfold completed, mbind, disk_bind, durable_call, durable, make_directory, disk_look, disk_lift, resources_directory, run_directory. cbn.
  destruct (create_new_directory _ _) as [run|[[]| | |]]; cbn; try done.
  - destruct (validate_existing_plain_directory (map_get run_id (map_insert run_id run _))) as [entries'|]; cbn; [|done].
    destruct (validate_existing_plain_directory (map_get RESOURCES_DIR entries')) as [resources|]; cbn; [|done].
    by destruct (negb (map_contains resource_id resources)).
  - rewrite Ee. cbn. destruct (validate_existing_plain_directory (map_get RESOURCES_DIR entries)) as [resources|e] eqn:Er; cbn; [|done].
    rewrite Ee. cbn. rewrite Er. cbn.
    by destruct (negb (map_contains resource_id resources)).
Qed.

Lemma bind_source_completed store run_id commit_sha manifest_digest entry_count :
  bind_source store run_id commit_sha manifest_digest entry_count =
  (_ ← validate_run_id run_id;
    _ ← validate_hex_identity commit_sha;
    _ ← validate_digest manifest_digest;
    _ ← ensure (negb (entry_count =? 0)) Corrupt;
    let run := map_get run_id (st_runs store) in
    _ ← validate_run_marker store run run_id;
    let binding := {| js_schema_version := RUN_JOURNAL_SCHEMA_VERSION; js_commit_sha := commit_sha;
                      js_manifest_digest := manifest_digest; js_entry_count := entry_count;
                      js_resource_id := "source-snapshot-v1" |} in
    b ← json_line binding;
    run ← map_err JournalDurable (create_new run SOURCE_BINDING b);
    Ok (binding, with_run store run_id run)).
Proof.
  unfold bind_source, bind_source_on_disk. do 5 undisturbed. cbv zeta. undisturbed. unfold durable_file. rewrite completed_durable. unfold make_file.
  by destruct (create_new _ _ _).
Qed.

Lemma apply_completed store run_id :
  apply store run_id =
  (_ ← validate_run_id run_id;
    let quarantine := QUARANTINE_PREFIX +:+ run_id in
    if exists_node (map_get quarantine (st_runs store)) then
      _ ← ensure (negb (exists_node (map_get run_id (st_runs store)))) Corrupt;
      _ ← validate_run_marker store (map_get quarantine (st_runs store)) run_id;
      Ok (quarantined_result run_id, store)
    else
    entries ← read_entries store run_id;
    e ← ok_or (last entries) Corrupt;
    _ ← ensure (negb (bool_decide (classify (je_state e) = Terminal))) NonActionable;
    marker ← run_marker_bytes (st_root_token store) run_id;
    runs ← map_err JournalDurable
      (quarantine_owned_tree (st_runs store) run_id quarantine RUN_MARKER marker);
    Ok (quarantined_result run_id, {| st_root_token := st_root_token store; st_runs := runs |})).
Proof.
  unfold apply, apply_on_disk. undisturbed. cbv zeta. cbn [mbind result_bind]. destruct (exists_node _); [by do 2 undisturbed|].
  do 4 undisturbed. unfold durable_call. rewrite completed_durable. unfold move_run. by destruct (quarantine_owned_tree _ _ _ _ _).
Qed.

End Completed.

(** * States *)

(** The position of a state on its way to the end; transitions only go forward. *)
Definition rank (s : RunJournalStateV1) : nat :=
  match s with
  | Created => 0 | RunAdmitted => 1 | Prepared => 2 | Executing => 3 | Finalizing => 4
  | CleanupPending => 5 | Failed => 6 | Sealed => 6
  end.

Lemma legal_transition_rank s t : legal_transition s t = true → (rank s < rank t)%nat.
Proof. destruct s, t; cbn; (done || lia). Qed.

Lemma terminal_no_transition s t : classify s = Terminal → legal_transition s t = false.
Proof. by destruct s, t. Qed.

(** * Timestamps *)

Lemma parse_unsigned_digits max l n :
  l ≠ [] → forallb is_ascii_digit l = true → n ≤ max →
  parse_unsigned max (str l) = Some n ↔ digits_val 0 l = Some n.
Proof.
  intros Hne Hd Hmax. unfold parse_unsigned. rewrite bytes_str. destruct l as [|a l]; [done|].
  cbn in Hd. apply andb_true_iff in Hd as [Ha Hd].
  destruct (Ascii.eqb_spec a "+") as [->|_]; [done|]. cbn [mbind option_bind].
  destruct (digits_val 0 (a :: l)) as [v|]; cbn; [|done].
  destruct (v <=? max) eqn:E; [done|]. bool_prop. split; [done|]. intros [= ->]. lia.
Qed.

Lemma parse_unsigned_some max l n :
  parse_unsigned max (str l) = Some n → forallb is_ascii_digit l = true → digits_val 0 l = Some n.
Proof.
  unfold parse_unsigned. rewrite bytes_str. destruct l as [|a l]; [done|]. intros H Hd.
  cbn in Hd. apply andb_true_iff in Hd as [Ha Hd].
  destruct (Ascii.eqb_spec a "+") as [->|_]; [done|].
  apply bind_Some in H as (v & E & H). rewrite E. by destruct (v <=? max).
Qed.

(** The positions of the digits. *)
Lemma slice_digits b i j :
  forallb (λ ib : nat * ascii, separator_index ib.1 || is_ascii_digit ib.2)
    (imap (λ i a, (i, a)) b) = true →
  (∀ k, (i ≤ k < j)%nat → separator_index k = false) →
  forallb is_ascii_digit (slice i j b) = true.
Proof.
  rewrite !forallb_Forall. intros H Hsep. rewrite Forall_forall in H. apply Forall_lookup.
  intros k a Hk. unfold slice in Hk. apply lookup_take_Some in Hk as [Hk Hlt].
  rewrite lookup_drop in Hk.
  assert (Hin : (i + k, a)%nat ∈ imap (λ i a, (i, a)) b).
  { apply list_elem_of_lookup. exists (i + k)%nat. by rewrite list_lookup_imap, Hk. }
  specialize (H _ Hin). cbn [fst snd] in H. rewrite Hsep in H by lia. done.
Qed.

Lemma number_spec b i j n :
  forallb is_ascii_digit (slice i j b) = true →
  ok_or (parse_unsigned u32_max (str (slice i j b))) JournalInvalidTimestamp = Ok n →
  decimal (slice i j b) = Some n.
Proof. intros Hd H%ok_or_ok. by apply parse_unsigned_some in H. Qed.

Lemma validate_timestamp_parse value :
  validate_timestamp value = Ok () → is_Some (parse_utc_seconds value).
Proof.
  unfold validate_timestamp. intros H. destruct (_ && _) eqn:Hg; [|done].
  apply andb_true_iff in Hg as [Hs Hd]. cbv zeta in H.
  apply bind_ok in H as (y & E1 & H). apply bind_ok in H as (mo & E2 & H).
  apply bind_ok in H as (d & E3 & H). apply bind_ok in H as (h & E4 & H).
  apply bind_ok in H as (mi & E5 & H). apply bind_ok in H as (sec & E6 & H).
  assert (Hdig : ∀ i j, (∀ k, (i ≤ k < j)%nat → separator_index k = false) →
    forallb is_ascii_digit (slice i j (bytes value)) = true)
    by (intros i j; by apply slice_digits).
  assert (Hsep : ∀ i j, forallb (λ k, negb (separator_index k)) (seq i (j - i)) = true →
    ∀ k, (i ≤ k < j)%nat → separator_index k = false).
  { intros i j Hf k Hk. rewrite forallb_Forall, Forall_forall in Hf.
    apply negb_true_iff, Hf, elem_of_seq. lia. }
  apply number_spec in E1, E2, E3, E4, E5, E6; try (by apply Hdig, Hsep).
  destruct (decimals_timestamp _ _ _ _ _ _ _ Hs E1 E2 E3 E4 E5 E6) as (-> & ? & ? & ? & ? & ? & ?).
  apply bind_ok in H as (max & Hm & H%ensure_ok). bool_prop. rewrite in_range_spec in *.
  eexists. apply parse_timestamp. unfold civil_ok.
  assert (Hmax : max = days_in_month (leap_year y) mo).
  { unfold days_in_month, leap_year. clear -Hm.
    repeat match goal with H : context [match ?x with _ => _ end] |- _ =>
      destruct x; try (by injection Hm as <-); try done end. }
  rewrite <-Hmax. lia.
Qed.

Lemma pad_decimal_digits w n : Forall (λ a, is_ascii_digit a = true) (pad_decimal w n).
Proof.
  eapply Forall_impl; [apply pad_decimal_codes|]. intros a. unfold is_ascii_digit.
  by rewrite in_range_spec.
Qed.

(** The lists of two and four digits, element by element. *)
Lemma digits2 n : ∃ a b, pad_decimal 2 n = [a; b] ∧ is_ascii_digit a = true ∧ is_ascii_digit b = true.
Proof.
  pose proof (pad_decimal_digits 2 n) as H. pose proof (length_pad_decimal 2 n) as Hl.
  destruct (pad_decimal 2 n) as [|a [|b [|]]]; try done. rewrite !Forall_cons in H. naive_solver.
Qed.
Lemma digits4 n : ∃ a b c d, pad_decimal 4 n = [a; b; c; d] ∧
  is_ascii_digit a = true ∧ is_ascii_digit b = true ∧ is_ascii_digit c = true ∧ is_ascii_digit d = true.
Proof.
  pose proof (pad_decimal_digits 4 n) as H. pose proof (length_pad_decimal 4 n) as Hl.
  destruct (pad_decimal 4 n) as [|a [|b [|c [|d [|]]]]]; try done. rewrite !Forall_cons in H. naive_solver.
Qed.

Lemma timestamp_positions y mo d h mi sec :
  forallb (λ ib : nat * ascii, separator_index ib.1 || is_ascii_digit ib.2)
    (imap (λ i a, (i, a)) (timestamp y mo d h mi sec)) = true.
Proof.
  unfold timestamp. destruct (digits4 y) as (? & ? & ? & ? & -> & E1 & E2 & E3 & E4).
  destruct (digits2 mo) as (? & ? & -> & E5 & E6). destruct (digits2 d) as (? & ? & -> & E7 & E8).
  destruct (digits2 h) as (? & ? & -> & E9 & E10). destruct (digits2 mi) as (? & ? & -> & E11 & E12).
  destruct (digits2 sec) as (? & ? & -> & E13 & E14). cbn -[is_ascii_digit].
  by rewrite E1, E2, E3, E4, E5, E6, E7, E8, E9, E10, E11, E12, E13, E14.
Qed.

Lemma number_pad w n :
  (0 < w ≤ 4)%nat → 0 ≤ n < 10 ^ Z.of_nat w →
  parse_unsigned u32_max (str (pad_decimal w n)) = Some n.
Proof.
  intros Hw Hn. apply parse_unsigned_digits.
  - intros E. pose proof (length_pad_decimal w n) as Hl. rewrite E in Hl. cbn in Hl. lia.
  - apply forallb_Forall, pad_decimal_digits.
  - assert (10 ^ Z.of_nat w ≤ 10 ^ 4) by (apply Z.pow_le_mono_r; lia). unfold u32_max. lia.
  - by apply digits_val_pad.
Qed.

(** The journal's reader of timestamps accepts what the verifier's accepts. *)
Lemma validate_timestamp_spec value :
  validate_timestamp value = Ok () ↔ is_Some (parse_utc_seconds value).
Proof.
  split; [apply validate_timestamp_parse|].
  intros [n (y & mo & d & h & mi & sec & -> & Hok & _)%parse_utc_seconds_inv].
  destruct (timestamp_slices y mo d h mi sec) as (Hs & S1 & S2 & S3 & S4 & S5 & S6).
  destruct (civil_ok_bounds _ _ _ _ _ _ Hok) as (B1 & B2 & B3 & B4 & B5 & B6).
  unfold validate_timestamp. rewrite bytes_str, Hs, timestamp_positions, S1, S2, S3, S4, S5, S6.
  cbn [andb]. rewrite !number_pad by (lia || done). cbn [ok_or mbind result_bind].
  destruct Hok as (Hy & Hd & Hh & Hmi & Hsec).
  assert (Hm : ∃ max, max = days_in_month (leap_year y) mo) by eauto. destruct Hm as [max Hm].
  assert (Hc : 1 ≤ mo ≤ 12) by (apply (days_in_month_cases (leap_year y)); lia).
  apply bind_ok. exists max. split.
  - rewrite Hm. unfold days_in_month, leap_year.
    assert (Hcases : mo = 1 ∨ mo = 2 ∨ mo = 3 ∨ mo = 4 ∨ mo = 5 ∨ mo = 6 ∨ mo = 7 ∨ mo = 8 ∨
                     mo = 9 ∨ mo = 10 ∨ mo = 11 ∨ mo = 12) by lia.
    by repeat destruct Hcases as [-> | Hcases]; subst.
  - apply ensure_ok. rewrite !andb_true_iff, in_range_spec, negb_true_iff. subst. lia.
Qed.

(** * File names *)

Lemma entry_filename_lt i j s t :
  0 ≤ i < j → j < 10 ^ 20 → lt_ord (entry_filename i s) (entry_filename j t).
Proof.
  intros Hi Hj. change (String.compare (entry_filename i s) (entry_filename j t) = Lt).
  rewrite string_compare_bytes. unfold entry_filename.
  rewrite !bytes_str, bytes_cmp_app by by rewrite !length_pad_decimal.
  rewrite pad_compare by (change (Z.of_nat 20) with 20; lia).
  by rewrite (proj2 (Z.compare_lt_iff i j)) by lia.
Qed.

Lemma entry_filename_is_entry i s : is_entry_name (entry_filename i s) = true.
Proof.
  unfold is_entry_name. destruct (pad_decimal 20 i) as [|a l] eqn:E.
  { pose proof (length_pad_decimal 20 i) as Hl. by rewrite E in Hl. }
  pose proof (pad_decimal_digits 20 i) as Hd. rewrite E in Hd. apply Forall_cons in Hd as [Ha _].
  unfold entry_filename. rewrite E. cbn [app].
  assert (Hne : ∀ name c r, bytes name = c :: r → is_ascii_digit c = false →
    (str (a :: l ++ bytes ("-" +:+ state_name s +:+ ".json")) =? name)%string = false).
  { intros name c r Hb Hc. apply String.eqb_neq. intros Heq. apply (f_equal bytes) in Heq.
    rewrite bytes_str, Hb in Heq. injection Heq as -> _. congruence. }
  by erewrite !Hne by reflexivity.
Qed.

(** A file whose name is greater than every entry comes last. *)
Lemma filter_insert_last {V} (P : string → bool) (m : btmap string V) k v :
  map_sorted m → P k = true → (∀ kv, kv ∈ m → P kv.1 = true → lt_ord kv.1 k) →
  List.filter (λ kv, P kv.1) (map_insert k v m) = List.filter (λ kv, P kv.1) m ++ [(k, v)].
Proof.
  intros Hs HP. unfold map_sorted, set_sorted, map_keys in Hs.
  induction m as [|[z w] m IH]; intros Hlt; cbn; [by rewrite HP|].
  cbn in Hs. apply StronglySorted_inv in Hs as [Hs Hz].
  assert (Hm : ∀ kv, kv ∈ m → P kv.1 = true → lt_ord kv.1 k) by (intros; apply Hlt; [by right|done]).
  destruct (String.compare k z) eqn:E; cbn.
  - apply string_compare_eq in E as ->. destruct (P z) eqn:Pz; [|congruence].
    exfalso. apply (lt_ord_irrefl z). apply (Hlt (z, w)); [by left|done].
  - rewrite HP. assert (Hno : ∀ kv, kv ∈ (z, w) :: m → P kv.1 = false).
    { intros kv Hin. apply not_true_iff_false. intros Hp. specialize (Hlt kv Hin Hp).
      assert (Hzk : lt_ord k z) by exact E. apply (lt_ord_irrefl k).
      apply elem_of_cons in Hin as [->|Hin]; [by transitivity z|].
      rewrite Forall_forall in Hz. transitivity z; [done|]. transitivity kv.1; [|done].
      apply Hz. apply list_elem_of_fmap_2, Hin. }
    pose proof (Hno (z, w) ltac:(left)) as Hpz. cbn in Hpz. rewrite Hpz. cbn.
    assert (Hf : List.filter (λ kv, P kv.1) m = []).
    { clear -Hno. induction m as [|x m IH]; cbn; [done|]. rewrite (Hno x) by set_solver.
      apply IH. intros kv [->|Hin]%elem_of_cons; apply Hno; set_solver. }
    by rewrite Hf.
  - rewrite IH by done. by destruct (P z).
Qed.

(** * Journals *)

(** One entry at its place, and a whole journal. *)
Definition entry_ok (run_id : string) (i : nat) (e : RunJournalEntryV1) : Prop :=
  je_schema_version e = RUN_JOURNAL_SCHEMA_VERSION ∧ je_run_id e = run_id ∧
  je_seq e = Z.of_nat i ∧ is_Some (parse_utc_seconds (je_at_utc e)) ∧
  (je_state e = Failed ↔ is_Some (je_failure_kind e)) ∧ (i = 0%nat → je_state e = Created).

Record journal_ok (run_id : string) (es : list RunJournalEntryV1) : Prop := {
  jo_entries : ∀ i e, es !! i = Some e → entry_ok run_id i e;
  jo_steps : ∀ i e e', es !! i = Some e → es !! S i = Some e' →
    legal_transition (je_state e) (je_state e') = true;
}.

Lemma validate_entry_ok e run_id i :
  validate_entry e run_id (Z.of_nat i) = Ok () ↔ entry_ok run_id i e.
Proof.
  unfold validate_entry, entry_ok. rewrite ensure_ok, negb_true_iff, !orb_false_iff, !negb_false_iff.
  rewrite !String.eqb_eq, Z.eqb_eq, is_ok_unit, validate_timestamp_spec, andb_false_iff.
  rewrite negb_false_iff, bool_decide_eq_true.
  assert (Hf : Bool.eqb (is_failed (je_state e)) (is_Some_b (je_failure_kind e)) = true ↔
               (je_state e = Failed ↔ is_Some (je_failure_kind e))).
  { unfold is_failed, is_Some_b. rewrite Bool.eqb_true_iff.
    destruct (decide (je_state e = Failed)) as [E|E];
      [rewrite bool_decide_true by done|rewrite bool_decide_false by done];
      destruct (je_failure_kind e); naive_solver. }
  rewrite Hf. assert (Hz : (Z.of_nat i =? 0) = false ↔ i ≠ 0%nat) by lia.
  rewrite Hz. destruct (decide (i = 0%nat)); tauto.
Qed.

Section Journal.
Context `{B : Backend} `{CE : Codec RunJournalEntryV1} `{CM : Codec RunOwnerMarkerV1}
  `{CS : Codec RunJournalSourceV1}.

Lemma last_lookup_length {A} (l : list A) : last l = l !! pred (length l).
Proof. apply last_lookup. Qed.

Lemma entry_step_ok run_id es file es' :
  entry_step run_id es file = Ok es' ↔
  ∃ content e, file.2 = File content ∧ from_slice content = Some e ∧ entry_ok run_id (length es) e ∧
    file.1 = entry_filename (je_seq e) (je_state e) ∧
    (∀ p, last es = Some p → legal_transition (je_state p) (je_state e) = true) ∧
    es' = es ++ [e].
Proof.
  unfold entry_step. split.
  - intros H. apply bind_ok in H as (content & Hc & H). apply bind_ok in H as (e & He%ok_or_ok & H).
    apply bind_ok in H as ([] & Hv%validate_entry_ok & H).
    apply bind_ok in H as ([] & Hn%ensure_ok & H). apply bind_ok in H as ([] & Hl & [= <-]).
    exists content, e. bool_prop. split_and!; try done.
    + destruct (file.2); [by injection Hc as ->|done..].
    + intros p Hp. rewrite Hp in Hl. by apply ensure_ok in Hl.
  - intros (content & e & -> & He & Hv & Hn & Hl & ->).
    cbn [mbind result_bind]. rewrite He. cbn [ok_or mbind result_bind].
    rewrite (proj2 (validate_entry_ok _ _ _) Hv). cbn [mbind result_bind].
    rewrite Hn, String.eqb_refl. cbn [ensure mbind result_bind].
    destruct (last es) as [p|]; [|done]. by rewrite (Hl p eq_refl).
Qed.

Lemma journal_ok_snoc run_id es e :
  journal_ok run_id es → entry_ok run_id (length es) e →
  (∀ p, last es = Some p → legal_transition (je_state p) (je_state e) = true) →
  journal_ok run_id (es ++ [e]).
Proof.
  intros [He Hs] Hv Hl. constructor.
  - intros i x Hi. apply lookup_app_Some in Hi as [Hi|[Hlen Hi]]; [by apply He|].
    apply list_lookup_singleton_Some in Hi as [Hz <-]. by replace i with (length es) by lia.
  - intros i x y Hx Hy. apply lookup_app_Some in Hy as [Hy|[Hlen Hy]].
    + apply lookup_app_Some in Hx as [Hx|[Hlen _]]; [by apply (Hs i)|].
      apply lookup_lt_Some in Hy. lia.
    + apply list_lookup_singleton_Some in Hy as [Hz <-]. apply Hl. rewrite last_lookup.
      rewrite lookup_app_l in Hx by lia. by replace (pred (length es)) with i by lia.
Qed.

(** What reading the files in order establishes. *)
Lemma entry_loop_ok run_id paths es :
  try_fold (entry_step run_id) [] paths = Ok es →
  journal_ok run_id es ∧ paths.*1 = (λ e, entry_filename (je_seq e) (je_state e)) <$> es.
Proof.
  intros H. apply (try_fold_inv (λ pre st, journal_ok run_id st ∧
    pre.*1 = (λ e, entry_filename (je_seq e) (je_state e)) <$> st)) in H; [done|by repeat constructor|].
  intros pre file st st' [Hj Hn] (content & e & Hc & Hf & Hv & Hname & Hl & ->)%entry_step_ok.
  split; [by apply journal_ok_snoc|]. rewrite !fmap_app, Hn. cbn. by rewrite Hname.
Qed.

(** Transitions go forward, so a journal has at most seven entries. *)
Lemma journal_rank run_id es i e : journal_ok run_id es → es !! i = Some e → (i ≤ rank (je_state e))%nat.
Proof.
  intros [_ Hs]. revert e. induction i as [|i IH]; intros e Hi; [lia|].
  destruct (es !! i) as [p|] eqn:Hp; [|apply lookup_ge_None in Hp; apply lookup_lt_Some in Hi; lia].
  specialize (IH _ eq_refl). specialize (Hs _ _ _ Hp Hi). apply legal_transition_rank in Hs. lia.
Qed.

Lemma journal_length run_id es : journal_ok run_id es → (length es ≤ 7)%nat.
Proof.
  intros Hj. destruct (last es) as [e|] eqn:Hl.
  - rewrite last_lookup in Hl. pose proof (journal_rank _ _ _ _ Hj Hl).
    assert (rank (je_state e) ≤ 6)%nat by (destruct (je_state e); cbn; lia). lia.
  - apply last_None in Hl as ->. cbn. lia.
Qed.

(** ** The shape of a journal *)

(** The states of a run that nothing interrupts. *)
Definition normal_path : list RunJournalStateV1 :=
  [Created; RunAdmitted; Prepared; Executing; Finalizing; Sealed].

(** A run stops on its path, or leaves it before the end. *)
Definition path_shape (k : nat) (suffix states : list RunJournalStateV1) : Prop :=
  states = take k normal_path ++ suffix ∧
  (suffix = [] ∧ (k ≤ 6)%nat ∨
   (1 ≤ k ≤ 5)%nat ∧ (suffix = [CleanupPending] ∨ suffix = [Failed] ∨ suffix = [CleanupPending; Failed])).

Ltac path_shape_at k :=
  first [by exists k, []; split; [done|left; split; [done|lia]]
        |by eexists k, _; split; [done|right; split; [lia|eauto]]].

Lemma path_shape_snoc k suffix states s t :
  path_shape k suffix states → last states = Some s → legal_transition s t = true →
  ∃ k' suffix', path_shape k' suffix' (states ++ [t]).
Proof.
  intros [-> Hk] Hs Ht. destruct Hk as [[-> Hk]|[Hk [-> | [-> | ->]]]].
  - rewrite app_nil_r in *.
    do 7 (destruct k as [|k]; [cbn in Hs; try done; injection Hs as <-; destruct t; try done;
      first [path_shape_at 1%nat | path_shape_at 2%nat | path_shape_at 3%nat | path_shape_at 4%nat
            |path_shape_at 5%nat | path_shape_at 6%nat]|]).
    lia.
  - rewrite last_snoc in Hs. injection Hs as <-. destruct t; try done.
    exists k, [CleanupPending; Failed]. rewrite <-app_assoc. split; [done|eauto].
  - rewrite last_snoc in Hs. injection Hs as <-. by destruct t.
  - rewrite (app_assoc _ [CleanupPending] [Failed]), last_snoc in Hs. injection Hs as <-. by destruct t.
Qed.

Lemma journal_ok_prefix run_id es e : journal_ok run_id (es ++ [e]) → journal_ok run_id es.
Proof.
  intros [He Hs]. constructor.
  - intros i x Hi. apply He. by apply lookup_app_l_Some.
  - intros i x y Hx Hy. apply (Hs i); by apply lookup_app_l_Some.
Qed.

Lemma journal_shape run_id es :
  journal_ok run_id es → ∃ k suffix, path_shape k suffix (je_state <$> es).
Proof.
  induction es as [|e es IH] using rev_ind; intros Hj.
  { exists 0%nat, []. split; [done|]. left. split; [done|lia]. }
  destruct (IH (journal_ok_prefix _ _ _ Hj)) as (k & suffix & Hshape). rewrite fmap_app.
  destruct (last es) as [p|] eqn:Hp.
  - eapply path_shape_snoc; [exact Hshape|by rewrite fmap_last, Hp|].
    rewrite last_lookup in Hp. apply (jo_steps _ _ Hj (pred (length es)) p e).
    + by apply lookup_app_l_Some.
    + apply lookup_lt_Some in Hp. replace (S (pred (length es))) with (length es) by lia.
      by apply list_lookup_middle.
  - apply last_None in Hp as ->. exists 1%nat, []. split; [|left; split; [done|lia]].
    destruct (jo_entries _ _ Hj 0%nat e eq_refl) as (_ & _ & _ & _ & _ & Hc). cbn. by rewrite Hc.
Qed.

(** * Reading a store *)

(** The part of reading that looks at the marker, the resources and the source
    binding. *)
Definition run_header (token run_id : string) (entries : btmap string node) : Prop :=
  validate_run_marker {| st_root_token := token; st_runs := [] |} (Some (Dir entries)) run_id = Ok () ∧
  (exists_node (map_get RESOURCES_DIR entries) = true →
     ∃ r, map_get RESOURCES_DIR entries = Some (Dir r)) ∧
  validate_binding (map_get SOURCE_BINDING entries) = Ok ().

Definition entry_files (entries : btmap string node) : list (string * node) :=
  List.filter (λ kv, is_entry_name kv.1) entries.

Lemma plain_directory_ok n entries :
  validate_existing_plain_directory n = Ok entries ↔ n = Some (Dir entries).
Proof. destruct n as [[]|]; cbn; naive_solver. Qed.

Lemma validate_run_marker_token s s' n run_id :
  st_root_token s = st_root_token s' → validate_run_marker s n run_id = validate_run_marker s' n run_id.
Proof. unfold validate_run_marker. by intros ->. Qed.

Lemma read_entries_iff store run_id es :
  read_entries store run_id = Ok es ↔
  ∃ entries, map_get run_id (st_runs store) = Some (Dir entries) ∧
    run_header (st_root_token store) run_id entries ∧
    try_fold (entry_step run_id) [] (entry_files entries) = Ok es.
Proof.
  unfold read_entries, run_header, entry_files. split.
  - intros H. apply bind_ok in H as (entries & Hn%plain_directory_ok & H). rewrite Hn in H.
    apply bind_ok in H as ([] & Hm & H). apply bind_ok in H as ([] & Hr & H).
    apply bind_ok in H as ([] & Hb & H). exists entries. split; [done|]. split; [|done].
    split_and!; [by erewrite validate_run_marker_token; [exact Hm|]| |done].
    intros Hex. rewrite Hex in Hr. apply bind_ok in Hr as (r & Hr%plain_directory_ok & _). eauto.
  - intros (entries & Hn & (Hm & Hr & Hb) & Hl). rewrite Hn. cbn [validate_existing_plain_directory].
    res_step; [done|]. res_step; [by erewrite validate_run_marker_token; [exact Hm|]|].
    res_step; [|res_step; [exact Hb|exact Hl]].
    destruct (exists_node (map_get RESOURCES_DIR entries)); [|done].
    destruct (Hr eq_refl) as [r ->]. done.
Qed.

Lemma special_names k : is_entry_name k = true → RUN_MARKER ≠ k ∧ RESOURCES_DIR ≠ k ∧ SOURCE_BINDING ≠ k.
Proof. unfold is_entry_name. intros H. bool_prop. by split_and!; apply not_eq_sym. Qed.

Lemma run_header_insert token run_id entries k n :
  is_entry_name k = true → run_header token run_id entries →
  run_header token run_id (map_insert k n entries).
Proof.
  intros (H1 & H2 & H3)%special_names (Hm & Hr & Hb). unfold run_header, validate_run_marker in *.
  cbn [validate_existing_plain_directory mbind result_bind] in *.
  rewrite !map_get_insert, !decide_False by done. done.
Qed.

(** ** Appending *)

(** What [serde_json] does on the three records: what is written is read back,
    a line feed at the end included, and the two small records stay small. *)
Class JournalLaws := {
  entry_roundtrip : ∀ (x : RunJournalEntryV1) b, to_vec x = Some b → from_slice (b ++ [line_feed]) = Some x;
  marker_roundtrip : ∀ (x : RunOwnerMarkerV1) b, to_vec x = Some b → from_slice (b ++ [line_feed]) = Some x;
  source_roundtrip : ∀ (x : RunJournalSourceV1) b, to_vec x = Some b → from_slice (b ++ [line_feed]) = Some x;
  marker_size : ∀ token run_id run_token b,
    validate_run_id token = Ok () → validate_run_id run_id = Ok () → validate_run_id run_token = Ok () →
    to_vec (run_marker token run_id run_token) = Some b → Z.of_nat (length b) < 4096;
  source_size : ∀ (x : RunJournalSourceV1) b,
    validate_hex_identity (js_commit_sha x) = Ok () → validate_digest (js_manifest_digest x) = Ok () →
    js_schema_version x = RUN_JOURNAL_SCHEMA_VERSION → js_resource_id x = "source-snapshot-v1" →
    u64 (js_entry_count x) → to_vec x = Some b → Z.of_nat (length b) < 4096;
}.

Lemma append_entry_inv store run_id seq state at_utc fk e store' :
  append_entry store run_id seq state at_utc fk = Ok (e, store') →
  e = {| je_schema_version := RUN_JOURNAL_SCHEMA_VERSION; je_run_id := run_id; je_seq := seq;
         je_state := state; je_at_utc := at_utc; je_failure_kind := fk |} ∧
  ∃ entries b, map_get run_id (st_runs store) = Some (Dir entries) ∧ to_vec e = Some b ∧
    (entry_filename seq state ∉ map_keys entries) ∧
    store' = with_run store run_id
      (Dir (map_insert (entry_filename seq state) (File (b ++ [line_feed])) entries)).
Proof.
  rewrite append_entry_completed. unfold json_line, create_new. intros H.
  apply bind_ok in H as (line & Hb & H). apply bind_ok in Hb as (b & Hb%ok_or_ok & [= <-]).
  apply bind_ok in H as (run & Hr%map_err_ok & [= <- <-]). split; [done|].
  apply bind_ok in Hr as (entries & He & Hr). apply bind_ok in Hr as ([] & Hf%ensure_ok & [= <-]).
  exists entries, b. split_and!; try done.
  - destruct (map_get run_id (st_runs store)) as [[]|]; cbn in He; try done. by injection He as ->.
  - rewrite <-map_contains_spec. apply not_true_iff_false. by apply negb_true_iff in Hf.
Qed.

Lemma append_entry_read `{!JournalLaws} store run_id es entries state at_utc fk e store' :
  map_get run_id (st_runs store) = Some (Dir entries) → map_sorted entries →
  read_entries store run_id = Ok es →
  append_entry store run_id (Z.of_nat (length es)) state at_utc fk = Ok (e, store') →
  entry_ok run_id (length es) e →
  (∀ p, last es = Some p → legal_transition (je_state p) state = true) →
  read_entries store' run_id = Ok (es ++ [e]) ∧
  ∃ entries', map_get run_id (st_runs store') = Some (Dir entries') ∧ map_sorted entries'.
Proof.
  intros Hn Hs Hr Ha Hv Hl. apply append_entry_inv in Ha as (He & entries0 & b & Hn' & Hb & Hfresh & ->).
  assert (entries0 = entries) as -> by congruence.
  apply read_entries_iff in Hr as (entries1 & Hn1 & Hh & Hloop).
  assert (entries1 = entries) as -> by congruence.
  destruct (entry_loop_ok _ _ _ Hloop) as [Hj Hnames].
  pose proof (journal_length _ _ Hj) as Hlen.
  set (f := entry_filename (Z.of_nat (length es)) state) in *.
  assert (Hfile : entry_files (map_insert f (File (b ++ [line_feed])) entries)
                  = entry_files entries ++ [(f, File (b ++ [line_feed]))]).
  { apply (filter_insert_last is_entry_name); [done|apply entry_filename_is_entry|].
    intros kv Hin Hp. assert (Hk : kv.1 ∈ (entry_files entries).*1).
    { apply list_elem_of_fmap_2. unfold entry_files. apply list_elem_of_In, List.filter_In.
      split; [by apply list_elem_of_In|done]. }
    rewrite Hnames in Hk. apply list_elem_of_fmap in Hk as (x & -> & Hx).
    apply list_elem_of_lookup in Hx as [i Hi]. pose proof (jo_entries _ _ Hj _ _ Hi) as (_ & _ & -> & _).
    apply lookup_lt_Some in Hi. apply entry_filename_lt; lia. }
  split; [|exists (map_insert f (File (b ++ [line_feed])) entries); cbn;
    rewrite map_get_insert, decide_True by done; split; [done|by apply map_insert_sorted]].
  apply read_entries_iff. exists (map_insert f (File (b ++ [line_feed])) entries).
  cbn [with_run st_runs st_root_token].
  rewrite map_get_insert, decide_True by done. split; [done|].
  split; [apply run_header_insert; [apply entry_filename_is_entry|done]|].
  rewrite Hfile, try_fold_app, Hloop. cbn [mbind result_bind try_fold].
  apply bind_ok. exists (es ++ [e]). split; [|done]. apply entry_step_ok.
  exists (b ++ [line_feed]), e. subst e. split_and!; try done. by apply entry_roundtrip.
Qed.

(** Operations on one run do not change what another run reads. *)
Lemma read_entries_frame store run_id n other :
  other ≠ run_id → read_entries (with_run store run_id n) other = read_entries store other.
Proof.
  intros Hne. unfold read_entries. cbn. rewrite map_get_insert, decide_False by done. done.
Qed.

(** The next sequence number is the length of the journal. *)
Lemma last_seq store run_id es p :
  read_entries store run_id = Ok es → last es = Some p → je_seq p + 1 = Z.of_nat (length es).
Proof.
  intros (entries & _ & _ & Hloop)%read_entries_iff Hp.
  destruct (entry_loop_ok _ _ _ Hloop) as [Hj _]. rewrite last_lookup in Hp.
  pose proof (jo_entries _ _ Hj _ _ Hp) as (_ & _ & -> & _). apply lookup_lt_Some in Hp. lia.
Qed.

(** A transition that succeeds is legal and is read back. *)
Lemma transition_inv store run_id state at_utc fk e store' :
  transition store run_id state at_utc fk = Ok (e, store') →
  ∃ es p, read_entries store run_id = Ok es ∧ last es = Some p ∧
    legal_transition (je_state p) state = true ∧ (state = Failed ↔ is_Some fk) ∧
    is_Some (parse_utc_seconds at_utc) ∧ validate_run_id run_id = Ok () ∧
    append_entry store run_id (Z.of_nat (length es)) state at_utc fk = Ok (e, store').
Proof.
  rewrite transition_completed. intros H. apply bind_ok in H as ([] & Hid & H).
  apply bind_ok in H as ([] & Ht%validate_timestamp_spec & H).
  apply bind_ok in H as (es & Hr & H). apply bind_ok in H as (p & Hp%ok_or_ok & H).
  apply bind_ok in H as ([] & Hl%ensure_ok & H). apply bind_ok in H as ([] & Hf%ensure_ok & H).
  apply negb_true_iff, orb_false_iff in Hl as [Hl _]. apply negb_false_iff in Hl.
  exists es, p. split_and!; try done.
  - unfold is_failed, is_Some_b in Hf. apply Bool.eqb_prop in Hf.
    destruct (decide (state = Failed)) as [E|E];
      [rewrite bool_decide_true in Hf by done|rewrite bool_decide_false in Hf by done];
      destruct fk; naive_solver.
  - by rewrite (last_seq _ _ _ _ Hr Hp) in H.
Qed.
End Journal.
