(* ===== verification/JournalStore.v ===== *)
(** The invariant of the run journal store ([RunJournal.v]) over every sequence
    of its operations: each directory of a run is readable and non-empty, each
    quarantined tree still carries its marker, and recovery keeps the data.  Then
    the same over operations whose effects on the disk may fail: a directory that is
    neither is that of an operation that was broken off. *)
From stdpp Require Import relations.
From S2P Require Import Prelude.
From S2P Require Import RustStr.
From S2P Require Import BTree.
From S2P Require Import Calendar.
From S2P Require Import Canonical.
From S2P Require Import Durable.
From S2P Require Import RunJournal.
From S2P Require Import RunJournalProps.
Local Open Scope Z_scope.

(** * Names *)

Lemma run_id_not_quarantine run_id :
  validate_run_id run_id = Ok () → strip_prefix QUARANTINE_PREFIX run_id = None.
Proof.
  unfold validate_run_id. intros H%ensure_ok. apply andb_true_iff in H as [_ Hh].
  destruct (strip_prefix _ _) as [r|] eqn:E; [|done]. apply strip_prefix_some in E as ->.
  unfold all_bytes in Hh. rewrite bytes_append in Hh. done.
Qed.

Lemma strip_quarantine run_id :
  strip_prefix QUARANTINE_PREFIX (QUARANTINE_PREFIX +:+ run_id) = Some run_id.
Proof. by apply strip_prefix_some. Qed.

Lemma quarantine_ne run_id : validate_run_id run_id = Ok () → ∀ other, run_id ≠ QUARANTINE_PREFIX +:+ other.
Proof. intros H other ->. apply run_id_not_quarantine in H. by rewrite strip_quarantine in H. Qed.

Lemma filter_insert_other {V} (P : string → bool) (m : btmap string V) k v :
  P k = false →
  List.filter (λ kv, P kv.1) (map_insert k v m) = List.filter (λ kv, P kv.1) m.
Proof.
  intros HP. induction m as [|[z w] m IH]; cbn; [by rewrite HP|].
  destruct (String.compare k z) eqn:E; cbn.
  - apply string_compare_eq in E as ->. by rewrite HP.
  - by rewrite HP.
  - by rewrite IH.
Qed.

Section Store.
Context `{B : Backend, BO : !BackendOk} `{CE : Codec RunJournalEntryV1}
  `{CM : Codec RunOwnerMarkerV1} `{CS : Codec RunJournalSourceV1} `{JL : !JournalLaws}.

(** * The invariant *)

(** The marker file of a run holds the bytes the store writes. *)
Definition marker_exact (token run_id : string) (entries : btmap string node) : Prop :=
  ∃ m, map_get RUN_MARKER entries = Some (File m) ∧ run_marker_bytes token run_id = Ok m.

Definition run_readable (store : RunJournalStore) (run_id : string) (n : node) : Prop :=
  ∃ entries es, n = Dir entries ∧ map_sorted entries ∧
    marker_exact (st_root_token store) run_id entries ∧
    read_entries store run_id = Ok es ∧ es ≠ [].

Record store_ok (store : RunJournalStore) : Prop := {
  so_token : validate_run_id (st_root_token store) = Ok ();
  so_sorted : map_sorted (st_runs store);
  so_runs : ∀ name n, map_get name (st_runs store) = Some n →
    (validate_run_id name = Ok () ∧ run_readable store name n) ∨
    (∃ run_id entries, name = QUARANTINE_PREFIX +:+ run_id ∧ validate_run_id run_id = Ok () ∧
       n = Dir entries ∧ marker_exact (st_root_token store) run_id entries);
}.

Lemma derived_run_token_id token run_id run_token :
  derived_run_token token run_id = Ok run_token → validate_run_id run_token = Ok ().
Proof.
  unfold derived_run_token, token_digest. intros H. res_inv.
  rename select (canonical_digest _ = _) into Hd. rename select (strip_prefix _ _ = _) into Hp.
  apply canonical_digest_shape in Hd as (hex & Hd & Hlen & Hhex). unfold RECEIPT_ID_PREFIX in Hd.
  assert (hex = run_token) as -> by congruence.
  unfold validate_run_id. apply ensure_ok. rewrite Hhex, andb_true_r. lia.
Qed.

(** A record that was written as a short line is read back. *)
Lemma read_json_marker_line {T} `{Codec T} b (x : T) :
  Z.of_nat (length b) < 4096 → from_slice (b ++ [line_feed]) = Some x →
  read_json_marker (Some (File (b ++ [line_feed]))) = Ok x.
Proof.
  intros Hsize Hx. unfold read_json_marker.
  rewrite (proj2 (ensure_ok _ _ ())) by
    (apply negb_true_iff; rewrite Z.gtb_ltb, Z.ltb_ge, length_app; cbn [length]; lia).
  cbn [mbind result_bind]. by rewrite Hx.
Qed.

(** The marker that was written validates. *)
Lemma marker_exact_valid store run_id entries :
  validate_run_id (st_root_token store) = Ok () → validate_run_id run_id = Ok () →
  marker_exact (st_root_token store) run_id entries →
  validate_run_marker store (Some (Dir entries)) run_id = Ok ().
Proof.
  intros Ht Hid (m & Hm & Hb). unfold run_marker_bytes, json_line in Hb.
  apply bind_ok in Hb as (rt & Hrt & Hb). apply bind_ok in Hb as (b & Hb%ok_or_ok & [= <-]).
  pose proof (marker_size _ _ _ _ Ht Hid (derived_run_token_id _ _ _ Hrt) Hb) as Hsize.
  unfold validate_run_marker. cbn [validate_existing_plain_directory mbind result_bind].
  rewrite Hm, (read_json_marker_line _ _ Hsize (marker_roundtrip _ _ Hb)).
  cbn [ok_or mbind result_bind run_marker
    om_schema_version om_owner om_purpose om_root_token om_run_id om_run_token].
  rewrite !String.eqb_refl. cbn [andb ensure mbind result_bind]. rewrite Hrt.
  cbn [mbind result_bind]. by rewrite String.eqb_refl.
Qed.

(** ** What an operation may do to the store *)

(** [store'] has the directory [n] for one run and is [store] elsewhere; what the
    run's journal held is a prefix of what it holds. *)
Definition run_updated (store store' : RunJournalStore) (run_id : string) : Prop :=
  validate_run_id run_id = Ok () ∧ st_root_token store' = st_root_token store ∧
  map_sorted (st_runs store') ∧
  (∀ name, name ≠ run_id → map_get name (st_runs store') = map_get name (st_runs store)) ∧
  (∃ n, map_get run_id (st_runs store') = Some n ∧ run_readable store' run_id n) ∧
  (map_get run_id (st_runs store) = None ∨
   ∃ es es', read_entries store run_id = Ok es ∧ read_entries store' run_id = Ok es' ∧
     es `prefix_of` es').

(** The tree of a run is under its quarantine name, which was free. *)
Definition run_moved (store store' : RunJournalStore) (run_id : string) : Prop :=
  validate_run_id run_id = Ok () ∧ map_get (QUARANTINE_PREFIX +:+ run_id) (st_runs store) = None ∧
  ∃ n, map_get run_id (st_runs store) = Some n ∧
    store' = {| st_root_token := st_root_token store;
                st_runs := rename_entry (st_runs store) run_id (QUARANTINE_PREFIX +:+ run_id) n |}.

Definition store_change (store store' : RunJournalStore) : Prop :=
  store' = store ∨ ∃ run_id, run_updated store store' run_id ∨ run_moved store store' run_id.

(** Reading depends only on the run's own directory. *)
Lemma read_entries_ext store store' run_id :
  map_get run_id (st_runs store) = map_get run_id (st_runs store') →
  st_root_token store = st_root_token store' →
  read_entries store run_id = read_entries store' run_id.
Proof.
  intros Hg Ht. unfold read_entries. rewrite Hg.
  destruct (validate_existing_plain_directory _); cbn [mbind result_bind]; [|done].
  by rewrite (validate_run_marker_token store store').
Qed.

Lemma run_readable_ext store store' run_id n :
  map_get run_id (st_runs store') = map_get run_id (st_runs store) →
  st_root_token store' = st_root_token store →
  run_readable store run_id n → run_readable store' run_id n.
Proof.
  intros Hg Ht (entries & es & -> & Hs & Hm & Hr & Hes). exists entries, es.
  rewrite Ht. split_and!; try done. by rewrite (read_entries_ext store' store).
Qed.

Lemma store_ok_run store run_id entries :
  store_ok store → validate_run_id run_id = Ok () →
  map_get run_id (st_runs store) = Some (Dir entries) →
  map_sorted entries ∧ marker_exact (st_root_token store) run_id entries ∧
  ∃ es, read_entries store run_id = Ok es ∧ es ≠ [].
Proof.
  intros Hok Hid Hg.
  destruct (so_runs _ Hok _ _ Hg) as [[_ (e & es & [= <-] & ? & ? & ? & ?)]|(other & ? & Hn & _)].
  - eauto 10.
  - by apply quarantine_ne in Hn.
Qed.

(** What an operation on one run needs of the store: the directory of that run, if it
    is there, is readable. *)
Record run_fit (store : RunJournalStore) (run_id : string) : Prop := {
  rf_token : validate_run_id (st_root_token store) = Ok ();
  rf_sorted : map_sorted (st_runs store);
  rf_run : validate_run_id run_id = Ok () → ∀ n, map_get run_id (st_runs store) = Some n → run_readable store run_id n;
}.

Lemma store_ok_fit store run_id : store_ok store → run_fit store run_id.
Proof.
  intros Hok. constructor; [apply Hok|apply Hok|]. intros Hid n Hn.
  destruct (so_runs _ Hok _ _ Hn) as [[_ ?]|(other & ? & Hq & _)]; [done|by apply quarantine_ne in Hq].
Qed.

Lemma run_fit_run store run_id entries :
  run_fit store run_id → validate_run_id run_id = Ok () →
  map_get run_id (st_runs store) = Some (Dir entries) →
  map_sorted entries ∧ marker_exact (st_root_token store) run_id entries ∧
  ∃ es, read_entries store run_id = Ok es ∧ es ≠ [].
Proof. intros Hf Hid Hg. destruct (rf_run _ _ Hf Hid _ Hg) as (e & es & [= <-] & ? & ? & ? & ?). eauto 10. Qed.

Lemma rename_entry_sorted m name q n : map_sorted m → map_sorted (rename_entry m name q n).
Proof. intros Hs. apply map_insert_sorted. by apply filter_keys_sorted. Qed.

Lemma store_change_ok store store' : store_ok store → store_change store store' → store_ok store'.
Proof.
  intros Hok [->|[run_id [Hu|Hm]]]; [done| |].
  - destruct Hu as (Hid & Ht & Hs & Hframe & (n & Hn & Hread) & _).
    constructor; [by rewrite Ht; apply so_token|done|]. intros name m Hg.
    destruct (decide (name = run_id)) as [->|Hne].
    + left. split; [done|]. by replace m with n by congruence.
    + rewrite Hframe in Hg by done. rewrite Ht.
      destruct (so_runs _ Hok _ _ Hg) as [[Hv Hr]|?]; [left|by right].
      split; [done|]. apply (run_readable_ext store); [by apply Hframe|done..].
  - destruct Hm as (Hid & Hq & n & Hn & ->).
    constructor; cbn; [by apply so_token|by apply rename_entry_sorted, so_sorted|].
    intros name m. rewrite rename_entry_get. case_decide as D1; [|case_decide as D2; [done|]].
    + intros [= <-]. right.
      destruct (so_runs _ Hok _ _ Hn) as [[_ (e & es & -> & _ & Hm & _)]|(o & e & Ho & _)].
      * by exists run_id, e.
      * by apply quarantine_ne in Ho.
    + intros Hg. destruct (so_runs _ Hok _ _ Hg) as [[Hv Hr]|?]; [left|by right].
      split; [done|]. apply (run_readable_ext store); [cbn|done|exact Hr].
      by rewrite rename_entry_get, !decide_False.
Qed.

(** ** The operations *)

Lemma with_run_get store run_id n : map_get run_id (st_runs (with_run store run_id n)) = Some n.
Proof. cbn. by rewrite map_get_insert, decide_True. Qed.

Lemma marker_exact_insert token run_id entries k n :
  RUN_MARKER ≠ k → marker_exact token run_id entries → marker_exact token run_id (map_insert k n entries).
Proof. intros Hk (m & Hm & Hb). exists m. by rewrite map_get_insert, decide_False. Qed.

(** Appending a legal entry to a readable directory. *)
Lemma append_updated store run_id entries es state at_utc fk e store' :
  map_get run_id (st_runs store) = Some (Dir entries) → map_sorted entries →
  marker_exact (st_root_token store) run_id entries → read_entries store run_id = Ok es →
  append_entry store run_id (Z.of_nat (length es)) state at_utc fk = Ok (e, store') →
  entry_ok run_id (length es) e →
  (∀ p, last es = Some p → legal_transition (je_state p) state = true) →
  (∃ n, store' = with_run store run_id n ∧ run_readable store' run_id n) ∧
  read_entries store' run_id = Ok (es ++ [e]).
Proof.
  intros Hg Hs Hm Hr Ha Hv Hl.
  destruct (append_entry_read _ _ _ _ _ _ _ _ _ Hg Hs Hr Ha Hv Hl) as [Hread _].
  apply append_entry_inv in Ha as (_ & entries0 & b & Hg0 & _ & _ & ->).
  assert (entries0 = entries) as -> by congruence. split; [|done].
  eexists. split; [done|]. eexists _, (es ++ [e]). split; [done|].
  split; [by apply map_insert_sorted|]. split; [|split; [done|by destruct es]].
  apply marker_exact_insert; [|done]. by apply special_names, entry_filename_is_entry.
Qed.

Lemma with_run_updated store run_id n es es' :
  run_fit store run_id → validate_run_id run_id = Ok () →
  run_readable (with_run store run_id n) run_id n → read_entries store run_id = Ok es →
  read_entries (with_run store run_id n) run_id = Ok es' → es `prefix_of` es' →
  run_updated store (with_run store run_id n) run_id.
Proof.
  intros Hok Hid Hread Hr Hr' Hp. split_and!; try done.
  - by apply map_insert_sorted, (rf_sorted store run_id).
  - intros name Hne. cbn. by rewrite map_get_insert, decide_False.
  - exists n. by rewrite with_run_get.
  - right. by exists es, es'.
Qed.

(** The common part of the two operations that append a later entry. *)
Lemma append_next_updated store run_id es p state at_utc fk e store' :
  run_fit store run_id → validate_run_id run_id = Ok () → read_entries store run_id = Ok es →
  last es = Some p → legal_transition (je_state p) state = true → (state = Failed ↔ is_Some fk) →
  is_Some (parse_utc_seconds at_utc) →
  append_entry store run_id (Z.of_nat (length es)) state at_utc fk = Ok (e, store') →
  run_updated store store' run_id ∧ read_entries store' run_id = Ok (es ++ [e]).
Proof.
  intros Hok Hid Hr Hp Hl Hf Ht Ha.
  pose proof Hr as (entries & Hg & _)%read_entries_iff.
  destruct (run_fit_run _ _ _ Hok Hid Hg) as (Hs & Hm & _).
  pose proof Ha as [He _]%append_entry_inv.
  destruct (append_updated _ _ _ _ _ _ _ _ _ Hg Hs Hm Hr Ha) as [(n & -> & Hread) Hr'].
  - subst e. split_and!; try done. intros ->%length_zero_iff_nil. done.
  - intros p' Hp'. by replace p' with p by congruence.
  - split; [|done]. eapply with_run_updated; try done. by exists [e].
Qed.

Lemma transition_updated_local store run_id state at_utc fk e store' :
  run_fit store run_id → transition store run_id state at_utc fk = Ok (e, store') →
  run_updated store store' run_id ∧
  ∃ es, read_entries store run_id = Ok es ∧ read_entries store' run_id = Ok (es ++ [e]).
Proof.
  intros Hok (es & p & Hr & Hp & Hl & Hf & Ht & Hid & Ha)%transition_inv.
  destruct (append_next_updated _ _ _ _ _ _ _ _ _ Hok Hid Hr Hp Hl Hf Ht Ha) as [Hu Hr'].
  split; [done|]. by exists es.
Qed.

Lemma transition_updated store run_id state at_utc fk e store' :
  store_ok store → transition store run_id state at_utc fk = Ok (e, store') →
  run_updated store store' run_id ∧
  ∃ es, read_entries store run_id = Ok es ∧ read_entries store' run_id = Ok (es ++ [e]).
Proof. intros Hok. by apply transition_updated_local, store_ok_fit. Qed.

Lemma cleanup_pending_updated_local store run_id at_utc e store' :
  run_fit store run_id →
  transition_cleanup_pending_after_admission_acquired store run_id at_utc = Ok (e, store') →
  run_updated store store' run_id.
Proof.
  intros Hok H. rewrite cleanup_pending_completed in H. apply bind_ok in H as ([] & Hid & H).
  apply bind_ok in H as ([] & Ht%validate_timestamp_spec & H).
  apply bind_ok in H as (es & Hr & H). apply bind_ok in H as (p & Hp%ok_or_ok & H).
  apply bind_ok in H as ([] & Hl%ensure_ok & H).
  rewrite (last_seq _ _ _ _ Hr Hp) in H.
  assert (Hlegal : legal_transition (je_state p) CleanupPending = true) by by destruct (je_state p).
  eapply append_next_updated; [exact Hok|exact Hid|exact Hr|exact Hp|exact Hlegal| |exact Ht|exact H].
  by split; [|intros []].
Qed.

Lemma cleanup_pending_updated store run_id at_utc e store' :
  store_ok store →
  transition_cleanup_pending_after_admission_acquired store run_id at_utc = Ok (e, store') →
  run_updated store store' run_id.
Proof. intros Hok. by apply cleanup_pending_updated_local, store_ok_fit. Qed.

Lemma create_run_updated_local store run_id at_utc e store' :
  run_fit store run_id → create_run store run_id at_utc = Ok (e, store') →
  run_updated store store' run_id ∧ map_get run_id (st_runs store) = None ∧
  read_entries store' run_id = Ok [e] ∧ je_state e = Created.
Proof.
  intros Hok H. rewrite create_run_completed in H. apply bind_ok in H as ([] & Hid & H).
  apply bind_ok in H as ([] & Ht%validate_timestamp_spec & H).
  apply bind_ok in H as (runs & Hnew%map_err_ok & H). apply bind_ok in H as (rs & Hrs%map_err_ok & H).
  unfold create_new_directory in Hnew. cbn [validate_plain_directory mbind result_bind] in Hnew.
  apply bind_ok in Hnew as ([] & Hfree%ensure_ok & [= <-]). injection Hrs as <-.
  apply negb_true_iff, map_contains_get_none in Hfree.
  apply bind_ok in H as (m & Hm & H). apply bind_ok in H as (run & Hrun%map_err_ok & H).
  cbn [st_runs st_root_token] in *. rewrite map_get_insert, decide_True in Hrun by done.
  injection Hrun as <-.
  set (store1 := with_run {| st_root_token := st_root_token store;
    st_runs := map_insert run_id (Dir []) (st_runs store) |} run_id (Dir [(RUN_MARKER, File m)])) in *.
  assert (Hmark : marker_exact (st_root_token store1) run_id [(RUN_MARKER, File m)]) by by exists m.
  assert (Hread : read_entries store1 run_id = Ok []).
  { apply read_entries_iff. exists [(RUN_MARKER, File m)]. split; [apply with_run_get|].
    split; [|done]. split_and!; [|done..].
    apply (marker_exact_valid {| st_root_token := st_root_token store; st_runs := [] |});
      [exact (rf_token _ _ Hok)|done..]. }
  pose proof H as [He _]%append_entry_inv.
  destruct (append_updated store1 run_id [(RUN_MARKER, File m)] [] Created at_utc None e store')
    as [(n & -> & Hn) Hr]; try done.
  - apply with_run_get.
  - by repeat constructor.
  - subst e. split_and!; try done. by split; [|intros []].
  - subst e. split; [|done]. split_and!; try done.
    + by repeat apply map_insert_sorted; apply (rf_sorted store run_id).
    + intros name Hne. cbn. by rewrite !map_get_insert, !decide_False.
    + exists n. by rewrite with_run_get.
    + by left.
Qed.

Lemma create_run_updated store run_id at_utc e store' :
  store_ok store → create_run store run_id at_utc = Ok (e, store') →
  run_updated store store' run_id ∧ map_get run_id (st_runs store) = None ∧
  read_entries store' run_id = Ok [e] ∧ je_state e = Created.
Proof. intros Hok. by apply create_run_updated_local, store_ok_fit. Qed.

(** A file or directory of a run that is no entry leaves the journal as it was. *)
Lemma special_updated store run_id entries k n es :
  run_fit store run_id → validate_run_id run_id = Ok () →
  map_get run_id (st_runs store) = Some (Dir entries) → read_entries store run_id = Ok es →
  is_entry_name k = false → RUN_MARKER ≠ k →
  run_header (st_root_token store) run_id (map_insert k n entries) →
  run_updated store (with_run store run_id (Dir (map_insert k n entries))) run_id ∧
  read_entries (with_run store run_id (Dir (map_insert k n entries))) run_id = Ok es.
Proof.
  intros Hok Hid Hg Hr Hk Hne Hh. destruct (run_fit_run _ _ _ Hok Hid Hg) as (Hs & Hm & _).
  assert (es ≠ []).
  { destruct (rf_run _ _ Hok Hid _ Hg) as (? & es' & _ & _ & _ & ? & ?). by replace es with es' by congruence. }
  assert (Hr' : read_entries (with_run store run_id (Dir (map_insert k n entries))) run_id = Ok es).
  { apply read_entries_iff. eexists. split; [apply with_run_get|]. split; [done|].
    apply read_entries_iff in Hr as (entries0 & Hg0 & _ & Hloop).
    assert (entries0 = entries) as -> by congruence.
    unfold entry_files. by rewrite filter_insert_other. }
  split; [|done]. eapply with_run_updated; try done.
  eexists _, es. split; [done|]. split; [by apply map_insert_sorted|].
  split; [by apply marker_exact_insert|done].
Qed.

(** The store after it, where the journal of the run is what it was. *)
Definition store_extended (store store' : RunJournalStore) (run_id : string) : Prop :=
  (store' = store ∨ run_updated store store' run_id) ∧
  ∀ es, read_entries store run_id = Ok es → read_entries store' run_id = Ok es.

Lemma extended_change store store' run_id : store_extended store store' run_id → store_change store store'.
Proof. intros [[->|Hu] _]; [by left|right; eauto]. Qed.

Lemma special_extended store run_id entries k n es :
  run_fit store run_id → validate_run_id run_id = Ok () →
  map_get run_id (st_runs store) = Some (Dir entries) → read_entries store run_id = Ok es →
  is_entry_name k = false → RUN_MARKER ≠ k →
  run_header (st_root_token store) run_id (map_insert k n entries) →
  store_extended store (with_run store run_id (Dir (map_insert k n entries))) run_id.
Proof.
  intros Hok Hid Hg Hr Hk Hne Hh. destruct (special_updated store run_id entries k n es) as [Hu Hr']; try done.
  split; [by right|]. intros es' Hes. by replace es' with es by congruence.
Qed.

Lemma reserve_resource_extended_local store run_id resource_id store' :
  run_fit store run_id → reserve_resource store run_id resource_id = Ok store' → store_extended store store' run_id.
Proof.
  intros Hok H. rewrite reserve_resource_completed in H. apply bind_ok in H as ([] & Hid & H). apply bind_ok in H as ([] & _ & H).
  apply bind_ok in H as ([] & _ & H). apply bind_ok in H as (entries & Hg%plain_directory_ok & H).
  apply bind_ok in H as (s1 & Hs1 & H). apply bind_ok in H as (e1 & _ & H).
  apply bind_ok in H as (rs & _ & H). apply bind_ok in H as ([] & _ & [= <-]).
  rewrite Hg in Hs1. unfold create_new_directory in Hs1.
  cbn [validate_plain_directory mbind result_bind] in Hs1.
  destruct (map_contains RESOURCES_DIR entries) eqn:Hc; cbn [negb ensure mbind result_bind] in Hs1.
  - apply bind_ok in Hs1 as (? & _ & [= <-]). split; [by left|done].
  - injection Hs1 as <-.
    destruct (run_fit_run _ _ _ Hok Hid Hg) as (_ & _ & es & Hr & _).
    eapply special_extended; try done.
    apply read_entries_iff in Hr as (entries0 & Hg0 & (Hm & _ & Hb) & _).
    assert (entries0 = entries) as -> by congruence. unfold run_header, validate_run_marker in *.
    cbn [validate_existing_plain_directory mbind result_bind] in *.
    rewrite !map_get_insert. repeat (case_decide; try done). split_and!; try done. eauto.
Qed.

Lemma reserve_resource_extended store run_id resource_id store' :
  store_ok store → reserve_resource store run_id resource_id = Ok store' → store_extended store store' run_id.
Proof. intros Hok. by apply reserve_resource_extended_local, store_ok_fit. Qed.

Lemma reserve_resource_change store run_id resource_id store' :
  store_ok store → reserve_resource store run_id resource_id = Ok store' → store_change store store'.
Proof. intros Hok Hr. by eapply extended_change, reserve_resource_extended. Qed.

(** A binding that was written validates. *)
Lemma binding_valid commit_sha manifest_digest entry_count b :
  let binding := {| js_schema_version := RUN_JOURNAL_SCHEMA_VERSION; js_commit_sha := commit_sha;
                    js_manifest_digest := manifest_digest; js_entry_count := entry_count;
                    js_resource_id := "source-snapshot-v1" |} in
  validate_hex_identity commit_sha = Ok () → validate_digest manifest_digest = Ok () →
  u64 entry_count → entry_count ≠ 0 → to_vec binding = Some b →
  validate_binding (Some (File (b ++ [line_feed]))) = Ok ().
Proof.
  intros binding Hc Hd Hu Hz Hb. unfold validate_binding. cbn [exists_node].
  pose proof (source_size binding _ Hc Hd eq_refl eq_refl Hu Hb) as Hsize.
  rewrite (read_json_marker_line _ _ Hsize (source_roundtrip _ _ Hb)).
  apply ensure_ok. cbn. rewrite Hc, Hd. cbn. lia.
Qed.

Lemma bind_source_extended_local store run_id commit_sha manifest_digest entry_count binding store' :
  run_fit store run_id → u64 entry_count →
  bind_source store run_id commit_sha manifest_digest entry_count = Ok (binding, store') →
  store_extended store store' run_id.
Proof.
  intros Hok Hu H. rewrite bind_source_completed in H. apply bind_ok in H as ([] & Hid & H). apply bind_ok in H as ([] & Hc & H).
  apply bind_ok in H as ([] & Hd & H). apply bind_ok in H as ([] & Hz%ensure_ok & H).
  apply bind_ok in H as ([] & Hm & H). apply bind_ok in H as (line & Hb & H).
  apply bind_ok in Hb as (b & Hb%ok_or_ok & [= <-]).
  apply bind_ok in H as (run & Hrun%map_err_ok & [= <- <-]).
  apply bind_ok in Hm as (entries & Hg%plain_directory_ok & _). rewrite Hg in Hrun.
  apply bind_ok in Hrun as (e & [= <-] & Hrun). apply bind_ok in Hrun as ([] & _ & [= <-]).
  destruct (run_fit_run _ _ _ Hok Hid Hg) as (_ & _ & es & Hr & _).
  eapply special_extended; try done.
  apply read_entries_iff in Hr as (entries0 & Hg0 & (Hm & Hrs & _) & _).
  assert (entries0 = entries) as -> by congruence. unfold run_header, validate_run_marker in *.
  cbn [validate_existing_plain_directory mbind result_bind] in *.
  rewrite !map_get_insert. repeat (case_decide; try done). split_and!; try done.
  eapply binding_valid; try done. bool_prop. lia.
Qed.

Lemma bind_source_extended store run_id commit_sha manifest_digest entry_count binding store' :
  store_ok store → u64 entry_count →
  bind_source store run_id commit_sha manifest_digest entry_count = Ok (binding, store') →
  store_extended store store' run_id.
Proof. intros Hok. by apply bind_source_extended_local, store_ok_fit. Qed.

Lemma bind_source_change store run_id commit_sha manifest_digest entry_count binding store' :
  store_ok store → u64 entry_count →
  bind_source store run_id commit_sha manifest_digest entry_count = Ok (binding, store') →
  store_change store store'.
Proof. intros Hok Hu Hb. by eapply extended_change, bind_source_extended. Qed.

Lemma apply_change store run_id r store' :
  store_ok store → apply store run_id = Ok (r, store') →
  r = quarantined_result run_id ∧ (store' = store ∨ run_moved store store' run_id).
Proof.
  intros Hok H. rewrite apply_completed in H. apply bind_ok in H as ([] & Hid & H). cbv zeta in H.
  destruct (exists_node _) eqn:Hq.
  - apply bind_ok in H as ([] & _ & H). apply bind_ok in H as ([] & _ & [= <- <-]). eauto.
  - apply bind_ok in H as (es & Hr & H). apply bind_ok in H as (e & He & H).
    apply bind_ok in H as ([] & _ & H). apply bind_ok in H as (m & Hm & H).
    apply bind_ok in H as (runs & Hruns%map_err_ok & [= <- <-]). split; [done|right].
    unfold quarantine_owned_tree in Hruns. apply bind_ok in Hruns as ([] & _ & Hruns).
    apply bind_ok in Hruns as ([] & _ & Hruns). apply bind_ok in Hruns as (n & Hn%ok_or_ok & Hruns).
    apply bind_ok in Hruns as ([] & Hfree%ensure_ok & [= <-]).
    apply negb_true_iff, map_contains_get_none in Hfree.
    split_and!; try done. by exists n.
Qed.

(** * Sequences of operations *)

(** One successful operation of the store; a refused one leaves it as it is. *)
Inductive journal_step (store : RunJournalStore) : RunJournalStore → Prop :=
  | step_create run_id at_utc e store' :
      create_run store run_id at_utc = Ok (e, store') → journal_step store store'
  | step_transition run_id state at_utc fk e store' :
      transition store run_id state at_utc fk = Ok (e, store') → journal_step store store'
  | step_cleanup_pending run_id at_utc e store' :
      transition_cleanup_pending_after_admission_acquired store run_id at_utc = Ok (e, store') →
      journal_step store store'
  | step_reserve run_id resource_id store' :
      reserve_resource store run_id resource_id = Ok store' → journal_step store store'
  | step_bind run_id commit_sha manifest_digest entry_count binding store' :
      u64 entry_count →
      bind_source store run_id commit_sha manifest_digest entry_count = Ok (binding, store') →
      journal_step store store'
  | step_apply run_id r store' :
      apply store run_id = Ok (r, store') → journal_step store store'.

Definition initial_store (token : string) : RunJournalStore :=
  {| st_root_token := token; st_runs := [] |}.

Definition reachable (token : string) (store : RunJournalStore) : Prop :=
  rtc journal_step (initial_store token) store.

Lemma journal_step_change store store' : store_ok store → journal_step store store' → store_change store store'.
Proof.
  intros Hok Hstep. destruct Hstep as [? ? ? ? H|? ? ? ? ? ? H|? ? ? ? H|? ? ? H|? ? ? ? ? ? Hu H|? ? ? H].
  - right. eexists. left. by eapply create_run_updated.
  - right. eexists. left. by eapply transition_updated.
  - right. eexists. left. by eapply cleanup_pending_updated.
  - by eapply reserve_resource_change.
  - by eapply bind_source_change.
  - apply apply_change in H as (_ & [->|Hm]); [by left|right; eauto|done].
Qed.

Lemma store_ok_steps store store' : store_ok store → rtc journal_step store store' → store_ok store'.
Proof.
  intros Hok Hsteps. induction Hsteps as [|s1 s2 s3 Hs _ IH]; [done|].
  apply IH. eapply store_change_ok; [exact Hok|]. by apply journal_step_change.
Qed.

Lemma reachable_ok token store : validate_run_id token = Ok () → reachable token store → store_ok store.
Proof. intros Ht. apply store_ok_steps. constructor; [done|by constructor|done]. Qed.

(** ** What was recorded stays recorded *)

(** The tree of the run, under its own name or in quarantine, reads as a journal
    that starts with [es]. *)
Definition recorded (store : RunJournalStore) (run_id : string) (es : list RunJournalEntryV1) : Prop :=
  ∃ n es', (map_get run_id (st_runs store) = Some n ∨
            map_get (QUARANTINE_PREFIX +:+ run_id) (st_runs store) = Some n) ∧
    read_entries (with_run store run_id n) run_id = Ok es' ∧ es `prefix_of` es'.

Lemma read_entries_with_run store store' run_id n :
  st_root_token store' = st_root_token store →
  read_entries (with_run store' run_id n) run_id = read_entries (with_run store run_id n) run_id.
Proof. intros Ht. apply read_entries_ext; [by rewrite !with_run_get|done]. Qed.

Lemma read_entries_self store run_id n :
  map_get run_id (st_runs store) = Some n →
  read_entries (with_run store run_id n) run_id = read_entries store run_id.
Proof. intros Hn. apply read_entries_ext; [by rewrite with_run_get|done]. Qed.

Lemma store_change_recorded store store' run_id es :
  validate_run_id run_id = Ok () → store_change store store' → recorded store run_id es →
  recorded store' run_id es.
Proof.
  intros Hid [->|[other [Hu|Hm]]] (n & es' & Hn & Hr & Hp); [by exists n, es'| |].
  - destruct Hu as (Hv & Ht & _ & Hframe & (n' & Hn' & _) & Hext).
    destruct Hn as [Hn|Hn]; [destruct (decide (run_id = other)) as [->|Hne]|].
    + destruct Hext as [Hnone|(e1 & e2 & H1 & H2 & Hpre)]; [congruence|].
      exists n', e2. split; [by left|]. rewrite read_entries_self by done. split; [done|].
      rewrite read_entries_self in Hr by done. assert (es' = e1) as -> by congruence. by etrans.
    + exists n, es'. rewrite Hframe, (read_entries_with_run store) by done. auto.
    + exists n, es'. rewrite (read_entries_with_run store store') by done. split; [right|done].
      rewrite Hframe; [done|]. intros E. by apply (quarantine_ne other Hv run_id).
  - destruct Hm as (Hv & Hfree & n' & Hn' & ->). exists n, es'.
    rewrite (read_entries_with_run store) by done. split; [|done]. cbn. rewrite !rename_entry_get.
    destruct Hn as [Hn|Hn]; [destruct (decide (run_id = other)) as [->|Hne]|].
    + right. rewrite decide_True by done. congruence.
    + left. rewrite !decide_False; [done..|]. by apply quarantine_ne.
    + right. destruct (decide (run_id = other)) as [->|Hne]; [congruence|].
      rewrite !decide_False; [done| |].
      * intros E. by apply (quarantine_ne other Hv run_id).
      * intros E%(f_equal (strip_prefix QUARANTINE_PREFIX)). rewrite !strip_quarantine in E.
        by injection E as ->.
Qed.

Lemma recorded_steps store store' run_id es :
  validate_run_id run_id = Ok () → store_ok store → rtc journal_step store store' →
  recorded store run_id es → recorded store' run_id es.
Proof.
  intros Hid Hok Hsteps. induction Hsteps as [|s1 s2 s3 Hs _ IH]; [done|]. intros Hrec.
  pose proof (journal_step_change _ _ Hok Hs) as Hc.
  apply IH; [by eapply store_change_ok|by eapply store_change_recorded].
Qed.

(** ** Recovery *)

Lemma run_status_run store run_id es e n :
  validate_run_id run_id = Ok () → read_entries store run_id = Ok es → last es = Some e →
  run_status store (run_id, n) =
  {| rs_run_id := run_id; rs_state := Some (je_state e); rs_classification := classify (je_state e) |}.
Proof.
  intros Hid Hr He. unfold run_status. rewrite (run_id_not_quarantine _ Hid), Hid.
  cbn [is_ok negb]. by rewrite Hr, He.
Qed.

Lemma run_status_quarantine store run_id entries :
  validate_run_id (st_root_token store) = Ok () → validate_run_id run_id = Ok () →
  marker_exact (st_root_token store) run_id entries →
  run_status store (QUARANTINE_PREFIX +:+ run_id, Dir entries) =
  {| rs_run_id := run_id; rs_state := None; rs_classification := Quarantined |}.
Proof.
  intros Ht Hid Hm. unfold run_status, bounded_run_id.
  by rewrite strip_quarantine, Hid, (marker_exact_valid _ _ _ Ht Hid Hm).
Qed.

(** A quarantined tree is never touched again. *)
Lemma store_change_quarantined store store' run_id n :
  store_change store store' → map_get (QUARANTINE_PREFIX +:+ run_id) (st_runs store) = Some n →
  map_get (QUARANTINE_PREFIX +:+ run_id) (st_runs store') = Some n.
Proof.
  intros [->|[other [Hu|Hm]]] Hn; [done| |].
  - destruct Hu as (Hv & _ & _ & Hframe & _). rewrite Hframe; [done|].
    intros E. by apply (quarantine_ne other Hv run_id).
  - destruct Hm as (Hv & Hfree & n' & _ & ->). cbn. rewrite rename_entry_get.
    case_decide as D1; [congruence|]. rewrite decide_False; [done|].
    intros E. by apply (quarantine_ne other Hv run_id).
Qed.

Lemma quarantined_steps store store' run_id n :
  store_ok store → rtc journal_step store store' →
  map_get (QUARANTINE_PREFIX +:+ run_id) (st_runs store) = Some n →
  map_get (QUARANTINE_PREFIX +:+ run_id) (st_runs store') = Some n.
Proof.
  intros Hok Hsteps. induction Hsteps as [|s1 s2 s3 Hs _ IH]; [done|]. intros Hn.
  pose proof (journal_step_change _ _ Hok Hs) as Hc.
  apply IH; [by eapply store_change_ok|by eapply store_change_quarantined].
Qed.

(** ** Operations that succeed *)

(** The name of the next entry is free. *)
Lemma next_entry_fresh store run_id entries es state :
  map_get run_id (st_runs store) = Some (Dir entries) → read_entries store run_id = Ok es →
  map_contains (entry_filename (Z.of_nat (length es)) state) entries = false.
Proof.
  intros Hg (entries0 & Hg0 & _ & Hloop)%read_entries_iff.
  assert (entries0 = entries) as -> by congruence.
  destruct (entry_loop_ok _ _ _ Hloop) as [Hj Hnames]. pose proof (journal_length _ _ Hj) as Hlen.
  apply not_true_iff_false. intros ([k n] & Heq & Hin)%map_contains_spec%list_elem_of_fmap.
  cbn in Heq. subst k.
  assert (Hk : entry_filename (Z.of_nat (length es)) state ∈ (entry_files entries).*1).
  { apply list_elem_of_fmap. eexists (_, n). split; [done|]. apply list_elem_of_In, List.filter_In.
    split; [by apply list_elem_of_In|apply entry_filename_is_entry]. }
  rewrite Hnames in Hk. apply list_elem_of_fmap in Hk as (x & Heq & [i Hi]%list_elem_of_lookup).
  pose proof (jo_entries _ _ Hj _ _ Hi) as (_ & _ & Hseq & _). apply lookup_lt_Some in Hi.
  apply (lt_ord_irrefl (entry_filename (je_seq x) (je_state x))). rewrite <-Heq at 2.
  apply entry_filename_lt; lia.
Qed.

Lemma append_entry_total store run_id entries seq state at_utc fk :
  let e := {| je_schema_version := RUN_JOURNAL_SCHEMA_VERSION; je_run_id := run_id; je_seq := seq;
              je_state := state; je_at_utc := at_utc; je_failure_kind := fk |} in
  map_get run_id (st_runs store) = Some (Dir entries) →
  map_contains (entry_filename seq state) entries = false →
  match to_vec e with
  | None => append_entry store run_id seq state at_utc fk = Err Corrupt
  | Some _ => ∃ store', append_entry store run_id seq state at_utc fk = Ok (e, store')
  end.
Proof.
  intros e Hg Hfree. rewrite append_entry_completed. unfold json_line. fold e.
  destruct (to_vec e) as [b|]; [|done]. cbn [ok_or mbind result_bind]. rewrite Hg.
  unfold create_new. cbn [validate_plain_directory mbind result_bind]. rewrite Hfree.
  cbn [negb ensure mbind result_bind map_err]. eauto.
Qed.

(** The guards of [transition]. *)
Definition transition_allowed (previous next : RunJournalStateV1) (fk : option RunFailureKindV1) : bool :=
  legal_transition previous next
  && negb (bool_decide (previous = Created) && bool_decide (next = CleanupPending))
  && Bool.eqb (is_failed next) (is_Some_b fk).

Lemma transition_eq store run_id state at_utc fk es p :
  validate_run_id run_id = Ok () → is_Some (parse_utc_seconds at_utc) →
  read_entries store run_id = Ok es → last es = Some p →
  transition store run_id state at_utc fk =
  if transition_allowed (je_state p) state fk
  then append_entry store run_id (Z.of_nat (length es)) state at_utc fk else Err InvalidTransition.
Proof.
  intros Hid Ht Hr Hp. rewrite transition_completed. unfold transition_allowed.
  rewrite Hid, (proj2 (validate_timestamp_spec _) Ht). cbn [mbind result_bind]. rewrite Hr.
  cbn [mbind result_bind]. rewrite Hp. cbn [ok_or mbind result_bind].
  rewrite (last_seq _ _ _ _ Hr Hp), negb_orb, negb_involutive.
  destruct (legal_transition _ _ && _); [|done]. cbn [andb ensure mbind result_bind].
  by destruct (Bool.eqb _ _).
Qed.

Lemma validate_owned_tree_marker entries m :
  map_get RUN_MARKER entries = Some (File m) →
  validate_owned_tree (Some (Dir entries)) RUN_MARKER m = Ok ().
Proof.
  intros Hm. unfold validate_owned_tree.
  replace (negb _) with true by by vm_compute.
  cbn [ensure mbind result_bind validate_plain_directory]. rewrite Hm.
  by apply ensure_ok, bool_decide_eq_true.
Qed.

(** * Operations on a disk that fails *)

(** An operation, and the run that it is about. *)
Inductive journal_operation : Type :=
  | CreateRun (run_id at_utc : string)
  | Transition (run_id : string) (state : RunJournalStateV1) (at_utc : string) (fk : option RunFailureKindV1)
  | CleanupPendingRun (run_id at_utc : string)
  | ReserveResource (run_id resource_id : string)
  | BindSource (run_id commit_sha manifest_digest : string) (entry_count : Z)
  | ApplyRecovery (run_id : string).
Definition operation_run (o : journal_operation) : string :=
  match o with
  | CreateRun run_id _ | Transition run_id _ _ _ | CleanupPendingRun run_id _ | ReserveResource run_id _
  | BindSource run_id _ _ _ | ApplyRecovery run_id => run_id
  end.
Definition perform (o : journal_operation) : disk () :=
  match o with
  | CreateRun run_id at_utc => _ ← create_run_on_disk run_id at_utc; mret ()
  | Transition run_id state at_utc fk => _ ← transition_on_disk run_id state at_utc fk; mret ()
  | CleanupPendingRun run_id at_utc => _ ← cleanup_pending_on_disk run_id at_utc; mret ()
  | ReserveResource run_id resource_id => reserve_resource_on_disk run_id resource_id
  | BindSource run_id commit_sha manifest_digest entry_count =>
    _ ← bind_source_on_disk run_id commit_sha manifest_digest entry_count; mret ()
  | ApplyRecovery run_id => _ ← apply_on_disk run_id; mret ()
  end.
Definition operation_fits (o : journal_operation) : Prop :=
  match o with BindSource _ _ _ entry_count => u64 entry_count | _ => True end.

(** One operation, whatever the disk does.  [torn] are the runs of the operations that
    ended in an error, or were the last thing of their process, after they had changed
    the store. *)
Inductive disk_step : RunJournalStore * list string → RunJournalStore * list string → Prop :=
  | disk_done store torn o fates d :
      operation_fits o → perform o {| jd_store := store; jd_fates := fates |} = (Ok (), d) →
      disk_step (store, torn) (jd_store d, torn)
  | disk_refused store torn o fates e d :
      perform o {| jd_store := store; jd_fates := fates |} = (Err e, d) → jd_store d = store →
      disk_step (store, torn) (store, torn)
  | disk_torn store torn o fates e d :
      perform o {| jd_store := store; jd_fates := fates |} = (Err e, d) → jd_store d ≠ store →
      disk_step (store, torn) (jd_store d, operation_run o :: torn).
Definition disk_reachable (token : string) (s : RunJournalStore * list string) : Prop :=
  rtc disk_step (initial_store token, []) s.

(** ** What an operation can touch *)

Definition dir_sorted (n : node) : Prop := ∃ entries, n = Dir entries ∧ map_sorted entries.
Definition run_sorted (store : RunJournalStore) (run_id : string) : Prop :=
  ∀ n, map_get run_id (st_runs store) = Some n → dir_sorted n.

(** At most the directory of the run has changed, and it is one. *)
Definition touched (run_id : string) (store store' : RunJournalStore) : Prop :=
  st_root_token store' = st_root_token store ∧
  (map_sorted (st_runs store) → map_sorted (st_runs store')) ∧
  (∀ name, name ≠ run_id → map_get name (st_runs store') = map_get name (st_runs store)) ∧
  (run_sorted store run_id → run_sorted store' run_id).

Lemma touched_refl run_id store : touched run_id store store.
Proof. by split_and!. Qed.
Lemma touched_trans run_id s1 s2 s3 : touched run_id s1 s2 → touched run_id s2 s3 → touched run_id s1 s3.
Proof.
  intros (T1 & M1 & F1 & R1) (T2 & M2 & F2 & R2). split_and!; [congruence|auto| |auto].
  intros name Hn. by rewrite F2, F1.
Qed.

Lemma touched_with_run store run_id n :
  (run_sorted store run_id → dir_sorted n) → touched run_id store (with_run store run_id n).
Proof.
  intros Hn. split_and!; [done|by apply map_insert_sorted| |].
  - intros name Hne. cbn. by rewrite map_get_insert, decide_False.
  - intros Hs m. rewrite with_run_get. intros [= <-]. auto.
Qed.

Definition touching {A} (run_id : string) (m : disk A) : Prop := ∀ d, touched run_id (jd_store d) (jd_store (m d).2).

Lemma touching_ret {A} run_id (x : A) : touching run_id (mret x).
Proof. intros d. apply touched_refl. Qed.
Lemma touching_lift {A} run_id (r : result RunJournalError A) : touching run_id (disk_lift r).
Proof. intros d. apply touched_refl. Qed.
Lemma touching_look {A} run_id (g : RunJournalStore → result RunJournalError A) : touching run_id (disk_look g).
Proof. intros d. apply touched_refl. Qed.
Lemma touching_bind {A C} run_id (m : disk A) (f : A → disk C) :
  touching run_id m → (∀ a, touching run_id (f a)) → touching run_id (m ≫= f).
Proof.
  intros Hm Hf d. specialize (Hm d). unfold mbind, disk_bind. destruct (m d) as [[a|e] d1]; [|done].
  eapply touched_trans; [exact Hm|apply Hf].
Qed.

Definition touches (run_id : string) (act : RunJournalStore → result DurableFsError RunJournalStore) : Prop :=
  ∀ store store', act store = Ok store' → touched run_id store store'.
Lemma touching_durable run_id act partial :
  touches run_id act → (∀ n, touches run_id (partial n)) → touching run_id (durable act partial).
Proof.
  intros Ha Hp d. unfold durable. destruct (act (jd_store d)) as [store|e] eqn:E; [|apply touched_refl].
  apply Ha in E. destruct (head (jd_fates d)) as [[|[n|]]|]; cbn [jd_store snd]; [done| |apply touched_refl|done].
  destruct (partial n (jd_store d)) as [store'|e] eqn:E'; [by eapply Hp|apply touched_refl].
Qed.

Lemma touches_make_file run_id name b : touches run_id (make_file run_id name b).
Proof.
  intros store store' H. apply bind_ok in H as (run & H & [= <-]). apply touched_with_run. intros Hs.
  apply bind_ok in H as (entries & He & H). apply bind_ok in H as ([] & _ & [= <-]).
  destruct (map_get run_id (st_runs store)) as [m|] eqn:Em; [|done]. destruct (Hs m Em) as (e & -> & He'). injection He as <-.
  eexists. split; [done|]. by apply map_insert_sorted.
Qed.
Lemma touches_make_directory run_id name : touches run_id (make_directory run_id name).
Proof.
  intros store store' H. apply bind_ok in H as (run & H & [= <-]). apply touched_with_run. intros Hs.
  apply bind_ok in H as (entries & He & H). apply bind_ok in H as ([] & _ & [= <-]).
  destruct (map_get run_id (st_runs store)) as [m|] eqn:Em; [|done]. destruct (Hs m Em) as (e & -> & He'). injection He as <-.
  eexists. split; [done|]. by apply map_insert_sorted.
Qed.
Lemma touches_make_run run_id : touches run_id (make_run run_id).
Proof.
  intros store store' H. apply bind_ok in H as (runs & H & He). apply bind_ok in H as (entries & [= <-] & H).
  apply bind_ok in H as ([] & _ & [= <-]). apply bind_ok in He as (e & [= <-] & [= <-]).
  apply (touched_with_run store run_id (Dir [])). intros _. exists []. by split; [|constructor].
Qed.

Lemma touching_call run_id act : touches run_id act → touching run_id (durable_call act).
Proof. intros Ha. by apply touching_durable. Qed.

Create HintDb touching.
#[local] Hint Resolve touching_ret touching_lift touching_look touching_bind touching_durable touching_call
  touches_make_file touches_make_directory touches_make_run : touching.

Lemma touching_append run_id seq state at_utc fk : touching run_id (append_entry_on_disk run_id seq state at_utc fk).
Proof. unfold append_entry_on_disk, durable_file. auto 10 with touching. Qed.
#[local] Hint Resolve touching_append : touching.

(** The run in quarantine, with its marker as it was written. *)
Definition moved_exactly (store store' : RunJournalStore) (run_id : string) : Prop :=
  map_get (QUARANTINE_PREFIX +:+ run_id) (st_runs store) = None ∧
  ∃ entries, map_get run_id (st_runs store) = Some (Dir entries) ∧ marker_exact (st_root_token store) run_id entries ∧
    store' = {| st_root_token := st_root_token store;
                st_runs := rename_entry (st_runs store) run_id (QUARANTINE_PREFIX +:+ run_id) (Dir entries) |}.

Lemma apply_moves run_id d :
  jd_store (apply_on_disk run_id d).2 = jd_store d ∨
  moved_exactly (jd_store d) (jd_store (apply_on_disk run_id d).2) run_id.
Proof.
  unfold apply_on_disk, mbind, disk_bind, disk_lift, disk_look. destruct (validate_run_id run_id); [|by left].
  destruct (exists_node _); [repeat case_match; simplify_eq; by left|].
  destruct (read_entries _ _) as [es|]; [|by left]. destruct (ok_or (last es) Corrupt) as [e|]; [|by left].
  destruct (ensure _ _); [|by left]. destruct (run_marker_bytes _ _) as [m|] eqn:Em; [|by left].
  unfold durable_call, durable. destruct (move_run _ _ _ _) as [store'|e'] eqn:E; [|by left].
  apply bind_ok in E as (runs & Hr & [= <-]). unfold quarantine_owned_tree in Hr. apply bind_ok in Hr as ([] & Ho & Hr).
  apply bind_ok in Hr as ([] & _ & Hr). apply bind_ok in Hr as (n & Hn%ok_or_ok & Hr).
  apply bind_ok in Hr as ([] & Hfree%ensure_ok & [= <-]). apply negb_true_iff, map_contains_get_none in Hfree.
  apply validate_owned_tree_ok in Ho as (entries & Hg & Hmark). assert (n = Dir entries) as -> by congruence.
  assert (Hmoved : moved_exactly (jd_store d) {| st_root_token := st_root_token (jd_store d);
    st_runs := rename_entry (st_runs (jd_store d)) run_id (QUARANTINE_PREFIX +:+ run_id) (Dir entries) |} run_id).
  { split; [done|]. exists entries. split_and!; [done| |done]. by exists m. }
  destruct (head (jd_fates d)) as [[|[k|]]|]; cbn [jd_store snd]; [by right| |by left|by right].
  by right.
Qed.

Lemma perform_frame o d :
  jd_store (perform o d).2 = jd_store d ∨ validate_run_id (operation_run o) = Ok () ∧
    (touched (operation_run o) (jd_store d) (jd_store (perform o d).2) ∨
     moved_exactly (jd_store d) (jd_store (perform o d).2) (operation_run o)).
Proof.
  destruct (validate_run_id (operation_run o)) as [[]|e] eqn:Hid.
  2: { left. destruct o; cbn in Hid |- *; unfold mbind, disk_bind, create_run_on_disk, transition_on_disk, cleanup_pending_on_disk,
         reserve_resource_on_disk, bind_source_on_disk, apply_on_disk, mbind, disk_bind, disk_lift; by rewrite Hid. }
  destruct o; cbn [operation_run perform] in *.
  6: { assert (E : jd_store ((_ ← apply_on_disk run_id; mret () : disk ()) d).2 = jd_store (apply_on_disk run_id d).2)
         by (unfold mbind, disk_bind; by destruct (apply_on_disk run_id d) as [[] ?]).
       rewrite E. destruct (apply_moves run_id d); [by left|right; auto]. }
  all: right; split; [done|left].
  - apply touching_bind; [|auto with touching]. unfold create_run_on_disk, durable_file. auto 20 with touching.
  - apply touching_bind; [|auto with touching]. unfold transition_on_disk. auto 20 with touching.
  - apply touching_bind; [|auto with touching]. unfold cleanup_pending_on_disk. auto 20 with touching.
  - unfold reserve_resource_on_disk. do 4 (apply touching_bind; [auto with touching|intros _]).
    apply touching_bind; [|auto 10 with touching]. intros d'.
    pose proof (touching_call run_id _ (touches_make_directory run_id RESOURCES_DIR) d') as Ht.
    destruct (durable_call _ d') as [[[]|[| [[]| | |] | | | | | |]] d1]; try exact Ht.
    eapply touched_trans; [exact Ht|]. apply touching_bind; auto with touching.
  - apply touching_bind; [|auto with touching]. unfold bind_source_on_disk, durable_file. cbv zeta. auto 20 with touching.
Qed.

(** ** An operation that completes *)

(** It had no failing effect. *)
Definition completes {A} (m : disk A) : Prop := ∀ d a d', m d = (Ok a, d') →
  m {| jd_store := jd_store d; jd_fates := [] |} = (Ok a, {| jd_store := jd_store d'; jd_fates := [] |}).

Lemma completes_equal {A} (m : disk A) d a d' :
  completes m → m d = (Ok a, d') → completed m (jd_store d) = Ok (a, jd_store d').
Proof. intros Hm H. unfold completed. by rewrite (Hm _ _ _ H). Qed.

Lemma completes_ret {A} (x : A) : completes (mret x).
Proof. by intros d a d' [= <- <-]. Qed.
Lemma completes_lift {A} (r : result RunJournalError A) : completes (disk_lift r).
Proof. by intros d a d' [= -> <-]. Qed.
Lemma completes_look {A} (g : RunJournalStore → result RunJournalError A) : completes (disk_look g).
Proof. intros d a d' [= H <-]. unfold disk_look. cbn. by rewrite H. Qed.
Lemma completes_bind {A C} (m : disk A) (f : A → disk C) : completes m → (∀ a, completes (f a)) → completes (m ≫= f).
Proof.
  intros Hm Hf d c d'. unfold mbind, disk_bind. destruct (m d) as [[a|e] d1] eqn:E; [|done]. intros Hc.
  rewrite (Hm _ _ _ E). by apply (Hf a d1).
Qed.
Lemma completes_durable act partial : completes (durable act partial).
Proof.
  intros d [] d'. unfold durable. cbn. destruct (act (jd_store d)); [|done]. by destruct (head (jd_fates d)) as [[]|]; intros [= <-].
Qed.
#[local] Hint Resolve completes_ret completes_lift completes_look completes_bind completes_durable : touching.
Lemma completes_append run_id seq state at_utc fk : completes (append_entry_on_disk run_id seq state at_utc fk).
Proof. unfold append_entry_on_disk, durable_file. auto 10 with touching. Qed.
#[local] Hint Resolve completes_append : touching.

Lemma completes_reserve run_id resource_id : completes (reserve_resource_on_disk run_id resource_id).
Proof.
  unfold reserve_resource_on_disk. do 4 (apply completes_bind; [auto with touching|intros _]). apply completes_bind; [|auto with touching].
  intros d [] d' H. unfold durable_call in *. pose proof (completes_durable (make_directory run_id RESOURCES_DIR) (λ _, make_directory run_id RESOURCES_DIR) d) as Hs.
  destruct (durable _ _ d) as [[[]|e] d1] eqn:E.
  - rewrite (Hs _ _ eq_refl). by injection H as <-.
  - assert (e = JournalDurable (DurableIo AlreadyExists)) as -> by (by destruct e as [|[[]| | |]| | | | | |]).
    unfold durable in E |- *. cbn. destruct (make_directory run_id RESOURCES_DIR (jd_store d)) as [store|e'] eqn:Em.
    { by destruct (head (jd_fates d)) as [[]|]. }
    injection E as -> <-. revert H. apply completes_bind; auto with touching.
Qed.

Lemma perform_run {A} (m : disk A) d d' :
  (_ ← m; mret () : disk ()) d = (Ok (), d') → ∃ a, m d = (Ok a, d').
Proof. unfold mbind, disk_bind. destruct (m d) as [[a|e] d1]; [|done]. intros [= <-]. by exists a. Qed.

(** On a run that is readable, or not there, it does what it does on a disk that does not fail. *)
Lemma perform_done o d d' :
  operation_fits o → run_fit (jd_store d) (operation_run o) → perform o d = (Ok (), d') →
  jd_store d' = jd_store d ∨ run_updated (jd_store d) (jd_store d') (operation_run o) ∨
  moved_exactly (jd_store d) (jd_store d') (operation_run o).
Proof.
  intros Hfits Hfit H. destruct o; cbn [perform operation_run operation_fits] in *.
  - apply perform_run in H as [e H]. apply completes_equal in H; [|unfold create_run_on_disk, durable_call, durable_file; auto 20 with touching].
    right; left. by eapply create_run_updated_local.
  - apply perform_run in H as [e H]. apply completes_equal in H; [|unfold transition_on_disk; auto 20 with touching].
    right; left. by eapply transition_updated_local.
  - apply perform_run in H as [e H]. apply completes_equal in H; [|unfold cleanup_pending_on_disk; auto 20 with touching].
    right; left. by eapply cleanup_pending_updated_local.
  - apply completes_equal in H; [|apply completes_reserve].
    assert (Hr : reserve_resource (jd_store d) run_id resource_id = Ok (jd_store d')) by (unfold reserve_resource; by rewrite H).
    apply reserve_resource_extended_local in Hr as [[?|?] _]; auto.
  - apply perform_run in H as [e H]. apply completes_equal in H; [|unfold bind_source_on_disk, durable_file; cbv zeta; auto 20 with touching].
    apply bind_source_extended_local in H as [[?|?] _]; auto.
  - apply perform_run in H as [e H]. destruct (apply_moves run_id d) as [E|E]; rewrite H in E; auto.
Qed.

(** ** The invariant *)

(** What a directory of the store is. *)
Inductive dir_kind (store : RunJournalStore) (torn : list string) (name : string) (n : node) : Prop :=
  | kind_run : validate_run_id name = Ok () → run_readable store name n → dir_kind store torn name n
  | kind_quarantined run_id entries :
      name = QUARANTINE_PREFIX +:+ run_id → validate_run_id run_id = Ok () → n = Dir entries →
      marker_exact (st_root_token store) run_id entries → dir_kind store torn name n
  | kind_torn : name ∈ torn → validate_run_id name = Ok () → dir_sorted n → dir_kind store torn name n.

Record store_sound (store : RunJournalStore) (torn : list string) : Prop := {
  ss_token : validate_run_id (st_root_token store) = Ok ();
  ss_sorted : map_sorted (st_runs store);
  ss_runs : ∀ name n, map_get name (st_runs store) = Some n → dir_kind store torn name n;
}.

Lemma dir_kind_ext store store' torn torn' name n :
  map_get name (st_runs store') = map_get name (st_runs store) → st_root_token store' = st_root_token store → torn ⊆ torn' →
  dir_kind store torn name n → dir_kind store' torn' name n.
Proof.
  intros Hg Ht Htorn [Hid Hr|run_id entries -> Hid -> Hm|Hin Hid Hs].
  - apply kind_run; [done|]. by apply (run_readable_ext store).
  - eapply kind_quarantined; try done. by rewrite Ht.
  - apply kind_torn; [by apply Htorn|done..].
Qed.

(** A change of one run keeps the kinds of the others. *)
Lemma sound_run store store' torn torn' run_id n :
  store_sound store torn → touched run_id store store' → torn ⊆ torn' →
  map_get run_id (st_runs store') = Some n → dir_kind store' torn' run_id n → store_sound store' torn'.
Proof.
  intros Hs (Ht & Hsort & Hframe & _) Htorn Hn Hk. constructor; [by rewrite Ht; apply Hs|by apply Hsort, Hs|].
  intros name m Hm. destruct (decide (name = run_id)) as [->|Hne]; [by replace m with n by congruence|].
  pose proof (Hframe _ Hne) as Hf. rewrite Hf in Hm. eapply dir_kind_ext; [done|done|done|]. by apply (ss_runs _ _ Hs).
Qed.

Lemma sound_moved store store' torn torn' run_id :
  store_sound store torn → validate_run_id run_id = Ok () → torn ⊆ torn' → moved_exactly store store' run_id → store_sound store' torn'.
Proof.
  intros Hs Hid Htorn (Hq & entries & Hg & Hm & ->). constructor; cbn; [apply Hs|by apply rename_entry_sorted, Hs|].
  intros name n. rewrite rename_entry_get. case_decide as D1; [|case_decide as D2; [done|]].
  - intros [= <-]. by eapply kind_quarantined.
  - intros Hn. eapply (dir_kind_ext store); [|done|done|by apply (ss_runs _ _ Hs)]. cbn. by rewrite rename_entry_get, !decide_False.
Qed.

(** The run of an operation is there as a readable run or a torn one. *)
Lemma sound_dir store torn run_id :
  store_sound store torn → validate_run_id run_id = Ok () → run_sorted store run_id ∧ (run_fit store run_id ∨ run_id ∈ torn).
Proof.
  intros Hs Hid. destruct (map_get run_id (st_runs store)) as [n|] eqn:Hn.
  - destruct (ss_runs _ _ Hs _ _ Hn) as [_ Hr|other entries -> _ _ _|Hin _ Hd]; [|by destruct (quarantine_ne _ Hid other)|].
    + split.
      * destruct Hr as (entries & es & -> & Hso & _). intros m Hm. assert (m = Dir entries) as -> by congruence. by exists entries.
      * left. constructor; [apply Hs|apply Hs|]. intros _ m Hm. by replace m with n by congruence.
    + split; [|by right]. intros m Hm. by replace m with n by congruence.
  - split; [by intros m Hm; congruence|]. left. constructor; [apply Hs|apply Hs|]. intros _ m Hm. congruence.
Qed.

Lemma sound_torn store store' torn torn' run_id :
  store_sound store torn → validate_run_id run_id = Ok () → torn ⊆ torn' → run_id ∈ torn' →
  touched run_id store store' → store_sound store' torn'.
Proof.
  intros Hs Hid Htorn Hin Ht. destruct (sound_dir _ _ _ Hs Hid) as [Hd _]. pose proof Ht as (Htok & Hsort & Hframe & Hrun).
  destruct (map_get run_id (st_runs store')) as [n|] eqn:Hn.
  - eapply sound_run; [exact Hs|exact Ht|exact Htorn|exact Hn|]. apply kind_torn; [done..|]. by apply (Hrun Hd).
  - constructor; [by rewrite Htok; apply Hs|by apply Hsort, Hs|]. intros name m Hm.
    assert (Hne : name ≠ run_id) by (by intros ->; congruence). pose proof (Hframe _ Hne) as Hf. rewrite Hf in Hm.
    eapply dir_kind_ext; [done|done|done|]. by apply (ss_runs _ _ Hs).
Qed.

Lemma sound_updated store store' torn run_id :
  store_sound store torn → run_updated store store' run_id → store_sound store' torn.
Proof.
  intros Hs (Hid & Ht & Hsort & Hframe & (n & Hn & Hr) & _). eapply sound_run; [exact Hs| |done|exact Hn|by apply kind_run].
  split_and!; [done..|]. intros _ m Hm. destruct Hr as (entries & es & -> & Hso & _).
  assert (m = Dir entries) as -> by congruence. by exists entries.
Qed.

Lemma disk_step_sound s s' : disk_step s s' → store_sound s.1 s.2 → store_sound s'.1 s'.2.
Proof.
  intros Hstep Hs. destruct Hstep as [store torn o fates d Hfits H|store torn o fates e d H E|store torn o fates e d H Hne]; cbn in *.
  - set (d0 := {| jd_store := store; jd_fates := fates |}) in *. pose proof (perform_frame o d0) as Hf. rewrite H in Hf. cbn in Hf.
    destruct Hf as [->|[Hid [Ht|Hm]]]; [done| |by eapply sound_moved].
    destruct (sound_dir _ _ _ Hs Hid) as [_ [Hfit|Hin]]; [|by eapply sound_torn].
    destruct (perform_done o d0 d Hfits Hfit H) as [->|[Hu|Hm]]; [done|by eapply sound_updated|by eapply sound_moved].
  - done.
  - set (d0 := {| jd_store := store; jd_fates := fates |}) in *. pose proof (perform_frame o d0) as Hf. rewrite H in Hf. cbn in Hf.
    destruct Hf as [?|[Hid [Ht|Hm]]]; [done| |].
    + eapply sound_torn; [exact Hs|exact Hid| |left|exact Ht]. by intros x Hx; right.
    + eapply sound_moved; [exact Hs|exact Hid| |exact Hm]. by intros x Hx; right.
Qed.

Lemma disk_reachable_sound token store torn :
  validate_run_id token = Ok () → disk_reachable token (store, torn) → store_sound store torn.
Proof.
  intros Ht Hr. assert (G : ∀ s s', rtc disk_step s s' → store_sound s.1 s.2 → store_sound s'.1 s'.2).
  { induction 1 as [|s1 s2 s3 Hs _ IH]; [done|]. intros H1. by apply IH, (disk_step_sound s1). }
  apply (G _ _ Hr). constructor; [done|by constructor|done].
Qed.

(** ** Recovery of a run that is torn *)

Lemma torn_refused store torn run_id entries :
  store_sound store torn → validate_run_id run_id = Ok () → map_get run_id (st_runs store) = Some (Dir entries) →
  (∀ es, read_entries store run_id = Ok es → es = []) →
  run_status store (run_id, Dir entries) = operator_required run_id ∧
  ∀ fates, ∃ e, apply_on_disk run_id {| jd_store := store; jd_fates := fates |} = (Err e, {| jd_store := store; jd_fates := fates |}).
Proof.
  intros Hs Hid Hg Hr. split.
  - unfold run_status. rewrite (run_id_not_quarantine _ Hid), Hid. cbn [is_ok negb].
    destruct (read_entries store run_id) as [es|]; [|done]. by rewrite (Hr es eq_refl).
  - intros fates. unfold apply_on_disk, mbind, disk_bind, disk_lift, disk_look. cbn [jd_store]. rewrite Hid.
    destruct (exists_node (map_get (QUARANTINE_PREFIX +:+ run_id) _)); [cbn; rewrite Hg; by eexists|].
    cbn [jd_store]. destruct (read_entries store run_id) as [es|]; [|by eexists].
    rewrite (Hr es eq_refl). by eexists.
Qed.
End Store.
