(* ===== verification/JournalClaims.v ===== *)
(** The theorems on the run journal, with a concrete codec and journal at which
    their hypotheses hold. *)
From stdpp Require Import relations.
From S2P Require Import Prelude.
From S2P Require Import RustStr.
From S2P Require Import BTree.
From S2P Require Import Calendar.
From S2P Require Import Canonical.
From S2P Require Import FieldCodec.
From S2P Require Import PlanClaims.
Import PlanExample.
From S2P Require Import Durable.
From S2P Require Import RunJournal.
From S2P Require Import RunJournalProps.
From S2P Require Import JournalStore.
Local Open Scope Z_scope.

(** * Example *)

Module JournalExample.

#[local] Instance failure_eq_dec : EqDecision RunFailureKindV1.
Proof. solve_decision. Defined.
#[local] Instance entry_eq_dec : EqDecision RunJournalEntryV1.
Proof. solve_decision. Defined.
#[local] Instance marker_eq_dec : EqDecision RunOwnerMarkerV1.
Proof. solve_decision. Defined.
#[local] Instance source_eq_dec : EqDecision RunJournalSourceV1.
Proof. solve_decision. Defined.

Definition failures : list RunFailureKindV1 :=
  [AdmissionRejected; PreparationFailed; ExecutionFailed; FinalizationFailed; CleanupFailed;
   ResourcePressure; StaleCommit; Invariant; Unknown].
Definition states : list RunJournalStateV1 :=
  [Created; RunAdmitted; Prepared; Executing; Finalizing; CleanupPending; Failed; Sealed].

#[local] Instance entry_codec : Codec RunJournalEntryV1 := codec
  (λ e, [je_schema_version e; je_run_id e; number (je_seq e); write_index states (je_state e);
         je_at_utc e] ++ match je_failure_kind e with Some f => [write_index failures f] | None => [] end)
  (λ l, match l with
        | v :: r :: n :: s :: t :: f =>
          seq ← read_number n; state ← read_index states s;
          kind ← match f with [] => Some None | k :: _ => Some <$> read_index failures k end;
          Some {| je_schema_version := v; je_run_id := r; je_seq := seq; je_state := state;
                  je_at_utc := t; je_failure_kind := kind |}
        | _ => None
        end).

#[local] Instance marker_codec : Codec RunOwnerMarkerV1 := codec
  (λ m, [om_schema_version m; om_owner m; om_purpose m; om_root_token m; om_run_id m; om_run_token m])
  (λ l, match l with
        | [v; o; p; t; r; k] =>
          Some {| om_schema_version := v; om_owner := o; om_purpose := p; om_root_token := t;
                  om_run_id := r; om_run_token := k |}
        | _ => None
        end).

#[local] Instance source_codec : Codec RunJournalSourceV1 := codec
  (λ s, [js_schema_version s; js_commit_sha s; js_manifest_digest s; number (js_entry_count s);
         js_resource_id s])
  (λ l, match l with
        | [v; c; d; n; r] =>
          count ← read_number n;
          Some {| js_schema_version := v; js_commit_sha := c; js_manifest_digest := d;
                  js_entry_count := count; js_resource_id := r |}
        | _ => None
        end).

#[local] Instance laws : JournalLaws.
Proof.
  constructor.
  - intros x b H. apply codec_law in H; apply H.
  - intros x b H. apply codec_law in H; apply H.
  - intros x b H. apply codec_law in H; apply H.
  - intros token run_id run_token b _ _ _ H. apply codec_law in H; apply H.
  - intros x b _ _ _ _ _ H. apply codec_law in H; apply H.
Qed.

Definition token : string := str (repeat "a"%char 64).
Definition run : string := str (repeat "b"%char 64).
Definition now : string := "2026-03-01T10:20:30Z".

(** A run created, admitted and given a resource; then failed, or recovered. *)
Definition after {A} (r : result RunJournalError (A * RunJournalStore)) : RunJournalStore :=
  match r with Ok (_, store) => store | Err _ => initial_store token end.

Definition created : RunJournalStore := Eval vm_compute in after (create_run (initial_store token) run now).
Definition admitted : RunJournalStore := Eval vm_compute in after (transition created run RunAdmitted now None).
Definition reserved : RunJournalStore := Eval vm_compute in
  match reserve_resource admitted run "cache-1" with Ok store => store | Err _ => admitted end.
Definition failed : RunJournalStore := Eval vm_compute in
  after (transition reserved run Failed now (Some StaleCommit)).
Definition quarantined : RunJournalStore := Eval vm_compute in after (apply reserved run).

Lemma after_ok {A} (r : result RunJournalError (A * RunJournalStore)) store :
  is_ok r = true → after r = store → ∃ e, r = Ok (e, store).
Proof. destruct r as [[e s]|]; [|done]. intros _ <-. by exists e. Qed.

Lemma created_reachable : reachable token created.
Proof.
  apply rtc_once. destruct (after_ok (create_run (initial_store token) run now) created) as [e H];
    [by vm_compute..|]. by eapply step_create.
Qed.

Lemma reserved_reachable : reachable token reserved.
Proof.
  eapply rtc_r; [eapply rtc_r; [apply created_reachable|]|].
  - destruct (after_ok (transition created run RunAdmitted now None) admitted) as [e H];
      [by vm_compute..|]. by eapply step_transition.
  - apply (step_reserve _ run "cache-1"). by vm_compute.
Qed.

Lemma failed_reachable : reachable token failed.
Proof.
  eapply rtc_r; [apply reserved_reachable|].
  destruct (after_ok (transition reserved run Failed now (Some StaleCommit)) failed) as [e H];
    [by vm_compute..|]. by eapply step_transition.
Qed.

Lemma quarantined_step : journal_step reserved quarantined.
Proof.
  destruct (after_ok (apply reserved run) quarantined) as [e H]; [by vm_compute..|].
  by eapply step_apply.
Qed.

(** The same run, and the creation of another one, on a disk that fails while it writes
    the marker of the second. *)
Definition second : string := str (repeat "c"%char 64).
Definition broken_off : JournalDisk := Eval vm_compute in
  (perform (CreateRun second now) {| jd_store := created; jd_fates := [Completes; Fails (Some 10%nat)] |}).2.

Lemma broken_off_reachable : disk_reachable token (jd_store broken_off, [second]).
Proof.
  eapply rtc_r; [apply rtc_once; eapply (disk_done _ _ (CreateRun run now) [] {| jd_store := created; jd_fates := [] |})|].
  - exact I.
  - by vm_compute.
  - eapply (disk_torn _ _ (CreateRun second now) [Completes; Fails (Some 10%nat)]); [by vm_compute|]. by vm_compute.
Qed.

Definition entry (seq : Z) (state : RunJournalStateV1) (fk : option RunFailureKindV1) :
    RunJournalEntryV1 :=
  {| je_schema_version := RUN_JOURNAL_SCHEMA_VERSION; je_run_id := run; je_seq := seq;
     je_state := state; je_at_utc := now; je_failure_kind := fk |}.
End JournalExample.

Section Claims.
Context `{B : Backend, BO : !BackendOk} `{CE : Codec RunJournalEntryV1}
  `{CM : Codec RunOwnerMarkerV1} `{CS : Codec RunJournalSourceV1} `{JL : !JournalLaws}.

(** The journal is append only and recovery destroys nothing: whatever a run
    recorded in a reachable store is, after any further operations on any runs, a
    prefix of the journal in its directory or in its quarantined directory, and a
    directory in quarantine is never altered. *)
Theorem journal_history_preserved token store store' run_id es :
  validate_run_id token = Ok () → validate_run_id run_id = Ok () → reachable token store →
  rtc journal_step store store' →
  (read_entries store run_id = Ok es →
   ∃ n es', (map_get run_id (st_runs store') = Some n ∨
             map_get (QUARANTINE_PREFIX +:+ run_id) (st_runs store') = Some n) ∧
     read_entries (with_run store' run_id n) run_id = Ok es' ∧ es `prefix_of` es') ∧
  (∀ n, map_get (QUARANTINE_PREFIX +:+ run_id) (st_runs store) = Some n →
        map_get (QUARANTINE_PREFIX +:+ run_id) (st_runs store') = Some n).
Proof.
  intros Ht Hid Hr%(reachable_ok _ _ Ht) Hsteps. split; [|intros n; by apply quarantined_steps].
  intros Hread. apply (recorded_steps store store'); try done.
  pose proof Hread as (entries & Hg & _)%read_entries_iff.
  exists (Dir entries), es. rewrite read_entries_self by done. auto.
Qed.

(** No journal that can be read skips a step, tampered with or not: its states
    are a beginning of the path from [Created] through [Executing] and [Finalizing]
    to [Sealed], or a beginning of that path before [Sealed] that ended in
    [CleanupPending], in [Failed], or in both. *)
Theorem journal_follows_path store run_id es :
  read_entries store run_id = Ok es →
  ∃ k suffix,
    je_state <$> es
    = take k [Created; RunAdmitted; Prepared; Executing; Finalizing; Sealed] ++ suffix ∧
    (suffix = [] ∧ (k ≤ 6)%nat ∨
     (1 ≤ k ≤ 5)%nat ∧
     (suffix = [CleanupPending] ∨ suffix = [Failed] ∨ suffix = [CleanupPending; Failed])).
Proof.
  intros (entries & _ & _ & Hloop)%read_entries_iff.
  destruct (entry_loop_ok _ _ _ Hloop) as [Hj _]. by apply (journal_shape run_id).
Qed.

(** C39.  Recovery understands every directory that the operations leave behind, also
    where the disk fails under them or their process ends: each one is either a run
    with a readable, legal journal of one to seven entries, reported with the
    classification of its last state, or a quarantined run, reported as such, or the
    run of an operation that was broken off after it had changed the store.  Only the
    last may need the operator; it is reported so, and the recovery refuses it and
    leaves it as it is.  An operation that is refused before it has changed anything,
    and one that succeeds, leave no such run. *)
Theorem recovery_classifies_every_run token store torn name n :
  validate_run_id token = Ok () → disk_reachable token (store, torn) → (name, n) ∈ st_runs store →
  (∃ es e, validate_run_id name = Ok () ∧ read_entries store name = Ok es ∧ journal_ok name es ∧
     (length es ≤ 7)%nat ∧ last es = Some e ∧
     run_status store (name, n) = {| rs_run_id := name; rs_state := Some (je_state e);
                                     rs_classification := classify (je_state e) |}) ∨
  (∃ run_id, name = QUARANTINE_PREFIX +:+ run_id ∧ validate_run_id run_id = Ok () ∧
     run_status store (name, n) = {| rs_run_id := run_id; rs_state := None;
                                     rs_classification := Quarantined |}) ∨
  (name ∈ torn ∧ run_status store (name, n) = {| rs_run_id := name; rs_state := None; rs_classification := OperatorRequired |} ∧
     ∀ fates, let d := {| jd_store := store; jd_fates := fates |} in ∃ e, apply_on_disk name d = (Err e, d)).
Proof.
  intros Ht Hr%(disk_reachable_sound _ _ _ Ht) Hin.
  pose proof (proj2 (map_get_elem _ _ _ (ss_sorted _ _ Hr)) Hin) as Hg.
  assert (Hreadable : ∀ es, validate_run_id name = Ok () → read_entries store name = Ok es → es ≠ [] →
    ∃ es e, validate_run_id name = Ok () ∧ read_entries store name = Ok es ∧ journal_ok name es ∧
     (length es ≤ 7)%nat ∧ last es = Some e ∧
     run_status store (name, n) = {| rs_run_id := name; rs_state := Some (je_state e);
                                     rs_classification := classify (je_state e) |}).
  { intros es Hid Hread Hne. destruct (last es) as [e|] eqn:He; [|by apply last_None in He].
    pose proof Hread as (entries' & _ & _ & Hloop)%read_entries_iff. destruct (entry_loop_ok _ _ _ Hloop) as [Hj _].
    exists es, e. split_and!; try done; [by eapply journal_length|by eapply run_status_run]. }
  destruct (ss_runs _ _ Hr _ _ Hg) as [Hid (entries & es & _ & _ & _ & Hread & Hne)|run_id entries -> Hid -> Hm|Htorn Hid (entries & -> & _)].
  - left. by apply (Hreadable es).
  - right. left. exists run_id. split_and!; try done. apply run_status_quarantine; [apply Hr|done..].
  - destruct (read_entries store name) as [[|e es]|err] eqn:Hread; [|left; by apply (Hreadable (e :: es))|]; right; right;
      (destruct (torn_refused store torn name entries Hr Hid Hg) as [Hs Ha]; [intros l Hl; congruence|]);
      (split; [done|]); (split; [|exact Ha]); rewrite Hs; unfold operator_required, bounded_run_id; by rewrite Hid.
Qed.

(** A transition on a run of a reachable store: it is refused with
    [InvalidTransition] unless the state machine allows it from the last recorded
    state and a failure kind is given exactly for a failure; otherwise the entry is
    appended, is read back after all the earlier ones, and no other directory
    changes. *)
Theorem transition_decides token store run_id state at_utc fk es p :
  validate_run_id token = Ok () → validate_run_id run_id = Ok () →
  is_Some (parse_utc_seconds at_utc) → reachable token store →
  read_entries store run_id = Ok es → last es = Some p →
  let e := {| je_schema_version := RUN_JOURNAL_SCHEMA_VERSION; je_run_id := run_id;
              je_seq := Z.of_nat (length es); je_state := state; je_at_utc := at_utc;
              je_failure_kind := fk |} in
  if transition_allowed (je_state p) state fk then
    match to_vec e with
    | None => transition store run_id state at_utc fk = Err Corrupt
    | Some _ => ∃ store', transition store run_id state at_utc fk = Ok (e, store') ∧
        read_entries store' run_id = Ok (es ++ [e]) ∧
        (∀ other, other ≠ run_id → map_get other (st_runs store') = map_get other (st_runs store))
    end
  else transition store run_id state at_utc fk = Err InvalidTransition.
Proof.
  intros Ht Hid Hutc Hr%(reachable_ok _ _ Ht) Hread Hp e.
  pose proof (transition_eq _ _ state _ fk _ _ Hid Hutc Hread Hp) as Heq.
  destruct (transition_allowed _ _ _); [|done].
  pose proof Hread as (entries & Hg & _)%read_entries_iff.
  pose proof (append_entry_total _ _ _ _ state at_utc fk Hg (next_entry_fresh _ _ _ _ _ Hg Hread)) as Ha.
  fold e in Ha. destruct (to_vec e); [|by rewrite Heq]. destruct Ha as [store' Ha]. rewrite <-Heq in Ha.
  exists store'. split; [done|]. destruct (transition_updated _ _ _ _ _ _ _ Hr Ha) as [Hu (es0 & H0 & H1)].
  split; [by replace es with es0 by congruence|apply Hu].
Qed.

(** Recovery of a run of a reachable store: while an older directory of the
    run is in quarantine it is refused as corrupt; a run that failed or was sealed
    is not actionable; any other run is moved, its directory unchanged, under its
    quarantine name, and asking again changes nothing. *)
Theorem apply_outcome token store run_id es e :
  validate_run_id token = Ok () → validate_run_id run_id = Ok () → reachable token store →
  read_entries store run_id = Ok es → last es = Some e →
  match map_get (QUARANTINE_PREFIX +:+ run_id) (st_runs store) with
  | Some _ => apply store run_id = Err Corrupt
  | None =>
    if decide (classify (je_state e) = Terminal) then apply store run_id = Err NonActionable else
    ∃ n, map_get run_id (st_runs store) = Some n ∧
      let store' := {| st_root_token := st_root_token store;
                       st_runs := rename_entry (st_runs store) run_id
                                    (QUARANTINE_PREFIX +:+ run_id) n |} in
      apply store run_id = Ok (quarantined_result run_id, store') ∧
      apply store' run_id = Ok (quarantined_result run_id, store')
  end.
Proof.
  intros Ht Hid Hr%(reachable_ok _ _ Ht) Hread He. pose proof Hread as (entries & Hg & _)%read_entries_iff.
  destruct (store_ok_run _ _ _ Hr Hid Hg) as (_ & (m & Hm & Hb) & _).
  rewrite !apply_completed. rewrite Hid. cbn [mbind result_bind].
  destruct (map_get (QUARANTINE_PREFIX +:+ run_id) (st_runs store)) as [q|] eqn:Hq.
  - destruct (so_runs _ Hr _ _ Hq) as [[Hv _]|(? & ? & _ & _ & -> & _)]; [by destruct (quarantine_ne _ Hv run_id)|].
    cbn [exists_node]. by rewrite Hg.
  - cbn [exists_node]. rewrite Hread. cbn [mbind result_bind]. rewrite He. cbn [ok_or mbind result_bind].
    case_decide as D; [by rewrite D|].
    rewrite (bool_decide_false _ D). cbn [negb ensure mbind result_bind].
    exists (Dir entries). split; [done|]. rewrite Hb. cbn [mbind result_bind]. split.
    + unfold quarantine_owned_tree. rewrite Hg, validate_owned_tree_marker, Hq by done.
      cbn [exists_node negb ensure mbind result_bind ok_or]. unfold map_contains. by rewrite Hq.
    + rewrite apply_completed, Hid. cbn [mbind result_bind st_runs]. rewrite !rename_entry_get.
      rewrite decide_True by done. cbn [exists_node].
      rewrite decide_False by by apply quarantine_ne. rewrite decide_True by done.
      cbn [exists_node negb ensure mbind result_bind].
      erewrite marker_exact_valid; [done|apply Hr|done|]. by exists m.
Qed.

(**  A run is created once: on a reachable store [create_run] is refused when
    the directory exists, and otherwise leaves a journal of one [Created] entry and
    every other directory as it was. *)
Theorem create_run_once token store run_id at_utc m b :
  validate_run_id token = Ok () → validate_run_id run_id = Ok () →
  is_Some (parse_utc_seconds at_utc) → reachable token store →
  let e := {| je_schema_version := RUN_JOURNAL_SCHEMA_VERSION; je_run_id := run_id; je_seq := 0;
              je_state := Created; je_at_utc := at_utc; je_failure_kind := None |} in
  run_marker_bytes (st_root_token store) run_id = Ok m → to_vec e = Some b →
  match map_get run_id (st_runs store) with
  | Some _ => create_run store run_id at_utc = Err (JournalDurable (DurableIo AlreadyExists))
  | None => ∃ store', create_run store run_id at_utc = Ok (e, store') ∧
      read_entries store' run_id = Ok [e] ∧
      (∀ other, other ≠ run_id → map_get other (st_runs store') = map_get other (st_runs store))
  end.
Proof.
  intros Ht Hid Hutc Hr%(reachable_ok _ _ Ht) e Hm Hb.
  assert (Hc : ∃ r, create_run store run_id at_utc = r) by eauto. destruct Hc as [r Hc].
  pose proof Hc as Hcreate. rewrite create_run_completed in Hc. unfold create_new_directory in Hc.
  rewrite Hid, (proj2 (validate_timestamp_spec _) Hutc) in Hc.
  cbn [validate_plain_directory mbind result_bind] in Hc. unfold map_contains in Hc.
  destruct (map_get run_id (st_runs store)) as [n|] eqn:Hg; cbn in Hc; [by rewrite Hcreate|].
  rewrite Hm in Hc. cbn [mbind result_bind] in Hc. rewrite map_get_insert, decide_True in Hc by done.
  cbn in Hc.
  match type of Hc with append_entry ?s _ _ _ _ _ = _ =>
    pose proof (append_entry_total s run_id [(RUN_MARKER, File m)] 0 Created at_utc None
      (with_run_get _ _ _) eq_refl) as Ha end.
  fold e in Ha. rewrite Hb in Ha. destruct Ha as [store' Ha]. rewrite Hc in Ha. subst r.
  exists store'. split; [by rewrite Hcreate|].
  destruct (create_run_updated _ _ _ _ _ Hr (eq_trans Hcreate Ha)) as (Hu & _ & Hread & _).
  split; [done|apply Hu].
Qed.
End Claims.

(**  The timestamps a journal accepts are exactly those the verifier reads. *)
Theorem journal_timestamps_agree value :
  validate_timestamp value = Ok () ↔ is_Some (parse_utc_seconds value).
Proof. apply validate_timestamp_spec. Qed.

(** Replacing a file, when the temporary name is free: it succeeds exactly
    when the target is a plain file or absent, then the target holds the new bytes,
    no temporary file is left and every other entry is as it was; a refused
    replacement changes nothing. *)
Theorem atomic_replace_exact entries name temporary b :
  name ≠ temporary → map_get temporary entries = None →
  match map_get name entries with
  | Some (File _) | None => ∃ entries',
      atomic_replace (Some (Dir entries)) name temporary b = (Ok (), Some (Dir entries')) ∧
      ∀ k, map_get k entries' = if decide (k = name) then Some (File b) else map_get k entries
  | Some _ => atomic_replace (Some (Dir entries)) name temporary b
              = (Err (UnsafePath "replacement target must be a plain file"), Some (Dir entries))
  end.
Proof.
  intros Hne Hfree. set (entries' := rename_entry entries temporary name (File b)).
  assert (Hk : ∀ k, map_get k entries' = if decide (k = name) then Some (File b) else map_get k entries).
  { intros k. unfold entries'. rewrite rename_entry_get. repeat case_decide; congruence. }
  assert (Hok : reject_symlink_or_non_file (map_get name entries) = Ok () →
    atomic_replace (Some (Dir entries)) name temporary b = (Ok (), Some (Dir entries'))).
  { intros Hr. unfold atomic_replace. cbn [validate_plain_directory]. rewrite Hr.
    unfold map_contains. rewrite Hfree. cbn. fold entries'. by rewrite Hk, decide_False, Hfree. }
  destruct (map_get name entries) as [[]|] eqn:Hn; [eauto| | | |eauto];
    unfold atomic_replace; cbn [validate_plain_directory]; by rewrite Hn.
Qed.

(** * Witnesses *)

Import JournalExample.
#[local] Existing Instances entry_codec marker_codec source_codec laws.

Lemma journal_history_preserved_witness :
  (read_entries reserved run = Ok [entry 0 Created None; entry 1 RunAdmitted None] →
   ∃ n es', (map_get run (st_runs quarantined) = Some n ∨
             map_get (QUARANTINE_PREFIX +:+ run) (st_runs quarantined) = Some n) ∧
     read_entries (with_run quarantined run n) run = Ok es' ∧
     [entry 0 Created None; entry 1 RunAdmitted None] `prefix_of` es') ∧
  read_entries reserved run = Ok [entry 0 Created None; entry 1 RunAdmitted None].
Proof.
  split; [|by vm_compute].
  apply (journal_history_preserved token reserved quarantined run
    [entry 0 Created None; entry 1 RunAdmitted None]); [by vm_compute..| |].
  - apply reserved_reachable.
  - apply rtc_once, quarantined_step.
Defined.

Lemma journal_follows_path_witness :
  ∃ k suffix, [Created; RunAdmitted; Failed]
    = take k [Created; RunAdmitted; Prepared; Executing; Finalizing; Sealed] ++ suffix ∧
    (suffix = [] ∧ (k ≤ 6)%nat ∨
     (1 ≤ k ≤ 5)%nat ∧
     (suffix = [CleanupPending] ∨ suffix = [Failed] ∨ suffix = [CleanupPending; Failed])).
Proof.
  assert (H : read_entries failed run = Ok
    [entry 0 Created None; entry 1 RunAdmitted None; entry 2 Failed (Some StaleCommit)]) by by vm_compute.
  exact (journal_follows_path failed run _ H).
Defined.

Lemma recovery_classifies_every_run_witness :
  (∃ n, (run, n) ∈ st_runs (jd_store broken_off) ∧ ∃ es e, validate_run_id run = Ok () ∧
    read_entries (jd_store broken_off) run = Ok es ∧ journal_ok run es ∧ (length es ≤ 7)%nat ∧ last es = Some e ∧
    run_status (jd_store broken_off) (run, n) = {| rs_run_id := run; rs_state := Some (je_state e);
                                      rs_classification := classify (je_state e) |}) ∧
  (∃ n, (second, n) ∈ st_runs (jd_store broken_off) ∧
    run_status (jd_store broken_off) (second, n) = {| rs_run_id := second; rs_state := None; rs_classification := OperatorRequired |} ∧
    ∀ fates, let d := {| jd_store := jd_store broken_off; jd_fates := fates |} in ∃ e, apply_on_disk second d = (Err e, d)).
Proof.
  split.
  - destruct (map_get run (st_runs (jd_store broken_off))) as [n|] eqn:Hn; [|by vm_compute in Hn].
    exists n. pose proof (map_get_in _ _ _ Hn) as Hin. split; [done|].
    destruct (recovery_classifies_every_run token (jd_store broken_off) [second] run n) as [H|[(q & H & _)|(H & _)]];
      [by vm_compute|apply broken_off_reachable|exact Hin|exact H|by vm_compute in H|].
    apply list_elem_of_singleton in H. by vm_compute in H.
  - destruct (map_get second (st_runs (jd_store broken_off))) as [n|] eqn:Hn; [|by vm_compute in Hn].
    exists n. pose proof (map_get_in _ _ _ Hn) as Hin. split; [done|].
    destruct (recovery_classifies_every_run token (jd_store broken_off) [second] second n) as [(es & e & _ & H & _)|[(q & H & _)|(_ & H)]];
      [by vm_compute|apply broken_off_reachable|exact Hin|by vm_compute in H|by vm_compute in H|exact H].
Defined.

Lemma transition_decides_witness :
  transition reserved run Sealed now None = Err InvalidTransition ∧
  ∃ store', transition reserved run Failed now (Some StaleCommit)
            = Ok (entry 2 Failed (Some StaleCommit), store').
Proof.
  split.
  - exact (transition_decides token reserved run Sealed now None
      [entry 0 Created None; entry 1 RunAdmitted None] (entry 1 RunAdmitted None)
      eq_refl eq_refl ltac:(eexists; by vm_compute) reserved_reachable ltac:(by vm_compute) eq_refl).
  - pose proof (transition_decides token reserved run Failed now (Some StaleCommit)
      [entry 0 Created None; entry 1 RunAdmitted None] (entry 1 RunAdmitted None)
      eq_refl eq_refl ltac:(eexists; by vm_compute) reserved_reachable ltac:(by vm_compute) eq_refl) as H.
    cbv beta iota zeta in H. change (transition_allowed _ _ _) with true in H. cbv iota in H.
    destruct (to_vec _) as [b|] eqn:E in H; [|by vm_compute in E].
    destruct H as (store' & H & _). by exists store'.
Defined.

Lemma apply_outcome_witness :
  apply failed run = Err NonActionable ∧
  ∃ store', apply reserved run = Ok (quarantined_result run, store') ∧
            apply store' run = Ok (quarantined_result run, store').
Proof.
  split.
  - refine (apply_outcome token failed run
      [entry 0 Created None; entry 1 RunAdmitted None; entry 2 Failed (Some StaleCommit)]
      (entry 2 Failed (Some StaleCommit)) eq_refl eq_refl _ _ eq_refl); [|by vm_compute].
    apply failed_reachable.
  - pose proof (apply_outcome token reserved run
      [entry 0 Created None; entry 1 RunAdmitted None] (entry 1 RunAdmitted None)
      eq_refl eq_refl reserved_reachable ltac:(by vm_compute) eq_refl) as H.
    destruct (map_get _ _) eqn:E in H; [by vm_compute in E|].
    destruct (decide _) as [D|_]; [done|]. destruct H as (n & _ & H1 & H2). eauto.
Defined.

Lemma create_run_once_witness :
  create_run created run now = Err (JournalDurable (DurableIo AlreadyExists)) ∧
  ∃ store', create_run (initial_store token) run now = Ok (entry 0 Created None, store').
Proof.
  destruct (run_marker_bytes token run) as [m|] eqn:Hm; [|by vm_compute in Hm].
  destruct (to_vec (entry 0 Created None)) as [b|] eqn:Hb; [|by vm_compute in Hb].
  split.
  - exact (create_run_once token created run now m b eq_refl eq_refl ltac:(eexists; by vm_compute)
      created_reachable Hm Hb).
  - destruct (create_run_once token (initial_store token) run now m b eq_refl eq_refl
      ltac:(eexists; by vm_compute) (rtc_refl _ _) Hm Hb) as (store' & H & _). by exists store'.
Defined.

Lemma atomic_replace_exact_witness :
  ∃ entries', atomic_replace (Some (Dir [("state", File [])])) "state" "tmp" (bytes "new")
              = (Ok (), Some (Dir entries')) ∧
    ∀ k, map_get k entries' =
         if decide (k = "state"%string) then Some (File (bytes "new")) else map_get k [("state", File [])].
Proof. exact (atomic_replace_exact [("state", File [])] "state" "tmp" (bytes "new") ltac:(done) eq_refl). Defined.
