(* ===== verification/Resource.v ===== *)
(** The host resource guard ([src/src/resource.rs], with the types it takes from
    [src/src/process.rs]).

    The parsers of the probe's commands, the validation of a snapshot, the
    admission before a run, the state of the watchdog and its loop.  Threads, the
    sleep between two samples and the supervisor that runs the commands are the
    environment: the loop reads what they give from a list of turns. *)
From S2P Require Import Prelude.
From S2P Require Import RustStr.
From S2P Require Import Durable.
Local Open Scope Z_scope.

Definition RESOURCE_SCHEMA_VERSION : string := "1.0".
Definition MACOS_POLICY_VERSION : string := "macos-v5".
Definition MIN_PRESTART_AVAILABLE_PERCENT : Z := 20.
Definition MIN_PRESTART_FREE_BYTES : Z := 3 * 1024 * 1024 * 1024.
Definition HARD_AVAILABLE_PERCENT : Z := 3.
Definition HARD_RECLAIMABLE_BYTES : Z := 512 * 1024 * 1024.
Definition HARD_COMPRESSOR_PERCENT : Z := 70.
Definition HARD_COMPRESSOR_COMPANION_AVAILABLE_PERCENT : Z := 8.
Definition SOFT_AVAILABLE_PERCENT : Z := 10.
Definition SOFT_RECLAIMABLE_BYTES : Z := 1536 * 1024 * 1024.
Definition SOFT_COMPRESSOR_PERCENT : Z := 55.
Definition SOFT_SWAP_BYTES : Z := 4 * 1024 * 1024 * 1024.
Definition SOFT_SWAP_GROWTH_BYTES : Z := 1024 * 1024 * 1024.
Definition SOFT_REQUIRED_SIGNALS : Z := 2.
Definition SOFT_CONSECUTIVE_SAMPLES : Z := 15.
Definition SOFT_TREND_WINDOW_SAMPLES : nat := 16.
Definition MAX_PERCENT : Z := 100.

(** * Data *)

Record RunIdentity : Type := {
  id_project : string;
  id_commit : option string;
  id_config_digest : string;
  id_generation : string;
}.

Inductive CancellationReason : Type := User | CancelledResourcePressure.
#[global] Instance CancellationReason_eq_dec : EqDecision CancellationReason.
Proof. solve_decision. Defined.

Inductive ProcessTermination : Type := Completed | Cancelled | TimedOut.
#[global] Instance ProcessTermination_eq_dec : EqDecision ProcessTermination.
Proof. solve_decision. Defined.

Inductive CleanupStatus : Type := NotRequired | Verified.
#[global] Instance CleanupStatus_eq_dec : EqDecision CleanupStatus.
Proof. solve_decision. Defined.

Record ExitOutcome : Type := { xo_success : bool; xo_code : option Z }.

Record CapturedStream : Type := {
  cs_bytes : list ascii;
  cs_byte_count : Z;
  cs_full_digest : string;
  cs_truncated : bool;
}.

Record ProcessResult : Type := {
  pr_identity : RunIdentity;
  pr_termination : ProcessTermination;
  pr_cleanup : CleanupStatus;
  pr_exit : option ExitOutcome;
  pr_stdout : CapturedStream;
  pr_stderr : CapturedStream;
  pr_elapsed_millis : Z;
}.

Inductive ProcessError : Type :=
  | InvalidRequest (message : string)
  | Spawn (kind : io_kind)
  | Monitor (kind : io_kind)
  | Output (kind : io_kind)
  | UnsupportedOutputMode
  | CleanupUncertain (stage : string) (kind : io_kind)
  | StaleGeneration
  | ProcessInvariant (message : string).

Inductive ResourceCapability : Type := SupportedEnforced | UnsupportedNotEnforced.

Inductive ResourceDecision : Type :=
  | ResourceAdmit | ResourceDeny | ResourceClear | ResourceSoftPressure | ResourceHardPressure
  | ResourceUnknown.

Record ResourceStatusV1 : Type := {
  sr_schema_version : string;
  sr_policy_version : string;
  sr_platform : string;
  sr_capability : ResourceCapability;
  sr_decision : ResourceDecision;
  sr_available_percent : option Z;
  sr_reclaimable_uncompressed_bytes : option Z;
  sr_compressor_occupied_bytes : option Z;
  sr_total_memory_bytes : option Z;
  sr_swap_used_bytes : option Z;
  sr_swap_total_bytes : option Z;
  sr_consecutive_soft_samples : Z;
}.

Record ResourceSnapshot : Type := {
  sn_available_percent : Z;
  sn_reclaimable_uncompressed_bytes : Z;
  sn_compressor_occupied_bytes : Z;
  sn_total_memory_bytes : Z;
  sn_swap_used_bytes : Z;
  sn_swap_total_bytes : Z;
}.

Record ResourceObservationSummary : Type := {
  os_baseline : ResourceSnapshot;
  os_last_snapshot : ResourceSnapshot;
  os_sample_count : Z;
  os_minimum_available_percent : Z;
  os_minimum_reclaimable_uncompressed_bytes : Z;
  os_maximum_compressor_occupied_bytes : Z;
  os_maximum_swap_used_bytes : Z;
}.

(** A panic of the code is the [ProbeFault]. *)
Inductive ResourceProbeError : Type :=
  | MalformedOutput
  | ContradictorySnapshot
  | Overflow
  | ProbeCancelled
  | CommandFailed
  | Process (e : ProcessError)
  | WatchdogPanicked
  | WatchdogStatePoisoned
  | ProbeFault (f : fault).

Inductive PreStartDecision : Type := Admit | Deny.

Inductive WatchdogTripReason : Type := HardPressure | SoftPressure | ProbeFailure.
#[global] Instance WatchdogTripReason_eq_dec : EqDecision WatchdogTripReason.
Proof. solve_decision. Defined.

Inductive WatchdogDecision : Type := Continue | Tripped (reason : WatchdogTripReason).

Record WatchdogState : Type := {
  ws_consecutive_soft_samples : Z;
  ws_first_trip : option WatchdogTripReason;
  ws_swap_window : list Z;
}.

Inductive ResourceCommand : Type := MemoryPressure | VmStat | MemSize | SwapUsage.

(** * Observation *)

Definition new_observation (baseline : ResourceSnapshot) : ResourceObservationSummary :=
  {| os_baseline := baseline; os_last_snapshot := baseline; os_sample_count := 1;
     os_minimum_available_percent := sn_available_percent baseline;
     os_minimum_reclaimable_uncompressed_bytes := sn_reclaimable_uncompressed_bytes baseline;
     os_maximum_compressor_occupied_bytes := sn_compressor_occupied_bytes baseline;
     os_maximum_swap_used_bytes := sn_swap_used_bytes baseline |}.

Definition record_snapshot (o : ResourceObservationSummary) (s : ResourceSnapshot) :
    ResourceObservationSummary :=
  {| os_baseline := os_baseline o; os_last_snapshot := s;
     os_sample_count := saturating_u64 (os_sample_count o + 1);
     os_minimum_available_percent := os_minimum_available_percent o `min` sn_available_percent s;
     os_minimum_reclaimable_uncompressed_bytes :=
       os_minimum_reclaimable_uncompressed_bytes o `min` sn_reclaimable_uncompressed_bytes s;
     os_maximum_compressor_occupied_bytes :=
       os_maximum_compressor_occupied_bytes o `max` sn_compressor_occupied_bytes s;
     os_maximum_swap_used_bytes := os_maximum_swap_used_bytes o `max` sn_swap_used_bytes s |}.

(** * Snapshots *)

Definition ratio_at_least (value total percent : Z) : bool :=
  wrap_u128 (value * 100) >=? wrap_u128 (total * percent).

Definition validate_snapshot (s : ResourceSnapshot) : result ResourceProbeError () :=
  ensure (negb ((sn_available_percent s >? MAX_PERCENT)
                || (sn_total_memory_bytes s =? 0)
                || (sn_reclaimable_uncompressed_bytes s >? sn_total_memory_bytes s)
                || (sn_compressor_occupied_bytes s >? sn_total_memory_bytes s)
                || (sn_swap_used_bytes s >? sn_swap_total_bytes s))) ContradictorySnapshot.

Definition compressor_percent_at_least (s : ResourceSnapshot) (percent : Z) : bool :=
  ratio_at_least (sn_compressor_occupied_bytes s) (sn_total_memory_bytes s) percent.

Definition has_hard_compound_compression (s : ResourceSnapshot) : bool :=
  compressor_percent_at_least s HARD_COMPRESSOR_PERCENT
  && ((sn_available_percent s <=? HARD_COMPRESSOR_COMPANION_AVAILABLE_PERCENT)
      || (sn_reclaimable_uncompressed_bytes s <? SOFT_RECLAIMABLE_BYTES)
      || (sn_swap_used_bytes s >=? SOFT_SWAP_BYTES)).

Definition evaluate_pre_start (s : ResourceSnapshot) : result ResourceProbeError PreStartDecision :=
  _ ← validate_snapshot s;
  Ok (if (sn_available_percent s >=? MIN_PRESTART_AVAILABLE_PERCENT)
         && (sn_reclaimable_uncompressed_bytes s >=? MIN_PRESTART_FREE_BYTES)
         && negb (has_hard_compound_compression s)
      then Admit else Deny).

(** * Status *)

Definition status_with_capability (platform : string) (capability : ResourceCapability) :
    ResourceStatusV1 :=
  {| sr_schema_version := RESOURCE_SCHEMA_VERSION; sr_policy_version := MACOS_POLICY_VERSION;
     sr_platform := platform; sr_capability := capability; sr_decision := ResourceUnknown;
     sr_available_percent := None; sr_reclaimable_uncompressed_bytes := None;
     sr_compressor_occupied_bytes := None; sr_total_memory_bytes := None;
     sr_swap_used_bytes := None; sr_swap_total_bytes := None; sr_consecutive_soft_samples := 0 |}.

Definition unsupported_status (platform : string) : ResourceStatusV1 :=
  status_with_capability platform UnsupportedNotEnforced.
Definition unknown_status (platform : string) : ResourceStatusV1 :=
  status_with_capability platform SupportedEnforced.

Definition status_from_snapshot (s : ResourceSnapshot) : result ResourceProbeError ResourceStatusV1 :=
  _ ← validate_snapshot s;
  decision ← evaluate_pre_start s;
  Ok {| sr_schema_version := RESOURCE_SCHEMA_VERSION; sr_policy_version := MACOS_POLICY_VERSION;
        sr_platform := "macos"; sr_capability := SupportedEnforced;
        sr_decision := match decision with Admit => ResourceAdmit | Deny => ResourceDeny end;
        sr_available_percent := Some (sn_available_percent s);
        sr_reclaimable_uncompressed_bytes := Some (sn_reclaimable_uncompressed_bytes s);
        sr_compressor_occupied_bytes := Some (sn_compressor_occupied_bytes s);
        sr_total_memory_bytes := Some (sn_total_memory_bytes s);
        sr_swap_used_bytes := Some (sn_swap_used_bytes s);
        sr_swap_total_bytes := Some (sn_swap_total_bytes s); sr_consecutive_soft_samples := 0 |}.

(** * The watchdog's state *)

Definition WatchdogState_default : WatchdogState :=
  {| ws_consecutive_soft_samples := 0; ws_first_trip := None; ws_swap_window := [] |}.

Definition hard_pressure (s : ResourceSnapshot) : bool :=
  (sn_available_percent s <=? HARD_AVAILABLE_PERCENT)
  || (sn_reclaimable_uncompressed_bytes s <? HARD_RECLAIMABLE_BYTES)
  || has_hard_compound_compression s.

Definition soft_signals (s : ResourceSnapshot) (swap_growth : bool) : Z :=
  Z.b2z (sn_available_percent s <? SOFT_AVAILABLE_PERCENT)
  + Z.b2z (sn_reclaimable_uncompressed_bytes s <? SOFT_RECLAIMABLE_BYTES)
  + Z.b2z (compressor_percent_at_least s SOFT_COMPRESSOR_PERCENT)
  + Z.b2z (sn_swap_used_bytes s >=? SOFT_SWAP_BYTES)
  + Z.b2z swap_growth.

(** [push_back], then [pop_front] when there are too many. *)
Definition push_window (window : list Z) (swap_used : Z) : list Z :=
  let window := window ++ [swap_used] in
  if (SOFT_TREND_WINDOW_SAMPLES <? length window)%nat then tail window else window.

Definition growth_of (window : list Z) (swap_used : Z) : result ResourceProbeError bool :=
  if (length window =? SOFT_TREND_WINDOW_SAMPLES)%nat then
    front ← ok_or (head window) (ProbeFault Panic);
    Ok (saturating_u64 (swap_used - front) >=? SOFT_SWAP_GROWTH_BYTES)
  else Ok false.

Definition observe (st : WatchdogState) (s : ResourceSnapshot) :
    result ResourceProbeError (WatchdogDecision * WatchdogState) :=
  _ ← validate_snapshot s;
  match ws_first_trip st with
  | Some reason => Ok (Tripped reason, st)
  | None =>
    let window := push_window (ws_swap_window st) (sn_swap_used_bytes s) in
    swap_growth ← growth_of window (sn_swap_used_bytes s);
    let trip reason consecutive :=
      (Tripped reason, {| ws_consecutive_soft_samples := consecutive; ws_first_trip := Some reason;
                          ws_swap_window := window |}) in
    if hard_pressure s then Ok (trip HardPressure (ws_consecutive_soft_samples st)) else
    if soft_signals s swap_growth >=? SOFT_REQUIRED_SIGNALS then
      let consecutive := saturating_u8 (ws_consecutive_soft_samples st + 1) in
      if consecutive >=? SOFT_CONSECUTIVE_SAMPLES then Ok (trip SoftPressure consecutive)
      else Ok (Continue, {| ws_consecutive_soft_samples := consecutive; ws_first_trip := None;
                            ws_swap_window := window |})
    else Ok (Continue, {| ws_consecutive_soft_samples := 0; ws_first_trip := None;
                          ws_swap_window := window |})
  end.

(** * The probe *)

Definition program (c : ResourceCommand) : string :=
  match c with
  | MemoryPressure => "/usr/bin/memory_pressure"
  | VmStat => "/usr/bin/vm_stat"
  | MemSize | SwapUsage => "/usr/sbin/sysctl"
  end.

Definition argv (c : ResourceCommand) : list string :=
  match c with
  | MemoryPressure => ["-Q"]
  | VmStat => []
  | MemSize => ["-n"; "hw.memsize"]
  | SwapUsage => ["vm.swapusage"]
  end.

Definition memory_pressure_step (found : option Z) (line : string) :
    result ResourceProbeError (option Z) :=
  match strip_prefix "System-wide memory free percentage:" line with
  | None => Ok found
  | Some value =>
    _ ← ensure (negb (is_Some_b found)) MalformedOutput;
    number ← ok_or (strip_suffix "%" (trim value)) MalformedOutput;
    percent ← ok_or (parse_unsigned u8_max number) MalformedOutput;
    _ ← ensure (negb (percent >? MAX_PERCENT)) MalformedOutput;
    Ok (Some percent)
  end.

Definition parse_memory_pressure (input : list ascii) : result ResourceProbeError Z :=
  text ← ok_or (from_utf8 input) MalformedOutput;
  found ← try_fold memory_pressure_step None (lines text);
  ok_or found MalformedOutput.

Definition parse_page_count (value : string) : result ResourceProbeError Z :=
  digits ← ok_or (strip_suffix "." value) MalformedOutput;
  _ ← ensure (negb (is_empty digits || negb (all_bytes is_ascii_digit digits))) MalformedOutput;
  ok_or (parse_unsigned u64_max digits) MalformedOutput.

(** The slots [free], [speculative], [inactive] and [compressor]. *)
Record page_slots : Type := {
  ps_free : option Z;
  ps_speculative : option Z;
  ps_inactive : option Z;
  ps_compressor : option Z;
}.

(** A slot is filled once. *)
Definition fill_slot (slot : option Z) (value : string) : result ResourceProbeError (option Z) :=
  _ ← ensure (negb (is_Some_b slot)) MalformedOutput;
  count ← parse_page_count (trim value);
  Ok (Some count).

Definition vm_stat_step (p : page_slots) (line : string) : result ResourceProbeError page_slots :=
  match split_once ":" line with
  | None => Ok p
  | Some (key, value) =>
    if (key =? "Pages free")%string then
      slot ← fill_slot (ps_free p) value;
      Ok {| ps_free := slot; ps_speculative := ps_speculative p; ps_inactive := ps_inactive p;
            ps_compressor := ps_compressor p |}
    else if (key =? "Pages speculative")%string then
      slot ← fill_slot (ps_speculative p) value;
      Ok {| ps_free := ps_free p; ps_speculative := slot; ps_inactive := ps_inactive p;
            ps_compressor := ps_compressor p |}
    else if (key =? "Pages inactive")%string then
      slot ← fill_slot (ps_inactive p) value;
      Ok {| ps_free := ps_free p; ps_speculative := ps_speculative p; ps_inactive := slot;
            ps_compressor := ps_compressor p |}
    else if (key =? "Pages occupied by compressor")%string then
      slot ← fill_slot (ps_compressor p) value;
      Ok {| ps_free := ps_free p; ps_speculative := ps_speculative p; ps_inactive := ps_inactive p;
            ps_compressor := slot |}
    else Ok p
  end.

Definition page_size_of (header : string) : option Z :=
  value ← match strip_prefix "Mach Virtual Memory Statistics: (page size of " header with
          | Some value => Some value
          | None => strip_prefix "Mach Virtual Memory Statistics: (page size: " header
          end;
  number ← strip_suffix " bytes)" value;
  parse_unsigned u64_max number.

(** The page size, then the free, speculative, inactive and compressor pages. *)
Definition parse_vm_stat (input : list ascii) : result ResourceProbeError (Z * Z * Z * Z * Z) :=
  text ← ok_or (from_utf8 input) MalformedOutput;
  header ← ok_or (head (lines text)) MalformedOutput;
  page_size ← ok_or (page_size_of header) MalformedOutput;
  _ ← ensure (negb (page_size =? 0)) MalformedOutput;
  p ← try_fold vm_stat_step
    {| ps_free := None; ps_speculative := None; ps_inactive := None; ps_compressor := None |}
    (tail (lines text));
  free ← ok_or (ps_free p) MalformedOutput;
  speculative ← ok_or (ps_speculative p) MalformedOutput;
  inactive ← ok_or (ps_inactive p) MalformedOutput;
  compressor ← ok_or (ps_compressor p) MalformedOutput;
  Ok (page_size, free, speculative, inactive, compressor).

Definition parse_memsize (input : list ascii) : result ResourceProbeError Z :=
  text ← ok_or (from_utf8 input) MalformedOutput;
  let text := trim text in
  _ ← ensure (negb (is_empty text || negb (all_bytes is_ascii_digit text))) MalformedOutput;
  value ← ok_or (parse_unsigned u64_max text) MalformedOutput;
  _ ← ensure (negb (value =? 0)) MalformedOutput;
  Ok value.

Definition unit_multiplier (unit : string) : option Z :=
  if (unit =? "B")%string then Some 1
  else if (unit =? "K")%string then Some (Z.shiftl 1 10)
  else if (unit =? "M")%string then Some (Z.shiftl 1 20)
  else if (unit =? "G")%string then Some (Z.shiftl 1 30)
  else if (unit =? "T")%string then Some (Z.shiftl 1 40)
  else None.

Definition parse_size (value : string) : result ResourceProbeError Z :=
  '(number, unit) ← ok_or (split_at (pred (String.length value)) value) (ProbeFault Panic);
  multiplier ← ok_or (unit_multiplier unit) MalformedOutput;
  '(whole, fraction) ← ok_or (split_once "." number) MalformedOutput;
  _ ← ensure (negb (is_empty whole || is_empty fraction || (len fraction >? 2)
                    || negb (all_bytes is_ascii_digit whole)
                    || negb (all_bytes is_ascii_digit fraction))) MalformedOutput;
  let scale := 10 ^ len fraction in
  whole ← ok_or (parse_unsigned u64_max whole) MalformedOutput;
  numerator ← ok_or (scaled ← checked_u128 (whole * scale);
                     fraction ← parse_unsigned u64_max fraction;
                     checked_u128 (scaled + fraction)) Overflow;
  product ← ok_or (checked_u128 (numerator * multiplier)) Overflow;
  ok_or (checked_u64 (product / scale)) Overflow.

Definition token (tokens : list string) (i : nat) : string := default "" (tokens !! i).

(** The total and the used bytes. *)
Definition parse_swap_usage (input : list ascii) : result ResourceProbeError (Z * Z) :=
  text ← ok_or (from_utf8 input) MalformedOutput;
  rest ← ok_or (strip_prefix "vm.swapusage:" text) MalformedOutput;
  _ ← ensure (match bytes rest with b :: _ => is_ascii_whitespace b | [] => false end) MalformedOutput;
  let tokens := split_whitespace rest in
  _ ← ensure ((length tokens =? 9)%nat || (length tokens =? 10)%nat) MalformedOutput;
  _ ← ensure ((token tokens 0 =? "total")%string && (token tokens 1 =? "=")%string
              && (token tokens 3 =? "used")%string && (token tokens 4 =? "=")%string
              && (token tokens 6 =? "free")%string && (token tokens 7 =? "=")%string
              && negb ((length tokens =? 10)%nat && negb (token tokens 9 =? "(encrypted)")%string))
        MalformedOutput;
  total ← parse_size (token tokens 2);
  used ← parse_size (token tokens 5);
  free ← parse_size (token tokens 8);
  sum ← ok_or (checked_u64 (used + free)) Overflow;
  _ ← ensure (negb (Z.abs (sum - total) >? 1)) ContradictorySnapshot;
  Ok (total, used).

Definition pages_to_bytes (pages page_size : Z) : result ResourceProbeError Z :=
  ok_or (checked_u64 (pages * page_size)) Overflow.

(** [run] is the [ResourceCommandRunner]. *)
Definition sample (run : ResourceCommand → result ResourceProbeError (list ascii)) :
    result ResourceProbeError ResourceSnapshot :=
  memory_pressure ← run MemoryPressure;
  vm_stat ← run VmStat;
  memsize ← run MemSize;
  swap_usage ← run SwapUsage;
  available_percent ← parse_memory_pressure memory_pressure;
  '(page_size, free_pages, speculative_pages, inactive_pages, compressor_pages) ← parse_vm_stat vm_stat;
  total_memory_bytes ← parse_memsize memsize;
  '(swap_total_bytes, swap_used_bytes) ← parse_swap_usage swap_usage;
  reclaimable_pages ← ok_or (pages ← checked_u64 (free_pages + speculative_pages);
                             checked_u64 (pages + inactive_pages)) Overflow;
  reclaimable_uncompressed_bytes ← pages_to_bytes reclaimable_pages page_size;
  compressor_occupied_bytes ← pages_to_bytes compressor_pages page_size;
  let snapshot := {| sn_available_percent := available_percent;
                     sn_reclaimable_uncompressed_bytes := reclaimable_uncompressed_bytes;
                     sn_compressor_occupied_bytes := compressor_occupied_bytes;
                     sn_total_memory_bytes := total_memory_bytes;
                     sn_swap_used_bytes := swap_used_bytes;
                     sn_swap_total_bytes := swap_total_bytes |} in
  _ ← validate_snapshot snapshot;
  Ok snapshot.

(** [SupervisorResourceRunner::run], given what the supervisor returned and the
    reason of the cancellation token afterwards. *)
Definition supervised_output (executed : result ProcessError ProcessResult)
    (reason : option CancellationReason) : result ResourceProbeError (list ascii) :=
  r ← map_err Process executed;
  _ ← ensure (negb (bool_decide (pr_termination r = Cancelled) && bool_decide (reason = Some User)))
        ProbeCancelled;
  _ ← ensure (bool_decide (pr_termination r = Completed)) CommandFailed;
  _ ← ensure (negb (negb (bool_decide (pr_cleanup r = Verified))
                    || negb (bool_decide (xo_success <$> pr_exit r = Some true))
                    || cs_truncated (pr_stdout r) || cs_truncated (pr_stderr r))) CommandFailed;
  Ok (cs_bytes (pr_stdout r)).

(** * The watchdog's loop *)

(** What one turn of the thread sees: the stop flag before and after the sleep,
    the reason of the cancellation token and the sample. *)
Record Turn : Type := {
  tn_stop : bool;
  tn_stop_after_sleep : bool;
  tn_reason : option CancellationReason;
  tn_sample : result ResourceProbeError ResourceSnapshot;
}.

(** The thread goes on, has left the loop (with the trip it stored; a trip also
    cancels the run for resource pressure), or has panicked. *)
Inductive WatchdogThread : Type :=
  | Watching (st : WatchdogState) (observation : option ResourceObservationSummary)
  | Left_loop (trip : option WatchdogTripReason) (cancelled : bool)
      (observation : option ResourceObservationSummary)
  | Panicked.

Definition watchdog_turn (st : WatchdogState) (observation : option ResourceObservationSummary)
    (t : Turn) : WatchdogThread :=
  if tn_stop t then Left_loop None false observation else
  if tn_stop_after_sleep t then Left_loop None false observation else
  if bool_decide (tn_reason t = Some User) then Left_loop None false observation else
  let '(observation, decision) :=
    match tn_sample t with
    | Ok snapshot => ((λ o, record_snapshot o snapshot) <$> observation, observe st snapshot)
    | Err ProbeCancelled => (observation, Ok (Continue, st))
    | Err (ProbeFault f) => (observation, Err (ProbeFault f))
    | Err _ => (observation, Ok (Tripped ProbeFailure, st))
    end in
  match decision with
  | Ok (Continue, st) => Watching st observation
  | Ok (Tripped reason, _) => Left_loop (Some reason) true observation
  | Err _ => Panicked
  end.

Fixpoint watchdog_loop (st : WatchdogState) (observation : option ResourceObservationSummary)
    (turns : list Turn) : WatchdogThread :=
  match turns with
  | [] => Watching st observation
  | t :: turns =>
    match watchdog_turn st observation t with
    | Watching st observation => watchdog_loop st observation turns
    | thread => thread
    end
  end.

(** [stop_and_join]: the thread that still watches leaves at its next turn. *)
Definition stop_and_join (thread : WatchdogThread) :
    result ResourceProbeError (option WatchdogTripReason) :=
  match thread with
  | Panicked => Err WatchdogPanicked
  | Left_loop trip _ _ => Ok trip
  | Watching _ _ => Ok None
  end.
