(* ===== verification/ResourceProps.v ===== *)
(** Properties of the resource guard ([Resource.v]): what a valid snapshot is, that
    the probe returns only valid snapshots, the numbers its parsers read, and that
    the state of the watchdog implements a policy stated on the whole history. *)
From S2P Require Import Prelude.
From S2P Require Import RustStr.
From S2P Require Import Durable.
From S2P Require Import Resource.
Local Open Scope Z_scope.

(** * Snapshots *)

Definition u8 (z : Z) : Prop := 0 ≤ z ≤ u8_max.

(** The fields are within their types and do not contradict each other. *)
Record snapshot_ok (s : ResourceSnapshot) : Prop := {
  so_percent : 0 ≤ sn_available_percent s ≤ 100;
  so_total : 0 < sn_total_memory_bytes s ≤ u64_max;
  so_reclaimable : 0 ≤ sn_reclaimable_uncompressed_bytes s ≤ sn_total_memory_bytes s;
  so_compressor : 0 ≤ sn_compressor_occupied_bytes s ≤ sn_total_memory_bytes s;
  so_swap : 0 ≤ sn_swap_used_bytes s ≤ sn_swap_total_bytes s;
  so_swap_total : sn_swap_total_bytes s ≤ u64_max;
}.

Lemma snapshot_ok_valid s : snapshot_ok s → validate_snapshot s = Ok ().
Proof.
  intros []. apply ensure_ok, negb_true_iff. unfold MAX_PERCENT. rewrite !Z.gtb_ltb.
  rewrite !orb_false_iff, !Z.ltb_ge, Z.eqb_neq. lia.
Qed.

(** The products of [ratio_at_least] do not wrap. *)
Lemma ratio_at_least_exact value total percent :
  u64 value → u64 total → u8 percent →
  ratio_at_least value total percent = (total * percent <=? value * 100).
Proof.
  unfold u64, u8, u8_max, u64_max, ratio_at_least, wrap_u128. intros Hv Ht Hp.
  rewrite !Z.mod_small by nia. by rewrite Z.geb_leb.
Qed.

(** * The policy of the watchdog, on the history of its samples *)

Definition policy_compressed (s : ResourceSnapshot) (percent : Z) : bool :=
  sn_total_memory_bytes s * percent <=? sn_compressor_occupied_bytes s * 100.

Definition policy_hard (s : ResourceSnapshot) : bool :=
  (sn_available_percent s <=? 3) || (sn_reclaimable_uncompressed_bytes s <? 512 * 2 ^ 20)
  || (policy_compressed s 70
      && ((sn_available_percent s <=? 8) || (sn_reclaimable_uncompressed_bytes s <? 1536 * 2 ^ 20)
          || (4 * 2 ^ 30 <=? sn_swap_used_bytes s))).

(** Swap grew by a gibibyte since the sample fifteen turns earlier. *)
Definition policy_growth (l : list ResourceSnapshot) (i : nat) : bool :=
  match l !! i, l !! (i - 15)%nat with
  | Some s, Some old =>
    (15 <=? i)%nat && (2 ^ 30 <=? sn_swap_used_bytes s - sn_swap_used_bytes old)
  | _, _ => false
  end.

(** At least two of the five signals. *)
Definition policy_soft (l : list ResourceSnapshot) (i : nat) : bool :=
  match l !! i with
  | None => false
  | Some s =>
    Nat.leb 2 (length (filter (λ b, b = true)
       [sn_available_percent s <? 10; sn_reclaimable_uncompressed_bytes s <? 1536 * 2 ^ 20;
        policy_compressed s 55; 4 * 2 ^ 30 <=? sn_swap_used_bytes s; policy_growth l i]))
  end.

(** Sample [i] trips: hard pressure at once, soft pressure when it and the fourteen
    samples before it are soft. *)
Definition policy_trip (l : list ResourceSnapshot) (i : nat) : option WatchdogTripReason :=
  match l !! i with
  | None => None
  | Some s =>
    if policy_hard s then Some HardPressure
    else if (14 <=? i)%nat && forallb (policy_soft l) (seq (i - 14) 15) then Some SoftPressure
    else None
  end.

(** The first trip of a history. *)
Definition first_trip (l : list ResourceSnapshot) : option WatchdogTripReason :=
  head (omap (policy_trip l) (seq 0 (length l))).

Lemma policy_soft_app l m i : (i < length l)%nat → policy_soft (l ++ m) i = policy_soft l i.
Proof.
  intros Hi. unfold policy_soft, policy_growth. by rewrite !lookup_app_l by lia.
Qed.

Lemma forallb_seq (f : nat → bool) a n :
  forallb f (seq a n) = true ↔ ∀ i, (a ≤ i < a + n)%nat → f i = true.
Proof.
  rewrite forallb_Forall, Forall_forall. split; intros H i Hi; apply H; by apply elem_of_seq.
Qed.

Lemma policy_trip_app l m i : (i < length l)%nat → policy_trip (l ++ m) i = policy_trip l i.
Proof.
  intros Hi. unfold policy_trip. rewrite lookup_app_l by lia. destruct (l !! i); [|done].
  destruct (policy_hard _); [done|]. destruct (14 <=? i)%nat eqn:E; [|done]. cbn [andb]. bool_prop.
  assert (Heq : forallb (policy_soft (l ++ m)) (seq (i - 14) 15) = forallb (policy_soft l) (seq (i - 14) 15)).
  { apply eq_true_iff_eq. rewrite !forallb_seq.
    split; intros H j Hj; specialize (H j Hj); by rewrite policy_soft_app in * by lia. }
  by rewrite Heq.
Qed.

Lemma first_trip_snoc l s :
  first_trip (l ++ [s]) = match first_trip l with
                          | Some r => Some r
                          | None => policy_trip (l ++ [s]) (length l)
                          end.
Proof.
  unfold first_trip. rewrite length_app, seq_app, omap_app. cbn [length seq].
  replace (omap (policy_trip (l ++ [s])) (seq 0 (length l)))
    with (omap (policy_trip l) (seq 0 (length l))).
  2: { assert (Hl : Forall (λ i, i < length l)%nat (seq 0 (length l)))
         by (apply Forall_forall; intros i Hi%elem_of_seq; lia).
       induction Hl as [|i js Hi _ IH]; cbn; [done|]. by rewrite policy_trip_app, IH. }
  destruct (omap (policy_trip l) (seq 0 (length l))) as [|r rs]; cbn; [|done].
  by destruct (policy_trip _ _).
Qed.

Lemma first_trip_prefix l m : first_trip (l ++ m) = None → first_trip l = None.
Proof.
  induction m as [|s m IH] using rev_ind; [by rewrite app_nil_r|].
  rewrite app_assoc, first_trip_snoc. by destruct (first_trip (l ++ m)); [|intros _; apply IH].
Qed.

(** * The state of the watchdog *)

Definition swaps (l : list ResourceSnapshot) : list Z := sn_swap_used_bytes <$> l.

(** The last sixteen values of a history. *)
Definition window (l : list ResourceSnapshot) : list Z := drop (length l - 16) (swaps l).

Lemma push_window_snoc l s : push_window (window l) (sn_swap_used_bytes s) = window (l ++ [s]).
Proof.
  unfold push_window, window, swaps. rewrite length_app, length_drop, length_fmap, fmap_app.
  rewrite length_app. cbn [length fmap list_fmap]. unfold SOFT_TREND_WINDOW_SAMPLES.
  assert (Hd : drop (length l - 16) (sn_swap_used_bytes <$> l) ++ [sn_swap_used_bytes s]
               = drop (length l - 16) ((sn_swap_used_bytes <$> l) ++ [sn_swap_used_bytes s]))
    by (rewrite drop_app_le; [done|rewrite length_fmap; lia]).
  rewrite Hd. destruct (_ <? _)%nat eqn:E; bool_prop.
  - replace (length l + 1 - 16)%nat with (S (length l - 16)) by lia.
    generalize ((sn_swap_used_bytes <$> l) ++ [sn_swap_used_bytes s]). clear.
    induction (length l - 16)%nat as [|n IH]; intros zs; destruct zs as [|z zs]; try done. apply IH.
  - by replace (length l + 1 - 16)%nat with (length l - 16)%nat by lia.
Qed.

Lemma growth_of_window l s :
  snapshot_ok s →
  growth_of (window (l ++ [s])) (sn_swap_used_bytes s) = Ok (policy_growth (l ++ [s]) (length l)).
Proof.
  intros Hs. unfold growth_of, policy_growth. rewrite list_lookup_middle by done.
  assert (Hlen : length (window (l ++ [s])) = Nat.min (length l + 1) 16).
  { unfold window, swaps. rewrite length_drop, length_fmap, length_app. cbn [length]. lia. }
  rewrite Hlen. unfold SOFT_TREND_WINDOW_SAMPLES. destruct (15 <=? length l)%nat eqn:E; bool_prop.
  - rewrite (proj2 (Nat.eqb_eq _ _)) by lia. unfold window, swaps.
    rewrite head_lookup, lookup_drop, length_app, list_lookup_fmap. cbn [length].
    replace (length l + 1 - 16 + 0)%nat with (length l - 15)%nat by lia.
    destruct ((l ++ [s]) !! (length l - 15)%nat) as [old|] eqn:Ho.
    + cbn. f_equal. unfold saturating_u64, SOFT_SWAP_GROWTH_BYTES, u64_max. rewrite Z.geb_leb.
      pose proof (so_swap _ Hs). pose proof (so_swap_total _ Hs). unfold u64_max in *.
      apply eq_true_iff_eq. rewrite !Z.leb_le. lia.
    + apply lookup_ge_None in Ho. rewrite length_app in Ho. cbn in Ho. lia.
  - rewrite (proj2 (Nat.eqb_neq _ _)) by lia. by destruct (_ !! _).
Qed.

Lemma compressor_policy s percent :
  snapshot_ok s → 0 ≤ percent ≤ 100 →
  compressor_percent_at_least s percent = policy_compressed s percent.
Proof.
  intros [] Hp. unfold compressor_percent_at_least.
  rewrite ratio_at_least_exact; [done|..]; unfold u64, u8, u8_max in *; lia.
Qed.

Lemma hard_pressure_policy s : snapshot_ok s → hard_pressure s = policy_hard s.
Proof.
  intros Hs. unfold hard_pressure, has_hard_compound_compression, policy_hard.
  by rewrite compressor_policy, Z.geb_leb.
Qed.

Lemma soft_signals_policy l s :
  snapshot_ok s →
  (soft_signals s (policy_growth (l ++ [s]) (length l)) >=? SOFT_REQUIRED_SIGNALS)
  = policy_soft (l ++ [s]) (length l).
Proof.
  intros Hs. unfold soft_signals, policy_soft.
  rewrite compressor_policy, list_lookup_middle by done. rewrite (Z.geb_leb (sn_swap_used_bytes s)).
  unfold SOFT_AVAILABLE_PERCENT, SOFT_RECLAIMABLE_BYTES, SOFT_COMPRESSOR_PERCENT,
    SOFT_SWAP_BYTES, SOFT_REQUIRED_SIGNALS.
  change (1536 * 1024 * 1024) with (1536 * 2 ^ 20). change (4 * 1024 * 1024 * 1024) with (4 * 2 ^ 30).
  generalize (policy_growth (l ++ [s]) (length l)). generalize (4 * 2 ^ 30 <=? sn_swap_used_bytes s).
  generalize (sn_reclaimable_uncompressed_bytes s <? 1536 * 2 ^ 20).
  generalize (sn_available_percent s <? 10).
  generalize (policy_compressed s 55).
  intros b1 b2 b3 b4 b5. by destruct b1, b2, b3, b4, b5.
Qed.

(** The last [c] samples are soft and the one before them is not. *)
Record soft_tail (l : list ResourceSnapshot) (c : nat) : Prop := {
  st_bound : (c ≤ 14)%nat;
  st_length : (c ≤ length l)%nat;
  st_soft : ∀ i, (length l - c ≤ i < length l)%nat → policy_soft l i = true;
  st_max : c = length l ∨ policy_soft l (length l - c - 1) = false;
}.

Lemma soft_tail_next l s c :
  soft_tail l c → c ≠ 14%nat → policy_soft (l ++ [s]) (length l) = true → soft_tail (l ++ [s]) (S c).
Proof.
  intros [Hb Hl Hsoft Hmax] Hc Hs. constructor; try (rewrite length_app; cbn [length]); try lia.
  - intros i Hi. destruct (decide (i = length l)) as [->|Hne]; [done|].
    rewrite policy_soft_app by lia. apply Hsoft. lia.
  - destruct (decide (c = length l)) as [->|Hne]; [left; lia|right].
    destruct Hmax as [|Hmax]; [done|]. rewrite policy_soft_app by lia.
    by replace (length l + 1 - S c - 1)%nat with (length l - c - 1)%nat by lia.
Qed.

Lemma soft_tail_reset l s : policy_soft (l ++ [s]) (length l) = false → soft_tail (l ++ [s]) 0.
Proof.
  intros Hs. constructor; try (rewrite length_app; cbn [length]); try lia. right.
  by replace (length l + 1 - 0 - 1)%nat with (length l) by lia.
Qed.

(** A soft sample that does not press hard trips when it is the fifteenth. *)
Lemma soft_tail_trip l s c :
  soft_tail l c → policy_hard s = false → policy_soft (l ++ [s]) (length l) = true →
  policy_trip (l ++ [s]) (length l) = if (c =? 14)%nat then Some SoftPressure else None.
Proof.
  intros [Hc Hl Hsoft Hmax] Hhard Hs. unfold policy_trip. rewrite list_lookup_middle, Hhard by done.
  assert (Heq : (14 <=? length l)%nat && forallb (policy_soft (l ++ [s])) (seq (length l - 14) 15)
                = (c =? 14)%nat); [|by rewrite Heq].
  destruct (c =? 14)%nat eqn:E; bool_prop.
  - subst c. apply andb_true_iff. split; [by apply Nat.leb_le|]. apply forallb_seq. intros i Hi.
    destruct (decide (i = length l)) as [->|Hne]; [done|].
    rewrite policy_soft_app by lia. apply Hsoft. lia.
  - apply not_true_iff_false. rewrite andb_true_iff, Nat.leb_le, forallb_seq. intros [Hlen Hall].
    destruct Hmax as [->|Hmax]; [lia|].
    specialize (Hall (length l - c - 1)%nat ltac:(lia)). rewrite policy_soft_app in Hall by lia. congruence.
Qed.

Lemma not_soft_trip l s :
  policy_hard s = false → policy_soft (l ++ [s]) (length l) = false →
  policy_trip (l ++ [s]) (length l) = None.
Proof.
  intros Hhard Hs. unfold policy_trip. rewrite list_lookup_middle, Hhard by done.
  destruct (14 <=? length l)%nat eqn:E; [|done]. cbn [andb]. destruct (forallb _ _) eqn:Hall; [|done].
  bool_prop. rewrite (proj1 (forallb_seq _ _ _) Hall) in Hs by lia. done.
Qed.

(** How the state stands after a history. *)
Record watch_inv (l : list ResourceSnapshot) (st : WatchdogState) : Prop := {
  wi_trip : ws_first_trip st = first_trip l;
  wi_window : first_trip l = None → ws_swap_window st = window l;
  wi_count : first_trip l = None → ∃ c : nat,
    ws_consecutive_soft_samples st = Z.of_nat c ∧ soft_tail l c;
}.

Lemma watch_inv_default : watch_inv [] WatchdogState_default.
Proof.
  constructor; [done..|]. intros _. exists 0%nat. split; [done|].
  constructor; [lia|cbn; lia|cbn; lia|by left].
Qed.

Definition decision_of (trip : option WatchdogTripReason) : WatchdogDecision :=
  match trip with Some reason => Tripped reason | None => Continue end.

(** One observation: the decision is that of the policy. *)
Lemma observe_policy l st s :
  watch_inv l st → snapshot_ok s →
  ∃ st', observe st s = Ok (decision_of (first_trip (l ++ [s])), st') ∧ watch_inv (l ++ [s]) st'.
Proof.
  intros [Htrip Hwin Hcount] Hs. unfold observe. rewrite (snapshot_ok_valid _ Hs).
  cbn [mbind result_bind]. rewrite Htrip.
  assert (Hnext := first_trip_snoc l s). destruct (first_trip l) as [r|] eqn:Hl.
  { exists st. rewrite Hnext. split; [done|]. by constructor; rewrite Hnext. }
  rewrite (Hwin eq_refl), push_window_snoc, (growth_of_window _ _ Hs). cbn [mbind result_bind].
  rewrite (hard_pressure_policy _ Hs), (soft_signals_policy _ _ Hs).
  destruct (Hcount eq_refl) as (c & Hc & Htail).
  destruct (policy_hard s) eqn:Hhard.
  { unfold policy_trip in Hnext. rewrite list_lookup_middle, Hhard in Hnext by done.
    rewrite Hnext. eexists. split; [done|]. by constructor; cbn; rewrite Hnext. }
  destruct (policy_soft (l ++ [s]) (length l)) eqn:Hps.
  - rewrite (soft_tail_trip _ _ _ Htail Hhard Hps) in Hnext. pose proof (st_bound _ _ Htail) as Hb.
    replace (saturating_u8 (ws_consecutive_soft_samples st + 1)) with (Z.of_nat (S c))
      by (rewrite Hc; unfold saturating_u8, u8_max; lia).
    rewrite Hnext, Z.geb_leb. unfold SOFT_CONSECUTIVE_SAMPLES.
    destruct (c =? 14)%nat eqn:E; bool_prop.
    + rewrite (proj2 (Z.leb_le _ _)) by lia. eexists. split; [done|]. by constructor; cbn; rewrite Hnext.
    + rewrite (proj2 (Z.leb_gt _ _)) by lia. eexists. split; [done|]. constructor; cbn; [done..|].
      intros _. exists (S c). split; [done|by apply soft_tail_next].
  - rewrite (not_soft_trip _ _ Hhard Hps) in Hnext. rewrite Hnext. eexists. split; [done|].
    constructor; cbn; [done..|]. intros _. exists 0%nat. split; [done|by apply soft_tail_reset].
Qed.

(** An observation of a valid sample never fails, whatever the state. *)
Lemma observe_total st s : validate_snapshot s = Ok () → is_ok (observe st s) = true.
Proof.
  intros Hs. unfold observe. rewrite Hs. cbn [mbind result_bind].
  destruct (ws_first_trip st); [done|].
  assert (Hg : ∃ g, growth_of (push_window (ws_swap_window st) (sn_swap_used_bytes s))
                      (sn_swap_used_bytes s) = Ok g).
  { unfold growth_of. destruct (_ =? _)%nat eqn:E; [|eauto]. bool_prop.
    destruct (push_window _ _); [done|cbn; eauto]. }
  destruct Hg as [g ->]. cbn [mbind result_bind]. destruct (hard_pressure s); [done|].
  destruct (_ >=? _); [|done]. by destruct (_ >=? _).
Qed.

(** * The loop of the watchdog *)

(** The thread takes a sample in this turn. *)
Definition quiet (t : Turn) : Prop :=
  tn_stop t = false ∧ tn_stop_after_sleep t = false ∧ tn_reason t ≠ Some User.

(** The sample gives no reason to leave by itself. *)
Definition usable (t : Turn) : Prop :=
  match tn_sample t with Ok _ | Err ProbeCancelled => True | Err _ => False end.

Definition snapshots (turns : list Turn) : list ResourceSnapshot :=
  omap (λ t, to_option (tn_sample t)) turns.

(** The turn at which the thread trips after the history [l]. *)
Definition trips_at (l : list ResourceSnapshot) (t : Turn) (r : WatchdogTripReason) : Prop :=
  match tn_sample t with
  | Ok s => first_trip (l ++ [s]) = Some r
  | Err (ProbeCancelled | ProbeFault _) => False
  | Err _ => r = ProbeFailure
  end.

Definition sample_ok (t : Turn) : Prop := ∀ s, tn_sample t = Ok s → snapshot_ok s.

Lemma watchdog_turn_noisy st o t : ¬ quiet t → watchdog_turn st o t = Left_loop None false o.
Proof.
  unfold quiet, watchdog_turn. intros Hq. destruct (tn_stop t); [done|].
  destruct (tn_stop_after_sleep t); [done|]. case_bool_decide; [done|]. by destruct Hq.
Qed.

Lemma watchdog_turn_quiet st o t :
  quiet t →
  watchdog_turn st o t =
  let '(o, decision) :=
    match tn_sample t with
    | Ok s => ((λ o, record_snapshot o s) <$> o, observe st s)
    | Err ProbeCancelled => (o, Ok (Continue, st))
    | Err (ProbeFault f) => (o, Err (ProbeFault f))
    | Err _ => (o, Ok (Tripped ProbeFailure, st))
    end in
  match decision with
  | Ok (Continue, st) => Watching st o
  | Ok (Tripped reason, _) => Left_loop (Some reason) true o
  | Err _ => Panicked
  end.
Proof. intros (H1 & H2 & H3). unfold watchdog_turn. by rewrite H1, H2, bool_decide_false. Qed.

(** One turn after a history that has not tripped. *)
Lemma watchdog_turn_policy l st o t :
  watch_inv l st → first_trip l = None → sample_ok t →
  match watchdog_turn st o t with
  | Watching st' o' => quiet t ∧ usable t ∧ first_trip (l ++ snapshots [t]) = None ∧
                       watch_inv (l ++ snapshots [t]) st'
  | Left_loop (Some r) c _ => c = true ∧ quiet t ∧ trips_at l t r
  | Left_loop None c _ => c = false ∧ ¬ quiet t
  | Panicked => quiet t ∧ ∃ f, tn_sample t = Err (ProbeFault f)
  end.
Proof.
  intros Hinv Hl Hs. destruct (decide (tn_stop t = false ∧ tn_stop_after_sleep t = false ∧
    tn_reason t ≠ Some User)) as [Hq|Hq]; [|by rewrite watchdog_turn_noisy].
  rewrite watchdog_turn_quiet by done. unfold usable, trips_at, snapshots. cbn [omap list_omap].
  destruct (tn_sample t) as [s|e] eqn:Hsample.
  - destruct (observe_policy _ _ _ Hinv (Hs _ Hsample)) as (st' & -> & Hinv').
    cbn [to_option]. by destruct (first_trip (l ++ [s])) eqn:Ht.
  - destruct e; cbn [to_option]; rewrite ?app_nil_r; eauto.
Qed.

(** The loop leaves with a trip exactly when the turns up to some point are quiet
    and usable, their samples do not trip, and that turn trips. *)
Lemma watchdog_loop_trip turns l st o r :
  Forall sample_ok turns → watch_inv l st → first_trip l = None →
  (∃ c o', watchdog_loop st o turns = Left_loop (Some r) c o') ↔
  ∃ pre t post, turns = pre ++ t :: post ∧ Forall (λ t, quiet t ∧ usable t) pre ∧
    first_trip (l ++ snapshots pre) = None ∧ quiet t ∧ trips_at (l ++ snapshots pre) t r.
Proof.
  intros Hok. revert l st o. induction Hok as [|t turns Ht Hok IH]; intros l st o Hinv Hl.
  { split; [by intros (? & ? & ?)|]. by intros ([] & ? & ? & ? & _). }
  pose proof (watchdog_turn_policy l st o t Hinv Hl Ht) as Hturn. cbn [watchdog_loop].
  destruct (watchdog_turn st o t) as [st' o'|[r'|] c o'|].
  - destruct Hturn as (Hq & Hu & Hl' & Hinv'). rewrite (IH _ _ _ Hinv' Hl').
    assert (Hcons : ∀ pre, l ++ snapshots (t :: pre) = (l ++ snapshots [t]) ++ snapshots pre).
    { intros pre. rewrite <-app_assoc. unfold snapshots. cbn. by destruct (to_option _). }
    split.
    + intros (pre & t' & post & -> & Hpre & Hn & Hq' & Htrip). exists (t :: pre), t', post.
      rewrite Hcons. split; [done|]. split; [by constructor|done].
    + intros ([|t0 pre] & t' & post & [= <- ->] & Hpre & Hn & Hq' & Htrip).
      * exfalso. rewrite app_nil_r in Htrip. revert Hu Hl' Htrip. unfold usable, trips_at, snapshots. cbn.
        destruct (tn_sample t) as [s|[]]; cbn; intros; simplify_eq; done.
      * apply Forall_cons in Hpre as [_ Hpre]. rewrite Hcons in Hn, Htrip.
        exists pre, t', post. by split_and!.
  - destruct Hturn as (-> & Hq & Htrip). split.
    + intros (? & ? & [= -> _]). exists [], t, turns. by rewrite app_nil_r.
    + intros ([|t0 pre] & t' & post & [= <- ->] & Hpre & Hn & Hq' & Htrip').
      * rewrite app_nil_r in Htrip'. assert (r = r') as ->; [|eauto].
        unfold trips_at in *. destruct (tn_sample t) as [s|[]]; simplify_eq; done.
      * exfalso. apply Forall_cons in Hpre as [[_ Hu] _]. revert Hu Hn Htrip.
        unfold usable, trips_at, snapshots. cbn. destruct (tn_sample t) as [s|[]]; cbn; try done.
        intros _ Hn Htrip. rewrite cons_middle, app_assoc in Hn. apply first_trip_prefix in Hn. congruence.
  - destruct Hturn as [-> Hq]. split; [by intros (? & ? & ?)|].
    intros ([|t0 pre] & t' & post & [= <- ->] & Hpre & _ & Hq' & _); [done|].
    by apply Forall_cons in Hpre as [[? _] _].
  - destruct Hturn as (Hq & f & Hf). split; [by intros (? & ? & ?)|].
    intros ([|t0 pre] & t' & post & [= <- ->] & Hpre & _ & Hq' & Htrip).
    + unfold trips_at in Htrip. by rewrite Hf in Htrip.
    + apply Forall_cons in Hpre as [[_ Hu] _]. unfold usable in Hu. by rewrite Hf in Hu.
Qed.

(** A trip is what cancels, and only a sample that panics makes the thread panic. *)
Lemma watchdog_loop_left turns l st o :
  Forall sample_ok turns → watch_inv l st → first_trip l = None →
  match watchdog_loop st o turns with
  | Watching _ _ => True
  | Left_loop trip cancelled _ => cancelled = is_Some_b trip
  | Panicked => ∃ t f, t ∈ turns ∧ tn_sample t = Err (ProbeFault f)
  end.
Proof.
  intros Hok. revert l st o. induction Hok as [|t turns Ht Hok IH]; intros l st o Hinv Hl; [done|].
  pose proof (watchdog_turn_policy l st o t Hinv Hl Ht) as Hturn. cbn [watchdog_loop].
  destruct (watchdog_turn st o t) as [st' o'|[r'|] c o'|]; [|naive_solver..|].
  - destruct Hturn as (_ & _ & Hl' & Hinv'). specialize (IH _ _ o' Hinv' Hl').
    destruct (watchdog_loop st' o' turns); [done..|]. destruct IH as (t' & f & ? & ?).
    exists t', f. split; [by right|done].
  - destruct Hturn as (_ & f & Hf). exists t, f. split; [by left|done].
Qed.

(** * Numbers of the probe *)

Lemma digits_val_nonneg l acc n : 0 ≤ acc → digits_val acc l = Some n → acc ≤ n.
Proof.
  revert acc. induction l as [|a l IH]; intros acc Hacc; cbn; [intros [= <-]; lia|].
  destruct (is_ascii_digit a) eqn:Ha; [|done]. intros H. apply digit_val_bound in Ha.
  apply IH in H; lia.
Qed.

Lemma parse_unsigned_range max s n : parse_unsigned max s = Some n → 0 ≤ n ≤ max.
Proof.
  unfold parse_unsigned. intros H. destruct (match bytes s with [] => [] | _ => _ end) as [|a l]; [done|].
  apply bind_Some in H as (v & Hv & H). destruct (v <=? max) eqn:E; [|done]. injection H as <-.
  apply digits_val_nonneg in Hv; bool_prop; lia.
Qed.

Lemma checked_u64_range z n : checked_u64 z = Some n → 0 ≤ n ≤ u64_max ∧ n = z.
Proof. unfold checked_u64. destruct (_ && _) eqn:E; [|done]. intros [= <-]. bool_prop. lia. Qed.

(** ** Sizes *)

Lemma split_once_list_some c l x y :
  split_once_list c l = Some (x, y) ↔ l = x ++ c :: y ∧ c ∉ x.
Proof.
  revert x y. induction l as [|a l IH]; intros x y; cbn.
  { split; [done|]. by intros [H _]; destruct x. }
  destruct (Ascii.eqb_spec a c) as [->|Hne].
  - split; [intros [= <- <-]; split; [done|apply not_elem_of_nil]|].
    intros [H Hx]. destruct x as [|b x]; injection H as; subst; [done|]. by destruct Hx; left.
  - rewrite bind_Some. split.
    + intros ([x' y'] & H & [= <- <-]). apply IH in H as [-> Hx]. split; [done|].
      by rewrite not_elem_of_cons.
    + intros [H Hx]. destruct x as [|b x]; injection H as; subst; [done|].
      apply not_elem_of_cons in Hx as [_ Hx]. exists (x, y). split; [by apply IH|done].
Qed.

Lemma split_once_dot whole fraction number :
  all_bytes is_ascii_digit whole = true →
  split_once "." number = Some (whole, fraction) ↔ number = whole +:+ "." +:+ fraction.
Proof.
  intros Hd. unfold split_once. rewrite bind_Some. split.
  - intros ([x y] & [Hn _]%split_once_list_some & [= <- <-]). apply bytes_inj.
    by rewrite !bytes_append, !bytes_str.
  - intros ->. exists (bytes whole, bytes fraction). rewrite !str_bytes. split; [|done].
    apply split_once_list_some. rewrite !bytes_append. split; [done|]. intros Hin.
    unfold all_bytes in Hd. rewrite forallb_Forall, Forall_forall in Hd. by apply Hd in Hin.
Qed.

Lemma unit_multiplier_some unit m :
  unit_multiplier unit = Some m → ∃ a, unit = str [a] ∧ code a < 128 ∧ 0 < m ≤ 2 ^ 40.
Proof.
  unfold unit_multiplier. intros H.
  repeat match type of H with context [(unit =? ?u)%string] =>
    destruct (String.eqb_spec unit u) as [->|_] end; try done; injection H as <-;
  (eexists; split; [reflexivity|by vm_compute]).
Qed.

Lemma split_at_last number a :
  split_at (pred (String.length (number +:+ str [a]))) (number +:+ str [a]) =
  if (length (bytes number) =? 0)%nat || negb (in_range 128 191 (code a))
  then Some (number, str [a]) else None.
Proof.
  assert (Hlen : pred (String.length (number +:+ str [a])) = length (bytes number)).
  { rewrite <-length_bytes, bytes_append, bytes_str, length_app. cbn. lia. }
  unfold split_at, is_char_boundary. rewrite Hlen, bytes_append, bytes_str.
  rewrite drop_app_length, take_app_length. by rewrite str_bytes.
Qed.

Lemma parse_digits max s n :
  s ≠ "" → all_bytes is_ascii_digit s = true →
  parse_unsigned max s = Some n ↔ digits_val 0 (bytes s) = Some n ∧ n ≤ max.
Proof.
  intros Hne Hd. unfold parse_unsigned, all_bytes in *. destruct (bytes s) as [|a l] eqn:Hb.
  { by destruct s. }
  cbn in Hd. apply andb_true_iff in Hd as [Ha Hd].
  destruct (Ascii.eqb_spec a "+") as [->|_]; [done|]. rewrite bind_Some. split.
  - intros (v & Hv & H). destruct (v <=? max) eqn:E; [|done]. injection H as <-. bool_prop. by split.
  - intros [Hv Hn]. exists n. split; [done|]. by rewrite (proj2 (Z.leb_le n max)).
Qed.

(** The units: powers of 1024. *)
Definition units : list (string * Z) :=
  [("B", 1); ("K", 2 ^ 10); ("M", 2 ^ 20); ("G", 2 ^ 30); ("T", 2 ^ 40)].

Lemma unit_multiplier_units unit m : unit_multiplier unit = Some m ↔ (unit, m) ∈ units.
Proof.
  unfold unit_multiplier, units. rewrite !elem_of_cons, elem_of_nil. split.
  - intros H. repeat match type of H with context [(unit =? ?u)%string] =>
      destruct (String.eqb_spec unit u) as [->|_] end; try done; injection H as <-; naive_solver.
  - intros [H|[H|[H|[H|[H|[]]]]]]; by injection H as -> ->.
Qed.

(** A decimal with one or two digits after the point, and a unit. *)
Definition size_text (value : string) (whole_value fraction_value : Z) (places : Z) (m : Z) : Prop :=
  ∃ whole fraction unit,
    value = (whole +:+ "." +:+ fraction) +:+ unit ∧ (unit, m) ∈ units ∧
    whole ≠ "" ∧ all_bytes is_ascii_digit whole = true ∧ all_bytes is_ascii_digit fraction = true ∧
    digits_val 0 (bytes whole) = Some whole_value ∧ digits_val 0 (bytes fraction) = Some fraction_value ∧
    len fraction = places ∧ 1 ≤ places ≤ 2.

Lemma digits_bound s v : digits_val 0 (bytes s) = Some v → 0 ≤ v < 10 ^ len s.
Proof. intros [_ H]%pad_digits_val. unfold len. by rewrite <-length_bytes. Qed.

Lemma nonempty_len s : is_empty s = false ↔ 0 < len s.
Proof. unfold is_empty, len. destruct s; cbn; split; try done; lia. Qed.

(** The products fit in 128 bits. *)
Lemma size_fits w f places m :
  0 ≤ w ≤ u64_max → 0 ≤ f < 10 ^ places → 1 ≤ places ≤ 2 → 0 < m ≤ 2 ^ 40 →
  checked_u128 (w * 10 ^ places) = Some (w * 10 ^ places) ∧
  checked_u128 (w * 10 ^ places + f) = Some (w * 10 ^ places + f) ∧
  checked_u128 ((w * 10 ^ places + f) * m) = Some ((w * 10 ^ places + f) * m).
Proof.
  intros Hw Hf Hp Hm. assert (Hs : 10 ≤ 10 ^ places ≤ 100)
    by (destruct (decide (places = 1)) as [->|]; [done|]; by replace places with 2 by lia).
  unfold u64_max in Hw. assert (Hn : 0 ≤ w * 10 ^ places + f ≤ (2 ^ 64 - 1) * 100 + 99) by nia.
  assert (Hprod : 0 ≤ (w * 10 ^ places + f) * m ≤ ((2 ^ 64 - 1) * 100 + 99) * 2 ^ 40) by nia.
  split_and!; apply checked_u128_some; unfold u128_max; (split; [done|]); nia.
Qed.

(** The bytes a size stands for. *)
Definition size_value (value : string) (n : Z) : Prop :=
  ∃ w f places m, size_text value w f places m ∧ w ≤ u64_max ∧
    n = (w * 10 ^ places + f) * m / 10 ^ places ∧ n ≤ u64_max.

Lemma parse_size_inv value n : parse_size value = Ok n → size_value value n.
Proof.
  intros H. apply bind_ok in H as ([number unit] & Hsplit%ok_or_ok & H).
  apply bind_ok in H as (m & Hm%ok_or_ok & H). apply bind_ok in H as ([whole fraction] & Hd%ok_or_ok & H).
  apply bind_ok in H as ([] & Hg%ensure_ok & H). apply bind_ok in H as (w & Hw%ok_or_ok & H).
  apply bind_ok in H as (num & Hnum%ok_or_ok & H). apply bind_ok in H as (prod & Hprod%ok_or_ok & H).
  apply ok_or_ok, checked_u64_range in H as [Hn ->]. bool_prop.
  rewrite !nonempty_len in *. rewrite split_once_dot in Hd by done.
  apply bind_Some in Hnum as (sc & Hsc & Hnum). apply bind_Some in Hnum as (f & Hf & Hnum).
  apply checked_u128_some in Hsc as [-> _]. apply checked_u128_some in Hnum as [-> _].
  apply checked_u128_some in Hprod as [-> _].
  rewrite parse_digits in Hw, Hf by (done || by intros ->).
  exists w, f, (len fraction), m. split_and!; try lia.
  apply unit_multiplier_units in Hm. exists whole, fraction, unit. split_and!; try (done || lia); try (apply Hw || apply Hf).
  - rewrite <-Hd. unfold split_at in Hsplit. destruct (is_char_boundary _ _); [|done].
    injection Hsplit as <- <-. apply bytes_inj. by rewrite bytes_append, !bytes_str, take_drop.
  - by intros ->.
Qed.

Lemma parse_size_value value n : size_value value n → parse_size value = Ok n.
Proof.
  intros (w & f & places & m & Ht & Hw & -> & Hn).
  destruct Ht as (whole & fraction & unit & -> & Hm & Hne & Hdw & Hdf & Hvw & Hvf & Hl & Hp).
  apply unit_multiplier_units in Hm. destruct (unit_multiplier_some _ _ Hm) as (a & -> & Ha & Hmb).
  pose proof (digits_bound _ _ Hvw) as Hwb. pose proof (digits_bound _ _ Hvf) as Hfb.
  rewrite Hl in Hfb.
  destruct (size_fits w f places m) as (C1 & C2 & C3); [lia|done..|].
  unfold parse_size. rewrite split_at_last.
  replace (in_range 128 191 (code a)) with false by (symmetry; apply not_true_iff_false; rewrite in_range_spec; lia).
  rewrite orb_true_r. cbn [ok_or mbind result_bind]. rewrite Hm. cbn [ok_or mbind result_bind].
  rewrite (proj2 (split_once_dot whole fraction _ Hdw) eq_refl). cbn [ok_or mbind result_bind].
  rewrite (proj2 (ensure_ok _ _ ())); [cbn [mbind result_bind]|].
  2: { rewrite Hdw, Hdf, Hl. rewrite (proj2 (nonempty_len fraction)) by (rewrite Hl; lia).
       destruct whole; [done|]. cbn. lia. }
  rewrite (proj2 (parse_digits _ _ w Hne Hdw)) by done. cbn [ok_or mbind result_bind].
  rewrite Hl, C1. cbn [mbind option_bind].
  rewrite (proj2 (parse_digits _ fraction f ltac:(by intros ->; unfold len in Hl; cbn in Hl; lia) Hdf)).
  2: { split; [done|]. assert (10 ^ places ≤ 10 ^ 2) by (apply Z.pow_le_mono_r; lia). unfold u64_max. lia. }
  cbn [mbind option_bind]. rewrite C2. cbn [ok_or mbind result_bind]. rewrite C3.
  cbn [ok_or mbind result_bind]. apply ok_or_ok, checked_u64_some. split; [done|].
  split; [apply Z.div_pos; [|apply Z.pow_pos_nonneg; lia]; nia|done].
Qed.

(** The split panics inside a character, and nothing else does. *)
Lemma parse_size_panic value :
  parse_size value = Err (ProbeFault Panic) ↔
  ∃ l a, bytes value = l ++ [a] ∧ l ≠ [] ∧ 128 ≤ code a ≤ 191.
Proof.
  assert (Hsplit : parse_size value = Err (ProbeFault Panic) ↔
                   split_at (pred (String.length value)) value = None).
  { unfold parse_size. destruct (split_at _ _) as [[number unit]|]; [|done].
    split; [|done]. intros H. exfalso. revert H. cbn [ok_or mbind result_bind].
    destruct (unit_multiplier unit); [cbn [ok_or mbind result_bind]|done].
    destruct (split_once _ _) as [[whole fraction]|]; [cbn [ok_or mbind result_bind]|done].
    unfold ensure. case_match; [cbn [mbind result_bind]|done].
    do 4 (match goal with |- context [ok_or ?o _] => destruct o; [cbn [ok_or mbind result_bind]|done] end).
    done. }
  rewrite Hsplit. clear Hsplit. rewrite <-length_bytes.
  induction (bytes value) as [|b l _] eqn:Hb using rev_ind.
  - unfold split_at, is_char_boundary. rewrite Hb. cbn. split; [done|].
    by intros ([|] & x & ? & _).
  - apply (f_equal str) in Hb. rewrite str_bytes, str_app in Hb. subst value.
    replace (pred (length (l ++ [b]))) with (pred (String.length (str l +:+ str [b])))
      by (by rewrite <-length_bytes, bytes_append, !bytes_str).
    rewrite split_at_last, bytes_str. split.
    + intros H. destruct (_ || _) eqn:E; [done|]. bool_prop. rewrite in_range_spec in *.
      exists l, b. split_and!; try done; lia || by intros ->.
    + intros (l' & a & [-> [= ->]]%app_inj_tail & Hne & Ha).
      destruct l' as [|c l']; [done|]. cbn. rewrite (proj2 (in_range_spec _ _ _)) by lia. done.
Qed.

(** * Samples *)

Lemma parse_memory_pressure_range input n : parse_memory_pressure input = Ok n → 0 ≤ n ≤ 100.
Proof.
  intros H. apply bind_ok in H as (text & _ & H). apply bind_ok in H as (found & H & Hf%ok_or_ok).
  refine (try_fold_inv (λ _ st, ∀ n, st = Some n → 0 ≤ n ≤ 100) _ _ _ _ _ _ H n Hf); [done|].
  clear. intros _ line st st' Hst H. unfold memory_pressure_step in H.
  destruct (strip_prefix _ _); [|by injection H as <-].
  apply bind_ok in H as ([] & _ & H). apply bind_ok in H as (number & _ & H).
  apply bind_ok in H as (percent & Hp%ok_or_ok%parse_unsigned_range & H).
  apply bind_ok in H as ([] & Hmax%ensure_ok & [= <-]). intros n [= <-].
  unfold MAX_PERCENT in Hmax. rewrite Z.gtb_ltb in Hmax. bool_prop. lia.
Qed.

Lemma fill_slot_range slot value slot' :
  fill_slot slot value = Ok slot' → ∀ n, slot' = Some n → u64 n.
Proof.
  intros H. apply bind_ok in H as ([] & _ & H). apply bind_ok in H as (count & Hc & [= <-]).
  intros n [= <-]. apply bind_ok in Hc as (digits & _ & Hc). apply bind_ok in Hc as ([] & _ & Hc).
  by apply ok_or_ok, parse_unsigned_range in Hc.
Qed.

(** The filled slots are in range. *)
Definition slots_ok (p : page_slots) : Prop :=
  ∀ n, ps_free p = Some n ∨ ps_speculative p = Some n ∨ ps_inactive p = Some n ∨
       ps_compressor p = Some n → u64 n.

Lemma vm_stat_step_ok p line p' : slots_ok p → vm_stat_step p line = Ok p' → slots_ok p'.
Proof.
  intros Hp H. unfold vm_stat_step in H. destruct (split_once ":" line) as [[key value]|];
    [|by injection H as <-].
  repeat match type of H with
  | (if ?b then _ else _) = _ => destruct b
  | mbind _ _ = _ =>
    let slot := fresh "slot" in apply bind_ok in H as (slot & Hslot & [= <-]);
    pose proof (fill_slot_range _ _ _ Hslot) as Hr; intros n Hn; cbn in Hn;
    unfold slots_ok in Hp; naive_solver
  end.
  by injection H as <-.
Qed.

Lemma parse_vm_stat_range input page free speculative inactive compressor :
  parse_vm_stat input = Ok (page, free, speculative, inactive, compressor) →
  u64 page ∧ u64 free ∧ u64 speculative ∧ u64 inactive ∧ u64 compressor.
Proof.
  intros H. apply bind_ok in H as (text & _ & H). apply bind_ok in H as (header & _ & H).
  apply bind_ok in H as (p & Hpage%ok_or_ok & H). apply bind_ok in H as ([] & _ & H).
  apply bind_ok in H as (slots & Hslots & H).
  assert (Hok : slots_ok slots).
  { refine (try_fold_inv (λ _ p, slots_ok p) _ _ _ _ _ _ Hslots);
      [by intros n [?|[?|[?|?]]]|intros _ a st st'; apply vm_stat_step_ok]. }
  apply bind_ok in H as (x1 & H1%ok_or_ok & H). apply bind_ok in H as (x2 & H2%ok_or_ok & H).
  apply bind_ok in H as (x3 & H3%ok_or_ok & H). apply bind_ok in H as (x4 & H4%ok_or_ok & H).
  injection H as <- <- <- <- <-. split; [|by split_and!; apply Hok; eauto].
  unfold page_size_of in Hpage. apply bind_Some in Hpage as (v & _ & Hpage).
  apply bind_Some in Hpage as (number & _ & Hpage). by apply parse_unsigned_range in Hpage.
Qed.

Lemma parse_memsize_range input n : parse_memsize input = Ok n → 0 < n ≤ u64_max.
Proof.
  intros H. apply bind_ok in H as (text & _ & H). cbv zeta in H. apply bind_ok in H as ([] & _ & H).
  apply bind_ok in H as (v & Hv%ok_or_ok%parse_unsigned_range & H).
  apply bind_ok in H as ([] & Hz%ensure_ok & [= <-]). bool_prop. lia.
Qed.

Lemma parse_size_range value n : parse_size value = Ok n → u64 n.
Proof.
  intros H. apply bind_ok in H as ([number unit] & _ & H). apply bind_ok in H as (m & _ & H).
  apply bind_ok in H as ([whole fraction] & _ & H). apply bind_ok in H as ([] & _ & H).
  cbv zeta in H. do 3 apply bind_ok in H as (? & _ & H).
  by apply ok_or_ok, checked_u64_some in H as [-> ?].
Qed.

Lemma parse_swap_usage_range input total used :
  parse_swap_usage input = Ok (total, used) → u64 total ∧ u64 used.
Proof.
  intros H. apply bind_ok in H as (text & _ & H). apply bind_ok in H as (rest & _ & H).
  apply bind_ok in H as ([] & _ & H). cbv zeta in H. apply bind_ok in H as ([] & _ & H).
  apply bind_ok in H as ([] & _ & H). apply bind_ok in H as (t & Ht%parse_size_range & H).
  apply bind_ok in H as (u & Hu%parse_size_range & H). apply bind_ok in H as (f & _ & H).
  apply bind_ok in H as (sum & _ & H). by apply bind_ok in H as ([] & _ & [= <- <-]).
Qed.

Lemma sample_inv run s :
  sample run = Ok s →
  ∃ b1 b2 b3 b4 page free speculative inactive compressor,
    run MemoryPressure = Ok b1 ∧ run VmStat = Ok b2 ∧ run MemSize = Ok b3 ∧ run SwapUsage = Ok b4 ∧
    parse_memory_pressure b1 = Ok (sn_available_percent s) ∧
    parse_vm_stat b2 = Ok (page, free, speculative, inactive, compressor) ∧
    parse_memsize b3 = Ok (sn_total_memory_bytes s) ∧
    parse_swap_usage b4 = Ok (sn_swap_total_bytes s, sn_swap_used_bytes s) ∧
    sn_reclaimable_uncompressed_bytes s = (free + speculative + inactive) * page ∧
    sn_compressor_occupied_bytes s = compressor * page ∧ snapshot_ok s.
Proof.
  intros H. apply bind_ok in H as (b1 & R1 & H). apply bind_ok in H as (b2 & R2 & H).
  apply bind_ok in H as (b3 & R3 & H). apply bind_ok in H as (b4 & R4 & H).
  apply bind_ok in H as (percent & P1 & H).
  apply bind_ok in H as ([[[[page free] speculative] inactive] compressor] & P2 & H).
  apply bind_ok in H as (total & P3 & H). apply bind_ok in H as ([swap_total swap_used] & P4 & H).
  apply bind_ok in H as (pages & Hpages%ok_or_ok & H).
  apply bind_ok in H as (reclaimable & Hr%ok_or_ok & H).
  apply bind_ok in H as (occupied & Hc%ok_or_ok & H). cbv zeta in H.
  apply bind_ok in H as ([] & Hv & [= <-]).
  apply bind_Some in Hpages as (p & [-> _]%checked_u64_some & [-> _]%checked_u64_some).
  apply checked_u64_some in Hr as [-> Hr]. apply checked_u64_some in Hc as [-> Hc].
  exists b1, b2, b3, b4, page, free, speculative, inactive, compressor. split_and!; try done.
  pose proof (parse_memory_pressure_range _ _ P1). pose proof (parse_memsize_range _ _ P3).
  pose proof (parse_swap_usage_range _ _ _ P4) as [? ?].
  apply ensure_ok in Hv. cbn in Hv. rewrite !Z.gtb_ltb in Hv. bool_prop.
  unfold u64 in *. constructor; cbn; lia.
Qed.
