(* ===== verification/ResourceClaims.v ===== *)
(** The theorems on the host resource guard, with samples at which their
    hypotheses hold. *)
From S2P Require Import Prelude.
From S2P Require Import RustStr.
From S2P Require Import Durable.
From S2P Require Import Resource.
From S2P Require Import ResourceProps.
Local Open Scope Z_scope.

(** * Example *)

Module ResourceExample.

(** A sample of a host with 16 GiB of memory. *)
Definition host (percent reclaimable_mib compressor_mib swap_mib : Z) : ResourceSnapshot :=
  {| sn_available_percent := percent;
     sn_reclaimable_uncompressed_bytes := reclaimable_mib * 2 ^ 20;
     sn_compressor_occupied_bytes := compressor_mib * 2 ^ 20; sn_total_memory_bytes := 16 * 2 ^ 30;
     sn_swap_used_bytes := swap_mib * 2 ^ 20; sn_swap_total_bytes := 8 * 2 ^ 30 |}.

Definition calm : ResourceSnapshot := host 40 8192 1024 0.
Definition soft : ResourceSnapshot := host 9 1024 1024 0.

Definition turn (s : ResourceSnapshot) : Turn :=
  {| tn_stop := false; tn_stop_after_sleep := false; tn_reason := None; tn_sample := Ok s |}.

Lemma host_ok percent r c w :
  0 ≤ percent ≤ 100 → 0 ≤ r ≤ 16384 → 0 ≤ c ≤ 16384 → 0 ≤ w ≤ 8192 → snapshot_ok (host percent r c w).
Proof. intros. constructor; cbn -[Z.mul Z.pow]; unfold u64_max; lia. Qed.

(** What the commands print on such a host. *)
Definition printed (c : ResourceCommand) : result ResourceProbeError (list ascii) :=
  Ok (match c with
      | MemoryPressure => bytes "System-wide memory free percentage: 40%"
      | VmStat =>
        bytes "Mach Virtual Memory Statistics: (page size of 16384 bytes)" ++ [line_feed] ++
        bytes "Pages free: 1000." ++ [line_feed] ++ bytes "Pages speculative: 20." ++ [line_feed] ++
        bytes "Pages inactive: 300." ++ [line_feed] ++ bytes "Pages occupied by compressor: 7."
      | MemSize => bytes "17179869184" ++ [line_feed]
      | SwapUsage =>
        bytes "vm.swapusage: total = 2048.00M  used = 1024.50M  free = 1023.50M  (encrypted)"
      end).
End ResourceExample.
Import ResourceExample.

(** C40.  The watchdog cancels a run exactly when its policy says so.  It leaves its
    loop with a trip at the first turn, among turns in which it takes samples, whose
    sample fails or trips the policy on the whole history of samples: one sample of
    hard pressure, or fifteen soft ones in a row, a sample being soft when two of
    five signals hold, one of them the growth of swap over fifteen turns.  The
    sixteen-slot window and the counter of the state lose nothing.  A trip is what
    cancels, and the thread panics only when the probe does. *)
Theorem watchdog_trips_exactly turns observation r :
  Forall sample_ok turns →
  ((∃ cancelled o, watchdog_loop WatchdogState_default observation turns
                   = Left_loop (Some r) cancelled o) ↔
   ∃ pre t post, turns = pre ++ t :: post ∧ Forall (λ t, quiet t ∧ usable t) pre ∧
     first_trip (snapshots pre) = None ∧ quiet t ∧ trips_at (snapshots pre) t r) ∧
  match watchdog_loop WatchdogState_default observation turns with
  | Watching _ _ => True
  | Left_loop trip cancelled _ => cancelled = is_Some_b trip
  | Panicked => ∃ t f, t ∈ turns ∧ tn_sample t = Err (ProbeFault f)
  end.
Proof.
  intros Hok. split.
  - by apply (watchdog_loop_trip turns []); [|apply watch_inv_default|].
  - by apply (watchdog_loop_left turns []); [|apply watch_inv_default|].
Qed.

Lemma watchdog_trips_exactly_witness :
  (∃ cancelled o, watchdog_loop WatchdogState_default None (turn <$> calm :: replicate 15 soft)
                  = Left_loop (Some SoftPressure) cancelled o) ∧
  ¬ ∃ cancelled o, watchdog_loop WatchdogState_default None (turn <$> calm :: replicate 14 soft)
                   = Left_loop (Some SoftPressure) cancelled o.
Proof.
  assert (Hok : ∀ n, Forall sample_ok (turn <$> calm :: replicate n soft)).
  { intros n. apply Forall_fmap, Forall_cons. split; [|apply Forall_replicate];
      intros s [= <-]; by apply host_ok. }
  split.
  - destruct (watchdog_trips_exactly _ None SoftPressure (Hok 15%nat)) as [[_ Htrip] _]. apply Htrip.
    clear Htrip.
    exists (turn <$> calm :: replicate 14 soft), (turn soft), [].
    split; [by vm_compute|].
    split; [by repeat (constructor; [by split|])|]. split; [by vm_compute|]. split; [done|by vm_compute].
  - intros (c & o & H). by vm_compute in H.
Defined.

(** A host is admitted exactly when a fifth of its memory and three gibibytes
    are available and it is not both compressing 70% of its memory and four
    gibibytes deep in swap; the first sample of the watchdog on an admitted host
    does not trip it. *)
Theorem pre_start_admits s :
  snapshot_ok s →
  (evaluate_pre_start s = Ok Admit ↔
   20 ≤ sn_available_percent s ∧ 3 * 2 ^ 30 ≤ sn_reclaimable_uncompressed_bytes s ∧
   ¬ (sn_total_memory_bytes s * 70 ≤ sn_compressor_occupied_bytes s * 100 ∧
      4 * 2 ^ 30 ≤ sn_swap_used_bytes s)) ∧
  (evaluate_pre_start s = Ok Admit →
   ∃ st, observe WatchdogState_default s = Ok (Continue, st)).
Proof.
  intros Hs.
  assert (Hiff : evaluate_pre_start s = Ok Admit ↔
   20 ≤ sn_available_percent s ∧ 3 * 2 ^ 30 ≤ sn_reclaimable_uncompressed_bytes s ∧
   ¬ (sn_total_memory_bytes s * 70 ≤ sn_compressor_occupied_bytes s * 100 ∧
      4 * 2 ^ 30 ≤ sn_swap_used_bytes s)).
  { unfold evaluate_pre_start, has_hard_compound_compression.
    rewrite (snapshot_ok_valid _ Hs), (compressor_policy _ _ Hs) by done. cbn [mbind result_bind].
    unfold policy_compressed, MIN_PRESTART_AVAILABLE_PERCENT, MIN_PRESTART_FREE_BYTES,
      HARD_COMPRESSOR_PERCENT, HARD_COMPRESSOR_COMPANION_AVAILABLE_PERCENT, SOFT_RECLAIMABLE_BYTES,
      SOFT_SWAP_BYTES. rewrite !Z.geb_leb.
    transitivity (((20 <=? sn_available_percent s) && (3 * 1024 * 1024 * 1024 <=? sn_reclaimable_uncompressed_bytes s)
      && negb ((sn_total_memory_bytes s * 70 <=? sn_compressor_occupied_bytes s * 100)
      && ((sn_available_percent s <=? 8) || (sn_reclaimable_uncompressed_bytes s <? 1536 * 1024 * 1024)
          || (4 * 1024 * 1024 * 1024 <=? sn_swap_used_bytes s)))) = true).
    { by destruct (_ && _). }
    rewrite !andb_true_iff, negb_true_iff, andb_false_iff, !orb_false_iff. lia. }
  split; [done|]. intros (Ha & Hr & Hc)%Hiff.
  destruct (observe_policy [] _ _ watch_inv_default Hs) as (st & -> & _). exists st.
  assert (Htrip : first_trip ([] ++ [s]) = None); [|by rewrite Htrip].
  unfold first_trip, policy_trip, policy_hard, policy_compressed. cbn -[Z.mul Z.pow Z.leb Z.ltb].
  rewrite (proj2 (Z.leb_gt _ 3)), (proj2 (Z.leb_gt _ 8)), !(proj2 (Z.ltb_ge _ _)) by lia. cbn.
  destruct (_ && _) eqn:E; [|done]. exfalso. bool_prop. apply Hc. split; lia.
Qed.

Lemma pre_start_admits_witness :
  evaluate_pre_start calm = Ok Admit ∧ ∃ st, observe WatchdogState_default calm = Ok (Continue, st).
Proof.
  assert (Hok : snapshot_ok calm) by by apply host_ok.
  assert (Ha : evaluate_pre_start calm = Ok Admit)
    by (apply (pre_start_admits calm Hok); cbn -[Z.mul Z.pow]; lia).
  split; [done|]. by apply (pre_start_admits calm Hok).
Defined.

(** A sample the probe returns is what its four commands printed: the pages
    times the page size without overflow, within the widths of the fields and
    without contradiction; so neither the admission nor the watchdog, in any state,
    can fail on it, and the watchdog's branch for that is never taken. *)
Theorem probe_sample_valid run s :
  sample run = Ok s →
  (∃ b1 b2 b3 b4 page free speculative inactive compressor,
    run MemoryPressure = Ok b1 ∧ run VmStat = Ok b2 ∧ run MemSize = Ok b3 ∧ run SwapUsage = Ok b4 ∧
    parse_memory_pressure b1 = Ok (sn_available_percent s) ∧
    parse_vm_stat b2 = Ok (page, free, speculative, inactive, compressor) ∧
    parse_memsize b3 = Ok (sn_total_memory_bytes s) ∧
    parse_swap_usage b4 = Ok (sn_swap_total_bytes s, sn_swap_used_bytes s) ∧
    sn_reclaimable_uncompressed_bytes s = (free + speculative + inactive) * page ∧
    sn_compressor_occupied_bytes s = compressor * page ∧ snapshot_ok s) ∧
  is_ok (evaluate_pre_start s) = true ∧ is_ok (status_from_snapshot s) = true ∧
  ∀ st, is_ok (observe st s) = true.
Proof.
  intros H%sample_inv. split; [exact H|].
  destruct H as (?&?&?&?&?&?&?&?&?&_&_&_&_&_&_&_&_&_&_&Hs%snapshot_ok_valid).
  unfold status_from_snapshot, evaluate_pre_start. rewrite Hs. split_and!; [done..|].
  intros st. by apply observe_total.
Qed.

Lemma probe_sample_valid_witness :
  ∃ s, sample printed = Ok s ∧ is_ok (evaluate_pre_start s) = true.
Proof.
  destruct (sample printed) as [s|] eqn:H; [|by vm_compute in H].
  exists s. split; [done|]. by destruct (probe_sample_valid printed s H) as (_ & ? & _).
Defined.

(** A size is read exactly when it is digits, a point, one or two digits and a
    unit, and then it is the number of whole bytes, never wrapped around.  Reading
    panics exactly on a text of several bytes that ends inside a character, which
    the output of a command can contain. *)
Theorem parse_size_exact value n :
  (parse_size value = Ok n ↔ size_value value n) ∧
  (parse_size value = Err (ProbeFault Panic) ↔
   ∃ l a, bytes value = l ++ [a] ∧ l ≠ [] ∧ 128 ≤ code a ≤ 191) ∧
  ∃ input, valid_utf8 input = true ∧ parse_swap_usage input = Err (ProbeFault Panic).
Proof.
  split; [split; [apply parse_size_inv|apply parse_size_value]|]. split; [apply parse_size_panic|].
  exists (bytes "vm.swapusage: total = 2048.00" ++ [ascii_of_nat 195; ascii_of_nat 169] ++
     bytes " used = 0.00M free = 2048.00M").
  by split; vm_compute.
Qed.
