(* ===== verification/Admission.v ===== *)
(** The admission coordinator ([src/src/admission.rs]).

    Every process of a host that wants to run checks takes a numbered ticket in a
    shared directory, keeps an advisory lock on it, and may run when its ticket is
    the first live one and the slot lock is free.  The state is the tree below the
    root of the coordinator and the advisory locks; an operation is a function of
    the state that returns a result and the new state, in which the effects of a
    failed operation remain.  Each operation holds the queue lock from its first
    effect to its last, so it is one step of the host. *)
From S2P Require Import Prelude.
From S2P Require Import RustStr.
From S2P Require Import BTree.
From S2P Require Import Canonical.
From S2P Require Import Durable.
Local Open Scope Z_scope.

Definition ADMISSION_SCHEMA_VERSION : string := "1.0".
Definition ADMISSION_STATUS_SCHEMA_VERSION : string := "2.0".
Definition MAX_QUEUE_TICKETS : nat := 1024.

Definition OWNER_FILE : string := ".ccp-admission-root-v1.json".
Definition QUEUE_LOCK : string := "queue.lock".
Definition SLOT_LOCK : string := "slot.lock".
Definition NEXT_TICKET : string := "next-ticket-v1".
Definition TICKETS_DIR : string := "tickets".
Definition TICKET_STAGING_PREFIX : string := ".ticket-staging-".
Definition TICKET_PREFIX : string := "ticket-".
Definition TICKET_SUFFIX : string := ".json".
Definition QUARANTINE_DIR : string := "quarantine".
Definition LEASES_DIR : string := "leases".
Definition LEASE_PREFIX : string := "lease-".
Definition LEASE_SUFFIX : string := ".json".
Definition PROCESS_VISIBILITY_NOTE : string :=
  "No process visible in the local shell does not prove global inactivity.".
(** Seconds. *)
Definition LEASE_DURATION : Z := 30.

(** A JSON string, and an object with strings as values. *)
Definition quoted (s : string) : string :=
  let q := str [ascii_of_nat 34] in q +:+ s +:+ q.
Definition OWNER_BYTES : list ascii :=
  bytes ("{" +:+ quoted "owner" +:+ ":" +:+ quoted "commit-ci-preflight" +:+ ","
         +:+ quoted "purpose" +:+ ":" +:+ quoted "host-admission-coordinator" +:+ ","
         +:+ quoted "schema_version" +:+ ":" +:+ quoted "1.0" +:+ "}") ++ [line_feed].

(** * Data *)

Record AdmissionLockStatusV1 : Type := {
  ls_kind : string;
  ls_state : string;
  ls_owner_run_id : option string;
  ls_acquired_at_unix_seconds : option Z;
  ls_heartbeat_at_unix_seconds : option Z;
  ls_lease_state : string;
}.

Record AdmissionStatusV1 : Type := {
  as_schema_version : string;
  as_active : bool;
  as_queue_count : nat;
  as_ticket_ids : list string;
  as_slot : AdmissionLockStatusV1;
  as_queue_lock : AdmissionLockStatusV1;
  as_process_visibility_note : string;
}.

Record TicketMarker : Type := {
  tm_owner : string;
  tm_purpose : string;
  tm_schema_version : string;
  tm_ticket_id : string;
}.

Record LeaseMarker : Type := {
  lm_owner : string;
  lm_purpose : string;
  lm_schema_version : string;
  lm_owner_run_id : string;
  lm_acquired_at_unix_seconds : Z;
  lm_heartbeat_at_unix_seconds : Z;
  lm_state : string;
}.

(** The path of a ticket is its name in the directory of tickets. *)
Record TicketInfo : Type := {
  ti_id : string;
  ti_path : string;
}.

(** Paths are relative to the root. *)
Inductive AdmissionError : Type :=
  | NoPersistentDefault
  | InvalidTimeout
  | AdmissionTimeout
  | AdmissionCancelled
  | QueueFull
  | AdmissionUnsafePath (message : string)
  | UnsafeLayout (path : string)
  | ForeignOwner (path : string)
  | ForeignTicket (path : string)
  | MalformedTicket (path : string)
  | ForeignLease (path : string)
  | MalformedLease (path : string)
  | RecoveryRequired (path : string)
  | MalformedCounter (path : string)
  | TicketCounterExhausted
  | Clock
  | CurrentDirectory (kind : io_kind)
  | ReadDir (kind : io_kind)
  | AdmissionIo (path : string) (kind : io_kind)
  | AdmissionLock (path : string) (kind : io_kind)
  | Json.

Definition admission_exit_code (e : AdmissionError) : Z :=
  match e with
  | AdmissionTimeout | AdmissionCancelled => 5
  | QueueFull => 4
  | _ => 70
  end.

(** A process of the host. *)
Definition pid : Type := Z.

(** The tree of the root; who holds the queue lock, the slot lock and the lock of
    each ticket file.  [h_sequence] is [QUARANTINE_SEQUENCE] of the process that
    runs an operation, and [h_checks] counts the deadline checks it has made. *)
Record Host : Type := {
  h_root : option node;
  h_queue : option pid;
  h_slot : option pid;
  h_locks : btmap string pid;
  h_sequence : Z;
  h_checks : nat;
}.

(** What an operation reads of its process and of its surroundings: the process,
    the clock in Unix seconds, the instant of its deadline, the instant and the
    cancellation flag at each of its deadline checks, the error of the check that
    ends a wait for the queue lock, who held that lock just before the wait, the value of [QUARANTINE_SEQUENCE] and the
    temporary file name of this operation, and the order in which the system
    lists a directory. *)
Record Env : Type := {
  en_pid : pid;
  en_now : option Z;
  en_started : Z;
  en_timeout : Z;
  en_instant : nat → Z;
  en_cancelled : nat → bool;
  en_wait : AdmissionError;
  en_queue : option pid;
  en_sequence : Z;
  en_temporary : string;
  en_read_dir : btmap string node → list (string * node);
}.

(** * Operations on the state *)

Definition adm (E A : Type) : Type := Host → result E A * Host.

#[global] Instance adm_ret E : MRet (adm E) := λ A x h, (Ok x, h).
#[global] Instance adm_bind E : MBind (adm E) :=
  λ A B f m h, match m h with (Ok x, h') => f x h' | (Err e, h') => (Err e, h') end.

(** What only reads, and what only writes. *)
Definition reads {E A} (f : Host → result E A) : adm E A := λ h, (f h, h).
Definition lift {E A} (r : result E A) : adm E A := λ h, (r, h).
Definition update {E} (f : Host → Host) : adm E () := λ h, (Ok (), f h).

Fixpoint adm_fold {E S A} (f : S → A → adm E S) (s : S) (l : list A) : adm E S :=
  match l with
  | [] => mret s
  | a :: l => s' ← f s a; adm_fold f s' l
  end.

Fixpoint adm_each {E A} (f : A → adm E ()) (l : list A) : adm E () :=
  match l with
  | [] => mret ()
  | a :: l => _ ← f a; adm_each f l
  end.

Definition set_root (root : option node) (h : Host) : Host :=
  {| h_root := root; h_queue := h_queue h; h_slot := h_slot h; h_locks := h_locks h;
     h_sequence := h_sequence h; h_checks := h_checks h |}.
Definition set_slot (slot : option pid) (h : Host) : Host :=
  {| h_root := h_root h; h_queue := h_queue h; h_slot := slot; h_locks := h_locks h;
     h_sequence := h_sequence h; h_checks := h_checks h |}.
Definition set_locks (locks : btmap string pid) (h : Host) : Host :=
  {| h_root := h_root h; h_queue := h_queue h; h_slot := h_slot h; h_locks := locks;
     h_sequence := h_sequence h; h_checks := h_checks h |}.
(** [fetch_add]. *)
Definition next_sequence (h : Host) : Host :=
  {| h_root := h_root h; h_queue := h_queue h; h_slot := h_slot h; h_locks := h_locks h;
     h_sequence := (h_sequence h + 1) mod 2 ^ 64; h_checks := h_checks h |}.
Definition next_check (h : Host) : Host :=
  {| h_root := h_root h; h_queue := h_queue h; h_slot := h_slot h; h_locks := h_locks h;
     h_sequence := h_sequence h; h_checks := S (h_checks h) |}.
(** The start of an operation. *)
Definition begin (e : Env) (h : Host) : Host :=
  {| h_root := h_root h; h_queue := h_queue h; h_slot := h_slot h; h_locks := h_locks h;
     h_sequence := en_sequence e; h_checks := 0 |}.

Definition root_entries (h : Host) : btmap string node :=
  match h_root h with Some (Dir entries) => entries | _ => [] end.

(** An entry of the root, and the entries of one of its directories. *)
Definition root_entry (name : string) (h : Host) : option node := map_get name (root_entries h).
Definition dir_entries (dir : string) (h : Host) : btmap string node :=
  match root_entry dir h with Some (Dir entries) => entries | _ => [] end.
Definition dir_entry (dir name : string) (h : Host) : option node := map_get name (dir_entries dir h).

Definition put_entry (name : string) (n : node) (h : Host) : Host :=
  set_root (Some (Dir (map_insert name n (root_entries h)))) h.
Definition put_dir (dir : string) (entries : btmap string node) (h : Host) : Host :=
  put_entry dir (Dir entries) h.

(** [File::unlock] by the process that holds the lock, or the close of its file. *)
Definition unlock_ticket (p : pid) (name : string) (h : Host) : Host :=
  if bool_decide (map_get name (h_locks h) = Some p)
  then set_locks (remove_key name (h_locks h)) h else h.
Definition unlock_slot (p : pid) (h : Host) : Host :=
  if bool_decide (h_slot h = Some p) then set_slot None h else h.

Definition path_of (dir name : string) : string := dir +:+ "/" +:+ name.

(** [fs::remove_file]. *)
Definition remove_entry (dir name : string) : adm io_kind () := λ h,
  match dir_entry dir name h with
  | None => (Err NotFound, h)
  | Some (Dir _) => (Err OtherIo, h)
  | Some _ => (Ok (), put_dir dir (remove_key name (dir_entries dir h)) h)
  end.

Definition adm_map_err {E F A} (f : E → F) (m : adm E A) : adm F A :=
  λ h, match m h with (r, h') => (map_err f r, h') end.

(** The removal that takes a missing file for removed. *)
Definition remove_if_present (dir name : string) : adm AdmissionError () := λ h,
  match remove_entry dir name h with
  | (Err NotFound, h') => (Ok (), h')
  | (r, h') => (map_err (AdmissionIo (path_of dir name)) r, h')
  end.

(** * Deadlines *)

(** An instant is a number of nanoseconds without bound, so the addition of the
    timeout does not overflow. *)
Definition from_timeout (e : Env) : result AdmissionError Z :=
  _ ← ensure (negb (en_timeout e =? 0)) InvalidTimeout;
  Ok (en_started e + en_timeout e).

Definition check (e : Env) : adm AdmissionError () := λ h,
  (at_ ← from_timeout e;
   _ ← ensure (negb (en_cancelled e (h_checks h))) AdmissionCancelled;
   ensure (negb (at_ <=? en_instant e (h_checks h))) AdmissionTimeout, next_check h).

(** * Files *)

(** [fs::read_dir], [fs::read] and [fs::rename] of a file to a directory.  What is
    read through a symbolic link is not modelled, and fails. *)
Definition read_dir (e : Env) (dir : string) : adm AdmissionError (list (string * node)) :=
  reads (λ h, match root_entry dir h with
              | Some (Dir entries) => Ok (en_read_dir e entries)
              | Some _ => Err (AdmissionIo dir OtherIo)
              | None => Err (AdmissionIo dir NotFound)
              end).

Definition read_file (n : option node) : result io_kind (list ascii) :=
  match n with
  | Some (File content) => Ok content
  | Some _ => Err OtherIo
  | None => Err NotFound
  end.

Definition move_file (dir name dir' name' : string) : adm io_kind () := λ h,
  match dir_entry dir name h, root_entry dir' h with
  | Some (File content), Some (Dir entries) =>
    match map_get name' entries with
    | Some (Dir _) => (Err OtherIo, h)
    | _ => let h := put_dir dir (remove_key name (dir_entries dir h)) h in
           (Ok (), put_dir dir' (map_insert name' (File content) (dir_entries dir' h)) h)
    end
  | None, _ | _, None => (Err NotFound, h)
  | _, _ => (Err OtherIo, h)
  end.

Definition durable_error (path : string) (error : DurableFsError) : AdmissionError :=
  match error with
  | DurableIo kind => AdmissionIo path kind
  | UnsafePath _ | DurableOwnershipMismatch => UnsafeLayout path
  | AtomicReplacementUnavailable => AdmissionIo path OtherIo
  end.

(** [DurableFileSystem::create_new] and [atomic_replace] in a directory of the
    root, and [atomic_replace] in the root. *)
Definition durable_create (dir name : string) (content : list ascii) : adm AdmissionError () := λ h,
  match Durable.create_new (root_entry dir h) name content with
  | Ok dir' => (Ok (), put_entry dir dir' h)
  | Err error => (Err (durable_error (path_of dir name) error), h)
  end.
Definition durable_replace (e : Env) (dir name : string) (content : list ascii) :
    adm AdmissionError () := λ h,
  match Durable.atomic_replace (root_entry dir h) name (en_temporary e) content with
  | (r, Some dir') => (map_err (durable_error (path_of dir name)) r, put_entry dir dir' h)
  | (r, None) => (map_err (durable_error (path_of dir name)) r, h)
  end.
Definition durable_replace_root (e : Env) (name : string) (content : list ascii) :
    adm AdmissionError () := λ h,
  match Durable.atomic_replace (h_root h) name (en_temporary e) content with
  | (r, root') => (map_err (durable_error name) r, set_root root' h)
  end.

(** Whether a lock file is there; a lock file that is created when missing. *)
Definition open_existing_lock_file (name : string) : adm AdmissionError bool :=
  reads (λ h, match root_entry name h with
              | None => Ok false
              | Some (File _) => Ok true
              | Some _ => Err (UnsafeLayout name)
              end).
Definition open_lock_file (name : string) : adm AdmissionError () := λ h,
  match root_entry name h with
  | Some (File _) => (Ok (), h)
  | Some _ => (Err (UnsafeLayout name), h)
  | None => match h_root h with
            | Some (Dir _) => (Ok (), put_entry name (File []) h)
            | Some _ => (Err (AdmissionIo name OtherIo), h)
            | None => (Err (AdmissionIo name NotFound), h)
            end
  end.

Definition validate_regular (path : string) (n : node) : result AdmissionError () :=
  match n with File _ => Ok () | _ => Err (UnsafeLayout path) end.
Definition validate_directory (path : string) (n : node) : result AdmissionError () :=
  match n with Dir _ => Ok () | _ => Err (UnsafeLayout path) end.

(** * The layout of the root *)

Definition root_exists : adm AdmissionError bool :=
  reads (λ h, match h_root h with
              | None => Ok false
              | Some (Dir _) => Ok true
              | Some _ => Err (UnsafeLayout "")
              end).

Definition valid_owner_marker_exists : adm AdmissionError bool :=
  reads (λ h, match root_entry OWNER_FILE h with
              | Some (File content) =>
                _ ← ensure (bool_decide (content = OWNER_BYTES)) (ForeignOwner OWNER_FILE);
                Ok true
              | Some _ => Err (UnsafeLayout OWNER_FILE)
              | None => Ok false
              end).

(** One entry of the root; whether the owner marker and the directory of tickets
    were seen. *)
Definition validate_entry (seen : bool * bool) (entry : string * node) :
    result AdmissionError (bool * bool) :=
  let '(owner, tickets) := seen in
  let '(name, n) := entry in
  if (name =? OWNER_FILE)%string then
    _ ← validate_regular name n; Ok (true, tickets)
  else if (name =? QUEUE_LOCK)%string || (name =? SLOT_LOCK)%string || (name =? NEXT_TICKET)%string then
    _ ← validate_regular name n; Ok (owner, tickets)
  else if (name =? TICKETS_DIR)%string then
    _ ← validate_directory name n; Ok (owner, true)
  else if (name =? LEASES_DIR)%string || (name =? QUARANTINE_DIR)%string then
    _ ← validate_directory name n; Ok (owner, tickets)
  else Err (UnsafeLayout name).

Definition validate_layout (e : Env) (owner_required : bool) : adm AdmissionError () :=
  present ← root_exists;
  if present : bool then
    reads (λ h,
      seen ← try_fold validate_entry (false, false) (en_read_dir e (root_entries h));
      let '(owner, tickets) := seen : bool * bool in
      _ ← ensure (negb owner_required || owner) (ForeignOwner OWNER_FILE);
      ensure (negb owner_required || tickets) (UnsafeLayout TICKETS_DIR))
  else mret ().

Definition ensure_owner_marker : adm AdmissionError () :=
  present ← valid_owner_marker_exists;
  if present : bool then mret ()
  else update (put_entry OWNER_FILE (File OWNER_BYTES)).

Definition open_queue (create : bool) : adm AdmissionError () :=
  if create then open_lock_file QUEUE_LOCK
  else present ← open_existing_lock_file QUEUE_LOCK;
       lift (ensure present (UnsafeLayout QUEUE_LOCK)).

(** [lock_exclusive_until] of the queue lock, which an operation releases when it
    returns: a lock another process keeps ends the wait with an error. *)
Definition lock_exclusive_until (wait : AdmissionError) : adm AdmissionError () :=
  reads (λ h, match h_queue h with None => Ok () | Some _ => Err wait end).

Definition lock_queue_until (wait : AdmissionError) : adm AdmissionError () :=
  _ ← open_queue false;
  lock_exclusive_until wait.

(** [fs::create_dir_all] of the root. *)
Definition create_root : adm AdmissionError () := λ h,
  match h_root h with
  | Some (Dir _) => (Ok (), h)
  | Some _ => (Err (AdmissionIo "" OtherIo), h)
  | None => (Ok (), set_root (Some (Dir [])) h)
  end.

Definition ensure_directory (name : string) : adm AdmissionError () := λ h,
  match root_entry name h with
  | Some (Dir _) => (Ok (), h)
  | Some _ => (Err (UnsafeLayout name), h)
  | None => (Ok (), put_entry name (Dir []) h)
  end.

Definition initialize_until (e : Env) : adm AdmissionError () :=
  _ ← check e;
  _ ← create_root;
  initialized ← valid_owner_marker_exists;
  _ ← (if initialized : bool then mret () else validate_layout e false);
  _ ← open_queue (negb initialized);
  _ ← lock_exclusive_until (en_wait e);
  _ ← (if initialized : bool then
         still ← valid_owner_marker_exists;
         _ ← lift (ensure still (ForeignOwner OWNER_FILE));
         validate_layout e true
       else validate_layout e false);
  _ ← ensure_owner_marker;
  _ ← ensure_directory TICKETS_DIR;
  _ ← ensure_directory LEASES_DIR;
  _ ← ensure_directory QUARANTINE_DIR;
  validate_layout e true.

(** * Tickets and leases *)

Definition ticket_name (id : string) : string := TICKET_PREFIX +:+ id +:+ TICKET_SUFFIX.
(** The name in the directory of leases that [lease_path] gives. *)
Definition lease_name (id : string) : string := LEASE_PREFIX +:+ id +:+ LEASE_SUFFIX.

Definition is_ticket_id (id : string) : bool :=
  (String.length id =? 20)%nat && forallb is_ascii_digit (bytes id).

Definition parse_ticket_name (name : string) : result AdmissionError string :=
  ok_or (inner ← strip_prefix TICKET_PREFIX name;
         id ← strip_suffix TICKET_SUFFIX inner;
         if is_ticket_id id then Some id else None)
    (MalformedTicket (path_of TICKETS_DIR name)).

Definition unix_seconds (e : Env) : result AdmissionError Z := ok_or (en_now e) Clock.

(** [saturating_sub] on [u64]. *)
Definition lease_is_expired (e : Env) (lease : LeaseMarker) : bool :=
  match unix_seconds e with
  | Err _ => false
  | Ok now => LEASE_DURATION <=? 0 `max` (now - lm_heartbeat_at_unix_seconds lease)
  end.

Definition lease_is_semantically_valid (lease : LeaseMarker) : bool :=
  ((lm_state lease =? "queued")%string || (lm_state lease =? "active")%string)
  && (lm_acquired_at_unix_seconds lease <=? lm_heartbeat_at_unix_seconds lease).

Definition ticket_valid (marker : TicketMarker) (id : string) : bool :=
  (tm_owner marker =? "commit-ci-preflight")%string
  && (tm_purpose marker =? "host-admission-ticket")%string
  && (tm_schema_version marker =? ADMISSION_SCHEMA_VERSION)%string
  && (tm_ticket_id marker =? id)%string.

(** The checks of a lease that do not name its ticket. *)
Definition lease_owned (lease : LeaseMarker) : bool :=
  (lm_owner lease =? "commit-ci-preflight")%string
  && (lm_purpose lease =? "host-admission-lease")%string
  && (lm_schema_version lease =? ADMISSION_SCHEMA_VERSION)%string.

Definition ticket_marker (id : string) : TicketMarker :=
  {| tm_owner := "commit-ci-preflight"; tm_purpose := "host-admission-ticket";
     tm_schema_version := ADMISSION_SCHEMA_VERSION; tm_ticket_id := id |}.
Definition queued_lease (id : string) (now : Z) : LeaseMarker :=
  {| lm_owner := "commit-ci-preflight"; lm_purpose := "host-admission-lease";
     lm_schema_version := ADMISSION_SCHEMA_VERSION; lm_owner_run_id := id;
     lm_acquired_at_unix_seconds := now; lm_heartbeat_at_unix_seconds := now;
     lm_state := "queued" |}.
Definition active_lease (lease : LeaseMarker) (acquired heartbeat : Z) : LeaseMarker :=
  {| lm_owner := lm_owner lease; lm_purpose := lm_purpose lease;
     lm_schema_version := lm_schema_version lease; lm_owner_run_id := lm_owner_run_id lease;
     lm_acquired_at_unix_seconds := acquired; lm_heartbeat_at_unix_seconds := heartbeat;
     lm_state := "active" |}.

(** A reservation, and the guard it becomes: the process keeps the lock of the
    ticket in [h_locks] and, with a guard, the slot in [h_slot]. *)
Record TicketReservation : Type := {
  re_id : string;
  re_path : string;
  re_lease_path : string;
}.
Record AdmissionGuard : Type := {
  ag_ticket_id : string;
  ag_ticket_path : string;
}.

(** [keep_first_error] over the results of a cleanup. *)
Definition keep_first_error {A} (first : result AdmissionError A) (r : result AdmissionError A) :
    result AdmissionError A := match first with Err _ => first | Ok _ => r end.

Section Coordinator.
Context `{CT : Codec TicketMarker} `{CL : Codec LeaseMarker}.

Definition read_ticket (n : option node) (path : string) : result AdmissionError TicketMarker :=
  content ← map_err (AdmissionIo path) (read_file n);
  ok_or (from_slice content) (MalformedTicket path).

(** The function [read_lease], and the method. *)
Definition read_lease_file (name : string) (n : option node) : result AdmissionError LeaseMarker :=
  content ← map_err (AdmissionIo (path_of LEASES_DIR name)) (read_file n);
  ok_or (from_slice content) (MalformedLease (path_of LEASES_DIR name)).

Definition read_lease (id : string) (h : Host) : result AdmissionError (option LeaseMarker) :=
  let name := lease_name id in
  match dir_entry LEASES_DIR name h with
  | None => Ok None
  | Some (File content) =>
    lease ← read_lease_file name (Some (File content));
    _ ← ensure (lease_owned lease && (lm_owner_run_id lease =? id)%string)
          (ForeignLease (path_of LEASES_DIR name));
    Ok (Some lease)
  | Some _ => Err (UnsafeLayout (path_of LEASES_DIR name))
  end.

Definition create_lease (name : string) (lease : LeaseMarker) : adm AdmissionError () :=
  content ← lift (ok_or (to_vec lease) Json);
  durable_create LEASES_DIR name (content ++ [line_feed]).

Definition write_lease (e : Env) (name : string) (lease : LeaseMarker) : adm AdmissionError () :=
  content ← lift (ok_or (to_vec lease) Json);
  durable_replace e LEASES_DIR name (content ++ [line_feed]).

Definition activate_lease (e : Env) (name id : string) : adm AdmissionError () :=
  lease ← reads (λ h, read_lease_file name (dir_entry LEASES_DIR name h));
  _ ← lift (ensure ((lm_owner_run_id lease =? id)%string && (lm_state lease =? "queued")%string)
              (ForeignLease (path_of LEASES_DIR name)));
  now ← lift (unix_seconds e);
  write_lease e name (active_lease lease now now).

Definition remove_lease (id : string) : adm AdmissionError () :=
  remove_if_present LEASES_DIR (lease_name id).

(** ** A new ticket *)

Definition highest_id (e : Env) (highest : Z) (entry : string * node) : adm AdmissionError Z :=
  let '(name, n) := entry in
  let path := path_of TICKETS_DIR name in
  _ ← check e;
  _ ← lift (match n with File _ => Ok () | _ => Err (MalformedTicket path) end);
  if starts_with TICKET_STAGING_PREFIX name then mret highest else
  id ← lift (parse_ticket_name name);
  value ← lift (ok_or (parse_unsigned u64_max id) (MalformedTicket path));
  mret (highest `max` value).

Definition read_counter (h : Host) : result AdmissionError Z :=
  match root_entry NEXT_TICKET h with
  | None => Ok 1
  | Some (File content) =>
    text ← ok_or (from_utf8 content) (AdmissionIo NEXT_TICKET OtherIo);
    ok_or (value ← parse_unsigned u64_max (trim text); if value >? 0 then Some value else None)
      (MalformedCounter NEXT_TICKET)
  | Some _ => Err (UnsafeLayout NEXT_TICKET)
  end.

Definition next_ticket_id (e : Env) : adm AdmissionError string :=
  _ ← check e;
  entries ← read_dir e TICKETS_DIR;
  highest ← adm_fold (highest_id e) 0 entries;
  counter ← reads read_counter;
  let next := highest `max` (0 `max` (counter - 1)) in
  next ← lift (ok_or (checked_u64 (next + 1)) TicketCounterExhausted);
  next_after ← lift (ok_or (checked_u64 (next + 1)) TicketCounterExhausted);
  _ ← durable_replace_root e NEXT_TICKET (bytes (decimal_text next_after) ++ [line_feed]);
  mret (str (pad_decimal 20 next)).

(** The last steps of [create_ticket]. *)
Definition first_lease (e : Env) (id name : string) : adm AdmissionError TicketReservation := λ h,
  match unix_seconds e with
  | Err error => (Err error, unlock_ticket (en_pid e) name h)
  | Ok now =>
    match create_lease (lease_name id) (queued_lease id now) h with
    | (Ok _, h) =>
      (Ok {| re_id := id; re_path := name; re_lease_path := lease_name id |}, h)
    | (Err error, h) =>
      (Err error, (remove_entry TICKETS_DIR name (unlock_ticket (en_pid e) name h)).2)
    end
  end.

(** The lock of a file this process has just created is free.  It follows the
    file to its final name, and is released with the file when a later step
    fails. *)
Definition create_ticket (e : Env) : adm AdmissionError TicketReservation :=
  id ← next_ticket_id e;
  sequence ← reads (λ h, Ok (h_sequence h));
  _ ← update next_sequence;
  let name := ticket_name id in
  let staging := TICKET_STAGING_PREFIX +:+ id +:+ "-" +:+ decimal_text (en_pid e) +:+ "-"
                   +:+ decimal_text sequence +:+ ".json" in
  content ← lift (ok_or (to_vec (ticket_marker id)) Json);
  _ ← durable_create TICKETS_DIR staging (content ++ [line_feed]);
  _ ← adm_map_err (AdmissionIo (path_of TICKETS_DIR name))
        (move_file TICKETS_DIR staging TICKETS_DIR name);
  _ ← update (λ h, set_locks (map_insert name (en_pid e) (h_locks h)) h);
  first_lease e id name.

(** ** The queue *)

Definition quarantine_file (name : string) : adm AdmissionError () :=
  sequence ← reads (λ h, Ok (h_sequence h));
  _ ← update next_sequence;
  adm_map_err (AdmissionIo (path_of TICKETS_DIR name))
    (move_file TICKETS_DIR name QUARANTINE_DIR (name +:+ "." +:+ decimal_text sequence)).

(** [try_lock_exclusive] on a ticket file: whether it would succeed.  The scan
    keeps the lock it takes at most until [remove_stale]. *)
Definition ticket_lock_free (name : string) (h : Host) : bool :=
  negb (is_Some_b (map_get name (h_locks h))).

(** How many entries were seen, and the live and the stale tickets. *)
Definition scan_acc : Type := nat * list TicketInfo * list TicketInfo.

Definition scan_entry (e : Env) (own_id : option string) (reclaim_stale : bool) (acc : scan_acc)
    (entry : string * node) : adm AdmissionError scan_acc :=
  let '(count, live, stale) := acc in
  let '(name, n) := entry in
  let path := path_of TICKETS_DIR name in
  let count := S count in
  _ ← lift (ensure (count <=? MAX_QUEUE_TICKETS)%nat QueueFull);
  _ ← lift (match n with File _ => Ok () | _ => Err (MalformedTicket path) end);
  if starts_with TICKET_STAGING_PREFIX name then
    if reclaim_stale then _ ← quarantine_file name; mret (count, live, stale)
    else lift (Err (RecoveryRequired path))
  else
  id ← lift (parse_ticket_name name);
  free ← reads (λ h, Ok (ticket_lock_free name h));
  match read_ticket (Some n) path with
  | Err (MalformedTicket _) =>
    if reclaim_stale && free then _ ← quarantine_file name; mret (count, live, stale)
    else lift (Err (MalformedTicket path))
  | Err error => lift (Err error)
  | Ok marker =>
    _ ← lift (ensure (ticket_valid marker id) (ForeignTicket path));
    let ticket := {| ti_id := id; ti_path := name |} in
    if bool_decide (own_id = Some id) then mret (count, live ++ [ticket], stale)
    else if free : bool then
      lease ← reads (read_lease id);
      if reclaim_stale && (match lease with None => true | Some lease => lease_is_expired e lease end)
      then mret (count, live, stale ++ [ticket])
      else mret (count, live ++ [ticket], stale)
    else mret (count, live ++ [ticket], stale)
  end.

Definition scan_tickets (e : Env) (own_id : option string) (reclaim_stale : bool) :
    adm AdmissionError (list TicketInfo * list TicketInfo) :=
  entries ← read_dir e TICKETS_DIR;
  acc ← adm_fold (scan_entry e own_id reclaim_stale) (0%nat, [], []) entries;
  let '(_, live, stale) := acc : scan_acc in
  mret (sort_by ti_id live, sort_by ti_id stale).

Definition remove_stale (stale : list TicketInfo) : adm AdmissionError () :=
  adm_each (λ ticket, _ ← quarantine_file (ti_path ticket); remove_lease (ti_id ticket)) stale.

Definition take_slot (e : Env) : adm AdmissionError bool := λ h,
  match h_slot h with
  | None => (Ok true, set_slot (Some (en_pid e)) h)
  | Some _ => (Ok false, h)
  end.
Definition try_lock_slot (e : Env) : adm AdmissionError bool :=
  _ ← open_lock_file SLOT_LOCK;
  take_slot e.

(** ** Leaving *)

(** [remove_file] of a path whose absence is no error, as a result to collect. *)
Definition cleanup_step (m : adm AdmissionError ()) (k : adm AdmissionError ()) :
    adm AdmissionError () := λ h,
  let '(first, h) := m h in
  let '(r, h) := k h in
  (keep_first_error first r, h).

(** [Drop] of a reservation, which takes no lock. *)
Definition drop_reservation (e : Env) (re : TicketReservation) (h : Host) : Host :=
  let h := unlock_ticket (en_pid e) (re_path re) h in
  let h := (remove_entry TICKETS_DIR (re_path re) h).2 in
  (remove_entry LEASES_DIR (re_lease_path re) h).2.

(** [TicketReservation::cleanup] waits for the queue lock on a deadline of its
    own, and its reservation is dropped when it does not get it. *)
Definition cleanup (e : Env) (re : TicketReservation) : adm AdmissionError () := λ h,
  match lock_queue_until AdmissionTimeout h with
  | (Err error, h) => (Err error, drop_reservation e re h)
  | (Ok _, h) =>
    cleanup_step
      (λ h, (Ok (), unlock_ticket (en_pid e) (re_path re) h))
      (cleanup_step (remove_if_present LEASES_DIR (re_lease_path re))
         (remove_if_present TICKETS_DIR (re_path re))) h
  end.

(** [release_inner]; the heartbeat has stopped. *)
Definition release_inner (e : Env) (g : AdmissionGuard) : adm AdmissionError () := λ h,
  match lock_queue_until AdmissionTimeout h with
  | (Err error, h) => (Err error, h)
  | (Ok _, h) =>
    cleanup_step (remove_lease (ag_ticket_id g))
      (cleanup_step
         (λ h, (Ok (), unlock_ticket (en_pid e) (ag_ticket_path g) (unlock_slot (en_pid e) h)))
         (remove_if_present TICKETS_DIR (ag_ticket_path g))) h
  end.

(** [Drop] of a guard: [release_inner], and its two files are closed. *)
Definition drop_guard (e : Env) (g : AdmissionGuard) (h : Host) : Host :=
  unlock_slot (en_pid e) (unlock_ticket (en_pid e) (ag_ticket_path g) (release_inner e g h).2).

(** [AdmissionGuard::release], which drops the guard at its end. *)
Definition release (e : Env) (g : AdmissionGuard) : adm AdmissionError () := λ h,
  let '(r, h) := release_inner e g h in
  (r, drop_guard e g h).

(** ** Admission *)

(** [acquire] between the initialisation and its loop. *)
Definition join_queue (e : Env) : adm AdmissionError TicketReservation :=
  _ ← lock_queue_until (en_wait e);
  scan ← scan_tickets e None true;
  let '(live, stale) := scan : list TicketInfo * list TicketInfo in
  _ ← remove_stale stale;
  _ ← lift (ensure (negb (MAX_QUEUE_TICKETS <=? length live)%nat) QueueFull);
  create_ticket e.

(** [acquire] up to its loop. *)
Definition enter (e : Env) : adm AdmissionError TicketReservation :=
  _ ← update (begin e);
  _ ← lift (from_timeout e);
  _ ← check e;
  _ ← initialize_until e;
  join_queue e.

Definition first_is_ours (live : list TicketInfo) (re : TicketReservation) : bool :=
  match live with
  | ticket :: _ => (ti_id ticket =? re_id re)%string
  | [] => false
  end.

(** One turn of the loop up to the slot: whether the slot lock was taken. *)
Definition take_turn (e : Env) (re : TicketReservation) : adm AdmissionError bool :=
  _ ← lock_queue_until (en_wait e);
  scan ← scan_tickets e (Some (re_id re)) true;
  let '(live, stale) := scan : list TicketInfo * list TicketInfo in
  _ ← remove_stale stale;
  if first_is_ours live re then try_lock_slot e else mret false.

(** The end of a reservation that returns an error. *)
Definition abandon {A} (e : Env) (re : TicketReservation) (error : AdmissionError) :
    adm AdmissionError A := λ h,
  match cleanup e re h with
  | (Err error', h) => (Err error', h)
  | (Ok _, h) => (Err error, h)
  end.

(** One turn of the loop of [acquire]: a guard, or nothing before the next turn. *)
Definition poll (e : Env) (re : TicketReservation) : adm AdmissionError (option AdmissionGuard) :=
  λ h,
  match check e (begin e h) with
  | (Err error, h) => abandon e re error h
  | (Ok _, h) =>
    match take_turn e re h with
    | (Err error, h) => (Err error, drop_reservation e re h)
    | (Ok false, h) => (Ok None, h)
    | (Ok true, h) =>
      match activate_lease e (re_lease_path re) (re_id re) h with
      | (Err error, h) => abandon e re error (unlock_slot (en_pid e) h)
      | (Ok _, h) => (Ok (Some {| ag_ticket_id := re_id re; ag_ticket_path := re_path re |}), h)
      end
    end
  end.

(** One beat of the thread of [HeartbeatHandle::start]: whether it goes on. *)
Definition heartbeat (e : Env) (g : AdmissionGuard) (h : Host) : bool * Host :=
  let name := lease_name (ag_ticket_id g) in
  match read_lease_file name (dir_entry LEASES_DIR name h) with
  | Err _ => (false, h)
  | Ok lease =>
    if negb (lm_owner_run_id lease =? ag_ticket_id g)%string || negb (lm_state lease =? "active")%string
    then (false, h) else
    match unix_seconds e with
    | Err _ => (false, h)
    | Ok now =>
      match write_lease e name (active_lease lease (lm_acquired_at_unix_seconds lease) now) h with
      | (r, h) => (is_ok r, h)
      end
    end
  end.

(** ** Status *)

Definition lock_status (name kind : string) (holder : option pid) :
    adm AdmissionError AdmissionLockStatusV1 :=
  present ← open_existing_lock_file name;
  mret {| ls_kind := kind;
          ls_state := if present : bool then (if holder is Some _ then "held" else "free") else "unknown";
          ls_owner_run_id := None; ls_acquired_at_unix_seconds := None;
          ls_heartbeat_at_unix_seconds := None; ls_lease_state := "not_applicable" |}.

Definition active_lease_entry (leases : list LeaseMarker) (entry : string * node) :
    result AdmissionError (list LeaseMarker) :=
  let '(name, n) := entry in
  let path := path_of LEASES_DIR name in
  _ ← validate_regular path n;
  _ ← ensure (starts_with LEASE_PREFIX name && is_Some_b (strip_suffix LEASE_SUFFIX name))
        (MalformedLease path);
  lease ← read_lease_file name (Some n);
  _ ← ensure (lease_owned lease) (ForeignLease path);
  if (lm_state lease =? "queued")%string then Ok leases else
  _ ← ensure (lm_state lease =? "active")%string (ForeignLease path);
  Ok (leases ++ [lease]).

Definition active_leases (e : Env) (h : Host) : result AdmissionError (list LeaseMarker) :=
  match root_entry LEASES_DIR h with
  | None => Ok []
  | Some (Dir entries) => try_fold active_lease_entry [] (en_read_dir e entries)
  | Some _ => Err (AdmissionIo LEASES_DIR OtherIo)
  end.

Definition slot_status (e : Env) : adm AdmissionError AdmissionLockStatusV1 :=
  holder ← reads (λ h, Ok (h_slot h));
  lock ← lock_status SLOT_LOCK "slot_lock" holder;
  leases ← reads (active_leases e);
  let candidate := match leases : list LeaseMarker with [lease] => Some lease | _ => None end in
  let lease_state :=
    match candidate with
    | Some lease => if lease_is_expired e lease then "expired" else "active"
    | None => if is_nil leases then "absent" else "unknown"
    end in
  let contradictory := (ls_state lock =? "free")%string && negb (is_nil leases) in
  mret {| ls_kind := "slot_lock";
          ls_state := if contradictory then "unknown" else ls_state lock;
          ls_owner_run_id := lm_owner_run_id <$> candidate;
          ls_acquired_at_unix_seconds := lm_acquired_at_unix_seconds <$> candidate;
          ls_heartbeat_at_unix_seconds := lm_heartbeat_at_unix_seconds <$> candidate;
          ls_lease_state := lease_state |}.

Definition empty_status : AdmissionStatusV1 :=
  {| as_schema_version := ADMISSION_STATUS_SCHEMA_VERSION;
     as_active := false; as_queue_count := 0; as_ticket_ids := [];
     as_slot := {| ls_kind := "slot_lock"; ls_state := "free"; ls_owner_run_id := None;
                   ls_acquired_at_unix_seconds := None; ls_heartbeat_at_unix_seconds := None;
                   ls_lease_state := "absent" |};
     as_queue_lock := {| ls_kind := "queue_lock"; ls_state := "free"; ls_owner_run_id := None;
                         ls_acquired_at_unix_seconds := None; ls_heartbeat_at_unix_seconds := None;
                         ls_lease_state := "not_applicable" |};
     as_process_visibility_note := PROCESS_VISIBILITY_NOTE |}.

Definition status_with_timeout (e : Env) : adm AdmissionError AdmissionStatusV1 :=
  _ ← update (begin e);
  _ ← lift (from_timeout e);
  _ ← check e;
  present ← root_exists;
  if negb present then mret empty_status else
  owned ← valid_owner_marker_exists;
  _ ← lift (ensure owned (ForeignOwner OWNER_FILE));
  queue_lock ← lock_status QUEUE_LOCK "queue_lock" (en_queue e);
  _ ← lock_queue_until (en_wait e);
  owned ← valid_owner_marker_exists;
  _ ← lift (ensure owned (ForeignOwner OWNER_FILE));
  _ ← validate_layout e true;
  scan ← scan_tickets e None false;
  let '(live, _) := scan : list TicketInfo * list TicketInfo in
  slot ← slot_status e;
  let active := (ls_state slot =? "held")%string in
  let first := if active && negb (is_nil live) then 1%nat else 0%nat in
  let ticket_ids := ti_id <$> drop first live in
  mret {| as_schema_version := ADMISSION_STATUS_SCHEMA_VERSION;
          as_active := active;
          as_queue_count := length ticket_ids;
          as_ticket_ids := ticket_ids;
          as_slot := slot;
          as_queue_lock := queue_lock;
          as_process_visibility_note := PROCESS_VISIBILITY_NOTE |}.
End Coordinator.
