(* ===== verification/AdmissionProps.v ===== *)
(** Lemmas on the admission coordinator ([Admission.v]): names and identifiers of
    tickets, the entries of its directories after each change, and the tree that
    its operations keep. *)
From S2P Require Import Prelude.
From S2P Require Import RustStr.
From S2P Require Import BTree.
From S2P Require Import Canonical.
From S2P Require Import Durable.
From S2P Require Import Admission.
Local Open Scope Z_scope.

(** * Names *)

Lemma strip_suffix_some p s r : strip_suffix p s = Some r ↔ s = r +:+ p.
Proof.
  unfold strip_suffix. split.
  - intros H. destruct (strip_list _ _) as [l|] eqn:E; [|done]. injection H as <-.
    apply strip_list_some in E. apply bytes_inj. cbn. rewrite bytes_append, bytes_str.
    by rewrite <-(reverse_involutive (bytes s)), E, reverse_app, reverse_involutive.
  - intros ->. rewrite bytes_append, reverse_app.
    rewrite (proj2 (strip_list_some _ _ (reverse (bytes r)))) by done.
    cbn. by rewrite reverse_involutive, str_bytes.
Qed.

Lemma parse_ticket_name_ok name id :
  parse_ticket_name name = Ok id ↔ name = ticket_name id ∧ is_ticket_id id = true.
Proof.
  unfold parse_ticket_name, ticket_name. rewrite ok_or_ok. split.
  - intros H. opt_inv. destruct (is_ticket_id _) eqn:Hid; [|done]. injection H as <-.
    rename select (strip_suffix _ _ = _) into Hs. rename select (strip_prefix _ _ = _) into Hp.
    apply strip_suffix_some in Hs as ->. by apply strip_prefix_some in Hp as ->.
  - intros [-> Hid]. rewrite (proj2 (strip_prefix_some _ _ _) eq_refl). cbn [mbind option_bind].
    rewrite (proj2 (strip_suffix_some _ _ _) eq_refl). cbn [mbind option_bind]. by rewrite Hid.
Qed.

Lemma append_inj_r s t p : s +:+ p = t +:+ p → s = t.
Proof.
  intros H. apply (f_equal (strip_suffix p)) in H.
  rewrite (proj2 (strip_suffix_some p _ s) eq_refl), (proj2 (strip_suffix_some p _ t) eq_refl) in H.
  congruence.
Qed.

#[global] Instance ticket_name_inj : Inj (=) (=) ticket_name.
Proof. intros x y H. unfold ticket_name in H. by apply append_inj, append_inj_r in H. Qed.
#[global] Instance lease_name_inj : Inj (=) (=) lease_name.
Proof. intros x y H. unfold lease_name in H. by apply append_inj, append_inj_r in H. Qed.

Lemma ticket_name_not_staged id : starts_with TICKET_STAGING_PREFIX (ticket_name id) = false.
Proof. unfold starts_with, strip_prefix. done. Qed.

(** ** Identifiers in order *)

Lemma digits_val_bound acc l x :
  digits_val acc l = Some x →
  acc * 10 ^ Z.of_nat (length l) ≤ x < (acc + 1) * 10 ^ Z.of_nat (length l).
Proof.
  revert acc. induction l as [|a l IH]; intros acc; cbn [digits_val length].
  { intros [= ->]. cbn. lia. }
  destruct (is_ascii_digit a) eqn:Ha; [|done]. intros H. apply IH in H.
  apply digit_val_bound in Ha. rewrite Nat2Z.inj_succ, Z.pow_succ_r by lia.
  set (p := 10 ^ Z.of_nat (length l)) in *. assert (0 < p) by (subst p; lia). nia.
Qed.

(** Numbers of one width are ordered as their texts. *)
Lemma digits_val_compare acc l m x y :
  length l = length m → digits_val acc l = Some x → digits_val acc m = Some y → x < y →
  String.compare (str l) (str m) = Lt.
Proof.
  revert acc m. induction l as [|a l IH]; intros acc [|b m]; cbn [length digits_val]; try done.
  { intros _ [= ->] [= ->]. lia. }
  intros [= Hlen]. destruct (is_ascii_digit a) eqn:Ha; [|done].
  destruct (is_ascii_digit b) eqn:Hb; [|done]. intros Hx Hy Hxy. cbn.
  pose proof (digits_val_bound _ _ _ Hx) as Bx. pose proof (digits_val_bound _ _ _ Hy) as By.
  rewrite Hlen in Bx. set (p := 10 ^ Z.of_nat (length m)) in *. assert (0 < p) by (subst p; lia).
  assert (Hab : digit_val a ≤ digit_val b) by nia. unfold digit_val in *.
  unfold Ascii.compare. destruct (N.compare_spec (N_of_ascii a) (N_of_ascii b)) as [E|E|E]; [|done|].
  - assert (a = b) as -> by (rewrite <-(ascii_N_embedding a), E; apply ascii_N_embedding).
    by apply (IH _ m Hlen Hx).
  - unfold code in Hab. lia.
Qed.

Lemma digits_val_total l acc : forallb is_ascii_digit l = true → ∃ n, digits_val acc l = Some n.
Proof.
  revert acc. induction l as [|a l IH]; intros acc; cbn; [by eexists|].
  destruct (is_ascii_digit a); [apply IH|done].
Qed.

(** The number of a ticket. *)
Definition ticket_number (id : string) : Z := default 0 (digits_val 0 (bytes id)).

Lemma is_ticket_id_spec id :
  is_ticket_id id = true →
  length (bytes id) = 20%nat ∧ digits_val 0 (bytes id) = Some (ticket_number id) ∧
  0 ≤ ticket_number id < 10 ^ 20.
Proof.
  unfold is_ticket_id. intros [Hl Hd]%andb_true_iff. apply Nat.eqb_eq in Hl. rewrite length_bytes.
  destruct (digits_val_total (bytes id) 0 Hd) as [n Hn].
  unfold ticket_number. rewrite Hn. cbn. split_and!; [done|done|..];
    apply digits_val_bound in Hn; rewrite length_bytes, Hl in Hn; lia.
Qed.

Lemma ticket_number_order i j :
  is_ticket_id i = true → is_ticket_id j = true → ticket_number i < ticket_number j →
  lt_ord i j.
Proof.
  intros (Hi & Ei & _)%is_ticket_id_spec (Hj & Ej & _)%is_ticket_id_spec Hij.
  unfold lt_ord. cbn. rewrite <-(str_bytes i), <-(str_bytes j).
  eapply digits_val_compare; [congruence|exact Ei|exact Ej|done].
Qed.

Lemma parse_ticket_id i : is_ticket_id i = true → ticket_number i ≤ u64_max →
  parse_unsigned u64_max i = Some (ticket_number i).
Proof.
  intros Hid Hm. pose proof (is_ticket_id_spec _ Hid) as (Hl & Hv & _). unfold parse_unsigned.
  unfold is_ticket_id in Hid. apply andb_true_iff in Hid as [_ Hd].
  destruct (bytes i) as [|a l]; [done|]. cbn in Hd. apply andb_true_iff in Hd as [Ha _].
  destruct (Ascii.eqb_spec a "+") as [->|_]; [done|]. rewrite Hv. cbn.
  by rewrite (proj2 (Z.leb_le _ _) Hm).
Qed.

Lemma parse_ticket_id_inv i n : is_ticket_id i = true → parse_unsigned u64_max i = Some n →
  n = ticket_number i ∧ n ≤ u64_max.
Proof.
  intros Hid. pose proof (is_ticket_id_spec _ Hid) as (Hl & Hv & _). unfold parse_unsigned.
  unfold is_ticket_id in Hid. apply andb_true_iff in Hid as [_ Hd].
  destruct (bytes i) as [|a l]; [done|]. cbn in Hd. apply andb_true_iff in Hd as [Ha _].
  destruct (Ascii.eqb_spec a "+") as [->|_]; [done|]. rewrite Hv. cbn.
  destruct (_ <=? _) eqn:E; [|done]. intros [= <-]. by apply Z.leb_le in E.
Qed.

Lemma pad_ticket_id n : 0 ≤ n < 10 ^ 20 →
  is_ticket_id (str (pad_decimal 20 n)) = true ∧ ticket_number (str (pad_decimal 20 n)) = n.
Proof.
  intros Hn. pose proof (digits_val_pad 20 n Hn) as Hv. unfold is_ticket_id, ticket_number.
  rewrite <-length_bytes, bytes_str, length_pad_decimal, Hv. split; [|done].
  by rewrite (digits_val_all _ _ Hv).
Qed.

(** * Entries after a change *)

Lemma length_map_insert {V} k (v : V) (m : btmap string V) :
  (length (map_insert k v m) ≤ S (length m))%nat.
Proof.
  induction m as [|[z w] m IH]; cbn; [done|]. destruct (String.compare k z); cbn; lia.
Qed.

Lemma length_map_replace {V} k (v : V) (m : btmap string V) :
  map_sorted m → map_get k m ≠ None → length (map_insert k v m) = length m.
Proof.
  intros Hs Hk. rewrite <-!(length_fmap fst). change (length (map_keys (map_insert k v m)) = length (map_keys m)).
  f_equal. apply sorted_ext; [by apply map_insert_sorted|done|]. intros x.
  rewrite map_keys_insert, elem_of_set_insert. split; [|by right]. intros [->|]; [|done].
  destruct (decide (k ∈ map_keys m)) as [|N]; [done|]. by apply map_get_none in N.
Qed.

(** Lookups in maps that were changed, in the goal and in the context. *)
Ltac map_simp :=
  repeat match goal with
  | H : context [map_get _ (remove_key _ _)] |- _ => rewrite map_get_remove_key in H
  | H : context [map_get _ (map_insert _ _ _)] |- _ => rewrite map_get_insert in H
  | |- context [map_get _ (remove_key _ _)] => rewrite map_get_remove_key
  | |- context [map_get _ (map_insert _ _ _)] => rewrite map_get_insert
  end.

(** Two maps agree except at one name. *)
Definition agree_but {V} (k : string) (m m' : btmap string V) : Prop :=
  ∀ name, name ≠ k → map_get name m' = map_get name m.

Lemma agree_but_insert {V} k (v : V) m : agree_but k m (map_insert k v m).
Proof. intros name Hn. map_simp. by rewrite decide_False. Qed.
Lemma agree_but_remove {V} k (m : btmap string V) : agree_but k m (remove_key k m).
Proof. intros name Hn. map_simp. by rewrite decide_False. Qed.
Lemma agree_but_refl {V} k (m : btmap string V) : agree_but k m m.
Proof. by intros name. Qed.
#[export] Hint Resolve agree_but_insert agree_but_remove agree_but_refl : core.

Lemma root_entry_put name k n h :
  root_entry name (put_entry k n h) = if decide (name = k) then Some n else root_entry name h.
Proof.
  change (root_entry name (put_entry k n h)) with (map_get name (map_insert k n (root_entries h))).
  rewrite map_get_insert. by repeat case_decide.
Qed.

Lemma dir_entries_root d es h : root_entry d h = Some (Dir es) → dir_entries d h = es.
Proof. unfold dir_entries. by intros ->. Qed.

(** * The state of the host *)

(** The three directories with their entries, the locks of tickets and the slot;
    the queue lock is free. *)
Record host_is (h : Host) (T L Q : btmap string node) (K : btmap string pid) (s : option pid) : Prop := {
  hi_tickets : root_entry TICKETS_DIR h = Some (Dir T);
  hi_leases : root_entry LEASES_DIR h = Some (Dir L);
  hi_quarantine : root_entry QUARANTINE_DIR h = Some (Dir Q);
  hi_queue_file : ∃ c, root_entry QUEUE_LOCK h = Some (File c);
  hi_slot_file : (root_entry SLOT_LOCK h = None ∧ s = None) ∨ ∃ c, root_entry SLOT_LOCK h = Some (File c);
  hi_locks : h_locks h = K;
  hi_slot : h_slot h = s;
  hi_queue : h_queue h = None;
}.

(** Changes that leave the tree and the locks. *)
Lemma host_is_same h h' T L Q K s :
  h_root h' = h_root h → h_locks h' = h_locks h → h_slot h' = h_slot h → h_queue h' = h_queue h →
  host_is h T L Q K s → host_is h' T L Q K s.
Proof.
  intros Hr Hl Hs Hq []. constructor; unfold root_entry, root_entries in *; by rewrite ?Hr, ?Hl, ?Hs, ?Hq.
Qed.

Lemma host_is_put_tickets h T L Q K s T' :
  host_is h T L Q K s → host_is (put_dir TICKETS_DIR T' h) T' L Q K s.
Proof. intros []. constructor; unfold put_dir; rewrite ?root_entry_put; done. Qed.
Lemma host_is_put_leases h T L Q K s L' :
  host_is h T L Q K s → host_is (put_dir LEASES_DIR L' h) T L' Q K s.
Proof. intros []. constructor; unfold put_dir; rewrite ?root_entry_put; done. Qed.
Lemma host_is_put_quarantine h T L Q K s Q' :
  host_is h T L Q K s → host_is (put_dir QUARANTINE_DIR Q' h) T L Q' K s.
Proof. intros []. constructor; unfold put_dir; rewrite ?root_entry_put; done. Qed.
Lemma host_is_set_locks h T L Q K s K' :
  host_is h T L Q K s → host_is (set_locks K' h) T L Q K' s.
Proof. intros []. by constructor. Qed.
Lemma host_is_free_slot h T L Q K s :
  host_is h T L Q K s → host_is (set_slot None h) T L Q K None.
Proof. intros [???? [[??]|?]]; constructor; auto. Qed.
Lemma host_is_take_slot h T L Q K s s' :
  host_is h T L Q K s → (∃ c, root_entry SLOT_LOCK h = Some (File c)) → host_is (set_slot s' h) T L Q K s'.
Proof. intros [] ?. constructor; auto. Qed.
#[export] Hint Resolve host_is_put_tickets host_is_put_leases host_is_put_quarantine
  host_is_set_locks host_is_free_slot : ccp.

Lemma host_is_begin e h T L Q K s : host_is h T L Q K s → host_is (begin e h) T L Q K s.
Proof. by apply host_is_same. Qed.
Lemma host_is_next_check h T L Q K s : host_is h T L Q K s → host_is (next_check h) T L Q K s.
Proof. by apply host_is_same. Qed.
Lemma host_is_next_sequence h T L Q K s : host_is h T L Q K s → host_is (next_sequence h) T L Q K s.
Proof. by apply host_is_same. Qed.
#[export] Hint Resolve host_is_begin host_is_next_check host_is_next_sequence : ccp.

Lemma host_is_dirs h T L Q K s :
  host_is h T L Q K s →
  dir_entries TICKETS_DIR h = T ∧ dir_entries LEASES_DIR h = L ∧ dir_entries QUARANTINE_DIR h = Q.
Proof. intros []. by split_and!; apply dir_entries_root. Qed.

Lemma dir_entry_is h T L Q K s name :
  host_is h T L Q K s →
  dir_entry TICKETS_DIR name h = map_get name T ∧ dir_entry LEASES_DIR name h = map_get name L
  ∧ dir_entry QUARANTINE_DIR name h = map_get name Q.
Proof. intros (HT & HL & HQ)%host_is_dirs. unfold dir_entry. by rewrite HT, HL, HQ. Qed.

Definition is_file (n : node) : Prop := ∃ c, n = File c.
Definition all_files (m : btmap string node) : Prop := ∀ name n, map_get name m = Some n → is_file n.

Lemma all_files_insert m k c : all_files m → all_files (map_insert k (File c) m).
Proof. intros Hm name n. map_simp. case_decide; [intros [= <-]; by eexists|apply Hm]. Qed.
Lemma all_files_remove m k : all_files m → all_files (remove_key k m).
Proof. intros Hm name n. map_simp. case_decide; [done|apply Hm]. Qed.
#[export] Hint Resolve all_files_insert all_files_remove : ccp.

(** ** The elementary operations *)

Lemma bind_adm {E A B} (m : adm E A) (f : A → adm E B) h :
  (m ≫= f) h = match m h with (Ok x, h') => f x h' | (Err e, h') => (Err e, h') end.
Proof. done. Qed.

Lemma bind_adm_ok {E A B} (m : adm E A) (f : A → adm E B) h a h' :
  m h = (Ok a, h') → (m ≫= f) h = f a h'.
Proof. intros H. by rewrite bind_adm, H. Qed.
Lemma bind_adm_err {E A B} (m : adm E A) (f : A → adm E B) h e h' :
  m h = (Err e, h') → (m ≫= f) h = (Err e, h').
Proof. intros H. by rewrite bind_adm, H. Qed.

Lemma lock_queue_ok wait h T L Q K s :
  host_is h T L Q K s → lock_queue_until wait h = (Ok (), h).
Proof.
  intros []. destruct hi_queue_file0 as [c Hc].
  unfold lock_queue_until, open_queue, open_existing_lock_file, lock_exclusive_until.
  rewrite !bind_adm. unfold reads. rewrite Hc. cbn. by rewrite hi_queue0.
Qed.

Lemma quarantine_file_ok name h T L Q K s c :
  host_is h T L Q K s → map_get name T = Some (File c) → all_files Q →
  ∃ q h', quarantine_file name h = (Ok (), h')
    ∧ host_is h' (remove_key name T) L (map_insert q (File c) Q) K s.
Proof.
  intros Hh HT HQ. set (q := name +:+ "." +:+ decimal_text (h_sequence h)).
  set (h1 := next_sequence h).
  change (quarantine_file name h) with (adm_map_err (AdmissionIo (path_of TICKETS_DIR name))
    (move_file TICKETS_DIR name QUARANTINE_DIR q) h1).
  assert (H1 : host_is h1 T L Q K s) by (subst h1; eauto with ccp). exists q.
  unfold adm_map_err, move_file. pose proof (dir_entry_is _ _ _ _ _ _ name H1) as (-> & _ & _).
  rewrite HT, (hi_quarantine _ _ _ _ _ _ H1).
  pose proof (host_is_dirs _ _ _ _ _ _ H1) as (-> & _ & _).
  set (h2 := put_dir TICKETS_DIR _ h1).
  assert (H2 : host_is h2 (remove_key name T) L Q K s) by (subst h2; eauto with ccp).
  pose proof (host_is_dirs _ _ _ _ _ _ H2) as (_ & _ & ->).
  destruct (map_get q Q) as [n|] eqn:Eq; [destruct (HQ _ _ Eq) as [c' ->]|];
    (eexists; split; [done|]; eauto with ccp).
Qed.

Lemma remove_entry_leases name h T L Q K s :
  host_is h T L Q K s → all_files L →
  ∃ r h', remove_entry LEASES_DIR name h = (r, h') ∧ (r = Ok () ∨ r = Err NotFound)
    ∧ host_is h' T (remove_key name L) Q K s.
Proof.
  intros Hh HL. unfold remove_entry. pose proof (dir_entry_is _ _ _ _ _ _ name Hh) as (_ & -> & _).
  pose proof (host_is_dirs _ _ _ _ _ _ Hh) as (_ & -> & _).
  destruct (map_get name L) as [n|] eqn:E.
  - destruct (HL _ _ E) as [c ->]. do 2 eexists. split; [done|]. split; [by left|]. eauto with ccp.
  - do 2 eexists. split; [done|]. split; [by right|]. by rewrite remove_key_absent.
Qed.

Lemma remove_entry_tickets name h T L Q K s :
  host_is h T L Q K s → all_files T →
  ∃ r h', remove_entry TICKETS_DIR name h = (r, h') ∧ (r = Ok () ∨ r = Err NotFound)
    ∧ host_is h' (remove_key name T) L Q K s.
Proof.
  intros Hh HL. unfold remove_entry. pose proof (dir_entry_is _ _ _ _ _ _ name Hh) as (-> & _ & _).
  pose proof (host_is_dirs _ _ _ _ _ _ Hh) as (-> & _ & _).
  destruct (map_get name T) as [n|] eqn:E.
  - destruct (HL _ _ E) as [c ->]. do 2 eexists. split; [done|]. split; [by left|]. eauto with ccp.
  - do 2 eexists. split; [done|]. split; [by right|]. by rewrite remove_key_absent.
Qed.

Lemma remove_lease_present name h T L Q K s :
  host_is h T L Q K s → all_files L →
  ∃ h', remove_if_present LEASES_DIR name h = (Ok (), h') ∧ host_is h' T (remove_key name L) Q K s.
Proof.
  intros Hh HL. destruct (remove_entry_leases name _ _ _ _ _ _ Hh HL) as (r & h' & E & Hr & Hh').
  exists h'. split; [|done]. unfold remove_if_present. rewrite E. by destruct Hr as [-> | ->].
Qed.

Lemma remove_ticket_present name h T L Q K s :
  host_is h T L Q K s → all_files T →
  ∃ h', remove_if_present TICKETS_DIR name h = (Ok (), h') ∧ host_is h' (remove_key name T) L Q K s.
Proof.
  intros Hh HT. destruct (remove_entry_tickets name _ _ _ _ _ _ Hh HT) as (r & h' & E & Hr & Hh').
  exists h'. split; [|done]. unfold remove_if_present. rewrite E. by destruct Hr as [-> | ->].
Qed.

Lemma unlock_ticket_is p name h T L Q K s :
  host_is h T L Q K s → map_get name K = Some p →
  host_is (unlock_ticket p name h) T L Q (remove_key name K) s.
Proof.
  intros Hh Hk. unfold unlock_ticket. rewrite (hi_locks _ _ _ _ _ _ Hh), bool_decide_true by done.
  eauto with ccp.
Qed.
Lemma unlock_ticket_other p name h T L Q K s :
  host_is h T L Q K s → map_get name K ≠ Some p → host_is (unlock_ticket p name h) T L Q K s.
Proof.
  intros Hh Hk. unfold unlock_ticket. by rewrite (hi_locks _ _ _ _ _ _ Hh), bool_decide_false by done.
Qed.

Lemma unlock_slot_is p h T L Q K s :
  host_is h T L Q K s →
  host_is (unlock_slot p h) T L Q K (if bool_decide (s = Some p) then None else s).
Proof.
  intros Hh. unfold unlock_slot. rewrite (hi_slot _ _ _ _ _ _ Hh).
  case_bool_decide; [eauto with ccp|done].
Qed.
