(* ===== verification/AdmissionScan.v ===== *)
(** The scan of the queue of the admission coordinator ([Admission.v]): what the
    directories of a coordinator contain, and what a scan and the removal of its
    stale tickets leave. *)
From S2P Require Import Prelude.
From S2P Require Import RustStr.
From S2P Require Import BTree.
From S2P Require Import Canonical.
From S2P Require Import Durable.
From S2P Require Import Admission.
From S2P Require Import AdmissionProps.
Local Open Scope Z_scope.

(** * The contents of the directories *)

Section Contents.
Context `{CT : Codec TicketMarker} `{CL : Codec LeaseMarker}.

Definition valid_ticket (n : node) (id : string) : Prop :=
  ∃ c m, n = File c ∧ from_slice c = Some m ∧ ticket_valid m id = true.

Definition valid_lease (n : node) (id : string) (l : LeaseMarker) : Prop :=
  ∃ c, n = File c ∧ from_slice c = Some l ∧ lease_owned l = true ∧ lm_owner_run_id l = id.

(** A file of the directory of tickets is a staged ticket, a valid ticket or an
    unreadable one that nobody holds. *)
Definition ticket_file (K : btmap string pid) (name : string) (n : node) : Prop :=
  is_file n ∧
  (starts_with TICKET_STAGING_PREFIX name = true ∨
   ∃ id, name = ticket_name id ∧ is_ticket_id id = true ∧
     (valid_ticket n id ∨ (∀ c, n = File c → from_slice (T := TicketMarker) c = None) ∧ map_get name K = None)).

Record contents (T L Q : btmap string node) (K : btmap string pid) : Prop := {
  co_tickets_sorted : map_sorted T;
  co_leases_sorted : map_sorted L;
  co_count : (length T ≤ MAX_QUEUE_TICKETS)%nat;
  co_tickets : ∀ name n, map_get name T = Some n → ticket_file K name n;
  co_leases : ∀ name n, map_get name L = Some n →
    ∃ id l n', name = lease_name id ∧ valid_lease n id l ∧ map_get (ticket_name id) T = Some n'
      ∧ valid_ticket n' id ∧ is_ticket_id id = true;
  co_active : ∀ id n l id' n', map_get (lease_name id) L = Some n → valid_lease n id l →
    lm_state l ≠ "queued" → map_get (ticket_name id') T = Some n' → is_ticket_id id' = true →
    id = id' ∨ lt_ord id id';
  co_quarantine : all_files Q;
}.

Lemma contents_files T L Q K : contents T L Q K → all_files T ∧ all_files L ∧ all_files Q.
Proof.
  intros []. split_and!; [|..|done].
  - intros name n Hn. by apply co_tickets0 in Hn as [? _].
  - intros name n Hn. apply co_leases0 in Hn as (? & ? & ? & ? & (c & -> & _) & _). by exists c.
Qed.

Lemma contents_quarantine T L Q K Q' : all_files Q' → contents T L Q K → contents T L Q' K.
Proof. intros HQ []. by constructor. Qed.

(** Removing what is not a valid ticket. *)
Lemma contents_drop T L Q K name :
  contents T L Q K →
  (∀ id n, name = ticket_name id → map_get name T = Some n → ¬ valid_ticket n id) →
  contents (remove_key name T) L Q K.
Proof.
  intros [] Hname. constructor; try done.
  - by apply remove_key_sorted.
  - etrans; [apply length_remove_key|done].
  - intros name' n. map_simp. case_decide; [done|apply co_tickets0].
  - intros name' n Hn. destruct (co_leases0 _ _ Hn) as (id & l & n' & ? & ? & ? & ? & ?).
    exists id, l, n'. map_simp. case_decide as D; [|done]. by destruct (Hname id n' (eq_sym D)); subst.
  - intros id n l id' n' Hn Hl Hs. map_simp. case_decide; [done|]. by apply (co_active0 id n l).
Qed.

(** Removing a ticket with its lease. *)
Lemma contents_remove T L Q K id :
  contents T L Q K → contents (remove_key (ticket_name id) T) (remove_key (lease_name id) L) Q K.
Proof.
  intros []. constructor; try done.
  - by apply remove_key_sorted.
  - by apply remove_key_sorted.
  - etrans; [apply length_remove_key|done].
  - intros name n. map_simp. case_decide; [done|apply co_tickets0].
  - intros name n. map_simp. case_decide; [done|]. intros Hn.
    destruct (co_leases0 _ _ Hn) as (id' & l & n' & ? & ? & ? & ? & ?). exists id', l, n'. map_simp.
    case_decide as D; [|done]. apply ticket_name_inj in D. by subst.
  - intros id1 n l id' n'. map_simp. case_decide; [done|]. intros Hn Hl Hs. case_decide; [done|].
    by apply (co_active0 id1 n l).
Qed.

(** Locks that are given up matter only for unreadable tickets. *)
Lemma contents_locks T L Q K K' :
  (∀ name, map_get name K = None → map_get name K' = None) → contents T L Q K → contents T L Q K'.
Proof.
  intros HK []. constructor; try done. intros name n Hn.
  destruct (co_tickets0 _ _ Hn) as [? [?|(id & ? & ? & [?|[? ?]])]]; (split; [done|]); [by left|..];
    right; exists id; (split_and!; [done..|]); [by left|]. right. auto.
Qed.

Lemma contents_unlock T L Q K name : contents T L Q K → contents T L Q (remove_key name K).
Proof. apply contents_locks. intros name' ?. map_simp. by case_decide. Qed.

(** ** The scan *)

(** What the scan says of the tickets it has seen: [pre] are the entries it has
    read, [all] the tickets it has kept. *)
Record scanned (e : Env) (own : option string) (T L : btmap string node) (K : btmap string pid)
    (pre : list (string * node)) (live stale : list TicketInfo) (T' : btmap string node) : Prop := {
  sc_gone : ∀ name, name ∈ pre.*1 → name ∉ ti_path <$> live ++ stale → map_get name T' = None;
  sc_kept : ∀ name, name ∉ pre.*1 ∨ name ∈ ti_path <$> live ++ stale → map_get name T' = map_get name T;
  sc_seen : ∀ t, t ∈ live ++ stale → ti_path t ∈ pre.*1 ∧ ti_path t = ticket_name (ti_id t) ∧
    is_ticket_id (ti_id t) = true ∧ ∃ n, map_get (ti_path t) T = Some n ∧ valid_ticket n (ti_id t);
  sc_nodup : NoDup (ti_path <$> live ++ stale);
  sc_valid : ∀ id n, ticket_name id ∈ pre.*1 → map_get (ticket_name id) T = Some n →
    valid_ticket n id → ticket_name id ∈ ti_path <$> live ++ stale;
  sc_live : ∀ t, t ∈ live → own = Some (ti_id t) ∨ map_get (ti_path t) K ≠ None ∨
    ∃ n l, map_get (lease_name (ti_id t)) L = Some n ∧ valid_lease n (ti_id t) l ∧
      lease_is_expired e l = false;
  sc_stale : ∀ t, t ∈ stale → own ≠ Some (ti_id t) ∧ map_get (ti_path t) K = None ∧
    ∀ n l, map_get (lease_name (ti_id t)) L = Some n → valid_lease n (ti_id t) l →
      lease_is_expired e l = true;
}.

Definition scan_inv (e : Env) (own : option string) (T L Q : btmap string node) (K : btmap string pid)
    (s : option pid) (pre : list (string * node)) (acc : scan_acc) (hc : Host) : Prop :=
  let '(count, live, stale) := acc in
  count = length pre ∧
  ∃ T' Q', host_is hc T' L Q' K s ∧ contents T' L Q' K ∧ scanned e own T L K pre live stale T'.

(** An entry that goes to quarantine. *)
Lemma scanned_drop e own T L K pre name n live stale T' :
  scanned e own T L K pre live stale T' → name ∉ pre.*1 → map_get name T = Some n →
  (∀ id, name = ticket_name id → ¬ valid_ticket n id) →
  scanned e own T L K (pre ++ [(name, n)]) live stale (remove_key name T').
Proof.
  intros [] Hn HT Hno. assert (Hnot : name ∉ ti_path <$> live ++ stale).
  { intros (t & -> & Ht)%list_elem_of_fmap. by apply sc_seen0 in Ht as [? _]. }
  constructor; try done; rewrite fmap_app.
  - intros x Hx Hout. map_simp. case_decide; [done|]. apply sc_gone0; [|done]. set_solver.
  - intros x Hx. map_simp. case_decide as D; [subst; set_solver|]. apply sc_kept0. set_solver.
  - intros t Ht. destruct (sc_seen0 _ Ht) as [? ?]. set_solver.
  - intros id n' [Hin|Hin%list_elem_of_singleton]%elem_of_app Hget Hv; [by apply (sc_valid0 id n')|].
    cbn in Hin. rewrite Hin, HT in Hget. injection Hget as <-. by destruct (Hno id (eq_sym Hin)).
Qed.

(** An entry that is kept; [live'] and [stale'] have one ticket more. *)
Lemma scanned_keep e own T L K pre name n live stale live' stale' T' t :
  scanned e own T L K pre live stale T' → name ∉ pre.*1 → map_get name T = Some n →
  t = {| ti_id := ti_id t; ti_path := name |} → name = ticket_name (ti_id t) →
  is_ticket_id (ti_id t) = true → valid_ticket n (ti_id t) →
  (live' = live ++ [t] ∧ stale' = stale ∧
     (own = Some (ti_id t) ∨ map_get name K ≠ None ∨
      ∃ n l, map_get (lease_name (ti_id t)) L = Some n ∧ valid_lease n (ti_id t) l ∧
        lease_is_expired e l = false)
   ∨ live' = live ∧ stale' = stale ++ [t] ∧ own ≠ Some (ti_id t) ∧ map_get name K = None ∧
     ∀ n l, map_get (lease_name (ti_id t)) L = Some n → valid_lease n (ti_id t) l →
       lease_is_expired e l = true) →
  scanned e own T L K (pre ++ [(name, n)]) live' stale' T'.
Proof.
  intros [] Hn HT Ht Hname Hid Hv Hcase.
  assert (Hp : live' ++ stale' ≡ₚ t :: (live ++ stale)).
  { destruct Hcase as [(-> & -> & _)|(-> & -> & _)]; solve_Permutation. }
  assert (Hpath : ti_path t = name) by by rewrite Ht.
  assert (Hnot : name ∉ ti_path <$> live ++ stale).
  { intros (u & -> & Hu)%list_elem_of_fmap. by apply sc_seen0 in Hu as [? _]. }
  constructor.
  - intros x. rewrite Hp, fmap_app. cbn. rewrite Hpath. intros Hx [Hne Hout]%not_elem_of_cons.
    apply elem_of_app in Hx as [Hx|Hx%list_elem_of_singleton]; [by apply sc_gone0|done].
  - intros x. rewrite Hp, fmap_app. cbn. rewrite Hpath. intros Hx. apply sc_kept0. set_solver.
  - intros u. rewrite Hp, fmap_app. intros [->|Hu]%elem_of_cons; [|destruct (sc_seen0 _ Hu) as [? ?]; set_solver].
    rewrite Hpath. split_and!; [set_solver|done..|by exists n].
  - rewrite Hp. cbn. rewrite Hpath. by constructor.
  - intros id n'. rewrite Hp, fmap_app. cbn. rewrite Hpath.
    intros [Hin|Hin%list_elem_of_singleton]%elem_of_app Hget Hv'; [right; by apply (sc_valid0 id n')|].
    rewrite Hin. left.
  - intros u Hu. destruct Hcase as [(-> & -> & Hc)|(-> & -> & _)]; [|by apply sc_live0].
    apply elem_of_app in Hu as [Hu|Hu%list_elem_of_singleton]; [by apply sc_live0|subst u].
    by rewrite Hpath.
  - intros u Hu. destruct Hcase as [(-> & -> & Hc)|(-> & -> & Hc)]; [by apply sc_stale0|].
    apply elem_of_app in Hu as [Hu|Hu%list_elem_of_singleton]; [by apply sc_stale0|subst u].
    by rewrite Hpath.
Qed.

Lemma read_lease_spec h T L Q K s id :
  host_is h T L Q K s → contents T L Q K →
  (read_lease id h = Ok None ∧ map_get (lease_name id) L = None) ∨
  ∃ n l, read_lease id h = Ok (Some l) ∧ map_get (lease_name id) L = Some n ∧ valid_lease n id l.
Proof.
  intros Hh Hc. unfold read_lease.
  pose proof (dir_entry_is _ _ _ _ _ _ (lease_name id) Hh) as (_ & -> & _).
  destruct (map_get _ L) as [n|] eqn:E; [|by left]. right.
  destruct (co_leases _ _ _ _ Hc _ _ E) as (id' & l & _ & D & (c & -> & Hl & Ho & Hid) & _).
  apply lease_name_inj in D. subst id'. exists (File c), l. split; [|split; [done|by exists c]].
  unfold read_lease_file. cbn [read_file map_err mbind result_bind]. rewrite Hl.
  cbn [ok_or mbind result_bind]. by rewrite Ho, Hid, String.eqb_refl.
Qed.

Lemma read_ticket_valid n id path : valid_ticket n id →
  ∃ m, read_ticket (Some n) path = Ok m ∧ ticket_valid m id = true.
Proof.
  intros (c & m & -> & Hm & Hv). exists m. split; [|done]. unfold read_ticket. cbn. by rewrite Hm.
Qed.

Lemma valid_lease_inj n id l l' : valid_lease n id l → valid_lease n id l' → l = l'.
Proof. intros (c & -> & Hl & _) (c' & [= <-] & Hl' & _). congruence. Qed.

Lemma scan_entry_quarantine e own T L Q K s pre live stale hc name n :
  scan_inv e own T L Q K s pre (length pre, live, stale) hc →
  name ∉ pre.*1 → map_get name T = Some n → is_file n →
  (∀ id, name = ticket_name id → ¬ valid_ticket n id) →
  ∃ hc', quarantine_file name hc = (Ok (), hc') ∧
    scan_inv e own T L Q K s (pre ++ [(name, n)]) (S (length pre), live, stale) hc'.
Proof.
  intros (_ & T' & Q' & Hh & Hc & Hs) Hn HT [c ->] Hno.
  assert (HT' : map_get name T' = Some (File c)) by (rewrite (sc_kept _ _ _ _ _ _ _ _ _ Hs); auto).
  destruct (quarantine_file_ok name hc T' L Q' K s c) as (q & hc' & E & Hh'); [done|done|by apply Hc|].
  exists hc'. split; [done|]. split; [rewrite length_app; cbn; lia|]. do 2 eexists. split; [done|].
  split; [|by eapply scanned_drop]. apply (contents_quarantine _ _ Q'); [apply all_files_insert, Hc|].
  apply contents_drop; [done|]. intros id n -> Hget. rewrite HT' in Hget. injection Hget as <-. auto.
Qed.

Lemma scan_entry_keep e own T L Q K s pre live stale live' stale' hc name n id :
  scan_inv e own T L Q K s pre (length pre, live, stale) hc →
  name ∉ pre.*1 → map_get name T = Some n → name = ticket_name id → is_ticket_id id = true →
  valid_ticket n id →
  (live' = live ++ [{| ti_id := id; ti_path := name |}] ∧ stale' = stale ∧
     (own = Some id ∨ map_get name K ≠ None ∨
      ∃ n l, map_get (lease_name id) L = Some n ∧ valid_lease n id l ∧ lease_is_expired e l = false)
   ∨ live' = live ∧ stale' = stale ++ [{| ti_id := id; ti_path := name |}] ∧ own ≠ Some id ∧
     map_get name K = None ∧
     ∀ n l, map_get (lease_name id) L = Some n → valid_lease n id l → lease_is_expired e l = true) →
  scan_inv e own T L Q K s (pre ++ [(name, n)]) (S (length pre), live', stale') hc.
Proof.
  intros (_ & T' & Q' & Hh & Hc & Hs) Hn HT Hname Hid Hv Hcase.
  split; [rewrite length_app; cbn; lia|]. exists T', Q'. split_and!; [done..|].
  by eapply (scanned_keep _ _ _ _ _ _ _ _ _ _ _ _ _ {| ti_id := id; ti_path := name |}).
Qed.

Lemma scan_entry_ok e own T L Q K s pre acc hc name n :
  contents T L Q K → scan_inv e own T L Q K s pre acc hc → name ∉ pre.*1 →
  map_get name T = Some n → (length pre < MAX_QUEUE_TICKETS)%nat →
  ∃ acc' hc', scan_entry e own true acc (name, n) hc = (Ok acc', hc') ∧
    scan_inv e own T L Q K s (pre ++ [(name, n)]) acc' hc'.
Proof.
  intros Hc HI Hn HT Hlen. destruct acc as [[count live] stale].
  assert (count = length pre) as -> by apply HI.
  destruct (co_tickets _ _ _ _ Hc _ _ HT) as [[c ->] Hcase]. unfold scan_entry.
  erewrite bind_adm_ok by (unfold lift, ensure; rewrite (proj2 (Nat.leb_le _ _) Hlen); done).
  erewrite bind_adm_ok by done.
  destruct Hcase as [Hst|(id & -> & Hid & Hcase)].
  { rewrite Hst. destruct (scan_entry_quarantine e own T L Q K s pre live stale hc name (File c))
      as (hc' & E & HI'); [done..|by eexists| |].
    { intros id ->. by rewrite ticket_name_not_staged in Hst. }
    erewrite bind_adm_ok by done. by do 2 eexists. }
  rewrite ticket_name_not_staged. unfold lift at 1.
  rewrite (proj2 (parse_ticket_name_ok _ id)) by done. erewrite bind_adm_ok by done.
  erewrite bind_adm_ok by done.
  pose proof HI as (_ & T' & Q' & Hh & Hc' & Hs).
  assert (Hfree : ticket_lock_free (ticket_name id) hc = negb (is_Some_b (map_get (ticket_name id) K)))
    by (unfold ticket_lock_free; by rewrite (hi_locks _ _ _ _ _ _ Hh)).
  rewrite Hfree. destruct Hcase as [Hv|[Hbad HK]].
  - destruct (read_ticket_valid (File c) id (path_of TICKETS_DIR (ticket_name id)) Hv) as (m & -> & Hm).
    erewrite bind_adm_ok by (unfold lift; rewrite Hm; done).
    pose proof (λ live' stale', scan_entry_keep e own T L Q K s pre live stale live' stale' hc
      (ticket_name id) (File c) id HI Hn HT eq_refl Hid Hv) as Hkeep.
    case_bool_decide as Hown; [do 2 eexists; split; [done|]; apply Hkeep; left; auto|].
    destruct (map_get (ticket_name id) K) as [p|] eqn:HK; cbn [is_Some_b negb].
    { do 2 eexists. split; [done|]. apply Hkeep. left. split_and!; [done..|]. right. by left. }
    destruct (read_lease_spec hc T' L Q' K s id Hh Hc') as [[E HL]|(nl & l & E & HL & Hl)];
      erewrite bind_adm_ok by (unfold reads; rewrite E; done); cbn [andb].
    + do 2 eexists. split; [done|]. apply Hkeep. right. split_and!; [done..|]. intros ?? HL'. congruence.
    + destruct (lease_is_expired e l) eqn:Hexp; do 2 eexists; (split; [done|]); apply Hkeep.
      * right. split_and!; [done..|]. intros n' l' HL' Hl'. rewrite HL in HL'. injection HL' as <-.
        by rewrite (valid_lease_inj _ _ _ _ Hl' Hl).
      * left. split_and!; [done..|]. do 2 right. by exists nl, l.
  - rewrite HK. unfold read_ticket at 1. cbn [read_file map_err mbind result_bind].
    rewrite Hbad by done. cbn [ok_or is_Some_b negb andb].
    destruct (scan_entry_quarantine e own T L Q K s pre live stale hc (ticket_name id) (File c))
      as (hc' & E & HI'); [done..|by eexists| |].
    { intros ? _ (c' & m & [= <-] & Hm & _). by rewrite Hbad in Hm. }
    erewrite bind_adm_ok by done. by do 2 eexists.
Qed.

(** ** The sweep: the scan, and the removal of the stale tickets *)

(** What the system documents of a directory listing: each entry once. *)
Definition lists_entries (e : Env) : Prop := ∀ m, en_read_dir e m ≡ₚ m.

Lemma read_dir_tickets e h T L Q K s :
  host_is h T L Q K s → read_dir e TICKETS_DIR h = (Ok (en_read_dir e T), h).
Proof. intros Hh. unfold read_dir, reads. by rewrite (hi_tickets _ _ _ _ _ _ Hh). Qed.

Lemma scan_fold e own T L Q K s l : ∀ pre acc h,
  contents T L Q K → lists_entries e → en_read_dir e T = pre ++ l →
  scan_inv e own T L Q K s pre acc h →
  ∃ acc' h', adm_fold (scan_entry e own true) acc l h = (Ok acc', h') ∧
    scan_inv e own T L Q K s (pre ++ l) acc' h'.
Proof.
  induction l as [|[name n] l IH]; intros pre acc h Hc He Hpre HI.
  { rewrite app_nil_r. by do 2 eexists. }
  pose proof (He T) as Hp. rewrite Hpre in Hp.
  assert (Hnd : NoDup (pre ++ (name, n) :: l).*1).
  { rewrite Hp. apply sorted_nodup, Hc. }
  assert (Hget : map_get name T = Some n).
  { apply map_get_elem; [apply Hc|]. rewrite <-Hp. set_solver. }
  rewrite fmap_app in Hnd. apply NoDup_app in Hnd as (_ & Hnd & _).
  destruct (scan_entry_ok e own T L Q K s pre acc h name n Hc HI) as (acc1 & h1 & E & HI1); [|done|..].
  - intros Hin. by apply (Hnd name Hin); left.
  - apply Permutation_length in Hp. rewrite length_app in Hp. cbn in Hp.
    pose proof (co_count _ _ _ _ Hc). lia.
  - cbn [adm_fold]. erewrite bind_adm_ok by done.
    destruct (IH (pre ++ [(name, n)]) acc1 h1) as (acc2 & h2 & E2 & HI2);
      [done..|by rewrite <-app_assoc|done|].
    do 2 eexists. split; [done|]. by rewrite <-app_assoc in HI2.
Qed.

(** The tickets that are left after a sweep are the live ones, in order. *)
Record swept (e : Env) (own : option string) (T L : btmap string node) (K : btmap string pid)
    (live : list TicketInfo) (T' L' : btmap string node) : Prop := {
  sw_sorted : StronglySorted (key_le ti_id) live;
  sw_nodup : NoDup (ti_id <$> live);
  sw_tickets : ∀ id n, map_get (ticket_name id) T' = Some n ↔
    map_get (ticket_name id) T = Some n ∧ id ∈ ti_id <$> live;
  sw_all : ∀ name n, map_get name T' = Some n → ∃ id, name = ticket_name id ∧ is_ticket_id id = true ∧ valid_ticket n id;
  sw_live : ∀ id, id ∈ ti_id <$> live → is_ticket_id id = true ∧
    (∃ n, map_get (ticket_name id) T' = Some n ∧ valid_ticket n id) ∧
    map_get (lease_name id) L' = map_get (lease_name id) L;
  sw_protected : ∀ id n, map_get (ticket_name id) T = Some n → valid_ticket n id → is_ticket_id id = true →
    own = Some id ∨ map_get (ticket_name id) K ≠ None → id ∈ ti_id <$> live;
  sw_kept_because : ∀ id, id ∈ ti_id <$> live → own = Some id ∨ map_get (ticket_name id) K ≠ None ∨
    ∃ n l, map_get (lease_name id) L = Some n ∧ valid_lease n id l ∧ lease_is_expired e l = false;
  sw_leases : ∀ name, map_get name L' = map_get name L ∨ map_get name L' = None;
}.

(** The removal of a list of tickets. *)
Lemma remove_stale_ok stale : ∀ h T L Q K s,
  host_is h T L Q K s → contents T L Q K →
  (∀ t, t ∈ stale → ti_path t = ticket_name (ti_id t) ∧ map_get (ti_path t) T ≠ None) →
  NoDup (ti_id <$> stale) →
  ∃ h' T' L' Q', remove_stale stale h = (Ok (), h') ∧ host_is h' T' L' Q' K s ∧
    contents T' L' Q' K ∧
    (∀ name, map_get name T' = if decide (name ∈ ti_path <$> stale) then None else map_get name T) ∧
    (∀ name, map_get name L' = if decide (name ∈ lease_name <$> (ti_id <$> stale)) then None else map_get name L).
Proof.
  induction stale as [|t stale IH]; intros h T L Q K s Hh Hc Hin Hnd.
  { exists h, T, L, Q. by split_and!. }
  destruct (Hin t (list_elem_of_here _ _)) as [Hpath HT].
  destruct (map_get (ti_path t) T) as [n|] eqn:E; [|done]. clear HT.
  pose proof (co_tickets _ _ _ _ Hc _ _ E) as [[c ->] _].
  destruct (quarantine_file_ok (ti_path t) h T L Q K s c) as (q & h1 & E1 & H1); [done|done|by apply Hc|].
  destruct (remove_lease_present (lease_name (ti_id t)) _ _ _ _ _ _ H1) as (h2 & E2 & H2);
    [apply (contents_files _ _ _ _ Hc)|].
  rewrite Hpath in H2. apply (contents_remove _ _ _ _ (ti_id t)) in Hc as Hc2.
  apply NoDup_cons in Hnd as [Ht Hnd].
  destruct (IH _ _ _ _ _ _ H2) as (h' & T' & L' & Q' & E' & Hh' & Hc' & HT' & HL'); [|..|done|].
  - eapply contents_quarantine; [|done]. apply all_files_insert, Hc.
  - intros u Hu. destruct (Hin u) as [Hpu Hgu]; [by right|]. split; [done|]. map_simp.
    case_decide as D; [|done]. destruct Ht. rewrite Hpu in D. apply ticket_name_inj in D.
    rewrite <-D. by apply list_elem_of_fmap_2.
  - exists h', T', L', Q'. split; [|split_and!; [done..| |]].
    + unfold remove_stale. cbn [adm_each]. rewrite bind_adm. rewrite bind_adm, E1. unfold remove_lease.
      rewrite E2. apply E'.
    + intros name. rewrite HT'. cbn [fmap list_fmap]. map_simp. rewrite <-Hpath.
      repeat case_decide; set_solver.
    + intros name. rewrite HL'. cbn [fmap list_fmap]. map_simp. repeat case_decide; set_solver.
Qed.

Lemma fmap_path_id (l : list TicketInfo) id :
  (∀ t, t ∈ l → ti_path t = ticket_name (ti_id t)) → ticket_name id ∈ ti_path <$> l ↔ id ∈ ti_id <$> l.
Proof.
  intros Hl. rewrite !list_elem_of_fmap. split.
  - intros (t & E & Ht). exists t. split; [|done]. rewrite (Hl _ Ht) in E. by apply ticket_name_inj in E.
  - intros (t & -> & Ht). exists t. by rewrite (Hl _ Ht).
Qed.

Lemma sweep_ok e own h T L Q K s :
  lists_entries e → host_is h T L Q K s → contents T L Q K →
  ∃ live stale h1 h' T' L' Q',
    scan_tickets e own true h = (Ok (live, stale), h1) ∧ remove_stale stale h1 = (Ok (), h') ∧
    host_is h' T' L' Q' K s ∧ contents T' L' Q' K ∧ swept e own T L K live T' L'.
Proof.
  intros He Hh Hc.
  destruct (scan_fold e own T L Q K s (en_read_dir e T) [] (0%nat, [], []) h) as (acc & h1 & E & HI);
    [done..| |].
  { split; [done|]. exists T, Q. split_and!; [done..|]. constructor; cbn; try set_solver. constructor. }
  destruct acc as [[count live] stale]. destruct HI as (_ & T1 & Q1 & H1 & Hc1 & []). cbn [app] in *.
  assert (Hall : ∀ name, map_get name T ≠ None → name ∈ (en_read_dir e T).*1).
  { intros name Hn. rewrite (He T). destruct (decide (name ∈ T.*1)) as [|N]; [done|].
    by apply map_get_none in N. }
  assert (Hpaths : ∀ t, t ∈ live ++ stale → ti_path t = ticket_name (ti_id t)).
  { intros t Ht. by apply sc_seen0 in Ht as (_ & ? & _). }
  assert (Hnd : NoDup (ti_id <$> live ++ stale)).
  { assert (Heq : ti_path <$> live ++ stale = ticket_name <$> (ti_id <$> live ++ stale)).
    { rewrite <-list_fmap_compose. apply list_fmap_ext. intros i t Ht.
      apply Hpaths. by apply list_elem_of_lookup_2 in Ht. }
    rewrite Heq in sc_nodup0. by apply NoDup_fmap_1 in sc_nodup0. }
  destruct (remove_stale_ok (sort_by ti_id stale) h1 T1 L Q1 K s H1 Hc1)
    as (h' & T' & L' & Q' & E' & Hh' & Hc' & HT' & HL').
  { intros t. rewrite (sort_by_perm ti_id stale). intros Ht. split; [apply Hpaths; set_solver|].
    rewrite sc_kept0 by (right; apply list_elem_of_fmap_2; set_solver).
    destruct (sc_seen0 t) as (_ & _ & _ & n & -> & _); [set_solver|done]. }
  { rewrite (sort_by_perm ti_id stale). rewrite fmap_app in Hnd. by apply NoDup_app in Hnd as (_ & _ & ?). }
  exists (sort_by ti_id live), (sort_by ti_id stale), h1, h', T', L', Q'.
  split_and!; [|done..|].
  { unfold scan_tickets. erewrite bind_adm_ok by by eapply read_dir_tickets.
    rewrite bind_adm, E. reflexivity. }
  assert (Hlive : ∀ x, x ∈ ti_id <$> sort_by ti_id live ↔ x ∈ ti_id <$> live) by (intros x; by rewrite sort_by_perm).
  assert (HT : ∀ name n, map_get name T' = Some n ↔ map_get name T = Some n ∧ name ∈ ti_path <$> live).
  { assert (Hst : ∀ x, x ∈ ti_path <$> sort_by ti_id stale ↔ x ∈ ti_path <$> stale)
      by (intros x; by rewrite sort_by_perm).
    intros name n. rewrite HT'. rewrite fmap_app in *. case_decide as Dst; rewrite Hst in Dst.
    - split; [done|]. intros [_ Hl]. by apply NoDup_app in sc_nodup0 as (_ & Hd & _); destruct (Hd name).
    - destruct (decide (name ∈ ti_path <$> live)) as [Dl|Dl].
      + rewrite sc_kept0 by (right; set_solver). tauto.
      + split; [|tauto]. intros Hg. destruct (decide (name ∈ (en_read_dir e T).*1)) as [Dp|Dp].
        * by rewrite sc_gone0 in Hg by set_solver.
        * rewrite sc_kept0 in Hg by auto. destruct Dp. apply Hall. by rewrite Hg. }
  constructor.
  - apply sort_by_sorted.
  - rewrite sort_by_perm. rewrite fmap_app in Hnd. by apply NoDup_app in Hnd as (? & _).
  - intros id n. rewrite HT, Hlive, fmap_path_id; [done|]. intros t Ht. apply Hpaths. set_solver.
  - intros name n [Hg (t & -> & Ht)%list_elem_of_fmap]%HT.
    destruct (sc_seen0 t) as (_ & Hp & Hid & n' & Hg' & Hv); [set_solver|].
    exists (ti_id t). split_and!; [done..|]. congruence.
  - intros id. rewrite Hlive. intros (t & -> & Ht)%list_elem_of_fmap.
    destruct (sc_seen0 t) as (_ & Hp & Hid & n' & Hg' & Hv); [set_solver|]. split_and!; [done|..].
    + exists n'. split; [|done]. apply HT. rewrite <-Hp. split; [done|]. by apply list_elem_of_fmap_2.
    + rewrite HL'. case_decide as D; [|done]. exfalso.
      apply list_elem_of_fmap in D as (id' & Did & D). apply lease_name_inj in Did as <-.
      rewrite sort_by_perm in D. rewrite fmap_app in Hnd. apply NoDup_app in Hnd as (_ & Hd & _).
      apply (Hd (ti_id t)); [by apply list_elem_of_fmap_2|done].
  - intros id n Hg Hv Hid Hwhy. rewrite Hlive.
    assert (Hin : ticket_name id ∈ ti_path <$> live ++ stale).
    { apply (sc_valid0 id n); [|done..]. apply Hall. by rewrite Hg. }
    rewrite fmap_path_id in Hin by done. rewrite fmap_app in Hin.
    apply elem_of_app in Hin as [Hin|(t & -> & Ht)%list_elem_of_fmap]; [done|]. exfalso.
    destruct (sc_stale0 t Ht) as (Hown & HK & _). rewrite Hpaths in HK by set_solver.
    by destruct Hwhy.
  - intros id. rewrite Hlive. intros (t & -> & Ht)%list_elem_of_fmap.
    rewrite <-(Hpaths t) by set_solver. by apply sc_live0.
  - intros name. rewrite HL'. case_decide; [by right|by left].
Qed.
End Contents.
