(* ===== verification/AdmissionOps.v ===== *)
(** What each operation of the admission coordinator ([Admission.v]) does to its
    directories, locks and slot. *)
From S2P Require Import Prelude.
From S2P Require Import RustStr.
From S2P Require Import BTree.
From S2P Require Import Canonical.
From S2P Require Import Durable.
From S2P Require Import Admission.
From S2P Require Import AdmissionProps.
From S2P Require Import AdmissionScan.
Local Open Scope Z_scope.

(** What [serde_json] documents of the two markers: a value that is written is
    read back, and the fields of a lease that was read are [u64]. *)
Class AdmissionLaws `{CT : Codec TicketMarker} `{CL : Codec LeaseMarker} : Prop := {
  ticket_codec : ∀ m : TicketMarker, ∃ b, to_vec m = Some b ∧ from_slice (b ++ [line_feed]) = Some m;
  lease_codec : ∀ l : LeaseMarker, u64 (lm_acquired_at_unix_seconds l) → u64 (lm_heartbeat_at_unix_seconds l) →
    ∃ b, to_vec l = Some b ∧ from_slice (b ++ [line_feed]) = Some l;
  lease_fields : ∀ b (l : LeaseMarker), from_slice b = Some l →
    u64 (lm_acquired_at_unix_seconds l) ∧ u64 (lm_heartbeat_at_unix_seconds l);
}.

(** The names [atomic_replace] gives its temporary files. *)
Definition TEMPORARY_PREFIX : string := ".ccp-durable-tmp-".

(** An environment of a process: the system lists each entry of a directory once,
    the clock is a [u64], and the temporary name is one of those. *)
Record env_ok (e : Env) : Prop := {
  eo_lists : lists_entries e;
  eo_now : ∀ now, en_now e = Some now → u64 now;
  eo_temporary : starts_with TEMPORARY_PREFIX (en_temporary e) = true;
}.

Lemma temporary_ne e t : env_ok e → starts_with TEMPORARY_PREFIX t = false → t ≠ en_temporary e.
Proof. intros He Ht. eapply starts_with_ne; [apply He|done]. Qed.

Section Ops.
Context `{CT : Codec TicketMarker} `{CL : Codec LeaseMarker} `{AL : !AdmissionLaws}.

(** * Leases *)

(** A lease is written or replaced for a ticket. *)
Lemma contents_lease T L Q K id b l n :
  contents T L Q K → map_get (ticket_name id) T = Some n → valid_ticket n id → is_ticket_id id = true →
  from_slice b = Some l → lease_owned l = true → lm_owner_run_id l = id →
  (lm_state l ≠ "queued" → ∀ id' n', map_get (ticket_name id') T = Some n' → is_ticket_id id' = true →
     id = id' ∨ lt_ord id id') →
  contents T (map_insert (lease_name id) (File b) L) Q K.
Proof.
  intros [] Hn Hv Hid Hb Ho Hown Hact. constructor; try done.
  - by apply map_insert_sorted.
  - intros name n'. map_simp. case_decide as D; [|apply co_leases].
    intros [= <-]. exists id, l, n. split_and!; [done|by exists b|done..].
  - intros id' n' l' id2 n2. map_simp. case_decide as D; [|by apply co_active].
    apply lease_name_inj in D as ->. intros [= <-] (c & [= <-] & Hl' & _). rewrite Hb in Hl'.
    injection Hl' as <-. intros Hs. by apply Hact.
Qed.

Lemma durable_replace_lease e id b h T L Q K s :
  env_ok e → host_is h T L Q K s → contents T L Q K →
  ∃ h', durable_replace e LEASES_DIR (lease_name id) b h = (Ok (), h') ∧
    host_is h' T (map_insert (lease_name id) (File b) L) Q K s.
Proof.
  intros He Hh Hc. unfold durable_replace. rewrite (hi_leases _ _ _ _ _ _ Hh).
  unfold Durable.atomic_replace. cbn [validate_plain_directory].
  assert (Hf : reject_symlink_or_non_file (map_get (lease_name id) L) = Ok ()).
  { destruct (map_get _ L) as [n|] eqn:E; [|done].
    by destruct (proj1 (proj2 (contents_files _ _ _ _ Hc)) _ _ E) as [c ->]. }
  rewrite Hf.
  assert (Hne : ∀ i, lease_name i ≠ en_temporary e) by (intros i; apply (temporary_ne e _ He); done).
  assert (Ht : map_get (en_temporary e) L = None).
  { destruct (map_get (en_temporary e) L) as [n|] eqn:E; [|done].
    apply (co_leases _ _ _ _ Hc) in E as (i & ? & ? & E & _). by destruct (Hne i). }
  assert (Hct : map_contains (en_temporary e) L = false) by (unfold map_contains; by rewrite Ht).
  rewrite Hct, rename_entry_get. rewrite decide_False by (intros E; by destruct (Hne id)).
  rewrite decide_True by done. cbn [exists_node]. eexists. split; [done|].
  unfold rename_entry. fold (remove_key (en_temporary e) L). rewrite remove_key_absent by done.
  by apply host_is_put_leases with (L := L).
Qed.

Lemma write_lease_ok e id l h T L Q K s :
  env_ok e → host_is h T L Q K s → contents T L Q K →
  u64 (lm_acquired_at_unix_seconds l) → u64 (lm_heartbeat_at_unix_seconds l) →
  ∃ b h', write_lease e (lease_name id) l h = (Ok (), h') ∧ from_slice b = Some l ∧
    host_is h' T (map_insert (lease_name id) (File b) L) Q K s.
Proof.
  intros He Hh Hc Ha Hb. destruct (lease_codec l Ha Hb) as (b & Hw & Hr).
  destruct (durable_replace_lease e id (b ++ [line_feed]) h T L Q K s He Hh Hc) as (h' & E & Hh').
  exists (b ++ [line_feed]), h'. split_and!; [|done..]. unfold write_lease.
  erewrite bind_adm_ok by (unfold lift; rewrite Hw; done). done.
Qed.

(** The lease of a ticket is read as what it holds. *)
Lemma read_lease_file_ok h T L Q K s id n l :
  host_is h T L Q K s → map_get (lease_name id) L = Some n → valid_lease n id l →
  read_lease_file (lease_name id) (dir_entry LEASES_DIR (lease_name id) h) = Ok l.
Proof.
  intros Hh Hn (c & -> & Hl & _). pose proof (dir_entry_is _ _ _ _ _ _ (lease_name id) Hh) as (_ & -> & _).
  rewrite Hn. unfold read_lease_file. cbn. by rewrite Hl.
Qed.

Lemma valid_lease_u64 n id l : valid_lease n id l →
  u64 (lm_acquired_at_unix_seconds l) ∧ u64 (lm_heartbeat_at_unix_seconds l).
Proof. intros (c & _ & Hl & _). by eapply lease_fields. Qed.

(** Activation succeeds whenever the clock can be read. *)
Lemma activate_lease_ok e id h T L Q K s n l :
  env_ok e → host_is h T L Q K s → contents T L Q K →
  map_get (lease_name id) L = Some n → valid_lease n id l → lm_state l = "queued" →
  (en_now e = None ∧ activate_lease e (lease_name id) id h = (Err Clock, h)) ∨
  ∃ now b h', en_now e = Some now ∧ activate_lease e (lease_name id) id h = (Ok (), h') ∧
    from_slice b = Some (active_lease l now now) ∧
    host_is h' T (map_insert (lease_name id) (File b) L) Q K s.
Proof.
  intros He Hh Hc Hn Hl Hs. unfold activate_lease, reads.
  erewrite bind_adm_ok by by rewrite (read_lease_file_ok _ _ _ _ _ _ _ _ _ Hh Hn Hl).
  destruct Hl as (c & _ & _ & _ & Ho).
  erewrite bind_adm_ok by (unfold lift; rewrite Ho, Hs, !String.eqb_refl; done).
  destruct (en_now e) as [now|] eqn:E.
  - right. destruct (eo_now _ He _ E) as [Hn0 Hn1].
    destruct (write_lease_ok e id (active_lease l now now) h T L Q K s) as (b & h' & Ew & Hb & Hh'); [done..|].
    exists now, b, h'. split_and!; [done| |done..].
    erewrite bind_adm_ok by (unfold lift, unix_seconds; rewrite E; done). done.
  - left. split; [done|]. erewrite bind_adm_err by (unfold lift, unix_seconds; rewrite E; done). done.
Qed.

(** A beat replaces the lease of the holder by one that is active. *)
Lemma heartbeat_ok e g h T L Q K s n l :
  env_ok e → host_is h T L Q K s → contents T L Q K →
  map_get (lease_name (ag_ticket_id g)) L = Some n → valid_lease n (ag_ticket_id g) l →
  lm_state l = "active" →
  (en_now e = None ∧ heartbeat e g h = (false, h)) ∨
  ∃ now b h', en_now e = Some now ∧ heartbeat e g h = (true, h') ∧
    from_slice b = Some (active_lease l (lm_acquired_at_unix_seconds l) now) ∧
    host_is h' T (map_insert (lease_name (ag_ticket_id g)) (File b) L) Q K s.
Proof.
  intros He Hh Hc Hn Hl Hs. unfold heartbeat.
  rewrite (read_lease_file_ok _ _ _ _ _ _ _ _ _ Hh Hn Hl).
  pose proof (valid_lease_u64 _ _ _ Hl) as [Ha _]. destruct Hl as (c & _ & _ & _ & Ho).
  rewrite Ho, Hs, !String.eqb_refl. cbn [negb orb]. unfold unix_seconds.
  destruct (en_now e) as [now|] eqn:E; [right|by left].
  destruct (write_lease_ok e (ag_ticket_id g) (active_lease l (lm_acquired_at_unix_seconds l) now) h T L Q K s)
    as (b & h' & Ew & Hb & Hh'); [done..|by apply He|].
  exists now, b, h'. cbn [ok_or]. by rewrite Ew.
Qed.

(** * Leaving *)

(** The host when a process has given up the ticket [id]. *)
Definition without (id : string) (h' : Host) (T L Q : btmap string node) (K : btmap string pid)
    (s : option pid) : Prop :=
  host_is h' (remove_key (ticket_name id) T) (remove_key (lease_name id) L) Q
    (remove_key (ticket_name id) K) s ∧
  contents (remove_key (ticket_name id) T) (remove_key (lease_name id) L) Q (remove_key (ticket_name id) K).

Lemma without_intro id h' T L Q K s :
  contents T L Q K →
  host_is h' (remove_key (ticket_name id) T) (remove_key (lease_name id) L) Q
    (remove_key (ticket_name id) K) s →
  without id h' T L Q K s.
Proof. intros Hc Hh. split; [done|]. by apply contents_unlock, contents_remove. Qed.

Definition reservation (id : string) : TicketReservation :=
  {| re_id := id; re_path := ticket_name id; re_lease_path := lease_name id |}.
Definition guard (id : string) : AdmissionGuard :=
  {| ag_ticket_id := id; ag_ticket_path := ticket_name id |}.

Lemma cleanup_step_ok (m k : adm AdmissionError ()) h h1 h2 :
  m h = (Ok (), h1) → k h1 = (Ok (), h2) → cleanup_step m k h = (Ok (), h2).
Proof. intros Hm Hk. unfold cleanup_step. by rewrite Hm, Hk. Qed.

Lemma cleanup_ok e id h T L Q K s :
  host_is h T L Q K s → contents T L Q K → map_get (ticket_name id) K = Some (en_pid e) →
  ∃ h', cleanup e (reservation id) h = (Ok (), h') ∧ without id h' T L Q K s.
Proof.
  intros Hh Hc Hk. destruct (contents_files _ _ _ _ Hc) as (HT & HL & _).
  pose proof (unlock_ticket_is _ _ _ _ _ _ _ _ Hh Hk) as H1.
  destruct (remove_lease_present (lease_name id) _ _ _ _ _ _ H1 HL) as (h2 & E2 & H2).
  destruct (remove_ticket_present (ticket_name id) _ _ _ _ _ _ H2 HT) as (h3 & E3 & H3).
  exists h3. split; [|by apply without_intro]. unfold cleanup. rewrite (lock_queue_ok _ _ _ _ _ _ _ Hh).
  eapply cleanup_step_ok; [done|]. by eapply cleanup_step_ok.
Qed.

Lemma abandon_ok {A} e id error h T L Q K s :
  host_is h T L Q K s → contents T L Q K → map_get (ticket_name id) K = Some (en_pid e) →
  ∃ h', abandon (A := A) e (reservation id) error h = (Err error, h') ∧ without id h' T L Q K s.
Proof.
  intros Hh Hc Hk. destruct (cleanup_ok e id h T L Q K s Hh Hc Hk) as (h' & E & H').
  exists h'. split; [|done]. unfold abandon. by rewrite E.
Qed.

Lemma remove_key_twice {V} k (m : btmap string V) : remove_key k (remove_key k m) = remove_key k m.
Proof. apply remove_key_absent. map_simp. by rewrite decide_True. Qed.

(** [release_inner] from a state in which the lock may already have been given
    up. *)
Lemma release_inner_ok e id h T L Q K s :
  host_is h T L Q K s → contents T L Q K →
  map_get (ticket_name id) K = Some (en_pid e) ∨ map_get (ticket_name id) K = None →
  ∃ h', release_inner e (guard id) h = (Ok (), h') ∧
    without id h' T L Q K (if bool_decide (s = Some (en_pid e)) then None else s).
Proof.
  intros Hh Hc Hk. destruct (contents_files _ _ _ _ Hc) as (HT & HL & _).
  destruct (remove_lease_present (lease_name id) _ _ _ _ _ _ Hh HL) as (h1 & E1 & H1).
  apply (unlock_slot_is (en_pid e)) in H1.
  assert (H2 : host_is (unlock_ticket (en_pid e) (ticket_name id) (unlock_slot (en_pid e) h1)) T
    (remove_key (lease_name id) L) Q (remove_key (ticket_name id) K)
    (if bool_decide (s = Some (en_pid e)) then None else s)).
  { destruct Hk as [Hk|Hk]; [by apply unlock_ticket_is|]. rewrite (remove_key_absent K) by done.
    apply unlock_ticket_other; [done|]. by rewrite Hk. }
  destruct (remove_ticket_present (ticket_name id) _ _ _ _ _ _ H2 HT) as (h3 & E3 & H3).
  exists h3. split; [|by apply without_intro]. unfold release_inner. rewrite (lock_queue_ok _ _ _ _ _ _ _ Hh).
  eapply cleanup_step_ok; [exact E1|]. eapply cleanup_step_ok; [done|exact E3].
Qed.

(** A release frees the slot and leaves nothing of the ticket. *)
Lemma release_ok e id h T L Q K s :
  host_is h T L Q K s → contents T L Q K →
  map_get (ticket_name id) K = Some (en_pid e) → s = Some (en_pid e) →
  ∃ h', release e (guard id) h = (Ok (), h') ∧ without id h' T L Q K None.
Proof.
  intros Hh Hc Hk ->. destruct (release_inner_ok e id h T L Q K _ Hh Hc (or_introl Hk)) as (h1 & E1 & H1 & C1).
  rewrite bool_decide_true in H1 by done.
  destruct (release_inner_ok e id h1 _ _ _ _ _ H1 C1) as (h2 & E2 & H2 & C2).
  { right. map_simp. by rewrite decide_True. }
  rewrite bool_decide_false in H2 by done. rewrite !remove_key_twice in H2, C2.
  exists (unlock_slot (en_pid e) (unlock_ticket (en_pid e) (ticket_name id) h2)). split.
  - unfold release, drop_guard. by rewrite E1, E2.
  - split; [|done]. apply (unlock_slot_is (en_pid e) _ _ _ _ _ None), unlock_ticket_other; [done|].
    map_simp. by rewrite decide_True.
Qed.

(** * A turn *)

Lemma host_is_other name n h T L Q K s :
  host_is h T L Q K s → name ≠ TICKETS_DIR → name ≠ LEASES_DIR → name ≠ QUARANTINE_DIR →
  name ≠ QUEUE_LOCK → name ≠ SLOT_LOCK ∨ is_file n → host_is (put_entry name n h) T L Q K s.
Proof.
  intros [] ???? Hs. constructor; rewrite ?root_entry_put; try (by rewrite decide_False by congruence); try done.
  case_decide; [|done]. destruct Hs as [?|[c ->]]; [by subst|]. right. by exists c.
Qed.

Lemma open_slot_ok h T L Q K s :
  host_is h T L Q K s →
  ∃ h', open_lock_file SLOT_LOCK h = (Ok (), h') ∧ host_is h' T L Q K s ∧
    ∃ c, root_entry SLOT_LOCK h' = Some (File c).
Proof.
  intros Hh. pose proof Hh as []. unfold open_lock_file. destruct hi_slot_file as [[E _]|[c E]]; rewrite E.
  - unfold root_entry, root_entries in hi_tickets. destruct (h_root h) as [[]|]; try done.
    eexists. split; [done|]. split; [apply host_is_other; try done; right; by eexists|].
    exists []. rewrite root_entry_put. by rewrite decide_True.
  - exists h. split_and!; [done..|]. by exists c.
Qed.

Lemma first_is_ours_spec live id :
  first_is_ours live (reservation id) = true ↔ head (ti_id <$> live) = Some id.
Proof.
  destruct live as [|t live]; cbn; [done|]. rewrite String.eqb_eq. split; congruence.
Qed.

Lemma take_turn_ok e id h T L Q K s :
  lists_entries e → host_is h T L Q K s → contents T L Q K →
  ∃ live h' T' L' Q', host_is h' T' L' Q' K
      (if bool_decide (head (ti_id <$> live) = Some id ∧ s = None) then Some (en_pid e) else s) ∧
    take_turn e (reservation id) h = (Ok (bool_decide (head (ti_id <$> live) = Some id ∧ s = None)), h') ∧
    contents T' L' Q' K ∧ swept e (Some id) T L K live T' L'.
Proof.
  intros He Hh Hc.
  destruct (sweep_ok e (Some id) h T L Q K s He Hh Hc)
    as (live & stale & h1 & h2 & T' & L' & Q' & E1 & E2 & H2 & C2 & Hsw).
  destruct (open_slot_ok _ _ _ _ _ _ H2) as (h3 & E3 & H3 & Hfile).
  exists live. unfold take_turn. erewrite bind_adm_ok by by eapply lock_queue_ok.
  erewrite bind_adm_ok by exact E1. cbn beta iota. erewrite bind_adm_ok by exact E2.
  destruct (first_is_ours live (reservation id)) eqn:Ef.
  - apply first_is_ours_spec in Ef. unfold try_lock_slot. erewrite bind_adm_ok by exact E3.
    unfold take_slot. rewrite (hi_slot _ _ _ _ _ _ H3). destruct s as [q|].
    + rewrite bool_decide_false by naive_solver. exists h3, T', L', Q'. by split_and!.
    + rewrite bool_decide_true by done. eexists _, T', L', Q'. split_and!; [|done..].
      by eapply host_is_take_slot.
  - rewrite bool_decide_false by (rewrite <-first_is_ours_spec, Ef; naive_solver).
    exists h2, T', L', Q'. by split_and!.
Qed.

(** * Entering *)

(** What changes neither the directories nor the locks. *)
Definition keeps {E A} (m : adm E A) : Prop :=
  ∀ h T L Q K s, host_is h T L Q K s → host_is (m h).2 T L Q K s.

Lemma keeps_bind {E A B} (m : adm E A) (f : A → adm E B) :
  keeps m → (∀ a, keeps (f a)) → keeps (m ≫= f).
Proof.
  intros Hm Hf h T L Q K s Hh. specialize (Hm _ _ _ _ _ _ Hh). rewrite bind_adm.
  destruct (m h) as [[a|e] h']; [by apply Hf|done].
Qed.
Lemma keeps_reads {E A} (f : Host → result E A) : keeps (reads f).
Proof. by intros h. Qed.
Lemma keeps_lift {E A} (r : result E A) : keeps (lift r).
Proof. by intros h. Qed.
Lemma keeps_ret {E A} (a : A) : keeps (mret a : adm E A).
Proof. by intros h. Qed.
Lemma keeps_check e : keeps (check e).
Proof. intros h T L Q K s. apply host_is_next_check. Qed.
Lemma keeps_begin {E} e : keeps (update (E := E) (begin e)).
Proof. intros h T L Q K s. apply host_is_begin. Qed.
Create HintDb keeps.
#[local] Hint Resolve keeps_bind keeps_reads keeps_lift keeps_ret keeps_check keeps_begin : keeps.

Lemma keeps_validate_layout e b : keeps (validate_layout e b).
Proof. unfold validate_layout, root_exists. apply keeps_bind; [auto with keeps|]. intros []; auto with keeps. Qed.

Lemma keeps_owner : keeps ensure_owner_marker.
Proof.
  unfold ensure_owner_marker, valid_owner_marker_exists. apply keeps_bind; [auto with keeps|].
  intros []; [auto with keeps|]. intros h T L Q K s Hh. apply host_is_other; try done. by left.
Qed.

Lemma keeps_open_queue b : keeps (open_queue b).
Proof.
  destruct b; cbn; [|unfold open_existing_lock_file; auto with keeps].
  intros h T L Q K s Hh. destruct (hi_queue_file _ _ _ _ _ _ Hh) as [c Hc].
  unfold open_lock_file. by rewrite Hc.
Qed.

Lemma keeps_create_root : keeps create_root.
Proof.
  intros h T L Q K s Hh. pose proof (hi_tickets _ _ _ _ _ _ Hh) as E. unfold create_root.
  unfold root_entry, root_entries in E. by destruct (h_root h) as [[]|].
Qed.

Lemma keeps_directory d : d ∈ [TICKETS_DIR; LEASES_DIR; QUARANTINE_DIR] → keeps (ensure_directory d).
Proof.
  intros Hd h T L Q K s Hh. pose proof Hh as []. unfold ensure_directory.
  by repeat (apply elem_of_cons in Hd as [->|Hd]; [rewrite ?hi_tickets, ?hi_leases, ?hi_quarantine|]);
    [..|apply not_elem_of_nil in Hd].
Qed.

Lemma keeps_initialize e : keeps (initialize_until e).
Proof.
  unfold initialize_until, lock_exclusive_until, valid_owner_marker_exists.
  apply keeps_bind; [auto with keeps|]. intros _. apply keeps_bind; [apply keeps_create_root|]. intros _.
  apply keeps_bind; [auto with keeps|]. intros initialized.
  apply keeps_bind; [destruct initialized; auto using keeps_validate_layout with keeps|]. intros _.
  apply keeps_bind; [apply keeps_open_queue|]. intros _. apply keeps_bind; [auto with keeps|]. intros _.
  apply keeps_bind.
  { destruct initialized; [|apply keeps_validate_layout]. apply keeps_bind; [auto with keeps|]. intros still.
    apply keeps_bind; auto using keeps_validate_layout with keeps. }
  intros _. apply keeps_bind; [apply keeps_owner|]. intros _.
  repeat (apply keeps_bind; [apply keeps_directory; set_solver|]; intros _). apply keeps_validate_layout.
Qed.

(** What a validated listing has seen. *)
Lemma validate_entry_seen o t x seen :
  validate_entry (o, t) x = Ok seen →
  seen = (o || (x.1 =? OWNER_FILE)%string, t || (x.1 =? TICKETS_DIR)%string).
Proof.
  destruct x as [name n]. unfold validate_entry. cbn [fst].
  destruct (String.eqb_spec name OWNER_FILE) as [->|_].
  { intros H. res_inv. subst. by rewrite orb_true_r, orb_false_r. }
  destruct (_ || _ || _) eqn:E.
  { intros H. res_inv. subst. rewrite orb_false_r. destruct (String.eqb_spec name TICKETS_DIR) as [->|_];
      [done|by rewrite orb_false_r]. }
  destruct (String.eqb_spec name TICKETS_DIR) as [->|_].
  { intros H. res_inv. subst. by rewrite orb_true_r, orb_false_r. }
  destruct ((name =? LEASES_DIR)%string || _); [|done]. intros H. res_inv. subst. by rewrite !orb_false_r.
Qed.

Lemma layout_entry_ok o t o' t' x : is_ok (validate_entry (o, t) x) = is_ok (validate_entry (o', t') x).
Proof.
  destruct x as [name n]. unfold validate_entry.
  repeat match goal with |- context [if ?b then _ else _] => destruct b end; destruct n; done.
Qed.

Lemma validate_entries l : ∀ o t,
  Forall (λ x, is_ok (validate_entry (false, false) x) = true) l →
  try_fold validate_entry (o, t) l
  = Ok (o || existsb (λ x, x.1 =? OWNER_FILE)%string l, t || existsb (λ x, x.1 =? TICKETS_DIR)%string l).
Proof.
  induction l as [|x l IH]; intros o t Hl; cbn [try_fold existsb]; [by rewrite !orb_false_r|].
  apply Forall_cons in Hl as [Hx Hl]. rewrite (layout_entry_ok _ _ o t) in Hx.
  apply is_ok_spec in Hx as [seen Hx]. rewrite Hx. cbn [mbind result_bind].
  apply validate_entry_seen in Hx as ->. rewrite IH by done. by rewrite !orb_assoc.
Qed.

Lemma existsb_permutation {A} (f : A → bool) l m : l ≡ₚ m → existsb f l = existsb f m.
Proof. induction 1; cbn; try congruence. by destruct (f x), (f y). Qed.

(** A layout with known entries validates, whatever the order they are listed in. *)
Lemma validate_layout_ok e b h es :
  lists_entries e → h_root h = Some (Dir es) →
  Forall (λ x, is_ok (validate_entry (false, false) x) = true) es →
  b = false ∨ existsb (λ x, x.1 =? OWNER_FILE)%string es = true
    ∧ existsb (λ x, x.1 =? TICKETS_DIR)%string es = true →
  validate_layout e b h = (Ok (), h).
Proof.
  intros He Hr Hes Hb. unfold validate_layout, root_exists, reads. rewrite bind_adm, Hr.
  unfold root_entries. rewrite Hr, validate_entries by by rewrite (He es).
  rewrite !(existsb_permutation _ _ _ (He es)). cbn.
  by destruct Hb as [->|[-> ->]]; rewrite ?orb_true_r.
Qed.

(** The first initialisation: nothing, or empty directories. *)
Lemma initialize_fresh e h :
  lists_entries e → h_root h = None → h_queue h = None → h_slot h = None →
  (∃ error, initialize_until e h = (Err error, next_check h)) ∨
  ∃ h', initialize_until e h = (Ok (), h') ∧ host_is h' [] [] [] (h_locks h) (h_slot h).
Proof.
  intros He Hr Hq Hs. destruct (check e h) as [[[]|error] h1] eqn:Ec; pose proof Ec as [= Ec' <-].
  2: { left. exists error. unfold initialize_until. by rewrite bind_adm, Ec. }
  right. unfold initialize_until. erewrite bind_adm_ok by exact Ec.
  assert (Hroot : create_root (next_check h) = (Ok (), set_root (Some (Dir [])) (next_check h)))
    by (unfold create_root; cbn; by rewrite Hr).
  erewrite bind_adm_ok by exact Hroot. set (h1 := set_root _ _).
  erewrite bind_adm_ok by done. cbn beta iota.
  erewrite bind_adm_ok by (apply (validate_layout_ok _ _ _ []); [done..|by left]).
  erewrite bind_adm_ok by done. set (h2 := put_entry QUEUE_LOCK (File []) h1).
  erewrite bind_adm_ok by (unfold lock_exclusive_until, reads; cbn; by rewrite Hq).
  erewrite bind_adm_ok by (eapply validate_layout_ok; [done|done|by repeat constructor|by left]).
  do 4 erewrite bind_adm_ok by done.
  erewrite validate_layout_ok; [|done|done|by repeat constructor|by right].
  eexists. split; [done|]. constructor; try done; [by eexists|by left].
Qed.

Lemma host_is_ext h h' T L Q K s :
  (∀ name, name ∈ [TICKETS_DIR; LEASES_DIR; QUARANTINE_DIR; QUEUE_LOCK; SLOT_LOCK] →
     root_entry name h' = root_entry name h) →
  h_locks h' = h_locks h → h_slot h' = h_slot h → h_queue h' = h_queue h →
  host_is h T L Q K s → host_is h' T L Q K s.
Proof. intros Hr Hl Hs Hq []. constructor; rewrite ?Hr by set_solver; congruence. Qed.

Lemma replace_root_entries e content h :
  env_ok e → (∃ es, h_root h = Some (Dir es)) →
  let h' := (durable_replace_root e NEXT_TICKET content h).2 in
  (∀ name, starts_with TEMPORARY_PREFIX name = false → name ≠ NEXT_TICKET →
     root_entry name h' = root_entry name h) ∧
  h_locks h' = h_locks h ∧ h_slot h' = h_slot h ∧ h_queue h' = h_queue h ∧
  (∀ u, (durable_replace_root e NEXT_TICKET content h).1 = Ok u →
     root_entry NEXT_TICKET h' = Some (File content)).
Proof.
  intros He [es Hes]. unfold durable_replace_root, Durable.atomic_replace. rewrite Hes.
  cbn [validate_plain_directory].
  destruct (reject_symlink_or_non_file _) as [u|error]; cbn [map_err fst snd];
    [|split_and!; [|done..]; intros; unfold root_entry, root_entries; cbn; by rewrite Hes].
  destruct (map_contains (en_temporary e) es) eqn:Et; cbn [map_err fst snd].
  - split_and!; [|done..]. intros name Hn Hne. unfold root_entry, root_entries. rewrite Hes. cbn.
    destruct (exists_node _); [|done]. unfold remove_file.
    destruct (map_get (en_temporary e) es) as [[]|]; rewrite ?map_get_filter_ne; try done.
    all: by rewrite decide_False by by eapply temporary_ne.
  - rewrite rename_entry_get, decide_False by (intros Q; by apply (temporary_ne e NEXT_TICKET He)).
    rewrite decide_True by done. cbn [exists_node].
    split_and!; try done; intros; unfold root_entry, root_entries; cbn [set_root h_root];
      rewrite rename_entry_get, ?Hes.
    + rewrite !decide_False by (done || by eapply temporary_ne). done.
    + by rewrite decide_True.
Qed.
End Ops.
