(* ===== verification/AdmissionEnter.v ===== *)
(** Entering the queue of the admission coordinator ([Admission.v]): the number
    of a new ticket, its file and its lease. *)
From S2P Require Import Prelude.
From S2P Require Import RustStr.
From S2P Require Import BTree.
From S2P Require Import Canonical.
From S2P Require Import Durable.
From S2P Require Import Admission.
From S2P Require Import AdmissionProps.
From S2P Require Import AdmissionScan.
From S2P Require Import AdmissionOps.
Local Open Scope Z_scope.

Lemma bind_adm_inv {E A B} (m : adm E A) (f : A → adm E B) h b h' :
  (m ≫= f) h = (Ok b, h') → ∃ a h1, m h = (Ok a, h1) ∧ f a h1 = (Ok b, h').
Proof. rewrite bind_adm. destruct (m h) as [[a|e] h1]; [eauto|done]. Qed.

Lemma lift_ok {E A} (r : result E A) h a h' : lift r h = (Ok a, h') → r = Ok a ∧ h' = h.
Proof. by intros [= -> ->]. Qed.
Lemma reads_ok {E A} (f : Host → result E A) h a h' : reads f h = (Ok a, h') → f h = Ok a ∧ h' = h.
Proof. by intros [= ? ->]. Qed.

Lemma mret_ok {E A} (a b : A) h h' : (mret a : adm E A) h = (Ok b, h') → b = a ∧ h' = h.
Proof. by intros [= -> ->]. Qed.

(** [adm_inv] opens the successful steps of an operation in the context. *)
Ltac adm_inv :=
  repeat match goal with
  | H : mbind _ _ _ = (Ok _, _) |- _ => apply bind_adm_inv in H; destruct H as (? & ? & ? & H)
  | H : lift _ _ = (Ok _, _) |- _ => apply lift_ok in H; destruct H as [H ->]
  | H : reads _ _ = (Ok _, _) |- _ => apply reads_ok in H; destruct H as [H ->]
  end.

Section Enter.
Context `{CT : Codec TicketMarker} `{CL : Codec LeaseMarker} `{AL : !AdmissionLaws}.

(** What the counter file holds is read back. *)
Lemma read_counter_written n h :
  1 ≤ n ≤ u64_max → root_entry NEXT_TICKET h = Some (File (bytes (decimal_text n) ++ [line_feed])) →
  read_counter h = Ok n.
Proof.
  intros Hn Hf. assert (Hb : 0 ≤ n < 10 ^ 40) by (unfold u64_max in *; lia).
  destruct (decimal_text_digits n Hb) as (Hne & Hd & _). unfold read_counter. rewrite Hf.
  unfold from_utf8. rewrite valid_utf8_ascii.
  - cbn [ok_or mbind result_bind]. rewrite str_app, str_bytes, parse_decimal_line by (lia || done).
    cbn. by destruct (n >? 0) eqn:E; [|lia].
  - apply Forall_app. split; [|by repeat constructor]. apply digits_graphic in Hd.
    eapply Forall_impl; [exact Hd|]. cbn. lia.
Qed.

Lemma read_counter_positive h n : read_counter h = Ok n → 1 ≤ n ≤ u64_max.
Proof.
  unfold read_counter. destruct (root_entry _ _) as [[]|]; [|done..|intros [= <-]; unfold u64_max; lia].
  intros H. res_inv. opt_inv. destruct (_ >? 0) eqn:E; [|done].
  rename select (parse_unsigned _ _ = _) into Hp. unfold parse_unsigned in Hp.
  destruct (match bytes _ with [] => [] | _ => _ end); [done|]. opt_inv. destruct (_ <=? _) eqn:E'; [|done].
  simplify_eq. rewrite Z.gtb_ltb in E. bool_prop. lia.
Qed.

Lemma keeps_highest e l : ∀ v, keeps (adm_fold (highest_id e) v l).
Proof.
  induction l as [|[name n] l IH]; intros v; cbn [adm_fold]; [apply keeps_ret|].
  apply keeps_bind; [|by intros]. unfold highest_id.
  repeat (apply keeps_bind; [apply keeps_check || apply keeps_lift|]; intros ?).
  destruct (starts_with _ _); [apply keeps_ret|].
  repeat (apply keeps_bind; [apply keeps_lift|]; intros ?). apply keeps_ret.
Qed.

Lemma highest_id_bound e l : ∀ v v' h h',
  0 ≤ v → adm_fold (highest_id e) v l h = (Ok v', h') →
  h_root h' = h_root h ∧ v ≤ v' ∧ ∀ id n, (ticket_name id, n) ∈ l → is_ticket_id id = true → ticket_number id ≤ v'.
Proof.
  induction l as [|[name n] l IH]; intros v v' h h' Hv; cbn [adm_fold].
  { intros [= <- <-]. split_and!; [done|done|]. intros id n Hin. by apply elem_of_nil in Hin. }
  intros H. adm_inv. rename select (highest_id _ _ _ _ = _) into Hh. rename H into Hr.
  unfold highest_id in Hh. adm_inv. rename select (check _ _ = _) into Hck. injection Hck as _ <-.
  destruct (starts_with _ name) eqn:Est.
  - injection Hh as <- <-. destruct (IH _ _ _ _ Hv Hr) as (-> & ? & Hl). split_and!; [done|done|].
    intros id n' [Heq|Hin]%elem_of_cons Hid; [|by eapply Hl].
    apply (f_equal fst) in Heq. cbn in Heq. by rewrite <-Heq, ticket_name_not_staged in Est.
  - adm_inv. injection Hh as <- <-. rename select (parse_ticket_name _ = _) into Hp.
    rename select (ok_or _ _ = _) into Hu. apply parse_ticket_name_ok in Hp as [-> Hid].
    apply ok_or_ok in Hu. apply parse_ticket_id_inv in Hu as [-> _]; [|done].
    destruct (IH _ _ _ _ (Z.le_trans _ _ _ Hv (Z.le_max_l _ _)) Hr) as (-> & ? & Hl).
    split_and!; [done|lia|].
    intros id n' [Heq|Hin]%elem_of_cons Hid'; [|by eapply Hl]. apply (f_equal fst) in Heq. apply ticket_name_inj in Heq as ->. lia.
Qed.

Lemma host_is_root h T L Q K s : host_is h T L Q K s → ∃ es, h_root h = Some (Dir es).
Proof.
  intros []. unfold root_entry, root_entries in hi_tickets.
  destruct (h_root h) as [[]|]; try done. by eexists.
Qed.

Lemma keeps_replace_root e content : env_ok e → keeps (durable_replace_root e NEXT_TICKET content).
Proof.
  intros He h T L Q K s Hh.
  destruct (replace_root_entries e content h He (host_is_root _ _ _ _ _ _ Hh)) as (Hr & Hl & Hs & Hq & _).
  eapply host_is_ext; [|done..]. intros name Hn.
  repeat (apply elem_of_cons in Hn as [->|Hn]; [by apply Hr|]). by apply elem_of_nil in Hn.
Qed.

(** The number of a new ticket: one more than the counter and than every ticket
    there is; the counter moves past it. *)
Lemma next_ticket_id_spec e h T L Q K s :
  env_ok e → host_is h T L Q K s → contents T L Q K →
  host_is (next_ticket_id e h).2 T L Q K s ∧
  ∀ id h', next_ticket_id e h = (Ok id, h') →
    is_ticket_id id = true ∧ ticket_number id < u64_max ∧
    (∀ id' n, map_get (ticket_name id') T = Some n → is_ticket_id id' = true → ticket_number id' < ticket_number id) ∧
    (∃ c, read_counter h = Ok c ∧ c ≤ ticket_number id) ∧
    read_counter h' = Ok (ticket_number id + 1).
Proof.
  intros He Hh Hc. unfold next_ticket_id. split.
  { generalize h T L Q K s Hh. change (keeps (next_ticket_id e)). unfold next_ticket_id.
    apply keeps_bind; [apply keeps_check|]. intros _.
    apply keeps_bind; [apply keeps_reads|]. intros entries. apply keeps_bind; [apply keeps_highest|].
    intros highest. apply keeps_bind; [apply keeps_reads|]. intros counter.
    repeat (apply keeps_bind; [apply keeps_lift|]; intros ?).
    apply keeps_bind; [by apply keeps_replace_root|]. intros _. apply keeps_ret. }
  intros id h' H. adm_inv.
  rename select (read_dir _ _ _ = _) into Hd. rename select (check _ _ = _) into Hck. injection Hck as _ <-.
  erewrite read_dir_tickets in Hd by by apply host_is_next_check. injection Hd as <- <-.
  rename select (adm_fold _ _ _ _ = _) into Hf.
  apply highest_id_bound in Hf as Hmax; [|done]. destruct Hmax as (Hroot & Hpos & Hmax).
  pose proof (keeps_highest e (en_read_dir e T) 0 _ _ _ _ _ _ (host_is_next_check _ _ _ _ _ _ Hh)) as Hh4. rewrite Hf in Hh4. cbn [snd] in Hh4.
  rename select (read_counter _ = _) into Hcnt. pose proof (read_counter_positive _ _ Hcnt) as Hc1.
  repeat match goal with H : ok_or (checked_u64 _) _ = Ok _ |- _ =>
    apply ok_or_ok, checked_u64_some in H; destruct H as [-> ?] end.
  rename select (durable_replace_root _ _ _ _ = _) into Hw. apply mret_ok in H as [-> ->].
  unfold u64 in *.
  match goal with |- context [pad_decimal 20 ?n] => destruct (pad_ticket_id n) as [Hid Hnum] end;
    [unfold u64_max in *; lia|].
  rewrite Hid, Hnum. split_and!; [done|lia|..].
  - intros id' n Hn Hid'. specialize (Hmax id' n). apply map_get_elem in Hn; [|apply Hc].
    rewrite (eo_lists _ He T) in Hmax. specialize (Hmax Hn Hid'). lia.
  - eexists. split; [|shelve]. rewrite <-Hcnt. unfold read_counter, root_entry, root_entries. by rewrite Hroot.
    Unshelve. lia.
  - apply read_counter_written; [lia|].
    pose proof (host_is_root _ _ _ _ _ _ Hh4) as Hr4.
    match type of Hw with durable_replace_root _ _ ?b _ = _ =>
      destruct (replace_root_entries e b _ He Hr4) as (_ & _ & _ & _ & Hok) end.
    rewrite Hw in Hok. by eapply Hok.
Qed.

(** ** The new ticket *)

Lemma remove_inserted {V} k (v : V) (m : btmap string V) :
  map_sorted m → map_get k m = None → remove_key k (map_insert k v m) = m.
Proof.
  intros Hm Hk. apply map_ext; [by apply remove_key_sorted, map_insert_sorted|done|].
  intros x. map_simp. by repeat case_decide; subst.
Qed.

(** A ticket with the largest number, locked by its process. *)
Lemma contents_ticket T L Q K id n p :
  contents T L Q K → (length T < MAX_QUEUE_TICKETS)%nat → is_ticket_id id = true → valid_ticket n id →
  (∀ id' n', map_get (ticket_name id') T = Some n' → is_ticket_id id' = true → ticket_number id' < ticket_number id) →
  contents (map_insert (ticket_name id) n T) L Q (map_insert (ticket_name id) p K).
Proof.
  intros [] Hlen Hid Hv Hmax. constructor; try done.
  - by apply map_insert_sorted.
  - etrans; [apply length_map_insert|]. lia.
  - intros name n'. map_simp. case_decide as D.
    + intros [= <-]. destruct Hv as (c & m & -> & ?). split; [by eexists|]. right. exists id.
      split_and!; [done..|]. left. by exists c, m.
    + intros Hn. destruct (co_tickets _ _ Hn) as [? [?|(i & -> & ? & [?|[? ?]])]]; (split; [done|]).
      * by left.
      * right. exists i. split_and!; [done..|]. by left.
      * right. exists i. split_and!; [done..|]. right. split; [done|]. map_simp. by case_decide.
  - intros name n' Hn. destruct (co_leases _ _ Hn) as (i & l & n2 & ? & ? & Ht & ? & Hi). exists i, l, n2.
    split_and!; try done. map_simp. case_decide as D; [|done]. apply ticket_name_inj in D. subst i.
    specialize (Hmax _ _ Ht Hi). lia.
  - intros i n1 l i' n' Hn Hl Hs. map_simp. case_decide as D; [|by apply (co_active i n1 l)].
    apply ticket_name_inj in D as ->. intros _ _. right.
    destruct (co_leases _ _ Hn) as (j & l' & n2 & Hj & _ & Ht & _ & Hi). apply lease_name_inj in Hj as <-.
    apply ticket_number_order; [done..|]. by eapply Hmax.
Qed.

(** What an operation keeps of the tickets that are locked. *)
Definition frame (T L : btmap string node) (K : btmap string pid) (T' L' : btmap string node) : Prop :=
  ∀ id n, map_get (ticket_name id) T = Some n → valid_ticket n id → is_ticket_id id = true →
    map_get (ticket_name id) K ≠ None →
    map_get (ticket_name id) T' = Some n ∧ map_get (lease_name id) L' = map_get (lease_name id) L.

Lemma swept_frame e own T L K live T' L' : swept e own T L K live T' L' → frame T L K T' L'.
Proof.
  intros [] id n Hn Hv Hid HK. specialize (sw_protected id n Hn Hv Hid (or_intror HK)).
  destruct (sw_live id sw_protected) as (_ & _ & HL). split; [|done]. by apply sw_tickets.
Qed.

(** The live tickets are all there is. *)
Lemma swept_length e own T L K live T' L' :
  swept e own T L K live T' L' → map_sorted T' → length T' = length live.
Proof.
  intros [] Hs.
  assert (Hp : T'.*1 ≡ₚ ticket_name <$> (ti_id <$> live)).
  { apply NoDup_Permutation; [by apply sorted_nodup|apply NoDup_fmap; [apply _|exact sw_nodup]|].
    intros name. rewrite (list_elem_of_fmap ticket_name). split.
    - intros Hin. destruct (map_get name T') as [n|] eqn:E;
        [|destruct (proj1 (map_get_none name T') E Hin)].
      destruct (sw_all _ _ E) as (id & -> & _ & _). exists id. split; [done|]. by apply sw_tickets in E as [_ ?].
    - intros (id & -> & Hin). destruct (sw_live id Hin) as (_ & (n & Hn & _) & _).
      destruct (decide (ticket_name id ∈ T'.*1)) as [|N]; [done|].
      by rewrite (proj2 (map_get_none _ T') N) in Hn. }
  apply Permutation_length in Hp. by rewrite !length_fmap in Hp.
Qed.

Definition entered (e : Env) (id : string) (h' : Host) (T L Q : btmap string node) (K : btmap string pid)
    (s : option pid) : Prop :=
  ∃ n b now, is_ticket_id id = true ∧ valid_ticket n id ∧ from_slice b = Some (queued_lease id now) ∧
    (∀ id' n', map_get (ticket_name id') T = Some n' → is_ticket_id id' = true →
       ticket_number id' < ticket_number id) ∧
    host_is h' (map_insert (ticket_name id) n T) (map_insert (lease_name id) (File b) L) Q
      (map_insert (ticket_name id) (en_pid e) K) s ∧
    contents (map_insert (ticket_name id) n T) (map_insert (lease_name id) (File b) L) Q
      (map_insert (ticket_name id) (en_pid e) K).

(** A refused entry may leave a ticket that nobody holds. *)
Definition refused (h' : Host) (T L Q : btmap string node) (K : btmap string pid) (s : option pid) : Prop :=
  ∃ T' K', host_is h' T' L Q K' s ∧ contents T' L Q K' ∧ (∀ name, map_get name K' = map_get name K) ∧
    ∀ name n, map_get name T = Some n → map_get name T' = Some n.

Lemma refused_same h' T L Q K s : host_is h' T L Q K s → contents T L Q K → refused h' T L Q K s.
Proof. intros. by exists T, K. Qed.

Lemma first_lease_ok e id n h T L Q K s :
  env_ok e → contents T L Q K → (length T < MAX_QUEUE_TICKETS)%nat → is_ticket_id id = true →
  valid_ticket n id → map_get (ticket_name id) K = None →
  (∀ id' n', map_get (ticket_name id') T = Some n' → is_ticket_id id' = true → ticket_number id' < ticket_number id) →
  host_is h (map_insert (ticket_name id) n T) L Q (map_insert (ticket_name id) (en_pid e) K) s →
  ∃ h', (first_lease e id (ticket_name id) h = (Ok (reservation id), h') ∧ entered e id h' T L Q K s) ∨
    (∃ error, first_lease e id (ticket_name id) h = (Err error, h') ∧ refused h' T L Q K s).
Proof.
  intros He Hc Hlen Hid Hv HK Hmax Hh.
  pose proof (contents_ticket T L Q K id n (en_pid e) Hc Hlen Hid Hv Hmax) as Hc'.
  assert (Hlock : map_get (ticket_name id) (map_insert (ticket_name id) (en_pid e) K) = Some (en_pid e))
    by (map_simp; by rewrite decide_True).
  assert (HT : map_get (ticket_name id) T = None).
  { destruct (map_get (ticket_name id) T) as [n'|] eqn:E; [|done]. specialize (Hmax _ _ E Hid). lia. }
  unfold first_lease, unix_seconds. destruct (en_now e) as [now|] eqn:Enow; cbn [ok_or].
  - pose proof (eo_now _ He _ Enow) as Hu.
    destruct (lease_codec (queued_lease id now)) as (b & Hw & Hr); [done..|].
    assert (HL : map_get (lease_name id) L = None).
    { destruct (map_get (lease_name id) L) as [nl|] eqn:E; [|done].
      apply (co_leases _ _ _ _ Hc) in E as (i & l & n2 & Hi & _ & Ht & _). apply lease_name_inj in Hi as <-.
      congruence. }
    assert (Hcreate : create_lease (lease_name id) (queued_lease id now) h
      = (Ok (), put_dir LEASES_DIR (map_insert (lease_name id) (File (b ++ [line_feed])) L) h)).
    { unfold create_lease. erewrite bind_adm_ok by (unfold lift; rewrite Hw; done).
      unfold durable_create. rewrite (hi_leases _ _ _ _ _ _ Hh). unfold Durable.create_new.
      cbn [validate_plain_directory mbind result_bind]. unfold map_contains. by rewrite HL. }
    rewrite Hcreate. eexists. left. split; [done|]. exists n, (b ++ [line_feed]), now.
    split_and!; try done; [by eapply host_is_put_leases|].
    eapply contents_lease; [done| |done|done|done|done|done|done].
    map_simp. by rewrite decide_True.
  - exists (unlock_ticket (en_pid e) (ticket_name id) h). right. exists Clock. split; [done|].
    eexists _, _. split; [by eapply unlock_ticket_is|]. split; [by apply contents_unlock|]. split.
    + intros name. map_simp. by repeat case_decide; subst.
    + intros name n' Hn. map_simp.
      destruct (String.eq_dec name (ticket_name id)) as [->|D]; [congruence|by rewrite decide_False].
Qed.

(** A staged file takes the name of its ticket. *)
Lemma stage_ticket staging id c h T L Q K s :
  host_is h T L Q K s → map_sorted T → all_files T → map_get (ticket_name id) T = None →
  starts_with TICKET_STAGING_PREFIX staging = true →
  (∃ error, durable_create TICKETS_DIR staging c h = (Err error, h)) ∨
  ∃ h1 h2, durable_create TICKETS_DIR staging c h = (Ok (), h1) ∧
    move_file TICKETS_DIR staging TICKETS_DIR (ticket_name id) h1 = (Ok (), h2) ∧
    host_is h2 (map_insert (ticket_name id) (File c) T) L Q K s.
Proof.
  intros Hh Hs Hf Hid Hst. unfold durable_create. rewrite (hi_tickets _ _ _ _ _ _ Hh).
  unfold Durable.create_new. cbn [validate_plain_directory mbind result_bind]. unfold map_contains.
  destruct (map_get staging T) as [n|] eqn:E; [left; by eexists|]. right.
  cbn [negb ensure mbind result_bind].
  change (put_entry TICKETS_DIR (Dir (map_insert staging (File c) T)) h)
    with (put_dir TICKETS_DIR (map_insert staging (File c) T) h).
  set (h1 := put_dir TICKETS_DIR _ h).
  assert (H1 : host_is h1 (map_insert staging (File c) T) L Q K s) by (by eapply host_is_put_tickets).
  exists h1. unfold move_file. pose proof (dir_entry_is _ _ _ _ _ _ staging H1) as (-> & _ & _).
  rewrite (hi_tickets _ _ _ _ _ _ H1), !map_get_insert, decide_True by done.
  assert (Hne : ticket_name id ≠ staging).
  { intros D. rewrite <-D in Hst. by rewrite ticket_name_not_staged in Hst. }
  rewrite decide_False, Hid by done. pose proof (host_is_dirs _ _ _ _ _ _ H1) as (-> & _ & _).
  rewrite remove_inserted by done. eexists. split; [done|]. split; [done|].
  assert (H2 : host_is (put_dir TICKETS_DIR T h1) T L Q K s) by (by eapply host_is_put_tickets).
  pose proof (host_is_dirs _ _ _ _ _ _ H2) as (-> & _ & _). by eapply host_is_put_tickets.
Qed.

Lemma create_ticket_ok e h T L Q K s :
  env_ok e → host_is h T L Q K s → contents T L Q K → (length T < MAX_QUEUE_TICKETS)%nat →
  (∀ id, map_get (ticket_name id) K ≠ None → map_get (ticket_name id) T ≠ None) →
  ∃ h', (∃ id, create_ticket e h = (Ok (reservation id), h') ∧ entered e id h' T L Q K s) ∨
    (∃ error, create_ticket e h = (Err error, h') ∧ refused h' T L Q K s).
Proof.
  intros He Hh Hc Hlen HK. destruct (next_ticket_id_spec e h T L Q K s He Hh Hc) as [H1 Hspec].
  unfold create_ticket. rewrite bind_adm. destruct (next_ticket_id e h) as [[id|error] h1]; cbn [snd] in H1.
  2: { exists h1. right. exists error. split; [done|]. by apply refused_same. }
  destruct (Hspec id h1 eq_refl) as (Hid & _ & Hmax & _ & _). clear Hspec.
  do 2 erewrite bind_adm_ok by done. set (h2 := next_sequence h1).
  assert (H2 : host_is h2 T L Q K s) by (by apply host_is_next_sequence).
  destruct (ticket_codec (ticket_marker id)) as (b & Hw & Hr).
  erewrite bind_adm_ok by (unfold lift; rewrite Hw; done).
  destruct (contents_files _ _ _ _ Hc) as (HfT & _ & _).
  assert (Hfresh : map_get (ticket_name id) T = None).
  { destruct (map_get (ticket_name id) T) as [n|] eqn:E; [|done]. specialize (Hmax _ _ E Hid). lia. }
  match goal with |- context [durable_create TICKETS_DIR ?st _] =>
    destruct (stage_ticket st id (b ++ [line_feed]) h2 T L Q K s H2) as
      [(error & E)|(h3 & h4 & E3 & E4 & H4)]; [apply Hc|done|done|apply starts_with_append|..] end.
  { exists h2. right. exists error. split; [by erewrite bind_adm_err|by apply refused_same]. }
  erewrite bind_adm_ok by exact E3. erewrite bind_adm_ok by (unfold adm_map_err; rewrite E4; done).
  erewrite bind_adm_ok by done. cbn beta.
  destruct (first_lease_ok e id (File (b ++ [line_feed]))
    (set_locks (map_insert (ticket_name id) (en_pid e) (h_locks h4)) h4) T L Q K s) as (h' & Hcase);
    [done..| | | | |].
  - eexists _, _. split; [done|]. split; [done|]. unfold ticket_valid. cbn. by rewrite String.eqb_refl.
  - destruct (map_get (ticket_name id) K) eqn:E; [|done]. by destruct (HK id); rewrite ?E.
  - done.
  - rewrite (hi_locks _ _ _ _ _ _ H4). by eapply host_is_set_locks.
  - exists h'. destruct Hcase as [Hcase|Hcase]; [left; by exists id|by right].
Qed.

(** Every lock of a ticket is the lock of a valid ticket. *)
Definition locks_valid (T : btmap string node) (K : btmap string pid) : Prop :=
  ∀ id, map_get (ticket_name id) K ≠ None →
    is_ticket_id id = true ∧ ∃ n, map_get (ticket_name id) T = Some n ∧ valid_ticket n id.

Definition enter_outcome (e : Env) (o : result AdmissionError TicketReservation * Host)
    (T L : btmap string node) (K : btmap string pid) (s : option pid) : Prop :=
  ∃ T' L' Q', frame T L K T' L' ∧
    ((∃ id, o.1 = Ok (reservation id) ∧ entered e id o.2 T' L' Q' K s) ∨
     (∃ error, o.1 = Err error ∧ refused o.2 T' L' Q' K s)).

Lemma enter_stopped e error h' T L Q K s :
  host_is h' T L Q K s → contents T L Q K → enter_outcome e (Err error, h') T L K s.
Proof.
  intros Hh Hc. exists T, L, Q. split; [by intros ?|]. right. exists error.
  split; [done|]. by apply refused_same.
Qed.

Lemma join_queue_ok e h T L Q K s :
  env_ok e → host_is h T L Q K s → contents T L Q K → locks_valid T K →
  enter_outcome e (join_queue e h) T L K s.
Proof.
  intros He Hh Hc HK. unfold join_queue. erewrite bind_adm_ok by by eapply lock_queue_ok.
  destruct (sweep_ok e None h T L Q K s (eo_lists _ He) Hh Hc)
    as (live & stale & h3 & h4 & T' & L' & Q' & E1 & E2 & H4 & C4 & Hsw).
  erewrite bind_adm_ok by exact E1. cbn beta iota. erewrite bind_adm_ok by exact E2.
  pose proof (swept_frame _ _ _ _ _ _ _ _ Hsw) as Hframe. exists T', L', Q'. split; [done|].
  destruct (MAX_QUEUE_TICKETS <=? length live)%nat eqn:Hfull.
  { right. exists QueueFull. split; [done|]. by apply refused_same. }
  erewrite bind_adm_ok by done. apply Nat.leb_gt in Hfull.
  destruct (create_ticket_ok e h4 T' L' Q' K s He H4 C4) as (h' & [(id & -> & H)|(error & -> & H)]).
  - by rewrite (swept_length _ _ _ _ _ _ _ _ Hsw) by apply C4.
  - intros id Hid. destruct (HK id Hid) as (? & n & Hn & Hv). by destruct (Hframe id n Hn Hv) as [-> _].
  - left. by exists id.
  - right. by exists error.
Qed.

Lemma enter_unfold e h :
  enter e h = match from_timeout e, check e (begin e h) with
              | Err error, _ => (Err error, begin e h)
              | _, (Err error, h) => (Err error, h)
              | _, (Ok _, h) => match initialize_until e h with
                                | (Err error, h) => (Err error, h)
                                | (Ok _, h) => join_queue e h
                                end
              end.
Proof.
  unfold enter. rewrite !bind_adm. cbn [update]. rewrite bind_adm. unfold lift.
  destruct (from_timeout e); [|done]. rewrite bind_adm. destruct (check e _) as [[]?]; [|done].
  by rewrite bind_adm.
Qed.

(** [acquire] up to its loop, on a host that was initialised. *)
Lemma enter_ok e h T L Q K s :
  env_ok e → host_is h T L Q K s → contents T L Q K → locks_valid T K →
  enter_outcome e (enter e h) T L K s.
Proof.
  intros He Hh Hc HK. rewrite enter_unfold. apply (host_is_begin e) in Hh.
  destruct (from_timeout e) as [at_|error]; [|by eapply enter_stopped].
  pose proof (keeps_check e _ _ _ _ _ _ Hh) as H1.
  destruct (check e _) as [[u|error] h1]; [|by eapply enter_stopped]. cbn [snd] in H1.
  pose proof (keeps_initialize e _ _ _ _ _ _ H1) as H2.
  destruct (initialize_until e h1) as [[u'|error] h2]; [|by eapply enter_stopped].
  by eapply join_queue_ok.
Qed.

Lemma contents_empty K : contents [] [] [] K.
Proof. constructor; try done; [constructor..|cbn; unfold MAX_QUEUE_TICKETS; lia]. Qed.

(** [acquire] up to its loop, on a host that was never initialised. *)
Lemma enter_fresh e h :
  env_ok e → h_root h = None → h_queue h = None → h_slot h = None →
  (∀ name, map_get name (h_locks h) = None) →
  (∃ error, (enter e h).1 = Err error ∧ h_root (enter e h).2 = None ∧ h_queue (enter e h).2 = None ∧
     h_locks (enter e h).2 = h_locks h ∧ h_slot (enter e h).2 = h_slot h) ∨
  enter_outcome e (enter e h) [] [] (h_locks h) (h_slot h).
Proof.
  intros He Hr Hq Hs HK. rewrite enter_unfold.
  destruct (from_timeout e) as [at_|error]; [|left; by exists error].
  destruct (check e (begin e h)) as [[u|error] h1] eqn:Ec; injection Ec as _ <-; [|left; by exists error].
  destruct (initialize_fresh e (next_check (begin e h))) as [(error & ->)|(h2 & -> & H2)];
    [apply He|done|done|done|left; by exists error|]. right.
  eapply join_queue_ok; [done|exact H2|apply contents_empty|]. intros id []. apply HK.
Qed.
End Enter.

(** * The status report

    A scan that reclaims nothing, and the leases that are active. *)

(** A step that always fails on one element makes the loop fail. *)
Lemma try_fold_stops {E S A} (f : S → A → result E S) (a : A) l : ∀ s,
  a ∈ l → (∀ s, is_ok (f s a) = false) → is_ok (try_fold f s l) = false.
Proof.
  induction l as [|b l IH]; intros s Hin Ha; [by apply elem_of_nil in Hin|]. cbn.
  apply elem_of_cons in Hin as [->|Hin].
  - specialize (Ha s). by destruct (f s b).
  - destruct (f s b); cbn; [by apply IH|done].
Qed.

Section Status.
Context `{CT : Codec TicketMarker} `{CL : Codec LeaseMarker}.

(** One entry of a scan that reclaims nothing is a live ticket. *)
Lemma scan_entry_status e count live stale x h acc h' :
  scan_entry e None false (count, live, stale) x h = (Ok acc, h') →
  h' = h ∧ ∃ id, acc = (S count, live ++ [{| ti_id := id; ti_path := x.1 |}], stale) ∧
    x.1 = ticket_name id ∧ is_ticket_id id = true.
Proof.
  destruct x as [name n]. unfold scan_entry. intros H. adm_inv. cbn [fst].
  destruct (starts_with _ name); [adm_inv; done|]. adm_inv.
  rename select (parse_ticket_name _ = _) into Hp. apply parse_ticket_name_ok in Hp as [-> Hid].
  destruct (read_ticket _ _) as [m|[]]; cbn [andb] in H; adm_inv; try done.
  rewrite bool_decide_false in H by done.
  match type of H with (if ?b then _ else _) _ = _ => destruct b end; adm_inv; apply mret_ok in H as [-> ->];
    (split; [done|]); by eexists.
Qed.

Lemma scan_fold_status e l : ∀ count live stale h acc h',
  adm_fold (scan_entry e None false) (count, live, stale) l h = (Ok acc, h') →
  h' = h ∧ ∃ count' added, acc = (count', live ++ added, stale) ∧ ti_path <$> added = l.*1 ∧
    ∀ t, t ∈ added → ti_path t = ticket_name (ti_id t) ∧ is_ticket_id (ti_id t) = true.
Proof.
  induction l as [|x l IH]; intros count live stale h acc h'; cbn [adm_fold].
  { intros [= <- <-]. split; [done|]. exists count, []. rewrite app_nil_r. split_and!; [done..|].
    by intros t Ht%elem_of_nil. }
  intros H. adm_inv. rename select (scan_entry _ _ _ _ _ _ = _) into Hx.
  apply scan_entry_status in Hx as (-> & id & -> & Hname & Hid).
  apply IH in H as (-> & count' & added & -> & Hpaths & Hall). split; [done|].
  exists count', ({| ti_id := id; ti_path := x.1 |} :: added). split_and!.
  - by rewrite <-app_assoc.
  - cbn. by rewrite Hpaths.
  - intros t [->|Ht]%elem_of_cons; [done|by apply Hall].
Qed.

(** Every file of the directory is reported, in the order of the numbers. *)
Lemma scan_status_ok e h T L Q K s live stale h' :
  lists_entries e → host_is h T L Q K s → map_sorted T →
  scan_tickets e None false h = (Ok (live, stale), h') →
  h' = h ∧ StronglySorted (key_le ti_id) live ∧ NoDup (ti_id <$> live) ∧
  (∀ id, id ∈ ti_id <$> live ↔ map_get (ticket_name id) T ≠ None) ∧
  ∀ id, id ∈ ti_id <$> live → is_ticket_id id = true.
Proof.
  intros He Hh HT H. unfold scan_tickets in H. adm_inv.
  rename select (read_dir _ _ _ = _) into Hd. erewrite read_dir_tickets in Hd by done. injection Hd as <- <-.
  rename select (adm_fold _ _ _ _ = _) into Hf.
  apply scan_fold_status in Hf as (-> & count & added & -> & Hpaths & Hall). cbn [app] in H.
  apply mret_ok in H as [[= -> ->] ->]. split; [done|]. split; [apply sort_by_sorted|].
  assert (Hkeys : ti_path <$> added ≡ₚ T.*1) by by rewrite Hpaths, (He T).
  assert (Heq : ti_path <$> added = ticket_name <$> (ti_id <$> added)).
  { rewrite <-list_fmap_compose. apply list_fmap_ext. intros i t Ht. apply list_elem_of_lookup_2 in Ht.
    by apply Hall. }
  split_and!.
  - rewrite sort_by_perm. apply (NoDup_fmap_1 ticket_name). rewrite <-Heq, Hkeys. by apply sorted_nodup.
  - intros id. rewrite sort_by_perm, <-fmap_path_id by (intros t Ht; by apply Hall). rewrite Hkeys.
    destruct (map_get (ticket_name id) T) as [n|] eqn:E.
    + split; [done|]. intros _. apply map_get_in in E. by apply (list_elem_of_fmap_2 fst) in E.
    + split; [|done]. intros Hin. by apply map_get_none in E.
  - intros id. rewrite sort_by_perm. intros (t & -> & Ht)%list_elem_of_fmap. by apply Hall.
Qed.

(** ** The active leases *)

Definition pick_active (x : string * node) : option LeaseMarker :=
  match x.2 with
  | File c => match from_slice c with
              | Some l => if (lm_state l =? "queued")%string then None else Some l
              | None => None
              end
  | _ => None
  end.

Lemma active_lease_entry_ok leases x r :
  active_lease_entry leases x = Ok r → r = leases ++ option_list (pick_active x).
Proof.
  destruct x as [name n]. unfold active_lease_entry, pick_active. intros H. res_inv. cbn [snd].
  rename select (read_lease_file _ _ = _) into Hl. unfold read_lease_file in Hl. res_inv.
  destruct n as [c|es|b t|]; try done. rename select (read_file _ = _) into Hr. injection Hr as <-.
  rename select (from_slice _ = _) into Hs. rewrite Hs.
  destruct (_ =? "queued")%string; res_inv; subst; [by rewrite app_nil_r|done].
Qed.

Lemma active_leases_fold l : ∀ acc r,
  try_fold active_lease_entry acc l = Ok r → r = acc ++ omap pick_active l.
Proof.
  induction l as [|x l IH]; intros acc r; cbn [try_fold].
  { intros [= ->]. by rewrite app_nil_r. }
  intros H. apply bind_ok in H as (acc1 & H1%active_lease_entry_ok & H). apply IH in H as ->.
  rewrite H1, <-app_assoc. cbn. by destruct (pick_active x).
Qed.

(** One entry that is picked. *)
Lemma omap_single {A} (f : string * node → option A) (m : btmap string node) k a :
  NoDup m.*1 → (∀ x, x ∈ m → f x ≠ None → x.1 = k) → (∃ x, x ∈ m ∧ f x = Some a) → omap f m = [a].
Proof.
  induction m as [|x m IH]; [by intros _ _ (x & Hx%elem_of_nil & _)|].
  intros [Hx Hnd]%NoDup_cons Honly (y & Hy & Hfy). cbn.
  assert (Hnone : x.1 = k → omap f m = []).
  { intros Hk. destruct (omap f m) as [|b l] eqn:E; [done|]. exfalso.
    assert (Hb : b ∈ omap f m) by (rewrite E; left). apply list_elem_of_omap in Hb as (z & Hz & Hfz).
    assert (z.1 = k) as Hzk by (apply Honly; [by right|by rewrite Hfz]).
    apply Hx. rewrite Hk, <-Hzk. by apply list_elem_of_fmap_2. }
  destruct (f x) as [b|] eqn:Ex.
  - assert (x.1 = k) as Hk by (apply Honly; [left|by rewrite Ex]). rewrite Hnone by done.
    apply elem_of_cons in Hy as [->|Hy]; [congruence|]. exfalso. apply Hx.
    replace x.1 with y.1; [by apply list_elem_of_fmap_2|]. rewrite Hk. apply Honly; [by right|by rewrite Hfy].
  - apply IH; [done| |].
    + intros z Hz. apply Honly. by right.
    + exists y. split; [|done]. apply elem_of_cons in Hy as [->|Hy]; [congruence|done].
Qed.

Lemma active_leases_single e h T L Q K s leases id n l :
  lists_entries e → host_is h T L Q K s → contents T L Q K →
  active_leases e h = Ok leases →
  map_get (lease_name id) L = Some n → valid_lease n id l → lm_state l = "active" →
  leases = [l].
Proof.
  intros He Hh Hc H Hn Hl Hst. unfold active_leases in H. rewrite (hi_leases _ _ _ _ _ _ Hh) in H.
  apply active_leases_fold in H as ->. cbn [app]. pose proof (sorted_nodup _ (co_leases_sorted _ _ _ _ Hc)) as Hnd.
  apply (omap_single _ _ (lease_name id)); [by rewrite (He L)| |].
  - intros [name n'] Hx Hpick. rewrite (He L) in Hx. apply map_get_elem in Hx; [|apply Hc].
    pose proof (co_leases _ _ _ _ Hc _ _ Hx) as (i & l' & nt & -> & Hl' & Hnt & _ & Hi). cbn.
    unfold pick_active in Hpick. destruct Hl' as (c & Hcn & Hs & Hrest). cbn in Hpick. subst n'. rewrite Hs in Hpick.
    destruct (String.eqb_spec (lm_state l') "queued") as [|Hq]; [done|].
    pose proof (co_leases _ _ _ _ Hc _ _ Hn) as (j & l2 & nt2 & Ej & _ & Hnt2 & _ & Hj).
    apply lease_name_inj in Ej as <-.
    destruct (co_active _ _ _ _ Hc _ _ _ _ _ Hx ltac:(by exists c) Hq Hnt2 Hj) as [->|H1]; [done|].
    destruct (co_active _ _ _ _ Hc _ _ _ _ _ Hn Hl ltac:(by rewrite Hst) Hnt Hi) as [->|H2]; [done|].
    exfalso. apply (lt_ord_irrefl i). by transitivity id.
  - exists (lease_name id, n). split; [rewrite (He L); by apply map_get_in|]. unfold pick_active. cbn.
    destruct Hl as (c & -> & Hs & _). by rewrite Hs, Hst.
Qed.

(** A file with a temporary name among the leases makes the report fail. *)
Lemma active_leases_temporary e h es name c :
  lists_entries e → root_entry LEASES_DIR h = Some (Dir es) → (name, File c) ∈ es →
  starts_with TEMPORARY_PREFIX name = true → is_ok (active_leases e h) = false.
Proof.
  intros He Hes Hin Hname. unfold active_leases. rewrite Hes.
  apply (try_fold_stops _ (name, File c)); [by rewrite (He es)|]. intros leases.
  unfold active_lease_entry. cbn [validate_regular mbind result_bind].
  destruct (starts_with LEASE_PREFIX name) eqn:E; [|done]. exfalso.
  unfold starts_with in *. destruct (strip_prefix TEMPORARY_PREFIX name) eqn:E1; [|done].
  destruct (strip_prefix LEASE_PREFIX name) eqn:E2; [|done].
  apply strip_prefix_some in E1 as ->. by apply strip_prefix_some in E2.
Qed.
End Status.
