(* ===== verification/Reconcile.v ===== *)
(** Reconciliation of the admission coordinator ([src/src/admission.rs]): what the
    tickets of dead processes are, and moving selected ones to quarantine.

    Both operations hold the queue lock, the slot lock and the locks of the
    tickets they look at until they return, so each is one step of the host. *)
From S2P Require Import Prelude.
From S2P Require Import RustStr.
From S2P Require Import BTree.
From S2P Require Import Canonical.
From S2P Require Import Durable.
From S2P Require Import Admission.
Local Open Scope Z_scope.

(** * Data *)

Inductive AdmissionReconciliationModeV1 : Type := Preview.

Record AdmissionReconciliationCandidateV1 : Type := {
  rc_ticket_id : string;
  rc_classification : string;
}.

Record AdmissionReconciliationReportV1 : Type := {
  rr_schema_version : string;
  rr_mode : AdmissionReconciliationModeV1;
  rr_candidates : list AdmissionReconciliationCandidateV1;
}.

Record AdmissionReconciliationOutcomeV1 : Type := {
  ro_ticket_id : string;
  ro_classification : string;
}.

Record AdmissionReconciliationApplyReportV1 : Type := {
  ra_schema_version : string;
  ra_outcomes : list AdmissionReconciliationOutcomeV1;
}.

Inductive AdmissionReconciliationError : Type :=
  | FromAdmission (error : AdmissionError)
  | Blocked (reason : string)
  | Partial (reason : string) (report : AdmissionReconciliationApplyReportV1).

Inductive ReconciliationSyncPoint : Type := SyncLease | SyncTickets | SyncQuarantine.

(** What the system and other programs do to the [n]-th ticket of a request,
    counted from 1: a lease that cannot be removed, a directory that cannot be
    synchronised, a file that cannot be moved, a file another program replaced;
    and the first lock that could not be released at the end. *)
Record Faults : Type := {
  fa_lease : nat → bool;
  fa_sync : ReconciliationSyncPoint → nat → bool;
  fa_move : nat → bool;
  fa_changed : nat → bool;
  fa_release : option string;
}.

Definition admission {A} (m : adm AdmissionError A) : adm AdmissionReconciliationError A :=
  adm_map_err FromAdmission m.
Definition stop {A} (e : AdmissionReconciliationError) : adm AdmissionReconciliationError A := lift (Err e).

Definition outcome (id classification : string) : AdmissionReconciliationOutcomeV1 :=
  {| ro_ticket_id := id; ro_classification := classification |}.
Definition apply_report (outcomes : list AdmissionReconciliationOutcomeV1) :
    AdmissionReconciliationApplyReportV1 := {| ra_schema_version := "1.0"; ra_outcomes := outcomes |}.
Definition preview_report (candidates : list AdmissionReconciliationCandidateV1) :
    AdmissionReconciliationReportV1 :=
  {| rr_schema_version := "1.0"; rr_mode := Preview; rr_candidates := candidates |}.

(** [Vec::dedup] of a sorted list. *)
Fixpoint dedup (l : list string) : list string :=
  match l with
  | x :: (y :: _) as l' => if (x =? y)%string then dedup l' else x :: dedup l'
  | _ => l
  end.

Section Reconcile.
Context `{CT : Codec TicketMarker} `{CL : Codec LeaseMarker}.

(** * Preview *)

Definition classify_lease (e : Env) (slot_blocked : bool) (lease : option LeaseMarker) : string :=
  if slot_blocked then "blocked_slot_locked" else
  match lease with
  | None => "eligible_absent_lease"
  | Some lease =>
    if negb (lease_is_semantically_valid lease) then "blocked_invalid_lease"
    else if lease_is_expired e lease then "eligible_expired_lease"
    else "blocked_live_lease"
  end.

Definition preview_entry (e : Env) (slot_blocked : bool)
    (acc : nat * list AdmissionReconciliationCandidateV1) (entry : string * node) :
    adm AdmissionError (nat * list AdmissionReconciliationCandidateV1) :=
  let '(count, candidates) := acc in
  let '(name, n) := entry in
  let path := path_of TICKETS_DIR name in
  let count := S count in
  _ ← lift (ensure (count <=? MAX_QUEUE_TICKETS)%nat QueueFull);
  _ ← check e;
  _ ← lift (validate_regular path n);
  id ← lift (parse_ticket_name name);
  marker ← lift (read_ticket (Some n) path);
  _ ← lift (ensure (ticket_valid marker id) (ForeignTicket path));
  free ← reads (λ h, Ok (ticket_lock_free name h));
  classification ←
    (if free : bool then
       lease ← reads (read_lease id);
       mret (classify_lease e slot_blocked lease)
     else mret "blocked_ticket_locked");
  mret (count, candidates ++ [{| rc_ticket_id := id; rc_classification := classification |}]).

Definition reconcile_preview_with_timeout (e : Env) :
    adm AdmissionReconciliationError AdmissionReconciliationReportV1 :=
  _ ← update (begin e);
  _ ← admission (lift (from_timeout e));
  _ ← admission (check e);
  present ← admission root_exists;
  if negb present then mret (preview_report []) else
  owned ← admission valid_owner_marker_exists;
  _ ← admission (lift (ensure owned (ForeignOwner OWNER_FILE)));
  _ ← admission (validate_layout e true);
  _ ← admission (lock_queue_until (en_wait e));
  slot ← admission (open_existing_lock_file SLOT_LOCK);
  if negb slot then stop (Blocked "missing_slot_lock") else
  holder ← reads (λ h, Ok (h_slot h));
  entries ← admission (read_dir e TICKETS_DIR);
  acc ← admission (adm_fold (preview_entry e (is_Some_b holder)) (0%nat, []) entries);
  mret (preview_report (sort_by rc_ticket_id acc.2)).

(** * Apply *)

Definition layout_file (name : string) (h : Host) : result AdmissionReconciliationError () :=
  match root_entry name h with Some (File _) => Ok () | _ => Err (Blocked "invalid_layout") end.
Definition layout_directory (name : string) (h : Host) : result AdmissionReconciliationError () :=
  match root_entry name h with Some (Dir _) => Ok () | _ => Err (Blocked "invalid_layout") end.

Definition validate_reconciliation_apply_layout (e : Env) : adm AdmissionReconciliationError () :=
  _ ← adm_map_err (λ error, match error with
                            | UnsafeLayout _ | ForeignOwner _ => Blocked "invalid_layout"
                            | error => FromAdmission error
                            end) (validate_layout e true);
  _ ← adm_each (λ name, reads (layout_file name)) [OWNER_FILE; QUEUE_LOCK; SLOT_LOCK];
  adm_each (λ name, reads (layout_directory name)) [TICKETS_DIR; LEASES_DIR; QUARANTINE_DIR].

Definition lease_name_id (name : string) : option string :=
  inner ← strip_prefix LEASE_PREFIX name;
  id ← strip_suffix LEASE_SUFFIX inner;
  if is_ticket_id id then Some id else None.

(** One entry of the directory of leases: a valid expired lease whose ticket is
    there. *)
Definition validate_lease_entry (e : Env) (count : nat) (entry : string * node) :
    adm AdmissionReconciliationError nat :=
  let '(name, n) := entry in
  let count := S count in
  let foreign := Blocked "foreign_or_malformed_lease" in
  _ ← admission (check e);
  _ ← lift (ensure (count <=? MAX_QUEUE_TICKETS)%nat (Blocked "too_many_leases"));
  _ ← lift (match n with File _ => Ok () | _ => Err foreign end);
  id ← lift (ok_or (lease_name_id name) foreign);
  lease ← adm_map_err (λ error, match error with MalformedLease _ => foreign | error => FromAdmission error end)
            (lift (read_lease_file name (Some n)));
  _ ← lift (ensure (lease_owned lease && (lm_owner_run_id lease =? id)%string
                    && lease_is_semantically_valid lease) foreign);
  ticket ← reads (λ h, Ok (dir_entry TICKETS_DIR (ticket_name id) h));
  _ ← lift (match ticket with
            | None => Err (Blocked "lease_only_residue")
            | Some (File _) => Ok ()
            | Some _ => Err (Blocked "unsafe_selected_ticket")
            end);
  marker ← adm_map_err (λ error, match error with
                                 | MalformedTicket _ => Blocked "foreign_or_malformed_ticket"
                                 | error => FromAdmission error
                                 end)
             (lift (read_ticket ticket (path_of TICKETS_DIR (ticket_name id))));
  _ ← lift (ensure (ticket_valid marker id) (Blocked "foreign_or_malformed_ticket"));
  _ ← lift (ensure (lease_is_expired e lease) (Blocked "slot_lease_contradiction"));
  mret count.

Definition validate_reconciliation_lease_namespace (e : Env) : adm AdmissionReconciliationError () :=
  entries ← admission (read_dir e LEASES_DIR);
  _ ← adm_fold (validate_lease_entry e) 0%nat entries;
  mret ().

(** [open_selected_ticket] on Linux and macOS: a directory cannot be opened for
    writing. *)
Definition open_selected_ticket (id : string) (h : Host) : result AdmissionReconciliationError (list ascii) :=
  match dir_entry TICKETS_DIR (ticket_name id) h with
  | None => Err (Blocked "unknown_target")
  | Some (File content) => Ok content
  | Some (Symlink _ _ | Special) => Err (Blocked "unsafe_selected_ticket")
  | Some (Dir _) => Err (FromAdmission (AdmissionIo (path_of TICKETS_DIR (ticket_name id)) OtherIo))
  end.

(** The ticket is locked, is valid, and has no lease or an expired one. *)
Definition select_ticket (e : Env) (id : string) : adm AdmissionReconciliationError () :=
  _ ← admission (check e);
  content ← reads (open_selected_ticket id);
  free ← reads (λ h, Ok (ticket_lock_free (ticket_name id) h));
  _ ← lift (ensure free (Blocked "held_ticket"));
  marker ← lift (ok_or (from_slice content)
                   (FromAdmission (MalformedTicket (path_of TICKETS_DIR (ticket_name id)))));
  _ ← lift (ensure (ticket_valid marker id) (Blocked "foreign_or_malformed_ticket"));
  lease ← admission (reads (read_lease id));
  match lease : option LeaseMarker with
  | None => mret ()
  | Some lease =>
    _ ← lift (ensure (lease_is_semantically_valid lease) (Blocked "invalid_lease"));
    lift (ensure (lease_is_expired e lease) (Blocked "live_or_future_lease"))
  end.

(** [remove_reconciliation_lease]: whether a lease was there. *)
Definition remove_reconciliation_lease (f : Faults) (index : nat) (id : string) : adm io_kind bool := λ h,
  if fa_lease f index then (Err OtherIo, h) else
  match remove_entry LEASES_DIR (lease_name id) h with
  | (Ok _, h) => (Ok true, h)
  | (Err NotFound, h) => (Ok false, h)
  | (Err kind, h) => (Err kind, h)
  end.

Definition sync_reconciliation_directory (f : Faults) (point : ReconciliationSyncPoint) (index : nat) :
    adm io_kind () := lift (ensure (negb (fa_sync f point index)) OtherIo).

(** The rename that replaces nothing. *)
Definition quarantine_file_no_replace (f : Faults) (index : nat) (id : string) : adm io_kind () :=
  if fa_move f index then lift (Err OtherIo) else
  sequence ← reads (λ h, Ok (h_sequence h));
  _ ← update next_sequence;
  let destination := ticket_name id +:+ "." +:+ decimal_text sequence in
  occupied ← reads (λ h, Ok (is_Some_b (dir_entry QUARANTINE_DIR destination h)));
  if occupied : bool then lift (Err AlreadyExists)
  else move_file TICKETS_DIR (ticket_name id) QUARANTINE_DIR destination.

Definition deadline_reason (error : AdmissionError) : string :=
  match error with
  | AdmissionCancelled => "cancelled"
  | AdmissionTimeout => "timeout"
  | _ => "deadline_failed"
  end.

(** One ticket of a request whose first tickets have the given outcomes. *)
Definition apply_ticket (e : Env) (f : Faults) (outcomes : list AdmissionReconciliationOutcomeV1)
    (id : string) (rest : list string) :
    adm AdmissionReconciliationError (list AdmissionReconciliationOutcomeV1) :=
  let index := S (length outcomes) in
  let partial reason classification :=
    Partial reason (apply_report (outcomes ++ outcome id classification
                                    :: ((λ i, outcome i "not_attempted") <$> rest))) in
  let first := is_nil outcomes in
  _ ← adm_map_err (λ error, if first then FromAdmission error
                            else partial (deadline_reason error) "not_attempted") (check e);
  lease_removed ← adm_map_err
    (λ kind, if first then FromAdmission (AdmissionIo (path_of LEASES_DIR (lease_name id)) kind)
             else partial "lease_remove_failed" "partial_lease_remove_failed")
    (remove_reconciliation_lease f index id);
  _ ← (if lease_removed : bool then
         adm_map_err (λ _, partial "lease_sync_failed" "partial_lease_sync_failed")
           (sync_reconciliation_directory f SyncLease index)
       else mret ());
  _ ← adm_map_err (λ error, if lease_removed || negb first
                            then partial (deadline_reason error) "partial_after_lease_removal"
                            else FromAdmission error) (check e);
  _ ← adm_map_err
    (λ kind, match kind with
             | AlreadyExists => if negb lease_removed && first then Blocked "quarantine_collision"
                                else partial "quarantine_collision" "partial_quarantine_collision"
             | kind => if negb lease_removed && first
                       then FromAdmission (AdmissionIo (path_of TICKETS_DIR (ticket_name id)) kind)
                       else partial "move_failed" "partial_move_failed"
             end)
    (quarantine_file_no_replace f index id);
  _ ← adm_map_err (λ error, partial (deadline_reason error) "partial_ticket_moved") (check e);
  _ ← adm_map_err (λ _, partial "ticket_sync_failed" "partial_ticket_sync_failed")
        (sync_reconciliation_directory f SyncTickets index);
  _ ← adm_map_err (λ _, partial "quarantine_sync_failed" "partial_quarantine_sync_failed")
        (sync_reconciliation_directory f SyncQuarantine index);
  mret (outcomes ++ [outcome id "quarantined"]).

Fixpoint apply_tickets (e : Env) (f : Faults) (outcomes : list AdmissionReconciliationOutcomeV1)
    (ids : list string) : adm AdmissionReconciliationError (list AdmissionReconciliationOutcomeV1) :=
  match ids with
  | [] => mret outcomes
  | id :: rest => outcomes ← apply_ticket e f outcomes id rest; apply_tickets e f outcomes rest
  end.

(** The selected identifiers as they are given, and in order. *)
Definition validate_selection (selected_ids : list string) :
    result AdmissionReconciliationError (list string) :=
  _ ← ensure (negb (is_nil selected_ids)) (Blocked "empty_target");
  _ ← ensure (length selected_ids <=? MAX_QUEUE_TICKETS)%nat (Blocked "too_many_targets");
  let canonical := dedup (sort_by (λ id, id) selected_ids) in
  _ ← ensure (length canonical =? length selected_ids)%nat (Blocked "duplicate_target");
  _ ← ensure (forallb is_ticket_id canonical) (Blocked "malformed_target");
  Ok canonical.

Definition reconcile_apply_with_timeout (e : Env) (f : Faults) (selected_ids : list string) :
    adm AdmissionReconciliationError AdmissionReconciliationApplyReportV1 :=
  _ ← update (begin e);
  _ ← admission (lift (from_timeout e));
  _ ← admission (check e);
  canonical ← lift (validate_selection selected_ids);
  present ← admission root_exists;
  _ ← lift (ensure present (Blocked "unknown_target"));
  owned ← admission valid_owner_marker_exists;
  _ ← admission (lift (ensure owned (ForeignOwner OWNER_FILE)));
  _ ← validate_reconciliation_apply_layout e;
  _ ← admission (lock_queue_until (en_wait e));
  slot ← admission (open_existing_lock_file SLOT_LOCK);
  _ ← lift (ensure slot (Blocked "missing_slot_lock"));
  holder ← reads (λ h, Ok (h_slot h));
  _ ← lift (ensure (negb (is_Some_b holder)) (Blocked "slot_busy"));
  owned ← admission valid_owner_marker_exists;
  _ ← lift (ensure owned (Blocked "invalid_layout"));
  _ ← validate_reconciliation_apply_layout e;
  _ ← validate_reconciliation_lease_namespace e;
  _ ← adm_each (select_ticket e) canonical;
  _ ← lift (ensure (forallb (λ i, negb (fa_changed f (S i))) (seq 0 (length canonical)))
              (Blocked "selected_ticket_changed"));
  outcomes ← apply_tickets e f [] canonical;
  match fa_release f with
  | Some reason => stop (Partial reason (apply_report outcomes))
  | None => mret (apply_report outcomes)
  end.
End Reconcile.
