(* ===== verification/ReconcileProps.v ===== *)
(** Lemmas on reconciliation ([Reconcile.v]): what one ticket of a request and a
    whole request do to the directories, whatever fails on the way. *)
From S2P Require Import Prelude.
From S2P Require Import RustStr.
From S2P Require Import BTree.
From S2P Require Import Canonical.
From S2P Require Import Durable.
From S2P Require Import Admission.
From S2P Require Import AdmissionProps.
From S2P Require Import AdmissionScan.
From S2P Require Import AdmissionOps.
From S2P Require Import AdmissionEnter.
From S2P Require Import Reconcile.
Local Open Scope Z_scope.

Lemma map_err_adm {E F A} (g : E → F) (m : adm E A) h : adm_map_err g m h = (map_err g (m h).1, (m h).2).
Proof. unfold adm_map_err. by destruct (m h). Qed.

Section Reconcile.
Context `{CT : Codec TicketMarker} `{CL : Codec LeaseMarker}.

Lemma contents_drop_lease T L Q K name : contents T L Q K → contents T (remove_key name L) Q K.
Proof.
  intros []. constructor; try done.
  - by apply remove_key_sorted.
  - intros name' n. map_simp. case_decide; [done|]. apply co_leases.
  - intros id n l id' n'. map_simp. case_decide; [done|]. apply co_active.
Qed.

(** ** The steps of one ticket *)

Lemma remove_reconciliation_lease_ok f index id h T L Q K s :
  host_is h T L Q K s → all_files L →
  ∃ r h', remove_reconciliation_lease f index id h = (r, h') ∧
    match r with
    | Ok removed => fa_lease f index = false ∧ removed = is_Some_b (map_get (lease_name id) L) ∧
        host_is h' T (remove_key (lease_name id) L) Q K s
    | Err kind => fa_lease f index = true ∧ kind = OtherIo ∧ host_is h' T L Q K s
    end.
Proof.
  intros Hh HL. unfold remove_reconciliation_lease. destruct (fa_lease f index); [by do 2 eexists|].
  unfold remove_entry. pose proof (dir_entry_is _ _ _ _ _ _ (lease_name id) Hh) as (_ & -> & _).
  pose proof (host_is_dirs _ _ _ _ _ _ Hh) as (_ & -> & _).
  destruct (map_get (lease_name id) L) as [n|] eqn:E.
  - destruct (HL _ _ E) as [c ->]. do 2 eexists. split; [done|]. split_and!; [done..|]. eauto with ccp.
  - do 2 eexists. split; [done|]. split_and!; [done..|]. by rewrite remove_key_absent.
Qed.

Lemma quarantine_no_replace_ok f index id h T L Q K s c :
  host_is h T L Q K s → map_get (ticket_name id) T = Some (File c) →
  ∃ r h', quarantine_file_no_replace f index id h = (r, h') ∧
    match r with
    | Ok _ => fa_move f index = false ∧ ∃ q, map_get q Q = None ∧
        host_is h' (remove_key (ticket_name id) T) L (map_insert q (File c) Q) K s
    | Err kind => kind = (if fa_move f index then OtherIo else AlreadyExists) ∧ host_is h' T L Q K s
    end.
Proof.
  intros Hh HT. unfold quarantine_file_no_replace. destruct (fa_move f index); [by do 2 eexists|].
  set (q := ticket_name id +:+ "." +:+ decimal_text (h_sequence h)). set (h1 := next_sequence h).
  match goal with |- ∃ r h', ?m = _ ∧ _ => change m with
    ((if is_Some_b (dir_entry QUARANTINE_DIR q h1) then lift (Err AlreadyExists)
      else move_file TICKETS_DIR (ticket_name id) QUARANTINE_DIR q : adm io_kind ()) h1) end.
  assert (H1 : host_is h1 T L Q K s) by (subst h1; eauto with ccp).
  pose proof (dir_entry_is _ _ _ _ _ _ q H1) as (_ & _ & ->).
  destruct (map_get q Q) as [n|] eqn:Eq; cbn [is_Some_b]; [by do 2 eexists|].
  unfold move_file. pose proof (dir_entry_is _ _ _ _ _ _ (ticket_name id) H1) as (-> & _ & _).
  rewrite HT, (hi_quarantine _ _ _ _ _ _ H1), Eq. pose proof (host_is_dirs _ _ _ _ _ _ H1) as (-> & _ & _).
  set (h2 := put_dir TICKETS_DIR _ h1).
  assert (H2 : host_is h2 (remove_key (ticket_name id) T) L Q K s) by (subst h2; eauto with ccp).
  pose proof (host_is_dirs _ _ _ _ _ _ H2) as (_ & _ & ->).
  do 2 eexists. split; [done|]. split; [done|]. exists q. split; [done|]. eauto with ccp.
Qed.

(** ** What a report says *)

(** How a selected ticket was left. *)
Inductive left_as : Type :=
  | AsItWas
  | LeaseRemoved
  | WithoutLease
  | InQuarantine.

Definition left_is (T L Q T' L' Q' : btmap string node) (id : string) (x : left_as) : Prop :=
  match x with
  | AsItWas => map_get (ticket_name id) T' = map_get (ticket_name id) T ∧ map_get (lease_name id) L' = map_get (lease_name id) L
  | LeaseRemoved => map_get (ticket_name id) T' = map_get (ticket_name id) T ∧
      map_get (lease_name id) L ≠ None ∧ map_get (lease_name id) L' = None
  | WithoutLease => map_get (ticket_name id) T' = map_get (ticket_name id) T ∧ map_get (lease_name id) L' = None
  | InQuarantine => map_get (ticket_name id) T' = None ∧ map_get (lease_name id) L' = None ∧
      ∃ q n, map_get (ticket_name id) T = Some n ∧ map_get q Q = None ∧ map_get q Q' = Some n
  end.

(** What a classification says of the [index]-th ticket: how it was left, and which of
    the failures that may befall it has happened.  No other classification is used. *)
Definition account (f : Faults) (index : nat) (classification : string) : option (left_as * bool) :=
  if (classification =? "quarantined")%string
  then Some (InQuarantine, negb (fa_lease f index || fa_move f index || fa_sync f SyncTickets index || fa_sync f SyncQuarantine index))
  else if (classification =? "not_attempted")%string then Some (AsItWas, true)
  else if (classification =? "partial_lease_remove_failed")%string then Some (AsItWas, fa_lease f index)
  else if (classification =? "partial_lease_sync_failed")%string then Some (LeaseRemoved, fa_sync f SyncLease index)
  else if (classification =? "partial_after_lease_removal")%string then Some (WithoutLease, true)
  else if (classification =? "partial_quarantine_collision")%string then Some (WithoutLease, negb (fa_move f index))
  else if (classification =? "partial_move_failed")%string then Some (WithoutLease, fa_move f index)
  else if (classification =? "partial_ticket_moved")%string then Some (InQuarantine, true)
  else if (classification =? "partial_ticket_sync_failed")%string then Some (InQuarantine, fa_sync f SyncTickets index)
  else if (classification =? "partial_quarantine_sync_failed")%string
  then Some (InQuarantine, fa_sync f SyncQuarantine index && negb (fa_sync f SyncTickets index))
  else None.

(** What an outcome says is so. *)
Definition outcome_true (f : Faults) (T L Q T' L' Q' : btmap string node) (index : nat)
    (o : AdmissionReconciliationOutcomeV1) : Prop :=
  match account f index (ro_classification o) with
  | Some (x, happened) => left_is T L Q T' L' Q' (ro_ticket_id o) x ∧ happened = true
  | None => False
  end.
Definition outcomes_true (f : Faults) (T L Q T' L' Q' : btmap string node) (outcomes : list AdmissionReconciliationOutcomeV1) : Prop :=
  ∀ i o, outcomes !! i = Some o → outcome_true f T L Q T' L' Q' (S i) o.

(** The reason of a partial report and the classification of the ticket at which it
    stopped: the end of the time has three places, each failure has its own. *)
Definition stopped_by (reason classification : string) : bool :=
  if existsb (String.eqb reason) ["cancelled"; "timeout"; "deadline_failed"]
  then existsb (String.eqb classification) ["not_attempted"; "partial_after_lease_removal"; "partial_ticket_moved"]
  else (classification =? "partial_" +:+ reason)%string.

Definition all_quarantined (ids : list string) : list AdmissionReconciliationOutcomeV1 :=
  (λ i, outcome i "quarantined") <$> ids.
(** The outcomes of a request that stopped at [id]. *)
Definition stopped_at (ready : list string) (id classification : string) (rest : list string) :
    list AdmissionReconciliationOutcomeV1 :=
  all_quarantined ready ++ outcome id classification :: ((λ i, outcome i "not_attempted") <$> rest).

Lemma outcome_true_before f T L Q T1 L1 Q1 T' L' Q' i o :
  outcome_true f T1 L1 Q1 T' L' Q' i o →
  map_get (ticket_name (ro_ticket_id o)) T1 = map_get (ticket_name (ro_ticket_id o)) T →
  map_get (lease_name (ro_ticket_id o)) L1 = map_get (lease_name (ro_ticket_id o)) L →
  (∀ q n, map_get q Q = Some n → map_get q Q1 = Some n) → outcome_true f T L Q T' L' Q' i o.
Proof.
  unfold outcome_true. intros Ho ET EL HQ. destruct (account _ _ _) as [[x b]|]; [|done]. destruct Ho as [Hx Hb]. split; [|done].
  destruct x; cbn [left_is] in *; rewrite ET, ?EL in Hx; [done..|]. destruct Hx as (? & ? & q & n & ? & Hq & ?). split_and!; [done..|].
  exists q, n. split_and!; [done| |done]. destruct (map_get q Q) as [n'|] eqn:E; [|done]. apply HQ in E. congruence.
Qed.

Lemma outcome_true_after f T L Q T1 L1 Q1 T' L' Q' i o :
  outcome_true f T L Q T1 L1 Q1 i o →
  map_get (ticket_name (ro_ticket_id o)) T' = map_get (ticket_name (ro_ticket_id o)) T1 →
  map_get (lease_name (ro_ticket_id o)) L' = map_get (lease_name (ro_ticket_id o)) L1 →
  (∀ q n, map_get q Q1 = Some n → map_get q Q' = Some n) → outcome_true f T L Q T' L' Q' i o.
Proof.
  unfold outcome_true. intros Ho ET EL HQ. destruct (account _ _ _) as [[x b]|]; [|done]. destruct Ho as [Hx Hb]. split; [|done].
  destruct x; cbn [left_is] in *; rewrite ET, EL; [done..|]. destruct Hx as (? & ? & q & n & ? & ? & ?). split_and!; [done..|].
  exists q, n. auto.
Qed.

Lemma stopped_at_ids ready id classification rest :
  ro_ticket_id <$> stopped_at ready id classification rest = ready ++ id :: rest.
Proof.
  unfold stopped_at, all_quarantined. rewrite fmap_app. cbn. rewrite <-!list_fmap_compose.
  f_equal; [by apply list_fmap_id|]. f_equal. by apply list_fmap_id.
Qed.

(** What one ticket of a request leaves: nothing else is touched, and the result
    says what happened to it. *)
Definition ticket_result (f : Faults) (outcomes : list AdmissionReconciliationOutcomeV1) (id : string) (rest : list string)
    (T L Q T' L' Q' : btmap string node)
    (r : result AdmissionReconciliationError (list AdmissionReconciliationOutcomeV1)) : Prop :=
  agree_but (ticket_name id) T T' ∧ agree_but (lease_name id) L L' ∧
  (∀ q n, map_get q Q = Some n → map_get q Q' = Some n) ∧
  match r with
  | Ok outcomes' => outcomes' = outcomes ++ [outcome id "quarantined"] ∧
      outcome_true f T L Q T' L' Q' (S (length outcomes)) (outcome id "quarantined")
  | Err (Partial reason report) => ∃ classification,
      ra_outcomes report = outcomes ++ outcome id classification :: ((λ i, outcome i "not_attempted") <$> rest) ∧
      stopped_by reason classification = true ∧ outcome_true f T L Q T' L' Q' (S (length outcomes)) (outcome id classification)
  | Err _ => outcomes = [] ∧ T' = T ∧ L' = L ∧ Q' = Q
  end.

Lemma ticket_result_refused f outcomes id rest T L Q error :
  (∀ reason report, error ≠ Partial reason report) → outcomes = [] → ticket_result f outcomes id rest T L Q T L Q (Err error).
Proof. intros He Ho. unfold ticket_result. split_and!; [done..|]. destruct error; [by split_and!..|]. by destruct (He reason report). Qed.

Lemma ticket_result_partial f outcomes id rest T L Q T' L' Q' reason classification :
  agree_but (ticket_name id) T T' → agree_but (lease_name id) L L' →
  (∀ q n, map_get q Q = Some n → map_get q Q' = Some n) →
  stopped_by reason classification = true → outcome_true f T L Q T' L' Q' (S (length outcomes)) (outcome id classification) →
  ticket_result f outcomes id rest T L Q T' L' Q'
    (Err (Partial reason (apply_report (outcomes ++ outcome id classification
            :: ((λ i, outcome i "not_attempted") <$> rest))))).
Proof. intros. unfold ticket_result. split_and!; [done..|]. by exists classification. Qed.

(** A refusal that is a partial report, or the error itself when nothing was done before. *)
Lemma ticket_result_or_refused f outcomes id rest T L Q reason classification error :
  (∀ reason report, error ≠ Partial reason report) →
  stopped_by reason classification = true → outcome_true f T L Q T L Q (S (length outcomes)) (outcome id classification) →
  ticket_result f outcomes id rest T L Q T L Q
    (Err (if is_nil outcomes then error else Partial reason (apply_report (outcomes ++ outcome id classification
            :: ((λ i, outcome i "not_attempted") <$> rest))))).
Proof.
  intros He Hs Ho. destruct (is_nil outcomes) eqn:En; [apply ticket_result_refused; [done|by destruct outcomes]|].
  by apply ticket_result_partial.
Qed.

Lemma deadline_stopped error :
  stopped_by (deadline_reason error) "not_attempted" = true ∧ stopped_by (deadline_reason error) "partial_after_lease_removal" = true ∧
  stopped_by (deadline_reason error) "partial_ticket_moved" = true.
Proof. by destruct error. Qed.

Lemma insert_keeps (Q : btmap string node) q c :
  map_get q Q = None → ∀ x n, map_get x Q = Some n → map_get x (map_insert q (File c) Q) = Some n.
Proof. intros Hq x n Hx. map_simp. destruct (String.eq_dec x q) as [->|D]; [congruence|by rewrite decide_False]. Qed.

Lemma apply_ticket_ok e f outcomes id rest h T L Q K s c :
  host_is h T L Q K s → contents T L Q K → map_get (ticket_name id) T = Some (File c) →
  ∃ r h' T' L' Q', apply_ticket e f outcomes id rest h = (r, h') ∧
    host_is h' T' L' Q' K s ∧ contents T' L' Q' K ∧ ticket_result f outcomes id rest T L Q T' L' Q' r.
Proof.
  intros Hh Hc HT. unfold apply_ticket. set (first := is_nil outcomes).
  assert (Hfirst : first = true → outcomes = []) by (by destruct outcomes). set (index := S (length outcomes)).
  rewrite bind_adm, map_err_adm. pose proof (keeps_check e _ _ _ _ _ _ Hh) as H1.
  destruct (check e h) as [[u|error] h1]; cbn [fst snd map_err] in *.
  2: { do 2 eexists. exists T, L, Q. split_and!; [done..|]. apply ticket_result_or_refused; [done|apply deadline_stopped|]. by split. }
  destruct (contents_files _ _ _ _ Hc) as (_ & HL & _).
  destruct (remove_reconciliation_lease_ok f index id h1 T L Q K s H1 HL) as (r2 & h2 & E2 & Hr2).
  rewrite bind_adm, map_err_adm, E2. destruct r2 as [removed|kind]; cbn [fst snd map_err].
  2: { destruct Hr2 as (Hf & -> & H2). do 2 eexists. exists T, L, Q. split_and!; [done..|]. apply ticket_result_or_refused; [done..|]. by split. }
  destruct Hr2 as (Hf & Hremoved & H2). set (L2 := remove_key (lease_name id) L) in *.
  pose proof (contents_drop_lease _ _ _ _ (lease_name id) Hc) as C2. fold L2 in C2.
  assert (Hsame : removed = false → L2 = L).
  { intros ->. apply remove_key_absent. by destruct (map_get (lease_name id) L). }
  assert (HL2 : agree_but (lease_name id) L L2) by (subst L2; auto).
  rewrite bind_adm.
  assert (Hsync : (if removed then adm_map_err (λ _ : io_kind, Partial "lease_sync_failed"
       (apply_report (outcomes ++ outcome id "partial_lease_sync_failed" :: ((λ i, outcome i "not_attempted") <$> rest))))
       (sync_reconciliation_directory f SyncLease index) else mret ()) h2
     = (if removed && fa_sync f SyncLease index then Err (Partial "lease_sync_failed"
       (apply_report (outcomes ++ outcome id "partial_lease_sync_failed" :: ((λ i, outcome i "not_attempted") <$> rest))))
       else Ok (), h2)).
  { destruct removed; [|done]. unfold sync_reconciliation_directory, lift, adm_map_err. by destruct (fa_sync f _ _). }
  assert (Hgone : map_get (lease_name id) L2 = None) by (subst L2; map_simp; by rewrite decide_True).
  rewrite Hsync. destruct (removed && _) eqn:Es.
  { apply andb_true_iff in Es as [-> Es]. do 2 eexists. exists T, L2, Q. split_and!; [done..|]. apply ticket_result_partial; [done..|].
    split; [|done]. cbn. split_and!; [done| |done]. by destruct (map_get (lease_name id) L). }
  rewrite bind_adm, map_err_adm. pose proof (keeps_check e _ _ _ _ _ _ H2) as H3.
  destruct (check e h2) as [[u2|error] h3]; cbn [fst snd map_err] in *.
  2: { do 2 eexists. exists T, L2, Q. split_and!; [done..|].
       destruct (removed || negb first) eqn:Eb; [by apply ticket_result_partial; [..|apply deadline_stopped|]|].
       apply orb_false_iff in Eb as [Er Ef]. rewrite (Hsame Er). apply ticket_result_refused; [done|].
       by apply Hfirst, negb_false_iff. }
  destruct (quarantine_no_replace_ok f index id h3 T L2 Q K s c H3 HT) as (r4 & h4 & E4 & H4).
  rewrite bind_adm, map_err_adm, E4. destruct r4 as [u4|kind]; cbn [fst snd map_err].
  2: { destruct H4 as [Hkind H4]. do 2 eexists. exists T, L2, Q. split_and!; [done..|].
       destruct (negb removed && first) eqn:Eb.
       - apply andb_true_iff in Eb as [Er%negb_true_iff Ef]. rewrite (Hsame Er).
         by destruct kind; apply ticket_result_refused, Hfirst.
       - destruct (fa_move f index) eqn:Em; subst kind; apply ticket_result_partial; try done;
           (split; [done|]); subst index; by rewrite Em. }
  destruct H4 as (Hm & q & Hq & H4). set (T4 := remove_key (ticket_name id) T) in *. set (Q4 := map_insert q (File c) Q) in *.
  assert (HT4 : agree_but (ticket_name id) T T4) by (subst T4; auto).
  pose proof (insert_keeps Q q c Hq) as HQ4. fold Q4 in HQ4.
  assert (C4 : contents T4 L2 Q4 K).
  { eapply contents_quarantine; [|by apply contents_remove]. apply all_files_insert, Hc. }
  assert (Hmoved : left_is T L Q T4 L2 Q4 id InQuarantine).
  { split_and!; [subst T4; map_simp; by rewrite decide_True|done|]. exists q, (File c). split_and!; [done..|].
    subst Q4. map_simp. by rewrite decide_True. }
  rewrite bind_adm, map_err_adm. pose proof (keeps_check e _ _ _ _ _ _ H4) as H5.
  destruct (check e h4) as [[u5|error] h5]; cbn [fst snd map_err] in *.
  2: { do 2 eexists. exists T4, L2, Q4. split_and!; [done..|]. by apply ticket_result_partial; [..|apply deadline_stopped|]. }
  rewrite bind_adm, map_err_adm. unfold sync_reconciliation_directory at 1, lift at 1.
  destruct (fa_sync f SyncTickets index) eqn:E6; cbn [negb ensure fst snd map_err].
  { do 2 eexists. exists T4, L2, Q4. split_and!; [done..|]. by apply ticket_result_partial. }
  rewrite bind_adm, map_err_adm. unfold sync_reconciliation_directory, lift.
  destruct (fa_sync f SyncQuarantine index) eqn:E7; cbn [negb ensure fst snd map_err];
    do 2 eexists; exists T4, L2, Q4; (split_and!; [done..|]).
  - apply ticket_result_partial; [done..|]. split; [done|]. fold index. by rewrite E6, E7.
  - unfold ticket_result. split_and!; try done. split; [done|]. fold index. by rewrite Hf, Hm, E6, E7.
Qed.

(** ** A request *)

(** Nothing but the tickets [ids] and their leases has changed, and nothing is
    gone from quarantine. *)
Definition only_touched (ids : list string) (T L Q T' L' Q' : btmap string node) : Prop :=
  (∀ name, name ∉ ticket_name <$> ids → map_get name T' = map_get name T) ∧
  (∀ name, name ∉ lease_name <$> ids → map_get name L' = map_get name L) ∧
  (∀ q n, map_get q Q = Some n → map_get q Q' = Some n).

Lemma only_touched_refl ids T L Q : only_touched ids T L Q T L Q.
Proof. by split_and!. Qed.

Lemma only_touched_step ids id T L Q T1 L1 Q1 T' L' Q' :
  only_touched ids T L Q T1 L1 Q1 → agree_but (ticket_name id) T1 T' → agree_but (lease_name id) L1 L' →
  (∀ q n, map_get q Q1 = Some n → map_get q Q' = Some n) → only_touched (ids ++ [id]) T L Q T' L' Q'.
Proof.
  intros (HT & HL & HQ) HT' HL' HQ'. split_and!; [..|by eauto]; intros name; rewrite fmap_app;
    intros [Hn Hid]%not_elem_of_app; [rewrite HT', HT|rewrite HL', HL]; try done; cbn in Hid; set_solver.
Qed.

Lemma only_touched_frame ids T L Q K T' L' Q' :
  only_touched ids T L Q T' L' Q' → (∀ id, id ∈ ids → map_get (ticket_name id) K = None) → frame T L K T' L'.
Proof.
  intros (HT & HL & _) HK id n Hn _ _ Hlock. rewrite HT, HL; [done|..];
    intros (i & E & Hi)%list_elem_of_fmap; first [apply ticket_name_inj in E|apply lease_name_inj in E];
    subst i; by destruct (Hlock (HK _ Hi)).
Qed.

(** What is true of the tickets that are done stays true when another one changes. *)
Lemma outcomes_true_step f (ids : list string) id T L Q T1 L1 Q1 T' L' Q' :
  outcomes_true f T L Q T1 L1 Q1 (all_quarantined ids) → id ∉ ids →
  agree_but (ticket_name id) T1 T' → agree_but (lease_name id) L1 L' →
  (∀ q n, map_get q Q1 = Some n → map_get q Q' = Some n) →
  outcomes_true f T L Q T' L' Q' (all_quarantined ids).
Proof.
  intros Ht Hid HT HL HQ i o Ho. pose proof (Ht i o Ho) as Hi. apply list_lookup_fmap_Some in Ho as (x & -> & Hx).
  apply list_elem_of_lookup_2 in Hx. assert (Hne : x ≠ id) by (by intros ->).
  eapply outcome_true_after; [exact Hi| | |done]; cbn [ro_ticket_id outcome].
  - apply HT. by intros E%ticket_name_inj.
  - apply HL. by intros E%lease_name_inj.
Qed.

(** The tickets after the one that stopped the request are as they were. *)
Lemma not_attempted_true f ids T L Q T' L' Q' i x :
  only_touched ids T L Q T' L' Q' → x ∉ ids → outcome_true f T L Q T' L' Q' i (outcome x "not_attempted").
Proof.
  intros (HT & HL & _) Hx. split; [|done]. cbn [ro_ticket_id outcome left_is].
  split; [apply HT|apply HL]; intros (j & Ej & Hj)%list_elem_of_fmap;
    first [apply ticket_name_inj in Ej|apply lease_name_inj in Ej]; by subst j.
Qed.

Lemma apply_tickets_ok e f K s T L Q ids : ∀ ready h T1 L1 Q1,
  host_is h T1 L1 Q1 K s → contents T1 L1 Q1 K → only_touched ready T L Q T1 L1 Q1 →
  outcomes_true f T L Q T1 L1 Q1 (all_quarantined ready) →
  NoDup (ready ++ ids) → (∀ i, i ∈ ids → ∃ c, map_get (ticket_name i) T = Some (File c)) →
  ∃ r h' T' L' Q', apply_tickets e f (all_quarantined ready) ids h = (r, h') ∧
    host_is h' T' L' Q' K s ∧ contents T' L' Q' K ∧ only_touched (ready ++ ids) T L Q T' L' Q' ∧
    match r with
    | Ok outcomes => outcomes = all_quarantined (ready ++ ids) ∧ outcomes_true f T L Q T' L' Q' outcomes
    | Err (Partial reason report) => outcomes_true f T L Q T' L' Q' (ra_outcomes report) ∧
        ∃ done id classification rest, ready ++ ids = done ++ id :: rest ∧ ra_outcomes report = stopped_at done id classification rest ∧
          stopped_by reason classification = true
    | Err _ => ready = [] ∧ T' = T1 ∧ L' = L1 ∧ Q' = Q1
    end.
Proof.
  induction ids as [|id ids IH]; intros ready h T1 L1 Q1 Hh Hc Ht Hdone Hnd Hin.
  { do 2 eexists. exists T1, L1, Q1. rewrite app_nil_r. by split_and!. }
  apply NoDup_app in Hnd as Hnd'. destruct Hnd' as (_ & Hdisj & Hnd2).
  assert (Hid : id ∉ ready) by (intros Hi; apply (Hdisj id Hi); left).
  destruct (Hin id) as [c HT]; [left|].
  assert (HidT : map_get (ticket_name id) T1 = map_get (ticket_name id) T ∧ map_get (lease_name id) L1 = map_get (lease_name id) L).
  { exact (proj1 (not_attempted_true f ready T L Q T1 L1 Q1 0 id Ht Hid)). }
  assert (HT1 : map_get (ticket_name id) T1 = Some (File c)) by by rewrite (proj1 HidT).
  destruct (apply_ticket_ok e f (all_quarantined ready) id ids h T1 L1 Q1 K s c Hh Hc HT1)
    as (r & h1 & T2 & L2 & Q2 & E & H2 & C2 & HaT & HaL & HaQ & Hr).
  pose proof (only_touched_step _ _ _ _ _ _ _ _ _ _ _ Ht HaT HaL HaQ) as Ht2.
  pose proof (outcomes_true_step _ _ _ _ _ _ _ _ _ _ _ _ Hdone Hid HaT HaL HaQ) as Hdone2.
  assert (Hmine : ∀ cl, outcome_true f T1 L1 Q1 T2 L2 Q2 (S (length (all_quarantined ready))) (outcome id cl) →
    outcomes_true f T L Q T2 L2 Q2 (all_quarantined ready ++ [outcome id cl])).
  { intros cl Hcl i o [Ho|[Hi Ho]]%lookup_app_Some; [by apply Hdone2|]. apply list_lookup_singleton_Some in Ho as [Hi0 <-].
    assert (i = length (all_quarantined ready)) as -> by lia. eapply outcome_true_before; [exact Hcl|apply HidT..|apply Ht]. }
  cbn [apply_tickets]. rewrite bind_adm, E. destruct r as [outcomes|error].
  - destruct Hr as (-> & Hq%Hmine).
    assert (Eq : all_quarantined ready ++ [outcome id "quarantined"] = all_quarantined (ready ++ [id]))
      by (unfold all_quarantined; by rewrite fmap_app). rewrite Eq in Hq |- *.
    destruct (IH (ready ++ [id]) h1 T2 L2 Q2) as (r & h' & T' & L' & Q' & E' & H' & C' & Ht' & Hr); [done..| | |].
    + by rewrite <-app_assoc.
    + intros i Hi. apply Hin. by right.
    + exists r, h', T', L', Q'. rewrite <-app_assoc in Ht', Hr. split_and!; [done..|].
      destruct r as [|[]]; try done; destruct Hr as [Hnil _]; by destruct ready.
  - assert (Hot : only_touched (ready ++ id :: ids) T L Q T2 L2 Q2).
    { destruct Ht2 as (? & ? & ?). split_and!; [..|done]; intros name Hn; [apply H|apply H0];
        revert Hn; rewrite !fmap_app; set_solver. }
    exists (Err error), h1, T2, L2, Q2. split_and!; [done..|].
    destruct error as [error|reason|reason report].
    + destruct Hr as (Hnil & -> & -> & ->). split_and!; try done. by destruct ready.
    + destruct Hr as (Hnil & -> & -> & ->). split_and!; try done. by destruct ready.
    + destruct Hr as (cl & Er & Hcl & Ho%Hmine). rewrite Er. split; [|by exists ready, id, cl, ids].
      intros i o Hi. rewrite cons_middle, app_assoc in Hi. apply lookup_app_Some in Hi as [Hi|[_ Hi]]; [by apply Ho|].
      apply list_lookup_fmap_Some in Hi as (x & -> & Hx%list_elem_of_lookup_2). eapply not_attempted_true; [exact Ht2|].
      intros [Hx'|Hx'%list_elem_of_singleton]%elem_of_app; [apply (Hdisj x Hx'); by right|].
      subst x. by apply NoDup_cons in Hnd2 as [? _].
Qed.

(** ** The checks before the first change *)

Definition is_partial (error : AdmissionReconciliationError) : bool :=
  match error with Partial _ _ => true | _ => false end.

(** A check changes nothing and reports no partial work. *)
Definition quiet {A} (m : adm AdmissionReconciliationError A) : Prop :=
  keeps m ∧ ∀ h error, (m h).1 = Err error → is_partial error = false.

Lemma quiet_bind {A B} (m : adm AdmissionReconciliationError A) (k : A → adm AdmissionReconciliationError B) :
  quiet m → (∀ a, quiet (k a)) → quiet (m ≫= k).
Proof.
  intros [Hm1 Hm2] Hk. split; [apply keeps_bind; [done|]; intros a; apply Hk|].
  intros h error. rewrite bind_adm. specialize (Hm2 h). destruct (m h) as [[a|e'] h']; [apply Hk|].
  cbn. intros [= <-]. by apply Hm2.
Qed.
Lemma quiet_admission {A} (m : adm AdmissionError A) : keeps m → quiet (admission m).
Proof.
  intros Hm. split.
  - intros h T L Q K s Hh. unfold admission. rewrite map_err_adm. by apply Hm.
  - intros h error. unfold admission. rewrite map_err_adm. cbn. destruct (m h).1; [done|]. by intros [= <-].
Qed.
Lemma quiet_map {A} (g : AdmissionError → AdmissionReconciliationError) (m : adm AdmissionError A) :
  keeps m → (∀ error, is_partial (g error) = false) → quiet (adm_map_err g m).
Proof.
  intros Hm Hg. split.
  - intros h T L Q K s Hh. rewrite map_err_adm. by apply Hm.
  - intros h error. rewrite map_err_adm. cbn. destruct (m h).1; [done|]. intros [= <-]. apply Hg.
Qed.
Lemma quiet_lift {A} (r : result AdmissionReconciliationError A) :
  (∀ error, r = Err error → is_partial error = false) → quiet (lift r).
Proof. intros Hr. split; [apply keeps_lift|]. intros h error. apply Hr. Qed.
Lemma quiet_ensure b error : is_partial error = false → quiet (lift (ensure b error)).
Proof. intros He. apply quiet_lift. intros error' [_ <-]%ensure_err. done. Qed.
Lemma quiet_ok_or {A} (o : option A) error : is_partial error = false → quiet (lift (ok_or o error)).
Proof. intros He. apply quiet_lift. intros error'. destruct o; cbn; [done|]. by intros [= <-]. Qed.
Lemma quiet_reads {A} (g : Host → result AdmissionReconciliationError A) :
  (∀ h error, g h = Err error → is_partial error = false) → quiet (reads g).
Proof. intros Hr. split; [apply keeps_reads|]. intros h error. apply Hr. Qed.
Lemma quiet_ret {A} (a : A) : quiet (mret a).
Proof. by split; [apply keeps_ret|]. Qed.
Lemma quiet_begin e : quiet (update (begin e)).
Proof. by split; [apply keeps_begin|]. Qed.
Lemma quiet_each {A} (g : A → adm AdmissionReconciliationError ()) l : (∀ a, quiet (g a)) → quiet (adm_each g l).
Proof. intros Hg. induction l; cbn; [apply quiet_ret|by apply quiet_bind]. Qed.
Lemma quiet_fold {A S} (g : S → A → adm AdmissionReconciliationError S) l : (∀ s a, quiet (g s a)) →
  ∀ s, quiet (adm_fold g s l).
Proof. intros Hg. induction l; intros s; cbn; [apply quiet_ret|by apply quiet_bind]. Qed.

Create HintDb quiet.
#[local] Hint Resolve quiet_bind quiet_admission quiet_ensure quiet_ok_or quiet_reads quiet_ret quiet_begin quiet_each
  quiet_fold keeps_check keeps_lift keeps_reads keeps_validate_layout : quiet.

Lemma keeps_lock_queue wait : keeps (lock_queue_until wait).
Proof.
  unfold lock_queue_until, open_queue, open_existing_lock_file, lock_exclusive_until.
  apply keeps_bind; [apply keeps_bind|]; intros; (apply keeps_lift || apply keeps_reads).
Qed.

Lemma quiet_layout e : quiet (validate_reconciliation_apply_layout e).
Proof.
  unfold validate_reconciliation_apply_layout. apply quiet_bind; [|intros _; apply quiet_bind; [|intros _]].
  - apply quiet_map; [apply keeps_validate_layout|]. by intros [].
  - apply quiet_each. intros name. apply quiet_reads. intros h error. unfold layout_file.
    destruct (root_entry name h) as [[]|]; cbn; congruence || by intros [= <-].
  - apply quiet_each. intros name. apply quiet_reads. intros h error. unfold layout_directory.
    destruct (root_entry name h) as [[]|]; cbn; congruence || by intros [= <-].
Qed.

Lemma quiet_leases e : quiet (validate_reconciliation_lease_namespace e).
Proof.
  unfold validate_reconciliation_lease_namespace. apply quiet_bind; [apply quiet_admission, keeps_reads|].
  intros entries. apply quiet_bind; [|intros _; apply quiet_ret]. apply quiet_fold. intros count [name n].
  unfold validate_lease_entry.
  repeat (apply quiet_bind; [|intros ?]); try by auto with quiet.
  - apply quiet_lift. intros error. destruct n; cbn; congruence || by intros [= <-].
  - apply quiet_map; [apply keeps_lift|]. by intros [].
  - apply quiet_reads. by intros.
  - apply quiet_lift. intros error. repeat case_match; congruence || by intros [= <-].
  - apply quiet_map; [apply keeps_lift|]. by intros [].
Qed.

Lemma quiet_select e id : quiet (select_ticket e id).
Proof.
  unfold select_ticket. repeat (apply quiet_bind; [|intros ?]); try by auto with quiet.
  - apply quiet_reads. intros h error. unfold open_selected_ticket.
    destruct (dir_entry _ _ h) as [[]|]; cbn; congruence || by intros [= <-].
  - apply quiet_reads. by intros.
  - case_match; auto with quiet.
Qed.

(** ** The selection *)

Lemma dedup_length l : (length (dedup l) ≤ length l)%nat.
Proof.
  induction l as [|x [|y l] IH]; cbn [dedup length] in *; [done|done|].
  destruct (x =? y)%string; cbn [length]; lia.
Qed.

(** A sorted list that [dedup] does not shorten has no duplicate. *)
Lemma dedup_nodup l :
  StronglySorted (key_le (λ id, id)) l → length (dedup l) = length l → dedup l = l ∧ NoDup l.
Proof.
  induction 1 as [|x l Hs IH Hle]; intros Hlen; [by split; [|constructor]|].
  destruct l as [|y l]; [split; [done|apply NoDup_singleton]|].
  change (dedup (x :: y :: l)) with (if (x =? y)%string then dedup (y :: l) else x :: dedup (y :: l)) in *.
  destruct (String.eqb_spec x y) as [->|Hne].
  { pose proof (dedup_length (y :: l)). cbn [length] in *. lia. }
  destruct IH as [E Hnd]; [cbn [length] in *; lia|]. split; [by f_equal|]. constructor; [|done].
  intros Hin. apply Forall_cons in Hle as [Hxy _].
  apply elem_of_cons in Hin as [->|Hin]; [done|]. apply StronglySorted_inv in Hs as [_ Hy].
  rewrite Forall_forall in Hy. specialize (Hy _ Hin). unfold key_le in *.
  destruct (cmp x y) eqn:E1; [by apply cmp_eq in E1| |done]. by apply Hy, cmp_gt.
Qed.

Lemma validate_selection_ok ids canonical :
  validate_selection ids = Ok canonical →
  canonical = sort_by (λ id, id) ids ∧ NoDup canonical ∧ canonical ≠ [] ∧
  (length ids ≤ MAX_QUEUE_TICKETS)%nat ∧ Forall (λ id, is_ticket_id id = true) canonical.
Proof.
  unfold validate_selection. intros H. res_inv. bool_prop.
  assert (Hlen : length (sort_by (λ id : string, id) ids) = length ids)
    by apply Permutation_length, sort_by_perm.
  destruct (dedup_nodup (sort_by (λ id : string, id) ids)) as [E Hnd]; [apply sort_by_sorted|lia|].
  rewrite E in *. subst canonical. split_and!; [done|done| |done|by apply forallb_Forall].
  intros Hnil. rewrite Hnil in Hlen. by destruct ids.
Qed.

Lemma quiet_selection ids : quiet (lift (validate_selection ids)).
Proof.
  apply quiet_lift. intros error. unfold validate_selection. intros H.
  repeat (apply bind_err in H as [[_ <-]%ensure_err|(? & _ & H)]; [done|]). done.
Qed.

(** A ticket that may be reclaimed: nobody holds it, and its lease is missing or
    has expired. *)
Definition reclaimable (e : Env) (T L : btmap string node) (K : btmap string pid) (id : string) : Prop :=
  map_get (ticket_name id) K = None ∧
  (∃ c, map_get (ticket_name id) T = Some (File c) ∧ valid_ticket (File c) id) ∧
  ∀ n l, map_get (lease_name id) L = Some n → valid_lease n id l → lease_is_expired e l = true.

Lemma select_ticket_ok e id h h' u T L Q K s :
  host_is h T L Q K s → contents T L Q K → select_ticket e id h = (Ok u, h') → reclaimable e T L K id.
Proof.
  intros Hh Hc H. unfold select_ticket, admission in H.
  apply bind_adm_inv in H as (u1 & h1 & H1 & H).
  pose proof (proj1 (quiet_admission _ (keeps_check e)) _ _ _ _ _ _ Hh) as Hh1. unfold admission in Hh1.
  rewrite H1 in Hh1. cbn [snd] in Hh1. clear H1 Hh h. adm_inv.
  rename select (open_selected_ticket _ _ = _) into Ho. rename select (ensure (ticket_valid _ _) _ = _) into Htv.
  rename select (Ok (ticket_lock_free _ _) = Ok _) into Hlock. injection Hlock as <-.
  rename select (ensure (ticket_lock_free _ _) _ = _) into Hfree. rename select (adm_map_err _ _ _ = _) into Hl.
  unfold open_selected_ticket in Ho.
  pose proof (dir_entry_is _ _ _ _ _ _ (ticket_name id) Hh1) as (Hd & _ & _). rewrite Hd in Ho.
  destruct (map_get (ticket_name id) T) as [[c| | |]|] eqn:ET; simplify_eq.
  apply ensure_ok in Hfree. apply ensure_ok in Htv. split_and!.
  - unfold ticket_lock_free in *. rewrite (hi_locks _ _ _ _ _ _ Hh1) in *.
    by destruct (map_get (ticket_name id) K).
  - eexists. split; [done|]. eexists _, _. split; [done|]. split; [|done]. by destruct (from_slice _); simplify_eq/=.
  - intros n l Hn Hv. rewrite map_err_adm in Hl. cbn [reads fst snd] in Hl. injection Hl as Hl <-.
    destruct (read_lease_spec _ _ _ _ _ _ id Hh1 Hc) as [[E En]|(n2 & l2 & E & En & Hv2)].
    { congruence. }
    rewrite En in Hn. injection Hn as <-. pose proof (valid_lease_inj _ _ _ _ Hv Hv2) as <-.
    rewrite E in Hl. cbn in Hl. injection Hl as <-. adm_inv. by apply ensure_ok in H.
Qed.

Lemma select_each_ok e ids : ∀ h h' u T L Q K s,
  host_is h T L Q K s → contents T L Q K → adm_each (select_ticket e) ids h = (Ok u, h') →
  Forall (reclaimable e T L K) ids.
Proof.
  induction ids as [|id ids IH]; intros h h' u T L Q K s Hh Hc; [by constructor|]. cbn [adm_each]. intros H.
  apply bind_adm_inv in H as (u1 & h1 & H1 & H).
  pose proof (proj1 (quiet_select e id) _ _ _ _ _ _ Hh) as Hh1. rewrite H1 in Hh1.
  cbn [snd] in Hh1. apply Forall_cons. split; [exact (select_ticket_ok _ _ _ _ _ _ _ _ _ _ Hh Hc H1)|].
  eapply IH; [exact Hh1|exact Hc|exact H].
Qed.

(** ** The whole request *)

Definition request_result (e : Env) (f : Faults) (ids : list string) (T L Q : btmap string node) (K : btmap string pid)
    (s : option pid) (o : result AdmissionReconciliationError AdmissionReconciliationApplyReportV1 * Host) : Prop :=
  ∃ T' L' Q', let sorted := sort_by (λ id, id) ids in
    let told (shape : Prop) report := shape ∧ s = None ∧ NoDup sorted ∧
      outcomes_true f T L Q T' L' Q' (ra_outcomes report) ∧ Forall (reclaimable e T L K) ids in
    host_is o.2 T' L' Q' K s ∧ contents T' L' Q' K ∧ frame T L K T' L' ∧ only_touched sorted T L Q T' L' Q' ∧
    match o.1 with
    | Ok report => told (fa_release f = None ∧ ra_outcomes report = all_quarantined sorted) report
    | Err (Partial reason report) =>
        told ((fa_release f = Some reason ∧ ra_outcomes report = all_quarantined sorted) ∨
              ∃ done id classification rest, sorted = done ++ id :: rest ∧ ra_outcomes report = stopped_at done id classification rest ∧
                stopped_by reason classification = true) report
    | Err _ => T' = T ∧ L' = L ∧ Q' = Q
    end.

Lemma request_refused e f ids error h T L Q K s :
  host_is h T L Q K s → contents T L Q K → is_partial error = false →
  request_result e f ids T L Q K s (Err error, h).
Proof.
  intros Hh Hc He. exists T, L, Q. split_and!; [done|done|by intros ?|apply only_touched_refl|]. by destruct error.
Qed.

Lemma request_stage {A} (m : adm AdmissionReconciliationError A) k e f ids h T L Q K s :
  quiet m → host_is h T L Q K s → contents T L Q K →
  (∀ a h1, m h = (Ok a, h1) → host_is h1 T L Q K s → request_result e f ids T L Q K s (k a h1)) →
  request_result e f ids T L Q K s ((m ≫= k) h).
Proof.
  intros [Hk Hp] Hh Hc Hok. rewrite bind_adm. specialize (Hk _ _ _ _ _ _ Hh). specialize (Hp h).
  destruct (m h) as [[a|error] h1]; [by apply Hok|]. apply request_refused; [done|done|by apply Hp].
Qed.

Lemma reconcile_apply_ok e f ids h T L Q K s :
  host_is h T L Q K s → contents T L Q K →
  request_result e f ids T L Q K s (reconcile_apply_with_timeout e f ids h).
Proof.
  intros Hh Hc. unfold reconcile_apply_with_timeout, root_exists, valid_owner_marker_exists, open_existing_lock_file.
  eapply request_stage; [apply quiet_begin|done|done|]. intros _ h1 _ H1.
  eapply request_stage; [auto with quiet|done|done|]. intros _ h2 _ H2.
  eapply request_stage; [auto with quiet|done|done|]. intros _ h3 _ H3.
  eapply request_stage; [apply quiet_selection|done|done|]. intros canonical h4 Hsel H4. apply lift_ok in Hsel as [Hsel _]. apply validate_selection_ok in Hsel as (-> & Hnd & _ & _ & _).
  eapply request_stage; [auto using quiet_admission, keeps_reads with quiet|done|done|]. intros present h5 _ H5.
  eapply request_stage; [by apply quiet_ensure|done|done|]. intros _ h6 _ H6.
  eapply request_stage; [auto with quiet|done|done|]. intros owned h7 _ H7.
  eapply request_stage; [auto with quiet|done|done|]. intros _ h8 _ H8.
  eapply request_stage; [apply quiet_layout|done|done|]. intros _ h9 _ H9.
  eapply request_stage; [apply quiet_admission, keeps_lock_queue|done|done|]. intros _ h10 _ H10.
  eapply request_stage; [auto with quiet|done|done|]. intros slot h11 _ H11.
  eapply request_stage; [by apply quiet_ensure|done|done|]. intros _ h12 _ H12.
  eapply request_stage; [by apply quiet_reads|done|done|]. intros holder h13 Hholder H13.
  eapply request_stage; [by apply quiet_ensure|done|done|]. intros u14 h14 Hfree H14.
  assert (Hs : s = None).
  { apply reads_ok in Hholder as [Hholder ->]. apply lift_ok in Hfree as [Hfree%ensure_ok _].
    rewrite (hi_slot _ _ _ _ _ _ H12) in Hholder. injection Hholder as <-. by destruct s. }
  eapply request_stage; [auto with quiet|done|done|]. intros owned2 h15 _ H15.
  eapply request_stage; [by apply quiet_ensure|done|done|]. intros _ h16 _ H16.
  eapply request_stage; [apply quiet_layout|done|done|]. intros _ h17 _ H17.
  eapply request_stage; [apply quiet_leases|done|done|]. intros _ h18 _ H18.
  eapply request_stage; [apply quiet_each; intros; apply quiet_select|done|done|]. intros u h19 Hsel H19.
  pose proof (select_each_ok _ _ _ _ _ _ _ _ _ _ H18 Hc Hsel) as Hre.
  eapply request_stage; [by apply quiet_ensure|done|done|]. intros _ h20 _ H20.
  rewrite Forall_forall in Hre.
  assert (Hre' : Forall (reclaimable e T L K) ids).
  { apply Forall_forall. intros id Hid. apply Hre. by rewrite sort_by_perm. }
  destruct (apply_tickets_ok e f K s T L Q (sort_by (λ id, id) ids) [] h20 T L Q) as
    (r & h' & T' & L' & Q' & E & H' & C' & Ht & Hr);
    [done|done|apply only_touched_refl|done|done| |].
  { intros i Hi. destruct (Hre i Hi) as (_ & (c & ? & _) & _). by exists c. }
  assert (Hframe : frame T L K T' L').
  { eapply only_touched_frame; [exact Ht|]. intros i Hi. by destruct (Hre i Hi). }
  change (all_quarantined []) with (@nil AdmissionReconciliationOutcomeV1) in E. rewrite bind_adm, E.
  destruct r as [outcomes|error].
  - destruct Hr as [-> Htrue]. exists T', L', Q'. destruct (fa_release f) as [reason|] eqn:Er; cbn [fst snd stop lift mret];
      split_and!; try done. by left.
  - exists T', L', Q'. cbn zeta. split_and!; try done. destruct error as [error|reason|reason report]; cbn [fst]; [naive_solver..|].
    destruct Hr as [Htrue Hshape]. split_and!; try done. by right.
Qed.

(** Without a root a request is refused. *)
Lemma reconcile_apply_fresh e f ids h :
  h_root h = None → let h' := (reconcile_apply_with_timeout e f ids h).2 in
  (∃ error, (reconcile_apply_with_timeout e f ids h).1 = Err error ∧ is_partial error = false) ∧
  h_root h' = None ∧ h_queue h' = h_queue h ∧ h_slot h' = h_slot h ∧ h_locks h' = h_locks h.
Proof.
  intros Hr. unfold reconcile_apply_with_timeout, admission. cbn zeta.
  rewrite bind_adm. cbn [update fst snd]. rewrite bind_adm, map_err_adm. cbn [lift fst snd].
  destruct (from_timeout e) as [at_|error]; cbn [map_err]; [|by split; [eexists|]].
  rewrite bind_adm, map_err_adm. destruct (check e (begin e h)) as [r h1] eqn:Ec. injection Ec as Er <-.
  destruct r as [u|error]; cbn [fst snd map_err]; [|by split; [eexists|]].
  rewrite bind_adm. destruct (quiet_selection ids) as [_ Hq]. specialize (Hq (next_check (begin e h))).
  cbn [lift fst snd] in *. destruct (validate_selection ids) as [canonical|error]; cbn [fst snd] in *.
  - rewrite bind_adm, map_err_adm. unfold root_exists, reads. cbn. rewrite Hr. by split; [eexists|].
  - split; [|done]. eauto.
Qed.
End Reconcile.
