(* ===== verification/AdmissionWorld.v ===== *)
(** The processes of a host that share an admission coordinator
    ([Admission.v]): the steps they take in any order, and what every reachable
    state satisfies. *)
From stdpp Require Import relations.
From S2P Require Import Prelude.
From S2P Require Import RustStr.
From S2P Require Import BTree.
From S2P Require Import Canonical.
From S2P Require Import Durable.
From S2P Require Import Admission.
From S2P Require Import AdmissionProps.
From S2P Require Import AdmissionScan.
From S2P Require Import AdmissionOps.
From S2P Require Import AdmissionEnter.
From S2P Require Import Reconcile.
From S2P Require Import ReconcileProps.
Local Open Scope Z_scope.

(** * Steps *)

(** Where a process is in [acquire] or with its guard. *)
Inductive phase : Type :=
  | Waiting (id : string)
  | Holding (id : string).

Definition phase_id (ph : phase) : string := match ph with Waiting id | Holding id => id end.
Definition proc_ids (procs : list (pid * phase)) : list string := (λ x, phase_id x.2) <$> procs.
(** The state a lease records. *)
Definition phase_state (ph : phase) : string :=
  match ph with Waiting _ => "queued" | Holding _ => "active" end.

(** The processes in the order in which they entered. *)
Record World : Type := {
  w_host : Host;
  w_procs : list (pid * phase);
}.

Fixpoint find_phase (p : pid) (procs : list (pid * phase)) : option phase :=
  match procs with
  | [] => None
  | (q, ph) :: procs => if q =? p then Some ph else find_phase p procs
  end.

Definition set_phase (p : pid) (ph : phase) (procs : list (pid * phase)) : list (pid * phase) :=
  (λ x, if x.1 =? p then (p, ph) else x) <$> procs.

Definition forget (p : pid) (procs : list (pid * phase)) : list (pid * phase) :=
  List.filter (λ x, negb (x.1 =? p)) procs.

(** The end of a process: the system closes its files. *)
Definition crash (p : pid) (h : Host) : Host :=
  unlock_slot p (foldr (λ kv, unlock_ticket p kv.1) h (h_locks h)).

Inductive action : Type :=
  | Enter
  | Poll
  | Release
  | Beat
  | Crash
  | Reclaim (faults : Faults) (selected_ids : list string).

Section World.
Context `{CT : Codec TicketMarker} `{CL : Codec LeaseMarker} `{AL : !AdmissionLaws}.

(** What a process does next: [acquire] up to its loop, one turn of the loop,
    the release of its guard, a beat of its heartbeat thread, its end, or, for a
    process that is not in the queue, the reconciliation of some tickets. *)
Definition perform (a : action) (e : Env) (w : World) : World :=
  let p := en_pid e in
  let h := w_host w in
  let procs := w_procs w in
  match a, find_phase p procs with
  | Enter, None =>
    match enter e h with
    | (Ok re, h) => {| w_host := h; w_procs := procs ++ [(p, Waiting (re_id re))] |}
    | (Err _, h) => {| w_host := h; w_procs := procs |}
    end
  | Poll, Some (Waiting id) =>
    match poll e (reservation id) h with
    | (Ok (Some g), h) => {| w_host := h; w_procs := set_phase p (Holding (ag_ticket_id g)) procs |}
    | (Ok None, h) => {| w_host := h; w_procs := procs |}
    | (Err _, h) => {| w_host := h; w_procs := forget p procs |}
    end
  | Release, Some (Holding id) =>
    {| w_host := (release e (guard id) h).2; w_procs := forget p procs |}
  | Beat, Some (Holding id) =>
    {| w_host := (heartbeat e (guard id) h).2; w_procs := procs |}
  | Crash, Some _ => {| w_host := crash p h; w_procs := forget p procs |}
  | Reclaim f ids, None =>
    {| w_host := (reconcile_apply_with_timeout e f ids h).2; w_procs := procs |}
  | _, _ => w
  end.

Definition world_step (w w' : World) : Prop := ∃ a e, env_ok e ∧ w' = perform a e w.

(** No process, and no directory yet. *)
Definition fresh (w : World) : Prop :=
  w_procs w = [] ∧ h_root (w_host w) = None ∧ h_queue (w_host w) = None ∧
  h_slot (w_host w) = None ∧ ∀ name, map_get name (h_locks (w_host w)) = None.

Definition reachable (w : World) : Prop := ∃ w0, fresh w0 ∧ rtc world_step w0 w.

(** * The invariant *)

(** A process has its ticket, locked, and its lease, and the slot when it holds
    it. *)
Definition proc_ok (T L : btmap string node) (K : btmap string pid) (s : option pid)
    (x : pid * phase) : Prop :=
  let id := phase_id x.2 in
  is_ticket_id id = true ∧ map_get (ticket_name id) K = Some x.1 ∧
  (∃ n, map_get (ticket_name id) T = Some n ∧ valid_ticket n id) ∧
  (∃ n l, map_get (lease_name id) L = Some n ∧ valid_lease n id l ∧ lm_state l = phase_state x.2) ∧
  match x.2 with Holding _ => s = Some x.1 | Waiting _ => True end.

Record procs_ok (T L : btmap string node) (K : btmap string pid) (s : option pid)
    (procs : list (pid * phase)) : Prop := {
  po_each : ∀ x, x ∈ procs → proc_ok T L K s x;
  po_nodup : NoDup procs.*1;
  po_order : StronglySorted lt_ord (proc_ids procs);
  po_locks : ∀ name p, map_get name K = Some p →
    ∃ ph, (p, ph) ∈ procs ∧ name = ticket_name (phase_id ph);
  po_slot : ∀ p, s = Some p → ∃ id, (p, Holding id) ∈ procs;
}.

(** The host is a tree whose directories fit the processes. *)
Definition world_is (w : World) (T L Q : btmap string node) : Prop :=
  host_is (w_host w) T L Q (h_locks (w_host w)) (h_slot (w_host w)) ∧
  contents T L Q (h_locks (w_host w)) ∧
  procs_ok T L (h_locks (w_host w)) (h_slot (w_host w)) (w_procs w).

Definition world_ok (w : World) : Prop := fresh w ∨ ∃ T L Q, world_is w T L Q.

Lemma world_is_intro h procs T L Q K s :
  host_is h T L Q K s → contents T L Q K → procs_ok T L K s procs →
  world_ok {| w_host := h; w_procs := procs |}.
Proof.
  intros Hh Hc Hp. right. exists T, L, Q. unfold world_is. cbn.
  by rewrite (hi_locks _ _ _ _ _ _ Hh), (hi_slot _ _ _ _ _ _ Hh).
Qed.

(** ** Processes and their phases *)

Lemma find_phase_spec p ph procs :
  NoDup procs.*1 → find_phase p procs = Some ph ↔ (p, ph) ∈ procs.
Proof.
  induction procs as [|[q ph'] procs IH]; cbn; [by rewrite elem_of_nil|].
  intros [Hq Hnd]%NoDup_cons. destruct (Z.eqb_spec q p) as [->|Hne]; rewrite elem_of_cons.
  - split; [intros [= ->]; by left|]. intros [[= ->]|Hin]; [done|].
    destruct Hq. by apply (list_elem_of_fmap_2 fst _ _ Hin).
  - rewrite IH by done. split; [by right|]. intros [[= -> ->]|]; done.
Qed.

Lemma find_phase_none p procs : find_phase p procs = None ↔ p ∉ procs.*1.
Proof.
  induction procs as [|[q ph] procs IH]; cbn; [split; [intros _; apply not_elem_of_nil|done]|].
  destruct (Z.eqb_spec q p) as [->|Hne]; rewrite not_elem_of_cons; [|rewrite IH]; naive_solver.
Qed.

Lemma elem_of_forget p x procs : x ∈ forget p procs ↔ x ∈ procs ∧ x.1 ≠ p.
Proof.
  unfold forget. rewrite !list_elem_of_In, filter_In, negb_true_iff, Z.eqb_neq. done.
Qed.

Lemma forget_sublist p procs : forget p procs `sublist_of` procs.
Proof.
  induction procs as [|x procs IH]; [done|]. cbn. destruct (negb _); [by apply sublist_skip|by apply sublist_cons].
Qed.

Lemma StronglySorted_sublist {A} (R : A → A → Prop) l m :
  l `sublist_of` m → StronglySorted R m → StronglySorted R l.
Proof.
  induction 1 as [|x l m Hs IH|x l m Hs IH]; [done|..]; intros [Hm Hx]%StronglySorted_inv; [|auto].
  constructor; [auto|]. rewrite Forall_forall in *. intros y Hy. apply Hx.
  eapply elem_of_submseteq; [exact Hy|by apply sublist_submseteq].
Qed.

Lemma set_phase_keys p ph procs : (set_phase p ph procs).*1 = procs.*1.
Proof.
  unfold set_phase. rewrite <-list_fmap_compose. apply list_fmap_ext. intros i [q ph'] _. cbn.
  by destruct (Z.eqb_spec q p) as [->|].
Qed.

Lemma elem_of_set_phase p ph procs x :
  x ∈ set_phase p ph procs → x = (p, ph) ∨ x ∈ procs ∧ x.1 ≠ p.
Proof.
  unfold set_phase. intros (y & -> & Hy)%list_elem_of_fmap. destruct (Z.eqb_spec y.1 p); auto.
Qed.

Lemma set_phase_in p ph ph' procs : (p, ph') ∈ procs → (p, ph) ∈ set_phase p ph procs.
Proof.
  intros Hin. apply list_elem_of_fmap. exists (p, ph'). cbn. by rewrite Z.eqb_refl.
Qed.
Lemma set_phase_other p ph q ph' procs : (q, ph') ∈ procs → q ≠ p → (q, ph') ∈ set_phase p ph procs.
Proof.
  intros Hin Hne. apply list_elem_of_fmap. exists (q, ph'). cbn. by rewrite (proj2 (Z.eqb_neq q p)).
Qed.

(** ** What each kind of change does to the processes *)

Lemma proc_ok_frame T L K s T' L' x :
  frame T L K T' L' → proc_ok T L K s x → proc_ok T' L' K s x.
Proof.
  intros Hf (Hid & HK & (n & Hn & Hv) & (nl & l & Hl & Hvl & Hs) & Hh).
  destruct (Hf _ n Hn Hv Hid) as [Hn' HL']; [by rewrite HK|].
  split_and!; [done|done|by exists n| |done]. exists nl, l. by rewrite HL'.
Qed.

Lemma procs_frame T L K s T' L' procs :
  frame T L K T' L' → procs_ok T L K s procs → procs_ok T' L' K s procs.
Proof. intros Hf []. constructor; try done. intros x Hx. by eapply proc_ok_frame, po_each0. Qed.

Lemma procs_locks_valid T L K s procs : procs_ok T L K s procs → locks_valid T K.
Proof.
  intros [] id HK. destruct (map_get (ticket_name id) K) as [p|] eqn:E; [|done].
  destruct (po_locks0 _ _ E) as (ph & Hin & Hid). apply ticket_name_inj in Hid as ->.
  by destruct (po_each0 _ Hin) as (? & _ & ? & _).
Qed.

(** A ticket that nobody holds is of no process. *)
Lemma procs_refused T L K s T' K' procs :
  (∀ name, map_get name K' = map_get name K) → (∀ name n, map_get name T = Some n → map_get name T' = Some n) →
  procs_ok T L K s procs → procs_ok T' L K' s procs.
Proof.
  intros HK HT []. constructor; try done.
  - intros x Hx. destruct (po_each0 _ Hx) as (Hid & HKx & (n & Hn & Hv) & HL & Hs).
    split_and!; [done|by rewrite HK|exists n; auto|done..].
  - intros name p. rewrite HK. apply po_locks0.
Qed.

(** A change at one ticket leaves the processes with other tickets. *)
Lemma proc_ok_other T L K s T' L' K' s' x id :
  agree_but (ticket_name id) T T' → agree_but (lease_name id) L L' → agree_but (ticket_name id) K K' →
  phase_id x.2 ≠ id → (match x.2 with Holding _ => s' = s | Waiting _ => True end) →
  proc_ok T L K s x → proc_ok T' L' K' s' x.
Proof.
  intros HT HL HK Hne Hs (Hid & HKx & HTx & HLx & Hsx). unfold proc_ok.
  rewrite HT, HL, HK by (intros E; first [apply ticket_name_inj in E|apply lease_name_inj in E]; done).
  split_and!; try done. destruct x.2; [done|]. congruence.
Qed.

(** Two processes with one ticket are one. *)
Lemma procs_id_inj T L K s procs x y :
  procs_ok T L K s procs → x ∈ procs → y ∈ procs → phase_id x.2 = phase_id y.2 → x = y.
Proof.
  intros [] Hx Hy E. destruct (po_each0 _ Hx) as (_ & HKx & _). destruct (po_each0 _ Hy) as (_ & HKy & _).
  rewrite E, HKy in HKx. destruct x as [p phx], y as [q phy]. cbn in *. injection HKx as ->.
  apply find_phase_spec in Hx, Hy; [|done..]. congruence.
Qed.

Lemma procs_entered T L K s procs p id n b now :
  procs_ok T L K s procs → p ∉ procs.*1 →
  is_ticket_id id = true → valid_ticket n id → from_slice b = Some (queued_lease id now) →
  (∀ id' n', map_get (ticket_name id') T = Some n' → is_ticket_id id' = true → ticket_number id' < ticket_number id) →
  procs_ok (map_insert (ticket_name id) n T) (map_insert (lease_name id) (File b) L)
    (map_insert (ticket_name id) p K) s (procs ++ [(p, Waiting id)]).
Proof.
  intros [] Hp Hid Hv Hb Hmax.
  assert (Hother : ∀ x, x ∈ procs → lt_ord (phase_id x.2) id).
  { intros x Hx. destruct (po_each0 _ Hx) as (Hidx & _ & (nx & Hnx & _) & _).
    apply ticket_number_order; [done..|]. by eapply Hmax. }
  constructor.
  - intros x [Hx|Hx%list_elem_of_singleton]%elem_of_app.
    + eapply (proc_ok_other T L K _ _ _ _ _ _ id); [done|done|done| | |by apply po_each0].
      * intros E. pose proof (Hother x Hx) as Hlt. rewrite E in Hlt. by apply lt_ord_irrefl in Hlt.
      * by destruct x.2.
    + subst x. unfold proc_ok. cbn [snd fst phase_id]. map_simp. rewrite !decide_True by done.
      split_and!; [done|done|by exists n| |done]. exists (File b), (queued_lease id now).
      split_and!; [done| |done]. exists b. by split_and!.
  - rewrite fmap_app. apply NoDup_app. split_and!; [done| |apply NoDup_singleton].
    intros q Hq ->%list_elem_of_singleton. done.
  - unfold proc_ids. rewrite fmap_app. apply StronglySorted_app. split_and!; [|done|by repeat constructor].
    intros i j (x & -> & Hx)%list_elem_of_fmap ->%list_elem_of_singleton. by apply Hother.
  - intros name q. map_simp. case_decide as D.
    + intros [= <-]. exists (Waiting id). split; [|done]. apply elem_of_app. right. by left.
    + intros Hq. destruct (po_locks0 _ _ Hq) as (ph & Hin & ->). exists ph. split; [|done].
      apply elem_of_app. by left.
  - intros q Hq. destruct (po_slot0 _ Hq) as (i & Hin). exists i. apply elem_of_app. by left.
Qed.

(** A process leaves: it gives up its ticket, and its slot when it has it. *)
Lemma procs_left T L K s T' L' K' s' procs p ph :
  procs_ok T L K s procs → (p, ph) ∈ procs →
  agree_but (ticket_name (phase_id ph)) T T' → agree_but (lease_name (phase_id ph)) L L' →
  agree_but (ticket_name (phase_id ph)) K K' → map_get (ticket_name (phase_id ph)) K' = None →
  s' = (match ph with Holding _ => None | Waiting _ => s end) →
  procs_ok T' L' K' s' (forget p procs).
Proof.
  intros Hp Hin HT HL HK HK' Hs. pose proof Hp as [].
  constructor.
  - intros x [Hx Hne]%elem_of_forget. eapply proc_ok_other; [exact HT|exact HL|exact HK| | |by apply po_each0].
    + intros E. assert (x = (p, ph)) as -> by (by eapply procs_id_inj). done.
    + destruct (po_each0 _ Hx) as (_ & _ & _ & _ & Hsx). destruct (po_each0 _ Hin) as (_ & _ & _ & _ & Hsp).
      cbn in Hsp. destruct x as [q [?|?]], ph; subst; cbn in *; try done. congruence.
  - eapply sublist_NoDup; [done|apply fmap_sublist, forget_sublist].
  - eapply StronglySorted_sublist; [apply fmap_sublist, forget_sublist|done].
  - intros name q Hq. destruct (decide (name = ticket_name (phase_id ph))) as [->|D]; [congruence|].
    rewrite HK in Hq by done. destruct (po_locks0 _ _ Hq) as (ph' & Hin' & ->). exists ph'. split; [|done].
    apply elem_of_forget. split; [done|]. cbn. intros ->. apply find_phase_spec in Hin, Hin'; [|done..]. congruence.
  - intros q Hq. subst s'. destruct ph as [i|i]; [|done]. destruct (po_slot0 _ Hq) as (j & Hj). exists j.
    apply elem_of_forget. split; [done|]. cbn. intros ->. apply find_phase_spec in Hin, Hj; [|done..]. congruence.
Qed.

(** The lease of a process is rewritten. *)
Lemma procs_lease T L K s procs p ph b l :
  procs_ok T L K s procs → (p, ph) ∈ procs → from_slice b = Some l → lease_owned l = true →
  lm_owner_run_id l = phase_id ph → lm_state l = phase_state ph →
  procs_ok T (map_insert (lease_name (phase_id ph)) (File b) L) K s procs.
Proof.
  intros Hp Hin Hb Ho Hid Hs. pose proof Hp as []. constructor; try done. intros x Hx.
  destruct (decide (phase_id x.2 = phase_id ph)) as [E|E].
  - assert (x = (p, ph)) as -> by (by eapply procs_id_inj).
    destruct (po_each0 _ Hx) as (? & ? & ? & _ & ?). split_and!; try done. exists (File b), l. cbn. map_simp.
    rewrite decide_True by done. split_and!; [done| |done]. exists b. by split_and!.
  - eapply (proc_ok_other T L K _ _ _ _ _ _ (phase_id ph)); [done|done|done|done|by destruct x.2|by apply po_each0].
Qed.

(** The process that has waited longest takes the slot. *)
Lemma procs_served T L K procs p id b l :
  procs_ok T L K None procs → (p, Waiting id) ∈ procs → from_slice b = Some l → lease_owned l = true →
  lm_owner_run_id l = id → lm_state l = "active" →
  procs_ok T (map_insert (lease_name id) (File b) L) K (Some p) (set_phase p (Holding id) procs).
Proof.
  intros Hp Hin Hb Ho Hid Hs. pose proof Hp as []. constructor.
  - intros x [->|[Hx Hne]]%elem_of_set_phase.
    + destruct (po_each0 _ Hin) as (? & ? & ? & _ & _). split_and!; try done. exists (File b), l. cbn. map_simp.
      rewrite decide_True by done. split_and!; [done| |done]. exists b. by split_and!.
    + eapply (proc_ok_other T L K _ _ _ _ _ _ id); [done|done|done| | |by apply po_each0].
      * intros E. assert (x = (p, Waiting id)) as -> by (by eapply procs_id_inj). done.
      * destruct (po_each0 _ Hx) as (_ & _ & _ & _ & Hsx). by destruct x as [q [?|?]].
  - by rewrite set_phase_keys.
  - replace (proc_ids (set_phase p (Holding id) procs)) with (proc_ids procs); [done|].
    unfold proc_ids, set_phase. rewrite <-list_fmap_compose. apply list_fmap_ext. intros i [q ph] Hx.
    unfold compose. cbn [fst snd]. destruct (Z.eqb_spec q p) as [->|]; [|done].
    apply list_elem_of_lookup_2, find_phase_spec in Hx; [|done]. apply find_phase_spec in Hin; [|done].
    rewrite Hx in Hin. by injection Hin as ->.
  - intros name q Hq. destruct (po_locks0 _ _ Hq) as (ph & Hin' & ->).
    destruct (decide (q = p)) as [->|D].
    + exists (Holding id). split; [by eapply set_phase_in|]. apply find_phase_spec in Hin, Hin'; [|done..].
      rewrite Hin in Hin'. by injection Hin' as <-.
    + exists ph. split; [|done]. by apply set_phase_other.
  - intros q [= <-]. exists id. by eapply set_phase_in.
Qed.

(** ** The outcomes of a turn *)

(** The first live ticket has the least number. *)
Lemma swept_head e own T L K live T' L' id :
  swept e own T L K live T' L' → head (ti_id <$> live) = Some id →
  ∀ id', id' ∈ ti_id <$> live → id = id' ∨ lt_ord id id'.
Proof.
  intros [] Hhead id' Hin. destruct live as [|t live]; [done|]. cbn in *. injection Hhead as <-.
  apply elem_of_cons in Hin as [->|Hin]; [by left|]. apply list_elem_of_fmap in Hin as (u & -> & Hu).
  apply StronglySorted_inv in sw_sorted as [_ Hle]. rewrite Forall_forall in Hle. specialize (Hle _ Hu).
  unfold key_le in Hle. destruct (cmp (ti_id t) (ti_id u)) eqn:E; [left; by apply cmp_eq|by right|done].
Qed.

Lemma swept_least e own T L K live T' L' id :
  swept e own T L K live T' L' → head (ti_id <$> live) = Some id →
  ∀ id' n', map_get (ticket_name id') T' = Some n' → is_ticket_id id' = true → id = id' ∨ lt_ord id id'.
Proof.
  intros Hsw Hhead id' n' Hn _. eapply swept_head; [done..|].
  by apply (sw_tickets _ _ _ _ _ _ _ _ Hsw) in Hn as [_ ?].
Qed.

Definition served (live : list TicketInfo) (id : string) (s : option pid) : Prop :=
  head (ti_id <$> live) = Some id ∧ s = None.

(** A turn of a waiting process: it leaves when its time is over, it is served
    when its ticket is the first live one and the slot is free, and it waits
    otherwise. *)
Lemma poll_ok e id h T L Q K s n nl l :
  env_ok e → host_is h T L Q K s → contents T L Q K →
  map_get (ticket_name id) K = Some (en_pid e) → is_ticket_id id = true →
  map_get (ticket_name id) T = Some n → valid_ticket n id →
  map_get (lease_name id) L = Some nl → valid_lease nl id l → lm_state l = "queued" →
  ∃ live T' L' Q' h', swept e (Some id) T L K live T' L' ∧
    match (check e (begin e h)).1 with
    | Err error => poll e (reservation id) h = (Err error, h') ∧ without id h' T L Q K s
    | Ok _ =>
      if bool_decide (served live id s) then
        match en_now e with
        | None => poll e (reservation id) h = (Err Clock, h') ∧ without id h' T' L' Q' K s
        | Some now => ∃ b, poll e (reservation id) h = (Ok (Some (guard id)), h') ∧
            from_slice b = Some (active_lease l now now) ∧
            host_is h' T' (map_insert (lease_name id) (File b) L') Q' K (Some (en_pid e)) ∧
            contents T' (map_insert (lease_name id) (File b) L') Q' K
        end
      else poll e (reservation id) h = (Ok None, h') ∧ host_is h' T' L' Q' K s ∧ contents T' L' Q' K
    end.
Proof.
  intros He Hh Hc HK Hid Hn Hv Hnl Hl Hst. apply (host_is_begin e) in Hh. unfold poll. set (h0 := begin e h) in *.
  pose proof (keeps_check e _ _ _ _ _ _ Hh) as H1.
  destruct (check e h0) as [r h1]. cbn [fst snd] in *.
  destruct (take_turn_ok e id h1 T L Q K s (eo_lists _ He) H1 Hc)
    as (live & h2 & T' & L' & Q' & H2 & E2 & C2 & Hsw).
  exists live, T', L', Q'. destruct r as [u|error].
  2: { destruct (abandon_ok (A := option AdmissionGuard) e id error h1 T L Q K s H1 Hc HK) as (h' & E & H').
       by exists h'. }
  rewrite E2. unfold served in *. case_bool_decide as Hserve; [|by exists h2]. destruct Hserve as [Hhead ->].
  destruct (sw_live _ _ _ _ _ _ _ _ Hsw id) as (_ & (n' & Hn' & Hv') & HL').
  { eapply sw_protected; [done..|by left]. }
  cbn [re_lease_path re_id reservation].
  destruct (activate_lease_ok e id h2 T' L' Q' K (Some (en_pid e)) nl l) as [[Hnow E]|(now & b & h' & Hnow & E & Hb & H')];
    [done|done|done|by rewrite HL'|done|done|..]; rewrite Hnow, E.
  - apply (unlock_slot_is (en_pid e)) in H2. rewrite bool_decide_true in H2 by done.
    destruct (abandon_ok (A := option AdmissionGuard) e id Clock _ _ _ _ _ _ H2 C2 HK) as (h' & E' & H').
    by exists h'.
  - exists h'. split; [done|]. exists b. split_and!; [done..|]. destruct Hl as (c & _ & _ & Ho & Hown).
    eapply contents_lease; [done|exact Hn'|done..|]. intros _. by eapply swept_least.
Qed.

(** ** The invariant is kept *)

Lemma leave_ok id h' T L Q K s s' procs p ph :
  without id h' T L Q K s' → procs_ok T L K s procs → (p, ph) ∈ procs → phase_id ph = id →
  s' = (match ph with Holding _ => None | Waiting _ => s end) →
  world_ok {| w_host := h'; w_procs := forget p procs |}.
Proof.
  intros [Hh Hc] Hp Hin <- Hs. eapply world_is_intro; [exact Hh|exact Hc|].
  eapply procs_left; [exact Hp|exact Hin|..]; auto. map_simp. by rewrite decide_True.
Qed.

Lemma world_cases w p ph :
  world_ok w → find_phase p (w_procs w) = Some ph →
  ∃ T L Q, world_is w T L Q ∧ (p, ph) ∈ w_procs w.
Proof.
  intros [[Hf _]|(T & L & Q & Hw)] Hfind; [by rewrite Hf in Hfind|]. exists T, L, Q. split; [done|].
  apply find_phase_spec in Hfind; [done|]. apply Hw.
Qed.

Lemma enter_outcome_ok e o T L K s procs :
  enter_outcome e o T L K s → procs_ok T L K s procs → en_pid e ∉ procs.*1 →
  world_ok match o with
    | (Ok re, h) => {| w_host := h; w_procs := procs ++ [(en_pid e, Waiting (re_id re))] |}
    | (Err _, h) => {| w_host := h; w_procs := procs |}
    end.
Proof.
  intros (T' & L' & Q' & Hf & Hcase) Hp Hpid. apply (procs_frame _ _ _ _ _ _ _ Hf) in Hp.
  destruct o as [r h']. cbn [fst snd] in Hcase. destruct Hcase as [(id & -> & Hin)|(error & -> & Hout)].
  - destruct Hin as (n & b & now & Hid & Hv & Hb & Hmax & Hh & Hc). cbn [re_id reservation].
    eapply world_is_intro; [exact Hh|exact Hc|]. by eapply procs_entered.
  - destruct Hout as (T2 & K2 & Hh & Hc & HK & HT). eapply world_is_intro; [exact Hh|exact Hc|].
    by eapply procs_refused.
Qed.

Lemma procs_empty K : (∀ name, map_get name K = None) → procs_ok [] [] K None [].
Proof.
  intros HK. constructor; try done.
  - intros x Hx. by apply elem_of_nil in Hx.
  - constructor.
  - constructor.
  - intros name p. by rewrite HK.
Qed.

Lemma enter_world_ok e w :
  env_ok e → world_ok w → find_phase (en_pid e) (w_procs w) = None → world_ok (perform Enter e w).
Proof.
  intros He Hw Hnone. unfold perform. rewrite Hnone. apply find_phase_none in Hnone as Hpid.
  destruct Hw as [(Hprocs & Hr & Hq & Hs & HK)|(T & L & Q & Hh & Hc & Hp)].
  - destruct (enter_fresh e (w_host w) He Hr Hq Hs HK) as [(error & E & Hr' & Hq' & HK' & Hs')|Hout].
    + destruct (enter e (w_host w)) as [r h']. cbn in *. subst r. left. unfold fresh. cbn.
      rewrite HK', Hs'. by split_and!.
    + rewrite Hs in Hout. rewrite Hprocs in *. by apply (enter_outcome_ok _ _ _ _ _ _ _ Hout), Hpid; apply procs_empty.
  - eapply enter_outcome_ok; [|done|done]. eapply enter_ok; [done..|]. by eapply procs_locks_valid.
Qed.

Lemma poll_world_ok e w id :
  env_ok e → world_ok w → find_phase (en_pid e) (w_procs w) = Some (Waiting id) →
  world_ok (perform Poll e w).
Proof.
  intros He Hw Hfind. unfold perform. rewrite Hfind.
  destruct (world_cases _ _ _ Hw Hfind) as (T & L & Q & (Hh & Hc & Hp) & Hin).
  destruct (po_each _ _ _ _ _ Hp _ Hin) as (Hid & HK & (n & Hn & Hv) & (nl & l & Hnl & Hl & Hst) & _).
  cbn [fst snd phase_id] in *.
  destruct (poll_ok e id _ _ _ _ _ _ _ _ _ He Hh Hc HK Hid Hn Hv Hnl Hl Hst)
    as (live & T' & L' & Q' & h' & Hsw & Hcase).
  destruct (check e (begin e (w_host w))).1 as [u|error].
  2: { destruct Hcase as [-> Hout]. by eapply leave_ok. }
  pose proof (procs_frame _ _ _ _ _ _ _ (swept_frame _ _ _ _ _ _ _ _ Hsw) Hp) as Hp'.
  case_bool_decide as Hserve.
  2: { destruct Hcase as (-> & Hh' & Hc'). by eapply world_is_intro. }
  destruct Hserve as [_ Hfree]. destruct (en_now e) as [now|].
  - destruct Hcase as (b & -> & Hb & Hh' & Hc'). eapply world_is_intro; [exact Hh'|exact Hc'|].
    rewrite Hfree in Hp'. destruct Hl as (c & _ & _ & Ho & Hown). by eapply procs_served.
  - destruct Hcase as [-> Hout]. by eapply leave_ok.
Qed.

Lemma crash_locks p l h T L Q K s :
  host_is h T L Q K s →
  ∃ K', host_is (foldr (λ kv : string * pid, unlock_ticket p kv.1) h l) T L Q K' s ∧
    ∀ name, map_get name K' = if decide (name ∈ l.*1 ∧ map_get name K = Some p) then None else map_get name K.
Proof.
  intros Hh. induction l as [|[name q] l (K' & IH & HK')]; cbn [foldr].
  { exists K. split; [done|]. intros name. rewrite decide_False; [done|]. intros [Hin _]. by apply elem_of_nil in Hin. }
  destruct (decide (map_get name K' = Some p)) as [E|E].
  - eexists. split; [by apply unlock_ticket_is|]. intros x. map_simp. rewrite HK'. cbn [fmap list_fmap fst].
    rewrite HK' in E. repeat case_decide; subst; set_solver.
  - eexists. split; [by apply unlock_ticket_other|]. intros x. rewrite HK'. cbn [fmap list_fmap fst].
    rewrite HK' in E. repeat case_decide; subst; set_solver.
Qed.

Lemma crash_ok p h T L Q K s :
  host_is h T L Q K s → h_locks h = K →
  ∃ K', host_is (crash p h) T L Q K' (if bool_decide (s = Some p) then None else s) ∧
    ∀ name, map_get name K' = if decide (map_get name K = Some p) then None else map_get name K.
Proof.
  intros Hh HK. unfold crash. rewrite HK. destruct (crash_locks p K h T L Q K s Hh) as (K' & H' & HK').
  exists K'. split; [by apply unlock_slot_is|]. intros name. rewrite HK'.
  destruct (decide (map_get name K = Some p)) as [E|E]; [|by rewrite decide_False by tauto].
  rewrite decide_True; [done|]. split; [|done]. apply map_get_in in E. by apply (list_elem_of_fmap_2 fst) in E.
Qed.


Lemma crash_world_ok e w ph :
  world_ok w → find_phase (en_pid e) (w_procs w) = Some ph → world_ok (perform Crash e w).
Proof.
  intros Hw Hfind. unfold perform. rewrite Hfind.
  destruct (world_cases _ _ _ Hw Hfind) as (T & L & Q & (Hh & Hc & Hp) & Hin).
  destruct (crash_ok (en_pid e) _ _ _ _ _ _ Hh eq_refl) as (K' & Hh' & HK').
  pose proof (po_each _ _ _ _ _ Hp _ Hin) as (_ & HK & _ & _ & Hs). cbn [fst snd] in *.
  eapply world_is_intro; [exact Hh'| |].
  - eapply contents_locks; [|exact Hc]. intros name Hn. rewrite HK', Hn. by destruct (decide _).
  - eapply procs_left; [exact Hp|exact Hin|auto|auto|..].
    + intros name Hne. rewrite HK'. destruct (decide _) as [D|D]; [|done].
      destruct (po_locks _ _ _ _ _ Hp _ _ D) as (ph' & Hin' & ->).
      apply find_phase_spec in Hin, Hin'; [|apply Hp..]. congruence.
    + rewrite HK'. by rewrite decide_True.
    + case_bool_decide as D.
      * destruct (po_slot _ _ _ _ _ Hp _ D) as (i & Hi). apply find_phase_spec in Hin, Hi; [|apply Hp..].
        destruct ph; [congruence|done].
      * destruct ph; [done|congruence].
Qed.

Lemma reclaim_world_ok e f ids w :
  world_ok w → find_phase (en_pid e) (w_procs w) = None → world_ok (perform (Reclaim f ids) e w).
Proof.
  intros Hw Hnone. unfold perform. rewrite Hnone.
  destruct Hw as [(Hprocs & Hr & Hq & Hs & HK)|(T & L & Q & Hh & Hc & Hp)].
  - destruct (reconcile_apply_fresh e f ids (w_host w) Hr) as (_ & ? & E1 & E2 & E3). left. unfold fresh. cbn.
    rewrite E1, E2, E3. by split_and!.
  - destruct (reconcile_apply_ok e f ids _ _ _ _ _ _ Hh Hc) as (T' & L' & Q' & Hh' & Hc' & Hf & _).
    eapply world_is_intro; [exact Hh'|exact Hc'|]. by eapply procs_frame.
Qed.

Lemma perform_ok a e w : env_ok e → world_ok w → world_ok (perform a e w).
Proof.
  intros He Hw. destruct (find_phase (en_pid e) (w_procs w)) as [ph|] eqn:Hfind.
  2: { destruct a; [by apply enter_world_ok|unfold perform; by rewrite Hfind..|by apply reclaim_world_ok]. }
  destruct a; [unfold perform; by rewrite Hfind|..|by eapply crash_world_ok|unfold perform; by rewrite Hfind].
  - destruct ph as [id|id]; [by eapply poll_world_ok|]. unfold perform. by rewrite Hfind.
  - destruct ph as [id|id]; [unfold perform; by rewrite Hfind|]. unfold perform. rewrite Hfind.
    destruct (world_cases _ _ _ Hw Hfind) as (T & L & Q & (Hh & Hc & Hp) & Hin).
    destruct (po_each _ _ _ _ _ Hp _ Hin) as (_ & HK & _ & _ & Hs).
    destruct (release_ok e id _ _ _ _ _ _ Hh Hc HK Hs) as (h' & -> & Hout). by eapply leave_ok.
  - destruct ph as [id|id]; [unfold perform; by rewrite Hfind|]. unfold perform. rewrite Hfind.
    destruct (world_cases _ _ _ Hw Hfind) as (T & L & Q & (Hh & Hc & Hp) & Hin).
    destruct (po_each _ _ _ _ _ Hp _ Hin) as (Hid & HK & (n & Hn & Hv) & (nl & l & Hnl & Hl & Hst) & Hs).
    cbn [fst snd phase_id phase_state] in *.
    destruct (heartbeat_ok e (guard id) _ _ _ _ _ _ _ _ He Hh Hc Hnl Hl Hst)
      as [[_ ->]|(now & b & h' & _ & -> & Hb & Hh')]; [by eapply world_is_intro|].
    pose proof Hl as (c & _ & _ & Ho & Hown).
    eapply world_is_intro; [exact Hh'| |by eapply (procs_lease T L _ _ _ _ (Holding id))].
    eapply contents_lease; [done|exact Hn|done..|]. intros _ id' n' Hn' Hid'.
    eapply co_active; [exact Hc|exact Hnl|exact Hl| |done..]. by rewrite Hst.
Qed.

Lemma world_reachable_ok w : reachable w → world_ok w.
Proof.
  intros (w0 & Hf & Hsteps). assert (H0 : world_ok w0) by by left. clear Hf.
  induction Hsteps as [|w0 w1 w (a & e & He & ->) _ IH]; [done|]. by apply IH, perform_ok.
Qed.
End World.
