(* ===== verification/AdmissionClaims.v ===== *)
(** What the admission coordinator ([Admission.v]) promises the processes of a
    host: one of them runs at a time, in the order in which they came, and none
    waits for a process that has died. *)
From stdpp Require Import relations.
From S2P Require Import Prelude.
From S2P Require Import RustStr.
From S2P Require Import BTree.
From S2P Require Import Canonical.
From S2P Require Import FieldCodec.
From S2P Require Import Durable.
From S2P Require Import Admission.
From S2P Require Import AdmissionProps.
From S2P Require Import AdmissionScan.
From S2P Require Import AdmissionOps.
From S2P Require Import AdmissionEnter.
From S2P Require Import AdmissionWorld.
Local Open Scope Z_scope.

(** * The abstract queue *)

(** The processes that wait, in order, and those that were served and have not
    left. *)
Record Queue : Type := {
  q_waiting : list pid;
  q_served : list pid;
}.

Definition drop_pid (p : pid) (l : list pid) : list pid := List.filter (λ q, negb (q =? p)) l.

(** A process joins at the end; the first one is served when nobody is; a process
    leaves from wherever it is. *)
Inductive queue_step : Queue → Queue → Prop :=
  | queue_join p ws ss : p ∉ ws → p ∉ ss →
      queue_step {| q_waiting := ws; q_served := ss |} {| q_waiting := ws ++ [p]; q_served := ss |}
  | queue_serve p ws :
      queue_step {| q_waiting := p :: ws; q_served := [] |} {| q_waiting := ws; q_served := [p] |}
  | queue_leave p ws ss :
      queue_step {| q_waiting := ws; q_served := ss |}
        {| q_waiting := drop_pid p ws; q_served := drop_pid p ss |}.

Definition waiting_pid (x : pid * phase) : option pid :=
  match x.2 with Waiting _ => Some x.1 | Holding _ => None end.
Definition holding_pid (x : pid * phase) : option pid :=
  match x.2 with Holding _ => Some x.1 | Waiting _ => None end.

Definition queue_of (w : World) : Queue :=
  {| q_waiting := omap waiting_pid (w_procs w); q_served := omap holding_pid (w_procs w) |}.

(** * A concrete coordinator *)

Module AdmissionExample.
#[export] Instance ticket_codec_example : Codec TicketMarker := total_codec
  (λ m, [tm_owner m; tm_purpose m; tm_schema_version m; tm_ticket_id m])
  (λ l, match l with
        | [owner; purpose; version; id] =>
          Some {| tm_owner := owner; tm_purpose := purpose; tm_schema_version := version; tm_ticket_id := id |}
        | _ => None
        end).

Definition read_u64 (s : string) : option Z := n ← read_number s; checked_u64 n.

#[export] Instance lease_codec_example : Codec LeaseMarker := total_codec
  (λ m, [lm_owner m; lm_purpose m; lm_schema_version m; lm_owner_run_id m;
         number (lm_acquired_at_unix_seconds m); number (lm_heartbeat_at_unix_seconds m); lm_state m])
  (λ l, match l with
        | [owner; purpose; version; id; acquired; beat; state] =>
          acquired ← read_u64 acquired; beat ← read_u64 beat;
          Some {| lm_owner := owner; lm_purpose := purpose; lm_schema_version := version; lm_owner_run_id := id;
                  lm_acquired_at_unix_seconds := acquired; lm_heartbeat_at_unix_seconds := beat; lm_state := state |}
        | _ => None
        end).

Lemma read_u64_number n : u64 n → read_u64 (number n) = Some n.
Proof.
  intros Hn. unfold read_u64. rewrite read_number_number by (unfold u64, u64_max in *; lia). cbn.
  by apply checked_u64_some.
Qed.

#[export] Instance laws_example : AdmissionLaws.
Proof.
  constructor.
  - intros m. apply total_codec_law. by destruct m.
  - intros l Ha Hb. apply total_codec_law. rewrite !read_u64_number by done. by destruct l.
  - intros b l H. cbn in H. repeat case_match; simplify_eq. opt_inv. subst. cbn.
    repeat match goal with H : read_u64 _ = Some _ |- _ =>
      unfold read_u64 in H; opt_inv; apply checked_u64_some in H as [-> ?] end. done.
Qed.

(** Process [p] at the time [now]. *)
Definition env (p : pid) (now : Z) : Env :=
  {| en_pid := p; en_now := Some now; en_started := 0; en_timeout := 900; en_instant := λ _, 1;
     en_cancelled := λ _, false; en_wait := AdmissionTimeout; en_queue := None; en_sequence := 0;
     en_temporary := ".ccp-durable-tmp-1-0"; en_read_dir := reverse |}.

Lemma env_example_ok p now : u64 now → env_ok (env p now).
Proof.
  intros Hn. constructor; [|by intros ? [= <-]|done]. intros m. cbn. apply reverse_Permutation.
Qed.

Definition world0 : World :=
  {| w_host := {| h_root := None; h_queue := None; h_slot := None; h_locks := []; h_sequence := 0; h_checks := 0 |};
     w_procs := [] |}.

Definition run (steps : list (action * Env)) : World := foldl (λ w x, perform x.1 x.2 w) world0 steps.

Lemma run_reachable steps : Forall (λ x, env_ok x.2) steps → reachable (run steps).
Proof.
  intros Hs. exists world0. split; [done|]. unfold run. generalize world0.
  induction Hs as [|[a e] steps He _ IH]; intros w; [constructor|]. cbn.
  eapply rtc_l; [|apply IH]. by exists a, e.
Qed.
End AdmissionExample.

Section Claims.
Context `{CT : Codec TicketMarker} `{CL : Codec LeaseMarker} `{AL : !AdmissionLaws}.

(** ** Processes and the queue *)

Lemma forget_queue p h procs :
  queue_of {| w_host := h; w_procs := forget p procs |}
  = {| q_waiting := drop_pid p (omap waiting_pid procs); q_served := drop_pid p (omap holding_pid procs) |}.
Proof.
  unfold queue_of, forget, drop_pid. cbn. f_equal; induction procs as [|[q [i|i]] procs IH]; cbn; try done;
    destruct (negb (q =? p)) eqn:E; cbn; rewrite ?E; cbn; by rewrite IH.
Qed.

Lemma omap_procs_fst (f : pid * phase → option pid) procs p :
  (∀ x q, f x = Some q → q = x.1) → p ∈ omap f procs → p ∈ procs.*1.
Proof.
  intros Hf (x & Hx & E)%list_elem_of_omap. apply Hf in E as ->. by apply list_elem_of_fmap_2.
Qed.

Lemma no_holder T L K procs : procs_ok T L K None procs → omap holding_pid procs = [].
Proof.
  intros Hp. destruct (omap holding_pid procs) as [|q l] eqn:E; [done|].
  assert (Hq : q ∈ omap holding_pid procs) by (rewrite E; left).
  apply list_elem_of_omap in Hq as ([q' [i|i]] & Hx & Hh); [done|].
  by destruct (po_each _ _ _ _ _ Hp _ Hx) as (_ & _ & _ & _ & ?).
Qed.

(** A process whose ticket precedes those of the others is the first of them. *)
Lemma least_is_head T L K s procs x :
  procs_ok T L K s procs → x ∈ procs →
  (∀ y, y ∈ procs → phase_id x.2 = phase_id y.2 ∨ lt_ord (phase_id x.2) (phase_id y.2)) →
  ∃ post, procs = x :: post.
Proof.
  intros Hp Hx Hleast. destruct procs as [|y procs]; [by apply elem_of_nil in Hx|].
  exists procs. f_equal. apply elem_of_cons in Hx as [->|Hx]; [done|]. exfalso.
  pose proof (po_order _ _ _ _ _ Hp) as Ho. cbn in Ho. apply StronglySorted_inv in Ho as [_ Ho].
  rewrite Forall_forall in Ho. specialize (Ho (phase_id x.2)).
  assert (Hlt : lt_ord (phase_id y.2) (phase_id x.2)) by (apply Ho; by apply (list_elem_of_fmap_2 (λ x, phase_id x.2))).
  destruct (Hleast y) as [E|Hlt']; [by left|..].
  - rewrite E in Hlt. by apply lt_ord_irrefl in Hlt.
  - apply (lt_ord_irrefl (phase_id y.2)). by transitivity (phase_id x.2).
Qed.

(** Every process has a ticket that a sweep keeps. *)
Lemma swept_procs e own T L K s procs live T' L' x :
  swept e own T L K live T' L' → procs_ok T L K s procs → x ∈ procs → phase_id x.2 ∈ ti_id <$> live.
Proof.
  intros Hsw Hp Hx. destruct (po_each _ _ _ _ _ Hp _ Hx) as (Hid & HK & (n & Hn & Hv) & _).
  eapply sw_protected; [done..|]. right. by rewrite HK.
Qed.

(** Who is served was the first process there is. *)
Lemma served_first e T L K procs live T' L' p id :
  swept e (Some id) T L K live T' L' → procs_ok T L K None procs → (p, Waiting id) ∈ procs →
  head (ti_id <$> live) = Some id → ∃ post, procs = (p, Waiting id) :: post.
Proof.
  intros Hsw Hp Hin Hhead. eapply least_is_head; [done..|]. intros y Hy. cbn.
  eapply swept_head; [done..|]. by eapply swept_procs.
Qed.

Lemma set_phase_head p ph ph' post :
  NoDup ((p, ph) :: post).*1 → set_phase p ph' ((p, ph) :: post) = (p, ph') :: post.
Proof.
  cbn. intros [Hp _]%NoDup_cons. rewrite Z.eqb_refl. f_equal.
  induction post as [|[q ph2] post IH]; [done|]. cbn in *. apply not_elem_of_cons in Hp as [Hne Hp].
  rewrite (proj2 (Z.eqb_neq q p)) by congruence. by rewrite IH.
Qed.

(** C2. The coordinator implements the queue: whatever a process of a reachable
    host does (acquire, a turn of its wait, release, a beat, its end at any point
    between two operations, or the reconciliation of any tickets), the processes that wait and the one that runs
    change by a step of the abstract queue, or not at all.  So a process is served
    only when none runs and it has waited longest. *)
Theorem admission_refines_queue (a : action) (e : Env) (w : World) :
  reachable w → env_ok e →
  queue_of (perform a e w) = queue_of w ∨ queue_step (queue_of w) (queue_of (perform a e w)).
Proof.
  intros Hw%world_reachable_ok He.
  destruct (find_phase (en_pid e) (w_procs w)) as [ph|] eqn:Hfind.
  - destruct (world_cases _ _ _ Hw Hfind) as (T & L & Q & (Hh & Hc & Hp) & Hin).
    assert (Hleave : ∀ h, queue_step (queue_of w) (queue_of {| w_host := h; w_procs := forget (en_pid e) (w_procs w) |})).
    { intros h. rewrite forget_queue. constructor. }
    destruct a, ph as [id|id]; unfold perform; rewrite Hfind; try (by left); try (right; apply Hleave).
    destruct (po_each _ _ _ _ _ Hp _ Hin) as (Hid & HK & (n & Hn & Hv) & (nl & l & Hnl & Hl & Hst) & _).
    cbn [fst snd phase_id] in *.
    destruct (poll_ok e id _ _ _ _ _ _ _ _ _ He Hh Hc HK Hid Hn Hv Hnl Hl Hst)
      as (live & T' & L' & Q' & h' & Hsw & Hcase).
    destruct (check e (begin e (w_host w))).1; [|destruct Hcase as [-> _]; right; apply Hleave].
    case_bool_decide as Hserve; [|destruct Hcase as (-> & _); by left].
    destruct (en_now e); [|destruct Hcase as [-> _]; right; apply Hleave].
    destruct Hcase as (b & -> & _). right. destruct Hserve as [Hhead Hfree]. rewrite Hfree in Hp.
    destruct (served_first _ _ _ _ _ _ _ _ _ _ Hsw Hp Hin Hhead) as [post Hpost].
    pose proof (no_holder _ _ _ _ Hp) as Hnone. pose proof (po_nodup _ _ _ _ _ Hp) as Hnd.
    unfold queue_of. cbn [w_procs guard ag_ticket_id]. rewrite Hpost in *. rewrite set_phase_head by done.
    cbn in *. rewrite Hnone. constructor.
  - destruct a; unfold perform; rewrite Hfind; try (by left).
    apply find_phase_none in Hfind. destruct (enter e (w_host w)) as [[re|error] h]; [right|by left].
    unfold queue_of. cbn. rewrite !omap_app. cbn. rewrite app_nil_r. constructor;
      intros Hin; apply Hfind; eapply omap_procs_fst; [|exact Hin| |exact Hin]; by intros [? [?|?]] ? [= <-].
Qed.

(** C4. One process runs at a time, and nothing is taken from a process that is
    alive: in a reachable host the slot lock is held exactly by the process with
    a guard, and each process that waits or runs has its valid ticket, the lock of
    that ticket, and its lease in the state it is in. *)
Theorem admission_exclusive (w : World) :
  reachable w →
  (∀ p, h_slot (w_host w) = Some p ↔ ∃ id, (p, Holding id) ∈ w_procs w) ∧
  (∀ p q i j, (p, Holding i) ∈ w_procs w → (q, Holding j) ∈ w_procs w → p = q ∧ i = j) ∧
  ∀ p ph, (p, ph) ∈ w_procs w →
    map_get (ticket_name (phase_id ph)) (h_locks (w_host w)) = Some p ∧
    (∃ n, dir_entry TICKETS_DIR (ticket_name (phase_id ph)) (w_host w) = Some n ∧ valid_ticket n (phase_id ph)) ∧
    ∃ n l, dir_entry LEASES_DIR (lease_name (phase_id ph)) (w_host w) = Some n ∧
      valid_lease n (phase_id ph) l ∧ lm_state l = phase_state ph.
Proof.
  intros [(Hprocs & _ & _ & Hs & _)|(T & L & Q & Hh & Hc & Hp)]%world_reachable_ok.
  { rewrite Hs, Hprocs. split_and!.
    - intros p. split; [done|]. by intros (id & Hin%elem_of_nil).
    - by intros p q i j Hin%elem_of_nil.
    - by intros p ph Hin%elem_of_nil. }
  assert (Hslot : ∀ p id, (p, Holding id) ∈ w_procs w → h_slot (w_host w) = Some p).
  { intros p id Hin. by destruct (po_each _ _ _ _ _ Hp _ Hin) as (_ & _ & _ & _ & ?). }
  split_and!.
  - intros p. split; [apply Hp|]. intros (id & Hin). by eapply Hslot.
  - intros p q i j Hi Hj. pose proof (Hslot _ _ Hi) as E. rewrite (Hslot _ _ Hj) in E. injection E as ->.
    apply find_phase_spec in Hi, Hj; [|apply Hp..]. split; congruence.
  - intros p ph Hin. destruct (po_each _ _ _ _ _ Hp _ Hin) as (_ & HK & (n & Hn & Hv) & (nl & l & Hnl & Hl & Hst) & _).
    pose proof (dir_entry_is _ _ _ _ _ _ (ticket_name (phase_id ph)) Hh) as (-> & _ & _).
    pose proof (dir_entry_is _ _ _ _ _ _ (lease_name (phase_id ph)) Hh) as (_ & -> & _).
    split_and!; [done|by exists n|by exists nl, l].
Qed.

(** Every lease is old enough some time. *)
Lemma leases_expire (L : btmap string node) :
  ∃ expiry, ∀ name n id l, map_get name L = Some n → valid_lease n id l →
    lm_heartbeat_at_unix_seconds l + LEASE_DURATION ≤ expiry.
Proof.
  induction L as [|[k n] L [t Ht]]; [by exists 0|].
  assert (Hn : ∃ u, ∀ id l, valid_lease n id l → lm_heartbeat_at_unix_seconds l + LEASE_DURATION ≤ u).
  { destruct n as [c|es|b tgt|]; try (exists 0; by intros ?? (? & ? & _)).
    destruct (from_slice (T := LeaseMarker) c) as [l|] eqn:E.
    - exists (lm_heartbeat_at_unix_seconds l + LEASE_DURATION). intros id l' (c' & [= <-] & E' & _). simplify_eq. lia.
    - exists 0. intros id l (c' & [= <-] & E' & _). simplify_eq. }
  destruct Hn as [u Hu]. exists (t `max` u). intros name n' id l. cbn.
  destruct (String.compare name k); intros Hget Hl;
    [injection Hget as ->; specialize (Hu _ _ Hl)|specialize (Ht _ _ _ _ Hget Hl)..]; lia.
Qed.

Lemma lease_expired e l now :
  en_now e = Some now → lm_heartbeat_at_unix_seconds l + LEASE_DURATION ≤ now → lease_is_expired e l = true.
Proof.
  intros Hnow Hl. unfold lease_is_expired, unix_seconds. rewrite Hnow. cbn. apply Z.leb_le.
  unfold LEASE_DURATION in *. lia.
Qed.

(** The head of a sorted list of tickets. *)
Lemma sorted_head (live : list TicketInfo) id :
  StronglySorted (key_le ti_id) live → id ∈ ti_id <$> live →
  (∀ id', id' ∈ ti_id <$> live → id = id' ∨ lt_ord id id') → head (ti_id <$> live) = Some id.
Proof.
  destruct live as [|t live]; cbn; [by intros _ ?%elem_of_nil|].
  intros [_ Hle]%StronglySorted_inv Hin Hleast. f_equal.
  apply elem_of_cons in Hin as [->|Hin]; [done|]. apply list_elem_of_fmap in Hin as (u & -> & Hu).
  rewrite Forall_forall in Hle. specialize (Hle _ Hu). destruct (Hleast (ti_id t)) as [E|Hlt]; [by left|done|].
  unfold key_le in Hle. by apply cmp_gt in Hlt.
Qed.

(** C7. No process waits for ever behind the dead: when nobody runs, the process
    that has waited longest is served at its next turn once the leases that are
    there have expired, which is at most 30 seconds after the last beat of a dead
    process, provided its own time is not over. *)
Theorem first_waiter_is_served (w : World) (p : pid) (id : string) (post : list (pid * phase)) :
  reachable w → w_procs w = (p, Waiting id) :: post → h_slot (w_host w) = None →
  ∃ expiry, ∀ e now, env_ok e → en_pid e = p → en_now e = Some now → expiry ≤ now →
    (check e (begin e (w_host w))).1 = Ok () →
    find_phase p (w_procs (perform Poll e w)) = Some (Holding id).
Proof.
  intros Hw%world_reachable_ok Hprocs Hfree.
  destruct Hw as [(Hnil & _)|(T & L & Q & Hh & Hc & Hp)]; [by rewrite Hprocs in Hnil|].
  destruct (leases_expire L) as [expiry Hexp]. exists expiry. intros e now He Hpid Hnow Hle Hcheck.
  assert (Hin : (p, Waiting id) ∈ w_procs w) by (rewrite Hprocs; left).
  assert (Hfind : find_phase (en_pid e) (w_procs w) = Some (Waiting id))
    by (rewrite Hpid; by apply find_phase_spec; [apply Hp|]).
  unfold perform. rewrite Hfind.
  destruct (po_each _ _ _ _ _ Hp _ Hin) as (Hid & HK & (n & Hn & Hv) & (nl & l & Hnl & Hl & Hst) & _).
  cbn [fst snd phase_id] in *. rewrite <-Hpid in HK.
  destruct (poll_ok e id _ _ _ _ _ _ _ _ _ He Hh Hc HK Hid Hn Hv Hnl Hl Hst)
    as (live & T' & L' & Q' & h' & Hsw & Hcase).
  rewrite Hcheck in Hcase. rewrite bool_decide_true in Hcase.
  - rewrite Hnow in Hcase. destruct Hcase as (b & -> & _). cbn [w_procs guard ag_ticket_id].
    rewrite Hpid. apply find_phase_spec; [rewrite set_phase_keys; apply Hp|]. by eapply set_phase_in.
  - split; [|done]. apply sorted_head; [apply Hsw|by eapply (swept_procs _ _ _ _ _ _ _ _ _ _ (p, Waiting id))|].
    intros id' Hin'. destruct (sw_kept_because _ _ _ _ _ _ _ _ Hsw _ Hin') as [E|[Hlock|(n' & l' & Hn' & Hl' & Hnot)]].
    + injection E as ->. by left.
    + destruct (map_get (ticket_name id') _) as [q|] eqn:Eq; [|done].
      destruct (po_locks _ _ _ _ _ Hp _ _ Eq) as (ph & Hq & Hname). apply ticket_name_inj in Hname as ->.
      rewrite Hprocs in Hq. apply elem_of_cons in Hq as [[= -> ->]|Hq]; [by left|]. right.
      pose proof (po_order _ _ _ _ _ Hp) as Ho. rewrite Hprocs in Ho. cbn in Ho.
      apply StronglySorted_inv in Ho as [_ Ho]. rewrite Forall_forall in Ho. apply Ho.
      by apply (list_elem_of_fmap_2 (λ x, phase_id x.2)) in Hq.
    + rewrite (lease_expired e l' now) in Hnot; [done..|]. specialize (Hexp _ _ _ _ Hn' Hl'). lia.
Qed.

Lemma lock_status_ok name kind holder h st h' :
  lock_status name kind holder h = (Ok st, h') →
  h' = h ∧ ls_state st = if root_entry name h is None then "unknown" else if holder is Some _ then "held" else "free".
Proof.
  unfold lock_status, open_existing_lock_file. intros H. adm_inv. apply mret_ok in H as [-> ->]. split; [done|].
  cbn. destruct (root_entry name h) as [[]|]; simplify_eq; by destruct holder.
Qed.

Lemma slot_status_ok e h st h' :
  slot_status e h = (Ok st, h') →
  h' = h ∧ ∃ leases, active_leases e h = Ok leases ∧
    (ls_state st = "held" ↔ root_entry SLOT_LOCK h ≠ None ∧ h_slot h ≠ None) ∧
    ls_owner_run_id st = match leases with [l] => Some (lm_owner_run_id l) | _ => None end.
Proof.
  unfold slot_status. intros H. adm_inv. rename select (lock_status _ _ _ _ = _) into Hl.
  apply lock_status_ok in Hl as [-> Hstate]. apply mret_ok in H as [-> ->]. split; [done|].
  rename select (active_leases _ _ = _) into Ha. eexists. split; [exact Ha|]. simplify_eq.
  cbn [ls_state ls_owner_run_id]. rewrite Hstate. split.
  - destruct (root_entry SLOT_LOCK h) as [n|]; cbn [String.eqb andb];
      [|split; [by destruct (_ && _)|by intros []]].
    destruct (h_slot h) as [q|]; cbn [String.eqb andb].
    + by split.
    + split; [by destruct (negb _)|by intros []].
  - by repeat case_match.
Qed.

Lemma lock_queue_same wait h u h' : lock_queue_until wait h = (Ok u, h') → h' = h.
Proof.
  unfold lock_queue_until, open_queue, open_existing_lock_file, lock_exclusive_until. intros H. by adm_inv.
Qed.
Lemma open_queue_same h : (open_queue false h).2 = h.
Proof.
  unfold open_queue, open_existing_lock_file, reads. rewrite bind_adm.
  by destruct (root_entry QUEUE_LOCK h) as [[]|].
Qed.
Lemma validate_layout_same e b h : (validate_layout e b h).2 = h.
Proof.
  unfold validate_layout, root_exists, reads. rewrite bind_adm. by destruct (h_root h) as [[]|].
Qed.

(** The steps of a status report, none of which writes. *)
Lemma status_ok e h st h' :
  h_root h ≠ None → status_with_timeout e h = (Ok st, h') →
  ∃ h1 live stale slot, h_root h1 = h_root h ∧ h_locks h1 = h_locks h ∧ h_slot h1 = h_slot h ∧ h_queue h1 = h_queue h ∧
    (∃ h2, scan_tickets e None false h1 = (Ok (live, stale), h2) ∧ slot_status e h2 = (Ok slot, h')) ∧
    as_slot st = slot ∧ as_active st = (ls_state slot =? "held")%string ∧
    as_ticket_ids st = ti_id <$> drop (if as_active st && negb (is_nil live) then 1 else 0) live ∧
    as_queue_count st = length (as_ticket_ids st).
Proof.
  intros Hr H. unfold status_with_timeout in H. adm_inv.
  rename select (update _ _ = _) into Hu. injection Hu as _ <-.
  rename select (check _ _ = _) into Hck. injection Hck as _ <-.
  rename select (root_exists _ = _) into Hre. unfold root_exists in Hre. adm_inv. cbn in Hre.
  destruct (h_root h) as [[]|] eqn:Er; simplify_eq. cbn [negb] in H. adm_inv.
  repeat match goal with
  | H : valid_owner_marker_exists _ = _ |- _ => unfold valid_owner_marker_exists in H; apply reads_ok in H; destruct H as [H ->]
  | H : lock_status _ _ _ _ = _ |- _ => apply lock_status_ok in H; destruct H as [-> _]
  | H : lock_queue_until _ _ = _ |- _ => apply lock_queue_same in H; subst
  | H : validate_layout _ _ ?x = (_, ?y) |- _ => pose proof (validate_layout_same e true x) as Hv; rewrite H in Hv; cbn in Hv; subst; clear H
  end.
  match goal with x : list TicketInfo * list TicketInfo |- _ => destruct x as [live stale] end. adm_inv.
  apply mret_ok in H as [-> ->].
  eexists (next_check (begin e h)), live, stale, _. rewrite <-Er.
  split_and!; try done. eexists. split; eassumption.
Qed.

Lemma sorted_strict (live : list TicketInfo) :
  StronglySorted (key_le ti_id) live → NoDup (ti_id <$> live) → StronglySorted lt_ord (ti_id <$> live).
Proof.
  induction 1 as [|t live Hs IH Hle]; cbn; [constructor|]. intros [Ht Hnd]%NoDup_cons.
  constructor; [by apply IH|]. rewrite Forall_forall in Hle. apply Forall_forall. intros i (u & -> & Hu)%list_elem_of_fmap.
  specialize (Hle _ Hu). unfold key_le in Hle. destruct (cmp (ti_id t) (ti_id u)) eqn:E; [|done|done].
  apply cmp_eq in E. destruct Ht. rewrite E. by apply list_elem_of_fmap_2.
Qed.

(** The tickets behind the holder are the others. *)
Lemma tail_of_head (ids : list string) id :
  NoDup ids → head ids = Some id → ∀ i, i ∈ drop 1 ids ↔ i ∈ ids ∧ i ≠ id.
Proof.
  destruct ids as [|j ids]; [done|]. cbn. intros [Hj _]%NoDup_cons [= ->] i. rewrite drop_0, elem_of_cons.
  split; [intros Hi; split; [by right|by intros ->]|]. by intros [[->|?] ?].
Qed.

(** The status report says who runs and who waits: the report of a reachable
    host is active exactly when a process has a guard; then it names the ticket of
    that process, and it lists the identifiers of all other tickets, in order. *)
Theorem status_reports_queue (w : World) (e : Env) (st : AdmissionStatusV1) (h : Host) :
  reachable w → env_ok e → h_root (w_host w) ≠ None →
  status_with_timeout e (w_host w) = (Ok st, h) →
  (as_active st = true ↔ ∃ p id, (p, Holding id) ∈ w_procs w) ∧
  (∀ p id, (p, Holding id) ∈ w_procs w → ls_owner_run_id (as_slot st) = Some id) ∧
  (∀ id, id ∈ as_ticket_ids st ↔
     dir_entry TICKETS_DIR (ticket_name id) (w_host w) ≠ None ∧ ∀ p, (p, Holding id) ∉ w_procs w) ∧
  StronglySorted lt_ord (as_ticket_ids st) ∧ as_queue_count st = length (as_ticket_ids st) ∧
  h_root h = h_root (w_host w).
Proof.
  intros [(_ & Hr & _)|(T & L & Q & Hh & Hc & Hp)]%world_reachable_ok He Hroot H; [done|].
  destruct (status_ok _ _ _ _ Hroot H)
    as (h1 & live & stale & slot & E1 & E2 & E3 & E4 & (h2 & Hscan & Hslot) & Hst & Hact & Hids & Hcount).
  apply (host_is_same _ h1) in Hh; [|done..]. pose proof (eo_lists _ He) as Hl.
  destruct (scan_status_ok _ _ _ _ _ _ _ _ _ _ Hl Hh (co_tickets_sorted _ _ _ _ Hc) Hscan)
    as (-> & Hsorted & Hnd & Hin & Hid).
  destruct (slot_status_ok _ _ _ _ Hslot) as (-> & leases & Hleases & Hheld & Howner).
  assert (Hactive : as_active st = true ↔ h_slot (w_host w) ≠ None).
  { rewrite Hact, String.eqb_eq, Hheld, E3. pose proof Hh as []. split; [by intros [_ ?]|]. intros Hs.
    split; [|done]. by destruct hi_slot_file as [[_ ?]|[c ->]]. }
  assert (Hholder : ∀ p id, (p, Holding id) ∈ w_procs w →
    h_slot (w_host w) = Some p ∧ head (ti_id <$> live) = Some id ∧ ls_owner_run_id slot = Some id).
  { intros p id Hpid. destruct (po_each _ _ _ _ _ Hp _ Hpid) as (Hidok & _ & (n & Hn & _) & (nl & l & Hnl & Hvl & Hls) & Hs).
    cbn in *. split; [done|]. split.
    - apply sorted_head; [done|by apply Hin; rewrite Hn|]. intros i Hi. pose proof (Hid _ Hi) as Hiok.
      apply Hin in Hi. destruct (map_get (ticket_name i) T) as [ni|] eqn:Ei; [|done].
      eapply co_active; [exact Hc|exact Hnl|exact Hvl|by rewrite Hls|exact Ei|done].
    - rewrite (active_leases_single _ _ _ _ _ _ _ _ _ _ _ Hl Hh Hc Hleases Hnl Hvl Hls) in Howner.
      rewrite Howner. f_equal. by destruct Hvl as (? & _ & _ & _ & ?). }
  split_and!.
  - rewrite Hactive. split.
    + intros Hs. destruct (h_slot (w_host w)) as [p|] eqn:Es; [|done]. exists p. by apply Hp.
    + intros (p & id & Hpid). by destruct (Hholder _ _ Hpid) as [-> _].
  - intros p id Hpid. rewrite Hst. by apply Hholder in Hpid as (_ & _ & ?).
  - intros id. pose proof (dir_entry_is _ _ _ _ _ _ (ticket_name id) Hh) as (Hd & _ & _).
    unfold dir_entry, dir_entries, root_entry, root_entries in Hd |- *. rewrite E1 in Hd. rewrite Hd, <-Hin, Hids.
    destruct (as_active st) eqn:Ea.
    + assert (Hs : ∃ p i, (p, Holding i) ∈ w_procs w).
      { destruct (h_slot (w_host w)) as [p|] eqn:Es; [|by destruct (proj1 Hactive eq_refl)]. exists p. by apply Hp. }
      destruct Hs as (p & i & Hpi). destruct (Hholder _ _ Hpi) as (Hs & Hhead & _).
      destruct live as [|t live]; [done|]. cbn [negb is_nil andb]. rewrite fmap_drop, (tail_of_head _ i) by done.
      split; intros [Hi Hne]; (split; [done|]).
      * intros q Hq. destruct (Hholder _ _ Hq) as (_ & Hhead' & _). congruence.
      * intros ->. by apply (Hne p).
    + cbn [andb]. rewrite drop_0. split; [|by intros [? _]]. intros Hi. split; [done|]. intros p Hpi.
      destruct (Hholder _ _ Hpi) as (Hs & _). assert (Hc' : false = true) by (apply Hactive; by rewrite Hs).
      done.
  - rewrite Hids, fmap_drop. eapply StronglySorted_sublist; [apply sublist_drop|]. by apply sorted_strict.
  - done.
  - done.
Qed.

(** The numbers of tickets grow: a new number is above every ticket there is
    and not below the counter, fits 20 digits and a [u64], and the counter moves
    past it. *)
Theorem ticket_numbers_grow (w : World) (e : Env) (id : string) (h : Host) :
  reachable w → env_ok e → next_ticket_id e (w_host w) = (Ok id, h) →
  is_ticket_id id = true ∧ ticket_number id < u64_max ∧
  (∀ id' n, dir_entry TICKETS_DIR (ticket_name id') (w_host w) = Some n → is_ticket_id id' = true →
     ticket_number id' < ticket_number id ∧ lt_ord id' id) ∧
  (∃ c, read_counter (w_host w) = Ok c ∧ c ≤ ticket_number id) ∧
  read_counter h = Ok (ticket_number id + 1).
Proof.
  intros [(_ & Hr & _)|(T & L & Q & Hh & Hc & _)]%world_reachable_ok He H.
  { unfold next_ticket_id in H. adm_inv. rename select (check _ _ = _) into Hck. injection Hck as _ <-.
    rename select (read_dir _ _ _ = _) into Hd. unfold read_dir, reads in Hd. injection Hd as Hd _.
    unfold root_entry, root_entries in Hd. cbn in Hd. by rewrite Hr in Hd. }
  destruct (next_ticket_id_spec e _ _ _ _ _ _ He Hh Hc) as [_ Hspec].
  destruct (Hspec id h H) as (Hid & Hmax & Hlt & Hcnt & Hnext). split_and!; try done.
  intros id' n. pose proof (dir_entry_is _ _ _ _ _ _ (ticket_name id') Hh) as (-> & _ & _). intros Hn Hid'.
  specialize (Hlt _ _ Hn Hid'). split; [done|]. by apply ticket_number_order.
Qed.

(** A process that ends while it replaces the counter stops every later one:
    [atomic_replace] leaves its temporary file in the root, every entry of which
    [validate_layout] must know, so that [acquire] fails, and changes nothing that
    would let a later one pass. *)
Theorem leftover_temporary_stops_acquire (h : Host) (e0 e : Env) (es : btmap string node) (content : list ascii) :
  env_ok e0 → lists_entries e → h_root h = replace_started (Some (Dir es)) (en_temporary e0) content →
  is_ok (enter e h).1 = false ∧ h_root (enter e h).2 = h_root h.
Proof.
  intros He0 He Hr. cbn in Hr.
  assert (Hbad : ∀ b h', h_root h' = h_root h → is_ok (validate_layout e b h').1 = false).
  { intros b h' Hr'. unfold validate_layout, root_exists, reads. rewrite bind_adm, Hr', Hr.
    unfold root_entries. rewrite Hr', Hr.
    assert (Hstop : is_ok (try_fold validate_entry (false, false)
      (en_read_dir e (map_insert (en_temporary e0) (File content) es))) = false).
    { apply (try_fold_stops _ (en_temporary e0, File content)).
      - rewrite (He _). apply map_get_in. map_simp. by rewrite decide_True.
      - intros [o t]. unfold validate_entry.
        assert (Hne : ∀ name, starts_with TEMPORARY_PREFIX name = false → (en_temporary e0 =? name)%string = false).
        { intros name Hn. apply String.eqb_neq. intros E. by apply (temporary_ne e0 name He0 Hn). }
        by rewrite !Hne. }
    by destruct (try_fold _ _ _). }
  rewrite enter_unfold. destruct (from_timeout e); [|done].
  destruct (check e (begin e h)) as [[u|error] h1] eqn:Ec; injection Ec as _ <-; [|done].
  unfold initialize_until. rewrite bind_adm. destruct (check e _) as [[u'|error] h2] eqn:Ec2; injection Ec2 as _ <-; [|done].
  erewrite bind_adm_ok by (unfold create_root; cbn; by rewrite Hr). set (h3 := next_check _).
  assert (H3 : h_root h3 = h_root h) by done. clearbody h3.
  pose proof (validate_layout_same e) as Hsame.
  pose proof (eq_refl : (valid_owner_marker_exists h3).2 = h3) as Hown. rewrite bind_adm.
  destruct (valid_owner_marker_exists h3) as [[[]|error] h4] eqn:Eo; cbn in Hown; subst h4;
    [| |by split; [|exact H3]].
  - erewrite bind_adm_ok by done. rewrite bind_adm.
    change (negb true) with false. pose proof (open_queue_same h3) as Hq. destruct (open_queue false h3) as [[v|error] h4];
      cbn in Hq; subst h4; [|by split; [|exact H3]].
    rewrite bind_adm. unfold lock_exclusive_until, reads. destruct (h_queue h3); [by split; [|exact H3]|].
    rewrite bind_adm, bind_adm, Eo. erewrite (bind_adm_ok (lift _)) by done.
    specialize (Hbad true h3 H3). specialize (Hsame true h3).
    destruct (validate_layout e true h3) as [[]?]; [done|]. cbn in *. subst. by split; [|exact H3].
  - rewrite bind_adm. specialize (Hbad false h3 H3). specialize (Hsame false h3).
    destruct (validate_layout e false h3) as [[]?]; [done|]. cbn in *. subst. by split; [|exact H3].
Qed.

(** While the heartbeat replaces a lease the status report fails: the temporary
    file stands among the leases, where no other name is allowed, and the thread
    does not take the queue lock. *)
Theorem beat_stops_status (h : Host) (e0 e : Env) (L : btmap string node) (content : list ascii) :
  env_ok e0 → lists_entries e →
  root_entry LEASES_DIR h = replace_started (Some (Dir L)) (en_temporary e0) content →
  is_ok (status_with_timeout e h).1 = false.
Proof.
  intros He0 He Hr. cbn in Hr. destruct (is_ok _) eqn:E; [|done]. exfalso. apply is_ok_spec in E as [st E].
  destruct (status_with_timeout e h) as [r h'] eqn:H. cbn in E. subst r.
  assert (Hroot : h_root h ≠ None) by (intros E; unfold root_entry, root_entries in Hr; by rewrite E in Hr).
  destruct (status_ok _ _ _ _ Hroot H)
    as (h1 & live & stale & slot & E1 & _ & _ & _ & (h2 & Hscan & Hslot) & _).
  apply slot_status_ok in Hslot as (-> & leases & Hleases & _).
  assert (E2 : h_root h2 = h_root h1).
  { unfold scan_tickets in Hscan. adm_inv. rename select (read_dir _ _ _ = _) into Hd. injection Hd as _ <-.
    rename select (adm_fold _ _ _ _ = _) into Hf. apply scan_fold_status in Hf as (-> & ? & ? & -> & _).
    by apply mret_ok in Hscan as [_ ->]. }
  assert (Hbad : is_ok (active_leases e h2) = false); [|by rewrite Hleases in Hbad].
  eapply (active_leases_temporary e h2 _ (en_temporary e0) content); [done| |apply map_get_in|apply He0].
  - unfold root_entry, root_entries in Hr |- *. rewrite E2, E1. exact Hr.
  - map_simp. by rewrite decide_True.
Qed.
End Claims.

(** * Witnesses *)


Module Witnesses.
Import AdmissionExample.

(** Two processes enter, the first is served and dies. *)
Definition steps : list (action * Env) :=
  [(Enter, env 1 100); (Enter, env 2 101); (Poll, env 1 102)].

Definition id1 : string := "00000000000000000001".
Definition id2 : string := "00000000000000000002".

Lemma steps_ok : Forall (λ x, env_ok x.2) steps.
Proof. repeat (apply Forall_cons; split; [by apply env_example_ok|]). by apply Forall_nil. Qed.

Lemma steps_crash_ok : Forall (λ x, env_ok x.2) (steps ++ [(Crash, env 1 103)]).
Proof. repeat (apply Forall_cons; split; [by apply env_example_ok|]). by apply Forall_nil. Qed.

Lemma admission_refines_queue_witness :
  let w := run steps in let w' := run (steps ++ [(Crash, env 1 103)]) in
  queue_of w = {| q_waiting := [2]; q_served := [1] |} ∧ queue_of w' = {| q_waiting := [2]; q_served := [] |} ∧
  (queue_of (perform Poll (env 2 140) w') = queue_of w' ∨
   queue_step (queue_of w') (queue_of (perform Poll (env 2 140) w'))) ∧
  queue_of (perform Poll (env 2 140) w') = {| q_waiting := []; q_served := [2] |}.
Proof.
  split; [by vm_compute|]. split; [by vm_compute|]. split; [|by vm_compute].
  apply (admission_refines_queue Poll (env 2 140) (run (steps ++ [(Crash, env 1 103)]))).
  - apply run_reachable, steps_crash_ok.
  - by apply env_example_ok.
Defined.

Lemma admission_exclusive_witness :
  h_slot (w_host (run steps)) = Some 1 ∧ ∃ id, (1, Holding id) ∈ w_procs (run steps).
Proof.
  split; [by vm_compute|].
  destruct (admission_exclusive (run steps) (run_reachable _ steps_ok)) as [Hslot _].
  apply Hslot. by vm_compute.
Defined.

Lemma first_waiter_is_served_witness :
  let w := run (steps ++ [(Crash, env 1 103)]) in
  ∃ expiry, ∀ e now, env_ok e → en_pid e = 2 → en_now e = Some now → expiry ≤ now →
    (check e (begin e (w_host w))).1 = Ok () →
    find_phase 2 (w_procs (perform Poll e w)) = Some (Holding id2).
Proof.
  apply (first_waiter_is_served (run (steps ++ [(Crash, env 1 103)])) 2 id2 []).
  - apply run_reachable, steps_crash_ok.
  - by vm_compute.
  - by vm_compute.
Defined.

Definition id3 : string := "00000000000000000003".
Definition report := Eval vm_compute in status_with_timeout (env 3 103) (w_host (run steps)).
Definition third := Eval vm_compute in next_ticket_id (env 3 103) (w_host (run steps)).

Lemma status_reports_queue_witness :
  match report with
  | (Ok st, _) => ls_owner_run_id (as_slot st) = Some id1 ∧ as_ticket_ids st = [id2]
  | (Err _, _) => False
  end.
Proof.
  assert (He : env_ok (env 3 103)) by by apply env_example_ok.
  assert (Hroot : h_root (w_host (run steps)) ≠ None) by by vm_compute.
  assert (H1 : (1, Holding id1) ∈ w_procs (run steps)).
  { replace (w_procs (run steps)) with [(1, Holding id1); (2, Waiting id2)] by by vm_compute. left. }
  pose proof (λ st h, status_reports_queue (run steps) (env 3 103) st h (run_reachable _ steps_ok) He Hroot) as Hclaim.
  assert (Hrun : ∀ st h, report = (Ok st, h) → status_with_timeout (env 3 103) (w_host (run steps)) = (Ok st, h)).
  { intros st h <-. vm_compute. reflexivity. }
  unfold report in *. split; [|reflexivity].
  exact (proj1 (proj2 (Hclaim _ _ (Hrun _ _ eq_refl))) _ _ H1).
Defined.

Lemma ticket_numbers_grow_witness :
  third.1 = Ok id3 ∧ is_ticket_id id3 = true ∧ lt_ord id2 id3.
Proof.
  assert (He : env_ok (env 3 103)) by by apply env_example_ok.
  assert (Hrun : next_ticket_id (env 3 103) (w_host (run steps)) = (Ok id3, third.2)) by (vm_compute; reflexivity).
  assert (H2 : is_Some (dir_entry TICKETS_DIR (ticket_name id2) (w_host (run steps)))).
  { vm_compute. eexists. reflexivity. }
  split; [reflexivity|].
  destruct (ticket_numbers_grow (run steps) (env 3 103) id3 third.2 (run_reachable _ steps_ok) He Hrun)
    as (Hid & _ & Hlt & _).
  split; [exact Hid|]. destruct H2 as [n Hn]. exact (proj2 (Hlt id2 n Hn eq_refl)).
Defined.

Lemma leftover_temporary_stops_acquire_witness :
  let h := set_root (replace_started (h_root (w_host (run steps))) (en_temporary (env 3 103)) []) (w_host (run steps)) in
  (enter (env 4 104) h).1 = Err (UnsafeLayout ".ccp-durable-tmp-1-0") ∧
  is_ok (enter (env 4 104) h).1 = false ∧ h_root (enter (env 4 104) h).2 = h_root h.
Proof.
  split; [by vm_compute|].
  apply (leftover_temporary_stops_acquire _ (env 3 103) (env 4 104) (root_entries (w_host (run steps))) []).
  - by apply env_example_ok.
  - by apply env_example_ok.
  - by vm_compute.
Defined.

Lemma beat_stops_status_witness :
  let h := w_host (run steps) in
  let beating := put_dir LEASES_DIR (map_insert (en_temporary (env 1 103)) (File []) (dir_entries LEASES_DIR h)) h in
  is_ok (status_with_timeout (env 3 103) h).1 = true ∧ is_ok (status_with_timeout (env 3 103) beating).1 = false.
Proof.
  split; [by vm_compute|].
  apply (beat_stops_status _ (env 1 103) (env 3 103) (dir_entries LEASES_DIR (w_host (run steps))) []).
  - by apply env_example_ok.
  - by apply env_example_ok.
  - by vm_compute.
Defined.
End Witnesses.
