(* ===== verification/ReconcileClaims.v ===== *)
(** What reconciliation ([Reconcile.v]) promises the operator: a report that is
    true whatever fails on the way, and no harm to the processes in the queue. *)
From stdpp Require Import relations.
From S2P Require Import Prelude.
From S2P Require Import RustStr.
From S2P Require Import BTree.
From S2P Require Import Canonical.
From S2P Require Import FieldCodec.
From S2P Require Import Durable.
From S2P Require Import Admission.
From S2P Require Import AdmissionProps.
From S2P Require Import AdmissionScan.
From S2P Require Import AdmissionOps.
From S2P Require Import AdmissionEnter.
From S2P Require Import Reconcile.
From S2P Require Import ReconcileProps.
From S2P Require Import AdmissionWorld.
From S2P Require Import AdmissionClaims.
Local Open Scope Z_scope.

(** The files of a host: tickets, leases and quarantine. *)
Definition tickets (h : Host) : btmap string node := dir_entries TICKETS_DIR h.
Definition leases_of (h : Host) : btmap string node := dir_entries LEASES_DIR h.
Definition quarantined (h : Host) : btmap string node := dir_entries QUARANTINE_DIR h.

Section Claims.
Context `{CT : Codec TicketMarker} `{CL : Codec LeaseMarker} `{AL : !AdmissionLaws}.

Lemma host_dirs h T L Q K s :
  host_is h T L Q K s → tickets h = T ∧ leases_of h = L ∧ quarantined h = Q.
Proof. intros []. unfold tickets, leases_of, quarantined, dir_entries. by rewrite hi_tickets, hi_leases, hi_quarantine. Qed.

(** C30. A reconciliation reports the truth, whatever lease, rename or
    synchronisation fails and wherever the time ends.  In a reachable host it names
    every selected ticket once, in order: those that are done, the one at which it
    stopped, and the rest, not attempted; or all are done, and a lock could not be
    released.  The reason of a partial report is that of the ticket at which it
    stopped.  Each classification, and there are no others, says how the ticket was
    left and which failure befell it: "quarantined" and the partial ones after the
    move are gone from the tickets and the leases with their file new in quarantine;
    the partial ones before the move still have their ticket, with the lease removed,
    or, if it could not be removed, with the lease as it was; "not_attempted" is as it
    was.  That the lease was removed by this request is only said of
    "partial_lease_sync_failed": "partial_after_lease_removal" and the two failures of
    the move mean that the ticket has no lease any more, or that it had none.
    Every selected ticket was nobody's, with a valid file and no live lease, and
    nobody ran.  Nothing but the selected tickets and their leases changes, no file
    of the quarantine is replaced, and an error that is not a partial report has
    changed nothing. *)
Theorem reconcile_reports_truth (w : World) (e : Env) (f : Faults) (ids : list string) :
  reachable w →
  let h := w_host w in
  let o := reconcile_apply_with_timeout e f ids h in
  let sorted := sort_by (λ id, id) ids in
  let told outcomes := ro_ticket_id <$> outcomes = sorted ∧ NoDup sorted ∧ h_slot h = None ∧
    outcomes_true f (tickets h) (leases_of h) (quarantined h) (tickets o.2) (leases_of o.2) (quarantined o.2) outcomes ∧
    Forall (reclaimable e (tickets h) (leases_of h) (h_locks h)) ids in
  only_touched sorted (tickets h) (leases_of h) (quarantined h) (tickets o.2) (leases_of o.2) (quarantined o.2) ∧
  match o.1 with
  | Ok report => told (ra_outcomes report) ∧ fa_release f = None ∧ ra_outcomes report = all_quarantined sorted
  | Err (Partial reason report) => told (ra_outcomes report) ∧
      ((fa_release f = Some reason ∧ ra_outcomes report = all_quarantined sorted) ∨
       ∃ done id classification rest, sorted = done ++ id :: rest ∧
         ra_outcomes report = stopped_at done id classification rest ∧ stopped_by reason classification = true)
  | Err _ => tickets o.2 = tickets h ∧ leases_of o.2 = leases_of h ∧ quarantined o.2 = quarantined h
  end.
Proof.
  assert (Hids : ∀ ids, ro_ticket_id <$> all_quarantined ids = ids).
  { intros l. unfold all_quarantined. rewrite <-list_fmap_compose. by apply list_fmap_id. }
  intros [(_ & Hr & _)|(T & L & Q & Hh & Hc & _)]%world_reachable_ok; cbn zeta.
  - destruct (reconcile_apply_fresh e f ids (w_host w) Hr) as (Hfail & Hr' & _).
    unfold tickets, leases_of, quarantined, dir_entries, root_entry, root_entries. rewrite Hr, Hr'.
    destruct Hfail as (error & -> & Hpart). split; [apply only_touched_refl|]. by destruct error.
  - destruct (reconcile_apply_ok e f ids _ _ _ _ _ _ Hh Hc) as (T' & L' & Q' & Hh' & _ & _ & Ht & Hcase).
    destruct (host_dirs _ _ _ _ _ _ Hh) as (-> & -> & ->). destruct (host_dirs _ _ _ _ _ _ Hh') as (-> & -> & ->).
    split; [done|]. destruct (reconcile_apply_with_timeout e f ids (w_host w)) as [[report|[]] h']; cbn in *; try done.
    + destruct Hcase as ([Hf E] & ? & ? & ? & ?). split_and!; try done. by rewrite E.
    + destruct Hcase as (Hshape & ? & ? & ? & ?). split_and!; try done.
      destruct Hshape as [[_ E]|(ready & id & classification & rest & E1 & E & _)]; [by rewrite E|by rewrite E, stopped_at_ids, E1].
Qed.
End Claims.

(** * Witness *)

Module Witnesses.
Import AdmissionExample.
Import AdmissionClaims.Witnesses.

(** The first process has died; the rename of its ticket works and the directory
    of tickets cannot be synchronised. *)
Definition faults : Faults :=
  {| fa_lease := λ _, false; fa_sync := λ point _, match point with SyncTickets => true | _ => false end;
     fa_move := λ _, false; fa_changed := λ _, false; fa_release := None |}.

Definition dead : World := run [(Enter, env 1 100); (Poll, env 1 102); (Crash, env 1 103)].

Lemma dead_reachable : reachable dead.
Proof.
  apply run_reachable. repeat (apply Forall_cons; split; [by apply env_example_ok|]). by apply Forall_nil.
Qed.

Definition reclaimed := Eval vm_compute in reconcile_apply_with_timeout (env 3 200) faults [id1] (w_host dead).

Lemma reconcile_reports_truth_witness :
  match reclaimed.1 with
  | Err (Partial reason report) => reason = "ticket_sync_failed" ∧
      ra_outcomes report = [outcome id1 "partial_ticket_sync_failed"]
  | _ => False
  end ∧ reclaimable (env 3 200) (tickets (w_host dead)) (leases_of (w_host dead)) (h_locks (w_host dead)) id1 ∧
  map_get (ticket_name id1) (tickets reclaimed.2) = None.
Proof.
  assert (Hrun : reconcile_apply_with_timeout (env 3 200) faults [id1] (w_host dead) = reclaimed)
    by (vm_compute; reflexivity).
  pose proof (reconcile_reports_truth dead (env 3 200) faults [id1] dead_reachable) as Hclaim.
  cbv zeta in Hclaim. rewrite Hrun in Hclaim. unfold reclaimed in *. split; [split; reflexivity|].
  destruct Hclaim as (_ & (_ & _ & _ & Htrue & Hre) & _). split; [inversion Hre; assumption|].
  specialize (Htrue 0%nat (outcome id1 "partial_ticket_sync_failed") eq_refl). apply Htrue.
Defined.
End Witnesses.
