(* ===== verification/Evaluation.v ===== *)
(** The economic evaluation of a worksheet of events ([src/src/economic_evaluation.rs]):
    medians and ranges of the hosted and the local runs of equal scope, and the
    hosted minutes they avoid. *)
From S2P Require Import Prelude.
From S2P Require Import RustStr.
Local Open Scope Z_scope.

Definition SCHEMA_VERSION : string := "economic-evaluation-v1".
Definition MEASURED_MINIMUM : nat := 10.

(** * Data *)

Inductive EventOutcome : Type := Success | Failure | Cancelled | Incomplete.

Record EvaluationEvent : Type := {
  ev_outcome : EventOutcome;
  ev_hosted_scope_id : string;
  ev_local_scope_id : string;
  ev_hosted_dispatched_at_seconds : option Z;
  ev_hosted_runner_started_at_seconds : option Z;
  ev_hosted_completed_at_seconds : option Z;
  ev_hosted_job_seconds : list Z;
  ev_retained_hosted_job_seconds : list Z;
  ev_local_started_at_seconds : option Z;
  ev_local_completed_at_seconds : option Z;
  ev_local_verified_at_seconds : option Z;
  ev_local_preparation_seconds : option Z;
}.

Record EvaluationWorksheet : Type := {
  ew_schema_version : string;
  ew_runner_rate_microusd_per_minute : Z;
  ew_events : list EvaluationEvent;
}.

Inductive EvaluationClass : Type := Measured | Exploratory.

Record OutcomeCounts : Type := {
  oc_success : Z;
  oc_failure : Z;
  oc_cancelled : Z;
  oc_incomplete : Z;
}.

Definition OutcomeCounts_default : OutcomeCounts :=
  {| oc_success := 0; oc_failure := 0; oc_cancelled := 0; oc_incomplete := 0 |}.

(** [EvaluationFault] stands for a panic. *)
Inductive EvaluationError : Type :=
  | EvaluationMessage (message : string)
  | EvaluationFault (f : fault).

Record EvaluationReport : Type := {
  er_classification : EvaluationClass;
  er_comparable_success_count : Z;
  er_excluded_event_count : Z;
  er_hosted_median_queue_seconds : Z;
  er_hosted_median_end_to_end_seconds : Z;
  er_local_median_execution_seconds : Z;
  er_local_median_end_to_end_seconds : Z;
  er_local_median_preparation_seconds : Z;
  er_hosted_range_end_to_end_seconds : Z;
  er_local_range_end_to_end_seconds : Z;
  er_avoided_rounded_hosted_minutes : Z;
  er_avoided_github_charge_microusd : Z;
  er_outcome_counts : OutcomeCounts;
}.

(** * Statistics *)

Definition required (value : option Z) (name : string) : result EvaluationError Z :=
  ok_or value (EvaluationMessage ("successful event is missing " +:+ name)).

(** [u64::div_ceil]. *)
Definition div_ceil (n d : Z) : Z := if n mod d =? 0 then n / d else n / d + 1.

Definition rounded_sum (durations : list Z) : result EvaluationError Z :=
  _ ← ensure (negb (is_nil durations || existsb (Z.eqb 0) durations))
        (EvaluationMessage "job durations must be non-zero");
  try_fold (λ total seconds,
    ok_or (checked_u64 (total + div_ceil seconds 60)) (EvaluationMessage "rounded minute total overflowed"))
    0 durations.

(** An index out of range panics. *)
Definition index (values : list Z) (i : nat) : result EvaluationError Z :=
  ok_or (values !! i) (EvaluationFault Panic).

Definition median (values : list Z) : result EvaluationError Z :=
  let values := merge_sort Z.le values in
  let upper := (length values / 2)%nat in
  let lower := ((length values - 1) / 2)%nat in
  l ← index values lower;
  u ← index values upper;
  Ok (l + (u - l) / 2).

(** [Iterator::min] and [Iterator::max]. *)
Definition minimum_of (values : list Z) : option Z :=
  match values with [] => None | x :: l => Some (foldl Z.min x l) end.
Definition maximum_of (values : list Z) : option Z :=
  match values with [] => None | x :: l => Some (foldl Z.max x l) end.

Definition range (values : list Z) : result EvaluationError Z :=
  minimum ← ok_or (minimum_of values) (EvaluationFault Panic);
  maximum ← ok_or (maximum_of values) (EvaluationFault Panic);
  Ok (maximum - minimum).

(** * The loop over the events *)

(** The mutable locals of [evaluate_worksheet]. *)
Record totals : Type := {
  to_outcome_counts : OutcomeCounts;
  to_hosted_queues : list Z;
  to_hosted_end_to_end : list Z;
  to_local_execution : list Z;
  to_local_end_to_end : list Z;
  to_local_preparation : list Z;
  to_avoided_minutes : Z;
}.

Definition totals_start : totals :=
  {| to_outcome_counts := OutcomeCounts_default; to_hosted_queues := []; to_hosted_end_to_end := [];
     to_local_execution := []; to_local_end_to_end := []; to_local_preparation := [];
     to_avoided_minutes := 0 |}.

(** [outcome_counts.success += 1] and the like; a count is at most the number of
    events in memory. *)
Definition count_outcome (o : EventOutcome) (c : OutcomeCounts) : OutcomeCounts :=
  {| oc_success := match o with Success => oc_success c + 1 | _ => oc_success c end;
     oc_failure := match o with Failure => oc_failure c + 1 | _ => oc_failure c end;
     oc_cancelled := match o with Cancelled => oc_cancelled c + 1 | _ => oc_cancelled c end;
     oc_incomplete := match o with Incomplete => oc_incomplete c + 1 | _ => oc_incomplete c end |}.

Definition success_step (t : totals) (e : EvaluationEvent) : result EvaluationError totals :=
  _ ← ensure (negb (is_empty (ev_hosted_scope_id e) || is_empty (ev_local_scope_id e)))
        (EvaluationMessage "successful event scope IDs must be non-empty");
  _ ← ensure (ev_hosted_scope_id e =? ev_local_scope_id e)%string
        (EvaluationMessage "hosted_scope_id must equal local_scope_id");
  hosted_dispatched ← required (ev_hosted_dispatched_at_seconds e) "hosted dispatch";
  hosted_started ← required (ev_hosted_runner_started_at_seconds e) "hosted runner start";
  hosted_completed ← required (ev_hosted_completed_at_seconds e) "hosted completion";
  local_started ← required (ev_local_started_at_seconds e) "local start";
  local_completed ← required (ev_local_completed_at_seconds e) "local completion";
  local_verified ← required (ev_local_verified_at_seconds e) "local verification";
  preparation ← required (ev_local_preparation_seconds e) "local preparation";
  _ ← ensure (negb ((hosted_dispatched >? hosted_started) || (hosted_started >? hosted_completed)
                    || (local_started >? local_completed) || (local_completed >? local_verified)))
        (EvaluationMessage "timestamps must be monotonic");
  baseline ← rounded_sum (ev_hosted_job_seconds e);
  retained ← rounded_sum (ev_retained_hosted_job_seconds e);
  event_avoided_minutes ←
    ok_or (difference ← checked_u64 (baseline - retained); if difference >? 0 then Some difference else None)
      (EvaluationMessage "successful event must avoid rounded hosted minutes");
  avoided_minutes ← ok_or (checked_u64 (to_avoided_minutes t + event_avoided_minutes))
    (EvaluationMessage "avoided minute total overflowed");
  Ok {| to_outcome_counts := count_outcome Success (to_outcome_counts t);
        to_hosted_queues := to_hosted_queues t ++ [hosted_started - hosted_dispatched];
        to_hosted_end_to_end := to_hosted_end_to_end t ++ [hosted_completed - hosted_dispatched];
        to_local_execution := to_local_execution t ++ [local_completed - local_started];
        to_local_end_to_end := to_local_end_to_end t ++ [local_verified - local_started];
        to_local_preparation := to_local_preparation t ++ [preparation];
        to_avoided_minutes := avoided_minutes |}.

Definition excluded_step (t : totals) (o : EventOutcome) : totals :=
  {| to_outcome_counts := count_outcome o (to_outcome_counts t); to_hosted_queues := to_hosted_queues t;
     to_hosted_end_to_end := to_hosted_end_to_end t; to_local_execution := to_local_execution t;
     to_local_end_to_end := to_local_end_to_end t; to_local_preparation := to_local_preparation t;
     to_avoided_minutes := to_avoided_minutes t |}.

Definition event_step (t : totals) (e : EvaluationEvent) : result EvaluationError totals :=
  match ev_outcome e with
  | Success => success_step t e
  | o => Ok (excluded_step t o)
  end.

Definition evaluate_worksheet (w : EvaluationWorksheet) : result EvaluationError EvaluationReport :=
  _ ← ensure (ew_schema_version w =? SCHEMA_VERSION)%string
        (EvaluationMessage ("unsupported worksheet schema version: " +:+ ew_schema_version w));
  _ ← ensure (negb (is_nil (ew_events w))) (EvaluationMessage "worksheet must contain events");
  t ← try_fold event_step totals_start (ew_events w);
  _ ← ensure (negb (is_nil (to_hosted_end_to_end t))) (EvaluationMessage "worksheet has no successful events");
  let comparable_success_count := Z.of_nat (length (to_hosted_end_to_end t)) in
  let excluded_event_count := Z.of_nat (length (ew_events w)) - comparable_success_count in
  avoided_github_charge_microusd ←
    ok_or (checked_u64 (to_avoided_minutes t * ew_runner_rate_microusd_per_minute w))
      (EvaluationMessage "avoided GitHub charge overflowed");
  hosted_median_queue ← median (to_hosted_queues t);
  hosted_median ← median (to_hosted_end_to_end t);
  local_median_execution ← median (to_local_execution t);
  local_median ← median (to_local_end_to_end t);
  local_median_preparation ← median (to_local_preparation t);
  hosted_range ← range (to_hosted_end_to_end t);
  local_range ← range (to_local_end_to_end t);
  Ok {| er_classification := if (MEASURED_MINIMUM <=? length (to_hosted_end_to_end t))%nat
                             then Measured else Exploratory;
        er_comparable_success_count := comparable_success_count;
        er_excluded_event_count := excluded_event_count;
        er_hosted_median_queue_seconds := hosted_median_queue;
        er_hosted_median_end_to_end_seconds := hosted_median;
        er_local_median_execution_seconds := local_median_execution;
        er_local_median_end_to_end_seconds := local_median;
        er_local_median_preparation_seconds := local_median_preparation;
        er_hosted_range_end_to_end_seconds := hosted_range;
        er_local_range_end_to_end_seconds := local_range;
        er_avoided_rounded_hosted_minutes := to_avoided_minutes t;
        er_avoided_github_charge_microusd := avoided_github_charge_microusd;
        er_outcome_counts := to_outcome_counts t |}.

(** * The account of a worksheet *)

(** The fields of an event are [u64]s; deserialisation rejects anything else. *)
Definition event_typed (e : EvaluationEvent) : Prop :=
  Forall (λ o, ∀ z, o = Some z → u64 z)
    [ev_hosted_dispatched_at_seconds e; ev_hosted_runner_started_at_seconds e; ev_hosted_completed_at_seconds e;
     ev_local_started_at_seconds e; ev_local_completed_at_seconds e; ev_local_verified_at_seconds e;
     ev_local_preparation_seconds e] ∧
  Forall u64 (ev_hosted_job_seconds e) ∧ Forall u64 (ev_retained_hosted_job_seconds e).

Definition worksheet_typed (w : EvaluationWorksheet) : Prop :=
  u64 (ew_runner_rate_microusd_per_minute w) ∧ Forall event_typed (ew_events w).

Definition sum (l : list Z) : Z := foldr Z.add 0 l.

(** Started minutes of the jobs; defined for jobs that took some time. *)
Definition minutes (jobs : list Z) (m : Z) : Prop :=
  jobs ≠ [] ∧ Forall (λ s, 0 < s) jobs ∧ m = sum ((λ s, (s + 59) / 60) <$> jobs) ∧ m ≤ u64_max.

(** What one successful event contributes. *)
Record contribution : Type := {
  co_queue : Z;
  co_hosted : Z;
  co_execution : Z;
  co_local : Z;
  co_preparation : Z;
  co_avoided : Z;
}.

Record comparable (e : EvaluationEvent) (c : contribution) : Prop := {
  cm_scope : ev_hosted_scope_id e = ev_local_scope_id e ∧ ev_local_scope_id e ≠ "";
  cm_hosted : ∃ dispatched started completed,
    ev_hosted_dispatched_at_seconds e = Some dispatched ∧ ev_hosted_runner_started_at_seconds e = Some started ∧
    ev_hosted_completed_at_seconds e = Some completed ∧ dispatched ≤ started ≤ completed ∧
    co_queue c = started - dispatched ∧ co_hosted c = completed - dispatched;
  cm_local : ∃ started completed verified,
    ev_local_started_at_seconds e = Some started ∧ ev_local_completed_at_seconds e = Some completed ∧
    ev_local_verified_at_seconds e = Some verified ∧ started ≤ completed ≤ verified ∧
    co_execution c = completed - started ∧ co_local c = verified - started;
  cm_preparation : ev_local_preparation_seconds e = Some (co_preparation c);
  cm_avoided : ∃ baseline retained,
    minutes (ev_hosted_job_seconds e) baseline ∧ minutes (ev_retained_hosted_job_seconds e) retained ∧
    co_avoided c = baseline - retained ∧ 0 < co_avoided c;
}.

(** The middle of a list, or the midpoint of its two middles rounded down. *)
Definition is_median (l : list Z) (m : Z) : Prop :=
  ∃ s a b, s ≡ₚ l ∧ Sorted Z.le s ∧ s !! ((length s - 1) / 2)%nat = Some a ∧ s !! (length s / 2)%nat = Some b ∧
    m = (a + b) / 2.

Definition is_range (l : list Z) (d : Z) : Prop :=
  ∃ a b, a ∈ l ∧ b ∈ l ∧ (∀ x, x ∈ l → a ≤ x ≤ b) ∧ d = b - a.

Definition successful (e : EvaluationEvent) : Prop := ev_outcome e = Success.
#[global] Instance EventOutcome_eq_dec : EqDecision EventOutcome.
Proof. solve_decision. Defined.
#[global] Instance successful_dec e : Decision (successful e).
Proof. unfold successful. apply _. Defined.

Definition count (o : EventOutcome) (es : list EvaluationEvent) : Z :=
  Z.of_nat (length (filter (λ e, ev_outcome e = o) es)).

Record evaluated (w : EvaluationWorksheet) (r : EvaluationReport) (cs : list contribution) : Prop := {
  el_schema : ew_schema_version w = SCHEMA_VERSION;
  el_comparable : Forall2 comparable (filter successful (ew_events w)) cs;
  el_some : cs ≠ [];
  el_class : er_classification r = if bool_decide (10 ≤ length cs)%nat then Measured else Exploratory;
  el_counted : er_comparable_success_count r = Z.of_nat (length cs);
  el_excluded : er_comparable_success_count r + er_excluded_event_count r = Z.of_nat (length (ew_events w));
  el_queue : is_median (co_queue <$> cs) (er_hosted_median_queue_seconds r);
  el_hosted : is_median (co_hosted <$> cs) (er_hosted_median_end_to_end_seconds r);
  el_execution : is_median (co_execution <$> cs) (er_local_median_execution_seconds r);
  el_local : is_median (co_local <$> cs) (er_local_median_end_to_end_seconds r);
  el_preparation : is_median (co_preparation <$> cs) (er_local_median_preparation_seconds r);
  el_hosted_range : is_range (co_hosted <$> cs) (er_hosted_range_end_to_end_seconds r);
  el_local_range : is_range (co_local <$> cs) (er_local_range_end_to_end_seconds r);
  el_avoided : er_avoided_rounded_hosted_minutes r = sum (co_avoided <$> cs);
  el_charge : er_avoided_github_charge_microusd r
              = er_avoided_rounded_hosted_minutes r * ew_runner_rate_microusd_per_minute w;
  el_bounds : u64 (er_avoided_rounded_hosted_minutes r) ∧ u64 (er_avoided_github_charge_microusd r);
  el_counts : er_outcome_counts r =
    {| oc_success := count Success (ew_events w); oc_failure := count Failure (ew_events w);
       oc_cancelled := count Cancelled (ew_events w); oc_incomplete := count Incomplete (ew_events w) |};
}.

(** * Lemmas *)

Lemma sum_snoc l x : sum (l ++ [x]) = sum l + x.
Proof. unfold sum. induction l as [|y l IH]; cbn in *; lia. Qed.

Lemma sum_nonneg l : Forall (λ x, 0 ≤ x) l → 0 ≤ sum l.
Proof. unfold sum. induction 1; cbn in *; lia. Qed.

Lemma div_ceil_sixty s : 0 ≤ s → div_ceil s 60 = (s + 59) / 60.
Proof.
  intros Hs. unfold div_ceil. pose proof (Z.div_mod s 60 ltac:(done)). pose proof (Z.mod_pos_bound s 60 ltac:(done)).
  destruct (s mod 60 =? 0) eqn:E; bool_prop.
  - apply (Z.div_unique _ _ _ 59); lia.
  - apply (Z.div_unique _ _ _ (s mod 60 - 1)); lia.
Qed.

Lemma rounded_loop l t m :
  Forall (λ s, 0 ≤ s) l → 0 ≤ t →
  try_fold (λ total seconds,
    ok_or (checked_u64 (total + div_ceil seconds 60)) (EvaluationMessage "rounded minute total overflowed")) t l = Ok m ↔
  m = t + sum ((λ s, (s + 59) / 60) <$> l) ∧ (l = [] ∨ m ≤ u64_max).
Proof.
  intros Hl. revert t. induction Hl as [|s l Hs Hl IH]; intros t Ht.
  { cbn. split; [intros [= <-]; split; [lia|by left]|intros [-> _]; f_equal; lia]. }
  cbn [try_fold fmap list_fmap]. rewrite bind_ok. setoid_rewrite ok_or_ok. setoid_rewrite checked_u64_some.
  rewrite div_ceil_sixty by done.
  assert (0 ≤ (s + 59) / 60) by (apply Z.div_pos; lia).
  assert (Hrest : 0 ≤ sum ((λ s, (s + 59) / 60) <$> l)).
  { apply sum_nonneg, Forall_fmap. eapply Forall_impl; [exact Hl|]. intros x Hx. cbn in *. apply Z.div_pos; lia. }
  assert (Hsum : sum ((s + 59) / 60 :: ((λ s, (s + 59) / 60) <$> l)) = (s + 59) / 60 + sum ((λ s, (s + 59) / 60) <$> l))
    by done.
  rewrite Hsum. unfold u64. split.
  - intros (a & [-> Hu] & Hr). apply IH in Hr as [-> Hr]; [|lia]. split; [lia|]. right.
    destruct Hr as [->|Hr]; [cbn in *; lia|lia].
  - intros [-> [?|Hle]]; [done|]. exists (t + (s + 59) / 60). split; [split; [done|lia]|].
    apply IH; [lia|]. split; [lia|]. right. lia.
Qed.

Lemma rounded_sum_ok l m : Forall u64 l → rounded_sum l = Ok m ↔ minutes l m.
Proof.
  intros Hu. unfold rounded_sum, minutes.
  assert (Hnn : Forall (λ s, 0 ≤ s) l) by (eapply Forall_impl; [exact Hu|]; intros x [? ?]; done).
  destruct (negb _) eqn:E; cbn [ensure mbind result_bind].
  - bool_prop. rename select (existsb _ _ = false) into Hz. rename select (is_nil _ = false) into Hne.
    apply existsb_false in Hz. rewrite rounded_loop by done.
    assert (Hpos : Forall (λ s, 0 < s) l).
    { rewrite Forall_forall in *. intros x Hx. specialize (Hz x Hx). specialize (Hnn x Hx).
      apply Z.eqb_neq in Hz. cbn in *. lia. }
    destruct l as [|x l]; [done|]. rewrite Z.add_0_l. naive_solver.
  - split; [done|]. intros (Hne & Hpos & _). apply negb_false_iff, orb_true_iff in E as [E|E].
    + by destruct l.
    + apply existsb_exists in E as (x & Hx & E). apply list_elem_of_In in Hx. rewrite Forall_forall in Hpos.
      specialize (Hpos x Hx). apply Z.eqb_eq in E. lia.
Qed.

Lemma median_ok l m : median l = Ok m ↔ is_median l m.
Proof.
  unfold median, is_median, index. split.
  - intros Hm. res_inv. subst. exists (merge_sort Z.le l). do 2 eexists.
    split_and!; [apply merge_sort_Permutation|apply Sorted_merge_sort; intros ? ?; lia|done|done|].
    match goal with |- ?a + (?b - ?a) / 2 = _ => replace (a + b) with (b - a + a * 2) by lia end.
    rewrite Z.div_add by done. lia.
  - intros (s & a & b & Hp & Hs & Ha & Hb & ->).
    assert (E : merge_sort Z.le l = s).
    { apply (Sorted_unique Z.le); [apply Sorted_merge_sort; intros ? ?; lia|done|].
      by rewrite merge_sort_Permutation. }
    rewrite E, Ha, Hb. cbn. f_equal.
    replace (a + b) with (b - a + a * 2) by lia. rewrite Z.div_add by done. lia.
Qed.

Lemma fold_min l x : foldl Z.min x l ∈ x :: l ∧ ∀ y, y ∈ x :: l → foldl Z.min x l ≤ y.
Proof.
  revert x. induction l as [|z l IH]; intros x; cbn; [set_solver by lia|].
  destruct (IH (Z.min x z)) as [Hin Hle]. split.
  - destruct (Z.min_spec x z) as [[_ E]|[_ E]]; rewrite E in *; set_solver.
  - intros y Hy. specialize (Hle (Z.min x z) ltac:(left)) as H0.
    destruct (decide (y ∈ l)); [apply Hle; by right|]. set_solver by lia.
Qed.

Lemma fold_max l x : foldl Z.max x l ∈ x :: l ∧ ∀ y, y ∈ x :: l → y ≤ foldl Z.max x l.
Proof.
  revert x. induction l as [|z l IH]; intros x; cbn; [set_solver by lia|].
  destruct (IH (Z.max x z)) as [Hin Hle]. split.
  - destruct (Z.max_spec x z) as [[_ E]|[_ E]]; rewrite E in *; set_solver.
  - intros y Hy. specialize (Hle (Z.max x z) ltac:(left)) as H0.
    destruct (decide (y ∈ l)); [apply Hle; by right|]. set_solver by lia.
Qed.

Lemma range_ok l d : range l = Ok d ↔ is_range l d.
Proof.
  unfold range, is_range. destruct l as [|x l]; cbn.
  { split; [done|]. intros (a & _ & ?%elem_of_nil & _). done. }
  destruct (fold_min l x) as [Hmi Hlo]. destruct (fold_max l x) as [Hma Hhi]. split.
  - intros [= <-]. exists (foldl Z.min x l), (foldl Z.max x l). naive_solver.
  - intros (a & b & Ha & Hb & Hab & ->). f_equal.
    pose proof (Hlo a Ha). pose proof (Hhi b Hb). pose proof (Hab _ Hmi). pose proof (Hab _ Hma). lia.
Qed.

Lemma avoided_ok baseline retained d :
  0 ≤ baseline ≤ u64_max → 0 ≤ retained →
  (difference ← checked_u64 (baseline - retained); if difference >? 0 then Some difference else None) = Some d ↔
  d = baseline - retained ∧ 0 < d.
Proof.
  intros Hb Hr. rewrite bind_Some. setoid_rewrite checked_u64_some. unfold u64. split.
  - intros (d' & [-> _] & Hd). destruct (_ >? 0) eqn:E; [|done]. injection Hd as <-.
    rewrite Z.gtb_ltb in E. bool_prop. lia.
  - intros (-> & Hpos). exists (baseline - retained). split; [lia|]. by rewrite (proj2 (Z.gtb_lt _ _)).
Qed.

(** ** The loop *)

Definition push (t : totals) (c : contribution) : totals :=
  {| to_outcome_counts := count_outcome Success (to_outcome_counts t);
     to_hosted_queues := to_hosted_queues t ++ [co_queue c];
     to_hosted_end_to_end := to_hosted_end_to_end t ++ [co_hosted c];
     to_local_execution := to_local_execution t ++ [co_execution c];
     to_local_end_to_end := to_local_end_to_end t ++ [co_local c];
     to_local_preparation := to_local_preparation t ++ [co_preparation c];
     to_avoided_minutes := to_avoided_minutes t + co_avoided c |}.

Lemma minutes_bound l m : minutes l m → 0 ≤ m ≤ u64_max.
Proof.
  intros (_ & Hp & -> & Hle). split; [|done]. apply sum_nonneg, Forall_fmap.
  eapply Forall_impl; [exact Hp|]. intros x Hx. cbn in *. apply Z.div_pos; lia.
Qed.

Lemma success_step_sound t e t' :
  event_typed e → success_step t e = Ok t' →
  ∃ c, comparable e c ∧ u64 (to_avoided_minutes t + co_avoided c) ∧ t' = push t c.
Proof.
  intros (_ & Hb & Hr) Hs. unfold success_step, required in Hs. res_inv. bool_prop.
  rename select (rounded_sum (ev_hosted_job_seconds e) = _) into Hbase. apply rounded_sum_ok in Hbase; [|done].
  rename select (rounded_sum (ev_retained_hosted_job_seconds e) = _) into Hret. apply rounded_sum_ok in Hret; [|done].
  rename select (mbind _ _ = Some _) into Ha.
  apply avoided_ok in Ha as [-> Hpos]; [|by apply (minutes_bound (ev_hosted_job_seconds e))
    |by apply (minutes_bound (ev_retained_hosted_job_seconds e))].
  rename select (checked_u64 _ = Some _) into Hc. apply checked_u64_some in Hc as [-> Hc].
  rewrite !Z.gtb_ltb in *. bool_prop.
  eexists {| co_queue := _; co_hosted := _; co_execution := _; co_local := _; co_preparation := _; co_avoided := _ |}.
  split; [|split; [exact Hc|by subst]]. constructor; cbn [co_queue co_hosted co_execution co_local co_preparation co_avoided].
  - split; [done|]. intros E. rename select (is_empty (ev_local_scope_id e) = false) into Hem. by rewrite E in Hem.
  - do 3 eexists. split_and!; try done.
  - do 3 eexists. split_and!; try done.
  - done.
  - do 2 eexists. split_and!; try done.
Qed.

Lemma success_step_complete t e c :
  event_typed e → comparable e c → u64 (to_avoided_minutes t + co_avoided c) → success_step t e = Ok (push t c).
Proof.
  intros (_ & Hb & Hr) [[Hsc Hne] (d & s & k & Ed & Es & Ek & Hds & Eq & Eh) (l & lc & lv & El & Elc & Elv & Hl & Ex & Et)
    Ep (b & r & Hbm & Hrm & Ea & Hpos)] Hu.
  unfold success_step, required, is_empty. rewrite Hsc, (proj2 (String.eqb_neq _ _) Hne), String.eqb_refl.
  rewrite Ed, Es, Ek, El, Elc, Elv, Ep. cbn. rewrite !Z.gtb_ltb, !(proj2 (Z.ltb_ge _ _)) by lia. cbn.
  rewrite (proj2 (rounded_sum_ok _ _ Hb) Hbm). cbn. rewrite (proj2 (rounded_sum_ok _ _ Hr) Hrm). cbn.
  pose proof (minutes_bound _ _ Hbm). pose proof (minutes_bound _ _ Hrm). unfold push.
  rewrite (proj2 (avoided_ok b r (co_avoided c) ltac:(lia) ltac:(lia))) by (split; [done|lia]). cbn.
  rewrite (proj2 (checked_u64_some _ _)) by done. cbn. by rewrite Eq, Eh, Ex, Et.
Qed.

(** What the totals are after the events [es]. *)
Record totals_of (es : list EvaluationEvent) (cs : list contribution) (t : totals) : Prop := {
  tt_queues : to_hosted_queues t = co_queue <$> cs;
  tt_hosted : to_hosted_end_to_end t = co_hosted <$> cs;
  tt_execution : to_local_execution t = co_execution <$> cs;
  tt_local : to_local_end_to_end t = co_local <$> cs;
  tt_preparation : to_local_preparation t = co_preparation <$> cs;
  tt_avoided : to_avoided_minutes t = sum (co_avoided <$> cs);
  tt_counts : to_outcome_counts t =
    {| oc_success := count Success es; oc_failure := count Failure es;
       oc_cancelled := count Cancelled es; oc_incomplete := count Incomplete es |};
}.

Lemma count_snoc o es e : count o (es ++ [e]) = if bool_decide (ev_outcome e = o) then count o es + 1 else count o es.
Proof.
  unfold count. rewrite filter_app, length_app, filter_cons, filter_nil. destruct (decide _) as [E|E].
  - rewrite bool_decide_true by done. cbn. lia.
  - rewrite bool_decide_false by done. cbn. lia.
Qed.

Lemma counts_snoc es e c :
  c = {| oc_success := count Success es; oc_failure := count Failure es;
         oc_cancelled := count Cancelled es; oc_incomplete := count Incomplete es |} →
  count_outcome (ev_outcome e) c =
  {| oc_success := count Success (es ++ [e]); oc_failure := count Failure (es ++ [e]);
     oc_cancelled := count Cancelled (es ++ [e]); oc_incomplete := count Incomplete (es ++ [e]) |}.
Proof. intros ->. unfold count_outcome. rewrite !count_snoc. by destruct (ev_outcome e). Qed.

Lemma push_totals es cs t e c :
  ev_outcome e = Success → totals_of es cs t → totals_of (es ++ [e]) (cs ++ [c]) (push t c).
Proof.
  intros Eo [Eq Eh Ex El Ep Ea Ec]. constructor; rewrite ?fmap_app; cbn [push to_hosted_queues to_hosted_end_to_end
    to_local_execution to_local_end_to_end to_local_preparation to_avoided_minutes fmap list_fmap];
    rewrite ?sum_snoc, ?Eq, ?Eh, ?Ex, ?El, ?Ep, ?Ea; try done.
  rewrite <-(counts_snoc es e _ Ec). by rewrite Eo.
Qed.

Lemma excluded_totals es cs t e : totals_of es cs t → totals_of (es ++ [e]) cs (excluded_step t (ev_outcome e)).
Proof. intros [Eq Eh Ex El Ep Ea Ec]. constructor; [done..|]. by apply counts_snoc. Qed.

Lemma avoided_nonneg es cs : Forall2 comparable es cs → Forall (λ x, 0 ≤ x) (co_avoided <$> cs).
Proof.
  intros Hf. apply Forall_fmap. induction Hf as [|e c es cs [_ _ _ _ (b & r & _ & _ & _ & Hpos)] _ IH]; constructor; [|done].
  cbn. lia.
Qed.

Lemma event_loop_sound es t :
  Forall event_typed es → try_fold event_step totals_start es = Ok t →
  ∃ cs, Forall2 comparable (filter successful es) cs ∧ totals_of es cs t ∧ (u64 (to_avoided_minutes t)).
Proof.
  intros Hty. intros Hf. revert Hty. revert Hf.
  apply (try_fold_inv (λ es t, Forall event_typed es → ∃ cs, Forall2 comparable (filter successful es) cs ∧
    totals_of es cs t ∧ u64 (to_avoided_minutes t))).
  - intros _. exists []. split_and!; [constructor|done|by vm_compute].
  - intros pre e t1 t2 IH Hstep Hty. apply Forall_app in Hty as [Hpre [He _]%Forall_cons_1].
    destruct (IH Hpre) as (cs & Hcs & Ht & Hu). rewrite filter_app, filter_cons, filter_nil.
    destruct (decide (successful e)) as [Hs|Hs].
    + unfold event_step in Hstep. rewrite Hs in Hstep. apply success_step_sound in Hstep as (c & Hc & Hu' & ->); [|done].
      exists (cs ++ [c]). split_and!; [by apply Forall2_app; [|constructor]|by apply push_totals|done].
    + assert (t2 = excluded_step t1 (ev_outcome e)) as ->.
      { unfold event_step in Hstep. unfold successful in Hs. destruct (ev_outcome e); [done|by injection Hstep as <-..]. }
      exists cs. rewrite app_nil_r. split_and!; [done|by apply excluded_totals|done].
Qed.

Lemma event_loop_complete es cs :
  Forall event_typed es → Forall2 comparable (filter successful es) cs → sum (co_avoided <$> cs) ≤ u64_max →
  ∃ t, try_fold event_step totals_start es = Ok t ∧ totals_of es cs t.
Proof.
  revert cs. induction es as [|e es IH] using rev_ind; intros cs Hty Hcs Hle.
  { apply Forall2_nil_inv_l in Hcs as ->. by exists totals_start. }
  apply Forall_app in Hty as [Hpre [He _]%Forall_cons_1]. rewrite filter_app, filter_cons, filter_nil in Hcs.
  destruct (decide (successful e)) as [Hs|Hs].
  - apply Forall2_app_inv_l in Hcs as (cs1 & cs2 & Hcs1 & Hcs2 & ->).
    apply Forall2_cons_inv_l in Hcs2 as (c & cs3 & Hc & Hn & ->). apply Forall2_nil_inv_l in Hn as ->.
    rewrite fmap_app in Hle. cbn in Hle. rewrite sum_snoc in Hle.
    pose proof (sum_nonneg _ (avoided_nonneg _ _ Hcs1)). destruct (cm_avoided _ _ Hc) as (_ & _ & _ & _ & _ & Hpos).
    destruct (IH cs1) as (t & Ht & Hof); [done|done|lia|]. rewrite try_fold_app, Ht. cbn. unfold event_step. rewrite Hs.
    rewrite (success_step_complete t e c); [|done|done|rewrite (tt_avoided _ _ _ Hof); unfold u64; lia].
    exists (push t c). split; [done|]. by apply push_totals.
  - rewrite app_nil_r in Hcs. destruct (IH cs) as (t & Ht & Hof); [done..|]. rewrite try_fold_app, Ht. cbn.
    exists (excluded_step t (ev_outcome e)). split; [|by apply excluded_totals].
    unfold event_step, successful in *. by destruct (ev_outcome e).
Qed.

Lemma median_total l : l ≠ [] → ∃ m, median l = Ok m.
Proof.
  intros Hne. unfold median, index.
  assert (Hl : length (merge_sort Z.le l) = length l) by by rewrite merge_sort_Permutation.
  assert (Hlt : (0 < length l)%nat) by (destruct l; [done|cbn; lia]).
  assert (Hidx : ∀ i, (i < length l)%nat → ∃ x, merge_sort Z.le l !! i = Some x)
    by (intros i Hi; apply lookup_lt_is_Some; by rewrite Hl).
  destruct (Hidx ((length l - 1) / 2)%nat) as [a Ha]; [apply Nat.Div0.div_lt_upper_bound; lia|].
  destruct (Hidx (length l / 2)%nat) as [b Hb]; [apply Nat.Div0.div_lt_upper_bound; lia|].
  rewrite Hl, Ha, Hb. by eexists.
Qed.

Lemma range_total l : l ≠ [] → ∃ d, range l = Ok d.
Proof. destruct l; [done|]. by eexists. Qed.

Lemma if_measured (n : nat) :
  (if (MEASURED_MINIMUM <=? n)%nat then Measured else Exploratory) =
  (if bool_decide (10 ≤ n)%nat then Measured else Exploratory).
Proof. unfold MEASURED_MINIMUM. case_bool_decide; destruct (10 <=? n)%nat eqn:E; bool_prop; (done || lia). Qed.

(** ** No panic *)

(** [msg_only] shows that a sequence of steps whose errors are all messages does
    not panic. *)
Ltac msg_only := repeat (err_inv; match goal with
  | H : try_fold _ _ _ = Err _ |- _ => apply try_fold_err in H as (? & ? & H)
  | H : EvaluationMessage _ = EvaluationFault _ |- _ => discriminate H
  | H : required _ _ = Err _ |- _ => unfold required in H
  | H : rounded_sum _ = Err _ |- _ => unfold rounded_sum in H
  end).

Lemma event_step_no_fault t e f : event_step t e ≠ Err (EvaluationFault f).
Proof.
  unfold event_step. destruct (ev_outcome e); try done. unfold success_step. intros H. msg_only.
Qed.

Lemma event_loop_lengths es t :
  try_fold event_step totals_start es = Ok t →
  let n := length (to_hosted_end_to_end t) in
  length (to_hosted_queues t) = n ∧ length (to_local_execution t) = n ∧ length (to_local_end_to_end t) = n ∧
  length (to_local_preparation t) = n.
Proof.
  apply (try_fold_inv (λ _ t, let n := length (to_hosted_end_to_end t) in
    length (to_hosted_queues t) = n ∧ length (to_local_execution t) = n ∧ length (to_local_end_to_end t) = n ∧
    length (to_local_preparation t) = n)); [done|].
  intros pre e t1 t2 (H1 & H2 & H3 & H4) Hs. unfold event_step, success_step in Hs.
  destruct (ev_outcome e); res_inv; subst t2; cbn; rewrite ?length_app, ?H1, ?H2, ?H3, ?H4; done.
Qed.

(** * Theorems *)

(** The evaluation of a worksheet succeeds exactly when the successful events
    are comparable, each of them avoids hosted minutes, and the totals fit their
    type; then the report is the account of the worksheet: every event is either
    compared or counted as excluded, medians and ranges are those of the compared
    events, a job counts its started minutes, and the charge is the minutes times
    the rate. *)
Theorem evaluation_exact (w : EvaluationWorksheet) (r : EvaluationReport) :
  worksheet_typed w → evaluate_worksheet w = Ok r ↔ ∃ cs, evaluated w r cs.
Proof.
  intros [Hrate Hty]. split.
  - unfold evaluate_worksheet. intros Hr. res_inv. bool_prop.
    rename select (try_fold _ _ _ = _) into Hl. apply event_loop_sound in Hl as (cs & Hcs & [] & Hu); [|done].
    rename select (checked_u64 _ = Some _) into Hc. apply checked_u64_some in Hc as [-> Hc].
    repeat match goal with
    | H : median _ = Ok _ |- _ => apply median_ok in H
    | H : range _ = Ok _ |- _ => apply range_ok in H
    end.
    exists cs. subst r. constructor; cbn [er_classification er_comparable_success_count er_excluded_event_count]; try (cbn; congruence || done).
    all: rewrite ?tt_hosted0, ?length_fmap in *; try done.
    + by intros ->.
    + apply if_measured.
    + lia.
  - intros (cs & [Es Hcs Hne Ecl Eco Eex Mq Mh Mx Ml Mp Rh Rl Ea Ech [Hu1 Hu2] Eoc]).
    rewrite Ea in Hu1. destruct (event_loop_complete _ _ Hty Hcs) as (t & Ht & [Tq Th Tx Tl Tp Ta Tc]); [apply Hu1|].
    apply median_ok in Mq, Mh, Mx, Ml, Mp. apply range_ok in Rh, Rl. unfold evaluate_worksheet.
    assert (Hev : is_nil (ew_events w) = false)
      by (destruct (ew_events w); [apply Forall2_nil_inv_l in Hcs; by subst|done]).
    assert (Hn : is_nil (co_hosted <$> cs) = false) by by destruct cs.
    rewrite Es, String.eqb_refl, Ht, Hev. cbn [negb ensure mbind result_bind].
    rewrite Th, Tq, Tx, Tl, Tp, Ta, <-Ea, length_fmap, Hn. rewrite Ech, Ea in Hu2. cbn [negb ensure mbind result_bind].
    rewrite Ea, (proj2 (checked_u64_some _ _)) by done. cbn [ok_or mbind result_bind].
    rewrite Mq, Mh, Mx, Ml, Mp, Rh, Rl. cbn [mbind result_bind]. f_equal.
    destruct r; cbn in *. subst. f_equal; [apply if_measured|lia|done].
Qed.

(** An evaluation never panics: the medians and ranges are only taken of lists
    that are not empty. *)
Theorem evaluation_never_panics (w : EvaluationWorksheet) (f : fault) :
  evaluate_worksheet w ≠ Err (EvaluationFault f).
Proof.
  unfold evaluate_worksheet. intros H. apply bind_err in H as [H|(? & _ & H)]; [by msg_only|].
  apply bind_err in H as [H|(? & _ & H)]; [by msg_only|].
  apply bind_err in H as [H|(t & Hl & H)].
  { apply try_fold_err in H as (t & e & H). by apply event_step_no_fault in H. }
  apply event_loop_lengths in Hl as (L1 & L2 & L3 & L4).
  apply bind_err in H as [H|(? & Hne & H)]; [by msg_only|]. apply ensure_ok in Hne.
  assert (Hnil : ∀ l : list Z, length l = length (to_hosted_end_to_end t) → l ≠ []).
  { intros [|] E ?; [|done]. by destruct (to_hosted_end_to_end t). }
  destruct (median_total _ (Hnil _ L1)) as [m1 E1]. destruct (median_total _ (Hnil _ eq_refl)) as [m2 E2].
  destruct (median_total _ (Hnil _ L2)) as [m3 E3]. destruct (median_total _ (Hnil _ L3)) as [m4 E4].
  destruct (median_total _ (Hnil _ L4)) as [m5 E5]. destruct (range_total _ (Hnil _ eq_refl)) as [r1 E6].
  destruct (range_total _ (Hnil _ L3)) as [r2 E7]. rewrite E1, E2, E3, E4, E5, E6, E7 in H. by msg_only.
Qed.

(** * Example *)

Module EvaluationExample.

Definition success (at_ hosted local : Z) : EvaluationEvent :=
  {| ev_outcome := Success; ev_hosted_scope_id := "fmt+test"; ev_local_scope_id := "fmt+test";
     ev_hosted_dispatched_at_seconds := Some at_; ev_hosted_runner_started_at_seconds := Some (at_ + 20);
     ev_hosted_completed_at_seconds := Some (at_ + 20 + hosted); ev_hosted_job_seconds := [hosted; 30];
     ev_retained_hosted_job_seconds := [30]; ev_local_started_at_seconds := Some (at_ + 5);
     ev_local_completed_at_seconds := Some (at_ + 5 + local);
     ev_local_verified_at_seconds := Some (at_ + 7 + local); ev_local_preparation_seconds := Some 3 |}.

Definition cancelled : EvaluationEvent :=
  {| ev_outcome := Cancelled; ev_hosted_scope_id := ""; ev_local_scope_id := "";
     ev_hosted_dispatched_at_seconds := None; ev_hosted_runner_started_at_seconds := None;
     ev_hosted_completed_at_seconds := None; ev_hosted_job_seconds := []; ev_retained_hosted_job_seconds := [];
     ev_local_started_at_seconds := None; ev_local_completed_at_seconds := None;
     ev_local_verified_at_seconds := None; ev_local_preparation_seconds := None |}.

Definition worksheet : EvaluationWorksheet :=
  {| ew_schema_version := SCHEMA_VERSION; ew_runner_rate_microusd_per_minute := 6000;
     ew_events := [success 1000 100 40; cancelled; success 2000 61 51] |}.

Definition report : EvaluationReport :=
  {| er_classification := Exploratory; er_comparable_success_count := 2; er_excluded_event_count := 1;
     er_hosted_median_queue_seconds := 20; er_hosted_median_end_to_end_seconds := 100;
     er_local_median_execution_seconds := 45; er_local_median_end_to_end_seconds := 47;
     er_local_median_preparation_seconds := 3; er_hosted_range_end_to_end_seconds := 39;
     er_local_range_end_to_end_seconds := 11; er_avoided_rounded_hosted_minutes := 4;
     er_avoided_github_charge_microusd := 24000;
     er_outcome_counts := {| oc_success := 2; oc_failure := 0; oc_cancelled := 1; oc_incomplete := 0 |} |}.

Lemma worksheet_ok : worksheet_typed worksheet.
Proof.
  split; [by vm_compute|]. unfold event_typed.
  repeat (apply Forall_cons_2 || apply Forall_nil_2 || apply conj || (intros ? [= <-]; by vm_compute) || by vm_compute).
Qed.
End EvaluationExample.
Import EvaluationExample.

Lemma evaluation_exact_witness : ∃ cs, evaluated worksheet report cs.
Proof. apply (evaluation_exact worksheet report worksheet_ok). vm_compute. reflexivity. Defined.
