(* ===== verification/Benchmark.v ===== *)
(** The benchmark receipt ([src/src/benchmark.rs]): a fixed workload, its timing
    samples, and the document that records them. *)
From S2P Require Import Prelude.
From S2P Require Import RustStr.
From S2P Require Import BTree.
From S2P Require Import Canonical.
From S2P Require Import Config.
From S2P Require Import Durable.
Local Open Scope Z_scope.

Definition BENCHMARK_SCHEMA_VERSION : string := "1.0".
Definition BENCHMARK_WORKLOAD_NAME : string := "canonical-sha256-chain".
Definition BENCHMARK_WORKLOAD_VERSION : string := "1".
Definition BENCHMARK_ITERATIONS : Z := 4096.
Definition BENCHMARK_SAMPLES : nat := 5.
Definition MAX_BENCHMARK_RECEIPT_BYTES : Z := 1048576.
Definition MAX_SAMPLE_NS : Z := 3600000000000.
Definition EXPECTED_WORKLOAD_DIGEST : string :=
  "sha256:29ac09de518a019bd8c663b411f77bbab466c7cf7236b2f56c2dbb6b105c69dc".
Definition PAYLOAD : string :=
  "commit-ci-preflight benchmark contract v1: deterministic canonical JSON and SHA-256 chain; timings are observations, never correctness inputs".

(** * Data *)

Record BenchmarkWorkloadV1 : Type := {
  bw_name : string;
  bw_version : string;
  bw_iterations_per_sample : Z;
  bw_samples : Z;
  bw_payload_bytes : Z;
  bw_expected_result_digest : string;
}.

Record BenchmarkPlatformV1 : Type := {
  bp_host_os : string;
  bp_host_arch : string;
  bp_execution_kind : string;
  bp_ci_environment : option string;
}.

Record BenchmarkRuntimeProbeV1 : Type := {
  br_runtime_kind : string;
  br_runtime_flavor : string;
  br_server_version : option string;
  br_operating_system : option string;
  br_os_type : option string;
  br_containment : string;
  br_graceful_stop : string;
}.

Record BenchmarkReceiptV1 : Type := {
  bm_schema_version : string;
  bm_benchmark_commit : string;
  bm_workload : BenchmarkWorkloadV1;
  bm_platform : BenchmarkPlatformV1;
  bm_runtime_probe : option BenchmarkRuntimeProbeV1;
  bm_samples_ns : list Z;
  bm_median_ns : Z;
  bm_result_digest : string;
  bm_correctness_status : EvidenceStatus;
}.

Record BenchmarkEnvelopeV1 : Type := {
  be_receipt : BenchmarkReceiptV1;
  be_benchmark_id : string;
}.

Record WorkloadInput : Type := {
  wi_workload_version : string;
  wi_iteration : Z;
  wi_previous_digest : string;
  wi_payload : string;
}.

(** The runtime probe of [runtime.rs], as far as a benchmark records it. *)
Inductive RuntimeFlavor : Type := FlavorDockerCompatible | FlavorOrbStack.
Inductive ContainmentMechanism : Type := ProcessGroup | JobObject.
Inductive GracefulStopCapability : Type := ProcessGroupSignal | HardStopOnly.

Record RuntimeProbe : Type := {
  pb_runtime : RuntimeKind;
  pb_flavor : RuntimeFlavor;
  pb_server_version : option string;
  pb_operating_system : option string;
  pb_os_type : option string;
  pb_memory_limit_supported : option bool;
  pb_swap_limit_supported : option bool;
  pb_containment : ContainmentMechanism;
  pb_graceful_stop : GracefulStopCapability;
}.

Inductive BenchmarkError : Type :=
  | BReceipt (e : ReceiptError)
  | BJson
  | BIo (kind : io_kind)
  | InvalidCommit
  | UnsupportedSchema
  | InvalidWorkloadContract
  | InvalidSamples
  | InvalidPlatform
  | InvalidRuntimeProbe
  | IntegrityMismatch
  | CommitMismatch
  | PlatformMismatch (field : string)
  | WorkloadMismatch (actual : string)
  | NonDeterministicWorkload
  | ReceiptTooLarge (actual : Z)
  | InvalidOutputPath
  | OutputExists
  | NoSamples.

#[global] Instance BenchmarkWorkloadV1_serialize : Serialize BenchmarkWorkloadV1 := λ w,
  obj [("name", to_value (bw_name w)); ("version", to_value (bw_version w));
       ("iterations_per_sample", to_value (bw_iterations_per_sample w)); ("samples", to_value (bw_samples w));
       ("payload_bytes", to_value (bw_payload_bytes w));
       ("expected_result_digest", to_value (bw_expected_result_digest w))].
#[global] Instance BenchmarkPlatformV1_serialize : Serialize BenchmarkPlatformV1 := λ p,
  obj [("host_os", to_value (bp_host_os p)); ("host_arch", to_value (bp_host_arch p));
       ("execution_kind", to_value (bp_execution_kind p)); ("ci_environment", to_value (bp_ci_environment p))].
#[global] Instance BenchmarkRuntimeProbeV1_serialize : Serialize BenchmarkRuntimeProbeV1 := λ p,
  obj [("runtime_kind", to_value (br_runtime_kind p)); ("runtime_flavor", to_value (br_runtime_flavor p));
       ("server_version", to_value (br_server_version p)); ("operating_system", to_value (br_operating_system p));
       ("os_type", to_value (br_os_type p)); ("containment", to_value (br_containment p));
       ("graceful_stop", to_value (br_graceful_stop p))].
#[global] Instance BenchmarkReceiptV1_serialize : Serialize BenchmarkReceiptV1 := λ r,
  obj [("schema_version", to_value (bm_schema_version r)); ("benchmark_commit", to_value (bm_benchmark_commit r));
       ("workload", to_value (bm_workload r)); ("platform", to_value (bm_platform r));
       ("runtime_probe", to_value (bm_runtime_probe r)); ("samples_ns", to_value (bm_samples_ns r));
       ("median_ns", to_value (bm_median_ns r)); ("result_digest", to_value (bm_result_digest r));
       ("correctness_status", to_value (bm_correctness_status r))].
#[global] Instance BenchmarkEnvelopeV1_serialize : Serialize BenchmarkEnvelopeV1 := λ e,
  obj [("receipt", to_value (be_receipt e)); ("benchmark_id", to_value (be_benchmark_id e))].
#[global] Instance WorkloadInput_serialize : Serialize WorkloadInput := λ w,
  obj [("workload_version", to_value (wi_workload_version w)); ("iteration", to_value (wi_iteration w));
       ("previous_digest", to_value (wi_previous_digest w)); ("payload", to_value (wi_payload w))].

(** * Validation *)

Definition bench_validate_commit (value : string) : result BenchmarkError () :=
  ensure ((len value =? 40) && all_bytes is_lower_hex value) InvalidCommit.

(** [sorted[sorted.len() / 2]] cannot be out of range: the length is that of the
    contract. *)
Definition bench_median (samples : list Z) : result BenchmarkError Z :=
  _ ← ensure (negb (negb (length samples =? BENCHMARK_SAMPLES)%nat || (BENCHMARK_SAMPLES mod 2 =? 0)%nat)) NoSamples;
  let sorted := merge_sort Z.le samples in
  ok_or (sorted !! (length sorted / 2)%nat) NoSamples.

(** [matches!(value, …)] on string literals. *)
Definition one_of (value : string) (literals : list string) : bool := existsb (String.eqb value) literals.

Definition bench_validate_receipt (r : BenchmarkReceiptV1) : result BenchmarkError () :=
  let w := bm_workload r in
  let p := bm_platform r in
  _ ← ensure (bm_schema_version r =? BENCHMARK_SCHEMA_VERSION)%string UnsupportedSchema;
  _ ← bench_validate_commit (bm_benchmark_commit r);
  _ ← ensure (negb (negb (bw_name w =? BENCHMARK_WORKLOAD_NAME)%string
                    || negb (bw_version w =? BENCHMARK_WORKLOAD_VERSION)%string
                    || negb (bw_iterations_per_sample w =? BENCHMARK_ITERATIONS)
                    || negb (bw_samples w =? Z.of_nat BENCHMARK_SAMPLES)
                    || negb (bw_payload_bytes w =? len PAYLOAD)
                    || negb (bw_expected_result_digest w =? EXPECTED_WORKLOAD_DIGEST)%string
                    || negb (bm_result_digest r =? EXPECTED_WORKLOAD_DIGEST)%string
                    || bool_decide (bm_correctness_status r ≠ Pass))) InvalidWorkloadContract;
  _ ← (if negb (length (bm_samples_ns r) =? BENCHMARK_SAMPLES)%nat
          || existsb (λ sample, (sample =? 0) || (sample >? MAX_SAMPLE_NS)) (bm_samples_ns r)
       then Err InvalidSamples
       else median ← bench_median (bm_samples_ns r);
            ensure (bm_median_ns r =? median) InvalidSamples);
  _ ← ensure (negb (negb (one_of (bp_host_os p) ["linux"; "macos"; "windows"])
                    || negb (one_of (bp_host_arch p) ["aarch64"; "x86_64"])
                    || negb (bp_execution_kind p =? "native_process")%string
                    || match bp_ci_environment p with
                       | Some value => negb (value =? "github_actions")%string
                       | None => false
                       end)) InvalidPlatform;
  match bm_runtime_probe r with
  | Some probe =>
    ensure (negb (negb (br_runtime_kind probe =? "docker_compatible")%string
                  || negb (one_of (br_runtime_flavor probe) ["docker_compatible"; "orbstack"])
                  || is_empty (br_containment probe) || is_empty (br_graceful_stop probe))) InvalidRuntimeProbe
  | None => Ok ()
  end.

(** [serde_json::from_slice] at the envelope. *)
Class BenchmarkParser := from_slice_benchmark : list ascii → option BenchmarkEnvelopeV1.

Section Benchmark.
Context `{Backend}.

Definition envelope_new (r : BenchmarkReceiptV1) : result BenchmarkError BenchmarkEnvelopeV1 :=
  _ ← bench_validate_receipt r;
  benchmark_id ← map_err BReceipt (canonical_digest r);
  Ok {| be_receipt := r; be_benchmark_id := benchmark_id |}.

Definition envelope_validate (e : BenchmarkEnvelopeV1) : result BenchmarkError () :=
  _ ← bench_validate_receipt (be_receipt e);
  expected ← map_err BReceipt (canonical_digest (be_receipt e));
  ensure (be_benchmark_id e =? expected)%string IntegrityMismatch.

Definition benchmark_bytes (e : BenchmarkEnvelopeV1) : result BenchmarkError (list ascii) :=
  _ ← envelope_validate e;
  map_err BReceipt (canonical_json e).

(** * Running *)

Definition workload_step (digest : string) (iteration : nat) : result BenchmarkError string :=
  map_err BReceipt (canonical_digest
    {| wi_workload_version := BENCHMARK_WORKLOAD_VERSION; wi_iteration := Z.of_nat iteration;
       wi_previous_digest := digest; wi_payload := PAYLOAD |}).

Definition execute_workload : result BenchmarkError string :=
  try_fold workload_step ("sha256:" +:+ str (repeat "0"%char 64)) (seq 0 (Z.to_nat BENCHMARK_ITERATIONS)).

(** [BenchmarkRuntimeProbeV1::from]. *)
Definition flavor_name (f : RuntimeFlavor) : string :=
  match f with FlavorDockerCompatible => "docker_compatible" | FlavorOrbStack => "orbstack" end.
Definition probe_from (p : RuntimeProbe) : BenchmarkRuntimeProbeV1 :=
  {| br_runtime_kind := match pb_runtime p with DockerCompatible => "docker_compatible" | Host => "host" end;
     br_runtime_flavor := flavor_name (pb_flavor p);
     br_server_version := pb_server_version p; br_operating_system := pb_operating_system p;
     br_os_type := pb_os_type p;
     br_containment := match pb_containment p with ProcessGroup => "process_group" | JobObject => "job_object" end;
     br_graceful_stop := match pb_graceful_stop p with
                         | ProcessGroupSignal => "process_group_signal"
                         | HardStopOnly => "hard_stop_only"
                         end |}.

(** What a process reads of its surroundings: the constants of its build, the
    variable [GITHUB_ACTIONS], and the nanoseconds each sample took. *)
Record BenchmarkEnv : Type := {
  bn_os : string;
  bn_arch : string;
  bn_github_actions : option string;
  bn_elapsed : nat → Z;
}.

Definition github_actions_environment (env : BenchmarkEnv) : option string :=
  match bn_github_actions env with
  | Some value => if (value =? "true")%string then Some "github_actions" else None
  | None => None
  end.

(** One sample: [u64::try_from(…).unwrap_or(u64::MAX)], at least 1. *)
Definition sample_step (env : BenchmarkEnv) (st : option string * list Z) (i : nat) :
    result BenchmarkError (option string * list Z) :=
  let '(result_digest, samples_ns) := st in
  sample_result ← execute_workload;
  let elapsed := default u64_max (checked_u64 (bn_elapsed env i)) in
  _ ← ensure (sample_result =? EXPECTED_WORKLOAD_DIGEST)%string (WorkloadMismatch sample_result);
  _ ← ensure (match result_digest with Some previous => (previous =? sample_result)%string | None => true end)
        NonDeterministicWorkload;
  Ok (Some sample_result, samples_ns ++ [Z.max elapsed 1]).

Definition run_benchmark (env : BenchmarkEnv) (benchmark_commit : string) (runtime_probe : option RuntimeProbe) :
    result BenchmarkError BenchmarkEnvelopeV1 :=
  _ ← bench_validate_commit benchmark_commit;
  '(result_digest, samples_ns) ← try_fold (sample_step env) (None, []) (seq 0 BENCHMARK_SAMPLES);
  median_ns ← bench_median samples_ns;
  result_digest ← ok_or result_digest NoSamples;
  envelope_new
    {| bm_schema_version := BENCHMARK_SCHEMA_VERSION; bm_benchmark_commit := benchmark_commit;
       bm_workload := {| bw_name := BENCHMARK_WORKLOAD_NAME; bw_version := BENCHMARK_WORKLOAD_VERSION;
                         bw_iterations_per_sample := BENCHMARK_ITERATIONS;
                         bw_samples := Z.of_nat BENCHMARK_SAMPLES; bw_payload_bytes := len PAYLOAD;
                         bw_expected_result_digest := EXPECTED_WORKLOAD_DIGEST |};
       bm_platform := {| bp_host_os := bn_os env; bp_host_arch := bn_arch env;
                         bp_execution_kind := "native_process";
                         bp_ci_environment := github_actions_environment env |};
       bm_runtime_probe := probe_from <$> runtime_probe; bm_samples_ns := samples_ns; bm_median_ns := median_ns;
       bm_result_digest := result_digest; bm_correctness_status := Pass |}.

(** * Verification *)

Definition verify_benchmark_document `{BenchmarkParser} (input : list ascii)
    (expected_commit expected_os expected_arch : string)
    (expected_ci_environment expected_runtime_flavor : option string) :
    result BenchmarkError BenchmarkEnvelopeV1 :=
  _ ← ensure (negb (Z.of_nat (length input) >? MAX_BENCHMARK_RECEIPT_BYTES))
        (ReceiptTooLarge (Z.of_nat (length input)));
  _ ← bench_validate_commit expected_commit;
  envelope ← ok_or (from_slice_benchmark input) BJson;
  _ ← envelope_validate envelope;
  let receipt := be_receipt envelope in
  let platform := bm_platform receipt in
  _ ← ensure (bm_benchmark_commit receipt =? expected_commit)%string CommitMismatch;
  _ ← ensure (bp_host_os platform =? expected_os)%string (PlatformMismatch "host_os");
  _ ← ensure (bp_host_arch platform =? expected_arch)%string (PlatformMismatch "host_arch");
  _ ← ensure (bool_decide (bp_ci_environment platform = expected_ci_environment)) (PlatformMismatch "ci_environment");
  _ ← ensure (bool_decide (br_runtime_flavor <$> bm_runtime_probe receipt = expected_runtime_flavor))
        (PlatformMismatch "runtime_flavor");
  Ok envelope.

(** * Writing *)

(** What fails on the way; a write that fails leaves some bytes. *)
Record WriteFaults : Type := {
  wf_write : option (list ascii);
  wf_sync : bool;
  wf_link : bool;
  wf_remove : bool;
}.

(** [fs::create_dir_all] on the parent as its path resolves; a [Symlink] stands
    for a link that leads to no directory. *)
Definition create_dir_all (parent : option node) : result BenchmarkError (btmap string node) :=
  match parent with
  | None => Ok []
  | Some (Dir entries) => Ok entries
  | Some _ => Err (BIo OtherIo)
  end.

(** [fs::remove_file]. *)
Definition unlink (fails : bool) (name : string) (entries : btmap string node) :
    result BenchmarkError () * btmap string node :=
  if fails then (Err (BIo OtherIo), entries) else (Ok (), remove_file name entries).

(** The outcome and the directory afterwards. *)
Definition write_new_receipt (faults : WriteFaults) (process_id : Z) (parent : option node)
    (file_name : option string) (e : BenchmarkEnvelopeV1) : result BenchmarkError () * option node :=
  match benchmark_bytes e with
  | Err err => (Err err, parent)
  | Ok bytes =>
    match create_dir_all parent with
    | Err err => (Err err, parent)
    | Ok entries =>
      match file_name with
      | None => (Err InvalidOutputPath, Some (Dir entries))
      | Some file_name =>
        let temporary := "." +:+ file_name +:+ "." +:+ decimal_text process_id +:+ ".tmp" in
        if map_contains temporary entries then (Err (BIo AlreadyExists), Some (Dir entries)) else
        match wf_write faults with
        | Some written => (Err (BIo OtherIo), Some (Dir (map_insert temporary (File written) entries)))
        | None =>
          let content := bytes ++ [line_feed] in
          let entries := map_insert temporary (File content) entries in
          if wf_sync faults then (Err (BIo OtherIo), Some (Dir entries)) else
          if map_contains file_name entries then
            (Err OutputExists, Some (Dir (unlink (wf_remove faults) temporary entries).2))
          else if wf_link faults then
            (Err (BIo OtherIo), Some (Dir (unlink (wf_remove faults) temporary entries).2))
          else
            let '(outcome, entries) := unlink (wf_remove faults) temporary (map_insert file_name (File content) entries) in
            (outcome, Some (Dir entries))
        end
      end
    end
  end.
End Benchmark.
