(* ===== verification/BenchmarkClaims.v ===== *)
(** What a benchmark document promises ([Benchmark.v]). *)
From S2P Require Import Prelude.
From S2P Require Import RustStr.
From S2P Require Import BTree.
From S2P Require Import Canonical.
From S2P Require Import Config.
From S2P Require Import Durable.
From S2P Require Import PlanClaims.
From S2P Require Import Benchmark.
Local Open Scope Z_scope.

(** * The contract *)

Definition is_commit (value : string) : Prop :=
  String.length value = 40%nat ∧ Forall (λ a, is_lower_hex a = true) (bytes value).

(** The third of the five samples in order. *)
Definition is_middle (samples : list Z) (m : Z) : Prop :=
  ∃ s, s ≡ₚ samples ∧ Sorted Z.le s ∧ s !! 2%nat = Some m.

Record benchmark_valid (r : BenchmarkReceiptV1) : Prop := {
  bv_schema : bm_schema_version r = BENCHMARK_SCHEMA_VERSION;
  bv_commit : is_commit (bm_benchmark_commit r);
  bv_workload : bm_workload r =
    {| bw_name := BENCHMARK_WORKLOAD_NAME; bw_version := BENCHMARK_WORKLOAD_VERSION;
       bw_iterations_per_sample := 4096; bw_samples := 5; bw_payload_bytes := len PAYLOAD;
       bw_expected_result_digest := EXPECTED_WORKLOAD_DIGEST |};
  bv_digest : bm_result_digest r = EXPECTED_WORKLOAD_DIGEST;
  bv_status : bm_correctness_status r = Pass;
  bv_samples : length (bm_samples_ns r) = 5%nat ∧ Forall (λ x, x ≠ 0 ∧ x ≤ MAX_SAMPLE_NS) (bm_samples_ns r);
  bv_median : is_middle (bm_samples_ns r) (bm_median_ns r);
  bv_os : bp_host_os (bm_platform r) ∈ ["linux"; "macos"; "windows"];
  bv_arch : bp_host_arch (bm_platform r) ∈ ["aarch64"; "x86_64"];
  bv_kind : bp_execution_kind (bm_platform r) = "native_process";
  bv_ci : ∀ value, bp_ci_environment (bm_platform r) = Some value → value = "github_actions";
  bv_probe : ∀ p, bm_runtime_probe r = Some p →
    br_runtime_kind p = "docker_compatible" ∧ br_runtime_flavor p ∈ ["docker_compatible"; "orbstack"] ∧
    br_containment p ≠ "" ∧ br_graceful_stop p ≠ "";
}.

Record benchmark_matches (r : BenchmarkReceiptV1) (commit os arch : string) (ci flavor : option string) : Prop := {
  bx_commit : bm_benchmark_commit r = commit;
  bx_os : bp_host_os (bm_platform r) = os;
  bx_arch : bp_host_arch (bm_platform r) = arch;
  bx_ci : bp_ci_environment (bm_platform r) = ci;
  bx_flavor : br_runtime_flavor <$> bm_runtime_probe r = flavor;
}.

(** * Lemmas *)

Lemma one_of_spec value l : one_of value l = true ↔ value ∈ l.
Proof.
  unfold one_of. rewrite existsb_exists. setoid_rewrite <-list_elem_of_In. setoid_rewrite String.eqb_eq. naive_solver.
Qed.

Lemma commit_ok value : bench_validate_commit value = Ok () ↔ is_commit value.
Proof.
  unfold bench_validate_commit, is_commit, len, all_bytes. rewrite ensure_ok, andb_true_iff, forallb_Forall, Z.eqb_eq.
  split; intros [? ?]; (split; [lia|done]).
Qed.

Lemma middle_ok samples m : length samples = 5%nat → bench_median samples = Ok m ↔ is_middle samples m.
Proof.
  intros Hl. unfold bench_median, is_middle. rewrite Hl.
  change (ensure _ NoSamples) with (Ok () : result BenchmarkError ()).
  assert (Hs : length (merge_sort Z.le samples) = 5%nat) by by rewrite merge_sort_Permutation.
  cbn [mbind result_bind]. rewrite ok_or_ok, Hs. change (5 `div` 2)%nat with 2%nat. split.
  - intros Hm. exists (merge_sort Z.le samples).
    split_and!; [apply merge_sort_Permutation|apply (Sorted_merge_sort Z.le); intros ? ?; lia|done].
  - intros (s & Hp & Hso & Hm). replace (merge_sort Z.le samples) with s; [done|].
    apply (Sorted_unique Z.le); [done|apply (Sorted_merge_sort Z.le); intros ? ?; lia|]. by rewrite merge_sort_Permutation.
Qed.

Lemma samples_ok samples m :
  (if negb (length samples =? BENCHMARK_SAMPLES)%nat
      || existsb (λ sample, (sample =? 0) || (sample >? MAX_SAMPLE_NS)) samples
   then Err InvalidSamples
   else median ← bench_median samples; ensure (m =? median) InvalidSamples) = Ok () ↔
  (length samples = 5%nat ∧ Forall (λ x, x ≠ 0 ∧ x ≤ MAX_SAMPLE_NS) samples) ∧ is_middle samples m.
Proof.
  destruct (negb _ || _) eqn:E.
  - split; [done|]. intros [[Hl Hf] _]. exfalso. apply orb_true_iff in E as [E|E].
    + by rewrite Hl in E.
    + apply existsb_exists in E as (x & Hx & E). apply list_elem_of_In in Hx. rewrite Forall_forall in Hf.
      destruct (Hf x Hx). rewrite Z.gtb_ltb in E. apply orb_true_iff in E as [E|E]; bool_prop; lia.
  - apply orb_false_iff in E as [El Ex]. bool_prop. apply existsb_false in Ex.
    rewrite bind_ok. setoid_rewrite middle_ok; [|done]. setoid_rewrite ensure_ok. setoid_rewrite Z.eqb_eq.
    split; [|naive_solver]. intros (x & Hx & ->). split_and!; [done| |done].
    eapply Forall_impl; [exact Ex|]. intros y Hy. cbn in Hy. rewrite Z.gtb_ltb in Hy. bool_prop. lia.
Qed.

Lemma receipt_valid_ok r : bench_validate_receipt r = Ok () ↔ benchmark_valid r.
Proof.
  unfold bench_validate_receipt. rewrite bind_ok. split.
  - intros ([] & Hs & H). apply ensure_ok, String.eqb_eq in Hs.
    apply bind_ok in H as ([] & Hc & H). apply commit_ok in Hc.
    apply bind_ok in H as ([] & Hw & H). apply ensure_ok in Hw.
    apply bind_ok in H as ([] & Hm & H). apply samples_ok in Hm as [Hsa Hm].
    apply bind_ok in H as ([] & Hp & H). apply ensure_ok in Hp. bool_prop.
    repeat match goal with E : one_of _ _ = true |- _ => apply one_of_spec in E end.
    constructor; try done.
    + destruct (bm_workload r); cbn in *; by subst.
    + by apply dec_stable.
    + intros value E. rewrite E in *. by bool_prop.
    + intros p E. rewrite E in H. apply ensure_ok in H. bool_prop.
      repeat match goal with E : one_of _ _ = true |- _ => apply one_of_spec in E end. by unfold is_empty in *; bool_prop.
  - intros [Hs Hc Hw Hd Hst Hsa Hm Ho Ha Hk Hci Hp]. exists (). split; [by rewrite Hs|].
    apply bind_ok. exists (). split; [by apply commit_ok|].
    apply bind_ok. exists (). split.
    { rewrite Hw, Hd, Hst. by vm_compute. }
    apply bind_ok. exists (). split; [by apply samples_ok|].
    apply bind_ok. exists (). split.
    { rewrite (proj2 (one_of_spec _ _) Ho), (proj2 (one_of_spec _ _) Ha), Hk. cbn.
      destruct (bp_ci_environment (bm_platform r)) as [v|]; [|done]. by rewrite (Hci v eq_refl). }
    destruct (bm_runtime_probe r) as [p|]; [|done]. destruct (Hp p eq_refl) as (Hk' & Hf & H1 & H2).
    rewrite Hk', (proj2 (one_of_spec _ _) Hf). unfold is_empty.
    by rewrite (proj2 (String.eqb_neq _ _) H1), (proj2 (String.eqb_neq _ _) H2).
Qed.

Lemma benchmark_bytes_error `{Backend} e err : benchmark_bytes e = Err err → err ≠ OutputExists.
Proof.
  unfold benchmark_bytes, envelope_validate, bench_validate_receipt, bench_validate_commit, bench_median. intros He.
  err_inv; subst; try done.
  - match type of He with (if ?b then _ else _) = _ => destruct b end; err_inv; by subst.
  - destruct (bm_runtime_probe _); err_inv; by subst.
Qed.

Section Claims.
Context `{Backend}.

Lemma envelope_new_ok r e :
  envelope_new r = Ok e ↔ be_receipt e = r ∧ envelope_validate e = Ok ().
Proof.
  unfold envelope_new, envelope_validate. split.
  - intros He. res_inv. subst e. cbn. split; [done|]. res_step; [done|]. res_step; [by apply map_err_ok|].
    apply ensure_ok, String.eqb_refl.
  - intros [<- He]. res_inv. bool_prop. destruct e as [r id]. cbn in *. subst.
    rename select (bench_validate_receipt _ = _) into Hv. rename select (canonical_digest _ = _) into Hd.
    by rewrite Hv, Hd.
Qed.

Lemma verify_document_ok `{BenchmarkParser} input commit os arch ci flavor e :
  verify_benchmark_document input commit os arch ci flavor = Ok e ↔
  Z.of_nat (length input) ≤ MAX_BENCHMARK_RECEIPT_BYTES ∧ from_slice_benchmark input = Some e ∧
  benchmark_valid (be_receipt e) ∧ canonical_digest (be_receipt e) = Ok (be_benchmark_id e) ∧
  benchmark_matches (be_receipt e) commit os arch ci flavor.
Proof.
  unfold verify_benchmark_document, envelope_validate. split.
  - intros Hv. res_inv. subst. bool_prop. rewrite Z.gtb_ltb in *. bool_prop.
    rename select (bench_validate_receipt _ = _) into Hr. apply receipt_valid_ok in Hr.
    split_and!; try done; congruence.
  - intros (Hlen & Hp & Hv & Hd & [<- <- <- <- <-]). rewrite Z.gtb_ltb, (proj2 (Z.ltb_ge _ _)) by done. cbn.
    rewrite (proj2 (commit_ok _) (bv_commit _ Hv)). cbn. rewrite Hp. cbn.
    rewrite (proj2 (receipt_valid_ok _) Hv). cbn. rewrite Hd. cbn. rewrite !String.eqb_refl. cbn.
    by rewrite !bool_decide_true.
Qed.

(** ** Writing *)

Definition temporary_of (process_id : Z) (file_name : string) : string :=
  "." +:+ file_name +:+ "." +:+ decimal_text process_id +:+ ".tmp".

Lemma length_append_string (s t : string) : String.length (s +:+ t) = (String.length s + String.length t)%nat.
Proof. induction s as [|a s IH]; simpl; [done|by f_equal]. Qed.

Lemma receipt_temporary_ne process_id file_name : file_name ≠ temporary_of process_id file_name.
Proof.
  intros E. apply (f_equal String.length) in E. unfold temporary_of in E. rewrite !length_append_string in E. cbn in E. lia.
Qed.

Lemma unlink_other fails name entries k :
  k ≠ name → map_get k (unlink fails name entries).2 = map_get k entries.
Proof.
  intros Hk. unfold unlink, remove_file. destruct fails; [done|]. destruct (map_get name entries) as [[]|]; try done;
    cbn; rewrite map_get_filter_ne; by rewrite decide_False.
Qed.

Lemma unlink_gone name entries c :
  map_get name entries = Some (File c) → unlink false name entries = (Ok (), remove_file name entries) ∧
  map_get name (remove_file name entries) = None.
Proof.
  intros Hn. split; [done|]. unfold remove_file. rewrite Hn, map_get_filter_ne. by rewrite decide_True.
Qed.

(** * Theorems *)

(** A benchmark document is accepted exactly when it is an envelope of bounded
    size that keeps the contract (the fixed workload with its known result, five
    samples of at most an hour with the third of them as median, a known platform)
    whose identifier is the digest of its receipt, for the expected commit,
    platform, environment and runtime. *)
Theorem benchmark_document_exact `{BenchmarkParser} (input : list ascii) (commit os arch : string)
    (ci flavor : option string) (e : BenchmarkEnvelopeV1) :
  verify_benchmark_document input commit os arch ci flavor = Ok e ↔
  Z.of_nat (length input) ≤ MAX_BENCHMARK_RECEIPT_BYTES ∧ from_slice_benchmark input = Some e ∧
  benchmark_valid (be_receipt e) ∧ canonical_digest (be_receipt e) = Ok (be_benchmark_id e) ∧
  benchmark_matches (be_receipt e) commit os arch ci flavor.
Proof. apply verify_document_ok. Qed.

(** What a benchmark run produces is accepted: a document that reads as its
    envelope verifies for the commit, the platform and the runtime of the run. *)
Theorem benchmark_run_verifies `{BenchmarkParser} (env : BenchmarkEnv) (commit : string)
    (probe : option RuntimeProbe) (e : BenchmarkEnvelopeV1) (input : list ascii) :
  run_benchmark env commit probe = Ok e → from_slice_benchmark input = Some e →
  Z.of_nat (length input) ≤ MAX_BENCHMARK_RECEIPT_BYTES →
  verify_benchmark_document input commit (bn_os env) (bn_arch env) (github_actions_environment env)
    (flavor_name ∘ pb_flavor <$> probe) = Ok e.
Proof.
  intros Hr Hp Hlen. unfold run_benchmark in Hr. res_inv.
  match goal with p : _ * _ |- _ => destruct p as [digest samples] end. res_inv.
  apply envelope_new_ok in Hr as [Er Hv]. unfold envelope_validate in Hv. res_inv. bool_prop.
  apply verify_document_ok. split_and!; [done|done|by apply receipt_valid_ok|congruence|].
  rewrite Er. constructor; cbn; try done. by destruct probe.
Qed.

(** Publication never overwrites and is atomic: whatever fails on the way,
    every entry of the directory but the temporary name of the process is as
    before, except that the output, when there was none, may now be there with its
    whole content; success means that it is and that the temporary name is gone;
    and an output that was there is reported, when nothing failed before. *)
Theorem receipt_publication_atomic (faults : WriteFaults) (process_id : Z) (entries entries' : btmap string node)
    (name : string) (e : BenchmarkEnvelopeV1) (outcome : result BenchmarkError ()) :
  write_new_receipt faults process_id (Some (Dir entries)) (Some name) e = (outcome, Some (Dir entries')) →
  let temporary := temporary_of process_id name in
  let published := ∃ b, benchmark_bytes e = Ok b ∧ map_get name entries = None ∧
                        map_get name entries' = Some (File (b ++ [line_feed])) in
  (∀ k, k ≠ temporary → k ≠ name → map_get k entries' = map_get k entries) ∧
  (map_get name entries' = map_get name entries ∨ published) ∧
  (outcome = Ok () → published ∧ map_get temporary entries' = None) ∧
  (map_get temporary entries ≠ None → entries' = entries ∧ outcome ≠ Ok ()) ∧
  (outcome = Err OutputExists → map_get name entries ≠ None).
Proof.
  cbv zeta. unfold write_new_receipt. fold (temporary_of process_id name). pose proof (receipt_temporary_ne process_id name) as Hne.
  set (temporary := temporary_of process_id name) in *.
  destruct (benchmark_bytes e) as [b|err] eqn:Eb.
  2:{ intros [= <- <-]. split_and!; try done; [by left|]. intros [= ->]. by apply benchmark_bytes_error in Eb. }
  cbn [create_dir_all]. destruct (map_contains temporary entries) eqn:Et.
  { intros [= <- <-]. split_and!; try done. by left. }
  apply map_contains_get_none in Et. destruct (wf_write faults) as [written|].
  { intros [= <- <-]. split_and!; try done.
    - intros k Hk _. by rewrite map_get_insert, decide_False.
    - left. by rewrite map_get_insert, decide_False. }
  destruct (wf_sync faults).
  { intros [= <- <-]. split_and!; try done.
    - intros k Hk _. by rewrite map_get_insert, decide_False.
    - left. by rewrite map_get_insert, decide_False. }
  destruct (map_contains name _) eqn:En.
  { intros [= <- <-]. split_and!; try done.
    - intros k Hk _. by rewrite unlink_other, map_get_insert, decide_False.
    - left. by rewrite unlink_other, map_get_insert, decide_False.
    - intros _. unfold map_contains in En. rewrite map_get_insert, decide_False in En by done.
      by destruct (map_get name entries). }
  apply map_contains_get_none in En. rewrite map_get_insert, decide_False in En by done.
  destruct (wf_link faults).
  { intros [= <- <-]. split_and!; try done.
    - intros k Hk _. by rewrite unlink_other, map_get_insert, decide_False.
    - left. by rewrite unlink_other, map_get_insert, decide_False. }
  set (full := map_insert name (File (b ++ [line_feed])) _).
  assert (Hfull : ∀ k, map_get k full = if decide (k = name) then Some (File (b ++ [line_feed])) else
    if decide (k = temporary) then Some (File (b ++ [line_feed])) else map_get k entries)
    by (intros k; subst full; rewrite !map_get_insert; repeat destruct (decide _); done).
  destruct (unlink _ _ _) as [out after] eqn:Eu. intros [= <- <-].
  assert (Hu : ∀ k, k ≠ temporary → map_get k after = map_get k full)
    by (intros k Hk; by rewrite <-(unlink_other (wf_remove faults) temporary full k Hk), Eu).
  assert (Hpub : map_get name after = Some (File (b ++ [line_feed])))
    by (rewrite Hu, Hfull by done; by rewrite decide_True).
  split_and!; try done.
  - intros k Hk Hk'. rewrite Hu, Hfull by done. by rewrite !decide_False.
  - right. exists b. done.
  - intros ->. split; [exists b; done|].
    revert Eu. unfold unlink. destruct (wf_remove faults); [done|]. intros [= <-].
    apply (unlink_gone _ _ (b ++ [line_feed])). rewrite Hfull, decide_False by done. by rewrite decide_True.
  - revert Eu. unfold unlink. destruct (wf_remove faults); by intros [= <- _].
Qed.
End Claims.

(** * Example *)

Module BenchmarkExample.

(** A printer that leaves out the inputs of the workload, and a hash whose every
    digest is the expected one. *)
Definition hex_value (a : ascii) : Z := let c := code a in if c <? 97 then c - 48 else c - 87.
Fixpoint from_hex (l : list ascii) : list ascii :=
  match l with
  | a :: b :: l => ascii_of_N (Z.to_N (16 * hex_value a + hex_value b)) :: from_hex l
  | _ => []
  end.
Definition hash : list ascii := from_hex (drop 7 (bytes EXPECTED_WORKLOAD_DIGEST)).

#[local] Instance constant_hash : Backend :=
  {| json_to_vec := λ v, match v with
                         | Object (("iteration", _) :: _) => Some []
                         | _ => Some (PlanExample.print v)
                         end;
     sha256 := λ _, hash |}.

Definition host : BenchmarkEnv :=
  {| bn_os := "linux"; bn_arch := "x86_64"; bn_github_actions := Some "true";
     bn_elapsed := λ i, nth i [410; 300; 0; 500; 420] 0 |}.

Definition probe : RuntimeProbe :=
  {| pb_runtime := DockerCompatible; pb_flavor := FlavorOrbStack; pb_server_version := Some "27.0";
     pb_operating_system := None; pb_os_type := Some "linux"; pb_memory_limit_supported := Some true;
     pb_swap_limit_supported := None; pb_containment := ProcessGroup; pb_graceful_stop := ProcessGroupSignal |}.

Definition commit : string := "0123456789abcdef0123456789abcdef01234567".

Definition receipt : BenchmarkReceiptV1 :=
  {| bm_schema_version := "1.0"; bm_benchmark_commit := commit;
     bm_workload := {| bw_name := BENCHMARK_WORKLOAD_NAME; bw_version := "1"; bw_iterations_per_sample := 4096;
                       bw_samples := 5; bw_payload_bytes := 141;
                       bw_expected_result_digest := EXPECTED_WORKLOAD_DIGEST |};
     bm_platform := {| bp_host_os := "linux"; bp_host_arch := "x86_64"; bp_execution_kind := "native_process";
                       bp_ci_environment := Some "github_actions" |};
     bm_runtime_probe := Some (probe_from probe); bm_samples_ns := [410; 300; 1; 500; 420]; bm_median_ns := 410;
     bm_result_digest := EXPECTED_WORKLOAD_DIGEST; bm_correctness_status := Pass |}.
Definition envelope : BenchmarkEnvelopeV1 :=
  {| be_receipt := receipt; be_benchmark_id := EXPECTED_WORKLOAD_DIGEST |}.

#[local] Instance reads_envelope : BenchmarkParser := λ _, Some envelope.

Lemma envelope_ok : run_benchmark host commit (Some probe) = Ok envelope.
Proof. vm_compute. reflexivity. Defined.

Definition no_fault : WriteFaults :=
  {| wf_write := None; wf_sync := false; wf_link := false; wf_remove := false |}.
Definition directory : btmap string node := [("earlier.json", File (bytes "{}"))].
Definition published : btmap string node :=
  match write_new_receipt no_fault 71 (Some (Dir directory)) (Some "report.json") envelope with
  | (_, Some (Dir entries)) => entries
  | _ => []
  end.

Lemma benchmark_run_verifies_witness :
  bm_median_ns (be_receipt envelope) = 410 ∧
  verify_benchmark_document [] commit "linux" "x86_64" (Some "github_actions") (Some "orbstack") = Ok envelope.
Proof.
  split; [vm_compute; reflexivity|].
  apply (benchmark_run_verifies host commit (Some probe) envelope [] envelope_ok eq_refl). vm_compute. discriminate.
Defined.

Lemma receipt_publication_atomic_witness :
  map_get "earlier.json" published = Some (File (bytes "{}")) ∧
  map_get (temporary_of 71 "report.json") published = None.
Proof.
  destruct (receipt_publication_atomic no_fault 71 directory published "report.json" envelope (Ok ()))
    as (Hother & _ & Hok & _); [vm_compute; reflexivity|].
  split; [rewrite Hother; [reflexivity|vm_compute; discriminate|discriminate]|].
  apply (Hok eq_refl).
Defined.
End BenchmarkExample.
