(* ===== verification/ResourceHistory.v ===== *)
(** The local history of resource observations ([src/src/resource_history.rs]):
    bounded files of JSON lines, one record per guarded run. *)
From S2P Require Import Prelude.
From S2P Require Import RustStr.
From S2P Require Import BTree.
From S2P Require Import Canonical.
From S2P Require Import Durable.
From S2P Require Import Resource.
Local Open Scope Z_scope.

Definition RESOURCE_HISTORY_SCHEMA_VERSION : string := "1.0".
Definition RESOURCE_HISTORY_V2_SCHEMA_VERSION : string := "2.0".
Definition DEFAULT_RESOURCE_HISTORY_RECORDS : nat := 100.
Definition DEFAULT_RESOURCE_HISTORY_V2_RECORDS : nat := 500.
Definition PLATFORM_DIRECTORY : string := "commit-ci-preflight".
Definition HISTORY_FILE : string := "resource-history-v1.jsonl".
Definition HISTORY_V2_FILE : string := "resource-history-v2.jsonl".
Definition MAX_HISTORY_BYTES : Z := 1024 * 1024.
Definition MAX_HISTORY_V2_BYTES : Z := 8 * 1024 * 1024.
Definition MAX_PROFILE_BYTES : Z := 64.

(** * Data *)

Inductive ResourceRunOutcome : Type := RunCompleted | RunFailed | RunCancelled | RunTimedOut | RunResourcePressure.

Inductive ResourceTerminalDetailV2 : Type :=
  | ChildExit (exit_code : Z)
  | UserCancelled
  | DetailTimedOut
  | DetailResourcePressure
  | ResourceMonitorFailure
  | ProcessSupervisionFailure
  | InternalFailure.

Inductive ResourceTripReasonV1 : Type := TripHardPressure | TripSoftPressure | TripProbeFailure.
Inductive ResourceExecutorV2 : Type := ExecNative | ExecOrbstack | ExecDocker | ExecVm | ExecUnknown.
Inductive ResourceCacheStateV2 : Type := CacheCold | CacheWarm | CacheMixed | CacheUnknown.
Inductive ResourceExecutionModeV2 : Type := ModeNative | ModeEmulated | ModeUnknown.

Record ResourceExecutionContextV2 : Type := {
  xc_profile : string;
  xc_workload_family : string;
  xc_executor : ResourceExecutorV2;
  xc_cache_state : ResourceCacheStateV2;
  xc_execution_mode : ResourceExecutionModeV2;
  xc_target_platform : option string;
  xc_requested_cpu_millis : option Z;
  xc_requested_memory_bytes : option Z;
}.

Inductive ResourceHistoryError : Type :=
  | NoPersistentDefault
  | HistoryUnsafePath
  | InvalidProfile
  | InvalidContext
  | InvalidLimit
  | InvalidHistory
  | HistoryTooLarge
  | HistoryIo
  | HistorySerialize.

Record ResourceHistoryRecordV1 : Type := {
  h1_schema_version : string;
  h1_policy_version : string;
  h1_platform : string;
  h1_profile : string;
  h1_started_at_unix_seconds : Z;
  h1_duration_milliseconds : Z;
  h1_outcome : ResourceRunOutcome;
  h1_watchdog_trip_reason : option ResourceTripReasonV1;
  h1_sample_count : Z;
  h1_baseline_available_percent : Z;
  h1_minimum_available_percent : Z;
  h1_baseline_reclaimable_uncompressed_bytes : Z;
  h1_minimum_reclaimable_uncompressed_bytes : Z;
  h1_baseline_compressor_occupied_bytes : Z;
  h1_maximum_compressor_occupied_bytes : Z;
  h1_baseline_swap_used_bytes : Z;
  h1_maximum_swap_used_bytes : Z;
  h1_total_memory_bytes : Z;
}.

Record ResourceTripSnapshotV2 : Type := {
  ts_available_percent : Z;
  ts_reclaimable_uncompressed_bytes : Z;
  ts_compressor_occupied_bytes : Z;
  ts_swap_used_bytes : Z;
}.

Record ResourceHistoryRecordV2 : Type := {
  h2_schema_version : string;
  h2_policy_version : string;
  h2_platform : string;
  h2_context : ResourceExecutionContextV2;
  h2_started_at_unix_seconds : Z;
  h2_duration_milliseconds : Z;
  h2_outcome : ResourceRunOutcome;
  h2_watchdog_trip_reason : option ResourceTripReasonV1;
  h2_sample_count : Z;
  h2_baseline_available_percent : Z;
  h2_minimum_available_percent : Z;
  h2_baseline_reclaimable_uncompressed_bytes : Z;
  h2_minimum_reclaimable_uncompressed_bytes : Z;
  h2_baseline_compressor_occupied_bytes : Z;
  h2_maximum_compressor_occupied_bytes : Z;
  h2_baseline_swap_used_bytes : Z;
  h2_maximum_swap_used_bytes : Z;
  h2_total_memory_bytes : Z;
  h2_trip_snapshot : option ResourceTripSnapshotV2;
  h2_terminal_detail : option ResourceTerminalDetailV2;
}.

Record ResourceHistoryReportV2 : Type := {
  hr_schema_version : string;
  hr_record_count : Z;
  hr_records : list ResourceHistoryRecordV2;
}.

(** * Validation *)

Definition label_char (a : ascii) : bool := is_ascii_alphanumeric a || Ascii.eqb a "-" || Ascii.eqb a "_".

Definition validate_label (label : string) : result ResourceHistoryError () :=
  match bytes label with
  | [] => Err InvalidContext
  | first :: _ =>
    ensure (negb ((len label >? MAX_PROFILE_BYTES) || negb (is_ascii_alphanumeric first)
                  || negb (all_bytes label_char label))) InvalidContext
  end.

Definition validate_profile (profile : string) : result ResourceHistoryError () :=
  map_err (λ _, InvalidProfile) (validate_label profile).

Definition context_validate (c : ResourceExecutionContextV2) : result ResourceHistoryError () :=
  _ ← validate_profile (xc_profile c);
  _ ← validate_label (xc_workload_family c);
  _ ← match xc_target_platform c with Some target => validate_label target | None => Ok () end;
  ensure (negb (bool_decide (xc_requested_cpu_millis c = Some 0)
                || bool_decide (xc_requested_memory_bytes c = Some 0))) InvalidContext.

Definition trip_reason (r : WatchdogTripReason) : ResourceTripReasonV1 :=
  match r with
  | HardPressure => TripHardPressure
  | SoftPressure => TripSoftPressure
  | ProbeFailure => TripProbeFailure
  end.

Definition trip_from_summary (o : ResourceObservationSummary) : ResourceTripSnapshotV2 :=
  {| ts_available_percent := sn_available_percent (os_last_snapshot o);
     ts_reclaimable_uncompressed_bytes := sn_reclaimable_uncompressed_bytes (os_last_snapshot o);
     ts_compressor_occupied_bytes := sn_compressor_occupied_bytes (os_last_snapshot o);
     ts_swap_used_bytes := sn_swap_used_bytes (os_last_snapshot o) |}.

Definition trip_validate (t : ResourceTripSnapshotV2) (total_memory_bytes : Z) : result ResourceHistoryError () :=
  ensure (negb ((ts_available_percent t >? 100)
                || (ts_reclaimable_uncompressed_bytes t >? total_memory_bytes)
                || (ts_compressor_occupied_bytes t >? total_memory_bytes))) InvalidContext.

Definition record1_from_summary (profile : string) (started_at_unix_seconds duration_milliseconds : Z)
    (outcome : ResourceRunOutcome) (watchdog_trip_reason : option WatchdogTripReason)
    (o : ResourceObservationSummary) : result ResourceHistoryError ResourceHistoryRecordV1 :=
  _ ← validate_profile profile;
  Ok {| h1_schema_version := RESOURCE_HISTORY_SCHEMA_VERSION; h1_policy_version := MACOS_POLICY_VERSION;
        h1_platform := "macos"; h1_profile := profile; h1_started_at_unix_seconds := started_at_unix_seconds;
        h1_duration_milliseconds := duration_milliseconds; h1_outcome := outcome;
        h1_watchdog_trip_reason := trip_reason <$> watchdog_trip_reason; h1_sample_count := os_sample_count o;
        h1_baseline_available_percent := sn_available_percent (os_baseline o);
        h1_minimum_available_percent := os_minimum_available_percent o;
        h1_baseline_reclaimable_uncompressed_bytes := sn_reclaimable_uncompressed_bytes (os_baseline o);
        h1_minimum_reclaimable_uncompressed_bytes := os_minimum_reclaimable_uncompressed_bytes o;
        h1_baseline_compressor_occupied_bytes := sn_compressor_occupied_bytes (os_baseline o);
        h1_maximum_compressor_occupied_bytes := os_maximum_compressor_occupied_bytes o;
        h1_baseline_swap_used_bytes := sn_swap_used_bytes (os_baseline o);
        h1_maximum_swap_used_bytes := os_maximum_swap_used_bytes o;
        h1_total_memory_bytes := sn_total_memory_bytes (os_baseline o) |}.

Definition record2_from_summary (context : ResourceExecutionContextV2)
    (started_at_unix_seconds duration_milliseconds : Z) (outcome : ResourceRunOutcome)
    (terminal_detail : option ResourceTerminalDetailV2) (watchdog_trip_reason : option WatchdogTripReason)
    (o : ResourceObservationSummary) : result ResourceHistoryError ResourceHistoryRecordV2 :=
  _ ← context_validate context;
  let trip_snapshot := match watchdog_trip_reason with
                       | Some (HardPressure | SoftPressure) => Some (trip_from_summary o)
                       | Some ProbeFailure | None => None
                       end in
  Ok {| h2_schema_version := RESOURCE_HISTORY_V2_SCHEMA_VERSION; h2_policy_version := MACOS_POLICY_VERSION;
        h2_platform := "macos"; h2_context := context; h2_started_at_unix_seconds := started_at_unix_seconds;
        h2_duration_milliseconds := duration_milliseconds; h2_outcome := outcome;
        h2_watchdog_trip_reason := trip_reason <$> watchdog_trip_reason; h2_sample_count := os_sample_count o;
        h2_baseline_available_percent := sn_available_percent (os_baseline o);
        h2_minimum_available_percent := os_minimum_available_percent o;
        h2_baseline_reclaimable_uncompressed_bytes := sn_reclaimable_uncompressed_bytes (os_baseline o);
        h2_minimum_reclaimable_uncompressed_bytes := os_minimum_reclaimable_uncompressed_bytes o;
        h2_baseline_compressor_occupied_bytes := sn_compressor_occupied_bytes (os_baseline o);
        h2_maximum_compressor_occupied_bytes := os_maximum_compressor_occupied_bytes o;
        h2_baseline_swap_used_bytes := sn_swap_used_bytes (os_baseline o);
        h2_maximum_swap_used_bytes := os_maximum_swap_used_bytes o;
        h2_total_memory_bytes := sn_total_memory_bytes (os_baseline o);
        h2_trip_snapshot := trip_snapshot; h2_terminal_detail := terminal_detail |}.

Definition detail_matches (outcome : ResourceRunOutcome) (detail : option ResourceTerminalDetailV2) : bool :=
  match outcome, detail with
  | _, None => true
  | RunCompleted, Some _ => false
  | RunFailed, Some (ChildExit exit_code) => exit_code >? 0
  | RunFailed, Some (ProcessSupervisionFailure | InternalFailure | ResourceMonitorFailure)
  | RunCancelled, Some UserCancelled
  | RunTimedOut, Some DetailTimedOut
  | RunResourcePressure, Some DetailResourcePressure => true
  | _, _ => false
  end.

Definition record2_validate (r : ResourceHistoryRecordV2) : result ResourceHistoryError () :=
  _ ← ensure (h2_schema_version r =? RESOURCE_HISTORY_V2_SCHEMA_VERSION)%string InvalidContext;
  _ ← context_validate (h2_context r);
  _ ← match h2_trip_snapshot r with
      | Some snapshot =>
        _ ← trip_validate snapshot (h2_total_memory_bytes r);
        ensure (match h2_watchdog_trip_reason r with
                | Some (TripHardPressure | TripSoftPressure) => true
                | _ => false
                end) InvalidContext
      | None => Ok ()
      end;
  ensure (detail_matches (h2_outcome r) (h2_terminal_detail r)) InvalidContext.

(** * The root directory *)

(** What [symlink_metadata] says of one component of the root's path; a link
    leads to a directory or not. *)
Inductive component_kind : Type :=
  | ComponentMissing
  | ComponentDir
  | ComponentFile
  | ComponentLink (to_directory : bool)
  | ComponentUnreadable.

(** [hs_entries] is what the root directory holds; nothing when it is missing. *)
Record HistoryStore : Type := {
  hs_absolute : bool;
  hs_components : list (string * component_kind);
  hs_entries : btmap string node;
}.

Definition set_entries (entries : btmap string node) (s : HistoryStore) : HistoryStore :=
  {| hs_absolute := hs_absolute s; hs_components := hs_components s; hs_entries := entries |}.

Definition reject_symlink_component (c : string * component_kind) : result ResourceHistoryError () :=
  match c.2 with
  | ComponentLink _ => Err HistoryUnsafePath
  | ComponentUnreadable => Err HistoryIo
  | _ => Ok ()
  end.

Definition reject_symlink_components (components : list (string * component_kind)) : result ResourceHistoryError () :=
  try_each reject_symlink_component components.

Definition validate_root_candidate (s : HistoryStore) : result ResourceHistoryError () :=
  _ ← ensure (negb (negb (hs_absolute s) || existsb (λ c, (c.1 =? "..")%string) (hs_components s))) HistoryUnsafePath;
  reject_symlink_components (hs_components s).

(** [ResourceHistoryStore::at]. *)
Definition store_at (s : HistoryStore) : result ResourceHistoryError HistoryStore :=
  _ ← validate_root_candidate s;
  Ok s.

(** [fs::create_dir_all]: creates what is missing below directories. *)
Definition create_dir_all_component (c : string * component_kind) :
    result ResourceHistoryError (string * component_kind) :=
  match c.2 with
  | ComponentMissing => Ok (c.1, ComponentDir)
  | ComponentDir | ComponentLink true => Ok c
  | ComponentFile | ComponentLink false | ComponentUnreadable => Err HistoryIo
  end.

Definition ensure_directory (s : HistoryStore) : result ResourceHistoryError HistoryStore :=
  components ← mapM create_dir_all_component (hs_components s);
  _ ← reject_symlink_components components;
  _ ← ensure (match last components with Some (_, ComponentDir) => true | _ => false end) HistoryUnsafePath;
  Ok {| hs_absolute := hs_absolute s; hs_components := components; hs_entries := hs_entries s |}.

(** [platform_root]: the variables of the system's convention. *)
Inductive platform : Type := MacOs | Windows | OtherOs.
Definition platform_root (p : platform) (var : string → option string) : result ResourceHistoryError (list string) :=
  ok_or (match p with
         | MacOs => (λ home, [home; "Library"; "Application Support"; PLATFORM_DIRECTORY]) <$> var "HOME"
         | Windows => (λ base, [base; PLATFORM_DIRECTORY]) <$> var "LOCALAPPDATA"
         | OtherOs =>
           (λ base, base ++ [PLATFORM_DIRECTORY]) <$>
             match var "XDG_STATE_HOME" with
             | Some base => Some [base]
             | None => (λ home, [home; ".local"; "state"]) <$> var "HOME"
             end
         end) NoPersistentDefault.

(** * The files *)

Definition reject_symlink_file (n : option node) (max_bytes : Z) : result ResourceHistoryError () :=
  match n with
  | None => Ok ()
  | Some (File content) => ensure (negb (Z.of_nat (length content) >? max_bytes)) HistoryTooLarge
  | Some _ => Err HistoryUnsafePath
  end.

(** What fails while the file is replaced, and what the temporary file then holds;
    its removal may fail too. *)
Record HistoryFaults : Type := {
  hf_open : bool;
  hf_write : bool;
  hf_partial : list ascii;
  hf_rename : bool;
  hf_remove : bool;
}.

(** [temporary] is the name with the process and the sequence number. *)
Definition temporary_name (history_file : string) (process_id sequence : Z) : string :=
  "." +:+ history_file +:+ ".tmp-" +:+ decimal_text process_id +:+ "-" +:+ decimal_text sequence.

Section Records.
Context {T : Type} `{Codec T}.

Definition read_records (n : option node) : result ResourceHistoryError (list T) :=
  match n with
  | None => Ok []
  | Some (File content) =>
    text ← ok_or (from_utf8 content) InvalidHistory;
    mapM (λ line, ok_or (from_slice (bytes line)) InvalidHistory)
      (filter (λ line, is_empty line = false) (lines text))
  | Some _ => Err HistoryIo
  end.

Definition write_records (records : list T) : result ResourceHistoryError (list ascii) :=
  written ← mapM (λ record, ok_or (to_vec record) HistorySerialize) records;
  Ok (concat ((λ line, line ++ [line_feed]) <$> written)).

Definition write_records_atomic (faults : HistoryFaults) (target temporary : string) (records : list T)
    (entries : btmap string node) : result ResourceHistoryError () * btmap string node :=
  match reject_symlink_file (map_get temporary entries) MAX_HISTORY_V2_BYTES with
  | Err e => (Err e, entries)
  | Ok _ =>
    let discard := λ entries, if hf_remove faults then entries else remove_file temporary entries in
    if hf_open faults || map_contains temporary entries then (Err HistoryIo, discard entries) else
    match write_records records with
    | Err e => (Err e, discard (map_insert temporary (File (hf_partial faults)) entries))
    | Ok content =>
      if hf_write faults then (Err HistoryIo, discard (map_insert temporary (File (hf_partial faults)) entries))
      else if hf_rename faults then (Err HistoryIo, discard (map_insert temporary (File content) entries))
      else (Ok (), map_insert target (File content) entries)
    end
  end.
End Records.

(** [records.drain(..records.len() - keep)]. *)
Definition keep_newest {T} (keep : nat) (records : list T) : list T := drop (length records - keep) records.

Section Store.
Context `{Codec ResourceHistoryRecordV1, Codec ResourceHistoryRecordV2}.

(** The outcome and the store afterwards. *)
Definition append_with_limit (faults : HistoryFaults) (temporary : string) (record : ResourceHistoryRecordV1)
    (limit : nat) (s : HistoryStore) : result ResourceHistoryError () * HistoryStore :=
  if (limit =? 0)%nat then (Err InvalidLimit, s) else
  match ensure_directory s with
  | Err e => (Err e, s)
  | Ok s =>
    match (_ ← reject_symlink_file (map_get HISTORY_FILE (hs_entries s)) MAX_HISTORY_BYTES;
           read_records (map_get HISTORY_FILE (hs_entries s))) with
    | Err e => (Err e, s)
    | Ok records =>
      let records := keep_newest (limit - 1) records ++ [record] in
      let '(outcome, entries) := write_records_atomic faults HISTORY_FILE temporary records (hs_entries s) in
      (outcome, set_entries entries s)
    end
  end.

Definition append_v2_with_limit (faults : HistoryFaults) (temporary : string) (record : ResourceHistoryRecordV2)
    (limit : nat) (s : HistoryStore) : result ResourceHistoryError () * HistoryStore :=
  if (limit =? 0)%nat then (Err InvalidLimit, s) else
  match record2_validate record with
  | Err e => (Err e, s)
  | Ok _ =>
    match ensure_directory s with
    | Err e => (Err e, s)
    | Ok s =>
      match (_ ← reject_symlink_file (map_get HISTORY_V2_FILE (hs_entries s)) MAX_HISTORY_V2_BYTES;
             records ← read_records (map_get HISTORY_V2_FILE (hs_entries s));
             _ ← ensure (negb (DEFAULT_RESOURCE_HISTORY_V2_RECORDS <? length records)%nat) InvalidHistory;
             Ok records) with
      | Err e => (Err e, s)
      | Ok records =>
        let records := keep_newest (limit - 1) records ++ [record] in
        let '(outcome, entries) := write_records_atomic faults HISTORY_V2_FILE temporary records (hs_entries s) in
        (outcome, set_entries entries s)
      end
    end
  end.

Definition append (faults : HistoryFaults) (temporary : string) (record : ResourceHistoryRecordV1) (s : HistoryStore) :=
  append_with_limit faults temporary record DEFAULT_RESOURCE_HISTORY_RECORDS s.
Definition append_v2 (faults : HistoryFaults) (temporary : string) (record : ResourceHistoryRecordV2) (s : HistoryStore) :=
  append_v2_with_limit faults temporary record DEFAULT_RESOURCE_HISTORY_V2_RECORDS s.

Definition report_v2 (s : HistoryStore) : result ResourceHistoryError ResourceHistoryReportV2 :=
  _ ← reject_symlink_file (map_get HISTORY_V2_FILE (hs_entries s)) MAX_HISTORY_V2_BYTES;
  records ← read_records (map_get HISTORY_V2_FILE (hs_entries s));
  _ ← ensure (negb (DEFAULT_RESOURCE_HISTORY_V2_RECORDS <? length records)%nat) InvalidHistory;
  _ ← try_each (λ record, map_err (λ _, InvalidHistory) (record2_validate record)) records;
  Ok {| hr_schema_version := RESOURCE_HISTORY_V2_SCHEMA_VERSION; hr_record_count := Z.of_nat (length records);
        hr_records := records |}.
End Store.
