(* ===== verification/ResourceHistoryClaims.v ===== *)
(** What the history of resource observations keeps ([ResourceHistory.v]). *)
From S2P Require Import Prelude.
From S2P Require Import RustStr.
From S2P Require Import BTree.
From S2P Require Import Canonical.
From S2P Require Import Durable.
From S2P Require Import Resource.
From S2P Require Import ResourceHistory.
Local Open Scope Z_scope.

(** * Lines *)

(** What [serde_json] documents of the text of a record: it is UTF-8 without
    control characters, not empty, and reads back. *)
Class LineLaws (T : Type) `{Codec T} := line_law : ∀ (x : T) b, to_vec x = Some b →
  b ≠ [] ∧ Forall (λ a, 32 ≤ code a) b ∧ valid_utf8 b = true ∧ from_slice b = Some x.

Definition unlines (ls : list (list ascii)) : list ascii := concat ((λ l, l ++ [line_feed]) <$> ls).

Lemma split_no_sep c l : Forall (λ a, a ≠ c) l → split_list c l = [l].
Proof.
  induction l as [|a l IH]; [done|]. intros [Ha Hl]%Forall_cons. cbn. rewrite IH by done.
  destruct (Ascii.eqb_spec a c); done.
Qed.

Lemma split_unlines ls : Forall (Forall (λ a, a ≠ line_feed)) ls → split_list line_feed (unlines ls) = ls ++ [[]].
Proof.
  induction ls as [|l ls IH]; [done|]. intros [Hl Hls]%Forall_cons. unfold unlines. cbn.
  rewrite <-app_assoc. cbn [app]. rewrite split_list_app, split_no_sep, <-IH by done. done.
Qed.

Lemma strip_cr_keep l : Forall (λ a, a ≠ carriage_return) l → strip_cr l = l.
Proof.
  intros Hl. unfold strip_cr. destruct (reverse l) as [|c r] eqn:E; [done|].
  destruct (Ascii.eqb_spec c carriage_return) as [->|]; [|done]. exfalso.
  rewrite Forall_forall in Hl. apply (Hl carriage_return); [|done].
  rewrite <-(reverse_involutive l), E, reverse_cons. set_solver.
Qed.

Lemma lines_list_snoc ls : lines_list (ls ++ [[]]) = strip_cr <$> ls.
Proof.
  induction ls as [|l ls IH]; [done|]. cbn. rewrite IH. by destruct ls.
Qed.

Lemma printable_ne a : 32 ≤ code a → a ≠ line_feed ∧ a ≠ carriage_return.
Proof. intros Ha. split; intros ->; vm_compute in Ha; by apply Ha. Qed.

Lemma valid_unlines ls : Forall (λ l, valid_utf8 l = true) ls → valid_utf8 (unlines ls) = true.
Proof.
  unfold unlines. induction 1 as [|l ls Hl _ IH]; [done|]. cbn [fmap list_fmap concat].
  rewrite <-app_assoc, valid_utf8_app by done. rewrite valid_utf8_app; done.
Qed.

Section Records.
Context {T : Type} `{LineLaws T}.

Lemma written_lines (rs : list T) written :
  mapM (λ record, ok_or (to_vec record) HistorySerialize) rs = Ok written →
  Forall (λ b, b ≠ [] ∧ Forall (λ a, 32 ≤ code a) b ∧ valid_utf8 b = true) written ∧
  mapM (λ b, ok_or (from_slice b) InvalidHistory) written = Ok rs.
Proof.
  revert written. induction rs as [|r rs IH]; intros written Hw; cbn in Hw.
  { res_inv. by subst. }
  res_inv. subst. rename select (to_vec r = _) into Hr. rename select (mapM _ rs = _) into Hrs.
  apply line_law in Hr as (H1 & H2 & H3 & H4). apply IH in Hrs as [Hf Hm]. split; [by constructor|].
  cbn. rewrite H4. cbn. by rewrite Hm.
Qed.

(** What was written reads back. *)
Lemma read_written (rs : list T) content :
  write_records rs = Ok content → read_records (Some (File content)) = Ok rs.
Proof.
  unfold write_records. intros Hw. res_inv. subst content. rename select (list (list ascii)) into written.
  rename select (mapM _ _ = _) into Hm. apply written_lines in Hm as [Hf Hm]. fold (unlines written).
  unfold read_records, from_utf8, lines.
  rewrite valid_unlines by (eapply Forall_impl; [exact Hf|]; naive_solver). cbn [ok_or mbind result_bind].
  rewrite bytes_str, split_unlines, lines_list_snoc.
  2:{ eapply Forall_impl; [exact Hf|]. intros b (_ & Hb & _). eapply Forall_impl; [exact Hb|]. apply printable_ne. }
  assert (E : filter (λ line, is_empty line = false) (str <$> (strip_cr <$> written)) = str <$> written).
  { clear Hm. induction Hf as [|b written (Hne & Hb & _) _ IH]; [done|]. rewrite !fmap_cons, strip_cr_keep.
    2:{ eapply Forall_impl; [exact Hb|]. apply printable_ne. }
    rewrite filter_cons, decide_True, IH; [done|]. by destruct b. }
  rewrite E. clear E Hf. rewrite <-Hm. clear Hm. induction written as [|b written IH]; [done|].
  cbn. rewrite bytes_str, IH. done.
Qed.
End Records.

Lemma keep_newest_snoc {T} (n : nat) (l : list T) x : keep_newest (S n) (l ++ [x]) = keep_newest n l ++ [x].
Proof.
  unfold keep_newest. rewrite length_app. cbn [length]. replace (length l + 1 - S n)%nat with (length l - n)%nat by lia.
  rewrite drop_app_le by lia. done.
Qed.

Lemma keep_newest_again {T} (n : nat) (l : list T) : keep_newest n (keep_newest (S n) l) = keep_newest n l.
Proof.
  unfold keep_newest. rewrite length_drop, drop_drop. f_equal. lia.
Qed.

Lemma length_keep_newest {T} (n : nat) (l : list T) : (length (keep_newest n l) ≤ n)%nat.
Proof. unfold keep_newest. rewrite length_drop. lia. Qed.

(** * One append *)

Section Store.
Context `{Codec ResourceHistoryRecordV1} {codec : Codec ResourceHistoryRecordV2} {laws : LineLaws ResourceHistoryRecordV2}.

(** The file of the history holds the records [rs]. *)
Definition holds (n : option node) (rs : list ResourceHistoryRecordV2) : Prop :=
  match n with
  | None => rs = []
  | Some (File content) => write_records rs = Ok content
  | Some _ => False
  end.

Record history_ok (s : HistoryStore) (rs : list ResourceHistoryRecordV2) : Prop := {
  ho_file : holds (map_get HISTORY_V2_FILE (hs_entries s)) rs;
  ho_length : (length rs ≤ 500)%nat;
  ho_valid : Forall (λ r, record2_validate r = Ok ()) rs;
}.

Lemma holds_read n rs : holds n rs → read_records n = Ok rs.
Proof. destruct n as [[]|]; cbn [holds]; [apply read_written|done..|by intros ->]. Qed.

Lemma discard_other faults temporary entries k :
  k ≠ temporary → map_get k (if hf_remove faults then entries else remove_file temporary entries) = map_get k entries.
Proof.
  intros Hk. destruct (hf_remove faults); [done|]. unfold remove_file.
  destruct (map_get temporary entries) as [[]|]; try done; rewrite map_get_filter_ne; by rewrite decide_False.
Qed.

(** Replacing the file is atomic: it has the new records or is as before. *)
Lemma write_records_atomic_get faults target temporary (rs : list ResourceHistoryRecordV2) entries outcome entries' :
  target ≠ temporary → write_records_atomic faults target temporary rs entries = (outcome, entries') →
  (outcome = Ok () ∧ ∃ content, write_records rs = Ok content ∧ map_get target entries' = Some (File content)) ∨
  (outcome ≠ Ok () ∧ map_get target entries' = map_get target entries).
Proof.
  intros Hne. unfold write_records_atomic. destruct (reject_symlink_file _ _) as [u|e].
  2:{ intros [= <- <-]. by right. }
  destruct (hf_open faults || _). { intros [= <- <-]. right. by rewrite discard_other. }
  destruct (write_records rs) as [content|e].
  2:{ intros [= <- <-]. right. by rewrite discard_other, map_get_insert, decide_False. }
  destruct (hf_write faults). { intros [= <- <-]. right. by rewrite discard_other, map_get_insert, decide_False. }
  destruct (hf_rename faults). { intros [= <- <-]. right. by rewrite discard_other, map_get_insert, decide_False. }
  intros [= <- <-]. left. split; [done|]. exists content. by rewrite map_get_insert, decide_True.
Qed.

Lemma ensure_directory_entries s s' : ensure_directory s = Ok s' → hs_entries s' = hs_entries s.
Proof. unfold ensure_directory. intros Hs. res_inv. by subst. Qed.

Lemma append_v2_step faults temporary r s rs outcome s' :
  temporary ≠ HISTORY_V2_FILE → history_ok s rs → append_v2 faults temporary r s = (outcome, s') →
  (outcome = Ok () ∧ history_ok s' (keep_newest 500 (rs ++ [r]))) ∨
  (outcome ≠ Ok () ∧ history_ok s' rs ∧
   map_get HISTORY_V2_FILE (hs_entries s') = map_get HISTORY_V2_FILE (hs_entries s)).
Proof.
  intros Hne [Hf Hl Hv]. unfold append_v2, append_v2_with_limit. cbn [Nat.eqb DEFAULT_RESOURCE_HISTORY_V2_RECORDS].
  destruct (record2_validate r) as [[]|e] eqn:Er. 2:{ intros [= <- <-]. by right. }
  destruct (ensure_directory s) as [s1|e] eqn:Ed. 2:{ intros [= <- <-]. by right. }
  apply ensure_directory_entries in Ed. rewrite <-Ed in Hf. rewrite <-Ed.
  destruct (reject_symlink_file _ _) as [u|e]. 2:{ intros [= <- <-]. by right. }
  cbn [mbind result_bind]. rewrite (holds_read _ _ Hf). cbn [mbind result_bind].
  destruct (negb _) eqn:En. 2:{ apply negb_false_iff in En. bool_prop. unfold DEFAULT_RESOURCE_HISTORY_V2_RECORDS in En. lia. }
  cbn [ensure mbind result_bind]. destruct (write_records_atomic _ _ _ _ _) as [out entries] eqn:Ew.
  intros [= <- <-]. apply write_records_atomic_get in Ew as [(-> & content & Hc & Hg)|[Hout Hg]]; [|..|done].
  - left. split; [done|]. change (500 - 1)%nat with 499%nat in Hc. rewrite <-keep_newest_snoc in Hc.
    constructor; [cbn; by rewrite Hg|apply length_keep_newest|]. unfold keep_newest. apply Forall_drop, Forall_app.
    split; [done|]. by constructor.
  - right. split; [done|]. split; [|exact Hg]. constructor; cbn [set_entries hs_entries]; [by rewrite Hg|done..].
Qed.

(** * Sequences of appends *)

(** The store after the attempts, and the records whose append succeeded. *)
Fixpoint attempts (steps : list (HistoryFaults * string * ResourceHistoryRecordV2)) (s : HistoryStore) :
    list ResourceHistoryRecordV2 * HistoryStore :=
  match steps with
  | [] => ([], s)
  | (faults, temporary, r) :: steps =>
    let '(outcome, s) := append_v2 faults temporary r s in
    let '(recorded, s) := attempts steps s in
    (if is_ok outcome then r :: recorded else recorded, s)
  end.

Lemma attempts_ok steps s all recorded s' :
  Forall (λ st, st.1.2 ≠ HISTORY_V2_FILE) steps →
  history_ok s (keep_newest 500 all) → attempts steps s = (recorded, s') →
  history_ok s' (keep_newest 500 (all ++ recorded)).
Proof.
  revert s all recorded. induction steps as [|[[faults temporary] r] steps IH]; intros s all recorded Ht Hs Ha.
  { cbn in Ha. injection Ha as <- <-. by rewrite app_nil_r. }
  apply Forall_cons in Ht as [Hne Ht]. cbn [attempts] in Ha.
  destruct (append_v2 _ _ _ _) as [outcome s1] eqn:E1. destruct (attempts steps s1) as [rec2 s2] eqn:E2.
  injection Ha as <- <-. apply (append_v2_step _ _ _ _ _ _ _ Hne Hs) in E1 as [[-> H1]|(Hout & H1 & _)].
  - cbn [is_ok]. rewrite (cons_middle r all rec2), app_assoc. eapply IH; [done| |exact E2].
    rewrite keep_newest_snoc, keep_newest_again, <-keep_newest_snoc in H1. done.
  - assert (Hf : is_ok outcome = false) by by destruct outcome as [[]|]. rewrite Hf. by eapply IH.
Qed.

Definition history_size (s : HistoryStore) : Z :=
  match map_get HISTORY_V2_FILE (hs_entries s) with Some (File content) => Z.of_nat (length content) | _ => 0 end.

Lemma reject_file_size n rs max :
  0 ≤ max → holds n rs →
  reject_symlink_file n max =
  if bool_decide (match n with Some (File content) => Z.of_nat (length content) | _ => 0 end ≤ max)
  then Ok () else Err HistoryTooLarge.
Proof.
  intros Hmax Hh. unfold reject_symlink_file, ensure. destruct n as [[content| | |]|]; [|done..|by rewrite bool_decide_true].
  rewrite Z.gtb_ltb. case_bool_decide; destruct (max <? _) eqn:E; bool_prop; (done || lia).
Qed.

(** The history is the newest 500 of the records whose append succeeded, in
    their order, whatever failed in the other attempts: an append that fails
    leaves the history as it was.  The report shows exactly that, unless the file
    has grown over its size limit, which it then reports. *)
Theorem history_keeps_newest (steps : list (HistoryFaults * string * ResourceHistoryRecordV2)) (s s' : HistoryStore)
    (recorded : list ResourceHistoryRecordV2) :
  map_get HISTORY_V2_FILE (hs_entries s) = None →
  Forall (λ st, st.1.2 ≠ HISTORY_V2_FILE) steps → attempts steps s = (recorded, s') →
  let newest := drop (length recorded - 500) recorded in
  report_v2 s' = if bool_decide (history_size s' ≤ MAX_HISTORY_V2_BYTES)
    then Ok {| hr_schema_version := "2.0"; hr_record_count := Z.of_nat (length newest); hr_records := newest |}
    else Err HistoryTooLarge.
Proof.
  intros Hs Ht Ha newest. assert (Hinit : history_ok s (keep_newest 500 [])).
  { constructor; [by rewrite Hs|cbn; lia|constructor]. }
  destruct (attempts_ok _ _ _ _ _ Ht Hinit Ha) as [Hf Hl Hv]. cbn [app] in *. change (keep_newest 500 recorded) with newest in *.
  unfold report_v2, history_size. rewrite (reject_file_size _ newest) by done.
  case_bool_decide as D; [|done]. cbn [mbind result_bind]. rewrite (holds_read _ _ Hf). cbn [mbind result_bind].
  assert (Hn : (DEFAULT_RESOURCE_HISTORY_V2_RECORDS <? length newest)%nat = false) by (apply Nat.ltb_ge; exact Hl).
  assert (Hval : try_each (λ record, map_err (λ _, InvalidHistory) (record2_validate record)) newest = Ok ()).
  { apply try_each_ok. eapply Forall_impl; [exact Hv|]. intros r Hr. by apply map_err_ok. }
  rewrite Hn, Hval. done.
Qed.
End Store.

(** * Records of observations *)

(** What a watchdog observed of valid samples of one machine. *)
Inductive observed (total : Z) : ResourceObservationSummary → Prop :=
  | observed_new baseline :
    validate_snapshot baseline = Ok () → sn_total_memory_bytes baseline = total →
    observed total (new_observation baseline)
  | observed_sample o s :
    observed total o → validate_snapshot s = Ok () → sn_total_memory_bytes s = total →
    observed total (record_snapshot o s).

Lemma snapshot_bounds s :
  validate_snapshot s = Ok () →
  sn_available_percent s ≤ 100 ∧ sn_reclaimable_uncompressed_bytes s ≤ sn_total_memory_bytes s ∧
  sn_compressor_occupied_bytes s ≤ sn_total_memory_bytes s.
Proof.
  unfold validate_snapshot, MAX_PERCENT. intros Hs. res_inv. rewrite !Z.gtb_ltb in *. bool_prop. lia.
Qed.

Lemma observed_last total o :
  observed total o → sn_total_memory_bytes (os_baseline o) = total ∧ trip_validate (trip_from_summary o) total = Ok ().
Proof.
  intros Ho. assert (Hlast : validate_snapshot (os_last_snapshot o) = Ok () ∧
    sn_total_memory_bytes (os_last_snapshot o) = total ∧ sn_total_memory_bytes (os_baseline o) = total)
    by (induction Ho as [|o s _ (? & ? & ?)]; done).
  destruct Hlast as ((H1 & H2 & H3)%snapshot_bounds & H4 & H5). split; [done|]. unfold trip_validate. cbn.
  rewrite !Z.gtb_ltb, !(proj2 (Z.ltb_ge _ _)) by lia. done.
Qed.

(** A record that is made of what the watchdog observed can be appended: when
    its terminal detail agrees with its outcome it passes the validation of the
    history, whether or not the watchdog tripped. *)
Theorem observed_record_valid (total : Z) (o : ResourceObservationSummary) (context : ResourceExecutionContextV2)
    (started duration : Z) (outcome : ResourceRunOutcome) (detail : option ResourceTerminalDetailV2)
    (trip : option WatchdogTripReason) (r : ResourceHistoryRecordV2) :
  observed total o → detail_matches outcome detail = true →
  record2_from_summary context started duration outcome detail trip o = Ok r → record2_validate r = Ok ().
Proof.
  intros [Ht Hv]%observed_last Hd Hr. unfold record2_from_summary in Hr. res_inv. subst r.
  rename select (context_validate _ = _) into Hc. unfold record2_validate. cbn. rewrite Hc, Hd, Ht. cbn.
  destruct trip as [[]|]; cbn; by rewrite ?Hv.
Qed.

(** * Example *)

Module ResourceHistoryExample.

Definition snapshot (available : Z) : ResourceSnapshot :=
  {| sn_available_percent := available; sn_reclaimable_uncompressed_bytes := 4000; sn_compressor_occupied_bytes := 100;
     sn_total_memory_bytes := 16000; sn_swap_used_bytes := 0; sn_swap_total_bytes := 1000 |}.

Definition summary : ResourceObservationSummary := record_snapshot (new_observation (snapshot 60)) (snapshot 3).

Definition context (profile : string) : ResourceExecutionContextV2 :=
  {| xc_profile := profile; xc_workload_family := "linux-ci-v1"; xc_executor := ExecOrbstack;
     xc_cache_state := CacheWarm; xc_execution_mode := ModeNative; xc_target_platform := Some "linux-amd64";
     xc_requested_cpu_millis := Some 2000; xc_requested_memory_bytes := None |}.

Definition record (profile : string) : ResourceHistoryRecordV2 :=
  match record2_from_summary (context profile) 1700000000 1200 RunResourcePressure (Some DetailResourcePressure)
          (Some HardPressure) summary with
  | Ok r => r
  | Err _ => {| h2_schema_version := ""; h2_policy_version := ""; h2_platform := ""; h2_context := context "";
       h2_started_at_unix_seconds := 0; h2_duration_milliseconds := 0; h2_outcome := RunFailed;
       h2_watchdog_trip_reason := None; h2_sample_count := 0; h2_baseline_available_percent := 0;
       h2_minimum_available_percent := 0; h2_baseline_reclaimable_uncompressed_bytes := 0;
       h2_minimum_reclaimable_uncompressed_bytes := 0; h2_baseline_compressor_occupied_bytes := 0;
       h2_maximum_compressor_occupied_bytes := 0; h2_baseline_swap_used_bytes := 0;
       h2_maximum_swap_used_bytes := 0; h2_total_memory_bytes := 0; h2_trip_snapshot := None;
       h2_terminal_detail := None |}
  end.

#[local] Instance ResourceRunOutcome_eq_dec : EqDecision ResourceRunOutcome.
Proof. solve_decision. Defined.
#[local] Instance ResourceTerminalDetailV2_eq_dec : EqDecision ResourceTerminalDetailV2.
Proof. solve_decision. Defined.
#[local] Instance ResourceTripReasonV1_eq_dec : EqDecision ResourceTripReasonV1.
Proof. solve_decision. Defined.
#[local] Instance ResourceExecutorV2_eq_dec : EqDecision ResourceExecutorV2.
Proof. solve_decision. Defined.
#[local] Instance ResourceCacheStateV2_eq_dec : EqDecision ResourceCacheStateV2.
Proof. solve_decision. Defined.
#[local] Instance ResourceExecutionModeV2_eq_dec : EqDecision ResourceExecutionModeV2.
Proof. solve_decision. Defined.
#[local] Instance ResourceExecutionContextV2_eq_dec : EqDecision ResourceExecutionContextV2.
Proof. solve_decision. Defined.
#[local] Instance ResourceTripSnapshotV2_eq_dec : EqDecision ResourceTripSnapshotV2.
Proof. solve_decision. Defined.
#[local] Instance ResourceHistoryRecordV2_eq_dec : EqDecision ResourceHistoryRecordV2.
Proof. solve_decision. Defined.

(** A codec that knows the records of the example by their profiles. *)
Definition known : list string := ["ready"; "full"; "docs"].
#[local] Instance codec1 : Codec ResourceHistoryRecordV1 := {| to_vec := λ _, None; from_slice := λ _, None |}.
#[local] Instance codec2 : Codec ResourceHistoryRecordV2 :=
  {| to_vec := λ r, let profile := xc_profile (h2_context r) in
                    if existsb (String.eqb profile) known && bool_decide (r = record profile)
                    then Some (bytes profile) else None;
     from_slice := λ b, Some (record (str b)) |}.

#[local] Instance codec2_laws : LineLaws ResourceHistoryRecordV2.
Proof.
  intros r b. cbn [to_vec from_slice codec2]. destruct (_ && _) eqn:E; [|done]. intros [= <-].
  apply andb_true_iff in E as [Hk Hr%bool_decide_eq_true]. rewrite str_bytes, <-Hr.
  apply existsb_exists in Hk as (x & Hx & ->%String.eqb_eq). clear Hr.
  repeat (destruct Hx as [<-|Hx]; [split_and!; try done; repeat constructor; vm_compute; discriminate|]). done.
Qed.

Definition no_fault : HistoryFaults :=
  {| hf_open := false; hf_write := false; hf_partial := []; hf_rename := false; hf_remove := false |}.
Definition disk_full : HistoryFaults :=
  {| hf_open := false; hf_write := true; hf_partial := bytes "re"; hf_rename := false; hf_remove := true |}.

Definition home : HistoryStore :=
  {| hs_absolute := true; hs_components := [("/", ComponentDir); ("home", ComponentDir); ("ccp", ComponentMissing)];
     hs_entries := [] |}.

Definition steps : list (HistoryFaults * string * ResourceHistoryRecordV2) :=
  [(no_fault, temporary_name HISTORY_V2_FILE 71 0, record "ready");
   (disk_full, temporary_name HISTORY_V2_FILE 71 1, record "full");
   (no_fault, temporary_name HISTORY_V2_FILE 72 0, record "docs")].
Definition after : HistoryStore := (attempts steps home).2.

Lemma history_keeps_newest_witness :
  report_v2 after = Ok {| hr_schema_version := "2.0"; hr_record_count := 2; hr_records := [record "ready"; record "docs"] |}.
Proof.
  rewrite (history_keeps_newest steps home after [record "ready"; record "docs"]).
  - vm_compute. reflexivity.
  - reflexivity.
  - repeat (apply Forall_cons_2 || apply Forall_nil_2); vm_compute; discriminate.
  - vm_compute. reflexivity.
Defined.

Lemma observed_record_valid_witness : record2_validate (record "ready") = Ok ().
Proof.
  apply (observed_record_valid 16000 summary (context "ready") 1700000000 1200 RunResourcePressure
    (Some DetailResourcePressure) (Some HardPressure)); [|reflexivity|vm_compute; reflexivity].
  apply observed_sample; [apply observed_new|..]; reflexivity.
Defined.
End ResourceHistoryExample.
