(* ===== verification/AgentSession.v ===== *)
(** The identity of an agent's session ([src/src/agent_session.rs]): the parent
    process with its start and the boot of the machine, and what a later look at
    the platform says of them. *)
From S2P Require Import Prelude.
From S2P Require Import RustStr.
From S2P Require Import Canonical.
Local Open Scope Z_scope.

(** * Data *)

Record AgentSessionIdentity : Type := {
  as_parent_pid : Z;
  as_parent_start : string;
  as_boot_id : string;
}.

Inductive SessionObservation : Type := Live | LostParent | Reparented | Rebooted | Ambiguous | Unsupported.

Inductive AgentSessionError : Type :=
  | InvalidParentPid
  | InvalidPlatformOutput (field : string)
  | SessionIo
  | ProcessNotFound
  | SessionUnsupported.

Record ProcessSnapshot : Type := {
  ps_pid : Z;
  ps_start : string;
}.

#[global] Instance SessionObservation_eq_dec : EqDecision SessionObservation.
Proof. solve_decision. Defined.

(** [PlatformProbe]: what each call of one capture or observation answers; the
    boot and the parent are read twice. *)
Record PlatformProbe : Type := {
  pp_boot_before : result AgentSessionError string;
  pp_parent_before : result AgentSessionError Z;
  pp_process_snapshot : Z → result AgentSessionError (option ProcessSnapshot);
  pp_parent_after : result AgentSessionError Z;
  pp_boot_after : result AgentSessionError string;
}.

(** * Capture and observation *)

Definition capture_with_probe (parent_pid : Z) (probe : PlatformProbe) :
    result AgentSessionError AgentSessionIdentity :=
  _ ← ensure (negb (parent_pid =? 0)) InvalidParentPid;
  parent_before ← pp_parent_before probe;
  _ ← ensure (negb (negb (parent_before =? parent_pid) || (parent_before =? 1)))
        (InvalidPlatformOutput "parent process");
  boot_before ← pp_boot_before probe;
  snapshot ← pp_process_snapshot probe parent_pid;
  snapshot ← ok_or snapshot ProcessNotFound;
  _ ← ensure (ps_pid snapshot =? parent_pid) (InvalidPlatformOutput "parent process");
  parent_after ← pp_parent_after probe;
  boot_after ← pp_boot_after probe;
  _ ← ensure (negb (negb (parent_before =? parent_after) || negb (boot_before =? boot_after)%string))
        (InvalidPlatformOutput "stable session evidence");
  Ok {| as_parent_pid := parent_pid; as_parent_start := ps_start snapshot; as_boot_id := boot_before |}.

Definition incomplete_identity (i : AgentSessionIdentity) : bool :=
  (as_parent_pid i =? 0) || is_empty (as_parent_start i) || is_empty (as_boot_id i).

Definition classify_observation (i : AgentSessionIdentity) (observed_boot_id : string) (current_parent_pid : Z)
    (snapshot : option ProcessSnapshot) : SessionObservation :=
  if incomplete_identity i then Ambiguous
  else if negb (as_boot_id i =? observed_boot_id)%string then Rebooted
  else match snapshot with
       | None => if current_parent_pid =? as_parent_pid i then Ambiguous else LostParent
       | Some snapshot =>
         if negb (ps_pid snapshot =? as_parent_pid i) || negb (ps_start snapshot =? as_parent_start i)%string
         then Ambiguous
         else if negb (current_parent_pid =? as_parent_pid i) then Reparented
         else Live
       end.

Definition observe_with_probe (i : AgentSessionIdentity) (probe : PlatformProbe) : SessionObservation :=
  if incomplete_identity i then Ambiguous else
  match pp_boot_before probe with
  | Err _ => Unsupported
  | Ok boot_before =>
    if negb (boot_before =? as_boot_id i)%string then Rebooted else
    match pp_parent_before probe with
    | Err _ => Unsupported
    | Ok parent_before =>
      match pp_process_snapshot probe (as_parent_pid i) with
      | Err _ => Unsupported
      | Ok snapshot =>
        match pp_parent_after probe with
        | Err _ => Unsupported
        | Ok parent_after =>
          match pp_boot_after probe with
          | Err _ => Unsupported
          | Ok boot_after =>
            if negb (boot_before =? boot_after)%string || negb (parent_before =? parent_after) then Ambiguous
            else if negb (boot_before =? as_boot_id i)%string then Rebooted
            else classify_observation i boot_before parent_before snapshot
          end
        end
      end
    end
  end.

(** * The platform *)

Definition i32_max : Z := 2 ^ 31 - 1.

(** What [proc_pidinfo] and the probing signal answer. *)
Inductive kill_answer : Type := KillNoProcess | KillDelivered | KillRefused.
Record proc_bsdinfo : Type := {
  pbi_actual_size : Z;
  pbi_pid : Z;
  pbi_start_tvsec : Z;
  pbi_start_tvusec : Z;
  pbi_kill : kill_answer;
}.

(** [info] answers for a process identifier; [size] is the size of the structure. *)
Definition process_snapshot (macos : bool) (size : Z) (info : Z → proc_bsdinfo) (parent_pid : Z) :
    result AgentSessionError (option ProcessSnapshot) :=
  if macos then
    _ ← ensure (parent_pid <=? i32_max) (InvalidPlatformOutput "parent PID");
    _ ← ensure (size <=? i32_max) (InvalidPlatformOutput "process snapshot");
    let answer := info parent_pid in
    if pbi_actual_size answer =? size then
      _ ← ensure (pbi_pid answer =? parent_pid) (InvalidPlatformOutput "process PID");
      Ok (Some {| ps_pid := pbi_pid answer;
                  ps_start := decimal_text (pbi_start_tvsec answer) +:+ "." +:+ decimal_text (pbi_start_tvusec answer) |})
    else
      _ ← ensure (pbi_actual_size answer =? 0) (InvalidPlatformOutput "process snapshot");
      match pbi_kill answer with
      | KillNoProcess => Ok None
      | KillDelivered | KillRefused => Err SessionUnsupported
      end
  else Err SessionUnsupported.

(** [getppid]. *)
Definition current_parent_pid (macos : bool) (parent : Z) : result AgentSessionError Z :=
  if macos then ensure (0 <=? parent) SessionUnsupported ≫= λ _, Ok parent else Err SessionUnsupported.

(** * The capability *)

Definition CAPABILITY_PREFIX : list ascii := bytes "commit-ci-preflight-agent-session-capability-v1" ++ [zero].

Definition digest_capability `{Backend} (capability : list ascii) : string :=
  "sha256:" +:+ encode_hex (sha256 (CAPABILITY_PREFIX ++ capability)).

(** * What an observation promises *)

(** The evidence of both reads, when they succeed and agree. *)
Definition steady (probe : PlatformProbe) (boot : string) (parent : Z) : Prop :=
  pp_boot_before probe = Ok boot ∧ pp_boot_after probe = Ok boot ∧
  pp_parent_before probe = Ok parent ∧ pp_parent_after probe = Ok parent.

Definition complete_identity (i : AgentSessionIdentity) : Prop :=
  as_parent_pid i ≠ 0 ∧ as_parent_start i ≠ "" ∧ as_boot_id i ≠ "".

Lemma incomplete_false i : incomplete_identity i = false ↔ complete_identity i.
Proof.
  unfold incomplete_identity, complete_identity, is_empty. rewrite !orb_false_iff, Z.eqb_neq, !String.eqb_neq. tauto.
Qed.

Lemma observation_cases (i : AgentSessionIdentity) (probe : PlatformProbe) :
  (observe_with_probe i probe = Live ↔
   complete_identity i ∧ steady probe (as_boot_id i) (as_parent_pid i) ∧
   pp_process_snapshot probe (as_parent_pid i)
   = Ok (Some {| ps_pid := as_parent_pid i; ps_start := as_parent_start i |})) ∧
  (observe_with_probe i probe = LostParent ↔
   complete_identity i ∧ pp_process_snapshot probe (as_parent_pid i) = Ok None ∧
   ∃ parent, steady probe (as_boot_id i) parent ∧ parent ≠ as_parent_pid i) ∧
  (observe_with_probe i probe = Reparented ↔
   complete_identity i ∧
   pp_process_snapshot probe (as_parent_pid i)
   = Ok (Some {| ps_pid := as_parent_pid i; ps_start := as_parent_start i |}) ∧
   ∃ parent, steady probe (as_boot_id i) parent ∧ parent ≠ as_parent_pid i) ∧
  (observe_with_probe i probe = Rebooted ↔
   complete_identity i ∧ ∃ boot, pp_boot_before probe = Ok boot ∧ boot ≠ as_boot_id i).
Proof.
  unfold observe_with_probe. destruct (incomplete_identity i) eqn:Ei.
  { assert (¬ complete_identity i) by (rewrite <-incomplete_false; congruence). naive_solver. }
  pose proof (proj1 (incomplete_false i) Ei) as Hi. unfold steady.
  destruct (pp_boot_before probe) as [b1|]; [|naive_solver].
  destruct (String.eqb_spec b1 (as_boot_id i)) as [->|Hb]; cbn [negb]; [|naive_solver].
  destruct (pp_parent_before probe) as [p1|]; [|naive_solver].
  destruct (pp_process_snapshot probe _) as [snap|]; [|naive_solver].
  destruct (pp_parent_after probe) as [p2|]; [|naive_solver].
  destruct (pp_boot_after probe) as [b2|]; [|naive_solver].
  destruct (String.eqb_spec (as_boot_id i) b2) as [<-|Hb2]; cbn [negb orb]; [|naive_solver].
  destruct (Z.eqb_spec p1 p2) as [<-|Hp]; cbn [negb]; [|naive_solver].
  unfold classify_observation. rewrite Ei, String.eqb_refl. cbn [negb].
  destruct snap as [[pid start]|]; cbn [ps_pid ps_start].
  - destruct (Z.eqb_spec pid (as_parent_pid i)) as [->|]; cbn [negb orb]; [|naive_solver].
    destruct (String.eqb_spec start (as_parent_start i)) as [->|]; cbn [negb]; [|naive_solver].
    destruct (Z.eqb_spec p1 (as_parent_pid i)) as [->|]; cbn [negb]; naive_solver.
  - destruct (Z.eqb_spec p1 (as_parent_pid i)) as [->|]; naive_solver.
Qed.

(** The start a snapshot names is not empty. *)
Lemma snapshot_start_named macos size info pid snap :
  process_snapshot macos size info pid = Ok (Some snap) → ps_start snap ≠ "".
Proof.
  unfold process_snapshot. destruct macos; [|done]. intros Hs. res_inv.
  destruct (_ =? _); res_inv; [subst snap|destruct (pbi_kill _); done].
  cbn. intros E. apply (f_equal bytes) in E. rewrite !bytes_append in E. by destruct (bytes (decimal_text _)).
Qed.

(** * Theorems *)

(** A session is reported live exactly when nothing can have changed: the
    identity is complete, both reads of the boot and of the parent agree with it,
    and the process with its number is there and started when it says.  That the
    parent is lost or has changed is only reported in the same boot, on the word
    of both reads. *)
Theorem session_observation_exact (i : AgentSessionIdentity) (probe : PlatformProbe) :
  (observe_with_probe i probe = Live ↔
   complete_identity i ∧ steady probe (as_boot_id i) (as_parent_pid i) ∧
   pp_process_snapshot probe (as_parent_pid i)
   = Ok (Some {| ps_pid := as_parent_pid i; ps_start := as_parent_start i |})) ∧
  (observe_with_probe i probe = LostParent ↔
   complete_identity i ∧ pp_process_snapshot probe (as_parent_pid i) = Ok None ∧
   ∃ parent, steady probe (as_boot_id i) parent ∧ parent ≠ as_parent_pid i) ∧
  (observe_with_probe i probe = Reparented ↔
   complete_identity i ∧
   pp_process_snapshot probe (as_parent_pid i)
   = Ok (Some {| ps_pid := as_parent_pid i; ps_start := as_parent_start i |}) ∧
   ∃ parent, steady probe (as_boot_id i) parent ∧ parent ≠ as_parent_pid i) ∧
  (observe_with_probe i probe = Rebooted ↔
   complete_identity i ∧ ∃ boot, pp_boot_before probe = Ok boot ∧ boot ≠ as_boot_id i).
Proof. apply observation_cases. Qed.

(** What was captured is live as long as nothing changes: an observation whose
    probe answers as the capture's did reports the session live, when the platform
    names the start and the boot. *)
Theorem captured_session_is_live (parent_pid : Z) (probe : PlatformProbe) (i : AgentSessionIdentity) :
  capture_with_probe parent_pid probe = Ok i → as_parent_start i ≠ "" → as_boot_id i ≠ "" →
  observe_with_probe i probe = Live.
Proof.
  intros Hc Hs Hb. apply observation_cases. unfold capture_with_probe in Hc. res_inv. subst i. cbn in *. bool_prop.
  subst. rename select ProcessSnapshot into snap. destruct snap as [pid start]. cbn in *. subst.
  rename select (pp_process_snapshot _ _ = _) into Hps. unfold complete_identity, steady. naive_solver.
Qed.

(** * Example *)

Module AgentSessionExample.

Definition info (pid : Z) : proc_bsdinfo :=
  {| pbi_actual_size := 136; pbi_pid := pid; pbi_start_tvsec := 1700000000; pbi_start_tvusec := 42;
     pbi_kill := KillDelivered |}.

Definition probe : PlatformProbe :=
  {| pp_boot_before := Ok "macos:1690000000.0"; pp_parent_before := current_parent_pid true 812;
     pp_process_snapshot := process_snapshot true 136 info; pp_parent_after := current_parent_pid true 812;
     pp_boot_after := Ok "macos:1690000000.0" |}.

Definition identity : AgentSessionIdentity :=
  {| as_parent_pid := 812; as_parent_start := "1700000000.42"; as_boot_id := "macos:1690000000.0" |}.
End AgentSessionExample.
Import AgentSessionExample.

Lemma captured_session_is_live_witness : observe_with_probe identity probe = Live.
Proof.
  apply (captured_session_is_live 812 probe identity); [vm_compute; reflexivity|discriminate|discriminate].
Defined.
