(* ===== verification/FileSystem.v ===== *)
(** A directory tree addressed by paths, and programs that change it step by step.

    The parts that must survive an interruption ([cache.rs], [workspace.rs]) are
    written in the monad [fs]: every change of the tree is one effect, and before
    each effect the world decides whether it happens, fails, or is the last thing
    the process does.  [crash_triple] states what holds after a completed run and
    what holds wherever it was left. *)
From S2P Require Import Prelude.
From S2P Require Import RustStr.
From S2P Require Import BTree.
From S2P Require Import Durable.

(** * Trees and paths *)

Abbreviation path := (list string).

Fixpoint tree_get (p : path) (n : node) : option node :=
  match p with
  | [] => Some n
  | k :: p =>
    match n with
    | Dir entries => match map_get k entries with Some c => tree_get p c | None => None end
    | _ => None
    end
  end.

(** The entry [p] becomes [v], or is removed; nothing when its directory is missing. *)
Fixpoint tree_put (p : path) (v : option node) (n : node) : node :=
  match p with
  | [] => n
  | k :: p =>
    match n with
    | Dir entries =>
      match p with
      | [] => Dir (match v with Some c => map_insert k c entries | None => remove_key k entries end)
      | _ => match map_get k entries with
             | Some c => Dir (map_insert k (tree_put p v c) entries)
             | None => n
             end
      end
    | _ => n
    end
  end.

Definition is_dir (n : option node) : bool := match n with Some (Dir _) => true | _ => false end.

Definition parent (p : path) : path := removelast p.

(** * The world *)

(** What an interrupted effect leaves: the bytes of a write that arrived, and the
    entries that a removal had not removed yet. *)
Record residue : Type := {
  re_bytes : nat;
  re_entries : list (string * node);
}.

Inductive fate : Type :=
  | Proceed
  | Fault (rest : residue)
  | Stop (rest : residue).

(** [w_locks] are the files with an exclusive [flock], by whatever open file;
    [w_sequence] is the counter for temporary names, and [w_durable] that of
    [durable_fs.rs]; [w_promoted] are the objects,
    by path, whose shared phase says that they were promoted; [w_run_lock] is the
    counter of the run locks; [w_fates] decides the next effects, and later ones
    proceed. *)
Record World : Type := {
  w_tree : node;
  w_locks : list path;
  w_sequence : Z;
  w_durable : Z;
  w_promoted : list path;
  w_run_lock : Z;
  w_fates : list fate;
}.

Inductive outcome (E A : Type) : Type :=
  | Done (x : A)
  | Failed (e : E)
  | Stopped.
Arguments Done {E A} x.
Arguments Failed {E A} e.
Arguments Stopped {E A}.

Definition fs (E A : Type) : Type := World → outcome E A * World.

#[global] Instance fs_ret E : MRet (fs E) := λ A x w, (Done x, w).
#[global] Instance fs_bind E : MBind (fs E) := λ A B f m w,
  match m w with
  | (Done x, w') => f x w'
  | (Failed e, w') => (Failed e, w')
  | (Stopped, w') => (Stopped, w')
  end.

Definition of_result {E A} (r : result E A) : outcome E A :=
  match r with Ok x => Done x | Err e => Failed e end.

Definition fs_lift {E A} (r : result E A) : fs E A := λ w, (of_result r, w).
(** What only looks at the tree. *)
Definition look {E A} (f : node → result E A) : fs E A := λ w, (of_result (f (w_tree w)), w).

Fixpoint fs_fold {E S A} (f : S → A → fs E S) (s : S) (l : list A) : fs E S :=
  match l with
  | [] => mret s
  | a :: l => s' ← f s a; fs_fold f s' l
  end.

Fixpoint fs_each {E A} (f : A → fs E ()) (l : list A) : fs E () :=
  match l with
  | [] => mret ()
  | a :: l => _ ← f a; fs_each f l
  end.

(** [match r { Err(e) => handler, ok => ok }]; a stopped process handles nothing. *)
Definition fs_catch {E F A} (m : fs E A) (h : E → fs F A) : fs F A := λ w,
  match m w with
  | (Done x, w') => (Done x, w')
  | (Failed e, w') => h e w'
  | (Stopped, w') => (Stopped, w')
  end.
Definition fs_map_err {E F A} (f : E → F) (m : fs E A) : fs F A := fs_catch m (λ e w, (Failed (f e), w)).
(** [let _ = r;] *)
Definition fs_ignore {E F A} (m : fs E A) : fs F () := λ w,
  match m w with
  | (Stopped, w') => (Stopped, w')
  | (_, w') => (Done (), w')
  end.

Definition set_tree (t : node) (w : World) : World :=
  {| w_tree := t; w_locks := w_locks w; w_sequence := w_sequence w; w_durable := w_durable w; w_promoted := w_promoted w;
     w_run_lock := w_run_lock w; w_fates := w_fates w |}.
Definition set_world_locks (locks : list path) (w : World) : World :=
  {| w_tree := w_tree w; w_locks := locks; w_sequence := w_sequence w; w_durable := w_durable w; w_promoted := w_promoted w;
     w_run_lock := w_run_lock w; w_fates := w_fates w |}.
Definition pop_fate (w : World) : World :=
  {| w_tree := w_tree w; w_locks := w_locks w; w_sequence := w_sequence w; w_durable := w_durable w; w_promoted := w_promoted w;
     w_run_lock := w_run_lock w; w_fates := tail (w_fates w) |}.

(** [TEMP_SEQUENCE.fetch_add(1)]. *)
Definition fetch_sequence {E} : fs E Z := λ w,
  (Done (w_sequence w),
   {| w_tree := w_tree w; w_locks := w_locks w; w_sequence := (w_sequence w + 1) mod 2 ^ 64; w_durable := w_durable w;
      w_promoted := w_promoted w; w_run_lock := w_run_lock w; w_fates := w_fates w |}).

Definition fetch_durable_sequence {E} : fs E Z := λ w,
  (Done (w_durable w),
   {| w_tree := w_tree w; w_locks := w_locks w; w_sequence := w_sequence w; w_durable := (w_durable w + 1) mod 2 ^ 64;
      w_promoted := w_promoted w; w_run_lock := w_run_lock w; w_fates := w_fates w |}).

(** [RUN_LOCK_SEQUENCE.fetch_add(1)] of [workspace.rs]. *)
Definition fetch_run_lock_sequence {E} : fs E Z := λ w,
  (Done (w_run_lock w),
   {| w_tree := w_tree w; w_locks := w_locks w; w_sequence := w_sequence w; w_durable := w_durable w;
      w_promoted := w_promoted w; w_run_lock := (w_run_lock w + 1) mod 2 ^ 64; w_fates := w_fates w |}).

(** The phase of an object becomes promoted. *)
Definition set_promoted {E} (p : path) : fs E () := λ w,
  (Done (), {| w_tree := w_tree w; w_locks := w_locks w; w_sequence := w_sequence w; w_durable := w_durable w;
               w_promoted := p :: w_promoted w; w_run_lock := w_run_lock w; w_fates := w_fates w |}).

(** Locks that were taken inside are released when it fails. *)
Definition release_on_failure {E A} (m : fs E A) : fs E A := λ w,
  match m w with
  | (Done x, w') => (Done x, w')
  | (r, w') => (r, set_world_locks (w_locks w) w')
  end.
(** Locks that were taken inside are released however it ends. *)
Definition scoped {E A} (m : fs E A) : fs E A := λ w,
  let '(r, w') := m w in (r, set_world_locks (w_locks w) w').

(** * Effects *)

(** [act] is the effect when it happens; when it is interrupted it leaves
    [partial], and nothing changes when it would have been refused. *)
Definition effect (act : node → result io_kind node) (partial : residue → node → node) : fs io_kind () := λ w,
  let w' := pop_fate w in
  match act (w_tree w) with
  | Err e => (match head (w_fates w) with Some (Stop _) => Stopped | _ => Failed e end, w')
  | Ok t =>
    match head (w_fates w) with
    | Some (Fault rest) => (Failed OtherIo, set_tree (partial rest (w_tree w)) w')
    | Some (Stop rest) => (Stopped, set_tree (partial rest (w_tree w)) w')
    | Some Proceed | None => (Done (), set_tree t w')
    end
  end.

Definition unchanged (_ : residue) (t : node) : node := t.

(** [fs::create_dir]. *)
Definition create_dir (p : path) : fs io_kind () :=
  effect (λ t, match tree_get p t with
               | Some _ => Err AlreadyExists
               | None => if is_dir (tree_get (parent p) t) then Ok (tree_put p (Some (Dir [])) t) else Err NotFound
               end) unchanged.

(** [OpenOptions::create_new]. *)
Definition create_new_file (p : path) : fs io_kind () :=
  effect (λ t, match tree_get p t with
               | Some _ => Err AlreadyExists
               | None => if is_dir (tree_get (parent p) t) then Ok (tree_put p (Some (File [])) t) else Err NotFound
               end) unchanged.

(** [write_all] at the end of an open file. *)
Definition append_bytes (p : path) (bytes : list ascii) (t : node) : node :=
  match tree_get p t with
  | Some (File content) => tree_put p (Some (File (content ++ bytes))) t
  | _ => t
  end.
Definition write_all (p : path) (bytes : list ascii) : fs io_kind () :=
  effect (λ t, Ok (append_bytes p bytes t)) (λ rest, append_bytes p (take (re_bytes rest) bytes)).

(** [sync_all]. *)
Definition sync_all : fs io_kind () := effect (λ t, Ok t) unchanged.

(** [set_len(0)]. *)
Definition truncate_file (p : path) : fs io_kind () :=
  effect (λ t, match tree_get p t with Some (File _) => Ok (tree_put p (Some (File [])) t) | _ => Ok t end) unchanged.

(** [fs::remove_file]. *)
Definition remove_file_at (p : path) : fs io_kind () :=
  effect (λ t, match tree_get p t with
               | None => Err NotFound
               | Some (Dir _) => Err OtherIo
               | Some _ => Ok (tree_put p None t)
               end) unchanged.

(** [fs::remove_dir_all]; an interruption leaves the directory with what was left
    of its entries. *)
Definition remove_dir_all (p : path) : fs io_kind () :=
  effect (λ t, match tree_get p t with
               | None => Err NotFound
               | Some (Dir _) => Ok (tree_put p None t)
               | Some _ => Err OtherIo
               end) (λ rest, tree_put p (Some (Dir (re_entries rest)))).

(** [fs::rename]: a file may replace a file, a directory an empty directory. *)
Definition rename_allowed (n : node) (target : option node) : bool :=
  match target, n with
  | None, _ => true
  | Some (Dir []), Dir _ => true
  | Some (Dir _), _ => false
  | Some _, Dir _ => false
  | Some _, _ => true
  end.
Definition rename_path (p q : path) : fs io_kind () :=
  effect (λ t, match tree_get p t with
               | None => Err NotFound
               | Some n =>
                 if negb (is_dir (tree_get (parent q) t)) then Err NotFound
                 else if rename_allowed n (tree_get q t) then Ok (tree_put q (Some n) (tree_put p None t))
                 else Err OtherIo
               end) unchanged.

(** * Lemmas on trees *)

Lemma tree_get_app p q t : tree_get (p ++ q) t = tree_get p t ≫= tree_get q.
Proof.
  revert t. induction p as [|k p IH]; intros t; cbn; [done|]. destruct t; try done.
  destruct (map_get k entries); cbn; [apply IH|done].
Qed.

(** The child of a directory. *)
Definition child (k : string) (n : node) : option node :=
  match n with Dir entries => map_get k entries | _ => None end.

Lemma tree_get_cons k p t : tree_get (k :: p) t = child k t ≫= tree_get p.
Proof. by destruct t. Qed.

Lemma tree_get_snoc p k t : tree_get (p ++ [k]) t = tree_get p t ≫= child k.
Proof.
  rewrite tree_get_app. destruct (tree_get p t) as [n|]; cbn; [|done].
  destruct n; try done. cbn. by destruct (map_get k entries).
Qed.

Lemma tree_get_dir_app p q t : is_dir (tree_get (p ++ q) t) = true → is_dir (tree_get p t) = true.
Proof.
  rewrite tree_get_app. destruct (tree_get p t) as [n|]; cbn; [|done].
  destruct q as [|k q]; [done|]. rewrite tree_get_cons. by destruct n.
Qed.

Lemma tree_put_below p q v t :
  q ≠ [] → tree_get p (tree_put (p ++ q) v t) = tree_put q v <$> tree_get p t.
Proof.
  intros Hq. revert t. induction p as [|k p IH]; intros t; [done|].
  cbn [app tree_put]. destruct t; try done.
  destruct (p ++ q) as [|k' r] eqn:E; [by apply app_nil in E as [-> ->]|]. rewrite <-E in *.
  cbn. destruct (map_get k entries) as [c|] eqn:Ec; cbn.
  - rewrite map_get_insert, decide_True by done. apply IH.
  - by rewrite Ec.
Qed.

Lemma tree_put_same p k v t :
  is_dir (tree_get p t) = true → tree_get (p ++ [k]) (tree_put (p ++ [k]) v t) = v.
Proof.
  intros Hd. rewrite tree_get_snoc, tree_put_below by done.
  destruct (tree_get p t) as [[]|]; try done. cbn. destruct v.
  - by rewrite map_get_insert, decide_True.
  - by rewrite map_get_remove_key, decide_True.
Qed.

(** Two paths that part at some component. *)
Definition apart (p q : path) : Prop := ¬ p `prefix_of` q ∧ ¬ q `prefix_of` p.

Lemma apart_cons k p q : apart (k :: p) (k :: q) ↔ apart p q.
Proof.
  unfold apart. split; intros [H1 H2]; split; intros H3.
  - by apply H1, prefix_cons.
  - by apply H2, prefix_cons.
  - by apply prefix_cons_inv_2 in H3.
  - by apply prefix_cons_inv_2 in H3.
Qed.

Lemma apart_sym p q : apart p q → apart q p.
Proof. intros []; by split. Qed.

Lemma apart_app p q r : apart p q → apart p (q ++ r).
Proof.
  intros [H1 H2]. split; intros H3.
  - by destruct (prefix_weak_total p q (q ++ r) H3 (prefix_app_r q q r (reflexivity q))).
  - apply H2. etransitivity; [by apply (prefix_app_r q q r)|done].
Qed.

Lemma tree_put_apart p q v t : apart p q → tree_get q (tree_put p v t) = tree_get q t.
Proof.
  revert q t. induction p as [|k p IH]; intros q t Ha; [by destruct Ha as [[] _]; apply prefix_nil|].
  destruct q as [|k' q]; [by destruct Ha as [_ []]; apply prefix_nil|].
  cbn. destruct t; try done. destruct (decide (k' = k)) as [->|Hk].
  - apply apart_cons in Ha. destruct p as [|k' p]; [by destruct Ha as [[] _]; apply prefix_nil|].
    destruct (map_get k entries) as [c|] eqn:Ec; [|by rewrite Ec].
    rewrite map_get_insert, decide_True by done. by apply IH.
  - assert (Hother : ∀ c, map_get k' (map_insert k c entries) = map_get k' entries)
      by (intros c; by rewrite map_get_insert, decide_False).
    destruct p; [destruct v|destruct (map_get k entries)]; rewrite ?Hother; try done.
    by rewrite map_get_remove_key, decide_False.
Qed.

(** Where two paths with different last components lie. *)
Lemma apart_siblings p k k' q : k ≠ k' → apart (p ++ [k]) (p ++ k' :: q).
Proof.
  intros Hk. induction p as [|z p IH]; cbn; [|by apply apart_cons].
  split; intros H; [apply prefix_cons_inv_1 in H|apply prefix_cons_inv_1 in H]; congruence.
Qed.

(** Directories above the place of a change stay directories. *)
Lemma tree_put_dir_above p q v t :
  q ≠ [] → is_dir (tree_get p (tree_put (p ++ q) v t)) = is_dir (tree_get p t).
Proof.
  intros Hq. rewrite tree_put_below by done. destruct (tree_get p t) as [n|]; [|done]. cbn.
  destruct q as [|k q]; [done|]. cbn. destruct n; try done. destruct q; [done|]. by destruct (map_get k entries).
Qed.

(** ** Induction on trees *)

Section NodeInd.
Variable P : node → Prop.
Hypothesis Hfile : ∀ content, P (File content).
Hypothesis Hdir : ∀ entries, Forall (λ kv, P kv.2) entries → P (Dir entries).
Hypothesis Hlink : ∀ e target, P (Symlink e target).
Hypothesis Hspecial : P Special.

Fixpoint node_tree_ind (n : node) : P n :=
  match n with
  | File content => Hfile content
  | Dir entries =>
    Hdir entries ((fix go (l : list (string * node)) : Forall (λ kv, P kv.2) l :=
      match l with
      | [] => Forall_nil_2 (λ kv, P kv.2)
      | kv :: l => Forall_cons_2 (λ kv, P kv.2) kv l (node_tree_ind kv.2) (go l)
      end) entries)
  | Symlink e target => Hlink e target
  | Special => Hspecial
  end.
End NodeInd.

(** Directories hold each name once, in order; what the system lists of them is
    sorted wherever it is used. *)
Inductive node_wf : node → Prop :=
  | wf_file content : node_wf (File content)
  | wf_dir entries : map_sorted entries → Forall (λ kv, node_wf kv.2) entries → node_wf (Dir entries)
  | wf_link e target : node_wf (Symlink e target)
  | wf_special : node_wf Special.

(** * Crash triples *)

(** [m], started on a tree in [P], either completes in [Q] or is left, by an error
    or an interruption, in [C]. *)
Definition crash_triple {E A} (P : node → Prop) (m : fs E A) (Q : A → node → Prop) (C : node → Prop) : Prop :=
  ∀ w, P (w_tree w) → match m w with (Done x, w') => Q x (w_tree w') | (_, w') => C (w_tree w') end.

Lemma triple_conseq {E A} (P P' : node → Prop) (m : fs E A) (Q Q' : A → node → Prop) (C C' : node → Prop) :
  crash_triple P' m Q' C' → (∀ t, P t → P' t) → (∀ x t, Q' x t → Q x t) → (∀ t, C' t → C t) → crash_triple P m Q C.
Proof. intros H HP HQ HC w Hw. specialize (H w (HP _ Hw)). destruct (m w) as [[] ?]; auto. Qed.

Lemma triple_ret {E A} (x : A) (Q : A → node → Prop) C : crash_triple (Q x) (mret x : fs E A) Q C.
Proof. by intros w Hw. Qed.

Lemma triple_bind {E A B} P (m : fs E A) R (f : A → fs E B) Q C :
  crash_triple P m R C → (∀ x, crash_triple (R x) (f x) Q C) → crash_triple P (m ≫= f) Q C.
Proof.
  intros Hm Hf w Hw. specialize (Hm w Hw). unfold mbind, fs_bind. destruct (m w) as [[x|e|] w']; [|done..].
  by apply Hf.
Qed.

Lemma triple_lift {E A} (r : result E A) P Q C :
  (∀ t, P t → match r with Ok x => Q x t | Err _ => C t end) → crash_triple P (fs_lift r) Q C.
Proof. intros H w Hw. specialize (H _ Hw). unfold fs_lift. by destruct r. Qed.

Lemma triple_look {E A} (f : node → result E A) P Q C :
  (∀ t, P t → match f t with Ok x => Q x t | Err _ => C t end) → crash_triple P (look f) Q C.
Proof. intros H w Hw. specialize (H _ Hw). unfold look. by destruct (f (w_tree w)). Qed.

Lemma triple_effect act partial P (Q : () → node → Prop) C :
  (∀ t, P t → match act t with Ok t' => Q () t' ∧ ∀ rest, C (partial rest t) | Err _ => C t end) →
  (∀ t, P t → C t) →
  crash_triple P (effect act partial) Q C.
Proof.
  intros H HC w Hw. specialize (H _ Hw). unfold effect. destruct (act (w_tree w)) as [t'|e].
  - destruct H as [HQ Hp]. destruct (head (w_fates w)) as [[]|]; cbn; auto.
  - destruct (head (w_fates w)) as [[]|]; auto.
Qed.

Lemma triple_map_err {E F A} (f : E → F) P (m : fs E A) Q C :
  crash_triple P m Q C → crash_triple P (fs_map_err f m) Q C.
Proof. intros H w Hw. specialize (H w Hw). unfold fs_map_err, fs_catch. by destruct (m w) as [[] ?]. Qed.

(** A loop: [I] after the elements passed so far. *)
Lemma triple_each {E A} (f : A → fs E ()) (I : list A → node → Prop) C l :
  (∀ pre x post, l = pre ++ x :: post → crash_triple (I pre) (f x) (λ _, I (pre ++ [x])) C) →
  crash_triple (I []) (fs_each f l) (λ _, I l) C.
Proof.
  intros Hstep.
  assert (G : ∀ pre post, l = pre ++ post → crash_triple (I pre) (fs_each f post) (λ _, I l) C); [|by apply G].
  intros pre post. revert pre. induction post as [|x post IH]; intros pre E'; cbn.
  - rewrite app_nil_r in E'. subst. apply (triple_ret () (λ _, I pre)).
  - eapply triple_bind; [by eapply Hstep|]. intros []. apply IH. by rewrite <-app_assoc.
Qed.

(** ** Runs that nothing interrupts *)

Definition quiet (w : World) : Prop := w_fates w = [].

Lemma pop_quiet w : quiet w → pop_fate w = w.
Proof. destruct w. unfold quiet. cbn. by intros ->. Qed.

Lemma effect_quiet act partial w t :
  quiet w → act (w_tree w) = Ok t → effect act partial w = (Done (), set_tree t w).
Proof. intros Hq Ha. unfold effect. by rewrite Ha, pop_quiet, Hq. Qed.

Lemma effect_quiet_err act partial w e :
  quiet w → act (w_tree w) = Err e → effect act partial w = (Failed e, w).
Proof. intros Hq Ha. unfold effect. by rewrite Ha, pop_quiet, Hq. Qed.

(** ** Writing below a new entry *)

Lemma map_insert_twice {V} (k : string) (v u : V) (m : btmap string V) :
  map_insert k v (map_insert k u m) = map_insert k v m.
Proof.
  induction m as [|[z x] m IH]; cbn.
  - by rewrite (proj2 (string_compare_eq k k) eq_refl).
  - destruct (String.compare k z) eqn:E; cbn.
    + by rewrite (proj2 (string_compare_eq k k) eq_refl).
    + by rewrite (proj2 (string_compare_eq k k) eq_refl).
    + by rewrite E, IH.
Qed.

Lemma tree_put_into p q v n t :
  p ≠ [] → q ≠ [] → tree_put (p ++ q) v (tree_put p (Some n) t) = tree_put p (Some (tree_put q v n)) t.
Proof.
  intros Hp Hq. revert t. induction p as [|k p IH]; intros t; [done|]. clear Hp.
  destruct t; try done. destruct p as [|k' p].
  - cbn [app tree_put]. destruct q as [|k' q]; [done|]. rewrite map_get_insert, decide_True by done.
    by rewrite map_insert_twice.
  - cbn [app tree_put] in *. destruct (map_get k entries) as [c|] eqn:Ec.
    + rewrite map_get_insert, decide_True by done. rewrite map_insert_twice. do 2 f_equal.
      by apply (IH ltac:(done) c).
    + by rewrite Ec.
Qed.

(** What lies outside [p] is the same in both trees. *)
Definition outside (p : path) (t t' : node) : Prop := ∀ q, apart p q → tree_get q t' = tree_get q t.

Lemma outside_refl p t : outside p t t.
Proof. by intros q _. Qed.

Lemma outside_trans p t t' t'' : outside p t t' → outside p t' t'' → outside p t t''.
Proof. intros H1 H2 q Hq. by rewrite (H2 q Hq), (H1 q Hq). Qed.

Lemma outside_put p q v t : outside p t (tree_put (p ++ q) v t).
Proof. intros r Hr. by apply tree_put_apart, apart_sym, apart_app, apart_sym. Qed.

Lemma outside_put_self p v t : outside p t (tree_put p v t).
Proof. pose proof (outside_put p [] v t) as H. by rewrite app_nil_r in H. Qed.

Lemma outside_below p q t t' : outside (p ++ q) t t' → outside p t t'.
Proof. intros H r Hr. apply H. by apply apart_sym, apart_app, apart_sym. Qed.

Lemma parent_snoc (p : path) k : parent (p ++ [k]) = p.
Proof. apply removelast_last. Qed.

Lemma tree_put_at p v t :
  p ≠ [] → is_dir (tree_get (parent p) t) = true → tree_get p (tree_put p v t) = v.
Proof.
  intros Hp Hd. destruct (exists_last Hp) as (q & k & ->). rewrite parent_snoc in Hd. by apply tree_put_same.
Qed.

(** ** More rules *)

Lemma triple_same_tree {E A} (m : fs E A) P C :
  (∀ w, ∃ x w', m w = (Done x, w') ∧ w_tree w' = w_tree w) → crash_triple P m (λ _, P) C.
Proof. intros H w Hw. destruct (H w) as (x & w' & -> & ->). done. Qed.

Lemma triple_catch {E F A} P (m : fs E A) (h : E → fs F A) Q C1 C :
  crash_triple P m Q C1 → (∀ e, crash_triple C1 (h e) Q C) → (∀ t, C1 t → C t) → crash_triple P (fs_catch m h) Q C.
Proof.
  intros Hm Hh HC w Hw. specialize (Hm w Hw). unfold fs_catch. destruct (m w) as [[x|e|] w']; [done| |by apply HC].
  by apply Hh.
Qed.

Lemma triple_ignore {E F A} P (m : fs E A) (R C : node → Prop) :
  crash_triple P m (λ _, R) C → (∀ t, C t → R t) → crash_triple P (fs_ignore m : fs F ()) (λ _, R) C.
Proof.
  intros Hm HC w Hw. specialize (Hm w Hw). unfold fs_ignore. destruct (m w) as [[x|e|] w']; [done|by apply HC|done].
Qed.

Lemma triple_err {E A} (e : E) P (Q : A → node → Prop) C : (∀ t, P t → C t) → crash_triple P (fs_lift (Err e)) Q C.
Proof. intros H. apply triple_lift. done. Qed.

(** [m] completes when nothing interrupts it; the locks are as before. *)
Definition runs {E A} (P : node → Prop) (m : fs E A) (Q : A → node → Prop) : Prop :=
  ∀ w, quiet w → P (w_tree w) → ∃ x w', m w = (Done x, w') ∧ quiet w' ∧ w_locks w' = w_locks w ∧ Q x (w_tree w').

Lemma runs_ret {E A} (x : A) (Q : A → node → Prop) : runs (Q x) (mret x : fs E A) Q.
Proof. intros w Hq Hw. by exists x, w. Qed.

Lemma runs_bind {E A B} P (m : fs E A) R (f : A → fs E B) Q :
  runs P m R → (∀ x, runs (R x) (f x) Q) → runs P (m ≫= f) Q.
Proof.
  intros Hm Hf w Hq Hw. destruct (Hm w Hq Hw) as (x & w1 & E1 & Hq1 & Hl1 & H1).
  destruct (Hf x w1 Hq1 H1) as (y & w2 & E2 & Hq2 & Hl2 & H2). exists y, w2. split_and!; [|done|congruence|done].
  unfold mbind, fs_bind. by rewrite E1.
Qed.

Lemma runs_conseq {E A} (P P' : node → Prop) (m : fs E A) (Q Q' : A → node → Prop) :
  runs P' m Q' → (∀ t, P t → P' t) → (∀ x t, Q' x t → Q x t) → runs P m Q.
Proof.
  intros H HP HQ w Hq Hw. destruct (H w Hq (HP _ Hw)) as (x & w' & ? & ? & ? & ?). exists x, w'. auto.
Qed.

Lemma runs_lift {E A} (r : result E A) x P : r = Ok x → runs P (fs_lift r : fs E A) (λ y t, y = x ∧ P t).
Proof. intros -> w Hq Hw. by exists x, w. Qed.

Lemma runs_look {E A} (f : node → result E A) P Q :
  (∀ t, P t → ∃ x, f t = Ok x ∧ Q x t) → runs P (look f) Q.
Proof. intros H w Hq Hw. destruct (H _ Hw) as (x & E1 & HQ). exists x, w. unfold look. by rewrite E1. Qed.

Lemma runs_effect {E} (f : io_kind → E) act partial P Q :
  (∀ t, P t → ∃ t', act t = Ok t' ∧ Q () t') → runs P (fs_map_err f (effect act partial)) Q.
Proof.
  intros H w Hq Hw. destruct (H _ Hw) as (t' & E1 & HQ). exists (), (set_tree t' w).
  unfold fs_map_err, fs_catch. by rewrite (effect_quiet _ _ _ _ Hq E1).
Qed.

(** [m] fails with [e] and has no effect. *)
Definition refuses {E A} (P : node → Prop) (m : fs E A) (e : E) : Prop :=
  ∀ w, quiet w → P (w_tree w) → ∃ w', m w = (Failed e, w') ∧ quiet w' ∧ w_locks w' = w_locks w ∧ w_tree w' = w_tree w.

(** [m] changes nothing apart from the paths [ps]. *)
Definition keeps {E A} (ps : list path) (m : fs E A) : Prop :=
  ∀ w q, Forall (λ p, apart p q) ps → tree_get q (w_tree (m w).2) = tree_get q (w_tree w).

Section Keeps.
Context (ps : list path).

Lemma keeps_same_tree {E A} (m : fs E A) : (∀ w, w_tree (m w).2 = w_tree w) → keeps ps m.
Proof. intros H w q _. by rewrite H. Qed.

Lemma keeps_fs_ret {E A} (x : A) : keeps ps (mret x : fs E A).
Proof. by apply keeps_same_tree. Qed.

Lemma keeps_fs_lift {E A} (r : result E A) : keeps ps (fs_lift r).
Proof. by apply keeps_same_tree. Qed.

Lemma keeps_look {E A} (f : node → result E A) : keeps ps (look f).
Proof. by apply keeps_same_tree. Qed.

Lemma keeps_fs_bind {E A B} (m : fs E A) (f : A → fs E B) : keeps ps m → (∀ x, keeps ps (f x)) → keeps ps (m ≫= f).
Proof.
  intros Hm Hf w q Hq. specialize (Hm w q Hq). unfold mbind, fs_bind. destruct (m w) as [[x|e|] w']; cbn in *; [|done..].
  by rewrite Hf.
Qed.

Lemma keeps_catch {E F A} (m : fs E A) (h : E → fs F A) : keeps ps m → (∀ e, keeps ps (h e)) → keeps ps (fs_catch m h).
Proof.
  intros Hm Hh w q Hq. specialize (Hm w q Hq). unfold fs_catch. destruct (m w) as [[x|e|] w']; cbn in *; [done| |done].
  by rewrite Hh.
Qed.

Lemma keeps_map_err {E F A} (f : E → F) (m : fs E A) : keeps ps m → keeps ps (fs_map_err f m).
Proof. intros Hm. apply keeps_catch; [done|]. intros e. by apply keeps_same_tree. Qed.

Lemma keeps_ignore {E F A} (m : fs E A) : keeps ps m → keeps ps (fs_ignore m : fs F ()).
Proof. intros Hm w q Hq. specialize (Hm w q Hq). unfold fs_ignore. by destruct (m w) as [[] w']. Qed.

Lemma keeps_each {E A} (f : A → fs E ()) l : (∀ x, x ∈ l → keeps ps (f x)) → keeps ps (fs_each f l).
Proof.
  induction l as [|x l IH]; intros Hf; cbn; [apply keeps_fs_ret|].
  apply keeps_fs_bind; [apply Hf; left|]. intros ?. apply IH. intros y Hy. apply Hf. by right.
Qed.

Lemma keeps_fold {E S A} (f : S → A → fs E S) s l : (∀ s x, keeps ps (f s x)) → keeps ps (fs_fold f s l).
Proof.
  intros Hf. revert s. induction l as [|x l IH]; intros s; cbn; [apply keeps_fs_ret|].
  apply keeps_fs_bind; [done|]. intros s'. apply IH.
Qed.

Lemma keeps_effect act partial :
  (∀ t t' q, Forall (λ p, apart p q) ps → act t = Ok t' → tree_get q t' = tree_get q t) →
  (∀ rest t q, Forall (λ p, apart p q) ps → tree_get q (partial rest t) = tree_get q t) →
  keeps ps (effect act partial).
Proof.
  intros Ha Hp w q Hq. unfold effect. destruct (act (w_tree w)) as [t|e] eqn:Ea.
  - destruct (head (w_fates w)) as [[]|]; cbn; first [by apply Hp|by eapply Ha].
  - by destruct (head (w_fates w)) as [[]|].
Qed.

(** The primitives, on a path below one of [ps]. *)
Definition covered (p : path) : Prop := ∃ p' q, p' ∈ ps ∧ p = p' ++ q.

Lemma covered_in p : p ∈ ps → covered p.
Proof. intros Hp. exists p, []. by rewrite app_nil_r. Qed.

Lemma covered_below p q : p ∈ ps → covered (p ++ q).
Proof. intros Hp. by exists p, q. Qed.

Lemma covered_put p v t q : covered p → Forall (λ p, apart p q) ps → tree_get q (tree_put p v t) = tree_get q t.
Proof.
  intros (p' & r & Hp & ->) Hq. eapply Forall_forall in Hq; [|done].
  apply tree_put_apart. by apply apart_sym, apart_app, apart_sym.
Qed.

Ltac keeps_primitive :=
  intros; apply keeps_effect; intros; simpl in *; unfold unchanged, append_bytes in *;
  repeat case_match; simplify_eq; rewrite ?covered_put by done; done.

Lemma keeps_create_new_file p : covered p → keeps ps (create_new_file p).
Proof. keeps_primitive. Qed.
Lemma keeps_create_dir p : covered p → keeps ps (create_dir p).
Proof. keeps_primitive. Qed.
Lemma keeps_write_all p bytes : covered p → keeps ps (write_all p bytes).
Proof. keeps_primitive. Qed.
Lemma keeps_sync_all : keeps ps sync_all.
Proof. keeps_primitive. Qed.
Lemma keeps_truncate_file p : covered p → keeps ps (truncate_file p).
Proof. keeps_primitive. Qed.
Lemma keeps_remove_file_at p : covered p → keeps ps (remove_file_at p).
Proof. keeps_primitive. Qed.
Lemma keeps_remove_dir_all p : covered p → keeps ps (remove_dir_all p).
Proof. keeps_primitive. Qed.
Lemma keeps_rename_path p q : covered p → covered q → keeps ps (rename_path p q).
Proof. keeps_primitive. Qed.
End Keeps.

Create HintDb keeps.
#[export] Hint Resolve keeps_fs_ret keeps_fs_lift keeps_look keeps_fs_bind keeps_catch keeps_map_err keeps_ignore
  keeps_create_new_file keeps_create_dir keeps_write_all keeps_sync_all keeps_truncate_file keeps_remove_file_at
  keeps_remove_dir_all keeps_rename_path : keeps.
