(* ===== verification/CachePayload.v ===== *)
(** Payload trees of cache entries ([src/src/cache_payload.rs]): measuring with a
    bound on the number of nodes, and copying with the links as they are.

    The functions are those of a Unix system; elsewhere the policy is [Reject], for
    which both variants of the two functions on links answer the same. *)
From S2P Require Import Prelude.
From S2P Require Import RustStr.
From S2P Require Import BTree.
From S2P Require Import Canonical.
From S2P Require Import Durable.
From S2P Require Import FileSystem.
Local Open Scope Z_scope.

Inductive PayloadLinkPolicy : Type := Preserve | Reject.

(** The paths that some errors name, for their message, are left out; what
    [serde_json] rejects is an [Io] error too. *)
Inductive CacheError : Type :=
  | NoPersistentDefault
  | CacheUnsafePath (message : string)
  | OwnershipMissing
  | InvalidOwnershipMarker
  | SymlinkInManagedRoot
  | UnexpectedEntry
  | PayloadSymlinkUnsupported
  | PayloadSymlinkRead (source : io_kind)
  | PayloadSymlinkCreate (source : io_kind)
  | InventoryLimitExceeded
  | InvalidBudget
  | InvalidDigest
  | GenerationMismatch
  | LockBusy (lock : path)
  | PromotionUncertain
  | SizeOverflow
  | CacheCanonical (e : ReceiptError)
  | CacheIo (kind : io_kind).

Record PayloadTreeStats : Type := {
  pt_bytes : Z;
  pt_files : Z;
}.

Definition usize_max : Z := u64_max.
Definition checked_usize (z : Z) : option Z := checked_u64 z.

(** [*nodes = nodes.checked_add(1)…; if *nodes > node_limit]. *)
Definition count_node (node_limit nodes : Z) : result CacheError Z :=
  nodes ← ok_or (checked_usize (nodes + 1)) InventoryLimitExceeded;
  _ ← ensure (negb (nodes >? node_limit)) InventoryLimitExceeded;
  Ok nodes.

Definition measure_symlink (target : list ascii) (payload_link_policy : PayloadLinkPolicy) :
    result CacheError PayloadTreeStats :=
  match payload_link_policy with
  | Reject => Err PayloadSymlinkUnsupported
  | Preserve => Ok {| pt_bytes := Z.of_nat (length target); pt_files := 1 |}
  end.

Definition add_stats (stats child : PayloadTreeStats) : result CacheError PayloadTreeStats :=
  bytes ← ok_or (checked_u64 (pt_bytes stats + pt_bytes child)) SizeOverflow;
  files ← ok_or (checked_u64 (pt_files stats + pt_files child)) SizeOverflow;
  Ok {| pt_bytes := bytes; pt_files := files |}.

(** [nodes] is the mutable counter of the caller. *)
Fixpoint walk_payload_with_policy (node_limit : Z) (policy : PayloadLinkPolicy) (n : node) (nodes : Z) :
    result CacheError (PayloadTreeStats * Z) :=
  nodes ← count_node node_limit nodes;
  match n with
  | Symlink _ target => stats ← measure_symlink target policy; Ok (stats, nodes)
  | File content => Ok ({| pt_bytes := Z.of_nat (length content); pt_files := 1 |}, nodes)
  | Special => Err UnexpectedEntry
  | Dir entries =>
    let children := map (λ kv, (kv.1, walk_payload_with_policy node_limit policy kv.2)) entries in
    try_fold (λ st child,
      '(stats, nodes) ← (child.2 st.2 : result CacheError (PayloadTreeStats * Z));
      stats ← add_stats st.1 stats;
      Ok (stats, nodes))
      ({| pt_bytes := 0; pt_files := 0 |}, nodes) (sort_by fst children)
  end.

(** The root of a payload is a plain directory. *)
Definition payload_root (n : option node) : result CacheError node :=
  match n with
  | None => Err (CacheIo NotFound)
  | Some (Symlink _ _) => Err SymlinkInManagedRoot
  | Some (Dir entries) => Ok (Dir entries)
  | Some _ => Err UnexpectedEntry
  end.

Definition measure_payload_tree_with_policy (policy : PayloadLinkPolicy) (root : option node)
    (nodes node_limit : Z) : result CacheError (PayloadTreeStats * Z) :=
  root ← payload_root root;
  walk_payload_with_policy node_limit policy root nodes.

Definition measure_payload_tree (current : PayloadLinkPolicy) := measure_payload_tree_with_policy current.

Definition validate_payload_tree_with_policy (policy : PayloadLinkPolicy) (root : option node)
    (nodes node_limit : Z) : result CacheError () :=
  _ ← measure_payload_tree_with_policy policy root nodes node_limit; Ok ().
Definition validate_payload_tree (current : PayloadLinkPolicy) := validate_payload_tree_with_policy current.

(** * Copying *)

Section Copy.
(** Whether a link with this target, at this place, leads to something. *)
Context (link_resolves : path → list ascii → bool).

(** [fs::copy] and [symlink]. *)
Definition copy_file (destination : path) (content : list ascii) : fs io_kind () :=
  let put content t :=
    if is_dir (tree_get (parent destination) t) then
      match tree_get destination t with
      | Some (Dir _) => Err OtherIo
      | _ => Ok (tree_put destination (Some (File content)) t)
      end
    else Err NotFound in
  effect (put content) (λ rest t, match put (take (re_bytes rest) content) t with Ok t => t | Err _ => t end).

Definition create_link (target : list ascii) (destination : path) : fs io_kind () :=
  effect (λ t, match tree_get destination t with
               | Some _ => Err AlreadyExists
               | None =>
                 if is_dir (tree_get (parent destination) t)
                 then Ok (tree_put destination (Some (Symlink (link_resolves destination target) target)) t)
                 else Err NotFound
               end) unchanged.

(** [fs::symlink_metadata], with what the node holds. *)
Definition symlink_metadata (p : path) : fs CacheError node := look (λ t, ok_or (tree_get p t) (CacheIo NotFound)).

(** [fs::read_link] and [fs::read_dir]. *)
Definition read_link (p : path) : fs io_kind (list ascii) :=
  look (λ t, match tree_get p t with
             | Some (Symlink _ target) => Ok target
             | Some _ => Err OtherIo
             | None => Err NotFound
             end).
Definition read_directory (p : path) : fs io_kind (list string) :=
  look (λ t, match tree_get p t with
             | Some (Dir entries) => Ok (map_keys entries)
             | Some _ => Err OtherIo
             | None => Err NotFound
             end).

Definition recreate_payload_link (source destination : path) (policy : PayloadLinkPolicy) : fs CacheError () :=
  match policy with
  | Reject => fs_lift (Err PayloadSymlinkUnsupported)
  | Preserve =>
    target ← fs_map_err PayloadSymlinkRead (read_link source);
    _ ← look (λ t, match tree_get destination t with None => Ok () | Some _ => Err UnexpectedEntry end);
    fs_map_err PayloadSymlinkCreate (create_link target destination)
  end.

(** Each call counts a node before anything else, so that [fuel] cannot run out
    before the limit is exceeded (see [copy_fuel]). *)
Fixpoint copy_payload_node (fuel : nat) (node_limit : Z) (policy : PayloadLinkPolicy) (source destination : path)
    (nodes : Z) : fs CacheError Z :=
  match fuel with
  | O => fs_lift (Err InventoryLimitExceeded)
  | S fuel =>
    nodes ← fs_lift (count_node node_limit nodes);
    metadata ← symlink_metadata source;
    match metadata with
    | Symlink _ _ => _ ← recreate_payload_link source destination policy; mret nodes
    | File content => _ ← fs_map_err CacheIo (copy_file destination content); mret nodes
    | Special => fs_lift (Err UnexpectedEntry)
    | Dir _ =>
      _ ← fs_map_err CacheIo (create_dir destination);
      entries ← fs_map_err CacheIo (read_directory source);
      fs_fold (λ nodes name, copy_payload_node fuel node_limit policy (source ++ [name]) (destination ++ [name]) nodes)
        nodes (sort_by (λ name, name) entries)
    end
  end.

(** One call more than there are nodes to count. *)
Definition copy_fuel (node_limit nodes : Z) : nat := S (Z.to_nat (node_limit - nodes)).

Definition copy_payload_tree_with_policy (policy : PayloadLinkPolicy) (source destination : path)
    (nodes node_limit : Z) : fs CacheError Z :=
  _ ← look (λ t, payload_root (tree_get source t));
  _ ← look (λ t, match tree_get destination t with None => Ok () | Some _ => Err UnexpectedEntry end);
  copy_payload_node (copy_fuel node_limit nodes) node_limit policy source destination nodes.
End Copy.
