(* ===== verification/CachePayloadClaims.v ===== *)
(** What measuring and copying a payload promise ([CachePayload.v]). *)
From S2P Require Import Prelude.
From S2P Require Import RustStr.
From S2P Require Import BTree.
From S2P Require Import Durable.
From S2P Require Import FileSystem.
From S2P Require Import CachePayload.
Local Open Scope Z_scope.

(** * The account of a tree *)

Definition sum_list (l : list Z) : Z := foldr Z.add 0 l.

Fixpoint node_count (n : node) : Z :=
  match n with Dir entries => 1 + sum_list (map (λ kv, node_count kv.2) entries) | _ => 1 end.

(** The content of files, and the targets of links. *)
Fixpoint payload_bytes (n : node) : Z :=
  match n with
  | File content => Z.of_nat (length content)
  | Symlink _ target => Z.of_nat (length target)
  | Dir entries => sum_list (map (λ kv, payload_bytes kv.2) entries)
  | Special => 0
  end.

(** What is not a directory. *)
Fixpoint payload_files (n : node) : Z :=
  match n with Dir entries => sum_list (map (λ kv, payload_files kv.2) entries) | _ => 1 end.

(** Neither devices and the like, nor links where they are refused. *)
Fixpoint payload_accepted (policy : PayloadLinkPolicy) (n : node) : Prop :=
  match n with
  | File _ => True
  | Symlink _ _ => policy = Preserve
  | Special => False
  | Dir entries => foldr (λ kv acc, payload_accepted policy kv.2 ∧ acc) True entries
  end.

Lemma accepted_dir policy entries :
  payload_accepted policy (Dir entries) ↔ Forall (λ kv, payload_accepted policy kv.2) entries.
Proof.
  cbn. induction entries as [|kv l IH]; cbn; [by split|]. rewrite Forall_cons. by rewrite IH.
Qed.

Lemma sum_list_perm l m : l ≡ₚ m → sum_list l = sum_list m.
Proof. unfold sum_list. induction 1; cbn; lia. Qed.

Lemma sum_list_nonneg l : Forall (λ x, 0 ≤ x) l → 0 ≤ sum_list l.
Proof. unfold sum_list. induction 1; cbn; lia. Qed.

Lemma sum_map_nonneg {A} (f : A → Z) l : Forall (λ x, 0 ≤ f x) l → 0 ≤ sum_list (map f l).
Proof. intros H. apply sum_list_nonneg. induction H; cbn; by constructor. Qed.

Lemma node_measures_nonneg n : 1 ≤ node_count n ∧ 0 ≤ payload_bytes n ∧ 0 ≤ payload_files n.
Proof.
  induction n as [content|entries IH|e target|] using node_tree_ind; cbn; try lia.
  assert (0 ≤ sum_list (map (λ kv, node_count kv.2) entries)).
  { apply sum_map_nonneg. eapply Forall_impl; [exact IH|]. cbn. intros ? (? & _). lia. }
  split_and!; [lia|apply sum_map_nonneg|apply sum_map_nonneg];
    (eapply Forall_impl; [exact IH|]; cbn; intros ? (? & ? & ?); lia).
Qed.

(** * The loop over the sorted children *)

Lemma insert_by_map {A B} (f : A → B) (key : B → string) x l :
  insert_by key (f x) (map f l) = map f (insert_by (λ a, key (f a)) x l).
Proof. induction l as [|y l IH]; cbn; [done|]. destruct (String.compare _ _); cbn; by rewrite ?IH. Qed.

Lemma sort_by_map {A B} (f : A → B) (key : B → string) l :
  sort_by key (map f l) = map f (sort_by (λ a, key (f a)) l).
Proof. unfold sort_by. induction l as [|x l IH]; cbn; [done|]. by rewrite IH, insert_by_map. Qed.

(** Sorting the children that carry their action is sorting the children. *)
Lemma sort_children {A} (f : node → A) (entries : list (string * node)) :
  sort_by fst (map (λ kv, (kv.1, f kv.2)) entries) = map (λ kv, (kv.1, f kv.2)) (sort_by fst entries).
Proof. apply (sort_by_map (λ kv : string * node, (kv.1, f kv.2)) fst). Qed.

(** Strictly sorted entries stay as they are. *)
Lemma sort_by_id (entries : btmap string node) : map_sorted entries → sort_by fst entries = entries.
Proof.
  unfold map_sorted, set_sorted, map_keys. induction entries as [|kv l IH]; intros Hs; [done|].
  cbn in *. apply StronglySorted_inv in Hs as [Hs Hf]. unfold sort_by in *. cbn. rewrite IH by done.
  destruct l as [|kv' l]; [done|]. cbn in *. apply Forall_cons in Hf as [Hlt _].
  unfold lt_ord in Hlt. cbn in Hlt. by rewrite Hlt.
Qed.

(** ** Measuring *)

(** The sizes of a directory fit; those of a file are what the system reports. *)
Definition within (n : node) : Prop :=
  match n with Dir _ => payload_bytes n ≤ u64_max ∧ payload_files n ≤ u64_max | _ => True end.

Definition measured (limit : Z) (policy : PayloadLinkPolicy) (n : node) (nodes : Z) (r : PayloadTreeStats * Z) : Prop :=
  payload_accepted policy n ∧ nodes + node_count n ≤ limit ∧ within n ∧
  r = ({| pt_bytes := payload_bytes n; pt_files := payload_files n |}, nodes + node_count n).

Lemma count_node_ok limit nodes m :
  0 ≤ nodes → limit ≤ usize_max → count_node limit nodes = Ok m ↔ m = nodes + 1 ∧ nodes + 1 ≤ limit.
Proof.
  intros Hn Hl. unfold count_node, checked_usize, usize_max in *. rewrite bind_ok. setoid_rewrite ok_or_ok.
  setoid_rewrite checked_u64_some. setoid_rewrite bind_ok. setoid_rewrite ensure_ok. unfold u64. split.
  - intros (a & [-> _] & [] & Hb & [= <-]). rewrite Z.gtb_ltb in Hb. bool_prop. lia.
  - intros [-> Hle]. exists (nodes + 1). split; [lia|]. exists (). split; [|done].
    rewrite Z.gtb_ltb. apply negb_true_iff, Z.ltb_ge. lia.
Qed.

Lemma add_stats_ok s t r :
  0 ≤ pt_bytes s + pt_bytes t → 0 ≤ pt_files s + pt_files t →
  add_stats s t = Ok r ↔
  r = {| pt_bytes := pt_bytes s + pt_bytes t; pt_files := pt_files s + pt_files t |} ∧
  pt_bytes s + pt_bytes t ≤ u64_max ∧ pt_files s + pt_files t ≤ u64_max.
Proof.
  intros Hb Hf. unfold add_stats. rewrite bind_ok. setoid_rewrite bind_ok. setoid_rewrite ok_or_ok.
  setoid_rewrite checked_u64_some. unfold u64. naive_solver lia.
Qed.

Definition walk_step (st : PayloadTreeStats * Z) (child : string * (Z → result CacheError (PayloadTreeStats * Z))) :
    result CacheError (PayloadTreeStats * Z) :=
  '(stats, nodes) ← child.2 st.2; stats ← add_stats st.1 stats; Ok (stats, nodes).

Section Measure.
Context (limit : Z) (policy : PayloadLinkPolicy) (Hlimit : limit ≤ usize_max).

Lemma walk_children (l : list (string * node)) b f nodes r :
  Forall (λ kv, ∀ nodes r, 0 ≤ nodes →
    walk_payload_with_policy limit policy kv.2 nodes = Ok r ↔ measured limit policy kv.2 nodes r) l →
  0 ≤ b ≤ u64_max → 0 ≤ f ≤ u64_max → 0 ≤ nodes ≤ limit →
  try_fold walk_step ({| pt_bytes := b; pt_files := f |}, nodes)
    (map (λ kv, (kv.1, walk_payload_with_policy limit policy kv.2)) l) = Ok r ↔
  Forall (λ kv, payload_accepted policy kv.2) l ∧
  nodes + sum_list (map (λ kv, node_count kv.2) l) ≤ limit ∧
  b + sum_list (map (λ kv, payload_bytes kv.2) l) ≤ u64_max ∧
  f + sum_list (map (λ kv, payload_files kv.2) l) ≤ u64_max ∧
  r = ({| pt_bytes := b + sum_list (map (λ kv, payload_bytes kv.2) l);
          pt_files := f + sum_list (map (λ kv, payload_files kv.2) l) |},
       nodes + sum_list (map (λ kv, node_count kv.2) l)).
Proof.
  intros Hl. revert b f nodes. induction Hl as [|kv l Hkv Hl IH]; intros b f nodes Hb Hf Hn.
  { cbn. rewrite !Z.add_0_r. split; [intros [= <-]; split_and!; [constructor|lia..|done]|].
    by intros (_ & _ & _ & _ & ->). }
  cbn [try_fold map]. rewrite bind_ok. unfold walk_step at 1. cbn [fst snd].
  assert (Hsums : 0 ≤ sum_list (map (λ kv, node_count kv.2) l) ∧ 0 ≤ sum_list (map (λ kv, payload_bytes kv.2) l)
                  ∧ 0 ≤ sum_list (map (λ kv, payload_files kv.2) l)).
  { split_and!; apply sum_map_nonneg, Forall_true; intros kv';
      pose proof (node_measures_nonneg kv'.2) as (? & ? & ?); lia. }
  assert (Hcons : ∀ g : node → Z, sum_list (g kv.2 :: map (λ kv, g kv.2) l) = g kv.2 + sum_list (map (λ kv, g kv.2) l))
    by done.
  rewrite !Hcons, Forall_cons. pose proof (node_measures_nonneg kv.2) as (Hc1 & Hc2 & Hc3). split.
  - intros (st & Hst & Hr). apply bind_ok in Hst as ([stats nodes'] & Hw & Hst).
    apply Hkv in Hw as (Ha & Hcount & _ & [= -> ->]); [|lia].
    apply bind_ok in Hst as (stats & Hadd & [= <-]).
    apply add_stats_ok in Hadd as (-> & Hab & Haf); cbn in *; [|lia..].
    apply IH in Hr as (? & ? & ? & ? & ->); cbn in *; [|lia..].
    split_and!; [done..|lia|lia|lia|]. f_equal; [f_equal; lia|lia].
  - intros ((Ha & Hfa) & Hcount & Hsb & Hsf & ->). cbn in *.
    exists ({| pt_bytes := b + payload_bytes kv.2; pt_files := f + payload_files kv.2 |}, nodes + node_count kv.2).
    split.
    + apply bind_ok. eexists (_, _). split; [apply Hkv; [lia|]; split_and!; [done|lia|destruct kv.2; cbn in *; lia|done]|].
      apply bind_ok. eexists. split; [|done]. apply add_stats_ok; cbn; [lia..|]. split_and!; [done|lia|lia].
    + apply IH; cbn; [lia..|]. split_and!; [done|lia|lia|lia|]. f_equal; [f_equal; lia|lia].
Qed.

Lemma walk_ok n nodes r :
  0 ≤ nodes → walk_payload_with_policy limit policy n nodes = Ok r ↔ measured limit policy n nodes r.
Proof.
  revert nodes r. induction n as [content|entries IH|e target|] using node_tree_ind; intros nodes r Hn;
    pose proof (λ m, count_node_ok limit nodes m Hn Hlimit) as Hcount;
    cbn [walk_payload_with_policy]; rewrite bind_ok; setoid_rewrite Hcount; unfold measured; clear Hcount.
  - split.
    + intros (m & [-> Hm] & [= <-]). by split_and!.
    + intros (_ & Hm & _ & ->). exists (nodes + 1). by split_and!.
  - setoid_rewrite sort_children.
    assert (Hp : sort_by fst entries ≡ₚ entries) by apply sort_by_perm.
    assert (Hsum : ∀ g : node → Z, sum_list (map (λ kv, g kv.2) (sort_by fst entries)) = sum_list (map (λ kv, g kv.2) entries))
      by (intros g; apply sum_list_perm; by rewrite Hp).
    assert (Hmax : 0 ≤ 0 ≤ u64_max) by by vm_compute.
    rewrite <-Hp in IH. pose proof (λ m Hm, walk_children (sort_by fst entries) 0 0 m r IH Hmax Hmax Hm) as Hloop.
    assert (Hacc : payload_accepted policy (Dir entries) ↔
                   Forall (λ kv, payload_accepted policy kv.2) (sort_by fst entries)) by (by rewrite accepted_dir, Hp).
    rewrite !Hsum in Hloop. rewrite Hacc. cbn [node_count].
    pose proof (sum_map_nonneg (λ kv : string * node, node_count kv.2) entries) as Hc.
    assert (0 ≤ sum_list (map (λ kv, node_count kv.2) entries)).
    { apply Hc, Forall_true. intros kv. pose proof (node_measures_nonneg kv.2). lia. }
    split.
    + intros (m & [-> Hm] & Hr). apply Hloop in Hr as (? & ? & ? & ? & ->); [|lia]. cbn.
      split_and!; [done|lia|lia|lia|]. f_equal. lia.
    + intros (? & ? & [? ?] & ->). cbn in *. exists (nodes + 1). split; [lia|]. apply Hloop; [lia|].
      split_and!; [done|lia|lia|lia|]. f_equal. lia.
  - split.
    + intros (m & [-> Hm] & Hs). apply bind_ok in Hs as (stats & Hs & [= <-]).
      destruct policy; [|done]. injection Hs as <-. by split_and!.
    + intros (-> & Hm & _ & ->). exists (nodes + 1). by split_and!.
  - naive_solver.
Qed.
End Measure.

(** * Theorems *)

(** Measuring a payload gives its account or fails: it succeeds exactly when the
    root is a plain directory without special files (and without links where they
    are refused), the number of nodes stays within the limit and the sums fit; then
    the bytes are those of the files and of the targets of the links, which are
    never followed, and the counter grows by the number of nodes. *)
Theorem measure_exact (policy : PayloadLinkPolicy) (root : option node) (nodes limit : Z) (r : PayloadTreeStats * Z) :
  0 ≤ nodes → limit ≤ usize_max →
  measure_payload_tree_with_policy policy root nodes limit = Ok r ↔
  ∃ entries, root = Some (Dir entries) ∧ measured limit policy (Dir entries) nodes r.
Proof.
  intros Hn Hl. unfold measure_payload_tree_with_policy. rewrite bind_ok. setoid_rewrite walk_ok; [|done..]. split.
  - intros (n & Hr & Hm). destruct root as [[]|]; try done. injection Hr as <-. by eexists.
  - intros (entries & -> & Hm). by exists (Dir entries).
Qed.

(** * Copying *)

Section Copying.
Context (link_resolves : path → list ascii → bool) (limit : Z) (policy : PayloadLinkPolicy).
Context (Hlimit : limit ≤ usize_max).

(** The copy of a tree at [p]: links keep their target, which may lead elsewhere
    from there. *)
Fixpoint relink (p : path) (n : node) : node :=
  match n with
  | Symlink _ target => Symlink (link_resolves p target) target
  | Dir entries => Dir (map (λ kv, (kv.1, relink (p ++ [kv.1]) kv.2)) entries)
  | n => n
  end.

Definition copied (n : node) (destination : path) (nodes : Z) (w : World) (r : outcome CacheError Z * World) : Prop :=
  match r with
  | (Done m, w') => m = nodes + node_count n ∧ w_tree w' = tree_put destination (Some (relink destination n)) (w_tree w)
  | (_, w') => outside destination (w_tree w) (w_tree w')
  end ∧
  (quiet w → payload_accepted policy n → nodes + node_count n ≤ limit → ∃ m w', r = (Done m, w') ∧ quiet w').

(** Where a new entry can be made. *)
Definition vacant (p : path) (t : node) : Prop := p ≠ [] ∧ is_dir (tree_get (parent p) t) = true ∧ tree_get p t = None.

(** One effect that fills a vacant place. *)
Lemma effect_put {E} (f : io_kind → E) act partial p n w :
  act (w_tree w) = Ok (tree_put p (Some n) (w_tree w)) →
  (∀ rest, outside p (w_tree w) (partial rest (w_tree w))) →
  (match fs_map_err f (effect act partial) w with
   | (Done _, w') => w_tree w' = tree_put p (Some n) (w_tree w)
   | (_, w') => outside p (w_tree w) (w_tree w')
   end) ∧ (quiet w → fs_map_err f (effect act partial) w = (Done (), set_tree (tree_put p (Some n) (w_tree w)) w)).
Proof.
  intros Ha Hp. unfold fs_map_err, fs_catch. split.
  - unfold effect. rewrite Ha. destruct (head (w_fates w)) as [[]|]; cbn; auto.
  - intros Hq. pose proof (effect_quiet act partial w _ Hq Ha) as E0. by rewrite E0.
Qed.

Lemma insert_last (l : btmap string node) k (n : node) :
  map_sorted (l ++ [(k, n)]) → map_insert k n l = l ++ [(k, n)].
Proof.
  unfold map_sorted, set_sorted, map_keys. induction l as [|[z x] l IH]; cbn; [done|].
  intros Hs. apply StronglySorted_inv in Hs as [Hs Hf]. rewrite IH by done.
  assert (Hz : lt_ord z k).
  { rewrite Forall_forall in Hf. apply Hf, list_elem_of_fmap. exists (k, n). split; [done|].
    apply elem_of_app. right. by left. }
  unfold lt_ord in Hz. cbn in Hz. by rewrite (string_compare_antisym z k), Hz.
Qed.

Lemma sorted_prefix (l m : btmap string node) : map_sorted (l ++ m) → map_sorted l.
Proof.
  unfold map_sorted, set_sorted, map_keys. induction l as [|kv l IH]; cbn; [constructor|].
  intros [Hs Hf]%StronglySorted_inv. constructor; [by apply IH|]. rewrite Forall_forall in *. intros x Hx.
  apply Hf. apply list_elem_of_fmap in Hx as (y & -> & Hy). apply list_elem_of_fmap. exists y.
  split; [done|]. apply elem_of_app. by left.
Qed.

(** The loop over the names of a directory. *)
Definition copy_each (fuel : nat) (source destination : path) (nodes : Z) (names : list string) : fs CacheError Z :=
  fs_fold (λ nodes name, copy_payload_node link_resolves fuel limit policy (source ++ [name]) (destination ++ [name]) nodes) nodes names.

Lemma copy_each_cons fuel source destination nodes name names w :
  copy_each fuel source destination nodes (name :: names) w =
  match copy_payload_node link_resolves fuel limit policy (source ++ [name]) (destination ++ [name]) nodes w with
  | (Done x, w') => copy_each fuel source destination x names w'
  | (Failed e, w') => (Failed e, w')
  | (Stopped, w') => (Stopped, w')
  end.
Proof. reflexivity. Qed.

Definition relink_children (p : path) (entries : btmap string node) : btmap string node :=
  map (λ kv, (kv.1, relink (p ++ [kv.1]) kv.2)) entries.

Lemma keys_relink p entries : map_keys (relink_children p entries) = map_keys entries.
Proof. unfold map_keys, relink_children. induction entries as [|kv l IH]; cbn; [done|]. f_equal. apply IH. Qed.

Lemma relink_children_snoc p entries k n :
  map_sorted (entries ++ [(k, n)]) →
  map_insert k (relink (p ++ [k]) n) (relink_children p entries) = relink_children p (entries ++ [(k, n)]).
Proof.
  intros Hs. unfold relink_children. rewrite map_app. apply insert_last.
  unfold map_sorted. change (map_sorted (relink_children p (entries) ++ relink_children p [(k, n)])).
  unfold relink_children. rewrite <-map_app. unfold map_sorted. fold (relink_children p (entries ++ [(k, n)])).
  by rewrite keys_relink.
Qed.

(** What a call of [copy_payload_node] promises of a node that is elsewhere. *)
Definition copies (fuel : nat) (source : path) (n : node) : Prop :=
  ∀ destination nodes w, tree_get source (w_tree w) = Some n → apart source destination →
    vacant destination (w_tree w) → 0 ≤ nodes → limit - nodes < Z.of_nat fuel →
    copied n destination nodes w (copy_payload_node link_resolves fuel limit policy source destination nodes w).

(** The copies of a directory's entries, one after another: [before] are there. *)
Lemma copy_children fuel source destination (before rest : btmap string node) nodes t w :
  map_sorted (before ++ rest) → destination ≠ [] → is_dir (tree_get (parent destination) t) = true → 0 ≤ nodes →
  apart source destination → Forall (λ kv, tree_get (source ++ [kv.1]) t = Some kv.2) rest →
  limit - nodes < Z.of_nat fuel →
  Forall (λ kv, copies fuel (source ++ [kv.1]) kv.2) rest →
  w_tree w = tree_put destination (Some (Dir (relink_children destination before))) t →
  let r := copy_each fuel source destination nodes (map_keys rest) w in
  match r with
  | (Done m, w') => m = nodes + sum_list (map (λ kv, node_count kv.2) rest) ∧
      w_tree w' = tree_put destination (Some (Dir (relink_children destination (before ++ rest)))) t
  | (_, w') => outside destination t (w_tree w')
  end ∧
  (quiet w → Forall (λ kv, payload_accepted policy kv.2) rest →
   nodes + sum_list (map (λ kv, node_count kv.2) rest) ≤ limit → ∃ m w', r = (Done m, w') ∧ quiet w').
Proof.
  intros Hs Hd Hpar Hn Hap Hsrc Hfuel Hrest. revert before nodes w Hs Hn Hfuel.
  induction Hrest as [|[k n] rest Hkn Hrest IH]; intros before nodes w Hs Hn Hfuel Hw; cbv zeta.
  { cbn. rewrite app_nil_r. split; [split; [lia|done]|]. intros Hq _ _. by do 2 eexists. }
  apply Forall_cons in Hsrc as [Hk Hsrc]. cbn [fst snd] in Hk.
  pose proof (tree_put_at destination (Some (Dir (relink_children destination before))) t Hd Hpar) as Hat.
  assert (Hs1 : map_sorted (before ++ [(k, n)])) by (apply (sorted_prefix _ rest); by rewrite <-app_assoc).
  assert (Hvac : vacant (destination ++ [k]) (w_tree w)).
  { split; [by destruct destination|]. rewrite parent_snoc, Hw, tree_get_snoc, Hat. split; [done|]. cbn.
    apply map_get_none. rewrite keys_relink. apply sorted_nodup in Hs1. unfold map_keys in *.
    rewrite fmap_app, NoDup_app in Hs1. destruct Hs1 as (_ & Hdis & _). intros Hin. by apply (Hdis k Hin); left. }
  assert (Hkw : tree_get (source ++ [k]) (w_tree w) = Some n).
  { rewrite Hw, tree_put_apart; [done|]. by apply apart_app, apart_sym. }
  assert (Hapk : apart (source ++ [k]) (destination ++ [k])) by (by apply apart_app, apart_sym, apart_app, apart_sym).
  change (map_keys ((k, n) :: rest)) with (k :: map_keys rest). rewrite copy_each_cons.
  change (map (λ kv, node_count kv.2) ((k, n) :: rest)) with (node_count n :: map (λ kv, node_count kv.2) rest).
  destruct (Hkn (destination ++ [k]) nodes w Hkw Hapk Hvac Hn Hfuel) as [Hres Hquiet]. cbn [fst snd] in Hres, Hquiet.
  pose proof (node_measures_nonneg n) as (Hc & _ & _).
  assert (Hcons : sum_list (node_count n :: map (λ kv, node_count kv.2) rest)
                  = node_count n + sum_list (map (λ kv, node_count kv.2) rest)) by done.
  assert (Hsum : 0 ≤ sum_list (map (λ kv : string * node, node_count kv.2) rest)).
  { apply sum_map_nonneg, Forall_true. intros kv. pose proof (node_measures_nonneg kv.2). lia. }
  destruct (copy_payload_node link_resolves fuel limit policy (source ++ [k]) (destination ++ [k]) nodes w) as [[m|e|] w1] eqn:Er.
  - destruct Hres as [-> Hw1]. rewrite Hw, tree_put_into in Hw1 by done. cbn [tree_put] in Hw1.
    rewrite relink_children_snoc in Hw1 by done.
    destruct (IH Hsrc (before ++ [(k, n)]) (nodes + node_count n) w1) as [IH1 IH2]; [by rewrite <-app_assoc|lia|lia|done|].
    cbv zeta in IH1, IH2. rewrite <-app_assoc in IH1. cbn [app] in IH1. rewrite Hcons. split.
    + destruct (copy_each _ _ _ _ _ w1) as [[m|e|] w2]; [|done..]. destruct IH1 as [-> ->]. split; [lia|done].
    + intros Hq [Ha Hf]%Forall_cons Hl. cbn in Ha. destruct (Hquiet Hq Ha) as (m' & w' & [= <- <-] & Hq'); [lia|].
      apply IH2; [done..|lia].
  - split.
    + eapply outside_trans; [|by eapply outside_below]. rewrite Hw. apply outside_put_self.
    + intros Hq [Ha _]%Forall_cons Hl. destruct (Hquiet Hq Ha) as (m' & w' & [=] & _). rewrite Hcons in Hl. lia.
  - split.
    + eapply outside_trans; [|by eapply outside_below]. rewrite Hw. apply outside_put_self.
    + intros Hq [Ha _]%Forall_cons Hl. destruct (Hquiet Hq Ha) as (m' & w' & [=] & _). rewrite Hcons in Hl. lia.
Qed.

(** A leaf: one effect that fills the place. *)
Lemma copy_leaf (n : node) act partial f destination nodes w :
  node_count n = 1 →
  act (w_tree w) = Ok (tree_put destination (Some (relink destination n)) (w_tree w)) →
  (∀ rest, outside destination (w_tree w) (partial rest (w_tree w))) →
  copied n destination nodes w ((_ ← fs_map_err f (effect act partial); mret (nodes + 1) : fs CacheError Z) w).
Proof.
  intros Hc Ha Hp. unfold copied. rewrite Hc. destruct (effect_put f act partial destination _ w Ha Hp) as [He Hq].
  unfold mbind, fs_bind. split.
  - destruct (fs_map_err f (effect act partial) w) as [[|e|] w']; [by split|done..].
  - intros Hquiet _ _. rewrite (Hq Hquiet). by do 2 eexists.
Qed.

Lemma copied_refused n destination nodes w e :
  (payload_accepted policy n → nodes + node_count n ≤ limit → False) → copied n destination nodes w (Failed e, w).
Proof. intros Hr. split; [apply outside_refl|]. intros _ Ha Hl. by destruct (Hr Ha Hl). Qed.

(** The names that a directory lists, in order. *)
Lemma sort_keys (entries : btmap string node) : map_sorted entries → sort_by (λ name, name) (map_keys entries) = map_keys entries.
Proof.
  intros Hs. unfold map_keys. change (fst <$> entries) with (map (fst : string * node → string) entries).
  by rewrite (sort_by_map (fst : string * node → string) (λ name, name)), sort_by_id.
Qed.

Lemma copy_node n : node_wf n → ∀ fuel source, copies fuel source n.
Proof.
  induction n as [content|entries IH|e target|] using node_tree_ind;
    intros Hwf fuel source destination nodes w Hsource Hap (Hd & Hpar & Hnone) Hn Hfuel;
    (destruct fuel as [|fuel]; [apply copied_refused; intros _; match goal with |- nodes + node_count ?n ≤ _ → _ =>
       pose proof (node_measures_nonneg n) as (? & _ & _) end; lia|]);
    cbn [copy_payload_node]; unfold mbind at 1, fs_bind at 1, fs_lift at 1;
    (destruct (count_node limit nodes) as [m|e'] eqn:Ec; cbn [of_result];
      [apply count_node_ok in Ec as [-> Hm]; [|done..]
      |apply copied_refused; intros _ Hle; match type of Hle with nodes + node_count ?n ≤ _ =>
         pose proof (node_measures_nonneg n) as (? & _ & _) end;
       assert (count_node limit nodes = Ok (nodes + 1)) by (apply count_node_ok; [done..|split; [done|lia]]); congruence]);
    unfold mbind at 1, fs_bind at 1, symlink_metadata, look; rewrite Hsource; cbn [ok_or of_result].
  - apply (copy_leaf (File content)); [done|by rewrite Hpar, Hnone|]. intros rest. rewrite Hpar, Hnone. apply outside_put_self.
  - inversion Hwf as [|? Hsorted Hall| |]; subst.
    assert (Hmk : (fun t => match tree_get destination t with
                      | Some _ => Err AlreadyExists
                      | None => if is_dir (tree_get (parent destination) t)
                                then Ok (tree_put destination (Some (Dir [])) t) else Err NotFound
                      end) (w_tree w) = Ok (tree_put destination (Some (Dir [])) (w_tree w))) by (by rewrite Hnone, Hpar).
    destruct (effect_put CacheIo _ unchanged destination _ w Hmk ltac:(intros; apply outside_refl)) as [He Hq].
    fold (create_dir destination) in He, Hq. unfold copied. unfold mbind at 1 3, fs_bind at 1 3.
    destruct (fs_map_err CacheIo (create_dir destination) w) as [[[]|e|] w1] eqn:Em.
    2, 3: split; [by idtac|intros Hquiet; by specialize (Hq Hquiet)].
    assert (Hlist : tree_get source (w_tree w1) = Some (Dir entries)).
    { by rewrite He, tree_put_apart by by apply apart_sym. }
    unfold mbind, fs_bind, fs_map_err, fs_catch, read_directory, look. rewrite Hlist. cbn [of_result]. rewrite sort_keys by done.
    fold (copy_each fuel source destination (nodes + 1) (map_keys entries)).
    destruct (copy_children fuel source destination [] entries (nodes + 1) (w_tree w) w1 Hsorted Hd Hpar ltac:(lia) Hap)
      as [Hres Hquiet]; [|lia| |done|].
    { apply Forall_forall. intros [k n] Hin. rewrite tree_get_snoc, Hsource. cbn. by apply map_get_elem. }
    { rewrite Forall_forall in *. intros kv Hkv. apply IH; [done|by apply Hall]. }
    cbv zeta in Hres, Hquiet. cbn [app] in Hres. cbn [node_count]. split.
    + destruct (copy_each _ _ _ _ _ w1) as [[m'|e|] w2]; [|done..]. destruct Hres as [-> ->]. split; [lia|done].
    + intros Hq0 Ha Hl. apply Hquiet; [|by apply accepted_dir|lia].
      specialize (Hq Hq0). injection Hq as ->. done.
  - unfold recreate_payload_link. destruct policy eqn:Epolicy.
    2: { apply copied_refused. intros Ha. cbn in Ha. congruence. }
    match goal with |- copied _ _ _ _ ?r => assert (Em : r = (_ ← fs_map_err PayloadSymlinkCreate (create_link link_resolves target destination);
      mret (nodes + 1) : fs CacheError Z) w) end.
    { unfold mbind, fs_bind, fs_map_err, fs_catch, read_link, look. rewrite Hsource. cbn [of_result]. by rewrite Hnone. }
    rewrite Em. apply (copy_leaf (Symlink e target)); [done|by rewrite Hpar, Hnone|]. intros rest. apply outside_refl.
  - apply copied_refused. by intros [].
Qed.

(** ** The fuel of a copy *)

Lemma count_node_next nodes m : count_node limit nodes = Ok m → m = nodes + 1 ∧ m ≤ limit.
Proof.
  unfold count_node, checked_usize. intros Hc. apply bind_ok in Hc as (a & [-> _]%ok_or_ok%checked_u64_some & Hc).
  apply bind_ok in Hc as ([] & Hb%ensure_ok & [= <-]). split; [done|].
  rewrite Z.gtb_ltb in Hb. apply negb_true_iff, Z.ltb_ge in Hb. lia.
Qed.

Lemma count_node_full nodes : limit ≤ nodes → count_node limit nodes = Err InventoryLimitExceeded.
Proof.
  intros Hl. destruct (count_node limit nodes) as [m|e] eqn:E; [apply count_node_next in E; lia|].
  unfold count_node, checked_usize in E. apply bind_err in E as [E|(m & _ & E)]; [by destruct (checked_u64 _); simplify_eq/=|].
  by apply bind_err in E as [[_ <-]%ensure_err|(? & _ & E)].
Qed.

Lemma fold_counts {A} (f : Z → A → fs CacheError Z) l :
  (∀ n x w m w', f n x w = (Done m, w') → n ≤ m) → ∀ n w m w', fs_fold f n l w = (Done m, w') → n ≤ m.
Proof.
  intros Hf. induction l as [|x l IH]; intros n w m w'; cbn [fs_fold]; [by intros [= -> _]|].
  unfold mbind, fs_bind. destruct (f n x w) as [[n'|e|] w1] eqn:E; [|done..]. intros Hr. apply Hf in E. apply IH in Hr. lia.
Qed.

Lemma fold_same {A} (f g : Z → A → fs CacheError Z) b l :
  (∀ n x w m w', f n x w = (Done m, w') → n ≤ m) → (∀ n x w, b ≤ n → f n x w = g n x w) →
  ∀ n w, b ≤ n → fs_fold f n l w = fs_fold g n l w.
Proof.
  intros Hc Hfg. induction l as [|x l IH]; intros n w Hn; cbn [fs_fold]; [done|]. unfold mbind, fs_bind.
  rewrite <-Hfg by done. destruct (f n x w) as [[n'|e|] w1] eqn:E; [|done..]. apply Hc in E. apply IH. lia.
Qed.

Lemma copy_counts fuel : ∀ source destination nodes w m w',
  copy_payload_node link_resolves fuel limit policy source destination nodes w = (Done m, w') → nodes ≤ m.
Proof.
  induction fuel as [|fuel IH]; intros source destination nodes w m w'; cbn [copy_payload_node]; [done|].
  unfold mbind at 1, fs_bind at 1, fs_lift at 1. destruct (count_node limit nodes) as [k|e] eqn:Ec; cbn [of_result]; [|done].
  apply count_node_next in Ec as [-> _].
  unfold mbind at 1, fs_bind at 1. destruct (symlink_metadata source w) as [[[content|es|e target|]|e|] w1]; try done;
    unfold mbind, fs_bind.
  - destruct (fs_map_err _ _ w1) as [[]]; try done. intros [= <- _]. lia.
  - destruct (fs_map_err _ _ w1) as [[] w2]; try done. destruct (fs_map_err _ _ w2) as [[] w3]; try done.
    intros Hr%fold_counts; [lia|]. intros. by eapply IH.
  - destruct (recreate_payload_link _ _ _ _ w1) as [[]]; try done. intros [= <- _]. lia.
Qed.

(** Any fuel beyond the nodes that are left to count gives the same copy. *)
Lemma copy_fuel_enough fuel : ∀ fuel' source destination nodes w,
  limit - nodes < Z.of_nat fuel → limit - nodes < Z.of_nat fuel' →
  copy_payload_node link_resolves fuel limit policy source destination nodes w =
  copy_payload_node link_resolves fuel' limit policy source destination nodes w.
Proof.
  assert (Hfull : ∀ n source destination nodes w, limit < nodes →
    copy_payload_node link_resolves n limit policy source destination nodes w = (Failed InventoryLimitExceeded, w)).
  { intros [|n] source destination nodes w Hl; [done|]. cbn [copy_payload_node]. unfold mbind at 1, fs_bind at 1, fs_lift.
    by rewrite count_node_full by lia. }
  induction fuel as [|fuel IH]; intros fuel' source destination nodes w Hf Hf'; [by rewrite !Hfull by lia|].
  destruct fuel' as [|fuel']; [by rewrite !Hfull by lia|]. cbn [copy_payload_node].
  unfold mbind, fs_bind, fs_lift. destruct (count_node limit nodes) as [k|e] eqn:Ec; cbn [of_result]; [|done].
  apply count_node_next in Ec as [-> _].
  destruct (symlink_metadata source w) as [[[content|es|e target|]|e|] w1]; try done.
  destruct (fs_map_err _ _ w1) as [[] w2]; try done. destruct (fs_map_err _ _ w2) as [[names| |] w3]; try done.
  apply (fold_same _ _ (nodes + 1)); [intros; by eapply copy_counts| |lia]. intros n name w4 Hn. apply IH; lia.
Qed.

(** ** A destination inside the source *)

Lemma keeps_copy fuel ps source destination nodes :
  covered ps destination → keeps ps (copy_payload_node link_resolves fuel limit policy source destination nodes).
Proof.
  revert source destination nodes. induction fuel as [|fuel IH]; intros source destination nodes Hp; cbn [copy_payload_node];
    [apply keeps_fs_lift|].
  apply keeps_fs_bind; [apply keeps_fs_lift|]. intros m. apply keeps_fs_bind; [apply keeps_look|]. intros [content|entries|e target|].
  - apply keeps_fs_bind; [|intros; apply keeps_fs_ret]. apply keeps_map_err, keeps_effect.
    + intros t t' q Hq. destruct (is_dir _); [|done]. intros Ht.
      assert (t' = tree_put destination (Some (File content)) t) as -> by (by destruct (tree_get destination t) as [[]|]; simplify_eq).
      by apply (covered_put ps).
    + intros rest t q Hq. destruct (is_dir _); [|done]. destruct (tree_get destination t) as [[]|]; try done; by apply (covered_put ps).
  - apply keeps_fs_bind; [by apply keeps_map_err, keeps_create_dir|]. intros _.
    apply keeps_fs_bind; [apply keeps_map_err, keeps_look|]. intros names. apply keeps_fold. intros n name. apply IH.
    destruct Hp as (p & q & Hp & ->). exists p, (q ++ [name]). by rewrite app_assoc.
  - apply keeps_fs_bind; [|intros; apply keeps_fs_ret]. unfold recreate_payload_link. destruct policy; [|apply keeps_fs_lift].
    apply keeps_fs_bind; [apply keeps_map_err, keeps_look|]. intros t0. apply keeps_fs_bind; [apply keeps_look|]. intros _.
    apply keeps_map_err, keeps_effect; [|done]. intros t t' q Hq. destruct (tree_get destination t); [done|].
    destruct (is_dir _); [|done]. intros [= <-]. by apply (covered_put ps).
  - apply keeps_fs_lift.
Qed.

Lemma fold_never {S A} (f : S → A → fs CacheError S) (l : list A) x :
  x ∈ l → (∀ s w y w', f s x w ≠ (Done y, w')) → ∀ s w y w', fs_fold f s l w ≠ (Done y, w').
Proof.
  intros Hx Hf. induction l as [|a l IH]; [by apply not_elem_of_nil in Hx|]. intros s w y w'. cbn [fs_fold].
  unfold mbind, fs_bind. destruct (f s a w) as [[s'|e|] w1] eqn:E; [|done..].
  apply elem_of_cons in Hx as [->|Hx]; [by apply Hf in E|by apply IH].
Qed.

(** Each directory of the copy is found again in the source. *)
Lemma copy_inside_never fuel : ∀ source r nodes w m w', r ≠ [] →
  copy_payload_node link_resolves fuel limit policy source (source ++ r) nodes w ≠ (Done m, w').
Proof.
  induction fuel as [|fuel IH]; intros source r nodes w m w' Hr; [done|]. cbn [copy_payload_node].
  unfold mbind at 1, fs_bind at 1, fs_lift at 1. destruct (count_node limit nodes) as [nodes'|e]; cbn [of_result]; [|done].
  unfold mbind at 1, fs_bind at 1, symlink_metadata, look. destruct (tree_get source (w_tree w)) as [n|] eqn:Es; cbn [ok_or of_result]; [|done].
  assert (Hpar : parent (source ++ r) = source ++ parent r).
  { destruct r as [|k r'] using rev_ind; [done|]. by rewrite app_assoc, !parent_snoc. }
  assert (Hdir : is_dir (Some n) = false → is_dir (tree_get (parent (source ++ r)) (w_tree w)) = false).
  { intros Hn. apply not_true_is_false. rewrite Hpar. intros Hd%tree_get_dir_app. by rewrite Es, Hn in Hd. }
  destruct n as [content|entries|e target|]; [| | |done].
  - unfold mbind, fs_bind, fs_map_err, fs_catch, copy_file, effect. rewrite Hdir by done. by destruct (head _) as [[]|].
  - unfold mbind at 1, fs_bind at 1. destruct (fs_map_err CacheIo (create_dir (source ++ r)) w) as [[[]|e|] w1] eqn:Ed; [|done..].
    assert (Hdest : tree_get (source ++ r) (w_tree w1) = Some (Dir [])).
    { unfold fs_map_err, fs_catch, create_dir, effect in Ed. destruct (tree_get (source ++ r) (w_tree w)); [by destruct (head _) as [[]|]|].
      destruct (is_dir (tree_get (parent (source ++ r)) (w_tree w))) eqn:Eh; [|by destruct (head _) as [[]|]].
      destruct r as [|k r'] using rev_ind; [done|]. rewrite app_assoc in *. rewrite parent_snoc in Eh.
      destruct (head _) as [[]|]; try done; injection Ed as <-; cbn [w_tree set_tree]; by apply tree_put_same. }
    destruct r as [|k r]; [done|]. change (k :: r) with ([k] ++ r) in Hdest. rewrite app_assoc, tree_get_app, tree_get_snoc in Hdest.
    unfold mbind, fs_bind, fs_map_err, fs_catch, read_directory, look.
    destruct (tree_get source (w_tree w1)) as [[|es| |]|]; try done. cbn in Hdest. cbn [of_result].
    apply (fold_never _ _ k).
    + rewrite sort_by_perm. apply dec_stable. intros Hk%map_get_none. by rewrite Hk in Hdest.
    + intros nodes2 w2 m2 w3.
      replace ((source ++ k :: r) ++ [k]) with ((source ++ [k]) ++ (r ++ [k])) by (by rewrite <-!app_assoc).
      apply IH. by destruct r.
  - unfold recreate_payload_link. destruct policy; [|done].
    unfold mbind, fs_bind, fs_map_err, fs_catch, read_link, look. rewrite Es. cbn [of_result].
    destruct (tree_get (source ++ r) (w_tree w)) eqn:En; cbn [of_result]; [done|].
    unfold create_link, effect. rewrite En, Hdir by done. by destruct (head _) as [[]|].
Qed.
End Copying.

(** C32.  A copy is the payload: a copy that completes has made at its destination the
    same tree, with every link's target as it was, and nothing else; wherever it is
    left, nothing outside the destination has changed; and when nothing fails on
    the way it completes for every payload that passes the validation, if the
    destination is not inside the payload.  Inside, the copy finds its own output
    again, and never completes. *)
Theorem copy_exact (link_resolves : path → list ascii → bool) (policy : PayloadLinkPolicy) (source destination : path)
    (entries : btmap string node) (nodes limit : Z) (w : World) :
  0 ≤ nodes → limit ≤ usize_max → node_wf (Dir entries) →
  tree_get source (w_tree w) = Some (Dir entries) → vacant destination (w_tree w) →
  let r := copy_payload_tree_with_policy link_resolves policy source destination nodes limit w in
  match r with
  | (Done m, w') => ¬ source `prefix_of` destination ∧ m = nodes + node_count (Dir entries) ∧
      w_tree w' = tree_put destination (Some (relink link_resolves destination (Dir entries))) (w_tree w)
  | (_, w') => outside destination (w_tree w) (w_tree w')
  end ∧
  (quiet w → ¬ source `prefix_of` destination →
   validate_payload_tree_with_policy policy (Some (Dir entries)) nodes limit = Ok () → ∃ m w', r = (Done m, w')).
Proof.
  intros Hn Hl Hwf Hs Hv r. set (fuel := copy_fuel limit nodes).
  assert (Hr : r = copy_payload_node link_resolves fuel limit policy source destination nodes w).
  { subst r. unfold copy_payload_tree_with_policy, mbind, fs_bind, look. rewrite Hs. cbn [payload_root of_result].
    by rewrite (proj2 (proj2 Hv)). }
  assert (Hne : source ≠ destination) by (intros ->; destruct Hv as (_ & _ & E); congruence).
  destruct (decide (source `prefix_of` destination)) as [Hin|Hout].
  { split; [|done]. destruct Hin as [p ->]. assert (p ≠ []) by (intros ->; by rewrite app_nil_r in Hne).
    pose proof (keeps_copy link_resolves limit policy fuel [source ++ p] source (source ++ p) nodes
      (covered_in _ _ (list_elem_of_here _ _)) w) as Hk. rewrite <-Hr in Hk.
    destruct r as [[m|e|] w']; [by destruct (copy_inside_never link_resolves limit policy fuel source p nodes w m w')|..];
      intros q Hq; apply Hk; by constructor. }
  assert (Hap : apart source destination).
  { split; [done|]. intros [p ->]. destruct Hv as (_ & _ & E). by rewrite tree_get_app, E in Hs. }
  destruct (copy_node link_resolves limit policy Hl (Dir entries) Hwf fuel source destination nodes w Hs Hap Hv Hn) as [H1 H2].
  { subst fuel. unfold copy_fuel. lia. }
  rewrite <-Hr in H1, H2. split; [by destruct r as [[] ?]|]. intros Hq _ Hval. unfold validate_payload_tree_with_policy in Hval.
  apply bind_ok in Hval as (st & Hm & _). apply bind_ok in Hm as (n & [= <-] & Hm).
  apply walk_ok in Hm as (Ha & Hc & _ & _); [|done..].
  destruct (H2 Hq Ha Hc) as (m & w' & E & _). by do 2 eexists.
Qed.

(** * Example *)

Module PayloadExample.
Definition payload : node :=
  Dir [("a", File (bytes "one")); ("l", Symlink true (bytes "a")); ("sub", Dir [("b", File [])])].
Definition world : World :=
  {| w_tree := Dir [("data", payload); ("staging", Dir [])]; w_locks := []; w_sequence := 0; w_durable := 0;
     w_promoted := []; w_run_lock := 0; w_fates := [] |}.
End PayloadExample.
Import PayloadExample.

Lemma measure_exact_witness :
  measure_payload_tree_with_policy Preserve (Some payload) 0 100000 = Ok ({| pt_bytes := 4; pt_files := 3 |}, 5).
Proof.
  apply (measure_exact Preserve (Some payload) 0 100000); [lia|by vm_compute|].
  eexists. split; [reflexivity|]. vm_compute. repeat split; discriminate.
Defined.

Lemma copy_exact_witness :
  ∃ m w', copy_payload_tree_with_policy (λ _ _, true) Preserve ["data"] ["staging"; "data"] 0 100000 world = (Done m, w').
Proof.
  refine (proj2 (copy_exact (λ _ _, true) Preserve ["data"] ["staging"; "data"] _ 0 100000 world _ _ _ eq_refl _) eq_refl _ _).
  - lia.
  - by vm_compute.
  - repeat constructor.
  - vm_compute. by split_and!.
  - intros [p E]. discriminate E.
  - vm_compute. reflexivity.
Defined.

(** A copy into itself runs into the limit. *)
Example copy_inside :
  match copy_payload_tree_with_policy (λ _ _, true) Preserve ["data"] ["data"; "sub"; "copy"] 0 50 world with
  | (Failed InventoryLimitExceeded, _) => True
  | _ => False
  end.
Proof. vm_compute. exact I. Qed.
