(* ===== verification/CacheRoot.v ===== *)
(** The choice and validation of the cache root ([src/src/cache.rs], first part).

    A path is the list of its components, as [Path] compares paths; a candidate is
    the text it is given as.  What the system says of a path (its metadata without
    following a last link, its canonical form, whether it is a directory) is an
    argument. *)
From S2P Require Import Prelude.
From S2P Require Import RustStr.
From S2P Require Import BTree.
From S2P Require Import Canonical.
From S2P Require Import Durable.
From S2P Require Import FileSystem.
From S2P Require Import CachePayload.
Local Open Scope Z_scope.

Definition DEFAULT_CACHE_ROOT_NAME : string := "commit-ci-preflight-build-v1".

Inductive CacheRootSource : Type := Explicit | Environment | PlatformDefault.
Inductive PlatformFamily : Type := FamilyMacOs | FamilyWindows | FamilyUnix.

(** [std::path::Component] on Unix. *)
Inductive component : Type := RootDir | CurDir | ParentDir | Normal (name : string).

#[global] Instance component_eq_dec : EqDecision component.
Proof. solve_decision. Defined.

Definition is_nonempty (s : string) : bool := negb (is_empty s).

(** [Path::components]: separators are collapsed, and [.] is only kept in front of
    a relative path. *)
Definition named_component (name : string) : component := if (name =? "..")%string then ParentDir else Normal name.
Definition components (text : string) : list component :=
  let parts := split "/" text in
  let kept := named_component <$> List.filter (λ p, is_nonempty p && negb (p =? ".")%string) parts in
  if starts_with "/" text then RootDir :: kept
  else match parts with "." :: _ => CurDir :: kept | _ => kept end.

Definition is_absolute (p : list component) : bool :=
  match p with RootDir :: _ => true | _ => false end.

(** [Path::starts_with], [Path::parent] and [Path::file_name]. *)
Definition path_starts_with (p base : list component) : bool := bool_decide (base `prefix_of` p).
Definition path_parent (p : list component) : option (list component) :=
  match last p with
  | None | Some RootDir => None
  | Some _ => Some (removelast p)
  end.
Definition file_name (p : list component) : option string :=
  match last p with Some (Normal name) => Some name | _ => None end.

Record CacheRootOptions : Type := {
  ro_explicit : option string;
  ro_environment : option string;
  ro_home : option string;
  ro_xdg_cache_home : option string;
  ro_local_app_data : option string;
  ro_platform : PlatformFamily;
}.

Record ResolvedCacheRoot : Type := {
  rr_path : list component;
  rr_source : CacheRootSource;
}.

(** [Path::join]. *)
Definition join_text (base name : string) : string :=
  if starts_with "/" name then name
  else if is_empty base then name
  else match last (bytes base) with
       | Some "/"%char => base +:+ name
       | _ => base +:+ "/" +:+ name
       end.

Definition platform_default (o : CacheRootOptions) : result CacheError string :=
  let suffix := DEFAULT_CACHE_ROOT_NAME in
  ok_or (match ro_platform o with
         | FamilyMacOs => (λ home, join_text (join_text (join_text home "Library") "Caches") suffix) <$> ro_home o
         | FamilyWindows => (λ base, join_text base suffix) <$> ro_local_app_data o
         | FamilyUnix =>
           match (λ base, join_text base suffix) <$> ro_xdg_cache_home o with
           | Some path => Some path
           | None => (λ home, join_text (join_text home ".cache") suffix) <$> ro_home o
           end
         end) NoPersistentDefault.

(** What the system answers. *)
Record PathOracle : Type := {
  po_is_symlink : list component → result io_kind bool;
  po_canonicalize : list component → result io_kind (list component);
  po_is_dir : list component → bool;
  po_temp_dir : list component;
}.

Definition reject_unresolved (text : string) : result CacheError () :=
  _ ← ensure (valid_utf8 (bytes text)) (CacheUnsafePath "cache root must be valid UTF-8");
  ensure (negb (starts_with "~" text || contains_char "$" text
                || (contains_char "%" text && (3 <=? Z.of_nat (length (split "%" text))))))
    (CacheUnsafePath "cache root contains an unresolved variable or home shorthand").

Definition is_dot (c : component) : bool := match c with CurDir | ParentDir => true | _ => false end.
Definition reject_lexical_escape (p : list component) : result CacheError () :=
  ensure (negb (existsb is_dot p)) (CacheUnsafePath "cache root cannot contain dot or parent components").

(** The prefixes of a path, shortest first. *)
Fixpoint prefixes {A} (before p : list A) : list (list A) :=
  match p with
  | [] => []
  | c :: p => (before ++ [c]) :: prefixes (before ++ [c]) p
  end.

Section Oracle.
Context (os : PathOracle).

Definition reject_symlink_component (current : list component) : result CacheError () :=
  match po_is_symlink os current with
  | Ok true => Err (CacheUnsafePath "cache root cannot traverse a symbolic link")
  | Ok false | Err NotFound => Ok ()
  | Err kind => Err (CacheIo kind)
  end.
Definition reject_symlink_components (p : list component) : result CacheError () :=
  try_each reject_symlink_component (prefixes [] p).

(** One turn drops a component, so that as many turns as components are enough. *)
Fixpoint canonicalize_loop (fuel : nat) (ancestor tail : list component) : result CacheError (list component) :=
  match po_canonicalize os ancestor with
  | Ok canonical => Ok (canonical ++ tail)
  | Err NotFound =>
    match fuel with
    | O => Err (CacheUnsafePath "cache root has no existing absolute ancestor")
    | S fuel =>
      name ← ok_or (file_name ancestor) (CacheUnsafePath "cache root has no existing absolute ancestor");
      ancestor ← ok_or (path_parent ancestor) (CacheUnsafePath "cache root has no existing absolute ancestor");
      canonicalize_loop fuel ancestor (Normal name :: tail)
    end
  | Err kind => Err (CacheIo kind)
  end.
Definition canonicalize_existing_prefix (p : list component) : result CacheError (list component) :=
  canonicalize_loop (length p) p [].

Definition validate_cache_candidate (candidate : string) (repository : list component) :
    result CacheError (list component) :=
  _ ← reject_unresolved candidate;
  let candidate := components candidate in
  _ ← ensure (is_absolute candidate) (CacheUnsafePath "cache root must be an absolute path");
  _ ← reject_lexical_escape candidate;
  _ ← reject_symlink_components candidate;
  resolved ← canonicalize_existing_prefix candidate;
  _ ← ensure (is_Some_b (path_parent resolved)) (CacheUnsafePath "filesystem root cannot be a cache root");
  _ ← ensure (negb (path_starts_with resolved repository))
        (CacheUnsafePath "cache root cannot be the repository or one of its descendants");
  temporary ← canonicalize_existing_prefix (po_temp_dir os);
  _ ← ensure (negb (path_starts_with resolved temporary))
        (CacheUnsafePath "cache root cannot be a temporary directory");
  Ok resolved.

Definition canonical_directory (p : list component) (label : string) : result CacheError (list component) :=
  canonical ← map_err CacheIo (po_canonicalize os p);
  _ ← ensure (po_is_dir os canonical) (CacheUnsafePath label);
  Ok canonical.

Definition resolve (repository : list component) (o : CacheRootOptions) : result CacheError ResolvedCacheRoot :=
  '(candidate, source) ← match ro_explicit o with
                         | Some path => Ok (path, Explicit)
                         | None =>
                           match ro_environment o with
                           | Some path => Ok (path, Environment)
                           | None => path ← platform_default o; Ok (path, PlatformDefault)
                           end
                         end;
  repository ← canonical_directory repository "repository";
  path ← validate_cache_candidate candidate repository;
  Ok {| rr_path := path; rr_source := source |}.
End Oracle.
