(* ===== verification/Cache.v ===== *)
(** The cache store ([src/src/cache.rs]): the managed root, its entries with their
    locks and generations, and the promotion of prepared entries with its journal.

    Paths are relative to the cache root, whose tree is that of the [World].  Every
    change of the tree is an effect that can fail or be the last one.  Reads of a
    file that is there succeed. *)
From S2P Require Import Prelude.
From S2P Require Import RustStr.
From S2P Require Import BTree.
From S2P Require Import Canonical.
From S2P Require Import Config.
From S2P Require Import Durable.
From S2P Require Import FileSystem.
From S2P Require Import CachePayload.
From S2P Require Import CacheRoot.
Local Open Scope Z_scope.

Definition DEFAULT_DISK_BUDGET_BYTES : Z := 20 * 1024 * 1024 * 1024.
Definition OWNER_FILE : string := ".ccp-cache-root-v1.json".
Definition quote : string := str [ascii_of_nat 34].
Definition quoted (s : string) : string := quote +:+ s +:+ quote.
Definition OWNER_BYTES : list ascii :=
  bytes ("{" +:+ quoted "owner" +:+ ":" +:+ quoted "commit-ci-preflight" +:+ "," +:+ quoted "purpose" +:+ ":"
         +:+ quoted "managed-cache-root" +:+ "," +:+ quoted "schema_version" +:+ ":" +:+ quoted "1.0" +:+ "}")
  ++ [line_feed].
Definition ENTRIES_DIR : string := "entries".
Definition WORKSPACES_DIR : string := "workspaces".
Definition DATA_DIR : string := "data".
Definition COMPLETE_FILE : string := ".complete-v1".
Definition COMPLETE_BYTES : list ascii := bytes "complete-v1" ++ [line_feed].
Definition GENERATION_MANIFEST_FILE : string := ".generation-v1.json".
Definition GENERATION_SCHEMA_VERSION : string := "1.0".
Definition ENTRY_LOCK_FILE : string := ".entry-lock-v1".
Definition PROMOTION_LOCK_FILE : string := ".promotion-lock-v1".
Definition PROMOTION_JOURNAL_FILE : string := ".promotion-journal-v1.json".
Definition PROMOTION_SCHEMA_VERSION : string := "1.0".
Definition MAX_INVENTORY_NODES : Z := 100000.
Definition INIT_RETRIES : nat := 40.
Definition MAX_JOURNAL_BYTES : Z := 1048576.

(** * Data *)

Record CacheKey : Type := { ck_digest : string }.

Record CacheKeyInput : Type := {
  ki_schema_version : string;
  ki_project : string;
  ki_plan_digest : string;
  ki_image : string;
  ki_cache_id : string;
}.

Record CacheGenerationManifestV1 : Type := {
  gm_schema_version : string;
  gm_key_digest : string;
  gm_plan_digest : string;
  gm_generation : Z;
  gm_state : string;
}.

Record CachePromotionJournalEntryV1 : Type := {
  je_key_digest : string;
  je_plan_digest : string;
  je_generation : Z;
  je_staging_name : string;
  je_backup_name : string;
  je_had_current : bool;
  je_previous_marker : option (list ascii);
  je_previous_manifest : option (list ascii);
}.

Record CachePromotionJournalV1 : Type := {
  pj_schema_version : string;
  pj_operation_id : string;
  pj_state : string;
  pj_entries : list CachePromotionJournalEntryV1;
}.

(** The shared owner of a prepared entry has the fields of the entry; its phase is
    [w_promoted] of the world. *)
Record PreparedCacheEntry : Type := {
  pc_path : path;
  pc_data_path : path;
  pc_staging_path : path;
  pc_key_digest : string;
  pc_plan_digest : string;
  pc_generation : Z;
  pc_was_complete : bool;
}.

Inductive PreparedPhase : Type := PhasePreparing | PhaseStaging | PhasePromoted.

Record CacheGenerationExpectation : Type := {
  cx_key_digest : string;
  cx_plan_digest : string;
  cx_generation : Z;
  cx_state : string;
}.

Inductive CacheEntryStatus : Type := Complete | IncompleteEntry.
Inductive CachePromotionOutcome : Type := NotAttempted | Promoted.

Record CacheEntryInventory : Type := {
  ei_directory : string;
  ei_status : CacheEntryStatus;
  ei_bytes : Z;
  ei_files : Z;
}.

Record ManagedCache : Type := {
  mc_root : ResolvedCacheRoot;
  mc_disk_budget_bytes : Z;
}.

Record CacheInventory : Type := {
  in_root : list component;
  in_source : CacheRootSource;
  in_entries : list CacheEntryInventory;
  in_total_bytes : Z;
  in_disk_budget_bytes : Z;
  in_budget_exceeded : bool;
}.

Inductive CleanupReason : Type := ReasonIncompleteEntry.
Record CleanupCandidate : Type := {
  cc_relative_path : path;
  cc_reason : CleanupReason;
  cc_bytes : Z;
}.

Record CleanupPlan : Type := {
  cp_root : list component;
  cp_total_bytes : Z;
  cp_disk_budget_bytes : Z;
  cp_budget_exceeded : bool;
  cp_candidates : list CleanupCandidate;
  cp_reclaimable_bytes : Z;
  cp_deletion_performed : bool;
}.

Record CacheUsePin : Type := {
  up_entry_path : path;
  up_data_path : path;
  up_key_digest : string;
  up_plan_digest : string;
  up_generation : Z;
}.

#[global] Instance CacheEntryStatus_eq_dec : EqDecision CacheEntryStatus.
Proof. solve_decision. Defined.

#[global] Instance CacheKeyInput_serialize : Serialize CacheKeyInput := λ k,
  obj [("schema_version", to_value (ki_schema_version k)); ("project", to_value (ki_project k));
       ("plan_digest", to_value (ki_plan_digest k)); ("image", to_value (ki_image k));
       ("cache_id", to_value (ki_cache_id k))].
#[global] Instance CacheGenerationManifestV1_serialize : Serialize CacheGenerationManifestV1 := λ m,
  obj [("schema_version", to_value (gm_schema_version m)); ("key_digest", to_value (gm_key_digest m));
       ("plan_digest", to_value (gm_plan_digest m)); ("generation", to_value (gm_generation m));
       ("state", to_value (gm_state m))].
(** A [Vec<u8>] is an array of numbers. *)
Definition octets (l : list ascii) : list Z := code <$> l.
#[global] Instance CachePromotionJournalEntryV1_serialize : Serialize CachePromotionJournalEntryV1 := λ e,
  obj [("key_digest", to_value (je_key_digest e)); ("plan_digest", to_value (je_plan_digest e));
       ("generation", to_value (je_generation e)); ("staging_name", to_value (je_staging_name e));
       ("backup_name", to_value (je_backup_name e)); ("had_current", to_value (je_had_current e));
       ("previous_marker", to_value (octets <$> je_previous_marker e));
       ("previous_manifest", to_value (octets <$> je_previous_manifest e))].
#[global] Instance CachePromotionJournalV1_serialize : Serialize CachePromotionJournalV1 := λ j,
  obj [("schema_version", to_value (pj_schema_version j)); ("operation_id", to_value (pj_operation_id j));
       ("state", to_value (pj_state j)); ("entries", to_value (pj_entries j))].

(** [serde_json::from_slice] at the two types that are read. *)
Class CacheParser := {
  parse_generation_manifest : list ascii → option CacheGenerationManifestV1;
  parse_promotion_journal : list ascii → option CachePromotionJournalV1;
}.

(** * Names *)

Definition validated_digest_hex (digest : string) : result CacheError string :=
  hex ← ok_or (strip_prefix "sha256:" digest) InvalidDigest;
  _ ← ensure ((len hex =? 64) && all_bytes is_lower_hex hex) InvalidDigest;
  Ok hex.

(** [&digest[7..]]: the digest of a key is ["sha256:"] and 64 digits. *)
Definition directory_name (key : CacheKey) : string := "sha256-" +:+ str (drop 7 (bytes (ck_digest key))).

Definition entry_path (key : CacheKey) : path := [ENTRIES_DIR; directory_name key].
Definition entry_data_path (key : CacheKey) : path := entry_path key ++ [DATA_DIR].
Definition workspace_path (plan_digest : string) : result CacheError path :=
  digest ← validated_digest_hex plan_digest;
  Ok [WORKSPACES_DIR; "sha256-" +:+ digest].

(** [str::replacen] with the count 1. *)
Fixpoint replacen_list (from to_ l : list ascii) : list ascii :=
  match strip_list from l with
  | Some rest => to_ ++ rest
  | None => match l with [] => [] | a :: l => a :: replacen_list from to_ l end
  end.

Definition is_cache_directory_name (name : string) : bool :=
  is_ok (validated_digest_hex (str (replacen_list (bytes "sha256-") (bytes "sha256:") (bytes name))))
  && starts_with "sha256-" name.

Definition owned_char (a : ascii) : bool := is_ascii_alphanumeric a || Ascii.eqb a "." || Ascii.eqb a "-".
Definition validate_owned_name (name prefix : string) : result CacheError () :=
  ensure (negb ((len name <=? len prefix) || (len name >? 128) || negb (starts_with prefix name)
                || contains_char "/" name || contains_char "\" name || negb (all_bytes owned_char name)))
    GenerationMismatch.

Definition journal_key (e : CachePromotionJournalEntryV1) : result CacheError CacheKey :=
  _ ← validated_digest_hex (je_key_digest e);
  Ok {| ck_digest := je_key_digest e |}.

(** * Reading the tree *)

Definition file_of (n : option node) : result CacheError (list ascii) :=
  match n with
  | Some (File content) => Ok content
  | None => Err (CacheIo NotFound)
  | Some _ => Err (CacheIo OtherIo)
  end.

(** [symlink_metadata] of a file that must be plain when it is there. *)
Definition read_optional_file (n : option node) : result CacheError (option (list ascii)) :=
  match n with
  | None => Ok None
  | Some (File content) => Ok (Some content)
  | Some (Symlink _ _) => Err SymlinkInManagedRoot
  | Some _ => Err UnexpectedEntry
  end.

Definition check_plain_directory (n : option node) : result CacheError () :=
  match n with
  | Some (Dir _) => Ok ()
  | Some (Symlink _ _) => Err SymlinkInManagedRoot
  | Some _ => Err UnexpectedEntry
  | None => Err (CacheIo NotFound)
  end.

Definition check_owner_marker (n : option node) : result CacheError () :=
  match n with
  | Some (File content) =>
    ensure (bool_decide (take (length OWNER_BYTES + 1) content = OWNER_BYTES)) InvalidOwnershipMarker
  | Some (Symlink _ _) => Err SymlinkInManagedRoot
  | Some _ => Err InvalidOwnershipMarker
  | None => Err OwnershipMissing
  end.

Definition validate_plain_directory (p : path) : fs CacheError () := look (λ t, check_plain_directory (tree_get p t)).
Definition validate_owner_marker : fs CacheError () := look (λ t, check_owner_marker (tree_get [OWNER_FILE] t)).
Definition read_optional (p : path) : fs CacheError (option (list ascii)) :=
  look (λ t, read_optional_file (tree_get p t)).
Definition exists_path (p : path) : fs CacheError bool := look (λ t, Ok (exists_node (tree_get p t))).

Definition remove_if_present (p : path) : fs CacheError () :=
  n ← look (λ t, Ok (tree_get p t));
  match n with
  | Some (Symlink _ _) => fs_lift (Err SymlinkInManagedRoot)
  | Some (Dir _) => fs_map_err CacheIo (remove_dir_all p)
  | Some (File _) => fs_map_err CacheIo (remove_file_at p)
  | Some Special => fs_lift (Err UnexpectedEntry)
  | None => mret ()
  end.

Definition ensure_managed_directory (p : path) : fs CacheError () := λ w,
  match create_dir p w with
  | (Done _, w') => validate_plain_directory p w'
  | (Failed AlreadyExists, w') => validate_plain_directory p w'
  | (Failed kind, w') => (Failed (CacheIo kind), w')
  | (Stopped, w') => (Stopped, w')
  end.

(** [create_new], the writes and [sync_all]. *)
Definition write_new_file (p : path) (parts : list (list ascii)) : fs CacheError () :=
  fs_map_err CacheIo
    (_ ← create_new_file p;
     _ ← fs_each (write_all p) parts;
     sync_all).

(** * The process and its platform *)

(** What [clonefile] does: there is none, it makes the copy, the file system does
    not support it, or it fails. *)
Inductive CloneAnswer : Type := NoClonefile | Cloned | CloneUnsupported | CloneFailed.

Record CacheProcess : Type := {
  cpr_pid : Z;
  cpr_policy : PayloadLinkPolicy;
  cpr_clone : CloneAnswer;
  cpr_unix : bool;
  cpr_link_resolves : path → list ascii → bool;
}.

Section Store.
Context `{Backend, CacheParser} (c : CacheProcess).

Definition numbered (prefix : string) (sequence : Z) : string :=
  prefix +:+ decimal_text (cpr_pid c) +:+ "-" +:+ decimal_text sequence.

(** * Locks *)

Definition lock_owner (label : string) : list ascii :=
  bytes ("{" +:+ quoted "schema_version" +:+ ":" +:+ quoted "1.0" +:+ "," +:+ quoted "owner" +:+ ":"
         +:+ quoted "commit-ci-preflight" +:+ "," +:+ quoted "purpose" +:+ ":" +:+ quoted label +:+ ","
         +:+ quoted "pid" +:+ ":" +:+ decimal_text (cpr_pid c) +:+ "}") ++ [line_feed].

(** [open] with [create]. *)
Definition open_or_create (p : path) : fs io_kind () :=
  n ← look (λ t, Ok (tree_get p t));
  match n with Some _ => mret () | None => create_new_file p end.
Definition open_existing (p : path) : fs io_kind () :=
  look (λ t, match tree_get p t with Some _ => Ok () | None => Err NotFound end).

(** [try_lock_exclusive]: a lock of another open file excludes it, also one of the
    same process. *)
Definition try_lock_exclusive (p : path) : fs CacheError () := λ w,
  if bool_decide (p ∈ w_locks w) then (Failed (LockBusy p), w)
  else (Done (), set_world_locks (p :: w_locks w) w).

Definition acquire_advisory_lock_with_mode (p : path) (label : string) (create write_owner : bool) :
    fs CacheError () :=
  release_on_failure
    (_ ← look (λ t, match tree_get p t with
                    | Some (Symlink _ _) => Err SymlinkInManagedRoot
                    | Some (File _) | None => Ok ()
                    | Some _ => Err UnexpectedEntry
                    end);
     _ ← fs_map_err CacheIo (if create then open_or_create p else open_existing p);
     _ ← try_lock_exclusive p;
     if write_owner then
       fs_map_err CacheIo
         (_ ← truncate_file p;
          _ ← write_all p (lock_owner label);
          sync_all)
     else mret ()).

Definition acquire_entry_lock (entry : path) : fs CacheError () :=
  acquire_advisory_lock_with_mode (entry ++ [ENTRY_LOCK_FILE]) "cache entry" true true.
Definition acquire_existing_entry_lock (entry : path) : fs CacheError () :=
  acquire_advisory_lock_with_mode (entry ++ [ENTRY_LOCK_FILE]) "cache entry" false true.
Definition acquire_existing_entry_lock_readonly (entry : path) : fs CacheError () :=
  acquire_advisory_lock_with_mode (entry ++ [ENTRY_LOCK_FILE]) "cache entry" false false.
Definition acquire_promotion_lock : fs CacheError () :=
  acquire_advisory_lock_with_mode [PROMOTION_LOCK_FILE] "cache promotion" true true.

(** * Manifests and markers *)

Definition parse_manifest (content : list ascii) : result CacheError CacheGenerationManifestV1 :=
  ok_or (parse_generation_manifest content) (CacheIo OtherIo).

Definition read_generation_manifest (p : path) : fs CacheError CacheGenerationManifestV1 :=
  look (λ t, content ← file_of (tree_get p t); parse_manifest content).

Definition write_generation_manifest (staging_path : path) (m : CacheGenerationManifestV1) : fs CacheError () :=
  bytes ← fs_lift (map_err CacheCanonical (canonical_json m));
  write_new_file (staging_path ++ [GENERATION_MANIFEST_FILE]) [bytes; [line_feed]].

(** [DurableFileSystem::atomic_replace], step by step, and [map_durable_manifest_error]. *)
Definition TEMPORARY_PREFIX : string := ".ccp-durable-tmp-".
Definition replace_file (p : path) (content : list ascii) : fs CacheError () :=
  _ ← look (λ t, _ ← match tree_get (parent p) t with
                     | None => Err (CacheIo NotFound)
                     | Some (Dir _) => Ok ()
                     | Some _ => Err PromotionUncertain
                     end;
                 map_err (λ _, PromotionUncertain) (reject_symlink_or_non_file (tree_get p t)));
  sequence ← fetch_durable_sequence;
  let temporary := parent p ++ [numbered TEMPORARY_PREFIX sequence] in
  let remove_temporary :=
    exists_ ← exists_path temporary;
    if exists_ : bool then fs_ignore (remove_file_at temporary) else mret () in
  _ ← fs_catch
        (_ ← write_new_file temporary [content];
         _ ← fs_map_err CacheIo (rename_path temporary p);
         fs_map_err CacheIo sync_all)
        (λ e, _ ← remove_temporary; fs_lift (Err e));
  remove_temporary.

Definition write_generation_manifest_replacing (p : path) (m : CacheGenerationManifestV1) : fs CacheError () :=
  bytes ← fs_lift (map_err CacheCanonical (canonical_json m));
  if cpr_unix c then replace_file p (bytes ++ [line_feed])
  else
    _ ← remove_if_present p;
    _ ← write_generation_manifest (parent p) m;
    fs_lift (ensure (bool_decide (parent p ++ [GENERATION_MANIFEST_FILE] = p)) PromotionUncertain).

Definition write_complete_marker (p : path) : fs CacheError () := write_new_file p [COMPLETE_BYTES].

Definition restore_optional_file (p : path) (content : option (list ascii)) : fs CacheError () :=
  _ ← remove_if_present p;
  match content with
  | None => mret ()
  | Some content => write_new_file p [content]
  end.

(** [entry_status] with the marker and the manifest of the entry. *)
Definition status_of (marker manifest : option node) : result CacheError CacheEntryStatus :=
  match marker with
  | None => Ok IncompleteEntry
  | Some (Symlink _ _) => Err SymlinkInManagedRoot
  | Some (File content) =>
    if bool_decide (content = COMPLETE_BYTES) then
      manifest_bytes ← read_optional_file manifest;
      match manifest_bytes with
      | Some manifest_bytes =>
        parsed ← parse_manifest manifest_bytes;
        _ ← ensure (gm_state parsed =? "complete")%string GenerationMismatch;
        Ok Complete
      | None => Ok Complete
      end
    else Err UnexpectedEntry
  | Some _ => Err UnexpectedEntry
  end.
Definition entry_status (p : path) (name : string) : fs CacheError CacheEntryStatus :=
  if starts_with ".entry-tmp-" name then mret IncompleteEntry
  else look (λ t, status_of (tree_get (p ++ [COMPLETE_FILE]) t) (tree_get (p ++ [GENERATION_MANIFEST_FILE]) t)).

(** [CacheKey::for_plan_cache]. *)
Definition for_plan_cache (envelope : ExecutionPlanEnvelopeV1) (cache : NormalizedCache) : result CacheError CacheKey :=
  bytes ← map_err CacheCanonical (canonical_json
    {| ki_schema_version := "1.0"; ki_project := ep_project (pe_plan envelope);
       ki_plan_digest := pe_plan_digest envelope; ki_image := nr_image (ep_runtime (pe_plan envelope));
       ki_cache_id := nc_id cache |});
  Ok {| ck_digest := "sha256:" +:+ encode_hex (sha256 bytes) |}.

(** * The owner of a prepared entry *)

Definition validate_owned_staging_root (entry_path staging_path : path) : fs CacheError () :=
  _ ← fs_lift (ensure (bool_decide (parent staging_path = entry_path)) GenerationMismatch);
  name ← fs_lift (ok_or (last staging_path) GenerationMismatch);
  _ ← fs_lift (validate_owned_name name ".staging-");
  validate_plain_directory staging_path.

Definition remove_owned_generation_directory (p : path) : fs CacheError () :=
  n ← look (λ t, Ok (tree_get p t));
  match n with
  | Some (Symlink _ _) => fs_lift (Err SymlinkInManagedRoot)
  | Some (Dir _) => fs_map_err CacheIo (remove_dir_all p)
  | Some _ => fs_lift (Err UnexpectedEntry)
  | None => fs_lift (Err (CacheIo NotFound))
  end.

Definition manifest_is (m : CacheGenerationManifestV1) (key_digest plan_digest : string) (generation : Z)
    (state : string) : bool :=
  (gm_schema_version m =? GENERATION_SCHEMA_VERSION)%string && (gm_key_digest m =? key_digest)%string
  && (gm_plan_digest m =? plan_digest)%string && (gm_generation m =? generation) && (gm_state m =? state)%string.

(** [Drop] of the owner: removes its staging directory as long as it is recognised.
    The lock goes with it. *)
Definition drop_owner (phase : PreparedPhase) (p : PreparedCacheEntry) : fs CacheError () :=
  fs_ignore
    (match phase with
     | PhasePromoted => mret ()
     | _ =>
       _ ← validate_owned_staging_root (pc_path p) (pc_staging_path p);
       _ ← match phase with
           | PhaseStaging =>
             manifest ← read_generation_manifest (pc_staging_path p ++ [GENERATION_MANIFEST_FILE]);
             fs_lift (ensure (manifest_is manifest (pc_key_digest p) (pc_plan_digest p) (pc_generation p) "staging")
                        GenerationMismatch)
           | _ => mret ()
           end;
       remove_owned_generation_directory (pc_staging_path p)
     end).

Definition unlock (p : path) (w : World) : World := set_world_locks (List.filter (λ q, negb (bool_decide (q = p))) (w_locks w)) w.

(** The drop of a prepared entry outside [prepare_entry]. *)
Definition drop_prepared (p : PreparedCacheEntry) : fs CacheError () := λ w,
  let phase := if bool_decide (pc_staging_path p ∈ w_promoted w) then PhasePromoted else PhaseStaging in
  let '(r, w') := drop_owner phase p w in (r, unlock (pc_path p ++ [ENTRY_LOCK_FILE]) w').

Definition generation_expectation (p : PreparedCacheEntry) : CacheGenerationExpectation :=
  {| cx_key_digest := pc_key_digest p; cx_plan_digest := pc_plan_digest p; cx_generation := pc_generation p;
     cx_state := "staging" |}.

Definition revalidate_generation_source (source : path) (expected : CacheGenerationExpectation) : fs CacheError () :=
  _ ← fs_lift (ensure (negb (is_nil source)) PromotionUncertain);
  manifest ← read_generation_manifest (parent source ++ [GENERATION_MANIFEST_FILE]);
  fs_lift (ensure (manifest_is manifest (cx_key_digest expected) (cx_plan_digest expected)
                     (cx_generation expected) (cx_state expected)) PromotionUncertain).

(** * Preparation *)

(** [try_clone_tree]; a clone copies the whole tree. *)
Definition try_clone_tree (source destination : path) (policy : PayloadLinkPolicy) : fs CacheError bool :=
  _ ← look (λ t, validate_payload_tree_with_policy policy (tree_get source t) 0 MAX_INVENTORY_NODES);
  match cpr_clone c with
  | NoClonefile => mret false
  | Cloned =>
    _ ← fs_map_err CacheIo (effect (λ t, Ok (tree_put destination (tree_get source t) t)) unchanged);
    mret true
  | CloneUnsupported => _ ← remove_if_present destination; mret false
  | CloneFailed => fs_lift (Err (CacheIo OtherIo))
  end.

Definition staging_manifest (key : CacheKey) (plan_digest : string) (generation : Z) : CacheGenerationManifestV1 :=
  {| gm_schema_version := GENERATION_SCHEMA_VERSION; gm_key_digest := ck_digest key; gm_plan_digest := plan_digest;
     gm_generation := generation; gm_state := "staging" |}.

(** The part that the owner guards: it removes the staging directory on failure. *)
Definition fill_staging (p : PreparedCacheEntry) (policy : PayloadLinkPolicy) (m : CacheGenerationManifestV1) :
    fs CacheError () :=
  fs_catch
    (_ ← ensure_managed_directory (pc_data_path p);
     _ ← (if pc_was_complete p then
            let source := pc_path p ++ [DATA_DIR] in
            _ ← remove_if_present (pc_data_path p);
            cloned ← try_clone_tree source (pc_data_path p) policy;
            if cloned : bool then mret () else
            _ ← copy_payload_tree_with_policy (cpr_link_resolves c) policy source (pc_data_path p) 0 MAX_INVENTORY_NODES;
            mret ()
          else mret ());
     write_generation_manifest (pc_staging_path p) m)
    (λ e, _ ← drop_owner PhasePreparing p; fs_lift (Err e)).

Definition prepare_entry_with_payload_link_policy (key : CacheKey) (plan_digest : string) (generation : Z)
    (policy : PayloadLinkPolicy) : fs CacheError PreparedCacheEntry :=
  release_on_failure
    (_ ← validate_owner_marker;
     _ ← validate_plain_directory [ENTRIES_DIR];
     let path := entry_path key in
     n ← look (λ t, Ok (tree_get path t));
     _ ← match n with
         | Some (Symlink _ _) => fs_lift (Err SymlinkInManagedRoot)
         | Some (Dir _) => mret ()
         | Some _ => fs_lift (Err UnexpectedEntry)
         | None => fs_map_err CacheIo (create_dir path)
         end;
     _ ← fs_lift (validated_digest_hex plan_digest);
     _ ← acquire_entry_lock path;
     status ← entry_status path (directory_name key);
     let complete := bool_decide (status = Complete) in
     sequence ← fetch_sequence;
     let staging_path := path ++ [numbered ".staging-" sequence] in
     _ ← ensure_managed_directory staging_path;
     let prepared := {| pc_path := path; pc_data_path := staging_path ++ [DATA_DIR]; pc_staging_path := staging_path;
                        pc_key_digest := ck_digest key; pc_plan_digest := plan_digest; pc_generation := generation;
                        pc_was_complete := complete |} in
     _ ← fill_staging prepared policy (staging_manifest key plan_digest generation);
     mret prepared).

Definition prepare_entry (key : CacheKey) (plan_digest : string) (generation : Z) :=
  prepare_entry_with_payload_link_policy key plan_digest generation (cpr_policy c).

(** * Promotion *)

Definition validate_prepared_entry (p : PreparedCacheEntry) : fs CacheError () :=
  _ ← validate_plain_directory (pc_path p);
  _ ← validate_plain_directory (pc_staging_path p);
  _ ← validate_plain_directory (pc_data_path p);
  manifest ← read_generation_manifest (pc_staging_path p ++ [GENERATION_MANIFEST_FILE]);
  _ ← fs_lift (ensure ((gm_key_digest manifest =? pc_key_digest p)%string
                       && (gm_plan_digest manifest =? pc_plan_digest p)%string
                       && (gm_generation manifest =? pc_generation p) && (gm_state manifest =? "staging")%string)
                 GenerationMismatch);
  look (λ t, validate_payload_tree (cpr_policy c) (tree_get (pc_data_path p) t) 0 MAX_INVENTORY_NODES).

Definition had_current_of (n : option node) : result CacheError bool :=
  match n with
  | Some (Symlink _ _) => Err SymlinkInManagedRoot
  | Some (Dir _) => Ok true
  | Some _ => Err UnexpectedEntry
  | None => Ok false
  end.

Definition journal_step (st : list path * list CachePromotionJournalEntryV1) (entry : PreparedCacheEntry) :
    fs CacheError (list path * list CachePromotionJournalEntryV1) :=
  let '(paths, entries) := st in
  _ ← fs_lift (ensure (negb (bool_decide (pc_path entry ∈ paths))) GenerationMismatch);
  _ ← validate_prepared_entry entry;
  staging_name ← fs_lift (ok_or (last (pc_staging_path entry)) GenerationMismatch);
  _ ← fs_lift (validate_owned_name staging_name ".staging-");
  _ ← fs_lift (ensure (bool_decide (parent (pc_staging_path entry) = pc_path entry)) GenerationMismatch);
  had_current ← look (λ t, had_current_of (tree_get (pc_path entry ++ [DATA_DIR]) t));
  sequence ← fetch_sequence;
  let backup_name := numbered ".backup-" sequence in
  taken ← exists_path (pc_path entry ++ [backup_name]);
  _ ← fs_lift (ensure (negb taken) PromotionUncertain);
  previous_marker ← read_optional (pc_path entry ++ [COMPLETE_FILE]);
  previous_manifest ← read_optional (pc_path entry ++ [GENERATION_MANIFEST_FILE]);
  mret (pc_path entry :: paths,
        entries ++ [{| je_key_digest := pc_key_digest entry; je_plan_digest := pc_plan_digest entry;
                       je_generation := pc_generation entry; je_staging_name := staging_name;
                       je_backup_name := backup_name; je_had_current := had_current;
                       je_previous_marker := previous_marker; je_previous_manifest := previous_manifest |}]).

Definition write_promotion_journal (j : CachePromotionJournalV1) : fs CacheError () :=
  bytes ← fs_lift (map_err CacheCanonical (canonical_json j));
  write_new_file [PROMOTION_JOURNAL_FILE] [bytes; [line_feed]].

Definition create_promotion_journal (prepared : list PreparedCacheEntry) : fs CacheError CachePromotionJournalV1 :=
  '(_, entries) ← fs_fold journal_step ([], []) prepared;
  sequence ← fetch_sequence;
  let journal := {| pj_schema_version := PROMOTION_SCHEMA_VERSION; pj_operation_id := numbered "" sequence;
                    pj_state := "prepared"; pj_entries := entries |} in
  _ ← write_promotion_journal journal;
  mret journal.

Definition set_state (state : string) (m : CacheGenerationManifestV1) : CacheGenerationManifestV1 :=
  {| gm_schema_version := gm_schema_version m; gm_key_digest := gm_key_digest m; gm_plan_digest := gm_plan_digest m;
     gm_generation := gm_generation m; gm_state := state |}.

(** The body of the loop of [execute_promotion]. *)
Definition promote_one (pair : PreparedCacheEntry * CachePromotionJournalEntryV1) : fs CacheError () :=
  let '(prepared, journal_entry) := pair in
  let manifest_path := pc_staging_path prepared ++ [GENERATION_MANIFEST_FILE] in
  manifest ← read_generation_manifest manifest_path;
  _ ← write_generation_manifest_replacing manifest_path (set_state "complete" manifest);
  let current := pc_path prepared ++ [DATA_DIR] in
  let backup := pc_path prepared ++ [je_backup_name journal_entry] in
  let marker := pc_path prepared ++ [COMPLETE_FILE] in
  let previous_manifest_path := pc_path prepared ++ [GENERATION_MANIFEST_FILE] in
  _ ← (if je_had_current journal_entry then fs_map_err CacheIo (rename_path current backup) else mret ());
  _ ← remove_if_present marker;
  _ ← remove_if_present previous_manifest_path;
  _ ← fs_map_err CacheIo (rename_path (pc_data_path prepared) current);
  _ ← fs_map_err CacheIo (rename_path manifest_path previous_manifest_path);
  _ ← write_complete_marker marker;
  set_promoted (pc_staging_path prepared).

Definition execute_promotion (prepared : list PreparedCacheEntry) (j : CachePromotionJournalV1) : fs CacheError () :=
  fs_each promote_one (zip prepared (pj_entries j)).

Definition finalize_one (e : CachePromotionJournalEntryV1) : fs CacheError () :=
  key ← fs_lift (journal_key e);
  let path := entry_path key in
  _ ← validate_plain_directory path;
  _ ← remove_if_present (path ++ [je_backup_name e]);
  remove_if_present (path ++ [je_staging_name e]).

Definition finalize_promotion (j : CachePromotionJournalV1) : fs CacheError () :=
  _ ← fs_each finalize_one (pj_entries j);
  remove_if_present [PROMOTION_JOURNAL_FILE].

(** * Recovery *)

Definition current_generation_is_complete (current marker manifest_path : path) (e : CachePromotionJournalEntryV1) :
    fs CacheError bool :=
  look (λ t,
    present ← had_current_of (tree_get current t);
    if negb present then Ok false else
    marker_bytes ← read_optional_file (tree_get marker t);
    if negb (bool_decide (marker_bytes = Some COMPLETE_BYTES)) then Ok false else
    manifest_bytes ← read_optional_file (tree_get manifest_path t);
    match manifest_bytes with
    | None => Ok false
    | Some manifest_bytes =>
      manifest ← parse_manifest manifest_bytes;
      Ok (manifest_is manifest (je_key_digest e) (je_plan_digest e) (je_generation e) "complete")
    end).

Definition current_matches_previous (current marker manifest : path) (e : CachePromotionJournalEntryV1) :
    fs CacheError bool :=
  look (λ t,
    present ← had_current_of (tree_get current t);
    if negb present then Ok false else
    marker_bytes ← read_optional_file (tree_get marker t);
    if negb (bool_decide (marker_bytes = je_previous_marker e)) then Ok false else
    manifest_bytes ← read_optional_file (tree_get manifest t);
    Ok (bool_decide (manifest_bytes = je_previous_manifest e))).

Definition recover_lock (e : CachePromotionJournalEntryV1) : fs CacheError () :=
  _ ← fs_lift (validate_owned_name (je_staging_name e) ".staging-");
  _ ← fs_lift (validate_owned_name (je_backup_name e) ".backup-");
  key ← fs_lift (journal_key e);
  _ ← validate_plain_directory (entry_path key);
  acquire_entry_lock (entry_path key).

(** The body of the second loop. *)
Definition recover_one (e : CachePromotionJournalEntryV1) : fs CacheError () :=
  key ← fs_lift (journal_key e);
  let path := entry_path key in
  let current := path ++ [DATA_DIR] in
  let marker := path ++ [COMPLETE_FILE] in
  let manifest := path ++ [GENERATION_MANIFEST_FILE] in
  let backup := path ++ [je_backup_name e] in
  let staging := path ++ [je_staging_name e] in
  complete ← current_generation_is_complete current marker manifest e;
  if complete : bool then
    _ ← remove_if_present backup;
    remove_if_present staging
  else
    backup_exists ← exists_path backup;
    if je_had_current e then
      if backup_exists : bool then
        _ ← remove_if_present current;
        _ ← remove_if_present marker;
        _ ← remove_if_present manifest;
        _ ← fs_map_err CacheIo (rename_path backup current);
        _ ← restore_optional_file manifest (je_previous_manifest e);
        _ ← restore_optional_file marker (je_previous_marker e);
        remove_if_present staging
      else
        matches ← current_matches_previous current marker manifest e;
        if matches : bool then remove_if_present staging else fs_lift (Err PromotionUncertain)
    else
      current_exists ← exists_path current;
      if negb backup_exists && negb current_exists then
        _ ← remove_if_present marker;
        _ ← remove_if_present manifest;
        remove_if_present staging
      else fs_lift (Err PromotionUncertain).

Definition readable_journal (bytes : list ascii) : result CacheError CachePromotionJournalV1 :=
  _ ← ensure (negb (Z.of_nat (length bytes) >? MAX_JOURNAL_BYTES)) PromotionUncertain;
  journal ← ok_or (parse_promotion_journal bytes) (CacheIo OtherIo);
  _ ← ensure (negb (negb (pj_schema_version journal =? PROMOTION_SCHEMA_VERSION)%string
                    || negb (pj_state journal =? "prepared")%string
                    || is_nil (pj_entries journal) || is_empty (pj_operation_id journal))) PromotionUncertain;
  Ok journal.

Definition recover_promotion_locked : fs CacheError () :=
  bytes ← read_optional [PROMOTION_JOURNAL_FILE];
  match bytes with
  | None => mret ()
  | Some bytes =>
    journal ← fs_lift (readable_journal bytes);
    _ ← scoped
          (_ ← fs_each recover_lock (pj_entries journal);
           fs_each recover_one (pj_entries journal));
    remove_if_present [PROMOTION_JOURNAL_FILE]
  end.

Definition promote_entries (prepared : list PreparedCacheEntry) : fs CacheError CachePromotionOutcome :=
  if is_nil prepared then mret NotAttempted else
  scoped
    (_ ← validate_owner_marker;
     _ ← acquire_promotion_lock;
     _ ← recover_promotion_locked;
     journal ← create_promotion_journal prepared;
     _ ← execute_promotion prepared journal;
     _ ← finalize_promotion journal;
     mret Promoted).

Definition promote_entry (p : PreparedCacheEntry) : fs CacheError CachePromotionOutcome := promote_entries [p].

(** * The marker of an entry *)

Definition mark_entry_complete (key : CacheKey) : fs CacheError () :=
  _ ← validate_owner_marker;
  let entry := entry_path key in
  _ ← validate_plain_directory entry;
  _ ← validate_plain_directory (entry ++ [DATA_DIR]);
  _ ← look (λ t, validate_payload_tree (cpr_policy c) (tree_get (entry ++ [DATA_DIR]) t) 0 MAX_INVENTORY_NODES);
  let marker := entry ++ [COMPLETE_FILE] in
  marked ← look (λ t, match tree_get marker t with
                      | Some (Symlink _ _) => Err SymlinkInManagedRoot
                      | Some (File content) =>
                        if bool_decide (content = COMPLETE_BYTES) then Ok true else Err UnexpectedEntry
                      | Some _ => Err UnexpectedEntry
                      | None => Ok false
                      end);
  if marked : bool then mret () else
  sequence ← fetch_sequence;
  let temporary := entry ++ [numbered ".complete-tmp-" sequence] in
  let remove_temporary :=
    exists_ ← exists_path temporary;
    if exists_ : bool then fs_ignore (remove_file_at temporary) else mret () in
  _ ← fs_catch
        (_ ← write_new_file temporary [COMPLETE_BYTES];
         fs_map_err CacheIo (rename_path temporary marker))
        (λ e, _ ← remove_temporary; fs_lift (Err e));
  remove_temporary.

(** * Inventory *)

(** [is_payload_root] for a path relative to the entry, whose name is [entry_name];
    names that are not UTF-8 are no payload roots. *)
Definition is_generation_name (name : string) : bool :=
  is_ok (validate_owned_name name ".staging-") || is_ok (validate_owned_name name ".backup-").
Definition is_payload_root (entry_name : string) (relative : path) : bool :=
  is_cache_directory_name entry_name &&
  match relative with
  | [data] => (data =? DATA_DIR)%string
  | [generation; data] => (data =? DATA_DIR)%string && is_generation_name generation
  | _ => false
  end.

Fixpoint bounded_entry_size_at (entry_name : string) (relative : path) (n : node) (nodes : Z) :
    result CacheError (Z * Z * Z) :=
  if is_payload_root entry_name relative then
    '(stats, nodes) ← measure_payload_tree (cpr_policy c) (Some n) nodes MAX_INVENTORY_NODES;
    Ok (pt_bytes stats, pt_files stats, nodes)
  else
    nodes ← ok_or (checked_usize (nodes + 1)) SizeOverflow;
    _ ← ensure (negb (nodes >? MAX_INVENTORY_NODES)) InventoryLimitExceeded;
    match n with
    | Symlink _ _ => Err SymlinkInManagedRoot
    | File content => Ok (Z.of_nat (length content), 1, nodes)
    | Special => Err UnexpectedEntry
    | Dir entries =>
      let children := map (λ kv, (kv.1, bounded_entry_size_at entry_name (relative ++ [kv.1]) kv.2)) entries in
      try_fold (λ st child,
        let '(bytes, files, nodes) := st in
        '(entry_bytes, entry_files, nodes) ← (child.2 nodes : result CacheError (Z * Z * Z));
        bytes ← ok_or (checked_u64 (bytes + entry_bytes)) SizeOverflow;
        files ← ok_or (checked_u64 (files + entry_files)) SizeOverflow;
        Ok (bytes, files, nodes)) (0, 0, nodes) (sort_by fst children)
    end.

Definition bounded_entry_size (entry_name : string) (n : node) : result CacheError (Z * Z) :=
  '(bytes, files, _) ← bounded_entry_size_at entry_name [] n 0;
  Ok (bytes, files).

(** One turn of the loop of [inventory]; the lock of the entry is held for the turn. *)
Definition inventory_entry (entry : string * node) : fs CacheError CacheEntryInventory :=
  let '(name, n) := entry in
  let path := [ENTRIES_DIR; name] in
  _ ← fs_lift (match n with
               | Dir _ => Ok ()
               | Symlink _ _ => Err SymlinkInManagedRoot
               | _ => Err UnexpectedEntry
               end);
  _ ← fs_lift (ensure (valid_utf8 (bytes name)) UnexpectedEntry);
  _ ← fs_lift (ensure (is_cache_directory_name name || starts_with ".entry-tmp-" name) UnexpectedEntry);
  scoped
    (_ ← (if is_cache_directory_name name then acquire_existing_entry_lock_readonly path else mret ());
     '(bytes, files) ← fs_lift (bounded_entry_size name n);
     status ← entry_status path name;
     mret {| ei_directory := name; ei_status := status; ei_bytes := bytes; ei_files := files |}).

Definition inventory_step (entries : list CacheEntryInventory) (entry : string * node) :
    fs CacheError (list CacheEntryInventory) :=
  e ← inventory_entry entry;
  mret (entries ++ [e]).

(** [try_fold] with [checked_add]. *)
Definition checked_sum (l : list Z) : result CacheError Z :=
  try_fold (λ total bytes, ok_or (checked_u64 (total + bytes)) SizeOverflow) 0 l.

Definition inventory (m : ManagedCache) : fs CacheError CacheInventory :=
  _ ← validate_owner_marker;
  _ ← validate_plain_directory [ENTRIES_DIR];
  listed ← look (λ t, match tree_get [ENTRIES_DIR] t with Some (Dir entries) => Ok (sort_by fst entries) | _ => Ok [] end);
  entries ← fs_fold inventory_step [] listed;
  total_bytes ← fs_lift (checked_sum (ei_bytes <$> entries));
  mret {| in_root := rr_path (mc_root m); in_source := rr_source (mc_root m); in_entries := entries;
          in_total_bytes := total_bytes; in_disk_budget_bytes := mc_disk_budget_bytes m;
          in_budget_exceeded := total_bytes >? mc_disk_budget_bytes m |}.

Definition is_incomplete (e : CacheEntryInventory) : bool := bool_decide (ei_status e = IncompleteEntry).

Definition cleanup_dry_run (m : ManagedCache) : fs CacheError CleanupPlan :=
  inventory ← inventory m;
  let candidates := (λ e, {| cc_relative_path := [ENTRIES_DIR; ei_directory e]; cc_reason := ReasonIncompleteEntry; cc_bytes := ei_bytes e |})
                      <$> List.filter is_incomplete (in_entries inventory) in
  reclaimable_bytes ← fs_lift (checked_sum (cc_bytes <$> candidates));
  mret {| cp_root := in_root inventory; cp_total_bytes := in_total_bytes inventory;
          cp_disk_budget_bytes := in_disk_budget_bytes inventory; cp_budget_exceeded := in_budget_exceeded inventory;
          cp_candidates := candidates; cp_reclaimable_bytes := reclaimable_bytes; cp_deletion_performed := false |}.

(** * Opening the root *)

(** What a turn of a wait finds changed: another process may write meanwhile. *)
Definition elsewhere (f : node → node) : fs CacheError () := λ w, (Done (), set_tree (f (w_tree w)) w).

Definition root_entries : fs CacheError (btmap string node) :=
  look (λ t, match t with Dir entries => Ok (sort_by fst entries) | _ => Err (CacheIo OtherIo) end).

(** [between i] is what happens outside during the [i]-th pause. *)
Fixpoint wait_for_concurrent_initializer (between : nat → node → node) (turns : nat) : fs CacheError () :=
  match turns with
  | O => mret ()
  | S turns =>
    present ← exists_path [OWNER_FILE];
    if present : bool then mret () else
    entries ← root_entries;
    if is_nil entries then mret ()
    else if forallb (λ kv, starts_with ".owner-tmp-" kv.1) entries then
      _ ← elsewhere (between turns);
      wait_for_concurrent_initializer between turns
    else mret ()
  end.

Fixpoint validate_owner_marker_after_initialization (between : nat → node → node) (turns : nat) : fs CacheError () :=
  match turns with
  | O => validate_owner_marker
  | S turns => λ w,
    match validate_owner_marker w with
    | (Failed OwnershipMissing, w') =>
      (_ ← elsewhere (between turns); validate_owner_marker_after_initialization between turns) w'
    | r => r
    end
  end.

Definition ensure_unowned_root_is_empty : fs CacheError () :=
  entries ← root_entries;
  fs_lift (ensure (forallb (λ kv, starts_with ".owner-tmp-" kv.1) entries) OwnershipMissing).

Definition write_owner_marker : fs CacheError () :=
  sequence ← fetch_sequence;
  let temporary := [numbered ".owner-tmp-" sequence] in
  let remove_temporary :=
    exists_ ← exists_path temporary;
    if exists_ : bool then fs_ignore (remove_file_at temporary) else mret () in
  _ ← fs_catch
        (_ ← write_new_file temporary [OWNER_BYTES];
         fs_catch (rename_path temporary [OWNER_FILE])
           (λ kind, present ← exists_path [OWNER_FILE];
                    if present : bool then validate_owner_marker else fs_lift (Err (CacheIo kind))))
        (λ e, _ ← remove_temporary; fs_lift (Err e));
  remove_temporary.

(** The root directory is there; [first] and [second] are what happens outside
    during the two waits. *)
Definition initialize (os : PathOracle) (first second : nat → node → node) (root : ResolvedCacheRoot) :
    fs CacheError ManagedCache :=
  _ ← fs_lift (reject_symlink_components os (rr_path root));
  present ← exists_path [OWNER_FILE];
  _ ← (if present : bool then validate_owner_marker else
       _ ← wait_for_concurrent_initializer first INIT_RETRIES;
       present ← exists_path [OWNER_FILE];
       _ ← (if present : bool then mret () else
            _ ← ensure_unowned_root_is_empty;
            write_owner_marker);
       validate_owner_marker_after_initialization second (INIT_RETRIES - 1));
  _ ← ensure_managed_directory [ENTRIES_DIR];
  _ ← ensure_managed_directory [WORKSPACES_DIR];
  mret {| mc_root := root; mc_disk_budget_bytes := DEFAULT_DISK_BUDGET_BYTES |}.

Definition open (os : PathOracle) (root : ResolvedCacheRoot) : fs CacheError ManagedCache :=
  _ ← fs_lift (reject_symlink_components os (rr_path root));
  _ ← validate_owner_marker;
  _ ← validate_plain_directory [ENTRIES_DIR];
  _ ← validate_plain_directory [WORKSPACES_DIR];
  mret {| mc_root := root; mc_disk_budget_bytes := DEFAULT_DISK_BUDGET_BYTES |}.

Definition with_disk_budget (m : ManagedCache) (bytes : Z) : result CacheError ManagedCache :=
  _ ← ensure (negb (bytes =? 0)) InvalidBudget;
  Ok {| mc_root := mc_root m; mc_disk_budget_bytes := bytes |}.

(** * Pins *)

Section Pins.
Context (os : PathOracle) (root : list component).

(** The result is the path relative to the root. *)
Definition validate_pin_source_path (source : list component) : result CacheError path :=
  _ ← ensure (is_absolute source) (CacheUnsafePath "cache source must be absolute");
  _ ← reject_lexical_escape source;
  _ ← reject_symlink_components os source;
  canonical ← map_err CacheIo (po_canonicalize os source);
  _ ← ensure (bool_decide (canonical = source)) (CacheUnsafePath "cache source must be canonical");
  _ ← ensure (path_starts_with source root) (CacheUnsafePath "cache source is outside managed root");
  let relative := drop (length root) source in
  match relative with
  | [Normal entries; Normal key_name; Normal data] =>
    _ ← ensure ((entries =? ENTRIES_DIR)%string && (data =? DATA_DIR)%string)
          (CacheUnsafePath "cache source must be an entry data path");
    _ ← ensure (valid_utf8 (bytes key_name)) InvalidDigest;
    key_hex ← ok_or (strip_prefix "sha256-" key_name) InvalidDigest;
    _ ← ensure ((len key_hex =? 64) && all_bytes is_lower_hex key_hex) InvalidDigest;
    Ok [entries; key_name; data]
  | _ => Err (CacheUnsafePath "cache source must be an entry data path")
  end.

(** A file that must be there and plain. *)
Definition check_plain_file (n : option node) : result CacheError (list ascii) :=
  match n with
  | Some (File content) => Ok content
  | Some (Symlink _ _) => Err SymlinkInManagedRoot
  | Some _ => Err UnexpectedEntry
  | None => Err (CacheIo NotFound)
  end.

Definition validate_completed_entry (source : list component) (entry_path : path) :
    fs CacheError CacheGenerationManifestV1 :=
  data_path ← fs_lift (validate_pin_source_path source);
  _ ← validate_plain_directory entry_path;
  _ ← validate_plain_directory data_path;
  marker ← look (λ t, check_plain_file (tree_get (entry_path ++ [COMPLETE_FILE]) t));
  _ ← fs_lift (ensure (bool_decide (marker = COMPLETE_BYTES)) GenerationMismatch);
  content ← look (λ t, check_plain_file (tree_get (entry_path ++ [GENERATION_MANIFEST_FILE]) t));
  manifest ← fs_lift (parse_manifest content);
  key_name ← fs_lift (ok_or (last entry_path) InvalidDigest);
  _ ← fs_lift (validated_digest_hex (gm_plan_digest manifest));
  _ ← fs_lift (ensure ((gm_schema_version manifest =? GENERATION_SCHEMA_VERSION)%string
                       && (gm_key_digest manifest =? "sha256:" +:+ str (drop 7 (bytes key_name)))%string
                       && (gm_state manifest =? "complete")%string) GenerationMismatch);
  mret manifest.

(** [CacheUsePin::from_locked_source]. *)
Definition from_locked_source (source : list component) (data_path : path) : fs CacheError CacheUsePin :=
  let entry_path := parent data_path in
  manifest ← validate_completed_entry source entry_path;
  mret {| up_entry_path := entry_path; up_data_path := data_path; up_key_digest := gm_key_digest manifest;
          up_plan_digest := gm_plan_digest manifest; up_generation := gm_generation manifest |}.

Definition pin_step (pins : list (list component * CacheUsePin)) (source : list component * path) :
    fs CacheError (list (list component * CacheUsePin)) :=
  let entry_path := parent source.2 in
  _ ← look (λ t, check_plain_file (tree_get (entry_path ++ [ENTRY_LOCK_FILE]) t));
  _ ← acquire_existing_entry_lock entry_path;
  pin ← from_locked_source source.1 source.2;
  mret (pins ++ [(source.1, pin)]).

(** Sources by their path, each once; those that are accepted differ in the key
    name only. *)
Definition pin_completed_sources (sources : list (list component)) : fs CacheError (list (list component * CacheUsePin)) :=
  release_on_failure
    (_ ← validate_owner_marker;
     _ ← validate_plain_directory [ENTRIES_DIR];
     _ ← validate_plain_directory [WORKSPACES_DIR];
     ordered ← fs_lift (try_fold (λ ordered source,
                 relative ← validate_pin_source_path source;
                 Ok (map_insert (String.concat "/" relative) (source, relative) ordered)) [] sources);
     fs_fold pin_step [] (map_values ordered)).

Definition revalidate (source : list component) (pin : CacheUsePin) : fs CacheError () :=
  _ ← validate_owner_marker;
  _ ← validate_plain_directory [ENTRIES_DIR];
  _ ← validate_plain_directory [WORKSPACES_DIR];
  manifest ← validate_completed_entry source (up_entry_path pin);
  fs_lift (ensure ((gm_key_digest manifest =? up_key_digest pin)%string
                   && (gm_plan_digest manifest =? up_plan_digest pin)%string
                   && (gm_generation manifest =? up_generation pin)) GenerationMismatch).
End Pins.
End Store.

(** [CacheError::exit_code]. *)
Definition cache_exit_code (e : CacheError) : Z :=
  match e with
  | NoPersistentDefault | CacheUnsafePath _ | InvalidBudget | InvalidDigest => 2
  | _ => 70
  end.
