(* ===== verification/CacheProps.v ===== *)
(** Lemmas on the cache store ([Cache.v]): operations inside one entry, the states a
    promotion leaves an entry in, and what recovery makes of them. *)
From S2P Require Import Prelude.
From S2P Require Import RustStr.
From S2P Require Import BTree.
From S2P Require Import Canonical.
From S2P Require Import Durable.
From S2P Require Import FileSystem.
From S2P Require Import CachePayload.
From S2P Require Import CacheRoot.
From S2P Require Import Cache.
Local Open Scope Z_scope.

(** * Inside one directory *)

(** The directory [d] has entries that satisfy [p], and nothing outside of it
    differs from [t0]. *)
Definition local (d : path) (t0 : node) (p : btmap string node → Prop) (t : node) : Prop :=
  outside d t0 t ∧ ∃ es, tree_get d t = Some (Dir es) ∧ p es.

Lemma local_conseq d t0 (p p' : btmap string node → Prop) t :
  local d t0 p t → (∀ es, p es → p' es) → local d t0 p' t.
Proof. intros (Ho & es & Hg & Hp) H. split; [done|]. exists es. auto. Qed.

Lemma tree_get_in d es q t : tree_get d t = Some (Dir es) → tree_get (d ++ q) t = tree_get q (Dir es).
Proof. intros H. by rewrite tree_get_app, H. Qed.

Lemma child_in d es k t : tree_get d t = Some (Dir es) → tree_get (d ++ [k]) t = map_get k es.
Proof. intros H. rewrite tree_get_snoc, H. done. Qed.

(** A change of an entry, and of an entry of an entry. *)
Definition put_child (k : string) (v : option node) (es : btmap string node) : btmap string node :=
  match v with Some n => map_insert k n es | None => remove_key k es end.

Lemma put_child_get k k' v es : map_get k' (put_child k v es) = if decide (k' = k) then v else map_get k' es.
Proof. unfold put_child. destruct v; [rewrite map_get_insert|rewrite map_get_remove_key]; by repeat case_decide. Qed.

Lemma put_child_in d es k v t :
  tree_get d t = Some (Dir es) → tree_get d (tree_put (d ++ [k]) v t) = Some (Dir (put_child k v es)).
Proof. intros H. rewrite tree_put_below, H by done. done. Qed.

Lemma local_put d t0 (p : btmap string node → Prop) k v t es :
  outside d t0 t → tree_get d t = Some (Dir es) → p (put_child k v es) → local d t0 p (tree_put (d ++ [k]) v t).
Proof.
  intros Ho Hg Hp. split; [eapply outside_trans; [done|apply outside_put]|].
  eexists. split; [by apply put_child_in|done].
Qed.

Lemma put_grandchild_in d es k ks x v t :
  tree_get d t = Some (Dir es) → map_get k es = Some (Dir ks) →
  tree_get d (tree_put (d ++ [k; x]) v t) = Some (Dir (map_insert k (Dir (put_child x v ks)) es)).
Proof. intros H Hk. rewrite tree_put_below, H by done. cbn. by rewrite Hk. Qed.

Lemma local_put_grandchild d t0 (p : btmap string node → Prop) k ks x v t es :
  outside d t0 t → tree_get d t = Some (Dir es) → map_get k es = Some (Dir ks) →
  p (map_insert k (Dir (put_child x v ks)) es) → local d t0 p (tree_put (d ++ [k; x]) v t).
Proof.
  intros Ho Hg Hk Hp. split; [eapply outside_trans; [done|apply outside_put]|].
  eexists. split; [by eapply put_grandchild_in|done].
Qed.

(** ** Effects inside a directory *)

Section Local.
Context (d : path) (t0 : node).
Abbreviation L := (local d t0).

Lemma triple_remove_if_present k (p q c : btmap string node → Prop) :
  (∀ es, p es → c es) →
  (∀ es, p es → match map_get k es with
                | None => q es
                | Some (Dir _) => q (remove_key k es) ∧ ∀ r, c (map_insert k (Dir r) es)
                | Some (File _) => q (remove_key k es)
                | Some _ => True
                end) →
  crash_triple (L p) (remove_if_present (d ++ [k])) (λ _, L q) (L c).
Proof.
  intros Hc Hq w (Ho & es & Hg & Hp). unfold remove_if_present, mbind, fs_bind, look. cbn [of_result].
  rewrite (child_in _ _ _ _ Hg). specialize (Hq es Hp). specialize (Hc es Hp).
  assert (Hl : L c (w_tree w)) by (split; [done|by exists es]).
  destruct (map_get k es) as [[content|r| |]|] eqn:Ek; [| |done..|split; [done|by exists es]].
  - apply (triple_map_err CacheIo (λ t, t = w_tree w) _ (λ _, L q)); [|done].
    apply triple_effect; [|by intros t ->]. intros t ->. rewrite (child_in _ _ _ _ Hg), Ek.
    split; [|done]. by eapply local_put.
  - apply (triple_map_err CacheIo (λ t, t = w_tree w) _ (λ _, L q)); [|done].
    apply triple_effect; [|by intros t ->]. intros t ->. rewrite (child_in _ _ _ _ Hg), Ek.
    destruct Hq as [Hq Hr]. split; [by eapply local_put|]. intros rest. eapply local_put; [done..|apply Hr].
Qed.

(** [k] moves to [k'], and [x] of [k] moves up to [k']. *)
Lemma triple_rename k k' (p q c : btmap string node → Prop) :
  (∀ es, p es → c es) →
  (∀ es n, p es → map_get k es = Some n → rename_allowed n (map_get k' es) = true →
     q (map_insert k' n (remove_key k es))) →
  crash_triple (L p) (fs_map_err CacheIo (rename_path (d ++ [k]) (d ++ [k']))) (λ _, L q) (L c).
Proof.
  intros Hc Hq. apply triple_map_err, triple_effect.
  - intros t (Ho & es & Hg & Hp). rewrite !(child_in _ _ _ _ Hg), parent_snoc, Hg. cbn [is_dir negb].
    assert (Hl : L c t) by (split; [done|exists es; auto]).
    destruct (map_get k es) as [n|] eqn:Ek; [|done]. destruct (rename_allowed n (map_get k' es)) eqn:Ea; [|done].
    split; [|by intros ?].
    eapply local_put; [eapply outside_trans; [done|apply outside_put]|by apply put_child_in|]. cbn. auto.
  - intros t Ht. by eapply local_conseq.
Qed.

Lemma triple_rename_up k x k' (p q c : btmap string node → Prop) :
  (∀ es, p es → c es) →
  (∀ es ks n, p es → map_get k es = Some (Dir ks) → map_get x ks = Some n → rename_allowed n (map_get k' es) = true →
     q (map_insert k' n (map_insert k (Dir (remove_key x ks)) es))) →
  crash_triple (L p) (fs_map_err CacheIo (rename_path (d ++ [k; x]) (d ++ [k']))) (λ _, L q) (L c).
Proof.
  intros Hc Hq. apply triple_map_err, triple_effect.
  - intros t (Ho & es & Hg & Hp).
    rewrite (tree_get_in _ _ _ _ Hg), !(child_in _ _ _ _ Hg), parent_snoc, Hg. cbn [is_dir negb tree_get].
    assert (Hl : L c t) by (split; [done|exists es; auto]).
    destruct (map_get k es) as [n|] eqn:Ek; [|done]. destruct n as [|ks| |]; try done.
    destruct (map_get x ks) as [n|] eqn:Ex; [|done]. destruct (rename_allowed n (map_get k' es)) eqn:Ea; [|done].
    split; [|by intros ?].
    eapply local_put; [eapply outside_trans; [done|apply outside_put]|by eapply put_grandchild_in|]. cbn. eauto.
  - intros t Ht. by eapply local_conseq.
Qed.

(** A file that is being written. *)
Definition written (k : string) (p : btmap string node → Prop) (content : list ascii) (es' : btmap string node) : Prop :=
  ∃ es, p es ∧ map_get k es = None ∧ es' = map_insert k (File content) es.

Lemma append_child k p content more t :
  L (written k p content) t → L (written k p (content ++ more)) (append_bytes (d ++ [k]) more t).
Proof.
  intros (Ho & es' & Hg & es & Hp & Hk & ->). unfold append_bytes. rewrite (child_in _ _ _ _ Hg), map_get_insert, decide_True by done.
  eapply local_put; [done..|]. exists es. split_and!; [done..|]. cbn. apply map_insert_twice.
Qed.

Lemma triple_write_new k parts (p q c : btmap string node → Prop) :
  (∀ es, p es → c es) →
  (∀ es l, p es → map_get k es = None → c (map_insert k (File l) es)) →
  (∀ es, p es → map_get k es = None → q (map_insert k (File (concat parts)) es)) →
  crash_triple (L p) (write_new_file (d ++ [k]) parts) (λ _, L q) (L c).
Proof.
  intros Hc Hcl Hq. apply triple_map_err.
  assert (Hwc : ∀ l t, L (written k p l) t → L c t).
  { intros l t Ht. eapply local_conseq; [done|]. intros es' (es & Hp & Hk & ->). by apply Hcl. }
  apply (triple_bind _ _ (λ _, L (written k p []))).
  - apply triple_effect.
    + intros t (Ho & es & Hg & Hp). rewrite (child_in _ _ _ _ Hg), parent_snoc, Hg. cbn [is_dir].
      destruct (map_get k es) eqn:Ek; [split; [done|exists es; auto]|]. split; [|intros ?; split; [done|exists es; auto]].
      eapply local_put; [done..|]. by exists es.
    + intros t Ht. by eapply local_conseq.
  - intros []. apply (triple_bind _ _ (λ _, L (written k p (concat parts)))).
    + enough (G : ∀ l, crash_triple (L (written k p l)) (fs_each (write_all (d ++ [k])) parts)
                        (λ _, L (written k p (l ++ concat parts))) (L c)) by apply (G []).
      clear Hq. induction parts as [|x parts IH]; intros l; cbn [fs_each concat].
      { rewrite app_nil_r. apply (triple_ret () (λ _, L (written k p l))). }
      apply (triple_bind _ _ (λ _, L (written k p (l ++ x)))).
      * apply triple_effect; [|apply Hwc]. intros t Ht. split; [by apply append_child|].
        intros rest. eapply Hwc. by apply append_child.
      * intros []. rewrite app_assoc. apply IH.
    + intros []. apply triple_effect; [|apply Hwc]. intros t Ht. split; [|intros ?; by eapply Hwc].
      eapply local_conseq; [done|]. intros es' (es & Hp & Hk & ->). by apply Hq.
Qed.

(** An effect on the entry [k] that may leave anything there. *)
Lemma triple_any k act partial (p : btmap string node → Prop) :
  (∀ t es, tree_get d t = Some (Dir es) → match act t with
     | Ok t' => ∃ v, t' = tree_put (d ++ [k]) v t
     | Err _ => True
     end) →
  (∀ t es rest, tree_get d t = Some (Dir es) → partial rest t = t ∨ ∃ v, partial rest t = tree_put (d ++ [k]) v t) →
  (∀ es v, p es → p (put_child k v es)) →
  crash_triple (L p) (effect act partial) (λ _, L p) (L p).
Proof.
  intros Ha Hpa Hp. apply triple_effect; [|done]. intros t (Ho & es & Hg & Hes). specialize (Ha t es Hg).
  assert (Hput : ∀ v, L p (tree_put (d ++ [k]) v t)) by (intros v; eapply local_put; [done..|by apply Hp]).
  destruct (act t) as [t'|e]; [|split; [done|by exists es]]. destruct Ha as [v ->]. split; [done|]. intros rest.
  destruct (Hpa t es rest Hg) as [->|(v' & ->)]; [split; [done|by exists es]|done].
Qed.

Lemma triple_remove_any k (p : btmap string node → Prop) :
  (∀ es v, p es → p (put_child k v es)) → crash_triple (L p) (remove_file_at (d ++ [k])) (λ _, L p) (L p).
Proof.
  intros Hp. apply (triple_any k); [| |done].
  - intros t es Hg. rewrite (child_in _ _ _ _ Hg). destruct (map_get k es) as [[]|]; try done; by exists None.
  - by left.
Qed.
End Local.

Lemma triple_exists_path (p : path) P C : crash_triple P (exists_path p) (λ _, P) C.
Proof. apply triple_same_tree. intros w. by do 2 eexists. Qed.

(** The directory seen from above. *)
Lemma local_up d k t p t' es :
  local (d ++ [k]) t p t' → tree_get d t = Some (Dir es) →
  outside d t t' ∧ ∃ es', tree_get d t' = Some (Dir es') ∧ (∀ k', k' ≠ k → map_get k' es' = map_get k' es) ∧
    ∃ ks, map_get k es' = Some (Dir ks) ∧ p ks.
Proof.
  intros (Ho & ks & Hg & Hp) Hd. split; [by eapply outside_below|]. rewrite tree_get_snoc in Hg.
  destruct (tree_get d t') as [[| es' | |]|] eqn:Ed; try done. exists es'. cbn in Hg. split_and!; [done| |by exists ks].
  intros k' Hk. specialize (Ho (d ++ [k'])). rewrite (child_in _ _ _ _ Ed), (child_in _ _ _ _ Hd) in Ho. apply Ho.
  by apply apart_siblings.
Qed.

(** * Files of a staging directory *)

Section Staging.
Context `{Backend, CacheParser} (c : CacheProcess).

Lemma numbered_prefix prefix n : starts_with prefix (numbered c prefix n) = true.
Proof. apply starts_with_append. Qed.

(** The file [k] is [v], and the other entries but temporary files are those of [ks0]. *)
Definition kept (ks0 : btmap string node) (k : string) (v : option node) (ks : btmap string node) : Prop :=
  map_get k ks = v ∧ ∀ x, starts_with TEMPORARY_PREFIX x = false → x ≠ k → map_get x ks = map_get x ks0.

Lemma kept_temporary ks0 k v ks x n :
  starts_with TEMPORARY_PREFIX k = false → starts_with TEMPORARY_PREFIX x = true →
  kept ks0 k v ks → kept ks0 k v (put_child x n ks).
Proof.
  intros Hk Hx [Hv Ho]. split.
  - rewrite put_child_get, decide_False; [done|by eapply starts_with_ne].
  - intros y Hy Hyk. rewrite put_child_get, decide_False; [by apply Ho|by eapply starts_with_ne].
Qed.

Definition remove_temporary (temporary : path) : fs CacheError () :=
  exists_ ← exists_path temporary;
  if exists_ : bool then fs_ignore (remove_file_at temporary) else mret ().

Lemma triple_remove_temporary d t0 x (p : btmap string node → Prop) :
  (∀ es v, p es → p (put_child x v es)) →
  crash_triple (local d t0 p) (remove_temporary (d ++ [x])) (λ _, local d t0 p) (local d t0 p).
Proof.
  intros Hp. eapply triple_bind; [apply triple_exists_path|]. intros [].
  - by eapply triple_ignore; [apply triple_remove_any|].
  - apply (triple_ret () (λ _, local d t0 p)).
Qed.

Definition anything (ks : btmap string node) : Prop := True.

Lemma triple_replace_file d t0 ks0 k v content :
  starts_with TEMPORARY_PREFIX k = false →
  crash_triple (local d t0 (kept ks0 k v)) (replace_file c (d ++ [k]) content)
    (λ _, local d t0 (kept ks0 k (Some (File content)))) (local d t0 anything).
Proof.
  intros Hk. unfold replace_file. rewrite parent_snoc.
  assert (Hany : ∀ p t, local d t0 p t → local d t0 anything t) by (intros p t Ht; by eapply local_conseq).
  apply (triple_bind _ _ (λ _, local d t0 (kept ks0 k v))).
  { apply triple_look. intros t Ht. destruct (_ ≫= _) as [[]|]; [done|by eapply Hany]. }
  intros _. apply (triple_bind _ _ (λ _, local d t0 (kept ks0 k v))).
  { apply triple_same_tree. intros w. by do 2 eexists. }
  intros sequence. fold (remove_temporary (d ++ [numbered c TEMPORARY_PREFIX sequence])).
  pose proof (numbered_prefix TEMPORARY_PREFIX sequence) as Hx.
  set (x := numbered c TEMPORARY_PREFIX sequence) in *.
  assert (Hkx : k ≠ x) by (by eapply starts_with_ne).
  apply (triple_bind _ _ (λ _, local d t0 (kept ks0 k (Some (File content))))).
  - apply (triple_catch _ _ _ _ (local d t0 anything)); [| |done].
    + apply (triple_bind _ _ (λ _, local d t0 (λ ks, kept ks0 k v ks ∧ map_get x ks = Some (File content)))).
      { apply triple_write_new; [done..|]. intros ks Hks _. split; [by apply (kept_temporary _ _ _ _ x (Some _))|].
        cbn [concat]. by rewrite app_nil_r, map_get_insert, decide_True. }
      intros []. apply (triple_bind _ _ (λ _, local d t0 (kept ks0 k (Some (File content))))).
      { apply triple_rename; [done|]. intros ks n [[_ Ho] Hn] Hn' _. rewrite Hn in Hn'. injection Hn' as <-. split.
        - by rewrite map_get_insert, decide_True.
        - intros y Hy Hyk. rewrite map_get_insert, decide_False by done. rewrite map_get_remove_key, decide_False; [by apply Ho|].
          by eapply starts_with_ne. }
      intros []. apply triple_map_err, triple_effect; [|apply Hany]. intros t Ht. split; [done|]. intros ?. by eapply Hany.
    + intros e. eapply triple_bind; [by apply triple_remove_temporary|]. intros []. by apply triple_err.
  - intros []. eapply triple_conseq; [apply (triple_remove_temporary d t0 x (kept ks0 k (Some (File content))))|done..|apply Hany].
    intros es v' Hes. by apply kept_temporary.
Qed.

(** The manifest of the staging directory becomes [m]. *)
Lemma triple_manifest_replacing d t0 ks0 v m :
  crash_triple (local d t0 (kept ks0 GENERATION_MANIFEST_FILE v))
    (write_generation_manifest_replacing c (d ++ [GENERATION_MANIFEST_FILE]) m)
    (λ _ t, ∃ b, canonical_json m = Ok b ∧
            local d t0 (kept ks0 GENERATION_MANIFEST_FILE (Some (File (b ++ [line_feed])))) t)
    (local d t0 anything).
Proof.
  assert (Hany : ∀ p t, local d t0 p t → local d t0 anything t) by (intros p t Ht; by eapply local_conseq).
  unfold write_generation_manifest_replacing.
  apply (triple_bind _ _ (λ b t, canonical_json m = Ok b ∧ local d t0 (kept ks0 GENERATION_MANIFEST_FILE v) t)).
  { apply triple_lift. intros t Ht. destruct (canonical_json m); cbn; [done|by eapply Hany]. }
  intros b w [Hb Hw]. revert w Hw.
  change (crash_triple (local d t0 (kept ks0 GENERATION_MANIFEST_FILE v))
    (if cpr_unix c then replace_file c (d ++ [GENERATION_MANIFEST_FILE]) (b ++ [line_feed])
     else _ ← remove_if_present (d ++ [GENERATION_MANIFEST_FILE]);
          _ ← write_generation_manifest (parent (d ++ [GENERATION_MANIFEST_FILE])) m;
          fs_lift (ensure (bool_decide (parent (d ++ [GENERATION_MANIFEST_FILE]) ++ [GENERATION_MANIFEST_FILE]
                                        = d ++ [GENERATION_MANIFEST_FILE])) PromotionUncertain))
    (λ _ t, ∃ b, canonical_json m = Ok b ∧
            local d t0 (kept ks0 GENERATION_MANIFEST_FILE (Some (File (b ++ [line_feed])))) t)
    (local d t0 anything)).
  destruct (cpr_unix c).
  - eapply triple_conseq; [by apply triple_replace_file|done| |done]. intros [] t Ht. by exists b.
  - rewrite parent_snoc. apply (triple_bind _ _ (λ _, local d t0 (kept ks0 GENERATION_MANIFEST_FILE None))).
    { apply triple_remove_if_present; [done|]. intros ks [Hv Ho].
      assert (Hr : kept ks0 GENERATION_MANIFEST_FILE None (remove_key GENERATION_MANIFEST_FILE ks)).
      { split; [by rewrite map_get_remove_key, decide_True|]. intros x Hx Hxk.
        rewrite map_get_remove_key, decide_False by done. by apply Ho. }
      destruct (map_get GENERATION_MANIFEST_FILE ks) as [[]|] eqn:E; done. }
    intros []. apply (triple_bind _ _ (λ _, local d t0 (kept ks0 GENERATION_MANIFEST_FILE (Some (File (b ++ [line_feed])))))).
    { unfold write_generation_manifest. rewrite Hb. cbn [map_err]. intros w Hw.
      apply (triple_write_new d t0 GENERATION_MANIFEST_FILE [b; [line_feed]] (kept ks0 GENERATION_MANIFEST_FILE None)
               (kept ks0 GENERATION_MANIFEST_FILE (Some (File (b ++ [line_feed])))) anything); [done..| |done].
      intros ks [_ Ho] _. split; [by rewrite map_get_insert, decide_True|]. intros x Hx Hxk.
      rewrite map_get_insert, decide_False by done. by apply Ho. }
    intros []. apply triple_lift. intros t Ht. rewrite bool_decide_eq_true_2 by done. by exists b.
Qed.
End Staging.

(** * An entry under promotion *)

Definition plain_file (n : option node) : Prop := match n with None | Some (File _) => True | _ => False end.
Definition plain_dir (n : option node) : Prop := match n with None | Some (Dir _) => True | _ => False end.
Definition complete_marker : option node := Some (File COMPLETE_BYTES).

(** What an entry holds: the payload, its marker and its manifest, and the backup
    and staging directories of one promotion. *)
Record view : Type := {
  vw_data : option node;
  vw_marker : option node;
  vw_manifest : option node;
  vw_backup : option node;
  vw_staging : option node;
}.

Definition view_of (backup staging : string) (es : btmap string node) : view :=
  {| vw_data := map_get DATA_DIR es; vw_marker := map_get COMPLETE_FILE es;
     vw_manifest := map_get GENERATION_MANIFEST_FILE es; vw_backup := map_get backup es;
     vw_staging := map_get staging es |}.

(** One promotion: the generation that was there ([pr_had] says whether there was a
    payload), the new payload, and the manifest that comes with it. *)
Record promotion : Type := {
  pr_backup : string;
  pr_staging : string;
  pr_had : bool;
  pr_data : option node;
  pr_marker : option (list ascii);
  pr_manifest : option (list ascii);
  pr_payload : btmap string node;
  pr_complete : CacheGenerationManifestV1;
}.

Definition file_node (content : option (list ascii)) : option node := File <$> content.

Record promotion_ok (P : promotion) : Prop := {
  pk_backup : starts_with ".backup-" (pr_backup P) = true;
  pk_staging : starts_with ".staging-" (pr_staging P) = true;
  pk_had : is_dir (pr_data P) = pr_had P;
  pk_plain : plain_dir (pr_data P);
}.

Section States.
Context `{Backend, CacheParser} (P : promotion).

(** The generation that was there, untouched. *)
Definition old_view (v : view) : Prop :=
  vw_data v = pr_data P ∧ vw_marker v = file_node (pr_marker P) ∧ vw_manifest v = file_node (pr_manifest P) ∧
  vw_backup v = None ∧ plain_dir (vw_staging v).

(** The old payload stands in the backup directory, and nothing complete in its place. *)
Definition moved_view (v : view) : Prop :=
  pr_had P = true ∧ vw_backup v = pr_data P ∧ plain_dir (vw_data v) ∧ plain_file (vw_marker v) ∧
  plain_file (vw_manifest v) ∧ plain_dir (vw_staging v) ∧ (vw_data v = None ∨ vw_marker v ≠ complete_marker).

(** There was no payload, and there is none. *)
Definition absent_view (v : view) : Prop :=
  pr_had P = false ∧ vw_data v = None ∧ vw_backup v = None ∧ plain_file (vw_marker v) ∧ plain_file (vw_manifest v) ∧
  plain_dir (vw_staging v).

(** There was no payload, and the new one stands there without its marker. *)
Definition stuck_view (v : view) : Prop :=
  pr_had P = false ∧ vw_data v = Some (Dir (pr_payload P)) ∧ vw_backup v = None ∧ vw_marker v ≠ complete_marker ∧
  plain_file (vw_marker v) ∧ plain_file (vw_manifest v) ∧ plain_dir (vw_staging v).

Definition complete_manifest (n : option node) : Prop :=
  ∃ b, canonical_json (pr_complete P) = Ok b ∧ n = Some (File (b ++ [line_feed])).

Definition new_view (v : view) : Prop :=
  vw_data v = Some (Dir (pr_payload P)) ∧ vw_marker v = complete_marker ∧ complete_manifest (vw_manifest v) ∧
  plain_dir (vw_backup v) ∧ plain_dir (vw_staging v).

Definition left_view (v : view) : Prop :=
  old_view v ∨ moved_view v ∨ absent_view v ∨ stuck_view v ∨ new_view v.

(** In the course of a promotion: what the staging directory still holds. *)
Definition at_step (data marker manifest backup : option node) (payload : option node) (ready : bool)
    (es : btmap string node) : Prop :=
  let v := view_of (pr_backup P) (pr_staging P) es in
  vw_data v = data ∧ vw_marker v = marker ∧ vw_manifest v = manifest ∧ vw_backup v = backup ∧
  ∃ ks, vw_staging v = Some (Dir ks) ∧ map_get DATA_DIR ks = payload ∧
    (ready = true → complete_manifest (map_get GENERATION_MANIFEST_FILE ks)).

Definition in_view (V : view → Prop) (es : btmap string node) : Prop := V (view_of (pr_backup P) (pr_staging P) es).

Context (Hok : promotion_ok P).

Lemma names_distinct :
  pr_backup P ≠ DATA_DIR ∧ pr_backup P ≠ COMPLETE_FILE ∧ pr_backup P ≠ GENERATION_MANIFEST_FILE ∧
  pr_backup P ≠ pr_staging P ∧
  pr_staging P ≠ DATA_DIR ∧ pr_staging P ≠ COMPLETE_FILE ∧ pr_staging P ≠ GENERATION_MANIFEST_FILE.
Proof.
  destruct Hok as [Hb Hs _ _]. assert (Hbs : pr_backup P ≠ pr_staging P).
  { intros E. rewrite E in Hb. unfold starts_with in Hb, Hs.
    destruct (strip_prefix ".backup-" _) as [x|] eqn:Ex; [|done]. destruct (strip_prefix ".staging-" _) as [y|] eqn:Ey; [|done].
    apply strip_prefix_some in Ex, Ey. rewrite Ex in Ey. cbn in Ey. discriminate Ey. }
  split_and!; try done; intros E; first [by rewrite E in Hb|by rewrite E in Hs].
Qed.

End States.

(** Looks up the named children of changed entries. *)
Ltac get_children :=
  cbn [view_of vw_data vw_marker vw_manifest vw_backup vw_staging] in *;
  repeat first
    [ rewrite map_get_insert | rewrite map_get_remove_key | rewrite put_child_get ];
  repeat match goal with
  | |- context [decide (?a = ?a)] => rewrite (decide_True (P := a = a)) by reflexivity
  | |- context [decide (?a = ?b)] => rewrite (decide_False (P := a = b)) by (assumption || (apply not_eq_sym; assumption) || discriminate)
  end.

Section Steps.
Context `{Backend, CacheParser} (c : CacheProcess) (P : promotion) (Hok : promotion_ok P).
Context (d : path) (t0 : node).

Definition old_marker : option node := file_node (pr_marker P).
Definition old_manifest : option node := file_node (pr_manifest P).
Definition new_payload : option node := Some (Dir (pr_payload P)).
Definition backup_of : option node := if pr_had P then pr_data P else None.

Lemma file_node_plain o : plain_file (file_node o).
Proof. by destruct o. Qed.

Lemma backup_plain : plain_dir backup_of.
Proof. unfold backup_of. destruct (pr_had P); [apply Hok|done]. Qed.

(** An interruption leaves the entry in one of the views. *)
Lemma left_without v :
  vw_data v = None → plain_file (vw_marker v) → plain_file (vw_manifest v) → vw_backup v = backup_of →
  plain_dir (vw_staging v) → left_view P v.
Proof.
  intros Hd Hm Hg Hb Hs. unfold left_view, moved_view, absent_view, backup_of in *.
  destruct (pr_had P) eqn:Eh; [right; left|do 2 right; left]; split_and!; try done; [by rewrite Hd|by left].
Qed.

Lemma left_incomplete v :
  vw_data v = new_payload → plain_file (vw_marker v) → vw_marker v ≠ complete_marker → plain_file (vw_manifest v) →
  vw_backup v = backup_of → plain_dir (vw_staging v) → left_view P v.
Proof.
  intros Hd Hm Hn Hg Hb Hs. unfold left_view, moved_view, stuck_view, backup_of in *.
  destruct (pr_had P) eqn:Eh; [right; left|do 3 right; left]; split_and!; try done; [by rewrite Hd|by right].
Qed.

Lemma left_new v :
  vw_data v = new_payload → vw_marker v = complete_marker → complete_manifest P (vw_manifest v) →
  vw_backup v = backup_of → plain_dir (vw_staging v) → left_view P v.
Proof.
  intros Hd Hm Hg Hb Hs. do 4 right. split_and!; try done. rewrite Hb. apply backup_plain.
Qed.

(** Opens the predicates of two steps; what is left are look-ups. *)
Ltac step_cases :=
  destruct (names_distinct P Hok) as (N1 & N2 & N3 & N4 & N5 & N6 & N7);
  unfold in_view, at_step; cbn [view_of vw_data vw_marker vw_manifest vw_backup vw_staging];
  intros; repeat match goal with
  | Hs : _ ∧ _ |- _ => destruct Hs
  | Hs : ∃ _, _ |- _ => destruct Hs
  end.
Ltac step_goal :=
  get_children; split_and!; try done; try congruence;
  try (eexists; split; [first [reflexivity|eassumption]|]; get_children; split; [try done; try congruence|try done; auto]).

Lemma step_move :
  pr_had P = true →
  crash_triple (local d t0 (at_step P (pr_data P) old_marker old_manifest None new_payload true))
    (fs_map_err CacheIo (rename_path (d ++ [DATA_DIR]) (d ++ [pr_backup P])))
    (λ _, local d t0 (at_step P None old_marker old_manifest backup_of new_payload true))
    (local d t0 (in_view P (left_view P))).
Proof.
  intros Hh. apply triple_rename; step_cases.
  - left. unfold old_view. step_goal. match goal with Hs : _ = Some (Dir _) |- _ => by rewrite Hs end.
  - unfold backup_of. rewrite Hh. step_goal.
Qed.

(** Where a step can be left. *)
Lemma at_without marker manifest payload ready es :
  plain_file marker → plain_file manifest → at_step P None marker manifest backup_of payload ready es →
  in_view P (left_view P) es.
Proof.
  intros Hm Hg (H1 & H2 & H3 & H4 & ks & H5 & _). apply left_without; [done|by rewrite H2|by rewrite H3|done|by rewrite H5].
Qed.

Lemma at_incomplete marker manifest payload ready es :
  plain_file marker → marker ≠ complete_marker → plain_file manifest →
  at_step P new_payload marker manifest backup_of payload ready es → in_view P (left_view P) es.
Proof.
  intros Hm Hn Hg (H1 & H2 & H3 & H4 & ks & H5 & _).
  apply left_incomplete; [done|by rewrite H2|by rewrite H2|by rewrite H3|done|by rewrite H5].
Qed.

Lemma at_new manifest payload ready es :
  complete_manifest P manifest → at_step P new_payload complete_marker manifest backup_of payload ready es →
  in_view P (left_view P) es.
Proof.
  intros Hg (H1 & H2 & H3 & H4 & ks & H5 & _). apply left_new; [done|done|by rewrite H3|done|by rewrite H5].
Qed.

Lemma complete_plain n : complete_manifest P n → plain_file n.
Proof. by intros (b & _ & ->). Qed.

Lemma step_marker manifest :
  plain_file manifest →
  crash_triple (local d t0 (at_step P None old_marker manifest backup_of new_payload true))
    (remove_if_present (d ++ [COMPLETE_FILE]))
    (λ _, local d t0 (at_step P None None manifest backup_of new_payload true))
    (local d t0 (in_view P (left_view P))).
Proof.
  intros Hm. apply triple_remove_if_present.
  - intros es. by apply at_without; [apply file_node_plain|].
  - intros es Hs. pose proof Hs as (_ & Hk & _). cbn in Hk. rewrite Hk. unfold old_marker, file_node in *.
    destruct (pr_marker P); cbn in *; [|done]. revert Hs. step_cases. step_goal.
Qed.

Lemma step_manifest :
  crash_triple (local d t0 (at_step P None None old_manifest backup_of new_payload true))
    (remove_if_present (d ++ [GENERATION_MANIFEST_FILE]))
    (λ _, local d t0 (at_step P None None None backup_of new_payload true))
    (local d t0 (in_view P (left_view P))).
Proof.
  apply triple_remove_if_present.
  - intros es. by apply at_without; [|apply file_node_plain].
  - intros es Hs. pose proof Hs as (_ & _ & Hk & _). cbn in Hk. rewrite Hk. unfold old_manifest, file_node in *.
    destruct (pr_manifest P); cbn in *; [|done]. revert Hs. step_cases. step_goal.
Qed.

Lemma step_payload :
  crash_triple (local d t0 (at_step P None None None backup_of new_payload true))
    (fs_map_err CacheIo (rename_path (d ++ [pr_staging P; DATA_DIR]) (d ++ [DATA_DIR])))
    (λ _, local d t0 (at_step P new_payload None None backup_of None true))
    (local d t0 (in_view P (left_view P))).
Proof.
  apply triple_rename_up.
  - intros es. by apply at_without.
  - intros es ks n Hs Hk Hx _. revert Hs. step_cases. simplify_eq. step_goal.
Qed.

Lemma step_new_manifest :
  crash_triple (local d t0 (at_step P new_payload None None backup_of None true))
    (fs_map_err CacheIo (rename_path (d ++ [pr_staging P; GENERATION_MANIFEST_FILE]) (d ++ [GENERATION_MANIFEST_FILE])))
    (λ _, local d t0 (λ es, ∃ m, complete_manifest P m ∧ at_step P new_payload None m backup_of None false es))
    (local d t0 (in_view P (left_view P))).
Proof.
  apply triple_rename_up.
  - intros es. by apply at_incomplete.
  - intros es ks n Hs Hk Hx _. exists (Some n). revert Hs. step_cases. simplify_eq. split.
    + rewrite <-Hx. auto.
    + step_goal.
Qed.

Lemma step_complete :
  crash_triple (local d t0 (λ es, ∃ m, complete_manifest P m ∧ at_step P new_payload None m backup_of None false es))
    (write_complete_marker (d ++ [COMPLETE_FILE]))
    (λ _, local d t0 (λ es, ∃ m, complete_manifest P m ∧ at_step P new_payload complete_marker m backup_of None false es))
    (local d t0 (in_view P (left_view P))).
Proof.
  assert (Hput : ∀ m l es, at_step P new_payload None m backup_of None false es →
                           at_step P new_payload (Some (File l)) m backup_of None false (map_insert COMPLETE_FILE (File l) es)).
  { intros m l es. step_cases. step_goal. }
  apply triple_write_new.
  - intros es (m & Hm & Hs). eapply at_incomplete; [| |by apply complete_plain|done]; done.
  - intros es l (m & Hm & Hs) _. apply (Hput _ l) in Hs. destruct (decide (l = COMPLETE_BYTES)) as [->|Hl].
    + by eapply at_new.
    + apply (at_incomplete (Some (File l)) m None false); [done|unfold complete_marker; congruence|by apply complete_plain|done].
  - intros es (m & Hm & Hs) _. exists m. split; [done|]. cbn [concat]. rewrite app_nil_r. by apply Hput.
Qed.

(** ** The body of the loop of [execute_promotion] *)

Context (p : PreparedCacheEntry) (e : CachePromotionJournalEntryV1).

(** The entry as its journal describes it, with the staging directory prepared. *)
Record described : Prop := {
  ds_path : pc_path p = d;
  ds_staging : pc_staging_path p = d ++ [pr_staging P];
  ds_data : pc_data_path p = d ++ [pr_staging P; DATA_DIR];
  ds_backup : je_backup_name e = pr_backup P;
  ds_had : je_had_current e = pr_had P;
}.

Definition staged (es : btmap string node) : Prop :=
  in_view P (old_view P) es ∧
  ∃ ks sb m, map_get (pr_staging P) es = Some (Dir ks) ∧ map_get DATA_DIR ks = new_payload ∧
    map_get GENERATION_MANIFEST_FILE ks = Some (File sb) ∧ parse_generation_manifest sb = Some m ∧
    set_state "complete" m = pr_complete P.

Lemma staged_left es : staged es → in_view P (left_view P) es.
Proof. intros [? _]. by left. Qed.

Lemma old_left es : in_view P (old_view P) es → in_view P (left_view P) es.
Proof. by left. Qed.

(** What happened in the staging directory, seen from the entry. *)
Lemma staging_changed (q : btmap string node → Prop) t t' es :
  local (d ++ [pr_staging P]) t q t' → outside d t0 t → tree_get d t = Some (Dir es) → in_view P (old_view P) es →
  local d t0 (λ es', vw_data (view_of (pr_backup P) (pr_staging P) es') = pr_data P ∧
                     vw_marker (view_of (pr_backup P) (pr_staging P) es') = old_marker ∧
                     vw_manifest (view_of (pr_backup P) (pr_staging P) es') = old_manifest ∧
                     vw_backup (view_of (pr_backup P) (pr_staging P) es') = None ∧
                     ∃ ks, vw_staging (view_of (pr_backup P) (pr_staging P) es') = Some (Dir ks) ∧ q ks) t'.
Proof.
  intros Hl Ho Hg Hold. destruct (local_up _ _ _ _ _ _ Hl Hg) as (Ho' & es' & Hg' & Hsame & ks & Hks & Hq).
  split; [by eapply outside_trans|]. exists es'. split; [done|].
  destruct (names_distinct P Hok) as (N1 & N2 & N3 & N4 & N5 & N6 & N7).
  destruct Hold as (H1 & H2 & H3 & H4 & _). cbn in *.
  rewrite !Hsame by (done || by apply not_eq_sym). split_and!; try done. by exists ks.
Qed.

Lemma step_staging m (Hd : described) :
  set_state "complete" m = pr_complete P →
  crash_triple (local d t0 staged)
    (write_generation_manifest_replacing c (pc_staging_path p ++ [GENERATION_MANIFEST_FILE]) (set_state "complete" m))
    (λ _, local d t0 (at_step P (pr_data P) old_marker old_manifest None new_payload true))
    (local d t0 (in_view P (left_view P))).
Proof.
  intros Hm w (Ho & es & Hg & Hold & ks & sb & m' & Hk & Hpay & Hf & _ & _). rewrite (ds_staging Hd), Hm.
  pose proof (triple_manifest_replacing c (d ++ [pr_staging P]) (w_tree w) ks
                (Some (File sb)) (pr_complete P) w) as Ht.
  assert (Hl : local (d ++ [pr_staging P]) (w_tree w) (kept ks GENERATION_MANIFEST_FILE (Some (File sb))) (w_tree w)).
  { split; [apply outside_refl|]. exists ks. split; [by rewrite (child_in _ _ _ _ Hg)|]. by split. }
  specialize (Ht Hl). clear Hl.
  destruct (write_generation_manifest_replacing _ _ _ w) as [[[]|err|] w'].
  - destruct Ht as (b & Hb & Ht). eapply local_conseq; [by eapply staging_changed|]. cbn beta.
    intros es' (H1 & H2 & H3 & H4 & ks' & H5 & [Hnew Hsame]). split_and!; try done. exists ks'. split_and!; [done| |].
    + rewrite Hsame; done.
    + intros _. exists b. by rewrite Hnew.
  - eapply local_conseq; [by eapply staging_changed|]. cbn beta. intros es' (H1 & H2 & H3 & H4 & ks' & H5 & _).
    apply old_left. split_and!; try done. by rewrite H5.
  - eapply local_conseq; [by eapply staging_changed|]. cbn beta. intros es' (H1 & H2 & H3 & H4 & ks' & H5 & _).
    apply old_left. split_and!; try done. by rewrite H5.
Qed.

Lemma promote_one_triple (Hd : described) :
  crash_triple (local d t0 staged) (promote_one c (p, e))
    (λ _, local d t0 (in_view P (new_view P))) (local d t0 (in_view P (left_view P))).
Proof.
  unfold promote_one.
  apply (triple_bind _ _ (λ m t, local d t0 staged t ∧ set_state "complete" m = pr_complete P)).
  { apply triple_look. intros t Hs. pose proof Hs as (Ho & es & Hg & Hold & ks & sb & m & Hk & Hpay & Hf & Hp & Hm).
    rewrite (ds_staging Hd), <-app_assoc. cbn [app]. rewrite (tree_get_in _ _ _ _ Hg). cbn [tree_get]. rewrite Hk, Hf. cbn.
    unfold parse_manifest. by rewrite Hp. }
  intros m w [Hw Hm]. revert w Hw.
  match goal with |- ∀ w, local d t0 staged (w_tree w) → match ?f w with _ => _ end =>
    change (crash_triple (local d t0 staged) f (λ _, local d t0 (in_view P (new_view P))) (local d t0 (in_view P (left_view P)))) end.
  eapply triple_bind; [by apply step_staging|]. intros [].
  rewrite (ds_path Hd), (ds_staging Hd), (ds_data Hd), (ds_backup Hd), (ds_had Hd).
  apply (triple_bind _ _ (λ _, local d t0 (at_step P None old_marker old_manifest backup_of new_payload true))).
  { destruct (pr_had P) eqn:Eh.
    - unfold backup_of. rewrite Eh. eapply triple_conseq; [by apply step_move|done|by unfold backup_of; rewrite Eh|done].
    - assert (Hn : pr_data P = None).
      { pose proof (pk_plain P Hok) as Hpl. pose proof (pk_had P Hok) as Hhad. rewrite Eh in Hhad.
        by destruct (pr_data P) as [[]|]. }
      unfold backup_of. rewrite Eh, Hn. apply (triple_ret () (λ _, local d t0 (at_step P None old_marker old_manifest None new_payload true))). }
  intros []. eapply triple_bind; [apply step_marker, file_node_plain|].
  intros []. eapply triple_bind; [apply step_manifest|].
  intros []. eapply triple_bind; [apply step_payload|].
  intros []. rewrite <-app_assoc. eapply triple_bind; [apply step_new_manifest|].
  intros []. eapply triple_bind; [apply step_complete|].
  intros []. eapply triple_conseq.
  - apply (triple_same_tree _ (local d t0 (λ es, ∃ m, complete_manifest P m ∧
      at_step P new_payload complete_marker m backup_of None false es)) (λ _, False)). intros w. by do 2 eexists.
  - done.
  - intros [] t Ht. eapply local_conseq; [exact Ht|]. cbn beta.
    intros es (m' & Hm' & H1 & H2 & H3 & H4 & ks & H5 & _). split_and!; try done.
    + by rewrite H3.
    + rewrite H4. apply backup_plain.
    + by rewrite H5.
  - done.
Qed.
End Steps.

(** * Runs inside one directory *)

Section LocalRuns.
Context (d : path) (t0 : node).
Abbreviation L := (local d t0).

(** What [remove_if_present] can remove. *)
Definition removable (n : option node) : Prop := match n with None | Some (Dir _) | Some (File _) => True | _ => False end.

Lemma runs_remove_if_present k (p q : btmap string node → Prop) :
  (∀ es, p es → removable (map_get k es) ∧ q (remove_key k es)) →
  runs (L p) (remove_if_present (d ++ [k])) (λ _, L q).
Proof.
  intros Hq w Hw (Ho & es & Hg & Hp). destruct (Hq es Hp) as [Hn Hr].
  assert (Hl : L q (tree_put (d ++ [k]) None (w_tree w))) by (by eapply local_put).
  unfold remove_if_present, mbind, fs_bind, look. cbn [of_result]. rewrite (child_in _ _ _ _ Hg).
  destruct (map_get k es) as [[content|r| |]|] eqn:Ek; try done.
  - unfold fs_map_err, fs_catch, remove_file_at. erewrite effect_quiet; [|done|by rewrite (child_in _ _ _ _ Hg), Ek].
    by eexists _, _.
  - unfold fs_map_err, fs_catch, remove_dir_all. erewrite effect_quiet; [|done|by rewrite (child_in _ _ _ _ Hg), Ek].
    by eexists _, _.
  - exists (), w. split_and!; try done. split; [done|]. exists es. split; [done|]. by rewrite remove_key_absent in Hr.
Qed.

Lemma runs_rename k k' (p q : btmap string node → Prop) :
  (∀ es, p es → ∃ n, map_get k es = Some n ∧ map_get k' es = None ∧ q (map_insert k' n (remove_key k es))) →
  runs (L p) (fs_map_err CacheIo (rename_path (d ++ [k]) (d ++ [k']))) (λ _, L q).
Proof.
  intros Hq. apply runs_effect. intros t (Ho & es & Hg & Hp). destruct (Hq es Hp) as (n & Hk & Hk' & Hr).
  rewrite !(child_in _ _ _ _ Hg), parent_snoc, Hg, Hk, Hk'. cbn. eexists. split; [done|].
  eapply local_put; [eapply outside_trans; [done|apply outside_put]|by apply put_child_in|done].
Qed.

Lemma runs_write_new k content (p q : btmap string node → Prop) :
  (∀ es, p es → map_get k es = None ∧ q (map_insert k (File content) es)) →
  runs (L p) (write_new_file (d ++ [k]) [content]) (λ _, L q).
Proof.
  intros Hq w Hw (Ho & es & Hg & Hp). destruct (Hq es Hp) as [Hk Hr].
  unfold write_new_file, fs_map_err, fs_catch, fs_each, mbind, fs_bind, create_new_file.
  rewrite (effect_quiet _ _ _ (tree_put (d ++ [k]) (Some (File [])) (w_tree w)) Hw)
    by (by rewrite (child_in _ _ _ _ Hg), Hk, parent_snoc, Hg).
  set (w1 := set_tree _ w). assert (Hq1 : quiet w1) by done.
  assert (Hg1 : tree_get d (w_tree w1) = Some (Dir (map_insert k (File []) es))) by (by apply (put_child_in d es k (Some (File [])))).
  unfold write_all. erewrite (effect_quiet _ _ w1); [|done|reflexivity]. cbn [mret fs_ret].
  set (w2 := set_tree _ w1). unfold sync_all. erewrite (effect_quiet _ _ w2); [|done|reflexivity].
  exists (), (set_tree (w_tree w2) w2). split_and!; [done..|]. cbn [set_tree w_tree w2].
  unfold append_bytes. rewrite (child_in _ _ _ _ Hg1), map_get_insert, decide_True by done.
  eapply local_put; [|exact Hg1|].
  - eapply outside_trans; [done|]. apply outside_put.
  - cbn. by rewrite map_insert_twice.
Qed.

Lemma runs_restore k content (p q : btmap string node → Prop) :
  (∀ es, p es → map_get k es = None ∧ q (put_child k (File <$> content) es)) →
  runs (L p) (restore_optional_file (d ++ [k]) content) (λ _, L q).
Proof.
  intros Hq. unfold restore_optional_file. apply (runs_bind _ _ (λ _, L p)).
  - apply runs_remove_if_present. intros es Hp. pose proof (proj1 (Hq es Hp)) as Hk.
    by rewrite Hk, remove_key_absent.
  - intros []. destruct content as [content|].
    + by apply runs_write_new.
    + eapply runs_conseq; [apply (runs_ret () (λ _, L q))| |done]. intros t Ht. eapply local_conseq; [done|].
      intros es Hp. destruct (Hq es Hp) as [Hk Hr]. cbn in Hr. by rewrite remove_key_absent in Hr.
Qed.

Lemma runs_exists k (p : btmap string node → Prop) b :
  (∀ es, p es → exists_node (map_get k es) = b) →
  runs (L p) (exists_path (d ++ [k])) (λ x t, x = b ∧ L p t).
Proof.
  intros Hb. apply runs_look. intros t Ht. pose proof Ht as (Ho & es & Hg & Hp). eexists. split; [done|].
  rewrite (child_in _ _ _ _ Hg). split; [by apply Hb|done].
Qed.
End LocalRuns.

Lemma runs_bind_value {E A B} P (m : fs E A) b R (f : A → fs E B) Q :
  runs P m (λ x t, x = b ∧ R t) → runs R (f b) Q → runs P (m ≫= f) Q.
Proof.
  intros Hm Hf. eapply runs_bind; [done|]. intros x w Hw [-> HR]. by apply Hf.
Qed.

Lemma runs_ext {E A} P (m m' : fs E A) Q : (∀ w, m w = m' w) → runs P m' Q → runs P m Q.
Proof. intros He Hm w Hq Hw. rewrite He. by apply Hm. Qed.

(** A run from each single state. *)
Lemma runs_each {E A} (P : node → Prop) (m : fs E A) Q : (∀ t, P t → runs (λ t', t' = t) m Q) → runs P m Q.
Proof. intros Hm w Hq Hw. by apply (Hm (w_tree w)). Qed.

(** * Recovery of one entry *)

Section Recover.
Context `{Backend, CacheParser} (c : CacheProcess) (P : promotion) (Hok : promotion_ok P).

(** The journal entry of a promotion. *)
Record journaled (e : CachePromotionJournalEntryV1) : Prop := {
  jd_key : is_ok (validated_digest_hex (je_key_digest e)) = true;
  jd_staging : je_staging_name e = pr_staging P;
  jd_backup : je_backup_name e = pr_backup P;
  jd_had : je_had_current e = pr_had P;
  jd_marker : je_previous_marker e = pr_marker P;
  jd_manifest : je_previous_manifest e = pr_manifest P;
  jd_owned : is_ok (validate_owned_name (pr_staging P) ".staging-") = true ∧
             is_ok (validate_owned_name (pr_backup P) ".backup-") = true;
  jd_complete : manifest_is (pr_complete P) (je_key_digest e) (je_plan_digest e) (je_generation e) "complete" = true;
}.

(** What a complete marker stands beside can be read: an entry that is prepared was
    inspected by [entry_status]. *)
Definition old_readable : Prop :=
  pr_marker P = Some COMPLETE_BYTES →
  match pr_manifest P with Some b => is_Some (parse_generation_manifest b) | None => True end.

(** The manifest that comes with the new payload is read back. *)
Definition new_readable : Prop :=
  ∀ b, canonical_json (pr_complete P) = Ok b → parse_generation_manifest (b ++ [line_feed]) = Some (pr_complete P).

(** The entry after a recovery: without traces of the promotion, the new generation
    or the one before; an entry that had no payload keeps no marker and no manifest. *)
Definition settled_new (v : view) : Prop :=
  vw_data v = Some (Dir (pr_payload P)) ∧ vw_marker v = complete_marker ∧ complete_manifest P (vw_manifest v) ∧
  vw_backup v = None ∧ vw_staging v = None.

Definition settled_old (v : view) : Prop :=
  vw_backup v = None ∧ vw_staging v = None ∧
  if pr_had P then vw_data v = pr_data P ∧ vw_marker v = file_node (pr_marker P) ∧ vw_manifest v = file_node (pr_manifest P)
  else vw_data v = None ∧ vw_marker v = None ∧ vw_manifest v = None.

(** The five places of an entry. *)
Definition holds (data marker manifest backup : option node) (es : btmap string node) : Prop :=
  let v := view_of (pr_backup P) (pr_staging P) es in
  vw_data v = data ∧ vw_marker v = marker ∧ vw_manifest v = manifest ∧ vw_backup v = backup ∧ plain_dir (vw_staging v).

Lemma plain_dir_removable n : plain_dir n → removable n.
Proof. by destruct n as [[]|]. Qed.
Lemma plain_file_removable n : plain_file n → removable n.
Proof. by destruct n as [[]|]. Qed.

Lemma read_file_node content : read_optional_file (file_node content) = Ok content.
Proof. by destruct content. Qed.

Lemma read_plain n : plain_file n → ∃ content, n = file_node content.
Proof. destruct n as [[content| | |]|]; try done; [by exists (Some content)|by exists None]. Qed.

Lemma had_current_plain n : plain_dir n → had_current_of n = Ok (is_dir n).
Proof. by destruct n as [[]|]. Qed.

Context (e : CachePromotionJournalEntryV1) (Hj : journaled e) (t0 : node).
Let d : path := entry_path {| ck_digest := je_key_digest e |}.
Abbreviation L := (local d t0).

Lemma key_of_entry : journal_key e = Ok {| ck_digest := je_key_digest e |}.
Proof. unfold journal_key. pose proof (jd_key e Hj) as Hk. by destruct (validated_digest_hex _). Qed.

(** [current_generation_is_complete] on the three places. *)
Definition complete_in (data marker manifest : option node) : result CacheError bool :=
  present ← had_current_of data;
  if negb present then Ok false else
  marker_bytes ← read_optional_file marker;
  if negb (bool_decide (marker_bytes = Some COMPLETE_BYTES)) then Ok false else
  manifest_bytes ← read_optional_file manifest;
  match manifest_bytes with
  | None => Ok false
  | Some manifest_bytes =>
    manifest ← parse_manifest manifest_bytes;
    Ok (manifest_is manifest (je_key_digest e) (je_plan_digest e) (je_generation e) "complete")
  end.

Lemma runs_complete (p : btmap string node → Prop) b :
  (∀ es, p es → complete_in (map_get DATA_DIR es) (map_get COMPLETE_FILE es) (map_get GENERATION_MANIFEST_FILE es) = Ok b) →
  runs (L p) (current_generation_is_complete (d ++ [DATA_DIR]) (d ++ [COMPLETE_FILE]) (d ++ [GENERATION_MANIFEST_FILE]) e)
    (λ x t, x = b ∧ L p t).
Proof.
  intros Hb. apply runs_look. intros t Ht. pose proof Ht as (Ho & es & Hg & Hp). exists b. split; [|done].
  rewrite !(child_in _ _ _ _ Hg). by apply Hb.
Qed.

Lemma complete_in_missing marker manifest : complete_in None marker manifest = Ok false.
Proof. done. Qed.

Lemma complete_in_unmarked data marker manifest :
  plain_dir data → plain_file marker → marker ≠ complete_marker → complete_in data marker manifest = Ok false.
Proof.
  intros Hd Hm Hn. unfold complete_in. rewrite had_current_plain by done. cbn.
  destruct (is_dir data); [|done]. cbn. destruct (read_plain _ Hm) as [content ->]. rewrite read_file_node. cbn.
  rewrite bool_decide_eq_false_2; [done|]. intros ->. by apply Hn.
Qed.

Lemma complete_in_new data marker manifest :
  new_readable → is_dir data = true → marker = complete_marker → complete_manifest P manifest →
  complete_in data marker manifest = Ok true.
Proof.
  intros Hr Hd -> (b & Hb & ->). unfold complete_in. rewrite had_current_plain, Hd by (by destruct data as [[]|]).
  cbn. unfold parse_manifest. rewrite (Hr b Hb). cbn. by rewrite (jd_complete e Hj).
Qed.

Lemma complete_in_old :
  old_readable → plain_dir (pr_data P) → ∃ b, complete_in (pr_data P) (file_node (pr_marker P)) (file_node (pr_manifest P)) = Ok b.
Proof.
  intros Hr Hd. unfold complete_in. rewrite had_current_plain by done. rewrite !read_file_node.
  destruct (is_dir (pr_data P)); [|by eexists]. cbn -[COMPLETE_BYTES].
  destruct (decide (pr_marker P = Some COMPLETE_BYTES)) as [Em|Em]; [|rewrite bool_decide_eq_false_2 by done; by eexists].
  rewrite bool_decide_eq_true_2 by done. specialize (Hr Em). destruct (pr_manifest P) as [b|]; [|by eexists].
  unfold parse_manifest. destruct Hr as [m ->]. by eexists.
Qed.

Ltac holds_step :=
  destruct (names_distinct P Hok) as (N1 & N2 & N3 & N4 & N5 & N6 & N7);
  unfold holds; cbn [view_of vw_data vw_marker vw_manifest vw_backup vw_staging];
  get_children.

Lemma drop_data D M G B :
  plain_dir D → runs (L (holds D M G B)) (remove_if_present (d ++ [DATA_DIR])) (λ _, L (holds None M G B)).
Proof.
  intros HD. apply runs_remove_if_present. intros es (H1 & H2 & H3 & H4 & H5). cbn in *. split.
  - rewrite H1. by apply plain_dir_removable.
  - holds_step. split_and!; done.
Qed.

Lemma drop_marker D M G B :
  plain_file M → runs (L (holds D M G B)) (remove_if_present (d ++ [COMPLETE_FILE])) (λ _, L (holds D None G B)).
Proof.
  intros HD. apply runs_remove_if_present. intros es (H1 & H2 & H3 & H4 & H5). cbn in *. split.
  - rewrite H2. by apply plain_file_removable.
  - holds_step. split_and!; done.
Qed.

Lemma drop_manifest D M G B :
  plain_file G → runs (L (holds D M G B)) (remove_if_present (d ++ [GENERATION_MANIFEST_FILE])) (λ _, L (holds D M None B)).
Proof.
  intros HD. apply runs_remove_if_present. intros es (H1 & H2 & H3 & H4 & H5). cbn in *. split.
  - rewrite H3. by apply plain_file_removable.
  - holds_step. split_and!; done.
Qed.

Lemma drop_backup D M G B :
  plain_dir B → runs (L (holds D M G B)) (remove_if_present (d ++ [pr_backup P])) (λ _, L (holds D M G None)).
Proof.
  intros HD. apply runs_remove_if_present. intros es (H1 & H2 & H3 & H4 & H5). cbn in *. split.
  - rewrite H4. by apply plain_dir_removable.
  - holds_step. split_and!; done.
Qed.

Lemma drop_staging D M G B :
  runs (L (holds D M G B)) (remove_if_present (d ++ [pr_staging P]))
    (λ _, L (λ es, holds D M G B es ∧ map_get (pr_staging P) es = None)).
Proof.
  apply runs_remove_if_present. intros es (H1 & H2 & H3 & H4 & H5). cbn in *. split.
  - by apply plain_dir_removable.
  - holds_step. split_and!; done.
Qed.

(** The entry after [recover_one]. *)
Definition settled (v : view) : Prop := settled_new v ∨ settled_old v.

Lemma recover_unfold w :
  recover_one e w =
  (complete ← current_generation_is_complete (d ++ [DATA_DIR]) (d ++ [COMPLETE_FILE]) (d ++ [GENERATION_MANIFEST_FILE]) e;
   if complete : bool then
     _ ← remove_if_present (d ++ [pr_backup P]);
     remove_if_present (d ++ [pr_staging P])
   else
     backup_exists ← exists_path (d ++ [pr_backup P]);
     if pr_had P then
       if backup_exists : bool then
         _ ← remove_if_present (d ++ [DATA_DIR]);
         _ ← remove_if_present (d ++ [COMPLETE_FILE]);
         _ ← remove_if_present (d ++ [GENERATION_MANIFEST_FILE]);
         _ ← fs_map_err CacheIo (rename_path (d ++ [pr_backup P]) (d ++ [DATA_DIR]));
         _ ← restore_optional_file (d ++ [GENERATION_MANIFEST_FILE]) (pr_manifest P);
         _ ← restore_optional_file (d ++ [COMPLETE_FILE]) (pr_marker P);
         remove_if_present (d ++ [pr_staging P])
       else
         matches ← current_matches_previous (d ++ [DATA_DIR]) (d ++ [COMPLETE_FILE]) (d ++ [GENERATION_MANIFEST_FILE]) e;
         if matches : bool then remove_if_present (d ++ [pr_staging P]) else fs_lift (Err PromotionUncertain)
     else
       current_exists ← exists_path (d ++ [DATA_DIR]);
       if negb backup_exists && negb current_exists then
         _ ← remove_if_present (d ++ [COMPLETE_FILE]);
         _ ← remove_if_present (d ++ [GENERATION_MANIFEST_FILE]);
         remove_if_present (d ++ [pr_staging P])
       else fs_lift (Err PromotionUncertain)) w.
Proof.
  unfold recover_one. rewrite key_of_entry. rewrite (jd_backup e Hj), (jd_staging e Hj), (jd_had e Hj), (jd_marker e Hj), (jd_manifest e Hj).
  reflexivity.
Qed.

Lemma recover_new : new_readable → runs (L (in_view P (new_view P))) (recover_one e) (λ _, L (in_view P settled_new)).
Proof.
  intros Hr. eapply runs_ext; [apply recover_unfold|].
  eapply (runs_bind_value _ _ true (L (in_view P (new_view P)))).
  { apply runs_complete. intros es (H1 & H2 & H3 & _). apply complete_in_new; [done| |done..]. cbn in H1. by rewrite H1. }
  cbv beta iota. eapply (runs_bind _ _ (λ _, L (λ es, ∃ G, complete_manifest P G ∧ holds (Some (Dir (pr_payload P))) complete_marker G None es))).
  - apply runs_remove_if_present. intros es (H1 & H2 & H3 & H4 & H5). cbn in *. split.
    + by apply plain_dir_removable.
    + exists (map_get GENERATION_MANIFEST_FILE es). split; [done|]. holds_step. split_and!; done.
  - intros []. apply runs_remove_if_present. intros es (G & HG & H1 & H2 & H3 & H4 & H5). cbn in *. split.
    + by apply plain_dir_removable.
    + unfold in_view, settled_new. holds_step. split_and!; try done. by rewrite H3.
Qed.

Lemma L_eq (p p' : btmap string node → Prop) : (∀ es, p es → p' es) → ∀ t, L p t → L p' t.
Proof. intros Hp t Ht. by eapply local_conseq. Qed.

Lemma recover_moved : runs (L (in_view P (moved_view P))) (recover_one e) (λ _, L (in_view P settled_old)).
Proof.
  eapply runs_ext; [apply recover_unfold|].
  eapply (runs_bind_value _ _ false (L (in_view P (moved_view P)))).
  { apply runs_complete. intros es (_ & _ & H3 & H4 & _ & _ & Hd). cbn in *.
    destruct Hd as [->|Hd]; [done|by apply complete_in_unmarked]. }
  cbv beta iota. eapply (runs_bind_value _ _ true (L (in_view P (moved_view P)))).
  { apply runs_exists. intros es (Hh & Hb & _). cbn in Hb. rewrite Hb.
    pose proof (pk_had P Hok) as Hi. rewrite Hh in Hi. by destruct (pr_data P) as [[]|]. }
  cbv beta iota.
  apply runs_each. intros t (Ho & es & Hg & Hh & Hb & H3 & H4 & H5 & H6 & _). rewrite Hh.
  pose proof (pk_had P Hok) as Hi. rewrite Hh in Hi.
  assert (Hl : L (holds (map_get DATA_DIR es) (map_get COMPLETE_FILE es) (map_get GENERATION_MANIFEST_FILE es) (pr_data P)) t).
  { split; [done|]. exists es. split; [done|]. by split_and!. }
  cbn in H3, H4, H5. eapply runs_conseq; [|by intros ? ->; exact Hl|intros x t' Ht; exact Ht].
  eapply runs_bind; [by apply drop_data|]. intros [].
  eapply runs_bind; [by apply drop_marker|]. intros [].
  eapply runs_bind; [by apply drop_manifest|]. intros [].
  eapply (runs_bind _ _ (λ _, L (holds (pr_data P) None None None))).
  { apply runs_rename. intros es' (J1 & J2 & J3 & J4 & J5). cbn in *. destruct (pr_data P) as [n|]; [|done].
    exists n. split_and!; [done..|]. holds_step. split_and!; done. }
  intros []. eapply (runs_bind _ _ (λ _, L (holds (pr_data P) None (file_node (pr_manifest P)) None))).
  { apply runs_restore. intros es' (J1 & J2 & J3 & J4 & J5). cbn in *. split; [done|]. holds_step. split_and!; done. }
  intros []. eapply (runs_bind _ _ (λ _, L (holds (pr_data P) (file_node (pr_marker P)) (file_node (pr_manifest P)) None))).
  { apply runs_restore. intros es' (J1 & J2 & J3 & J4 & J5). cbn in *. split; [done|]. holds_step. split_and!; done. }
  intros []. eapply runs_conseq; [apply drop_staging|done|]. intros [] t1 Ht. eapply L_eq; [|exact Ht].
  intros es' [(J1 & J2 & J3 & J4 & J5) J6]. unfold in_view, settled_old. rewrite Hh. split_and!; done.
Qed.

Lemma recover_old :
  old_readable → runs (L (in_view P (old_view P))) (recover_one e) (λ _, L (in_view P settled_old)).
Proof.
  intros Hr. eapply runs_ext; [apply recover_unfold|]. pose proof (pk_plain P Hok) as Hpl. pose proof (pk_had P Hok) as Hh.
  destruct (complete_in_old Hr Hpl) as [b Hb].
  assert (Hdone : pr_had P = true → runs (L (holds (pr_data P) (file_node (pr_marker P)) (file_node (pr_manifest P)) None))
            (remove_if_present (d ++ [pr_staging P])) (λ _, L (in_view P settled_old))).
  { intros Eh. eapply runs_conseq; [apply drop_staging|done|]. intros [] t1 Ht. eapply L_eq; [|exact Ht].
    intros es' [(J1 & J2 & J3 & J4 & J5) J6]. unfold in_view, settled_old. rewrite Eh. by split_and!. }
  assert (Hw : ∀ es, in_view P (old_view P) es →
                 holds (pr_data P) (file_node (pr_marker P)) (file_node (pr_manifest P)) None es).
  { intros es (H1 & H2 & H3 & H4 & H5). unfold holds. by split_and!. }
  eapply (runs_conseq _ _ _ _ (λ _, L (in_view P settled_old))); [|by apply L_eq, Hw|done].
  eapply (runs_bind_value _ _ b).
  { apply runs_complete. intros es (J1 & J2 & J3 & J4 & J5). cbn in *. by rewrite J1, J2, J3. }
  destruct b.
  - assert (Eh : pr_had P = true).
    { rewrite <-Hh. destruct (pr_data P) as [[]|]; try done. }
    eapply runs_bind; [by apply drop_backup|]. intros []. by apply Hdone.
  - eapply (runs_bind_value _ _ false).
    { apply runs_exists. intros es (J1 & J2 & J3 & J4 & J5). cbn in *. by rewrite J4. }
    destruct (pr_had P) eqn:Eh.
    + eapply (runs_bind_value _ _ true); [|by apply Hdone].
      apply runs_look. intros t Ht. pose proof Ht as (Ho & es & Hg & J1 & J2 & J3 & J4 & J5). cbn in J1, J2, J3.
      exists true. split; [|done]. rewrite !(child_in _ _ _ _ Hg), J1, J2, J3, had_current_plain, !read_file_node, Hh by done.
      cbn. rewrite (jd_marker e Hj), (jd_manifest e Hj), !bool_decide_eq_true_2 by done. done.
    + assert (Hn : pr_data P = None) by (by destruct (pr_data P) as [[]|]). rewrite Hn.
      eapply (runs_bind_value _ _ false).
      { apply runs_exists. intros es (J1 & J2 & J3 & J4 & J5). cbn in *. by rewrite J1. }
      cbn [negb andb]. eapply runs_bind; [apply drop_marker, file_node_plain|]. intros [].
      eapply runs_bind; [apply drop_manifest, file_node_plain|]. intros [].
      eapply runs_conseq; [apply drop_staging|done|]. intros [] t1 Ht. eapply L_eq; [|exact Ht].
      intros es' [(J1 & J2 & J3 & J4 & J5) J6]. unfold in_view, settled_old. rewrite Eh. by split_and!.
Qed.

Lemma recover_absent : runs (L (in_view P (absent_view P))) (recover_one e) (λ _, L (in_view P settled_old)).
Proof.
  eapply runs_ext; [apply recover_unfold|].
  apply runs_each. intros t (Ho & es & Hg & Hh & H1 & H2 & H3 & H4 & H5). cbn in H1, H2, H3, H4. rewrite Hh.
  assert (Hl : L (holds None (map_get COMPLETE_FILE es) (map_get GENERATION_MANIFEST_FILE es) None) t).
  { split; [done|]. exists es. split; [done|]. by split_and!. }
  eapply (runs_conseq _ _ _ _ (λ _, L (in_view P settled_old))); [|by intros ? ->; exact Hl|done].
  eapply (runs_bind_value _ _ false).
  { apply runs_complete. intros es' (J1 & _). cbn in *. by rewrite J1. }
  eapply (runs_bind_value _ _ false).
  { apply runs_exists. intros es' (J1 & J2 & J3 & J4 & J5). cbn in *. by rewrite J4. }
  eapply (runs_bind_value _ _ false).
  { apply runs_exists. intros es' (J1 & J2 & J3 & J4 & J5). cbn in *. by rewrite J1. }
  cbn [negb andb]. eapply runs_bind; [by apply drop_marker|]. intros [].
  eapply runs_bind; [by apply drop_manifest|]. intros [].
  eapply runs_conseq; [apply drop_staging|done|]. intros [] t1 Ht. eapply L_eq; [|exact Ht].
  intros es' [(J1 & J2 & J3 & J4 & J5) J6]. unfold in_view, settled_old. rewrite Hh. by split_and!.
Qed.

(** A new payload without its marker, where there was none before, is not recovered. *)
Lemma recover_stuck : refuses (L (in_view P (stuck_view P))) (recover_one e) PromotionUncertain.
Proof.
  intros w Hw (Ho & es & Hg & Hh & H1 & H2 & H3 & H4 & H5 & H6). cbn in H1, H2, H3, H4, H5. exists w. split_and!; try done.
  rewrite recover_unfold. unfold current_generation_is_complete, exists_path, mbind, fs_bind, look. rewrite Hh.
  rewrite !(child_in _ _ _ _ Hg). pose proof (complete_in_unmarked (map_get DATA_DIR es) _ (map_get GENERATION_MANIFEST_FILE es)
    ltac:(by rewrite H1) H4 H3) as Hc. unfold complete_in, mbind in Hc. rewrite Hc. cbn [of_result].
  by rewrite !(child_in _ _ _ _ Hg), H1, H2.
Qed.
End Recover.
