(* ===== verification/CachePromotion.v ===== *)
(** A promotion of several entries ([Cache.v]), wherever it is left, and its recovery.

    A slot is a prepared entry with its journal entry and the [promotion] that they
    stand for.  [everywhere] says what each slot's directory holds and that the rest
    of the tree is that of the start. *)
From S2P Require Import Prelude.
From S2P Require Import RustStr.
From S2P Require Import BTree.
From S2P Require Import Canonical.
From S2P Require Import Durable.
From S2P Require Import FileSystem.
From S2P Require Import CachePayload.
From S2P Require Import CacheRoot.
From S2P Require Import Cache.
From S2P Require Import CacheProps.
Local Open Scope Z_scope.

(** * Several directories *)

Abbreviation place := (path * (btmap string node → Prop))%type.

Definition everywhere (t0 : node) (l : list place) (t : node) : Prop :=
  (∀ q, Forall (λ x, apart x.1 q) l → tree_get q t = tree_get q t0) ∧
  Forall (λ x, ∃ es, tree_get x.1 t = Some (Dir es) ∧ x.2 es) l.

(** The directories are apart from each other. *)
Fixpoint separate (l : list path) : Prop :=
  match l with
  | [] => True
  | d :: l => Forall (apart d) l ∧ separate l
  end.

Lemma separate_middle pre d post :
  separate (pre ++ d :: post) → Forall (λ d', apart d d') pre ∧ Forall (apart d) post.
Proof.
  induction pre as [|d' pre IH]; cbn; [by intros [? ?]|]. intros [Hd Hs]. destruct (IH Hs) as [Hp Hq].
  split; [|done]. constructor; [|done]. apply apart_sym.
  apply Forall_app in Hd as [_ Hd]. by apply Forall_cons in Hd as [Hd _].
Qed.

Lemma everywhere_local t0 pre d p post t :
  everywhere t0 (pre ++ (d, p) :: post) t → local d t p t.
Proof.
  intros [_ Hl]. apply Forall_app in Hl as [_ Hl]. apply Forall_cons in Hl as [(es & Hg & Hp) _].
  split; [apply outside_refl|]. by exists es.
Qed.

Lemma local_everywhere t0 pre d p q post t t' :
  separate (pre.*1 ++ d :: post.*1) → everywhere t0 (pre ++ (d, p) :: post) t → local d t q t' →
  everywhere t0 (pre ++ (d, q) :: post) t'.
Proof.
  intros Hs [Hf Hl] (Ho & es & Hg & Hq). apply separate_middle in Hs as [Hpre Hpost].
  apply Forall_app in Hl as [Hl1 Hl2]. apply Forall_cons in Hl2 as [_ Hl2]. split.
  - intros x Hx. apply Forall_app in Hx as [Hx1 Hx2]. apply Forall_cons in Hx2 as [Hx Hx2]. cbn in Hx.
    rewrite (Ho x Hx). apply Hf. apply Forall_app. split; [done|]. by constructor.
  - rewrite Forall_fmap in Hpre, Hpost. apply Forall_app. split; [|constructor; [by exists es|]].
    + rewrite Forall_forall in *. intros x Hx. destruct (Hl1 x Hx) as (es' & Hg' & Hp'). exists es'.
      by rewrite (Ho x.1 (Hpre x Hx)).
    + rewrite Forall_forall in *. intros x Hx. destruct (Hl2 x Hx) as (es' & Hg' & Hp'). exists es'.
      by rewrite (Ho x.1 (Hpost x Hx)).
Qed.

Lemma everywhere_weaken t0 l l' t :
  everywhere t0 l t → Forall2 (λ x y, x.1 = y.1 ∧ ∀ es, x.2 es → y.2 es) l l' → everywhere t0 l' t.
Proof.
  intros [Hf Hl] Hll. split.
  - intros q Hq. apply Hf. clear Hf Hl. induction Hll as [|x y l l' [Hxy _] _ IH]; [done|].
    apply Forall_cons in Hq as [Hq1 Hq2]. constructor; [by rewrite Hxy|by apply IH].
  - clear Hf. induction Hll as [|x y l l' [Hxy Hi] _ IH]; [done|]. apply Forall_cons in Hl as [(es & Hg & Hx) Hl].
    constructor; [|by apply IH]. exists es. rewrite <-Hxy. auto.
Qed.

(** What holds of a program in one directory holds of it among several. *)
Lemma triple_among {A} t0 pre d (m : fs CacheError A) p q c post :
  separate (pre.*1 ++ d :: post.*1) →
  (∀ t1, crash_triple (local d t1 p) m (λ _, local d t1 q) (local d t1 c)) →
  crash_triple (everywhere t0 (pre ++ (d, p) :: post)) m
    (λ _, everywhere t0 (pre ++ (d, q) :: post)) (everywhere t0 (pre ++ (d, c) :: post)).
Proof.
  intros Hs Hm w Hw. specialize (Hm _ w (everywhere_local _ _ _ _ _ _ Hw)).
  destruct (m w) as [[x|e|] w']; by eapply local_everywhere.
Qed.

Lemma runs_among {A} t0 pre d (m : fs CacheError A) p q post :
  separate (pre.*1 ++ d :: post.*1) →
  (∀ t1, runs (local d t1 p) m (λ _, local d t1 q)) →
  runs (everywhere t0 (pre ++ (d, p) :: post)) m (λ _, everywhere t0 (pre ++ (d, q) :: post)).
Proof.
  intros Hs Hm w Hq Hw. destruct (Hm _ w Hq (everywhere_local _ _ _ _ _ _ Hw)) as (x & w' & E' & Hq' & Hl' & Hx).
  exists x, w'. split_and!; [done..|]. by eapply local_everywhere.
Qed.

(** An entry of the directory that the program leaves alone. *)
Definition with_child (k : string) (S : option node → Prop) (p : btmap string node → Prop) (es : btmap string node) : Prop :=
  p es ∧ S (map_get k es).

Lemma triple_with_child {A} d t1 k (S : option node → Prop) ps (m : fs CacheError A) p q c :
  crash_triple (local d t1 p) m (λ _, local d t1 q) (local d t1 c) →
  keeps ps m → Forall (λ p, apart p (d ++ [k])) ps →
  crash_triple (local d t1 (with_child k S p)) m (λ _, local d t1 (with_child k S q)) (local d t1 (with_child k S c)).
Proof.
  intros Hm Hk Ha w (Ho & es & Hg & Hp & Hs).
  assert (Hc : ∀ r, local d t1 r (w_tree (m w).2) → local d t1 (with_child k S r) (w_tree (m w).2)).
  { intros r (Ho' & es' & Hg' & Hr). split; [done|]. exists es'. split; [done|]. split; [done|].
    specialize (Hk w _ Ha). by rewrite (child_in _ _ _ _ Hg), (child_in _ _ _ _ Hg') in Hk; rewrite Hk. }
  assert (Hl : local d t1 p (w_tree w)) by (split; [done|by exists es]).
  specialize (Hm w Hl). destruct (m w) as [[x|e|] w']; by apply Hc.
Qed.

(** * The loop of a promotion *)

Record slot : Type := {
  sl_prepared : PreparedCacheEntry;
  sl_entry : CachePromotionJournalEntryV1;
  sl_promotion : promotion;
}.

Section Promotion.
Context `{Backend, CacheParser} (c : CacheProcess).

Definition slot_path (s : slot) : path := entry_path {| ck_digest := je_key_digest (sl_entry s) |}.

(** A slot that [create_promotion_journal] has journaled. *)
Record slot_ok (s : slot) : Prop := {
  so_promotion : promotion_ok (sl_promotion s);
  so_journaled : journaled (sl_promotion s) (sl_entry s);
  so_described : described (sl_promotion s) (slot_path s) (sl_prepared s) (sl_entry s);
  so_old : old_readable (sl_promotion s);
  so_new : new_readable (sl_promotion s);
}.

(** The lock file of an entry is a file or not there. *)
Abbreviation lockable := (with_child ENTRY_LOCK_FILE plain_file).

Definition slot_in (V : promotion → view → Prop) (s : slot) : place :=
  (slot_path s, lockable (in_view (sl_promotion s) (V (sl_promotion s)))).
Definition slot_staged (s : slot) : place := (slot_path s, lockable (staged (sl_promotion s))).

Definition pair_of (s : slot) : PreparedCacheEntry * CachePromotionJournalEntryV1 := (sl_prepared s, sl_entry s).

(** The paths that the promotion of an entry and its end touch. *)
Definition slot_places (s : slot) : list path :=
  (λ k, slot_path s ++ [k]) <$>
    [DATA_DIR; COMPLETE_FILE; GENERATION_MANIFEST_FILE; pr_backup (sl_promotion s); pr_staging (sl_promotion s)].

Lemma slot_places_apart s k :
  k ∉ [DATA_DIR; COMPLETE_FILE; GENERATION_MANIFEST_FILE; pr_backup (sl_promotion s); pr_staging (sl_promotion s)] →
  Forall (λ p, apart p (slot_path s ++ [k])) (slot_places s).
Proof.
  intros Hk. unfold slot_places. rewrite Forall_fmap. apply Forall_forall. intros x Hx. cbn -[slot_path].
  apply apart_siblings. by intros ->.
Qed.

Lemma lock_apart s : promotion_ok (sl_promotion s) → Forall (λ p, apart p (slot_path s ++ [ENTRY_LOCK_FILE])) (slot_places s).
Proof.
  intros [Hb Hs _ _]. apply slot_places_apart. rewrite !elem_of_cons, elem_of_nil.
  intros [|[|[|[E|[E|[]]]]]]; [done..| |]; [by rewrite <-E in Hb|by rewrite <-E in Hs].
Qed.

Lemma covered_place s k q :
  k ∈ [DATA_DIR; COMPLETE_FILE; GENERATION_MANIFEST_FILE; pr_backup (sl_promotion s); pr_staging (sl_promotion s)] →
  covered (slot_places s) (slot_path s ++ k :: q).
Proof.
  intros Hk. exists (slot_path s ++ [k]), q. rewrite <-app_assoc. split; [|done].
  apply list_elem_of_fmap. by exists k.
Qed.

Lemma keeps_remove_if_present ps p : covered ps p → keeps ps (remove_if_present p).
Proof. intros Hp. unfold remove_if_present. apply keeps_fs_bind; [auto with keeps|]. intros [[]|]; auto with keeps. Qed.

Lemma keeps_write_new_file ps p parts : covered ps p → keeps ps (write_new_file p parts).
Proof.
  intros Hp. unfold write_new_file. apply keeps_map_err, keeps_fs_bind; [auto with keeps|]. intros _.
  apply keeps_fs_bind; [apply keeps_each; auto with keeps|]. intros _. apply keeps_sync_all.
Qed.

Lemma keeps_validate_plain_directory ps p : keeps ps (validate_plain_directory p).
Proof. apply keeps_look. Qed.

Lemma keeps_journal_step ps st p : keeps ps (journal_step c st p).
Proof.
  destruct st as [paths entries]. unfold journal_step, validate_prepared_entry.
  repeat first [apply keeps_fs_bind; [|intros ?] | apply keeps_fs_lift | apply keeps_look | apply keeps_fs_ret
               | by apply keeps_same_tree].
Qed.

(** Until the journal is written only its file changes. *)
Lemma keeps_create_journal prepared : keeps [[PROMOTION_JOURNAL_FILE]] (create_promotion_journal c prepared).
Proof.
  unfold create_promotion_journal, write_promotion_journal.
  apply keeps_fs_bind; [apply keeps_fold; intros; apply keeps_journal_step|]. intros [paths entries].
  apply keeps_fs_bind; [by apply keeps_same_tree|]. intros sequence. cbv zeta.
  apply keeps_fs_bind; [|intros ?; apply keeps_fs_ret].
  apply keeps_fs_bind; [apply keeps_fs_lift|]. intros b. apply keeps_write_new_file, covered_in, list_elem_of_here.
Qed.

Lemma keeps_remove_temporary ps p : covered ps p → keeps ps (remove_temporary p).
Proof. intros Hp. unfold remove_temporary. apply keeps_fs_bind; [apply keeps_look|]. intros []; auto with keeps. Qed.

Lemma keeps_manifest_replacing ps d m :
  covered ps (d ++ [GENERATION_MANIFEST_FILE]) → (∀ x, covered ps (d ++ [x])) →
  keeps ps (write_generation_manifest_replacing c (d ++ [GENERATION_MANIFEST_FILE]) m).
Proof.
  intros Hm Hx. unfold write_generation_manifest_replacing. apply keeps_fs_bind; [apply keeps_fs_lift|]. intros b.
  rewrite parent_snoc. destruct (cpr_unix c).
  - unfold replace_file. rewrite parent_snoc. apply keeps_fs_bind; [apply keeps_look|]. intros _.
    apply keeps_fs_bind; [by apply keeps_same_tree|]. intros n. fold (remove_temporary (d ++ [numbered c TEMPORARY_PREFIX n])).
    apply keeps_fs_bind; [|intros _; by apply keeps_remove_temporary]. apply keeps_catch.
    + apply keeps_fs_bind; [by apply keeps_write_new_file|]. intros _.
      apply keeps_fs_bind; [auto with keeps|]. intros _. apply keeps_map_err, keeps_sync_all.
    + intros e. apply keeps_fs_bind; [by apply keeps_remove_temporary|]. intros _. apply keeps_fs_lift.
  - apply keeps_fs_bind; [by apply keeps_remove_if_present|]. intros _. apply keeps_fs_bind; [|intros _; apply keeps_fs_lift].
    apply keeps_fs_bind; [apply keeps_fs_lift|]. intros b'. by apply keeps_write_new_file.
Qed.

Lemma keeps_promote_one s : slot_ok s → keeps (slot_places s) (promote_one c (pair_of s)).
Proof.
  intros Hs. destruct (so_described s Hs) as [E1 E2 E3 E4 E5]. unfold promote_one, pair_of. rewrite E1, E2, E3, E4, E5.
  assert (Hst : ∀ x, covered (slot_places s) ((slot_path s ++ [pr_staging (sl_promotion s)]) ++ [x])).
  { intros x. rewrite <-app_assoc. apply covered_place. set_solver. }
  apply keeps_fs_bind; [apply keeps_look|]. intros m.
  apply keeps_fs_bind; [by apply keeps_manifest_replacing|]. intros _.
  apply keeps_fs_bind; [destruct (pr_had _); [|apply keeps_fs_ret]; apply keeps_map_err, keeps_rename_path; apply covered_place; set_solver|].
  intros _. apply keeps_fs_bind; [apply keeps_remove_if_present, covered_place; set_solver|].
  intros _. apply keeps_fs_bind; [apply keeps_remove_if_present, covered_place; set_solver|].
  intros _. apply keeps_fs_bind; [apply keeps_map_err, keeps_rename_path; apply covered_place; set_solver|].
  intros _. apply keeps_fs_bind; [apply keeps_map_err, keeps_rename_path; [done|apply covered_place; set_solver]|].
  intros _. apply keeps_fs_bind; [apply keeps_write_new_file, covered_place; set_solver|].
  intros _. by apply keeps_same_tree.
Qed.

Lemma promote_slot s t1 :
  slot_ok s →
  crash_triple (local (slot_path s) t1 (slot_staged s).2) (promote_one c (pair_of s))
    (λ _, local (slot_path s) t1 (slot_in new_view s).2) (local (slot_path s) t1 (slot_in left_view s).2).
Proof.
  intros Hs. eapply triple_with_child; [|by apply keeps_promote_one|by apply lock_apart, so_promotion].
  apply promote_one_triple; [by apply so_promotion|by apply so_described].
Qed.

(** A promotion that was left: the slots before one are promoted, those after it untouched. *)
Definition left_at (t0 : node) (slots : list slot) (t : node) : Prop :=
  ∃ pre s post, slots = pre ++ s :: post ∧
    everywhere t0 ((slot_in new_view <$> pre) ++ slot_in left_view s :: (slot_staged <$> post)) t.

Lemma slot_paths_new pre V : (slot_in V <$> pre).*1 = slot_path <$> pre.
Proof. by rewrite <-list_fmap_compose. Qed.
Lemma slot_paths_staged pre : (slot_staged <$> pre).*1 = slot_path <$> pre.
Proof. by rewrite <-list_fmap_compose. Qed.

Lemma execute_triple t0 slots :
  separate (slot_path <$> slots) → Forall slot_ok slots → slots ≠ [] →
  crash_triple (everywhere t0 (slot_staged <$> slots)) (fs_each (promote_one c) (pair_of <$> slots))
    (λ _, everywhere t0 (slot_in new_view <$> slots)) (left_at t0 slots).
Proof.
  intros Hsep Hok Hne.
  assert (G : ∀ pre post, slots = pre ++ post →
    crash_triple (everywhere t0 ((slot_in new_view <$> pre) ++ (slot_staged <$> post))) (fs_each (promote_one c) (pair_of <$> post))
      (λ _, everywhere t0 (slot_in new_view <$> slots)) (left_at t0 slots)); [|by apply (G [])].
  intros pre post. revert pre. induction post as [|s post IH]; intros pre E.
  - cbn. rewrite app_nil_r in *. subst. apply (triple_ret () (λ _, everywhere t0 (slot_in new_view <$> pre))).
  - cbn [fmap list_fmap fs_each].
    apply (triple_bind _ _ (λ _, everywhere t0 ((slot_in new_view <$> pre) ++ slot_in new_view s :: (slot_staged <$> post)))).
    + eapply triple_conseq; [apply (triple_among t0 (slot_in new_view <$> pre) (slot_path s) _ (slot_staged s).2 (slot_in new_view s).2 (slot_in left_view s).2 (slot_staged <$> post))|done| |].
      * rewrite slot_paths_new, slot_paths_staged. subst. by rewrite fmap_app in Hsep.
      * intros t1. apply promote_slot. subst. apply Forall_app in Hok as [_ Hok]. by apply Forall_cons in Hok as [? _].
      * intros [] t Ht. exact Ht.
      * intros t Ht. by exists pre, s, post.
    + intros []. specialize (IH (pre ++ [s])). rewrite fmap_app, <-!app_assoc in IH. by apply IH.
Qed.

(** * Finalization *)

Lemma finalize_slot s t1 :
  slot_ok s →
  crash_triple (local (slot_path s) t1 (slot_in new_view s).2) (finalize_one (sl_entry s))
    (λ _, local (slot_path s) t1 (slot_in settled_new s).2) (local (slot_path s) t1 (slot_in new_view s).2).
Proof.
  intros Hs. pose proof (so_promotion s Hs) as Hok. pose proof (so_journaled s Hs) as Hj.
  unfold finalize_one. rewrite (key_of_entry _ _ Hj), (jd_backup _ _ Hj), (jd_staging _ _ Hj).
  fold (slot_path s).
  enough (Hbody : crash_triple (local (slot_path s) t1 (slot_in new_view s).2)
    (_ ← validate_plain_directory (slot_path s); _ ← remove_if_present (slot_path s ++ [pr_backup (sl_promotion s)]);
     remove_if_present (slot_path s ++ [pr_staging (sl_promotion s)]))
    (λ _, local (slot_path s) t1 (slot_in settled_new s).2) (local (slot_path s) t1 (slot_in new_view s).2)) by exact Hbody.
  eapply triple_with_child with (ps := slot_places s); [| |by apply lock_apart].
  - destruct (names_distinct (sl_promotion s) Hok) as (N1 & N2 & N3 & N4 & N5 & N6 & N7).
    eapply (triple_bind _ _ (λ _, local (slot_path s) t1 (in_view (sl_promotion s) (new_view (sl_promotion s))))).
    { apply triple_look. intros t Ht. by destruct (check_plain_directory _). }
    intros []. eapply (triple_bind _ _ (λ _, local (slot_path s) t1 (λ es, in_view (sl_promotion s) (new_view (sl_promotion s)) es ∧ map_get (pr_backup (sl_promotion s)) es = None))).
    { apply triple_remove_if_present; [done|]. intros es Hv. pose proof Hv as (H1 & H2 & H3 & H4 & H5).
      unfold in_view, new_view. cbn -[map_get] in *.
      destruct (map_get (pr_backup (sl_promotion s)) es) as [[]|] eqn:E; try done; get_children; split_and!; try done.
      intros r. get_children. by split_and!. }
    intros []. apply triple_remove_if_present; [by intros es []|]. intros es [Hv Hn]. pose proof Hv as (H1 & H2 & H3 & H4 & H5).
    unfold in_view, new_view, settled_new. cbn -[map_get] in *.
    destruct (map_get (pr_staging (sl_promotion s)) es) as [[]|] eqn:E; try done; get_children; split_and!; try done.
    intros r. get_children. by split_and!.
  - apply keeps_fs_bind; [apply keeps_look|]. intros _. apply keeps_fs_bind; [apply keeps_remove_if_present, covered_place; set_solver|].
    intros _. apply keeps_remove_if_present, covered_place; set_solver.
Qed.

Lemma settled_new_view P v : settled_new P v → new_view P v.
Proof. intros (H1 & H2 & H3 & H4 & H5). split_and!; try done; by rewrite ?H4, ?H5. Qed.

Lemma slots_weaken (V V' : slot → place) t0 slots t :
  (∀ s, (V s).1 = (V' s).1 ∧ ∀ es, (V s).2 es → (V' s).2 es) →
  everywhere t0 (V <$> slots) t → everywhere t0 (V' <$> slots) t.
Proof.
  intros HV Ht. eapply everywhere_weaken; [done|]. apply Forall2_fmap, Forall_Forall2_diag, Forall_forall. auto.
Qed.

Lemma slot_in_weaken (V V' : promotion → view → Prop) s :
  (∀ P v, V P v → V' P v) → (slot_in V s).1 = (slot_in V' s).1 ∧ ∀ es, (slot_in V s).2 es → (slot_in V' s).2 es.
Proof. intros HV. split; [done|]. intros es [Hv Hl]. split; [by apply HV|done]. Qed.

Lemma finalize_triple t0 slots :
  separate (slot_path <$> slots) → Forall slot_ok slots →
  crash_triple (everywhere t0 (slot_in new_view <$> slots)) (fs_each finalize_one (sl_entry <$> slots))
    (λ _, everywhere t0 (slot_in settled_new <$> slots)) (everywhere t0 (slot_in new_view <$> slots)).
Proof.
  intros Hsep Hok.
  assert (Hmix : ∀ pre post t, everywhere t0 ((slot_in settled_new <$> pre) ++ (slot_in new_view <$> post)) t →
                   everywhere t0 (slot_in new_view <$> pre ++ post) t).
  { intros pre post t Ht. eapply everywhere_weaken; [done|]. rewrite fmap_app. apply Forall2_app.
    - apply Forall2_fmap, Forall_Forall2_diag, Forall_forall. intros s _. apply slot_in_weaken, settled_new_view.
    - by apply Forall_Forall2_diag, Forall_forall. }
  assert (G : ∀ pre post, slots = pre ++ post →
    crash_triple (everywhere t0 ((slot_in settled_new <$> pre) ++ (slot_in new_view <$> post))) (fs_each finalize_one (sl_entry <$> post))
      (λ _, everywhere t0 (slot_in settled_new <$> slots)) (everywhere t0 (slot_in new_view <$> slots))); [|by apply (G [])].
  intros pre post. revert pre. induction post as [|s post IH]; intros pre E.
  - cbn. rewrite app_nil_r in *. subst. apply (triple_ret () (λ _, everywhere t0 (slot_in settled_new <$> pre))).
  - cbn [fmap list_fmap fs_each].
    apply (triple_bind _ _ (λ _, everywhere t0 ((slot_in settled_new <$> pre) ++ slot_in settled_new s :: (slot_in new_view <$> post)))).
    + eapply triple_conseq; [apply (triple_among t0 (slot_in settled_new <$> pre) (slot_path s) _ (slot_in new_view s).2 (slot_in settled_new s).2 (slot_in new_view s).2 (slot_in new_view <$> post))|done| |].
      * rewrite !slot_paths_new. subst. by rewrite fmap_app in Hsep.
      * intros t1. apply finalize_slot. subst. apply Forall_app in Hok as [_ Hok]. by apply Forall_cons in Hok as [? _].
      * intros [] t Ht. exact Ht.
      * intros t Ht. subst. by apply (Hmix pre (s :: post)).
    + intros []. specialize (IH (pre ++ [s])). rewrite fmap_app, <-!app_assoc in IH. by apply IH.
Qed.

(** * Recovery *)

Lemma effect_then (act : node → result io_kind node) partial w t {A} (f : () → fs io_kind A) :
  quiet w → act (w_tree w) = Ok t → (effect act partial ≫= f) w = f () (set_tree t w).
Proof. intros Hq Ha. unfold mbind, fs_bind. by rewrite (effect_quiet _ _ _ _ Hq Ha). Qed.

(** The owner of a lock is written into a file that is there. *)
Lemma write_lock_owner d t1 k label (p : btmap string node → Prop) w :
  quiet w → local d t1 (λ es, p es ∧ ∃ content, map_get k es = Some (File content)) (w_tree w) →
  (∀ es content, p es → p (map_insert k (File content) es)) →
  ∃ t, (_ ← truncate_file (d ++ [k]); _ ← write_all (d ++ [k]) (lock_owner c label); sync_all) w = (Done (), set_tree t w) ∧
       local d t1 (λ es, p es ∧ plain_file (map_get k es)) t.
Proof.
  intros Hq (Ho & es & Hg & Hp & content & Hk) Hput.
  unfold truncate_file. erewrite effect_then; [|done|by rewrite (child_in _ _ _ _ Hg), Hk].
  set (es1 := map_insert k (File []) es).
  assert (Hg1 : tree_get d (tree_put (d ++ [k]) (Some (File [])) (w_tree w)) = Some (Dir es1))
    by (by apply (put_child_in d es k (Some (File [])))).
  unfold write_all. erewrite effect_then; [|done|reflexivity]. unfold sync_all.
  erewrite effect_quiet; [|done|reflexivity]. eexists. split; [done|]. cbn [w_tree set_tree].
  unfold append_bytes. rewrite (child_in _ _ _ _ Hg1). unfold es1 at 1. rewrite map_get_insert, decide_True by done.
  cbn [app]. eapply local_put; [|exact Hg1|].
  - eapply outside_trans; [done|apply outside_put].
  - cbn [put_child]. split; [by apply Hput, Hput|]. by rewrite map_get_insert, decide_True.
Qed.

Lemma run_lock d t1 k label (p : btmap string node → Prop) w :
  quiet w → local d t1 (with_child k plain_file p) (w_tree w) →
  (∀ es content, p es → p (map_insert k (File content) es)) →
  d ++ [k] ∉ w_locks w →
  ∃ w', acquire_advisory_lock_with_mode c (d ++ [k]) label true true w = (Done (), w') ∧ quiet w' ∧ w_locks w' = (d ++ [k]) :: w_locks w ∧
        local d t1 (with_child k plain_file p) (w_tree w').
Proof.
  intros Hq Hl Hput Hfree. pose proof Hl as (Ho & es & Hg & Hp & Hpl).
  set (locked := λ w0, set_world_locks ((d ++ [k]) :: w_locks w) w0).
  assert (Hrest : ∀ w0, quiet w0 → w_locks w0 = w_locks w →
    local d t1 (λ es, p es ∧ ∃ content, map_get k es = Some (File content)) (w_tree w0) →
    ∃ w', (_ ← try_lock_exclusive (d ++ [k]);
           fs_map_err CacheIo (_ ← truncate_file (d ++ [k]);
                               _ ← write_all (d ++ [k]) (lock_owner c label); sync_all)) w0 = (Done (), w') ∧
          quiet w' ∧ w_locks w' = (d ++ [k]) :: w_locks w ∧ local d t1 (with_child k plain_file p) (w_tree w')).
  { intros w0 Hq0 Hl0 Ht0.
    destruct (write_lock_owner d t1 k label p (locked w0) Hq0 Ht0 Hput) as (t & E & Ht).
    exists (set_tree t (locked w0)). split_and!; [|done..].
    unfold locked, fs_map_err, fs_catch, try_lock_exclusive, mbind, fs_bind in *.
    rewrite Hl0, bool_decide_eq_false_2 by done. by rewrite E. }
  unfold acquire_advisory_lock_with_mode, release_on_failure.
  unfold open_or_create, create_new_file, fs_map_err, fs_catch, mbind, fs_bind, look in *.
  rewrite !(child_in _ _ _ _ Hg).
  destruct (map_get k es) as [[content| | |]|] eqn:Ek; try done; cbn [of_result]; cbv beta iota.
  - destruct (Hrest w Hq eq_refl) as (w' & E & Hq' & Hl' & Ht').
    { split; [done|]. exists es. split; [done|]. split; [done|]. by exists content. }
    exists w'. split_and!; [|done..]. rewrite ?(child_in _ _ _ _ Hg), ?Ek. cbn [of_result mret fs_ret]. by rewrite E.
  - set (w1 := set_tree (tree_put (d ++ [k]) (Some (File [])) (w_tree w)) w).
    destruct (Hrest w1 Hq eq_refl) as (w' & E & Hq' & Hl' & Ht').
    { eapply local_put; [done..|]. cbn [put_child]. split; [by apply Hput|]. exists []. by rewrite map_get_insert, decide_True. }
    exists w'. split_and!; [|done..].
    erewrite effect_quiet; [|done|by rewrite (child_in _ _ _ _ Hg), Ek, parent_snoc, Hg].
    fold w1. by rewrite E.
Qed.

Lemma run_entry_lock d t1 (p : btmap string node → Prop) w :
  quiet w → local d t1 (lockable p) (w_tree w) →
  (∀ es content, p es → p (map_insert ENTRY_LOCK_FILE (File content) es)) →
  d ++ [ENTRY_LOCK_FILE] ∉ w_locks w →
  ∃ w', acquire_entry_lock c d w = (Done (), w') ∧ quiet w' ∧ w_locks w' = (d ++ [ENTRY_LOCK_FILE]) :: w_locks w ∧
        local d t1 (lockable p) (w_tree w').
Proof. apply run_lock. Qed.

Definition lock_of (s : slot) : path := slot_path s ++ [ENTRY_LOCK_FILE].

Lemma run_recover_lock s t1 (p : btmap string node → Prop) w :
  slot_ok s → quiet w → local (slot_path s) t1 (lockable p) (w_tree w) →
  (∀ es content, p es → p (map_insert ENTRY_LOCK_FILE (File content) es)) →
  lock_of s ∉ w_locks w →
  ∃ w', recover_lock c (sl_entry s) w = (Done (), w') ∧ quiet w' ∧ w_locks w' = lock_of s :: w_locks w ∧
        local (slot_path s) t1 (lockable p) (w_tree w').
Proof.
  intros Hs Hq Hl Hput Hfree. pose proof (so_journaled s Hs) as Hj. destruct (jd_owned _ _ Hj) as [Ho1 Ho2].
  destruct (run_entry_lock _ _ _ _ Hq Hl Hput Hfree) as (w' & E & Hrest). exists w'. split; [|done].
  unfold recover_lock. rewrite (key_of_entry _ _ Hj), (jd_backup _ _ Hj), (jd_staging _ _ Hj).
  destruct (validate_owned_name (pr_staging _) _) as [[]|]; [|done]. destruct (validate_owned_name (pr_backup _) _) as [[]|]; [|done].
  unfold mbind, fs_bind, fs_lift, validate_plain_directory, look. cbn [of_result].
  fold (slot_path s). destruct Hl as (_ & es & Hg & _). rewrite Hg. cbn [check_plain_directory of_result]. exact E.
Qed.

Lemma in_view_lock V s content es :
  promotion_ok (sl_promotion s) →
  in_view (sl_promotion s) V es → in_view (sl_promotion s) V (map_insert ENTRY_LOCK_FILE (File content) es).
Proof.
  intros [Hb Hs _ _] Hv. unfold in_view, view_of in *. rewrite !map_get_insert.
  rewrite !decide_False; [done|..]; try done; intros E; [by rewrite E in Hs|by rewrite E in Hb].
Qed.

(** A slot with what its directory holds. *)
Definition place_of (x : slot * (btmap string node → Prop)) : place := (slot_path x.1, lockable x.2).

Lemma place_paths l : (place_of <$> l).*1 = slot_path <$> l.*1.
Proof. by rewrite <-!list_fmap_compose. Qed.

Lemma recover_locks t0 pre post w :
  separate (slot_path <$> (pre ++ post).*1) → Forall (λ x, slot_ok x.1) (pre ++ post) → quiet w →
  (∀ x es content, x ∈ pre ++ post → x.2 es → x.2 (map_insert ENTRY_LOCK_FILE (File content) es)) →
  everywhere t0 (place_of <$> pre ++ post) (w_tree w) →
  (∀ x, x ∈ post → lock_of x.1 ∉ w_locks w) →
  ∃ w', fs_each (recover_lock c) ((λ x, sl_entry x.1) <$> post) w = (Done (), w') ∧ quiet w' ∧
        everywhere t0 (place_of <$> pre ++ post) (w_tree w').
Proof.
  revert pre w. induction post as [|x post IH]; intros pre w Hsep Hok Hq Hput Hw Hfree.
  { by exists w. }
  assert (Hs : slot_ok x.1) by (apply Forall_app in Hok as [_ Hok]; by apply Forall_cons in Hok as [? _]).
  assert (Hsep' : separate ((place_of <$> pre).*1 ++ slot_path x.1 :: (place_of <$> post).*1))
    by (by rewrite !place_paths; rewrite !fmap_app in Hsep).
  destruct (run_recover_lock x.1 (w_tree w) x.2 w Hs Hq) as (w1 & E1 & Hq1 & Hl1 & Ht1).
  { rewrite fmap_app in Hw. by eapply everywhere_local. }
  { intros es content. apply Hput. set_solver. }
  { apply Hfree. by left. }
  destruct (IH (pre ++ [x]) w1) as (w2 & E2 & Hq2 & Ht2).
  - by rewrite <-app_assoc.
  - by rewrite <-app_assoc.
  - done.
  - intros s' es content Hin. apply Hput. by rewrite <-app_assoc in Hin.
  - rewrite <-app_assoc, fmap_app. rewrite fmap_app in Hw. cbn [app fmap list_fmap] in *. by eapply local_everywhere.
  - intros y Hin. rewrite Hl1, not_elem_of_cons. split; [|apply Hfree; by right].
    unfold lock_of. intros E. apply app_inj_tail in E as [E _].
    rewrite !place_paths in Hsep'. apply separate_middle in Hsep' as [_ Hpost]. rewrite Forall_forall in Hpost.
    destruct (Hpost (slot_path y.1)) as [Hn _]; [|by apply Hn; rewrite E].
    apply list_elem_of_fmap. exists y.1. split; [done|]. apply list_elem_of_fmap. by exists y.
  - exists w2. rewrite <-app_assoc in Ht2. split_and!; [|done..]. cbn [fmap list_fmap fs_each].
    unfold mbind at 1, fs_bind at 1. by rewrite E1.
Qed.

Lemma keeps_recover_one s : slot_ok s → keeps (slot_places s) (recover_one (sl_entry s)).
Proof.
  intros Hs. pose proof (so_journaled s Hs) as Hj. pose proof (recover_unfold _ _ Hj) as Hu. fold (slot_path s) in Hu.
  intros w q Hq. rewrite Hu. revert w q Hq.
  match goal with |- ∀ w q, _ → tree_get q (w_tree (?m w).2) = _ => change (keeps (slot_places s) m) end.
  assert (Hr : ∀ k, k ∈ [DATA_DIR; COMPLETE_FILE; GENERATION_MANIFEST_FILE; pr_backup (sl_promotion s); pr_staging (sl_promotion s)] →
                 keeps (slot_places s) (remove_if_present (slot_path s ++ [k])))
    by (intros k Hk; by apply keeps_remove_if_present, covered_place).
  assert (Hre : ∀ k content, k ∈ [COMPLETE_FILE; GENERATION_MANIFEST_FILE] →
                 keeps (slot_places s) (restore_optional_file (slot_path s ++ [k]) content)).
  { intros k content Hk. apply keeps_fs_bind; [apply Hr; set_solver|]. intros _. destruct content; [|apply keeps_fs_ret].
    apply keeps_write_new_file, covered_place. set_solver. }
  apply keeps_fs_bind; [apply keeps_look|]. intros [].
  - apply keeps_fs_bind; [apply Hr; set_solver|]. intros _. apply Hr; set_solver.
  - apply keeps_fs_bind; [apply keeps_look|]. intros be. destruct (pr_had _).
    + destruct be.
      * do 3 (apply keeps_fs_bind; [apply Hr; set_solver|]; intros _).
        apply keeps_fs_bind; [apply keeps_map_err, keeps_rename_path; apply covered_place; set_solver|]. intros _.
        do 2 (apply keeps_fs_bind; [apply Hre; set_solver|]; intros _). apply Hr; set_solver.
      * apply keeps_fs_bind; [apply keeps_look|]. intros []; [apply Hr; set_solver|apply keeps_fs_lift].
    + apply keeps_fs_bind; [apply keeps_look|]. intros ce. destruct (negb be && negb ce); [|apply keeps_fs_lift].
      do 2 (apply keeps_fs_bind; [apply Hr; set_solver|]; intros _). apply Hr; set_solver.
Qed.

Lemma runs_with_child {A} d t1 k (S : option node → Prop) ps (m : fs CacheError A) p q :
  runs (local d t1 p) m (λ _, local d t1 q) → keeps ps m → Forall (λ p, apart p (d ++ [k])) ps →
  runs (local d t1 (with_child k S p)) m (λ _, local d t1 (with_child k S q)).
Proof.
  intros Hm Hk Ha w Hq (Ho & es & Hg & Hp & Hs).
  destruct (Hm w Hq) as (x & w' & E & Hq' & Hl' & Ho' & es' & Hg' & Hr); [split; [done|by exists es]|].
  exists x, w'. split_and!; [done..|]. split; [done|]. exists es'. split; [done|]. split; [done|].
  specialize (Hk w _ Ha). rewrite E in Hk. cbn [snd] in Hk. rewrite (child_in _ _ _ _ Hg), (child_in _ _ _ _ Hg') in Hk.
  by rewrite Hk.
Qed.

(** One slot recovers from one view to another. *)
Definition recovers (s : slot) (V V' : view → Prop) : Prop :=
  ∀ t1, runs (local (slot_path s) t1 (lockable (in_view (sl_promotion s) V))) (recover_one (sl_entry s))
          (λ _, local (slot_path s) t1 (lockable (in_view (sl_promotion s) V'))).

Lemma recovers_intro s (V V' : promotion → view → Prop) :
  slot_ok s →
  (∀ t1, runs (local (slot_path s) t1 (in_view (sl_promotion s) (V (sl_promotion s)))) (recover_one (sl_entry s))
           (λ _, local (slot_path s) t1 (in_view (sl_promotion s) (V' (sl_promotion s))))) →
  recovers s (V (sl_promotion s)) (V' (sl_promotion s)).
Proof.
  intros Hs Hr t1. eapply runs_with_child; [apply Hr|by apply keeps_recover_one|by apply lock_apart, so_promotion].
Qed.

Lemma recovers_new s : slot_ok s → recovers s (new_view (sl_promotion s)) (settled_new (sl_promotion s)).
Proof. intros Hs. apply (recovers_intro s new_view settled_new Hs). intros t1. apply recover_new; by destruct Hs. Qed.
Lemma recovers_old s : slot_ok s → recovers s (old_view (sl_promotion s)) (settled_old (sl_promotion s)).
Proof. intros Hs. apply (recovers_intro s old_view settled_old Hs). intros t1. apply recover_old; by destruct Hs. Qed.
Lemma recovers_moved s : slot_ok s → recovers s (moved_view (sl_promotion s)) (settled_old (sl_promotion s)).
Proof. intros Hs. apply (recovers_intro s moved_view settled_old Hs). intros t1. apply recover_moved; by destruct Hs. Qed.
Lemma recovers_absent s : slot_ok s → recovers s (absent_view (sl_promotion s)) (settled_old (sl_promotion s)).
Proof. intros Hs. apply (recovers_intro s absent_view settled_old Hs). intros t1. apply recover_absent; by destruct Hs. Qed.

(** A slot with the view it is in and the view it recovers to. *)
Definition viewed : Type := slot * (view → Prop) * (view → Prop).
Definition seen (x : viewed) : slot * (btmap string node → Prop) := (x.1.1, in_view (sl_promotion x.1.1) x.1.2).
Definition aimed (x : viewed) : slot * (btmap string node → Prop) := (x.1.1, in_view (sl_promotion x.1.1) x.2).

Lemma recover_slots t0 pre post (rest : list (slot * (btmap string node → Prop))) :
  separate (slot_path <$> ((λ x : viewed, x.1.1) <$> pre ++ post) ++ rest.*1) → Forall (λ x, recovers x.1.1 x.1.2 x.2) post →
  runs (everywhere t0 ((place_of <$> (aimed <$> pre)) ++ (place_of <$> (seen <$> post)) ++ (place_of <$> rest)))
    (fs_each recover_one ((λ x : viewed, sl_entry x.1.1) <$> post))
    (λ _, everywhere t0 ((place_of <$> (aimed <$> pre ++ post)) ++ (place_of <$> rest))).
Proof.
  revert pre. induction post as [|x post IH]; intros pre Hsep Hr.
  - cbn. rewrite !app_nil_r. apply (runs_ret () (λ _, everywhere t0 ((place_of <$> (aimed <$> pre)) ++ (place_of <$> rest)))).
  - cbn [fmap list_fmap fs_each]. apply Forall_cons in Hr as [Hx Hr].
    apply (runs_bind _ _ (λ _, everywhere t0 ((place_of <$> (aimed <$> pre)) ++ place_of (aimed x) :: (place_of <$> (seen <$> post)) ++ (place_of <$> rest)))).
    + apply runs_among; [|exact Hx]. rewrite fmap_app, !place_paths, <-!list_fmap_compose.
      by rewrite !fmap_app, <-!list_fmap_compose, <-app_assoc in Hsep.
    + intros []. specialize (IH (pre ++ [x])). rewrite !fmap_app, <-!app_assoc in IH.
      rewrite !fmap_app, <-!app_assoc. rewrite !fmap_app, <-!app_assoc in Hsep. by apply IH.
Qed.

Lemma each_app {E A} (f : A → fs E ()) l1 l2 w :
  fs_each f (l1 ++ l2) w = (_ ← fs_each f l1; fs_each f l2) w.
Proof.
  revert w. induction l1 as [|x l1 IH]; intros w; [done|]. cbn. unfold mbind, fs_bind in *.
  destruct (f x w) as [[[]|e|] w']; [|done..]. apply IH.
Qed.

(** * The end of a promotion and its recovery *)

(** What [promote_entries] does once its journal is written. *)
Definition promotion_body (prepared : list PreparedCacheEntry) (j : CachePromotionJournalV1) : fs CacheError () :=
  _ ← execute_promotion c prepared j;
  finalize_promotion j.

Definition journal_in (j : CachePromotionJournalV1) (t : node) : Prop :=
  ∃ b, tree_get [PROMOTION_JOURNAL_FILE] t = Some (File b) ∧ readable_journal b = Ok j.

Definition journal_of (j : CachePromotionJournalV1) (slots : list slot) : Prop := pj_entries j = sl_entry <$> slots.

(** A new process, which nothing interrupts, after one that left [w]. *)
Definition after_restart (w w' : World) : Prop := w_tree w' = w_tree w ∧ quiet w' ∧ w_locks w' = [].

Lemma journal_apart (l : list place) : Forall (λ x : place, ∃ k, x.1 = [ENTRIES_DIR; k]) l →
  Forall (λ x : place, apart x.1 [PROMOTION_JOURNAL_FILE]) l.
Proof.
  intros Hl. eapply Forall_impl; [exact Hl|]. intros x [k ->]. split; intros [r E]; [discriminate E|]. injection E as E _. discriminate E.
Qed.

Lemma slot_paths_in_entries (f : slot → place) slots :
  (∀ s, (f s).1 = slot_path s) → Forall (λ x : place, ∃ k, x.1 = [ENTRIES_DIR; k]) (f <$> slots).
Proof. intros Hf. rewrite Forall_fmap. apply Forall_forall. intros s _. cbn. rewrite Hf. by eexists. Qed.

Lemma everywhere_journal t0 l t j :
  Forall (λ x : place, ∃ k, x.1 = [ENTRIES_DIR; k]) l → everywhere t0 l t → journal_in j t0 → journal_in j t.
Proof. intros Hl [Hf _] (b & Hb & Hr). exists b. split; [|done]. rewrite Hf; [done|]. by apply journal_apart. Qed.

(** The end of a recovery: no journal, and in the slots what [l] says; nothing else changed. *)
Definition recovered (t0 : node) (l : list place) (t : node) : Prop :=
  tree_get [PROMOTION_JOURNAL_FILE] t = None ∧
  (∀ q, Forall (λ x, apart x.1 q) l → apart [PROMOTION_JOURNAL_FILE] q → tree_get q t = tree_get q t0) ∧
  Forall (λ x, ∃ es, tree_get x.1 t = Some (Dir es) ∧ x.2 es) l.

Lemma remove_journal_recovered t0 l t :
  Forall (λ x : place, ∃ k, x.1 = [ENTRIES_DIR; k]) l → everywhere t0 l t → is_dir (Some t) = true →
  recovered t0 l (tree_put [PROMOTION_JOURNAL_FILE] None t).
Proof.
  intros Hl [Hf He] Hd. split; [by apply (tree_put_same [])|]. split.
  - intros q Hq Hj. rewrite tree_put_apart by done. by apply Hf.
  - apply journal_apart in Hl. rewrite Forall_forall in *. intros x Hx. destruct (He x Hx) as (es & Hg & Hp).
    exists es. rewrite tree_put_apart; [done|]. by apply apart_sym, Hl.
Qed.

Lemma run_remove_journal t0 l w j :
  Forall (λ x : place, ∃ k, x.1 = [ENTRIES_DIR; k]) l → everywhere t0 l (w_tree w) → journal_in j t0 → quiet w →
  ∃ w', remove_if_present [PROMOTION_JOURNAL_FILE] w = (Done (), w') ∧ quiet w' ∧ recovered t0 l (w_tree w').
Proof.
  intros Hl He Hj Hq. destruct (everywhere_journal _ _ _ _ Hl He Hj) as (b & Hb & _).
  exists (set_tree (tree_put [PROMOTION_JOURNAL_FILE] None (w_tree w)) w). split_and!; [|done|].
  - unfold remove_if_present, mbind, fs_bind, look. rewrite Hb. cbn [of_result].
    unfold fs_map_err, fs_catch, remove_file_at. by erewrite effect_quiet; [|done|by rewrite Hb].
  - cbn [w_tree set_tree]. apply remove_journal_recovered; [done..|]. by destruct (w_tree w).
Qed.

(** Recovery from slots that each recover. *)
Lemma recovery_completes t0 (l : list viewed) j w :
  separate (slot_path <$> ((λ x : viewed, x.1.1) <$> l)) → Forall (λ x, slot_ok x.1.1) l →
  Forall (λ x, recovers x.1.1 x.1.2 x.2) l → journal_of j ((λ x : viewed, x.1.1) <$> l) → journal_in j t0 →
  quiet w → w_locks w = [] → everywhere t0 (place_of <$> (seen <$> l)) (w_tree w) →
  ∃ w', recover_promotion_locked c w = (Done (), w') ∧ recovered t0 (place_of <$> (aimed <$> l)) (w_tree w').
Proof.
  intros Hsep Hok Hr Hjl Hj Hq Hnl He.
  assert (Hin : ∀ f : viewed → slot * (btmap string node → Prop), (∀ x, (f x).1 = x.1.1) →
            Forall (λ x : place, ∃ k, x.1 = [ENTRIES_DIR; k]) (place_of <$> (f <$> l))).
  { intros f Hf. rewrite !Forall_fmap. apply Forall_forall. intros x _. cbn. by eexists. }
  destruct (everywhere_journal _ _ _ _ (Hin seen (λ _, eq_refl)) He Hj) as (b & Hb & Hread).
  destruct (recover_locks t0 [] (seen <$> l) w) as (w1 & E1 & Hq1 & He1).
  - by rewrite app_nil_l, <-!list_fmap_compose in *.
  - rewrite app_nil_l, Forall_fmap. done.
  - done.
  - intros x es content Hx Hv. rewrite app_nil_l in Hx. apply list_elem_of_fmap in Hx as (y & -> & Hy).
    apply in_view_lock; [|done]. apply so_promotion. rewrite Forall_forall in Hok. by apply (Hok y).
  - done.
  - intros x _. rewrite Hnl. apply not_elem_of_nil.
  - rewrite app_nil_l in He1. destruct (recover_slots t0 [] l [] ltac:(by rewrite app_nil_r) Hr w1 Hq1 ltac:(by rewrite app_nil_r))
      as ([] & w2 & E2 & Hq2 & Hl2 & He2).
    rewrite app_nil_l, app_nil_r in He2.
    destruct (run_remove_journal t0 _ (set_world_locks (w_locks w) w2) j (Hin aimed (λ _, eq_refl)) He2 Hj Hq2) as (w3 & E3 & Hq3 & Hrec).
    exists w3. split; [|done]. unfold recover_promotion_locked, read_optional, mbind, fs_bind, look. rewrite Hb. cbn [of_result read_optional_file].
    rewrite Hread. cbn [of_result fs_lift]. unfold scoped, mbind, fs_bind.
    assert (EL1 : pj_entries j = (λ x, sl_entry x.1) <$> (seen <$> l)).
    { rewrite Hjl. clear. induction l as [|x l IH]; cbn; [done|]. by f_equal. }
    assert (EL2 : pj_entries j = (λ x : viewed, sl_entry x.1.1) <$> l).
    { rewrite Hjl. clear. induction l as [|x l IH]; cbn; [done|]. by f_equal. }
    rewrite EL1 at 1. rewrite E1. cbv beta iota. rewrite EL2, E2. exact E3.
Qed.

Lemma seen_in_entries (l : list viewed) f :
  (∀ x : viewed, (f x : slot * (btmap string node → Prop)).1 = x.1.1) →
  Forall (λ x : place, ∃ k, x.1 = [ENTRIES_DIR; k]) (place_of <$> (f <$> l)).
Proof. intros Hf. rewrite !Forall_fmap. apply Forall_forall. intros x _. cbn. by eexists. Qed.

(** Recovery with a stuck slot. *)
Lemma recovery_refused t0 (pre post : list viewed) (x : viewed) j w :
  let l := pre ++ x :: post in
  separate (slot_path <$> ((λ x : viewed, x.1.1) <$> l)) → Forall (λ x, slot_ok x.1.1) l →
  Forall (λ x, recovers x.1.1 x.1.2 x.2) pre → x.1.2 = stuck_view (sl_promotion x.1.1) →
  journal_of j ((λ x : viewed, x.1.1) <$> l) → journal_in j t0 →
  quiet w → w_locks w = [] → everywhere t0 (place_of <$> (seen <$> l)) (w_tree w) →
  ∃ w', recover_promotion_locked c w = (Failed PromotionUncertain, w').
Proof.
  intros l Hsep Hok Hr Hx Hjl Hj Hq Hnl He.
  destruct (everywhere_journal _ _ _ _ (seen_in_entries l seen (λ _, eq_refl)) He Hj) as (b & Hb & Hread).
  destruct (recover_locks t0 [] (seen <$> l) w) as (w1 & E1 & Hq1 & He1).
  - by rewrite app_nil_l, <-!list_fmap_compose in *.
  - rewrite app_nil_l, Forall_fmap. done.
  - done.
  - intros y es content Hy Hv. rewrite app_nil_l in Hy. apply list_elem_of_fmap in Hy as (z & -> & Hz).
    apply in_view_lock; [|done]. apply so_promotion. rewrite Forall_forall in Hok. by apply (Hok z).
  - done.
  - intros y _. rewrite Hnl. apply not_elem_of_nil.
  - rewrite app_nil_l in He1. unfold l in He1. rewrite !fmap_app in He1. cbn [fmap list_fmap] in He1.
    destruct (recover_slots t0 [] pre (seen <$> (x :: post))) with (w := w1) as ([] & w2 & E2 & Hq2 & Hl2 & He2); [|done..|].
    { unfold l in Hsep. rewrite app_nil_l. rewrite <-list_fmap_compose. cbn [compose seen]. by rewrite fmap_app in Hsep. }
    rewrite app_nil_l in He2. cbn [fmap list_fmap] in He2.
    pose proof (everywhere_local _ _ _ _ _ _ He2) as Hl. cbn [seen fst snd] in Hl. rewrite Hx in Hl.
    assert (Hl' : local (slot_path x.1.1) (w_tree w2) (in_view (sl_promotion x.1.1) (stuck_view (sl_promotion x.1.1))) (w_tree w2))
      by (eapply local_conseq; [exact Hl|]; by intros es []).
    assert (Hxok : slot_ok x.1.1) by (rewrite Forall_forall in Hok; apply Hok; unfold l; set_solver).
    destruct (recover_stuck _ _ (so_journaled _ Hxok) _ w2 Hq2 Hl') as (w3 & E3 & _).
    eexists. unfold recover_promotion_locked, read_optional, mbind, fs_bind, look. rewrite Hb. cbn [of_result read_optional_file].
    rewrite Hread. cbn [of_result fs_lift]. unfold scoped, mbind, fs_bind.
    assert (EL1 : pj_entries j = (λ x, sl_entry x.1) <$> (seen <$> l)).
    { rewrite Hjl. clear. induction l as [|y l IH]; cbn; [done|]. by f_equal. }
    assert (EL2 : pj_entries j = ((λ x : viewed, sl_entry x.1.1) <$> pre) ++ sl_entry x.1.1 :: ((λ x : viewed, sl_entry x.1.1) <$> post)).
    { rewrite Hjl. unfold l. by rewrite !fmap_app, <-!list_fmap_compose. }
    rewrite EL1 at 1. rewrite E1. cbv beta iota. rewrite EL2, each_app. unfold mbind, fs_bind. rewrite E2. cbn [fs_each].
    unfold mbind, fs_bind. rewrite E3. reflexivity.
Qed.

(** Where the end of a promotion can be left. *)
Definition interrupted (t0 : node) (slots : list slot) (t : node) : Prop :=
  left_at t0 slots t ∨ everywhere t0 (slot_in new_view <$> slots) t.

Lemma zip_pairs slots : zip (sl_prepared <$> slots) (sl_entry <$> slots) = pair_of <$> slots.
Proof. induction slots as [|s slots IH]; cbn; [done|]. by f_equal. Qed.

Lemma promotion_body_triple t0 slots j :
  separate (slot_path <$> slots) → Forall slot_ok slots → slots ≠ [] → journal_of j slots → journal_in j t0 →
  crash_triple (everywhere t0 (slot_staged <$> slots)) (promotion_body (sl_prepared <$> slots) j)
    (λ _, recovered t0 (slot_in settled_new <$> slots)) (interrupted t0 slots).
Proof.
  intros Hsep Hok Hne Hj Hin. unfold journal_of in Hj. unfold promotion_body, execute_promotion, finalize_promotion. rewrite !Hj, zip_pairs.
  apply (triple_bind _ _ (λ _, everywhere t0 (slot_in new_view <$> slots)));
    [eapply triple_conseq; [by apply execute_triple|done..|by left]|]. intros [].
  apply (triple_bind _ _ (λ _, everywhere t0 (slot_in settled_new <$> slots)));
    [eapply triple_conseq; [by apply finalize_triple|done..|by right]|]. intros [].
  assert (Hl : Forall (λ x : place, ∃ k, x.1 = [ENTRIES_DIR; k]) (slot_in settled_new <$> slots))
    by (by apply slot_paths_in_entries).
  assert (Hc : ∀ t, everywhere t0 (slot_in settled_new <$> slots) t → interrupted t0 slots t).
  { intros t Ht. right. eapply slots_weaken; [|done]. intros s. apply slot_in_weaken, settled_new_view. }
  intros w Hw. unfold remove_if_present, mbind, fs_bind, look. cbn [of_result].
  destruct (everywhere_journal _ _ _ _ Hl Hw Hin) as (b & Hb & _). rewrite Hb.
  apply (triple_map_err CacheIo (λ t, t = w_tree w) _ (λ _, recovered t0 (slot_in settled_new <$> slots))); [|done].
  apply triple_effect; [|intros t ->; by apply Hc]. intros t ->. rewrite Hb. split.
  - apply remove_journal_recovered; [done..|]. by destruct (w_tree w).
  - intros rest. by apply Hc.
Qed.

(** The views of slots as a recovery sees them. *)
Definition view_to (V V' : promotion → view → Prop) (s : slot) : viewed :=
  (s, V (sl_promotion s), V' (sl_promotion s)).

Lemma view_to_seen V V' (slots : list slot) : place_of <$> (seen <$> (view_to V V' <$> slots)) = slot_in V <$> slots.
Proof. by rewrite <-!list_fmap_compose. Qed.
Lemma view_to_aimed V V' (slots : list slot) : place_of <$> (aimed <$> (view_to V V' <$> slots)) = slot_in V' <$> slots.
Proof. by rewrite <-!list_fmap_compose. Qed.
Lemma view_to_slots V V' (slots : list slot) : (λ x : viewed, x.1.1) <$> (view_to V V' <$> slots) = slots.
Proof. induction slots as [|s slots IH]; cbn; [done|]. by f_equal. Qed.

Lemma staged_view s es : (slot_staged s).2 es → (slot_in old_view s).2 es.
Proof. by intros [[Hv _] Hl]. Qed.

(** The state after a recovery: the first [k] slots have the new generation, the
    others what they had. *)
Definition recovered_at (t0 : node) (slots : list slot) (k : nat) (t : node) : Prop :=
  (k ≤ length slots)%nat ∧
  recovered t0 ((slot_in settled_new <$> take k slots) ++ (slot_in settled_old <$> drop k slots)) t.

(** A slot without a payload before, where the new one stands without its marker. *)
Definition stuck_slot (slots : list slot) (t : node) : Prop :=
  ∃ s es, s ∈ slots ∧ pr_had (sl_promotion s) = false ∧ tree_get (slot_path s) t = Some (Dir es) ∧
          in_view (sl_promotion s) (stuck_view (sl_promotion s)) es.

Section AfterInterruption.
Context (t0 : node) (slots : list slot) (j : CachePromotionJournalV1).
Hypothesis Hsep : separate (slot_path <$> slots).
Hypothesis Hok : Forall slot_ok slots.
Hypothesis Hj : journal_of j slots.
Hypothesis Hin : journal_in j t0.

Lemma recovery_of_views w (l : list viewed) :
  (λ x : viewed, x.1.1) <$> l = slots → Forall (λ x, recovers x.1.1 x.1.2 x.2) l →
  everywhere t0 (place_of <$> (seen <$> l)) (w_tree w) → quiet w → w_locks w = [] →
  ∃ w', recover_promotion_locked c w = (Done (), w') ∧ recovered t0 (place_of <$> (aimed <$> l)) (w_tree w').
Proof.
  intros Hl Hr He Hq Hn. apply (recovery_completes t0 l j w); rewrite ?Hl; try done.
  apply Forall_forall. intros x Hx. rewrite Forall_forall in Hok. apply Hok. rewrite <-Hl. apply list_elem_of_fmap. by exists x.
Qed.

Lemma views_recover V V' l :
  (∀ s, slot_ok s → recovers s (V (sl_promotion s)) (V' (sl_promotion s))) → Forall slot_ok l →
  Forall (λ x, recovers x.1.1 x.1.2 x.2) (view_to V V' <$> l).
Proof. intros HV Hl. rewrite Forall_fmap. eapply Forall_impl; [exact Hl|]. intros s Hs. by apply HV. Qed.

(** The slot [s] between those before and those after it recovers to [V']. *)
Lemma recovery_at w pre s post V V' :
  slots = pre ++ s :: post → recovers s (V (sl_promotion s)) (V' (sl_promotion s)) →
  everywhere t0 ((slot_in new_view <$> pre) ++ slot_in V s :: (slot_in old_view <$> post)) (w_tree w) → quiet w → w_locks w = [] →
  ∃ w', recover_promotion_locked c w = (Done (), w') ∧
        recovered t0 ((slot_in settled_new <$> pre) ++ slot_in V' s :: (slot_in settled_old <$> post)) (w_tree w').
Proof.
  intros El Hs He Hq Hn.
  assert (Hoks : Forall slot_ok pre ∧ slot_ok s ∧ Forall slot_ok post).
  { rewrite El in Hok. apply Forall_app in Hok as [? Hp]. by apply Forall_cons in Hp as [? ?]. }
  destruct Hoks as (Hpre & _ & Hpost).
  destruct (recovery_of_views w ((view_to new_view settled_new <$> pre) ++ view_to V V' s :: (view_to old_view settled_old <$> post)))
    as (w' & E & Hr); [| | |done|done|].
  - rewrite fmap_app, fmap_cons, !view_to_slots. by rewrite El.
  - apply Forall_app. split; [apply views_recover; [apply recovers_new|done]|]. constructor; [done|].
    apply views_recover; [apply recovers_old|done].
  - by rewrite !fmap_app, !fmap_cons, !view_to_seen.
  - exists w'. split; [done|]. by rewrite !fmap_app, !fmap_cons, !view_to_aimed in Hr.
Qed.

Lemma take_pre {A} (pre : list A) x post : take (length pre) (pre ++ x :: post) = pre ∧ drop (length pre) (pre ++ x :: post) = x :: post.
Proof. by rewrite take_app_length, drop_app_length. Qed.

Lemma take_through {A} (pre : list A) x post : take (S (length pre)) (pre ++ x :: post) = pre ++ [x] ∧ drop (S (length pre)) (pre ++ x :: post) = post.
Proof.
  rewrite (cons_middle x pre post), app_assoc. replace (S (length pre)) with (length (pre ++ [x])) by (rewrite length_app; cbn; lia).
  by rewrite take_app_length, drop_app_length.
Qed.

Lemma left_recovers pre s post w1' r :
  slots = pre ++ s :: post → r ≠ Done () → quiet w1' → w_locks w1' = [] →
  everywhere t0 ((slot_in new_view <$> pre) ++ slot_in left_view s :: (slot_staged <$> post)) (w_tree w1') →
  (∃ k w2, recover_promotion_locked c w1' = (Done (), w2) ∧ recovered_at t0 slots k (w_tree w2) ∧
           (r = Done () → k = length slots)) ∨
  (∃ w2, recover_promotion_locked c w1' = (Failed PromotionUncertain, w2) ∧ r ≠ (Done () : outcome CacheError ()) ∧ stuck_slot slots (w_tree w1')).
Proof.
  intros El Hr Hq Hn He.
  assert (Hs : slot_ok s) by (rewrite Forall_forall in Hok; apply Hok; rewrite El; set_solver).
  pose proof (everywhere_local _ _ _ _ _ _ He) as (_ & es & Hg & Hv & Hl).
  assert (Hview : ∀ V, in_view (sl_promotion s) (V (sl_promotion s)) es →
            everywhere t0 ((slot_in new_view <$> pre) ++ slot_in V s :: (slot_in old_view <$> post)) (w_tree w1')).
  { intros V HV. destruct He as [Hf Ha]. split.
    - intros q Hqa. apply Hf. rewrite Forall_app, Forall_cons, !Forall_fmap in *. done.
    - rewrite Forall_app, Forall_cons, !Forall_fmap in *. destruct Ha as (Ha1 & _ & Ha2). split_and!; [done| |].
      + by exists es.
      + eapply Forall_impl; [exact Ha2|]. intros s' (es' & Hg' & Hv'). exists es'. split; [done|]. by apply staged_view. }
  assert (Hold : ∀ V, in_view (sl_promotion s) (V (sl_promotion s)) es → recovers s (V (sl_promotion s)) (settled_old (sl_promotion s)) →
            ∃ k w2, recover_promotion_locked c w1' = (Done (), w2) ∧ recovered_at t0 slots k (w_tree w2) ∧ (r = Done () → k = length slots)).
  { intros V HV HR. destruct (recovery_at w1' pre s post V settled_old El HR (Hview V HV) Hq Hn) as (w2 & E & Hrec).
    exists (length pre), w2. split_and!; [done| |done]. unfold recovered_at. rewrite El. destruct (take_pre pre s post) as [-> ->].
    split; [rewrite length_app; cbn; lia|done]. }
  destruct Hv as [Hv|[Hv|[Hv|[Hv|Hv]]]].
  - left. by apply (Hold old_view), recovers_old.
  - left. by apply (Hold moved_view), recovers_moved.
  - left. by apply (Hold absent_view), recovers_absent.
  - right. pose proof (Hview stuck_view Hv) as Hst.
    assert (Hoks : Forall slot_ok pre ∧ Forall slot_ok post).
    { rewrite El in Hok. apply Forall_app in Hok as [? Hp]. by apply Forall_cons in Hp as [? ?]. }
    set (l := (view_to new_view settled_new <$> pre) ++ view_to stuck_view settled_old s :: (view_to old_view settled_old <$> post)).
    assert (Hl1 : (λ x : viewed, x.1.1) <$> l = slots) by (unfold l; by rewrite fmap_app, fmap_cons, !view_to_slots).
    destruct (recovery_refused t0 (view_to new_view settled_new <$> pre) (view_to old_view settled_old <$> post)
                (view_to stuck_view settled_old s) j w1') as (w2 & E); fold l; rewrite ?Hl1; try done.
    + destruct Hoks. unfold l. rewrite Forall_app, Forall_cons, !Forall_fmap. done.
    + apply views_recover; [apply recovers_new|apply Hoks].
    + unfold l. by rewrite !fmap_app, !fmap_cons, !view_to_seen.
    + exists w2. split_and!; [done..|]. exists s, es. split_and!; [rewrite El; set_solver|by destruct Hv|done..].
  - left. destruct (recovery_at w1' pre s post new_view settled_new El (recovers_new s Hs) (Hview new_view Hv) Hq Hn) as (w2 & E & Hrec).
    exists (S (length pre)), w2. split_and!; [done| |done]. unfold recovered_at. rewrite El. destruct (take_through pre s post) as [-> ->].
    split; [rewrite length_app; cbn; lia|]. by rewrite fmap_app, <-app_assoc.
Qed.
End AfterInterruption.
End Promotion.
