(* ===== verification/CacheClaims.v ===== *)
(** The theorems on the cache store ([Cache.v], [CacheRoot.v]). *)
From S2P Require Import Prelude.
From S2P Require Import RustStr.
From S2P Require Import BTree.
From S2P Require Import Canonical.
From S2P Require Import Config.
From S2P Require Import Durable.
From S2P Require Import FileSystem.
From S2P Require Import CachePayload.
From S2P Require Import CacheRoot.
From S2P Require Import Cache.
From S2P Require Import CacheProps.
From S2P Require Import CachePromotion.
From S2P Require Import PlanClaims.
Local Open Scope Z_scope.

Section Claims.
Context `{Backend, CacheParser} (c : CacheProcess).

(** C8. the promotion of several cache entries, once its journal is written,
    survives an interruption at any of its effects, whether the effect fails or is
    the last one.  A new process that runs the recovery finds every entry with exactly
    its new or exactly its old generation, the new ones first in the order of the
    journal; no journal, backup or staging directory is left, and nothing else of the
    tree has changed.  A promotion that completed has them all new.  The recovery can
    only be refused, with [PromotionUncertain], where an entry that had no payload was
    left with the new one in place and without its completion marker.  Before that,
    while the journal is being made, however it ends, only the file of the journal can
    have changed, so that every entry has its old generation; this part promises no
    recovery, because it may refuse a journal that was written in part. *)
Theorem promotion_survives :
  (∀ prepared w q, apart [PROMOTION_JOURNAL_FILE] q →
     tree_get q (w_tree (create_promotion_journal c prepared w).2) = tree_get q (w_tree w)) ∧
  ∀ w slots j,
  separate (slot_path <$> slots) → Forall slot_ok slots → slots ≠ [] →
  journal_of j slots → journal_in j (w_tree w) →
  everywhere (w_tree w) (slot_staged <$> slots) (w_tree w) →
  let '(r, w1) := promotion_body c (sl_prepared <$> slots) j w in
  ∀ w1', after_restart w1 w1' →
    (∃ k w2, recover_promotion_locked c w1' = (Done (), w2) ∧ recovered_at (w_tree w) slots k (w_tree w2) ∧
             (r = Done () → k = length slots)) ∨
    (∃ w2, recover_promotion_locked c w1' = (Failed PromotionUncertain, w2) ∧ r ≠ Done () ∧ stuck_slot slots (w_tree w1)).
Proof.
  split; [intros prepared w q Hq; apply keeps_create_journal; by constructor|].
  intros w slots j Hsep Hok Hne Hj Hin He.
  pose proof (promotion_body_triple c (w_tree w) slots j Hsep Hok Hne Hj Hin w He) as Ht.
  assert (Hall : ∀ t, recovered (w_tree w) (slot_in settled_new <$> slots) t → recovered_at (w_tree w) slots (length slots) t).
  { intros t Hr. split; [done|]. by rewrite take_ge, drop_ge, app_nil_r. }
  destruct (promotion_body c (sl_prepared <$> slots) j w) as [r w1].
  assert (Hleft : r ≠ Done () → interrupted (w_tree w) slots (w_tree w1) → ∀ w1', after_restart w1 w1' →
    (∃ k w2, recover_promotion_locked c w1' = (Done (), w2) ∧ recovered_at (w_tree w) slots k (w_tree w2) ∧
             (r = Done () → k = length slots)) ∨
    (∃ w2, recover_promotion_locked c w1' = (Failed PromotionUncertain, w2) ∧ r ≠ Done () ∧ stuck_slot slots (w_tree w1))).
  { intros Hr Hint w1' (Et & Hq & Hn). rewrite <-Et in Hint |- *. clear Ht. destruct Hint as [(pre & s & post & El & Hat)|Hnew].
    - by eapply left_recovers.
    - left. exists (length slots). destruct (recovery_of_views c (w_tree w) slots j Hsep Hok Hj Hin w1' (view_to new_view settled_new <$> slots)) as (w2 & E & Hrec);
        [apply view_to_slots|apply views_recover; [apply recovers_new|done]|by rewrite view_to_seen|done..|].
      exists w2. rewrite view_to_aimed in Hrec. auto. }
  destruct r as [[]|e|].
  - intros w1' (Et & Hq & Hn). left. exists (length slots), w1'. split_and!; [|by rewrite Et; apply Hall|done].
    destruct Ht as [Hjn _]. unfold recover_promotion_locked, read_optional, mbind, fs_bind, look.
    by rewrite Et, Hjn.
  - by apply Hleft.
  - by apply Hleft.
Qed.

(** a recovery that is interrupted cannot be taken up again.  Once it has moved the
    old payload back, and until it has restored the manifest and the marker, the next
    recovery is refused, as is every later promotion. *)
Theorem interrupted_recovery_refused P e t0 w :
  promotion_ok P → journaled P e → pr_had P = true → pr_marker P ≠ None →
  quiet w → local (entry_path {| ck_digest := je_key_digest e |}) t0 (holds P (pr_data P) None None None) (w_tree w) →
  ∃ w', recover_one e w = (Failed PromotionUncertain, w') ∧ w_tree w' = w_tree w.
Proof.
  intros Hok Hj Hh Hm Hq (Ho & es & Hg & H1 & H2 & H3 & H4 & H5). cbn in H1, H2, H3, H4. exists w. split; [|done].
  pose proof (pk_had P Hok) as Hd. rewrite Hh in Hd.
  assert (Hplain : had_current_of (pr_data P) = Ok true) by (by destruct (pr_data P) as [[]|]).
  assert (Hprev : None ≠ je_previous_marker e) by (rewrite (jd_marker P e Hj); by destruct (pr_marker P)).
  rewrite (recover_unfold P e Hj), Hh. unfold mbind, fs_bind, current_generation_is_complete, exists_path, look.
  rewrite !(child_in _ _ _ _ Hg), H1, H2, Hplain. cbn [of_result mbind result_bind negb read_optional_file].
  rewrite bool_decide_eq_false_2 by done. cbn [of_result negb]. cbv beta iota. cbn [of_result].
  rewrite !(child_in _ _ _ _ Hg), H4. cbn [exists_node]. unfold current_matches_previous, look.
  rewrite !(child_in _ _ _ _ Hg), H1, H2, Hplain. cbn [of_result mbind result_bind negb read_optional_file].
  by rewrite bool_decide_eq_false_2.
Qed.

(** A lock that is held refuses the recovery of its entry. *)
Lemma recover_lock_busy e content w :
  let entry := entry_path {| ck_digest := je_key_digest e |} in
  is_ok (journal_key e) = true → is_ok (validate_owned_name (je_staging_name e) ".staging-") = true →
  is_ok (validate_owned_name (je_backup_name e) ".backup-") = true →
  is_dir (tree_get entry (w_tree w)) = true → tree_get (entry ++ [ENTRY_LOCK_FILE]) (w_tree w) = Some (File content) →
  entry ++ [ENTRY_LOCK_FILE] ∈ w_locks w →
  ∃ w', recover_lock c e w = (Failed (LockBusy (entry ++ [ENTRY_LOCK_FILE])), w') ∧ w_tree w' = w_tree w.
Proof.
  intros entry Hk Hst Hbk Hd Hf Hheld. eexists.
  assert (Hkey : journal_key e = Ok {| ck_digest := je_key_digest e |})
    by (unfold journal_key in *; by destruct (validated_digest_hex _)).
  unfold recover_lock, acquire_entry_lock, acquire_advisory_lock_with_mode, release_on_failure, open_or_create, fs_map_err, fs_catch,
    validate_plain_directory, try_lock_exclusive, fs_lift, look, mbind, fs_bind.
  destruct (validate_owned_name (je_staging_name e) _) as [[]|]; [|done].
  destruct (validate_owned_name (je_backup_name e) _) as [[]|]; [|done]. rewrite Hkey. cbn [of_result]. fold entry.
  destruct (tree_get entry (w_tree w)) as [[]|]; try done. cbn [of_result check_plain_directory].
  rewrite ?Hf. cbn [of_result]. cbv beta iota. rewrite ?Hf. cbn [of_result mret fs_ret].
  by rewrite bool_decide_eq_true_2.
Qed.

(** a promotion that was interrupted blocks the promotion of the same entries.
    The caller of [promote_entries] holds the lock of each prepared entry, and the
    recovery that comes first takes the locks of the entries of the journal, which
    excludes an open file of the same process. *)
Theorem promotion_waits_for_its_own_lock prepared j e rest w :
  prepared ≠ [] → quiet w →
  check_owner_marker (tree_get [OWNER_FILE] (w_tree w)) = Ok () →
  plain_file (tree_get [PROMOTION_LOCK_FILE] (w_tree w)) → [PROMOTION_LOCK_FILE] ∉ w_locks w →
  journal_in j (w_tree w) → pj_entries j = e :: rest →
  is_ok (journal_key e) = true → is_ok (validate_owned_name (je_staging_name e) ".staging-") = true →
  is_ok (validate_owned_name (je_backup_name e) ".backup-") = true →
  let entry := entry_path {| ck_digest := je_key_digest e |} in
  is_dir (tree_get entry (w_tree w)) = true → (∃ content, tree_get (entry ++ [ENTRY_LOCK_FILE]) (w_tree w) = Some (File content)) →
  entry ++ [ENTRY_LOCK_FILE] ∈ w_locks w →
  ∃ w', promote_entries c prepared w = (Failed (LockBusy (entry ++ [ENTRY_LOCK_FILE])), w') ∧
        ∀ q, apart [PROMOTION_LOCK_FILE] q → tree_get q (w_tree w') = tree_get q (w_tree w).
Proof.
  intros Hne Hq Hown Hpl Hfree Hj He Hkey Hst Hbk entry Hd [content Hel] Hheld.
  destruct (w_tree w) as [|es| |] eqn:Ew; try done.
  destruct (run_lock c [] (w_tree w) PROMOTION_LOCK_FILE "cache promotion" (λ es', ∀ k, k ≠ PROMOTION_LOCK_FILE → map_get k es' = map_get k es) w)
    as (w1 & E1 & Hq1 & Hl1 & Hw1); [done| | |done|].
  { rewrite Ew. split; [apply outside_refl|]. exists es. split; [done|]. split; [done|]. cbn in Hpl.
    by destruct (map_get PROMOTION_LOCK_FILE es). }
  { intros es' text Hes k Hk. rewrite map_get_insert, decide_False by done. by apply Hes. }
  destruct Hw1 as (_ & es1 & Hg1 & Hsame & _).
  assert (Hget : ∀ q, apart [PROMOTION_LOCK_FILE] q → tree_get q (w_tree w1) = tree_get q (Dir es)).
  { intros q Ha. cbn in Hg1. injection Hg1 as Hg1. rewrite Hg1. destruct q as [|k q]; [by destruct Ha as [_ []]; apply prefix_nil|].
    cbn. rewrite Hsame; [done|]. intros ->. destruct Ha as [Ha _]. apply Ha. by exists q. }
  destruct Hj as (b & Hb & Hread).
  assert (Hap : apart [PROMOTION_LOCK_FILE] [PROMOTION_JOURNAL_FILE]) by (split; intros [r Er]; discriminate Er).
  assert (Hae : ∀ q, apart [PROMOTION_LOCK_FILE] (entry ++ q)) by (intros q; split; intros [r Er]; discriminate Er).
  assert (Hen : ∀ q, tree_get (entry ++ q) (w_tree w1) = tree_get (entry ++ q) (Dir es)) by (intros q; by apply Hget, Hae).
  destruct (recover_lock_busy e content w1 Hkey Hst Hbk) as (w2 & E2 & Ew2); fold entry.
  { specialize (Hen []). rewrite app_nil_r in Hen. by rewrite Hen. }
  { by rewrite Hen. }
  { rewrite Hl1. by right. }
  exists (set_world_locks (w_locks w) (set_world_locks (w_locks w1) w2)). split.
  - unfold promote_entries. destruct prepared as [|pe prepared]; [done|]. cbn [is_nil]. unfold scoped.
    unfold validate_owner_marker, acquire_promotion_lock, recover_promotion_locked, read_optional, look, mbind, fs_bind.
    rewrite Ew, Hown. cbn [of_result]. cbn [app] in E1. rewrite E1. cbv beta iota.
    rewrite (Hget _ Hap), Hb. cbn [read_optional_file of_result]. unfold fs_lift at 1. rewrite Hread. cbn [of_result].
    unfold scoped. rewrite He. cbn [fs_each]. unfold mbind, fs_bind. rewrite E2. done.
  - intros q Ha. cbn [w_tree set_world_locks]. by rewrite Ew2, Hget.
Qed.
End Claims.

(** * The root *)

Section Root.
Context (os : PathOracle).

Lemma prefixes_in {A} (before p q : list A) :
  q ∈ prefixes before p ↔ ∃ r s, r ≠ [] ∧ p = r ++ s ∧ q = before ++ r.
Proof.
  revert before. induction p as [|x p IH]; intros before; cbn [prefixes].
  - rewrite elem_of_nil. split; [done|]. intros ([|y r] & s & ? & E & _); [done|discriminate E].
  - rewrite elem_of_cons, IH. split.
    + intros [->|(r & s & Hr & -> & ->)]; [by exists [x], p|]. exists (x :: r), s. by rewrite <-app_assoc.
    + intros ([|y r] & s & Hr & E & ->); [done|]. injection E as <- ->. destruct r as [|z r]; [by left|].
      right. exists (z :: r), s. by rewrite <-app_assoc.
Qed.

(** The candidate with its deepest existing ancestor in canonical form. *)
Definition canonical_prefix (p resolved : list component) : Prop :=
  ∃ ancestor rest canonical, p = ancestor ++ rest ∧ po_canonicalize os ancestor = Ok canonical ∧ resolved = canonical ++ rest ∧
    ∀ longer, longer ≠ [] → longer `prefix_of` rest → po_canonicalize os (ancestor ++ longer) = Err NotFound.

Lemma canonicalize_loop_ok fuel ancestor rest p resolved :
  p = ancestor ++ rest →
  (∀ longer, longer ≠ [] → longer `prefix_of` rest → po_canonicalize os (ancestor ++ longer) = Err NotFound) →
  canonicalize_loop os fuel ancestor rest = Ok resolved → canonical_prefix p resolved.
Proof.
  revert ancestor rest. induction fuel as [|fuel IH]; intros ancestor rest Hp Hlong; cbn.
  - destruct (po_canonicalize os ancestor) as [canonical|[]] eqn:E; try done. intros [= <-]. by exists ancestor, rest, canonical.
  - destruct (po_canonicalize os ancestor) as [canonical|kind] eqn:E.
    { intros [= <-]. by exists ancestor, rest, canonical. }
    destruct kind; try done. intros Hl. apply bind_ok in Hl as (name & Hn & Hl). apply bind_ok in Hl as (up & Hu & Hl).
    unfold file_name, path_parent in *. destruct (last ancestor) as [[]|] eqn:El; try done.
    injection Hn as ->. injection Hu as <-.
    apply last_Some in El as [before ->]. rewrite removelast_last in Hl. eapply IH; [| |exact Hl].
    + by rewrite Hp, <-app_assoc.
    + intros [|x longer] Hne [s Hs]; [done|]. injection Hs as <- ->. destruct longer as [|y longer]; [done|].
      specialize (Hlong (y :: longer)). rewrite <-app_assoc in Hlong. apply Hlong; [done|]. by exists s.
Qed.

Lemma canonicalize_existing_prefix_ok p resolved : canonicalize_existing_prefix os p = Ok resolved → canonical_prefix p resolved.
Proof.
  apply canonicalize_loop_ok; [by rewrite app_nil_r|]. intros longer Hne [s Hs]. by destruct longer.
Qed.

(** a cache root is only accepted where deleting from it cannot reach anything
    else: the candidate (the explicit one, else that of the environment, else the
    default of the platform) is absolute, has no dot components and no symbolic link
    on the way; the root is its canonical form, is not the root of the file system,
    and is neither the repository nor below it, nor the temporary directory or below. *)
Theorem resolved_root_safe (repository : list component) (o : CacheRootOptions) (r : ResolvedCacheRoot) :
  resolve os repository o = Ok r →
  ∃ text repository' temporary,
    match ro_explicit o, ro_environment o with
    | Some path, _ => (text = path) ∧ rr_source r = Explicit
    | None, Some path => (text = path) ∧ rr_source r = Environment
    | None, None => platform_default o = Ok text ∧ rr_source r = PlatformDefault
    end ∧
    is_absolute (components text) = true ∧ (CurDir ∉ components text) ∧ (ParentDir ∉ components text) ∧
    (∀ p, p ≠ [] → p `prefix_of` components text → po_is_symlink os p = Ok false ∨ po_is_symlink os p = Err NotFound) ∧
    canonical_prefix (components text) (rr_path r) ∧ is_Some (path_parent (rr_path r)) ∧
    po_canonicalize os repository = Ok repository' ∧ ¬ repository' `prefix_of` rr_path r ∧
    canonical_prefix (po_temp_dir os) temporary ∧ ¬ temporary `prefix_of` rr_path r.
Proof.
  unfold resolve. intros Hr. apply bind_ok in Hr as ([text source] & Hsrc & Hr).
  apply bind_ok in Hr as (repository' & Hrep & Hr). apply bind_ok in Hr as (path & Hv & [= <-]). cbn [rr_path rr_source].
  unfold canonical_directory in Hrep. apply bind_ok in Hrep as (rep & Hrep & Hd). apply bind_ok in Hd as ([] & _ & [= ->]).
  unfold validate_cache_candidate in Hv. apply bind_ok in Hv as ([] & _ & Hv).
  apply bind_ok in Hv as ([] & Habs & Hv). apply bind_ok in Hv as ([] & Hdots & Hv). apply bind_ok in Hv as ([] & Hlinks & Hv).
  apply bind_ok in Hv as (resolved & Hres & Hv). apply bind_ok in Hv as ([] & Hpar & Hv). apply bind_ok in Hv as ([] & Hnr & Hv).
  apply bind_ok in Hv as (temporary & Htmp & Hv). apply bind_ok in Hv as ([] & Hnt & [= ->]).
  exists text, repository', temporary. rewrite ensure_ok in *.
  unfold reject_lexical_escape in Hdots. rewrite ensure_ok in Hdots. apply negb_true_iff in Hdots.
  assert (Hd : ∀ c, c ∈ components text → is_dot c = false).
  { intros c Hc. destruct (is_dot c) eqn:Ec; [|done]. rewrite <-Hdots. symmetry. apply existsb_exists. exists c.
    by rewrite <-list_elem_of_In. }
  split_and!; try done.
  - destruct (ro_explicit o) as [e|]; [by injection Hsrc as <- <-|]. destruct (ro_environment o) as [e|]; [by injection Hsrc as <- <-|].
    apply bind_ok in Hsrc as (d & Hd' & [= <- <-]). done.
  - intros Hc. by apply Hd in Hc.
  - intros Hc. by apply Hd in Hc.
  - intros p Hp [s Hs]. unfold reject_symlink_components in Hlinks. rewrite try_each_ok, Forall_forall in Hlinks.
    specialize (Hlinks p). unfold reject_symlink_component in Hlinks. destruct (po_is_symlink os p) as [[]|[]]; auto;
      exfalso; (discriminate Hlinks || idtac); apply prefixes_in; by exists p, s.
  - by apply canonicalize_existing_prefix_ok.
  - by destruct (path_parent path).
  - unfold map_err in Hrep. destruct (po_canonicalize os repository); [by injection Hrep as ->|done].
  - unfold path_starts_with in Hnr. by apply negb_true_iff, bool_decide_eq_false in Hnr.
  - by apply canonicalize_existing_prefix_ok.
  - unfold path_starts_with in Hnt. by apply negb_true_iff, bool_decide_eq_false in Hnt.
Qed.
End Root.

(** * Inventory *)

Section Inventory.
Context `{Backend, CacheParser} (c : CacheProcess).

(** What only looks, and releases the locks it takes. *)
Lemma readonly_lock_world entry w :
  (acquire_existing_entry_lock_readonly c entry w).2 = w ∨
  (acquire_existing_entry_lock_readonly c entry w).2 = set_world_locks ((entry ++ [ENTRY_LOCK_FILE]) :: w_locks w) w.
Proof.
  unfold acquire_existing_entry_lock_readonly, acquire_advisory_lock_with_mode, release_on_failure, open_existing, try_lock_exclusive,
    fs_map_err, fs_catch, look, mbind, fs_bind.
  destruct (tree_get _ (w_tree w)) as [[]|]; cbn; try (by destruct w; left).
  case_bool_decide; cbn; [by destruct w; left|by right].
Qed.

Lemma set_world_locks_same w locks : set_world_locks (w_locks w) (set_world_locks locks w) = w.
Proof. by destruct w. Qed.

Lemma set_world_locks_id w : set_world_locks (w_locks w) w = w.
Proof. by destruct w. Qed.

(** What the inventory says of an entry of the tree. *)
Definition inventoried (t : node) (entry : string * node) (e : CacheEntryInventory) : Prop :=
  let marker := tree_get [ENTRIES_DIR; entry.1; COMPLETE_FILE] t in
  let manifest := tree_get [ENTRIES_DIR; entry.1; GENERATION_MANIFEST_FILE] t in
  ei_directory e = entry.1 ∧ is_dir (Some entry.2) = true ∧
  (is_cache_directory_name entry.1 || starts_with ".entry-tmp-" entry.1) = true ∧
  bounded_entry_size c entry.1 entry.2 = Ok (ei_bytes e, ei_files e) ∧
  (if starts_with ".entry-tmp-" entry.1 then ei_status e = IncompleteEntry else status_of marker manifest = Ok (ei_status e)).

Lemma inventory_entry_looks entry w :
  (inventory_entry c entry w).2 = w ∧
  ∀ e, (inventory_entry c entry w).1 = Done e → inventoried (w_tree w) entry e.
Proof.
  destruct entry as [name n]. destruct (inventory_entry c (name, n) w) as [r w'] eqn:Er. cbn [fst snd].
  unfold inventory_entry, mbind, fs_bind, fs_lift in Er.
  set (first := match n with Dir _ => Ok () | Symlink _ _ => Err SymlinkInManagedRoot | _ => Err UnexpectedEntry end : result CacheError ()) in Er.
  destruct first as [[]|] eqn:Ef; cbn [of_result] in Er; [|by injection Er as <- <-]. assert (Hd : is_dir (Some n) = true) by (by destruct n).
  destruct (ensure (valid_utf8 _) _) as [[]|] eqn:Ev; cbn [of_result] in Er; [|by injection Er as <- <-].
  destruct (ensure (is_cache_directory_name name || _) _) as [[]|] eqn:En; cbn [of_result] in Er; [|by injection Er as <- <-].
  apply ensure_ok in En. unfold scoped in Er.
  set (m := (if is_cache_directory_name name then acquire_existing_entry_lock_readonly c [ENTRIES_DIR; name] else mret ()) : fs CacheError ()) in Er.
  assert (Hm : ∃ locks, (m w).2 = set_world_locks locks w).
  { unfold m. destruct (is_cache_directory_name name).
    - destruct (readonly_lock_world [ENTRIES_DIR; name] w) as [->| ->]; [|by eexists]. exists (w_locks w). by rewrite set_world_locks_id.
    - exists (w_locks w). by rewrite set_world_locks_id. }
  destruct Hm as [locks Hm]. destruct (m w) as [rm w1]. cbn in Hm. subst w1.
  destruct rm as [[]|e|]; [|injection Er as <- <-; by rewrite set_world_locks_same..].
  destruct (bounded_entry_size c name n) as [[bytes files]|e] eqn:Eb; cbn [of_result] in Er;
    [|injection Er as <- <-; by rewrite set_world_locks_same].
  unfold entry_status in Er. destruct (starts_with ".entry-tmp-" name) eqn:Es.
  - cbn in Er. injection Er as <- <-. split; [by destruct w|]. intros e [= <-]. unfold inventoried. cbn. rewrite Es. by split_and!.
  - unfold look in Er. cbn [w_tree set_world_locks app] in Er. destruct (status_of _ _) as [status|e] eqn:Est; cbn [of_result] in Er;
      injection Er as <- <-; (split; [apply set_world_locks_same|]); intros e' [= <-].
    unfold inventoried. cbn [ei_directory ei_status ei_bytes ei_files fst snd]. rewrite Es. by split_and!.
Qed.

Lemma inventory_fold_looks l acc w :
  (fs_fold (inventory_step c) acc l w).2 = w ∧
  ∀ entries, (fs_fold (inventory_step c) acc l w).1 = Done entries →
    ∃ new, entries = acc ++ new ∧ Forall2 (inventoried (w_tree w)) l new.
Proof.
  revert acc. induction l as [|entry l IH]; intros acc; cbn [fs_fold].
  - split; [done|]. intros entries [= <-]. exists []. by rewrite app_nil_r.
  - assert (Hstep : inventory_step c acc entry w =
              match inventory_entry c entry w with
              | (Done e, w') => (Done (acc ++ [e]), w') | (Failed e, w') => (Failed e, w') | (Stopped, w') => (Stopped, w')
              end) by done.
    unfold mbind, fs_bind. rewrite Hstep. destruct (inventory_entry_looks entry w) as [Hw He].
    destruct (inventory_entry c entry w) as [r w1]. cbn in Hw, He. subst w1. destruct r as [e|e|]; [|done..].
    destruct (IH (acc ++ [e])) as [Hw1 Hnew]. split; [exact Hw1|]. intros entries Hr. destruct (Hnew entries Hr) as (new & -> & Hf).
    exists (e :: new). rewrite <-app_assoc. split; [done|]. constructor; [by apply He|done].
Qed.

Lemma checked_sum_ok l total : checked_sum l = Ok total → total = foldr Z.add 0 l.
Proof.
  unfold checked_sum. enough (G : ∀ acc, try_fold (λ total bytes, ok_or (checked_u64 (total + bytes)) SizeOverflow) acc l = Ok total →
    total = acc + foldr Z.add 0 l) by apply G.
  induction l as [|x l IH]; intros acc; cbn; [intros [= ->]; lia|].
  unfold checked_u64. destruct (_ && _) eqn:E; cbn; [|done]. intros Hs. apply IH in Hs. lia.
Qed.

Lemma inventory_report (m : ManagedCache) w :
  (inventory c m w).2 = w ∧
  ∀ i, (inventory c m w).1 = Done i →
    ∃ listed, tree_get [ENTRIES_DIR] (w_tree w) = Some (Dir listed) ∧
      Forall2 (inventoried (w_tree w)) (sort_by fst listed) (in_entries i) ∧
      in_total_bytes i = foldr Z.add 0 (ei_bytes <$> in_entries i) ∧
      in_disk_budget_bytes i = mc_disk_budget_bytes m ∧
      in_budget_exceeded i = (in_total_bytes i >? in_disk_budget_bytes i).
Proof.
  unfold inventory, mbind, fs_bind, validate_owner_marker, validate_plain_directory, look.
  destruct (check_owner_marker _) as [[]|]; [|done]. cbn [of_result].
  destruct (tree_get [ENTRIES_DIR] (w_tree w)) as [[| listed | |]|] eqn:Et; try done. cbn [check_plain_directory of_result].
  destruct (inventory_fold_looks (sort_by fst listed) [] w) as [Hw Hentries].
  destruct (fs_fold _ _ _ w) as [r w1]. cbn in Hw, Hentries. subst w1. destruct r as [entries|e|]; [|done..].
  destruct (Hentries entries eq_refl) as (new & -> & Hf). unfold fs_lift.
  destruct (checked_sum (ei_bytes <$> new)) as [total|e] eqn:Es; cbn [of_result mret fs_ret]; [|done].
  split; [done|]. intros i [= <-]. exists listed. cbn. apply checked_sum_ok in Es. by split_and!.
Qed.

(** the clean-up report changes nothing, and is exact: it covers every entry of
    the store, gives for each the size measured in the tree and the status of its
    marker and manifest, the sums of those sizes without overflow, and as candidates
    the incomplete entries and no other. *)
Theorem cleanup_exact (m : ManagedCache) (w : World) :
  let '(r, w') := cleanup_dry_run c m w in
  w' = w ∧
  ∀ plan, r = Done plan →
    ∃ listed entries, tree_get [ENTRIES_DIR] (w_tree w) = Some (Dir listed) ∧
      Forall2 (inventoried (w_tree w)) (sort_by fst listed) entries ∧
      cp_total_bytes plan = foldr Z.add 0 (ei_bytes <$> entries) ∧
      (cp_budget_exceeded plan = true ↔ cp_disk_budget_bytes plan < cp_total_bytes plan) ∧
      cp_disk_budget_bytes plan = mc_disk_budget_bytes m ∧
      (∀ candidate, candidate ∈ cp_candidates plan ↔
         ∃ e, e ∈ entries ∧ ei_status e = IncompleteEntry ∧
              candidate = {| cc_relative_path := [ENTRIES_DIR; ei_directory e]; cc_reason := ReasonIncompleteEntry; cc_bytes := ei_bytes e |}) ∧
      cp_reclaimable_bytes plan = foldr Z.add 0 (cc_bytes <$> cp_candidates plan) ∧
      cp_deletion_performed plan = false.
Proof.
  unfold cleanup_dry_run, mbind, fs_bind. destruct (inventory_report m w) as [Hw Hi].
  destruct (inventory c m w) as [[i|e|] w1]; cbn in Hw, Hi; subst w1; [|done..].
  destruct (Hi i eq_refl) as (listed & Hl & Hf & Ht & Hb & Hx). unfold fs_lift.
  destruct (checked_sum _) as [reclaimable|e] eqn:Er; cbn [of_result]; [|done]. apply checked_sum_ok in Er.
  split; [done|]. intros plan [= <-]. cbn -[tree_get]. exists listed, (in_entries i). split_and!; try done.
  - rewrite Hx, Z.gtb_ltb, Z.ltb_lt. done.
  - intros candidate. rewrite list_elem_of_fmap. setoid_rewrite list_elem_of_In. setoid_rewrite filter_In.
    unfold is_incomplete. setoid_rewrite bool_decide_eq_true. naive_solver.
Qed.

(** a marker with other bytes than its own makes the inventory of the whole store
    fail, and is not reported as an incomplete entry. *)
Theorem malformed_marker_stops_inventory (m : ManagedCache) (w : World) listed name es content :
  tree_get [ENTRIES_DIR] (w_tree w) = Some (Dir listed) → (name, Dir es) ∈ listed →
  starts_with ".entry-tmp-" name = false →
  tree_get [ENTRIES_DIR; name; COMPLETE_FILE] (w_tree w) = Some (File content) → content ≠ COMPLETE_BYTES →
  ∀ i, (inventory c m w).1 ≠ Done i.
Proof.
  intros Hl Hin Hn Hm Hc i Hp. destruct (inventory_report m w) as [_ Hx]. destruct (Hx i Hp) as (listed' & Hl' & Hf & _).
  rewrite Hl in Hl'. injection Hl' as <-. assert (Hin' : (name, Dir es) ∈ sort_by fst listed) by (by rewrite (sort_by_perm fst listed)).
  apply list_elem_of_lookup in Hin' as [k Hk]. destruct (Forall2_lookup_l _ _ _ _ _ Hf Hk) as (e & _ & _ & _ & _ & _ & He).
  cbn [fst snd] in He. rewrite Hn, Hm in He. unfold status_of in He. by rewrite bool_decide_eq_false_2 in He.
Qed.
End Inventory.

(** * Keys *)

Section Keys.
Context `{BackendOk}.

Lemma validated_digest_ok digest hex :
  validated_digest_hex digest = Ok hex ↔ digest = "sha256:" +:+ hex ∧ len hex = 64 ∧ all_bytes is_lower_hex hex = true.
Proof.
  unfold validated_digest_hex. rewrite bind_ok. setoid_rewrite bind_ok. setoid_rewrite ok_or_ok. setoid_rewrite strip_prefix_some.
  split.
  - intros (h & -> & u & He & [= ->]). apply ensure_ok in He. apply andb_true_iff in He as [Hl Hx]. split_and!; [done|lia|done].
  - intros (-> & Hl & Hx). exists hex. split; [done|]. exists (). split; [|done]. apply ensure_ok. rewrite Hl, Hx. done.
Qed.

Lemma key_digest_of envelope cache key :
  for_plan_cache envelope cache = Ok key →
  canonical_digest {| ki_schema_version := "1.0"; ki_project := ep_project (pe_plan envelope);
                      ki_plan_digest := pe_plan_digest envelope; ki_image := nr_image (ep_runtime (pe_plan envelope));
                      ki_cache_id := nc_id cache |} = Ok (ck_digest key).
Proof.
  unfold for_plan_cache. intros Hk. apply bind_ok in Hk as (b & Hb & [= <-]). apply map_err_ok in Hb.
  unfold canonical_digest. by rewrite Hb.
Qed.

(** C35.  A key is well formed and names its inputs: the digest of every key that is
    made is accepted wherever digests are checked, its directory is one that the
    inventory knows, different keys have different directories, and two plan caches
    with one key agree in project, plan, image and identifier, or two different
    documents have the same SHA-256. *)
Theorem cache_key_sound (envelope : ExecutionPlanEnvelopeV1) (cache : NormalizedCache) (key : CacheKey) :
  for_plan_cache envelope cache = Ok key →
  is_ok (validated_digest_hex (ck_digest key)) = true ∧
  is_cache_directory_name (directory_name key) = true ∧
  (∀ key' hex, validated_digest_hex (ck_digest key') = Ok hex → directory_name key' = directory_name key → key' = key) ∧
  (∀ envelope' cache', for_plan_cache envelope' cache' = Ok key →
     (ep_project (pe_plan envelope') = ep_project (pe_plan envelope) ∧ pe_plan_digest envelope' = pe_plan_digest envelope ∧
      nr_image (ep_runtime (pe_plan envelope')) = nr_image (ep_runtime (pe_plan envelope)) ∧ nc_id cache' = nc_id cache) ∨ Collision).
Proof.
  intros Hkey. assert (Hd : ∃ hex, ck_digest key = "sha256:" +:+ hex ∧ len hex = 64 ∧ all_bytes is_lower_hex hex = true).
  { apply key_digest_of in Hkey. destruct (canonical_digest_shape _ _ Hkey) as (hex & Hp & ?). exists hex.
    by apply strip_prefix_some in Hp. }
  destruct Hd as (hex & Hd & Hl & Hx). destruct key as [digest]. cbn [ck_digest] in Hd. subst digest.
  assert (Hv : ∀ h, len h = 64 → all_bytes is_lower_hex h = true → validated_digest_hex ("sha256:" +:+ h) = Ok h)
    by (intros h ? ?; by apply validated_digest_ok).
  assert (Hdir : ∀ h, directory_name {| ck_digest := "sha256:" +:+ h |} = "sha256-" +:+ h).
  { intros h. unfold directory_name. cbn [ck_digest]. rewrite bytes_append.
    change (drop 7 (bytes "sha256:" ++ bytes h)) with (bytes h). by rewrite str_bytes. }
  split_and!.
  - cbn [ck_digest]. by rewrite Hv.
  - rewrite Hdir. unfold is_cache_directory_name. rewrite bytes_append, starts_with_append. cbn -[validated_digest_hex].
    rewrite andb_true_r. change (is_ok (validated_digest_hex (str (bytes "sha256:" ++ bytes hex))) = true).
    by rewrite <-bytes_append, str_bytes, Hv.
  - intros [d] h Hk Hn. cbn [ck_digest] in Hk. apply validated_digest_ok in Hk as (-> & _ & _). rewrite !Hdir in Hn.
    apply append_inj in Hn. by rewrite Hn.
  - intros envelope' cache' Hkey'. apply key_digest_of in Hkey, Hkey'.
    destruct (canonical_digest_bind _ _ _ Hkey' Hkey) as [Hn|Hc]; [left|by right].
    cbn in Hn. injection Hn as E1 E2 E3 E4. done.
Qed.
End Keys.

(** * Example *)

Module CacheExample.
Definition key_a : string := "sha256:" +:+ str (replicate 64 "0"%char).
Definition key_b : string := "sha256:" +:+ str (replicate 64 "1"%char).
Definition plan : string := "sha256:" +:+ str (replicate 64 "2"%char).

Definition manifest (key : string) (generation : Z) (state : string) : CacheGenerationManifestV1 :=
  {| gm_schema_version := "1.0"; gm_key_digest := key; gm_plan_digest := plan; gm_generation := generation; gm_state := state |}.
Definition manifests : list CacheGenerationManifestV1 :=
  [manifest key_a 1 "complete"; manifest key_b 1 "complete"; manifest key_a 2 "staging"; manifest key_b 2 "staging";
   manifest key_a 2 "complete"; manifest key_b 2 "complete"].

Definition line_of {T} `{Serialize T} (x : T) : list ascii :=
  match canonical_json x with Ok b => b ++ [line_feed] | Err _ => [] end.

Definition owner (key : string) (sequence : string) : PreparedCacheEntry :=
  let path := entry_path {| ck_digest := key |} in
  let staging := path ++ [".staging-7-" +:+ sequence] in
  {| pc_path := path; pc_data_path := staging ++ [DATA_DIR]; pc_staging_path := staging; pc_key_digest := key;
     pc_plan_digest := plan; pc_generation := 2; pc_was_complete := true |}.
Definition entry (key sequence : string) : CachePromotionJournalEntryV1 :=
  {| je_key_digest := key; je_plan_digest := plan; je_generation := 2; je_staging_name := ".staging-7-" +:+ sequence;
     je_backup_name := ".backup-7-" +:+ sequence; je_had_current := true; je_previous_marker := Some COMPLETE_BYTES;
     je_previous_manifest := Some (line_of (manifest key 1 "complete")) |}.
Definition journal : CachePromotionJournalV1 :=
  {| pj_schema_version := "1.0"; pj_operation_id := "7-2"; pj_state := "prepared"; pj_entries := [entry key_a "0"; entry key_b "1"] |}.

(** A parser that knows the documents of the example. *)
#[local] Instance parser : CacheParser :=
  {| parse_generation_manifest b := List.find (λ m, bool_decide (line_of m = b)) manifests;
     parse_promotion_journal b := if bool_decide (line_of journal = b) then Some journal else None |}.

Definition old_data : btmap string node := [("artifact", File (bytes "old"))].
Definition new_data : btmap string node := [("artifact", File (bytes "new"))].
Definition entry_node (key sequence : string) : node :=
  Dir [(COMPLETE_FILE, File COMPLETE_BYTES); (ENTRY_LOCK_FILE, File []);
       (GENERATION_MANIFEST_FILE, File (line_of (manifest key 1 "complete")));
       (".staging-7-" +:+ sequence,
        Dir [(GENERATION_MANIFEST_FILE, File (line_of (manifest key 2 "staging"))); (DATA_DIR, Dir new_data)]);
       (DATA_DIR, Dir old_data)].
Definition root : node :=
  Dir [(OWNER_FILE, File OWNER_BYTES); (PROMOTION_JOURNAL_FILE, File (line_of journal));
       (ENTRIES_DIR, Dir [(directory_name {| ck_digest := key_a |}, entry_node key_a "0");
                          (directory_name {| ck_digest := key_b |}, entry_node key_b "1")]);
       (WORKSPACES_DIR, Dir [])].

Definition process : CacheProcess :=
  {| cpr_pid := 7; cpr_policy := Preserve; cpr_clone := NoClonefile; cpr_unix := true; cpr_link_resolves _ _ := true |}.

(** The second entry is left when its old payload has been moved away and its
    marker and manifest are gone. *)
Definition no_rest : residue := {| re_bytes := 0; re_entries := [] |}.
Definition world : World :=
  {| w_tree := root; w_locks := []; w_sequence := 3; w_durable := 0; w_promoted := []; w_run_lock := 0;
     w_fates := replicate 21 Proceed ++ [Stop no_rest] |}.

Definition promoted (key sequence : string) : promotion :=
  {| pr_backup := ".backup-7-" +:+ sequence; pr_staging := ".staging-7-" +:+ sequence; pr_had := true;
     pr_data := Some (Dir old_data); pr_marker := Some COMPLETE_BYTES;
     pr_manifest := Some (line_of (manifest key 1 "complete")); pr_payload := new_data;
     pr_complete := manifest key 2 "complete" |}.
Definition slot_of (key sequence : string) : slot :=
  {| sl_prepared := owner key sequence; sl_entry := entry key sequence; sl_promotion := promoted key sequence |}.
Definition slots : list slot := [slot_of key_a "0"; slot_of key_b "1"].

Definition reboot (w : World) : World :=
  {| w_tree := w_tree w; w_locks := []; w_sequence := 0; w_durable := 0; w_promoted := []; w_run_lock := 0; w_fates := [] |}.
Definition data_of (key : string) (w : World) : option node :=
  tree_get (entry_path {| ck_digest := key |} ++ [DATA_DIR]) (w_tree w).

(** The run that the theorem is about: the first entry is new, the second old. *)
Example promotion_left_and_recovered :
  let w1 := (promotion_body process (sl_prepared <$> slots) journal world).2 in
  let '(r, w2) := recover_promotion_locked process (reboot w1) in
  (data_of key_b w1, r, data_of key_a w2, data_of key_b w2) =
  (None, Done (), Some (Dir new_data), Some (Dir old_data)).
Proof. vm_compute. reflexivity. Qed.


Lemma cache_key_sound_witness : ∃ key,
  for_plan_cache PlanExample.demo_plan {| nc_id := "target"; nc_mount_path := "/cache" |} = Ok key ∧
  is_cache_directory_name (directory_name key) = true.
Proof.
  eexists. split; [reflexivity|].
  refine (proj1 (proj2 (cache_key_sound PlanExample.demo_plan {| nc_id := "target"; nc_mount_path := "/cache" |} _ _))). reflexivity.
Defined.

Lemma slots_apart : separate (slot_path <$> slots).
Proof. cbn. split_and!; repeat constructor; intros [r E]; vm_compute in E; discriminate E. Qed.

Lemma slot_fine key sequence :
  (key, sequence) ∈ [(key_a, "0"); (key_b, "1")] → slot_ok (slot_of key sequence).
Proof.
  rewrite !elem_of_cons, elem_of_nil. intros [[= -> ->]|[[= -> ->]|[]]]; (split; [by split| | |intros _; vm_compute; by eexists|]).
  1, 4: split; try reflexivity; split; reflexivity.
  1, 3: split; reflexivity.
  all: intros b Hb; vm_compute in Hb; injection Hb as <-; vm_compute; reflexivity.
Qed.

Lemma slots_fine : Forall slot_ok slots.
Proof. repeat constructor; apply slot_fine; set_solver. Qed.

Lemma slots_staged : everywhere root (slot_staged <$> slots) root.
Proof.
  split; [done|]. repeat constructor; (eexists; split; [reflexivity|]; split; [split|done]; [by vm_compute|];
    do 3 eexists; split_and!; [reflexivity..|vm_compute; reflexivity|reflexivity]).
Qed.

Definition left_world : World := reboot (promotion_body process (sl_prepared <$> slots) journal world).2.

Lemma promotion_survives_witness :
  ∃ k w2, recover_promotion_locked process left_world = (Done (), w2) ∧ recovered_at root slots k (w_tree w2).
Proof.
  pose proof (proj2 (promotion_survives process) world slots journal slots_apart slots_fine ltac:(done) eq_refl
                ltac:(eexists; split; [reflexivity|vm_compute; reflexivity]) slots_staged) as Hs.
  unfold left_world. destruct (promotion_body process (sl_prepared <$> slots) journal world) as [r w1].
  destruct (Hs (reboot w1)) as [(k & w2 & E1 & E2 & _)|(w2 & _ & _ & s & es & Hin & Hh & _)]; [by split_and!|by exists k, w2|].
  exfalso. unfold slots in Hin. rewrite !elem_of_cons, elem_of_nil in Hin. destruct Hin as [->|[->|[]]]; discriminate Hh.
Defined.

(** The recovery of that run, left after it has moved the old payload back. *)
Definition with_fates (fates : list fate) (w : World) : World :=
  {| w_tree := w_tree w; w_locks := w_locks w; w_sequence := w_sequence w; w_durable := w_durable w; w_promoted := w_promoted w;
     w_run_lock := w_run_lock w; w_fates := fates |}.
Definition left_again : World :=
  reboot (recover_promotion_locked process (with_fates (replicate 9 Proceed ++ [Stop no_rest]) left_world)).2.

Lemma left_again_local :
  local (entry_path {| ck_digest := key_b |}) (w_tree left_again)
    (holds (promoted key_b "1") (Some (Dir old_data)) None None None) (w_tree left_again).
Proof. split; [apply outside_refl|]. eexists. split; [vm_compute; reflexivity|]. split_and!; by vm_compute. Qed.

Lemma interrupted_recovery_refused_witness :
  ∃ w', recover_one (entry key_b "1") left_again = (Failed PromotionUncertain, w') ∧ w_tree w' = w_tree left_again.
Proof.
  apply (interrupted_recovery_refused (promoted key_b "1") (entry key_b "1") (w_tree left_again) left_again).
  - apply (so_promotion (slot_of key_b "1")), slot_fine. set_solver.
  - apply (so_journaled (slot_of key_b "1")), slot_fine. set_solver.
  - reflexivity.
  - done.
  - reflexivity.
  - apply left_again_local.
Defined.

(** A new process prepares the second entry again and promotes it. *)
Definition retry_world : World :=
  set_world_locks [entry_path {| ck_digest := key_a |} ++ [ENTRY_LOCK_FILE]] left_world.

Lemma promotion_waits_for_its_own_lock_witness :
  ∃ w', promote_entries process [owner key_a "9"] retry_world =
          (Failed (LockBusy (entry_path {| ck_digest := key_a |} ++ [ENTRY_LOCK_FILE])), w') ∧
        ∀ q, apart [PROMOTION_LOCK_FILE] q → tree_get q (w_tree w') = tree_get q (w_tree retry_world).
Proof.
  apply (promotion_waits_for_its_own_lock process [owner key_a "9"] journal (entry key_a "0") [entry key_b "1"]).
  - discriminate.
  - reflexivity.
  - vm_compute. reflexivity.
  - vm_compute. exact I.
  - change ([PROMOTION_LOCK_FILE] ∉ [entry_path {| ck_digest := key_a |} ++ [ENTRY_LOCK_FILE]]).
    rewrite list_elem_of_singleton. vm_compute. discriminate.
  - exists (line_of journal). split; vm_compute; reflexivity.
  - reflexivity.
  - vm_compute. reflexivity.
  - vm_compute. reflexivity.
  - vm_compute. reflexivity.
  - vm_compute. reflexivity.
  - exists []. vm_compute. reflexivity.
  - apply list_elem_of_here.
Defined.

Definition managed : ManagedCache :=
  {| mc_root := {| rr_path := []; rr_source := Explicit |}; mc_disk_budget_bytes := 5 |}.

Lemma cleanup_exact_witness : ∃ plan,
  (cleanup_dry_run process managed left_world).1 = Done plan ∧ length (cp_candidates plan) = 1%nat ∧
  cp_reclaimable_bytes plan = foldr Z.add 0 (cc_bytes <$> cp_candidates plan).
Proof.
  pose proof (cleanup_exact process managed left_world) as Hc.
  assert (Hd : match (cleanup_dry_run process managed left_world).1 with
               | Done plan => bool_decide (length (cp_candidates plan) = 1%nat) | _ => false end = true)
    by (vm_compute; reflexivity).
  destruct (cleanup_dry_run process managed left_world) as [r w']. destruct Hc as [_ Hc]. cbn [fst] in *.
  destruct r as [plan|e|]; [|discriminate..]. apply bool_decide_eq_true in Hd. exists plan.
  destruct (Hc plan eq_refl) as (listed & entries & _ & _ & _ & _ & _ & _ & Hr & _). by split_and!.
Defined.
End CacheExample.

Module RootExample.
Definition home : list component := [RootDir; Normal "home"; Normal "u"].
(** Only the home directory and its parents are there. *)
Definition answers : PathOracle :=
  {| po_is_symlink p := if bool_decide (p `prefix_of` home) then Ok false else Err NotFound;
     po_canonicalize p := if bool_decide (p `prefix_of` home ++ [Normal "repo"]) then Ok p else
                          if bool_decide (p = [RootDir; Normal "tmp"]) then Ok p else Err NotFound;
     po_is_dir _ := true;
     po_temp_dir := [RootDir; Normal "tmp"] |}.
Definition options : CacheRootOptions :=
  {| ro_explicit := None; ro_environment := None; ro_home := Some "/home/u"; ro_xdg_cache_home := None;
     ro_local_app_data := None; ro_platform := FamilyUnix |}.
Definition chosen : ResolvedCacheRoot :=
  {| rr_path := home ++ [Normal ".cache"; Normal "commit-ci-preflight-build-v1"]; rr_source := PlatformDefault |}.

Lemma resolved_root_safe_witness :
  is_Some (path_parent (rr_path chosen)) ∧ ¬ (home ++ [Normal "repo"]) `prefix_of` rr_path chosen.
Proof.
  destruct (resolved_root_safe answers (home ++ [Normal "repo"]) options chosen ltac:(vm_compute; reflexivity))
    as (text & repository & temporary & _ & _ & _ & _ & _ & _ & Hp & Hr & Hn & _).
  split; [exact Hp|]. vm_compute in Hr. injection Hr as <-. exact Hn.
Defined.
End RootExample.
