(* ===== verification/Workspace.v ===== *)
(** The managed workspace of a run ([src/src/workspace.rs]): the plan of its mounts,
    its preparation under a run lock, and the check of the mounts before use.

    A host path is the list of its components.  What lies below the cache root is
    the tree of the [World], by the path relative to the root; of other paths, and of
    the directory of the run journal, the system answers ([HostView]). *)
From S2P Require Import Prelude.
From S2P Require Import RustStr.
From S2P Require Import BTree.
From S2P Require Import Canonical.
From S2P Require Import Config.
From S2P Require Import Durable.
From S2P Require Import RunJournal.
From S2P Require Import FileSystem.
From S2P Require Import CachePayload.
From S2P Require Import CacheRoot.
From S2P Require Import Cache.
Local Open Scope Z_scope.

Definition CONTAINER_WORKSPACE : string := "/workspace".
Definition RUN_LOCK_FILE : string := ".run-lock-v1".

(** * Data *)

Inductive MountAccess : Type := ReadOnly | ReadWrite.
Inductive MountPurpose : Type := PurposeRepository | PurposeCache | PurposeArtifact.
Inductive MountSourceKind : Type := SourceDirectory | SourceRegularFile.

Record MountSourceExpectation : Type := {
  me_kind : MountSourceKind;
  me_canonical_anchor : list component;
  me_exact_repository : option (list component);
  me_cache_generation : option CacheGenerationExpectation;
}.

Record MountBinding : Type := {
  mb_source : list component;
  mb_target : string;
  mb_access : MountAccess;
  mb_purpose : MountPurpose;
  mb_logical_id : option string;
  mb_expectation : option MountSourceExpectation;
}.

Record WorkspacePlanV1 : Type := {
  wp_schema_version : string;
  wp_repository : list component;
  wp_source_snapshot_digest : option string;
  wp_run_root : list component;
  wp_mounts : list MountBinding;
}.

Inductive WorkspaceError : Type :=
  | MountExpectationMissing
  | MountSourceChanged (purpose : MountPurpose)
  | RepositoryNotDirectory
  | InvalidLogicalPath
  | UnsupportedHostPath
  | DuplicateTarget (target : string)
  | MissingRepositoryMountTarget (logical : string)
  | UnsafeRepositoryMountTarget (logical : string)
  | WorkspacePathEscape
  | WorkspaceBusy (lock : path)
  | UnsafeManagedObject
  | WorkspaceCache (e : CacheError)
  | WorkspaceIo (kind : io_kind).

Record WorkspaceLock : Type := { wl_path : path; wl_owner : list ascii }.

Record PreparedWorkspace : Type := {
  pw_plan : WorkspacePlanV1;
  pw_cache_entries : list PreparedCacheEntry;
  pw_lock : WorkspaceLock;
}.

#[global] Instance MountAccess_eq_dec : EqDecision MountAccess.
Proof. solve_decision. Defined.
#[global] Instance MountPurpose_eq_dec : EqDecision MountPurpose.
Proof. solve_decision. Defined.
#[global] Instance MountSourceKind_eq_dec : EqDecision MountSourceKind.
Proof. solve_decision. Defined.

(** * Paths *)

(** [Path::join]; a component [.] is only kept in front. *)
Definition path_join (base : list component) (text : string) : list component :=
  match components text with
  | RootDir :: p => RootDir :: p
  | CurDir :: p => base ++ p
  | p => base ++ p
  end.

(** [Path::to_str]. *)
Definition component_text (c : component) : string :=
  match c with RootDir => "" | CurDir => "." | ParentDir => ".." | Normal name => name end.
Definition path_text (p : list component) : string :=
  match p with [RootDir] => "/" | _ => String.concat "/" (component_text <$> p) end.
Definition to_str (p : list component) : option string :=
  let text := path_text p in if valid_utf8 (bytes text) then Some text else None.

(** [Path::strip_prefix]. *)
Definition strip_path (base p : list component) : option (list component) :=
  if path_starts_with p base then Some (drop (length base) p) else None.

Definition plain_segment (segment : string) : bool :=
  negb (is_empty segment) && negb (segment =? ".")%string && negb (segment =? "..")%string.

Definition validate_container_mount_target (target : string) : result WorkspaceError () :=
  _ ← ensure (negb (contains_char "," target || contains_char "=" target || contains_char "\" target
                    || has_control target)) InvalidLogicalPath;
  if (target =? CONTAINER_WORKSPACE)%string then Ok () else
  relative ← ok_or (strip_prefix CONTAINER_WORKSPACE target ≫= strip_prefix "/") InvalidLogicalPath;
  ensure (negb (is_empty relative || negb (forallb plain_segment (split "/" relative)))) InvalidLogicalPath.

Definition container_target (relative : string) : result WorkspaceError string :=
  _ ← ensure (negb (is_empty relative || starts_with "/" relative || contains_char "\" relative
                    || contains_char "," relative || contains_char "=" relative || has_control relative
                    || negb (forallb plain_segment (split "/" relative)))) InvalidLogicalPath;
  let target := CONTAINER_WORKSPACE +:+ "/" +:+ relative in
  _ ← validate_container_mount_target target;
  Ok target.

Definition validate_under_root (p root : list component) : result WorkspaceError () :=
  ensure (bool_decide (p = root) || path_starts_with p root) WorkspacePathEscape.

Definition validate_host_path (p : list component) : result WorkspaceError () :=
  text ← ok_or (to_str p) UnsupportedHostPath;
  ensure (negb (contains_char "," text || contains_char "=" text || has_control text)) UnsupportedHostPath.

Definition artifact_kind_for (check : NormalizedCheck) (p : string) : ArtifactKind :=
  match List.find (λ contract, (na_path contract =? p)%string) (nk_artifact_contracts check) with
  | Some contract => na_kind contract
  | None => RegularFile
  end.

(** * The plan of the mounts *)

Section Plan.
Context `{Backend} (os : PathOracle).

(** [ManagedCache::entry_data_path] and [workspace_path]. *)
Definition below (root : list component) (p : path) : list component := root ++ (Normal <$> p).

Definition cache_mount (envelope : ExecutionPlanEnvelopeV1) (cache : ResolvedCacheRoot)
    (cache_sources : btmap string (list component)) (st : btset string * list MountBinding) (declared : NormalizedCache) :
    result WorkspaceError (btset string * list MountBinding) :=
  let '(targets, mounts) := st in
  key ← map_err WorkspaceCache (for_plan_cache envelope declared);
  let source := default (below (rr_path cache) (entry_data_path key)) (map_get (nc_id declared) cache_sources) in
  _ ← validate_under_root source (rr_path cache);
  target ← container_target (nc_mount_path declared);
  let '(fresh, targets) := set_insert target targets in
  _ ← ensure fresh (DuplicateTarget target);
  Ok (targets, mounts ++ [{| mb_source := source; mb_target := target; mb_access := ReadWrite;
                             mb_purpose := PurposeCache; mb_logical_id := Some (nc_id declared);
                             mb_expectation := Some {| me_kind := SourceDirectory; me_canonical_anchor := rr_path cache;
                                                       me_exact_repository := None; me_cache_generation := None |} |}]).

Definition artifact_mount (run_root : list component) (check : NormalizedCheck)
    (st : btset string * list MountBinding) (artifact : string) : result WorkspaceError (btset string * list MountBinding) :=
  let '(targets, mounts) := st in
  let source := path_join (run_root ++ [Normal "artifacts"]) artifact in
  _ ← validate_under_root source run_root;
  target ← container_target artifact;
  let '(fresh, targets) := set_insert target targets in
  _ ← ensure fresh (DuplicateTarget target);
  Ok (targets, mounts ++ [{| mb_source := source; mb_target := target; mb_access := ReadWrite;
                             mb_purpose := PurposeArtifact; mb_logical_id := Some (nk_id check +:+ ":" +:+ artifact);
                             mb_expectation := Some {| me_kind := match artifact_kind_for check artifact with
                                                                  | Directory => SourceDirectory
                                                                  | RegularFile => SourceRegularFile
                                                                  end;
                                                       me_canonical_anchor := run_root; me_exact_repository := None;
                                                       me_cache_generation := None |} |}]).

Definition repository_mount (repository : list component) : MountBinding :=
  {| mb_source := repository; mb_target := CONTAINER_WORKSPACE; mb_access := ReadOnly; mb_purpose := PurposeRepository;
     mb_logical_id := None;
     mb_expectation := Some {| me_kind := SourceDirectory; me_canonical_anchor := repository;
                               me_exact_repository := Some repository; me_cache_generation := None |} |}.

Definition build_with_cache_sources (envelope : ExecutionPlanEnvelopeV1) (repository : list component)
    (cache : ResolvedCacheRoot) (cache_sources : btmap string (list component)) (source_snapshot_digest : option string) :
    result WorkspaceError WorkspacePlanV1 :=
  repository ← map_err WorkspaceIo (po_canonicalize os repository);
  _ ← ensure (po_is_dir os repository) RepositoryNotDirectory;
  _ ← validate_host_path repository;
  run_root ← map_err WorkspaceCache (workspace_path (pe_plan_digest envelope));
  let run_root := below (rr_path cache) run_root in
  _ ← validate_under_root run_root (rr_path cache);
  st ← try_fold (cache_mount envelope cache cache_sources) ([CONTAINER_WORKSPACE], [repository_mount repository])
         (ep_caches (pe_plan envelope));
  '(_, mounts) ← try_fold (λ st check, try_fold (artifact_mount run_root check) st (nk_artifacts check)) st
                   (ep_checks (pe_plan envelope));
  Ok {| wp_schema_version := "1.0"; wp_repository := repository; wp_source_snapshot_digest := source_snapshot_digest;
        wp_run_root := run_root; wp_mounts := mounts |}.

(** [WorkspacePlanV1::build]. *)
Definition build (envelope : ExecutionPlanEnvelopeV1) (repository : list component) (cache : ResolvedCacheRoot) :
    result WorkspaceError WorkspacePlanV1 :=
  build_with_cache_sources envelope repository cache [] None.
End Plan.

(** * What the system says of a path *)

Inductive file_kind : Type := KindDirectory | KindFile | KindSymlink | KindOther.
#[global] Instance file_kind_eq_dec : EqDecision file_kind.
Proof. solve_decision. Defined.

Definition kind_of (n : node) : file_kind :=
  match n with File _ => KindFile | Dir _ => KindDirectory | Symlink _ _ => KindSymlink | Special => KindOther end.

(** [hv_metadata] is [symlink_metadata] of a path that the tree of the cache root does
    not have. *)
Record HostView : Type := {
  hv_paths : PathOracle;
  hv_metadata : list component → result io_kind file_kind;
}.

(** [..] leads up, as the directories on the way are no links. *)
Definition tree_names (p : list component) : path :=
  foldl (λ p c, match c with Normal name => p ++ [name] | ParentDir => removelast p | _ => p end) [] p.

(** * Preparation *)

Section Prepare.
Context `{Backend, CacheParser} (c : CacheProcess) (host : HostView) (root : ResolvedCacheRoot).

(** The place in the tree of a path below the cache root. *)
Definition place (p : list component) : path := tree_names (drop (length (rr_path root)) p).

(** The run journal is below the cache root, with the source snapshots of the runs; its
    directory is not in the tree of the cache root but in that of the host. *)
Definition in_cache_tree (p : list component) : bool :=
  path_starts_with p (rr_path root) && negb (path_starts_with p (rr_path root ++ [Normal JOURNAL_DIR])).
Definition symlink_metadata (p : list component) (t : node) : result io_kind file_kind :=
  if in_cache_tree p then ok_or (kind_of <$> tree_get (place p) t) NotFound
  else hv_metadata host p.

(** [WorkspaceLock::acquire]; the path is relative to the cache root. *)
Definition lock_text (sequence : Z) : list ascii :=
  bytes ("pid=" +:+ decimal_text (cpr_pid c) +:+ " sequence=" +:+ decimal_text sequence) ++ [line_feed].
Definition acquire_run_lock (run_root : path) : fs WorkspaceError WorkspaceLock :=
  let p := run_root ++ [RUN_LOCK_FILE] in
  sequence ← fetch_run_lock_sequence;
  let owner := lock_text sequence in
  _ ← fs_map_err (λ kind, match kind with AlreadyExists => WorkspaceBusy p | _ => WorkspaceIo kind end)
        (create_new_file p);
  _ ← fs_catch (fs_map_err WorkspaceIo (_ ← write_all p owner; sync_all))
        (λ e, _ ← fs_ignore (remove_file_at p); fs_lift (Err e));
  mret {| wl_path := p; wl_owner := owner |}.

(** [Drop] of the lock. *)
Definition drop_run_lock (lock : WorkspaceLock) : fs WorkspaceError () :=
  n ← look (λ t, Ok (tree_get (wl_path lock) t));
  match n with
  | Some (File content) => if bool_decide (content = wl_owner lock) then fs_ignore (remove_file_at (wl_path lock)) else mret ()
  | _ => mret ()
  end.

Definition ensure_plain_directory (p : list component) : fs WorkspaceError () :=
  fs_catch (create_dir (place p))
    (λ kind, match kind with
             | AlreadyExists =>
               look (λ t, match tree_get (place p) t with
                          | None => Err (WorkspaceIo NotFound)
                          | Some (Dir _) => Ok ()
                          | Some _ => Err UnsafeManagedObject
                          end)
             | kind => fs_lift (Err (WorkspaceIo kind))
             end).

Definition create_managed_directory_chain (p base : list component) : fs WorkspaceError () :=
  _ ← fs_lift (validate_under_root p base);
  relative ← fs_lift (ok_or (strip_path base p) WorkspacePathEscape);
  fs_each ensure_plain_directory (prefixes base relative).

(** [File::create]. *)
Definition create_or_truncate (p : path) : fs io_kind () :=
  n ← look (λ t, Ok (tree_get p t));
  match n with Some _ => truncate_file p | None => create_new_file p end.

Definition prepare_artifact (run_root : list component) (artifact : string) (kind : ArtifactKind) : fs WorkspaceError () :=
  let p := path_join (run_root ++ [Normal "artifacts"]) artifact in
  _ ← fs_lift (validate_under_root p run_root);
  match kind with
  | Directory => create_managed_directory_chain p run_root
  | RegularFile =>
    up ← fs_lift (ok_or (path_parent p) WorkspacePathEscape);
    _ ← create_managed_directory_chain up run_root;
    _ ← look (λ t, match tree_get (place p) t with
                   | Some (File _) | None => Ok ()
                   | Some _ => Err UnsafeManagedObject
                   end);
    fs_map_err WorkspaceIo (create_or_truncate (place p))
  end.

Definition validate_repository_mount_target (repository : list component) (relative : string) (expect_directory : bool)
    (t : node) : result WorkspaceError () :=
  let target := path_join repository relative in
  kind ← match symlink_metadata target t with
         | Ok kind => Ok kind
         | Err NotFound => Err (MissingRepositoryMountTarget relative)
         | Err kind => Err (WorkspaceIo kind)
         end;
  _ ← ensure (bool_decide (kind = if expect_directory then KindDirectory else KindFile))
        (UnsafeRepositoryMountTarget relative);
  canonical ← map_err WorkspaceIo (po_canonicalize (hv_paths host) target);
  ensure (path_starts_with canonical repository) WorkspacePathEscape.

Definition is_directory (kind : ArtifactKind) : bool := match kind with Directory => true | RegularFile => false end.

Definition validate_repository_mount_targets (envelope : ExecutionPlanEnvelopeV1) (repository : list component)
    (t : node) : result WorkspaceError () :=
  repository ← map_err WorkspaceIo (po_canonicalize (hv_paths host) repository);
  _ ← try_each (λ cache, validate_repository_mount_target repository (nc_mount_path cache) true t)
        (ep_caches (pe_plan envelope));
  try_each (λ check,
    try_each (λ artifact, validate_repository_mount_target repository artifact
                            (is_directory (artifact_kind_for check artifact)) t) (nk_artifacts check))
    (ep_checks (pe_plan envelope)).

(** The entries go in their order, and are kept by nobody. *)
Definition drop_entries (entries : list PreparedCacheEntry) : fs WorkspaceError () :=
  fs_each (λ e, fs_map_err WorkspaceCache (drop_prepared e)) entries.

(** The first loop: on failure the entries prepared so far are dropped. *)
Definition prepare_cache (envelope : ExecutionPlanEnvelopeV1) (generation : Z) (declared : NormalizedCache) :
    fs WorkspaceError PreparedCacheEntry :=
  key ← fs_lift (map_err WorkspaceCache (for_plan_cache envelope declared));
  prepared ← fs_map_err WorkspaceCache (prepare_entry c key (pe_plan_digest envelope) generation);
  _ ← fs_catch (fs_lift (validate_under_root (below (rr_path root) (pc_data_path prepared)) (rr_path root)))
        (λ e, _ ← drop_entries [prepared]; fs_lift (Err e));
  mret prepared.

Definition with_entries {A} (entries : list PreparedCacheEntry) (m : fs WorkspaceError A) : fs WorkspaceError A :=
  fs_catch m (λ e, _ ← drop_entries entries; fs_lift (Err e)).

Fixpoint prepare_caches (envelope : ExecutionPlanEnvelopeV1) (generation : Z) (declared : list NormalizedCache)
    (sources : btmap string (list component)) (entries : list PreparedCacheEntry) :
    fs WorkspaceError (btmap string (list component) * list PreparedCacheEntry) :=
  match declared with
  | [] => mret (sources, entries)
  | cache :: declared =>
    prepared ← with_entries entries (prepare_cache envelope generation cache);
    prepare_caches envelope generation declared
      (map_insert (nc_id cache) (below (rr_path root) (pc_data_path prepared)) sources) (entries ++ [prepared])
  end.

(** The first mount of the entry gets its generation. *)
Definition expect_generation (entry : PreparedCacheEntry) (mount : MountBinding) : MountBinding :=
  {| mb_source := mb_source mount; mb_target := mb_target mount; mb_access := mb_access mount;
     mb_purpose := mb_purpose mount; mb_logical_id := mb_logical_id mount;
     mb_expectation := (λ e, {| me_kind := me_kind e; me_canonical_anchor := me_canonical_anchor e;
                                me_exact_repository := me_exact_repository e;
                                me_cache_generation := Some (generation_expectation entry) |}) <$> mb_expectation mount |}.
Fixpoint bind_generation (mounts : list MountBinding) (entry : PreparedCacheEntry) : list MountBinding :=
  match mounts with
  | [] => []
  | mount :: mounts =>
    if bool_decide (mb_purpose mount = PurposeCache)
       && bool_decide (mb_source mount = below (rr_path root) (pc_data_path entry))
    then expect_generation entry mount :: mounts
    else mount :: bind_generation mounts entry
  end.
Definition set_mounts (mounts : list MountBinding) (plan : WorkspacePlanV1) : WorkspacePlanV1 :=
  {| wp_schema_version := wp_schema_version plan; wp_repository := wp_repository plan;
     wp_source_snapshot_digest := wp_source_snapshot_digest plan; wp_run_root := wp_run_root plan; wp_mounts := mounts |}.

Definition prepare_with_generation (envelope : ExecutionPlanEnvelopeV1) (repository : list component) (generation : Z) :
    fs WorkspaceError PreparedWorkspace :=
  _ ← look (validate_repository_mount_targets envelope repository);
  run_root ← fs_lift (map_err WorkspaceCache (workspace_path (pe_plan_digest envelope)));
  let absolute := below (rr_path root) run_root in
  _ ← create_managed_directory_chain absolute (rr_path root);
  lock ← acquire_run_lock run_root;
  fs_catch
    ('(sources, entries) ← prepare_caches envelope generation (ep_caches (pe_plan envelope)) [] [];
     with_entries entries
       (_ ← fs_each (λ check,
              fs_each (λ artifact, prepare_artifact absolute artifact (artifact_kind_for check artifact))
                (nk_artifacts check)) (ep_checks (pe_plan envelope));
        plan ← fs_lift (build_with_cache_sources (hv_paths host) envelope repository root sources None);
        mret {| pw_plan := set_mounts (foldl bind_generation (wp_mounts plan) entries) plan;
                pw_cache_entries := entries; pw_lock := lock |}))
    (λ e, _ ← drop_run_lock lock; fs_lift (Err e)).

Definition prepare (envelope : ExecutionPlanEnvelopeV1) (repository : list component) : fs WorkspaceError PreparedWorkspace :=
  prepare_with_generation envelope repository 0.

Definition prepare_snapshot_with_generation (envelope : ExecutionPlanEnvelopeV1) (snapshot_root : list component)
    (source_snapshot_digest : string) (generation : Z) : fs WorkspaceError PreparedWorkspace :=
  prepared ← prepare_with_generation envelope snapshot_root generation;
  let plan := pw_plan prepared in
  mret {| pw_plan := {| wp_schema_version := wp_schema_version plan; wp_repository := wp_repository plan;
                        wp_source_snapshot_digest := Some source_snapshot_digest; wp_run_root := wp_run_root plan;
                        wp_mounts := wp_mounts plan |};
          pw_cache_entries := pw_cache_entries prepared; pw_lock := pw_lock prepared |}.

Definition prepare_snapshot (envelope : ExecutionPlanEnvelopeV1) (snapshot_root : list component)
    (source_snapshot_digest : string) : fs WorkspaceError PreparedWorkspace :=
  prepare_snapshot_with_generation envelope snapshot_root source_snapshot_digest 0.

Definition mark_caches_complete (w : PreparedWorkspace) : fs WorkspaceError CachePromotionOutcome :=
  fs_map_err WorkspaceCache (promote_entries c (pw_cache_entries w)).

(** The drop of a prepared workspace: its fields in their order. *)
Definition drop_workspace (w : PreparedWorkspace) : fs WorkspaceError () :=
  _ ← drop_entries (pw_cache_entries w);
  drop_run_lock (pw_lock w).

(** * The mounts before use *)

Definition revalidate_mount (mount : MountBinding) : fs WorkspaceError () :=
  let changed := MountSourceChanged (mb_purpose mount) in
  expectation ← fs_lift (ok_or (mb_expectation mount) MountExpectationMissing);
  relative ← fs_lift (ok_or (strip_path (me_canonical_anchor expectation) (mb_source mount)) changed);
  _ ← fs_each (λ current, look (λ t,
        kind ← map_err (λ _, changed) (symlink_metadata current t);
        ensure (negb (bool_decide (kind = KindSymlink))) changed)) (prefixes (me_canonical_anchor expectation) relative);
  kind ← look (λ t, map_err (λ _, changed) (symlink_metadata (mb_source mount) t));
  _ ← fs_lift (ensure (bool_decide (kind = match me_kind expectation with
                                           | SourceDirectory => KindDirectory
                                           | SourceRegularFile => KindFile
                                           end)) changed);
  _ ← fs_lift (map_err (λ _, changed) (validate_host_path (mb_source mount)));
  canonical ← fs_lift (map_err (λ _, changed) (po_canonicalize (hv_paths host) (mb_source mount)));
  _ ← fs_lift (match me_exact_repository expectation with
               | Some repository => ensure (bool_decide (canonical = repository)) changed
               | None => Ok ()
               end);
  _ ← fs_lift (ensure (path_starts_with canonical (me_canonical_anchor expectation)) changed);
  match mb_purpose mount with
  | PurposeCache =>
    generation ← fs_lift (ok_or (me_cache_generation expectation) changed);
    fs_map_err (λ _, changed) (revalidate_generation_source (place (mb_source mount)) generation)
  | _ => mret ()
  end.

Definition revalidate_mount_sources (mounts : list MountBinding) : fs WorkspaceError () := fs_each revalidate_mount mounts.
End Prepare.
