(* ===== verification/WorkspaceProps.v ===== *)
(** Lemmas on the paths of a workspace: the paths of a plan are lists of names. *)
From S2P Require Import Prelude.
From S2P Require Import RustStr.
From S2P Require Import BTree.
From S2P Require Import Canonical.
From S2P Require Import Config.
From S2P Require Import ConfigProps.
From S2P Require Import PlanProps.
From S2P Require Import Durable.
From S2P Require Import FileSystem.
From S2P Require Import CachePayload.
From S2P Require Import CacheRoot.
From S2P Require Import Cache.
From S2P Require Import Workspace.
Local Open Scope Z_scope.

Definition normals (names : path) : list component := Normal <$> names.

Lemma normals_app p q : normals (p ++ q) = normals p ++ normals q.
Proof. apply fmap_app. Qed.

Lemma tree_names_normals names : tree_names (normals names) = names.
Proof.
  unfold tree_names. assert (G : ∀ acc, foldl (λ p c, match c with Normal name => p ++ [name] | ParentDir => removelast p | _ => p end)
    acc (normals names) = acc ++ names); [|by rewrite G].
  induction names as [|k names IH]; intros acc; cbn; [by rewrite app_nil_r|]. by rewrite IH, <-app_assoc.
Qed.

(** The segments of a path that the configuration accepts are its names. *)
Definition logical_names (v : string) : path := if (v =? ".")%string then [] else split "/" v.

Lemma safe_segments v :
  safe_relative v = true → v ≠ "." → starts_with "/" v = false ∧ Forall (λ s, plain_segment s = true) (split "/" v).
Proof.
  unfold safe_relative. intros Hs Hv. apply orb_true_iff in Hs as [Hs|Hs]; [by bool_prop|]. bool_prop.
  split; [done|]. rewrite Forall_forall. intros s Hin.
  match goal with H : forallb _ _ = true |- _ => rewrite forallb_forall in H; apply H end. by apply list_elem_of_In.
Qed.

(** Names are kept as they are. *)
Lemma kept_names l : Forall (λ s, plain_segment s = true) l →
  named_component <$> List.filter (λ p, is_nonempty p && negb (p =? ".")%string) l = normals l.
Proof.
  induction 1 as [|s l Hs Hall IH]; [done|]. cbn [List.filter]. unfold plain_segment in Hs.
  assert (is_nonempty s && negb (s =? ".")%string = true) as -> by (unfold is_nonempty; bool_prop; apply andb_true_iff; split; apply negb_true_iff; [done|by apply String.eqb_neq]).
  rewrite fmap_cons, IH. unfold normals. rewrite fmap_cons. f_equal. unfold named_component. bool_prop.
  by rewrite (proj2 (String.eqb_neq _ _)).
Qed.

Lemma components_names v :
  starts_with "/" v = false → Forall (λ s, plain_segment s = true) (split "/" v) → components v = normals (split "/" v).
Proof.
  unfold components. intros -> Hall. rewrite kept_names by done.
  destruct (split "/" v) as [|s l] eqn:E; [done|]. inversion Hall as [|? ? Hs _]; subst.
  destruct (String.eqb_spec s "."); [subst; by vm_compute in Hs|].
  destruct s as [|[[] [] [] [] [] [] [] []] [|]]; try done.
Qed.

Lemma components_safe v : safe_relative v = true → v ≠ "." → components v = normals (split "/" v).
Proof. intros Hs Hv. destruct (safe_segments v Hs Hv). by apply components_names. Qed.

Lemma split_nonempty v : split "/" v ≠ [].
Proof. unfold split. intros E. apply fmap_nil_inv in E. by apply (split_list_nonempty "/" (bytes v)). Qed.

(** * Targets *)

Lemma contains_char_append c s t : contains_char c (s +:+ t) = contains_char c s || contains_char c t.
Proof. unfold contains_char. rewrite bytes_append. apply existsb_app. Qed.

Definition mountable (v : string) : bool := negb (contains_char "," v || contains_char "=" v).

(** A path as the configuration makes it. *)
Definition plan_path (v : string) : Prop := safe_relative v = true ∧ v ≠ "." ∧ is_empty v = false ∧ has_control v = false.

Lemma no_backslash v : safe_relative v = true → contains_char "\" v = false.
Proof.
  unfold safe_relative. intros Hs. apply orb_true_iff in Hs as [Hs|Hs]; bool_prop; [by subst|done].
Qed.

Definition workspace_target (v : string) : string := CONTAINER_WORKSPACE +:+ "/" +:+ v.

Lemma control_target v : has_control (workspace_target v) = has_control v.
Proof. reflexivity. Qed.

Lemma target_chars c v : contains_char c (workspace_target v) = contains_char c "/workspace/" || contains_char c v.
Proof. change (workspace_target v) with ("/workspace/" +:+ v). apply contains_char_append. Qed.

Lemma container_target_eq v :
  plan_path v → container_target v = if mountable v then Ok (workspace_target v) else Err InvalidLogicalPath.
Proof.
  intros (Hs & Hd & He & Hc). destruct (safe_segments v Hs Hd) as [Hslash Hseg]. pose proof (no_backslash v Hs) as Hb.
  assert (Hall : forallb plain_segment (split "/" v) = true).
  { apply forallb_forall. intros x Hx. rewrite Forall_forall in Hseg. apply Hseg. by apply list_elem_of_In. }
  unfold container_target, mountable. rewrite He, Hslash, Hb, Hc, Hall. cbn [orb negb].
  destruct (contains_char "," v) eqn:E1; [done|]. destruct (contains_char "=" v) eqn:E2; [done|]. cbn [orb negb ensure mbind result_bind].
  change (CONTAINER_WORKSPACE +:+ "/" +:+ v) with (workspace_target v). unfold validate_container_mount_target.
  rewrite control_target, Hc, !target_chars, E1, E2, Hb. cbn [orb negb ensure mbind result_bind].
  assert (Hne : (workspace_target v =? CONTAINER_WORKSPACE)%string = false).
  { apply String.eqb_neq. unfold workspace_target, CONTAINER_WORKSPACE. cbn. discriminate. }
  rewrite Hne. assert (Hp : strip_prefix CONTAINER_WORKSPACE (workspace_target v) ≫= strip_prefix "/" = Some v).
  { assert (strip_prefix CONTAINER_WORKSPACE (workspace_target v) = Some ("/" +:+ v)) as -> by (by apply strip_prefix_some).
    cbn [mbind option_bind]. by apply strip_prefix_some. }
  rewrite Hp. cbn [ok_or mbind result_bind]. by rewrite He, Hall.
Qed.

Lemma container_target_confined v target :
  container_target v = Ok target →
  target = workspace_target v ∧ starts_with "/" v = false ∧ Forall (λ s, plain_segment s = true) (split "/" v) ∧
  mountable v = true ∧ has_control v = false.
Proof.
  unfold container_target, mountable. intros Ht. res_inv. subst. bool_prop. rewrite negb_orb.
  split_and!; try done; [|by apply andb_true_iff; split; apply negb_true_iff]. rewrite Forall_forall. intros s Hs.
  match goal with Hf : forallb _ _ = true |- _ => rewrite forallb_forall in Hf; apply Hf end. by apply list_elem_of_In.
Qed.

Lemma path_join_names base v :
  starts_with "/" v = false → Forall (λ s, plain_segment s = true) (split "/" v) → path_join base v = base ++ normals (split "/" v).
Proof.
  intros Hs Hall. unfold path_join. rewrite components_names by done. pose proof (split_nonempty v).
  by destruct (split "/" v).
Qed.

(** * The loops over the mounts *)

Section Loops.
Context {A : Type} (prepare : A → result WorkspaceError (string * MountBinding)).

(** What both loops do with a target and its mount. *)
Definition mount_step (st : btset string * list MountBinding) (a : A) : result WorkspaceError (btset string * list MountBinding) :=
  '(target, mount) ← prepare a;
  let '(fresh, targets) := set_insert target st.1 in
  _ ← ensure fresh (DuplicateTarget target);
  Ok (targets, st.2 ++ [mount]).

Lemma mount_loop_ok l : ∀ targets mounts st,
  set_sorted targets →
  try_fold mount_step (targets, mounts) l = Ok st ↔
  ∃ ps, Forall2 (λ a p, prepare a = Ok p) l ps ∧ NoDup ps.*1 ∧ (∀ t, t ∈ ps.*1 → t ∉ targets) ∧
        st.2 = mounts ++ ps.*2 ∧ set_sorted st.1 ∧ (∀ t, t ∈ st.1 ↔ t ∈ targets ∨ t ∈ ps.*1).
Proof.
  induction l as [|a l IH]; intros targets mounts st Hs; cbn [try_fold].
  { split.
    - intros [= <-]. exists []. cbn. rewrite app_nil_r. split_and!; try done; try constructor; set_solver.
    - intros (ps & Hps & _ & _ & Hm & Hst & Ht). inversion Hps; subst. cbn in *. rewrite app_nil_r in Hm.
      destruct st as [T M]. cbn in *. subst. f_equal. f_equal. apply sorted_ext; [done..|]. set_solver. }
  split.
  - intros Hl. apply bind_ok in Hl as (st1 & H1 & Hl). unfold mount_step in H1. apply bind_ok in H1 as ([t m] & Hp & H1).
    cbn [fst snd] in H1.
    pose proof (set_insert_new t targets Hs) as Hnew. pose proof (set_insert_sorted t targets Hs) as Hs1.
    pose proof (λ y, elem_of_set_insert t y targets) as Hel.
    destruct (set_insert t targets) as [fresh T1]. cbn [fst snd] in *. apply bind_ok in H1 as ([] & Hf & [= <-]).
    apply ensure_ok in Hf. apply IH in Hl as (ps & Hps & Hnd & Hdis & Hm & Hst & Ht); [|done].
    exists ((t, m) :: ps). cbn. rewrite <-app_assoc in Hm. split_and!; try done.
    + by constructor.
    + constructor; [|done]. intros Hin. apply (Hdis t Hin). set_solver.
    + intros x Hx. apply elem_of_cons in Hx as [->|Hx]; [by apply Hnew|]. specialize (Hdis x Hx). set_solver.
    + intros x. rewrite Ht, Hel, elem_of_cons. tauto.
  - intros (ps & Hps & Hnd & Hdis & Hm & Hst & Ht). inversion Hps as [|? [t m] ? ps' Hp Hps']; subst. clear Hps.
    pose proof (set_insert_new t targets Hs) as Hnew. pose proof (set_insert_sorted t targets Hs) as Hs1.
    pose proof (λ y, elem_of_set_insert t y targets) as Hel. cbn in Hnd, Hdis, Hm, Ht.
    assert (Hstep : mount_step (targets, mounts) a = Ok ((set_insert t targets).2, mounts ++ [m])).
    { unfold mount_step. rewrite Hp. cbn [mbind result_bind fst snd]. destruct (set_insert t targets) as [fresh T1]. cbn [fst snd] in *.
      by rewrite (proj2 Hnew) by (apply Hdis; left). }
    rewrite Hstep. cbn [mbind result_bind]. inversion Hnd as [|? ? Hnin Hnd']; subst. apply IH; [done|]. exists ps'.
    rewrite <-app_assoc. split_and!; try done.
    + intros x Hx. assert (x ∉ targets) by (apply Hdis; by right). intros Hin. rewrite Hel in Hin. set_solver.
    + intros x. rewrite Ht, Hel, elem_of_cons. tauto.
Qed.

Lemma mount_loop_run l targets mounts ps :
  set_sorted targets → Forall2 (λ a p, prepare a = Ok p) l ps → NoDup ps.*1 → (∀ t, t ∈ ps.*1 → t ∉ targets) →
  ∃ T, try_fold mount_step (targets, mounts) l = Ok (T, mounts ++ ps.*2) ∧ set_sorted T ∧
       (∀ t, t ∈ T ↔ t ∈ targets ∨ t ∈ ps.*1).
Proof.
  intros Hs Hps Hnd Hdis. destruct (set_from_list_spec (targets ++ ps.*1)) as [HsT HeT].
  assert (He : ∀ t, t ∈ set_from_list (targets ++ ps.*1) ↔ t ∈ targets ∨ t ∈ ps.*1) by (intros t; by rewrite HeT, elem_of_app).
  exists (set_from_list (targets ++ ps.*1)). split_and!; [|done..]. apply mount_loop_ok; [done|]. by exists ps.
Qed.
End Loops.

(** * The mounts of a plan *)

Lemma try_fold_ext {E S A} (f g : S → A → result E S) s l : (∀ s a, f s a = g s a) → try_fold f s l = try_fold g s l.
Proof. intros Hfg. revert s. induction l as [|a l IH]; intros s; cbn; [done|]. rewrite Hfg. destruct (g s a); [apply IH|done]. Qed.

Lemma try_fold_map {E S A B} (f : S → B → result E S) (g : A → B) s l :
  try_fold (λ s a, f s (g a)) s l = try_fold f s (g <$> l).
Proof. revert s. induction l as [|a l IH]; intros s; cbn; [done|]. destruct (f s (g a)); [apply IH|done]. Qed.

Section Mounts.
Context `{Backend} (os : PathOracle) (envelope : ExecutionPlanEnvelopeV1) (cache : ResolvedCacheRoot).

Definition cache_binding (source : list component) (declared : NormalizedCache) (target : string) : MountBinding :=
  {| mb_source := source; mb_target := target; mb_access := ReadWrite; mb_purpose := PurposeCache;
     mb_logical_id := Some (nc_id declared);
     mb_expectation := Some {| me_kind := SourceDirectory; me_canonical_anchor := rr_path cache;
                               me_exact_repository := None; me_cache_generation := None |} |}.

Definition prepare_cache_mount (sources : btmap string (list component)) (declared : NormalizedCache) :
    result WorkspaceError (string * MountBinding) :=
  key ← map_err WorkspaceCache (for_plan_cache envelope declared);
  let source := default (below (rr_path cache) (entry_data_path key)) (map_get (nc_id declared) sources) in
  _ ← validate_under_root source (rr_path cache);
  target ← container_target (nc_mount_path declared);
  Ok (target, cache_binding source declared target).

Definition artifact_binding (run_root source : list component) (check : NormalizedCheck) (artifact target : string) : MountBinding :=
  {| mb_source := source; mb_target := target; mb_access := ReadWrite; mb_purpose := PurposeArtifact;
     mb_logical_id := Some (nk_id check +:+ ":" +:+ artifact);
     mb_expectation := Some {| me_kind := match artifact_kind_for check artifact with
                                          | Directory => SourceDirectory
                                          | RegularFile => SourceRegularFile
                                          end;
                               me_canonical_anchor := run_root; me_exact_repository := None; me_cache_generation := None |} |}.

Definition prepare_artifact_mount (run_root : list component) (a : NormalizedCheck * string) :
    result WorkspaceError (string * MountBinding) :=
  let source := path_join (run_root ++ [Normal "artifacts"]) a.2 in
  _ ← validate_under_root source run_root;
  target ← container_target a.2;
  Ok (target, artifact_binding run_root source a.1 a.2 target).

Lemma cache_mount_eq sources st declared : cache_mount envelope cache sources st declared = mount_step (prepare_cache_mount sources) st declared.
Proof.
  destruct st as [targets mounts]. unfold cache_mount, mount_step, prepare_cache_mount.
  destruct (map_err _ _); [cbn [mbind result_bind]|done]. destruct (validate_under_root _ _); [cbn [mbind result_bind]|done].
  by destruct (container_target _).
Qed.

Lemma artifact_mount_eq run_root check st artifact :
  artifact_mount run_root check st artifact = mount_step (prepare_artifact_mount run_root) st (check, artifact).
Proof.
  destruct st as [targets mounts]. unfold artifact_mount, mount_step, prepare_artifact_mount. cbn [fst snd].
  destruct (validate_under_root _ _); [cbn [mbind result_bind]|done]. by destruct (container_target _).
Qed.

(** The artifacts of a plan with their checks. *)
Definition plan_artifacts (p : ExecutionPlanV1) : list (NormalizedCheck * string) :=
  ep_checks p ≫= (λ check, pair check <$> nk_artifacts check).

Lemma artifact_loop_eq run_root st :
  try_fold (λ st check, try_fold (artifact_mount run_root check) st (nk_artifacts check)) st (ep_checks (pe_plan envelope)) =
  try_fold (mount_step (prepare_artifact_mount run_root)) st (plan_artifacts (pe_plan envelope)).
Proof.
  unfold plan_artifacts. rewrite <-try_fold_flat. apply try_fold_ext. intros s check. rewrite <-try_fold_map.
  apply try_fold_ext. intros s' a. apply artifact_mount_eq.
Qed.

Lemma plan_artifacts_paths (p : ExecutionPlanV1) : (plan_artifacts p).*2 = ep_checks p ≫= nk_artifacts.
Proof.
  unfold plan_artifacts. induction (ep_checks p) as [|check l IH]; [done|]. cbn [mbind list_bind] in *. rewrite fmap_app, IH.
  f_equal. rewrite <-list_fmap_compose. apply list_fmap_id.
Qed.

(** [build_with_cache_sources], its two loops as one list of mounts. *)
Lemma workspace_build_ok repository sources digest plan :
  build_with_cache_sources os envelope repository cache sources digest = Ok plan ↔
  ∃ canonical run_root caches artifacts,
    po_canonicalize os repository = Ok canonical ∧ po_is_dir os canonical = true ∧ validate_host_path canonical = Ok () ∧
    workspace_path (pe_plan_digest envelope) = Ok run_root ∧
    Forall2 (λ a p, prepare_cache_mount sources a = Ok p) (ep_caches (pe_plan envelope)) caches ∧
    Forall2 (λ a p, prepare_artifact_mount (below (rr_path cache) run_root) a = Ok p) (plan_artifacts (pe_plan envelope)) artifacts ∧
    NoDup (CONTAINER_WORKSPACE :: (caches ++ artifacts).*1) ∧
    plan = {| wp_schema_version := "1.0"; wp_repository := canonical; wp_source_snapshot_digest := digest;
              wp_run_root := below (rr_path cache) run_root;
              wp_mounts := repository_mount canonical :: (caches ++ artifacts).*2 |}.
Proof.
  unfold build_with_cache_sources.
  assert (Hunder : ∀ p, validate_under_root (below (rr_path cache) p) (rr_path cache) = Ok ()).
  { intros p. unfold validate_under_root, path_starts_with, below. rewrite (bool_decide_eq_true_2 (_ `prefix_of` _)) by apply prefix_app_r, reflexivity.
    by rewrite orb_true_r. }
  assert (Hs0 : set_sorted [CONTAINER_WORKSPACE]) by repeat constructor. split.
  - intros Hb. apply bind_ok in Hb as (canonical & Hc%map_err_ok & Hb). apply bind_ok in Hb as ([] & Hd%ensure_ok & Hb).
    apply bind_ok in Hb as ([] & Hh & Hb). apply bind_ok in Hb as (run_root & Hr%map_err_ok & Hb). apply bind_ok in Hb as ([] & _ & Hb).
    apply bind_ok in Hb as (st & Hst & Hb). apply bind_ok in Hb as ([targets mounts] & Ha & [= <-]).
    rewrite artifact_loop_eq in Ha. rewrite (try_fold_ext _ _ _ _ (cache_mount_eq sources)) in Hst.
    apply mount_loop_ok in Hst as (caches & Hcs & Hn1 & Hd1 & Hm1 & Hs1 & He1); [|done]. destruct st as [T1 M1]. cbn [fst snd] in *.
    apply mount_loop_ok in Ha as (artifacts & Has & Hn2 & Hd2 & Hm2 & Hs2 & He2); [|done]. cbn [fst snd] in *. subst.
    exists canonical, run_root, caches, artifacts. split_and!; try done.
    + rewrite fmap_app. constructor.
      * rewrite elem_of_app. intros [Hin|Hin]; [by apply (Hd1 _ Hin); left|]. apply (Hd2 _ Hin), He1. left. left.
      * apply NoDup_app. split_and!; [done| |done]. intros t Ht Ht'. apply (Hd2 _ Ht'), He1. by right.
    + by rewrite fmap_app.
  - intros (canonical & run_root & caches & artifacts & Hc & Hd & Hh & Hr & Hcs & Has & Hnd & ->).
    rewrite Hc. cbn [map_err mbind result_bind]. rewrite Hd, Hh, Hr. cbn [map_err ensure mbind result_bind]. rewrite Hunder.
    cbn [mbind result_bind]. inversion Hnd as [|? ? Hni Hnd']; subst. rewrite fmap_app in Hni, Hnd'. apply NoDup_app in Hnd' as (Hn1 & Hdis & Hn2).
    rewrite (try_fold_ext _ _ _ _ (cache_mount_eq sources)).
    destruct (mount_loop_run (prepare_cache_mount sources) (ep_caches (pe_plan envelope)) [CONTAINER_WORKSPACE]
      [repository_mount canonical] caches Hs0 Hcs Hn1) as (T & -> & HT & HeT).
    { intros t Ht ->%list_elem_of_singleton. apply Hni. apply elem_of_app. by left. }
    cbn [mbind result_bind]. rewrite artifact_loop_eq.
    destruct (mount_loop_run (prepare_artifact_mount (below (rr_path cache) run_root)) (plan_artifacts (pe_plan envelope)) T
      ([repository_mount canonical] ++ caches.*2) artifacts HT Has Hn2) as (T2 & -> & _).
    { intros t Ht HtT. apply HeT in HtT as [->%list_elem_of_singleton|HtT]; [apply Hni, elem_of_app; by right|by eapply Hdis]. }
    cbn [mbind result_bind]. by rewrite fmap_app.
Qed.
End Mounts.

(** * The paths of an accepted configuration *)

Definition mount_paths (p : ExecutionPlanV1) : list string := (nc_mount_path <$> ep_caches p) ++ (ep_checks p ≫= nk_artifacts).

Lemma relative_path_fine field v : validate_relative_path field v = Ok () → v ≠ "." → plan_path v.
Proof.
  unfold validate_relative_path, validate_text. intros Hv Hd. res_inv. bool_prop. by split_and!.
Qed.

Lemma plan_paths_fine `{Backend} c e : into_plan c = Ok e → Forall plan_path (mount_paths (pe_plan e)).
Proof.
  intros (_ & Hc & _ & Hk & _ & _ & _)%into_plan_ok. unfold mount_paths. apply Forall_app. split.
  - apply normalize_caches_ok in Hc as (_ & Hok & Hn & _ & ->). rewrite Forall_forall in Hok. apply Forall_forall. intros v Hv.
    apply list_elem_of_fmap in Hv as (cache & -> & Hin). unfold map_values in Hin. apply list_elem_of_fmap in Hin as ([k cache'] & -> & Hin).
    rewrite map_from_list_perm in Hin by (by rewrite cache_entry_keys).
    apply list_elem_of_fmap in Hin as (cc & [= -> ->] & Hin). destruct (Hok _ Hin) as (_ & Hr & Hd).
    by eapply relative_path_fine.
  - apply normalize_checks_sorted in Hk as (ps & Hps & Hl & _). rewrite Forall_forall. intros v Hv.
    apply list_elem_of_bind in Hv as (check & Hv & Hin). rewrite Hl in Hin. apply list_elem_of_fmap in Hin as (p & -> & Hin).
    apply list_elem_of_lookup in Hin as [i Hi]. destruct (Forall2_lookup_r _ _ _ _ _ Hps Hi) as (check & _ & Hp).
    unfold prepare_check in Hp. res_inv. subst. cbn in Hv. bool_prop.
    repeat match goal with Hu : unique_sorted _ _ _ = _ |- _ => apply unique_sorted_ok in Hu as (? & _ & ->) end.
    pose proof (proj1 (proj2 (set_from_list_spec _) _) Hv) as Hin. rename select (Forall (λ v, validate_relative_path "check.artifacts" v = Ok ()) _) into Ha.
    rewrite Forall_forall in Ha. eapply relative_path_fine; [by apply Ha|]. intros ->.
    match goal with He : existsb _ _ = false |- _ => apply not_true_iff_false in He; apply He, existsb_exists end.
    exists ".". split; [|done]. by apply list_elem_of_In.
Qed.

Lemma plan_paths_distinct `{Backend} c e : into_plan c = Ok e → NoDup (mount_paths (pe_plan e)).
Proof.
  intros (_ & _ & _ & _ & _ & Hi & _)%into_plan_ok. apply validate_path_isolation_ok in Hi.
  inversion Hi as [|? ? _ Hp]; subst. unfold mount_paths. clear Hi. induction Hp as [|v l Hv Hp IH]; constructor; [|done].
  intros Hin. rewrite Forall_forall in Hv. destruct (Hv v Hin) as [Hn _]. apply Hn. unfold contains_path. reflexivity.
Qed.

(** * Preparing artifacts *)

Lemma fs_bind_done {E A B} (m : fs E A) (f : A → fs E B) w y w' :
  (m ≫= f) w = (Done y, w') → ∃ x w1, m w = (Done x, w1) ∧ f x w1 = (Done y, w').
Proof. unfold mbind, fs_bind. destruct (m w) as [[x|e|] w1]; try done. by exists x, w1. Qed.

Lemma effect_done act partial w w' :
  effect act partial w = (Done (), w') → ∃ t, act (w_tree w) = Ok t ∧ w_tree w' = t.
Proof.
  unfold effect. destruct (act (w_tree w)) as [t|e]; [|by destruct (head (w_fates w)) as [[]|]].
  destruct (head (w_fates w)) as [[]|]; try done; intros [= <-]; by exists t.
Qed.

Lemma map_err_done {E F A} (f : E → F) (m : fs E A) w x w' : fs_map_err f m w = (Done x, w') → m w = (Done x, w').
Proof. unfold fs_map_err, fs_catch. destruct (m w) as [[] ?]; [by intros [= -> ->]|done..]. Qed.

Lemma parent_of_entry p n t : p ≠ [] → tree_get p t = Some n → is_dir (tree_get (parent p) t) = true.
Proof.
  intros Hp Hg. destruct (exists_last Hp) as (q & k & ->). rewrite parent_snoc. rewrite tree_get_snoc in Hg.
  destruct (tree_get q t) as [[]|]; done || discriminate Hg.
Qed.

Lemma create_or_truncate_done p w w' :
  p ≠ [] → (tree_get p (w_tree w) = None ∨ ∃ content, tree_get p (w_tree w) = Some (File content)) →
  create_or_truncate p w = (Done (), w') → tree_get p (w_tree w') = Some (File []).
Proof.
  intros Hp Hat Hd. unfold create_or_truncate in Hd. apply fs_bind_done in Hd as (n & w1 & [= <- <-] & Hd).
  destruct Hat as [Hn|[content Hn]]; rewrite Hn in Hd; unfold create_new_file, truncate_file in Hd;
    apply effect_done in Hd as (t & Ht & ->); rewrite Hn in Ht.
  - destruct (is_dir (tree_get (parent p) (w_tree w))) eqn:Ed; [|done]. injection Ht as <-. by apply tree_put_at.
  - injection Ht as <-. apply tree_put_at; [done|]. by eapply parent_of_entry.
Qed.

Section Chain.
Context (root : ResolvedCacheRoot).

Lemma place_below p : place root (below (rr_path root) p) = p.
Proof. unfold place, below. rewrite drop_app_length. apply tree_names_normals. Qed.

Lemma below_app p q : below (rr_path root) p ++ normals q = below (rr_path root) (p ++ q).
Proof. unfold below. by rewrite fmap_app, app_assoc. Qed.

Lemma ensure_plain_there p w :
  quiet w → is_dir (tree_get p (w_tree w)) = true → ensure_plain_directory root (below (rr_path root) p) w = (Done (), w).
Proof.
  intros Hq Hd. unfold ensure_plain_directory, fs_catch, create_dir. rewrite place_below.
  destruct (tree_get p (w_tree w)) as [n|] eqn:Hn; [|done]. rewrite (effect_quiet_err _ _ _ AlreadyExists) by (try done; by rewrite Hn).
  unfold look. rewrite Hn. by destruct n.
Qed.

Lemma chain_prefixes base names w :
  quiet w → is_dir (tree_get (base ++ names) (w_tree w)) = true →
  fs_each (ensure_plain_directory root) (prefixes (below (rr_path root) base) (normals names)) w = (Done (), w).
Proof.
  intros Hq. revert base. induction names as [|k names IH]; intros base Hd; [done|].
  change (normals (k :: names)) with (Normal k :: normals names). cbn [prefixes fs_each].
  change [Normal k] with (normals [k]). rewrite below_app. unfold mbind at 1, fs_bind at 1.
  assert (Hd' : is_dir (tree_get ((base ++ [k]) ++ names) (w_tree w)) = true) by (by rewrite <-app_assoc).
  rewrite ensure_plain_there; [|done|by eapply tree_get_dir_app]. by apply IH.
Qed.

(** A chain of directories that is there already. *)
Lemma chain_kept base names w :
  quiet w → is_dir (tree_get (base ++ names) (w_tree w)) = true →
  create_managed_directory_chain root (below (rr_path root) base ++ normals names) (below (rr_path root) base) w = (Done (), w).
Proof.
  intros Hq Hd. unfold create_managed_directory_chain, validate_under_root, strip_path, path_starts_with.
  rewrite (bool_decide_eq_true_2 (_ `prefix_of` _)) by (apply prefix_app_r; reflexivity). rewrite orb_true_r.
  unfold mbind, fs_bind, fs_lift. cbn [ensure of_result ok_or]. rewrite drop_app_length. by apply chain_prefixes.
Qed.
End Chain.
