(* ===== verification/Artifacts.v ===== *)
(** The observation of artifacts after a run ([src/src/workspace.rs], second part).

    The tree is that of the cache root; [between] is what other processes do to it
    while a file is read: after its size was looked up, and after it was read.
    [follow] is what opening and reading gives where there is no plain file any
    more. *)
From S2P Require Import Prelude.
From S2P Require Import RustStr.
From S2P Require Import BTree.
From S2P Require Import Canonical.
From S2P Require Import Config.
From S2P Require Import Receipt.
From S2P Require Import Durable.
From S2P Require Import FileSystem.
From S2P Require Import CachePayload.
From S2P Require Import CacheRoot.
From S2P Require Import Cache.
From S2P Require Import Workspace.
Local Open Scope Z_scope.

(** [ObservationFault] is no error of the code: the loop over directories would
    need more turns than its fuel. *)
Inductive ArtifactObservationError : Type :=
  | ArtifactMissing (path : string)
  | UnsafeObject (path : string)
  | ChangedDuringObservation (path : string)
  | ArtifactLimit (path : string)
  | ArtifactPathEscape
  | ArtifactManifestError (e : ReceiptError)
  | ArtifactIo (kind : io_kind)
  | ObservationFault (f : fault).

Record ArtifactContentEntryV1 : Type := {
  ace_path : string;
  ace_size_bytes : Z;
  ace_content_digest : string;
}.
Record ArtifactContentManifestV1 : Type := {
  acm_schema_version : string;
  acm_entries : list ArtifactContentEntryV1;
}.

#[global] Instance ArtifactContentEntryV1_serialize : Serialize ArtifactContentEntryV1 := λ e,
  obj [("path", to_value (ace_path e)); ("size_bytes", to_value (ace_size_bytes e));
       ("content_digest", to_value (ace_content_digest e))].
#[global] Instance ArtifactContentManifestV1_serialize : Serialize ArtifactContentManifestV1 := λ m,
  obj [("schema_version", to_value (acm_schema_version m)); ("entries", to_value (acm_entries m))].

Definition map_artifact_io (contract_path : string) (kind : io_kind) : ArtifactObservationError :=
  match kind with NotFound => ArtifactMissing contract_path | kind => ArtifactIo kind end.

(** What the reads of at most 8192 bytes return. *)
Definition BUFFER : nat := Z.to_nat 8192.
Fixpoint chunks (fuel : nat) (content : list ascii) : list (list ascii) :=
  match fuel with
  | O => []
  | S fuel => match content with [] => [] | _ => take BUFFER content :: chunks fuel (drop BUFFER content) end
  end.

(** The two moments at which others may change the tree. *)
Inductive moment : Type := BeforeOpen | AfterRead.

Section Observe.
Context `{Backend} (between : moment → path → node → node) (follow : path → node → result io_kind (list ascii)).

Definition meanwhile (m : moment) (p : path) : fs ArtifactObservationError () := λ w,
  (Done (), set_tree (between m p (w_tree w)) w).

Definition checked_limit (contract_path : string) (limit total : Z) : result ArtifactObservationError Z :=
  total ← ok_or (checked_u64 total) (ArtifactLimit contract_path);
  _ ← ensure (total <=? limit) (ArtifactLimit contract_path);
  Ok total.

(** [symlink_metadata] of what must be a plain directory. *)
Definition plain_directory_at (contract_path : string) (n : option node) : result ArtifactObservationError () :=
  match n with
  | None => Err (map_artifact_io contract_path NotFound)
  | Some (Dir _) => Ok ()
  | Some _ => Err (UnsafeObject contract_path)
  end.

Definition read_chunk (contract_path : string) (max_bytes : Z) (st : Z * list ascii) (chunk : list ascii) :
    result ArtifactObservationError (Z * list ascii) :=
  let '(observed_bytes, hashed) := st in
  observed_bytes ← checked_limit contract_path max_bytes (observed_bytes + Z.of_nat (length chunk));
  Ok (observed_bytes, hashed ++ chunk).

Definition observe_regular_file (p : path) (logical_path : string) (max_bytes : Z) (contract_path : string) :
    fs ArtifactObservationError ArtifactContentEntryV1 :=
  _ ← look (λ t, match tree_get p t with
                 | None => Err (map_artifact_io contract_path NotFound)
                 | Some (File content) => ensure (Z.of_nat (length content) <=? max_bytes) (ArtifactLimit contract_path)
                 | Some _ => Err (UnsafeObject contract_path)
                 end);
  _ ← meanwhile BeforeOpen p;
  content ← look (λ t, map_err (map_artifact_io contract_path)
    (match tree_get p t with
     | None => Err NotFound
     | Some (File content) => Ok content
     | Some n => follow p n
     end));
  '(observed_bytes, hashed) ← fs_lift (try_fold (read_chunk contract_path max_bytes) (0, []) (chunks (length content) content));
  _ ← meanwhile AfterRead p;
  _ ← look (λ t, match tree_get p t with
                 | None => Err (map_artifact_io contract_path NotFound)
                 | Some (File content) =>
                   ensure (Z.of_nat (length content) =? observed_bytes) (ChangedDuringObservation contract_path)
                 | Some _ => Err (ChangedDuringObservation contract_path)
                 end);
  mret {| ace_path := logical_path; ace_size_bytes := observed_bytes;
          ace_content_digest := "sha256:" +:+ encode_hex (sha256 hashed) |}.

(** The turn of the inner loop for one child; [relative] is its path below [root]. *)
Definition scan : Type := list path * list ArtifactContentEntryV1 * Z.

Definition observe_child (root : path) (max_bytes max_entries : Z) (contract_path : string) (relative : path) (st : scan) :
    fs ArtifactObservationError scan :=
  let '(pending, entries, total_bytes) := st in
  n ← look (λ t, ok_or (tree_get (root ++ relative) t) (map_artifact_io contract_path NotFound));
  match n with
  | Dir _ => mret (pending ++ [relative], entries, total_bytes)
  | File _ =>
    let logical := String.concat "/" relative in
    _ ← fs_lift (ensure (valid_utf8 (bytes logical)) (UnsafeObject contract_path));
    entry ← observe_regular_file (root ++ relative) logical (Z.max 0 (max_bytes - total_bytes)) contract_path;
    total_bytes ← fs_lift (checked_limit contract_path max_bytes (total_bytes + ace_size_bytes entry));
    let entries := entries ++ [entry] in
    _ ← fs_lift (ensure (negb (Z.of_nat (length entries) >? max_entries)) (ArtifactLimit contract_path));
    mret (pending, entries, total_bytes)
  | _ => fs_lift (Err (UnsafeObject contract_path))
  end.

Definition list_directory (contract_path : string) (p : path) : fs ArtifactObservationError (list string) :=
  look (λ t, match tree_get p t with
             | Some (Dir entries) => Ok (sort_by id entries.*1)
             | None => Err (map_artifact_io contract_path NotFound)
             | Some _ => Err (map_artifact_io contract_path OtherIo)
             end).

(** [pending] is a stack, its top last. *)
Fixpoint observe_loop (fuel : nat) (root : path) (max_bytes max_entries : Z) (contract_path : string) (st : scan) :
    fs ArtifactObservationError (list ArtifactContentEntryV1) :=
  let '(pending, entries, total_bytes) := st in
  match last pending with
  | None => mret entries
  | Some current =>
    match fuel with
    | O => fs_lift (Err (ObservationFault OutOfFuel))
    | S fuel =>
      children ← list_directory contract_path (root ++ current);
      st ← fs_fold (λ st child, observe_child root max_bytes max_entries contract_path (current ++ [child]) st)
             (removelast pending, entries, total_bytes) children;
      observe_loop fuel root max_bytes max_entries contract_path st
    end
  end.

Definition observe_directory (fuel : nat) (root : path) (max_bytes max_entries : Z) (contract_path : string) :
    fs ArtifactObservationError (list ArtifactContentEntryV1) :=
  _ ← look (λ t, plain_directory_at contract_path (tree_get root t));
  entries ← observe_loop fuel root max_bytes max_entries contract_path ([[]], [], 0);
  mret (sort_by ace_path entries).

(** The components below [base] must be names. *)
Definition ensure_plain_directory_chain (base : path) (relative : list component) (contract_path : string) :
    fs ArtifactObservationError () :=
  _ ← look (λ t, plain_directory_at contract_path (tree_get base t));
  fs_each (λ p,
    _ ← fs_lift (match last p with Some (Normal _) => Ok () | _ => Err ArtifactPathEscape end);
    look (λ t, plain_directory_at contract_path (tree_get (base ++ tree_names p) t))) (prefixes [] relative).

Definition observe_artifact_contract (fuel : nat) (artifact_root : path) (contract : NormalizedArtifactContract) :
    fs ArtifactObservationError ArtifactEvidence :=
  let relative := match components (na_path contract) with CurDir :: p => p | p => p end in
  _ ← fs_lift (ensure (negb (is_absolute relative)) ArtifactPathEscape);
  up ← fs_lift (ok_or (path_parent (Normal "artifacts" :: relative)) ArtifactPathEscape);
  _ ← fs_lift (ensure (negb (is_nil relative)) ArtifactPathEscape);
  _ ← ensure_plain_directory_chain artifact_root (tail up) (na_path contract);
  let target := artifact_root ++ tree_names relative in
  entries ← match na_kind contract with
            | RegularFile =>
              entry ← observe_regular_file target "." (na_max_bytes contract) (na_path contract);
              mret [entry]
            | Directory => observe_directory fuel target (na_max_bytes contract) (na_max_entries contract) (na_path contract)
            end;
  entry_count ← fs_lift (ok_or (checked_u64 (Z.of_nat (length entries))) (ArtifactLimit (na_path contract)));
  total_bytes ← fs_lift (try_fold (λ total entry,
                  checked_limit (na_path contract) (na_max_bytes contract) (total + ace_size_bytes entry)) 0 entries);
  _ ← fs_lift (ensure (negb (entry_count >? na_max_entries contract)) (ArtifactLimit (na_path contract)));
  manifest_digest ← fs_lift (map_err ArtifactManifestError
                      (canonical_digest {| acm_schema_version := "1.0"; acm_entries := entries |}));
  mret {| ae_path := na_path contract; ae_kind := na_kind contract; ae_producer_check := na_producer_check contract;
          ae_entry_count := entry_count; ae_total_bytes := total_bytes; ae_manifest_digest := manifest_digest |}.

(** [observe_artifacts]; [run_root] is relative to the root of the tree. *)
Definition artifact_contracts (plan : ExecutionPlanV1) : list NormalizedArtifactContract :=
  sort_by na_path (concat (nk_artifact_contracts <$> ep_checks plan)).

Definition fs_collect {A B} (f : A → fs ArtifactObservationError B) (l : list A) : fs ArtifactObservationError (list B) :=
  fs_fold (λ acc x, y ← f x; mret (acc ++ [y])) [] l.

Definition observe_artifacts (fuel : nat) (plan : ExecutionPlanV1) (run_root : path) :
    fs ArtifactObservationError (list ArtifactEvidence) :=
  let contracts := artifact_contracts plan in
  if is_nil contracts then mret [] else
  _ ← ensure_plain_directory_chain run_root [Normal "artifacts"] "artifacts";
  fs_collect (observe_artifact_contract fuel (run_root ++ ["artifacts"])) contracts.
End Observe.
