(* ===== verification/ArtifactProps.v ===== *)
(** Lemmas on the observation of artifacts ([Artifacts.v]): the loop over directories
    against the list of all files, and an executable reference of the evidence. *)
From S2P Require Import Prelude.
From S2P Require Import RustStr.
From S2P Require Import BTree.
From S2P Require Import Canonical.
From S2P Require Import Config.
From S2P Require Import Receipt.
From S2P Require Import Durable.
From S2P Require Import FileSystem.
From S2P Require Import CachePayload.
From S2P Require Import CacheRoot.
From S2P Require Import Cache.
From S2P Require Import Workspace.
From S2P Require Import WorkspaceProps.
From S2P Require Import Artifacts.
Local Open Scope Z_scope.

(** * The files of a tree *)

(** All files below a node with their paths, directory by directory. *)
Fixpoint files_of (n : node) : list (path * list ascii) :=
  match n with
  | File content => [([], content)]
  | Dir entries => concat (map (λ kv, map (λ f, (kv.1 :: f.1, f.2)) (files_of kv.2)) entries)
  | _ => []
  end.

(** Only files and directories. *)
Fixpoint plain_tree (n : node) : Prop :=
  match n with
  | File _ => True
  | Dir entries => fold_right (λ kv P, plain_tree kv.2 ∧ P) True entries
  | _ => False
  end.

Fixpoint directories (n : node) : nat :=
  match n with
  | Dir entries => S (fold_right (λ kv k, directories kv.2 + k)%nat O entries)
  | _ => O
  end.

Definition logical_path (p : path) : string := String.concat "/" p.
Definition sizes (l : list (path * list ascii)) : Z := foldr Z.add 0 ((λ f, Z.of_nat (length f.2)) <$> l).

Lemma sizes_cons f l : sizes (f :: l) = Z.of_nat (length f.2) + sizes l.
Proof. done. Qed.

Lemma sizes_app l m : sizes (l ++ m) = sizes l + sizes m.
Proof. unfold sizes. induction l as [|f l IH]; cbn in *; [done|]. rewrite IH. lia. Qed.

Lemma sizes_nonneg l : 0 ≤ sizes l.
Proof. unfold sizes. induction l; cbn; lia. Qed.

Lemma sizes_perm l m : l ≡ₚ m → sizes l = sizes m.
Proof. induction 1; unfold sizes in *; cbn in *; lia. Qed.

Lemma plain_dir entries : plain_tree (Dir entries) ↔ Forall (λ kv, plain_tree kv.2) entries.
Proof. cbn. induction entries as [|kv es IH]; cbn; [done|]. rewrite IH, Forall_cons. done. Qed.

Lemma directories_dir entries : directories (Dir entries) = S (sum_list (directories ∘ snd <$> entries)).
Proof. cbn. f_equal. induction entries as [|kv es IH]; cbn; [done|]. by rewrite IH. Qed.

Section Observe.
Context `{Backend} (follow : path → node → result io_kind (list ascii)).

(** Nothing happens meanwhile. *)
Definition alone : moment → path → node → node := λ _ _ t, t.

Definition file_entry (f : path * list ascii) : ArtifactContentEntryV1 :=
  {| ace_path := logical_path f.1; ace_size_bytes := Z.of_nat (length f.2);
     ace_content_digest := "sha256:" +:+ encode_hex (sha256 f.2) |}.

Lemma set_tree_same w : set_tree (w_tree w) w = w.
Proof. by destruct w. Qed.

Lemma chunks_concat fuel content : (length content ≤ fuel)%nat → concat (chunks fuel content) = content.
Proof.
  revert content. induction fuel as [|fuel IH]; intros content Hl; cbn [chunks].
  - by destruct content; [|cbn in Hl; lia].
  - destruct content as [|a content]; [done|]. cbn [concat]. rewrite IH.
    + apply take_drop.
    + rewrite length_drop. cbn [length] in *. assert (1 ≤ BUFFER)%nat by (unfold BUFFER; lia). lia.
Qed.

Lemma checked_limit_eq cp limit total :
  u64 limit → 0 ≤ total →
  checked_limit cp limit total = if total <=? limit then Ok total else Err (ArtifactLimit cp).
Proof.
  intros [_ Hu] Ht. unfold checked_limit, checked_u64. rewrite (proj2 (Z.leb_le 0 total)) by done. cbn [andb].
  destruct (Z.leb_spec total u64_max); cbn; destruct (Z.leb_spec total limit); cbn; done || lia.
Qed.

Lemma read_chunk_eq cp limit n acc ch :
  u64 limit → 0 ≤ n →
  read_chunk cp limit (n, acc) ch =
  if n + Z.of_nat (length ch) <=? limit then Ok (n + Z.of_nat (length ch), acc ++ ch) else Err (ArtifactLimit cp).
Proof.
  intros Hu Hn. unfold read_chunk. rewrite checked_limit_eq by (done || lia). by destruct (_ <=? limit).
Qed.

Lemma read_chunks cp limit n acc cs :
  u64 limit → 0 ≤ n ≤ limit →
  match try_fold (read_chunk cp limit) (n, acc) cs with
  | Ok (m, all) => m = n + Z.of_nat (length (concat cs)) ∧ m ≤ limit ∧ all = acc ++ concat cs
  | Err e => e = ArtifactLimit cp ∧ limit < n + Z.of_nat (length (concat cs))
  end.
Proof.
  intros Hu. revert n acc. induction cs as [|ch cs IH]; intros n acc Hn; cbn [try_fold concat].
  - cbn. rewrite app_nil_r. split_and!; [lia|lia|done].
  - rewrite read_chunk_eq by (done || lia). rewrite length_app.
    destruct (n + Z.of_nat (length ch) <=? limit) eqn:E; cbn [mbind result_bind]; bool_prop; [|split; [done|lia]].
    specialize (IH (n + Z.of_nat (length ch)) (acc ++ ch) ltac:(lia)).
    destruct (try_fold (read_chunk cp limit) _ cs) as [[m all]|e]; [|split; [apply IH|lia]].
    destruct IH as (-> & ? & ->). rewrite <-app_assoc. split_and!; [lia|lia|done].
Qed.

(** A file that nobody touches. *)
Lemma observe_file_alone p logical limit cp w :
  u64 limit →
  observe_regular_file alone follow p logical limit cp w =
  (match tree_get p (w_tree w) with
   | None => Failed (ArtifactMissing cp)
   | Some (File content) =>
     if Z.of_nat (length content) <=? limit
     then Done {| ace_path := logical; ace_size_bytes := Z.of_nat (length content);
                  ace_content_digest := "sha256:" +:+ encode_hex (sha256 content) |}
     else Failed (ArtifactLimit cp)
   | Some _ => Failed (UnsafeObject cp)
   end, w).
Proof.
  intros Hu. unfold observe_regular_file, meanwhile, alone, look, fs_lift, mbind, fs_bind. rewrite set_tree_same.
  destruct (tree_get p (w_tree w)) as [[content| | |]|] eqn:Et; try done.
  destruct (Z.of_nat (length content) <=? limit) eqn:El; cbn [ensure of_result]; [|done]. bool_prop.
  rewrite ?Et. cbn [map_err of_result].
  pose proof (read_chunks cp limit 0 [] (chunks (length content) content) Hu ltac:(lia)) as Hr.
  rewrite chunks_concat in Hr by done.
  destruct (try_fold _ _ _) as [[m all]|e]; [|destruct Hr; lia]. destruct Hr as (-> & _ & ->). cbn [of_result].
  rewrite !set_tree_same, Et, Z.add_0_l. cbn [app]. by rewrite Z.eqb_refl.
Qed.

(** * The loop, on the nodes of the tree *)

Definition pure_scan : Type := list (path * node) * list ArtifactContentEntryV1 * Z.

Definition child_step (max_bytes max_entries : Z) (st : pure_scan) (child : path * node) : option pure_scan :=
  let '(pending, entries, total) := st in
  match child.2 with
  | Dir es => Some (pending ++ [child], entries, total)
  | File content =>
    if valid_utf8 (bytes (logical_path child.1)) && (total + Z.of_nat (length content) <=? max_bytes)
       && (Z.of_nat (length entries) + 1 <=? max_entries)
    then Some (pending, entries ++ [file_entry (child.1, content)], total + Z.of_nat (length content))
    else None
  | _ => None
  end.

Definition files_at (nodes : list (path * node)) : list (path * list ascii) :=
  concat ((λ pn, map (λ f, (pn.1 ++ f.1, f.2)) (files_of pn.2)) <$> nodes).

(** What is still to come is acceptable. *)
Definition acceptable (max_bytes max_entries : Z) (nodes : list (path * node)) (count : nat) (total : Z) : Prop :=
  Forall (λ pn, plain_tree pn.2) nodes ∧ Forall (λ f, valid_utf8 (bytes (logical_path f.1)) = true) (files_at nodes) ∧
  total + sizes (files_at nodes) ≤ max_bytes ∧ Z.of_nat (count + length (files_at nodes)) ≤ max_entries.

Definition direct_files (nodes : list (path * node)) : list (path * list ascii) :=
  omap (λ pn, match pn.2 with File content => Some (pn.1, content) | _ => None end) nodes.
Definition is_dir_node (n : node) : bool := match n with Dir _ => true | _ => false end.
Definition sub_directories (nodes : list (path * node)) : list (path * node) := List.filter (λ pn, is_dir_node pn.2) nodes.

Lemma files_at_cons pn nodes : files_at (pn :: nodes) = map (λ f, (pn.1 ++ f.1, f.2)) (files_of pn.2) ++ files_at nodes.
Proof. done. Qed.
Lemma files_at_app l m : files_at (l ++ m) = files_at l ++ files_at m.
Proof. unfold files_at. by rewrite fmap_app, concat_app. Qed.
Lemma files_at_perm l m : l ≡ₚ m → files_at l ≡ₚ files_at m.
Proof. unfold files_at. intros Hp. by rewrite Hp. Qed.

(** The children of a directory, with their paths. *)
Definition children_of (p : path) (es : btmap string node) : list (path * node) := (λ kv, (p ++ [kv.1], kv.2)) <$> es.

Lemma files_of_children p es : map (λ f, (p ++ f.1, f.2)) (files_of (Dir es)) = files_at (children_of p es).
Proof.
  unfold files_at, children_of. cbn [files_of]. induction es as [|[k n] es IH]; [done|]. cbn in *.
  rewrite map_app, IH. f_equal. rewrite map_map. apply List.map_ext. intros [q content]. cbn. by rewrite <-app_assoc.
Qed.

Lemma files_at_split nodes : files_at nodes ≡ₚ direct_files nodes ++ files_at (sub_directories nodes).
Proof.
  induction nodes as [|[p n] nodes IH]; [done|]. rewrite files_at_cons, IH. destruct n as [content|es| |]; cbn.
  - by rewrite app_nil_r.
  - rewrite app_assoc. rewrite (Permutation_app_comm (map _ _) (direct_files nodes)). by rewrite <-app_assoc.
  - done.
  - done.
Qed.

Lemma direct_files_cons pn C :
  direct_files (pn :: C) = match pn.2 with File content => (pn.1, content) :: direct_files C | _ => direct_files C end.
Proof. unfold direct_files. cbn. by destruct (pn.2). Qed.

Lemma fold_children mb me C pend ents tot :
  tot ≤ mb → Z.of_nat (length ents) ≤ me →
  match opt_fold (child_step mb me) (pend, ents, tot) C with
  | Some (pend', ents', tot') =>
    pend' = pend ++ sub_directories C ∧ ents' = ents ++ (file_entry <$> direct_files C) ∧
    tot' = tot + sizes (direct_files C) ∧ tot' ≤ mb ∧ Z.of_nat (length ents') ≤ me ∧
    Forall (λ pn, is_dir_node pn.2 = true ∨ plain_tree pn.2) C ∧
    Forall (λ f, valid_utf8 (bytes (logical_path f.1)) = true) (direct_files C)
  | None => ¬ acceptable mb me C (length ents) tot
  end.
Proof.
  revert pend ents tot. induction C as [|[p n] C IH]; intros pend ents tot Ht He; cbn [opt_fold].
  { cbn. rewrite !app_nil_r. unfold sizes. cbn. split_and!; (done || constructor || lia). }
  destruct n as [content|es| |]; cbn [child_step fst snd mbind option_bind].
  - destruct (_ && _ && _) eqn:E.
    + bool_prop. cbn [mbind option_bind]. specialize (IH pend (ents ++ [file_entry (p, content)]) (tot + Z.of_nat (length content)) ltac:(lia)).
      rewrite length_app in IH. cbn [length] in IH. specialize (IH ltac:(lia)).
      destruct (opt_fold _ _ C) as [[[pend' ents'] tot']|].
      * destruct IH as (-> & -> & -> & ? & ? & ? & ?). rewrite direct_files_cons. cbn [fst snd].
        rewrite fmap_cons, sizes_cons, <-app_assoc. cbn [snd]. split_and!; try done; try lia; 
          [by rewrite app_assoc|constructor; [by right|done]|by constructor].
      * intros (Hp & Hu & Hs & Hc). apply IH. rewrite files_at_cons in *. cbn [files_of map fst snd app] in Hs, Hc, Hu.
        rewrite sizes_cons in Hs. cbn [length snd] in Hc, Hs. inversion Hp. inversion Hu. split_and!; try done; lia.
    + cbn [mbind option_bind]. intros (Hp & Hu & Hs & Hc). rewrite files_at_cons in *.
      cbn [files_of map fst snd app] in Hs, Hc, Hu. rewrite sizes_cons in Hs. cbn [length snd] in Hc, Hs.
      pose proof (sizes_nonneg (files_at C)). inversion Hu as [|? ? Hv]. cbn [fst] in Hv. rewrite app_nil_r in Hv.
      rewrite Hv in E. cbn [andb] in E. apply andb_false_iff in E. destruct E; bool_prop; lia.
  - specialize (IH (pend ++ [(p, Dir es)]) ents tot Ht He). destruct (opt_fold _ _ C) as [[[pend' ents'] tot']|].
    + destruct IH as (-> & -> & -> & ? & ? & ? & ?). rewrite direct_files_cons, <-app_assoc. cbn [snd].
      split_and!; try done. constructor; [by left|done].
    + intros (Hp & Hu & Hs & Hc). apply IH. rewrite files_at_cons in *.
      rewrite sizes_app in Hs. rewrite length_app in Hc. apply Forall_app in Hu as [_ Hu].
      pose proof (sizes_nonneg (map (λ f, ((p, Dir es).1 ++ f.1, f.2)) (files_of (p, Dir es).2))).
      inversion Hp. split_and!; try done; lia.
  - intros (Hp & _). by inversion Hp.
  - intros (Hp & _). by inversion Hp.
Qed.

(** The loop over a stack of directories. *)
Fixpoint pure_loop (mb me : Z) (fuel : nat) (st : pure_scan) : option (list ArtifactContentEntryV1) :=
  let '(pending, entries, total) := st in
  match last pending, fuel with
  | None, _ => Some entries
  | Some (p, Dir es), S fuel =>
    st ← opt_fold (child_step mb me) (removelast pending, entries, total) (children_of p (sort_by fst es));
    pure_loop mb me fuel st
  | _, _ => None
  end.

Definition cost (nodes : list (path * node)) : nat := sum_list ((directories ∘ snd) <$> nodes).

Lemma children_perm p es es' : es ≡ₚ es' → children_of p es ≡ₚ children_of p es'.
Proof. intros Hp. unfold children_of. by rewrite Hp. Qed.

Lemma sum_list_nat_perm l m : l ≡ₚ m → sum_list l = sum_list m.
Proof. induction 1; cbn; lia. Qed.

Lemma cost_app l m : cost (l ++ m) = (cost l + cost m)%nat.
Proof. unfold cost. induction l; cbn in *; lia. Qed.

Lemma cost_sub C : (cost (sub_directories C) ≤ cost C)%nat.
Proof. unfold cost, sub_directories. induction C as [|[p n] C IH]; cbn; [done|]. destruct n; cbn in *; lia. Qed.

Lemma cost_children p es : cost (children_of p es) = sum_list ((directories ∘ snd) <$> es).
Proof. unfold cost, children_of. induction es as [|[k n] es IH]; cbn in *; lia. Qed.

Lemma acceptable_perm mb me l m count total : l ≡ₚ m → acceptable mb me l count total → acceptable mb me m count total.
Proof.
  intros Hp (H1 & H2 & H3 & H4). pose proof (files_at_perm _ _ Hp) as Hf. split_and!.
  - by rewrite <-Hp.
  - by rewrite <-Hf.
  - by rewrite <-(sizes_perm _ _ Hf).
  - by rewrite <-Hf.
Qed.

Lemma acceptable_weaken mb me l m count total : acceptable mb me (l ++ m) count total → acceptable mb me m count total.
Proof.
  intros (H1 & H2 & H3 & H4). rewrite files_at_app in *. rewrite sizes_app in H3. rewrite length_app in H4.
  apply Forall_app in H1 as [_ H1], H2 as [_ H2]. pose proof (sizes_nonneg (files_at l)). split_and!; try done; lia.
Qed.

Lemma cost_directory p es : cost [(p, Dir es)] = S (cost (children_of p (sort_by fst es))).
Proof.
  rewrite cost_children. change (cost [(p, Dir es)]) with (directories (Dir es) + 0)%nat. rewrite directories_dir.
  rewrite (sum_list_nat_perm (directories ∘ snd <$> sort_by fst es) (directories ∘ snd <$> es)); [lia|].
  apply fmap_Permutation, sort_by_perm.
Qed.

Lemma Forall_perm_iff {A} (P : A → Prop) l m : l ≡ₚ m → Forall P l ↔ Forall P m.
Proof. intros Hp. split; by apply Forall_Permutation. Qed.

Lemma acceptable_split mb me C rest count total :
  acceptable mb me (rest ++ C) count total ↔
  Forall (λ pn, is_dir_node pn.2 = true ∨ plain_tree pn.2) C ∧
  Forall (λ f, valid_utf8 (bytes (logical_path f.1)) = true) (direct_files C) ∧
  acceptable mb me (rest ++ sub_directories C) (count + length (direct_files C)) (total + sizes (direct_files C)).
Proof.
  unfold acceptable. rewrite !files_at_app, !Forall_app.
  assert (Hf : files_at rest ++ files_at C ≡ₚ direct_files C ++ files_at rest ++ files_at (sub_directories C)).
  { rewrite (files_at_split C). rewrite !app_assoc. by rewrite (Permutation_app_comm (files_at rest)). }
  assert (Hd : Forall (λ pn, plain_tree pn.2) C ↔
               Forall (λ pn, is_dir_node pn.2 = true ∨ plain_tree pn.2) C ∧ Forall (λ pn, plain_tree pn.2) (sub_directories C)).
  { unfold sub_directories. rewrite !Forall_forall. setoid_rewrite list_elem_of_In. setoid_rewrite filter_In.
    split; [intros Hall; split; naive_solver|]. intros [H1 H2] pn Hin. destruct (H1 pn Hin); [apply H2; tauto|done]. }
  pose proof (sizes_perm _ _ Hf) as Hs. pose proof (Permutation_length Hf) as Hl. rewrite !sizes_app in Hs. rewrite !length_app in Hl.
  rewrite <-!Forall_app, (Forall_perm_iff _ _ _ Hf), !Forall_app, Hd, !sizes_app, !length_app.
  split; intros; destruct_and!; split_and!; try done; lia.
Qed.

Lemma files_at_directory p es : files_at [(p, Dir es)] ≡ₚ files_at (children_of p (sort_by fst es)).
Proof.
  rewrite files_at_cons. cbn [fst snd]. rewrite files_of_children. cbn. rewrite app_nil_r.
  apply files_at_perm, children_perm. symmetry. apply sort_by_perm.
Qed.

Lemma plain_directory p es :
  Forall (λ pn : path * node, plain_tree pn.2) [(p, Dir es)] ↔ Forall (λ pn, plain_tree pn.2) (children_of p (sort_by fst es)).
Proof.
  rewrite Forall_singleton. cbn [snd]. rewrite plain_dir. unfold children_of. rewrite Forall_fmap. cbn.
  apply Forall_perm_iff. symmetry. apply sort_by_perm.
Qed.

Lemma acceptable_directory mb me rest p es count total :
  acceptable mb me (rest ++ [(p, Dir es)]) count total ↔ acceptable mb me (rest ++ children_of p (sort_by fst es)) count total.
Proof.
  unfold acceptable. rewrite !files_at_app, !Forall_app, plain_directory.
  pose proof (files_at_directory p es) as Hc. rewrite !sizes_app, (sizes_perm _ _ Hc). rewrite !length_app, (Permutation_length Hc).
  by rewrite (Forall_perm_iff _ _ _ Hc).
Qed.

Lemma pure_loop_spec mb me fuel pending ents tot :
  Forall (λ pn, is_dir_node pn.2 = true) pending → (cost pending ≤ fuel)%nat → tot ≤ mb → Z.of_nat (length ents) ≤ me →
  match pure_loop mb me fuel (pending, ents, tot) with
  | Some l => acceptable mb me pending (length ents) tot ∧ l ≡ₚ ents ++ (file_entry <$> files_at pending)
  | None => ¬ acceptable mb me pending (length ents) tot
  end.
Proof.
  revert pending ents tot. induction fuel as [|fuel IH]; intros pending ents tot Hd Hf Ht He; cbn [pure_loop];
    (destruct (last pending) as [[p n]|] eqn:El;
      [apply last_Some in El as [rest ->]|apply last_None in El as ->; cbn; rewrite app_nil_r; split; [|done]; unfold acceptable, sizes; cbn; split_and!; (constructor || lia)]);
    apply Forall_app in Hd as [Hd Hn]; inversion Hn as [|? ? Hn1 _]; destruct n as [|es| |]; try done.
  { rewrite cost_app, cost_directory in Hf. lia. }
  rewrite removelast_last.
  pose proof (λ count total, acceptable_directory mb me rest p es count total) as Hdir.
  pose proof (fold_children mb me (children_of p (sort_by fst es)) rest ents tot Ht He) as Hfold.
  destruct (opt_fold _ _ _) as [[[pend' ents'] tot']|]; cbn [mbind option_bind].
  - destruct Hfold as (-> & -> & -> & Ht' & He' & Hok & Hu).
    specialize (IH (rest ++ sub_directories (children_of p (sort_by fst es)))
      (ents ++ (file_entry <$> direct_files (children_of p (sort_by fst es))))
      (tot + sizes (direct_files (children_of p (sort_by fst es))))).
    rewrite length_app, length_fmap in IH.
    assert (Hsub : Forall (λ pn, is_dir_node pn.2 = true) (rest ++ sub_directories (children_of p (sort_by fst es)))).
    { apply Forall_app; split; [done|]. unfold sub_directories. rewrite Forall_forall. intros pn Hin.
      apply list_elem_of_In, filter_In in Hin. tauto. }
    specialize (IH Hsub). rewrite length_app, length_fmap in He'.
    assert (Hfuel : (cost (rest ++ sub_directories (children_of p (sort_by fst es))) ≤ fuel)%nat).
    { rewrite !cost_app in *. pose proof (cost_sub (children_of p (sort_by fst es))) as Hc.
      rewrite cost_directory in Hf. lia. }
    specialize (IH Hfuel Ht' He'). destruct (pure_loop mb me fuel _) as [found|]; rewrite Hdir, acceptable_split;
      [|by intros (_ & _ & Ha)].
    destruct IH as [Ha Hl]. split; [done|].
    rewrite Hl, <-app_assoc, <-fmap_app. apply Permutation_app_head, fmap_Permutation.
    rewrite !files_at_app, files_at_directory, (files_at_split (children_of p _)).
    rewrite !app_assoc.
    apply Permutation_app_tail, Permutation_app_comm.
  - rewrite Hdir. intros Ha. by apply Hfold, acceptable_weaken with rest.
Qed.

(** * The code and the loop on nodes *)

Definition agrees {A} (r : outcome ArtifactObservationError A * World) (w : World) (o : option A) : Prop :=
  match o with
  | Some x => r = (Done x, w)
  | None => ∃ e, r = (Failed e, w) ∧ e ≠ ObservationFault OutOfFuel
  end.

Definition without_nodes (st : pure_scan) : scan := (st.1.1.*1, st.1.2, st.2).

Lemma observe_child_agrees root mb me cp pend ents tot rel n w :
  tree_get (root ++ rel) (w_tree w) = Some n → u64 mb → 0 ≤ tot ≤ mb →
  agrees (observe_child alone follow root mb me cp rel (without_nodes (pend, ents, tot)) w) w
    (without_nodes <$> child_step mb me (pend, ents, tot) (rel, n)).
Proof.
  intros Hn Hu Ht. unfold observe_child, without_nodes at 1, look, mbind, fs_bind. cbn [fst snd]. rewrite Hn.
  cbn [ok_or of_result]. destruct n as [content|es| |]; cbn [child_step fst snd].
  - unfold fs_lift at 1. change (String.concat "/" rel) with (logical_path rel).
    destruct (valid_utf8 (bytes (logical_path rel))) eqn:Ev; cbn [ensure of_result andb]; [|by eexists].
    rewrite observe_file_alone by (unfold u64 in *; lia). rewrite Hn.
    destruct (Z.leb_spec (tot + Z.of_nat (length content)) mb).
    + rewrite (proj2 (Z.leb_le _ _)) by lia. cbn [ace_size_bytes]. unfold fs_lift at 1. rewrite checked_limit_eq by (done || lia).
      rewrite (proj2 (Z.leb_le _ _)) by lia. cbn [of_result]. unfold fs_lift at 1. rewrite length_app. cbn [length].
      destruct (Z.leb_spec (Z.of_nat (length ents) + 1) me); cbn [andb].
      * rewrite Z.gtb_ltb, (proj2 (Z.ltb_ge _ _)) by lia. done.
      * rewrite Z.gtb_ltb, (proj2 (Z.ltb_lt _ _)) by lia. cbn. by eexists.
    + rewrite (proj2 (Z.leb_gt _ _)) by lia. cbn. by eexists.
  - unfold agrees, without_nodes. cbn. by rewrite fmap_app.
  - by eexists.
  - by eexists.
Qed.

Lemma child_step_bounds mb me st child st' :
  0 ≤ st.2 ≤ mb → child_step mb me st child = Some st' → 0 ≤ st'.2 ≤ mb.
Proof.
  destruct st as [[pend ents] tot]. cbn. intros Ht. destruct (child.2); try done; [|by intros [= <-]].
  destruct (_ && _ && _) eqn:E; [|done]. intros [= <-]. bool_prop. cbn. lia.
Qed.

Lemma observe_children_agrees root mb me cp p C st w :
  Forall (λ kn, tree_get (root ++ p ++ [kn.1]) (w_tree w) = Some kn.2) C → u64 mb → 0 ≤ st.2 ≤ mb →
  agrees (fs_fold (λ st child, observe_child alone follow root mb me cp (p ++ [child]) st) (without_nodes st) C.*1 w) w
    (without_nodes <$> opt_fold (child_step mb me) st (children_of p C)) ∧
  (∀ st', opt_fold (child_step mb me) st (children_of p C) = Some st' → 0 ≤ st'.2 ≤ mb).
Proof.
  intros Hc Hu. revert st. induction Hc as [|[k n] C Hg Hc IH]; intros st Ht; [split; [done|by intros ? [= <-]]|].
  cbn [fst snd] in Hg. destruct st as [[pend ents] tot]. cbn [snd] in Ht.
  pose proof (observe_child_agrees root mb me cp pend ents tot (p ++ [k]) n w Hg Hu Ht) as Ha.
  pose proof (child_step_bounds mb me (pend, ents, tot) (p ++ [k], n)) as Hb.
  unfold children_of. rewrite !fmap_cons. cbn [fs_fold opt_fold fst snd].
  unfold mbind at 1, fs_bind at 1. destruct (child_step _ _ _ _) as [st'|]; cbn [fmap option_fmap option_map agrees mbind option_bind] in *.
  - rewrite Ha. apply IH. by apply Hb.
  - destruct Ha as (e & -> & He). split; [by exists e|done].
Qed.

Lemma insert_by_fst (x : string * node) l : (insert_by fst x l).*1 = insert_by id x.1 l.*1.
Proof. induction l as [|y l IH]; cbn; [done|]. destruct (String.compare x.1 y.1); cbn; by rewrite ?IH. Qed.
Lemma sort_by_fst (l : list (string * node)) : sort_by id l.*1 = (sort_by fst l).*1.
Proof.
  induction l as [|x l IH]; [done|]. change (insert_by id x.1 (sort_by id l.*1) = (insert_by fst x (sort_by fst l)).*1).
  by rewrite insert_by_fst, IH.
Qed.

(** What a turn adds to the stack. *)
Lemma opt_fold_pending mb me st C st' :
  opt_fold (child_step mb me) st C = Some st' →
  ∃ extra, st'.1.1 = st.1.1 ++ extra ∧ (∀ x, x ∈ extra → x ∈ C) ∧ Forall (λ pn, is_dir_node pn.2 = true) extra ∧
           (cost extra ≤ cost C)%nat.
Proof.
  revert st. induction C as [|[p n] C IH]; intros [[pend ents] tot]; cbn [opt_fold].
  { intros [= <-]. exists []. cbn. rewrite app_nil_r. by split_and!. }
  intros Hs. apply bind_Some in Hs as (st1 & H1 & H2). destruct (IH _ H2) as (extra & E & Hin & Hd & Hc). cbn in H1 |- *.
  destruct n as [content|es| |]; try done.
  - destruct (_ && _ && _); [|done]. injection H1 as <-. exists extra. split_and!; try done.
    intros x Hx. right. by apply Hin.
  - injection H1 as <-. exists ((p, Dir es) :: extra). cbn in E. rewrite <-app_assoc in E. split_and!; try done.
    + intros x Hx. apply elem_of_cons in Hx as [->|Hx]; [left|right; by apply Hin].
    + by constructor.
    + unfold cost in *. cbn in *. lia.
Qed.

(** A directory of the tree and its path. *)
Definition found (root : path) (t : node) (pn : path * node) : Prop := tree_get (root ++ pn.1) t = Some pn.2 ∧ node_wf pn.2.

Lemma found_children root t p es :
  found root t (p, Dir es) → Forall (found root t) (children_of p (sort_by fst es)).
Proof.
  intros [Hg Hw]. cbn [fst snd] in *. inversion Hw as [|? Hs Hall| |]; subst. unfold children_of. rewrite Forall_fmap, Forall_forall.
  intros [k n] Hin. rewrite sort_by_perm in Hin. split; cbn [fst snd].
  - rewrite app_assoc, tree_get_snoc, Hg. cbn. by apply map_get_elem.
  - rewrite Forall_forall in Hall. by apply (Hall (k, n)).
Qed.

Lemma observe_loop_agrees root mb me cp fuel pend ents tot w :
  Forall (found root (w_tree w)) pend → Forall (λ pn, is_dir_node pn.2 = true) pend → (cost pend ≤ fuel)%nat →
  u64 mb → 0 ≤ tot ≤ mb →
  agrees (observe_loop alone follow fuel root mb me cp (without_nodes (pend, ents, tot)) w) w
    (pure_loop mb me fuel (pend, ents, tot)).
Proof.
  intros Hf Hd Hc Hu. revert pend ents tot Hf Hd Hc. induction fuel as [|fuel IH]; intros pend ents tot Hf Hd Hc Ht;
    cbn [observe_loop pure_loop]; unfold without_nodes at 1; cbn [fst snd]; rewrite fmap_last;
    (destruct (last pend) as [[p n]|] eqn:El; cbn [fmap option_fmap option_map fst]; [|done]);
    apply last_Some in El as [rest ->]; apply Forall_app in Hd as [Hd Hn]; inversion Hn as [|? ? Hn1 _];
    destruct n as [|es| |]; try done.
  { rewrite cost_app, cost_directory in Hc. lia. }
  apply Forall_app in Hf as [Hf Hp]. inversion Hp as [|? ? Hp1 _]; subst. pose proof (found_children _ _ _ _ Hp1) as Hch.
  unfold list_directory, look, mbind at 1, fs_bind at 1. destruct Hp1 as [Hg _]. cbn [fst snd] in Hg. rewrite Hg. cbn [of_result].
  rewrite fmap_app. cbn [fmap list_fmap fst]. rewrite !removelast_last, sort_by_fst.
  pose proof (observe_children_agrees root mb me cp p (sort_by fst es) (rest, ents, tot) w) as Ha. cbn [snd] in Ha.
  destruct Ha as [Ha Hb]; [|done|done|].
  { unfold children_of in Hch. rewrite Forall_fmap in Hch. eapply Forall_impl; [exact Hch|]. intros kn [Hk _]. exact Hk. }
  unfold mbind at 1, fs_bind at 1. unfold without_nodes at 1 in Ha. cbn [fst snd] in Ha.
  pose proof (opt_fold_pending mb me (rest, ents, tot) (children_of p (sort_by fst es))) as Hpend.
  destruct (opt_fold _ _ _) as [[[pend' ents'] tot']|]; cbn [fmap option_fmap option_map agrees mbind option_bind] in *.
  - rewrite Ha. destruct (Hpend _ eq_refl) as (extra & E & Hsub & Hsd & Hcost). cbn [fst snd] in E. subst pend'. apply IH; [|by apply Forall_app| |].
    + apply Forall_app; split; [done|]. eapply Forall_forall. intros x Hx. eapply Forall_forall in Hch; [done|]. by apply Hsub.
    + rewrite !cost_app, cost_directory in *. lia.
    + by apply (Hb _ eq_refl).
  - destruct Ha as (e & -> & He). by exists e.
Qed.
End Observe.

(** * The paths of the files of a tree *)

(** Names hold no separator. *)
Fixpoint proper_names (n : node) : Prop :=
  match n with
  | Dir entries => fold_right (λ kv P, contains_char "/" kv.1 = false ∧ proper_names kv.2 ∧ P) True entries
  | _ => True
  end.

Lemma proper_dir entries :
  proper_names (Dir entries) ↔ Forall (λ kv, contains_char "/" kv.1 = false ∧ proper_names kv.2) entries.
Proof. cbn. induction entries as [|kv es IH]; cbn; [done|]. rewrite IH, Forall_cons. tauto. Qed.

Lemma proper_at p t n : proper_names t → tree_get p t = Some n → proper_names n.
Proof.
  revert t. induction p as [|k p IH]; intros t Ht; [by intros [= <-]|]. rewrite tree_get_cons. destruct t as [|es| |]; try done.
  cbn. destruct (map_get k es) as [c|] eqn:Ek; [|done]. cbn. apply IH. apply proper_dir in Ht. rewrite Forall_forall in Ht.
  apply map_get_in in Ek. by apply Ht in Ek as [_ ?].
Qed.

Lemma wf_at p t n : node_wf t → tree_get p t = Some n → node_wf n.
Proof.
  revert t. induction p as [|k p IH]; intros t Ht; [by intros [= <-]|]. rewrite tree_get_cons. destruct t as [|es| |]; try done.
  cbn. destruct (map_get k es) as [c|] eqn:Ek; [|done]. cbn. apply IH. inversion Ht as [|? ? Hall| |]; subst.
  rewrite Forall_forall in Hall. apply map_get_in in Ek. by apply Hall in Ek.
Qed.

Lemma directories_at p t n : tree_get p t = Some n → (directories n ≤ directories t)%nat.
Proof.
  revert t. induction p as [|k p IH]; intros t; [by intros [= <-]|]. rewrite tree_get_cons. destruct t as [|es| |]; try done.
  cbn [child]. destruct (map_get k es) as [c|] eqn:Ek; [|done]. cbn [mbind option_bind]. intros Hg. apply IH in Hg. apply map_get_in in Ek.
  enough (directories c ≤ directories (Dir es))%nat by lia. clear -Ek. cbn.
  induction es as [|kv es IHes]; [by apply not_elem_of_nil in Ek|].
  cbn. apply elem_of_cons in Ek as [<-|Ek]; [cbn; lia|]. specialize (IHes Ek). lia.
Qed.

Lemma below_paths k (l : list (path * list ascii)) : (map (λ f, (k :: f.1, f.2)) l).*1 = cons k <$> l.*1.
Proof. induction l as [|f l IH]; [done|]. cbn in *. by rewrite IH. Qed.

Lemma files_nodup n : node_wf n → NoDup (files_of n).*1.
Proof.
  induction n as [content|es IH| |] using node_tree_ind; intros Hw; [apply NoDup_singleton| |constructor..].
  inversion Hw as [|? Hs Hall| |]; subst. clear Hw. apply sorted_nodup in Hs. unfold map_keys in Hs. cbn [files_of].
  induction es as [|[k c] es IHes]; [constructor|]. cbn [map concat]. rewrite fmap_app.
  inversion Hs as [|? ? Hk Hs']; subst. inversion Hall; inversion IH; subst. cbn in *. apply NoDup_app. split_and!.
  - rewrite below_paths. apply NoDup_fmap_2; [apply _|]. auto.
  - intros q Hq Hq'. apply list_elem_of_fmap in Hq as ([q1 c1] & -> & Hq). apply list_elem_of_In, in_map_iff in Hq as ([q2 c2] & [= <- <-] & _).
    apply Hk. apply list_elem_of_fmap in Hq' as ([q3 c3] & E & Hq'). cbn in E. subst q3.
    apply list_elem_of_In, in_concat in Hq' as (l & Hl & Hin). apply in_map_iff in Hl as ([k' c'] & <- & Hkc).
    apply in_map_iff in Hin as ([q4 c4] & [= <- _ _] & _). apply list_elem_of_fmap. exists (k', c'). split; [done|]. by apply list_elem_of_In.
  - by apply IHes.
Qed.

Lemma files_proper n : proper_names n → Forall (λ f, Forall (λ k, contains_char "/" k = false) f.1) (files_of n).
Proof.
  induction n as [content|es IH| |] using node_tree_ind; intros Hp; [by repeat constructor| |constructor..].
  apply proper_dir in Hp. cbn [files_of]. induction es as [|[k c] es IHes]; [constructor|]. cbn [map concat].
  inversion IH; inversion Hp as [|? ? [Hk Hc] ?]; subst. cbn in *. apply Forall_app. split; [|auto].
  rewrite Forall_forall. intros f Hf. apply list_elem_of_In, in_map_iff in Hf as ([q c1] & <- & Hin). cbn. constructor; [done|].
  assert (Hfs : Forall (λ f, Forall (λ k, contains_char "/" k = false) f.1) (files_of c)) by auto.
  rewrite Forall_forall in Hfs. apply list_elem_of_In in Hin. by apply (Hfs _ Hin).
Qed.

Lemma files_not_root es f : f ∈ files_of (Dir es) → f.1 ≠ [].
Proof.
  cbn [files_of]. intros Hf. apply list_elem_of_In, in_concat in Hf as (l & Hl & Hin). apply in_map_iff in Hl as ([k c] & <- & _).
  by apply in_map_iff in Hin as ([q c1] & <- & _).
Qed.

Lemma logical_path_inj p q :
  p ≠ [] → q ≠ [] → Forall (λ k, contains_char "/" k = false) p → Forall (λ k, contains_char "/" k = false) q →
  logical_path p = logical_path q → p = q.
Proof.
  assert (Hs : ∀ p, Forall (λ k, contains_char "/" k = false) p → Forall (λ w, ¬ In "/"%char w) (bytes <$> p)).
  { intros r Hr. rewrite Forall_fmap. eapply Forall_impl; [exact Hr|]. intros k Hk Hin. apply contains_char_spec in Hin. congruence. }
  intros Hp Hq Fp Fq E. apply (f_equal bytes) in E. unfold logical_path in E. rewrite !bytes_concat in E.
  apply (f_equal (split_list "/")) in E. rewrite !split_join_list in E by (auto; by destruct p, q).
  apply list_fmap_eq_inj in E; [done|]. intros x y. apply bytes_inj.
Qed.

Section Sorted.
Context `{Backend}.

Lemma entries_determined es l :
  node_wf (Dir es) → proper_names (Dir es) → l ≡ₚ file_entry <$> files_of (Dir es) →
  sort_by ace_path l = sort_by ace_path (file_entry <$> files_of (Dir es)).
Proof.
  intros Hw Hp Hl. apply sort_by_equal; [|done]. rewrite Hl. rewrite <-list_fmap_compose.
  change (ace_path ∘ file_entry) with (logical_path ∘ fst : path * list ascii → string).
  rewrite list_fmap_compose. pose proof (files_nodup _ Hw) as Hn. pose proof (files_proper _ Hp) as Hf.
  assert (Hr : Forall (λ p, p ≠ [] ∧ Forall (λ k, contains_char "/" k = false) p) (files_of (Dir es)).*1).
  { rewrite Forall_fmap, Forall_forall. intros f Hin. split; [by apply (files_not_root es)|].
    rewrite Forall_forall in Hf. by apply Hf. }
  clear -Hn Hr. induction Hr as [|p ps [Hp1 Hp2] Hr IH]; [constructor|]. inversion Hn; subst. rewrite fmap_cons. constructor; [|auto].
  intros Hin. apply list_elem_of_fmap in Hin as (q & E & Hq). rewrite Forall_forall in Hr. destruct (Hr q Hq).
  apply logical_path_inj in E; [by subst|done..].
Qed.
End Sorted.

(** * The reference *)

Fixpoint plain_treeb (n : node) : bool :=
  match n with
  | File _ => true
  | Dir entries => fold_right (λ kv b, plain_treeb kv.2 && b) true entries
  | _ => false
  end.

Lemma plain_treeb_spec n : plain_treeb n = true ↔ plain_tree n.
Proof.
  induction n as [content|es IH| |] using node_tree_ind; [done| |done..]. cbn.
  induction es as [|kv es IHes]; [done|]. inversion IH; subst. cbn. rewrite andb_true_iff. rewrite IHes by done. naive_solver.
Qed.

Section Reference.
Context `{Backend} (follow : path → node → result io_kind (list ascii)).

(** The entries of an artifact: of a file the one named [.], of a directory all
    files below it, sorted by path; nothing but files and directories may be there. *)
Definition reference_entries (kind : ArtifactKind) (n : node) : option (list ArtifactContentEntryV1) :=
  match kind, n with
  | RegularFile, File content =>
    Some [{| ace_path := "."; ace_size_bytes := Z.of_nat (length content);
             ace_content_digest := "sha256:" +:+ encode_hex (sha256 content) |}]
  | Directory, Dir _ =>
    if plain_treeb n && forallb (λ f, valid_utf8 (bytes (logical_path f.1))) (files_of n)
    then Some (sort_by ace_path (file_entry <$> files_of n)) else None
  | _, _ => None
  end.

(** The limits on what a reference lists. *)
Definition within (mb me : Z) (entries : list ArtifactContentEntryV1) : bool :=
  (foldr Z.add 0 (ace_size_bytes <$> entries) <=? mb) && (Z.of_nat (length entries) <=? me).
Definition limited (mb me : Z) (o : option (list ArtifactContentEntryV1)) : option (list ArtifactContentEntryV1) :=
  entries ← o; if within mb me entries then Some entries else None.

Definition evidence_from (c : NormalizedArtifactContract) (entries : list ArtifactContentEntryV1) : option ArtifactEvidence :=
  if within (na_max_bytes c) (na_max_entries c) entries then
    digest ← to_option (canonical_digest {| acm_schema_version := "1.0"; acm_entries := entries |});
    Some {| ae_path := na_path c; ae_kind := na_kind c; ae_producer_check := na_producer_check c;
            ae_entry_count := Z.of_nat (length entries);
            ae_total_bytes := foldr Z.add 0 (ace_size_bytes <$> entries); ae_manifest_digest := digest |}
  else None.

Definition reference_evidence (t : node) (root : path) (c : NormalizedArtifactContract) : option ArtifactEvidence :=
  if (na_path c =? ".")%string then None else
  n ← tree_get (root ++ split "/" (na_path c)) t;
  entries ← reference_entries (na_kind c) n;
  evidence_from c entries.

Lemma agrees_bind {A B} (m : fs ArtifactObservationError A) (f : A → fs ArtifactObservationError B) w o g :
  agrees (m w) w o → (∀ x, o = Some x → agrees (f x w) w (g x)) → agrees ((m ≫= f) w) w (o ≫= g).
Proof.
  intros Hm Hf. unfold mbind at 1, fs_bind at 1. destruct o as [x|]; cbn in *; [rewrite Hm; by apply Hf|].
  destruct Hm as (e & -> & He). by exists e.
Qed.

Definition no_fault {A} (r : result ArtifactObservationError A) : Prop := r ≠ Err (ObservationFault OutOfFuel).

Lemma agrees_lift {A} (r : result ArtifactObservationError A) w : no_fault r → agrees (fs_lift r w) w (to_option r).
Proof. intros Hr. unfold fs_lift. destruct r as [x|e]; [done|]. exists e. split; [done|]. intros ->. by apply Hr. Qed.

Lemma agrees_look {A} (f : node → result ArtifactObservationError A) w :
  no_fault (f (w_tree w)) → agrees (look f w) w (to_option (f (w_tree w))).
Proof. apply agrees_lift. Qed.

Lemma agrees_ret {A} (x : A) w : agrees ((mret x : fs ArtifactObservationError A) w) w (Some x).
Proof. done. Qed.

Definition steady {A} (m : fs ArtifactObservationError A) (w : World) : Prop := ∃ o, agrees (m w) w o.

Lemma steady_bind {A B} (m : fs ArtifactObservationError A) (f : A → fs ArtifactObservationError B) w :
  steady m w → (∀ x, steady (f x) w) → steady (m ≫= f) w.
Proof.
  intros [o Hm] Hf. unfold steady, mbind, fs_bind. destruct o as [x|]; cbn in Hm; [rewrite Hm; apply Hf|].
  destruct Hm as (e & -> & He). exists None. by exists e.
Qed.

Lemma steady_each {A} (f : A → fs ArtifactObservationError ()) l w : (∀ x, steady (f x) w) → steady (fs_each f l) w.
Proof. intros Hf. induction l as [|x l IH]; [by exists (Some ())|]. cbn [fs_each]. by apply steady_bind. Qed.

(** A check that cannot fail where the rest succeeds. *)
Lemma agrees_after {A} (m : fs ArtifactObservationError ()) (k : fs ArtifactObservationError A) w o :
  steady m w → (is_Some o → m w = (Done (), w)) → agrees (k w) w o → agrees ((_ ← m; k) w) w o.
Proof.
  intros [o' Hm] Hs Hk. unfold mbind, fs_bind. destruct o' as [[]|]; cbn in Hm; [by rewrite Hm|].
  destruct Hm as (e & Hm & He). rewrite Hm. destruct o; [|by exists e]. rewrite Hs in Hm by done. done.
Qed.

Definition chain_step (base : path) (cp : string) (p : list component) : fs ArtifactObservationError () :=
  _ ← fs_lift (match last p with Some (Normal _) => Ok () | _ => Err ArtifactPathEscape end);
  look (λ t, plain_directory_at cp (tree_get (base ++ tree_names p) t)).

Lemma chain_step_steady base cp p w : steady (chain_step base cp p) w.
Proof.
  apply steady_bind.
  - eexists. apply agrees_lift. unfold no_fault. by destruct (last p) as [[]|].
  - intros []. eexists. apply agrees_look. unfold no_fault. by destruct (tree_get _ _) as [[]|].
Qed.

Lemma chain_steady base p cp w : steady (ensure_plain_directory_chain base p cp) w.
Proof.
  apply steady_bind; [|intros []; apply steady_each; intros q; apply chain_step_steady].
  eexists. apply agrees_look. unfold no_fault. by destruct (tree_get _ _) as [[]|].
Qed.

(** A chain of directories that are there. *)
Lemma chain_steps (before names base : path) cp w :
  is_dir (tree_get (base ++ before ++ names) (w_tree w)) = true →
  fs_each (chain_step base cp) (prefixes (normals before) (normals names)) w = (Done (), w).
Proof.
  revert before. induction names as [|k names IH]; intros before Hd; [done|].
  change (prefixes (normals before) (normals (k :: names)))
    with ((normals before ++ normals [k]) :: prefixes (normals before ++ normals [k]) (normals names)).
  rewrite <-normals_app. cbn [fs_each].
  replace (before ++ k :: names) with ((before ++ [k]) ++ names) in Hd by (by rewrite <-app_assoc).
  specialize (IH (before ++ [k]) Hd). unfold mbind at 1, fs_bind at 1. rewrite app_assoc in Hd. apply tree_get_dir_app in Hd.
  unfold chain_step at 1, mbind at 1, fs_bind at 1, fs_lift at 1, look at 1. rewrite tree_names_normals.
  rewrite normals_app. change (normals [k]) with [Normal k]. rewrite last_snoc. cbn [of_result]. destruct (tree_get _ _) as [[]|]; try done.
  cbn [plain_directory_at of_result]. change [Normal k] with (normals [k]).
  rewrite <-normals_app. exact IH.
Qed.

Lemma chain_there (base names : path) cp w :
  is_dir (tree_get (base ++ names) (w_tree w)) = true → ensure_plain_directory_chain base (normals names) cp w = (Done (), w).
Proof.
  intros Hd. pose proof (chain_steps [] names base cp w Hd) as Hc. apply tree_get_dir_app in Hd.
  unfold ensure_plain_directory_chain, mbind at 1, fs_bind at 1, look at 1.
  by destruct (tree_get base (w_tree w)) as [[]|].
Qed.

Lemma sum_perm (l m : list Z) : l ≡ₚ m → foldr Z.add 0 l = foldr Z.add 0 m.
Proof. induction 1; cbn; lia. Qed.

Lemma sorted_total l : foldr Z.add 0 (ace_size_bytes <$> sort_by ace_path (file_entry <$> l)) = sizes l.
Proof.
  rewrite (sum_perm _ (ace_size_bytes <$> (file_entry <$> l))) by apply fmap_Permutation, sort_by_perm.
  unfold sizes. by rewrite <-list_fmap_compose.
Qed.

Lemma sorted_length l : length (sort_by ace_path (file_entry <$> l)) = length l.
Proof. rewrite (Permutation_length (sort_by_perm _ _)). apply length_fmap. Qed.

Lemma files_at_root n : files_at [([], n)] = files_of n.
Proof.
  rewrite files_at_cons. cbn [fst snd]. unfold files_at at 1. cbn [fmap list_fmap concat]. rewrite app_nil_r.
  etransitivity; [|apply map_id]. apply List.map_ext. by intros [].
Qed.

Lemma limited_directory mb me es entries :
  limited mb me (reference_entries Directory (Dir es)) = Some entries ↔
  acceptable mb me [([], Dir es)] 0 0 ∧ entries = sort_by ace_path (file_entry <$> files_of (Dir es)).
Proof.
  unfold acceptable. rewrite files_at_root, Forall_singleton. cbn [snd Nat.add].
  assert (Hr : reference_entries Directory (Dir es) =
    if plain_treeb (Dir es) && forallb (λ f, valid_utf8 (bytes (logical_path f.1))) (files_of (Dir es))
    then Some (sort_by ace_path (file_entry <$> files_of (Dir es))) else None) by done.
  rewrite Hr, <-plain_treeb_spec. generalize (files_of (Dir es)). intros files.
  assert (Hu : forallb (λ f, valid_utf8 (bytes (logical_path f.1))) files = true ↔
               Forall (λ f, valid_utf8 (bytes (logical_path f.1)) = true) files).
  { rewrite forallb_forall, Forall_forall. by setoid_rewrite list_elem_of_In. }
  rewrite <-Hu. destruct (plain_treeb (Dir es)), (forallb _ files); cbn [andb limited mbind option_bind]; try naive_solver.
  unfold within. rewrite sorted_total, sorted_length.
  destruct (Z.leb_spec (sizes files) mb), (Z.leb_spec (Z.of_nat (length files)) me); cbn [andb];
    [|split; [done|intros [(_ & _ & ? & ?) _]; lia]..].
  split; [intros [= <-]; split_and!; (done || lia)|by intros [_ ->]].
Qed.

Lemma observe_directory_agrees fuel root mb me cp w n :
  tree_get root (w_tree w) = Some n → node_wf n → proper_names n → (directories n ≤ fuel)%nat → u64 mb → 0 ≤ me →
  agrees (observe_directory alone follow fuel root mb me cp w) w (limited mb me (reference_entries Directory n)).
Proof.
  intros Hn Hw Hp Hf Hu He. unfold observe_directory, mbind at 1, fs_bind at 1, look at 1. rewrite Hn.
  destruct n as [|es| |]; cbn [plain_directory_at of_result]; [by eexists| |by eexists..].
  pose proof (observe_loop_agrees follow root mb me cp fuel [([], Dir es)] [] 0 w) as Hl.
  change (without_nodes ([([], Dir es)], [], 0)) with ([[]] : list path, [] : list ArtifactContentEntryV1, 0) in Hl.
  assert (Hcost : (cost [([], Dir es)] ≤ fuel)%nat) by (change (cost [([], Dir es)]) with (directories (Dir es) + 0)%nat; lia).
  assert (Hfound : Forall (found root (w_tree w)) [([], Dir es)]).
  { constructor; [|constructor]. split; cbn [fst snd]; [by rewrite app_nil_r|done]. }
  assert (Hd : Forall (λ pn : path * node, is_dir_node pn.2 = true) [([], Dir es)]) by (by constructor).
  assert (Hmb : 0 ≤ 0 ≤ mb) by (unfold u64 in Hu; lia). specialize (Hl Hfound Hd Hcost Hu Hmb).
  pose proof (pure_loop_spec follow mb me fuel [([], Dir es)] [] 0 Hd Hcost ltac:(lia) He) as Hs.
  unfold mbind at 1, fs_bind at 1. destruct (pure_loop mb me fuel _) as [l|]; cbn [agrees] in Hl.
  - destruct Hs as [Ha Hperm]. rewrite (proj2 (limited_directory mb me es _) (conj Ha eq_refl)). rewrite Hl. cbn [agrees].
    unfold mret, fs_ret. rewrite (entries_determined es l); [done..|]. rewrite files_at_root in Hperm. done.
  - destruct Hl as (e & -> & Hne). destruct (limited _ _ _) as [entries|] eqn:El; [|by exists e].
    apply limited_directory in El as [Ha _]. by destruct Hs.
Qed.

(** A contract as the configuration makes it. *)
Definition contract_fine (c : NormalizedArtifactContract) : Prop :=
  safe_relative (na_path c) = true ∧ u64 (na_max_bytes c) ∧ u64 (na_max_entries c).

Lemma total_fold cp mb tot entries :
  u64 mb → 0 ≤ tot ≤ mb → Forall (λ e, 0 ≤ ace_size_bytes e) entries →
  try_fold (λ total entry, checked_limit cp mb (total + ace_size_bytes entry)) tot entries =
  if tot + foldr Z.add 0 (ace_size_bytes <$> entries) <=? mb
  then Ok (tot + foldr Z.add 0 (ace_size_bytes <$> entries)) else Err (ArtifactLimit cp).
Proof.
  intros Hu Ht Hs. revert tot Ht. induction Hs as [|e entries He Hs IH]; intros tot Ht; cbn [try_fold fmap list_fmap foldr].
  - by rewrite Z.add_0_r, (proj2 (Z.leb_le tot mb)) by lia.
  - rewrite checked_limit_eq by (done || lia).
    assert (0 ≤ foldr Z.add 0 (ace_size_bytes <$> entries)) by (clear -Hs; induction Hs; cbn in *; lia).
    destruct (Z.leb_spec (tot + ace_size_bytes e) mb); cbn [mbind result_bind].
    + rewrite IH by lia. by rewrite Z.add_assoc.
    + rewrite (proj2 (Z.leb_gt _ mb)); [done|]. cbn [fmap list_fmap] in *. lia.
Qed.

(** What [observe_artifact_contract] does with the entries. *)
Definition conclude (c : NormalizedArtifactContract) (entries : list ArtifactContentEntryV1) :
    fs ArtifactObservationError ArtifactEvidence :=
  entry_count ← fs_lift (ok_or (checked_u64 (Z.of_nat (length entries))) (ArtifactLimit (na_path c)));
  total_bytes ← fs_lift (try_fold (λ total entry,
                  checked_limit (na_path c) (na_max_bytes c) (total + ace_size_bytes entry)) 0 entries);
  _ ← fs_lift (ensure (negb (entry_count >? na_max_entries c)) (ArtifactLimit (na_path c)));
  manifest_digest ← fs_lift (map_err ArtifactManifestError
                      (canonical_digest {| acm_schema_version := "1.0"; acm_entries := entries |}));
  mret {| ae_path := na_path c; ae_kind := na_kind c; ae_producer_check := na_producer_check c;
          ae_entry_count := entry_count; ae_total_bytes := total_bytes; ae_manifest_digest := manifest_digest |}.

Lemma conclude_agrees c entries w :
  contract_fine c → Forall (λ e, 0 ≤ ace_size_bytes e) entries → agrees (conclude c entries w) w (evidence_from c entries).
Proof.
  intros (_ & Hb & He) Hs. unfold evidence_from, within, conclude, fs_lift, mbind, fs_bind, checked_u64.
  rewrite total_fold by (unfold u64 in Hb; done || lia). rewrite Z.add_0_l. set (total := foldr _ _ _).
  unfold u64 in He. rewrite (proj2 (Z.leb_le 0 _)) by lia.
  destruct (Z.leb_spec (Z.of_nat (length entries)) u64_max), (Z.leb_spec total (na_max_bytes c)),
    (Z.leb_spec (Z.of_nat (length entries)) (na_max_entries c)); try lia; cbn [andb ok_or of_result]; try (by eexists);
    rewrite Z.gtb_ltb; first [rewrite (proj2 (Z.ltb_lt _ _)) by lia; by eexists|rewrite (proj2 (Z.ltb_ge _ _)) by lia].
  cbn [negb ensure of_result]. destruct (canonical_digest _) as [digest|e]; cbn; [done|by eexists].
Qed.

(** The entries by the kind of the contract. *)
Definition observe_entries (fuel : nat) (target : path) (c : NormalizedArtifactContract) :
    fs ArtifactObservationError (list ArtifactContentEntryV1) :=
  match na_kind c with
  | RegularFile => entry ← observe_regular_file alone follow target "." (na_max_bytes c) (na_path c); mret [entry]
  | Directory => observe_directory alone follow fuel target (na_max_bytes c) (na_max_entries c) (na_path c)
  end.

Lemma limited_sizes mb me kind n entries :
  limited mb me (reference_entries kind n) = Some entries → Forall (λ e, 0 ≤ ace_size_bytes e) entries.
Proof.
  unfold limited. intros Hl. apply bind_Some in Hl as (es & Hr & Hl). destruct (within _ _ _); [|done]. injection Hl as <-.
  destruct kind, n; try done; cbn [reference_entries] in Hr.
  - injection Hr as <-. repeat constructor. cbn. lia.
  - destruct (_ && _); [|done]. injection Hr as <-. rewrite Forall_forall. intros e He. rewrite sort_by_perm in He.
    apply list_elem_of_fmap in He as (f & -> & _). cbn. lia.
Qed.

Lemma within_file mb me content :
  u64 mb → within mb me [{| ace_path := "."; ace_size_bytes := Z.of_nat (length content);
                            ace_content_digest := "sha256:" +:+ encode_hex (sha256 content) |}] =
  (Z.of_nat (length content) <=? mb) && (1 <=? me).
Proof. intros _. unfold within. cbn. by rewrite Z.add_0_r. Qed.

Lemma observe_entries_agrees fuel target c n w :
  node_wf (w_tree w) → proper_names (w_tree w) → (directories (w_tree w) ≤ fuel)%nat → contract_fine c →
  tree_get target (w_tree w) = Some n → ∃ o, agrees (observe_entries fuel target c w) w o ∧
    o ≫= evidence_from c = reference_entries (na_kind c) n ≫= evidence_from c ∧ (∀ l, o = Some l → Forall (λ e, 0 ≤ ace_size_bytes e) l).
Proof.
  intros Hw Hp Hf (_ & Hb & Hm) Hn. unfold observe_entries. destruct (na_kind c).
  - eexists (match n with File content => if Z.of_nat (length content) <=? na_max_bytes c then Some [_] else None | _ => None end).
    split_and!.
    + unfold mbind, fs_bind. rewrite observe_file_alone, Hn by done.
      destruct n as [content| | |]; [|by eexists..]. destruct (_ <=? _); [done|by eexists].
    + destruct n as [content| | |]; try done. cbn [reference_entries mbind option_bind]. unfold evidence_from. rewrite within_file by done.
      destruct (_ <=? na_max_bytes c) eqn:E; cbn [mbind option_bind]; [|done]. by rewrite within_file, E.
    + intros l. destruct n; try done. destruct (_ <=? _); [|done]. intros [= <-]. repeat constructor. cbn. lia.
  - eexists. split_and!.
    + apply observe_directory_agrees; try done; [by eapply wf_at|by eapply proper_at| |unfold u64 in Hm; lia].
      pose proof (directories_at _ _ _ Hn). lia.
    + destruct (reference_entries _ _) as [entries|]; [|done]. cbn [limited mbind option_bind]. unfold evidence_from.
      by destruct (within _ _ _) eqn:E; cbn; rewrite ?E.
    + intros l. apply limited_sizes.
Qed.

Lemma contract_agrees fuel root c w :
  node_wf (w_tree w) → proper_names (w_tree w) → (directories (w_tree w) ≤ fuel)%nat → contract_fine c →
  agrees (observe_artifact_contract alone follow fuel root c w) w (reference_evidence (w_tree w) root c).
Proof.
  intros Hw Hp Hf Hc. destruct (Hc) as (Hsafe & Hb & Hm). unfold reference_evidence, observe_artifact_contract.
  destruct (String.eqb_spec (na_path c) ".") as [->|Hdot]; [by eexists|]. rewrite components_safe by done.
  pose proof (split_nonempty (na_path c)) as Hne. set (names := split "/" (na_path c)) in *.
  assert (Hrel : match normals names with CurDir :: p => p | p => p end = normals names) by (by destruct names).
  rewrite Hrel. clear Hrel. rewrite tree_names_normals.
  assert (Habs : is_absolute (normals names) = false) by (by destruct names). rewrite Habs.
  assert (Hup : path_parent (Normal "artifacts" :: normals names) = Some (Normal "artifacts" :: normals (removelast names))).
  { unfold path_parent. change (Normal "artifacts" :: normals names) with (normals ("artifacts" :: names)).
    destruct (exists_last Hne) as (pre & k & ->). rewrite app_comm_cons, normals_app. change (normals [k]) with [Normal k].
    by rewrite last_snoc, !removelast_last. }
  rewrite Hup. assert (Hnil : is_nil (normals names) = false) by (by destruct names). rewrite Hnil.
  unfold mbind at 1, fs_bind at 1, fs_lift at 1. cbn [negb ensure of_result].
  unfold mbind at 1, fs_bind at 1, fs_lift at 1. cbn [ok_or of_result].
  unfold mbind at 1, fs_bind at 1, fs_lift at 1. cbn [of_result tail].
  apply agrees_after; [apply chain_steady| |].
  { intros [e He]. apply bind_Some in He as (n & Hn & _). apply chain_there.
    destruct (exists_last Hne) as (pre & k & E). rewrite E in *. rewrite removelast_last. rewrite app_assoc, tree_get_snoc in Hn.
    by destruct (tree_get (root ++ pre) (w_tree w)) as [[]|]. }
  change (agrees ((entries ← observe_entries fuel (root ++ names) c; conclude c entries) w) w
    (n ← tree_get (root ++ names) (w_tree w); entries ← reference_entries (na_kind c) n; evidence_from c entries)).
  destruct (tree_get (root ++ names) (w_tree w)) as [n|] eqn:Hn; cbn [mbind option_bind].
  - destruct (observe_entries_agrees fuel (root ++ names) c n w) as (o & Ho & He & Hs); [done..|].
    change (agrees ((entries ← observe_entries fuel (root ++ names) c; conclude c entries) w) w
      (reference_entries (na_kind c) n ≫= evidence_from c)). rewrite <-He.
    eapply agrees_bind; [exact Ho|]. intros entries ->. apply conclude_agrees; auto.
  - unfold observe_entries. destruct (na_kind c); unfold mbind, fs_bind.
    + rewrite observe_file_alone, Hn by done. by eexists.
    + unfold observe_directory, mbind, fs_bind, look. rewrite Hn. by eexists.
Qed.
End Reference.
