(* ===== verification/ArtifactClaims.v ===== *)
(** What the observation of artifacts shows ([Artifacts.v]): the evidence is exactly
    what the tree holds, and with others at work a digest is of what was read. *)
From S2P Require Import Prelude.
From S2P Require Import RustStr.
From S2P Require Import BTree.
From S2P Require Import Canonical.
From S2P Require Import Config.
From S2P Require Import Receipt.
From S2P Require Import Durable.
From S2P Require Import FileSystem.
From S2P Require Import CachePayload.
From S2P Require Import CacheRoot.
From S2P Require Import Cache.
From S2P Require Import Workspace.
From S2P Require Import WorkspaceProps.
From S2P Require Import Artifacts.
From S2P Require Import ArtifactProps.
From S2P Require Import PlanClaims.
Import PlanExample.
Local Open Scope Z_scope.

Section Claims.
Context `{Backend} (follow : path → node → result io_kind (list ascii)).

(** C26.  The evidence of the artifacts is exactly what the tree holds.  With nothing
    else at work and a turn for each directory, the observation of all the contracts
    of a plan gives the evidence of the reference, which lists the files of every
    artifact with their sizes and digests in order, and an error when the reference
    has none; it changes nothing. *)
Theorem observe_artifacts_exact fuel (plan : ExecutionPlanV1) (run_root : path) (w : World) :
  node_wf (w_tree w) → proper_names (w_tree w) → (directories (w_tree w) ≤ fuel)%nat →
  Forall contract_fine (artifact_contracts plan) →
  agrees (observe_artifacts alone follow fuel plan run_root w) w
    (mapM (reference_evidence (w_tree w) (run_root ++ ["artifacts"])) (artifact_contracts plan)).
Proof.
  intros Hw Hp Hf Hc. unfold observe_artifacts. destruct (artifact_contracts plan) as [|c cs] eqn:Ecs; [done|]. cbn [is_nil].
  apply agrees_after; [apply chain_steady| |].
  - intros [l Hl]. cbn [mapM] in Hl. apply bind_Some in Hl as (e & He & _). unfold reference_evidence in He.
    destruct (na_path c =? ".")%string; [done|]. apply bind_Some in He as (n & Hn & _).
    change [Normal "artifacts"] with (normals ["artifacts"]). apply chain_there. rewrite tree_get_app in Hn.
    destruct (split "/" (na_path c)) as [|k r] eqn:Es; [by apply split_nonempty in Es|].
    destruct (tree_get (run_root ++ ["artifacts"]) (w_tree w)) as [[]|]; done.
  - clear Ecs. unfold fs_collect. generalize (c :: cs) Hc. clear c cs Hc. intros cs Hc.
    assert (G : ∀ acc, agrees (fs_fold (λ acc x, y ← observe_artifact_contract alone follow fuel (run_root ++ ["artifacts"]) x; mret (acc ++ [y])) acc cs w) w
                         (app acc <$> mapM (reference_evidence (w_tree w) (run_root ++ ["artifacts"])) cs)).
    { induction Hc as [|c cs Hc Hcs IH]; intros acc; cbn [fs_fold mapM]; [cbn; by rewrite app_nil_r|].
      pose proof (contract_agrees follow fuel (run_root ++ ["artifacts"]) c w Hw Hp Hf Hc) as Ha.
      unfold mbind at 1, fs_bind at 1. unfold mbind at 1, fs_bind at 1.
      destruct (reference_evidence _ _ c) as [e|]; cbn [agrees] in Ha; cbn [mbind option_bind fmap option_fmap option_map].
      - rewrite Ha. unfold mret, fs_ret. specialize (IH (acc ++ [e])).
        destruct (mapM _ cs) as [l|]; cbn in *; [by rewrite <-app_assoc in IH|done].
      - by destruct Ha as (e & -> & He); exists e. }
    specialize (G []). destruct (mapM _ cs); exact G.
Qed.

(** Whatever other processes do to the tree between the look at a file, the read
    and the last look: when the observation of a regular file succeeds, its size and
    digest are those of the bytes that were read, they are within the limit, and in
    the end there is a regular file of that length in its place. *)
Theorem observed_file_is_what_was_read (between : moment → path → node → node) p logical limit cp w e w' :
  u64 limit → observe_regular_file between follow p logical limit cp w = (Done e, w') →
  ∃ content after,
    (tree_get p (between BeforeOpen p (w_tree w)) = Some (File content) ∨
     ∃ n, tree_get p (between BeforeOpen p (w_tree w)) = Some n ∧ follow p n = Ok content) ∧
    ace_size_bytes e = Z.of_nat (length content) ∧ Z.of_nat (length content) ≤ limit ∧
    ace_content_digest e = "sha256:" +:+ encode_hex (sha256 content) ∧
    tree_get p (w_tree w') = Some (File after) ∧ length after = length content.
Proof.
  intros Hu Ho. unfold observe_regular_file in Ho. apply fs_bind_done in Ho as ([] & w0 & Hl & Ho).
  assert (w0 = w) as -> by (unfold look in Hl; by injection Hl as _ ->). clear Hl.
  apply fs_bind_done in Ho as ([] & w1 & [= <-] & Ho). apply fs_bind_done in Ho as (content & w2 & Hc & Ho).
  unfold look in Hc. injection Hc as Hc <-. cbn [w_tree set_tree] in Hc.
  apply fs_bind_done in Ho as ([observed hashed] & w3 & Hr & Ho). unfold fs_lift in Hr. injection Hr as Hr <-.
  pose proof (read_chunks cp limit 0 [] (chunks (length content) content) Hu ltac:(unfold u64 in Hu; lia)) as Hread.
  rewrite chunks_concat in Hread by done.
  destruct (try_fold _ _ (chunks _ _)) as [[m all]|]; [|discriminate Hr]. cbn in Hr. injection Hr as -> ->.
  destruct Hread as (-> & Hm & ->). apply fs_bind_done in Ho as ([] & w4 & [= <-] & Ho). apply fs_bind_done in Ho as ([] & w5 & Ha & Ho).
  unfold look in Ha. injection Ha as Ha <-. injection Ho as <- <-. cbn [w_tree set_tree ace_size_bytes ace_content_digest app] in *.
  destruct (tree_get p (between AfterRead p _)) as [[after| | |]|] eqn:Eafter; try discriminate Ha.
  destruct (Z.eqb_spec (Z.of_nat (length after)) (0 + Z.of_nat (length content))); [|discriminate Ha].
  exists content, after. split_and!; try done; try lia.
  destruct (tree_get p (between BeforeOpen p (w_tree w))) as [[bs| | |]|]; cbn in Hc; try discriminate Hc.
  - injection Hc as ->. by left.
  - right. eexists. split; [done|]. by destruct (follow p _); cbn in Hc; simplify_eq.
  - right. eexists. split; [done|]. by destruct (follow p _); cbn in Hc; simplify_eq.
  - right. eexists. split; [done|]. by destruct (follow p _); cbn in Hc; simplify_eq.
Qed.
End Claims.

(** * Example *)

Module ArtifactExample.
Definition out : NormalizedArtifactContract :=
  {| na_path := "out"; na_kind := Directory; na_max_bytes := 100; na_max_entries := 5; na_producer_check := "build" |}.
Definition report : NormalizedArtifactContract :=
  {| na_path := "report"; na_kind := RegularFile; na_max_bytes := 100; na_max_entries := 1; na_producer_check := "build" |}.
Definition build_check : NormalizedCheck :=
  {| nk_id := "build"; nk_required := true; nk_argv := ["make"]; nk_working_directory := "."; nk_timeout_seconds := 60;
     nk_depends_on := []; nk_artifacts := ["out"; "report"]; nk_artifact_contracts := [report; out] |}.
Definition plan : ExecutionPlanV1 :=
  let p := pe_plan demo_plan in
  {| ep_schema_version := ep_schema_version p; ep_project := ep_project p; ep_runtime := ep_runtime p;
     ep_receipt := ep_receipt p; ep_environment := ep_environment p; ep_caches := ep_caches p; ep_storage := ep_storage p;
     ep_checks := [build_check] |}.

Definition tree : node :=
  Dir [("run", Dir [("artifacts", Dir [("out", Dir [("sub", Dir [("b", File (bytes "two"))]); ("x", File (bytes "one"))]);
                                       ("report", File (bytes "fine"))])])].
Definition world : World :=
  {| w_tree := tree; w_locks := []; w_sequence := 0; w_durable := 0; w_promoted := []; w_run_lock := 0; w_fates := [] |}.
Definition nothing : path → node → result io_kind (list ascii) := λ _ _, Err OtherIo.

Lemma tree_wf : node_wf tree.
Proof. repeat (constructor; cbn); done. Qed.

(** Two artifacts, of two files and of one. *)
Lemma observe_artifacts_exact_witness : ∃ l,
  observe_artifacts alone nothing 5 plan ["run"] world = (Done l, world) ∧ (ae_path <$> l) = ["out"; "report"] ∧
  (ae_entry_count <$> l) = [2; 1] ∧ (ae_total_bytes <$> l) = [6; 4].
Proof.
  pose proof (observe_artifacts_exact nothing 5 plan ["run"] world tree_wf ltac:(by vm_compute) ltac:(vm_compute; lia)
    ltac:(repeat constructor; (reflexivity || (intros E; discriminate E)))) as Ha.
  destruct (mapM (reference_evidence (w_tree world) (["run"] ++ ["artifacts"])) (artifact_contracts plan)) as [l|] eqn:El;
    [|vm_compute in El; discriminate El].
  exists l. split; [exact Ha|]. vm_compute in El. injection El as <-. split_and!; reflexivity.
Defined.

(** Another process appends to the report while it is read, and takes it back. *)
Definition restless : moment → path → node → node := λ m p t,
  match m with
  | BeforeOpen => tree_put p (Some (File (bytes "finer"))) t
  | AfterRead => tree_put p (Some (File (bytes "other"))) t
  end.

Lemma observed_file_is_what_was_read_witness : ∃ e w' content after,
  observe_regular_file restless nothing ["run"; "artifacts"; "report"] "." 100 "report" world = (Done e, w') ∧
  ace_content_digest e = "sha256:" +:+ encode_hex (sha256 content) ∧
  tree_get ["run"; "artifacts"; "report"] (w_tree w') = Some (File after) ∧ length after = length content.
Proof.
  destruct (observe_regular_file restless nothing ["run"; "artifacts"; "report"] "." 100 "report" world) as [r w'] eqn:Er.
  destruct r as [e|e|]; [|vm_compute in Er; discriminate Er..]. exists e, w'.
  destruct (observed_file_is_what_was_read nothing restless ["run"; "artifacts"; "report"] "." 100 "report" world e w')
    as (content & after & _ & _ & _ & Hd & Hg & Hl); [by split|exact Er|].
  exists content, after. by split_and!.
Defined.
End ArtifactExample.
