(* ===== verification/WorkspaceClaims.v ===== *)
(** The theorems on workspaces ([Workspace.v]). *)
From S2P Require Import Prelude.
From stdpp Require Import relations.
From S2P Require Import RustStr.
From S2P Require Import BTree.
From S2P Require Import Canonical.
From S2P Require Import Config.
From S2P Require Import ConfigProps.
From S2P Require Import PlanProps.
From S2P Require Import PlanClaims.
From S2P Require Import Receipt.
From S2P Require Import Durable.
From S2P Require Import FileSystem.
From S2P Require Import CachePayload.
From S2P Require Import CacheRoot.
From S2P Require Import Cache.
From S2P Require Import CacheClaims.
From S2P Require Import Workspace.
From S2P Require Import WorkspaceProps.
From S2P Require Import Artifacts.
From S2P Require Import ArtifactProps.
From S2P Require Import ArtifactClaims.
Local Open Scope Z_scope.

Section Plans.
Context `{Backend} (os : PathOracle).

(** A place below [base], by names alone. *)
Definition strictly_below (base p : list component) : Prop := ∃ names, names ≠ [] ∧ p = base ++ normals names.

(** A writable mount: its source is below the cache root and its target below the
    workspace of the container. *)
Definition confined (cache : ResolvedCacheRoot) (m : MountBinding) : Prop :=
  mb_access m = ReadWrite ∧ strictly_below (rr_path cache) (mb_source m) ∧
  ∃ relative, mb_target m = workspace_target relative ∧ Forall (λ s, plain_segment s = true) (split "/" relative) ∧
              mountable relative = true ∧ has_control relative = false.

(** C22.  What a container can write to is confined.  In a plan of the mounts the
    repository comes first, read-only and in its canonical place; every other mount
    is writable, its host source lies strictly below the cache root by plain names,
    its target is made of plain segments below [/workspace] with none of the
    characters that separate the parts of a mount argument; no two mounts have one
    target, and there is one for each cache and each artifact of the plan. *)
Theorem mounts_confined (envelope : ExecutionPlanEnvelopeV1) (repository : list component) (cache : ResolvedCacheRoot)
    (plan : WorkspacePlanV1) :
  build os envelope repository cache = Ok plan →
  ∃ canonical writable,
    wp_mounts plan = repository_mount canonical :: writable ∧ po_canonicalize os repository = Ok canonical ∧
    Forall (confined cache) writable ∧ NoDup (mb_target <$> wp_mounts plan) ∧
    length writable = length (mount_paths (pe_plan envelope)).
Proof.
  intros (canonical & run_root & caches & artifacts & Hc & _ & _ & Hr & Hcs & Has & Hnd & ->)%workspace_build_ok.
  exists canonical, ((caches ++ artifacts).*2). cbn [wp_mounts].
  assert (Hc1 : Forall2 (λ a p, mb_target p.2 = p.1 ∧ confined cache p.2) (ep_caches (pe_plan envelope)) caches).
  { eapply Forall2_impl; [exact Hcs|]. intros a p Hp. unfold prepare_cache_mount in Hp. res_inv. subst.
    rename select (container_target _ = _) into Ht. apply container_target_confined in Ht as (-> & _ & ?).
    split; [done|]. split; [done|]. split; [by eexists (entry_data_path _)|by eexists]. }
  assert (Hc2 : Forall2 (λ a p, mb_target p.2 = p.1 ∧ confined cache p.2) (plan_artifacts (pe_plan envelope)) artifacts).
  { eapply Forall2_impl; [exact Has|]. intros [check a] p Hp. unfold prepare_artifact_mount in Hp. res_inv. subst.
    rename select (container_target _ = _) into Ht. apply container_target_confined in Ht as (-> & Hsl & Hseg & ?).
    split; [done|]. split; [done|]. split; [|by eexists]. cbn [fst snd artifact_binding mb_source].
    rewrite path_join_names by done. exists (run_root ++ ["artifacts"] ++ split "/" a).
    split; [by destruct run_root|]. unfold below. rewrite !normals_app, !app_assoc. done. }
  assert (Hall : Forall (λ p : string * MountBinding, mb_target p.2 = p.1 ∧ confined cache p.2) (caches ++ artifacts)).
  { apply Forall_app. split; eapply Forall2_Forall_r; try done; by apply Forall_true. }
  split_and!; [done|done| | |].
  - rewrite Forall_fmap. eapply Forall_impl; [exact Hall|]. by intros p [_ ?].
  - rewrite fmap_cons. assert (Ht : mb_target <$> (caches ++ artifacts).*2 = (caches ++ artifacts).*1); [|by rewrite Ht].
    rewrite <-list_fmap_compose. apply Forall_fmap_ext. eapply Forall_impl; [exact Hall|]. by intros p [? _].
  - unfold mount_paths. rewrite length_fmap, !length_app, length_fmap, <-(Forall2_length _ _ _ Hcs), <-(Forall2_length _ _ _ Has).
    by rewrite <-plan_artifacts_paths, length_fmap.
Qed.

Lemma mounts_exist {A} (prep : A → result WorkspaceError (string * MountBinding)) (target : A → string) l :
  Forall (λ a, ∃ m, prep a = Ok (target a, m)) l → ∃ ps, Forall2 (λ a p, prep a = Ok p) l ps ∧ ps.*1 = target <$> l.
Proof.
  induction 1 as [|a l [m Hm] _ (ps & Hps & Ht)]; [by exists []|]. exists ((target a, m) :: ps).
  split; [by constructor|]. by rewrite !fmap_cons, Ht.
Qed.

Lemma targets_nodup l : NoDup l → NoDup (CONTAINER_WORKSPACE :: (workspace_target <$> l)).
Proof.
  intros Hl. constructor.
  - intros (v & E & _)%list_elem_of_fmap. unfold workspace_target, CONTAINER_WORKSPACE in E. cbn in E. discriminate E.
  - apply NoDup_fmap_2; [|done]. intros v v' E. unfold workspace_target, CONTAINER_WORKSPACE in E. cbn in E. by injection E.
Qed.

Lemma run_root_exists `{!BackendOk} c e : into_plan c = Ok e → ∃ run_root, workspace_path (pe_plan_digest e) = Ok run_root.
Proof.
  intros (_ & _ & _ & _ & _ & _ & Hdig)%into_plan_ok. destruct (canonical_digest_shape _ _ Hdig) as (hex & Hp & Hl & Hx).
  unfold workspace_path, validated_digest_hex. change "sha256:" with RECEIPT_ID_PREFIX. rewrite Hp. cbn [ok_or mbind result_bind].
  rewrite Hl, Hx. by eexists.
Qed.

Lemma under_root_ok (root p : list component) : validate_under_root (root ++ p) root = Ok ().
Proof.
  unfold validate_under_root, path_starts_with.
  rewrite (bool_decide_eq_true_2 (root `prefix_of` root ++ p)) by (apply prefix_app_r; reflexivity). by rewrite orb_true_r.
Qed.

Lemma cache_mount_exists e cache a :
  (∀ v, is_Some (json_to_vec v)) → plan_path (nc_mount_path a) → mountable (nc_mount_path a) = true →
  ∃ m, prepare_cache_mount e cache [] a = Ok (workspace_target (nc_mount_path a), m).
Proof.
  intros Hjson Hf Hm. unfold prepare_cache_mount, for_plan_cache, canonical_json.
  destruct (Hjson (normalize_json (to_value {| ki_schema_version := "1.0"; ki_project := ep_project (pe_plan e);
    ki_plan_digest := pe_plan_digest e; ki_image := nr_image (ep_runtime (pe_plan e)); ki_cache_id := nc_id a |}))) as [b ->].
  cbn [ok_or map_err mbind result_bind map_get default]. unfold below. rewrite under_root_ok. cbn [mbind result_bind].
  rewrite container_target_eq, Hm by done. by eexists.
Qed.

Lemma artifact_mount_exists run_root (a : NormalizedCheck * string) :
  plan_path a.2 → mountable a.2 = true → ∃ m, prepare_artifact_mount run_root a = Ok (workspace_target a.2, m).
Proof.
  intros Hf Hm. destruct (Hf) as (Hs & Hdot & _). destruct (safe_segments _ Hs Hdot). unfold prepare_artifact_mount.
  rewrite path_join_names, <-app_assoc, under_root_ok by done. cbn [mbind result_bind]. rewrite container_target_eq, Hm by done. by eexists.
Qed.

(** For a plan the configuration gave and a repository that is a directory in a
    usable place, the mounts can be planned exactly when no path of a cache or an
    artifact has a comma or an equals sign; nothing else that the configuration
    accepts is refused later. *)
Theorem accepted_plan_mounts `{!BackendOk} (c : ConfigV1) (e : ExecutionPlanEnvelopeV1) (repository canonical : list component)
    (cache : ResolvedCacheRoot) :
  into_plan c = Ok e → (∀ v, is_Some (json_to_vec v)) →
  po_canonicalize os repository = Ok canonical → po_is_dir os canonical = true → validate_host_path canonical = Ok () →
  is_ok (build os e repository cache) = forallb mountable (mount_paths (pe_plan e)).
Proof.
  intros He Hjson Hc Hd Hh. pose proof (plan_paths_fine c e He) as Hfine. pose proof (plan_paths_distinct c e He) as Hnd.
  apply eq_true_iff_eq. rewrite forallb_Forall, is_ok_spec. split.
  - intros (plan & (? & run_root & caches & artifacts & _ & _ & _ & Hr & Hcs & Has & _)%workspace_build_ok).
    unfold mount_paths. apply Forall_app. split.
    + rewrite Forall_fmap. eapply Forall2_Forall_l; [exact Hcs|]. apply Forall_true. intros p a Hp. unfold prepare_cache_mount in Hp. res_inv.
      rename select (container_target _ = _) into Ht. by apply container_target_confined in Ht as (_ & _ & _ & ? & _).
    + assert (Ha : Forall (λ a : NormalizedCheck * string, mountable a.2 = true) (plan_artifacts (pe_plan e))).
      { eapply Forall2_Forall_l; [exact Has|]. apply Forall_true. intros p a Hp. unfold prepare_artifact_mount in Hp. res_inv.
        rename select (container_target _ = _) into Ht. by apply container_target_confined in Ht as (_ & _ & _ & ? & _). }
      by rewrite <-plan_artifacts_paths, Forall_fmap.
  - intros Hm. unfold mount_paths in Hm, Hfine, Hnd. apply Forall_app in Hm as [Hm1 Hm2], Hfine as [Hf1 Hf2].
    rewrite Forall_fmap in Hm1, Hf1. rewrite <-plan_artifacts_paths in Hm2, Hf2, Hnd. rewrite Forall_fmap in Hm2, Hf2.
    destruct (run_root_exists c e He) as [run_root Hr].
    assert (H1 : Forall (λ a, ∃ m, prepare_cache_mount e cache [] a = Ok (workspace_target (nc_mount_path a), m)) (ep_caches (pe_plan e))).
    { apply Forall_forall. intros a Ha. rewrite Forall_forall in Hm1, Hf1. apply cache_mount_exists; [done|by apply (Hf1 a)|by apply (Hm1 a)]. }
    assert (H2 : Forall (λ a, ∃ m, prepare_artifact_mount (below (rr_path cache) run_root) a = Ok (workspace_target a.2, m)) (plan_artifacts (pe_plan e))).
    { apply Forall_forall. intros a Ha. rewrite Forall_forall in Hm2, Hf2. apply artifact_mount_exists; [by apply (Hf2 a)|by apply (Hm2 a)]. }
    destruct (mounts_exist _ (workspace_target ∘ nc_mount_path) _ H1) as (caches & Hcs & Ht1).
    destruct (mounts_exist _ (workspace_target ∘ snd) _ H2) as (artifacts & Has & Ht2).
    eexists. apply workspace_build_ok. exists canonical, run_root, caches, artifacts. split_and!; try done.
    rewrite fmap_app, Ht1, Ht2, !list_fmap_compose, <-fmap_app. by apply targets_nodup.
Qed.
End Plans.

(** * The run lock *)

(** What the processes on one cache root do to their run locks: take one, let one
    go, die with one, or do anything that leaves the lock files alone.  The failures
    of the single effects are those of the world of each step. *)
Inductive lock_step : node * list WorkspaceLock → node * list WorkspaceLock → Prop :=
  | step_acquire c run_root w held r w' :
    acquire_run_lock c run_root w = (r, w') →
    lock_step (w_tree w, held) (w_tree w', match r with Done lock => lock :: held | _ => held end)
  | step_drop before lock after w r w' :
    drop_run_lock lock w = (r, w') → lock_step (w_tree w, before ++ lock :: after) (w_tree w', before ++ after)
  | step_die t before lock after : lock_step (t, before ++ lock :: after) (t, before ++ after)
  | step_other t t' held :
    (∀ lock, lock ∈ held → tree_get (wl_path lock) t' = tree_get (wl_path lock) t) → lock_step (t, held) (t', held).

(** Every lock that is held has its file, and no two have one. *)
Definition locks_fine (s : node * list WorkspaceLock) : Prop :=
  NoDup (wl_path <$> s.2) ∧
  Forall (λ lock, (∃ run_root, wl_path lock = run_root ++ [RUN_LOCK_FILE]) ∧
                  tree_get (wl_path lock) s.1 = Some (File (wl_owner lock))) s.2.

(** Different places, of which one holds a file and the other a file or nothing in a
    directory, are apart. *)
Lemma file_apart p q t content :
  p ≠ q → tree_get q t = Some (File content) →
  (is_dir (tree_get (parent p) t) = true ∨ ∃ content', tree_get p t = Some (File content')) →
  p ≠ [] → (tree_get p t = None ∨ ∃ content', tree_get p t = Some (File content')) → apart p q.
Proof.
  intros Hne Hq Hp Hnil Hat. split; intros [r Er].
  - subst q. destruct r as [|k r]; [by rewrite app_nil_r in Hne|]. rewrite tree_get_app in Hq.
    destruct Hat as [Hn|[content' Hn]]; rewrite Hn in Hq; discriminate Hq.
  - subst p. destruct r as [|k r] using rev_ind; [by rewrite app_nil_r in Hne|]. clear IHr.
    destruct Hp as [Hd|[content' Hc]].
    + rewrite app_assoc, parent_snoc in Hd. apply tree_get_dir_app in Hd. by rewrite Hq in Hd.
    + rewrite tree_get_app, Hq in Hc. by destruct r.
Qed.

Lemma effect_cases act partial w :
  let '(r, w') := effect act partial w in
  match r with
  | Done _ => ∃ t, act (w_tree w) = Ok t ∧ w_tree w' = t
  | _ => w_tree w' = w_tree w ∨ ∃ rest, is_ok (act (w_tree w)) = true ∧ w_tree w' = partial rest (w_tree w)
  end.
Proof.
  unfold effect. destruct (act (w_tree w)) as [t|e] eqn:Ea; [|by destruct (head (w_fates w)) as [[]|]; left].
  destruct (head (w_fates w)) as [[|rest|rest]|]; cbn; eauto.
Qed.

Section Acquire.
Context (c : CacheProcess) (run_root : path) (t0 : node).

Let p := run_root ++ [RUN_LOCK_FILE].

(** The lock file is new, with content [v], or gone again. *)
Definition new_at (v : option node) (t : node) : Prop :=
  tree_get p t0 = None ∧ is_dir (tree_get run_root t0) = true ∧ outside p t0 t ∧ is_dir (tree_get run_root t) = true ∧
  tree_get p t = v.
Definition perhaps_new (t : node) : Prop := t = t0 ∨ ∃ v, new_at v t.

Lemma new_put v u t : new_at v t → new_at u (tree_put p u t).
Proof.
  intros (H1 & H2 & H3 & H4 & _). split_and!; try done.
  - eapply outside_trans; [exact H3|]. apply outside_put_self.
  - unfold p. by rewrite tree_put_dir_above.
  - by apply tree_put_same.
Qed.

Lemma acquire_triple :
  crash_triple (λ t, t = t0) (acquire_run_lock c run_root)
    (λ lock t, wl_path lock = p ∧ new_at (Some (File (wl_owner lock))) t) perhaps_new.
Proof.
  unfold acquire_run_lock. fold p.
  eapply triple_bind with (R := λ _ t, t = t0); [apply triple_same_tree; intros w; by do 2 eexists|]. intros sequence.
  eapply triple_bind with (R := λ _, new_at (Some (File []))).
  { apply triple_map_err, triple_effect; [|by left]. intros t ->. destruct (tree_get p t0) as [n|] eqn:En; [by left|].
    unfold p at 1. rewrite parent_snoc. destruct (is_dir (tree_get run_root t0)) eqn:Ed; [|by left].
    split; [|by left]. split_and!; try done; [apply outside_put_self|unfold p; by rewrite tree_put_dir_above|by apply tree_put_same]. }
  intros []. eapply triple_bind with (R := λ _, new_at (Some (File (lock_text c sequence))));
    [|by intros [] w Hw].
  eapply triple_catch with (C1 := λ t, ∃ v, new_at v t).
  - apply triple_map_err. eapply triple_bind with (R := λ _, new_at (Some (File (lock_text c sequence)))).
    + apply triple_effect; [|by eauto]. intros t Ht. unfold append_bytes. destruct (Ht) as (_ & _ & _ & _ & Hg). rewrite Hg. cbn [app].
      split; [by eapply new_put|]. intros rest. exists (Some (File (take (re_bytes rest) (lock_text c sequence)))). by eapply new_put.
    + intros []. apply triple_effect; [|by eauto]. intros t Ht. split; [done|]. intros rest. by eexists.
  - intros e. eapply triple_bind with (R := λ _ t, ∃ v, new_at v t); [|intros []; apply triple_err; by right].
    apply triple_conseq with (P' := λ t, ∃ v, new_at v t) (Q' := λ _ t, ∃ v, new_at v t) (C' := λ t, ∃ v, new_at v t); [|done|done|by right].
    eapply triple_ignore; [|by intros t Ht; exact Ht]. apply triple_effect; [|done]. intros t [v Ht].
    destruct (tree_get p t) as [[]|]; first [by exists v|split; [exists None; by eapply new_put|intros rest; by exists v]].
  - by right.
Qed.
End Acquire.

Lemma drop_triple lock t0 :
  tree_get (wl_path lock) t0 = Some (File (wl_owner lock)) →
  crash_triple (λ t, t = t0) (drop_run_lock lock) (λ _, outside (wl_path lock) t0) (outside (wl_path lock) t0).
Proof.
  intros Hg. assert (H0 : ∀ t, t = t0 → outside (wl_path lock) t0 t) by (intros t ->; apply outside_refl).
  unfold drop_run_lock. eapply triple_bind with (R := λ n t, t = t0 ∧ n = Some (File (wl_owner lock))).
  { apply triple_look. by intros t ->. }
  intros n w [Hw ->]. rewrite bool_decide_eq_true_2 by done. revert w Hw.
  change (crash_triple (λ t, t = t0) (fs_ignore (remove_file_at (wl_path lock)) : fs WorkspaceError ())
    (λ _, outside (wl_path lock) t0) (outside (wl_path lock) t0)).
  eapply triple_ignore; [|done]. apply triple_effect; [|done]. intros t ->. rewrite Hg. split; [apply outside_put_self|].
  intros rest. apply outside_refl.
Qed.

Lemma held_apart s l l' :
  locks_fine s → l ∈ s.2 → l' ∈ s.2 → wl_path l ≠ wl_path l' → apart (wl_path l) (wl_path l').
Proof.
  intros [_ Hf] Hl Hl' Hne. rewrite Forall_forall in Hf. destruct (Hf _ Hl) as [[r Er] Hg], (Hf _ Hl') as [_ Hg'].
  eapply file_apart; [done|exact Hg'|right; by eexists|rewrite Er; by destruct r|right; by eexists].
Qed.

Lemma locks_fine_less t t' before lock after :
  locks_fine (t, before ++ lock :: after) → outside (wl_path lock) t t' → locks_fine (t', before ++ after).
Proof.
  intros Hs Ho. pose proof (λ l, held_apart (t, before ++ lock :: after) lock l Hs) as Hap. destruct Hs as [Hn Hf]. cbn [fst snd] in *.
  assert (Hn' : NoDup (wl_path <$> lock :: (before ++ after))) by (by rewrite (Permutation_middle before after lock)).
  rewrite fmap_cons in Hn'. inversion Hn' as [|? ? Hnin Hnd]; subst. split; [done|]. cbn [fst snd]. rewrite Forall_forall in *.
  intros l Hin. assert (Hl : l ∈ before ++ lock :: after) by set_solver. destruct (Hf l Hl) as [Hr Hg]. split; [done|].
  rewrite Ho; [done|]. apply Hap; [set_solver|done|]. intros E. apply Hnin. rewrite E. by apply list_elem_of_fmap_2.
Qed.

(** A tree that differs by a new lock file at most. *)
Lemma locks_fine_new t t' held run_root v :
  locks_fine (t, held) → new_at run_root t v t' →
  locks_fine (t', held) ∧ (run_root ++ [RUN_LOCK_FILE]) ∉ wl_path <$> held.
Proof.
  intros [Hn Hf] (H1 & H2 & H3 & _). cbn [fst snd] in *. rewrite Forall_forall in Hf.
  assert (Hne : ∀ l, l ∈ held → wl_path l ≠ run_root ++ [RUN_LOCK_FILE])
    by (intros l Hl E; destruct (Hf l Hl) as [_ Hg]; rewrite E in Hg; congruence).
  split; [split; [done|]|]; cbn [fst snd].
  - rewrite Forall_forall. intros l Hl. destruct (Hf l Hl) as [? Hg]. split; [done|]. rewrite H3; [done|].
    eapply file_apart; [by apply not_eq_sym, Hne|exact Hg|left; by rewrite parent_snoc|by destruct run_root|by left].
  - intros (l & E & Hl)%list_elem_of_fmap. by apply (Hne l Hl).
Qed.

Lemma locks_fine_step s s' : lock_step s s' → locks_fine s → locks_fine s'.
Proof.
  intros [c run_root w held r w' Ha|before lock after w r w' Hd|t before lock after|t t' held Ho] Hs.
  - pose proof (acquire_triple c run_root (w_tree w) w eq_refl) as Ht. rewrite Ha in Ht.
    assert (Hsame : perhaps_new run_root (w_tree w) (w_tree w') → locks_fine (w_tree w', held)).
    { intros [->|[v Hv]]; [done|]. by eapply locks_fine_new. }
    destruct r as [lock|e|]; [|by apply Hsame..]. destruct Ht as [Hp Hnew].
    destruct (locks_fine_new _ _ _ _ _ Hs Hnew) as [[Hn Hf] Hni]. cbn [fst snd] in *. split; cbn [fst snd].
    + rewrite fmap_cons, Hp. by constructor.
    + constructor; [|done]. split; [by exists run_root|]. rewrite Hp. by destruct Hnew as (_ & _ & _ & _ & ?).
  - eapply locks_fine_less; [exact Hs|]. destruct Hs as [_ Hf]. rewrite Forall_forall in Hf. cbn [fst snd] in Hf.
    destruct (Hf lock ltac:(set_solver)) as [_ Hg]. pose proof (drop_triple lock (w_tree w) Hg w eq_refl) as Ht. rewrite Hd in Ht.
    by destruct r.
  - eapply locks_fine_less; [exact Hs|]. apply outside_refl.
  - destruct Hs as [Hn Hf]. split; [done|]. cbn [fst snd] in *. rewrite Forall_forall in *. intros l Hl. destruct (Hf l Hl) as [? Hg].
    split; [done|]. by rewrite Ho.
Qed.

(** C23.  A run has its workspace for itself.  However runs acquire and drop their
    locks, wherever they fail or end, and whatever else happens outside the lock
    files: no two runs hold the lock of one workspace, the file of a held lock has
    the text of its holder, and another attempt to acquire it is told that the
    workspace is busy and changes nothing. *)
Theorem workspace_exclusive t0 t held :
  rtc lock_step (t0, []) (t, held) →
  NoDup (wl_path <$> held) ∧
  (∀ lock, lock ∈ held → tree_get (wl_path lock) t = Some (File (wl_owner lock))) ∧
  (∀ lock c run_root w, lock ∈ held → wl_path lock = run_root ++ [RUN_LOCK_FILE] → w_tree w = t → quiet w →
     ∃ w', acquire_run_lock c run_root w = (Failed (WorkspaceBusy (wl_path lock)), w') ∧ w_tree w' = t).
Proof.
  intros Hr. assert (Hf : locks_fine (t, held)).
  { apply (rtc_ind_r (λ s, locks_fine s) (t0, [])) in Hr; [done| |]; [split; constructor|].
    intros s s' _ Hstep Hs. by eapply locks_fine_step. }
  destruct Hf as [Hn Hf]. cbn [fst snd] in *. rewrite Forall_forall in Hf. split_and!; [done|intros lock Hl; by apply Hf|].
  intros lock c run_root w Hl Hp Hw Hq. destruct (Hf lock Hl) as [_ Hg]. rewrite Hp in *.
  unfold acquire_run_lock. unfold mbind at 1, fs_bind at 1. cbn [fetch_run_lock_sequence]. eexists. split; [|].
  - unfold fetch_run_lock_sequence. unfold mbind, fs_bind, fs_map_err, fs_catch, create_new_file, effect. cbn [w_tree w_fates].
    rewrite Hw, Hg. rewrite Hq. cbn [head]. reflexivity.
  - done.
Qed.

(** * Artifacts before the run *)

Section Prepared.
Context `{Backend} (root : ResolvedCacheRoot) (follow : path → node → result io_kind (list ascii)).

(** The preparation makes the artifacts it declares: a regular file is there and
    empty, whatever an earlier run had left, and a check that never writes it gets
    evidence of an artifact with one entry of no bytes, no error; the directory of
    an artifact that is there already is left as it is, with what an earlier run of
    the same plan put there. *)
Theorem prepared_artifact_counts (run_root : path) (c : NormalizedArtifactContract) (w w' : World) :
  contract_fine c → na_path c ≠ "." → 1 ≤ na_max_entries c → (∀ v, is_Some (json_to_vec v)) →
  prepare_artifact root (below (rr_path root) run_root) (na_path c) (na_kind c) w = (Done (), w') →
  node_wf (w_tree w') → proper_names (w_tree w') →
  match na_kind c with
  | RegularFile =>
    ∃ e, observe_artifact_contract alone follow (directories (w_tree w')) (run_root ++ ["artifacts"]) c w' = (Done e, w') ∧
         ae_entry_count e = 1 ∧ ae_total_bytes e = 0
  | Directory =>
    quiet w → is_dir (tree_get (run_root ++ ["artifacts"] ++ split "/" (na_path c)) (w_tree w)) = true →
    w' = w
  end.
Proof.
  intros Hfine Hdot Hmax Hjson Hp Hwf Hnames. destruct (Hfine) as (Hsafe & Hb & _). destruct (safe_segments _ Hsafe Hdot) as [Hsl Hseg].
  pose proof (split_nonempty (na_path c)) as Hne.
  assert (Hpath : path_join (below (rr_path root) run_root ++ [Normal "artifacts"]) (na_path c) =
                  below (rr_path root) (run_root ++ ["artifacts"] ++ split "/" (na_path c))).
  { rewrite path_join_names by done. change [Normal "artifacts"] with (normals ["artifacts"]). by rewrite below_app, below_app, <-app_assoc. }
  unfold prepare_artifact in Hp. rewrite Hpath in Hp. apply fs_bind_done in Hp as ([] & w0 & Hu & Hp).
  assert (Hsame : w0 = w) by (unfold fs_lift in Hu; destruct (validate_under_root _ _); by simplify_eq/=). subst w0. clear Hu.
  destruct (na_kind c) eqn:Hk.
  - apply fs_bind_done in Hp as (up & w1 & _ & Hp). apply fs_bind_done in Hp as ([] & w2 & _ & Hp).
    apply fs_bind_done in Hp as ([] & w3 & Hl & Hp). rewrite place_below in *. apply map_err_done in Hp.
    assert (Hat : w3 = w2 ∧ (tree_get (run_root ++ ["artifacts"] ++ split "/" (na_path c)) (w_tree w2) = None ∨
              ∃ content, tree_get (run_root ++ ["artifacts"] ++ split "/" (na_path c)) (w_tree w2) = Some (File content))).
    { unfold look in Hl. destruct (tree_get _ (w_tree w2)) as [[content| | |]|] eqn:Hg; cbn in Hl; simplify_eq; eauto. }
    destruct Hat as [-> Hat]. apply create_or_truncate_done in Hp; [|by destruct run_root|done].
    pose proof (contract_agrees follow (directories (w_tree w')) (run_root ++ ["artifacts"]) c w' Hwf Hnames ltac:(done) Hfine) as Ha.
    unfold reference_evidence in Ha. rewrite (proj2 (String.eqb_neq _ _) Hdot), <-app_assoc, Hp, Hk in Ha.
    cbn [reference_entries mbind option_bind] in Ha. unfold evidence_from in Ha. rewrite within_file in Ha by done.
    unfold u64 in Hb. rewrite (proj2 (Z.leb_le _ (na_max_bytes c))), (proj2 (Z.leb_le 1 _)) in Ha by (cbn; lia).
    cbn [andb] in Ha. unfold canonical_digest, canonical_json in Ha. destruct (Hjson (normalize_json (to_value
      {| acm_schema_version := "1.0"; acm_entries := [{| ace_path := "."; ace_size_bytes := Z.of_nat (length (@nil ascii));
         ace_content_digest := "sha256:" +:+ encode_hex (sha256 []) |}] |}))) as [b Hbytes]. rewrite Hbytes in Ha.
    cbn [ok_or mbind result_bind to_option option_bind agrees] in Ha. eexists. split; [exact Ha|]. done.
  - intros Hq Hd. rewrite <-below_app in Hp. rewrite (chain_kept root run_root (["artifacts"] ++ split "/" (na_path c)) w Hq Hd) in Hp.
    by injection Hp.
Qed.
End Prepared.

(** * Example *)

Module WorkspaceExample.
Import PlanExample ArtifactExample RootExample.

Definition repository : list component := home ++ [Normal "repo"].

Lemma mounts_confined_witness : ∃ plan writable,
  build answers demo_plan repository chosen = Ok plan ∧ wp_mounts plan = repository_mount repository :: writable ∧
  Forall (confined chosen) writable ∧ length writable = 3%nat.
Proof.
  destruct (build answers demo_plan repository chosen) as [plan|e] eqn:Eb; [|vm_compute in Eb; discriminate Eb].
  destruct (mounts_confined answers demo_plan repository chosen plan Eb) as (canonical & writable & Hm & Hc & Hw & _ & Hl).
  exists plan, writable. assert (E : canonical = repository) by (vm_compute in Hc; by injection Hc as <-). subst canonical.
  by split_and!.
Defined.

Lemma accepted_plan_mounts_witness : is_ok (build answers demo_plan repository chosen) = true.
Proof.
  refine (eq_trans (accepted_plan_mounts answers demo demo_plan repository repository chosen (get_ok (into_plan demo) eq_refl)
    (λ v, ltac:(by eexists)) _ _ _) _); reflexivity.
Defined.

Definition process : CacheProcess :=
  {| cpr_pid := 7; cpr_policy := Preserve; cpr_clone := NoClonefile; cpr_unix := true; cpr_link_resolves _ _ := true |}.

(** One run holds its workspace; the next is told so. *)
Lemma workspace_exclusive_witness : ∃ lock t w',
  rtc lock_step (tree, []) (t, [lock]) ∧
  acquire_run_lock process ["run"] (set_tree t world) = (Failed (WorkspaceBusy (wl_path lock)), w').
Proof.
  destruct (acquire_run_lock process ["run"] world) as [r w1] eqn:Er.
  destruct r as [lock|e|]; [|vm_compute in Er; discriminate Er..]. exists lock, (w_tree w1).
  assert (Hs : rtc lock_step (tree, []) (w_tree w1, [lock])) by (eapply rtc_once, (step_acquire process ["run"] world [] (Done lock) w1), Er).
  destruct (workspace_exclusive tree (w_tree w1) [lock] Hs) as (_ & _ & Hbusy).
  destruct (Hbusy lock process ["run"] (set_tree (w_tree w1) world)) as (w' & Hb & _);
    [apply list_elem_of_here|vm_compute in Er; by injection Er as <- _|done|done|].
  by exists w'.
Defined.

Definition here : ResolvedCacheRoot := {| rr_path := []; rr_source := Explicit |}.

(** The report of an earlier run is emptied and observed all the same; the output
    directory of an earlier run stays. *)
Lemma prepared_artifact_counts_witness :
  (∃ w' e, prepare_artifact here (below [] ["run"]) "report" RegularFile world = (Done (), w') ∧
           observe_artifact_contract alone nothing (directories (w_tree w')) ["run"; "artifacts"] report w' = (Done e, w') ∧
           ae_total_bytes e = 0) ∧
  (∃ w', prepare_artifact here (below [] ["run"]) "out" Directory world = (Done (), w') ∧ w' = world).
Proof.
  split.
  - destruct (prepare_artifact here (below [] ["run"]) "report" RegularFile world) as [r w'] eqn:Er.
    assert (Hw' : w_tree w' = tree_put ["run"; "artifacts"; "report"] (Some (File [])) tree) by (vm_compute in Er; by injection Er as _ <-).
    destruct r as [[]|e|]; [|vm_compute in Er; discriminate Er..]. exists w'.
    destruct (prepared_artifact_counts here nothing ["run"] report world w') as (e & He & _ & Ht).
    1-3: by repeat split. 1: by eexists. 1: exact Er.
    1: rewrite Hw'; repeat (constructor; cbn); done. 1: by rewrite Hw'; vm_compute.
    by exists e.
  - destruct (prepare_artifact here (below [] ["run"]) "out" Directory world) as [r w'] eqn:Er.
    assert (Hw' : w_tree w' = tree) by (vm_compute in Er; by injection Er as _ <-).
    destruct r as [[]|e|]; [|vm_compute in Er; discriminate Er..]. exists w'. split; [done|].
    refine (prepared_artifact_counts here nothing ["run"] out world w' _ _ _ _ Er _ _ eq_refl eq_refl).
    1-3: by repeat split. 1: by eexists. 1: rewrite Hw'; exact tree_wf. by rewrite Hw'; vm_compute.
Defined.
End WorkspaceExample.
