(* ===== verification/Ports.v ===== *)
(** Programs that talk to the system through ports.

    [process.rs] and [runtime.rs] do their work by calling operating-system objects,
    other programs and clocks, behind traits.  Here such a port is a function on a
    state [S] of the surroundings, left abstract, and a program over it lives in the
    monad [io]: it gives a result and the next state, or nothing when a loop would
    need more turns than its fuel.  [meets] is total correctness: the program ends,
    and its result and state satisfy the postcondition. *)
From S2P Require Import Prelude.

Definition io (S E A : Type) : Type := S → option (result E A * S).

Section Io.
Context {S : Type}.

#[global] Instance io_ret E : MRet (io S E) := λ A x s, Some (Ok x, s).
#[global] Instance io_bind E : MBind (io S E) := λ A B f m s,
  match m s with
  | Some (Ok x, s) => f x s
  | Some (Err e, s) => Some (Err e, s)
  | None => None
  end.

Definition io_lift {E A} (r : result E A) : io S E A := λ s, Some (r, s).
Definition out_of_fuel {E A} : io S E A := λ _, None.

(** A call of a port: one that cannot fail, and one that answers with a result. *)
Definition call {E A} (port : S → A * S) : io S E A := λ s, let '(x, s) := port s in Some (Ok x, s).
Definition try_call {E A} (port : S → result E A * S) : io S E A := λ s, Some (port s).

(** The result as a value, for a [match] on it. *)
Definition attempt {E F A} (m : io S E A) : io S F (result E A) := λ s,
  match m s with Some (r, s) => Some (Ok r, s) | None => None end.
Definition io_map_err {E F A} (f : E → F) (m : io S E A) : io S F A :=
  r ← attempt m; io_lift (map_err f r).

(** [for x in l { f(x)?; }], and with an accumulator. *)
Fixpoint io_each {E A} (f : A → io S E ()) (l : list A) : io S E () :=
  match l with
  | [] => mret ()
  | x :: l => _ ← f x; io_each f l
  end.
Fixpoint io_fold {E B A} (f : B → A → io S E B) (acc : B) (l : list A) : io S E B :=
  match l with
  | [] => mret acc
  | x :: l => acc ← f acc x; io_fold f acc l
  end.

(** * Total correctness *)

Definition meets {E A} (m : io S E A) (s : S) (Q : result E A → S → Prop) : Prop :=
  ∃ r s', m s = Some (r, s') ∧ Q r s'.

Lemma meets_impl {E A} (m : io S E A) s (Q Q' : result E A → S → Prop) :
  meets m s Q → (∀ r s', Q r s' → Q' r s') → meets m s Q'.
Proof. intros (r & s' & Hm & HQ) Himpl. exists r, s'. auto. Qed.

Lemma meets_ret {E A} (x : A) s (Q : result E A → S → Prop) : Q (Ok x) s → meets (mret x) s Q.
Proof. intros HQ. by do 2 eexists. Qed.

Lemma meets_lift {E A} (r : result E A) s (Q : result E A → S → Prop) : Q r s → meets (io_lift r) s Q.
Proof. intros HQ. by do 2 eexists. Qed.

Lemma meets_bind {E A B} (m : io S E A) (f : A → io S E B) s Q :
  meets m s (λ r s', match r with Ok x => meets (f x) s' Q | Err e => Q (Err e) s' end) → meets (m ≫= f) s Q.
Proof.
  intros (r & s' & Hm & HQ). destruct r as [x|e].
  - destruct HQ as (r & s'' & Hf & HQ). exists r, s''. split; [|done]. unfold mbind, io_bind. by rewrite Hm.
  - exists (Err e), s'. split; [|done]. unfold mbind, io_bind. by rewrite Hm.
Qed.

Lemma meets_call {E A} (port : S → A * S) s (Q : result E A → S → Prop) :
  Q (Ok (port s).1) (port s).2 → meets (call port) s Q.
Proof. intros HQ. unfold call. exists (Ok (port s).1), (port s).2. split; [by destruct (port s)|done]. Qed.

Lemma meets_try_call {E A} (port : S → result E A * S) s (Q : result E A → S → Prop) :
  Q (port s).1 (port s).2 → meets (try_call port) s Q.
Proof. intros HQ. exists (port s).1, (port s).2. split; [|done]. unfold try_call. by destruct (port s). Qed.

Lemma meets_attempt {E F A} (m : io S E A) s (Q : result F (result E A) → S → Prop) :
  meets m s (λ r s', Q (Ok r) s') → meets (attempt m) s Q.
Proof. intros (r & s' & Hm & HQ). exists (Ok r), s'. split; [|done]. unfold attempt. by rewrite Hm. Qed.

Lemma meets_map_err {E F A} (f : E → F) (m : io S E A) s (Q : result F A → S → Prop) :
  meets m s (λ r s', Q (map_err f r) s') → meets (io_map_err f m) s Q.
Proof.
  intros Hm. unfold io_map_err. apply meets_bind, meets_attempt. eapply meets_impl; [exact Hm|].
  intros r s' HQ. by apply meets_lift.
Qed.

(** A program has one outcome. *)
Lemma meets_det {E A} (m : io S E A) s r s' Q : m s = Some (r, s') → meets m s Q → Q r s'.
Proof. intros Hm (r2 & s2 & Hm2 & HQ). by simplify_eq. Qed.

(** * Partial correctness: what holds if the program ends *)

Definition ends {E A} (m : io S E A) (s : S) (Q : result E A → S → Prop) : Prop :=
  ∀ r s', m s = Some (r, s') → Q r s'.

Lemma ends_bind {E A B} (m : io S E A) (f : A → io S E B) s Q :
  ends m s (λ r s', match r with Ok x => ends (f x) s' Q | Err e => Q (Err e) s' end) → ends (m ≫= f) s Q.
Proof.
  intros Hm r s' E1. unfold mbind, io_bind in E1. destruct (m s) as [[[x|e] s1]|] eqn:E2; [| |done].
  - by apply (Hm _ _ E2).
  - simplify_eq. by apply (Hm _ _ E2).
Qed.
Lemma ends_impl {E A} (m : io S E A) s (Q Q' : result E A → S → Prop) :
  ends m s Q → (∀ r s', Q r s' → Q' r s') → ends m s Q'.
Proof. intros H Himpl r s' E1. auto. Qed.
Lemma ends_ret {E A} (x : A) s (Q : result E A → S → Prop) : Q (Ok x) s → ends (mret x) s Q.
Proof. intros HQ r s' [= <- <-]. done. Qed.
Lemma ends_lift {E A} (r : result E A) s (Q : result E A → S → Prop) : Q r s → ends (io_lift r) s Q.
Proof. intros HQ r' s' [= <- <-]. done. Qed.
Lemma ends_call {E A} (port : S → A * S) s (Q : result E A → S → Prop) :
  Q (Ok (port s).1) (port s).2 → ends (call port) s Q.
Proof. intros HQ r s' E1. unfold call in E1. destruct (port s). by simplify_eq. Qed.
Lemma ends_try_call {E A} (port : S → result E A * S) s (Q : result E A → S → Prop) :
  Q (port s).1 (port s).2 → ends (try_call port) s Q.
Proof. intros HQ r s' E1. unfold try_call in E1. destruct (port s). by simplify_eq. Qed.
Lemma ends_attempt {E F A} (m : io S E A) s (Q : result F (result E A) → S → Prop) :
  ends m s (λ r s', Q (Ok r) s') → ends (attempt m) s Q.
Proof. intros H r s' E1. unfold attempt in E1. destruct (m s) as [[]|] eqn:E2; [|done]. simplify_eq. by apply H. Qed.
Lemma ends_map_err {E F A} (f : E → F) (m : io S E A) s (Q : result F A → S → Prop) :
  ends m s (λ r s', Q (map_err f r) s') → ends (io_map_err f m) s Q.
Proof.
  intros Hm. unfold io_map_err. apply ends_bind, ends_attempt. eapply ends_impl; [exact Hm|].
  intros r s' HQ. by apply ends_lift.
Qed.
(** A loop: [I] after the elements passed so far. *)
Lemma ends_each {E A} (f : A → io S E ()) (I : list A → S → Prop) l s :
  I [] s →
  (∀ pre x post s, l = pre ++ x :: post → I pre s →
     ends (f x) s (λ r s', match r with Ok () => I (pre ++ [x]) s' | Err _ => True end)) →
  ends (io_each f l) s (λ r s', match r with Ok () => I l s' | Err _ => True end).
Proof.
  intros H0 Hstep. assert (G : ∀ pre post s, l = pre ++ post → I pre s →
    ends (io_each f post) s (λ r s', match r with Ok () => I l s' | Err _ => True end)); [|by apply (G [])].
  clear H0. intros pre post. revert pre. induction post as [|x post IH]; intros pre s0 E1 H0; cbn [io_each].
  - rewrite app_nil_r in E1. subst. by apply ends_ret.
  - apply ends_bind. eapply ends_impl; [by eapply Hstep|]. intros [[]|e] s1 H1; [|done].
    apply (IH (pre ++ [x])); [by rewrite <-app_assoc|done].
Qed.

Lemma ends_fuel {E A} s (Q : result E A → S → Prop) : ends out_of_fuel s Q.
Proof. done. Qed.
(** * A run of a program that gave a value, taken apart *)

Lemma bind_run {E A B} (m : io S E A) (f : A → io S E B) s b s' :
  (m ≫= f) s = Some (Ok b, s') → ∃ a s1, m s = Some (Ok a, s1) ∧ f a s1 = Some (Ok b, s').
Proof. unfold mbind, io_bind. destruct (m s) as [[[a|]]|]; intros Hb; [eauto|done..]. Qed.
Lemma lift_run {E A} (r : result E A) (s : S) b s' : io_lift r s = Some (Ok b, s') → r = Ok b ∧ s' = s.
Proof. by intros [= -> ->]. Qed.
Lemma ret_run {E A} (a b : A) s s' : (mret a : io S E A) s = Some (Ok b, s') → a = b ∧ s' = s.
Proof. by intros [= -> ->]. Qed.
Lemma call_run {E A} (port : S → A * S) s (a : A) s' : (call port : io S E A) s = Some (Ok a, s') → port s = (a, s').
Proof. unfold call. destruct (port s). by intros [= -> ->]. Qed.
Lemma map_err_run {E F A} (f : E → F) (m : io S E A) s a s' : io_map_err f m s = Some (Ok a, s') → m s = Some (Ok a, s').
Proof.
  intros Hb. apply bind_run in Hb as (r & s1 & Hm & Hb). apply lift_run in Hb as [Hb ->].
  unfold attempt in Hm. destruct (m s) as [[r' s2]|]; [|done]. injection Hm as -> ->. destruct r as [x|x]; cbn in Hb; [by injection Hb as ->|discriminate Hb].
Qed.
Lemma attempt_run {E F A} (m : io S E A) s (r : result E A) s' : (attempt m : io S F _) s = Some (Ok r, s') → m s = Some (r, s').
Proof. unfold attempt. destruct (m s) as [[]|]; [|done]. by intros [= -> ->]. Qed.
Lemma each_run {E A} (f : A → io S E ()) (I : S → Prop) (P : A → Prop) l :
  (∀ x s s', x ∈ l → I s → f x s = Some (Ok (), s') → I s' ∧ P x) →
  ∀ s s', I s → io_each f l s = Some (Ok (), s') → I s' ∧ Forall P l.
Proof.
  induction l as [|x l IH]; intros Hf s s' Hs Hr; cbn [io_each] in Hr.
  - by apply ret_run in Hr as [_ ->].
  - apply bind_run in Hr as ([] & s1 & Hx & Hr). destruct (Hf _ _ _ (list_elem_of_here _ _) Hs Hx) as [H1 HP].
    destruct (IH (λ y s s' Hy, Hf y s s' (list_elem_of_further _ _ _ Hy)) _ _ H1 Hr). by split; [|constructor].
Qed.
Lemma fold_run {E A B} (f : B → A → io S E B) (I : list A → B → S → Prop) acc l s :
  I [] acc s →
  (∀ pre x post b s b' s', l = pre ++ x :: post → I pre b s → f b x s = Some (Ok b', s') → I (pre ++ [x]) b' s') →
  ∀ b' s', io_fold f acc l s = Some (Ok b', s') → I l b' s'.
Proof.
  intros H0 Hstep. assert (G : ∀ pre post b s, l = pre ++ post → I pre b s →
    ∀ b' s', io_fold f b post s = Some (Ok b', s') → I l b' s'); [|by apply (G [])].
  clear H0. intros pre post. revert pre. induction post as [|x post IH]; intros pre b s0 E1 Hb b' s' Hr; cbn [io_fold] in Hr.
  - apply ret_run in Hr as [<- ->]. by rewrite E1, app_nil_r.
  - apply bind_run in Hr as (b1 & s1 & Hx & Hr). apply (IH (pre ++ [x]) b1 s1); [by rewrite <-app_assoc|by eapply Hstep|done].
Qed.
(** A loop ends with the first error. *)
Lemma fold_stops {E A B} (f : B → A → io S E B) acc pre x post s acc' s1 e s' :
  io_fold f acc pre s = Some (Ok acc', s1) → f acc' x s1 = Some (Err e, s') →
  io_fold f acc (pre ++ x :: post) s = Some (Err e, s').
Proof.
  revert acc s. induction pre as [|y pre IH]; intros acc s0 Hpre Hx; cbn [app io_fold] in Hpre |- *.
  - apply ret_run in Hpre as [-> ->]. unfold mbind, io_bind. by rewrite Hx.
  - apply bind_run in Hpre as (b & s2 & Hy & Hpre). unfold mbind at 1, io_bind at 1. rewrite Hy. by apply IH.
Qed.
End Io.

(** One step of a program in a proof about where it ends. *)
Ltac io_step :=
  lazymatch goal with
  | |- ends (mbind _ _) _ _ => apply ends_bind
  | |- ends (io_map_err _ _) _ _ => apply ends_map_err
  | |- ends (attempt _) _ _ => apply ends_attempt
  | |- ends (call _) _ _ => apply ends_call
  | |- ends (try_call _) _ _ => apply ends_try_call
  | |- ends (io_lift _) _ _ => apply ends_lift
  | |- ends (mret _) _ _ => apply ends_ret
  | |- ends out_of_fuel _ _ => apply ends_fuel
  | |- meets (mbind _ _) _ _ => apply meets_bind
  | |- meets (io_map_err _ _) _ _ => apply meets_map_err
  | |- meets (attempt _) _ _ => apply meets_attempt
  | |- meets (call _) _ _ => apply meets_call
  | |- meets (try_call _) _ _ => apply meets_try_call
  | |- meets (io_lift _) _ _ => apply meets_lift
  | |- meets (mret _) _ _ => apply meets_ret
  end.
