(* ===== verification/Process.v ===== *)
(** Process supervision ([src/src/process.rs]).

    The supervisor ([ProcessSupervisor]) starts a child, watches it against a
    deadline, a cancellation token and a generation guard, and leaves no process
    behind.  It is written over the class [Surroundings], which holds the traits
    [ProcessSpawner] and [ManagedProcess], the clock, and what others do to the
    token and the guard meanwhile.  [StdProcess] implements the child over the
    operating system.  Durations and instants are nanoseconds. *)
From S2P Require Import Prelude.
From S2P Require Import RustStr.
From S2P Require Import BTree.
From S2P Require Import Canonical.
From S2P Require Import Durable.
From S2P Require Import Resource.
From S2P Require Import CacheRoot.
From S2P Require Import Ports.
Local Open Scope Z_scope.

Definition millis (n : Z) : Z := n * 1000000.
Definition DEFAULT_POLL_INTERVAL : Z := millis 10.
Definition DEFAULT_GRACE_PERIOD : Z := millis 500.
Definition GROUP_EXIT_POLL : Z := millis 5.
Definition MAX_CAPTURE_BYTES : Z := 1048576.
Definition MAX_SOURCE_BLOB_CAPTURE_BYTES : Z := 64 * 1048576.

(** * Guard, token and request *)

Record GenerationGuard : Type := { gg_active : RunIdentity; gg_poisoned : bool }.

#[global] Instance RunIdentity_eq_dec : EqDecision RunIdentity.
Proof. solve_decision. Defined.

Definition guard_new (identity : RunIdentity) : GenerationGuard := {| gg_active := identity; gg_poisoned := false |}.
Definition replace (identity : RunIdentity) (g : GenerationGuard) : result ProcessError GenerationGuard :=
  _ ← ensure (negb (gg_poisoned g)) (ProcessInvariant "generation guard lock is poisoned");
  Ok {| gg_active := identity; gg_poisoned := false |}.
Definition ensure_current (candidate : RunIdentity) (g : GenerationGuard) : result ProcessError () :=
  _ ← ensure (negb (gg_poisoned g)) (ProcessInvariant "generation guard lock is poisoned");
  ensure (bool_decide (gg_active g = candidate)) StaleGeneration.

(** The atomic byte of a token. *)
Record CancellationToken : Type := { ct_reason : Z }.
Definition token_default : CancellationToken := {| ct_reason := 0 |}.
Definition reason_code (r : CancellationReason) : Z := match r with User => 1 | CancelledResourcePressure => 2 end.
Definition set_reason (r : CancellationReason) (t : CancellationToken) : CancellationToken :=
  if ct_reason t =? 0 then {| ct_reason := reason_code r |} else t.
Definition cancel : CancellationToken → CancellationToken := set_reason User.
Definition cancel_resource_pressure : CancellationToken → CancellationToken := set_reason CancelledResourcePressure.
Definition is_cancelled (t : CancellationToken) : bool := negb (ct_reason t =? 0).
Definition reason (t : CancellationToken) : option CancellationReason :=
  if ct_reason t =? 1 then Some User else if ct_reason t =? 2 then Some CancelledResourcePressure else None.

Record ProcessRequest : Type := {
  rq_identity : RunIdentity;
  rq_program : string;
  rq_argv : list string;
  rq_current_dir : list component;
  rq_environment : btmap string string;
  rq_timeout : Z;
  rq_max_capture_bytes : Z;
}.

Inductive OutputMode : Type := Capture | Tee.
Inductive GracefulStop : Type := Requested | AlreadyStopped | GracefulUnsupported.

Definition validate_with_capture_ceiling (max_allowed_capture_bytes : Z) (r : ProcessRequest) : result ProcessError () :=
  _ ← ensure (negb (is_empty (rq_program r))) (InvalidRequest "program must not be empty");
  _ ← ensure (negb (rq_timeout r =? 0)) (InvalidRequest "timeout must be greater than zero");
  _ ← ensure (negb ((rq_max_capture_bytes r =? 0) || (rq_max_capture_bytes r >? max_allowed_capture_bytes)))
        (InvalidRequest "max_capture_bytes must be between 1 and 1048576");
  ensure (is_absolute (rq_current_dir r)) (InvalidRequest "current_dir must be an already-resolved absolute path").
Definition request_validate : ProcessRequest → result ProcessError () := validate_with_capture_ceiling MAX_CAPTURE_BYTES.

(** * Captured output *)

Section Capture.
Context `{Backend}.

Definition sha256_digest (l : list ascii) : string := "sha256:" +:+ encode_hex (sha256 l).

Definition from_captured (l : list ascii) (truncated : bool) : CapturedStream :=
  {| cs_bytes := l; cs_byte_count := Z.min (Z.of_nat (length l)) u64_max; cs_full_digest := sha256_digest l;
     cs_truncated := truncated |}.
Definition stream_empty : CapturedStream := from_captured [] false.

(** One turn of a reader: whether it was cancelled, what the read gives (nothing at
    the end of the stream), and what the writer of a tee says. *)
Record read_event : Type := {
  ev_cancelled : bool;
  ev_read : result io_kind (list ascii);
  ev_write : result io_kind ();
}.

Record reading : Type := {
  rd_captured : list ascii;
  rd_byte_count : Z;
  rd_hashed : list ascii;
  rd_truncated : bool;
  rd_write_error : option io_kind;
}.

Definition read_turn (limit : Z) (tee : bool) (st : reading) (chunk : list ascii) (write : result io_kind ()) : reading :=
  let remaining := Z.max 0 (limit - Z.of_nat (length (rd_captured st))) in
  let kept := Z.min remaining (Z.of_nat (length chunk)) in
  {| rd_captured := rd_captured st ++ take (Z.to_nat kept) chunk;
     rd_byte_count := Z.min (rd_byte_count st + Z.of_nat (length chunk)) u64_max;
     rd_hashed := rd_hashed st ++ chunk;
     rd_truncated := rd_truncated st || (kept <? Z.of_nat (length chunk));
     rd_write_error := if tee then match rd_write_error st, write with None, Err e => Some e | e, _ => e end
                       else rd_write_error st |}.

Definition read_result (st : reading) : result io_kind CapturedStream :=
  match rd_write_error st with
  | Some e => Err e
  | None => Ok {| cs_bytes := rd_captured st; cs_byte_count := rd_byte_count st;
                  cs_full_digest := "sha256:" +:+ encode_hex (sha256 (rd_hashed st)); cs_truncated := rd_truncated st |}
  end.

(** [None] while the stream goes on. *)
Fixpoint read_loop (limit : Z) (tee : bool) (st : reading) (events : list read_event) : option (result io_kind CapturedStream) :=
  match events with
  | [] => None
  | ev :: events =>
    if ev_cancelled ev then Some (Err OtherIo) else
    match ev_read ev with
    | Err e => Some (Err e)
    | Ok [] => Some (read_result st)
    | Ok chunk => read_loop limit tee (read_turn limit tee st chunk (ev_write ev)) events
    end
  end.

Definition read_stream (limit : Z) (tee : bool) (events : list read_event) : option (result io_kind CapturedStream) :=
  read_loop limit tee {| rd_captured := []; rd_byte_count := 0; rd_hashed := []; rd_truncated := false;
                         rd_write_error := None |} events.
End Capture.

(** * Surroundings of the supervisor *)

(** The clock, the token and the guard as they are when looked at, and the traits
    [ProcessSpawner] and [ManagedProcess] for the one child. *)
Class Surroundings (S : Type) : Type := {
  su_now : S → Z * S;
  su_sleep : Z → S → () * S;
  su_token : S → CancellationToken * S;
  su_guard : S → GenerationGuard * S;
  su_spawn : ProcessRequest → OutputMode → io S ProcessError ();
  su_try_wait : io S io_kind (option ExitOutcome);
  su_request_graceful_stop : io S io_kind GracefulStop;
  su_force_stop_and_wait : Z → io S io_kind (option ExitOutcome);
  su_seal_descendants : Z → io S io_kind ();
  su_collect_output : Z → io S io_kind (CapturedStream * CapturedStream);
}.

Definition monotonic_since (started now : Z) : Z := Z.max 0 (now - started).

Record ProcessDeadline : Type := {
  dl_started : Z;
  dl_total : Z;
  dl_execution_budget : Z;
  dl_cleanup_budget : Z;
}.
Definition deadline_new (started total cleanup_cap : Z) : ProcessDeadline :=
  let cleanup_budget := Z.min cleanup_cap (total / 2) in
  {| dl_started := started; dl_total := total; dl_execution_budget := Z.max 0 (total - cleanup_budget);
     dl_cleanup_budget := cleanup_budget |}.

Record ProcessSupervisor : Type := { ps_poll_interval : Z; ps_grace_period : Z }.
Definition supervisor_new : ProcessSupervisor :=
  {| ps_poll_interval := DEFAULT_POLL_INTERVAL; ps_grace_period := DEFAULT_GRACE_PERIOD |}.

Section Supervise.
Context `{Backend} {S : Type} `{Surroundings S} (sup : ProcessSupervisor).

Definition elapsed {E} (started : Z) : io S E Z :=
  now ← call su_now;
  mret (monotonic_since started now).
Definition execution_expired {E} (d : ProcessDeadline) : io S E bool :=
  e ← elapsed (dl_started d);
  mret (dl_execution_budget d <=? e).
Definition cleanup_remaining {E} (d : ProcessDeadline) : io S E Z :=
  e ← elapsed (dl_started d);
  mret (Z.min (dl_cleanup_budget d) (Z.max 0 (dl_total d - e))).

Definition guard_current (request : ProcessRequest) : io S ProcessError () :=
  g ← call su_guard;
  io_lift (ensure_current (rq_identity request) g).
Definition token_cancelled : io S ProcessError bool :=
  t ← call su_token;
  mret (is_cancelled t).

(** The end that every path with a result has: the group is sealed, the output is
    collected. *)
Definition finish (request : ProcessRequest) (termination : ProcessTermination) (stage : string) (exit : option ExitOutcome)
    (started : Z) (d : ProcessDeadline) (last_check : io S ProcessError ()) : io S ProcessError ProcessResult :=
  remaining ← cleanup_remaining d;
  _ ← io_map_err (CleanupUncertain stage) (su_seal_descendants remaining);
  remaining ← cleanup_remaining d;
  '(stdout, stderr) ← io_map_err Output (su_collect_output remaining);
  _ ← last_check;
  e ← elapsed started;
  mret {| pr_identity := rq_identity request; pr_termination := termination; pr_cleanup := Verified; pr_exit := exit;
          pr_stdout := stdout; pr_stderr := stderr; pr_elapsed_millis := e / 1000000 |}.

Definition force (request : ProcessRequest) (termination : ProcessTermination) (started : Z) (d : ProcessDeadline) :
    io S ProcessError ProcessResult :=
  remaining ← cleanup_remaining d;
  exit ← attempt (su_force_stop_and_wait remaining);
  match exit with
  | Ok exit => finish request termination "forced descendant seal" exit started d (mret ())
  | Err source =>
    remaining ← cleanup_remaining d;
    _ ← io_map_err (CleanupUncertain "forced descendant seal after force-stop failure") (su_seal_descendants remaining);
    io_lift (Err (CleanupUncertain "force stop" source))
  end.

(** The grace period: what the child gives in it, if it ends. *)
Fixpoint grace_loop (fuel : nat) (grace_started : Z) (d : ProcessDeadline) : io S ProcessError (option ExitOutcome) :=
  match fuel with
  | O => out_of_fuel
  | Datatypes.S fuel =>
    e ← elapsed grace_started;
    remaining ← cleanup_remaining d;
    if e <? remaining then
      observed ← io_map_err (CleanupUncertain "graceful stop monitoring") su_try_wait;
      match observed with
      | Some exit => mret (Some exit)
      | None =>
        _ ← call (su_sleep (ps_poll_interval sup));
        grace_loop fuel grace_started d
      end
    else mret None
  end.

Definition stop_and_collect (fuel : nat) (request : ProcessRequest) (termination : ProcessTermination) (started : Z)
    (d : ProcessDeadline) : io S ProcessError ProcessResult :=
  graceful ← attempt su_request_graceful_stop;
  exit ← match graceful with
         | Ok Requested => grace_started ← call su_now; grace_loop fuel grace_started d
         | _ => mret None
         end;
  match exit with
  | Some exit => finish request termination "graceful descendant seal" (Some exit) started d (mret ())
  | None => force request termination started d
  end.

Fixpoint supervise_loop (fuel grace_fuel : nat) (request : ProcessRequest) (started : Z) (d : ProcessDeadline) :
    io S ProcessError ProcessResult :=
  match fuel with
  | O => out_of_fuel
  | Datatypes.S fuel =>
    current ← attempt (guard_current request);
    if negb (is_ok current) then
      _ ← stop_and_collect grace_fuel request Cancelled started d;
      io_lift (Err StaleGeneration)
    else
    cancelled ← token_cancelled;
    if cancelled : bool then stop_and_collect grace_fuel request Cancelled started d else
    expired ← execution_expired d;
    if expired : bool then stop_and_collect grace_fuel request TimedOut started d else
    observed ← attempt su_try_wait;
    match observed with
    | Err error =>
      cleanup ← attempt (stop_and_collect grace_fuel request Cancelled started d);
      io_lift (match cleanup : result ProcessError ProcessResult with Ok _ => Err (Monitor error) | Err cleanup_error => Err cleanup_error end)
    | Ok (Some exit) =>
      finish request Completed "completed descendant seal" (Some exit) started d (guard_current request)
    | Ok None =>
      _ ← call (su_sleep (ps_poll_interval sup));
      supervise_loop fuel grace_fuel request started d
    end
  end.

Definition empty_result (request : ProcessRequest) (termination : ProcessTermination) (cleanup : CleanupStatus) (started : Z) :
    io S ProcessError ProcessResult :=
  e ← elapsed started;
  mret {| pr_identity := rq_identity request; pr_termination := termination; pr_cleanup := cleanup; pr_exit := None;
          pr_stdout := stream_empty; pr_stderr := stream_empty; pr_elapsed_millis := e / 1000000 |}.

Definition execute_with_output_and_capture_ceiling (fuel : nat) (request : ProcessRequest) (mode : OutputMode)
    (max_allowed_capture_bytes : Z) : io S ProcessError ProcessResult :=
  _ ← io_lift (validate_with_capture_ceiling max_allowed_capture_bytes request);
  _ ← guard_current request;
  started ← call su_now;
  let d := deadline_new started (rq_timeout request) (ps_grace_period sup) in
  cancelled ← token_cancelled;
  if cancelled : bool then empty_result request Cancelled NotRequired started else
  _ ← su_spawn request mode;
  supervise_loop fuel fuel request started d.

Definition execute_with_output (fuel : nat) (request : ProcessRequest) (mode : OutputMode) : io S ProcessError ProcessResult :=
  execute_with_output_and_capture_ceiling fuel request mode MAX_CAPTURE_BYTES.
Definition execute (fuel : nat) (request : ProcessRequest) : io S ProcessError ProcessResult :=
  execute_with_output fuel request Capture.
Definition execute_source_blob (fuel : nat) (request : ProcessRequest) : io S ProcessError ProcessResult :=
  execute_with_output_and_capture_ceiling fuel request Capture MAX_SOURCE_BLOB_CAPTURE_BYTES.
End Supervise.

(** * The child of the operating system (Unix) *)

Inductive errno : Type := ESRCH | EPERM | OtherErrno.
Inductive signal : Type := SIGTERM | SIGKILL.

(** What a reader thread sends to whoever waits for it. *)
Inductive received : Type :=
  | Received (r : result io_kind CapturedStream)
  | RecvTimeout
  | Disconnected.
Inductive stream_name : Type := Stdout | Stderr.

(** The calls of [process_wrap], [nix] and the standard library; a signal of none
    only asks whether the group exists. *)
Class Os (T : Type) : Type := {
  os_now : T → Z * T;
  os_sleep : Z → T → () * T;
  os_spawn : ProcessRequest → OutputMode → T → result io_kind Z * T;
  os_take_pipe : stream_name → T → bool * T;
  os_child_try_wait : T → result io_kind (option ExitOutcome) * T;
  os_start_kill : T → result io_kind () * T;
  os_killpg : Z → option signal → T → result errno () * T;
  os_recv_timeout : stream_name → Z → T → received * T;
  os_cancel_reader : stream_name → T → () * T;
  os_join_reader : stream_name → T → bool * T;
}.

(** [sm_stdout] and [sm_stderr] say whether the readers are still there to be
    joined. *)
Record StdManagedProcess : Type := {
  sm_pid : Z;
  sm_stdout : bool;
  sm_stderr : bool;
  sm_last_exit : option ExitOutcome;
}.
Definition no_child : StdManagedProcess := {| sm_pid := 0; sm_stdout := false; sm_stderr := false; sm_last_exit := None |}.

Section Std.
Context {T : Type} `{Os T} (fuel : nat).

Abbreviation std := (io (T * StdManagedProcess)).

Definition on_os {A} (f : T → A * T) : T * StdManagedProcess → A * (T * StdManagedProcess) := λ '(o, p),
  let '(x, o) := f o in (x, (o, p)).
Definition child {E} : std E StdManagedProcess := λ '(o, p), Some (Ok p, (o, p)).
Definition set_child {E} (p : StdManagedProcess) : std E () := λ '(o, _), Some (Ok (), (o, p)).

Definition spawn_with_output (request : ProcessRequest) (mode : OutputMode) : std ProcessError () :=
  pid ← io_map_err Spawn (try_call (on_os (os_spawn request mode)));
  stdout ← call (on_os (os_take_pipe Stdout));
  _ ← io_lift (ensure stdout (ProcessInvariant "stdout pipe was not created"));
  stderr ← call (on_os (os_take_pipe Stderr));
  _ ← io_lift (ensure stderr (ProcessInvariant "stderr pipe was not created"));
  set_child {| sm_pid := pid; sm_stdout := true; sm_stderr := true; sm_last_exit := None |}.

Definition std_try_wait : std io_kind (option ExitOutcome) :=
  p ← child;
  match sm_last_exit p with
  | Some exit => mret (Some exit)
  | None =>
    exit ← try_call (on_os os_child_try_wait);
    match exit with
    | Some exit =>
      _ ← set_child {| sm_pid := sm_pid p; sm_stdout := sm_stdout p; sm_stderr := sm_stderr p; sm_last_exit := Some exit |};
      mret (Some exit)
    | None => mret None
    end
  end.

Definition pid_as_i32 (pid : Z) : result io_kind Z := if pid <=? 2 ^ 31 - 1 then Ok pid else Err OtherIo.

Definition std_request_graceful_stop : std io_kind GracefulStop :=
  p ← child;
  group ← io_lift (pid_as_i32 (sm_pid p));
  answer ← call (on_os (os_killpg group (Some SIGTERM)));
  io_lift (match answer with
           | Ok () => Ok Requested
           | Err ESRCH => Ok AlreadyStopped
           | Err _ => Err OtherIo
           end).

Fixpoint force_loop (fuel : nat) (started deadline : Z) : std io_kind (option ExitOutcome) :=
  match fuel with
  | O => out_of_fuel
  | S fuel =>
    exit ← std_try_wait;
    match exit with
    | Some exit => mret (Some exit)
    | None =>
      now ← call (on_os os_now);
      if deadline <=? monotonic_since started now then io_lift (Err OtherIo) else
      _ ← call (on_os (os_sleep GROUP_EXIT_POLL));
      force_loop fuel started deadline
    end
  end.
Definition std_force_stop_and_wait (deadline : Z) : std io_kind (option ExitOutcome) :=
  killed ← attempt (try_call (on_os os_start_kill));
  _ ← match killed with
      | Ok () => mret ()
      | Err error =>
        exit ← std_try_wait;
        io_lift (match exit with Some _ => Ok () | None => Err error end)
      end;
  started ← call (on_os os_now);
  force_loop fuel started deadline.

Fixpoint group_loop (fuel : nat) (group started deadline : Z) : std io_kind () :=
  match fuel with
  | O => out_of_fuel
  | S fuel =>
    answer ← call (on_os (os_killpg group None));
    match answer with
    | Err ESRCH => mret ()
    | Ok () | Err EPERM =>
      now ← call (on_os os_now);
      if monotonic_since started now <? deadline then
        _ ← call (on_os (os_sleep GROUP_EXIT_POLL));
        group_loop fuel group started deadline
      else io_lift (Err OtherIo)
    | Err OtherErrno => io_lift (Err OtherIo)
    end
  end.
Definition seal_unix_process_group (pid deadline : Z) : std io_kind () :=
  group ← io_lift (pid_as_i32 pid);
  answer ← call (on_os (os_killpg group (Some SIGKILL)));
  _ ← io_lift (match answer with Ok () | Err ESRCH => Ok () | Err _ => Err OtherIo end);
  started ← call (on_os os_now);
  group_loop fuel group started deadline.
Definition std_seal_descendants (deadline : Z) : std io_kind () :=
  p ← child;
  seal_unix_process_group (sm_pid p) deadline.

(** [ReaderHandle::join_within]. *)
Definition join_within (name : stream_name) (deadline : Z) : std io_kind CapturedStream :=
  answer ← call (on_os (os_recv_timeout name deadline));
  stream ← match answer with
           | Received r => io_lift r
           | RecvTimeout => _ ← call (on_os (os_cancel_reader name)); io_lift (Err OtherIo)
           | Disconnected => io_lift (Err OtherIo)
           end;
  joined ← call (on_os (os_join_reader name));
  _ ← io_lift (ensure joined OtherIo);
  mret stream.

Definition std_collect_output (deadline : Z) : std io_kind (CapturedStream * CapturedStream) :=
  started ← call (on_os os_now);
  p ← child;
  _ ← io_lift (ensure (sm_stdout p) OtherIo);
  _ ← io_lift (ensure (sm_stderr p) OtherIo);
  _ ← set_child {| sm_pid := sm_pid p; sm_stdout := false; sm_stderr := false; sm_last_exit := sm_last_exit p |};
  stdout ← attempt (join_within Stdout deadline);
  match stdout with
  | Err error => _ ← call (on_os (os_cancel_reader Stderr)); io_lift (Err error)
  | Ok stdout =>
    now ← call (on_os os_now);
    stderr ← join_within Stderr (Z.max 0 (deadline - monotonic_since started now));
    mret (stdout, stderr)
  end.

(** The token and the guard are shared with others. *)
Definition std_surroundings (token : T → CancellationToken * T) (guard : T → GenerationGuard * T) :
    Surroundings (T * StdManagedProcess) :=
  {| su_now := on_os os_now; su_sleep d := on_os (os_sleep d); su_token := on_os token; su_guard := on_os guard;
     su_spawn := spawn_with_output; su_try_wait := std_try_wait; su_request_graceful_stop := std_request_graceful_stop;
     su_force_stop_and_wait := std_force_stop_and_wait; su_seal_descendants := std_seal_descendants;
     su_collect_output := std_collect_output |}.
End Std.
