(* ===== verification/ProcessProps.v ===== *)
(** What a supervisor relies on in its surroundings, and what it does on them
    ([Process.v]): it ends in time, and leaves no process behind. *)
From S2P Require Import Prelude.
From S2P Require Import RustStr.
From S2P Require Import BTree.
From S2P Require Import Canonical.
From S2P Require Import Durable.
From S2P Require Import Resource.
From S2P Require Import CacheRoot.
From S2P Require Import Ports.
From S2P Require Import Process.
Local Open Scope Z_scope.

(** The surroundings: [time] is the clock, [idle] says that no process of the last
    child is left, [watched] that there is a child to work on.  Time goes on, and no
    call but a spawn starts a process; a seal that succeeds leaves the group empty. *)
Class SurroundingsLaws (S : Type) `{Surroundings S} (longest : Z) : Type := {
  time : S → Z;
  idle : S → Prop;
  watched : S → Prop;
  later (s s' : S) : Prop := time s ≤ time s' ∧ (idle s → idle s') ∧ (watched s → watched s');
  now_law s : later s (su_now s).2 ∧ time s ≤ (su_now s).1 ≤ time (su_now s).2;
  sleep_law d s : 0 ≤ d → later s (su_sleep d s).2 ∧ time s + d ≤ time (su_sleep d s).2;
  token_law s : later s (su_token s).2;
  guard_law s : later s (su_guard s).2;
  spawn_law request mode s : meets (su_spawn request mode) s (λ r s', time s ≤ time s' ∧
    match r with Ok _ => watched s' | Err (CleanupUncertain _ _) => True | Err _ => later s s' end);
  try_wait_law s : watched s → meets su_try_wait s (λ _ s', later s s');
  graceful_law s : watched s → meets su_request_graceful_stop s (λ _ s', later s s');
  force_law d s : watched s → 0 ≤ d ≤ longest → meets (su_force_stop_and_wait d) s (λ _ s', later s s');
  seal_law d s : watched s → 0 ≤ d ≤ longest → meets (su_seal_descendants d) s (λ r s', later s s' ∧ (r = Ok () → idle s'));
  collect_law d s : watched s → 0 ≤ d ≤ longest → meets (su_collect_output d) s (λ _ s', later s s');
}.

Section Supervise.
Context `{Backend} {S : Type} `{Surroundings S} (sup : ProcessSupervisor).
Context `{!SurroundingsLaws S (ps_grace_period sup)}.
Hypothesis poll : 0 < ps_poll_interval sup.
Hypothesis grace : 0 ≤ ps_grace_period sup.

#[local] Instance later_preorder : PreOrder later.
Proof. split; [intros s; by repeat split|]. intros s1 s2 s3 (? & ? & ?) (? & ? & ?). split_and!; [lia|auto..]. Qed.

Lemma elapsed_meets {E} started s (Q : result E Z → S → Prop) :
  (∀ now s', later s s' → time s ≤ now ≤ time s' → Q (Ok (monotonic_since started now)) s') → meets (elapsed started) s Q.
Proof. intros HQ. unfold elapsed. io_step. io_step. io_step. destruct (now_law s). by apply HQ. Qed.

(** What is left for the cleanup is within its budget. *)
Definition fine (d : ProcessDeadline) : Prop :=
  0 ≤ dl_cleanup_budget d ≤ ps_grace_period sup.

Lemma remaining_meets {E} d s (Q : result E Z → S → Prop) :
  fine d → (∀ r s', later s s' → 0 ≤ r ≤ dl_cleanup_budget d → Q (Ok r) s') → meets (cleanup_remaining d) s Q.
Proof.
  intros Hd HQ. unfold cleanup_remaining. io_step. apply elapsed_meets. intros now s' Hl _. io_step. apply HQ; [done|].
  unfold fine in Hd. lia.
Qed.

Lemma expired_meets d s (Q : result ProcessError bool → S → Prop) :
  (∀ now s', later s s' → time s ≤ now ≤ time s' → Q (Ok (dl_execution_budget d <=? monotonic_since (dl_started d) now)) s') →
  meets (execution_expired d) s Q.
Proof. intros HQ. unfold execution_expired. io_step. apply elapsed_meets. intros now s' Hl Hn. io_step. by apply HQ. Qed.

(** * Results *)

(** What a result says of the run of [request] with deadline [d]. *)
Definition truthful (request : ProcessRequest) (d : ProcessDeadline) (s' : S) (res : ProcessResult) : Prop :=
  pr_identity res = rq_identity request ∧
  match pr_cleanup res with
  | Verified => pr_termination res = Completed → is_Some (pr_exit res)
  | NotRequired => pr_termination res = Cancelled ∧ pr_exit res = None
  end ∧
  (pr_termination res = TimedOut → dl_started d + dl_execution_budget d ≤ time s').

(** No process is left, unless the error says that this is uncertain. *)
Definition supervised (request : ProcessRequest) (d : ProcessDeadline) (r : result ProcessError ProcessResult) (s' : S) : Prop :=
  match r with
  | Ok res => idle s' ∧ truthful request d s' res
  | Err (CleanupUncertain _ _) => True
  | Err _ => idle s'
  end.

Lemma finish_meets request termination stage exit started d last_check s :
  fine d → watched s → (termination = Completed → is_Some exit) →
  (termination = TimedOut → dl_started d + dl_execution_budget d ≤ time s) →
  (∀ s, meets last_check s (λ r s', later s s' ∧ match r with Err (CleanupUncertain _ _) => False | _ => True end)) →
  meets (finish request termination stage exit started d last_check) s (λ r s', time s ≤ time s' ∧ supervised request d r s' ∧
    match r with Ok res => pr_termination res = termination | _ => True end).
Proof.
  intros Hd Hw Hex Hto Hlast. unfold finish. io_step. apply remaining_meets; [done|]. intros d1 s1 L1 Hd1.
  io_step. io_step. eapply meets_impl; [apply seal_law; [by apply L1|unfold fine in Hd; lia]|].
  intros [[]|e] s2 [L2 Hidle]; [|split; [destruct L1, L2; lia|done]]. cbn [map_err]. specialize (Hidle eq_refl).
  io_step. apply remaining_meets; [done|]. intros d3 s3 L3 Hd3. io_step. io_step.
  assert (later s s3) by (by do 2 etrans). assert (idle s3) by (by apply L3).
  eapply meets_impl; [apply collect_law; [firstorder|unfold fine in Hd; lia]|].
  intros [[stdout stderr]|e] s4 L4; cbn [map_err]; [|split; [destruct L4; unfold later in *; lia|by split; [apply L4|]]].
  io_step. eapply meets_impl; [apply Hlast|]. intros [[]|e] s5 [L5 He].
  - io_step. apply elapsed_meets. intros now s6 L6 _. io_step.
    assert (Hall : later s3 s6) by (by do 2 (etrans; [done|])). assert (later s s6) by (by etrans).
    split_and!; [unfold later in *; lia| |done]. split; [by apply Hall|]. split; [done|]. split; [done|].
    cbn [pr_termination]. intros Ht. specialize (Hto Ht). unfold later in *. lia.
  - split; [unfold later in *; lia|]. split; [|done]. assert (idle s5) by (by apply L5, L4). by destruct e.
Qed.

Lemma no_check s : meets (mret () : io S ProcessError ()) s (λ r s', later s s' ∧ match r with Err (CleanupUncertain _ _) => False | _ => True end).
Proof. by io_step. Qed.

Lemma guard_meets request s :
  meets (guard_current request) s (λ r s', later s s' ∧ match r with Err (CleanupUncertain _ _) => False | _ => True end).
Proof.
  unfold guard_current. io_step. io_step. io_step. split; [apply guard_law|].
  unfold ensure_current. destruct (gg_poisoned _); cbn; [done|]. by destruct (bool_decide _).
Qed.

Lemma grace_meets fuel started d s :
  fine d → watched s → (1 ≤ fuel)%nat → started + dl_cleanup_budget d - time s < (Z.of_nat fuel - 1) * ps_poll_interval sup →
  meets (grace_loop sup fuel started d) s (λ r s', later s s' ∧ match r with Ok _ => True | Err e => ∃ k, e = CleanupUncertain "graceful stop monitoring" k end).
Proof.
  intros Hd. revert s. induction fuel as [|fuel IH]; intros s Hw Hf Hb; [lia|]. cbn [grace_loop].
  io_step. apply elapsed_meets. intros now s1 L1 Hn. io_step. apply remaining_meets; [done|]. intros r s2 L2 Hr.
  assert (L12 : later s s2) by (by etrans). destruct (Z.ltb_spec (monotonic_since started now) r) as [Hlt|]; [|by io_step].
  io_step. io_step. eapply meets_impl; [apply try_wait_law; by apply L12|]. intros [[exit|]|e] s3 L3; cbn [map_err].
  - io_step. split; [by etrans|done].
  - io_step. io_step. destruct (sleep_law (ps_poll_interval sup) s3 ltac:(lia)) as [L4 Ht].
    assert (Hl : later s (su_sleep (ps_poll_interval sup) s3).2) by (do 2 (etrans; [done|]); done).
    eapply meets_impl; [apply IH|].
    + by apply Hl.
    + unfold monotonic_since, later in *. nia.
    + unfold later in *. nia.
    + cbn. intros r' s' [Hl' ?]. split; [by etrans|done].
  - split; [by etrans|by eexists].
Qed.

Lemma force_meets request termination started d s :
  fine d → watched s → termination ≠ Completed →
  (termination = TimedOut → dl_started d + dl_execution_budget d ≤ time s) →
  meets (force request termination started d) s (λ r s', time s ≤ time s' ∧ supervised request d r s' ∧
    match r with Ok res => pr_termination res = termination | _ => True end).
Proof.
  intros Hd Hw Hc Ht. unfold force. io_step. apply remaining_meets; [done|]. intros d1 s1 L1 Hd1.
  io_step. io_step. eapply meets_impl; [apply force_law; [by apply L1|unfold fine in Hd; lia]|].
  intros [exit|e] s2 L2; assert (L12 : later s s2) by (by etrans).
  - eapply meets_impl; [apply finish_meets; [done|by apply L12|done| |apply no_check]|].
    + intros ->. specialize (Ht eq_refl). unfold later in *. lia.
    + intros r s' (? & ? & ?). split; [unfold later in *; lia|done].
  - io_step. apply remaining_meets; [done|]. intros d3 s3 L3 Hd3. io_step. io_step.
    eapply meets_impl; [apply seal_law; [by apply L3, L12|unfold fine in Hd; lia]|].
    intros [[]|e'] s4 [L4 _]; cbn [map_err]; [io_step|]; (split; [unfold later in *; lia|done]).
Qed.

Lemma stop_meets fuel request termination started d s :
  fine d → watched s → termination ≠ Completed → (1 ≤ fuel)%nat →
  dl_cleanup_budget d < (Z.of_nat fuel - 1) * ps_poll_interval sup →
  (termination = TimedOut → dl_started d + dl_execution_budget d ≤ time s) →
  meets (stop_and_collect sup fuel request termination started d) s (λ r s', time s ≤ time s' ∧ supervised request d r s' ∧
    match r with Ok res => pr_termination res = termination | _ => True end).
Proof.
  intros Hd Hw Hc Hf Hb Ht. unfold stop_and_collect. io_step. io_step.
  eapply meets_impl; [by apply graceful_law|]. intros graceful s1 L1. io_step.
  assert (Hto : ∀ s', later s s' → termination = TimedOut → dl_started d + dl_execution_budget d ≤ time s')
    by (intros s' Hl Et; specialize (Ht Et); unfold later in *; lia).
  assert (Hforce : ∀ s2, later s s2 → meets (force request termination started d) s2 (λ r s', time s ≤ time s' ∧ supervised request d r s' ∧
    match r with Ok res => pr_termination res = termination | _ => True end)).
  { intros s2 L2. eapply meets_impl; [apply force_meets; [done|by apply L2|done|by apply Hto]|].
    intros r s' (? & ? & ?). split; [unfold later in *; lia|done]. }
  assert (Hskip : meets (mret None : io S ProcessError (option ExitOutcome)) s1 (λ r s', match r with
    | Ok x => meets (match x with Some exit => finish request termination "graceful descendant seal" (Some exit) started d (mret ())
                     | None => force request termination started d end) s' (λ r s', time s ≤ time s' ∧ supervised request d r s' ∧
                       match r with Ok res => pr_termination res = termination | _ => True end)
    | Err e => time s ≤ time s' ∧ supervised request d (Err e) s' ∧ True end)) by (io_step; by apply Hforce).
  destruct graceful as [[]|]; [|exact Hskip..]. clear Hskip.
  io_step. io_step. destruct (now_law s1) as [L2 Hn].
  eapply meets_impl; [apply grace_meets; [done|by apply L2, L1|done|lia]|].
  intros [[exit|]|e] s3 [L3 He]; assert (L13 : later s s3) by (do 2 (etrans; [done|]); done).
  - eapply meets_impl; [apply finish_meets; [done|by apply L13|done|by apply Hto|apply no_check]|].
    intros r s' (? & ? & ?). split; [unfold later in *; lia|done].
  - by apply Hforce.
  - destruct He as [k ->]. split; [unfold later in *; lia|done].
Qed.

Lemma supervise_meets fuel grace_fuel request d s :
  fine d → watched s → (1 ≤ fuel)%nat → (1 ≤ grace_fuel)%nat →
  dl_started d + dl_execution_budget d - time s < (Z.of_nat fuel - 1) * ps_poll_interval sup →
  dl_cleanup_budget d < (Z.of_nat grace_fuel - 1) * ps_poll_interval sup →
  dl_started d ≤ time s →
  meets (supervise_loop sup fuel grace_fuel request (dl_started d) d) s (supervised request d).
Proof.
  intros Hd. revert s. induction fuel as [|fuel IH]; intros s Hw Hf Hg Hb Hc Hs; [lia|]. cbn [supervise_loop].
  io_step. io_step. eapply meets_impl; [apply guard_meets|]. intros current s1 [L1 _].
  destruct (is_ok current); cbn [negb].
  2:{ io_step. eapply meets_impl; [apply stop_meets; [done|by apply L1|done..]|].
      intros [res|e] s' (_ & Hsup & _); [io_step; by destruct Hsup|done]. }
  unfold token_cancelled. io_step. io_step. io_step. io_step. pose proof (token_law s1) as L2.
  assert (L12 : later s (su_token s1).2) by (by etrans).
  destruct (is_cancelled _).
  { eapply meets_impl; [apply stop_meets; [done|by apply L12|done..]|]. by intros r s' (_ & ? & _). }
  io_step. apply expired_meets. intros now s3 L3 Hn. assert (L13 : later s s3) by (by etrans).
  destruct (Z.leb_spec (dl_execution_budget d) (monotonic_since (dl_started d) now)) as [Hx|Hx].
  { eapply meets_impl; [apply stop_meets; [done|by apply L13|done..|]|by intros r s' (_ & ? & _)].
    intros _. unfold monotonic_since, later in *. lia. }
  io_step. io_step. eapply meets_impl; [apply try_wait_law; by apply L13|].
  intros [[exit|]|e] s4 L4; assert (L14 : later s s4) by (by etrans).
  - eapply meets_impl; [apply finish_meets; [done|by apply L14|by eexists|done|apply guard_meets]|]. by intros r s' (_ & ? & _).
  - io_step. io_step. destruct (sleep_law (ps_poll_interval sup) s4 ltac:(lia)) as [L5 Ht].
    assert (Hl : later s (su_sleep (ps_poll_interval sup) s4).2) by (by etrans).
    apply IH; unfold monotonic_since in *; [by apply Hl|unfold later in *; nia..|done|unfold later in *; lia].
  - io_step. io_step. eapply meets_impl; [apply stop_meets; [done|by apply L14|done..]|].
    intros [res|e'] s' (_ & Hsup & _); io_step; [by destruct Hsup|done].
Qed.

(** The whole of an execution: with turns for the time of the request it ends, and as
    [supervised] says. *)
Lemma execute_meets fuel request mode ceiling s :
  idle s → 0 ≤ rq_timeout request → (1 ≤ fuel)%nat →
  rq_timeout request < (Z.of_nat fuel - 1) * ps_poll_interval sup →
  meets (execute_with_output_and_capture_ceiling sup fuel request mode ceiling) s (λ r s', ∃ started, time s ≤ started ∧
    supervised request (deadline_new started (rq_timeout request) (ps_grace_period sup)) r s').
Proof.
  intros Hi Ht Hf Hb. unfold execute_with_output_and_capture_ceiling.
  set (t := rq_timeout request) in *.
  assert (Herr : ∀ e s', later s s' → ∃ started, time s ≤ started ∧ supervised request (deadline_new started t (ps_grace_period sup)) (Err e) s').
  { intros e s' Hl. exists (time s). split; [done|]. assert (idle s') by (by apply Hl). by destruct e. }
  io_step. io_step. destruct (validate_with_capture_ceiling _ _) as [[]|e]; [|by apply Herr].
  io_step. eapply meets_impl; [apply guard_meets|]. intros [[]|e] s1 [L1 _]; [|by apply Herr].
  io_step. io_step. destruct (now_law s1) as [L2 Hn]. set (started := (su_now s1).1) in *.
  assert (L12 : later s (su_now s1).2) by (by etrans).
  assert (Hst : time s ≤ started) by (unfold later in *; lia).
  unfold token_cancelled. io_step. io_step. io_step. io_step. pose proof (token_law (su_now s1).2) as L3.
  assert (L13 : later s (su_token (su_now s1).2).2) by (by etrans).
  destruct (is_cancelled _).
  { unfold empty_result. io_step. apply elapsed_meets. intros now s4 L4 _. io_step. exists started. split; [done|].
    split; [by apply L4, L13|]. by repeat split. }
  io_step. eapply meets_impl; [apply spawn_law|]. intros [[]|e] s4 [Htm Hsp].
  - eapply meets_impl; [|intros r s' Hr; exists started; split; [done|exact Hr]].
    assert (Hhalf : 0 ≤ t / 2 ≤ t) by (split; [apply Z.div_pos; lia|apply Z.div_le_upper_bound; lia]).
    apply (supervise_meets fuel fuel request (deadline_new started t (ps_grace_period sup))); unfold fine, deadline_new, later in *;
      cbn [dl_started dl_total dl_execution_budget dl_cleanup_budget]; try done; lia.
  - exists started. split; [done|]. assert (later s s4 → idle s4) by (intros Hl; by apply Hl).
    destruct e; try done; cbn; unfold later in *; naive_solver.
Qed.
End Supervise.
