(* ===== verification/ProcessClaims.v ===== *)
(** The theorems on process supervision ([Process.v]). *)
From S2P Require Import Prelude.
From S2P Require Import RustStr.
From S2P Require Import BTree.
From S2P Require Import Canonical.
From S2P Require Import Durable.
From S2P Require Import Resource.
From S2P Require Import CacheRoot.
From S2P Require Import Ports.
From S2P Require Import Process.
From S2P Require Import ProcessProps.
From S2P Require Import PlanClaims.
Local Open Scope Z_scope.

(** What is documented of the operating system.  [os_time] is its clock, [spawned] the
    process that was started last, [gone] says that no process of its group is left.
    Only a spawn starts a process in the group; pipes are there when asked for; a
    question whether the group exists is answered by [ESRCH] only when it is gone. *)
Class OsLaws (T : Type) `{Os T} (token : T → CancellationToken * T) (guard : T → GenerationGuard * T) : Type := {
  os_time : T → Z;
  spawned : T → Z;
  gone : T → Prop;
  os_later (o o' : T) : Prop := os_time o ≤ os_time o' ∧ (gone o → gone o') ∧ spawned o' = spawned o;
  os_now_law o : os_later o (os_now o).2 ∧ os_time o ≤ (os_now o).1 ≤ os_time (os_now o).2;
  os_sleep_law d o : 0 ≤ d → os_later o (os_sleep d o).2 ∧ os_time o + d ≤ os_time (os_sleep d o).2;
  os_token_law o : os_later o (token o).2;
  os_guard_law o : os_later o (guard o).2;
  os_spawn_law request mode o :
    os_time o ≤ os_time (os_spawn request mode o).2 ∧
    match (os_spawn request mode o).1 with
    | Ok pid => spawned (os_spawn request mode o).2 = pid
    | Err _ => os_later o (os_spawn request mode o).2
    end;
  os_pipe_law name o : (os_take_pipe name o).1 = true ∧ os_later o (os_take_pipe name o).2;
  os_wait_law o : os_later o (os_child_try_wait o).2;
  os_kill_law o : os_later o (os_start_kill o).2;
  os_killpg_law group sig o : os_later o (os_killpg group sig o).2 ∧
    (group = spawned o → sig = None → (os_killpg group sig o).1 = Err ESRCH → gone (os_killpg group sig o).2);
  os_recv_law name d o : os_later o (os_recv_timeout name d o).2;
  os_cancel_law name o : os_later o (os_cancel_reader name o).2;
  os_join_law name o : os_later o (os_join_reader name o).2;
}.

Section Std.
Context {T : Type} `{Os T} (token : T → CancellationToken * T) (guard : T → GenerationGuard * T) `{!OsLaws T token guard}.
Context (fuel : nat) (longest : Z).
Hypothesis enough : longest < (Z.of_nat fuel - 1) * GROUP_EXIT_POLL.
Hypothesis some_fuel : (1 ≤ fuel)%nat.

Definition at_work (s : T * StdManagedProcess) : Prop := sm_pid s.2 = spawned s.1.
Definition goes_on (s s' : T * StdManagedProcess) : Prop :=
  os_time s.1 ≤ os_time s'.1 ∧ (gone s.1 → gone s'.1) ∧ (at_work s → at_work s').

#[local] Instance goes_on_preorder : PreOrder goes_on.
Proof. split; [intros s; by repeat split|]. intros s1 s2 s3 (? & ? & ?) (? & ? & ?). split_and!; [lia|auto..]. Qed.

Lemma goes_on_os (o o' : T) p : os_later o o' → goes_on (o, p) (o', p).
Proof. intros (? & ? & Hs). split_and!; [done|done|]. unfold at_work. cbn. by rewrite Hs. Qed.

Lemma on_os_meets {E A} (f : T → A * T) o p (Q : result E A → T * StdManagedProcess → Prop) :
  Q (Ok (f o).1) ((f o).2, p) → meets (call (on_os f)) (o, p) Q.
Proof. intros HQ. io_step. unfold on_os. by destruct (f o). Qed.
Lemma try_on_os_meets {E A} (f : T → result E A * T) o p (Q : result E A → T * StdManagedProcess → Prop) :
  Q (f o).1 ((f o).2, p) → meets (try_call (on_os f)) (o, p) Q.
Proof. intros HQ. io_step. unfold on_os. by destruct (f o). Qed.
Lemma child_meets {E} o p (Q : result E StdManagedProcess → T * StdManagedProcess → Prop) :
  Q (Ok p) (o, p) → meets child (o, p) Q.
Proof. intros HQ. by do 2 eexists. Qed.
Lemma set_child_meets {E} o p p' (Q : result E () → T * StdManagedProcess → Prop) :
  Q (Ok ()) (o, p') → meets (set_child p') (o, p) Q.
Proof. intros HQ. by do 2 eexists. Qed.

Lemma std_wait_meets s : meets std_try_wait s (λ _ s', goes_on s s').
Proof.
  destruct s as [o p]. unfold std_try_wait. io_step. apply child_meets. destruct (sm_last_exit p); [by io_step|].
  io_step. apply try_on_os_meets. pose proof (goes_on_os _ _ p (os_wait_law o)) as Hl.
  destruct (os_child_try_wait o).1 as [[exit|]|]; [|by io_step|done]. io_step. apply set_child_meets. by io_step.
Qed.

Lemma graceful_meets s : meets std_request_graceful_stop s (λ _ s', goes_on s s').
Proof.
  destruct s as [o p]. unfold std_request_graceful_stop. io_step. apply child_meets. io_step. io_step.
  destruct (pid_as_i32 _) as [group|]; [|done]. io_step. apply on_os_meets. io_step. apply goes_on_os, os_killpg_law.
Qed.

(** Both waiting loops sleep until their deadline has passed. *)
Definition turns_left (n : nat) (started deadline : Z) (s : T * StdManagedProcess) : Prop :=
  (1 ≤ n)%nat ∧ started + deadline - os_time s.1 < (Z.of_nat n - 1) * GROUP_EXIT_POLL.

Lemma force_loop_meets n started deadline s :
  turns_left n started deadline s → meets (force_loop n started deadline) s (λ _ s', goes_on s s').
Proof.
  revert s. induction n as [|n IH]; intros s [Hn Ht]; [lia|]. cbn [force_loop].
  io_step. eapply meets_impl; [apply std_wait_meets|]. intros [[exit|]|] [o1 p1] L1; [by io_step| |done].
  io_step. apply on_os_meets. destruct (os_now_law o1) as [L2 Hb].
  destruct (Z.leb_spec deadline (monotonic_since started (os_now o1).1)) as [|Hlt].
  { io_step. etrans; [done|]. by apply goes_on_os. }
  io_step. apply on_os_meets. set (o2 := (os_now o1).2) in *. destruct (os_sleep_law GROUP_EXIT_POLL o2 ltac:(done)) as [L3 Hs].
  assert (L : goes_on s ((os_sleep GROUP_EXIT_POLL o2).2, p1)) by (etrans; [exact L1|]; etrans; [exact (goes_on_os _ _ p1 L2)|]; exact (goes_on_os _ _ p1 L3)).
  eapply meets_impl; [apply IH|intros r s' Hl; by etrans].
  destruct L1 as (Ht1 & _). cbn [fst snd] in *. unfold turns_left, monotonic_since, os_later, GROUP_EXIT_POLL, millis in *.
  cbn [fst snd]. nia.
Qed.

Lemma force_stop_meets d s : 0 ≤ d ≤ longest → meets (std_force_stop_and_wait fuel d) s (λ _ s', goes_on s s').
Proof.
  intros Hd. destruct s as [o p]. unfold std_force_stop_and_wait. io_step. io_step. apply try_on_os_meets.
  pose proof (goes_on_os _ _ p (os_kill_law o)) as L1.
  assert (Hrest : ∀ s1, goes_on (o, p) s1 → meets (started ← call (on_os os_now); force_loop fuel started d) s1 (λ _ s', goes_on (o, p) s')).
  { intros [o1 p1] Hl. io_step. apply on_os_meets. destruct (os_now_law o1) as [L2 Hb].
    pose proof (goes_on_os _ _ p1 L2) as L2'.
    eapply meets_impl; [apply force_loop_meets|intros r s' Hl'; do 2 (etrans; [done|]); done].
    split; [done|]. cbn [fst]. lia. }
  io_step. destruct (os_start_kill o).1 as [[]|error]; [by io_step; apply Hrest|].
  io_step. eapply meets_impl; [apply std_wait_meets|]. intros [[exit|]|] s1 L2; [|by io_step; etrans|by etrans].
  io_step. apply Hrest. by etrans.
Qed.

Lemma group_loop_meets n pid started deadline s :
  turns_left n started deadline s → pid = spawned s.1 →
  meets (group_loop n pid started deadline) s (λ r s', goes_on s s' ∧ (r = Ok () → gone s'.1)).
Proof.
  revert s. induction n as [|n IH]; intros [o p] [Hn Ht] Hp; [lia|]. cbn [group_loop fst snd] in *.
  io_step. apply on_os_meets. destruct (os_killpg_law pid None o) as [L1 Hgone].
  set (o1 := (os_killpg pid None o).2) in *. pose proof (goes_on_os _ _ p L1) as L1'.
  assert (Hwait : meets (now ← call (on_os os_now);
      (if monotonic_since started now <? deadline then _ ← call (on_os (os_sleep GROUP_EXIT_POLL)); group_loop n pid started deadline
      else io_lift (Err OtherIo))) (o1, p) (λ r s', goes_on (o, p) s' ∧ (r = Ok () → gone s'.1))).
  { io_step. apply on_os_meets. destruct (os_now_law o1) as [L2 Hb]. set (o2 := (os_now o1).2) in *.
    destruct (Z.ltb_spec (monotonic_since started (os_now o1).1) deadline) as [Hlt|].
    2:{ io_step. split; [|done]. etrans; [done|]. by apply goes_on_os. }
    io_step. apply on_os_meets. destruct (os_sleep_law GROUP_EXIT_POLL o2 ltac:(done)) as [L3 Hs].
    assert (L : goes_on (o, p) ((os_sleep GROUP_EXIT_POLL o2).2, p)) by (etrans; [exact L1'|]; etrans; [exact (goes_on_os _ _ p L2)|]; exact (goes_on_os _ _ p L3)).
    eapply meets_impl; [apply IH|intros r s' [Hl ?]; by split; [etrans|]].
    - unfold turns_left, monotonic_since, os_later, GROUP_EXIT_POLL, millis in *. cbn [fst snd]. nia.
    - cbn. destruct L1 as (_ & _ & E1), L2 as (_ & _ & E2), L3 as (_ & _ & E3). by rewrite E3, E2, E1. }
  destruct (os_killpg pid None o).1 as [[]|[]] eqn:Ea; [exact Hwait| |exact Hwait|].
  - io_step. split; [done|]. intros _. by apply Hgone.
  - io_step. by split.
Qed.

Lemma seal_meets d s : at_work s → 0 ≤ d ≤ longest →
  meets (std_seal_descendants fuel d) s (λ r s', goes_on s s' ∧ (r = Ok () → gone s'.1)).
Proof.
  intros Hw Hd. destruct s as [o p]. unfold std_seal_descendants. io_step. apply child_meets.
  unfold seal_unix_process_group. io_step. io_step. unfold pid_as_i32. destruct (_ <=? _); [|by split].
  io_step. apply on_os_meets. destruct (os_killpg_law (sm_pid p) (Some SIGKILL) o) as [L1 _].
  pose proof (goes_on_os _ _ p L1) as L1'. set (o1 := (os_killpg (sm_pid p) (Some SIGKILL) o).2) in *.
  io_step. io_step. destruct (match (os_killpg _ _ o).1 with Ok () => _ | _ => _ end) as [[]|]; [|by split].
  io_step. apply on_os_meets. destruct (os_now_law o1) as [L2 Hb]. pose proof (goes_on_os _ _ p L2) as L2'.
  eapply meets_impl; [apply group_loop_meets|].
  - split; [done|]. cbn [fst]. lia.
  - cbn [fst]. unfold at_work in Hw. cbn in Hw. destruct L1 as (_ & _ & E1), L2 as (_ & _ & E2). by rewrite E2, E1.
  - intros r s' [Hl ?]. split; [|done]. do 2 (etrans; [done|]). done.
Qed.

Lemma join_meets name d s : meets (join_within name d) s (λ _ s', goes_on s s').
Proof.
  destruct s as [o p]. unfold join_within. io_step. apply on_os_meets. pose proof (goes_on_os _ _ p (os_recv_law name d o)) as L1.
  set (o1 := (os_recv_timeout name d o).2) in *. io_step. destruct (os_recv_timeout name d o).1 as [[stream|]| |].
  - io_step. io_step. apply on_os_meets. pose proof (goes_on_os _ _ p (os_join_law name o1)) as L2.
    io_step. io_step. destruct (ensure _ _); [io_step|]; by etrans.
  - by io_step.
  - io_step. apply on_os_meets. io_step. etrans; [done|]. apply goes_on_os, os_cancel_law.
  - by io_step.
Qed.

Lemma collect_meets d s : meets (std_collect_output d) s (λ _ s', goes_on s s').
Proof.
  destruct s as [o p]. unfold std_collect_output. io_step. apply on_os_meets. destruct (os_now_law o) as [L1 _].
  pose proof (goes_on_os _ _ p L1) as L1'. set (o1 := (os_now o).2) in *. io_step. apply child_meets.
  io_step. io_step. destruct (ensure (sm_stdout p) _); [|done]. io_step. io_step. destruct (ensure (sm_stderr p) _); [|done].
  io_step. apply set_child_meets. set (p' := {| sm_pid := sm_pid p |}).
  assert (L2 : goes_on (o, p) (o1, p')) by (etrans; [exact L1'|]; by repeat split).
  io_step. io_step. eapply meets_impl; [apply join_meets|]. intros [stdout|e] [o3 p3] L3; assert (L4 : goes_on (o, p) (o3, p3)) by (by etrans).
  - io_step. apply on_os_meets. io_step. eapply meets_impl; [apply join_meets|].
    assert (L5 : goes_on (o, p) ((os_now o3).2, p3)) by (etrans; [done|]; apply goes_on_os, os_now_law).
    intros [stderr|e] s' Hl; [io_step|]; by etrans.
  - io_step. apply on_os_meets. io_step. etrans; [done|]. apply goes_on_os, os_cancel_law.
Qed.

Lemma spawn_meets request mode s : meets (spawn_with_output request mode) s (λ r s', os_time s.1 ≤ os_time s'.1 ∧
  match r with Ok _ => at_work s' | Err (CleanupUncertain _ _) => True | Err _ => goes_on s s' end).
Proof.
  destruct s as [o p]. unfold spawn_with_output. io_step. io_step. apply try_on_os_meets.
  destruct (os_spawn_law request mode o) as [Ht Hs]. set (o1 := (os_spawn request mode o).2) in *.
  destruct (os_spawn request mode o).1 as [pid|]; cbn [map_err].
  2:{ split; [done|]. by apply goes_on_os. }
  io_step. apply on_os_meets. destruct (os_pipe_law Stdout o1) as [-> L2]. io_step. io_step. cbn [ensure].
  set (o2 := (os_take_pipe Stdout o1).2) in *. io_step. apply on_os_meets. destruct (os_pipe_law Stderr o2) as [-> L3].
  io_step. io_step. cbn [ensure]. apply set_child_meets. unfold os_later in *. cbn [fst snd] in *. split; [lia|].
  unfold at_work. cbn. destruct L2 as (_ & _ & E2), L3 as (_ & _ & E3). congruence.
Qed.

(** The child of the operating system keeps what the supervisor relies on. *)
#[local] Instance std_surroundings_instance : Surroundings (T * StdManagedProcess) := std_surroundings fuel token guard.
Program Definition std_laws : SurroundingsLaws (T * StdManagedProcess) longest :=
  {| time s := os_time s.1; idle s := gone s.1; watched := at_work |}.
Next Obligation. intros [o p]. cbn. unfold on_os. destruct (os_now_law o) as [L Hb]. destruct (os_now o). cbn in *. split; [by apply goes_on_os|done]. Qed.
Next Obligation. intros d [o p] Hd. cbn. unfold on_os. destruct (os_sleep_law d o Hd) as [L Hb]. destruct (os_sleep d o). cbn in *. split; [by apply goes_on_os|done]. Qed.
Next Obligation. intros [o p]. cbn. unfold on_os. pose proof (os_token_law o) as L. destruct (token o). by apply goes_on_os. Qed.
Next Obligation. intros [o p]. cbn. unfold on_os. pose proof (os_guard_law o) as L. destruct (guard o). by apply goes_on_os. Qed.
Next Obligation. intros request mode s. eapply meets_impl; [apply spawn_meets|]. by intros [|[]] s'. Qed.
Next Obligation. intros s _. apply std_wait_meets. Qed.
Next Obligation. intros s _. apply graceful_meets. Qed.
Next Obligation. intros d s _ Hd. by apply force_stop_meets. Qed.
Next Obligation. intros d s Hw Hd. by apply seal_meets. Qed.
Next Obligation. intros d s _ _. apply collect_meets. Qed.
End Std.

(** C17.  A supervised program ends in time and leaves nothing behind.  Given the
    documented behaviour of the operating system and turns for the time of the
    request, the standard supervisor always returns, whatever the child, the token
    and the guard do; unless its error says that the cleanup is uncertain, no process
    of the child's group is left.  A result names the request, a completed run has
    its exit, only a run that never started has no verified cleanup, and a timeout is
    only reported after the time given. *)
Theorem supervision_leaves_nothing `{Backend} {T : Type} `{Os T} (token : T → CancellationToken * T)
    (guard : T → GenerationGuard * T) `{!OsLaws T token guard} (fuel : nat) (request : ProcessRequest) (mode : OutputMode)
    (ceiling : Z) (o : T) :
  DEFAULT_GRACE_PERIOD < (Z.of_nat fuel - 1) * GROUP_EXIT_POLL →
  0 ≤ rq_timeout request < (Z.of_nat fuel - 1) * DEFAULT_POLL_INTERVAL →
  gone o →
  ∃ r o' p,
    execute_with_output_and_capture_ceiling (H0 := std_surroundings fuel token guard) supervisor_new fuel request mode ceiling (o, no_child)
      = Some (r, (o', p)) ∧
    match r with
    | Ok res =>
      gone o' ∧ pr_identity res = rq_identity request ∧
      match pr_cleanup res with
      | Verified => pr_termination res = Completed → is_Some (pr_exit res)
      | NotRequired => pr_termination res = Cancelled ∧ pr_exit res = None
      end ∧
      (pr_termination res = TimedOut →
       os_time o + (rq_timeout request - Z.min DEFAULT_GRACE_PERIOD (rq_timeout request / 2)) ≤ os_time o')
    | Err (CleanupUncertain _ _) => True
    | Err _ => gone o'
    end.
Proof.
  intros Hf [Ht0 Ht] Hg. assert (Hs : (1 ≤ fuel)%nat) by (unfold DEFAULT_GRACE_PERIOD, GROUP_EXIT_POLL, millis in Hf; lia).
  pose proof (execute_meets (H0 := std_surroundings fuel token guard) supervisor_new
    (SurroundingsLaws0 := std_laws token guard fuel (ps_grace_period supervisor_new) Hf Hs)
    ltac:(done) ltac:(done) fuel request mode ceiling (o, no_child) Hg Ht0 Hs Ht) as (r & [o' p] & He & started & Hst & Hr).
  exists r, o', p. split; [exact He|]. destruct r as [res|[]]; try exact Hr.
  destruct Hr as (Hi & Hid & Hc & Hto). split_and!; [done..|]. intros E. specialize (Hto E).
  cbn [time std_laws fst] in *. unfold deadline_new in Hto. cbn [dl_started dl_execution_budget ps_grace_period supervisor_new] in Hto. lia.
Qed.

(** * Captured output *)

Section Capture.
Context `{Backend}.

(** The turns of a reader that nobody cancels, up to the end of its stream. *)
Definition turns (reads : list (list ascii * result io_kind ())) : list read_event :=
  ((λ rw, {| ev_cancelled := false; ev_read := Ok rw.1; ev_write := rw.2 |}) <$> reads) ++
  [{| ev_cancelled := false; ev_read := Ok []; ev_write := Ok () |}].

Definition first_error (reads : list (list ascii * result io_kind ())) : option io_kind :=
  head (omap (λ rw, match rw.2 : result io_kind () with Err e => Some e | Ok _ => None end) reads).

Lemma read_loop_exact limit tee reads st :
  0 ≤ limit → Forall (λ rw, rw.1 ≠ []) reads →
  rd_captured st = take (Z.to_nat limit) (rd_hashed st) →
  rd_byte_count st = Z.min (Z.of_nat (length (rd_hashed st))) u64_max →
  rd_truncated st = (limit <? Z.of_nat (length (rd_hashed st))) →
  let content := rd_hashed st ++ concat reads.*1 in
  read_loop limit tee st (turns reads) =
    Some match (if tee then match rd_write_error st with Some e => Some e | None => first_error reads end else rd_write_error st) with
         | Some e => Err e
         | None => Ok {| cs_bytes := take (Z.to_nat limit) content;
                         cs_byte_count := Z.min (Z.of_nat (length content)) u64_max;
                         cs_full_digest := sha256_digest content;
                         cs_truncated := limit <? Z.of_nat (length content) |}
         end.
Proof.
  intros Hl Hne. revert st. induction Hne as [|[chunk write] reads Hc _ IH]; intros st H1 H2 H3; cbn.
  - rewrite app_nil_r. unfold read_result, sha256_digest. destruct tee; destruct (rd_write_error st); try done; by rewrite <-H1, H2, H3.
  - cbn in Hc. destruct chunk as [|b bs] eqn:Ec; [done|]. rewrite <-Ec in *. clear Ec b bs Hc.
    fold (turns reads). rewrite IH; clear IH.
    + cbn [rd_write_error rd_hashed read_turn]. rewrite app_assoc. destruct tee; [|done].
      destruct (rd_write_error st); [done|]. unfold first_error. cbn. by destruct write.
    + cbn. rewrite H1, length_take, take_app. f_equal.
      destruct (Z.le_gt_cases (Z.of_nat (length chunk)) (limit - Z.of_nat (length (rd_hashed st)))).
      * by rewrite !take_ge by lia.
      * f_equal. lia.
    + cbn. rewrite H2, length_app. lia.
    + cbn. rewrite H3, H1, length_take, length_app. apply eq_true_iff_eq. rewrite orb_true_iff, !Z.ltb_lt. lia.
Qed.

(** What is captured of a stream is exact, in whatever pieces it arrives: its
    first bytes up to the limit, the count and the digest of all of it, and whether
    anything was left out; a tee that could not be written fails with the first
    error, after the stream was drained. *)
Theorem capture_exact limit tee reads :
  0 ≤ limit → Forall (λ rw, rw.1 ≠ []) reads →
  let content := concat reads.*1 in
  read_stream limit tee (turns reads) =
    Some match (if tee then first_error reads else None) with
         | Some e => Err e
         | None => Ok {| cs_bytes := take (Z.to_nat limit) content;
                         cs_byte_count := Z.min (Z.of_nat (length content)) u64_max;
                         cs_full_digest := sha256_digest content;
                         cs_truncated := limit <? Z.of_nat (length content) |}
         end.
Proof.
  intros Hl Hne. unfold read_stream. rewrite read_loop_exact; [|done|done|..]; cbn; try done.
  - by rewrite take_nil.
  - symmetry. by apply Z.ltb_ge.
Qed.
End Capture.

(** * Example *)

Module ProcessExample.
Import PlanExample.

(** A system with one child that ignores every request to stop but the last. *)
Record Machine : Type := { m_time : Z; m_alive : bool; m_child : Z }.
Definition at_time (t : Z) (m : Machine) : Machine := {| m_time := t; m_alive := m_alive m; m_child := m_child m |}.
Definition killed (m : Machine) : Machine := {| m_time := m_time m; m_alive := false; m_child := m_child m |}.

#[global] Instance machine_os : Os Machine :=
  {| os_now m := (m_time m, m);
     os_sleep d m := ((), at_time (m_time m + d) m);
     os_spawn _ _ m := (Ok 42, {| m_time := m_time m; m_alive := true; m_child := 42 |});
     os_take_pipe _ m := (true, m);
     os_child_try_wait m := (Ok (if m_alive m then None else Some {| xo_success := false; xo_code := None |}), m);
     os_start_kill m := (Ok (), killed m);
     os_killpg group sig m :=
       if (group =? m_child m) && m_alive m
       then match sig with Some SIGKILL => (Ok (), killed m) | _ => (Ok (), m) end
       else (Err ESRCH, m);
     os_recv_timeout _ _ m := (Received (Ok stream_empty), m);
     os_cancel_reader _ m := ((), m);
     os_join_reader _ m := (true, m) |}.

Definition run_identity : RunIdentity :=
  {| id_project := "project"; id_commit := None; id_config_digest := "digest"; id_generation := "1" |}.
Definition quiet_token (m : Machine) : CancellationToken * Machine := (token_default, m).
Definition same_guard (m : Machine) : GenerationGuard * Machine := (guard_new run_identity, m).

Lemma machine_later m : m_time m ≤ m_time m ∧ (m_alive m = false → m_alive m = false) ∧ m_child m = m_child m.
Proof. by repeat split. Qed.

#[global] Program Instance machine_laws : OsLaws Machine quiet_token same_guard :=
  {| os_time := m_time; spawned := m_child; gone m := m_alive m = false |}.
Solve Obligations with (intros; cbn; try first [by repeat split|by repeat (split; try lia)]).
Next Obligation.
  intros group sig m. cbn. destruct (Z.eqb_spec group (m_child m)) as [->|]; cbn; [|by repeat split].
  destruct (m_alive m) eqn:E; cbn; [|by repeat split]. destruct sig as [[]|]; cbn; by repeat split.
Qed.

Definition request : ProcessRequest :=
  {| rq_identity := run_identity; rq_program := "make"; rq_argv := ["test"]; rq_current_dir := [RootDir];
     rq_environment := []; rq_timeout := millis 1000; rq_max_capture_bytes := 4096 |}.
Definition idle_machine : Machine := {| m_time := 5; m_alive := false; m_child := 0 |}.

(** A child that does not end is stopped when its time is over. *)
Lemma supervision_leaves_nothing_witness : ∃ res m p,
  execute_with_output_and_capture_ceiling (H0 := std_surroundings 200 quiet_token same_guard) supervisor_new 200 request
    Capture MAX_CAPTURE_BYTES (idle_machine, no_child) = Some (Ok res, (m, p)) ∧
  pr_termination res = TimedOut ∧ m_alive m = false.
Proof.
  destruct (supervision_leaves_nothing quiet_token same_guard 200 request Capture MAX_CAPTURE_BYTES idle_machine)
    as (r & m & p & He & Hr); [done|done|done|].
  destruct r as [res|e]; [|vm_compute in He; discriminate He]. exists res, m, p. destruct Hr as (Hg & _).
  split_and!; [exact He| |exact Hg]. vm_compute in He. by injection He as <- _ _.
Defined.

(** A stream in two pieces, cut at three bytes. *)
Lemma capture_exact_witness :
  read_stream 3 true (turns [(bytes "ab", Ok ()); (bytes "cd", Ok ())]) =
    Some (Ok {| cs_bytes := bytes "abc"; cs_byte_count := 4; cs_full_digest := sha256_digest (bytes "abcd"); cs_truncated := true |}).
Proof.
  refine (eq_trans (capture_exact 3 true [(bytes "ab", Ok ()); (bytes "cd", Ok ())] _ _) _); [done| |reflexivity].
  repeat constructor; discriminate.
Defined.
End ProcessExample.
