(* ===== verification/Runtime.v ===== *)
(** The container runtime ([src/src/runtime.rs]): the probe of the daemon and of its
    capabilities, the rendering of a check as an argument vector, its environment,
    and the life of its container.

    The supervisor is the class [SupervisorPort] (the trait of [process.rs]);
    [serde_json] on the output of the daemon is the class [ValueParser]. *)
From S2P Require Import Prelude.
From S2P Require Import RustStr.
From S2P Require Import BTree.
From S2P Require Import Canonical.
From S2P Require Import Config.
From S2P Require Import Receipt.
From S2P Require Import Durable.
From S2P Require Import Resource.
From S2P Require Import Benchmark.
From S2P Require Import FileSystem.
From S2P Require Import CacheRoot.
From S2P Require Import Cache.
From S2P Require Import Workspace.
From S2P Require Import Ports.
From S2P Require Import Process.
Local Open Scope Z_scope.

Definition DOCTOR_TIMEOUT : Z := millis 5000.
Definition DOCTOR_CAPTURE_BYTES : Z := 65536.
Definition LIFECYCLE_CAPTURE_BYTES : Z := 1048576.

(** * Text *)

Definition ascii_lower (a : ascii) : ascii := if in_range 65 90 (code a) then ascii_of_N (Z.to_N (code a + 32)) else a.
Definition to_ascii_lowercase (s : string) : string := str (ascii_lower <$> bytes s).
Definition eq_ignore_ascii_case (s t : string) : bool := (to_ascii_lowercase s =? to_ascii_lowercase t)%string.
Definition trim_start_matches (c : ascii) (s : string) : string := str (drop_while (Ascii.eqb c) (bytes s)).
Definition is_ascii_hexdigit (a : ascii) : bool :=
  is_ascii_digit a || in_range 97 102 (code a) || in_range 65 70 (code a).

(** [str::parse::<i32>]. *)
Definition parse_i32 (s : string) : option Z :=
  match bytes s with
  | a :: (_ :: _) as r => if Ascii.eqb a "-" then v ← digits_val 0 (tail r); if v <=? 2 ^ 31 then Some (- v) else None
                          else parse_unsigned (2 ^ 31 - 1) s
  | _ => parse_unsigned (2 ^ 31 - 1) s
  end.

(** [Value::get] and the casts of a value. *)
Definition value_get (key : string) (v : Value) : option Value :=
  match v with Object fields => map_get key fields | _ => None end.
Definition as_str (v : Value) : option string := match v with Str s => Some s | _ => None end.
Definition as_bool (v : Value) : option bool := match v with Bool b => Some b | _ => None end.
Definition as_array (v : Value) : option (list Value) := match v with Array l => Some l | _ => None end.
Definition as_object (v : Value) : option (btmap string Value) := match v with Object fields => Some fields | _ => None end.

(** [serde_json::from_slice] to a [Value]. *)
Class ValueParser := parse_value : list ascii → option Value.

(** * Data *)

(** [RuntimeFault] is no error of the code but a panic. *)
Inductive RuntimeError : Type :=
  | RuntimeUnsupported (message : string)
  | UnsupportedCapability (capability : string)
  | Unavailable
  | RuntimeTimedOut
  | RuntimeCancelled
  | RuntimeCleanupUncertain
  | InvalidProbe (message : string)
  | LifecycleFailure (message : string)
  | FixedEnvironmentBinding (name reason : string)
  | RuntimeWorkspace (e : WorkspaceError)
  | RuntimeProcess (e : ProcessError)
  | RuntimeFault (f : fault).

Record RuntimePreflight : Type := {
  rp_runtime_probe : option RuntimeProbe;
  rp_capability_evidence : option RuntimeCapabilityEvidenceV1;
}.

Record DryRunCheck : Type := {
  dc_id : string;
  dc_program : string;
  dc_argv : list string;
  dc_depends_on : list string;
  dc_mounts : list MountBinding;
}.

Inductive WorkspaceMountPolicy : Type := ExplicitBindings.

Record DryRunPlan : Type := {
  dr_schema_version : string;
  dr_plan_digest : string;
  dr_runtime : RuntimeKind;
  dr_program : string;
  dr_checks : list DryRunCheck;
  dr_workspace : WorkspacePlanV1;
  dr_workspace_mount_policy : WorkspaceMountPolicy;
  dr_executed : bool;
}.

Record DockerLifecyclePlan : Type := {
  lc_container_name : string;
  lc_owner_label : string;
  lc_run_label : string;
  lc_check_label : string;
  lc_create_argv : list string;
  lc_start_argv : list string;
  lc_attach_argv : list string;
  lc_wait_argv : list string;
  lc_inspect_argv : list string;
  lc_stop_argv : list string;
  lc_kill_argv : list string;
  lc_remove_argv : list string;
}.

Definition runtime_exit_code (e : RuntimeError) : Z :=
  match e with
  | RuntimeUnsupported _ | UnsupportedCapability _ | Unavailable | InvalidProbe _ => 4
  | RuntimeTimedOut | RuntimeCancelled => 5
  | RuntimeWorkspace _ => 2
  | RuntimeProcess StaleGeneration => 5
  | RuntimeCleanupUncertain | LifecycleFailure _ | FixedEnvironmentBinding _ _ | RuntimeProcess _ => 70
  | RuntimeFault _ => 101
  end.

(** * Environments *)

Section Environment.
Context `{Backend} (var_os : string → option string).

Definition ALLOWED : list string :=
  ["PATH"; "HOME"; "USERPROFILE"; "HOMEDRIVE"; "HOMEPATH"; "DOCKER_HOST"; "DOCKER_CONTEXT"; "DOCKER_CONFIG"].
Definition runtime_environment : btmap string string :=
  map_from_list (omap (λ name, (λ value, (name, value)) <$> var_os name) ALLOWED).

Definition fixed_binding (envelope : ExecutionPlanEnvelopeV1) (values : btmap string string)
    (binding : NormalizedFixedEnvironment) : result RuntimeError (btmap string string) :=
  let name := nfe_name binding in
  value ← ok_or (map_get name (pe_fixed_environment envelope))
            (FixedEnvironmentBinding name "is missing from the private envelope");
  actual ← map_err (λ _, FixedEnvironmentBinding name "cannot be canonically digested") (canonical_digest value);
  _ ← ensure (actual =? nfe_value_digest binding)%string
        (FixedEnvironmentBinding name "does not match the normalized plan digest");
  Ok (map_insert name value values).

Definition validate_fixed_environment (envelope : ExecutionPlanEnvelopeV1) : result RuntimeError (btmap string string) :=
  let fixed := ne_fixed (ep_environment (pe_plan envelope)) in
  let declared := map_from_list ((λ b, (nfe_name b, nfe_value_digest b)) <$> fixed) in
  _ ← try_each (λ name, ensure (bool_decide (is_Some (map_get name declared)))
        (FixedEnvironmentBinding name "is not declared in the normalized plan")) (pe_fixed_environment envelope).*1;
  try_fold (fixed_binding envelope) [] fixed.

Definition docker_execution_environment (envelope : ExecutionPlanEnvelopeV1) : result RuntimeError (btmap string string) :=
  let declared := ep_environment (pe_plan envelope) in
  let environment := foldl (λ env name, match var_os name with Some value => map_insert name value env | None => env end)
                       runtime_environment (ne_inherit declared) in
  fixed ← validate_fixed_environment envelope;
  let environment := foldl (λ env nv, map_insert nv.1 nv.2 env) environment fixed in
  Ok (foldl (λ env b, map_insert (nri_name b) (nri_container_target b) env) environment (ne_runtime_internal declared)).
End Environment.

(** * The arguments of a check *)

Definition docker_mount_argument (mount : MountBinding) : result RuntimeError string :=
  _ ← map_err RuntimeWorkspace (validate_host_path (mb_source mount));
  _ ← map_err RuntimeWorkspace (validate_container_mount_target (mb_target mount));
  source ← ok_or (to_str (mb_source mount)) (RuntimeWorkspace UnsupportedHostPath);
  let readonly := if bool_decide (mb_access mount = ReadOnly) then ",readonly" else "" in
  Ok ("type=bind,src=" +:+ source +:+ ",dst=" +:+ mb_target mount +:+ readonly).

Definition container_working_directory (relative : string) : string :=
  if (relative =? ".")%string then "/workspace" else "/workspace/" +:+ relative.

(** The options before the mounts. *)
Definition confinement (runtime : NormalizedRuntime) : list string :=
  let pinned := bool_decide (nr_pull_policy runtime = Some Never) && bool_decide (nr_swap_mode runtime = Some Disabled) in
  ["run"; "--rm"; "--init"; "--read-only"; "--network"; if nr_network runtime then "bridge" else "none";
   "--cpus"; decimal_text (nr_cpu_count runtime)] ++
  (if pinned then ["--pull"; "never"] else []) ++
  ["--memory"; decimal_text (nr_memory_mib runtime) +:+ "m"] ++
  (if pinned then ["--memory-swap"; decimal_text (nr_memory_mib runtime) +:+ "m"] else []) ++
  ["--pids-limit"; decimal_text (nr_pids_limit runtime); "--tmpfs"; "/tmp:rw,noexec,nosuid,nodev,size=64m"].

Definition docker_dry_run_check (runtime : NormalizedRuntime) (environment_allow : list string) (workspace : WorkspacePlanV1)
    (check : NormalizedCheck) : result RuntimeError DryRunCheck :=
  let argv := confinement runtime ++ concat ((λ name, ["--env"; name]) <$> environment_allow) ++ ["--env"; "TMPDIR=/tmp"] in
  argv ← try_fold (λ argv mount, arg ← docker_mount_argument mount; Ok (argv ++ ["--mount"; arg])) argv (wp_mounts workspace);
  let argv := argv ++ ["--workdir"; container_working_directory (nk_working_directory check)] in
  _ ← try_each (λ name, ensure (negb (contains_char (ascii_of_nat 0) name)) (RuntimeFault Panic)) (nk_argv check);
  Ok {| dc_id := nk_id check; dc_program := "docker"; dc_argv := argv ++ [nr_image runtime] ++ nk_argv check;
        dc_depends_on := nk_depends_on check; dc_mounts := wp_mounts workspace |}.

Definition dry_run `{Backend} (envelope : ExecutionPlanEnvelopeV1) (workspace : WorkspacePlanV1) : result RuntimeError DryRunPlan :=
  let plan := pe_plan envelope in
  _ ← validate_fixed_environment envelope;
  checks ← mapM (docker_dry_run_check (ep_runtime plan) (environment_names (ep_environment plan)) workspace)
             (ep_checks plan);
  Ok {| dr_schema_version := "1.0"; dr_plan_digest := pe_plan_digest envelope; dr_runtime := DockerCompatible;
        dr_program := "docker"; dr_checks := checks; dr_workspace := workspace;
        dr_workspace_mount_policy := ExplicitBindings; dr_executed := false |}.

(** * The life of a container *)

Section Lifecycle.
Context `{Backend}.

Definition lifecycle_build (run_id : string) (check : NormalizedCheck) (rendered : DryRunCheck) :
    result RuntimeError DockerLifecyclePlan :=
  _ ← ensure (negb (is_empty run_id || is_empty (nk_id check) || negb (dc_program rendered =? "docker")%string))
        (LifecycleFailure "lifecycle identity or rendered runtime is invalid");
  _ ← ensure (bool_decide (head (dc_argv rendered) = Some "run")) (LifecycleFailure "lifecycle requires a docker run plan");
  let digest := encode_hex (sha256 (bytes "commit-ci-preflight-container-v1" ++ [ascii_of_nat 0] ++ bytes run_id ++
                                    [ascii_of_nat 0] ++ bytes (nk_id check))) in
  let container_name := "ccp-" +:+ str (take 24 (bytes digest)) in
  let owner_label := "com.commit-ci-preflight.owner=commit-ci-preflight" in
  let run_label := "com.commit-ci-preflight.run-id=" +:+ run_id in
  let check_label := "com.commit-ci-preflight.check-id=" +:+ nk_id check in
  Ok {| lc_container_name := container_name; lc_owner_label := owner_label; lc_run_label := run_label;
        lc_check_label := check_label;
        lc_create_argv := ["create"; "--name"; container_name; "--label"; owner_label; "--label"; run_label; "--label"; check_label]
          ++ List.filter (λ argument, negb (argument =? "--rm")%string) (drop 1 (dc_argv rendered));
        lc_start_argv := ["start"; container_name];
        lc_attach_argv := ["attach"; "--sig-proxy=false"; container_name];
        lc_wait_argv := ["wait"; container_name];
        lc_inspect_argv := ["inspect"; "--format"; "{{json .}}"; container_name];
        lc_stop_argv := ["stop"; "--time"; "5"; container_name];
        lc_kill_argv := ["kill"; container_name];
        lc_remove_argv := ["rm"; "--force"; container_name] |}.
End Lifecycle.

Definition completed_success (r : ProcessResult) : bool :=
  bool_decide (pr_termination r = Completed) && bool_decide (pr_cleanup r = Verified)
  && match pr_exit r with Some exit => xo_success exit | None => false end.

(** Bytes that are no UTF-8 give a replacement character, which is no digit. *)
Definition valid_container_id (b : list ascii) : bool :=
  match from_utf8 b with
  | Some text => let value := trim text in
                 (12 <=? len value) && (len value <=? 64) && all_bytes is_ascii_hexdigit value
  | None => false
  end.

Definition parse_wait_exit_code (b : list ascii) : result RuntimeError Z :=
  text ← ok_or (from_utf8 b) (LifecycleFailure "docker wait output is not UTF-8");
  code ← ok_or (parse_i32 (trim text)) (LifecycleFailure "docker wait output is not an exit code");
  _ ← ensure (in_range 0 255 code) (LifecycleFailure "docker wait returned an invalid exit code");
  Ok code.

Definition label_matches (labels : btmap string Value) (key_value : string) : bool :=
  match split_once "=" key_value with
  | Some (key, value) => bool_decide ((map_get key labels ≫= as_str) = Some value)
  | None => false
  end.

Definition container_states : list string := ["created"; "running"; "restarting"; "paused"; "exited"; "dead"].

Definition parse_container_state `{ValueParser} (b : list ascii) (lifecycle : DockerLifecyclePlan) : result RuntimeError string :=
  value ← ok_or (parse_value b) (LifecycleFailure "docker inspect output is not JSON");
  let name := option_map (trim_start_matches "/") (value_get "Name" value ≫= as_str) in
  _ ← ensure (bool_decide (name = Some (lc_container_name lifecycle)))
        (LifecycleFailure "docker inspect returned an unexpected container name");
  labels ← ok_or ((value_get "Config" value ≫= value_get "Labels") ≫= as_object)
             (LifecycleFailure "docker inspect omitted container labels");
  _ ← ensure (label_matches labels (lc_owner_label lifecycle) && label_matches labels (lc_run_label lifecycle)
              && label_matches labels (lc_check_label lifecycle))
        (LifecycleFailure "docker inspect returned non-CCP ownership labels");
  state ← ok_or ((value_get "State" value ≫= value_get "Status") ≫= as_str)
            (LifecycleFailure "docker inspect omitted container state");
  _ ← ensure (bool_decide (state ∈ container_states)) (LifecycleFailure "docker inspect returned an unknown container state");
  Ok state.

(** The trait [SupervisorPort]; the token is that of the run or a fresh one. *)
Inductive token_use : Type := RunToken | CleanupToken.
Class SupervisorPort (S : Type) : Type := port_execute : ProcessRequest → token_use → io S ProcessError ProcessResult.

Record RuntimeExecutionContext : Type := {
  rx_execution_root : list component;
  rx_environment : btmap string string;
  rx_identity : RunIdentity;
  rx_run_id : string;
  rx_timeout_seconds : Z;
}.

Section Execute.
Context `{Backend, ValueParser} {S : Type} `{SupervisorPort S} (revalidate : list MountBinding → io S WorkspaceError ())
  (context : RuntimeExecutionContext).

Definition cli_request (argv : list string) : ProcessRequest :=
  {| rq_identity := rx_identity context; rq_program := "docker"; rq_argv := argv; rq_current_dir := rx_execution_root context;
     rq_environment := rx_environment context; rq_timeout := millis (1000 * rx_timeout_seconds context);
     rq_max_capture_bytes := LIFECYCLE_CAPTURE_BYTES |}.
Definition execute_cli (argv : list string) (token : token_use) : io S RuntimeError ProcessResult :=
  io_map_err RuntimeProcess (port_execute (cli_request argv) token).
Definition execute_cleanup_cli (argv : list string) : io S RuntimeError ProcessResult :=
  io_map_err (λ _, LifecycleFailure "daemon cleanup command failed") (execute_cli argv CleanupToken).

Definition removal_proven (final_inspect : ProcessResult) : bool :=
  bool_decide (pr_termination final_inspect = Completed) && bool_decide (pr_cleanup final_inspect = Verified)
  && match pr_exit final_inspect with Some exit => negb (xo_success exit) | None => false end.

Definition stop_container (lifecycle : DockerLifecyclePlan) : io S RuntimeError () :=
  stop ← attempt (execute_cleanup_cli (lc_stop_argv lifecycle));
  if match stop with Ok stop => completed_success stop | Err _ => false end then mret () else
  kill ← execute_cleanup_cli (lc_kill_argv lifecycle);
  io_lift (ensure (completed_success kill) (LifecycleFailure "daemon stop and kill both failed")).

Definition cleanup_container (lifecycle : DockerLifecyclePlan) : io S RuntimeError () :=
  inspect ← execute_cleanup_cli (lc_inspect_argv lifecycle);
  _ ← io_lift (ensure (completed_success inspect) (LifecycleFailure "daemon inspection failed before cleanup"));
  state ← io_lift (parse_container_state (cs_bytes (pr_stdout inspect)) lifecycle);
  _ ← if bool_decide (state ∈ ["created"; "running"; "restarting"; "paused"]) then stop_container lifecycle else mret ();
  remove ← execute_cleanup_cli (lc_remove_argv lifecycle);
  _ ← io_lift (ensure (completed_success remove) (LifecycleFailure "daemon removal failed"));
  final_inspect ← execute_cleanup_cli (lc_inspect_argv lifecycle);
  io_lift (ensure (removal_proven final_inspect)
    (LifecycleFailure "daemon removal was not proven by final not-found inspection")).

(** A command whose error is only returned after the cleanup. *)
Definition execute_or_clean (lifecycle : DockerLifecyclePlan) (argv : list string) : io S RuntimeError ProcessResult :=
  r ← attempt (execute_cli argv RunToken);
  match r with
  | Ok r => mret r
  | Err e => _ ← cleanup_container lifecycle; io_lift (Err e)
  end.

Definition set_exit (exit : ExitOutcome) (r : ProcessResult) : ProcessResult :=
  {| pr_identity := pr_identity r; pr_termination := pr_termination r; pr_cleanup := pr_cleanup r; pr_exit := Some exit;
     pr_stdout := pr_stdout r; pr_stderr := pr_stderr r; pr_elapsed_millis := pr_elapsed_millis r |}.

Definition execute_check (check : NormalizedCheck) (rendered : DryRunCheck) : io S RuntimeError ProcessResult :=
  _ ← io_map_err RuntimeWorkspace (revalidate (dc_mounts rendered));
  lifecycle ← io_lift (lifecycle_build (rx_run_id context) check rendered);
  create ← execute_cli (lc_create_argv lifecycle) RunToken;
  if negb (completed_success create) then mret create else
  if negb (valid_container_id (cs_bytes (pr_stdout create))) then
    _ ← cleanup_container lifecycle;
    io_lift (Err (LifecycleFailure "docker create did not return a valid container id"))
  else
  start ← execute_or_clean lifecycle (lc_start_argv lifecycle);
  if negb (completed_success start) then _ ← cleanup_container lifecycle; mret start else
  attach ← execute_or_clean lifecycle (lc_attach_argv lifecycle);
  if negb (bool_decide (pr_termination attach = Completed)) then _ ← cleanup_container lifecycle; mret attach else
  wait ← execute_cli (lc_wait_argv lifecycle) RunToken;
  if negb (completed_success wait) then
    _ ← cleanup_container lifecycle;
    io_lift (Err (LifecycleFailure "docker wait did not return the container exit code"))
  else
  exit_code ← io_lift (parse_wait_exit_code (cs_bytes (pr_stdout wait)));
  _ ← cleanup_container lifecycle;
  mret (set_exit {| xo_success := exit_code =? 0; xo_code := Some exit_code |} attach).
End Execute.

(** [revalidate_mount_sources] where the surroundings have the tree of the cache
    root; a process that ends within gives nothing. *)
Definition on_tree {T E A} (m : fs E A) : io (World * T) E A := λ '(w, t),
  match m w with
  | (Done x, w') => Some (Ok x, (w', t))
  | (Failed e, w') => Some (Err e, (w', t))
  | (Stopped, _) => None
  end.
Definition execute_check_on_tree `{Backend, ValueParser, CacheParser} {T : Type} `{SupervisorPort (World * T)}
    (host : HostView) (root : ResolvedCacheRoot) (context : RuntimeExecutionContext) :
    NormalizedCheck → DryRunCheck → io (World * T) RuntimeError ProcessResult :=
  execute_check (λ mounts, on_tree (revalidate_mount_sources host root mounts)) context.

(** * Probes *)

(** The preflight, over the probe of a runtime and that of its capabilities. *)
Definition preflight_with {S} (probe_runtime : io S RuntimeError RuntimeProbe)
    (probe_capabilities : RuntimeProbe → io S RuntimeError (option RuntimeCapabilityEvidenceV1))
    (envelope : ExecutionPlanEnvelopeV1) : io S RuntimeError RuntimePreflight :=
  if negb (ep_schema_version (pe_plan envelope) =? "1.3")%string
  then mret {| rp_runtime_probe := None; rp_capability_evidence := None |} else
  runtime_probe ← probe_runtime;
  capability_evidence ← probe_capabilities runtime_probe;
  mret {| rp_runtime_probe := Some runtime_probe; rp_capability_evidence := capability_evidence |}.

Definition doctor_identity (envelope : ExecutionPlanEnvelopeV1) : RunIdentity :=
  {| id_project := ep_project (pe_plan envelope); id_commit := None; id_config_digest := pe_plan_digest envelope;
     id_generation := "doctor-v1" |}.
Definition doctor_guard (envelope : ExecutionPlanEnvelopeV1) : GenerationGuard := guard_new (doctor_identity envelope).

Definition bounded_text (text : string) : bool := negb (is_empty text || (len text >? 128) || has_control text).
Definition bounded_field (value : Value) (key : string) : option string :=
  field ← value_get key value ≫= as_str;
  let field := trim field in
  if bounded_text field then Some field else None.

(** The checks that every probe starts with. *)
Definition finished (r : ProcessResult) : result RuntimeError () :=
  _ ← match pr_termination r with
      | TimedOut => Err RuntimeTimedOut
      | Cancelled => Err RuntimeCancelled
      | Completed => Ok ()
      end;
  ensure (bool_decide (pr_cleanup r = Verified)) RuntimeCleanupUncertain.

Section Probe.
Context `{Backend, ValueParser}.

(** [containment] and [graceful_stop] are those of the platform. *)
Definition interpret_docker_probe (containment : ContainmentMechanism) (graceful_stop : GracefulStopCapability)
    (r : ProcessResult) : result RuntimeError RuntimeProbe :=
  _ ← finished r;
  exit ← ok_or (pr_exit r) (InvalidProbe "runtime probe completed without an exit status");
  _ ← ensure (xo_success exit) Unavailable;
  _ ← ensure (negb (cs_truncated (pr_stdout r) || cs_truncated (pr_stderr r)))
        (InvalidProbe "runtime probe output exceeded the capture limit");
  output ← ok_or (from_utf8 (cs_bytes (pr_stdout r))) (InvalidProbe "runtime probe output is not UTF-8");
  value ← ok_or (parse_value (bytes (trim output))) (InvalidProbe "runtime probe output is not valid JSON");
  _ ← ensure (bool_decide (is_Some (as_object value))) (InvalidProbe "runtime probe output is not a JSON object");
  let operating_system := bounded_field value "OperatingSystem" in
  server_version ← ok_or (bounded_field value "ServerVersion") (InvalidProbe "runtime probe did not report a server version");
  os_type ← ok_or (bounded_field value "OSType") (InvalidProbe "runtime probe did not report an OS type");
  _ ← ensure (eq_ignore_ascii_case os_type "linux")
        (RuntimeUnsupported "the Docker-compatible runtime is not serving Linux containers");
  let private_name := bounded_field value "Name" in
  let is_orbstack := existsb (λ field, contains_str "orbstack" (to_ascii_lowercase field))
                       (option_list operating_system ++ option_list private_name) in
  Ok {| pb_runtime := DockerCompatible; pb_flavor := if is_orbstack then FlavorOrbStack else FlavorDockerCompatible;
        pb_server_version := Some server_version; pb_operating_system := operating_system; pb_os_type := Some os_type;
        pb_memory_limit_supported := value_get "MemoryLimit" value ≫= as_bool;
        pb_swap_limit_supported := value_get "SwapLimit" value ≫= as_bool;
        pb_containment := containment; pb_graceful_stop := graceful_stop |}.

Definition bounded_successful_output (r : ProcessResult) : result RuntimeError (list ascii) :=
  _ ← finished r;
  _ ← ensure (bool_decide (xo_success <$> pr_exit r = Some true)) Unavailable;
  _ ← ensure (negb (cs_truncated (pr_stdout r) || cs_truncated (pr_stderr r)))
        (InvalidProbe "runtime capability output exceeded the capture limit");
  Ok (cs_bytes (pr_stdout r)).

Definition bounded_context (b : list ascii) : result RuntimeError string :=
  text ← ok_or (from_utf8 b) (InvalidProbe "Docker context output is not UTF-8");
  let context := trim text in
  _ ← ensure (bounded_text context) (InvalidProbe "Docker context output is unsafe or out of bounds");
  Ok context.

Definition valid_sha256_digest (value : string) : bool :=
  (len value =? 71) && starts_with "sha256:" value && forallb is_lower_hex (drop 7 (bytes value)).

Definition interpret_runtime_capabilities (probe : RuntimeProbe) (context : string) (image : list ascii)
    (expected_image_reference : string) : result RuntimeError RuntimeCapabilityEvidenceV1 :=
  _ ← ensure (bool_decide (pb_memory_limit_supported probe = Some true)) (UnsupportedCapability "memory_limit");
  _ ← ensure (bool_decide (pb_swap_limit_supported probe = Some true)) (UnsupportedCapability "swap_limit");
  value ← ok_or (parse_value image) (InvalidProbe "image inspect output is not valid JSON");
  image_id ← ok_or (match value_get "Id" value ≫= as_str with
                    | Some id => if valid_sha256_digest id then Some id else None
                    | None => None
                    end) (InvalidProbe "image inspect output omitted a canonical image ID");
  _ ← ensure (match value_get "RepoDigests" value ≫= as_array with
              | Some digests => existsb (λ digest, digest =? expected_image_reference)%string (omap as_str digests)
              | None => false
              end) (InvalidProbe "image inspect output did not bind the configured image reference");
  context_digest ← map_err (λ _, InvalidProbe "cannot digest Docker context") (canonical_digest context);
  Ok {| rt_schema_version := "1.0"; rt_memory_limit_supported := true; rt_swap_limit_supported := true;
        rt_context_digest := context_digest; rt_resolved_image_id := image_id;
        rt_resolved_image_reference := expected_image_reference |}.

(** The commands of the probes. *)
Section Commands.
Context {S : Type} `{SupervisorPort S} (guard : S → GenerationGuard * S) (var_os : string → option string)
  (containment : ContainmentMechanism) (graceful_stop : GracefulStopCapability) (current_dir : list component)
  (envelope : ExecutionPlanEnvelopeV1).

Definition doctor_command (argv : list string) : io S RuntimeError ProcessResult :=
  let identity := doctor_identity envelope in
  g ← call guard;
  _ ← io_lift (map_err RuntimeProcess (ensure_current identity g));
  io_map_err (λ e, match e with Spawn _ => Unavailable | e => RuntimeProcess e end)
    (port_execute {| rq_identity := identity; rq_program := "docker"; rq_argv := argv; rq_current_dir := current_dir;
                     rq_environment := runtime_environment var_os; rq_timeout := DOCTOR_TIMEOUT;
                     rq_max_capture_bytes := DOCTOR_CAPTURE_BYTES |} RunToken).

Definition probe : io S RuntimeError RuntimeProbe :=
  r ← doctor_command ["info"; "--format"; "{{json .}}"];
  io_lift (interpret_docker_probe containment graceful_stop r).

Definition execute_capability_command (argv : list string) : io S RuntimeError (list ascii) :=
  r ← doctor_command argv;
  io_lift (bounded_successful_output r).

Definition capability_probe (runtime_probe : RuntimeProbe) : io S RuntimeError (option RuntimeCapabilityEvidenceV1) :=
  if negb (ep_schema_version (pe_plan envelope) =? "1.3")%string then mret None else
  _ ← io_lift (ensure (bool_decide (pb_runtime runtime_probe = DockerCompatible))
                 (RuntimeUnsupported "schema 1.3 requires a Docker-compatible runtime"));
  context ← execute_capability_command ["context"; "show"];
  image ← execute_capability_command ["image"; "inspect"; "--format"; "{{json .}}"; nr_image (ep_runtime (pe_plan envelope))];
  context ← io_lift (bounded_context context);
  evidence ← io_lift (interpret_runtime_capabilities runtime_probe context image (nr_image (ep_runtime (pe_plan envelope))));
  mret (Some evidence).

Definition preflight_runtime_capabilities : io S RuntimeError RuntimePreflight := preflight_with probe capability_probe envelope.
End Commands.
End Probe.

Definition runtime_for (kind : RuntimeKind) : result RuntimeError () :=
  match kind with
  | DockerCompatible => Ok ()
  | Host => Err (RuntimeUnsupported "host runtime execution is not qualified in receipt v1")
  end.
