(* ===== verification/RuntimeProps.v ===== *)
(** The arguments and the environment that the runtime gives to a container
    ([Runtime.v]), and the commands of the life of one. *)
From S2P Require Import Prelude.
From S2P Require Import RustStr.
From S2P Require Import BTree.
From S2P Require Import Canonical.
From S2P Require Import Config.
From S2P Require Import Receipt.
From S2P Require Import Durable.
From S2P Require Import Resource.
From S2P Require Import Benchmark.
From S2P Require Import CacheRoot.
From S2P Require Import Workspace.
From S2P Require Import Ports.
From S2P Require Import Process.
From S2P Require Import Runtime.
Local Open Scope Z_scope.

(** * Mount arguments *)

(** A reader of the argument of [--mount]: fields between commas, a key before the
    first equals sign. *)
Definition mount_field (key : string) (fields : list string) : option string :=
  head (omap (λ field, match split_once "=" field with
                       | Some (k, v) => if (k =? key)%string then Some v else None
                       | None => None
                       end) fields).
Record read_mount : Type := { rm_type : option string; rm_src : option string; rm_dst : option string; rm_readonly : bool }.
Definition parse_mount_argument (arg : string) : read_mount :=
  let fields := split "," arg in
  {| rm_type := mount_field "type" fields; rm_src := mount_field "src" fields; rm_dst := mount_field "dst" fields;
     rm_readonly := existsb (λ field, field =? "readonly")%string fields |}.

Lemma contains_char_false c s : contains_char c s = false ↔ ¬ In c (bytes s).
Proof. rewrite <-contains_char_spec. by destruct (contains_char c s). Qed.

Lemma split_list_plain c l : ¬ In c l → split_list c l = [l].
Proof. intros Hn. apply (split_join_list c [l]); [done|]. by constructor. Qed.

Lemma validate_host_path_ok p : validate_host_path p = Ok () → ∃ text, to_str p = Some text ∧
  contains_char "," text = false ∧ contains_char "=" text = false.
Proof.
  unfold validate_host_path. intros Hv. res_inv. eexists. split; [done|].
  rename select (negb _ = true) into Hn. rewrite negb_true_iff, !orb_false_iff in Hn. tauto.
Qed.
Lemma validate_target_ok t : validate_container_mount_target t = Ok () → contains_char "," t = false ∧ contains_char "=" t = false.
Proof.
  unfold validate_container_mount_target. intros Hv. apply bind_ok in Hv as ([] & Hn & _). apply ensure_ok in Hn.
  rewrite negb_true_iff, !orb_false_iff in Hn. tauto.
Qed.

Lemma mount_argument_fields mount arg : docker_mount_argument mount = Ok arg →
  ∃ source, to_str (mb_source mount) = Some source ∧
    split "," arg = ["type=bind"; "src=" +:+ source; "dst=" +:+ mb_target mount] ++
                    (if bool_decide (mb_access mount = ReadOnly) then ["readonly"] else []).
Proof.
  unfold docker_mount_argument. intros Hm. apply bind_ok in Hm as ([] & Hh & Hm). apply bind_ok in Hm as ([] & Ht & Hm).
  apply map_err_ok in Hh, Ht. apply bind_ok in Hm as (text & Htext%ok_or_ok & [= <-]).
  destruct (validate_host_path_ok _ Hh) as (? & E & Hc & _). rewrite Htext in E. injection E as <-.
  destruct (validate_target_ok _ Ht) as [Hc' _]. exists text. split; [done|].
  rewrite contains_char_false in Hc, Hc'. unfold split.
  assert (Hsrc : ¬ In ","%char (bytes "src=" ++ bytes text)) by (rewrite in_app_iff; intros [Hin|]; [cbn in Hin; naive_solver|done]).
  assert (Hdst : ¬ In ","%char (bytes "dst=" ++ bytes (mb_target mount)))
    by (rewrite in_app_iff; intros [Hin|]; [cbn in Hin; naive_solver|done]).
  assert (Htype : ¬ In ","%char (bytes "type=bind")) by (cbn; naive_solver).
  assert (Hro : ¬ In ","%char (bytes "readonly")) by (cbn; naive_solver).
  destruct (bool_decide _).
  - transitivity (str <$> [bytes "type=bind"; bytes "src=" ++ bytes text; bytes "dst=" ++ bytes (mb_target mount); bytes "readonly"]).
    + f_equal. rewrite <-(split_join_list ","); [|done|by repeat constructor]. f_equal. rewrite !bytes_append. cbn.
      done.
    + cbn [fmap list_fmap]. by rewrite !str_app, !str_bytes.
  - transitivity (str <$> [bytes "type=bind"; bytes "src=" ++ bytes text; bytes "dst=" ++ bytes (mb_target mount)]).
    + f_equal. rewrite <-(split_join_list ","); [|done|by repeat constructor]. f_equal. rewrite !bytes_append. cbn.
      by rewrite app_nil_r.
    + cbn [fmap list_fmap]. by rewrite !str_app, !str_bytes.
Qed.

Lemma split_once_eq key value : contains_char "=" key = false → split_once "=" (key +:+ "=" +:+ value) = Some (key, value).
Proof.
  rewrite contains_char_false. intros Hn. unfold split_once. rewrite !bytes_append. change (bytes "=") with ["="%char]. cbn [app].
  assert (Hl : ∀ l m, ¬ In "="%char l → split_once_list "=" (l ++ "="%char :: m) = Some (l, m)).
  { induction l as [|a l IH]; intros m Hin; cbn; [done|]. destruct (Ascii.eqb_spec a "=") as [->|]; [by destruct Hin; left|].
    rewrite IH; [done|]. intros ?. apply Hin. by right. }
  rewrite Hl by done. cbn. by rewrite !str_bytes.
Qed.

(** The argument of a mount can be read back. *)
Lemma mount_argument_read mount arg : docker_mount_argument mount = Ok arg →
  ∃ source, to_str (mb_source mount) = Some source ∧
    parse_mount_argument arg = {| rm_type := Some "bind"; rm_src := Some source; rm_dst := Some (mb_target mount);
                                  rm_readonly := bool_decide (mb_access mount = ReadOnly) |}.
Proof.
  intros (source & Hs & Hf)%mount_argument_fields. exists source. split; [done|]. unfold parse_mount_argument. rewrite Hf.
  assert (E1 : split_once "=" ("src=" +:+ source) = Some ("src", source)) by exact (split_once_eq "src" source eq_refl).
  assert (E2 : split_once "=" ("dst=" +:+ mb_target mount) = Some ("dst", mb_target mount)) by exact (split_once_eq "dst" _ eq_refl).
  assert (E3 : ("src=" +:+ source =? "readonly")%string = false) by done.
  assert (E4 : ("dst=" +:+ mb_target mount =? "readonly")%string = false) by done.
  unfold mount_field. destruct (bool_decide _); cbn [app omap list_omap existsb]; rewrite E1, E2, E3, E4; done.
Qed.

(** * The argument vector *)

(** The options of the container of a check, before the image. *)
Definition container_options (runtime : NormalizedRuntime) (names mount_arguments : list string) (check : NormalizedCheck) : list string :=
  drop 2 (confinement runtime) ++ concat ((λ name, ["--env"; name]) <$> names) ++ ["--env"; "TMPDIR=/tmp"] ++
  concat ((λ arg, ["--mount"; arg]) <$> mount_arguments) ++ ["--workdir"; container_working_directory (nk_working_directory check)].

Lemma mounts_folded mounts argv r :
  try_fold (λ argv mount, arg ← docker_mount_argument mount; Ok (argv ++ ["--mount"; arg])) argv mounts = Ok r →
  ∃ args, Forall2 (λ m a, docker_mount_argument m = Ok a) mounts args ∧ r = argv ++ concat ((λ arg, ["--mount"; arg]) <$> args).
Proof.
  revert argv. induction mounts as [|m mounts IH]; intros argv Hf; cbn in Hf.
  - injection Hf as <-. exists []. cbn. by rewrite app_nil_r.
  - apply bind_ok in Hf as (argv' & Hm & Hf). apply bind_ok in Hm as (arg & Harg & [= <-]).
    destruct (IH _ Hf) as (args & Hargs & ->). exists (arg :: args). split; [by constructor|]. by rewrite <-app_assoc.
Qed.

Lemma dry_run_argv runtime names workspace check rendered :
  docker_dry_run_check runtime names workspace check = Ok rendered →
  ∃ args, Forall2 (λ m a, docker_mount_argument m = Ok a) (wp_mounts workspace) args ∧
    dc_program rendered = "docker" ∧ dc_id rendered = nk_id check ∧ dc_mounts rendered = wp_mounts workspace ∧
    dc_argv rendered = ["run"; "--rm"] ++ container_options runtime names args check ++ nr_image runtime :: nk_argv check.
Proof.
  unfold docker_dry_run_check. intros Hd. apply bind_ok in Hd as (argv & (args & Hargs & ->)%mounts_folded & Hd).
  apply bind_ok in Hd as ([] & _ & <-%ok_inj). exists args. split_and!; try done. cbn [dc_argv]. unfold container_options.
  assert (Hc : confinement runtime = ["run"; "--rm"] ++ drop 2 (confinement runtime)) by done.
  revert Hc. generalize (confinement runtime) as c. intros c Hc. rewrite Hc at 1. by rewrite <-!app_assoc.
Qed.

(** What [DockerLifecyclePlan::build] keeps of the arguments. *)
Definition kept (argument : string) : bool := negb (argument =? "--rm")%string.

Lemma filter_kept l : Forall (λ s, kept s = true) l → List.filter kept l = l.
Proof. induction 1 as [|s l Hs _ IH]; cbn; [done|]. by rewrite Hs, IH. Qed.

Lemma number_kept n suffix : 0 ≤ n < 10 ^ 40 → kept (decimal_text n +:+ suffix) = true.
Proof.
  intros Hn. destruct (decimal_text_digits n Hn) as (Hne & Hd & _). unfold kept. apply negb_true_iff, String.eqb_neq. intros E.
  apply (f_equal bytes) in E. rewrite bytes_append in E. destruct (bytes (decimal_text n)) as [|a l]; [done|].
  cbn in E. injection E as -> _. done.
Qed.
Lemma number_alone_kept n : 0 ≤ n < 10 ^ 40 → kept (decimal_text n) = true.
Proof.
  intros Hn. rewrite <-(str_bytes (decimal_text n)), <-(app_nil_r (bytes _)), str_app, str_bytes. by apply (number_kept n "").
Qed.

Definition sizes_fine (runtime : NormalizedRuntime) : Prop :=
  0 ≤ nr_cpu_count runtime < 10 ^ 40 ∧ 0 ≤ nr_memory_mib runtime < 10 ^ 40 ∧ 0 ≤ nr_pids_limit runtime < 10 ^ 40.

Lemma options_kept runtime names args check mounts :
  sizes_fine runtime → "--rm" ∉ names → Forall2 (λ m a, docker_mount_argument m = Ok a) mounts args →
  Forall (λ s, kept s = true) (container_options runtime names args check).
Proof.
  intros (H1 & H2 & H3) Hn Ha. unfold container_options.
  apply Forall_app. split; [|apply Forall_app; split; [|apply Forall_app; split; [|apply Forall_app; split]]].
  - unfold confinement. destruct (_ && _), (nr_network runtime); cbn [drop app];
      repeat (constructor; [first [done|by apply number_kept|by apply number_alone_kept]|]); constructor.
  - apply Forall_concat, Forall_fmap, Forall_forall. intros name Hin. repeat constructor. unfold kept. cbn.
    apply negb_true_iff, String.eqb_neq. by intros ->.
  - by repeat constructor.
  - apply Forall_concat, Forall_fmap. eapply Forall2_Forall_r; [exact Ha|]. apply Forall_true. intros m a Hm. cbn. repeat constructor.
    unfold docker_mount_argument in Hm. apply bind_ok in Hm as (_ & _ & Hm). apply bind_ok in Hm as (_ & _ & Hm).
    apply bind_ok in Hm as (text & _ & [= <-]). done.
  - repeat constructor. unfold container_working_directory. by destruct (_ =? _)%string.
Qed.

(** * The environment *)

Section Environment.
Context `{Backend} (var_os : string → option string).

Lemma map_get_inserted (l : list (string * string)) (m : btmap string string) k :
  map_get k (foldl (λ m kv, map_insert kv.1 kv.2 m) m l) =
    match map_get k (map_from_list l) with Some v => Some v | None => map_get k m end.
Proof.
  induction l as [|[k' v] l IH] using rev_ind; [done|]. rewrite foldl_app, map_from_list_snoc. cbn.
  rewrite !map_get_insert, IH. by destruct (decide _).
Qed.

Lemma runtime_environment_get name :
  map_get name (runtime_environment var_os) = if bool_decide (name ∈ ALLOWED) then var_os name else None.
Proof.
  unfold runtime_environment. assert (Hl : ∀ l, map_get name (map_from_list (omap (λ n, (λ v, (n, v)) <$> var_os n) l)) =
    if bool_decide (name ∈ l) then var_os name else None); [|by apply Hl].
  induction l as [|n l IH] using rev_ind; [done|]. rewrite omap_app.
  assert (Hmem : bool_decide (name ∈ l ++ [n]) = bool_decide (name ∈ l) || bool_decide (name = n)).
  { apply eq_true_iff_eq. rewrite orb_true_iff, !bool_decide_eq_true, elem_of_app, list_elem_of_singleton. done. }
  rewrite Hmem. cbn [omap list_omap]. destruct (var_os n) as [v|] eqn:Ev; cbn [fmap option_fmap option_map].
  - rewrite map_from_list_snoc, map_get_insert, IH. destruct (decide (name = n)) as [->|Hne].
    + by rewrite (bool_decide_eq_true_2 (n = n)), orb_true_r by done.
    + by rewrite (bool_decide_eq_false_2 (name = n)), orb_false_r by done.
  - rewrite app_nil_r, IH. destruct (decide (name = n)) as [->|Hne].
    + rewrite Ev. by destruct (bool_decide (n ∈ l)), (_ || _).
    + by rewrite (bool_decide_eq_false_2 (name = n)), orb_false_r by done.
Qed.

Lemma inherited_get (l : list string) m name :
  map_get name (foldl (λ env n, match var_os n with Some v => map_insert n v env | None => env end) m l) =
    if bool_decide (name ∈ l) then match var_os name with Some v => Some v | None => map_get name m end else map_get name m.
Proof.
  induction l as [|n l IH] using rev_ind; [done|]. rewrite foldl_app. cbn [foldl].
  destruct (decide (name = n)) as [->|Hne].
  - rewrite (bool_decide_eq_true_2 (n ∈ l ++ [n])) by set_solver. destruct (var_os n) as [v|] eqn:Ev.
    + rewrite map_get_insert. by rewrite decide_True.
    + rewrite IH. by destruct (bool_decide _).
  - rewrite (bool_decide_ext (name ∈ l ++ [n]) (name ∈ l)) by set_solver.
    destruct (var_os n); [|done]. rewrite map_get_insert. by rewrite decide_False.
Qed.

End Environment.

Section Fixed.
Context `{Backend}.

Lemma fixed_bindings envelope fixed values r :
  try_fold (fixed_binding envelope) values fixed = Ok r →
  (∀ name, map_get name r = if bool_decide (name ∈ nfe_name <$> fixed) then map_get name (pe_fixed_environment envelope) else map_get name values) ∧
  (map_sorted values → map_sorted r) ∧
  Forall (λ b, ∃ v, map_get (nfe_name b) (pe_fixed_environment envelope) = Some v ∧ canonical_digest v = Ok (nfe_value_digest b)) fixed.
Proof.
  revert values. induction fixed as [|b fixed IH]; intros values Hf; cbn in Hf; [by injection Hf as <-|].
  apply bind_ok in Hf as (values' & Hb & Hf). destruct (IH _ Hf) as (Hget & Hs & Hall). unfold fixed_binding in Hb.
  apply bind_ok in Hb as (v & Hv%ok_or_ok & Hb). apply bind_ok in Hb as (actual & Hd%map_err_ok & Hb).
  apply bind_ok in Hb as ([] & He%ensure_ok & [= <-]). apply String.eqb_eq in He as ->. split_and!.
  - intros name. rewrite Hget, fmap_cons. destruct (decide (name ∈ nfe_name <$> fixed)) as [Hin|Hin].
    + by rewrite !bool_decide_eq_true_2 by set_solver.
    + rewrite (bool_decide_eq_false_2 _ Hin), map_get_insert. destruct (decide (name = nfe_name b)) as [->|Hne].
      * by rewrite bool_decide_eq_true_2 by set_solver.
      * by rewrite bool_decide_eq_false_2 by set_solver.
  - intros Hv'. by apply Hs, map_insert_sorted.
  - constructor; [by exists v|done].
Qed.

Lemma fixed_environment_exact envelope values :
  validate_fixed_environment envelope = Ok values →
  (∀ name, map_get name values = map_get name (pe_fixed_environment envelope)) ∧ map_sorted values ∧
  Forall (λ b, ∃ v, map_get (nfe_name b) (pe_fixed_environment envelope) = Some v ∧ canonical_digest v = Ok (nfe_value_digest b))
    (ne_fixed (ep_environment (pe_plan envelope))).
Proof.
  unfold validate_fixed_environment. intros Hv. apply bind_ok in Hv as ([] & Hdecl & Hf).
  destruct (fixed_bindings _ _ _ _ Hf) as (Hget & Hs & Hall). split_and!; [|by apply Hs; constructor|done].
  intros name. rewrite Hget. destruct (decide (name ∈ nfe_name <$> ne_fixed (ep_environment (pe_plan envelope)))) as [Hin|Hin].
  - by rewrite bool_decide_eq_true_2.
  - rewrite bool_decide_eq_false_2 by done. symmetry. apply map_get_none. intros Hk. apply Hin.
    apply try_each_ok in Hdecl. rewrite Forall_forall in Hdecl. specialize (Hdecl name Hk). cbn in Hdecl.
    apply ensure_ok, bool_decide_eq_true in Hdecl as [v Hv]. apply map_get_in in Hv.
    assert (Hkey : name ∈ map_keys (map_from_list ((λ b, (nfe_name b, nfe_value_digest b)) <$> ne_fixed (ep_environment (pe_plan envelope)))))
      by (apply list_elem_of_fmap; by exists (name, v)).
    apply elem_of_map_keys_from_list, list_elem_of_fmap in Hkey as ([k w] & -> & (b & [= -> ->] & Hb)%list_elem_of_fmap).
    apply list_elem_of_fmap. by exists b.
Qed.
End Fixed.

(** * The commands of a container's life *)

Section Commands.
Context `{Backend, ValueParser} {S : Type} `{SupervisorPort S} (revalidate : list MountBinding → io S WorkspaceError ())
  (context : RuntimeExecutionContext).

Record command : Type := { cmd_argv : list string; cmd_token : token_use; cmd_result : result ProcessError ProcessResult }.

(** The supervisor was given these commands, one after the other. *)
Inductive commands : S → list command → S → Prop :=
  | commands_nil s : commands s [] s
  | commands_cons s s1 s2 argv token r l :
    port_execute (cli_request context argv) token s = Some (r, s1) → commands s1 l s2 →
    commands s ({| cmd_argv := argv; cmd_token := token; cmd_result := r |} :: l) s2.

Lemma commands_app s l s1 m s2 : commands s l s1 → commands s1 m s2 → commands s (l ++ m) s2.
Proof. induction 1; intros Hm; [done|]. econstructor; eauto. Qed.

(** A command that was run to a result. *)
Definition ran (argv : list string) (token : token_use) (r : ProcessResult) : command :=
  {| cmd_argv := argv; cmd_token := token; cmd_result := Ok r |}.

(** The removal of a container, proven: its owner was looked up first, a container
    that may run was stopped or killed, and in the end it is not found. *)
Inductive removed (lc : DockerLifecyclePlan) : list command → Prop :=
  | removed_intro inspect state stopping remove final :
    completed_success inspect = true → parse_container_state (cs_bytes (pr_stdout inspect)) lc = Ok state →
    (state ∈ ["created"; "running"; "restarting"; "paused"] → stopped lc stopping) →
    (state ∉ ["created"; "running"; "restarting"; "paused"] → stopping = []) →
    completed_success remove = true → removal_proven final = true →
    removed lc ([ran (lc_inspect_argv lc) CleanupToken inspect] ++ stopping ++
                [ran (lc_remove_argv lc) CleanupToken remove; ran (lc_inspect_argv lc) CleanupToken final])
with stopped (lc : DockerLifecyclePlan) : list command → Prop :=
  | stopped_stop stop : completed_success stop = true → stopped lc [ran (lc_stop_argv lc) CleanupToken stop]
  | stopped_kill stop kill : completed_success kill = true →
    stopped lc [{| cmd_argv := lc_stop_argv lc; cmd_token := CleanupToken; cmd_result := stop |};
                ran (lc_kill_argv lc) CleanupToken kill].

(** The contract of the life of a container, and the result it gives. *)
Inductive life (lc : DockerLifecyclePlan) : list command → ProcessResult → Prop :=
  | life_not_created create :
    completed_success create = false → life lc [ran (lc_create_argv lc) RunToken create] create
  | life_not_started create start cleanup :
    completed_success create = true → completed_success start = false → removed lc cleanup →
    life lc ([ran (lc_create_argv lc) RunToken create; ran (lc_start_argv lc) RunToken start] ++ cleanup) start
  | life_interrupted create start attach cleanup :
    completed_success create = true → completed_success start = true → pr_termination attach ≠ Completed → removed lc cleanup →
    life lc ([ran (lc_create_argv lc) RunToken create; ran (lc_start_argv lc) RunToken start;
              ran (lc_attach_argv lc) RunToken attach] ++ cleanup) attach
  | life_finished create start attach wait code cleanup :
    completed_success create = true → completed_success start = true → pr_termination attach = Completed →
    completed_success wait = true → parse_wait_exit_code (cs_bytes (pr_stdout wait)) = Ok code → removed lc cleanup →
    life lc ([ran (lc_create_argv lc) RunToken create; ran (lc_start_argv lc) RunToken start;
              ran (lc_attach_argv lc) RunToken attach; ran (lc_wait_argv lc) RunToken wait] ++ cleanup)
      (set_exit {| xo_success := code =? 0; xo_code := Some code |} attach).

Lemma execute_cli_run argv token s r s' :
  execute_cli context argv token s = Some (Ok r, s') → commands s [ran argv token r] s'.
Proof.
  unfold execute_cli, io_map_err, attempt, mbind, io_bind, io_lift. destruct (port_execute _ _ s) as [[[x|e] s1]|] eqn:E; [| |done].
  - intros [= -> ->]. econstructor; [exact E|constructor].
  - done.
Qed.
Lemma execute_cleanup_run argv s r s' :
  execute_cleanup_cli context argv s = Some (Ok r, s') → commands s [ran argv CleanupToken r] s'.
Proof.
  unfold execute_cleanup_cli. unfold io_map_err at 1. unfold attempt, mbind, io_bind, io_lift.
  destruct (execute_cli context argv CleanupToken s) as [[[x|e] s1]|] eqn:E; [| |done].
  - intros [= -> ->]. by apply execute_cli_run.
  - done.
Qed.

Lemma cleanup_run lc s s' :
  cleanup_container context lc s = Some (Ok (), s') → ∃ l, commands s l s' ∧ removed lc l.
Proof.
  unfold cleanup_container. intros Hc. apply bind_run in Hc as (inspect & s1 & Hi%execute_cleanup_run & Hc).
  apply bind_run in Hc as ([] & s2 & Hlift%lift_run & Hc). destruct Hlift as [Hok%ensure_ok ->].
  apply bind_run in Hc as (state & s2 & Hlift%lift_run & Hc). destruct Hlift as [Hstate ->].
  apply bind_run in Hc as ([] & s3 & Hstop & Hc). apply bind_run in Hc as (remove & s4 & Hr%execute_cleanup_run & Hc).
  apply bind_run in Hc as ([] & s5 & Hlift%lift_run & Hc). destruct Hlift as [Hrm%ensure_ok ->].
  apply bind_run in Hc as (final & s5 & Hf%execute_cleanup_run & Hc). apply lift_run in Hc as [Hp%ensure_ok ->].
  assert (Hst : ∃ l, commands s1 l s3 ∧ (state ∈ ["created"; "running"; "restarting"; "paused"] → stopped lc l) ∧
                     (state ∉ ["created"; "running"; "restarting"; "paused"] → l = [])).
  { case_bool_decide; [|apply ret_run in Hstop as [_ ->]; exists []; split; [constructor|done]].
    unfold stop_container in Hstop. apply bind_run in Hstop as (stop & s6 & Hs & Hstop).
    assert (Hcmd : commands s1 [{| cmd_argv := lc_stop_argv lc; cmd_token := CleanupToken; cmd_result :=
       match port_execute (cli_request context (lc_stop_argv lc)) CleanupToken s1 with Some (r, _) => r | None => Err StaleGeneration end |}] s6 ∧
       (∀ r, stop = Ok r → port_execute (cli_request context (lc_stop_argv lc)) CleanupToken s1 = Some (Ok r, s6))).
    { unfold execute_cleanup_cli, execute_cli, io_map_err, attempt, mbind, io_bind, io_lift in Hs.
      destruct (port_execute _ _ s1) as [[r0 s7]|] eqn:E; [|done]. destruct r0; cbn in Hs; injection Hs as <- <-;
        (split; [econstructor; [rewrite E; reflexivity|constructor]|]); [by intros ? [= ->]|done]. }
    destruct Hcmd as [Hcmd Hok']. destruct stop as [stop|e]; [destruct (completed_success stop) eqn:Es|].
    - apply ret_run in Hstop as [_ ->]. specialize (Hok' _ eq_refl). rewrite Hok' in Hcmd. eexists. split; [exact Hcmd|]. split; [|done].
      intros _. by apply stopped_stop.
    - apply bind_run in Hstop as (kill & s7 & Hk%execute_cleanup_run & Hstop). apply lift_run in Hstop as [Hkok%ensure_ok ->].
      eexists. split; [exact (commands_app _ _ _ _ _ Hcmd Hk)|]. split; [|done]. intros _. by apply stopped_kill.
    - apply bind_run in Hstop as (kill & s7 & Hk%execute_cleanup_run & Hstop). apply lift_run in Hstop as [Hkok%ensure_ok ->].
      eexists. split; [exact (commands_app _ _ _ _ _ Hcmd Hk)|]. split; [|done]. intros _. by apply stopped_kill. }
  destruct Hst as (l & Hl & Hl1 & Hl2). exists ([ran (lc_inspect_argv lc) CleanupToken inspect] ++ l ++
    [ran (lc_remove_argv lc) CleanupToken remove; ran (lc_inspect_argv lc) CleanupToken final]).
  split; [|by eapply removed_intro]. eapply commands_app; [exact Hi|]. eapply commands_app; [exact Hl|].
  exact (commands_app _ [_] _ [_] _ Hr Hf).
Qed.

Lemma or_clean_run lc argv s r s' :
  execute_or_clean context lc argv s = Some (Ok r, s') → commands s [ran argv RunToken r] s'.
Proof.
  unfold execute_or_clean. intros Hr. apply bind_run in Hr as (x & s1 & Hx & Hr). destruct x as [x|e].
  - apply ret_run in Hr as [-> ->]. apply execute_cli_run. unfold attempt in Hx.
    destruct (execute_cli context argv RunToken s) as [[]|]; [|done]. by injection Hx as -> ->.
  - apply bind_run in Hr as (? & ? & _ & Hr). by apply lift_run in Hr as [? _].
Qed.

(** Every result of a check is that of a life of its container. *)
Lemma check_run check rendered s res s' :
  execute_check revalidate context check rendered s = Some (Ok res, s') →
  ∃ s0 lc l, revalidate (dc_mounts rendered) s = Some (Ok (), s0) ∧
    lifecycle_build (rx_run_id context) check rendered = Ok lc ∧ commands s0 l s' ∧ life lc l res.
Proof.
  unfold execute_check. intros Hx. apply bind_run in Hx as ([] & s0 & Hv & Hx).
  assert (Hv' : revalidate (dc_mounts rendered) s = Some (Ok (), s0)).
  { unfold io_map_err, attempt, mbind, io_bind, io_lift in Hv. destruct (revalidate _ s) as [[[[]|]]|]; cbn in Hv; try done.
    by injection Hv as ->. }
  apply bind_run in Hx as (lc & s1 & Hlift%lift_run & Hx). destruct Hlift as [Hlc ->].
  apply bind_run in Hx as (create & s1 & Hcreate%execute_cli_run & Hx).
  exists s0, lc. destruct (completed_success create) eqn:Ec; cbn [negb] in Hx.
  2:{ apply ret_run in Hx as [-> ->]. exists [ran (lc_create_argv lc) RunToken res]. split_and!; try done. by apply life_not_created. }
  destruct (valid_container_id _); cbn [negb] in Hx.
  2:{ apply bind_run in Hx as (? & ? & _ & Hx). by apply lift_run in Hx as [? _]. }
  apply bind_run in Hx as (start & s2 & Hstart%or_clean_run & Hx). pose proof (commands_app _ _ _ _ _ Hcreate Hstart) as H12.
  destruct (completed_success start) eqn:Es; cbn [negb] in Hx.
  2:{ apply bind_run in Hx as ([] & s3 & (l & Hl & Hrm)%cleanup_run & Hx). apply ret_run in Hx as [-> ->]. eexists.
      split_and!; [done..|exact (commands_app _ _ _ _ _ H12 Hl)|]. by apply life_not_started. }
  apply bind_run in Hx as (attach & s3 & Hattach%or_clean_run & Hx). pose proof (commands_app _ _ _ _ _ H12 Hattach) as H123.
  case_bool_decide as Ha; cbn [negb] in Hx.
  2:{ apply bind_run in Hx as ([] & s4 & (l & Hl & Hrm)%cleanup_run & Hx). apply ret_run in Hx as [-> ->]. eexists.
      split_and!; [done..|exact (commands_app _ _ _ _ _ H123 Hl)|]. by apply life_interrupted. }
  apply bind_run in Hx as (wait & s4 & Hwait%execute_cli_run & Hx). pose proof (commands_app _ _ _ _ _ H123 Hwait) as H1234.
  destruct (completed_success wait) eqn:Ew; cbn [negb] in Hx.
  2:{ apply bind_run in Hx as (? & ? & _ & Hx). by apply lift_run in Hx as [? _]. }
  apply bind_run in Hx as (code & s5 & Hlift%lift_run & Hx). destruct Hlift as [Hcode ->].
  apply bind_run in Hx as ([] & s6 & (l & Hl & Hrm)%cleanup_run & Hx). apply ret_run in Hx as [<- ->]. eexists.
  split_and!; [done..|exact (commands_app _ _ _ _ _ H1234 Hl)|]. by eapply life_finished.
Qed.
End Commands.
