(* ===== verification/RuntimeClaims.v ===== *)
(** The theorems on the container runtime ([Runtime.v]). *)
From S2P Require Import Prelude.
From S2P Require Import RustStr.
From S2P Require Import BTree.
From S2P Require Import Canonical.
From S2P Require Import Config.
From S2P Require Import Receipt.
From S2P Require Import PlanClaims.
From S2P Require Import ReceiptClaims.
From S2P Require Import Durable.
From S2P Require Import Resource.
From S2P Require Import Benchmark.
From S2P Require Import FileSystem.
From S2P Require Import CacheRoot.
From S2P Require Import Cache.
From S2P Require Import CacheClaims.
From S2P Require Import Workspace.
From S2P Require Import Ports.
From S2P Require Import Process.
From S2P Require Import Runtime.
From S2P Require Import RuntimeProps.
Local Open Scope Z_scope.

(** C28.  The argument of a mount says exactly what the mount is: read back field by
    field it gives the type [bind], the source and the target, and is read-only
    exactly when the mount is; no path that is accepted can smuggle a field in. *)
Theorem mount_argument_exact (mount : MountBinding) (arg : string) :
  docker_mount_argument mount = Ok arg →
  ∃ source, to_str (mb_source mount) = Some source ∧
    parse_mount_argument arg = {| rm_type := Some "bind"; rm_src := Some source; rm_dst := Some (mb_target mount);
                                  rm_readonly := bool_decide (mb_access mount = ReadOnly) |}.
Proof. apply mount_argument_read. Qed.

(** The command of a container: for a rendered check, the arguments of the
    creation are the name and the three labels, the options of the plan (with the
    confinement, the names of the environment and the mounts, each with its
    argument), and the image with the arguments of the check, out of which every
    [--rm] is dropped.  The command that runs is that of the plan exactly when the
    check has no argument [--rm]. *)
Theorem created_command `{Backend} (runtime : NormalizedRuntime) (names : list string) (workspace : WorkspacePlanV1)
    (check : NormalizedCheck) (rendered : DryRunCheck) (run_id : string) (lc : DockerLifecyclePlan) :
  sizes_fine runtime → "--rm" ∉ names → nr_image runtime ≠ "--rm" →
  docker_dry_run_check runtime names workspace check = Ok rendered →
  lifecycle_build run_id check rendered = Ok lc →
  ∃ args,
    Forall2 (λ m a, docker_mount_argument m = Ok a) (wp_mounts workspace) args ∧
    lc_create_argv lc =
      ["create"; "--name"; lc_container_name lc; "--label"; lc_owner_label lc; "--label"; lc_run_label lc; "--label"; lc_check_label lc] ++
      container_options runtime names args check ++ nr_image runtime :: List.filter kept (nk_argv check) ∧
    (List.filter kept (nk_argv check) = nk_argv check ↔ "--rm" ∉ nk_argv check).
Proof.
  intros Hs Hn Hi Hd Hl. destruct (dry_run_argv _ _ _ _ _ Hd) as (args & Hargs & _ & _ & _ & Hargv). exists args. split; [done|].
  unfold lifecycle_build in Hl. apply bind_ok in Hl as ([] & _ & Hl). apply bind_ok in Hl as ([] & _ & <-%ok_inj).
  cbn [lc_create_argv lc_container_name lc_owner_label lc_run_label lc_check_label]. split.
  - rewrite Hargv. f_equal. cbn [app drop List.filter]. rewrite List.filter_app. fold kept.
    rewrite (filter_kept (container_options _ _ _ _)) by (by eapply options_kept). f_equal. cbn [List.filter].
    by replace (kept (nr_image runtime)) with true by (symmetry; by apply negb_true_iff, String.eqb_neq).
  - split.
    + intros E Hin. rewrite <-E in Hin. apply list_elem_of_In, filter_In in Hin as [_ Hk]. done.
    + intros Hnin. apply filter_kept, Forall_forall. intros s Hin. apply negb_true_iff, String.eqb_neq. by intros ->.
Qed.

(** The environment that commands get: a name is bound to its target in the
    container where the plan says so, else to its fixed value, whose digest is the one
    of the plan, else, when the plan inherits it or the client needs it, to its value
    in the environment of the process; no other name is bound. *)
Theorem execution_environment_exact `{Backend} (var_os : string → option string) (envelope : ExecutionPlanEnvelopeV1)
    (environment : btmap string string) :
  let declared := ep_environment (pe_plan envelope) in
  docker_execution_environment var_os envelope = Ok environment →
  (∀ name, map_get name environment =
     match map_get name (map_from_list ((λ b, (nri_name b, nri_container_target b)) <$> ne_runtime_internal declared)) with
     | Some target => Some target
     | None =>
       match map_get name (pe_fixed_environment envelope) with
       | Some value => Some value
       | None => if bool_decide (name ∈ ne_inherit declared) || bool_decide (name ∈ ALLOWED) then var_os name else None
       end
     end) ∧
  Forall (λ b, ∃ value, map_get (nfe_name b) (pe_fixed_environment envelope) = Some value ∧
                        canonical_digest value = Ok (nfe_value_digest b)) (ne_fixed declared).
Proof.
  intros declared. unfold docker_execution_environment. intros He. apply bind_ok in He as (fixed & Hf & <-%ok_inj).
  destruct (fixed_environment_exact _ _ Hf) as (Hget & Hsorted & Hall). split; [|exact Hall]. intros name. fold declared.
  assert (Hint : ∀ l m, foldl (λ env b, map_insert (nri_name b) (nri_container_target b) env) m l =
     foldl (λ m kv, map_insert kv.1 kv.2 m) m ((λ b, (nri_name b, nri_container_target b)) <$> l))
    by (induction l; intros; cbn; auto).
  rewrite Hint, map_get_inserted. destruct (map_get name (map_from_list _)); [done|].
  rewrite map_get_inserted, map_from_list_of_sorted, Hget by done. destruct (map_get name (pe_fixed_environment envelope)); [done|].
  rewrite inherited_get, runtime_environment_get. destruct (bool_decide (name ∈ ne_inherit declared)), (bool_decide (name ∈ ALLOWED));
    cbn; by destruct (var_os name).
Qed.

(** * The life of a container *)

Section Life.
Context `{Backend, ValueParser} {S : Type} `{SupervisorPort S} (revalidate : list MountBinding → io S WorkspaceError ())
  (context : RuntimeExecutionContext).

(** C21.  Every result of a check is that of one life of its container, as the
    contract has it: after the mounts were revalidated, the commands are a creation
    that failed and nothing else, or a creation followed by the start, the
    attachment and the wait as far as they succeed, and by a removal that is proven;
    the exit of a finished check is the code that [docker wait] gave. *)
Theorem check_keeps_contract (check : NormalizedCheck) (rendered : DryRunCheck) (s : S) (res : ProcessResult) (s' : S) :
  execute_check revalidate context check rendered s = Some (Ok res, s') →
  ∃ s0 lc l, revalidate (dc_mounts rendered) s = Some (Ok (), s0) ∧
    lifecycle_build (rx_run_id context) check rendered = Ok lc ∧ commands context s0 l s' ∧ life lc l res.
Proof. apply check_run. Qed.

(** What is documented of the daemon: only a creation brings a container, and a
    removal that succeeds takes it away. *)
Class DaemonLaws : Type := {
  present : S → string → Prop;
  only_create_law request token s r s' name :
    port_execute request token s = Some (r, s') → head (rq_argv request) ≠ Some "create" → ¬ present s name → ¬ present s' name;
  remove_law request token s r s' name :
    port_execute request token s = Some (Ok r, s') → rq_argv request = ["rm"; "--force"; name] → completed_success r = true →
    ¬ present s' name;
}.

Lemma commands_split l m s s' : commands context s (l ++ m) s' → ∃ s1, commands context s l s1 ∧ commands context s1 m s'.
Proof.
  revert s. induction l as [|c l IH]; intros s Hc; [exists s; by split; [constructor|]|].
  cbn in Hc. inversion Hc as [|? s1 ? argv token r ? Hp Hrest]; subst. apply IH in Hrest as (s2 & L1 & L2).
  exists s2. split; [|done]. by econstructor.
Qed.

Lemma lifecycle_argv run_id check rendered lc : lifecycle_build run_id check rendered = Ok lc →
  lc_remove_argv lc = ["rm"; "--force"; lc_container_name lc] ∧ head (lc_inspect_argv lc) = Some "inspect".
Proof.
  unfold lifecycle_build. intros Hl. apply bind_ok in Hl as ([] & _ & Hl). by apply bind_ok in Hl as ([] & _ & <-%ok_inj).
Qed.

Lemma removed_gone `{!DaemonLaws} check rendered lc l s s' :
  lifecycle_build (rx_run_id context) check rendered = Ok lc → removed lc l → commands context s l s' →
  ¬ present s' (lc_container_name lc).
Proof.
  intros Hlc Hr Hc. destruct (lifecycle_argv _ _ _ _ Hlc) as [Hrm Hins].
  destruct Hr as [inspect state stopping remove final _ _ _ _ Hok _].
  rewrite app_assoc in Hc. apply commands_split in Hc as (s1 & _ & Hc).
  inversion Hc as [|? s2 ? argv token r ? Hp Hrest]; subst.
  inversion Hrest as [|? s3 ? argv token r ? Hp' Hnil]; subst. inversion Hnil; subst.
  eapply only_create_law; [exact Hp'|cbn; by rewrite Hins|]. eapply remove_law; [exact Hp|done|done].
Qed.

(** C14.  A check only passes when its container ran it and is gone: the creation, the
    start and the wait succeeded, the code that [docker wait] gave is zero, and the
    removal was proven, so that no container of its name is left.  The attachment was
    neither timed out nor cancelled and was cleaned up; the result is that of the
    attachment, output included, with the exit replaced by zero: how [docker attach]
    itself exited is not looked at. *)
Theorem passed_check_ran_and_is_gone `{!DaemonLaws} (check : NormalizedCheck) (rendered : DryRunCheck) (s : S)
    (res : ProcessResult) (s' : S) :
  execute_check revalidate context check rendered s = Some (Ok res, s') → completed_success res = true →
  ∃ lc s0 create start attach wait cleanup,
    lifecycle_build (rx_run_id context) check rendered = Ok lc ∧
    commands context s0 ([ran (lc_create_argv lc) RunToken create; ran (lc_start_argv lc) RunToken start;
                          ran (lc_attach_argv lc) RunToken attach; ran (lc_wait_argv lc) RunToken wait] ++ cleanup) s' ∧
    completed_success create = true ∧ completed_success start = true ∧ completed_success wait = true ∧
    parse_wait_exit_code (cs_bytes (pr_stdout wait)) = Ok 0 ∧
    pr_termination attach = Completed ∧ pr_cleanup attach = Verified ∧
    res = set_exit {| xo_success := true; xo_code := Some 0 |} attach ∧
    ¬ present s' (lc_container_name lc).
Proof.
  intros Hx Hok. destruct (check_run _ _ _ _ _ _ _ Hx) as (s0 & lc & l & _ & Hlc & Hc & Hlife).
  destruct Hlife as [create Hf|create start cleanup _ Hf _|create start attach cleanup _ _ Ht _|
                     create start attach wait code cleanup L1 L2 L3 L4 Hcode Hrm]; [congruence|congruence| |].
  - unfold completed_success in Hok. by rewrite (bool_decide_eq_false_2 _ Ht) in Hok.
  - unfold completed_success in Hok. rewrite !andb_true_iff in Hok.
    destruct Hok as [[_ Hclean%bool_decide_eq_true] Hz]. cbn in Hclean, Hz. apply Z.eqb_eq in Hz as ->. pose proof Hc as Hcs. apply commands_split in Hcs as (s4 & _ & Hcs).
    exists lc, s0, create, start, attach, wait, cleanup. split_and!; [done..|]. by eapply removed_gone.
Qed.
End Life.

(** Where a container is not cleaned up: a creation that does not complete with
    success, also one whose time was over or that was cancelled while the daemon went
    on, is returned as the result of the check with no other command; and an error of
    [docker wait] itself is returned at once, and leaves the started container. *)
Theorem lost_commands_are_not_cleaned `{Backend, ValueParser} {S : Type} `{SupervisorPort S}
    (revalidate : list MountBinding → io S WorkspaceError ()) (context : RuntimeExecutionContext) (check : NormalizedCheck)
    (rendered : DryRunCheck) (lc : DockerLifecyclePlan) (s s0 s1 : S) (create : ProcessResult) :
  revalidate (dc_mounts rendered) s = Some (Ok (), s0) → lifecycle_build (rx_run_id context) check rendered = Ok lc →
  port_execute (cli_request context (lc_create_argv lc)) RunToken s0 = Some (Ok create, s1) →
  (completed_success create = false → execute_check revalidate context check rendered s = Some (Ok create, s1)) ∧
  (∀ start attach e s2 s3 s4,
     completed_success create = true → valid_container_id (cs_bytes (pr_stdout create)) = true →
     port_execute (cli_request context (lc_start_argv lc)) RunToken s1 = Some (Ok start, s2) → completed_success start = true →
     port_execute (cli_request context (lc_attach_argv lc)) RunToken s2 = Some (Ok attach, s3) → pr_termination attach = Completed →
     port_execute (cli_request context (lc_wait_argv lc)) RunToken s3 = Some (Err e, s4) →
     execute_check revalidate context check rendered s = Some (Err (RuntimeProcess e), s4)).
Proof.
  intros Hv Hlc Hc.
  assert (Hstep : ∀ A (f : () → io S RuntimeError A), (io_map_err RuntimeWorkspace (revalidate (dc_mounts rendered)) ≫= f) s = f () s0)
    by (intros A f; unfold io_map_err, attempt, mbind, io_bind, io_lift; by rewrite Hv).
  assert (Hcli : ∀ A argv st r st' (f : ProcessResult → io S RuntimeError A),
     port_execute (cli_request context argv) RunToken st = Some (r, st') →
     (execute_cli context argv RunToken ≫= f) st = match r with Ok x => f x st' | Err e => Some (Err (RuntimeProcess e), st') end)
    by (intros A argv st r st' f E; unfold execute_cli, io_map_err, attempt, mbind, io_bind, io_lift; rewrite E; by destruct r).
  assert (Hclean : ∀ A argv st x st' (f : ProcessResult → io S RuntimeError A),
     port_execute (cli_request context argv) RunToken st = Some (Ok x, st') →
     (execute_or_clean context lc argv ≫= f) st = f x st')
    by (intros A argv st x st' f E; unfold execute_or_clean, execute_cli, io_map_err, attempt, mbind, io_bind, io_lift; by rewrite E).
  assert (Hbuild : ∀ A (f : DockerLifecyclePlan → io S RuntimeError A) st,
     (io_lift (lifecycle_build (rx_run_id context) check rendered) ≫= f) st = f lc st)
    by (intros A f st; unfold mbind, io_bind, io_lift; by rewrite Hlc).
  unfold execute_check. rewrite Hstep, Hbuild, (Hcli _ _ _ _ _ _ Hc). split.
  - intros ->. done.
  - intros start attach e s2 s3 s4 -> -> Hs Hsok Ha Hat Hw. cbn [negb].
    rewrite (Hclean _ _ _ _ _ _ Hs), Hsok. cbn [negb]. rewrite (Hclean _ _ _ _ _ _ Ha), (bool_decide_eq_true_2 _ Hat). cbn [negb].
    by rewrite (Hcli _ _ _ _ _ _ Hw).
Qed.

(** * Capabilities *)

Lemma valid_digest_sha256 field d : valid_sha256_digest d = true → Fields.validate_sha256 field d = Ok ().
Proof.
  unfold valid_sha256_digest, Fields.validate_sha256. intros Hv. rewrite !andb_true_iff in Hv. destruct Hv as [[Hl Hp] Hx].
  unfold starts_with in Hp. change "sha256:" with RECEIPT_ID_PREFIX in Hp.
  destruct (strip_prefix RECEIPT_ID_PREFIX d) as [hex|] eqn:E; [|done]. apply strip_prefix_some in E as ->.
  apply Z.eqb_eq in Hl. unfold len in Hl. rewrite <-length_bytes, bytes_append, length_app in Hl.
  rewrite bytes_append in Hx. change (drop 7 (bytes RECEIPT_ID_PREFIX ++ bytes hex)) with (bytes hex) in Hx.
  apply ensure_ok, andb_true_iff. split; [|exact Hx]. apply Z.eqb_eq. unfold len. rewrite <-length_bytes.
  change (length (bytes RECEIPT_ID_PREFIX)) with 7%nat in Hl. lia.
Qed.

(** What the preflight finds out makes a valid receipt: for any plan that asks
    for capabilities as it must, the evidence that the preflight returns (or the lack
    of it) is accepted by the validation of the receipt that embeds the plan. *)
Theorem preflight_evidence_accepted `{Backend, !BackendOk, ValueParser} {S : Type} `{SupervisorPort S}
    (guard : S → GenerationGuard * S) (var_os : string → option string) containment graceful_stop current_dir
    (envelope : ExecutionPlanEnvelopeV1) (s s' : S) (preflight : RuntimePreflight) (receipt : ReceiptV2) :
  preflight_runtime_capabilities guard var_os containment graceful_stop current_dir envelope s = Some (Ok preflight, s') →
  r2_execution_plan receipt = pe_plan envelope →
  r2_runtime_capability_evidence receipt = rp_capability_evidence preflight →
  (ep_schema_version (pe_plan envelope) = "1.3" →
   is_Some (nr_pull_policy (ep_runtime (pe_plan envelope))) ∧ is_Some (nr_swap_mode (ep_runtime (pe_plan envelope))) ∧
   Fields.require_text "runtime_capability.resolved_image_reference" (nr_image (ep_runtime (pe_plan envelope))) = Ok ()) →
  validate_runtime_capability_evidence receipt = Ok ().
Proof.
  intros Hp Hplan Hev Hask. unfold validate_runtime_capability_evidence. rewrite Hplan, Hev.
  unfold preflight_runtime_capabilities, preflight_with in Hp. destruct (String.eqb_spec (ep_schema_version (pe_plan envelope)) "1.3") as [Ev|]; cbn [negb] in Hp.
  2:{ apply ret_run in Hp as [<- _]. done. }
  destruct (Hask Ev) as ([[] Hpull] & [[] Hswap] & Htext). rewrite Hpull, Hswap.
  apply bind_run in Hp as (pb & s1 & _ & Hp). apply bind_run in Hp as (evidence & s2 & Hc & Hp). apply ret_run in Hp as [<- _].
  cbn [rp_capability_evidence]. unfold capability_probe in Hc. rewrite Ev in Hc. cbn [String.eqb negb] in Hc.
  change (("1.3" =? "1.3")%string) with true in Hc. cbn [negb] in Hc.
  apply bind_run in Hc as (_ & s3 & _ & Hc). apply bind_run in Hc as (ctx & s4 & _ & Hc). apply bind_run in Hc as (image & s5 & _ & Hc).
  apply bind_run in Hc as (context & s6 & _ & Hc). apply bind_run in Hc as (ev & s7 & Hi & Hc). apply lift_run in Hi as [Hi ->].
  apply ret_run in Hc as [<- _]. unfold interpret_runtime_capabilities in Hi.
  apply bind_ok in Hi as (_ & _ & Hi). apply bind_ok in Hi as (_ & _ & Hi). apply bind_ok in Hi as (value & _ & Hi).
  apply bind_ok in Hi as (id & Hid%ok_or_ok & Hi). apply bind_ok in Hi as (_ & _ & Hi).
  apply bind_ok in Hi as (digest & Hdigest%map_err_ok & <-%ok_inj).
  assert (Hid' : valid_sha256_digest id = true)
    by (destruct (value_get "Id" value ≫= as_str); [|done]; destruct (valid_sha256_digest _) eqn:E; [by injection Hid as <-|done]).
  destruct (canonical_digest_shape _ _ Hdigest) as (hex & Hpre & Hlen & Hhex).
  assert (Hdig : Fields.validate_sha256 "runtime_capability.context_digest" digest = Ok ())
    by (unfold Fields.validate_sha256; rewrite Hpre; apply ensure_ok; by rewrite Hlen, Hhex).
  cbn. rewrite Hdig, (valid_digest_sha256 _ _ Hid'). cbn. rewrite Htext. cbn. by rewrite String.eqb_refl.
Qed.

(** * Example *)

Module RuntimeExample.
Import PlanExample ReceiptExample.

Definition repository_binding : MountBinding := repository_mount [RootDir; Normal "home"; Normal "u"; Normal "repo"].
Definition example_workspace : WorkspacePlanV1 :=
  {| wp_schema_version := "1.0"; wp_repository := []; wp_source_snapshot_digest := None; wp_run_root := [];
     wp_mounts := [repository_binding] |}.

Lemma mount_argument_exact_witness :
  parse_mount_argument "type=bind,src=/home/u/repo,dst=/workspace,readonly" =
    {| rm_type := Some "bind"; rm_src := Some "/home/u/repo"; rm_dst := Some "/workspace"; rm_readonly := true |}.
Proof.
  destruct (mount_argument_exact repository_binding "type=bind,src=/home/u/repo,dst=/workspace,readonly") as (source & Hs & Hp);
    [vm_compute; reflexivity|]. vm_compute in Hs. injection Hs as <-. exact Hp.
Defined.

(** A check whose command has an argument [--rm] of its own. *)
Definition compose_check : NormalizedCheck :=
  {| nk_id := "compose"; nk_required := true; nk_argv := ["tool"; "run"; "--rm"; "job"]; nk_working_directory := ".";
     nk_timeout_seconds := 60; nk_depends_on := []; nk_artifacts := []; nk_artifact_contracts := [] |}.
Definition example_runtime : NormalizedRuntime := ep_runtime (pe_plan demo_plan).

Lemma created_command_witness : ∃ rendered lc,
  docker_dry_run_check example_runtime ["CI"] example_workspace compose_check = Ok rendered ∧
  lifecycle_build "run-1" compose_check rendered = Ok lc ∧
  (∃ options, lc_create_argv lc = options ++ [nr_image example_runtime; "tool"; "run"; "job"]).
Proof.
  destruct (docker_dry_run_check example_runtime ["CI"] example_workspace compose_check) as [rendered|] eqn:Ed;
    [|vm_compute in Ed; discriminate Ed].
  destruct (lifecycle_build "run-1" compose_check rendered) as [lc|] eqn:El.
  2:{ vm_compute in Ed. injection Ed as <-. vm_compute in El. discriminate El. }
  exists rendered, lc. split_and!; [done..|].
  destruct (created_command example_runtime ["CI"] example_workspace compose_check rendered "run-1" lc) as (args & _ & Hargv & _);
    [by repeat split| |by intros E|exact Ed|exact El|].
  { by intros [E|E%elem_of_nil]%elem_of_cons. }
  eexists (_ ++ _). rewrite Hargv. rewrite <-app_assoc. reflexivity.
Defined.

Lemma execution_environment_exact_witness : ∃ environment,
  docker_execution_environment (λ name, if (name =? "HOME")%string then Some "/home/u" else None) demo_plan = Ok environment ∧
  map_get "HOME" environment = Some "/home/u".
Proof.
  destruct (docker_execution_environment (λ name, if (name =? "HOME")%string then Some "/home/u" else None) demo_plan)
    as [environment|] eqn:E; [|vm_compute in E; discriminate E]. exists environment. split; [done|].
  destruct (execution_environment_exact _ _ _ E) as [Hget _]. rewrite Hget. vm_compute. reflexivity.
Defined.

(** A daemon whose answers are given; it keeps the names of its containers. *)
Record Docker : Type := { dk_containers : list string; dk_answers : list (result ProcessError ProcessResult) }.
#[global] Instance docker : SupervisorPort Docker := λ request _ d,
  let answer := match dk_answers d with a :: _ => a | [] => Err StaleGeneration end in
  let containers :=
    match answer, rq_argv request with
    | Ok _, "create" :: _ :: name :: _ => name :: dk_containers d
    | Ok r, ["rm"; "--force"; name] => if completed_success r then List.filter (λ n, negb (n =? name)%string) (dk_containers d)
                                       else dk_containers d
    | _, _ => dk_containers d
    end in
  Some (answer, {| dk_containers := containers; dk_answers := tail (dk_answers d) |}).

#[global] Instance docker_laws : DaemonLaws (S := Docker).
Proof.
  refine {| present d name := name ∈ dk_containers d |}.
  - intros request token s r s' name [= <- <-] Hh Hn. cbn.
    destruct (match dk_answers s with [] => _ | a :: _ => a end) as [r|]; [|done].
    destruct (rq_argv request) as [|c l]; [done|]. cbn in Hh.
    assert (Hc : c ≠ "create") by (intros ->; done). clear Hh.
    assert (Hf : ∀ n, name ∉ List.filter (λ m, negb (m =? n)%string) (dk_containers s))
      by (intros n Hin; apply list_elem_of_In, filter_In in Hin as [Hin _]; by apply Hn, list_elem_of_In).
    repeat match goal with
           | |- context [match ?x with EmptyString => _ | String.String _ _ => _ end] => destruct x
           | |- context [match ?x with Ascii _ _ _ _ _ _ _ _ => _ end] => destruct x
           | |- context [if ?x then _ else _] => is_var x; destruct x
           | |- context [match ?x with [] => _ | _ :: _ => _ end] => is_var x; destruct x
           end; try done; destruct (completed_success r); auto.
  - intros request token s r s' name Hp Ha Hok. unfold port_execute, docker in Hp. rewrite Ha in Hp. injection Hp as Hr <-.
    cbn. rewrite Hr, Hok. intros Hin. apply list_elem_of_In, filter_In in Hin as [_ Hin].
    by rewrite String.eqb_refl in Hin.
Defined.

Definition some_identity : RunIdentity :=
  {| id_project := "project"; id_commit := None; id_config_digest := "digest"; id_generation := "1" |}.
Definition stream (text : string) : CapturedStream :=
  {| cs_bytes := bytes text; cs_byte_count := len text; cs_full_digest := ""; cs_truncated := false |}.
Definition answer (success : bool) (text : string) : ProcessResult :=
  {| pr_identity := some_identity; pr_termination := Completed; pr_cleanup := Verified;
     pr_exit := Some {| xo_success := success; xo_code := Some (if success then 0 else 1) |};
     pr_stdout := stream text; pr_stderr := stream ""; pr_elapsed_millis := 5 |}.

(** The rendered check, and the plan of its container. *)
Definition rendered : DryRunCheck := get (docker_dry_run_check example_runtime ["CI"] example_workspace compose_check) eq_refl.
Definition lifecycle : DockerLifecyclePlan := get (lifecycle_build "run-1" compose_check rendered) eq_refl.

Lemma lifecycle_ok : lifecycle_build "run-1" compose_check rendered = Ok lifecycle.
Proof. apply get_ok. Defined.

(** One document that answers every question. *)
Definition document : Value :=
  obj [("Name", Str ("/" +:+ lc_container_name lifecycle));
       ("Config", obj [("Labels", obj [("com.commit-ci-preflight.owner", Str "commit-ci-preflight");
                                       ("com.commit-ci-preflight.run-id", Str "run-1");
                                       ("com.commit-ci-preflight.check-id", Str "compose")])]);
       ("State", obj [("Status", Str "exited")]);
       ("ServerVersion", Str "27.0"); ("OSType", Str "linux"); ("MemoryLimit", Bool true); ("SwapLimit", Bool true);
       ("Id", Str (RECEIPT_ID_PREFIX +:+ "0123456789abcdef0123456789abcdef0123456789abcdef0123456789abcdef"));
       ("RepoDigests", Array [Str (nr_image example_runtime)])].
#[global] Instance parser : ValueParser := λ _, Some document.

Definition execution : RuntimeExecutionContext :=
  {| rx_execution_root := [RootDir]; rx_environment := []; rx_identity := some_identity; rx_run_id := "run-1";
     rx_timeout_seconds := 60 |}.
Definition unchanged : list MountBinding → io Docker WorkspaceError () := λ _, mret ().
Definition id_text : string := "0123456789abcdef".

Definition passing : Docker :=
  {| dk_containers := [];
     dk_answers := [Ok (answer true id_text); Ok (answer true ""); Ok (answer true "all fine"); Ok (answer true "0");
                    Ok (answer true ""); Ok (answer true ""); Ok (answer false "")] |}.

Lemma check_keeps_contract_witness : ∃ res d l,
  execute_check unchanged execution compose_check rendered passing = Some (Ok res, d) ∧
  commands execution passing l d ∧ life lifecycle l res.
Proof.
  destruct (execute_check unchanged execution compose_check rendered passing) as [[[res|] d]|] eqn:E;
    [|vm_compute in E; discriminate E..].
  destruct (check_keeps_contract unchanged execution compose_check rendered passing res d E) as (s0 & lc & l & Hv & Hlc & Hc & Hlife).
  injection Hv as <-. pose proof (ok_inj _ _ (eq_trans (eq_sym Hlc) lifecycle_ok)) as ->.
  exists res, d, l. split; [reflexivity|]. split; [exact Hc|exact Hlife].
Defined.

Lemma passed_check_ran_and_is_gone_witness : ∃ res d,
  execute_check unchanged execution compose_check rendered passing = Some (Ok res, d) ∧ completed_success res = true ∧
  lc_container_name lifecycle ∉ dk_containers d.
Proof.
  destruct (execute_check unchanged execution compose_check rendered passing) as [[[res|] d]|] eqn:E;
    [|vm_compute in E; discriminate E..].
  assert (Hok : completed_success res = true) by (vm_compute in E; by injection E as <- _).
  destruct (passed_check_ran_and_is_gone unchanged execution compose_check rendered passing res d E Hok)
    as (lc & s0 & create & start & attach & wait & cleanup & Hlc & _ & _ & _ & _ & _ & _ & _ & _ & Hgone).
  pose proof (ok_inj _ _ (eq_trans (eq_sym Hlc) lifecycle_ok)) as ->.
  exists res, d. split; [reflexivity|]. split; [exact Hok|exact Hgone].
Defined.

(** The wait is lost: the container stays. *)
Definition losing : Docker :=
  {| dk_containers := [];
     dk_answers := [Ok (answer true id_text); Ok (answer true ""); Ok (answer true "all fine"); Err (Monitor OtherIo)] |}.

Lemma lost_commands_are_not_cleaned_witness : ∃ d,
  execute_check unchanged execution compose_check rendered losing = Some (Err (RuntimeProcess (Monitor OtherIo)), d) ∧
  lc_container_name lifecycle ∈ dk_containers d.
Proof.
  destruct (lost_commands_are_not_cleaned unchanged execution compose_check rendered lifecycle losing losing
    {| dk_containers := [lc_container_name lifecycle]; dk_answers := tail (dk_answers losing) |} (answer true id_text)) as [_ Hw];
    [done|exact lifecycle_ok|vm_compute; reflexivity|].
  exists {| dk_containers := [lc_container_name lifecycle]; dk_answers := [] |}. split; [|apply list_elem_of_here].
  apply (Hw (answer true "") (answer true "all fine") (Monitor OtherIo)
    {| dk_containers := [lc_container_name lifecycle]; dk_answers := drop 2 (dk_answers losing) |}
    {| dk_containers := [lc_container_name lifecycle]; dk_answers := drop 3 (dk_answers losing) |}); vm_compute; reflexivity.
Defined.

Definition probing : Docker :=
  {| dk_containers := []; dk_answers := [Ok (answer true "{}"); Ok (answer true "default"); Ok (answer true "{}")] |}.
Definition with_evidence (evidence : option RuntimeCapabilityEvidenceV1) (r : ReceiptV2) : ReceiptV2 :=
  {| r2_schema_version := r2_schema_version r; r2_producer := r2_producer r; r2_repository := r2_repository r;
     r2_run := r2_run r; r2_source_snapshot := r2_source_snapshot r; r2_platform := r2_platform r;
     r2_configuration_digest := r2_configuration_digest r; r2_execution_plan := r2_execution_plan r;
     r2_runtime_capability_evidence := evidence; r2_artifact_manifest := r2_artifact_manifest r; r2_checks := r2_checks r;
     r2_overall_status := r2_overall_status r; r2_incomplete_reason := r2_incomplete_reason r;
     r2_redaction_policy_version := r2_redaction_policy_version r |}.
Definition doctor (d : Docker) : GenerationGuard * Docker := (doctor_guard demo_plan, d).

(** The evidence of the probe in the receipt of its plan. *)
Lemma preflight_evidence_accepted_witness : ∃ evidence,
  ep_schema_version (pe_plan demo_plan) = "1.3" ∧
  validate_runtime_capability_evidence (with_evidence (Some evidence) demo_receipt) = Ok ().
Proof.
  destruct (preflight_runtime_capabilities doctor (λ _, None) ProcessGroup ProcessGroupSignal [RootDir] demo_plan probing)
    as [[[preflight|] d]|] eqn:E; [|vm_compute in E; discriminate E..].
  destruct (rp_capability_evidence preflight) as [evidence|] eqn:Ev; [|vm_compute in E; injection E as <- _; discriminate Ev].
  exists evidence. split; [reflexivity|].
  apply (preflight_evidence_accepted doctor (λ _, None) ProcessGroup ProcessGroupSignal [RootDir] demo_plan probing d preflight);
    [exact E|reflexivity|by rewrite Ev|]. intros _. split_and!; [by eexists|by eexists|vm_compute; reflexivity].
Defined.
End RuntimeExample.
