(* ===== verification/SourceSnapshot.v ===== *)
(** Source snapshots ([src/src/source_snapshot.rs]): the tree of a commit, as Git
    lists it, is written below a fresh directory, gets the mount points that the
    checks need, and is compared with Git again after the run.

    The files of the host live in a tree of their own ([HostFiles]), rooted at the file
    system root, with the paths of the files that are executable; [on_host] runs a
    program over it in [io].  What canonicalisation answers for a tree is the
    argument [paths].  Git is only reached through the supervisor. *)
From S2P Require Import Prelude.
From S2P Require Import RustStr.
From S2P Require Import BTree.
From S2P Require Import Canonical.
From S2P Require Import Config.
From S2P Require Import Receipt.
From S2P Require Import Durable.
From S2P Require Import Resource.
From S2P Require Import FileSystem.
From S2P Require Import CacheRoot.
From S2P Require Import Workspace.
From S2P Require Import Ports.
From S2P Require Import Process.
From S2P Require Import Runtime.
Local Open Scope Z_scope.

Definition GIT_TIMEOUT : Z := millis 30000.
Definition GIT_CAPTURE_LIMIT : Z := 1048576.
Definition TREE_CAPTURE_LIMIT : Z := GIT_CAPTURE_LIMIT.
Definition BLOB_CAPTURE_LIMIT : Z := MAX_SOURCE_BLOB_CAPTURE_BYTES.
Definition MAX_ENTRIES : Z := 50000.
Definition LFS_HEADER : list ascii := bytes "version https://git-lfs.github.com/spec/v1" ++ [line_feed].

(** * Data *)

Inductive SourceEntryKindV1 : Type := EntryRegular | EntryExecutable | EntrySymlink | EntrySubmodule.

Record SourceManifestEntryV1 : Type := {
  se_path : string;
  se_mode : string;
  se_kind : SourceEntryKindV1;
  se_blob_oid : option string;
  se_submodule_oid : option string;
}.

Record SourceManifestV1 : Type := {
  sm_schema_version : string;
  sm_commit_sha : string;
  sm_strategy : string;
  sm_entries : list SourceManifestEntryV1;
}.

Record SourceSnapshotEvidenceV1 : Type := {
  sv_schema_version : string;
  sv_strategy : string;
  sv_manifest_digest : string;
  sv_entry_count : Z;
}.

Record SourceSnapshot : Type := {
  sn_root : list component;
  sn_resource_root : list component;
  sn_repository : list component;
  sn_manifest : SourceManifestV1;
  sn_evidence : SourceSnapshotEvidenceV1;
  sn_cleaned : bool;
  sn_overlay_files : btset string;
  sn_overlay_directories : btset string;
}.

(** [SnapshotFault] is no error of the code: a loop of the model without turns. *)
Inductive SourceSnapshotError : Type :=
  | SnapshotIo (kind : io_kind)
  | SnapshotInvalidCommit
  | SnapshotInvalidPath
  | InvalidTree
  | TooManyEntries
  | DestinationExists
  | GitFailure
  | BlobTooLarge (path : string) (size limit : Z)
  | UnsupportedMode (mode : string)
  | UnsupportedSubmodule (path : string)
  | UnsupportedSymlink (path : string)
  | UnsupportedLfs (path : string)
  | UnsupportedExecutableMode
  | ManifestSerialization
  | SnapshotChanged
  | SnapshotDirtyRepository
  | SnapshotRepositoryNotDirectory
  | SnapshotFault (f : fault).

#[global] Instance SourceEntryKindV1_eq_dec : EqDecision SourceEntryKindV1.
Proof. solve_decision. Defined.

#[global] Instance SourceEntryKindV1_serialize : Serialize SourceEntryKindV1 := λ k,
  Str match k with
      | EntryRegular => "regular" | EntryExecutable => "executable"
      | EntrySymlink => "symlink" | EntrySubmodule => "submodule"
      end.
#[global] Instance SourceManifestEntryV1_serialize : Serialize SourceManifestEntryV1 := λ e,
  obj [("path", to_value (se_path e)); ("mode", to_value (se_mode e)); ("kind", to_value (se_kind e));
       ("blob_oid", to_value (se_blob_oid e)); ("submodule_oid", to_value (se_submodule_oid e))].
#[global] Instance SourceManifestV1_serialize : Serialize SourceManifestV1 := λ m,
  obj [("schema_version", to_value (sm_schema_version m)); ("commit_sha", to_value (sm_commit_sha m));
       ("strategy", to_value (sm_strategy m)); ("entries", to_value (sm_entries m))].

(** * Paths and the listing of Git *)

Definition valid_oid (value : string) : bool := existsb (Z.eqb (len value)) [40; 64] && all_bytes is_lower_hex value.
Definition validate_commit (value : string) : result SourceSnapshotError () := ensure (valid_oid value) SnapshotInvalidCommit.

Definition is_ascii_control (a : ascii) : bool := in_range 0 31 (code a) || (code a =? 127).
Definition is_normal (c : component) : bool := match c with Normal _ => true | _ => false end.
Definition validate_path (value : string) : result SourceSnapshotError () :=
  ensure (negb (is_empty value || existsb is_ascii_control (bytes value) || is_absolute (components value)
                || existsb (λ c, negb (is_normal c)) (components value))) SnapshotInvalidPath.

(** The kind and the identifiers of an entry, by its mode and the type of its object. *)
Definition entry_kind (mode object_type oid : string) :
    result SourceSnapshotError (SourceEntryKindV1 * option string * option string) :=
  if (mode =? "100644")%string && (object_type =? "blob")%string then Ok (EntryRegular, Some oid, None)
  else if (mode =? "100755")%string && (object_type =? "blob")%string then Ok (EntryExecutable, Some oid, None)
  else if (mode =? "120000")%string && (object_type =? "blob")%string then Ok (EntrySymlink, Some oid, None)
  else if (mode =? "160000")%string && (object_type =? "commit")%string then Ok (EntrySubmodule, None, Some oid)
  else Err (UnsupportedMode mode).

Definition parse_record (record : list ascii) : result SourceSnapshotError SourceManifestEntryV1 :=
  '(before, after) ← ok_or (split_once_list (ascii_of_nat 9) record) InvalidTree;
  header ← ok_or (from_utf8 before) InvalidTree;
  path ← ok_or (from_utf8 after) SnapshotInvalidPath;
  _ ← validate_path path;
  '(mode, object_type, oid) ← ok_or (match split " " header with
                                     | mode :: object_type :: oid :: [] =>
                                       if valid_oid oid then Some (mode, object_type, oid) else None
                                     | _ => None
                                     end) InvalidTree;
  '(kind, blob_oid, submodule_oid) ← entry_kind mode object_type oid;
  Ok {| se_path := path; se_mode := mode; se_kind := kind; se_blob_oid := blob_oid; se_submodule_oid := submodule_oid |}.

(** One turn of the loop over the records. *)
Definition parse_step (entries : list SourceManifestEntryV1) (record : list ascii) :
    result SourceSnapshotError (list SourceManifestEntryV1) :=
  _ ← ensure (negb (MAX_ENTRIES <=? Z.of_nat (length entries))) TooManyEntries;
  entry ← parse_record record;
  Ok (entries ++ [entry]).

Definition parse_tree (output : list ascii) : result SourceSnapshotError (list SourceManifestEntryV1) :=
  entries ← try_fold parse_step [] (List.filter (λ record, negb (is_nil record)) (split_list (ascii_of_nat 0) output));
  Ok (sort_by se_path entries).

(** * The files of the host *)

Record HostFiles : Type := { h_world : World; h_executable : list path }.

Definition set_h_world (w : World) (h : HostFiles) : HostFiles := {| h_world := w; h_executable := h_executable h |}.

(** A program over the host tree; a process that ends within gives nothing. *)
Definition on_host {T U E A} (m : fs E A) : io (T * (HostFiles * U)) E A := λ '(w, (h, u)),
  match m (h_world h) with
  | (Done x, w') => Some (Ok x, (w, (set_h_world w' h, u)))
  | (Failed e, w') => Some (Err e, (w, (set_h_world w' h, u)))
  | (Stopped, _) => None
  end.

(** The executable bits of a file. *)
Definition set_mode {T U E} (p : path) (executable : bool) : io (T * (HostFiles * U)) E () := λ '(w, (h, u)),
  let others := List.filter (λ q, negb (bool_decide (q = p))) (h_executable h) in
  Some (Ok (), (w, ({| h_world := h_world h; h_executable := if executable then p :: others else others |}, u))).
Definition get_mode {T U E} (p : path) : io (T * (HostFiles * U)) E bool := λ '(w, (h, u)),
  Some (Ok (bool_decide (p ∈ h_executable h)), (w, (h, u))).

(** [fs::remove_dir], of an empty directory. *)
Definition remove_dir (p : path) : fs io_kind () :=
  effect (λ t, match tree_get p t with
               | None => Err NotFound
               | Some (Dir []) => Ok (tree_put p None t)
               | Some _ => Err OtherIo
               end) unchanged.

(** [fs::create_dir_all]. *)
Definition create_dir_all (p : path) : fs io_kind () :=
  fs_each (λ current, t ← look Ok; if is_dir (tree_get current t) then mret () else create_dir current) (prefixes [] p).

(** [Path::parent] of a path that is joined to a root. *)
Definition parent_of {E} (e : E) (p : list component) : result E (list component) := ok_or (path_parent p) e.

Definition file_mode (kind : SourceEntryKindV1) : bool := bool_decide (kind = EntryExecutable).

(** The files below a directory, by their paths from it; [pending] is a stack, its
    top last.  The order of a listing only decides which of two errors is met. *)
Definition collect_child (current : path) (st : list path * btset string) (kv : string * node) :
    result SourceSnapshotError (list path * btset string) :=
  let '(pending, output) := st in
  let p := current ++ [kv.1] in
  match kv.2 with
  | Dir _ => Ok (pending ++ [p], output)
  | File _ =>
    text ← ok_or (to_str (Normal <$> p)) SnapshotInvalidPath;
    Ok (pending, (set_insert text output).2)
  | Symlink _ _ | Special => Err SnapshotChanged
  end.
Fixpoint collect_loop (fuel : nat) (root : path) (t : node) (pending : list path) (output : btset string) :
    result SourceSnapshotError (btset string) :=
  match last pending with
  | None => Ok output
  | Some current =>
    match fuel with
    | O => Err (SnapshotFault OutOfFuel)
    | S fuel =>
      entries ← match tree_get (root ++ current) t with
                | Some (Dir entries) => Ok entries
                | Some _ => Err (SnapshotIo OtherIo)
                | None => Err (SnapshotIo NotFound)
                end;
      '(pending, output) ← try_fold (collect_child current) (removelast pending, output) entries;
      collect_loop fuel root t pending output
    end
  end.

(** The directories of a tree: the turns of the loop. *)
Fixpoint directory_count (n : node) : nat :=
  match n with
  | Dir entries => S (sum_list ((fix go (l : list (string * node)) : list nat :=
                                   match l with [] => [] | kv :: l => directory_count kv.2 :: go l end) entries))
  | _ => 0
  end.
Definition collect_regular_files (root : path) (t : node) : result SourceSnapshotError (btset string) :=
  collect_loop (match tree_get root t with Some n => S (directory_count n) | None => 1 end) root t [[]] [].

(** * Git *)

(** [SupervisorPort::execute_source_blob]. *)
Class SourceBlobPort (S : Type) : Type := port_execute_source_blob : ProcessRequest → token_use → io S ProcessError ProcessResult.

(** The variables that Git gets from the environment. *)
Definition GIT_ALLOWED : list string := ["PATH"; "HOME"; "USERPROFILE"; "HOMEDRIVE"; "HOMEPATH"; "SYSTEMROOT"; "XDG_CONFIG_HOME"].
Definition git_environment (var_os : string → option string) : btmap string string :=
  map_from_list (omap (λ name, (λ value, (name, value)) <$> var_os name) GIT_ALLOWED).

Section Git.
Context {S : Type} `{SupervisorPort S, SourceBlobPort S} (var_os : string → option string) (identity : RunIdentity) (token : token_use).

Definition git_request (repository : list component) (argv : list string) (timeout max_capture_bytes : Z) : ProcessRequest :=
  {| rq_identity := identity; rq_program := "git"; rq_argv := argv; rq_current_dir := repository;
     rq_environment := git_environment var_os; rq_timeout := timeout; rq_max_capture_bytes := max_capture_bytes |}.

(** What a command of Git must be to be believed. *)
Definition git_succeeded (r : ProcessResult) : bool :=
  completed_success r && negb (cs_truncated (pr_stdout r)) && negb (cs_truncated (pr_stderr r)).
Definition git_output (r : ProcessResult) : result SourceSnapshotError (list ascii) :=
  _ ← ensure (git_succeeded r) GitFailure;
  Ok (cs_bytes (pr_stdout r)).

Definition execute_git (repository : list component) (argv : list string) (max_capture_bytes : Z) :
    io S SourceSnapshotError (list ascii) :=
  r ← io_map_err (λ _, GitFailure) (port_execute (git_request repository argv GIT_TIMEOUT max_capture_bytes) token);
  io_lift (git_output r).
Definition execute_git_blob (repository : list component) (argv : list string) : io S SourceSnapshotError (list ascii) :=
  r ← io_map_err (λ _, GitFailure)
        (port_execute_source_blob (git_request repository argv GIT_TIMEOUT BLOB_CAPTURE_LIMIT) token);
  io_lift (git_output r).
End Git.

(** * The life of a snapshot *)

Section Snapshot.
Context `{Backend, Codec SourceManifestV1} {T U : Type}.
Abbreviation machine := (T * (HostFiles * U))%type.
Context `{supervisor : SupervisorPort machine, blobs : SourceBlobPort machine} (paths : node → PathOracle) (var_os : string → option string)
  (identity : RunIdentity) (token : token_use).

Definition host_path (p : list component) : path := tree_names p.
Definition git := execute_git (S := machine) var_os identity token.
Definition git_blob := execute_git_blob (S := machine) var_os identity token.
Definition on_files {A} (m : fs io_kind A) : io machine SourceSnapshotError A := io_map_err SnapshotIo (on_host m).

(** [fs::canonicalize] of a repository, which must be a directory. *)
Definition canonical_repository (repository : list component) : io machine SourceSnapshotError (list component) :=
  repository ← on_files (look (λ t, po_canonicalize (paths t) repository));
  _ ← on_host (look (λ t, ensure (po_is_dir (paths t) repository) SnapshotRepositoryNotDirectory));
  mret repository.

Definition write_new_file (p : list component) (content : list ascii) : io machine SourceSnapshotError () :=
  let p := host_path p in
  _ ← on_files (create_new_file p);
  _ ← set_mode p false;
  _ ← on_files (write_all p content);
  on_files sync_all.

Definition write_entry (root : list component) (entry : SourceManifestEntryV1) (content : list ascii) :
    io machine SourceSnapshotError () :=
  let p := path_join root (se_path entry) in
  parent ← io_lift (parent_of SnapshotInvalidPath p);
  _ ← on_files (create_dir_all (host_path parent));
  _ ← write_new_file p content;
  set_mode (host_path p) (file_mode (se_kind entry)).

Definition supported_entry (entry : SourceManifestEntryV1) : result SourceSnapshotError () :=
  match se_kind entry with
  | EntrySubmodule => Err (UnsupportedSubmodule (se_path entry))
  | EntrySymlink => Err (UnsupportedSymlink (se_path entry))
  | EntryRegular | EntryExecutable => Ok ()
  end.

Definition starts_with_list (p l : list ascii) : bool := is_Some_b (strip_list p l).

(** One turn of the loop over the entries. *)
Definition materialize_entry (repository root : list component) (entry : SourceManifestEntryV1) :
    io machine SourceSnapshotError () :=
  _ ← io_lift (supported_entry entry);
  oid ← io_lift (ok_or (se_blob_oid entry) InvalidTree);
  size_bytes ← git repository ["cat-file"; "-s"; oid] GIT_CAPTURE_LIMIT;
  text ← io_lift (ok_or (from_utf8 size_bytes) InvalidTree);
  size ← io_lift (ok_or (parse_unsigned u64_max (trim text)) InvalidTree);
  _ ← io_lift (ensure (negb (size >? BLOB_CAPTURE_LIMIT)) (BlobTooLarge (se_path entry) size BLOB_CAPTURE_LIMIT));
  content ← git_blob repository ["cat-file"; "blob"; oid];
  _ ← io_lift (ensure (negb (starts_with_list LFS_HEADER content)) (UnsupportedLfs (se_path entry)));
  write_entry root entry content.

Definition materialize_tree (repository : list component) (commit_sha : string) (resource_root root : list component) :
    io machine SourceSnapshotError (SourceManifestV1 * SourceSnapshotEvidenceV1) :=
  tree ← git repository ["ls-tree"; "--full-tree"; "-r"; "-z"; commit_sha] TREE_CAPTURE_LIMIT;
  entries ← io_lift (parse_tree tree);
  _ ← io_each (materialize_entry repository root) entries;
  let manifest := {| sm_schema_version := SOURCE_SNAPSHOT_SCHEMA_VERSION; sm_commit_sha := commit_sha;
                     sm_strategy := "git-object-materialization-v1"; sm_entries := entries |} in
  manifest_digest ← io_lift (map_err (λ _, ManifestSerialization) (canonical_digest manifest));
  entry_count ← io_lift (ok_or (checked_u64 (Z.of_nat (length entries))) TooManyEntries);
  content ← io_lift (ok_or (to_vec manifest) ManifestSerialization);
  _ ← write_new_file (path_join resource_root "manifest-v1.json") (content ++ [line_feed]);
  mret (manifest, {| sv_schema_version := SOURCE_SNAPSHOT_SCHEMA_VERSION; sv_strategy := sm_strategy manifest;
                     sv_manifest_digest := manifest_digest; sv_entry_count := entry_count |}).

Definition materialize (repository : list component) (commit_sha : string) (resource_root : list component) :
    io machine SourceSnapshotError SourceSnapshot :=
  repository ← canonical_repository repository;
  _ ← io_lift (validate_commit commit_sha);
  _ ← on_host (look (λ t, ensure (negb (is_Some_b (tree_get (host_path resource_root) t))) DestinationExists));
  _ ← on_files (create_dir (host_path resource_root));
  let root := path_join resource_root "source" in
  created ← attempt (on_files (create_dir (host_path root)));
  match created with
  | Err e => _ ← on_host (fs_ignore (remove_dir (host_path resource_root))); io_lift (Err e)
  | Ok () =>
    r ← attempt (materialize_tree repository commit_sha resource_root root);
    match r with
    | Err e => _ ← on_host (fs_ignore (remove_dir_all (host_path resource_root))); io_lift (Err e)
    | Ok (manifest, evidence) =>
      mret {| sn_root := root; sn_resource_root := resource_root; sn_repository := repository; sn_manifest := manifest;
              sn_evidence := evidence; sn_cleaned := false; sn_overlay_files := []; sn_overlay_directories := [] |}
    end
  end.

Definition commit_sha (snapshot : SourceSnapshot) : string := sm_commit_sha (sn_manifest snapshot).

Definition set_overlay (files directories : btset string) (snapshot : SourceSnapshot) : SourceSnapshot :=
  {| sn_root := sn_root snapshot; sn_resource_root := sn_resource_root snapshot; sn_repository := sn_repository snapshot;
     sn_manifest := sn_manifest snapshot; sn_evidence := sn_evidence snapshot; sn_cleaned := sn_cleaned snapshot;
     sn_overlay_files := files; sn_overlay_directories := directories |}.
Definition host_exists (p : list component) : io machine SourceSnapshotError bool :=
  on_host (look (λ t, Ok (exists_node (tree_get (host_path p) t)))).

Definition overlay_artifact (check : NormalizedCheck) (snapshot : SourceSnapshot) (artifact : string) :
    io machine SourceSnapshotError SourceSnapshot :=
  let target := path_join (sn_root snapshot) artifact in
  there ← host_exists target;
  if there : bool then mret snapshot else
  match artifact_kind_for check artifact with
  | Directory =>
    _ ← on_files (create_dir_all (host_path target));
    mret (set_overlay (sn_overlay_files snapshot) (set_insert artifact (sn_overlay_directories snapshot)).2 snapshot)
  | RegularFile =>
    parent ← io_lift (parent_of SnapshotInvalidPath target);
    _ ← on_files (create_dir_all (host_path parent));
    _ ← write_new_file target [];
    mret (set_overlay (set_insert artifact (sn_overlay_files snapshot)).2 (sn_overlay_directories snapshot) snapshot)
  end.

Definition overlay_cache (snapshot : SourceSnapshot) (cache : NormalizedCache) : io machine SourceSnapshotError () :=
  let target := path_join (sn_root snapshot) (nc_mount_path cache) in
  there ← host_exists target;
  if there : bool then mret () else on_files (create_dir_all (host_path target)).

(** Its callers give the snapshot up on an error. *)
Definition prepare_mount_overlay (envelope : ExecutionPlanEnvelopeV1) (snapshot : SourceSnapshot) :
    io machine SourceSnapshotError SourceSnapshot :=
  _ ← io_each (overlay_cache snapshot) (ep_caches (pe_plan envelope));
  io_fold (λ snapshot check, io_fold (overlay_artifact check) snapshot (nk_artifacts check)) snapshot
    (ep_checks (pe_plan envelope)).

Definition plain_file_at (p : path) (t : node) : result SourceSnapshotError () :=
  match tree_get p t with
  | Some (File _) => Ok ()
  | Some _ => Err SnapshotChanged
  | None => Err (SnapshotIo NotFound)
  end.
Definition overlay_directory_at (p : path) (t : node) : result SourceSnapshotError () :=
  match tree_get p t with
  | Some (Dir _) => Ok ()
  | Some _ => Err SnapshotChanged
  | None => Err (SnapshotIo NotFound)
  end.

Definition validate_entry_mode (p : list component) (entry : SourceManifestEntryV1) : io machine SourceSnapshotError () :=
  _ ← on_host (look (plain_file_at (host_path p)));
  executable ← get_mode (host_path p);
  io_lift (ensure (Bool.eqb executable (file_mode (se_kind entry))) SnapshotChanged).

(** The paths that the snapshot must hold. *)
Definition expected_paths (snapshot : SourceSnapshot) : btset string :=
  foldl (λ paths p, (set_insert p paths).2) (set_from_list (se_path <$> sm_entries (sn_manifest snapshot)))
    (sn_overlay_files snapshot).

Definition revalidate_entry (snapshot : SourceSnapshot) (entry : SourceManifestEntryV1) : io machine SourceSnapshotError () :=
  let absolute := path_join (sn_root snapshot) (se_path entry) in
  _ ← validate_entry_mode absolute entry;
  text ← io_lift (ok_or (to_str absolute) SnapshotInvalidPath);
  output ← git (sn_repository snapshot) ["hash-object"; "--no-filters"; "--"; text] 256;
  actual ← io_lift (ok_or (from_utf8 output) GitFailure);
  io_lift (ensure (bool_decide (se_blob_oid entry = Some (trim actual))) SnapshotChanged).

Definition revalidate (snapshot : SourceSnapshot) : io machine SourceSnapshotError () :=
  files ← on_host (look (collect_regular_files (host_path (sn_root snapshot))));
  _ ← io_lift (ensure (bool_decide (files = expected_paths snapshot)) SnapshotChanged);
  _ ← io_each (λ directory, on_host (look (overlay_directory_at (host_path (path_join (sn_root snapshot) directory)))))
        (sn_overlay_directories snapshot);
  _ ← io_each (revalidate_entry snapshot) (sm_entries (sn_manifest snapshot));
  digest ← io_lift (map_err (λ _, ManifestSerialization) (canonical_digest (sn_manifest snapshot)));
  io_lift (ensure (digest =? sv_manifest_digest (sn_evidence snapshot))%string SnapshotChanged).

Definition cleanup (snapshot : SourceSnapshot) : io machine SourceSnapshotError SourceSnapshot :=
  _ ← on_files (remove_dir_all (host_path (sn_resource_root snapshot)));
  mret {| sn_root := sn_root snapshot; sn_resource_root := sn_resource_root snapshot; sn_repository := sn_repository snapshot;
          sn_manifest := sn_manifest snapshot; sn_evidence := sn_evidence snapshot; sn_cleaned := true;
          sn_overlay_files := sn_overlay_files snapshot; sn_overlay_directories := sn_overlay_directories snapshot |}.
Definition drop_snapshot (snapshot : SourceSnapshot) : io machine SourceSnapshotError () :=
  if sn_cleaned snapshot then mret () else on_host (fs_ignore (remove_dir_all (host_path (sn_resource_root snapshot)))).

Definition resolve_clean_head (repository : list component) (receipt_output : string) : io machine SourceSnapshotError string :=
  repository ← canonical_repository repository;
  output ← git repository ["rev-parse"; "--verify"; "HEAD"] 256;
  text ← io_lift (ok_or (from_utf8 output) SnapshotInvalidCommit);
  let commit := trim text in
  _ ← io_lift (validate_commit commit);
  status ← git repository
    ["status"; "--porcelain=v1"; "--untracked-files=all"; "--"; "."; ":(exclude)" +:+ receipt_output] TREE_CAPTURE_LIMIT;
  _ ← io_lift (ensure (is_nil status) SnapshotDirtyRepository);
  mret commit.
End Snapshot.
