(* ===== verification/SourceSnapshotProps.v ===== *)
(** Lemmas on source snapshots ([SourceSnapshot.v]): the listing of Git, the files
    below a directory, and where the entries lie. *)
From S2P Require Import Prelude.
From S2P Require Import RustStr.
From S2P Require Import BTree.
From S2P Require Import Canonical.
From S2P Require Import Config.
From S2P Require Import Receipt.
From S2P Require Import Durable.
From S2P Require Import Resource.
From S2P Require Import ResourceProps.
From S2P Require Import FileSystem.
From S2P Require Import CacheRoot.
From S2P Require Import Workspace.
From S2P Require Import WorkspaceProps.
From S2P Require Import Artifacts.
From S2P Require Import ArtifactProps.
From S2P Require Import Ports.
From S2P Require Import Process.
From S2P Require Import Runtime.
From S2P Require Import SourceSnapshot.
Local Open Scope Z_scope.

(** * The listing of Git *)

Definition tab : ascii := ascii_of_nat 9.
Definition nul : ascii := ascii_of_nat 0.

(** A record of [git ls-tree -r -z]: mode, type, object and path. *)
Definition object_type (kind : SourceEntryKindV1) : string := match kind with EntrySubmodule => "commit" | _ => "blob" end.
Definition entry_oid (e : SourceManifestEntryV1) : string :=
  default "" (match se_kind e with EntrySubmodule => se_submodule_oid e | _ => se_blob_oid e end).
Definition header_of (e : SourceManifestEntryV1) : string :=
  se_mode e +:+ " " +:+ object_type (se_kind e) +:+ " " +:+ entry_oid e.
Definition record_of (e : SourceManifestEntryV1) : list ascii := bytes (header_of e) ++ tab :: bytes (se_path e).

(** An entry that Git can have listed. *)
Definition entry_fine (e : SourceManifestEntryV1) : Prop :=
  validate_path (se_path e) = Ok () ∧ valid_utf8 (bytes (se_path e)) = true ∧ valid_oid (entry_oid e) = true ∧
  entry_kind (se_mode e) (object_type (se_kind e)) (entry_oid e) = Ok (se_kind e, se_blob_oid e, se_submodule_oid e).

Lemma entry_kind_ok mode object oid kind blob sub : entry_kind mode object oid = Ok (kind, blob, sub) →
  mode ∈ ["100644"; "100755"; "120000"; "160000"] ∧ object = object_type kind ∧
  oid = default "" (match kind with EntrySubmodule => sub | _ => blob end).
Proof.
  unfold entry_kind. intros Hk.
  repeat match type of Hk with context [if ?b then _ else _] => destruct b eqn:? end; simplify_eq;
    bool_prop; repeat match goal with E : (_ =? _)%string = true |- _ => apply String.eqb_eq in E end; subst;
    (split; [by rewrite !elem_of_cons; tauto|done]).
Qed.

(** The characters of a header are printable. *)
Lemma lower_hex_printable a : is_lower_hex a = true → 33 ≤ code a < 127.
Proof. unfold is_lower_hex, is_ascii_digit. rewrite orb_true_iff, !in_range_spec. lia. Qed.

Lemma valid_oid_chars oid : valid_oid oid = true → Forall (λ a, 33 ≤ code a < 127) (bytes oid).
Proof.
  unfold valid_oid, all_bytes. rewrite andb_true_iff, forallb_Forall. intros [_ Ho].
  eapply Forall_impl; [exact Ho|]. apply lower_hex_printable.
Qed.

Ltac printable := repeat (constructor; [unfold code; cbn; lia|]); constructor.

Lemma mode_chars mode : mode ∈ ["100644"; "100755"; "120000"; "160000"] → Forall (λ a, 33 ≤ code a < 127) (bytes mode).
Proof. rewrite !elem_of_cons, elem_of_nil. intros [->|[->|[->|[->|[]]]]]; printable. Qed.

Lemma type_chars kind : Forall (λ a, 33 ≤ code a < 127) (bytes (object_type kind)).
Proof. destruct kind; printable. Qed.

Lemma chars_without a l : code a < 33 → Forall (λ a, 33 ≤ code a < 127) l → a ∉ l.
Proof. intros Ha Hl Hin. rewrite Forall_forall in Hl. apply Hl in Hin. lia. Qed.

Lemma header_chars e : entry_fine e → Forall (λ a, 32 ≤ code a < 127) (bytes (header_of e)).
Proof.
  intros (_ & _ & Ho & (Hm & _)%entry_kind_ok). unfold header_of. rewrite !bytes_append, !Forall_app.
  assert (Hw : ∀ l, Forall (λ a, 33 ≤ code a < 127) l → Forall (λ a, 32 ≤ code a < 127) l)
    by (intros l Hl; eapply Forall_impl; [exact Hl|]; cbn; intros; lia).
  split_and!; try (apply Hw; first [by apply mode_chars|apply type_chars|by apply valid_oid_chars]); printable.
Qed.

Lemma header_split e : entry_fine e → split " " (header_of e) = [se_mode e; object_type (se_kind e); entry_oid e].
Proof.
  intros (_ & _ & Ho & (Hm & _)%entry_kind_ok). unfold split, header_of. rewrite !bytes_append.
  transitivity (str <$> [bytes (se_mode e); bytes (object_type (se_kind e)); bytes (entry_oid e)]).
  - f_equal. rewrite <-(split_join_list " "); [done|done|].
    assert (Hsp : ∀ l, Forall (λ a, 33 ≤ code a < 127) l → ¬ In " "%char l)
      by (intros l Hl; rewrite <-list_elem_of_In; by apply chars_without).
    repeat constructor; apply Hsp; [by apply mode_chars|apply type_chars|by apply valid_oid_chars].
  - cbn [fmap list_fmap]. by rewrite !str_bytes.
Qed.

Lemma parse_record_ok r e : parse_record r = Ok e ↔ entry_fine e ∧ r = record_of e.
Proof.
  unfold parse_record. split.
  - intros Hp. apply bind_ok in Hp as ([before after] & Hs%ok_or_ok & Hp). apply split_once_list_some in Hs as [-> Hnt].
    apply bind_ok in Hp as (header & Hh%ok_or_ok & Hp). apply bind_ok in Hp as (path & Hpath%ok_or_ok & Hp).
    apply bind_ok in Hp as ([] & Hv & Hp). apply bind_ok in Hp as ([[mode object] oid] & Hf%ok_or_ok & Hp).
    apply bind_ok in Hp as ([[kind blob] sub] & Hk & Hp). injection Hp as <-.
    unfold from_utf8 in Hh, Hpath. destruct (valid_utf8 before) eqn:Vb; [|done]. destruct (valid_utf8 after) eqn:Va; [|done].
    injection Hh as <-. injection Hpath as <-.
    destruct (split " " (str before)) as [|m [|o [|i [|]]]] eqn:Es; try discriminate Hf.
    destruct (valid_oid i) eqn:Vo; [|discriminate Hf]. injection Hf as -> -> ->.
    pose proof (entry_kind_ok _ _ _ _ _ _ Hk) as (Hm & -> & Hoid).
    unfold entry_fine, record_of, header_of, entry_oid. cbn [se_path se_mode se_kind se_blob_oid se_submodule_oid].
    rewrite <-Hoid, !bytes_str. split; [by split_and!|]. f_equal.
    rewrite <-(join_split_list " " before). unfold split in Es. rewrite bytes_str in Es.
    rewrite !bytes_append.
    assert (El : split_list " " before = bytes <$> [mode; object_type kind; oid]).
    { rewrite <-Es, <-list_fmap_compose. rewrite <-(list_fmap_id (split_list _ _)) at 1. apply list_fmap_ext.
      intros ? ? _. cbn. by rewrite bytes_str. }
    rewrite El. cbn. done.
  - intros [He ->]. pose proof (header_chars e He) as Hc. pose proof (header_split e He) as Hs. destruct He as (Hv & Hu & Ho & Hk).
    unfold record_of. rewrite (proj2 (split_once_list_some tab _ (bytes (header_of e)) (bytes (se_path e)))).
    2: { split; [done|]. intros Hin. rewrite Forall_forall in Hc. apply Hc in Hin. change (32 ≤ 9 < 127) in Hin. lia. }
    cbn [ok_or mbind result_bind]. unfold from_utf8.
    rewrite (valid_utf8_ascii (bytes (header_of e))) by (eapply Forall_impl; [exact Hc|]; cbn; intros; lia).
    cbn [ok_or mbind result_bind]. rewrite Hu. cbn [ok_or mbind result_bind]. rewrite !str_bytes, Hv. cbn [ok_or mbind result_bind].
    rewrite Hs, Ho. cbn [ok_or mbind result_bind]. rewrite Hk. cbn. by destruct e.
Qed.

(** The listing as the records it is made of. *)
Definition records (output : list ascii) : list (list ascii) :=
  List.filter (λ record, negb (is_nil record)) (split_list nul output).

Lemma parse_fold_ok rs acc entries : (Z.of_nat (length acc) ≤ MAX_ENTRIES) →
  try_fold parse_step acc rs = Ok entries ↔
  ∃ new, entries = acc ++ new ∧ Forall entry_fine new ∧ rs = record_of <$> new ∧ Z.of_nat (length entries) ≤ MAX_ENTRIES.
Proof.
  revert acc. induction rs as [|r rs IH]; intros acc Hacc; cbn [try_fold].
  - split.
    + intros [= <-]. exists []. by rewrite app_nil_r.
    + intros (new & -> & _ & Hn & _). symmetry in Hn. apply fmap_nil_inv in Hn as ->. by rewrite app_nil_r.
  - rewrite bind_ok. unfold parse_step at 1. split.
    + intros (acc' & Hs & Hr). apply bind_ok in Hs as ([] & Hl%ensure_ok & Hs). apply bind_ok in Hs as (e & [He ->]%parse_record_ok & [= <-]).
      apply negb_true_iff, Z.leb_gt in Hl. apply IH in Hr as (new & -> & Hf & -> & Hm); [|rewrite length_app; cbn; lia].
      exists (e :: new). split_and!; [by rewrite <-app_assoc|by constructor|done|done].
    + intros (new & -> & Hf & Hn & Hm). destruct new as [|e new]; [done|]. injection Hn as -> ->.
      apply Forall_cons in Hf as [He Hf]. exists (acc ++ [e]). rewrite length_app in Hm. cbn [length] in Hm. split.
      * apply bind_ok. exists (). split; [apply ensure_ok, negb_true_iff, Z.leb_gt; lia|].
        apply bind_ok. exists e. by split; [apply parse_record_ok|].
      * apply IH; [rewrite length_app; cbn; lia|]. exists new.
        split_and!; [by rewrite <-app_assoc|done|done|rewrite !length_app; cbn; lia].
Qed.

Lemma parse_tree_iff output l : parse_tree output = Ok l ↔
  ∃ entries, l = sort_by se_path entries ∧ Forall entry_fine entries ∧ records output = record_of <$> entries ∧
             Z.of_nat (length entries) ≤ MAX_ENTRIES.
Proof.
  unfold parse_tree. rewrite bind_ok. split.
  - intros (entries & Hf & [= <-]). apply parse_fold_ok in Hf as (new & -> & ? & ? & ?); [|done]. by exists new.
  - intros (entries & -> & ? & ? & ?). exists entries. split; [|done]. apply parse_fold_ok; [done|]. by exists entries.
Qed.

(** What Git prints: every record ends with a zero byte. *)
Definition printed (entries : list SourceManifestEntryV1) : list ascii := concat ((λ e, record_of e ++ [nul]) <$> entries).

Lemma control_free_path e : entry_fine e → nul ∉ bytes (se_path e).
Proof.
  intros (Hv & _). unfold validate_path in Hv. apply ensure_ok, negb_true_iff in Hv. rewrite !orb_false_iff in Hv.
  destruct Hv as [[[_ Hc] _] _]. intros Hin. apply not_true_iff_false in Hc. apply Hc, existsb_exists.
  exists nul. by split; [apply list_elem_of_In|].
Qed.

Lemma records_printed entries : Forall entry_fine entries → records (printed entries) = record_of <$> entries.
Proof.
  induction 1 as [|e entries He Hf IH]; [done|].
  assert (printed (e :: entries) = record_of e ++ nul :: printed entries) as ->
    by (unfold printed; cbn; by rewrite <-app_assoc).
  unfold records in *. rewrite split_list_app, List.filter_app, IH. assert (Hn : ¬ In nul (record_of e)).
  { unfold record_of. rewrite in_app_iff. intros [Hin|[Hin|Hin]]; [|done|].
    - apply list_elem_of_In in Hin. pose proof (header_chars e He) as Hc. rewrite Forall_forall in Hc. apply Hc in Hin.
      change (32 ≤ 0 < 127) in Hin. lia.
    - by apply (control_free_path e He), list_elem_of_In. }
  assert (split_list nul (record_of e) = [record_of e]) as ->
    by (apply (split_join_list nul [record_of e]); [done|by constructor]). cbn.
  destruct (record_of e) eqn:E; [|done]. unfold record_of in E. by destruct (bytes (header_of e)).
Qed.

(** * Where the entries lie *)

Definition path_of (text : string) : path := tree_names (components text).

Lemma validate_path_normal text : validate_path text = Ok () →
  text ≠ "" ∧ components text = Normal <$> path_of text ∧ path_of text ≠ [].
Proof.
  unfold validate_path. intros Hv%ensure_ok. rewrite negb_true_iff, !orb_false_iff in Hv. destruct Hv as [[[He Hc] Ha] Hn].
  assert (Hne : text ≠ "") by (intros ->; done).
  assert (Hall : Forall (λ c, is_normal c = true) (components text)).
  { rewrite Forall_forall. intros c Hin. apply not_true_iff_false in Hn. destruct (is_normal c) eqn:E; [done|]. destruct Hn.
    apply existsb_exists. exists c. by rewrite E; split; [apply list_elem_of_In|]. }
  assert (G : ∀ l acc, Forall (λ c, is_normal c = true) l →
    foldl (λ p c, match c with Normal name => p ++ [name] | ParentDir => removelast p | _ => p end) acc l =
    acc ++ tree_names l ∧ l = Normal <$> tree_names l).
  { clear. unfold tree_names. intros l. induction l as [|c l IH]; intros acc Hl; cbn; [by rewrite app_nil_r|].
    apply Forall_cons in Hl as [Hc Hl]. destruct c as [| | |name]; try done. destruct (IH (acc ++ [name]) Hl) as [-> _].
    destruct (IH [name] Hl) as [-> E]. rewrite fmap_app. cbn. rewrite <-E. split; [by rewrite <-app_assoc|done]. }
  destruct (G _ [] Hall) as [_ E]. split_and!; [done|done|]. intros E0. unfold path_of in E0. rewrite E0 in E. cbn in E.
  unfold components in Ha, E, Hall. destruct (starts_with "/" text) eqn:Es; [done|]. unfold split in *.
  destruct (bytes text) as [|a l] eqn:Eb; [by apply (f_equal str) in Eb; rewrite str_bytes in Eb|].
  assert (a ≠ "/"%char) as Hs.
  { intros ->. unfold starts_with, strip_prefix in Es. by rewrite Eb in Es. }
  cbn [split_list] in *. destruct (Ascii.eqb_spec a "/"); [done|].
  destruct (split_list "/" l) as [|w r] eqn:Er; [by apply split_list_nonempty in Er|]. cbn [fmap list_fmap] in *.
  set (parts := str (a :: w) :: _) in *. set (kept := named_component <$> _) in *.
  assert (Hk : kept = []) by (repeat case_match; done).
  assert (Hd : str (a :: w) = ".") by (destruct (String.eqb_spec (str (a :: w)) "."); [done|];
    unfold kept, parts in Hk; cbn [List.filter] in Hk; rewrite andb_true_l in Hk; case_match; [done|by bool_prop]).
  unfold parts in E. rewrite Hd in E. done.
Qed.

(** * The files below a directory *)

Lemma directory_count_eq n : directory_count n = directories n.
Proof.
  induction n as [|entries IH| |] using node_tree_ind; try done. rewrite directories_dir. cbn. f_equal. f_equal.
  induction IH as [|kv entries Hkv Hall IH]; cbn; [done|]. by rewrite Hkv, IH.
Qed.

Lemma names_text (p : path) : path_text (Normal <$> p) = logical_path p.
Proof.
  unfold path_text, logical_path. rewrite <-list_fmap_compose. replace (component_text ∘ Normal <$> p) with p by (symmetry; apply list_fmap_id).
  by destruct p as [|? []].
Qed.

Definition collectable (n : node) : bool := match n with File _ | Dir _ => true | _ => false end.

Lemma collect_children_ok current es : ∀ pend out pend' out',
  try_fold (collect_child current) (pend, out) es = Ok (pend', out') →
  Forall (λ kv, collectable kv.2 = true) es ∧
  pend' = pend ++ ((λ kv, current ++ [kv.1]) <$> List.filter (λ kv, is_dir_node kv.2) es) ∧
  (∀ x, x ∈ out' ↔ x ∈ out ∨ ∃ kv c, kv ∈ es ∧ kv.2 = File c ∧ x = logical_path (current ++ [kv.1])) ∧
  (set_sorted out → set_sorted out').
Proof.
  induction es as [|kv es IH]; intros pend out pend' out'; cbn [try_fold].
  { intros [= <- <-]. split_and!; [done|by rewrite app_nil_r| |done]. intros x. split; [by left|].
    intros [?|(? & ? & Hin & _)]; [done|by apply not_elem_of_nil in Hin]. }
  intros Hf. apply bind_ok in Hf as ([pend1 out1] & H1 & Hf). apply IH in Hf as (Hc & -> & Hx & Hs).
  unfold collect_child in H1. destruct (kv.2) as [content|entries|b target|] eqn:En; try discriminate H1.
  - apply bind_ok in H1 as (text & Ht%ok_or_ok & [= <- <-]).
    unfold to_str in Ht. rewrite names_text in Ht. destruct (valid_utf8 _); [|done]. injection Ht as <-.
    split_and!; [constructor; [by rewrite En|done]|cbn [List.filter]; by rewrite En| |].
    + intros x. rewrite Hx, elem_of_set_insert. split.
      * intros [[->|?]|(kv' & c & Hin & ? & ?)]; [right; exists kv, content; split_and!; [by left|done|done]|by left|].
        right. exists kv', c. split_and!; [by right|done|done].
      * intros [?|(kv' & c & [->|Hin]%elem_of_cons & E & ->)]; [by left; right|by left; left|]. right. by exists kv', c.
    + intros Ho. by apply Hs, set_insert_sorted.
  - injection H1 as <- <-.
    split_and!; [constructor; [by rewrite En|done]|cbn [List.filter]; rewrite En; cbn; by rewrite <-app_assoc| |done].
    intros x. rewrite Hx. split.
    + intros [?|(kv' & c & Hin & ? & ?)]; [by left|]. right. exists kv', c. split_and!; [by right|done|done].
    + intros [?|(kv' & c & [->|Hin]%elem_of_cons & E & ->)]; [by left|congruence|]. right. by exists kv', c.
Qed.

(** A file below a directory is one of its entries, or below one of its directories. *)
Lemma files_of_entries es (q : path) content : (q, content) ∈ files_of (Dir es) ↔
  (∃ kv, kv ∈ es ∧ kv.2 = File content ∧ q = [kv.1]) ∨
  (∃ kv q', kv ∈ es ∧ is_dir_node kv.2 = true ∧ (q', content) ∈ files_of kv.2 ∧ q = kv.1 :: q').
Proof.
  cbn. rewrite list_elem_of_In, in_concat. split.
  - intros (l & Hl & Hin). apply in_map_iff in Hl as (kv & <- & Hkv). apply in_map_iff in Hin as ([q' c] & [= <- <-] & Hq).
    apply list_elem_of_In in Hkv, Hq. destruct (kv.2) as [c'|es'| |] eqn:E; cbn in Hq; try by apply not_elem_of_nil in Hq.
    + apply list_elem_of_singleton in Hq as [= -> ->]. left. by exists kv.
    + right. exists kv, q'. rewrite E. by split_and!.
  - intros [(kv & Hkv & E & ->)|(kv & q' & Hkv & E & Hq & ->)]; eexists; (split; [apply in_map, list_elem_of_In, Hkv|]).
    + rewrite E. by left.
    + apply in_map_iff. exists (q', content). by split; [|apply list_elem_of_In].
Qed.

Lemma entry_at es t p kv : node_wf t → tree_get p t = Some (Dir es) → kv ∈ es → tree_get (p ++ [kv.1]) t = Some kv.2.
Proof.
  intros Hw Hg Hin. pose proof (wf_at p t _ Hw Hg) as Hd. inversion Hd as [|? Hs _| |]; subst. rewrite tree_get_snoc, Hg. cbn.
  apply (map_get_elem (K := string)); [done|by destruct kv].
Qed.

(** What the loop gives for the directories that are pending. *)
Definition pending_fine (root : path) (t : node) (pending : list path) : Prop :=
  Forall (λ p, ∃ es, tree_get (root ++ p) t = Some (Dir es)) pending.
Definition pending_files (root : path) (t : node) (pending : list path) (x : string) : Prop :=
  ∃ p n q content, p ∈ pending ∧ tree_get (root ++ p) t = Some n ∧ (q, content) ∈ files_of n ∧ x = logical_path (p ++ q).

Lemma pending_children root t current es : node_wf t → tree_get (root ++ current) t = Some (Dir es) →
  pending_fine root t ((λ kv, current ++ [kv.1]) <$> List.filter (λ kv, is_dir_node kv.2) es).
Proof.
  intros Hw Hes. unfold pending_fine. rewrite Forall_forall. intros p (kv & -> & Hin)%list_elem_of_fmap.
  apply list_elem_of_In, filter_In in Hin as [Hin%list_elem_of_In Hd]. rewrite app_assoc, (entry_at es) by done.
  destruct (kv.2) as [|es'| |] eqn:E; try done. by exists es'.
Qed.

Lemma collect_loop_ok root t : node_wf t → ∀ fuel pending output files,
  pending_fine root t pending → collect_loop fuel root t pending output = Ok files →
  Forall (λ p, ∃ n, tree_get (root ++ p) t = Some n ∧ plain_tree n) pending ∧
  (∀ x, x ∈ files ↔ x ∈ output ∨ pending_files root t pending x) ∧ (set_sorted output → set_sorted files).
Proof.
  intros Hw fuel. induction fuel as [|fuel IH]; intros pending output files Hp Hc; cbn [collect_loop] in Hc;
    destruct (last pending) as [current|] eqn:El; try discriminate Hc.
  1,3: injection Hc as <-; apply last_None in El as ->; split_and!; [done| |done]; intros x; split; [by left|];
    intros [?|(? & ? & ? & ? & Hin & _)]; [done|by apply not_elem_of_nil in Hin].
  apply last_Some in El as [rest ->]. rewrite removelast_last in Hc.
  apply Forall_app in Hp as [Hrest [Hcur _]%Forall_cons]. destruct Hcur as [es Hes]. rewrite Hes in Hc. cbn [mbind result_bind] in Hc.
  apply bind_ok in Hc as ([pend' out'] & Hch & Hc). apply collect_children_ok in Hch as (Hcol & -> & Hx & Hs).
  pose proof (pending_children root t current es Hw Hes) as Hsub.
  apply IH in Hc as (Hpl & Hf & Hso); [|by apply Forall_app]. apply Forall_app in Hpl as [Hpl Hpsub].
  assert (Hroot : plain_tree (Dir es)).
  { apply plain_dir, Forall_forall. intros kv Hin. change (plain_tree kv.2). pose proof (proj1 (Forall_forall _ _) Hcol) as Hcol'.
    pose proof (proj1 (Forall_forall _ _) Hpsub) as Hpsub'. pose proof (Hcol' _ Hin : collectable kv.2 = true) as Hk.
    destruct (kv.2) as [|es'| |] eqn:E; try done. destruct (Hpsub' (current ++ [kv.1])) as (n & Hn & Hpn).
    - apply list_elem_of_fmap. exists kv. split; [done|]. apply list_elem_of_In, filter_In. by rewrite E; split; [apply list_elem_of_In|].
    - rewrite app_assoc, (entry_at es) in Hn by done. rewrite E in Hn. by injection Hn as <-. }
  split_and!; [|intros x; rewrite Hf, Hx|intros Ho; by apply Hso, Hs].
  - apply Forall_app. split; [done|]. constructor; [by eexists|done].
  - split.
    + intros [[?|(kv & c & Hin & E & ->)]|(p & n & q & c & Hin & Hn & Hq & ->)]; [by left|right|right].
      * exists current, (Dir es), [kv.1], c. split_and!; [by apply elem_of_app; right; left|done| |done].
        apply files_of_entries. left. by exists kv.
      * apply elem_of_app in Hin as [Hin|(kv & -> & Hin)%list_elem_of_fmap].
        { exists p, n, q, c. split_and!; [by apply elem_of_app; left|done..]. }
        apply list_elem_of_In, filter_In in Hin as [Hin%list_elem_of_In Hd].
        rewrite app_assoc, (entry_at es) in Hn by done. injection Hn as <-.
        exists current, (Dir es), (kv.1 :: q), c. split_and!; [by apply elem_of_app; right; left|done| |by rewrite <-app_assoc].
        apply files_of_entries. right. by exists kv, q.
    + intros [?|(p & n & q & c & Hin & Hn & Hq & ->)]; [by left; left|].
      apply elem_of_app in Hin as [Hin|Hin%list_elem_of_singleton].
      { right. exists p, n, q, c. split_and!; [by apply elem_of_app; left|done..]. }
      subst p. rewrite Hes in Hn. injection Hn as <-.
      apply files_of_entries in Hq as [(kv & Hin & E & ->)|(kv & q' & Hin & E & Hq & ->)]; [left; right; by exists kv, c|].
      right. exists (current ++ [kv.1]), (kv.2), q', c. split_and!; [|by rewrite app_assoc, (entry_at es)|done|by rewrite <-app_assoc].
      apply elem_of_app. right. apply list_elem_of_fmap. exists kv. split; [done|]. apply list_elem_of_In, filter_In.
      by split; [apply list_elem_of_In|].
Qed.

(** The turns are enough. *)
Definition cost_of (root : path) (t : node) (p : path) : nat :=
  match tree_get (root ++ p) t with Some n => directories n | None => 0 end.

Lemma collect_children_fault current es : ∀ st f, try_fold (collect_child current) st es ≠ Err (SnapshotFault f).
Proof.
  induction es as [|kv es IH]; intros st f; cbn [try_fold]; [done|].
  destruct (collect_child current st kv) as [st'|e] eqn:E; cbn [mbind result_bind]; [apply IH|]. intros [= ->].
  destruct st as [pend out]. unfold collect_child in E. destruct (kv.2); try discriminate E.
  destruct (to_str _); discriminate E.
Qed.

Lemma cost_children_le root t current es :
  Forall (λ kv, tree_get (root ++ current ++ [kv.1]) t = Some kv.2) es →
  (sum_list (cost_of root t <$> ((λ kv, current ++ [kv.1]) <$> List.filter (λ kv, is_dir_node kv.2) es)) ≤
   sum_list (directories ∘ snd <$> es))%nat.
Proof.
  induction 1 as [|kv es Hkv Hall IH]; [done|]. cbn [List.filter]. destruct (is_dir_node kv.2); cbn in *; [|lia].
  unfold cost_of at 1. rewrite Hkv. lia.
Qed.

Lemma collect_loop_fuel root t : node_wf t → ∀ fuel pending output f,
  pending_fine root t pending → (sum_list (cost_of root t <$> pending) ≤ fuel)%nat →
  collect_loop fuel root t pending output ≠ Err (SnapshotFault f).
Proof.
  intros Hw fuel. induction fuel as [|fuel IH]; intros pending output f Hp Hf; cbn [collect_loop];
    destruct (last pending) as [current|] eqn:El; try done; apply last_Some in El as [rest ->];
    rewrite fmap_app, sum_list_with_app in Hf; cbn in Hf;
    apply Forall_app in Hp as [Hrest [Hcur _]%Forall_cons]; destruct Hcur as [es Hes];
    unfold cost_of at 2 in Hf; rewrite Hes in Hf; rewrite directories_dir in Hf; [lia|].
  rewrite Hes. cbn [mbind result_bind]. rewrite removelast_last.
  destruct (try_fold _ _ es) as [[pend' out']|e] eqn:Ech; cbn [mbind result_bind].
  - apply collect_children_ok in Ech as (_ & -> & _). apply IH; [by apply Forall_app; split; [|apply pending_children]|].
    rewrite fmap_app, sum_list_with_app. pose proof (cost_children_le root t current es). 
    assert (Forall (λ kv, tree_get (root ++ current ++ [kv.1]) t = Some kv.2) es) as Hall; [|specialize (H Hall); lia].
    apply Forall_forall. intros kv Hin. by rewrite app_assoc, (entry_at es).
  - intros E. injection E as ->. by eapply collect_children_fault.
Qed.

(** ** The files of the snapshot *)

Lemma collect_regular_files_ok root t files : node_wf t → collect_regular_files root t = Ok files →
  ∃ es, tree_get root t = Some (Dir es) ∧ plain_tree (Dir es) ∧ set_sorted files ∧
        ∀ x, x ∈ files ↔ ∃ q content, (q, content) ∈ files_of (Dir es) ∧ x = logical_path q.
Proof.
  intros Hw Hc. unfold collect_regular_files in Hc.
  assert (Hd : ∃ es, tree_get root t = Some (Dir es)).
  { destruct (tree_get root t) as [[|es| |]|] eqn:E; [|by exists es|..]; cbn [collect_loop last directory_count] in Hc;
      rewrite app_nil_r, E in Hc; discriminate Hc. }
  destruct Hd as [es Hes]. exists es. apply collect_loop_ok in Hc as (Hp & Hx & Hs); [|done|].
  2: { constructor; [|done]. exists es. by rewrite app_nil_r. }
  apply Forall_cons in Hp as [(n & Hn & Hp) _]. rewrite app_nil_r, Hes in Hn. injection Hn as <-.
  split_and!; [done|done|apply Hs; constructor|]. intros x. rewrite Hx. split.
  - intros [Hin|(p & n & q & c & ->%list_elem_of_singleton & Hn & Hq & ->)]; [by apply not_elem_of_nil in Hin|].
    rewrite app_nil_r, Hes in Hn. injection Hn as <-. by exists q, c.
  - intros (q & c & Hq & ->). right. exists [], (Dir es), q, c. split_and!; [by left|by rewrite app_nil_r|done|done].
Qed.

Lemma collect_regular_files_no_fault root t f : node_wf t → collect_regular_files root t ≠ Err (SnapshotFault f).
Proof.
  intros Hw. unfold collect_regular_files. destruct (tree_get root t) as [[|es| |]|] eqn:E;
    [cbn [collect_loop last directory_count]; by rewrite app_nil_r, E| |cbn [collect_loop last directory_count]; by rewrite app_nil_r, E..].
  apply collect_loop_fuel; [done| |].
  - constructor; [|done]. exists es. by rewrite app_nil_r.
  - rewrite directory_count_eq. cbn [fmap list_fmap]. unfold cost_of. rewrite app_nil_r, E. cbn. lia.
Qed.

Lemma file_listed q content n : tree_get q n = Some (File content) → (q, content) ∈ files_of n.
Proof.
  revert n. induction q as [|k q IH]; intros n Hg.
  - injection Hg as ->. by left.
  - rewrite tree_get_cons in Hg. destruct n as [|es| |]; try done. cbn [child] in Hg.
    apply bind_Some in Hg as (c & Ek & Hg). apply IH in Hg. apply map_get_in in Ek.
    cbn. apply list_elem_of_In, in_concat. eexists. split; [by apply in_map, list_elem_of_In|].
    apply in_map_iff. exists (q, content). by split; [|apply list_elem_of_In].
Qed.

Lemma elem_of_expected snapshot x : x ∈ expected_paths snapshot ↔
  x ∈ sn_overlay_files snapshot ∨ ∃ e, e ∈ sm_entries (sn_manifest snapshot) ∧ x = se_path e.
Proof.
  unfold expected_paths. assert (G : ∀ l acc, x ∈ foldl (λ paths p, (set_insert p paths).2) acc l ↔ x ∈ l ∨ x ∈ acc).
  { induction l as [|y l IH]; intros acc; cbn [foldl]; [rewrite elem_of_nil; tauto|].
    rewrite IH, elem_of_set_insert, elem_of_cons. tauto. }
  rewrite G. rewrite (proj2 (set_from_list_spec _)), list_elem_of_fmap. naive_solver.
Qed.

(** * Names *)

(** A name that a directory can have. *)
Definition plain_name (s : string) : bool := plain_segment s && negb (contains_char "/" s).

Lemma plain_split q : q ≠ [] → Forall (λ s, plain_name s = true) q → split "/" (logical_path q) = q.
Proof.
  intros Hq Hp. unfold split, logical_path. rewrite bytes_concat, split_join_list.
  - rewrite <-list_fmap_compose. rewrite <-(list_fmap_id q) at 2. apply list_fmap_ext. intros ? ? _. cbn. by rewrite str_bytes.
  - by destruct q.
  - apply Forall_fmap. eapply Forall_impl; [exact Hp|]. intros s Hs. unfold plain_name in Hs.
    apply andb_true_iff in Hs as [_ Hs%negb_true_iff]. cbn. rewrite <-contains_char_spec. by rewrite Hs.
Qed.

Lemma plain_first q : Forall (λ s, plain_name s = true) q → starts_with "/" (logical_path q) = false.
Proof.
  destruct q as [|s q]; intros Hp; [done|]. pose proof (plain_split (s :: q) ltac:(done) Hp) as Hsp. apply Forall_cons in Hp as [Hs _].
  destruct (starts_with "/" _) eqn:E; [|done]. unfold starts_with in E.
  destruct (strip_prefix "/" (logical_path (s :: q))) as [r|] eqn:Er; [|done]. apply strip_prefix_some in Er. rewrite Er in Hsp.
  unfold split in Hsp. rewrite bytes_append in Hsp. change (bytes "/") with ["/"%char] in Hsp. cbn [app split_list] in Hsp.
  cbn in Hsp. injection Hsp as <- _. done.
Qed.

Lemma components_logical q : Forall (λ s, plain_name s = true) q → q ≠ [] → components (logical_path q) = Normal <$> q.
Proof.
  intros Hp Hq. rewrite components_names.
  - by rewrite plain_split.
  - by apply plain_first.
  - rewrite plain_split by done. eapply Forall_impl; [exact Hp|]. intros s Hs. by apply andb_true_iff in Hs as [].
Qed.

Lemma names_of_normals (q : path) : tree_names (Normal <$> q) = q.
Proof.
  unfold tree_names. assert (G : ∀ acc, foldl (λ p c, match c with Normal name => p ++ [name] | ParentDir => removelast p | _ => p end) acc (Normal <$> q) = acc ++ q); [|apply G].
  induction q as [|s q IH]; intros acc; cbn; [by rewrite app_nil_r|]. by rewrite IH, <-app_assoc.
Qed.

(** An absolute path. *)
Definition absolute (p : path) : list component := RootDir :: (Normal <$> p).

Lemma host_path_absolute p : host_path (absolute p) = p.
Proof. apply names_of_normals. Qed.

Lemma absolute_text p : p ≠ [] → path_text (absolute p) = "/" +:+ logical_path p.
Proof.
  intros Hp. unfold path_text, absolute. destruct p as [|s p]; [done|]. unfold logical_path.
  cbn [fmap list_fmap component_text]. replace (component_text <$> (Normal <$> p)) with p; [done|].
  rewrite <-list_fmap_compose. symmetry. apply list_fmap_id.
Qed.

Lemma plain_segments p : Forall (λ s, plain_name s = true) p → Forall (λ s, plain_segment s = true) p.
Proof. intros Hp. eapply Forall_impl; [exact Hp|]. intros s E. by apply andb_true_iff in E as []. Qed.

Lemma components_absolute p : p ≠ [] → Forall (λ s, plain_name s = true) p → components (path_text (absolute p)) = absolute p.
Proof.
  intros Hp Hall. rewrite absolute_text by done. unfold components.
  change (starts_with "/" ("/" +:+ logical_path p)) with true. cbn match. unfold absolute. f_equal.
  assert (split "/" ("/" +:+ logical_path p) = "" :: split "/" (logical_path p)) as ->.
  { unfold split. rewrite bytes_append. change (bytes "/") with ["/"%char]. cbn [app split_list]. done. }
  rewrite plain_split by done.
  change (named_component <$> List.filter (λ p, is_nonempty p && negb (p =? ".")%string) p = normals p).
  by apply kept_names, plain_segments.
Qed.

(** The names of a path that the listing may have. *)
Lemma split_list_free c l : Forall (λ w, c ∉ w) (split_list c l).
Proof.
  induction l as [|a l IH]; cbn; [constructor; [apply not_elem_of_nil|done]|].
  destruct (Ascii.eqb_spec a c) as [->|Hne]; [constructor; [apply not_elem_of_nil|done]|].
  destruct (split_list c l) as [|w r].
  - constructor; [|done]. by rewrite list_elem_of_singleton.
  - apply Forall_cons in IH as [Hw Hr]. constructor; [|done]. by rewrite elem_of_cons; intros [->|].
Qed.

Lemma components_plain text c : c ∈ components text → match c with Normal name => plain_name name = true | _ => True end.
Proof.
  set (kept := named_component <$> List.filter (λ p, is_nonempty p && negb (p =? ".")%string) (split "/" text)).
  intros Hin. assert (Hk : c ∈ kept ∨ c = RootDir ∨ c = CurDir).
  { unfold components in Hin. fold kept in Hin. destruct (starts_with "/" text); [apply elem_of_cons in Hin; tauto|].
    repeat case_match; first [by left|apply elem_of_cons in Hin; tauto]. }
  destruct Hk as [Hk|[->| ->]]; [|done..]. apply list_elem_of_fmap in Hk as (name & -> & Hn).
  apply list_elem_of_In, filter_In in Hn as [Hn Hp]. unfold named_component. destruct (String.eqb_spec name ".."); [done|].
  unfold plain_name, plain_segment. unfold is_nonempty in Hp. rewrite Hp. cbn. apply andb_true_iff. split; [by apply negb_true_iff, String.eqb_neq|].
  apply negb_true_iff, not_true_iff_false. rewrite contains_char_spec. unfold split in Hn.
  apply list_elem_of_In, list_elem_of_fmap in Hn as (w & -> & Hw). rewrite bytes_str. intros Hi%list_elem_of_In.
  pose proof (split_list_free "/" (bytes text)) as Hf. rewrite Forall_forall in Hf. by apply (Hf w Hw).
Qed.

Lemma path_of_plain text : validate_path text = Ok () → Forall (λ s, plain_name s = true) (path_of text).
Proof.
  intros (_ & Hc & _)%validate_path_normal. rewrite Forall_forall. intros s Hs.
  apply (components_plain text (Normal s)). rewrite Hc. by apply list_elem_of_fmap; exists s.
Qed.

(** An entry lies strictly below the root of the snapshot. *)
Lemma entry_place root text : validate_path text = Ok () → path_join (absolute root) text = absolute (root ++ path_of text).
Proof.
  intros (Ht & Hc & Hn)%validate_path_normal. unfold path_join. rewrite Hc. destruct (path_of text) as [|s p]; [done|]. cbn.
  unfold absolute. by rewrite fmap_app.
Qed.

(** * What a program over the host leaves *)

(** Directories stay, and a tree that nothing interrupts stays so. *)
Definition grows {E A} (m : fs E A) : Prop := ∀ w, quiet w →
  quiet (m w).2 ∧ ∀ r, is_dir (tree_get r (w_tree w)) = true → is_dir (tree_get r (w_tree (m w).2)) = true.

Lemma grows_same {E A} (m : fs E A) : (∀ w, (m w).2 = w) → grows m.
Proof. intros Hm w Hq. by rewrite Hm. Qed.
Lemma grows_bind {E A B} (m : fs E A) (f : A → fs E B) : grows m → (∀ x, grows (f x)) → grows (m ≫= f).
Proof.
  intros Hm Hf w Hq. destruct (Hm w Hq) as [Hq1 H1]. unfold mbind, fs_bind. destruct (m w) as [[x|e|] w1]; [|done..].
  destruct (Hf x w1 Hq1) as [Hq2 H2]. split; [done|]. intros r Hr. by apply H2, H1.
Qed.
Lemma grows_each {E A} (f : A → fs E ()) l : (∀ x, grows (f x)) → grows (fs_each f l).
Proof. intros Hf. induction l as [|x l IH]; cbn [fs_each]; [by apply grows_same|]. by apply grows_bind. Qed.

(** Putting something in a place that holds no directory. *)
Lemma put_keeps_dir p v t r : is_dir (tree_get p t) = false → is_dir (tree_get r t) = true → is_dir (tree_get r (tree_put p v t)) = true.
Proof.
  intros Hp Hr. destruct (decide (p `prefix_of` r)) as [[q ->]|Hpr].
  { apply tree_get_dir_app in Hr. congruence. }
  destruct (decide (r `prefix_of` p)) as [[q ->]|Hrp]; [|by rewrite tree_put_apart].
  rewrite tree_put_dir_above; [done|]. intros ->. rewrite app_nil_r in *. congruence.
Qed.

Lemma grows_effect act partial :
  (∀ t t', act t = Ok t' → ∀ r, is_dir (tree_get r t) = true → is_dir (tree_get r t') = true) → grows (effect act partial).
Proof.
  intros Ha w Hq. destruct (act (w_tree w)) as [t'|e] eqn:E.
  - rewrite (effect_quiet _ _ _ _ Hq E). split; [done|]. by apply Ha.
  - by rewrite (effect_quiet_err _ _ _ _ Hq E).
Qed.
Lemma grows_create_dir p : grows (create_dir p).
Proof.
  apply grows_effect. intros t t' Ha r Hr. destruct (tree_get p t) eqn:E; [done|]. destruct (is_dir (tree_get (parent p) t)); [|done].
  injection Ha as <-. apply put_keeps_dir; [by rewrite E|done].
Qed.
Lemma grows_create_new_file p : grows (create_new_file p).
Proof.
  apply grows_effect. intros t t' Ha r Hr. destruct (tree_get p t) eqn:E; [done|]. destruct (is_dir (tree_get (parent p) t)); [|done].
  injection Ha as <-. apply put_keeps_dir; [by rewrite E|done].
Qed.
Lemma grows_write_all p content : grows (write_all p content).
Proof.
  apply grows_effect. intros t t' [= <-] r Hr. unfold append_bytes. destruct (tree_get p t) as [[]|] eqn:E; try done.
  apply put_keeps_dir; [by rewrite E|done].
Qed.
Lemma grows_create_dir_all p : grows (create_dir_all p).
Proof.
  apply grows_each. intros q. apply grows_bind; [by apply grows_same|]. intros t. destruct (is_dir _); [by apply grows_same|].
  apply grows_create_dir.
Qed.

(** ** Git and the host *)

Section Laws.
Context {T U : Type}.
Abbreviation machine := (T * (HostFiles * U))%type.
Definition host_of (s : machine) : HostFiles := s.2.1.
Definition host_tree (s : machine) : node := w_tree (h_world (host_of s)).

(** What is documented of Git: the commands that are used here do not touch the
    files below the root of a snapshot or of its resources, and [hash-object] gives
    the object name of the content of the file. *)
Class GitLaws `{SupervisorPort machine, SourceBlobPort machine} (object_id : list ascii → string) : Type := {
  git_reads_law request token s r s' : rq_program request = "git" → port_execute request token s = Some (r, s') → host_of s' = host_of s;
  git_blob_reads_law request token s r s' :
    rq_program request = "git" → port_execute_source_blob request token s = Some (r, s') → host_of s' = host_of s;
  hash_object_law request token s r s' text content :
    rq_program request = "git" → rq_argv request = ["hash-object"; "--no-filters"; "--"; text] →
    port_execute request token s = Some (Ok r, s') → git_succeeded r = true →
    tree_get (tree_names (components text)) (host_tree s) = Some (File content) →
    trim (str (cs_bytes (pr_stdout r))) = object_id content;
}.

(** [grows] for a program over the machine. *)
Definition machine_grows {E A} (m : io machine E A) : Prop := ∀ s r s', m s = Some (r, s') → quiet (h_world (host_of s)) →
  quiet (h_world (host_of s')) ∧ ∀ p, is_dir (tree_get p (host_tree s)) = true → is_dir (tree_get p (host_tree s')) = true.

Lemma machine_grows_bind {E A B} (m : io machine E A) (f : A → io machine E B) :
  machine_grows m → (∀ x, machine_grows (f x)) → machine_grows (m ≫= f).
Proof.
  intros Hm Hf s r s' E1 Hq. unfold mbind, io_bind in E1. destruct (m s) as [[[x|e] s1]|] eqn:E2; [| |done].
  - destruct (Hm _ _ _ E2 Hq) as [Hq1 H1]. destruct (Hf _ _ _ _ E1 Hq1) as [Hq2 H2]. split; [done|]. intros p Hp. by apply H2, H1.
  - injection E1 as <- <-. by apply (Hm _ _ _ E2).
Qed.
Lemma machine_grows_same {E A} (m : io machine E A) : (∀ s r s', m s = Some (r, s') → h_world (host_of s') = h_world (host_of s)) → machine_grows m.
Proof. intros Hm s r s' E1 Hq. unfold host_tree. by rewrite (Hm _ _ _ E1). Qed.
Lemma machine_grows_lift {E A} (r : result E A) : machine_grows (io_lift r).
Proof. apply machine_grows_same. by intros s r' s' [= _ <-]. Qed.
Lemma machine_grows_ret {E A} (x : A) : machine_grows (mret x : io machine E A).
Proof. apply (machine_grows_lift (Ok x)). Qed.
Lemma machine_grows_attempt {E F A} (m : io machine E A) : machine_grows m → machine_grows (attempt m : io machine F _).
Proof. intros Hm s r s' E1. unfold attempt in E1. destruct (m s) as [[]|] eqn:E2; [|done]. injection E1 as _ <-. by apply (Hm _ _ _ E2). Qed.
Lemma machine_grows_map_err {E F A} (f : E → F) (m : io machine E A) : machine_grows m → machine_grows (io_map_err f m).
Proof. intros Hm. apply machine_grows_bind; [by apply machine_grows_attempt|]. intros. apply machine_grows_lift. Qed.
Lemma machine_grows_host {E A} (m : fs E A) : grows m → machine_grows (on_host m : io machine E A).
Proof.
  intros Hm [w [h u]] r s' E1 Hq. specialize (Hm (h_world h) Hq). unfold on_host in E1.
  destruct (m (h_world h)) as [[x|e|] w']; simplify_eq; exact Hm.
Qed.
Lemma machine_grows_mode {E} p b : machine_grows (set_mode p b : io machine E ()).
Proof. apply machine_grows_same. by intros [w [h u]] r s' [= _ <-]. Qed.
Lemma machine_grows_each {E A} (f : A → io machine E ()) l : (∀ x, machine_grows (f x)) → machine_grows (io_each f l).
Proof. intros Hf. induction l as [|x l IH]; cbn [io_each]; [apply machine_grows_ret|]. by apply machine_grows_bind. Qed.
End Laws.

Create HintDb grows.
(** The binds of a program, one by one. *)
Ltac machine_binds tac :=
  lazymatch goal with
  | |- machine_grows (mbind _ _) => apply machine_grows_bind; [tac|intros ?; machine_binds tac]
  | _ => tac
  end.
#[export] Hint Resolve grows_create_dir grows_create_new_file grows_write_all grows_create_dir_all
  machine_grows_bind machine_grows_lift machine_grows_ret machine_grows_map_err machine_grows_host machine_grows_mode
  machine_grows_each : grows.

(** ** The operations *)

Section Operations.
Context `{Backend, Codec SourceManifestV1} {T U : Type}.
Abbreviation machine := (T * (HostFiles * U))%type.
Context `{SupervisorPort machine, SourceBlobPort machine} (object_id : list ascii → string) `{!GitLaws object_id}
  (paths : node → PathOracle) (var_os : string → option string) (identity : RunIdentity) (token : token_use).

Lemma git_grows repository argv limit : machine_grows (git var_os identity token repository argv limit).
Proof.
  unfold git, execute_git. apply machine_grows_bind; [|intros; apply machine_grows_lift]. apply machine_grows_map_err, machine_grows_same.
  intros s r s' Hp. by rewrite (git_reads_law (git_request var_os identity repository argv GIT_TIMEOUT limit) token s r s' eq_refl Hp).
Qed.
Lemma git_blob_grows repository argv : machine_grows (git_blob var_os identity token repository argv).
Proof.
  unfold git_blob, execute_git_blob. apply machine_grows_bind; [|intros; apply machine_grows_lift].
  apply machine_grows_map_err, machine_grows_same. intros s r s' Hp. by rewrite (git_blob_reads_law (git_request var_os identity repository argv GIT_TIMEOUT BLOB_CAPTURE_LIMIT) token s r s' eq_refl Hp).
Qed.
Lemma files_grow {A} (m : fs io_kind A) : grows m → machine_grows (on_files m : io machine SourceSnapshotError A).
Proof. intros Hm. by apply machine_grows_map_err, machine_grows_host. Qed.
Lemma sync_grows : grows sync_all.
Proof. apply grows_effect. by intros t t' [= <-]. Qed.

Lemma write_new_file_grows p content : machine_grows (write_new_file p content : io machine SourceSnapshotError ()).
Proof.
  unfold write_new_file. machine_binds ltac:(first [apply machine_grows_mode|apply files_grow; auto using sync_grows with grows]).
Qed.

Lemma materialize_tree_grows repository commit resource_root root :
  machine_grows (materialize_tree var_os identity token repository commit resource_root root).
Proof.
  unfold materialize_tree.
  machine_binds ltac:(first [apply git_grows|apply machine_grows_lift|apply machine_grows_ret|apply write_new_file_grows|idtac]).
  apply machine_grows_each. intros entry. unfold materialize_entry, write_entry.
  machine_binds ltac:(first [apply git_grows|apply git_blob_grows|apply machine_grows_lift|apply machine_grows_mode|
    apply write_new_file_grows|apply files_grow, grows_create_dir_all]).
Qed.

(** ** Steps over the host *)

Definition set_host_tree (t : node) (s : machine) : machine :=
  (s.1, (set_h_world (set_tree t (h_world s.2.1)) s.2.1, s.2.2)).

Lemma ends_look {E A} (f : node → result E A) (s : machine) (Q : result E A → machine → Prop) :
  Q (f (host_tree s)) s → ends (on_host (look f)) s Q.
Proof.
  intros HQ r s' E1. destruct s as [w [[hw ex] u]]. unfold on_host, look in E1. unfold host_tree, host_of in HQ. cbn in *.
  destruct (f (w_tree hw)) as [x|e]; cbn in E1; by injection E1 as <- <-.
Qed.
Lemma ends_effect act partial (s : machine) (Q : result io_kind () → machine → Prop) :
  quiet (h_world (host_of s)) →
  match act (host_tree s) with Ok t => Q (Ok ()) (set_host_tree t s) | Err e => Q (Err e) s end →
  ends (on_host (effect act partial)) s Q.
Proof.
  intros Hq HQ r s' E1. destruct s as [w [[hw ex] u]]. unfold on_host in E1. unfold host_tree, host_of in HQ. cbn in *.
  destruct (act (w_tree hw)) as [t|e] eqn:Ea.
  - rewrite (effect_quiet _ _ _ _ Hq Ea) in E1. by injection E1 as <- <-.
  - rewrite (effect_quiet_err _ _ _ _ Hq Ea) in E1. by injection E1 as <- <-.
Qed.
Lemma ends_ignored {E} act partial (s : machine) (Q : result E () → machine → Prop) :
  quiet (h_world (host_of s)) →
  match act (host_tree s) with Ok t => Q (Ok ()) (set_host_tree t s) | Err e => Q (Ok ()) s end →
  ends (on_host (fs_ignore (effect act partial))) s Q.
Proof.
  intros Hq HQ r s' E1. destruct s as [w [[hw ex] u]]. unfold on_host, fs_ignore in E1. unfold host_tree, host_of in HQ. cbn in *.
  destruct (act (w_tree hw)) as [t|e] eqn:Ea.
  - rewrite (effect_quiet _ _ _ _ Hq Ea) in E1. by injection E1 as <- <-.
  - rewrite (effect_quiet_err _ _ _ _ Hq Ea) in E1. by injection E1 as <- <-.
Qed.

Lemma ends_create_dir p (s : machine) (Q : result io_kind () → machine → Prop) :
  quiet (h_world (host_of s)) →
  (∀ k, Q (Err k) s) →
  (tree_get p (host_tree s) = None → is_dir (tree_get (parent p) (host_tree s)) = true →
   Q (Ok ()) (set_host_tree (tree_put p (Some (Dir [])) (host_tree s)) s)) →
  ends (on_host (create_dir p)) s Q.
Proof.
  intros Hq He Hok. apply ends_effect; [done|]. destruct (tree_get p (host_tree s)) eqn:Eg; [apply He|].
  destruct (is_dir _) eqn:Ed; [by apply Hok|apply He].
Qed.

(** A look at the host changes nothing. *)
Lemma look_run {E A} (f : node → result E A) (s : machine) r s' :
  on_host (look f) s = Some (r, s') → r = f (host_tree s) ∧ s' = s.
Proof.
  destruct s as [w [[hw ex] u]]. unfold on_host, look, host_tree, host_of. cbn.
  destruct (f (w_tree hw)) as [x|e]; cbn; intros [= <- <-]; done.
Qed.
End Operations.
