(* ===== verification/SourceSnapshotClaims.v ===== *)
(** What source snapshots promise ([SourceSnapshot.v]): the listing is read back as
    it was printed, a snapshot that is revalidated holds the files of its commit and
    no others, and a snapshot that cannot be made leaves nothing behind. *)
From S2P Require Import Prelude.
From S2P Require Import RustStr.
From S2P Require Import BTree.
From S2P Require Import Canonical.
From S2P Require Import Config.
From S2P Require Import PlanClaims.
From S2P Require Import Receipt.
From S2P Require Import Durable.
From S2P Require Import Resource.
From S2P Require Import FileSystem.
From S2P Require Import CacheRoot.
From S2P Require Import Workspace.
From S2P Require Import WorkspaceProps.
From S2P Require Import Artifacts.
From S2P Require Import ArtifactProps.
From S2P Require Import Ports.
From S2P Require Import Process.
From S2P Require Import Runtime.
From S2P Require Import SourceSnapshot.
From S2P Require Import SourceSnapshotProps.
Local Open Scope Z_scope.

(** C24.  The listing of Git is read exactly: it is accepted when it is a list of
    records of entries that Git can have, of at most the allowed number, and then
    gives these entries in the order of their paths; what Git prints for such entries
    is read back; and each entry lies strictly below the root of the snapshot. *)
Theorem listing_exact :
  (∀ output l, parse_tree output = Ok l ↔
     ∃ entries, l = sort_by se_path entries ∧ Forall entry_fine entries ∧ records output = record_of <$> entries ∧
                Z.of_nat (length entries) ≤ MAX_ENTRIES) ∧
  (∀ entries, Forall entry_fine entries → Z.of_nat (length entries) ≤ MAX_ENTRIES →
     parse_tree (printed entries) = Ok (sort_by se_path entries)) ∧
  (∀ e root, entry_fine e → path_of (se_path e) ≠ [] ∧ path_join (absolute root) (se_path e) = absolute (root ++ path_of (se_path e))).
Proof.
  split_and!.
  - apply parse_tree_iff.
  - intros entries Hf Hm. apply parse_tree_iff. exists entries. split_and!; [done|done|by apply records_printed|done].
  - intros e root (Hv & _). split; [by apply validate_path_normal|by apply entry_place].
Qed.

Section Claims.
Context `{Backend, Codec SourceManifestV1} {T U : Type}.
Abbreviation machine := (T * (HostFiles * U))%type.
Context `{SupervisorPort machine, SourceBlobPort machine} (object_id : list ascii → string) `{!GitLaws object_id}
  (paths : node → PathOracle) (var_os : string → option string) (identity : RunIdentity) (token : token_use).

(** C25.  A snapshot that cannot be made leaves nothing: when nothing interrupts the
    file system, nothing is in the place of the snapshot before, and the attempt ends
    in an error, then nothing is there afterwards, whichever step failed. *)
Theorem failed_materialize_leaves_nothing repository commit p s e s' :
  p ≠ [] → quiet (h_world (host_of s)) → tree_get p (host_tree s) = None →
  materialize paths var_os identity token repository commit (absolute p) s = Some (Err e, s') →
  tree_get p (host_tree s') = None.
Proof.
  intros Hp Hq Hn. unfold materialize.
  enough (ends (materialize paths var_os identity token repository commit (absolute p)) s
            (λ r s', match r with Ok _ => True | Err _ => tree_get p (host_tree s') = None end)) as G
    by (intros E; by apply (G _ _ E)).
  assert (Hat : ∀ n, is_dir (tree_get (parent p) (host_tree s)) = true → tree_get p (tree_put p n (host_tree s)) = n)
    by (intros n; by apply tree_put_at).
  unfold materialize, canonical_repository. rewrite host_path_absolute.
  apply ends_bind, ends_bind, ends_map_err, ends_look. destruct (po_canonicalize _ repository) as [rep|]; cbn [map_err]; [|done].
  apply ends_bind, ends_look. destruct (ensure _ _); [|done]. apply ends_ret.
  apply ends_bind, ends_lift. destruct (validate_commit commit); [|done].
  apply ends_bind, ends_look. rewrite Hn. cbn [is_Some_b negb ensure].
  apply ends_bind, ends_map_err, ends_create_dir; [done|done|]. intros _ Hd. cbn [map_err].
  set (s1 := set_host_tree _ s). assert (Hempty : tree_get p (host_tree s1) = Some (Dir [])) by by apply Hat.
  assert (Hgone : ∀ s2 : machine, is_dir (tree_get p (host_tree s2)) = true → tree_get p (tree_put p None (host_tree s2)) = None).
  { intros s2 Hd2. apply tree_put_at; [done|]. destruct (exists_last Hp) as (q & k & ->). rewrite parent_snoc.
    by eapply tree_get_dir_app. }
  apply ends_bind, ends_attempt, ends_map_err, ends_create_dir; [done|intros k; cbn [map_err]|].
  { apply ends_bind, ends_ignored; [done|]. rewrite Hempty. apply ends_lift, Hgone. by rewrite Hempty. }
  intros Eg _. cbn [map_err]. set (s3 := set_host_tree _ s1).
  assert (Ht : is_dir (tree_get p (host_tree s3)) = true) by (apply put_keeps_dir; [by rewrite Eg|by rewrite Hempty]).
  apply ends_bind, ends_attempt. intros r s2 Hr.
  destruct (materialize_tree_grows object_id _ _ _ _ _ _ _ _ _ _ Hr) as [Hq2 Hd2]; [done|]. specialize (Hd2 p Ht).
  destruct r as [[manifest evidence]|e2]; [by apply ends_ret|]. apply ends_bind, ends_ignored; [done|].
  destruct (tree_get p (host_tree s2)) as [[]|] eqn:Ep; try done. apply ends_lift, Hgone. by rewrite Ep.
Qed.

(** What a snapshot is made of: it lies at an absolute path, and its entries are such
    as Git lists. *)
Definition snapshot_fine (root : path) (snapshot : SourceSnapshot) : Prop :=
  sn_root snapshot = absolute root ∧ root ≠ [] ∧ Forall (λ s, plain_name s = true) root ∧
  Forall entry_fine (sm_entries (sn_manifest snapshot)).

(** The names in a tree are such as a file system allows. *)
Definition plain_names (es : btmap string node) : Prop :=
  Forall (λ f, Forall (λ s, plain_name s = true) f.1) (files_of (Dir es)).

(** What the validation of an entry has seen, as long as Git only reads. *)
Lemma revalidate_entry_run root snapshot e (s s1 s2 : machine) :
  snapshot_fine root snapshot → entry_fine e → host_of s1 = host_of s →
  revalidate_entry var_os identity token snapshot e s1 = Some (Ok (), s2) →
  host_of s2 = host_of s ∧ ∃ content, tree_get (root ++ path_of (se_path e)) (host_tree s) = Some (File content) ∧
    se_blob_oid e = Some (object_id content) ∧ (root ++ path_of (se_path e) ∈ h_executable (host_of s) ↔ se_kind e = EntryExecutable).
Proof.
  intros (Hroot & Hne & Hrp & _) He Hs1 Hr. unfold revalidate_entry in Hr. rewrite Hroot, entry_place in Hr by apply He.
  set (p := root ++ path_of (se_path e)) in *.
  assert (Hp : p ≠ [] ∧ Forall (λ s, plain_name s = true) p).
  { split; [by destruct root|]. apply Forall_app. split; [done|]. apply path_of_plain, He. }
  apply bind_run in Hr as ([] & s3 & Hm & Hr). unfold validate_entry_mode in Hm. rewrite host_path_absolute in Hm.
  apply bind_run in Hm as ([] & s4 & Hlook & Hm). apply look_run in Hlook as [Hplain ->]. unfold plain_file_at in Hplain.
  destruct (tree_get p (host_tree s1)) as [[content| | |]|] eqn:Eg; try discriminate Hplain.
  apply bind_run in Hm as (executable & s4 & Hmode & Hm). apply lift_run in Hm as [Hex%ensure_ok%eqb_prop ->].
  assert (Hmode' : executable = bool_decide (p ∈ h_executable (host_of s1)) ∧ s4 = s1).
  { destruct s1 as [w [h u]]. unfold get_mode in Hmode. by injection Hmode as <- <-. }
  destruct Hmode' as [-> ->]. apply bind_run in Hr as (text & s3 & Ht & Hr). apply lift_run in Ht as [Ht%ok_or_ok ->].
  apply bind_run in Hr as (output & s3 & Hgit & Hr). apply bind_run in Hr as (actual & s4 & Ha & Hr). apply lift_run in Ha as [Ha%ok_or_ok ->].
  apply lift_run in Hr as [Hoid%ensure_ok%bool_decide_eq_true ->].
  unfold git, execute_git in Hgit. apply bind_run in Hgit as (r & s4 & Hp1 & Hgit). apply map_err_run in Hp1.
  apply lift_run in Hgit as [Hout ->]. unfold git_output in Hout. apply bind_ok in Hout as ([] & Hok%ensure_ok & [= <-]).
  assert (Htext : components text = absolute p).
  { unfold to_str in Ht. destruct (valid_utf8 _); [|done]. injection Ht as <-. apply components_absolute; apply Hp. }
  pose proof (git_reads_law _ _ _ _ _ (eq_refl : rq_program (git_request var_os identity (sn_repository snapshot)
    ["hash-object"; "--no-filters"; "--"; text] GIT_TIMEOUT 256) = "git") Hp1) as Hh.
  split; [congruence|]. exists content. unfold host_tree in *. rewrite Hs1 in *. split; [done|].
  assert (Hobj : trim (str (cs_bytes (pr_stdout r))) = object_id content).
  { eapply hash_object_law; [..|exact Hp1|exact Hok|]; [done|done|]. rewrite Htext.
    change (tree_names (absolute p)) with (host_path (absolute p)). rewrite host_path_absolute. unfold host_tree. by rewrite Hs1. }
  unfold from_utf8 in Ha. destruct (valid_utf8 _); [|done]. injection Ha as <-. split; [by rewrite Hoid, Hobj|].
  unfold file_mode in Hex. rewrite <-(bool_decide_eq_true (se_kind e = _)), <-Hex. symmetry. apply bool_decide_eq_true.
Qed.

(** C11.  A snapshot that is revalidated holds the files of its commit and no others:
    Git found in each entry of the manifest the object that it lists, with the mode
    that it lists; every other file is one of the empty files made for mounts; there
    are no links; and the manifest is the one whose digest is the evidence. *)
Theorem revalidated_snapshot root snapshot es s s' :
  snapshot_fine root snapshot → node_wf (host_tree s) →
  revalidate var_os identity token snapshot s = Some (Ok (), s') →
  tree_get root (host_tree s) = Some (Dir es) → plain_names es →
  host_of s' = host_of s ∧ plain_tree (Dir es) ∧
  (∀ e, e ∈ sm_entries (sn_manifest snapshot) → ∃ content,
     (path_of (se_path e), content) ∈ files_of (Dir es) ∧ se_blob_oid e = Some (object_id content) ∧
     (root ++ path_of (se_path e) ∈ h_executable (host_of s) ↔ se_kind e = EntryExecutable)) ∧
  (∀ q content, (q, content) ∈ files_of (Dir es) →
     logical_path q ∈ sn_overlay_files snapshot ∨ ∃ e, e ∈ sm_entries (sn_manifest snapshot) ∧ path_of (se_path e) = q) ∧
  canonical_digest (sn_manifest snapshot) = Ok (sv_manifest_digest (sn_evidence snapshot)).
Proof.
  intros Hsf Hw Hr Hes Hplain. pose proof Hsf as (Hroot & Hne & Hrp & Hfine). unfold revalidate in Hr.
  apply bind_run in Hr as (files & s1 & Hlook & Hr). apply look_run in Hlook as [Hcol ->]. symmetry in Hcol.
  rewrite Hroot, host_path_absolute in Hcol. apply collect_regular_files_ok in Hcol as (es' & Hes' & Hpt & _ & Hfiles); [|done].
  rewrite Hes in Hes'. injection Hes' as <-.
  apply bind_run in Hr as ([] & s1 & Hl & Hr). apply lift_run in Hl as [Heq%ensure_ok%bool_decide_eq_true ->].
  apply bind_run in Hr as ([] & s1 & Hdirs & Hr).
  assert (s1 = s) as ->.
  { eapply (each_run _ (λ s1, s1 = s) (λ _, True)); [|reflexivity|exact Hdirs].
    intros d s2 s3 _ -> Hl. by apply look_run in Hl as [_ ->]. }
  apply bind_run in Hr as ([] & s1 & Hent & Hr).
  assert (Hent' : host_of s1 = host_of s ∧ Forall (λ e, e ∈ sm_entries (sn_manifest snapshot) → ∃ content,
    tree_get (root ++ path_of (se_path e)) (host_tree s) = Some (File content) ∧ se_blob_oid e = Some (object_id content) ∧
    (root ++ path_of (se_path e) ∈ h_executable (host_of s) ↔ se_kind e = EntryExecutable)) (sm_entries (sn_manifest snapshot))).
  { eapply (each_run _ (λ s1, host_of s1 = host_of s)); [|reflexivity|exact Hent]. intros e s2 s3 Hin Hs2 Hs3.
    rewrite Forall_forall in Hfine. destruct (revalidate_entry_run root snapshot e s s2 s3) as [? ?]; [done|by apply Hfine|done..|].
    by split. }
  destruct Hent' as [Hh Hall]. rewrite Forall_forall in Hall. apply bind_run in Hr as (digest & s2 & Hd & Hr).
  apply lift_run in Hd as [Hd%map_err_ok ->]. apply lift_run in Hr as [Hdig%ensure_ok%String.eqb_eq ->].
  split_and!; [done|done| | |congruence].
  - intros e He. destruct (Hall e He He) as (content & Hg & ? & ?). exists content. split; [|done]. apply file_listed.
    by rewrite tree_get_app, Hes in Hg.
  - intros q content Hq. assert (Hx : logical_path q ∈ files) by (apply Hfiles; by exists q, content).
    rewrite Heq in Hx. apply elem_of_expected in Hx as [Hx|(e & He & Hx)]; [by left|right]. exists e. split; [done|].
    rewrite <-Hx. unfold path_of. unfold plain_names in Hplain. rewrite Forall_forall in Hplain. specialize (Hplain _ Hq).
    rewrite components_logical; [apply names_of_normals|done|by apply (files_not_root es (q, content))].
Qed.
End Claims.

(** * Example *)

Module SnapshotExample.
Import PlanExample.

Abbreviation no_machine := (() * (HostFiles * ()))%type.
Definition OID_EVEN : string := "0123456789abcdef0123456789abcdef01234567".
Definition OID_ODD : string := "89abcdef0123456789abcdef0123456789abcdef".
Definition object_id (content : list ascii) : string := if Nat.even (length content) then OID_EVEN else OID_ODD.

Definition even_entry : SourceManifestEntryV1 :=
  {| se_path := "src/main.rs"; se_mode := "100644"; se_kind := EntryRegular; se_blob_oid := Some OID_EVEN; se_submodule_oid := None |}.
Definition odd_entry : SourceManifestEntryV1 :=
  {| se_path := "build.sh"; se_mode := "100755"; se_kind := EntryExecutable; se_blob_oid := Some OID_ODD; se_submodule_oid := None |}.
Definition module_entry : SourceManifestEntryV1 :=
  {| se_path := "vendor/lib"; se_mode := "160000"; se_kind := EntrySubmodule; se_blob_oid := None; se_submodule_oid := Some OID_ODD |}.

Lemma entries_fine : Forall entry_fine [even_entry; odd_entry; module_entry].
Proof. repeat (constructor; [by vm_compute|]). constructor. Qed.

Lemma listing_exact_witness : parse_tree (printed [even_entry; odd_entry; module_entry]) = Ok [odd_entry; even_entry; module_entry].
Proof. apply (proj1 (proj2 listing_exact)); [apply entries_fine|done]. Defined.

(** Git on a store of two objects: commit [even] lists them, and any other commit a
    submodule as well. *)
Definition COMMIT : string := "00000000000000000000000000000000000000aa".
Definition git_text (argv : list string) (t : node) : list ascii :=
  if bool_decide (argv = ["ls-tree"; "--full-tree"; "-r"; "-z"; COMMIT]) then printed [even_entry; odd_entry] else
  if bool_decide (take 4 argv = ["ls-tree"; "--full-tree"; "-r"; "-z"]) then printed [even_entry; module_entry] else
  if bool_decide (take 2 argv = ["cat-file"; "-s"]) then bytes "4" ++ [line_feed] else
  if bool_decide (take 3 argv = ["hash-object"; "--no-filters"; "--"]) then
    match tree_get (tree_names (components (nth 3 argv ""))) t with
    | Some (File content) => bytes (object_id content) ++ [line_feed]
    | _ => []
    end
  else if bool_decide (argv = ["cat-file"; "blob"; OID_EVEN]) then bytes "main" else bytes "sh!".
Definition output (text : list ascii) : ProcessResult :=
  {| pr_identity := {| id_project := "p"; id_commit := None; id_config_digest := ""; id_generation := "1" |};
     pr_termination := Completed; pr_cleanup := Verified; pr_exit := Some {| xo_success := true; xo_code := Some 0 |};
     pr_stdout := {| cs_bytes := text; cs_byte_count := 0; cs_full_digest := ""; cs_truncated := false |};
     pr_stderr := {| cs_bytes := []; cs_byte_count := 0; cs_full_digest := ""; cs_truncated := false |}; pr_elapsed_millis := 1 |}.
#[global] Instance git_port : SupervisorPort no_machine := λ request _ s, Some (Ok (output (git_text (rq_argv request) (host_tree s))), s).
#[global] Instance git_blob_port : SourceBlobPort no_machine := λ request _ s, Some (Ok (output (git_text (rq_argv request) (host_tree s))), s).
#[global] Instance manifest_codec : Codec SourceManifestV1 := {| to_vec := λ _, Some (bytes "{}"); from_slice := λ _, None |}.

#[global] Instance git_laws : GitLaws (T := ()) (U := ()) object_id.
Proof.
  split.
  - by intros request token s r s' _ [= _ <-].
  - by intros request token s r s' _ [= _ <-].
  - intros request token s r s' text content _ Ha [= <- _] _ Hg. unfold output. cbn [pr_stdout cs_bytes]. rewrite Ha.
    unfold git_text. do 3 (rewrite bool_decide_eq_false_2 by (intros E; discriminate E)).
    rewrite bool_decide_eq_true_2 by done. cbn [nth]. rewrite Hg. unfold object_id. by destruct (Nat.even _); vm_compute.
Defined.

Definition fresh : no_machine :=
  ((), ({| h_world := {| w_tree := Dir [("repo", Dir [("main.rs", File [])]); ("state", Dir [])]; w_locks := []; w_sequence := 0;
                         w_durable := 0; w_promoted := []; w_run_lock := 0; w_fates := [] |};
           h_executable := [] |}, ())).
Definition plain_paths (t : node) : PathOracle :=
  {| po_is_symlink := λ _, Ok false; po_canonicalize := Ok; po_is_dir := λ p, is_dir (tree_get (tree_names p) t);
     po_temp_dir := [RootDir] |}.
Definition someone : RunIdentity := {| id_project := "p"; id_commit := None; id_config_digest := ""; id_generation := "1" |}.
Abbreviation make commit :=
  (materialize (T := ()) (U := ()) plain_paths (λ _, None) someone RunToken (absolute ["repo"]) commit (absolute ["state"; "snapshot"])).

(** A commit with a submodule: the first file is written, and gone again. *)
Lemma failed_materialize_leaves_nothing_witness : ∃ s',
  make "00000000000000000000000000000000000000bb" fresh = Some (Err (UnsupportedSubmodule "vendor/lib"), s') ∧
  tree_get ["state"; "snapshot"] (host_tree s') = None.
Proof.
  destruct (make "00000000000000000000000000000000000000bb" fresh) as [[[|e] s']|] eqn:E; [vm_compute in E; discriminate E| |vm_compute in E; discriminate E].
  exists s'. split.
  - vm_compute in E. injection E as <- _. reflexivity.
  - pose proof (failed_materialize_leaves_nothing (T := ()) (U := ()) object_id plain_paths (λ _, None) someone
      RunToken (absolute ["repo"]) "00000000000000000000000000000000000000bb" ["state"; "snapshot"] fresh e s') as G.
    specialize (G ltac:(intros N; discriminate N) eq_refl eq_refl E). exact G.
Defined.

(** The snapshot of a commit, revalidated. *)
Lemma revalidated_snapshot_witness : ∃ snapshot s1 s2 es,
  make COMMIT fresh = Some (Ok snapshot, s1) ∧ revalidate (λ _, None) someone RunToken snapshot s1 = Some (Ok (), s2) ∧
  tree_get ["state"; "snapshot"; "source"] (host_tree s1) = Some (Dir es) ∧
  ∀ q content, (q, content) ∈ files_of (Dir es) →
    logical_path q ∈ sn_overlay_files snapshot ∨ ∃ e, e ∈ sm_entries (sn_manifest snapshot) ∧ path_of (se_path e) = q.
Proof.
  destruct (make COMMIT fresh) as [[[snapshot|e] s1]|] eqn:E; [|vm_compute in E; discriminate E..].
  destruct (revalidate (λ _, None) someone RunToken snapshot s1) as [[[[]|e] s2]|] eqn:R;
    [|vm_compute in E; injection E as <- <-; vm_compute in R; discriminate R..].
  destruct (tree_get ["state"; "snapshot"; "source"] (host_tree s1)) as [[|es| |]|] eqn:G;
    [vm_compute in E; injection E as _ <-; vm_compute in G; discriminate G| |vm_compute in E; injection E as _ <-; vm_compute in G; discriminate G..].
  exists snapshot, s1, s2, es. split; [done|]. split; [done|]. split; [done|].
  refine (proj1 (proj2 (proj2 (proj2 (revalidated_snapshot object_id (λ _, None) someone RunToken ["state"; "snapshot"; "source"]
    snapshot es s1 s2 _ _ R G _))))).
  - vm_compute in E. injection E as <- _. split_and!; [reflexivity|done|by repeat constructor|].
    repeat (constructor; [by vm_compute|]). constructor.
  - vm_compute in E. injection E as _ <-. repeat (constructor; cbn); done.
  - vm_compute in E. injection E as _ <-. vm_compute in G. injection G as <-. repeat (constructor; cbn); done.
Defined.
End SnapshotExample.
