(* ===== verification/RunParts.v ===== *)
(** The parts of a run ([src/src/run.rs]): the evidence of a check, the status of a
    run, its clock, and the file that its receipt is published in.  The run itself is
    in [Run.v].

    The receipt file is written over the tree of the host ([FileSystem.v]), where an
    interruption may come at every effect. *)
From S2P Require Import Prelude.
From S2P Require Import RustStr.
From S2P Require Import BTree.
From S2P Require Import Calendar.
From S2P Require Import Canonical.
From S2P Require Import Config.
From S2P Require Import Storage.
From S2P Require Import Receipt.
From S2P Require Import Durable.
From S2P Require Import Resource.
From S2P Require Import FileSystem.
From S2P Require Import CachePayload.
From S2P Require Import CacheRoot.
From S2P Require Import Cache.
From S2P Require Import Workspace.
From S2P Require Import Artifacts.
From S2P Require Import Ports.
From S2P Require Import Process.
From S2P Require Import Runtime.
From S2P Require Import SourceSnapshot.
Local Open Scope Z_scope.

Definition REDACTION_POLICY_VERSION : string := "ccp-redaction-v1".
Definition PRESSURE : string := "host resource pressure watchdog tripped".

(** * Data *)

Inductive RunError : Type :=
  | RunRepositoryNotDirectory
  | DirtyRepository
  | InvalidCommit
  | StaleCommit
  | ResourcePressure
  | RemoteSecretOnly
  | GitInspection
  | UnsafeReceiptPath
  | RunClock
  | RunInvariant (message : string)
  | RunCache (e : CacheError)
  | RunWorkspace (e : WorkspaceError)
  | RunArtifactObservation (e : ArtifactObservationError)
  | RunStorage (e : StorageError)
  | RunSourceSnapshot (e : SourceSnapshotError)
  | RunRuntime (e : RuntimeError)
  | RunProcess (e : ProcessError)
  | RunReceipt (e : ReceiptError)
  | RunIo (kind : io_kind).

Inductive RunLifecyclePhase : Type := PhasePrepared | PhaseExecuting | PhaseFinalizing | PhaseSealed.

Record RunOutcome : Type := {
  uo_receipt : ReceiptEnvelopeV1;
  uo_receipt_v2 : option ReceiptEnvelopeV2;
  uo_receipt_path : list component;
}.

Definition run_exit_code (e : RunError) : Z :=
  match e with
  | RunRepositoryNotDirectory | DirtyRepository | InvalidCommit | UnsafeReceiptPath | RemoteSecretOnly => 2
  | StaleCommit => 5
  | ResourcePressure => 6
  | RunRuntime e => runtime_exit_code e
  | RunProcess StaleGeneration => 5
  | RunProcess _ | GitInspection => 4
  | RunCache _ | RunWorkspace _ | RunArtifactObservation _ | RunStorage _ | RunSourceSnapshot _ | RunClock | RunInvariant _
  | RunReceipt _ | RunIo _ => 70
  end.
Definition outcome_exit_code (o : RunOutcome) : Z :=
  match r1_overall_status (e1_receipt (uo_receipt o)) with Pass => 0 | Fail => 1 | Pending | NotRun => 5 end.
Definition published_canonical_bytes `{Backend} (o : RunOutcome) : result ReceiptError (list ascii) :=
  match uo_receipt_v2 o with
  | Some receipt => canonical_bytes2 receipt
  | None => canonical_bytes1 (uo_receipt o)
  end.

(** * The evidence of a check *)

Record OutputDigestInput : Type := {
  od_stdout_full_digest : string;
  od_stdout_byte_count : Z;
  od_stderr_full_digest : string;
  od_stderr_byte_count : Z;
  od_stdout_truncated : bool;
  od_stderr_truncated : bool;
}.
#[global] Instance OutputDigestInput_serialize : Serialize OutputDigestInput := λ o,
  obj [("stdout_full_digest", to_value (od_stdout_full_digest o)); ("stdout_byte_count", to_value (od_stdout_byte_count o));
       ("stderr_full_digest", to_value (od_stderr_full_digest o)); ("stderr_byte_count", to_value (od_stderr_byte_count o));
       ("stdout_truncated", to_value (od_stdout_truncated o)); ("stderr_truncated", to_value (od_stderr_truncated o))].

Definition exit_success (r : ProcessResult) : bool := match pr_exit r with Some exit => xo_success exit | None => false end.
Definition duration_of (r : ProcessResult) : Z := default u64_max (checked_u64 (pr_elapsed_millis r)).
Definition output_digest_input (r : ProcessResult) : OutputDigestInput :=
  {| od_stdout_full_digest := cs_full_digest (pr_stdout r); od_stdout_byte_count := cs_byte_count (pr_stdout r);
     od_stderr_full_digest := cs_full_digest (pr_stderr r); od_stderr_byte_count := cs_byte_count (pr_stderr r);
     od_stdout_truncated := cs_truncated (pr_stdout r); od_stderr_truncated := cs_truncated (pr_stderr r) |}.

Definition evidence_from_result `{Backend} (check : NormalizedCheck) (r : ProcessResult) : result RunError CheckEvidence :=
  _ ← ensure (bool_decide (pr_cleanup r = Verified)) (RunInvariant "process cleanup was not verified");
  let '(status, timed_out, cancelled) :=
    match pr_termination r with
    | TimedOut => (Fail, true, false)
    | Cancelled => (Fail, false, true)
    | Completed => (if exit_success r then Pass else Fail, false, false)
    end in
  output_digest ← map_err RunReceipt (canonical_digest (output_digest_input r));
  Ok {| ce_id := nk_id check; ce_required := nk_required check; ce_argv := nk_argv check;
        ce_working_directory := nk_working_directory check; ce_status := status; ce_exit_code := pr_exit r ≫= xo_code;
        ce_duration_ms := duration_of r; ce_timed_out := timed_out; ce_cancelled := cancelled;
        ce_output_digest := Some output_digest; ce_incomplete_reason := None |}.

Definition not_run (check : NormalizedCheck) (reason : string) : CheckEvidence :=
  {| ce_id := nk_id check; ce_required := nk_required check; ce_argv := nk_argv check;
     ce_working_directory := nk_working_directory check; ce_status := NotRun; ce_exit_code := None; ce_duration_ms := 0;
     ce_timed_out := false; ce_cancelled := false; ce_output_digest := None; ce_incomplete_reason := Some reason |}.

Definition cancellation_reason_text (t : CancellationToken) : string :=
  match reason t with
  | Some CancelledResourcePressure => PRESSURE
  | Some User | None => "run cancelled before check execution"
  end.

Definition has_resource_pressure_not_run (checks : list CheckEvidence) : bool :=
  existsb (λ check, bool_decide (ce_status check = NotRun) && bool_decide (ce_incomplete_reason check = Some PRESSURE)) checks.

(** * The status of a run *)

Definition derive_overall_status (declared : list NormalizedCheck) (statuses : btmap string EvidenceStatus) :
    result RunError EvidenceStatus :=
  required ← mapM (λ check, ok_or (map_get (nk_id check) statuses) (RunInvariant "required check result is missing"))
               (List.filter nk_required declared);
  Ok (if existsb (λ s, bool_decide (s = Fail)) required then Fail
      else if existsb (λ s, match s with Pending | NotRun => true | _ => false end) required then Pending
      else Pass).

Record RunIdInput : Type := {
  ri_schema_version : string;
  ri_project : string;
  ri_commit : string;
  ri_configuration_digest : string;
  ri_generation : Z;
  ri_started_at_utc : string;
}.
#[global] Instance RunIdInput_serialize : Serialize RunIdInput := λ i,
  obj [("schema_version", to_value (ri_schema_version i)); ("project", to_value (ri_project i)); ("commit", to_value (ri_commit i));
       ("configuration_digest", to_value (ri_configuration_digest i)); ("generation", to_value (ri_generation i));
       ("started_at_utc", to_value (ri_started_at_utc i))].

Definition run_id `{Backend} (envelope : ExecutionPlanEnvelopeV1) (commit : string) (generation : Z) (started_at_utc : string) :
    result RunError string :=
  map_err RunReceipt (canonical_digest
    {| ri_schema_version := "1.0"; ri_project := ep_project (pe_plan envelope); ri_commit := commit;
       ri_configuration_digest := pe_plan_digest envelope; ri_generation := generation; ri_started_at_utc := started_at_utc |}).

Definition ensure_local_environment_allowed (envelope : ExecutionPlanEnvelopeV1) : result RunError () :=
  ensure (is_nil (ne_remote_secret_only (ep_environment (pe_plan envelope)))) RemoteSecretOnly.

(** * The clock *)

Module Clock.

(** On [i64], where nothing overflows for the days of a [u64] of seconds. *)
Definition civil_from_days (days_since_epoch : Z) : Z * Z * Z :=
  let z := days_since_epoch + 719468 in
  let era := Z.quot (if z >=? 0 then z else z - 146096) 146097 in
  let day_of_era := z - era * 146097 in
  let year_of_era := Z.quot (day_of_era - Z.quot day_of_era 1460 + Z.quot day_of_era 36524 - Z.quot day_of_era 146096) 365 in
  let year := year_of_era + era * 400 in
  let day_of_year := day_of_era - (365 * year_of_era + Z.quot year_of_era 4 - Z.quot year_of_era 100) in
  let month_prime := Z.quot (5 * day_of_year + 2) 153 in
  let day := day_of_year - Z.quot (153 * month_prime + 2) 5 + 1 in
  let month := month_prime + (if month_prime <? 10 then 3 else -9) in
  let year := year + (if month <=? 2 then 1 else 0) in
  (year, month, day).

Definition format_unix_utc (seconds : Z) : result RunError string :=
  days ← ok_or (checked_i64 (seconds / 86400)) RunClock;
  let day_seconds := seconds mod 86400 in
  let hour := day_seconds / 3600 in
  let minute := (day_seconds mod 3600) / 60 in
  let second := day_seconds mod 60 in
  let '(year, month, day) := civil_from_days days in
  _ ← ensure (in_range 1 9999 year) RunClock;
  Ok (str (timestamp year month day hour minute second)).

(** [SystemClock]: the seconds since the epoch, if the system clock is not before it. *)
Definition now_utc (seconds : option Z) : result RunError string :=
  seconds ← ok_or seconds RunClock;
  format_unix_utc seconds.
End Clock.

(** * The receipt file *)

Section ReceiptFile.
Context (paths : node → PathOracle) (process_id : Z).

Definition ensure_plain_directory_at (p : path) (t : node) : result RunError () :=
  match tree_get p t with
  | Some (Dir _) => Ok ()
  | Some _ => Err UnsafeReceiptPath
  | None => Err (RunIo NotFound)
  end.

Definition create_directory_chain (root target : list component) : fs RunError () :=
  relative ← fs_lift (ok_or (strip_path root target) UnsafeReceiptPath);
  fs_each (λ p, let current := tree_names (root ++ p) in
                fs_catch (create_dir current)
                  (λ kind, match kind with
                           | AlreadyExists => look (ensure_plain_directory_at current)
                           | kind => fs_lift (Err (RunIo kind))
                           end)) (prefixes [] relative).

Definition temporary_name (sequence : Z) : string :=
  ".receipt-tmp-" +:+ decimal_text process_id +:+ "-" +:+ decimal_text sequence.

(** What follows [m] also when it fails; [clean] cannot fail. *)
Definition fs_finally {E A} (m : fs E A) (clean : fs E ()) : fs E A := λ w,
  match m w with
  | (Stopped, w') => (Stopped, w')
  | (r, w') => match clean w' with (Stopped, w'') => (Stopped, w'') | (_, w'') => (r, w'') end
  end.

Definition write_temporary (temporary target : path) (content : list ascii) : fs RunError () :=
  fs_map_err RunIo
    (_ ← create_new_file temporary;
     _ ← write_all temporary content;
     _ ← sync_all;
     rename_path temporary target).
Definition remove_if_there (p : path) : fs RunError () :=
  there ← look (λ t, Ok (exists_node (tree_get p t)));
  if there : bool then fs_ignore (remove_file_at p) else mret ().

Definition receipt_target_at (p : path) (t : node) : result RunError () :=
  match tree_get p t with
  | Some (File _) | None => Ok ()
  | Some _ => Err UnsafeReceiptPath
  end.

Definition write_receipt_bytes_atomic (repository : list component) (relative_output : string) (content : list ascii) :
    fs RunError (list component) :=
  repository ← look (λ t, map_err RunIo (po_canonicalize (paths t) repository));
  let target := path_join repository relative_output in
  _ ← fs_lift (ensure (path_starts_with target repository) UnsafeReceiptPath);
  parent ← fs_lift (ok_or (path_parent target) UnsafeReceiptPath);
  _ ← create_directory_chain repository parent;
  _ ← look (receipt_target_at (tree_names target));
  sequence ← fetch_sequence;
  let temporary := tree_names (parent ++ [Normal (temporary_name sequence)]) in
  _ ← fs_finally (write_temporary temporary (tree_names target) content) (remove_if_there temporary);
  mret target.

(** [write_receipt_atomic] and [write_canonical_receipt_bytes_atomic]. *)
Definition write_receipt_atomic `{Backend} (repository : list component) (relative_output : string) (receipt : ReceiptEnvelopeV1) :
    fs RunError (list component) :=
  content ← fs_lift (map_err RunReceipt (canonical_bytes1 receipt));
  write_receipt_bytes_atomic repository relative_output content.
Definition write_canonical_receipt_bytes_atomic := write_receipt_bytes_atomic.
End ReceiptFile.
