(* ===== verification/Run.v ===== *)
(** A local run ([src/src/run.rs]): from a plan to a sealed receipt, and to its file.

    The traits that the run is given are classes: [RuntimePort] of [runtime.rs], which
    [docker_runtime] implements, and [RunPorts] with the token of the caller, the
    clock, the completion barrier, the lifecycle observer and the storage probe.  The
    supervisor is one for each generation guard.  The machine has the tree of the
    cache root and that of the host; [view] is what the system answers about paths in
    a tree of the host. *)
From S2P Require Import Prelude.
From S2P Require Import RustStr.
From S2P Require Import BTree.
From S2P Require Import Canonical.
From S2P Require Import Config.
From S2P Require Import Storage.
From S2P Require Import Receipt.
From S2P Require Import Durable.
From S2P Require Import Resource.
From S2P Require Import Benchmark.
From S2P Require Import FileSystem.
From S2P Require Import CachePayload.
From S2P Require Import CacheRoot.
From S2P Require Import Cache.
From S2P Require Import Workspace.
From S2P Require Import Artifacts.
From S2P Require Import Ports.
From S2P Require Import Process.
From S2P Require Import Runtime.
From S2P Require Import SourceSnapshot.
From S2P Require Import RunParts.
Local Open Scope Z_scope.

Definition RUN_GIT_TIMEOUT : Z := millis 10000.
Definition RUN_GIT_CAPTURE_BYTES : Z := 65536.

Record RunRequest : Type := {
  ru_envelope : ExecutionPlanEnvelopeV1;
  ru_repository : list component;
  ru_cache : ResolvedCacheRoot;
  ru_producer_version : string;
  ru_generation : Z;
  ru_source_snapshot : option SourceSnapshot;
}.

(** * The traits *)

Class RuntimePort (S : Type) : Type := {
  rt_probe : GenerationGuard → ExecutionPlanEnvelopeV1 → list component → io S RuntimeError RuntimeProbe;
  rt_capability_probe : GenerationGuard → ExecutionPlanEnvelopeV1 → list component → RuntimeProbe →
    io S RuntimeError (option RuntimeCapabilityEvidenceV1);
  rt_dry_run : ExecutionPlanEnvelopeV1 → WorkspacePlanV1 → result RuntimeError DryRunPlan;
  rt_execute_check : GenerationGuard → RuntimeExecutionContext → NormalizedCheck → DryRunCheck → io S RuntimeError ProcessResult;
}.

Class RunPorts (S : Type) : Type := {
  port_token : S → CancellationToken * S;
  port_now_utc : io S RunError string;
  port_finalize : list CheckEvidence → io S RunError ();
  port_transition : RunLifecyclePhase → io S RunError ();
  port_available_bytes : S → (string → result StorageError Z) * S;
}.

(** The machine of a run. *)
Definition machine (U : Type) : Type := (World * (HostFiles * U))%type.

Section Run.
Context `{Backend, CacheParser} {U : Type} `{RuntimePort (machine U), RunPorts (machine U)}
  (supervise : GenerationGuard → SupervisorPort (machine U)) (view : node → HostView) (process : CacheProcess)
  (var_os : string → option string) (host_os host_arch : string)
  (between : moment → path → node → node) (follow : path → node → result io_kind (list ascii)).

Abbreviation run := (io (machine U) RunError).

(** * The token *)

Definition under_pressure (t : CancellationToken) : bool := bool_decide (reason t = Some CancelledResourcePressure).

(** [cancellation.reason()], of the token of the run or of a fresh one. *)
Definition look_at_token (use : token_use) : run CancellationToken :=
  match use with
  | RunToken => call port_token
  | CleanupToken => mret token_default
  end.
Definition refuse_under_pressure (use : token_use) : run () :=
  t ← look_at_token use;
  io_lift (ensure (negb (under_pressure t)) ResourcePressure).
(** [map_err] where pressure goes first. *)
Definition or_pressure {E A} (use : token_use) (f : E → RunError) (m : io (machine U) E A) : run A :=
  r ← attempt m;
  match r with
  | Ok x => mret x
  | Err e => t ← look_at_token use; io_lift (Err (if under_pressure t then ResourcePressure else f e))
  end.

(** * Git *)

Definition run_git_request (identity : RunIdentity) (repository : list component) (argv : list string) : ProcessRequest :=
  {| rq_identity := identity; rq_program := "git"; rq_argv := argv; rq_current_dir := repository;
     rq_environment := git_environment var_os; rq_timeout := RUN_GIT_TIMEOUT; rq_max_capture_bytes := RUN_GIT_CAPTURE_BYTES |}.

Definition run_execute_git (guard : GenerationGuard) (identity : RunIdentity) (use : token_use) (repository : list component)
    (argv : list string) : run string :=
  r ← or_pressure use RunProcess (port_execute (SupervisorPort := supervise guard) (run_git_request identity repository argv) use);
  _ ← refuse_under_pressure use;
  _ ← io_lift (ensure (git_succeeded r) GitInspection);
  io_lift (ok_or (from_utf8 (cs_bytes (pr_stdout r))) GitInspection).

Definition status_argv (envelope : ExecutionPlanEnvelopeV1) : list string :=
  ["status"; "--porcelain=v1"; "--untracked-files=all"; "--"; "."; ":(exclude)" +:+ nrec_output (ep_receipt (pe_plan envelope))].

Definition inspect_repository (envelope : ExecutionPlanEnvelopeV1) (guard : GenerationGuard) (identity : RunIdentity)
    (use : token_use) (repository : list component) : run string :=
  output ← run_execute_git guard identity use repository ["rev-parse"; "--verify"; "HEAD"];
  let commit := trim output in
  _ ← io_lift (ensure (valid_oid commit) InvalidCommit);
  status ← run_execute_git guard identity use repository (status_argv envelope);
  _ ← io_lift (ensure (is_empty status) DirtyRepository);
  mret commit.

(** * The checks *)

(** What the loop has so far: the status of each check by its identifier, the
    evidence in order, and why no further check starts. *)
Record progress : Type := {
  pg_statuses : btmap string EvidenceStatus;
  pg_checks : list CheckEvidence;
  pg_terminal : option string;
}.
Definition no_progress : progress := {| pg_statuses := []; pg_checks := []; pg_terminal := None |}.
Definition record_evidence (evidence : CheckEvidence) (terminal : option string) (pg : progress) : progress :=
  {| pg_statuses := map_insert (ce_id evidence) (ce_status evidence) (pg_statuses pg); pg_checks := pg_checks pg ++ [evidence];
     pg_terminal := terminal |}.

Definition dependencies_passed (statuses : btmap string EvidenceStatus) (declared : NormalizedCheck) : bool :=
  forallb (λ d, bool_decide (map_get d statuses = Some Pass)) (nk_depends_on declared).

(** Errors after which a container may be left; [RuntimeFault] is a panic. *)
Definition stops_the_run (e : RuntimeError) : bool :=
  match e with
  | LifecycleFailure _ | RuntimeCleanupUncertain | RuntimeProcess (CleanupUncertain _ _) | RuntimeFault _ => true
  | _ => false
  end.

Definition execution_context (identity : RunIdentity) (run_id : string) (environment : btmap string string)
    (execution_root : list component) (declared : NormalizedCheck) : RuntimeExecutionContext :=
  {| rx_execution_root := execution_root; rx_environment := environment; rx_identity := identity; rx_run_id := run_id;
     rx_timeout_seconds := nk_timeout_seconds declared |}.

Definition settle (declared : NormalizedCheck) (r : result RuntimeError ProcessResult) : run (CheckEvidence * option string) :=
  match r with
  | Ok result =>
    pressure ← if bool_decide (pr_termination result = Cancelled) then t ← call port_token; mret (under_pressure t) else mret false;
    if pressure : bool then mret (not_run declared PRESSURE, Some PRESSURE) else
    evidence ← io_lift (evidence_from_result declared result);
    mret (evidence, None)
  | Err e =>
    if stops_the_run e then io_lift (Err (RunRuntime e)) else
    t ← call port_token;
    let reason := if under_pressure t then PRESSURE else "runtime execution became unavailable or uncertain" in
    mret (not_run declared reason, Some reason)
  end.

Section Checks.
Context (guard : GenerationGuard) (identity : RunIdentity) (run_id : string) (environment : btmap string string)
  (execution_root : list component).

Definition check_turn (pg : progress) (check : NormalizedCheck * DryRunCheck) : run progress :=
  let '(declared, rendered) := check in
  t ← call port_token;
  if is_cancelled t then
    t ← call port_token;
    let reason := cancellation_reason_text t in
    mret (record_evidence (not_run declared reason) (Some reason) pg)
  else match pg_terminal pg with
  | Some reason => mret (record_evidence (not_run declared reason) (Some reason) pg)
  | None =>
    if negb (dependencies_passed (pg_statuses pg) declared)
    then mret (record_evidence (not_run declared "dependency did not pass in this run") None pg) else
    r ← attempt (rt_execute_check guard (execution_context identity run_id environment execution_root declared) declared rendered);
    '(evidence, terminal) ← settle declared r;
    mret (record_evidence evidence terminal pg)
  end.

Definition run_checks : list (NormalizedCheck * DryRunCheck) → run progress := io_fold check_turn no_progress.
End Checks.

(** Pressure that no evidence tells of. *)
Definition refuse_hidden_pressure (checks : list CheckEvidence) : run () :=
  t ← call port_token;
  io_lift (ensure (negb (under_pressure t && negb (has_resource_pressure_not_run checks))) ResourcePressure).

(** * The run *)

Definition with_commit (commit : string) (identity : RunIdentity) : RunIdentity :=
  {| id_project := id_project identity; id_commit := Some commit; id_config_digest := id_config_digest identity;
     id_generation := id_generation identity |}.
Definition first_identity (request : RunRequest) : RunIdentity :=
  {| id_project := ep_project (pe_plan (ru_envelope request)); id_commit := None;
     id_config_digest := pe_plan_digest (ru_envelope request); id_generation := decimal_text (ru_generation request) |}.

Definition host_view : run HostView := on_host (look (λ t, Ok (view t))).

(** The files of the workspace, in the tree of the cache root. *)
Definition prepare_workspace (request : RunRequest) (execution_root : list component) : run PreparedWorkspace :=
  host ← host_view;
  io_map_err RunWorkspace (on_tree
    match ru_source_snapshot request with
    | Some snapshot =>
      prepare_snapshot_with_generation process host (ru_cache request) (ru_envelope request) execution_root
        (sv_manifest_digest (sn_evidence snapshot)) (ru_generation request)
    | None => prepare_with_generation process host (ru_cache request) (ru_envelope request) execution_root (ru_generation request)
    end).
Definition drop_prepared_workspace (prepared : PreparedWorkspace) : run () := on_tree (fs_ignore (drop_workspace prepared)).

(** A turn for each directory of the tree. *)
Definition run_artifacts (request : RunRequest) (prepared : PreparedWorkspace) : run (list ArtifactEvidence) :=
  fuel ← call (λ s, (directory_count (w_tree s.1), s));
  io_map_err RunArtifactObservation (on_tree (observe_artifacts between follow fuel (pe_plan (ru_envelope request))
    (place (ru_cache request) (wp_run_root (pw_plan prepared))))).

Definition all_passed (checks : list CheckEvidence) : bool := forallb (λ c, bool_decide (ce_status c = Pass)) checks.

Definition platform_evidence (envelope : ExecutionPlanEnvelopeV1) (probe : RuntimeProbe) (image_digest : string) : PlatformEvidence :=
  {| pl_host_os := host_os; pl_host_arch := host_arch;
     pl_runtime_kind := match pb_runtime probe with DockerCompatible => "docker_compatible" | Host => "host" end;
     pl_runtime_version := default "not-reported" (pb_server_version probe);
     pl_image_reference := nr_image (ep_runtime (pe_plan envelope)); pl_image_digest := image_digest |}.

(** The receipt of the evidence. *)
Definition receipt_of (request : RunRequest) (commit run_id started_at_utc finished_at_utc image_digest : string)
    (probe : RuntimeProbe) (checks : list CheckEvidence) (overall_status : EvidenceStatus) : ReceiptV1 :=
  {| r1_schema_version := RECEIPT_SCHEMA_VERSION;
     r1_producer := {| pr_name := "commit-ci-preflight"; pr_version := ru_producer_version request |};
     r1_repository := {| rp_repository := ep_project (pe_plan (ru_envelope request)); rp_commit_sha := commit; rp_dirty := false |};
     r1_run := {| rn_run_id := run_id; rn_generation := ru_generation request; rn_started_at_utc := started_at_utc;
                  rn_finished_at_utc := finished_at_utc |};
     r1_platform := platform_evidence (ru_envelope request) probe image_digest;
     r1_configuration_digest := pe_plan_digest (ru_envelope request);
     r1_checks := checks;
     r1_overall_status := overall_status;
     r1_incomplete_reason := if bool_decide (overall_status = Pending) then Some "one or more required checks were not run" else None;
     r1_redaction_policy_version := REDACTION_POLICY_VERSION |}.

(** From the rendering of the checks to the receipt, with a workspace. *)
Definition run_in_workspace (request : RunRequest) (guard : GenerationGuard) (identity : RunIdentity) (commit : string)
    (repository execution_root : list component) (probe : RuntimeProbe) (prepared : PreparedWorkspace) :
    run (ReceiptEnvelopeV1 * list ArtifactEvidence) :=
  let envelope := ru_envelope request in
  let declared := ep_checks (pe_plan envelope) in
  dry_run ← io_lift (map_err RunRuntime (rt_dry_run envelope (pw_plan prepared)));
  _ ← io_lift (ensure (length (dr_checks dry_run) =? length declared)%nat (RunInvariant "runtime check plan length changed"));
  _ ← port_transition PhasePrepared;
  started_at_utc ← port_now_utc;
  run_id ← io_lift (run_id envelope commit (ru_generation request) started_at_utc);
  environment ← io_lift (map_err RunRuntime (docker_execution_environment var_os envelope));
  _ ← port_transition PhaseExecuting;
  pg ← run_checks guard identity run_id environment execution_root (zip declared (dr_checks dry_run));
  let checks := pg_checks pg in
  _ ← refuse_hidden_pressure checks;
  completed_commit ← inspect_repository envelope guard identity CleanupToken repository;
  _ ← io_lift (ensure (completed_commit =? commit)%string StaleCommit);
  _ ← match ru_source_snapshot request with
      | Some snapshot =>
        io_map_err RunSourceSnapshot (revalidate (supervisor := supervise guard) var_os identity CleanupToken snapshot)
      | None => mret ()
      end;
  _ ← refuse_hidden_pressure checks;
  artifact_manifest ← run_artifacts request prepared;
  _ ← port_finalize checks;
  _ ← port_transition PhaseFinalizing;
  _ ← if all_passed checks then
        _ ← io_map_err RunWorkspace (on_tree (mark_caches_complete process prepared)); mret ()
      else mret ();
  finished_at_utc ← port_now_utc;
  overall_status ← io_lift (derive_overall_status declared (pg_statuses pg));
  image_digest ← io_lift (ok_or (snd <$> rsplit_once "@" (nr_image (ep_runtime (pe_plan envelope))))
                            (RunInvariant "validated image lost its digest"));
  receipt ← io_lift (map_err RunReceipt (seal1
    (receipt_of request commit run_id started_at_utc finished_at_utc image_digest probe checks overall_status)));
  mret (receipt, artifact_manifest).

(** [execute_local_receipt_and_artifacts_with_dependencies]; [given] is a preflight
    that was made before.  The workspace is dropped however the run ends. *)
Definition run_preflight (request : RunRequest) (given : option RuntimePreflight) (repository : list component) : run RuntimePreflight :=
  let envelope := ru_envelope request in
  let guard := doctor_guard envelope in
  match given with
  | Some preflight => mret preflight
  | None => or_pressure RunToken RunRuntime
              (preflight_with (rt_probe guard envelope repository) (rt_capability_probe guard envelope repository) envelope)
  end.

Definition storage_preflight (request : RunRequest) : run () :=
  match ep_storage (pe_plan (ru_envelope request)) with
  | Some storage =>
    available ← call port_available_bytes;
    _ ← io_lift (map_err RunStorage (preflight available storage (path_text (rr_path (ru_cache request)))));
    mret ()
  | None => mret ()
  end.

Definition run_repository (request : RunRequest) : run (list component) :=
  repository ← io_map_err RunIo (on_host (look (λ t, po_canonicalize (hv_paths (view t)) (ru_repository request))));
  _ ← on_host (look (λ t, ensure (po_is_dir (hv_paths (view t)) repository) RunRepositoryNotDirectory));
  mret repository.

(** The commit of a run: that of its snapshot, or the clean head. *)
Definition run_commit (request : RunRequest) (guard : GenerationGuard) (identity : RunIdentity) (repository : list component) : run string :=
  match ru_source_snapshot request with
  | Some snapshot => mret (commit_sha snapshot)
  | None => or_pressure RunToken id (inspect_repository (ru_envelope request) guard identity RunToken repository)
  end.

Definition finally {A} (m : run A) (clean : run ()) : run A :=
  r ← attempt m;
  _ ← attempt (E := RunError) clean;
  io_lift r.

Definition execute_local_receipt_and_artifacts (request : RunRequest) (given : option RuntimePreflight) :
    run (ReceiptEnvelopeV1 * list ArtifactEvidence * option RuntimeCapabilityEvidenceV1) :=
  let envelope := ru_envelope request in
  _ ← refuse_under_pressure RunToken;
  _ ← io_lift (ensure_local_environment_allowed envelope);
  repository ← run_repository request;
  _ ← storage_preflight request;
  preflight ← run_preflight request given repository;
  let identity := first_identity request in
  let guard := guard_new identity in
  commit ← run_commit request guard identity repository;
  let identity := with_commit commit identity in
  guard ← io_lift (map_err RunProcess (replace identity guard));
  let execution_root := match ru_source_snapshot request with Some snapshot => sn_root snapshot | None => repository end in
  probe ← match rp_runtime_probe preflight with
          | Some probe => mret probe
          | None => or_pressure RunToken RunRuntime (rt_probe (doctor_guard envelope) envelope execution_root)
          end;
  _ ← refuse_under_pressure RunToken;
  prepared ← prepare_workspace request execution_root;
  '(receipt, artifact_manifest) ← finally
     (run_in_workspace request guard identity commit repository execution_root probe prepared) (drop_prepared_workspace prepared);
  mret (receipt, artifact_manifest, rp_capability_evidence preflight).

(** [execute_local_receipt_with_barrier_and_lifecycle]. *)
Definition execute_local_receipt (request : RunRequest) : run ReceiptEnvelopeV1 :=
  '(receipt, _, _) ← execute_local_receipt_and_artifacts request None;
  mret receipt.

(** The receipt that goes with a source snapshot. *)
Definition receipt_v2_of (request : RunRequest) (snapshot : SourceSnapshot) (receipt : ReceiptV1)
    (artifact_manifest : list ArtifactEvidence) (capability_evidence : option RuntimeCapabilityEvidenceV1) : ReceiptV2 :=
  {| r2_schema_version := RECEIPT_V2_SCHEMA_VERSION;
     r2_producer := r1_producer receipt;
     r2_repository := r1_repository receipt;
     r2_run := r1_run receipt;
     r2_source_snapshot :=
       {| ss_schema_version := Receipt.SOURCE_SNAPSHOT_SCHEMA_VERSION; ss_strategy := GitObject;
          ss_manifest_digest := sv_manifest_digest (sn_evidence snapshot); ss_entry_count := sv_entry_count (sn_evidence snapshot) |};
     r2_platform := r1_platform receipt;
     r2_configuration_digest := r1_configuration_digest receipt;
     r2_execution_plan := pe_plan (ru_envelope request);
     r2_runtime_capability_evidence := capability_evidence;
     r2_artifact_manifest := artifact_manifest;
     r2_checks := r1_checks receipt;
     r2_overall_status := r1_overall_status receipt;
     r2_incomplete_reason := r1_incomplete_reason receipt;
     r2_redaction_policy_version := r1_redaction_policy_version receipt |}.

(** [execute_local_run_with_dependencies]: the receipt is published. *)
Definition execute_local_run (request : RunRequest) (given : option RuntimePreflight) : run RunOutcome :=
  '(receipt, artifact_manifest, capability_evidence) ← execute_local_receipt_and_artifacts request given;
  receipt_v2 ← io_lift (map_err RunReceipt
    match ru_source_snapshot request with
    | Some snapshot =>
      sealed ← seal2 (receipt_v2_of request snapshot (e1_receipt receipt) artifact_manifest capability_evidence);
      Ok (Some sealed)
    | None => Ok None
    end);
  published ← io_lift (map_err RunReceipt
    match receipt_v2 with
    | Some value => canonical_bytes2 value
    | None => canonical_bytes1 receipt
    end);
  receipt_path ← on_host (write_receipt_bytes_atomic (λ t, hv_paths (view t)) (cpr_pid process) (ru_repository request)
                           (nrec_output (ep_receipt (pe_plan (ru_envelope request)))) published);
  mret {| uo_receipt := receipt; uo_receipt_v2 := receipt_v2; uo_receipt_path := receipt_path |}.
End Run.

(** [DockerCompatibleRuntime] and [DockerRuntimeCapabilityProbe] as such a runtime. *)
Definition docker_runtime `{Backend, ValueParser, CacheParser} {U : Type} (supervise : GenerationGuard → SupervisorPort (machine U))
    (view : node → HostView) (root : ResolvedCacheRoot) (var_os : string → option string) (containment : ContainmentMechanism)
    (graceful_stop : GracefulStopCapability) : RuntimePort (machine U) :=
  {| rt_probe guard envelope current_dir :=
       let supervisor := supervise guard in probe (λ s, (guard, s)) var_os containment graceful_stop current_dir envelope;
     rt_capability_probe guard envelope current_dir runtime_probe :=
       let supervisor := supervise guard in capability_probe (λ s, (guard, s)) var_os current_dir envelope runtime_probe;
     rt_dry_run := dry_run;
     rt_execute_check guard context check rendered :=
       let supervisor := supervise guard in
       host ← on_host (look (λ t, Ok (view t)));
       execute_check_on_tree host root context check rendered |}.
