(* ===== verification/RunProps.v ===== *)
(** Lemmas on a run ([Run.v], [RunParts.v]): the loop over the checks, the status of
    the run, the clock and the receipt file. *)
From S2P Require Import Prelude.
From S2P Require Import RustStr.
From S2P Require Import BTree.
From S2P Require Import Calendar.
From S2P Require Import Canonical.
From S2P Require Import Config.
From S2P Require Import Storage.
From S2P Require Import Receipt.
From S2P Require Import ReceiptProps.
From S2P Require Import Durable.
From S2P Require Import Resource.
From S2P Require Import Benchmark.
From S2P Require Import FileSystem.
From S2P Require Import CachePayload.
From S2P Require Import CacheRoot.
From S2P Require Import Cache.
From S2P Require Import Workspace.
From S2P Require Import Artifacts.
From S2P Require Import Ports.
From S2P Require Import Process.
From S2P Require Import Runtime.
From S2P Require Import SourceSnapshot.
From S2P Require Import RunParts.
From S2P Require Import Run.
Local Open Scope Z_scope.

(** * The loop over the checks *)

(** The evidence is about the check. *)
Definition describes (c : NormalizedCheck) (e : CheckEvidence) : Prop :=
  ce_id e = nk_id c ∧ ce_required e = nk_required c ∧ ce_argv e = nk_argv c ∧ ce_working_directory e = nk_working_directory c.

Definition DEPENDENCY : string := "dependency did not pass in this run".
(** The evidence of a check that did not run, nor any check after it. *)
Definition halted (e : CheckEvidence) : Prop := ce_status e = NotRun ∧ ce_incomplete_reason e ≠ Some DEPENDENCY.

Lemma describes_not_run c reason : describes c (not_run c reason).
Proof. done. Qed.
Lemma evidence_describes `{Backend} c r e : evidence_from_result c r = Ok e → describes c e.
Proof.
  unfold evidence_from_result. intros He. apply bind_ok in He as ([] & _ & He).
  destruct (match pr_termination r with Completed => _ | Cancelled => _ | TimedOut => _ end) as [[status timed_out] cancelled].
  by apply bind_ok in He as (digest & _ & [= <-]).
Qed.

(** The evidence of a check that passed. *)
Lemma evidence_passed `{Backend} c r e : evidence_from_result c r = Ok e → ce_status e = Pass →
  completed_success r = true ∧ ∃ digest, canonical_digest (output_digest_input r) = Ok digest ∧ ce_output_digest e = Some digest.
Proof.
  unfold evidence_from_result, completed_success, exit_success. intros He Hp. apply bind_ok in He as ([] & Hv%ensure_ok & He). rewrite Hv.
  destruct (pr_termination r); [|apply bind_ok in He as (? & _ & [= <-]); done..].
  apply bind_ok in He as (digest & Hd%map_err_ok & <-%ok_inj). cbn in Hp |- *.
  destruct (match pr_exit r with Some exit => xo_success exit | None => false end); [|done]. split; [done|]. by exists digest.
Qed.

(** What a plan grants of the command of a check. *)
Definition command_fine (c : NormalizedCheck) : Prop :=
  Fields.require_text "check.id" (nk_id c) = Ok () ∧
  negb ((length (nk_argv c) =? 0)%nat || existsb is_empty (nk_argv c)) = true ∧
  Fields.validate_relative_path "check.working_directory" (nk_working_directory c) = Ok ().

(** The exit that the evidence of a result must have to be valid. *)
Definition exit_told (r : ProcessResult) : Prop :=
  pr_termination r = Completed →
  if exit_success r then pr_exit r ≫= xo_code = Some 0 else ∃ code, pr_exit r ≫= xo_code = Some code ∧ code ≠ 0.

Lemma evidence_validity `{Backend, !BackendOk} c r e : evidence_from_result c r = Ok e → command_fine c →
  (CheckEvidence_validate e = Ok () ↔ exit_told r).
Proof.
  intros He (Hid & Hargv & Hwd). unfold evidence_from_result in He. apply bind_ok in He as ([] & _ & He).
  unfold CheckEvidence_validate, exit_told.
  destruct (pr_termination r); [destruct (exit_success r) eqn:Es|..]; apply bind_ok in He as (digest & Hd%map_err_ok & <-%ok_inj);
    destruct (canonical_digest_shape _ _ Hd) as (hex & Hpre & Hlen & Hhex);
    assert (Hdig : Fields.validate_sha256 "check.output_digest" digest = Ok ())
      by (unfold Fields.validate_sha256; rewrite Hpre; apply ensure_ok; by rewrite Hlen, Hhex);
    cbn; rewrite Hid, Hargv; cbn; rewrite Hwd; cbn; rewrite ?Hdig.
  - destruct (pr_exit r ≫= xo_code) as [code|]; [|by split; [|intros E; discriminate (E eq_refl)]].
    destruct (decide (code = 0)) as [->|Hne]; [done|].
    rewrite bool_decide_eq_false_2 by congruence. split; [done|]. intros E. by destruct Hne; injection (E eq_refl).
  - destruct (pr_exit r ≫= xo_code) as [code|]; [|by split; [|intros E; destruct (E eq_refl) as (? & ? & _)]].
    destruct (Z.eqb_spec code 0) as [->|Hne]; cbn.
    + split; [done|]. intros E. destruct (E eq_refl) as (? & [= <-] & ?). done.
    + split; [|done]. intros _ _. by exists code.
  - unfold ensure. rewrite !andb_false_r. by split.
  - unfold ensure. rewrite !andb_false_r. by split.
Qed.

Section Loop.
Context `{Backend, CacheParser} {U : Type} `{RuntimePort (machine U), RunPorts (machine U)}
  (guard : GenerationGuard) (identity : RunIdentity) (run_id : string) (environment : btmap string string)
  (execution_root : list component).

(** What the evidence of one check tells, after that of the checks before it: it did
    not run, or it ran once its dependencies had passed. *)
Definition ran_check (c : NormalizedCheck) (rendered : DryRunCheck) (r : ProcessResult) : Prop :=
  ∃ s1 s2 : machine U,
    rt_execute_check guard (execution_context identity run_id environment execution_root c) c rendered s1 = Some (Ok r, s2).
Definition told (before : list CheckEvidence) (check : NormalizedCheck * DryRunCheck) (e : CheckEvidence) : Prop :=
  describes check.1 e ∧
  ((∃ reason, e = not_run check.1 reason) ∨
   (Forall (λ e', ¬ halted e') before ∧
    Forall (λ d, ∃ e', e' ∈ before ∧ ce_id e' = d ∧ ce_status e' = Pass) (nk_depends_on check.1) ∧
    ∃ r, ran_check check.1 check.2 r ∧ evidence_from_result check.1 r = Ok e)).

(** The evidence of all checks: each tells of its check, and nothing runs after a
    check that was halted. *)
Definition all_told (checks : list (NormalizedCheck * DryRunCheck)) (evidence : list CheckEvidence) : Prop :=
  length evidence = length checks ∧
  ∀ i check, checks !! i = Some check → ∃ e, evidence !! i = Some e ∧ told (take i evidence) check e.

Lemma all_told_snoc checks evidence check e :
  all_told checks evidence → told evidence check e → all_told (checks ++ [check]) (evidence ++ [e]).
Proof.
  intros [Hl Ht] He. split; [by rewrite !length_app, Hl|]. intros i c Hi.
  apply lookup_app_Some in Hi as [Hi|[Hi Hc]].
  - destruct (Ht i c Hi) as (e' & He' & Htold). exists e'. pose proof (lookup_lt_Some _ _ _ He'). split; [by rewrite lookup_app_l|].
    by rewrite take_app_le by lia.
  - destruct (i - length checks)%nat as [|k] eqn:Ek; [|done]. injection Hc as <-. assert (i = length evidence) as -> by lia.
    exists e. split; [by rewrite lookup_app_r, Nat.sub_diag|]. by rewrite take_app_length.
Qed.

(** What holds after each turn. *)
Definition on_the_way (checks : list (NormalizedCheck * DryRunCheck)) (pg : progress) : Prop :=
  all_told checks (pg_checks pg) ∧
  (∀ id status, map_get id (pg_statuses pg) = Some status → ∃ e, e ∈ pg_checks pg ∧ ce_id e = id ∧ ce_status e = status) ∧
  (pg_terminal pg = None → Forall (λ e, ¬ halted e) (pg_checks pg)) ∧
  (NoDup ((λ c, nk_id c.1) <$> checks) → ∀ e, e ∈ pg_checks pg → map_get (ce_id e) (pg_statuses pg) = Some (ce_status e)).

Lemma recorded checks pg check e terminal :
  on_the_way checks pg → told (pg_checks pg) check e → (terminal = None → pg_terminal pg = None ∧ ¬ halted e) →
  on_the_way (checks ++ [check]) (record_evidence e terminal pg).
Proof.
  intros (Ha & Hs & Ht & Hn) He Hterm. unfold on_the_way, record_evidence. cbn. split_and!.
  - by apply all_told_snoc.
  - intros id status. rewrite map_get_insert. case_decide as Hid.
    + intros [= <-]. exists e. split_and!; [|done|done]. apply elem_of_app. right. by left.
    + intros (e' & Hin & ? & ?)%Hs. exists e'. split_and!; [|done|done]. apply elem_of_app. by left.
  - intros E. destruct (Hterm E) as [Ep Hh]. apply Forall_app. split; [by apply Ht|]. by constructor.
  - rewrite fmap_app. intros (Hnd & Hdis & _)%NoDup_app e' Hin. apply elem_of_app in Hin as [Hin|Hin%list_elem_of_singleton].
    + rewrite map_get_insert, decide_False; [by apply Hn|]. intros Eid. apply (Hdis (nk_id check.1)).
      2: { by left. }
      destruct Ha as [Hl Ha]. apply list_elem_of_lookup in Hin as [i Hi]. pose proof (lookup_lt_Some _ _ _ Hi) as Hlt.
      rewrite Hl in Hlt. apply lookup_lt_is_Some in Hlt as [c Hc]. destruct (Ha i c Hc) as (e2 & He2 & [(Hid2 & _) _]).
      destruct He as [(Hid & _) _]. apply list_elem_of_fmap. exists c. split; [congruence|]. by apply list_elem_of_lookup; exists i.
    + subst e'. by rewrite map_get_insert, decide_True.
Qed.

Lemma not_run_told before c rendered reason : told before (c, rendered) (not_run c reason).
Proof. split; [done|]. left. by exists reason. Qed.

(** The statuses know which dependencies passed. *)
Lemma dependencies_told checks pg c :
  on_the_way checks pg → dependencies_passed (pg_statuses pg) c = true →
  Forall (λ d, ∃ e', e' ∈ pg_checks pg ∧ ce_id e' = d ∧ ce_status e' = Pass) (nk_depends_on c).
Proof.
  intros (_ & Hs & _) Hd. unfold dependencies_passed in Hd. rewrite forallb_Forall in Hd. eapply Forall_impl; [exact Hd|].
  intros d Hp%bool_decide_eq_true. by apply Hs.
Qed.

Lemma turn_run checks pg check s pg' s' :
  on_the_way checks pg → check_turn guard identity run_id environment execution_root pg check s = Some (Ok pg', s') →
  on_the_way (checks ++ [check]) pg'.
Proof.
  intros Hw Hr. destruct check as [c rendered]. unfold check_turn in Hr.
  apply bind_run in Hr as (t & s1 & _ & Hr). destruct (is_cancelled t).
  { apply bind_run in Hr as (t2 & s2 & _ & Hr). apply ret_run in Hr as [<- _]. apply recorded; [done|apply not_run_told|done]. }
  destruct (pg_terminal pg) as [reason|] eqn:Ep.
  { apply ret_run in Hr as [<- _]. apply recorded; [done|apply not_run_told|done]. }
  destruct (dependencies_passed (pg_statuses pg) c) eqn:Ed; cbn [negb] in Hr.
  2: { apply ret_run in Hr as [<- _]. apply recorded; [done|apply not_run_told|]. intros _. split; [done|]. by intros [_ []]. }
  apply bind_run in Hr as (r & s2 & Hx%attempt_run & Hr). apply bind_run in Hr as ([e terminal] & s3 & Hset & Hr).
  apply ret_run in Hr as [<- _]. destruct r as [r|x]; cbn [settle] in Hset.
  - apply bind_run in Hset as (pressure & s4 & _ & Hset). destruct pressure.
    { apply ret_run in Hset as [[= <- <-] _]. apply recorded; [done|apply not_run_told|done]. }
    apply bind_run in Hset as (e' & s5 & Hev & Hset). apply lift_run in Hev as [Hev ->]. apply ret_run in Hset as [[= <- <-] _].
    apply recorded; [done| |].
    + split; [by eapply evidence_describes|]. right. split_and!; [by apply Hw|by eapply dependencies_told|].
      exists r. split; [|done]. by exists s1, s2.
    + intros _. split; [done|]. intros [Hn _]. unfold evidence_from_result in Hev. apply bind_ok in Hev as ([] & _ & Hev).
      destruct (pr_termination r); [destruct (exit_success r)|..]; apply bind_ok in Hev as (digest & _ & [= <-]); done.
  - destruct (stops_the_run x); [by apply lift_run in Hset as [[=] _]|].
    apply bind_run in Hset as (t2 & s4 & _ & Hset). apply ret_run in Hset as [[= <- <-] _].
    apply recorded; [done|apply not_run_told|done].
Qed.

Lemma run_checks_told checks s pg s' :
  run_checks guard identity run_id environment execution_root checks s = Some (Ok pg, s') → on_the_way checks pg.
Proof.
  apply (fold_run _ (λ pre pg _, on_the_way pre pg)).
  - unfold on_the_way, all_told. cbn. split_and!; try done. intros _ e He. by apply not_elem_of_nil in He.
  - intros pre check post pg1 s1 pg2 s2 _ Hw Ht. by eapply turn_run.
Qed.
End Loop.

(** * The status of a run *)

(** What the run derives from the statuses is what the validation derives from the
    evidence. *)
Lemma mapM_statuses statuses (declared : list NormalizedCheck) (evidence : list CheckEvidence) :
  Forall2 describes declared evidence → (∀ e, e ∈ evidence → map_get (ce_id e) statuses = Some (ce_status e)) →
  mapM (λ check, ok_or (map_get (nk_id check) statuses) (RunInvariant "required check result is missing")) (List.filter nk_required declared) =
  Ok (ce_status <$> List.filter ce_required evidence).
Proof.
  induction 1 as [|c e declared evidence (Hid & Hreq & _) Hall IH]; intros Hm; [done|]. cbn [List.filter]. rewrite <-Hreq.
  specialize (IH (λ e' He', Hm e' (list_elem_of_further _ _ _ He'))). destruct (ce_required e); [|exact IH].
  cbn [mapM]. rewrite <-Hid, (Hm e) by apply list_elem_of_here. cbn [ok_or mbind result_bind]. by rewrite IH.
Qed.

Lemma overall_status_agrees statuses declared evidence :
  Forall2 describes declared evidence → (∀ e, e ∈ evidence → map_get (ce_id e) statuses = Some (ce_status e)) →
  derive_overall_status declared statuses = Ok (Fields.derive_overall_status (ce_status <$> List.filter ce_required evidence)).
Proof.
  intros Hd Hm. unfold derive_overall_status. rewrite (mapM_statuses _ _ _ Hd Hm). cbn [mbind result_bind].
  unfold Fields.derive_overall_status. done.
Qed.

(** * The whole run *)

Section Whole.
Context `{Backend, CacheParser} {U : Type} `{RuntimePort (machine U), RunPorts (machine U)}
  (supervise : GenerationGuard → SupervisorPort (machine U)) (view : node → HostView) (process : CacheProcess)
  (var_os : string → option string) (host_os host_arch : string)
  (between : moment → path → node → node) (follow : path → node → result io_kind (list ascii)).

(** Git said that the head is this commit, and then that nothing is changed. *)
Definition clean_at (guard : GenerationGuard) (identity : RunIdentity) (use : token_use) (envelope : ExecutionPlanEnvelopeV1)
    (repository : list component) (commit : string) : Prop :=
  valid_oid commit = true ∧
  ∃ (s1 s2 s3 s4 : machine U) head status,
    port_execute (SupervisorPort := supervise guard) (run_git_request var_os identity repository ["rev-parse"; "--verify"; "HEAD"]) use s1
      = Some (Ok head, s2) ∧ git_succeeded head = true ∧ trim (str (cs_bytes (pr_stdout head))) = commit ∧
    port_execute (SupervisorPort := supervise guard) (run_git_request var_os identity repository (status_argv envelope)) use s3
      = Some (Ok status, s4) ∧ git_succeeded status = true ∧ cs_bytes (pr_stdout status) = [].

Lemma or_pressure_run {E A} use (f : E → RunError) (m : io (machine U) E A) s x s' :
  or_pressure use f m s = Some (Ok x, s') → m s = Some (Ok x, s').
Proof.
  unfold or_pressure. intros Hr. apply bind_run in Hr as (r & s1 & Hm%attempt_run & Hr). destruct r as [y|e].
  - by apply ret_run in Hr as [-> ->].
  - apply bind_run in Hr as (t & s2 & _ & Hr). by apply lift_run in Hr as [[=] _].
Qed.

Lemma git_run guard identity use repository argv s text s' :
  run_execute_git supervise var_os guard identity use repository argv s = Some (Ok text, s') →
  ∃ r s1, port_execute (SupervisorPort := supervise guard) (run_git_request var_os identity repository argv) use s = Some (Ok r, s1) ∧
    git_succeeded r = true ∧ text = str (cs_bytes (pr_stdout r)).
Proof.
  unfold run_execute_git. intros Hr. apply bind_run in Hr as (r & s1 & Hp%or_pressure_run & Hr).
  apply bind_run in Hr as ([] & s2 & _ & Hr). apply bind_run in Hr as ([] & s3 & Hok & Hr). apply lift_run in Hok as [Hok%ensure_ok ->].
  apply lift_run in Hr as [Ht%ok_or_ok ->]. exists r, s1. split_and!; [done|done|]. unfold from_utf8 in Ht.
  destruct (valid_utf8 _); [|done]. by injection Ht as <-.
Qed.

Lemma inspect_run envelope guard identity use repository s commit s' :
  inspect_repository supervise var_os envelope guard identity use repository s = Some (Ok commit, s') →
  clean_at guard identity use envelope repository commit.
Proof.
  unfold inspect_repository. intros Hr. apply bind_run in Hr as (output & s1 & (head & s2 & Hh & Hok & ->)%git_run & Hr).
  apply bind_run in Hr as ([] & s3 & Hv & Hr). apply lift_run in Hv as [Hv%ensure_ok ->].
  apply bind_run in Hr as (status & s4 & (r & s5 & Hs & Hok' & ->)%git_run & Hr).
  apply bind_run in Hr as ([] & s6 & He & Hr). apply lift_run in He as [He%ensure_ok ->]. apply ret_run in Hr as [<- _].
  split; [done|]. exists s, s2, s1, s5, head, r. split_and!; try done.
  unfold is_empty in He. apply String.eqb_eq in He. apply (f_equal bytes) in He. by rewrite bytes_str in He.
Qed.

(** The identity of a run once its commit is known, and where its checks run. *)
Definition run_identity (request : RunRequest) (commit : string) : RunIdentity := with_commit commit (first_identity request).
Definition run_root (request : RunRequest) (repository : list component) : list component :=
  match ru_source_snapshot request with Some snapshot => sn_root snapshot | None => repository end.
Definition receipt_commit (receipt : ReceiptEnvelopeV1) : string := rp_commit_sha (r1_repository (e1_receipt receipt)).

(** What a receipt tells of its run: it is sealed; its evidence is that of the checks
    of the plan, in their order, which ran with the identity of the run on its commit;
    the repository was clean at that commit afterwards; and the status is that of the
    evidence. *)
Record truthful (request : RunRequest) (repository : list component) (environment : btmap string string)
    (rendered : list DryRunCheck) (receipt : ReceiptEnvelopeV1) : Prop := {
  tr_sealed : verify1 receipt = Ok ();
  tr_environment : docker_execution_environment var_os (ru_envelope request) = Ok environment;
  tr_length : length rendered = length (ep_checks (pe_plan (ru_envelope request)));
  tr_told : all_told (U := U) (guard_new (run_identity request (receipt_commit receipt))) (run_identity request (receipt_commit receipt))
              (rn_run_id (r1_run (e1_receipt receipt))) environment (run_root request repository)
              (zip (ep_checks (pe_plan (ru_envelope request))) rendered) (r1_checks (e1_receipt receipt));
  tr_clean : clean_at (guard_new (run_identity request (receipt_commit receipt))) (run_identity request (receipt_commit receipt))
               CleanupToken (ru_envelope request) repository (receipt_commit receipt);
  tr_status : NoDup (nk_id <$> ep_checks (pe_plan (ru_envelope request))) → r1_overall_status (e1_receipt receipt) =
    Fields.derive_overall_status (ce_status <$> List.filter ce_required (r1_checks (e1_receipt receipt)));
}.

Lemma all_told_describes guard identity run_id environment root declared rendered evidence :
  length rendered = length declared →
  all_told (U := U) guard identity run_id environment root (zip declared rendered) evidence → Forall2 describes declared evidence.
Proof.
  intros Hl [Hlen Ht]. rewrite length_zip_with_l_eq in Hlen by done. apply Forall2_same_length_lookup_2; [done|].
  intros i c e Hc He. destruct (lookup_lt_is_Some_2 rendered i) as [r Hr]; [rewrite Hl; by eapply lookup_lt_Some|].
  destruct (Ht i (c, r)) as (e' & He' & Htold); [by rewrite lookup_zip_with, Hc; cbn; rewrite Hr|].
  rewrite He in He'. injection He' as <-. apply Htold.
Qed.

(** The evidence of each check, read out of the receipt. *)
Lemma truthful_describes request repository environment rendered receipt :
  truthful request repository environment rendered receipt →
  Forall2 describes (ep_checks (pe_plan (ru_envelope request))) (r1_checks (e1_receipt receipt)).
Proof. intros Ht. eapply all_told_describes; apply Ht. Qed.

Lemma truthful_told request repository environment rendered receipt i c :
  truthful request repository environment rendered receipt → ep_checks (pe_plan (ru_envelope request)) !! i = Some c →
  ∃ d e, r1_checks (e1_receipt receipt) !! i = Some e ∧
    told (U := U) (guard_new (run_identity request (receipt_commit receipt))) (run_identity request (receipt_commit receipt))
      (rn_run_id (r1_run (e1_receipt receipt))) environment (run_root request repository)
      (take i (r1_checks (e1_receipt receipt))) (c, d) e.
Proof.
  intros Ht Hc. destruct (lookup_lt_is_Some_2 rendered i) as [d Hd]; [rewrite (tr_length _ _ _ _ _ Ht); by eapply lookup_lt_Some|].
  destruct (tr_told _ _ _ _ _ Ht) as [_ Hall]. destruct (Hall i (c, d)) as (e & He & Htold).
  { by rewrite lookup_zip_with, Hc; cbn; rewrite Hd. }
  by exists d, e.
Qed.

(** The validation of a sealed receipt has compared its status with its evidence. *)
Lemma truthful_status request repository environment rendered receipt :
  truthful request repository environment rendered receipt →
  (r1_overall_status (e1_receipt receipt) = Pass ↔
   ∀ e, e ∈ r1_checks (e1_receipt receipt) → ce_required e = true → ce_status e = Pass ∧ succeeded e) ∧
  ∃ e, e ∈ r1_checks (e1_receipt receipt) ∧ ce_required e = true.
Proof.
  intros Ht. pose proof (tr_sealed _ _ _ _ _ Ht) as Hv. unfold verify1 in Hv. apply bind_ok in Hv as ([] & Hv & _).
  unfold ReceiptV1_validate in Hv. by apply ReceiptCommon_validate_ok, overall_status_meaning in Hv as (? & _ & _ & ?).
Qed.

Lemma workspace_run request commit repository root probe prepared s receipt artifacts s' :
  root = run_root request repository →
  run_in_workspace supervise process var_os host_os host_arch between follow request (guard_new (run_identity request commit))
    (run_identity request commit) commit repository root probe prepared s = Some (Ok (receipt, artifacts), s') →
  receipt_commit receipt = commit ∧ ∃ environment rendered, truthful request repository environment rendered receipt.
Proof.
  intros -> Hr. unfold run_in_workspace in Hr.
  apply bind_run in Hr as (dry & s1 & Hdry & Hr). apply lift_run in Hdry as [_ ->].
  apply bind_run in Hr as ([] & s2 & Hlen & Hr). apply lift_run in Hlen as [Hlen%ensure_ok%Nat.eqb_eq ->].
  apply bind_run in Hr as ([] & s3 & _ & Hr). apply bind_run in Hr as (started & s4 & _ & Hr).
  apply bind_run in Hr as (id & s5 & Hid & Hr). apply lift_run in Hid as [_ ->].
  apply bind_run in Hr as (environment & s6 & Henv & Hr). apply lift_run in Henv as [Henv%map_err_ok ->].
  apply bind_run in Hr as ([] & s7 & _ & Hr). apply bind_run in Hr as (pg & s8 & Hpg%run_checks_told & Hr).
  apply bind_run in Hr as ([] & s9 & _ & Hr). apply bind_run in Hr as (completed & s10 & Hclean%inspect_run & Hr).
  apply bind_run in Hr as ([] & s11 & Heq & Hr). apply lift_run in Heq as [->%ensure_ok%String.eqb_eq ->].
  apply bind_run in Hr as ([] & s12 & _ & Hr). apply bind_run in Hr as ([] & s13 & _ & Hr).
  apply bind_run in Hr as (manifest & s14 & _ & Hr). apply bind_run in Hr as ([] & s15 & _ & Hr).
  apply bind_run in Hr as ([] & s16 & _ & Hr). apply bind_run in Hr as ([] & s17 & _ & Hr).
  apply bind_run in Hr as (finished_at & s18 & _ & Hr). apply bind_run in Hr as (overall & s19 & Hov & Hr).
  apply lift_run in Hov as [Hov ->]. apply bind_run in Hr as (digest & s20 & _ & Hr). apply bind_run in Hr as (sealed & s21 & Hs & Hr).
  apply lift_run in Hs as [Hs%map_err_ok ->]. apply ret_run in Hr as [[= <- _] _].
  assert (Hrec : e1_receipt sealed = receipt_of host_os host_arch request commit id started finished_at digest probe (pg_checks pg) overall)
    by (unfold seal1 in Hs; apply bind_ok in Hs as ([] & _ & Hs); by apply bind_ok in Hs as (i & _ & [= <-])).
  assert (Hc : receipt_commit sealed = commit) by (unfold receipt_commit; by rewrite Hrec).
  split; [done|]. exists environment, (dr_checks dry). pose proof Hpg as (Htold & _ & _ & Hst). split; rewrite ?Hc, ?Hrec; cbn.
  - apply seal1_verify1. by rewrite Hrec.
  - done.
  - done.
  - exact Htold.
  - exact Hclean.
  - intros Hnd. assert (Hd : Forall2 describes (ep_checks (pe_plan (ru_envelope request))) (pg_checks pg)) by by eapply all_told_describes.
    rewrite (overall_status_agrees (pg_statuses pg) _ (pg_checks pg)) in Hov; [by injection Hov as <-|done|].
    apply Hst. replace ((λ c, nk_id c.1) <$> zip _ _) with (nk_id <$> ep_checks (pe_plan (ru_envelope request))); [done|].
    rewrite <-(fst_zip (ep_checks (pe_plan (ru_envelope request))) (dr_checks dry)) at 1 by lia. by rewrite <-list_fmap_compose.
Qed.
(** The repository and the commit that a run starts from. *)
Definition starts_clean (request : RunRequest) (repository : list component) (commit : string) : Prop :=
  match ru_source_snapshot request with
  | Some snapshot => commit = commit_sha snapshot
  | None => clean_at (guard_new (first_identity request)) (first_identity request) RunToken (ru_envelope request) repository commit
  end.

Lemma finally_run {A} (m : io (machine U) RunError A) clean s x s' :
  finally m clean s = Some (Ok x, s') → ∃ s1, m s = Some (Ok x, s1).
Proof.
  unfold finally. intros Hr. apply bind_run in Hr as (r & s1 & Hm%attempt_run & Hr). apply bind_run in Hr as (c & s2 & _ & Hr).
  apply lift_run in Hr as [-> _]. by exists s1.
Qed.

Lemma receipt_run request given s receipt artifacts evidence s' :
  execute_local_receipt_and_artifacts supervise view process var_os host_os host_arch between follow request given s
    = Some (Ok (receipt, artifacts, evidence), s') →
  ∃ repository environment rendered,
    starts_clean request repository (receipt_commit receipt) ∧ truthful request repository environment rendered receipt.
Proof.
  unfold execute_local_receipt_and_artifacts. intros Hr. apply bind_run in Hr as ([] & s1 & _ & Hr).
  apply bind_run in Hr as ([] & s2 & _ & Hr). apply bind_run in Hr as (repository & s3 & _ & Hr).
  apply bind_run in Hr as ([] & s4 & _ & Hr). apply bind_run in Hr as (preflight & s5 & _ & Hr).
  apply bind_run in Hr as (commit & s6 & Hcommit & Hr). apply bind_run in Hr as (guard & s7 & Hguard & Hr).
  apply lift_run in Hguard as [Hguard ->]. injection Hguard as <-.
  apply bind_run in Hr as (probe & s8 & _ & Hr). apply bind_run in Hr as ([] & s9 & _ & Hr).
  apply bind_run in Hr as (prepared & s10 & _ & Hr). apply bind_run in Hr as ([receipt' artifacts'] & s11 & [s12 Hbody]%finally_run & Hr).
  apply ret_run in Hr as [[= <- <- _] _]. apply (workspace_run _ _ _ _ _ _ _ _ _ _ eq_refl) in Hbody as (Hc & environment & rendered & Ht).
  exists repository, environment, rendered. split; [|done]. rewrite Hc. unfold run_commit in Hcommit. unfold starts_clean.
  destruct (ru_source_snapshot request) as [snapshot|]; [by apply ret_run in Hcommit as [<- _]|].
  apply or_pressure_run in Hcommit. by eapply inspect_run.
Qed.
End Whole.
