(* ===== verification/RunPartsProps.v ===== *)
(** Lemmas on the parts of a run ([RunParts.v]): what is in the place of a receipt
    wherever the writing is interrupted, and the clock. *)
From S2P Require Import Prelude.
From S2P Require Import RustStr.
From S2P Require Import BTree.
From S2P Require Import Calendar.
From S2P Require Import Canonical.
From S2P Require Import Config.
From S2P Require Import Durable.
From S2P Require Import FileSystem.
From S2P Require Import CacheRoot.
From S2P Require Import Workspace.
From S2P Require Import WorkspaceProps.
From S2P Require Import SourceSnapshot.
From S2P Require Import SourceSnapshotProps.
From S2P Require Import RunParts.
Local Open Scope Z_scope.

Lemma prefixes_split {A} (before l p : list A) : p ∈ prefixes before l → ∃ r s, l = r ++ s ∧ p = before ++ r ∧ r ≠ [].
Proof.
  revert before. induction l as [|x l IH]; intros before Hin; cbn in Hin; [by apply not_elem_of_nil in Hin|].
  apply elem_of_cons in Hin as [->|Hin]; [by exists [x], l|]. apply IH in Hin as (r & s & -> & -> & _).
  exists (x :: r), s. split_and!; [done|by rewrite <-app_assoc|done].
Qed.

(** A program that is followed by a cleanup, which does not fail. *)
Lemma triple_finally {E A} P (m : fs E A) (clean : fs E ()) (Q : A → node → Prop) (R C : node → Prop) :
  crash_triple P m Q R → (∀ x, crash_triple (Q x) clean (λ _, Q x) C) → crash_triple R clean (λ _, C) C → (∀ t, R t → C t) →
  (∀ w e w', clean w ≠ (Failed e, w')) → crash_triple P (fs_finally m clean) Q C.
Proof.
  intros Hm Hq Hr HR Hfail w Hw. specialize (Hm w Hw). unfold fs_finally. destruct (m w) as [[x|e|] w1]; [| |by apply HR].
  - specialize (Hq x w1 Hm). pose proof (Hfail w1) as Hf. destruct (clean w1) as [[|e|] w2]; [done|by destruct (Hf e w2)|done].
  - specialize (Hr w1 Hm). by destruct (clean w1) as [[]].
Qed.

(** A program whose result is known. *)
Lemma triple_known {E A B} P (x : A) (m : fs E A) (f : A → fs E B) Q C :
  crash_triple P m (λ y t, y = x ∧ P t) C → crash_triple P (f x) Q C → crash_triple P (m ≫= f) Q C.
Proof. intros Hm Hf. eapply triple_bind; [exact Hm|]. intros y w [-> Hw]. by apply Hf. Qed.

(** A new directory is empty. *)
Lemma put_empty_dir p q t : q ≠ [] → tree_get p t = None → tree_get (p ++ q) (tree_put p (Some (Dir [])) t) = None.
Proof.
  intros Hq Hn. rewrite tree_get_app. destruct (tree_get p (tree_put p (Some (Dir [])) t)) as [n|] eqn:E; [|done].
  destruct p as [|k p _] using rev_ind; [done|]. destruct (is_dir (tree_get p t)) eqn:Hd.
  - rewrite tree_put_same in E by done. injection E as <-. by destruct q.
  - rewrite tree_get_snoc, tree_put_below in E by done. destruct (tree_get p t) as [m|]; [|done]. by destruct m.
Qed.

Lemma get_below_none p q t : tree_get p t = None → tree_get (p ++ q) t = None.
Proof. intros Hn. by rewrite tree_get_app, Hn. Qed.

Section ReceiptFile.
Context (root q0 : path) (k : string).
Abbreviation target := (root ++ q0 ++ [k]).

Lemma names_absolute p : tree_names (absolute p) = p.
Proof. apply host_path_absolute. Qed.

Lemma names_below r : tree_names (absolute root ++ (Normal <$> r)) = root ++ r.
Proof.
  replace (absolute root ++ (Normal <$> r)) with (absolute (root ++ r)); [apply names_absolute|].
  unfold absolute. by rewrite fmap_app.
Qed.

Lemma parent_target : path_parent (absolute target) = Some (absolute (root ++ q0)).
Proof.
  unfold path_parent. assert (absolute target = absolute (root ++ q0) ++ [Normal k]) as ->.
  { unfold absolute. rewrite app_assoc, fmap_app. done. }
  by rewrite last_snoc, removelast_last.
Qed.

Lemma strip_parent : strip_path (absolute root) (absolute (root ++ q0)) = Some (Normal <$> q0).
Proof.
  unfold strip_path, path_starts_with, absolute. rewrite fmap_app.
  rewrite bool_decide_eq_true_2 by by exists (Normal <$> q0). cbn [length drop]. by rewrite drop_app_length.
Qed.

(** Making the directories on the way leaves what is in the place of the file. *)
Lemma chain_keeps (I : node → Prop) :
  (∀ r s t, q0 = r ++ s → r ≠ [] → I t → tree_get (root ++ r) t = None → I (tree_put (root ++ r) (Some (Dir [])) t)) →
  crash_triple I (create_directory_chain (absolute root) (absolute (root ++ q0))) (λ _, I) I.
Proof.
  intros HI. unfold create_directory_chain. rewrite strip_parent. cbn [ok_or].
  apply (triple_known _ (Normal <$> q0)); [by apply triple_lift|].
  apply (triple_each _ (λ _, I)). intros pre p post E.
  assert (Hin : p ∈ prefixes [] (Normal <$> q0)) by (rewrite E; apply elem_of_app; right; left).
  apply prefixes_split in Hin as (r' & s' & Hq & -> & Hr'). apply fmap_app_inv in Hq as (r & s & -> & -> & Hq). cbn [app].
  rewrite names_below. set (c := root ++ r). assert (Hr : r ≠ []) by (by intros ->).
  eapply triple_catch; [| |done].
  - apply (triple_effect _ _ I (λ _, I) I); [|done]. intros t Ht. destruct (tree_get c t) eqn:Eg; [done|].
    destruct (is_dir (tree_get (parent c) t)); [|done]. split; [by eapply HI|done].
  - intros [| |]; [by apply triple_err| |by apply triple_err]. apply triple_look. intros t Ht. by destruct (ensure_plain_directory_at c t).
Qed.

Lemma keeps_old old r s t : q0 = r ++ s → r ≠ [] →
  tree_get target t = old → tree_get (root ++ r) t = None → tree_get target (tree_put (root ++ r) (Some (Dir [])) t) = old.
Proof.
  intros -> _ <- Hn. rewrite <-!app_assoc, (app_assoc root r). rewrite put_empty_dir; [|by destruct s|done].
  by rewrite get_below_none.
Qed.

(** The temporary file and the rename. *)
Section Write.
Context (name : string) (content : list ascii) (old : option node) (Hname : name ≠ k).
Abbreviation temporary := (root ++ q0 ++ [name]).

Lemma temporary_apart : apart temporary target.
Proof. rewrite !app_assoc. by apply apart_siblings. Qed.

Lemma parent_temporary : parent temporary = root ++ q0.
Proof. rewrite app_assoc. apply parent_snoc. Qed.

Definition draft (bytes : list ascii) (t : node) : Prop :=
  tree_get temporary t = Some (File bytes) ∧ is_dir (tree_get (root ++ q0) t) = true ∧ tree_get target t = old.

Lemma draft_put bytes bytes' t : draft bytes t → draft bytes' (tree_put temporary (Some (File bytes')) t).
Proof.
  intros (_ & Hd & Ht). split_and!.
  - rewrite app_assoc. by apply tree_put_same.
  - rewrite (app_assoc root q0 [name]), tree_put_dir_above by done. done.
  - rewrite tree_put_apart; [done|apply temporary_apart].
Qed.

Lemma write_temporary_triple :
  crash_triple (λ t, tree_get target t = old) (write_temporary temporary target content)
    (λ _ t, tree_get target t = Some (File content)) (λ t, tree_get target t = old).
Proof.
  unfold write_temporary. apply triple_map_err. eapply triple_bind.
  { apply (triple_effect _ _ _ (λ _, draft [])); [|done]. intros t Ht. destruct (tree_get temporary t) eqn:Eg; [done|].
    rewrite parent_temporary. destruct (is_dir (tree_get (root ++ q0) t)) eqn:Hd; [|done]. split; [|done]. split_and!.
    - rewrite app_assoc. by apply tree_put_same.
    - by rewrite (app_assoc root q0 [name]), tree_put_dir_above.
    - rewrite tree_put_apart; [done|apply temporary_apart]. }
  intros []. eapply triple_bind.
  { apply (triple_effect _ _ _ (λ _, draft content)); [|by intros t (_ & _ & ?)]. intros t Hd.
    assert (Happ : ∀ bs, draft bs (append_bytes temporary bs t)).
    { intros bs. unfold append_bytes. rewrite (proj1 Hd). by eapply draft_put. }
    split; [apply Happ|]. intros rest. by apply Happ. }
  intros []. eapply triple_bind.
  { apply (triple_effect _ _ _ (λ _, draft content)); [|by intros t (_ & _ & ?)]. intros t Hd. split; [done|]. intros rest. apply Hd. }
  intros []. apply triple_effect; [|by intros t (_ & _ & ?)]. intros t (Htmp & Hd & Ht). rewrite Htmp.
  assert (parent target = root ++ q0) as -> by (rewrite app_assoc; apply parent_snoc). rewrite Hd. cbn [negb].
  destruct (rename_allowed _ _); [|done]. split; [|done]. rewrite !app_assoc. apply tree_put_same.
  rewrite tree_put_dir_above; [done|done].
Qed.

Lemma remove_temporary_triple (I : node → Prop) :
  (∀ t, I t → I (tree_put temporary None t)) → crash_triple I (remove_if_there temporary) (λ _, I) I.
Proof.
  intros HI. unfold remove_if_there. eapply triple_bind; [by apply (triple_look _ I (λ _, I))|]. intros there.
  destruct there; [|apply (triple_ret () (λ _, I))]. eapply triple_ignore; [|done].
  apply triple_effect; [|done]. intros t Ht. destruct (tree_get temporary t) as [[]|]; try done; split; try done; by apply HI.
Qed.

Lemma remove_never_fails p w e w' : remove_if_there p w ≠ (Failed e, w').
Proof.
  unfold remove_if_there, look, mbind, fs_bind. cbn. destruct (exists_node _); [|done]. unfold fs_ignore.
  by destruct (remove_file_at p w) as [[]].
Qed.

Lemma written_triple :
  crash_triple (λ t, tree_get target t = old)
    (fs_finally (write_temporary temporary target content) (remove_if_there temporary))
    (λ _ t, tree_get target t = Some (File content)) (λ t, tree_get target t = old ∨ tree_get target t = Some (File content)).
Proof.
  assert (Hput : ∀ v t, tree_get target t = v → tree_get target (tree_put temporary None t) = v)
    by (intros v t; rewrite tree_put_apart; [done|apply temporary_apart]).
  apply (triple_finally _ _ _ _ (λ t, tree_get target t = old)); [apply write_temporary_triple| | |by left|apply remove_never_fails].
  - intros []. eapply triple_conseq; [apply (remove_temporary_triple (λ t, tree_get target t = Some (File content))), Hput|done|done|by right].
  - eapply triple_conseq; [apply (remove_temporary_triple (λ t, tree_get target t = old)), Hput|done|by left|by left].
Qed.
End Write.
End ReceiptFile.

(** A triple holds of a program over the host. *)
Lemma on_host_post {T U E A} (m : fs E A) P Q C (s : T * (HostFiles * U)) x s' :
  crash_triple P m Q C → P (host_tree s) → on_host m s = Some (Ok x, s') → Q x (host_tree s').
Proof.
  intros Hm HP. destruct s as [w [h u]]. unfold on_host, host_tree, host_of in *. cbn in *. specialize (Hm (h_world h) HP).
  destruct (m (h_world h)) as [[y|e|] w']; [|done..]. by intros [= <- <-].
Qed.

(** * The publication *)

Section Publication.
Context (paths : node → PathOracle) (process_id : Z) (repository : list component) (output : string) (content : list ascii)
  (root q0 : path) (k : string) (old : option node).
Abbreviation target := (root ++ q0 ++ [k]).

(** The repository is at [root], and the output below it at [q0], as [k], which is no
    name of a temporary file. *)
Record output_at : Prop := {
  oa_canonical t : po_canonicalize (paths t) repository = Ok (absolute root);
  oa_output : components output = Normal <$> (q0 ++ [k]);
  oa_name sequence : temporary_name process_id sequence ≠ k;
}.

Lemma output_join : output_at → path_join (absolute root) output = absolute target.
Proof.
  intros [_ Ho _]. unfold path_join. rewrite Ho. unfold absolute. rewrite !fmap_app. by destruct q0.
Qed.

Lemma publication_triple : output_at →
  crash_triple (λ t, tree_get target t = old) (write_receipt_bytes_atomic paths process_id repository output content)
    (λ p t, p = absolute target ∧ tree_get target t = Some (File content))
    (λ t, tree_get target t = old ∨ tree_get target t = Some (File content)).
Proof.
  intros Ho. unfold write_receipt_bytes_atomic. apply (triple_known _ (absolute root)).
  { apply triple_look. intros t Ht. by rewrite (oa_canonical Ho). }
  rewrite (output_join Ho). apply (triple_known _ ()).
  { apply triple_lift. intros t Ht. by destruct (path_starts_with _ _); [|left]. }
  apply (triple_known _ (absolute (root ++ q0))); [by rewrite parent_target; apply triple_lift|].
  eapply triple_bind.
  { eapply triple_conseq; [apply (chain_keeps _ _ (λ t, tree_get target t = old))|done|done|by left].
    intros r s t Hq Hr. by eapply keeps_old. }
  intros []. rewrite names_absolute. apply (triple_known _ ()).
  { apply triple_look. intros t Ht. by destruct (receipt_target_at target t) as [[]|]; [|left]. }
  eapply triple_bind; [by apply (triple_same_tree _ (λ t, tree_get target t = old)); intros w; do 2 eexists|]. intros sequence.
  replace (tree_names (absolute (root ++ q0) ++ [Normal (temporary_name process_id sequence)]))
    with (root ++ q0 ++ [temporary_name process_id sequence]).
  2: { symmetry. rewrite app_assoc. apply (names_below (root ++ q0) [_]). }
  eapply triple_bind; [apply written_triple, Ho|]. intros []. intros w Hw. by split.
Qed.
End Publication.

(** * The clock *)

#[local] Ltac Zify.zify_post_hook ::= Z.to_euclidean_division_equations.

(** The run and the verification compute the same date; here nothing is checked. *)
Lemma clock_civil days : 0 ≤ days → Clock.civil_from_days days = civil (days + 719468).
Proof.
  intros Hd. unfold Clock.civil_from_days, civil. set (sh := days + 719468). assert (Hsh : 719468 ≤ sh) by lia.
  destruct (sh >=? 0) eqn:E; [|lia]. rewrite (Z.quot_div_nonneg sh) by lia.
  replace (sh - sh / 146097 * 146097) with (sh mod 146097) by lia. set (doe := sh mod 146097).
  assert (Hdoe : 0 ≤ doe < 146097) by (subst doe; lia). pose proof (year_of_era_spec doe Hdoe) as Hy. cbn zeta in Hy.
  rewrite !(Z.quot_div_nonneg doe) by lia. rewrite (Z.quot_div_nonneg (_ - _)) by lia.
  set (yoe := (doe - doe / 1460 + doe / 36524 - doe / 146096) / 365) in *.
  rewrite !(Z.quot_div_nonneg yoe) by lia. set (doy := doe - (365 * yoe + yoe / 4 - yoe / 100)) in *.
  rewrite !(Z.quot_div_nonneg (5 * doy + 2)) by lia. set (mp := (5 * doy + 2) / 153). assert (Hmp : 0 ≤ mp ≤ 11) by (subst mp; lia).
  rewrite (Z.quot_div_nonneg (153 * mp + 2)) by lia. done.
Qed.

(** The year of a day after the last one of the year 9999. *)
Lemma late_year days y m d : 2932896 < days → civil (days + 719468) = (y, m, d) → 9999 < y.
Proof.
  intros Hd Hc. pose proof (civil_spec (days + 719468) ltac:(lia)) as Hs. rewrite Hc in Hs. destruct Hs as (Hy & Hdim & Hdays).
  destruct (Z.le_gt_cases y 9999) as [Hle|]; [|done]. exfalso.
  pose proof (days_from_civil_bounds y m d). lia.
Qed.

(** Both clocks print the same text for every instant that has one. *)
Lemma clock_prints seconds : 0 ≤ seconds ≤ 253402300799 →
  ∃ t, Clock.format_unix_utc seconds = Ok t ∧ format_unix_utc seconds = Some t ∧ parse_utc_seconds t = Some seconds.
Proof.
  intros Hs. destruct (format_unix_utc_timestamp _ Hs) as (y & m & d & h & mi & s & Hf & Hok & Hsec).
  exists (str (timestamp y m d h mi s)). split_and!; [|done|rewrite <-Hsec; by apply parse_timestamp].
  unfold format_unix_utc in Hf. unfold Clock.format_unix_utc.
  assert (Hd : 0 ≤ seconds / 86400 ≤ 2932896) by lia.
  assert (Hi : checked_i64 (seconds / 86400) = Some (seconds / 86400)) by (apply checked_i64_ok; unfold i64_min, i64_max; lia).
  rewrite Hi in Hf |- *. cbn [mbind option_bind ok_or result_bind] in Hf |- *.
  rewrite civil_from_days_civil in Hf by (unfold max_days; lia). rewrite clock_civil by lia. cbn [mbind option_bind] in Hf.
  destruct (civil _) as [[y' m'] d']. destruct (in_range 1 9999 y'); [|done]. cbn [negb] in Hf.
  apply (inj Some) in Hf. by rewrite <-Hf.
Qed.

Lemma clock_refuses seconds : u64 seconds → 253402300799 < seconds → Clock.format_unix_utc seconds = Err RunClock.
Proof.
  unfold u64, u64_max. intros Hu Hs. unfold Clock.format_unix_utc.
  rewrite checked_i64_ok by (unfold i64_min, i64_max; lia). cbn [ok_or mbind result_bind].
  rewrite clock_civil by lia. destruct (civil _) as [[y m] d] eqn:Ec. apply late_year in Ec; [|lia].
  assert (in_range 1 9999 y = false) as ->; [|done]. apply not_true_iff_false. rewrite in_range_spec. lia.
Qed.
