(* ===== verification/RunClaims.v ===== *)
(** What a local run promises ([Run.v], [RunParts.v]): what a receipt tells of the run
    that it comes from, when a run makes none, and that its file is whole. *)
From S2P Require Import Prelude.
From S2P Require Import RustStr.
From S2P Require Import BTree.
From S2P Require Import Calendar.
From S2P Require Import Canonical.
From S2P Require Import Config.
From S2P Require Import PlanClaims.
From S2P Require Import Storage.
From S2P Require Import Receipt.
From S2P Require Import ReceiptProps.
From S2P Require Import Durable.
From S2P Require Import Resource.
From S2P Require Import Benchmark.
From S2P Require Import FileSystem.
From S2P Require Import CachePayload.
From S2P Require Import CacheRoot.
From S2P Require Import Cache.
From S2P Require Import Workspace.
From S2P Require Import Artifacts.
From S2P Require Import Ports.
From S2P Require Import Process.
From S2P Require Import Runtime.
From S2P Require Import RuntimeProps.
From S2P Require Import SourceSnapshot.
From S2P Require Import SourceSnapshotProps.
From S2P Require Import SourceSnapshotClaims.
From S2P Require Import RunParts.
From S2P Require Import Run.
From S2P Require Import RunProps.
From S2P Require Import RunPartsProps.
Local Open Scope Z_scope.

(** * What a receipt tells *)

Section Tells.
Context `{Backend, CacheParser} {U : Type} `{RuntimePort (machine U), RunPorts (machine U)}
  (supervise : GenerationGuard → SupervisorPort (machine U)) (view : node → HostView) (process : CacheProcess)
  (var_os : string → option string) (host_os host_arch : string)
  (between : moment → path → node → node) (follow : path → node → result io_kind (list ascii)).

End Tells.

(** * The lives of the containers of a run *)

Section Lives.
Context `{Backend, ValueParser, CacheParser} {U : Type} (ports : RunPorts (machine U))
  (supervise : GenerationGuard → SupervisorPort (machine U)) (view : node → HostView) (process : CacheProcess)
  (var_os : string → option string) (host_os host_arch : string)
  (between : moment → path → node → node) (follow : path → node → result io_kind (list ascii))
  (root : ResolvedCacheRoot) (containment : ContainmentMechanism) (graceful_stop : GracefulStopCapability).

Abbreviation docker := (docker_runtime supervise view root var_os containment graceful_stop).

(** C6.  The receipt of a run on Docker, whatever its status, has evidence for each
    check of the plan, in the order of the plan; where the check is not recorded as
    not run, no check before it was halted, its dependencies had passed, and the
    evidence is that of the result of one life of its container, whose commands had
    the identity of the run. *)
Theorem receipt_tells_lives (request : RunRequest) (given : option RuntimePreflight) (s : machine U) (receipt : ReceiptEnvelopeV1)
    (artifacts : list ArtifactEvidence) (capabilities : option RuntimeCapabilityEvidenceV1) (s' : machine U) :
  let checks := ep_checks (pe_plan (ru_envelope request)) in
  let evidence := r1_checks (e1_receipt receipt) in
  let identity := run_identity request (receipt_commit receipt) in
  let run_id := rn_run_id (r1_run (e1_receipt receipt)) in
  execute_local_receipt_and_artifacts (H1 := docker) supervise view process var_os host_os host_arch between follow request given s
    = Some (Ok (receipt, artifacts, capabilities), s') →
  length evidence = length checks ∧
  ∃ repository environment, docker_execution_environment var_os (ru_envelope request) = Ok environment ∧
    ∀ i check, checks !! i = Some check → ∃ e, evidence !! i = Some e ∧ describes check e ∧
      ((∃ reason, e = not_run check reason) ∨
       (Forall (λ e', ¬ halted e') (take i evidence) ∧
        Forall (λ d, ∃ e', e' ∈ take i evidence ∧ ce_id e' = d ∧ ce_status e' = Pass) (nk_depends_on check) ∧
        ∃ rendered lc s0 l s1 r,
          let context := execution_context identity run_id environment (run_root request repository) check in
          lifecycle_build run_id check rendered = Ok lc ∧
          commands (H1 := supervise (guard_new identity)) context s0 l s1 ∧ life lc l r ∧ evidence_from_result check r = Ok e)).
Proof.
  intros checks evidence identity run_id Hr. apply receipt_run in Hr as (repository & environment & rendered & _ & Ht).
  split; [symmetry; eapply Forall2_length, truthful_describes, Ht|]. exists repository, environment. split; [apply Ht|].
  intros i c Hc. destruct (truthful_told _ _ _ _ _ _ _ i c Ht Hc) as (d & e & He & Hdesc & Htold). exists e. split_and!; [done..|].
  destruct Htold as [Hn|(Hh & Hdep & r & (s1 & s2 & Hx) & Hev)]; [by left|right]. split_and!; [done..|].
  cbn [rt_execute_check docker_runtime] in Hx. apply bind_run in Hx as (host & s3 & _ & Hx).
  apply check_run in Hx as (s0 & lc & l & _ & Hlc & Hcom & Hlife). by exists d, lc, s0, l, s2, r.
Qed.
End Lives.

(** * Results that make no receipt *)

(** Which results have evidence that a receipt accepts: none whose cleanup is not
    verified, not even that of a command which was cancelled before it was started;
    and, of a command as a plan allows it, one that was timed out or cancelled, one
    that succeeded with code zero, and one that failed with another code, but not one
    that failed without a code, as a command does that a signal ended. *)
Theorem evidence_of_results `{Backend, !BackendOk} (check : NormalizedCheck) (r : ProcessResult) :
  (pr_cleanup r ≠ Verified → evidence_from_result check r = Err (RunInvariant "process cleanup was not verified")) ∧
  ∀ e, evidence_from_result check r = Ok e →
    describes check e ∧ (ce_status e = Pass ↔ completed_success r = true) ∧
    (command_fine check → (CheckEvidence_validate e = Ok () ↔ exit_told r)).
Proof.
  split.
  - intros Hc. unfold evidence_from_result. by rewrite bool_decide_eq_false_2.
  - intros e He. split_and!; [by eapply evidence_describes| |by intros; eapply evidence_validity]. split.
    + intros Hp. by apply (evidence_passed check r e).
    + unfold completed_success. intros Hok. rewrite !andb_true_iff in Hok. destruct Hok as [[Ht _] Hx]. apply bool_decide_eq_true in Ht.
      unfold evidence_from_result, exit_success in He. rewrite Ht, Hx in He. apply bind_ok in He as ([] & _ & He).
      by apply bind_ok in He as (digest & _ & <-%ok_inj).
Qed.

Section Ends.
Context `{Backend, CacheParser} {U : Type} `{RuntimePort (machine U), RunPorts (machine U)}
  (guard : GenerationGuard) (identity : RunIdentity) (run_id : string) (environment : btmap string string)
  (execution_root : list component).

End Ends.

(** * The clock *)

(** C36.  The clock of a run is exact: for every second that has a date of four digits
    the timestamp of a run is the one that the verification writes, is read back as
    that second and is accepted in a receipt; every later second is refused. *)
Theorem run_clock_exact (seconds : Z) : u64 seconds →
  if seconds <=? 253402300799
  then ∃ t, Clock.format_unix_utc seconds = Ok t ∧ format_unix_utc seconds = Some t ∧ parse_utc_seconds t = Some seconds ∧
            ∀ field, Fields.require_timestamp field t = Ok ()
  else Clock.format_unix_utc seconds = Err RunClock.
Proof.
  intros Hs. destruct (Z.leb_spec seconds 253402300799) as [Hle|Hlt]; [|by apply clock_refuses].
  destruct (clock_prints seconds) as (t & Hr & Hv & Hp); [split; [by destruct Hs|done]|]. exists t. split_and!; [done..|].
  intros field. by apply require_timestamp_spec.
Qed.

(** * The receipt file *)

(** C15.  The file of a receipt is whole: the writing, wherever an effect of it fails or
    it is interrupted, leaves in the place of the receipt what was there before or the
    complete new receipt, and when it succeeds the new one.  What was there before may
    be an earlier receipt, which is replaced. *)
Theorem receipt_file_whole (paths : node → PathOracle) (process_id : Z) (repository : list component) (output : string)
    (content : list ascii) (root directory : path) (name : string) (old : option node) :
  let target := root ++ directory ++ [name] in
  output_at paths process_id repository output root directory name →
  crash_triple (λ t, tree_get target t = old) (write_receipt_bytes_atomic paths process_id repository output content)
    (λ p t, p = absolute target ∧ tree_get target t = Some (File content))
    (λ t, tree_get target t = old ∨ tree_get target t = Some (File content)).
Proof. apply publication_triple. Qed.

(** C9.  A run that ends with an outcome has published it: the file that the outcome
    names holds the canonical bytes of its receipt, of version 2 when the run was on a
    snapshot, and that receipt is sealed; and its exit code is zero exactly when
    every required check passed. *)
Theorem run_publishes_outcome `{Backend, CacheParser} {U : Type} `{RuntimePort (machine U), RunPorts (machine U)}
    (supervise : GenerationGuard → SupervisorPort (machine U)) (view : node → HostView) (process : CacheProcess)
    (var_os : string → option string) (host_os host_arch : string) (between : moment → path → node → node)
    (follow : path → node → result io_kind (list ascii)) (request : RunRequest) (given : option RuntimePreflight)
    (s : machine U) (outcome : RunOutcome) (s' : machine U) (root directory : path) (name : string) :
  output_at (λ t, hv_paths (view t)) (cpr_pid process) (ru_repository request) (nrec_output (ep_receipt (pe_plan (ru_envelope request))))
    root directory name →
  execute_local_run supervise view process var_os host_os host_arch between follow request given s = Some (Ok outcome, s') →
  uo_receipt_path outcome = absolute (root ++ directory ++ [name]) ∧
  (∃ content, published_canonical_bytes outcome = Ok content ∧
     tree_get (root ++ directory ++ [name]) (host_tree s') = Some (File content)) ∧
  verify1 (uo_receipt outcome) = Ok () ∧
  match uo_receipt_v2 outcome, ru_source_snapshot request with
  | Some receipt, Some _ => verify2 receipt = Ok () ∧ r2_checks (e2_receipt receipt) = r1_checks (e1_receipt (uo_receipt outcome)) ∧
                            r2_overall_status (e2_receipt receipt) = r1_overall_status (e1_receipt (uo_receipt outcome))
  | None, None => True
  | _, _ => False
  end ∧
  (outcome_exit_code outcome = 0 ↔
   ∀ e, e ∈ r1_checks (e1_receipt (uo_receipt outcome)) → ce_required e = true → ce_status e = Pass ∧ succeeded e).
Proof.
  intros Hout Hr. unfold execute_local_run in Hr. apply bind_run in Hr as ([[receipt artifacts] evidence] & s1 & Hx & Hr).
  apply receipt_run in Hx as (rep & environment & rendered & _ & Ht).
  apply bind_run in Hr as (v2 & s2 & Hv2 & Hr). apply lift_run in Hv2 as [Hv2%map_err_ok ->].
  apply bind_run in Hr as (content & s3 & Hcon & Hr). apply lift_run in Hcon as [Hcon%map_err_ok ->].
  apply bind_run in Hr as (p & s4 & Hw & Hr). apply ret_run in Hr as [<- ->].
  apply (on_host_post _ _ _ _ _ _ _ (publication_triple _ _ _ _ content _ _ _ _ Hout) eq_refl) in Hw as [-> Hfile].
  cbn [uo_receipt uo_receipt_path uo_receipt_v2]. split_and!; [done|by exists content|by apply (tr_sealed _ _ _ _ _ _ _ Ht)| |].
  - destruct (ru_source_snapshot request) as [snapshot|]; [|by injection Hv2 as <-].
    apply bind_ok in Hv2 as (sealed & Hseal & <-%ok_inj).
    assert (Hrec : e2_receipt sealed = receipt_v2_of request snapshot (e1_receipt receipt) artifacts evidence)
      by (unfold seal2 in Hseal; apply bind_ok in Hseal as ([] & _ & Hs); by apply bind_ok in Hs as (i & _ & <-%ok_inj)).
    rewrite Hrec. split_and!; [|done..]. apply seal2_verify2. by rewrite Hrec.
  - unfold outcome_exit_code. cbn [uo_receipt]. destruct (truthful_status _ _ _ _ _ _ _ Ht) as [Hp _].
    rewrite <-Hp. destruct (r1_overall_status (e1_receipt receipt)); done.
Qed.

(** * Example *)

Module RunExample.
Import PlanExample SnapshotExample.

(** Two checks, the second after the first. *)
Definition small_config : ConfigV1 :=
  {| cfg_schema_version := "1.3"; cfg_project := "owner/repository"; cfg_runtime := cfg_runtime demo;
     cfg_receipt := ReceiptConfig_default;
     cfg_environment := {| ec_allow := []; ec_fixed := [("MODE", "strict")]; ec_runtime_internal := []; ec_remote_secret_only := [] |};
     cfg_caches := []; cfg_storage := cfg_storage demo; cfg_checks := [check "test" ["build"] []; check "build" [] []] |}.
Definition small_plan : ExecutionPlanEnvelopeV1 := get (into_plan small_config) eq_refl.

Definition request : RunRequest :=
  {| ru_envelope := small_plan; ru_repository := absolute ["repo"];
     ru_cache := {| rr_path := absolute ["cache"]; rr_source := Explicit |}; ru_producer_version := "0.1.0"; ru_generation := 1;
     ru_source_snapshot := None |}.
Definition preflight : RuntimePreflight :=
  {| rp_runtime_probe := Some {| pb_runtime := DockerCompatible; pb_flavor := FlavorDockerCompatible; pb_server_version := Some "27.0";
                                   pb_operating_system := None; pb_os_type := Some "linux"; pb_memory_limit_supported := None;
                                   pb_swap_limit_supported := None; pb_containment := ProcessGroup;
                                   pb_graceful_stop := ProcessGroupSignal |};
     rp_capability_evidence := None |}.

(** The surroundings are the answers to the commands, in their order. *)
Abbreviation answers := (list (result ProcessError ProcessResult)).
Definition supervise (guard : GenerationGuard) : SupervisorPort (machine answers) := λ _ _ '(w, (h, u)),
  match u with a :: u => Some (a, (w, (h, u))) | [] => Some (Err StaleGeneration, (w, (h, []))) end.
#[global] Instance run_ports : RunPorts (machine answers) :=
  {| port_token s := (token_default, s); port_now_utc := io_lift (Clock.now_utc (Some 1700000000)); port_finalize _ := mret ();
     port_transition _ := mret (); port_available_bytes s := (λ _, Ok 1000000, s) |}.
#[global] Instance cache_parser : CacheParser := {| parse_generation_manifest := λ _, None; parse_promotion_journal := λ _, None |}.
Definition view (t : node) : HostView := {| hv_paths := plain_paths t; hv_metadata := λ _, Ok KindDirectory |}.
Definition process : CacheProcess :=
  {| cpr_pid := 7; cpr_policy := Preserve; cpr_clone := NoClonefile; cpr_unix := true; cpr_link_resolves _ _ := true |}.
Definition alone : moment → path → node → node := λ _ _ t, t.
Definition nothing : path → node → result io_kind (list ascii) := λ _ _, Err OtherIo.

(** The container of a check is asked for by the name of the check. *)
Definition STARTED : string := "2023-11-14T22:13:20Z".
Definition this_run : string := get (run_id small_plan COMMIT 1 STARTED) eq_refl.
#[global] Instance documents : ValueParser := λ text,
  Some (obj [("Name", Str ("/ccp-" +:+ str (take 24 (bytes (encode_hex (sha256 (bytes "commit-ci-preflight-container-v1")))))));
             ("Config", obj [("Labels", obj [("com.commit-ci-preflight.owner", Str "commit-ci-preflight");
                                             ("com.commit-ci-preflight.run-id", Str this_run);
                                             ("com.commit-ci-preflight.check-id", Str (str text))])]);
             ("State", obj [("Status", Str "exited")])]).

Definition ended (success : bool) (text : string) : result ProcessError ProcessResult :=
  Ok {| pr_identity := someone; pr_termination := Completed; pr_cleanup := Verified;
        pr_exit := Some {| xo_success := success; xo_code := Some (if success then 0 else 1) |};
        pr_stdout := {| cs_bytes := bytes text; cs_byte_count := len text; cs_full_digest := text; cs_truncated := false |};
        pr_stderr := {| cs_bytes := []; cs_byte_count := 0; cs_full_digest := ""; cs_truncated := false |}; pr_elapsed_millis := 5 |}.
Definition clean_answers : answers := [ended true COMMIT; ended true ""].
Definition check_answers (id output : string) : answers :=
  [ended true "0123456789abcdef"; ended true ""; ended true output; ended true "0"; ended true id; ended true ""; ended false ""].
Definition empty_world (t : node) : World :=
  {| w_tree := t; w_locks := []; w_sequence := 0; w_durable := 0; w_promoted := []; w_run_lock := 0; w_fates := [] |}.

(** An earlier receipt is in the place of the new one. *)
Definition OUTPUT : path := [".ccp"; "receipt.json"].
Definition ready : machine answers :=
  (empty_world (Dir []),
   ({| h_world := empty_world (Dir [("repo", Dir [(".ccp", Dir [("receipt.json", File (bytes "earlier"))])])]); h_executable := [] |},
    clean_answers ++ check_answers "build" "built" ++ check_answers "test" "tested" ++ clean_answers)).

Definition docker : RuntimePort (machine answers) :=
  docker_runtime supervise view (ru_cache request) (λ _, None) ProcessGroup ProcessGroupSignal.
Abbreviation receipt_run := (execute_local_receipt_and_artifacts (H1 := docker) supervise view process (λ _, None) "linux" "x86_64"
                                alone nothing request (Some preflight) ready).
Abbreviation whole_run := (execute_local_run (H1 := docker) supervise view process (λ _, None) "linux" "x86_64"
                             alone nothing request (Some preflight) ready).
Definition test_check : NormalizedCheck := normalize_check (check "test" ["build"] []).


(** The second check, in the same receipt: a life of its container. *)
Lemma receipt_tells_lives_witness : ∃ receipt artifacts capabilities s' e,
  receipt_run = Some (Ok (receipt, artifacts, capabilities), s') ∧ r1_checks (e1_receipt receipt) !! 1%nat = Some e ∧
  describes test_check e ∧
  ((∃ reason, e = not_run test_check reason) ∨ ∃ lc l r, life lc l r ∧ evidence_from_result test_check r = Ok e).
Proof.
  destruct receipt_run as [[[[[receipt artifacts] capabilities]|e] s']|] eqn:E; [|vm_compute in E; discriminate E..].
  exists receipt, artifacts, capabilities, s'.
  pose proof (receipt_tells_lives run_ports supervise view process (λ _, None) "linux" "x86_64" alone nothing (ru_cache request)
    ProcessGroup ProcessGroupSignal request (Some preflight) ready receipt artifacts capabilities s') as G. cbv zeta in G.
  specialize (G E). destruct G as (_ & rep & env & _ & G).
  assert (Hc : ep_checks (pe_plan (ru_envelope request)) !! 1%nat = Some test_check) by (vm_compute; reflexivity).
  destruct (G 1%nat test_check Hc) as (e & He & Hd & Ht). exists e. split; [reflexivity|]. split; [exact He|]. split; [exact Hd|].
  destruct Ht as [Hn|(_ & _ & d & lc & s0 & l & s1 & r & _ & _ & Hl & Hev)]; [left; exact Hn|right].
  exists lc, l, r. split; [exact Hl|exact Hev].
Defined.

(** A command that a signal ended, and one that was cancelled before it was started. *)
Definition without_code (termination : ProcessTermination) (cleanup : CleanupStatus) (exit : option ExitOutcome) : ProcessResult :=
  {| pr_identity := someone; pr_termination := termination; pr_cleanup := cleanup; pr_exit := exit;
     pr_stdout := {| cs_bytes := []; cs_byte_count := 0; cs_full_digest := ""; cs_truncated := false |};
     pr_stderr := {| cs_bytes := []; cs_byte_count := 0; cs_full_digest := ""; cs_truncated := false |}; pr_elapsed_millis := 5 |}.
Definition signalled : ProcessResult := without_code Completed Verified (Some {| xo_success := false; xo_code := None |}).
Definition never_started : ProcessResult := without_code Cancelled NotRequired None.

Lemma evidence_of_results_witness :
  evidence_from_result test_check never_started = Err (RunInvariant "process cleanup was not verified") ∧
  ∃ e, evidence_from_result test_check signalled = Ok e ∧ describes test_check e ∧ CheckEvidence_validate e ≠ Ok ().
Proof.
  split.
  - apply (proj1 (evidence_of_results test_check never_started)). intros E. discriminate E.
  - destruct (evidence_from_result test_check signalled) as [e|] eqn:E; [|vm_compute in E; discriminate E]. exists e. split; [reflexivity|].
    destruct (proj2 (evidence_of_results test_check signalled) e E) as (Hd & _ & Hv). split; [exact Hd|]. intros Hok.
    destruct (proj1 (Hv ltac:(split_and!; vm_compute; reflexivity)) Hok eq_refl) as (code & Hcode & _). discriminate Hcode.
Defined.

(** The creation of the container is cancelled before it is started. *)
Definition build_check : NormalizedCheck := normalize_check (check "build" [] []).
Definition bare_workspace : WorkspacePlanV1 :=
  {| wp_schema_version := "1.0"; wp_repository := []; wp_source_snapshot_digest := None; wp_run_root := []; wp_mounts := [] |}.
Definition rendered : DryRunCheck :=
  get (docker_dry_run_check (ep_runtime (pe_plan small_plan)) ["MODE"] bare_workspace build_check) eq_refl.


Lemma run_clock_exact_witness : ∃ t, Clock.format_unix_utc 1700000000 = Ok t ∧ parse_utc_seconds t = Some 1700000000.
Proof.
  destruct (run_clock_exact 1700000000 ltac:(unfold u64, u64_max; lia)) as (t & Ht & _ & Hp & _). exists t. split; [exact Ht|exact Hp].
Defined.

Lemma at_output : output_at plain_paths 7 (absolute ["repo"]) ".ccp/receipt.json" ["repo"] [".ccp"] "receipt.json".
Proof. split; [reflexivity|vm_compute; reflexivity|intros sequence E; discriminate E]. Defined.

(** The earlier receipt is replaced when nothing goes wrong; when the write fails in
    the middle it is there still. *)
Definition receipt_place : path := ["repo"] ++ [".ccp"] ++ ["receipt.json"].
Definition host_world (fates : list fate) : World :=
  {| w_tree := w_tree (h_world ready.2.1); w_locks := []; w_sequence := 0; w_durable := 0; w_promoted := []; w_run_lock := 0;
     w_fates := fates |}.
Definition halfway : residue := {| re_bytes := 2; re_entries := [] |}.
Abbreviation publish fates := (write_receipt_bytes_atomic plain_paths 7 (absolute ["repo"]) ".ccp/receipt.json" (bytes "later") (host_world fates)).

Lemma receipt_file_whole_witness :
  (∃ p w', publish [] = (Done p, w') ∧ tree_get receipt_place (w_tree w') = Some (File (bytes "later"))) ∧
  (∃ w', publish [Proceed; Proceed; Fault halfway] = (Failed (RunIo OtherIo), w') ∧
     (tree_get receipt_place (w_tree w') = Some (File (bytes "earlier")) ∨ tree_get receipt_place (w_tree w') = Some (File (bytes "later")))).
Proof.
  pose proof (receipt_file_whole plain_paths 7 (absolute ["repo"]) ".ccp/receipt.json" (bytes "later") ["repo"] [".ccp"] "receipt.json"
    (Some (File (bytes "earlier"))) at_output) as G. split.
  - specialize (G (host_world []) eq_refl). destruct (publish []) as [[p|e|] w'] eqn:E; [|vm_compute in E; discriminate E..].
    exists p, w'. split; [reflexivity|exact (proj2 G)].
  - specialize (G (host_world [Proceed; Proceed; Fault halfway]) eq_refl).
    destruct (publish [Proceed; Proceed; Fault halfway]) as [[p|e|] w'] eqn:E; [vm_compute in E; discriminate E| |vm_compute in E; discriminate E].
    exists w'. split; [|exact G]. vm_compute in E. injection E as <- _. reflexivity.
Defined.

Lemma run_publishes_outcome_witness : ∃ outcome s' content,
  whole_run = Some (Ok outcome, s') ∧ published_canonical_bytes outcome = Ok content ∧
  tree_get receipt_place (host_tree s') = Some (File content) ∧ outcome_exit_code outcome = 0.
Proof.
  destruct whole_run as [[[outcome|e] s']|] eqn:E; [|vm_compute in E; discriminate E..].
  pose proof (run_publishes_outcome (H1 := docker) supervise view process (λ _, None) "linux" "x86_64" alone nothing request
    (Some preflight) ready outcome s' ["repo"] [".ccp"] "receipt.json") as G. specialize (G at_output E).
  destruct G as (_ & (content & Hc & Hf) & _). exists outcome, s', content. split; [reflexivity|]. split; [exact Hc|]. split; [exact Hf|].
  vm_compute in E. injection E as <- _. reflexivity.
Defined.
End RunExample.
