(* ===== verification/Command.v ===== *)
(** The commands that execute ([src/src/main.rs], [src/src/terminal.rs]): how a command
    ends once it holds the admission slot, the life of a local run in its journal, the
    guarded execution of a program, and the exit codes.

    A local run works on a [machine] with a [Shell] in it: the journal of runs, the
    barrier of the watchdog, and the admission guards that the process owns.  The other
    traits and the system are ports on the rest of the machine, which a port cannot
    leave ([frame]).  [on_journal] works on a disk that does not fail; what the operations of
    the journal leave on one that does is in [RunJournal.v]. *)
From S2P Require Import Prelude.
From S2P Require Import RustStr.
From S2P Require Import BTree.
From S2P Require Import Canonical.
From S2P Require Import Config.
From S2P Require Import Storage.
From S2P Require Import Receipt.
From S2P Require Import Verify.
From S2P Require Import Matrix.
From S2P Require Import Admission.
From S2P Require Import Durable.
From S2P Require Import RunJournal.
From S2P Require Import Resource.
From S2P Require Import ResourceHistory.
From S2P Require Import Benchmark.
From S2P Require Import FileSystem.
From S2P Require Import CachePayload.
From S2P Require Import CacheRoot.
From S2P Require Import Cache.
From S2P Require Import Workspace.
From S2P Require Import Artifacts.
From S2P Require Import Ports.
From S2P Require Import Process.
From S2P Require Import Runtime.
From S2P Require Import SourceSnapshot.
From S2P Require Import RunParts.
From S2P Require Import Run.
Local Open Scope Z_scope.

Definition GUARD_EXEC_MAX_TIMEOUT : Z := 24 * 60 * 60.
Definition GUARD_EXEC_CAPTURE_BYTES : Z := 1048576.

(** * Errors and exit codes *)

(** [ResourceGuardError] of [resource.rs]. *)
Inductive ResourceGuardError : Type :=
  | PreStartDenied
  | GuardProbe (e : ResourceProbeError)
  | GuardWatchdog (e : ResourceProbeError)
  | WatchdogTripped (reason : WatchdogTripReason).
Definition guard_exit_code (e : ResourceGuardError) : Z := 6.

(** [MatrixError] with the two constructors that come from executing a matrix. *)
Inductive MatrixCommandError : Type :=
  | MatrixRun (e : RunError)
  | MatrixRuntime (e : RuntimeError)
  | MatrixOther (e : MatrixError).

Inductive GuardExecError : Type :=
  | InvalidAdmissionTimeout
  | InvalidExecTimeout
  | MissingProgram
  | InvalidResourceProfile
  | InvalidResourceContext
  | InvalidManagedCache
  | InvalidCurrentDirectory
  | CacheInternal
  | ExecAdmission (e : AdmissionError)
  | ExecResource (e : ResourceGuardError)
  | ExecResourcePressure
  | ExecProcess (e : ProcessError)
  | ExecChildExit (code : Z)
  | ExecTimedOut
  | ExecUserCancelled
  | ExecInternalFailure.

Inductive AdmissionReconciliationCliExit : Type := Blocked | Partial | Interrupted | Internal.

(** Errors that are only printed have no content here. *)
Inductive CliError : Type :=
  | CliUsage
  | CliCache (e : CacheError)
  | CliWorkspace (e : WorkspaceError)
  | CliRuntime (e : RuntimeError)
  | CliAdmission (e : AdmissionError)
  | CliResource (e : ResourceGuardError)
  | CliRun (e : RunError)
  | CliRunJournal (e : RunJournalError)
  | CliRunOutcome (status : EvidenceStatus)
  | CliReconciliationOutcome (e : AdmissionReconciliationCliExit)
  | CliMatrix (e : MatrixCommandError)
  | CliVerification (e : VerificationError)
  | CliVerifyOutcome (decision : VerificationDecision)
  | CliGithubActions
  | CliMigrationBlocked
  | CliBenchmark (e : BenchmarkError)
  | CliBenchmarkVerification (e : BenchmarkError)
  | CliGuard (e : GuardExecError)
  | CliInternal.

Definition from_cache (_ : CacheError) : GuardExecError := CacheInternal.
Definition from_cli (e : CliError) : GuardExecError :=
  match e with
  | CliAdmission e => ExecAdmission e
  | CliResource e => ExecResource e
  | _ => ExecInternalFailure
  end.

Definition exec_exit_code (e : GuardExecError) : Z :=
  match e with
  | InvalidAdmissionTimeout | InvalidExecTimeout | MissingProgram | InvalidResourceProfile | InvalidResourceContext
  | InvalidManagedCache | InvalidCurrentDirectory => 2
  | ExecAdmission e => admission_exit_code e
  | ExecResource _ | ExecResourcePressure => 6
  | ExecProcess _ | CacheInternal | ExecInternalFailure => 70
  | ExecChildExit code => if in_range 1 255 code then code else 70
  | ExecTimedOut => 124
  | ExecUserCancelled => 130
  end.

Definition cli_exit_code (e : CliError) : Z :=
  match e with
  | CliUsage => 2
  | CliCache e => cache_exit_code e
  | CliWorkspace _ => 2
  | CliRuntime e => runtime_exit_code e
  | CliAdmission e => admission_exit_code e
  | CliResource e => guard_exit_code e
  | CliRun e => run_exit_code e
  | CliRunJournal e => journal_exit_code e
  | CliRunOutcome Fail => 1
  | CliRunOutcome (Pending | NotRun) => 5
  | CliRunOutcome Pass => 0
  | CliReconciliationOutcome Blocked => 4
  | CliReconciliationOutcome Partial => 1
  | CliReconciliationOutcome Interrupted => 5
  | CliReconciliationOutcome Internal => 70
  | CliMatrix (MatrixRun ResourcePressure) => 4
  | CliMatrix (MatrixRuntime e) => runtime_exit_code e
  | CliMatrix _ => 2
  | CliVerifyOutcome _ => 3
  | CliGithubActions => 2
  | CliMigrationBlocked => 4
  | CliBenchmark _ => 2
  | CliBenchmarkVerification _ => 3
  | CliGuard e => exec_exit_code e
  | CliVerification (VerificationReceipt _) => 70
  | CliVerification _ => 2
  | CliInternal => 70
  end.
(** What the process exits with. *)
Definition exit_status {A} (r : result CliError A) : Z := match r with Ok _ => 0 | Err e => cli_exit_code e end.

Definition run_failure_kind (e : RunError) : RunFailureKindV1 :=
  match e with
  | ResourcePressure => RunJournal.ResourcePressure
  | StaleCommit => RunJournal.StaleCommit
  | RunWorkspace _ | RunCache _ | RunStorage _ => PreparationFailed
  | RunRuntime _ | RunProcess _ => ExecutionFailed
  | RunReceipt _ | UnsafeReceiptPath => FinalizationFailed
  | RunInvariant _ => RunJournal.Invariant
  | _ => RunJournal.Unknown
  end.
Definition cli_failure_kind (e : CliError) : RunFailureKindV1 :=
  match e with
  | CliRun e | CliMatrix (MatrixRun e) => run_failure_kind e
  | CliMatrix (MatrixRuntime _) => ExecutionFailed
  | CliResource _ => RunJournal.ResourcePressure
  | CliAdmission _ => CleanupFailed
  | _ => RunJournal.Unknown
  end.

(** * The end of a command that holds the slot *)

Inductive TerminalFailure (P R : Type) : Type := Primary (e : P) | Release (e : R).
Arguments Primary {P R} e.
Arguments Release {P R} e.

Inductive RunTerminalJournalEvent : Type :=
  | PrimaryFailure (kind : RunFailureKindV1)
  | ReleaseFailure
  | ReleaseFailureAfterAdmissionAcquired.

Section Terminal.
Context {S : Type}.
Abbreviation cli := (io S CliError).

Definition finalize_owned_terminal {F T P R} (primary : result P T) (complete_owned : result P T → io S P T)
    (release : io S R ()) : io S F (result (TerminalFailure P R) T) :=
  completed ← attempt (complete_owned primary);
  released ← attempt release;
  mret match released with
       | Ok () => map_err Primary completed
       | Err e => Err (Release e)
       end.

Definition finalize_benchmark_terminal {T} (primary : result CliError T) (release : io S AdmissionError ()) : cli T :=
  r ← finalize_owned_terminal primary io_lift release;
  io_lift match r with
          | Ok value => Ok value
          | Err (Primary e) => Err e
          | Err (Release e) => Err (CliAdmission e)
          end.

Definition finalize_run_terminal {T} (primary : result CliError T) (complete_owned : result CliError T → cli T)
    (release : io S AdmissionError ()) (journal : RunTerminalJournalEvent → cli ()) : cli T :=
  r ← finalize_owned_terminal primary complete_owned release;
  match r with
  | Ok value => mret value
  | Err (Primary e) => _ ← journal (PrimaryFailure (cli_failure_kind e)); io_lift (Err e)
  | Err (Release e) => _ ← journal ReleaseFailure; io_lift (Err (CliAdmission e))
  end.

Definition acquire_admission_with_journal {G} (acquire : cli G) (record_admitted : cli ()) (release : G → io S AdmissionError ())
    (journal : RunTerminalJournalEvent → cli ()) : cli G :=
  guard ← acquire;
  r ← attempt record_admitted;
  match r with
  | Ok () => mret guard
  | Err e =>
    finalize_run_terminal (Err e) io_lift (release guard) (λ event,
      match event with
      | ReleaseFailure => journal ReleaseFailureAfterAdmissionAcquired
      | event => journal event
      end)
  end.

(** What a caller gives for the terminal life of a matrix run. *)
Record MatrixTerminalLifecyclePorts (T Sealed O G : Type) : Type := {
  mt_validate_before_admission : cli ();
  mt_acquire : cli G;
  mt_execute : cli T;
  mt_complete : result CliError T → cli T;
  mt_release : G → io S AdmissionError ();
  mt_journal : RunTerminalJournalEvent → cli ();
  mt_cleanup_snapshot : cli ();
  mt_seal : T → cli Sealed;
  mt_write : Sealed → cli O;
}.
Arguments mt_validate_before_admission {_ _ _ _} _.
Arguments mt_acquire {_ _ _ _} _.
Arguments mt_execute {_ _ _ _} _.
Arguments mt_complete {_ _ _ _} _ _.
Arguments mt_release {_ _ _ _} _ _.
Arguments mt_journal {_ _ _ _} _ _.
Arguments mt_cleanup_snapshot {_ _ _ _} _.
Arguments mt_seal {_ _ _ _} _ _.
Arguments mt_write {_ _ _ _} _ _.

(** A step after the release: its failure is recorded. *)
Definition or_finalization_failed {A} (journal : RunTerminalJournalEvent → cli ()) (m : cli A) : cli A :=
  r ← attempt m;
  match r with
  | Ok x => mret x
  | Err e => _ ← journal (PrimaryFailure FinalizationFailed); io_lift (Err e)
  end.
Definition orchestrate_matrix_terminal_lifecycle {T Sealed O G} (ports : MatrixTerminalLifecyclePorts T Sealed O G) : cli O :=
  _ ← mt_validate_before_admission ports;
  guard ← mt_acquire ports;
  executed ← attempt (mt_execute ports);
  material ← finalize_run_terminal executed (mt_complete ports) (mt_release ports guard) (mt_journal ports);
  _ ← mt_cleanup_snapshot ports;
  sealed ← or_finalization_failed (mt_journal ports) (mt_seal ports material);
  or_finalization_failed (mt_journal ports) (mt_write ports sealed).
End Terminal.
Arguments mt_validate_before_admission {S T Sealed O G} _.
Arguments mt_acquire {S T Sealed O G} _.
Arguments mt_execute {S T Sealed O G} _.
Arguments mt_complete {S T Sealed O G} _ _.
Arguments mt_release {S T Sealed O G} _ _.
Arguments mt_journal {S T Sealed O G} _ _.
Arguments mt_cleanup_snapshot {S T Sealed O G} _.
Arguments mt_seal {S T Sealed O G} _ _.
Arguments mt_write {S T Sealed O G} _ _.

(** * The system, for both commands *)

(** [cp_coordinator] is [AdmissionCoordinator::platform]; [cp_acquire] and [cp_release]
    are the operations of [Admission.v] with their waiting; [cp_sample] is
    [ResourceProbe::sample] through the supervisor; a watchdog that is told to stop
    ends as [cp_stop_watchdog] says. *)
Class CommandPorts (S : Type) : Type := {
  cp_install_handler : S → bool * S;
  cp_token : S → CancellationToken * S;
  cp_current_dir : S → result io_kind (list component) * S;
  cp_coordinator : S → result AdmissionError () * S;
  cp_acquire : S → result AdmissionError AdmissionGuard * S;
  cp_release : AdmissionGuard → S → result AdmissionError () * S;
  cp_sample : S → result ResourceProbeError ResourceSnapshot * S;
  cp_start_watchdog : S → () * S;
  cp_stop_watchdog : S → WatchdogThread * S;
}.

Definition install_cancellation_handler {S} `{CommandPorts S} : io S CliError () :=
  installed ← call cp_install_handler;
  io_lift (ensure installed CliInternal).

(** [ResourcePlatform::current() == MacOs] is [macos]. *)
Definition resource_pre_start {S} `{CommandPorts S} (macos : bool) : io S CliError (option ResourceSnapshot) :=
  if negb macos then mret None else
  _ ← io_map_err (λ _ : io_kind, CliInternal) (try_call cp_current_dir);
  snapshot ← io_map_err (λ e, CliResource (GuardProbe e)) (try_call cp_sample);
  decision ← io_lift (map_err (λ e, CliResource (GuardProbe e)) (evaluate_pre_start snapshot));
  io_lift match decision with
          | Admit => Ok (Some snapshot)
          | Deny => Err (CliResource PreStartDenied)
          end.

(** * The barrier of the watchdog *)

Record WatchdogCompletionBarrier : Type := {
  wb_watchdog : bool;
  wb_trip : option WatchdogTripReason;
  wb_join_error : option ResourceProbeError;
}.
Definition barrier_new (watchdog : bool) : WatchdogCompletionBarrier :=
  {| wb_watchdog := watchdog; wb_trip := None; wb_join_error := None |}.
Definition joined (r : result ResourceProbeError (option WatchdogTripReason)) (b : WatchdogCompletionBarrier) :
    WatchdogCompletionBarrier :=
  match r with
  | Ok trip => {| wb_watchdog := false; wb_trip := trip; wb_join_error := wb_join_error b |}
  | Err e => {| wb_watchdog := false; wb_trip := wb_trip b; wb_join_error := Some e |}
  end.
(** [join_once], of a barrier that is a value. *)
Definition join_once {S E} `{CommandPorts S} (b : WatchdogCompletionBarrier) : io S E WatchdogCompletionBarrier :=
  if wb_watchdog b then thread ← call cp_stop_watchdog; mret (joined (stop_and_join thread) b) else mret b.
Definition take_join_error (b : WatchdogCompletionBarrier) : option ResourceProbeError * WatchdogCompletionBarrier :=
  (wb_join_error b, {| wb_watchdog := wb_watchdog b; wb_trip := wb_trip b; wb_join_error := None |}).

Definition checks_have_resource_not_run (checks : list CheckEvidence) : bool :=
  existsb (λ check, bool_decide (ce_status check = NotRun)
                    && bool_decide (ce_incomplete_reason check = Some "host resource pressure watchdog tripped")) checks.
Definition outcome_has_resource_not_run (outcome : RunOutcome) : bool :=
  checks_have_resource_not_run (r1_checks (e1_receipt (uo_receipt outcome))).

(** What the run is told when it asks whether it may end. *)
Definition finalize_verdict (b : WatchdogCompletionBarrier) (checks : list CheckEvidence) : result RunError () :=
  match wb_join_error b, wb_trip b with
  | Some _, _ => Err ResourcePressure
  | None, None => Ok ()
  | None, Some (HardPressure | SoftPressure) => ensure (checks_have_resource_not_run checks) ResourcePressure
  | None, Some ProbeFailure => Err ResourcePressure
  end.
Definition reconcile_watchdog_outcome (outcome : result CliError RunOutcome) (b : WatchdogCompletionBarrier) :
    result CliError RunOutcome * WatchdogCompletionBarrier :=
  let '(join_error, b) := take_join_error b in
  (match join_error with
   | Some e => Err (CliResource (GuardWatchdog e))
   | None =>
     match wb_trip b with
     | Some reason =>
       let told := match outcome with
                   | Ok value => outcome_has_resource_not_run value
                   | Err _ => false
                   end in
       if match reason with HardPressure | SoftPressure => told | ProbeFailure => false end
       then outcome else Err (CliResource (WatchdogTripped reason))
     | None => outcome
     end
   end, b).

(** * The guarded execution of a program *)

(** The arguments, after clap; an argument of the child may be any bytes. *)
Record GuardExecArgs : Type := {
  ga_admission_timeout_seconds : Z;
  ga_timeout_seconds : Z;
  ga_resource_profile : string;
  ga_resource_workload_family : string;
  ga_resource_executor : option ResourceExecutorV2;
  ga_resource_cache_state : ResourceCacheStateV2;
  ga_resource_execution_mode : ResourceExecutionModeV2;
  ga_resource_target_platform : option string;
  ga_resource_cpu_limit_millis : option Z;
  ga_resource_memory_limit_bytes : option Z;
  ga_no_resource_history : bool;
  ga_managed_cache_root : list (list component);
  ga_managed_cache_source : list (list component);
  ga_argv : list string;
}.

Definition validate_guard_cache_args (args : GuardExecArgs) : result GuardExecError () :=
  let root_empty := is_nil (ga_managed_cache_root args) in
  let sources_empty := is_nil (ga_managed_cache_source args) in
  if root_empty && sources_empty then Ok () else
  ensure (negb (negb (length (ga_managed_cache_root args) =? 1)%nat || sources_empty)) InvalidManagedCache.

(** [Path::file_name]. *)
Definition file_name_of (p : string) : option string :=
  match last (components p) with Some (Normal name) => Some name | _ => None end.

Fixpoint docker_context (arguments : list string) : ResourceExecutorV2 :=
  match arguments with
  | [] => ExecDocker
  | argument :: arguments =>
    if (argument =? "--context")%string then
      match arguments with
      | value :: arguments => if (value =? "orbstack")%string then ExecOrbstack else docker_context arguments
      | [] => ExecDocker
      end
    else if (argument =? "--context=orbstack")%string then ExecOrbstack
    else docker_context arguments
  end.
Definition detect_resource_executor (argv : list string) : ResourceExecutorV2 :=
  match argv with
  | [] => ExecUnknown
  | program :: arguments =>
    if bool_decide (file_name_of program = Some "docker") then docker_context arguments else ExecUnknown
  end.

Definition classify_guard_result (result : ProcessResult) (cancellation : CancellationToken) : Prelude.result GuardExecError () :=
  match pr_termination result with
  | TimedOut => Err ExecTimedOut
  | Cancelled =>
    match reason cancellation with
    | Some CancelledResourcePressure => Err ExecResourcePressure
    | Some User | None => Err ExecUserCancelled
    end
  | Completed =>
    if bool_decide (reason cancellation = Some User) then Err ExecUserCancelled else
    match pr_exit result with
    | Some exit =>
      if xo_success exit && bool_decide (xo_code exit = Some 0) then Ok () else
      match xo_code exit with
      | Some code => if in_range 1 255 code then Err (ExecChildExit code) else Err ExecInternalFailure
      | None => Err ExecInternalFailure
      end
    | None => Err ExecInternalFailure
    end
  end.

(** * What the resource history is told *)

Definition ended_with (termination : ProcessTermination) (result : result GuardExecError ProcessResult) : bool :=
  match result with Ok r => bool_decide (pr_termination r = termination) | Err _ => false end.

Definition resource_run_outcome (result : result GuardExecError ProcessResult) (cancellation : CancellationToken)
    (trip : option WatchdogTripReason) : ResourceRunOutcome :=
  if is_Some_b trip || bool_decide (reason cancellation = Some CancelledResourcePressure) then RunResourcePressure
  else if bool_decide (reason cancellation = Some User) || ended_with Cancelled result then RunCancelled
  else if ended_with TimedOut result || match result with Err ExecTimedOut => true | _ => false end then RunTimedOut
  else match result with
       | Ok r =>
         match pr_termination r, pr_exit r with
         | Completed, Some exit => if xo_success exit then RunCompleted else RunFailed
         | _, _ => RunFailed
         end
       | Err _ => RunFailed
       end.

Definition resource_terminal_detail (result : result GuardExecError ProcessResult) (cancellation : CancellationToken)
    (trip : option WatchdogTripReason) : option ResourceTerminalDetailV2 :=
  if is_Some_b trip || bool_decide (reason cancellation = Some CancelledResourcePressure) then Some DetailResourcePressure
  else if bool_decide (reason cancellation = Some User) || ended_with Cancelled result
          || match result with Err ExecUserCancelled => true | _ => false end then Some UserCancelled
  else if ended_with TimedOut result || match result with Err ExecTimedOut => true | _ => false end then Some DetailTimedOut
  else match result with
       | Ok r =>
         match pr_termination r, pr_exit r with
         | Completed, Some exit =>
           if xo_success exit then None else
           match xo_code exit with
           | Some code => Some (if in_range 1 255 code then ChildExit code else InternalFailure)
           | None => Some InternalFailure
           end
         | _, _ => Some InternalFailure
         end
       | Err (ExecChildExit code) => Some (if in_range 1 255 code then ChildExit code else InternalFailure)
       | Err (ExecResource _) => Some ResourceMonitorFailure
       | Err (ExecProcess _) => Some ProcessSupervisionFailure
       | Err _ => Some InternalFailure
       end.

(** * The session *)

Record GuardResourceObservation : Type := {
  go_context : ResourceExecutionContextV2;
  go_started_at_unix_seconds : Z;
  go_started_at : Z;
}.
Record GuardExecSession : Type := {
  gs_admission : option AdmissionGuard;
  gs_watchdog : WatchdogCompletionBarrier;
  gs_resource_observation : option GuardResourceObservation;
}.

(** [gp_history_platform] is [ResourceHistoryStore::platform]; [gp_summary] and
    [gp_append] are those of the shared observation and of the history file;
    [gp_elapsed] is in milliseconds. *)
Class GuardPorts (S : Type) : Type := {
  gp_canonical_dir : S → result io_kind (list component) * S;
  gp_is_dir : list component → S → bool * S;
  gp_resolve_cache : list component → list component → S → result CacheError ResolvedCacheRoot * S;
  gp_environment : S → btmap string string * S;
  gp_history_platform : S → bool * S;
  gp_unix_seconds : S → Z * S;
  gp_now : S → Z * S;
  gp_elapsed : Z → S → Z * S;
  gp_summary : S → option ResourceObservationSummary * S;
  gp_append : ResourceHistoryRecordV2 → S → bool * S;
  gp_execute_with_output : ProcessRequest → io S ProcessError ProcessResult;
}.

Section GuardExec.
Context `{CacheParser} {T : Type} `{CommandPorts (FileSystem.World * T), GuardPorts (FileSystem.World * T)}
  (process : CacheProcess) (os : PathOracle) (macos : bool).
Abbreviation S := (FileSystem.World * T)%type.
Abbreviation guarded := (io S GuardExecError).

(** [GuardResourceObservation::persist]; what fails is only warned of. *)
Definition persist (o : GuardResourceObservation) (outcome : ResourceRunOutcome) (detail : option ResourceTerminalDetailV2)
    (trip : option WatchdogTripReason) : guarded () :=
  summary ← call gp_summary;
  match summary with
  | None => mret ()
  | Some summary =>
    elapsed ← call (gp_elapsed (go_started_at o));
    match record2_from_summary (go_context o) (go_started_at_unix_seconds o) (default u64_max (checked_u64 elapsed)) outcome detail trip
            summary with
    | Ok record => _ ← call (gp_append record); mret ()
    | Err _ => mret ()
    end
  end.

Definition session_acquire : io S CliError GuardExecSession :=
  _ ← io_map_err CliAdmission (try_call cp_coordinator);
  guard ← io_map_err CliAdmission (try_call cp_acquire);
  mret {| gs_admission := Some guard; gs_watchdog := barrier_new false; gs_resource_observation := None |}.

Definition start_watchdog (baseline : option ResourceSnapshot) (context : ResourceExecutionContextV2) (history_enabled : bool)
    (session : GuardExecSession) : guarded GuardExecSession :=
  if negb macos then mret session else
  observed ← if history_enabled && is_Some_b baseline then call gp_history_platform else mret false;
  _ ← call cp_start_watchdog;
  if observed : bool then
    started_at_unix_seconds ← call gp_unix_seconds;
    started_at ← call gp_now;
    mret {| gs_admission := gs_admission session; gs_watchdog := barrier_new true;
            gs_resource_observation := Some {| go_context := context; go_started_at_unix_seconds := started_at_unix_seconds;
                                               go_started_at := started_at |} |}
  else mret {| gs_admission := gs_admission session; gs_watchdog := barrier_new true;
               gs_resource_observation := gs_resource_observation session |}.

(** The verdict of the watchdog goes before the result. *)
Definition guard_verdict (result : result GuardExecError ProcessResult) (cancellation : CancellationToken)
    (join_error : option ResourceProbeError) (trip : option WatchdogTripReason) : Prelude.result GuardExecError ProcessResult :=
  match join_error, trip with
  | Some e, _ => Err (ExecResource (GuardWatchdog e))
  | None, Some reason => Err (ExecResource (WatchdogTripped reason))
  | None, None => if bool_decide (reason cancellation = Some CancelledResourcePressure) then Err ExecResourcePressure else result
  end.
Definition finalize_guard_exec_result (result : result GuardExecError ProcessResult) (join_error : option ResourceProbeError)
    (trip : option WatchdogTripReason) (release : guarded ()) : guarded ProcessResult :=
  r ← finalize_owned_terminal result
        (λ result, cancellation ← call cp_token; io_lift (guard_verdict result cancellation join_error trip)) release;
  io_lift match r with
          | Ok value => Ok value
          | Err (Primary e) | Err (Release e) => Err e
          end.

(** The token is read by each of the functions that are given it. *)
Definition session_finish (session : GuardExecSession) (result : result GuardExecError ProcessResult) : guarded ProcessResult :=
  watchdog ← join_once (gs_watchdog session);
  let trip := wb_trip watchdog in
  _ ← match gs_resource_observation session with
      | Some observation =>
        t ← call cp_token;
        t' ← call cp_token;
        persist observation (resource_run_outcome result t trip) (resource_terminal_detail result t' trip) trip
      | None => mret ()
      end;
  guard ← io_lift (ok_or (gs_admission session) ExecInternalFailure);
  finalize_guard_exec_result result (wb_join_error watchdog) trip (io_map_err ExecAdmission (try_call (cp_release guard))).

(** The loop of [execute_with_guard_cache_pins]. *)
Definition revalidate_pins (root : list component) (pins : list (list component * CacheUsePin)) : guarded () :=
  io_each (λ pin, io_map_err from_cache (on_tree (Cache.revalidate os root pin.1 pin.2))) pins.
(** The pins are dropped, and their locks with them. *)
Definition drop_pins (pins : list (list component * CacheUsePin)) : FileSystem.fs io_kind () := λ w,
  let pinned := (λ pin, up_entry_path pin.2 ++ [ENTRY_LOCK_FILE]) <$> pins in
  (Done (), set_world_locks (List.filter (λ p, negb (bool_decide (p ∈ pinned))) (w_locks w)) w).

Definition guard_request (args : GuardExecArgs) (current_dir : list component) (environment : btmap string string)
    (program : string) (argv : list string) : ProcessRequest :=
  {| rq_identity := {| id_project := "commit-ci-preflight.guard-exec"; id_commit := None; id_config_digest := "guard-exec-v1";
                       id_generation := "guard-exec-v1" |};
     rq_program := program; rq_argv := argv; rq_current_dir := current_dir; rq_environment := environment;
     rq_timeout := millis (1000 * ga_timeout_seconds args); rq_max_capture_bytes := GUARD_EXEC_CAPTURE_BYTES |}.

Definition guard_context (args : GuardExecArgs) : ResourceExecutionContextV2 :=
  {| xc_profile := ga_resource_profile args; xc_workload_family := ga_resource_workload_family args;
     xc_executor := default (detect_resource_executor (ga_argv args)) (ga_resource_executor args);
     xc_cache_state := ga_resource_cache_state args; xc_execution_mode := ga_resource_execution_mode args;
     xc_target_platform := ga_resource_target_platform args; xc_requested_cpu_millis := ga_resource_cpu_limit_millis args;
     xc_requested_memory_bytes := ga_resource_memory_limit_bytes args |}.

(** The checks of the arguments. *)
Definition timeout_allowed (seconds : Z) : bool := negb ((seconds =? 0) || (seconds >? GUARD_EXEC_MAX_TIMEOUT)).
Definition validate_guard_args (args : GuardExecArgs) : result GuardExecError () :=
  _ ← validate_guard_cache_args args;
  _ ← ensure (timeout_allowed (ga_admission_timeout_seconds args)) InvalidAdmissionTimeout;
  _ ← ensure (timeout_allowed (ga_timeout_seconds args)) InvalidExecTimeout;
  _ ← ensure (negb (is_nil (ga_argv args))) MissingProgram;
  _ ← map_err (λ _, InvalidResourceProfile) (ResourceHistory.validate_profile (ga_resource_profile args));
  map_err (λ _, InvalidResourceContext) (context_validate (guard_context args)).

(** What is done with the slot: the cache is opened, the host admits the run, the
    watchdog starts, the sources are pinned, and the child runs. *)
Definition open_guard_cache (root : option ResolvedCacheRoot) : guarded (option ManagedCache) :=
  match root with
  | None => mret None
  | Some root => cache ← io_map_err from_cache (on_tree (Cache.open os root)); mret (Some cache)
  end.
Definition pin_guard_sources (args : GuardExecArgs) (cache : option ManagedCache) : guarded (list (list component * CacheUsePin)) :=
  match cache with
  | None => mret []
  | Some cache =>
    _ ← io_lift (ensure (negb (is_nil (ga_managed_cache_source args))) InvalidManagedCache);
    io_map_err from_cache (on_tree (pin_completed_sources process os (rr_path (mc_root cache)) (ga_managed_cache_source args)))
  end.

(** A step whose error is what the session finishes with. *)
Definition finish_with (session : GuardExecSession) (e : GuardExecError) : io S CliError () :=
  _ ← io_map_err CliGuard (session_finish session (Err e)); mret ().
Definition or_finish {A} (session : GuardExecSession) (m : guarded A) (k : A → io S CliError ()) : io S CliError () :=
  r ← attempt m;
  match r with
  | Ok x => k x
  | Err e => finish_with session e
  end.

(** The child, and what its end means. *)
Definition run_guarded_child (request : ProcessRequest) (session : GuardExecSession) : io S CliError () :=
  process ← attempt (gp_execute_with_output request);
  r ← io_map_err CliGuard (session_finish session (map_err ExecProcess process));
  cancellation ← call cp_token;
  io_lift (map_err CliGuard (classify_guard_result r cancellation)).

Definition managed_cache_root (args : GuardExecArgs) (current_dir : list component) : io S CliError (option ResolvedCacheRoot) :=
  match ga_managed_cache_root args with
  | [] => mret None
  | root :: _ =>
    root ← io_map_err (λ e, CliGuard (from_cache e)) (try_call (gp_resolve_cache current_dir root));
    mret (Some root)
  end.

(** The session of the command, from the slot to the end of the child. *)
Definition guard_session (args : GuardExecArgs) (current_dir : list component) (root : option ResolvedCacheRoot)
    (session : GuardExecSession) : io S CliError () :=
  or_finish session (open_guard_cache root) (λ cache,
  or_finish session (io_map_err from_cli (resource_pre_start macos)) (λ baseline,
  session ← io_map_err CliGuard (start_watchdog baseline (guard_context args) (negb (ga_no_resource_history args)) session);
  environment ← call gp_environment;
  let request := guard_request args current_dir environment (default "" (head (ga_argv args))) (tail (ga_argv args)) in
  or_finish session (pin_guard_sources args cache) (λ pins,
    let root := match cache with Some cache => rr_path (mc_root cache) | None => [] end in
    r ← attempt (or_finish session (revalidate_pins root pins) (λ _, run_guarded_child request session));
    _ ← attempt (E := io_kind) (on_tree (drop_pins pins));
    io_lift r))).

Definition print_guard_exec (args : GuardExecArgs) : io S CliError () :=
  _ ← io_lift (map_err CliGuard (validate_guard_args args));
  current_dir ← io_map_err (λ _ : io_kind, CliGuard InvalidCurrentDirectory) (try_call gp_canonical_dir);
  directory ← call (gp_is_dir current_dir);
  _ ← io_lift (ensure directory (CliGuard InvalidCurrentDirectory));
  root ← managed_cache_root args current_dir;
  _ ← install_cancellation_handler;
  session ← session_acquire;
  guard_session args current_dir root session.
End GuardExec.

(** * A local run in its journal *)

(** [sh_guards] are the guards that the process owns: [release] consumes one. *)
Record Shell : Type := {
  sh_journal : RunJournalStore;
  sh_barrier : WatchdogCompletionBarrier;
  sh_guards : list AdmissionGuard;
}.

Definition shell_of {V} (s : machine (Shell * V)) : Shell := s.2.2.1.
Definition rest_of {V} (s : machine (Shell * V)) : machine V := (s.1, (s.2.1, s.2.2.2)).
Definition within {V} (sh : Shell) (s : machine V) : machine (Shell * V) := (s.1, (s.2.1, (sh, s.2.2))).

(** A program, a port and a trait of the rest of the machine, on the whole machine. *)
Definition frame {V E A} (m : io (machine V) E A) : io (machine (Shell * V)) E A := λ s,
  match m (rest_of s) with Some (r, s') => Some (r, within (shell_of s) s') | None => None end.
Definition framed {V A} (port : machine V → A * machine V) : machine (Shell * V) → A * machine (Shell * V) := λ s,
  let '(x, s') := port (rest_of s) in (x, within (shell_of s) s').

Definition framed_supervisor {V} (supervisor : SupervisorPort (machine V)) : SupervisorPort (machine (Shell * V)) :=
  λ request use, frame (port_execute request use).
Definition framed_blobs {V} (blobs : SourceBlobPort (machine V)) : SourceBlobPort (machine (Shell * V)) :=
  λ request use, frame (port_execute_source_blob request use).
Definition framed_runtime {V} (runtime : RuntimePort (machine V)) : RuntimePort (machine (Shell * V)) :=
  {| rt_probe guard envelope current_dir := frame (rt_probe guard envelope current_dir);
     rt_capability_probe guard envelope current_dir probe := frame (rt_capability_probe guard envelope current_dir probe);
     rt_dry_run := rt_dry_run;
     rt_execute_check guard context check rendered := frame (rt_execute_check guard context check rendered) |}.
#[global] Instance framed_commands {V} (ports : CommandPorts (machine V)) : CommandPorts (machine (Shell * V)) :=
  {| cp_install_handler := framed cp_install_handler; cp_token := framed cp_token; cp_current_dir := framed cp_current_dir;
     cp_coordinator := framed cp_coordinator; cp_acquire := framed cp_acquire; cp_release guard := framed (cp_release guard);
     cp_sample := framed cp_sample; cp_start_watchdog := framed cp_start_watchdog; cp_stop_watchdog := framed cp_stop_watchdog |}.

(** The clock of the journal and the disk, and what the name of a run is made of. *)
Class LocalPorts (V : Type) : Type := {
  lp_now_utc : io (machine V) RunError string;
  lp_available_bytes : machine V → (string → result StorageError Z) * machine V;
  lp_unix_nanos : machine V → option Z * machine V;
}.

Record JournalIdInput : Type := {
  ji_schema_version : string;
  ji_plan_digest : string;
  ji_generation : Z;
  ji_unix_nanos : Z;
  ji_process_id : Z;
  ji_sequence : Z;
}.
#[global] Instance JournalIdInput_serialize : Serialize JournalIdInput := λ i,
  obj [("schema_version", to_value (ji_schema_version i)); ("plan_digest", to_value (ji_plan_digest i));
       ("generation", to_value (ji_generation i)); ("unix_nanos", to_value (ji_unix_nanos i));
       ("process_id", to_value (ji_process_id i)); ("sequence", to_value (ji_sequence i))].
(** [unix_nanos] is missing when the clock is before the epoch. *)
Definition new_journal_id `{Backend} (plan_digest : string) (generation : Z) (unix_nanos : option Z) (process_id sequence : Z) :
    result CliError string :=
  unix_nanos ← ok_or unix_nanos CliInternal;
  digest ← map_err (λ _, CliInternal) (canonical_digest
    {| ji_schema_version := RUN_JOURNAL_SCHEMA_VERSION; ji_plan_digest := plan_digest; ji_generation := generation;
       ji_unix_nanos := unix_nanos; ji_process_id := process_id; ji_sequence := sequence |});
  ok_or (match strip_prefix "sha256:" digest with
         | Some run_id => if len run_id =? 64 then Some run_id else None
         | None => None
         end) CliInternal.

Section LocalRun.
Context `{Backend, CacheParser, Codec SourceManifestV1, Codec RunJournalEntryV1, Codec RunOwnerMarkerV1, Codec RunJournalSourceV1}
  {V : Type} (runtime : RuntimePort (machine V)) `{CommandPorts (machine V), LocalPorts V}
  (supervise : GenerationGuard → SupervisorPort (machine V)) (blobs : GenerationGuard → SourceBlobPort (machine V))
  (view : node → HostView) (process : CacheProcess) (var_os : string → option string) (host_os host_arch : string)
  (between : moment → path → node → node) (follow : path → node → result io_kind (list ascii)) (macos : bool).

Abbreviation M := (machine (Shell * V)).
Abbreviation cli := (io M CliError).

(** * The shell *)

Definition get_shell {E A} (f : Shell → A) : io M E A := λ s, Some (Ok (f (shell_of s)), s).
Definition put_shell {E} (f : Shell → Shell) : io M E () := λ s, Some (Ok (), within (f (shell_of s)) (rest_of s)).
Definition set_journal (store : RunJournalStore) (sh : Shell) : Shell :=
  {| sh_journal := store; sh_barrier := sh_barrier sh; sh_guards := sh_guards sh |}.
Definition set_barrier (b : WatchdogCompletionBarrier) (sh : Shell) : Shell :=
  {| sh_journal := sh_journal sh; sh_barrier := b; sh_guards := sh_guards sh |}.
Definition set_guards (guards : list AdmissionGuard) (sh : Shell) : Shell :=
  {| sh_journal := sh_journal sh; sh_barrier := sh_barrier sh; sh_guards := guards |}.

Definition on_journal (op : RunJournalStore → result RunJournalError RunJournalStore) : io M RunJournalError () :=
  store ← get_shell sh_journal;
  store ← io_lift (op store);
  put_shell (set_journal store).
(** An operation that also answers with what it wrote. *)
Definition written {A} (r : result RunJournalError (A * RunJournalStore)) : result RunJournalError RunJournalStore :=
  '(_, store) ← r; Ok store.

Definition barrier_join {E} : io M E () :=
  b ← get_shell sh_barrier;
  b ← join_once b;
  put_shell (set_barrier b).
(** [CompletionBarrier::finalize]. *)
Definition barrier_finalize (checks : list CheckEvidence) : io M RunError () :=
  _ ← barrier_join;
  b ← get_shell sh_barrier;
  io_lift (finalize_verdict b checks).
Definition barrier_reconcile (outcome : result CliError RunOutcome) : cli RunOutcome :=
  b ← get_shell sh_barrier;
  let '(r, b) := reconcile_watchdog_outcome outcome b in
  _ ← put_shell (set_barrier b);
  io_lift r.

Definition acquire_slot : io M AdmissionError AdmissionGuard :=
  guard ← try_call cp_acquire;
  guards ← get_shell sh_guards;
  _ ← put_shell (set_guards (guard :: guards));
  mret guard.
Definition release_slot (guard : AdmissionGuard) : io M AdmissionError () :=
  _ ← get_shell sh_guards ≫= (λ guards, put_shell (set_guards (tail guards)));
  try_call (cp_release guard).

(** * The observer of the lifecycle *)

Definition now_utc : io M RunError string := frame lp_now_utc.

Section Observer.
Context (run_id : string).

Definition transition_state (state : RunJournalStateV1) (failure_kind : option RunFailureKindV1) : cli () :=
  at_utc ← io_map_err CliRun now_utc;
  io_map_err CliRunJournal (on_journal (λ store, written (transition store run_id state at_utc failure_kind))).
Definition fail (kind : RunFailureKindV1) : cli () := transition_state RunJournal.Failed (Some kind).
Definition cleanup_pending_after_admission_acquired : cli () :=
  at_utc ← io_map_err CliRun now_utc;
  io_map_err CliRunJournal
    (on_journal (λ store, written (transition_cleanup_pending_after_admission_acquired store run_id at_utc))).

Definition phase_state (phase : RunLifecyclePhase) : RunJournalStateV1 :=
  match phase with
  | PhasePrepared => Prepared
  | PhaseExecuting => Executing
  | PhaseFinalizing => Finalizing
  | PhaseSealed => Sealed
  end.
Definition observer_transition (phase : RunLifecyclePhase) : io M RunError () :=
  at_utc ← now_utc;
  io_map_err (λ _ : RunJournalError, RunInvariant "run journal transition failed")
    (on_journal (λ store, written (transition store run_id (phase_state phase) at_utc None))).

(** The closure that records the end of a run. *)
Definition journal_event (event : RunTerminalJournalEvent) : cli () :=
  match event with
  | PrimaryFailure kind => fail kind
  | ReleaseFailure => transition_state CleanupPending None
  | ReleaseFailureAfterAdmissionAcquired => cleanup_pending_after_admission_acquired
  end.

(** The traits that the run is given. *)
Definition local_ports : RunPorts M :=
  {| port_token := cp_token; port_now_utc := now_utc; port_finalize := barrier_finalize; port_transition := observer_transition;
     port_available_bytes := framed lp_available_bytes |}.
Definition local_run (request : RunRequest) (preflight : RuntimePreflight) : io M RunError RunOutcome :=
  execute_local_run (H1 := framed_runtime runtime) (H2 := local_ports) (λ guard, framed_supervisor (supervise guard))
    view process var_os host_os host_arch between follow request (Some preflight).

(** * The parts of [print_run] *)

(** A step of the preparation, whose failure is recorded. *)
Definition or_fail {E A} (kind : RunFailureKindV1) (f : E → CliError) (m : io M E A) : cli A :=
  r ← attempt m;
  match r with
  | Ok x => mret x
  | Err e => _ ← fail kind; io_lift (Err (f e))
  end.
Definition source_error (e : SourceSnapshotError) : CliError := CliRun (RunSourceSnapshot e).

(** The directory that is reserved for the snapshot. *)
Definition source_resource (root : ResolvedCacheRoot) : list component :=
  rr_path root ++ (Normal <$> [JOURNAL_DIR; RUNS_DIR; run_id; RESOURCES_DIR; "source-snapshot-v1"]).

(** A snapshot is dropped, and removed, when the command leaves with an error. *)
Definition holding {A} (snapshot : SourceSnapshot) (m : cli A) : cli A :=
  r ← attempt m;
  match r with
  | Ok x => mret x
  | Err e => _ ← attempt (E := SourceSnapshotError) (drop_snapshot snapshot); io_lift (Err e)
  end.

Definition admit_run : cli AdmissionGuard :=
  _ ← io_map_err CliAdmission (try_call cp_coordinator);
  acquire_admission_with_journal (or_fail AdmissionRejected CliAdmission acquire_slot) (transition_state RunAdmitted None)
    release_slot journal_event.

(** A step between the admission and the run. *)
Definition or_release {A} (guard : AdmissionGuard) (m : cli A) : cli A :=
  r ← attempt m;
  match r with
  | Ok x => mret x
  | Err e => finalize_run_terminal (Err e) io_lift (release_slot guard) journal_event
  end.
Definition start_run_watchdog : cli bool :=
  if negb macos then mret false else
  _ ← io_map_err (λ _ : io_kind, CliInternal) (try_call cp_current_dir);
  _ ← call cp_start_watchdog;
  mret true.

Definition run_request (envelope : ExecutionPlanEnvelopeV1) (repository : list component) (cache : ResolvedCacheRoot)
    (producer_version : string) (generation : Z) (snapshot : option SourceSnapshot) : RunRequest :=
  {| ru_envelope := envelope; ru_repository := repository; ru_cache := cache; ru_producer_version := producer_version;
     ru_generation := generation; ru_source_snapshot := snapshot |}.

(** What follows the run: the watchdog is joined and has its say, the slot is released. *)
Definition finish_run (guard : AdmissionGuard) (run_result : result CliError RunOutcome) : cli RunOutcome :=
  finalize_run_terminal run_result (λ outcome, _ ← barrier_join; barrier_reconcile outcome) (release_slot guard) journal_event.

(** With the slot: the host admits the run, the run is executed, the watchdog is
    joined and has its say, the slot is released. *)
Definition run_with_slot (request : RunRequest) (preflight : RuntimePreflight) (guard : AdmissionGuard) : cli RunOutcome :=
  _ ← or_release guard (resource_pre_start macos);
  watchdog ← or_release guard start_run_watchdog;
  _ ← put_shell (set_barrier (barrier_new watchdog));
  run_result ← attempt (io_map_err CliRun (local_run request preflight));
  finish_run guard run_result.

(** The snapshot is removed before the run is sealed. *)
Definition remove_snapshot (snapshot : SourceSnapshot) (outcome : RunOutcome) : cli RunOutcome :=
  cleaned ← attempt (cleanup snapshot);
  match cleaned with
  | Ok _ => mret outcome
  | Err e => _ ← transition_state CleanupPending None; io_lift (Err (source_error e))
  end.

(** With the snapshot, from its mount points to its removal. *)
Definition run_on_snapshot (request : RunRequest) (preflight : RuntimePreflight) (commit : string) (snapshot : SourceSnapshot) :
    cli RunOutcome :=
  snapshot ← or_fail PreparationFailed source_error (prepare_mount_overlay (ru_envelope request) snapshot);
  _ ← or_fail PreparationFailed CliRunJournal (on_journal (λ store, written
        (bind_source store run_id commit (sv_manifest_digest (sn_evidence snapshot)) (sv_entry_count (sn_evidence snapshot)))));
  guard ← admit_run;
  outcome ← run_with_slot (run_request (ru_envelope request) (ru_repository request) (ru_cache request) (ru_producer_version request)
                             (ru_generation request) (Some snapshot)) preflight guard;
  remove_snapshot snapshot outcome.

(** From the entry in the journal to the sealed run. *)
Definition journaled_run (request : RunRequest) (preflight : RuntimePreflight) : cli RunOutcome :=
  at_utc ← io_map_err CliRun now_utc;
  _ ← io_map_err CliRunJournal (on_journal (λ store, written (create_run store run_id at_utc)));
  let paths := λ t, hv_paths (view t) in
  let identity := first_identity request in
  let guard := guard_new identity in
  commit ← or_fail PreparationFailed source_error
    (resolve_clean_head (supervisor := framed_supervisor (supervise guard)) paths var_os identity RunToken (ru_repository request)
       (nrec_output (ep_receipt (pe_plan (ru_envelope request)))));
  let identity := with_commit commit identity in
  guard ← io_lift (map_err (λ e, CliRun (RunProcess e)) (replace identity guard));
  _ ← or_fail PreparationFailed CliRunJournal (on_journal (λ store, reserve_resource store run_id "source-snapshot-v1"));
  snapshot ← or_fail PreparationFailed source_error
    (materialize (supervisor := framed_supervisor (supervise guard)) (blobs := framed_blobs (blobs guard)) paths var_os identity RunToken
       (ru_repository request) commit (source_resource (ru_cache request)));
  outcome ← holding snapshot (run_on_snapshot request preflight commit snapshot);
  _ ← io_map_err CliRun (observer_transition PhaseSealed);
  mret outcome.
End Observer.

(** [print_run], of a plan of a single runtime; [first] and [second] are what other
    processes do while the cache root is made, the counter of the names is
    [sequence].  The answer of the daemon is kept for the run. *)
Definition print_run (first second : nat → node → node) (envelope : ExecutionPlanEnvelopeV1) (repository : list component)
    (root : ResolvedCacheRoot) (producer_version : string) (generation sequence : Z) (json : bool) : cli () :=
  _ ← io_lift (map_err CliRun (ensure_local_environment_allowed envelope));
  host ← io_map_err CliRun (host_view view);
  cache ← io_map_err CliCache (on_tree (initialize process (hv_paths host) first second root));
  let request := run_request envelope repository (mc_root cache) producer_version generation None in
  _ ← io_map_err CliRun (storage_preflight (H2 := local_ports "") request);
  _ ← io_lift (map_err CliRuntime (runtime_for (nr_kind (ep_runtime (pe_plan envelope)))));
  _ ← install_cancellation_handler;
  preflight ← io_map_err CliRuntime (frame
    (preflight_with (rt_probe (doctor_guard envelope) envelope repository) (rt_capability_probe (doctor_guard envelope) envelope repository)
       envelope));
  unix_nanos ← call (framed lp_unix_nanos);
  run_id ← io_lift (new_journal_id (pe_plan_digest envelope) generation unix_nanos (cpr_pid process) sequence);
  outcome ← journaled_run run_id request preflight;
  _ ← if json then io_lift (map_err (λ _, CliInternal) (published_canonical_bytes outcome)) else mret [];
  io_lift (ensure (outcome_exit_code outcome =? 0) (CliRunOutcome (r1_overall_status (e1_receipt (uo_receipt outcome))))).
End LocalRun.
