(* ===== verification/CommandClaims.v ===== *)
(** How the commands end ([Command.v]): what the journal has of a local run, whichever
    way it ends; that the watchdog never contradicts a published receipt; when a matrix
    run seals its receipt; and what a guarded execution exits with and records. *)
From stdpp Require Import relations.
From S2P Require Import Prelude.
From S2P Require Import RustStr.
From S2P Require Import BTree.
From S2P Require Import Canonical.
From S2P Require Import Config.
From S2P Require Import Storage.
From S2P Require Import Receipt.
From S2P Require Import Verify.
From S2P Require Import Matrix.
From S2P Require Import Admission.
From S2P Require Import Durable.
From S2P Require Import RunJournal.
From S2P Require Import Resource.
From S2P Require Import ResourceHistory.
From S2P Require Import Benchmark.
From S2P Require Import FileSystem.
From S2P Require Import CachePayload.
From S2P Require Import CacheRoot.
From S2P Require Import Cache.
From S2P Require Import Workspace.
From S2P Require Import Artifacts.
From S2P Require Import Ports.
From S2P Require Import Process.
From S2P Require Import Runtime.
From S2P Require Import SourceSnapshot.
From S2P Require Import RunParts.
From S2P Require Import Run.
From S2P Require Import Calendar.
From S2P Require Import RunJournalProps.
From S2P Require Import JournalStore.
From S2P Require Import FieldCodec.
From S2P Require Import PlanClaims.
From S2P Require Import JournalClaims.
From S2P Require Import SourceSnapshotClaims.
From S2P Require Import RunClaims.
From S2P Require Import SourceSnapshotProps.
From S2P Require Import Command.
Local Open Scope Z_scope.

(** * What a program does not change *)

Section Preserves.
Context {S X : Type} (f : S → X).

Definition preserves {E A} (m : io S E A) : Prop := ∀ s r s', m s = Some (r, s') → f s' = f s.

Lemma preserves_ret {E A} (x : A) : preserves (mret x : io S E A).
Proof. by intros s r s' [= _ <-]. Qed.
Lemma preserves_lift {E A} (r : result E A) : preserves (io_lift r).
Proof. by intros s r' s' [= _ <-]. Qed.
Lemma preserves_bind {E A B} (m : io S E A) (k : A → io S E B) :
  preserves m → (∀ x, preserves (k x)) → preserves (m ≫= k).
Proof.
  intros Hm Hk s r s' Hr. unfold mbind, io_bind in Hr. destruct (m s) as [[[x|e] s1]|] eqn:E1; [|simplify_eq; by eapply Hm|done].
  rewrite <-(Hm _ _ _ E1). by eapply Hk.
Qed.
Lemma preserves_attempt {E F A} (m : io S E A) : preserves m → preserves (attempt m : io S F _).
Proof. intros Hm s r s' Hr. unfold attempt in Hr. destruct (m s) as [[]|] eqn:E1; [|done]. simplify_eq. by eapply Hm. Qed.
Lemma preserves_map_err {E F A} (g : E → F) (m : io S E A) : preserves m → preserves (io_map_err g m).
Proof. intros Hm. apply preserves_bind; [by apply preserves_attempt|]. intros r. apply preserves_lift. Qed.
Lemma preserves_call {E A} (port : S → A * S) : (∀ s, f (port s).2 = f s) → preserves (call port : io S E A).
Proof. intros Hp s r s' Hr. unfold call in Hr. specialize (Hp s). destruct (port s). by simplify_eq. Qed.
Lemma preserves_try_call {E A} (port : S → result E A * S) : (∀ s, f (port s).2 = f s) → preserves (try_call port).
Proof. intros Hp s r s' Hr. unfold try_call in Hr. specialize (Hp s). destruct (port s). by simplify_eq. Qed.
Lemma preserves_each {E A} (g : A → io S E ()) l : (∀ x, preserves (g x)) → preserves (io_each g l).
Proof. intros Hg. induction l as [|x l IH]; [apply preserves_ret|]. by apply preserves_bind. Qed.
Lemma preserves_fold {E A B} (g : B → A → io S E B) acc l : (∀ b x, preserves (g b x)) → preserves (io_fold g acc l).
Proof. intros Hg. revert acc. induction l as [|x l IH]; intros acc; [apply preserves_ret|]. by apply preserves_bind. Qed.
Lemma preserves_ends {E A} (m : io S E A) s : preserves m → ends m s (λ _ s', f s' = f s).
Proof. intros Hm r s'. apply Hm. Qed.
End Preserves.

(** What a program over the rest of the machine leaves: the shell. *)
Section Frame.
Context {V : Type}.
Lemma shell_within (sh : Shell) (s : machine V) : shell_of (within sh s) = sh.
Proof. done. Qed.
Lemma rest_within (sh : Shell) (s : machine V) : rest_of (within sh s) = s.
Proof. by destruct s as (? & ? & ?). Qed.
Lemma preserves_frame {E A} (m : io (machine V) E A) : preserves shell_of (frame m).
Proof. intros s r s' Hr. unfold frame in Hr. destruct (m (rest_of s)) as [[]|]; [|done]. by simplify_eq. Qed.
Lemma framed_shell {A} (port : machine V → A * machine V) s : shell_of (framed port s).2 = shell_of s.
Proof. unfold framed. by destruct (port (rest_of s)). Qed.
Lemma preserves_on_tree {E A} (m : fs E A) : preserves (shell_of (V := V)) (on_tree m : io (FileSystem.World * _) E A).
Proof. intros [w t] r [w' t'] Hr. unfold on_tree in Hr. destruct (m w) as [[] ?]; by simplify_eq. Qed.
Lemma preserves_on_host {E A} (m : fs E A) : preserves (shell_of (V := V)) (on_host m : io (FileSystem.World * (HostFiles * (Shell * V))) E A).
Proof. intros [w [h u]] r s' Hr. unfold on_host in Hr. destruct (m (h_world h)) as [[] ?]; by simplify_eq. Qed.
Lemma preserves_set_mode {E} p x : preserves (shell_of (V := V)) (set_mode p x : io _ E ()).
Proof. intros [w [h u]] r s' Hr. unfold set_mode in Hr. by simplify_eq. Qed.
Lemma preserves_get_mode {E} p : preserves (shell_of (V := V)) (get_mode p : io _ E bool).
Proof. intros [w [h u]] r s' Hr. unfold get_mode in Hr. by simplify_eq. Qed.
Lemma preserves_get_shell {Y E A} (g : machine (Shell * V) → Y) (f : Shell → A) : preserves g (get_shell f : io _ E A).
Proof. by intros s r s' [= _ <-]. Qed.
Lemma preserves_part {X E A} (g : Shell → X) (m : io (machine (Shell * V)) E A) : preserves shell_of m → preserves (λ s, g (shell_of s)) m.
Proof. intros Hm s r s' Hr. by rewrite (Hm _ _ _ Hr). Qed.
End Frame.

Ltac get_head e := lazymatch e with ?f _ => get_head f | _ => e end.
(** [preserve] shows that a program keeps the shell, by its structure and by the
    lemmas of the database [preserve] on its parts. *)
Create HintDb preserve.
Ltac preserve :=
  repeat lazymatch goal with
  | |- ∀ _, _ => intros ?
  | |- preserves _ ?m =>
    first
    [ solve [auto 1 with preserve nocore]
    | lazymatch m with
      | mbind _ _ => apply preserves_bind
      | mret _ => apply preserves_ret
      | io_lift _ => apply preserves_lift
      | attempt _ => apply preserves_attempt
      | io_map_err _ _ => apply preserves_map_err
      | io_each _ _ => apply preserves_each
      | io_fold _ _ _ => apply preserves_fold
      | frame _ => apply preserves_frame
      | on_tree _ => apply preserves_on_tree
      | on_host _ => apply preserves_on_host
      | set_mode _ _ => apply preserves_set_mode
      | get_mode _ => apply preserves_get_mode
      | get_shell _ => apply preserves_get_shell
      | call _ => apply preserves_call; intros ?; first [apply framed_shell | reflexivity]
      | try_call _ => apply preserves_try_call; intros ?; apply framed_shell
      | match ?x with _ => _ end => destruct x
      | _ => let h := get_head m in unfold h; cbv beta zeta
      end ]
  end.

(** * The run, as the shell sees it *)

Section Run.
Context `{BO : BackendOk, CacheParser, Codec SourceManifestV1, CE : Codec RunJournalEntryV1, CM : Codec RunOwnerMarkerV1, CS : Codec RunJournalSourceV1}
  {V : Type} (runtime : RuntimePort (machine V)) `{CommandPorts (machine V), LocalPorts V}
  (supervise : GenerationGuard → SupervisorPort (machine V)) (blobs : GenerationGuard → SourceBlobPort (machine V))
  (view : node → HostView) (process : CacheProcess) (var_os : string → option string) (host_os host_arch : string)
  (between : moment → path → node → node) (follow : path → node → result io_kind (list ascii)) (macos : bool) (run_id : string).
Abbreviation M := (machine (Shell * V)).
Abbreviation supervisors := (λ guard, framed_supervisor (supervise guard)).
Abbreviation ports := (local_ports run_id).
Abbreviation on_shell := (framed_runtime runtime).

Lemma look_at_token_shell use : preserves shell_of (look_at_token (H2 := ports) use : io M RunError _).
Proof. preserve. Qed.
Lemma or_pressure_shell {E A} use (f : E → RunError) (m : io M E A) :
  preserves shell_of m → preserves shell_of (or_pressure (H2 := ports) use f m).
Proof. intros Hm. unfold or_pressure. apply preserves_bind; [by apply preserves_attempt|]. preserve. Qed.
Lemma supervisor_shell guard request use : preserves shell_of (port_execute (SupervisorPort := supervisors guard) request use).
Proof. preserve. Qed.
#[local] Hint Resolve or_pressure_shell supervisor_shell : preserve.
Lemma git_shell guard identity use repository argv :
  preserves shell_of (run_execute_git (H2 := ports) supervisors var_os guard identity use repository argv).
Proof. unfold run_execute_git. apply preserves_bind; [apply or_pressure_shell, supervisor_shell|]. preserve. Qed.
#[local] Hint Resolve git_shell : preserve.
Lemma inspect_shell envelope guard identity use repository :
  preserves shell_of (inspect_repository (H2 := ports) supervisors var_os envelope guard identity use repository).
Proof. preserve. Qed.
Lemma execute_check_shell guard context check rendered :
  preserves shell_of (rt_execute_check (RuntimePort := on_shell) guard context check rendered).
Proof. apply preserves_frame. Qed.
Lemma probe_shell guard envelope directory : preserves shell_of (rt_probe (RuntimePort := on_shell) guard envelope directory).
Proof. apply preserves_frame. Qed.
Lemma now_shell : preserves (X := Shell) shell_of (now_utc : io M RunError string).
Proof. apply preserves_frame. Qed.
#[local] Hint Resolve execute_check_shell probe_shell now_shell inspect_shell : preserve.
Lemma checks_shell guard identity id environment root checks :
  preserves shell_of (run_checks (H1 := on_shell) (H2 := ports) guard identity id environment root checks).
Proof.
  apply preserves_fold. intros pg [declared rendered]. unfold check_turn. preserve.
Qed.
Lemma revalidate_shell guard identity use snapshot :
  preserves shell_of (revalidate (supervisor := supervisors guard) (T := FileSystem.World) (U := Shell * V) var_os identity use snapshot).
Proof. preserve. Qed.
Lemma artifacts_shell request prepared :
  preserves (shell_of (V := V)) (run_artifacts between follow request prepared).
Proof. preserve. Qed.
Lemma hidden_shell checks : preserves shell_of (refuse_hidden_pressure (H2 := ports) checks).
Proof. preserve. Qed.
Lemma workspace_shell request root : preserves (shell_of (V := V)) (prepare_workspace view process request root).
Proof. preserve. Qed.
Lemma storage_shell request : preserves shell_of (storage_preflight (H2 := ports) request).
Proof. preserve. Qed.
Lemma repository_shell request : preserves (shell_of (V := V)) (run_repository view request).
Proof. preserve. Qed.
Lemma preflight_shell request given repository :
  preserves shell_of (run_preflight (H1 := on_shell) (H2 := ports) request (Some given) repository).
Proof. preserve. Qed.
Lemma commit_shell request guard identity repository :
  preserves shell_of (run_commit (H2 := ports) supervisors var_os request guard identity repository).
Proof. preserve. Qed.
Lemma drop_workspace_shell prepared : preserves (shell_of (V := V)) (drop_prepared_workspace prepared).
Proof. preserve. Qed.
#[local] Hint Resolve checks_shell revalidate_shell artifacts_shell hidden_shell workspace_shell storage_shell repository_shell
  preflight_shell commit_shell drop_workspace_shell : preserve.

(** * The journal of the run *)

(** The journal has this run in these states, in this order. *)
Definition history_is (store : RunJournalStore) (states : list RunJournalStateV1) : Prop :=
  store_ok store ∧ validate_run_id run_id = Ok () ∧ ∃ es, read_entries store run_id = Ok es ∧ je_state <$> es = states.
Definition shell_is (s : M) (states : list RunJournalStateV1) (b : WatchdogCompletionBarrier) (guards : list AdmissionGuard) : Prop :=
  history_is (sh_journal (shell_of s)) states ∧ sh_barrier (shell_of s) = b ∧ sh_guards (shell_of s) = guards.

Lemma last_state es states p : je_state <$> es = states → last states = Some p → ∃ e, last es = Some e ∧ je_state e = p.
Proof. intros <- Hp. rewrite fmap_last in Hp. by apply fmap_Some in Hp as (e & ? & ->); exists e. Qed.

Context `{!JournalLaws}.
Hypothesis clock_works : ∀ s, ∃ t s', lp_now_utc (V := V) s = Some (Ok t, s') ∧ is_Some (parse_utc_seconds t).
Hypothesis entries_serialize : ∀ e : RunJournalEntryV1, u64 (je_seq e) → is_Some (to_vec e).

Lemma history_append store states es p state at_utc fk :
  history_is store states → read_entries store run_id = Ok es → last es = Some p → legal_transition (je_state p) state = true →
  (state = RunJournal.Failed ↔ is_Some fk) → is_Some (parse_utc_seconds at_utc) →
  ∃ e store', append_entry store run_id (Z.of_nat (length es)) state at_utc fk = Ok (e, store') ∧ history_is store' (states ++ [state]).
Proof.
  intros (Hok & Hid & es' & Hr' & Hs) Hr Hp Hl Hf Ht. assert (es' = es) as -> by congruence.
  pose proof Hr as (entries & Hg & _)%read_entries_iff.
  pose proof (append_entry_total _ _ _ _ state at_utc fk Hg (next_entry_fresh _ _ _ _ state Hg Hr)) as Ha. cbv zeta in Ha.
  assert (Hlen : (length es ≤ 7)%nat).
  { pose proof Hr as (? & _ & _ & Hloop)%read_entries_iff. destruct (entry_loop_ok _ _ _ Hloop) as [Hj _]. by eapply journal_length. }
  match type of Ha with context [to_vec ?e] => destruct (entries_serialize e) as [b Hb]; [split; cbn; unfold u64_max; lia|]; rewrite Hb in Ha; destruct Ha as [store' Ha]; exists e, store' end.
  split; [done|]. destruct (append_next_updated _ _ _ _ _ _ _ _ _ (store_ok_fit _ _ Hok) Hid Hr Hp Hl Hf Ht Ha) as [Hu Hr2].
  split; [|split; [done|]].
  - apply (store_change_ok store); [done|]. right. exists run_id. by left.
  - eexists. split; [exact Hr2|]. rewrite fmap_app, Hs. done.
Qed.

Lemma history_transition store states p state at_utc fk :
  history_is store states → last states = Some p → transition_allowed p state fk = true → is_Some (parse_utc_seconds at_utc) →
  ∃ e store', transition store run_id state at_utc fk = Ok (e, store') ∧ history_is store' (states ++ [state]).
Proof.
  intros Hh Hp Ha Ht. pose proof Hh as (_ & Hid & es & Hr & Hs). destruct (last_state _ _ _ Hs Hp) as (e & He & <-).
  rewrite (transition_eq _ _ _ _ _ _ _ Hid Ht Hr He), Ha. unfold transition_allowed in Ha.
  apply andb_true_iff in Ha as [[Hl _]%andb_true_iff Hf]. eapply history_append; try done.
  unfold is_failed, is_Some_b in Hf. apply Bool.eqb_prop in Hf. case_bool_decide; destruct fk; naive_solver.
Qed.

Lemma history_pending store states p at_utc :
  history_is store states → last states = Some p → match p with CleanupPending | RunJournal.Failed | Sealed => False | _ => True end →
  is_Some (parse_utc_seconds at_utc) →
  ∃ e store', transition_cleanup_pending_after_admission_acquired store run_id at_utc = Ok (e, store') ∧
    history_is store' (states ++ [CleanupPending]).
Proof.
  intros Hh Hp Ha Ht. pose proof Hh as (_ & Hid & es & Hr & Hs). destruct (last_state _ _ _ Hs Hp) as (e & He & <-).
  assert (Hl : legal_transition (je_state e) CleanupPending = true) by by destruct (je_state e).
  destruct (history_append _ _ _ _ CleanupPending at_utc None Hh Hr He Hl) as (e' & store' & Hap & Hh'); [by split; [|intros []]|done|].
  exists e', store'. split; [|done]. rewrite cleanup_pending_completed.
  rewrite Hid, (proj2 (validate_timestamp_spec _) Ht). cbn [mbind result_bind]. rewrite Hr. cbn [mbind result_bind].
  rewrite He. cbn [ok_or mbind result_bind]. rewrite (last_seq _ _ _ _ Hr He), <-Hap. by destruct (je_state e).
Qed.

(** An operation of the observer: the clock, then the journal. *)
Lemma now_meets {E F} (f : RunError → E) (k : string → io M E F) s Q states b guards :
  shell_is s states b guards →
  (∀ t s', is_Some (parse_utc_seconds t) → shell_is s' states b guards → meets (k t) s' Q) →
  meets (t ← io_map_err f now_utc; k t) s Q.
Proof.
  intros Hs Hk. apply meets_bind, meets_map_err. destruct (clock_works (rest_of s)) as (t & s' & Hn & Ht).
  unfold meets, now_utc, frame. rewrite Hn. do 2 eexists. split; [done|]. cbn. by apply Hk.
Qed.
Lemma journal_meets {E} (f : RunJournalError → E) op s states states' b guards :
  shell_is s states b guards → (∃ store, op (sh_journal (shell_of s)) = Ok store ∧ history_is store states') →
  meets (io_map_err f (on_journal op)) s (λ r s', r = Ok () ∧ shell_is s' states' b guards).
Proof.
  intros (_ & Hb & Hg) (store & Hop & Hh). apply meets_map_err. unfold on_journal, meets, get_shell, mbind, io_bind, io_lift.
  rewrite Hop. do 2 eexists. split; [done|]. split; [done|]. by split_and!.
Qed.

Lemma transition_state_meets s states p state fk b guards :
  shell_is s states b guards → last states = Some p → transition_allowed p state fk = true →
  meets (transition_state run_id state fk) s (λ r s', r = Ok () ∧ shell_is s' (states ++ [state]) b guards).
Proof.
  intros Hs Hp Ha. unfold transition_state. eapply now_meets; [done|]. intros t s' Ht Hs'.
  destruct (history_transition _ _ _ state t fk (proj1 Hs') Hp Ha Ht) as (e & store & Htr & Hh).
  eapply journal_meets; [done|]. exists store. unfold written. by rewrite Htr.
Qed.
Lemma pending_meets s states p b guards :
  shell_is s states b guards → last states = Some p → match p with CleanupPending | RunJournal.Failed | Sealed => False | _ => True end →
  meets (cleanup_pending_after_admission_acquired run_id) s (λ r s', r = Ok () ∧ shell_is s' (states ++ [CleanupPending]) b guards).
Proof.
  intros Hs Hp Ha. unfold cleanup_pending_after_admission_acquired. eapply now_meets; [done|]. intros t s' Ht Hs'.
  destruct (history_pending _ _ _ t (proj1 Hs') Hp Ha Ht) as (e & store & Htr & Hh).
  eapply journal_meets; [done|]. exists store. unfold written. by rewrite Htr.
Qed.
Lemma observer_meets s states p phase b guards :
  shell_is s states b guards → last states = Some p → transition_allowed p (phase_state phase) None = true →
  meets (observer_transition run_id phase) s (λ r s', r = Ok () ∧ shell_is s' (states ++ [phase_state phase]) b guards).
Proof.
  intros Hs Hp Ha. unfold observer_transition. apply meets_bind. unfold now_utc.
  destruct (clock_works (rest_of s)) as (t & s' & Hn & Ht). unfold meets at 1, frame. rewrite Hn. do 2 eexists. split; [done|]. cbn.
  assert (Hs' : shell_is (within (shell_of s) s') states b guards) by done.
  destruct (history_transition _ _ _ (phase_state phase) t None (proj1 Hs') Hp Ha Ht) as (e & store & Htr & Hh).
  eapply journal_meets; [done|]. exists store. unfold written. by rewrite Htr.
Qed.

(** * The run and the barrier *)

Definition RUNNING : list RunJournalStateV1 := [Created; RunAdmitted; Prepared; Executing; Finalizing].
(** How far the journal of a run has come that is executing. *)
Definition under_way (states : list RunJournalStateV1) : Prop := ∃ n, (2 ≤ n ≤ 5)%nat ∧ states = take n RUNNING.
(** The barrier has been joined and lets evidence pass. *)
Definition settled (b : WatchdogCompletionBarrier) (checks : list CheckEvidence) : Prop :=
  wb_watchdog b = false ∧ finalize_verdict b checks = Ok ().

Lemma same_shell s s' states b guards : shell_of s' = shell_of s → shell_is s states b guards → shell_is s' states b guards.
Proof. unfold shell_is. by intros ->. Qed.

(** One step that keeps the shell. *)
Lemma stay {E A B} (m : io M E A) (k : A → io M E B) s states b guards Q :
  preserves shell_of m → shell_is s states b guards → (∀ e s', shell_is s' states b guards → Q (Err e) s') →
  (∀ x s', shell_is s' states b guards → ends (k x) s' Q) → ends (m ≫= k) s Q.
Proof.
  intros Hm Hs He Hk. apply ends_bind. intros r s' Hr. assert (Hs' : shell_is s' states b guards) by by eapply same_shell; [eapply Hm|].
  destruct r; auto.
Qed.
Lemma stay_last {E A} (m : io M E A) s states b guards (Q : result E A → M → Prop) :
  preserves shell_of m → shell_is s states b guards → (∀ r s', shell_is s' states b guards → Q r s') → ends m s Q.
Proof. intros Hm Hs HQ r s' Hr. apply HQ. by eapply same_shell; [eapply Hm|]. Qed.
Lemma meets_ends {E A} (m : io M E A) s Q : meets m s Q → ends m s Q.
Proof. intros Hm r s' Hr. by eapply meets_det. Qed.
Lemma then_observed {B} phase (k : () → io M RunError B) s states p b guards Q :
  shell_is s states b guards → last states = Some p → transition_allowed p (phase_state phase) None = true →
  (∀ s', shell_is s' (states ++ [phase_state phase]) b guards → ends (k ()) s' Q) →
  ends (observer_transition run_id phase ≫= k) s Q.
Proof.
  intros Hs Hp Ha Hk. apply ends_bind. eapply ends_impl; [apply meets_ends; by eapply observer_meets|]. intros r s' [-> Hs']. by apply Hk.
Qed.

(** The barrier joins its watchdog, if it has one that runs. *)
Lemma join_ends {E} s states b guards :
  shell_is s states b guards →
  ends (barrier_join (E := E)) s (λ r s', r = Ok () ∧ ∃ b', shell_is s' states b' guards ∧ wb_watchdog b' = false ∧ (wb_watchdog b = false → b' = b)).
Proof.
  intros (Hh & Hb & Hg). unfold barrier_join. apply ends_bind. intros r s' [= <- <-]. rewrite Hb. apply ends_bind. unfold join_once.
  destruct (wb_watchdog b) eqn:Ew.
  - apply ends_bind, ends_call. set (s2 := (cp_stop_watchdog s).2). assert (Hs2 : shell_of s2 = shell_of s) by apply framed_shell.
    apply ends_ret. intros r s' [= <- <-]. split; [done|]. exists (joined (stop_and_join (cp_stop_watchdog s).1) b).
    split; [|split; [by unfold joined; case_match|done]].
    unfold shell_is. cbn. rewrite Hs2. by split_and!.
  - apply ends_ret. intros r s' [= <- <-]. split; [done|]. exists b. unfold shell_is. by split_and!.
Qed.
Lemma finalize_ends checks s states b guards :
  shell_is s states b guards →
  ends (barrier_finalize checks) s (λ r s', ∃ b', shell_is s' states b' guards ∧ (r = Ok () → settled b' checks)).
Proof.
  intros Hs. unfold barrier_finalize. apply ends_bind. eapply ends_impl; [by apply join_ends|]. intros r s' (-> & b' & Hs' & Hw & _).
  apply ends_bind. intros r s2 [= <- <-]. apply ends_lift. exists b'. split; [done|]. destruct Hs' as (_ & -> & _). by split.
Qed.
Lemma settled_reconciles b outcome :
  settled b (r1_checks (e1_receipt (uo_receipt outcome))) → ∃ b', reconcile_watchdog_outcome (Ok outcome) b = (Ok outcome, b').
Proof.
  unfold settled, finalize_verdict, reconcile_watchdog_outcome. intros [_ Hv]. destruct (wb_join_error b) as [e|] eqn:Ej; [done|]. cbn.
  rewrite Ej. unfold outcome_has_resource_not_run. destruct (wb_trip b) as [[]|]; [apply ensure_ok in Hv; rewrite Hv; by eexists..|done|by eexists].
Qed.

(** What a run leaves: on the way, or with all its phases and a barrier that let its
    evidence pass. *)
Definition run_left {A} (checks : A → list CheckEvidence) (guards : list AdmissionGuard) (r : result RunError A) (s : M) : Prop :=
  match r with
  | Ok x => ∃ b, shell_is s RUNNING b guards ∧ settled b (checks x)
  | Err _ => ∃ states b, under_way states ∧ shell_is s states b guards
  end.

Lemma left_early {A} (checks : A → list CheckEvidence) n b guards e (s : M) :
  (2 ≤ n ≤ 5)%nat → shell_is s (take n RUNNING) b guards → run_left checks guards (Err e) s.
Proof. intros Hn Hs. exists (take n RUNNING), b. split; [by exists n|done]. Qed.

(** A step of the run that keeps the shell, whatever its phase. *)
Tactic Notation "stay" simple_intropattern(x) :=
  eapply stay; [preserve|eassumption|intros; eapply left_early; [|eassumption]; lia|];
  lazymatch goal with Hs : shell_is ?s _ _ _ |- _ => clear Hs; try clear s end; intros x ? ?.

Tactic Notation "observe" constr(states) :=
  eapply then_observed; [eassumption|done|done|];
  lazymatch goal with Hs : shell_is ?s _ _ _ |- _ => clear Hs; try clear s end;
  intros ? ?; lazymatch goal with Hs : shell_is ?s _ ?b ?g |- _ => change (shell_is s states b g) in Hs end.

Lemma in_workspace_ends request guard identity commit repository root probe prepared s b guards :
  shell_is s (take 2 RUNNING) b guards →
  ends (run_in_workspace (H1 := on_shell) (H2 := ports) supervisors process var_os host_os host_arch between follow request guard identity commit
          repository root probe prepared) s (run_left (λ x, r1_checks (e1_receipt x.1)) guards).
Proof.
  intros Hs. unfold run_in_workspace.
  stay dry.
  stay [].
  observe (take 3 RUNNING).
  stay started.
  stay id.
  stay environment.
  observe (take 4 RUNNING).
  stay pg. cbv zeta.
  stay [].
  stay completed.
  stay [].
  stay [].
  stay [].
  stay manifest.
  apply ends_bind. eapply ends_impl; [by eapply finalize_ends|]. intros r s2 (b2 & Hs2 & Hset).
  destruct r as [[]|e]; [|eapply left_early; [|eassumption]; lia]. specialize (Hset eq_refl).
  observe (take 5 RUNNING).
  stay [].
  stay finished.
  stay overall.
  stay digest.
  apply ends_bind, ends_lift. destruct (map_err RunReceipt (seal1 _)) as [sealed|e] eqn:Eseal; [|eapply left_early; [|eassumption]; lia].
  apply ends_ret. exists b2. split; [done|]. apply map_err_ok in Eseal. unfold seal1 in Eseal.
  apply bind_ok in Eseal as ([] & _ & Eseal). by apply bind_ok in Eseal as (i & _ & <-%ok_inj).
Qed.

Lemma finally_ends {A} (m : io M RunError A) clean checks s guards :
  preserves shell_of clean → ends m s (run_left checks guards) → ends (finally m clean) s (run_left checks guards).
Proof.
  intros Hc Hm. unfold finally. apply ends_bind, ends_attempt. eapply ends_impl; [exact Hm|]. intros r s1 Hl.
  apply ends_bind, ends_attempt. intros r2 s2 Hr2%Hc. apply ends_lift. destruct r as [x|e]; cbn in Hl |- *.
  - destruct Hl as (b & Hs & Hb). exists b. split; [by eapply same_shell|done].
  - destruct Hl as (states & b & Hu & Hs). exists states, b. split; [done|by eapply same_shell].
Qed.

Lemma receipt_ends request given s b guards :
  shell_is s (take 2 RUNNING) b guards →
  ends (execute_local_receipt_and_artifacts (H1 := on_shell) (H2 := ports) supervisors view process var_os host_os host_arch between follow
          request (Some given)) s (run_left (λ x, r1_checks (e1_receipt x.1.1)) guards).
Proof.
  intros Hs. unfold execute_local_receipt_and_artifacts.
  stay []. stay []. stay repository. stay []. stay preflight. stay commit. stay guard. stay probe. stay []. stay prepared.
  apply ends_bind. eapply ends_impl; [eapply finally_ends; [preserve|by eapply in_workspace_ends]|].
  intros [[receipt artifacts]|e] s2 Hl; [|exact Hl]. by apply ends_ret.
Qed.

Lemma local_run_ends request preflight s b guards :
  shell_is s (take 2 RUNNING) b guards →
  ends (local_run runtime supervise view process var_os host_os host_arch between follow run_id request preflight) s
    (run_left (λ outcome, r1_checks (e1_receipt (uo_receipt outcome))) guards).
Proof.
  intros Hs. unfold local_run, execute_local_run. apply ends_bind. eapply ends_impl; [by eapply receipt_ends|].
  intros [[[receipt artifacts] capabilities]|e] s2 Hl; [|exact Hl]. destruct Hl as (b2 & Hs2 & Hset). cbn in Hset.
  change (shell_is s2 (take 5 RUNNING) b2 guards) in Hs2. clear dependent s. rename Hs2 into Hs.
  stay v2. stay published. stay p. apply ends_ret. exists b2. by split.
Qed.

(** * From the admission to the end *)

Definition ended_badly (states : list RunJournalStateV1) : Prop :=
  ∃ before, (before = [Created] ∨ under_way before) ∧ (states = before ++ [RunJournal.Failed] ∨ states = before ++ [CleanupPending]).

Lemma release_ends guard s states b guards :
  shell_is s states b (guard :: guards) → ends (release_slot guard) s (λ _ s', shell_is s' states b guards).
Proof.
  intros (Hh & Hb & Hg). unfold release_slot. apply ends_bind. intros r s' [= <- <-]. apply ends_try_call.
  unfold shell_is. cbn [cp_release framed_commands]. rewrite framed_shell. cbn. rewrite Hg. by split_and!.
Qed.

Lemma under_way_last states : under_way states → ∃ p, last states = Some p ∧
  match p with CleanupPending | RunJournal.Failed | Sealed => False | _ => True end.
Proof. intros (n & Hn & ->). do 2 (destruct n as [|n]; [lia|]). do 4 (destruct n as [|n]; [by eexists|]). lia. Qed.
(** What the end of a run is recorded as. *)
Lemma event_ends event s states b guards :
  states = [Created] ∨ under_way states → (states = [Created] → event ≠ ReleaseFailure) → shell_is s states b guards →
  ends (journal_event run_id event) s (λ r s', r = Ok () ∧ ∃ states', ended_badly states' ∧ shell_is s' states' b guards).
Proof.
  intros Hst Hne Hs. assert (∃ p, last states = Some p ∧ match p with CleanupPending | RunJournal.Failed | Sealed => False | _ => True end) as (p & Hp & Hlive).
  { destruct Hst as [->|Hu]; [by exists Created|by apply under_way_last]. }
  assert (Hc : p = Created → states = [Created]).
  { intros ->. destruct Hst as [?|(n & Hn & ->)]; [done|]. do 2 (destruct n as [|n]; [lia|]). do 4 (destruct n as [|n]; [done|]). lia. }
  destruct event as [kind| |]; cbn [journal_event].
  - eapply ends_impl; [apply meets_ends; eapply transition_state_meets; [exact Hs|exact Hp|by destruct p]|]. intros r s' [-> Hs'].
    split; [done|]. eexists. split; [|exact Hs']. exists states. auto.
  - eapply ends_impl; [apply meets_ends; eapply transition_state_meets; [exact Hs|exact Hp|]|].
    { destruct p; try done. by destruct (Hne (Hc eq_refl)). }
    intros r s' [-> Hs']. split; [done|]. eexists. split; [|exact Hs']. exists states. auto.
  - eapply ends_impl; [apply meets_ends; eapply pending_meets; [exact Hs|exact Hp|done]|]. intros r s' [-> Hs'].
    split; [done|]. eexists. split; [|exact Hs']. exists states. auto.
Qed.

(** What a step leaves after which the run goes on. *)
Definition closed {A} (states : list RunJournalStateV1) (guards guards' : list AdmissionGuard) (r : result CliError A) (s : M) : Prop :=
  match r with
  | Ok _ => ∃ b, shell_is s states b guards'
  | Err _ => ∃ states' b, ended_badly states' ∧ shell_is s states' b guards
  end.

Lemma terminal_ends {T} (P : T → Prop) primary (complete : _ → io M CliError T) guard s guards :
  ends (complete primary) s (λ r s', ∃ states b, under_way states ∧ shell_is s' states b (guard :: guards) ∧ (∀ x, r = Ok x → states = RUNNING ∧ P x)) →
  ends (finalize_run_terminal primary complete (release_slot guard) (journal_event run_id)) s
    (λ r s', closed RUNNING guards guards r s' ∧ ∀ x, r = Ok x → P x).
Proof.
  intros Hc. unfold finalize_run_terminal, finalize_owned_terminal. apply ends_bind, ends_bind, ends_attempt.
  eapply ends_impl; [exact Hc|]. clear Hc. intros r s1 (states & b & Hu & Hs & Hrun). apply ends_bind, ends_attempt.
  eapply ends_impl; [by eapply release_ends|]. intros rr s2 Hs2. apply ends_ret.
  assert (G : ∀ event (e : CliError), ends (_ ← journal_event run_id event; io_lift (Err e) : io M CliError T) s2
    (λ r s', closed RUNNING guards guards r s' ∧ ∀ x, r = Ok x → P x)).
  { intros event e. apply ends_bind. eapply ends_impl; [eapply event_ends; [by right| |exact Hs2]|].
    { intros ->. destruct Hu as (n & Hn & Hu). by do 2 (destruct n as [|n]; [lia|]). }
    intros r' s' (-> & states' & Hbad & Hs'). apply ends_lift. split; [by exists states', b|done]. }
  destruct rr as [[]|e]; [destruct r as [x|e]|]; cbn [map_err]; [|apply G..]. apply ends_ret. destruct (Hrun x eq_refl) as [-> HP].
  split; [by exists b|]. by intros ? [= <-].
Qed.

Lemma or_fail_ends {E A} kind (f : E → CliError) (m : io M E A) s b guards (P : A → M → Prop) :
  ends m s (λ r s', match r with Ok x => P x s' | Err _ => shell_is s' [Created] b guards end) →
  ends (or_fail run_id kind f m) s (λ r s', match r with
    | Ok x => P x s'
    | Err _ => ∃ states' b, ended_badly states' ∧ shell_is s' states' b guards
    end).
Proof.
  intros Hm. unfold or_fail. apply ends_bind, ends_attempt. eapply ends_impl; [exact Hm|]. intros r s1 Hs1.
  destruct r as [x|e]; [by apply ends_ret|]. apply ends_bind.
  eapply ends_impl; [eapply (event_ends (PrimaryFailure kind)); [by left|done|exact Hs1]|]. intros r s' (-> & states' & Hbad & Hs').
  apply ends_lift. by exists states', b.
Qed.

Lemma or_release_ends {A} guard (m : io M CliError A) s b guards :
  preserves shell_of m → shell_is s (take 2 RUNNING) b (guard :: guards) →
  ends (or_release run_id guard m) s (closed (take 2 RUNNING) guards (guard :: guards)).
Proof.
  intros Hm Hs. unfold or_release. apply ends_bind, ends_attempt. intros r s1 Hr%Hm. assert (Hs1 : shell_is s1 (take 2 RUNNING) b (guard :: guards)) by by eapply same_shell.
  destruct r as [x|e]; [apply ends_ret; by exists b|]. eapply ends_impl; [eapply (terminal_ends (λ _, False) (Err e) io_lift)|].
  - apply ends_lift. exists (take 2 RUNNING), b. split; [exists 2%nat; split; [lia|done]|]. split; [exact Hs1|]. intros x [=].
  - intros [x|e'] s' [Hcl HP]; [by destruct (HP x)|exact Hcl].
Qed.

(** A run that was not recorded as ended: the coordinator of the admission was not
    there. *)
Definition left_created (states : list RunJournalStateV1) (e : CliError) : Prop := states = [Created] ∧ ∃ e', e = CliAdmission e'.
Definition accounted {A} (states : list RunJournalStateV1) (guards guards' : list AdmissionGuard) (r : result CliError A) (s : M) : Prop :=
  match r with
  | Ok _ => ∃ b, shell_is s states b guards'
  | Err e => ∃ states' b, (ended_badly states' ∨ left_created states' e) ∧ shell_is s states' b guards
  end.
Lemma closed_accounted {A} states guards guards' (r : result CliError A) s : closed states guards guards' r s → accounted states guards guards' r s.
Proof. destruct r as [x|e]; [done|]. intros (states' & b & Hbad & Hs). exists states', b. split; [by left|done]. Qed.

Lemma acquire_slot_ends s b guards :
  shell_is s [Created] b guards →
  ends acquire_slot s (λ r s', shell_is s' [Created] b match r with Ok guard => guard :: guards | Err _ => guards end).
Proof.
  intros Hs. unfold acquire_slot. apply ends_bind, ends_try_call. cbn [cp_acquire framed_commands].
  assert (Hs1 : shell_is (framed cp_acquire s).2 [Created] b guards) by (by eapply same_shell; [apply framed_shell|]).
  destruct (framed cp_acquire s) as [[guard|e] s1]; [|exact Hs1]. cbn [fst snd] in *.
  apply ends_bind. intros r s' [= <- <-]. apply ends_bind. intros r s2 [= <- <-]. apply ends_ret. destruct Hs1 as (? & ? & Hg).
  unfold shell_is. cbn. rewrite Hg. by split_and!.
Qed.

Lemma admit_run_ends s b guards :
  shell_is s [Created] b guards →
  ends (admit_run run_id) s (λ r s', accounted (take 2 RUNNING) guards (match r with Ok guard => guard :: guards | Err _ => [] end) r s').
Proof.
  intros Hs. unfold admit_run. apply ends_bind, ends_map_err, ends_try_call. cbn [cp_coordinator framed_commands].
  assert (Hs1 : shell_is (framed cp_coordinator s).2 [Created] b guards) by (by eapply same_shell; [apply framed_shell|]).
  destruct (framed cp_coordinator s) as [[[]|e] s1]; cbn [fst snd map_err] in *.
  2: { exists [Created], b. split; [right; split; [done|by exists e]|exact Hs1]. }
  unfold acquire_admission_with_journal. apply ends_bind. eapply ends_impl; [eapply or_fail_ends|].
  { eapply ends_impl; [by apply acquire_slot_ends|]. intros [guard|e] s2 Hs2; [|exact Hs2].
    exact (Hs2 : (λ guard s2, shell_is s2 [Created] b (guard :: guards)) guard s2). }
  intros [guard|e] s2 Hs2; [|by eapply (closed_accounted _ _ _ (Err e))]. apply ends_bind, ends_attempt.
  eapply ends_impl; [apply meets_ends; eapply transition_state_meets; [exact Hs2|done|done]|]. intros r s3 [-> Hs3]. apply ends_ret. by exists b.
Qed.

Lemma run_with_slot_ends request preflight guard s b guards :
  shell_is s (take 2 RUNNING) b (guard :: guards) →
  ends (run_with_slot runtime supervise view process var_os host_os host_arch between follow macos run_id request preflight guard) s
    (λ r s', closed RUNNING guards guards r s' ∧ ∀ outcome, r = Ok outcome →
       ∃ s1 s2, local_run runtime supervise view process var_os host_os host_arch between follow run_id request preflight s1 = Some (Ok outcome, s2)).
Proof.
  intros Hs. unfold run_with_slot, finish_run. apply ends_bind. eapply ends_impl; [eapply or_release_ends; [preserve|exact Hs]|].
  intros [baseline|e] s1 Hs1; [|by split]. clear dependent s. destruct Hs1 as [b1 Hs]. rename s1 into s.
  apply ends_bind. eapply ends_impl; [eapply or_release_ends; [preserve|exact Hs]|].
  intros [watchdog|e] s1 Hs1; [|by split]. clear dependent s. destruct Hs1 as [b2 Hs]. rename s1 into s.
  apply ends_bind. intros r s' [= <- <-].
  assert (Hs' : shell_is (within (set_barrier (barrier_new watchdog) (shell_of s)) (rest_of s)) (take 2 RUNNING) (barrier_new watchdog) (guard :: guards)).
  { destruct Hs as (? & _ & ?). by split_and!. }
  apply ends_bind, ends_attempt, ends_map_err. set (s0 := within _ _) in *. intros r s1 Hr. pose proof (local_run_ends _ preflight _ _ _ Hs' _ _ Hr) as Hl.
  apply terminal_ends. apply ends_bind. destruct r as [outcome|e]; cbn [map_err run_left] in *.
  - destruct Hl as (b3 & Hs1 & Hset). eapply ends_impl; [by eapply join_ends|]. intros r s2 (-> & b4 & Hs2 & _ & Hb). rewrite (Hb (proj1 Hset)) in Hs2.
    unfold barrier_reconcile. apply ends_bind. intros r s3 [= <- <-]. destruct (settled_reconciles _ _ Hset) as [b5 Hrec]. 
    pose proof Hs2 as (Hh & -> & Hg). rewrite Hrec. apply ends_bind. intros r s4 [= <- <-]. apply ends_lift. exists RUNNING, b5.
    split; [exists 5%nat; split; [lia|done]|]. split; [by split_and!|]. intros x [= <-]. split; [done|by exists s0, s1].
  - destruct Hl as (states & b3 & Hu & Hs1). eapply ends_impl; [by eapply join_ends|]. intros r s2 (-> & b4 & Hs2 & _ & _).
    unfold barrier_reconcile. apply ends_bind. intros r s3 [= <- <-]. destruct (reconcile_watchdog_outcome _ _) as [rec b5] eqn:Erec.
    apply ends_bind. intros r s4 [= <- <-]. apply ends_lift. exists states, b5. split; [done|].
    split; [destruct Hs2 as (? & ? & ?); by split_and!|]. intros x ->. exfalso. unfold reconcile_watchdog_outcome, take_join_error in Erec.
    destruct (wb_join_error _); [done|]. cbn in Erec. destruct (wb_trip _) as [[]|]; done.
Qed.

(** * The snapshot of the run *)

Abbreviation paths := (λ t, hv_paths (view t)).
Lemma materialize_count guard identity repository commit resource s snapshot s' :
  materialize (supervisor := supervisors guard) (blobs := framed_blobs (blobs guard)) (T := FileSystem.World) (U := Shell * V) paths var_os identity
    RunToken repository commit resource s = Some (Ok snapshot, s') → u64 (sv_entry_count (sn_evidence snapshot)).
Proof.
  unfold materialize. intros Hr. apply bind_run in Hr as (r & s1 & _ & Hr). apply bind_run in Hr as ([] & s2 & _ & Hr).
  apply bind_run in Hr as ([] & s3 & _ & Hr). apply bind_run in Hr as ([] & s4 & _ & Hr). cbv zeta in Hr.
  apply bind_run in Hr as ([[]|] & s5 & _ & Hr); [|by apply bind_run in Hr as (? & ? & _ & Hr); apply lift_run in Hr as [? _]].
  apply bind_run in Hr as ([[manifest evidence]|] & s6 & Ht%attempt_run & Hr).
  2: { by apply bind_run in Hr as (? & ? & _ & Hr); apply lift_run in Hr as [? _]. }
  apply ret_run in Hr as [<- _]. cbn. unfold materialize_tree in Ht. apply bind_run in Ht as (tree & s7 & _ & Ht).
  apply bind_run in Ht as (entries & s8 & _ & Ht). apply bind_run in Ht as ([] & s9 & _ & Ht). cbv zeta in Ht.
  apply bind_run in Ht as (digest & s10 & _ & Ht). apply bind_run in Ht as (count & s11 & Hc & Ht).
  apply lift_run in Hc as [Hc%ok_or_ok _]. apply bind_run in Ht as (content & s12 & _ & Ht). apply bind_run in Ht as ([] & s13 & _ & Ht).
  apply ret_run in Ht as [[= _ <-] _]. cbn. by apply checked_u64_some in Hc as [-> ?].
Qed.
Lemma overlay_evidence envelope snapshot s snapshot' s' :
  prepare_mount_overlay (T := FileSystem.World) (U := Shell * V) envelope snapshot s = Some (Ok snapshot', s') → sn_evidence snapshot' = sn_evidence snapshot.
Proof.
  unfold prepare_mount_overlay. intros Hr. apply bind_run in Hr as ([] & s1 & _ & Hr). revert Hr.
  apply (fold_run _ (λ _ snapshot' _, sn_evidence snapshot' = sn_evidence snapshot)); [done|].
  intros _ check _ b s2 b' s3 _ Hb. apply (fold_run _ (λ _ snapshot' _, sn_evidence snapshot' = sn_evidence snapshot)); [done|].
  intros _ artifact _ c s4 c' s5 _ Hc Hr. unfold overlay_artifact in Hr. cbv zeta in Hr. apply bind_run in Hr as ([] & s6 & _ & Hr).
  { by apply ret_run in Hr as [<- _]. }
  destruct (artifact_kind_for check artifact).
  - apply bind_run in Hr as (parent & s7 & _ & Hr). apply bind_run in Hr as ([] & s8 & _ & Hr). apply bind_run in Hr as ([] & s9 & _ & Hr).
    by apply ret_run in Hr as [<- _].
  - apply bind_run in Hr as ([] & s8 & _ & Hr). by apply ret_run in Hr as [<- _].
Qed.

Lemma extended_history store store' states : history_is store states → store_extended store store' run_id → history_is store' states.
Proof.
  intros (Hok & Hid & es & Hr & Hs) Hc. pose proof Hc as [_ Hk]. split; [by eapply store_change_ok, extended_change|]. split; [done|]. exists es. by split; [apply Hk|].
Qed.
Lemma on_journal_ends op s states b guards :
  shell_is s states b guards → (∀ store, op (sh_journal (shell_of s)) = Ok store → history_is store states) →
  ends (on_journal op) s (λ _ s', shell_is s' states b guards).
Proof.
  intros Hs Hop. unfold on_journal. apply ends_bind. intros r s' [= <- <-]. apply ends_bind, ends_lift.
  destruct (op _) as [store|e] eqn:E1; [|exact Hs]. intros r s2 [= <- <-]. destruct Hs as (? & ? & ?). split_and!; [by apply Hop|done..].
Qed.

(** The outcome is that of the run, when there is one. *)
Definition comes_from_run (preflight : RuntimePreflight) (outcome : RunOutcome) : Prop :=
  ∃ request s1 s2, local_run runtime supervise view process var_os host_os host_arch between follow run_id request preflight s1
    = Some (Ok outcome, s2).

Lemma run_on_snapshot_ends request preflight commit snapshot s b guards :
  u64 (sv_entry_count (sn_evidence snapshot)) → shell_is s [Created] b guards →
  ends (run_on_snapshot runtime supervise view process var_os host_os host_arch between follow macos run_id request preflight commit snapshot) s
    (λ r s', accounted RUNNING guards guards r s' ∧ ∀ outcome, r = Ok outcome → comes_from_run preflight outcome).
Proof.
  intros Hu Hs. unfold run_on_snapshot, remove_snapshot. apply ends_bind.
  eapply ends_impl; [apply (or_fail_ends _ _ _ _ b guards (λ snapshot' s1, u64 (sv_entry_count (sn_evidence snapshot')) ∧ shell_is s1 [Created] b guards))|].
  { assert (Hp : preserves shell_of (prepare_mount_overlay (T := FileSystem.World) (U := Shell * V) (ru_envelope request) snapshot)) by preserve.
    intros r s1 Hr. assert (Hs1 : shell_is s1 [Created] b guards) by (by eapply same_shell; [eapply Hp|]).
    destruct r as [snapshot'|e]; [|exact Hs1]. apply overlay_evidence in Hr. by rewrite Hr. }
  intros [snapshot'|e] s1 Hs1; [|by split; [apply (closed_accounted _ _ _ (Err e))|]]. clear dependent s snapshot. destruct Hs1 as [Hu Hs].
  apply ends_bind. eapply ends_impl; [apply (or_fail_ends _ _ _ _ b guards (λ _ s2, shell_is s2 [Created] b guards))|].
  { eapply ends_impl; [apply on_journal_ends; [exact Hs|]|by intros [] ?].
    intros store (binding & Hb)%bind_ok. destruct binding as [binding store']. destruct Hb as [Hb [= ->]].
    eapply extended_history; [apply Hs|]. eapply bind_source_extended; [apply Hs|exact Hu|exact Hb]. }
  intros [[]|e] s2 Hs2; [|by split; [apply (closed_accounted _ _ _ (Err e))|]]. apply ends_bind. eapply ends_impl; [by eapply admit_run_ends|].
  intros [guard|e] s3 Hs3; [|by split]. clear dependent s1 s2. destruct Hs3 as [b3 Hs]. rename s3 into s.
  apply ends_bind. eapply ends_impl; [by eapply run_with_slot_ends|]. intros [outcome|e] s1 [Hs1 Ho]; [|by split; [apply (closed_accounted _ _ _ (Err e))|]].
  destruct Hs1 as [b4 Hs1]. apply ends_bind, ends_attempt. clear dependent s. rename s1 into s, Hs1 into Hs.
  eapply stay_last; [preserve|exact Hs|]. clear dependent s. intros [cleaned|e] s Hs.
  - apply ends_ret. split; [by exists b4|]. intros x [= <-]. destruct (Ho outcome eq_refl) as (s1 & s2 & Hrun). by eexists _, s1, s2.
  - apply ends_bind. eapply ends_impl; [apply meets_ends; eapply transition_state_meets; [exact Hs|done|done]|]. intros r s1 [-> Hs1].
    apply ends_lift. split; [|done]. exists (RUNNING ++ [CleanupPending]), b4. split; [|exact Hs1]. left. exists RUNNING.
    split; [right; exists 5%nat; split; [lia|done]|by right].
Qed.

Lemma replace_new identity identity' : replace identity (guard_new identity') = Ok (guard_new identity).
Proof. done. Qed.

(** The journal of a run that is not there yet. *)
Lemma journaled_run_ends request preflight s :
  store_ok (sh_journal (shell_of s)) → sh_guards (shell_of s) = [] →
  ends (journaled_run runtime supervise blobs view process var_os host_os host_arch between follow macos run_id request preflight) s
    (λ r s', (accounted (RUNNING ++ [Sealed]) [] [] r s' ∧ ∀ outcome, r = Ok outcome → comes_from_run preflight outcome) ∨
       is_ok r = false ∧ shell_of s' = shell_of s).
Proof.
  intros Hok Hg. unfold journaled_run. apply ends_bind, ends_map_err.
  intros r s1 Hr. apply now_shell in Hr. destruct r as [t|e]; [|by right]. cbn [map_err]. apply ends_bind, ends_map_err.
  unfold on_journal at 1. apply ends_bind. intros r s2 [= <- <-]. apply ends_bind, ends_lift.
  destruct (written _) as [store|e] eqn:Ec; [|by right]. intros r s2 [= <- <-]. cbn [map_err].
  apply bind_ok in Ec as ([entry store'] & Ec & [= ->]). rewrite Hr in Ec.
  destruct (create_run_updated _ _ _ _ _ Hok Ec) as (Hu & _ & Hread & Hst).
  set (s2 := within _ _). assert (Hs : shell_is s2 [Created] (sh_barrier (shell_of s1)) []).
  { split_and!; [|done|by rewrite <-Hg, <-Hr]. split; [apply (store_change_ok (sh_journal (shell_of s))); [done|right; exists run_id; by left]|].
    split; [apply Hu|]. exists [entry]. split; [exact Hread|]. cbn. by rewrite Hst. }
  clearbody s2. eapply ends_impl; [|intros r s' G; left; exact G]. set (b := sh_barrier _) in Hs. clearbody b. clear dependent s s1 store.
  rename s2 into s. cbv zeta.
  apply ends_bind. eapply ends_impl; [apply (or_fail_ends _ _ _ _ b [] (λ _ s, shell_is s [Created] b []))|].
  { eapply stay_last; [preserve|exact Hs|by intros []]. }
  intros [commit|e] s1 Hs1; [|by split; [apply (closed_accounted _ _ _ (Err e))|]]. clear dependent s. rename s1 into s.
  apply ends_bind, ends_lift. rewrite replace_new. cbn [map_err].
  apply ends_bind. eapply ends_impl; [apply (or_fail_ends _ _ _ _ b [] (λ _ s, shell_is s [Created] b []))|].
  { eapply ends_impl; [apply on_journal_ends; [exact Hs1|]|by intros [] ?].
    intros store Hstore. eapply extended_history; [apply Hs1|]. by eapply reserve_resource_extended; [apply Hs1|]. }
  intros [[]|e] s2 Hs2; [|by split; [apply (closed_accounted _ _ _ (Err e))|]]. clear dependent s. rename s2 into s.
  apply ends_bind. eapply ends_impl; [apply (or_fail_ends _ _ _ _ b [] (λ snapshot s, u64 (sv_entry_count (sn_evidence snapshot)) ∧ shell_is s [Created] b []))|].
  { match goal with |- ends ?m _ _ => assert (Hp : preserves shell_of m) by preserve end. intros r s1 Hr.
    assert (Hs1 : shell_is s1 [Created] b []) by (by eapply same_shell; [eapply Hp|]).
    destruct r as [snapshot|e]; [|exact Hs1]. by apply materialize_count in Hr. }
  intros [snapshot|e] s1 Hs1; [|by split; [apply (closed_accounted _ _ _ (Err e))|]]. clear dependent s. destruct Hs1 as [Hu Hs]. rename s1 into s.
  apply ends_bind. unfold holding. apply ends_bind, ends_attempt. eapply ends_impl; [by apply (run_on_snapshot_ends request preflight commit snapshot s b [])|].
  intros [outcome|e] s1 [Hs1 Ho].
  - apply ends_ret. destruct Hs1 as [b1 Hs1]. apply ends_bind, ends_map_err.
    eapply ends_impl; [apply meets_ends; eapply observer_meets; [exact Hs1|done|done]|]. intros r s2 [-> Hs2]. apply ends_ret. by split; [exists b1|].
  - apply ends_bind, ends_attempt. destruct Hs1 as (states & b1 & Hend & Hs1). eapply stay_last; [preserve|exact Hs1|]. intros _ s2 Hs2.
    apply ends_lift. split; [by exists states, b1|done].
Qed.

(** The end of a run whose outcome is published. *)
Lemma fate_meets outcome guard s b guards :
  shell_is s RUNNING b (guard :: guards) → settled b (r1_checks (e1_receipt (uo_receipt outcome))) →
  meets (finish_run run_id guard (Ok outcome)) s (λ r s', ∃ s0 b', let released := (cp_release (CommandPorts := framed_commands _) guard s0).1 in
    r = match released with Ok () => Ok outcome | Err e => Err (CliAdmission e) end ∧
    shell_is s' (RUNNING ++ match released with Ok () => [] | Err _ => [CleanupPending] end) b' guards).
Proof.
  intros (Hh & Hb & Hg) Hset. destruct (settled_reconciles _ _ Hset) as [b' Hrec].
  unfold finish_run, finalize_run_terminal, finalize_owned_terminal. apply meets_bind, meets_bind, meets_attempt, meets_bind.
  unfold barrier_join, get_shell. apply meets_bind. do 2 eexists. split; [done|]. rewrite Hb. unfold join_once. rewrite (proj1 Hset).
  apply meets_bind, meets_ret. do 2 eexists. split; [done|]. cbv beta iota. unfold barrier_reconcile, get_shell.
  apply meets_bind. do 2 eexists. split; [done|]. cbv beta iota. rewrite shell_within. cbn [set_barrier sh_barrier]. rewrite Hrec.
  apply meets_bind. do 2 eexists. split; [done|]. cbv beta iota. apply meets_lift. apply meets_bind, meets_attempt. unfold release_slot.
  set (s1 := within _ _). apply meets_bind. do 2 eexists. split; [done|]. cbv beta iota. apply meets_try_call. set (s2 := within _ _).
  assert (Hs : shell_is (cp_release (CommandPorts := framed_commands _) guard s2).2 RUNNING b' guards).
  { eapply (same_shell s2); [apply framed_shell|]. unfold shell_is. subst s2. cbn. by rewrite Hg. }
  apply meets_ret. destruct (cp_release guard s2) as [[[]|e] s3] eqn:Er; cbn [fst snd map_err] in *.
  - apply meets_ret. exists s2, b'. rewrite Er. by split.
  - apply meets_bind. eapply meets_impl; [eapply transition_state_meets; [exact Hs|done|done]|]. intros r s4 [-> Hs4]. apply meets_lift.
    exists s2, b'. rewrite Er. by split.
Qed.

(** What is left of [journaled_run] once the run has given its outcome. *)
Definition rest_of_run (guard : AdmissionGuard) (snapshot : SourceSnapshot) (outcome : RunOutcome) : io M CliError RunOutcome :=
  outcome ← holding snapshot (outcome ← finish_run run_id guard (Ok outcome); remove_snapshot run_id snapshot outcome);
  _ ← io_map_err CliRun (observer_transition run_id PhaseSealed);
  mret outcome.

Lemma remove_snapshot_ends snapshot outcome s b guards :
  shell_is s RUNNING b guards →
  ends (remove_snapshot run_id snapshot outcome) s (λ r s', ∃ cleaned s3,
    cleanup (T := FileSystem.World) (U := Shell * V) snapshot s = Some (cleaned, s3) ∧
    match cleaned with
    | Ok _ => r = Ok outcome ∧ shell_is s' RUNNING b guards
    | Err e => r = Err (source_error e) ∧ shell_is s' (RUNNING ++ [CleanupPending]) b guards
    end).
Proof.
  intros Hs. unfold remove_snapshot. apply ends_bind, ends_attempt. intros cleaned s3 Hc.
  assert (Hs3 : shell_is s3 RUNNING b guards).
  { refine (stay_last (cleanup (T := FileSystem.World) (U := Shell * V) snapshot) s RUNNING b guards (λ _ s3, shell_is s3 RUNNING b guards) _ Hs _ _ _ Hc);
      [preserve|done]. }
  destruct cleaned as [cleaned|e]; [by apply ends_ret; exists (Ok cleaned), s3|].
  apply ends_bind. eapply ends_impl; [apply meets_ends; eapply transition_state_meets; [exact Hs3|done|done]|].
  intros r s4 [-> Hs4]. apply ends_lift. by exists (Err e), s3.
Qed.

Lemma rest_of_run_ends guard snapshot outcome released s s2 b guards :
  finish_run run_id guard (Ok outcome) s = Some (match released with Ok () => Ok outcome | Err e => Err (CliAdmission e) end, s2) →
  shell_is s2 (RUNNING ++ match released with Ok () => [] | Err _ => [CleanupPending] end) b guards →
  ends (rest_of_run guard snapshot outcome) s (λ r s',
    match released with
    | Err e => r = Err (CliAdmission e) ∧ shell_is s' (RUNNING ++ [CleanupPending]) b guards
    | Ok () => ∃ cleaned s3, cleanup (T := FileSystem.World) (U := Shell * V) snapshot s2 = Some (cleaned, s3) ∧
      match cleaned with
      | Ok _ => r = Ok outcome ∧ shell_is s' (RUNNING ++ [Sealed]) b guards
      | Err e => r = Err (source_error e) ∧ shell_is s' (RUNNING ++ [CleanupPending]) b guards
      end
    end).
Proof.
  intros Hf Hs. unfold rest_of_run, holding. apply ends_bind, ends_bind, ends_attempt, ends_bind.
  intros r s' Hr. rewrite Hf in Hr. injection Hr as <- <-. destruct released as [[]|e].
  2: { apply ends_bind, ends_attempt. eapply stay_last; [preserve|exact Hs|]. intros _ s2' Hs2'. by apply ends_lift. }
  rewrite app_nil_r in Hs. eapply ends_impl; [by apply remove_snapshot_ends|]. intros r s4 (cleaned & s3 & Hc & Hr).
  destruct cleaned as [cleaned|e]; destruct Hr as [-> Hs4].
  - apply ends_ret, ends_bind, ends_map_err. eapply ends_impl; [apply meets_ends; eapply observer_meets; [exact Hs4|done|done]|].
    intros r s5 [-> Hs5]. apply ends_ret. by exists (Ok cleaned), s3.
  - apply ends_bind, ends_attempt. eapply stay_last; [preserve|exact Hs4|]. intros _ s5 Hs5. apply ends_lift. by exists (Err e), s3.
Qed.

(** When the slot is released and the snapshot removed, the run is sealed. *)
Lemma rest_of_run_seals guard snapshot outcome cleaned s s2 s3 b guards :
  finish_run run_id guard (Ok outcome) s = Some (Ok outcome, s2) → shell_is s2 RUNNING b guards →
  cleanup (T := FileSystem.World) (U := Shell * V) snapshot s2 = Some (Ok cleaned, s3) →
  meets (rest_of_run guard snapshot outcome) s (λ r s', r = Ok outcome ∧ shell_is s' (RUNNING ++ [Sealed]) b guards).
Proof.
  intros Hf Hs Hc. assert (Hs3 : shell_is s3 RUNNING b guards).
  { refine (stay_last (cleanup (T := FileSystem.World) (U := Shell * V) snapshot) s2 RUNNING b guards (λ _ s3, shell_is s3 RUNNING b guards) _ Hs _ _ _ Hc);
      [preserve|done]. }
  unfold rest_of_run, holding. apply meets_bind, meets_bind, meets_attempt, meets_bind. do 2 eexists. split; [exact Hf|].
  unfold remove_snapshot. apply meets_bind, meets_attempt. do 2 eexists. split; [exact Hc|]. apply meets_ret, meets_ret, meets_bind, meets_map_err.
  eapply meets_impl; [eapply observer_meets; [exact Hs3|done|done]|]. intros r s4 [-> Hs4]. by apply meets_ret.
Qed.

Lemma journal_id_valid plan_digest generation unix_nanos process_id sequence id :
  new_journal_id plan_digest generation unix_nanos process_id sequence = Ok id → validate_run_id id = Ok ().
Proof.
  unfold new_journal_id. intros Hr. apply bind_ok in Hr as (nanos & _ & Hr). apply bind_ok in Hr as (digest & Hd%map_err_ok & Hr).
  apply canonical_digest_shape in Hd as (hex & Hd & Hlen & Hhex). change "sha256:" with RECEIPT_ID_PREFIX in Hr. rewrite Hd in Hr.
  apply ok_or_ok in Hr. destruct (len hex =? 64) eqn:El; [|done]. injection Hr as <-. unfold validate_run_id. apply ensure_ok. by rewrite El, Hhex.
Qed.
End Run.

(** * The theorems on a local run *)

Section LocalClaims.
Context `{BO : BackendOk, CacheParser, Codec SourceManifestV1, CE : Codec RunJournalEntryV1, CM : Codec RunOwnerMarkerV1, CS : Codec RunJournalSourceV1}
  `{!JournalLaws} {V : Type} (runtime : RuntimePort (machine V)) `{CommandPorts (machine V), LocalPorts V}
  (supervise : GenerationGuard → SupervisorPort (machine V)) (blobs : GenerationGuard → SourceBlobPort (machine V))
  (view : node → HostView) (process : CacheProcess) (var_os : string → option string) (host_os host_arch : string)
  (between : moment → path → node → node) (follow : path → node → result io_kind (list ascii)) (macos : bool).

(** The clock of the journal tells a time that has a date, and entries serialize. *)
Definition clock_works : Prop := ∀ s, ∃ t s', lp_now_utc (V := V) s = Some (Ok t, s') ∧ is_Some (parse_utc_seconds t).
Definition entries_serialize : Prop := ∀ e : RunJournalEntryV1, u64 (je_seq e) → is_Some (to_vec e).
(** What the journal of the machine has of a run. *)
Definition recorded_states (s : machine (Shell * V)) (run_id : string) (states : list RunJournalStateV1) : Prop :=
  ∃ es, read_entries (sh_journal (shell_of s)) run_id = Ok es ∧ je_state <$> es = states.

(** C3.  A run is accounted for in its journal, whichever way it ends, when the clock
    works: with an outcome, its six states are there in their order, the last one
    sealed, and the outcome is one of the run; with an error, either nothing was
    recorded, or the last state is that of a failure or of a cleanup to be done, or
    the run is still at its first state because the admission coordinator could not
    be made.  In every case the process owns no admission guard afterwards. *)
Theorem run_is_accounted (token run_id : string) (request : RunRequest) (preflight : RuntimePreflight) (s : machine (Shell * V))
    (r : result CliError RunOutcome) (s' : machine (Shell * V)) :
  clock_works → entries_serialize → validate_run_id token = Ok () → reachable token (sh_journal (shell_of s)) →
  sh_guards (shell_of s) = [] →
  journaled_run runtime supervise blobs view process var_os host_os host_arch between follow macos run_id request preflight s = Some (r, s') →
  sh_guards (shell_of s') = [] ∧
  match r with
  | Ok outcome =>
    recorded_states s' run_id [Created; RunAdmitted; Prepared; Executing; Finalizing; Sealed] ∧
    ∃ request s1 s2, local_run runtime supervise view process var_os host_os host_arch between follow run_id request preflight s1
      = Some (Ok outcome, s2)
  | Err e =>
    sh_journal (shell_of s') = sh_journal (shell_of s) ∨
    ∃ states, recorded_states s' run_id states ∧
      (last states = Some RunJournal.Failed ∨ last states = Some CleanupPending ∨ (states = [Created] ∧ ∃ e', e = CliAdmission e'))
  end.
Proof.
  intros Hclock Hser Htoken Hreach Hg Hr. pose proof (reachable_ok _ _ Htoken Hreach) as Hok.
  destruct (journaled_run_ends runtime supervise blobs view process var_os host_os host_arch between follow macos run_id Hclock Hser
    request preflight s Hok Hg _ _ Hr) as [[Hacc Ho]|[Hf Hsh]]; [|destruct r; [done|]; rewrite Hsh; by split; [|left]].
  destruct r as [outcome|e]; cbn in Hacc.
  - destruct Hacc as (b & (_ & _ & Hh) & _ & Hg'). split; [done|]. split; [exact Hh|]. by apply Ho.
  - destruct Hacc as (states & b & Hst & (_ & _ & Hh) & _ & Hg'). split; [done|]. right. exists states. split; [exact Hh|].
    destruct Hst as [(before & _ & [->| ->])|[-> He]]; [left; apply last_snoc|right; left; apply last_snoc|by right; right].
Qed.

(** C10.  What becomes of a run that has given its outcome, whose receipt is then
    published, in a journal that had admitted it.  The barrier of the watchdog, asked
    again, lets the outcome pass, and the end of the run is always recorded: when the
    slot cannot be released, a cleanup to be done.  The rest of the command, which
    removes the snapshot and seals the run, gives the outcome, with the sealed state
    last in the journal, exactly when the slot was released and the snapshot was
    removed; otherwise the error of whichever of the two failed first, with a cleanup
    to be done in the journal, although the receipt was published.  The seal does not
    fail, since the clock works and the journal's entries serialize. *)
Theorem published_receipt_fate (token run_id : string) (request : RunRequest) (preflight : RuntimePreflight) (guard : AdmissionGuard)
    (outcome : RunOutcome) (s s1 : machine (Shell * V)) :
  clock_works → entries_serialize → validate_run_id token = Ok () → validate_run_id run_id = Ok () →
  reachable token (sh_journal (shell_of s)) → sh_guards (shell_of s) = [guard] → recorded_states s run_id [Created; RunAdmitted] →
  local_run runtime supervise view process var_os host_os host_arch between follow run_id request preflight s = Some (Ok outcome, s1) →
  ∃ s0 r s2, let released := (cp_release (CommandPorts := framed_commands _) guard s0).1 in
    finish_run run_id guard (Ok outcome) s1 = Some (r, s2) ∧
    r = match released with Ok () => Ok outcome | Err e => Err (CliAdmission e) end ∧
    recorded_states s2 run_id ([Created; RunAdmitted; Prepared; Executing; Finalizing] ++
      match released with Ok () => [] | Err _ => [CleanupPending] end) ∧
    (∀ snapshot r' s3, rest_of_run run_id guard snapshot outcome s1 = Some (r', s3) →
      match released with
      | Err e => r' = Err (CliAdmission e) ∧ recorded_states s3 run_id [Created; RunAdmitted; Prepared; Executing; Finalizing; CleanupPending]
      | Ok () => ∃ cleaned s2', cleanup (T := FileSystem.World) (U := Shell * V) snapshot s2 = Some (cleaned, s2') ∧
        match cleaned with
        | Ok _ => r' = Ok outcome ∧ recorded_states s3 run_id [Created; RunAdmitted; Prepared; Executing; Finalizing; Sealed]
        | Err e => r' = Err (source_error e) ∧
                   recorded_states s3 run_id [Created; RunAdmitted; Prepared; Executing; Finalizing; CleanupPending]
        end
      end) ∧
    ∀ snapshot cleaned s2', released = Ok () → cleanup (T := FileSystem.World) (U := Shell * V) snapshot s2 = Some (Ok cleaned, s2') →
      ∃ s3, rest_of_run run_id guard snapshot outcome s1 = Some (Ok outcome, s3).
Proof.
  intros Hclock Hser Htoken Hid Hreach Hg Hrec Hr.
  assert (Hs : shell_is run_id s (take 2 RUNNING) (sh_barrier (shell_of s)) [guard]).
  { split; [|done]. split; [exact (reachable_ok _ _ Htoken Hreach)|]. by split. }
  destruct (local_run_ends runtime supervise view process var_os host_os host_arch between follow run_id Hclock Hser request preflight _ _ _ Hs _ _ Hr)
    as (b & Hs1 & Hset).
  destruct (fate_meets var_os run_id Hclock Hser outcome guard s1 b [] Hs1 Hset) as (r & s2 & Hf & s0 & b' & Hres & Hs2).
  exists s0, r, s2. split; [exact Hf|]. split; [exact Hres|]. split; [exact (proj2 (proj2 (proj1 Hs2)))|]. split.
  - intros snapshot r' s3 Hrest. subst r.
    pose proof (rest_of_run_ends var_os _ Hclock Hser guard snapshot outcome _ s1 s2 b' [] Hf Hs2 _ _ Hrest) as G. cbv zeta in G.
    destruct (cp_release guard s0).1 as [[]|e]; [|by destruct G as [-> ((_ & _ & ?) & _)]].
    destruct G as ([cleaned|e] & s2' & Hc & -> & (_ & _ & Hh) & _); [by exists (Ok cleaned), s2'|by exists (Err e), s2'].
  - intros snapshot cleaned s2' Hrel Hc. rewrite Hrel in Hres, Hs2. subst r. rewrite app_nil_r in Hs2.
    destruct (rest_of_run_seals var_os _ Hclock Hser guard snapshot outcome cleaned s1 s2 s2' b' [] Hf Hs2 Hc) as (r & s3 & Hrest & -> & _).
    by exists s3.
Qed.

(** A step that keeps the shell, in a run that gave a value. *)
Local Tactic Notation "step" hyp(Hr) "as" simple_intropattern(x) ident(s) ident(E) :=
  let Hx := fresh in apply bind_run in Hr as (x & s & Hx & Hr);
  lazymatch type of Hx with
  | ?m ?s0 = Some (?r, ?s1) =>
    assert (E : shell_of s1 = shell_of s0) by (refine ((_ : preserves shell_of m) _ _ _ Hx); preserve)
  end; clear Hx.

(** C5.  A local run exits with zero only when its receipt passes, was the outcome of a
    run, and its journal is sealed; no admission guard is left. *)
Theorem local_success (first second : nat → node → node) (token : string) (envelope : ExecutionPlanEnvelopeV1) (repository : list component)
    (root : ResolvedCacheRoot) (producer_version : string) (generation sequence : Z) (json : bool) (s s' : machine (Shell * V)) :
  clock_works → entries_serialize → validate_run_id token = Ok () → reachable token (sh_journal (shell_of s)) →
  sh_guards (shell_of s) = [] →
  print_run runtime supervise blobs view process var_os host_os host_arch between follow macos first second envelope repository root
    producer_version generation sequence json s = Some (Ok (), s') →
  sh_guards (shell_of s') = [] ∧
  ∃ run_id request preflight outcome s1 s2,
    recorded_states s' run_id [Created; RunAdmitted; Prepared; Executing; Finalizing; Sealed] ∧
    local_run runtime supervise view process var_os host_os host_arch between follow run_id request preflight s1 = Some (Ok outcome, s2) ∧
    r1_overall_status (e1_receipt (uo_receipt outcome)) = Pass.
Proof.
  intros Hclock Hser Htoken Hreach Hg Hr. pose proof (reachable_ok _ _ Htoken Hreach) as Hok. unfold print_run in Hr.
  step Hr as [] s1 E1. step Hr as host s2 E2. step Hr as cache s3 E3. step Hr as [] s4 E4. step Hr as [] s5 E5. step Hr as [] s6 E6.
  step Hr as preflight s7 E7. step Hr as nanos s8 E8. apply bind_run in Hr as (run_id & s9 & Hid & Hr). apply lift_run in Hid as [Hid ->].
  apply bind_run in Hr as (outcome & s10 & Hj & Hr). step Hr as bytes s11 E11. apply lift_run in Hr as [Hx%ensure_ok ->].
  assert (E : shell_of s8 = shell_of s) by congruence.
  rewrite <-E in Hok, Hg.
  destruct (journaled_run_ends runtime supervise blobs view process var_os host_os host_arch between follow macos run_id Hclock Hser
    _ _ _ Hok Hg _ _ Hj) as [[Hacc Ho]|[Hf _]]; [|done].
  destruct Hacc as (b & (_ & _ & Hh) & _ & Hg'). destruct (Ho outcome eq_refl) as (request & s12 & s13 & Hrun).
  rewrite E11. split; [done|]. exists run_id, request, preflight, outcome, s12, s13. split_and!; [unfold recorded_states; by rewrite E11|done|].
  apply Z.eqb_eq in Hx. unfold outcome_exit_code in Hx. by destruct (r1_overall_status _).
Qed.
End LocalClaims.

(** * The theorem on a matrix run *)

(** C16.  A matrix run seals its receipt and writes it only after everything it held is
    given back: a run that gives an outcome was valid, admitted and executed, its slot
    was released and its snapshot removed, and after that its receipt was sealed and
    written, each step from the state that the one before left.  When the release
    fails nothing follows but the record of that, and when the removal fails nothing
    at all: there is no receipt. *)
Theorem matrix_seals_last {S T Sealed O G} (ports : MatrixTerminalLifecyclePorts (S := S) T Sealed O G) (s s' : S) :
  (∀ outcome, orchestrate_matrix_terminal_lifecycle ports s = Some (Ok outcome, s') →
     ∃ s1 s2 s3 s4 s5 s6 s7 guard executed material sealed,
       mt_validate_before_admission ports s = Some (Ok (), s1) ∧ mt_acquire ports s1 = Some (Ok guard, s2) ∧
       mt_execute ports s2 = Some (executed, s3) ∧ mt_complete ports executed s3 = Some (Ok material, s4) ∧
       mt_release ports guard s4 = Some (Ok (), s5) ∧ mt_cleanup_snapshot ports s5 = Some (Ok (), s6) ∧
       mt_seal ports material s6 = Some (Ok sealed, s7) ∧ mt_write ports sealed s7 = Some (Ok outcome, s')) ∧
  ∀ s1 s2 s3 s4 s5 guard executed completed released,
    mt_validate_before_admission ports s = Some (Ok (), s1) → mt_acquire ports s1 = Some (Ok guard, s2) →
    mt_execute ports s2 = Some (executed, s3) → mt_complete ports executed s3 = Some (completed, s4) →
    mt_release ports guard s4 = Some (released, s5) →
    (∀ e, released = Err e →
       orchestrate_matrix_terminal_lifecycle ports s = (_ ← mt_journal ports ReleaseFailure; io_lift (Err (CliAdmission e))) s5) ∧
    (∀ material e s6, released = Ok () → completed = Ok material → mt_cleanup_snapshot ports s5 = Some (Err e, s6) →
       orchestrate_matrix_terminal_lifecycle ports s = Some (Err e, s6)).
Proof.
  split.
  - intros outcome Hr. unfold orchestrate_matrix_terminal_lifecycle in Hr. apply bind_run in Hr as ([] & s1 & H1 & Hr).
    apply bind_run in Hr as (guard & s2 & H2 & Hr). apply bind_run in Hr as (executed & s3 & H3%attempt_run & Hr).
    apply bind_run in Hr as (material & s5 & Hf & Hr). apply bind_run in Hr as ([] & s6 & H6 & Hr).
    apply bind_run in Hr as (sealed & s7 & H7 & Hr). unfold or_finalization_failed in H7, Hr.
    apply bind_run in H7 as ([x|e] & t1 & H7%attempt_run & Hk); [|by apply bind_run in Hk as (? & ? & _ & Hk); apply lift_run in Hk as [? _]].
    apply ret_run in Hk as [-> ->]. apply bind_run in Hr as ([y|e] & t2 & H8%attempt_run & Hk);
      [|by apply bind_run in Hk as (? & ? & _ & Hk); apply lift_run in Hk as [? _]].
    apply ret_run in Hk as [-> ->]. unfold finalize_run_terminal in Hf. apply bind_run in Hf as (r & t3 & Ho & Hf).
    unfold finalize_owned_terminal in Ho. apply bind_run in Ho as (completed & t4 & H4%attempt_run & Ho).
    apply bind_run in Ho as (released & t5 & H5%attempt_run & Ho). apply ret_run in Ho as [<- ->].
    destruct released as [[]|e]; [|by apply bind_run in Hf as (? & ? & _ & Hf); apply lift_run in Hf as [? _]].
    destruct completed as [m|e]; [|by apply bind_run in Hf as (? & ? & _ & Hf); apply lift_run in Hf as [? _]].
    apply ret_run in Hf as [-> ->]. eauto 25.
  - intros s1 s2 s3 s4 s5 guard executed completed released H1 H2 H3 H4 H5.
    split.
    + intros e ->. unfold orchestrate_matrix_terminal_lifecycle, finalize_run_terminal, finalize_owned_terminal, attempt, mbind, io_bind, mret, io_ret.
      rewrite H1, H2, H3, H4, H5. by destruct (mt_journal ports ReleaseFailure s5) as [[[]]|].
    + intros material e s6 -> -> H6.
      unfold orchestrate_matrix_terminal_lifecycle, finalize_run_terminal, finalize_owned_terminal, attempt, mbind, io_bind, mret, io_ret.
      rewrite H1, H2, H3, H4, H5. cbn. by rewrite H6.
Qed.

(** * The theorems on a guarded execution *)

Section GuardClaims.
Context `{CacheParser} {T : Type} `{CommandPorts (FileSystem.World * T), GuardPorts (FileSystem.World * T)}
  (process : CacheProcess) (os : PathOracle) (macos : bool).
Abbreviation W := (FileSystem.World * T)%type.

Lemma persist_ends o outcome detail trip (s : W) : ends (persist o outcome detail trip) s (λ r _, r = Ok ()).
Proof.
  unfold persist. apply ends_bind, ends_call. destruct (gp_summary s).1 as [summary|]; [|by apply ends_ret].
  apply ends_bind, ends_call. case_match; [|by apply ends_ret]. apply ends_bind, ends_call. by apply ends_ret.
Qed.

(** The end of a session that holds the slot. *)
Lemma session_finish_ends session result guard (s : W) :
  gs_admission session = Some guard →
  ends (session_finish session result) s (λ r s', ∃ (s1 s2 s3 : W) watchdog,
    (join_once (gs_watchdog session) : io W GuardExecError _) s = Some (Ok watchdog, s1) ∧
    (gs_resource_observation session = None → s2 = s1) ∧ s3 = (cp_token s2).2 ∧ s' = (cp_release guard s3).2 ∧
    r = match (cp_release guard s3).1 with
        | Ok () => guard_verdict result (cp_token s2).1 (wb_join_error watchdog) (wb_trip watchdog)
        | Err e => Err (ExecAdmission e)
        end).
Proof.
  intros Hg. unfold session_finish. apply ends_bind. intros r s1 Hj. rewrite Hj.
  assert (∃ watchdog, r = Ok watchdog) as [watchdog ->].
  { unfold join_once in Hj. destruct (wb_watchdog _).
    - unfold call, mbind, io_bind in Hj. destruct (cp_stop_watchdog s). injection Hj as <- _. by eexists.
    - injection Hj as <- _. by eexists. }
  cbv zeta. apply ends_bind. eapply (ends_impl _ _ (λ r s2, r = Ok () ∧ (gs_resource_observation session = None → s2 = s1))).
  { destruct (gs_resource_observation session); [|by apply ends_ret]. do 2 apply ends_bind, ends_call.
    eapply ends_impl; [apply persist_ends|]. by intros ? ? ->. }
  intros r s2 [-> Hno]. rewrite Hg. cbn [ok_or]. apply ends_bind, ends_lift. unfold finalize_guard_exec_result, finalize_owned_terminal.
  apply ends_bind, ends_bind, ends_attempt, ends_bind, ends_call, ends_lift, ends_bind, ends_attempt, ends_map_err, ends_try_call, ends_ret, ends_lift.
  exists s1, s2, (cp_token s2).2, watchdog. split_and!; [done..|].
  destruct (cp_release guard (cp_token s2).2).1 as [[]|e]; cbn; [by destruct (guard_verdict _ _ _ _)|done].
Qed.

(** What the end of the child, and of the watchdog and the token, is told as. *)
Definition child_status (ended : result ProcessError ProcessResult) (t : CancellationToken) : Z :=
  match ended with
  | Err _ => 70
  | Ok r =>
    match pr_termination r with
    | TimedOut => 124
    | Cancelled => if bool_decide (reason t = Some CancelledResourcePressure) then 6 else 130
    | Completed =>
      if bool_decide (reason t = Some User) then 130 else
      match pr_exit r with
      | Some {| xo_success := success; xo_code := Some code |} =>
        if code =? 0 then (if success then 0 else 70) else if in_range 1 255 code then code else 70
      | _ => 70
      end
    end
  end.
Definition under_guard_status (ended : result ProcessError ProcessResult) (watchdog : WatchdogCompletionBarrier)
    (released : result AdmissionError ()) (t t' : CancellationToken) : Z :=
  match released with
  | Err e => admission_exit_code e
  | Ok () =>
    if is_Some_b (wb_join_error watchdog) || is_Some_b (wb_trip watchdog) || bool_decide (reason t = Some CancelledResourcePressure)
    then 6 else child_status ended t'
  end.

Lemma verdict_ok result t join_error trip r :
  guard_verdict result t join_error trip = Ok r →
  join_error = None ∧ trip = None ∧ bool_decide (reason t = Some CancelledResourcePressure) = false ∧ result = Ok r.
Proof.
  unfold guard_verdict. destruct join_error; [done|]. destruct trip; [done|]. by case_bool_decide.
Qed.
Lemma verdict_status ended t watchdog e :
  guard_verdict (map_err ExecProcess ended) t (wb_join_error watchdog) (wb_trip watchdog) = Err e →
  ∀ t', exec_exit_code e = if is_Some_b (wb_join_error watchdog) || is_Some_b (wb_trip watchdog)
                              || bool_decide (reason t = Some CancelledResourcePressure) then 6 else child_status ended t'.
Proof.
  unfold guard_verdict. destruct (wb_join_error watchdog); [by intros [= <-]|]. destruct (wb_trip watchdog); [by intros [= <-]|]. cbn.
  case_bool_decide; [by intros [= <-]|]. destruct ended; [done|]. by intros [= <-].
Qed.
Lemma classify_status r t :
  match classify_guard_result r t with Ok () => 0 | Err e => exec_exit_code e end = child_status (Ok r) t.
Proof.
  unfold classify_guard_result, child_status. destruct (pr_termination r) as [| |]; [| |done].
  - case_bool_decide; [done|]. destruct (pr_exit r) as [[success [code|]]|]; cbn; [|by rewrite andb_false_r|done].
    destruct (Z.eqb_spec code 0) as [->|Hne].
    + rewrite bool_decide_eq_true_2 by done. by destruct success.
    + rewrite bool_decide_eq_false_2, andb_false_r by congruence. destruct (in_range 1 255 code) eqn:E; [|done]. cbn. by rewrite E.
  - destruct (reason t) as [[]|]; done.
Qed.

(** C19.  What a guarded execution exits with, once its child has been asked for: the
    code of the admission when the slot cannot be released; else 6 when the watchdog
    failed or tripped or the host was under pressure; else 70 for a supervision that
    failed, 124 for a timeout, 130 for a user that cancelled, and otherwise the code
    of the child if it has one that a process can exit with. *)
Theorem guarded_exit_status (request : ProcessRequest) (session : GuardExecSession) (guard : AdmissionGuard) (s s' : W)
    (r : result CliError ()) :
  gs_admission session = Some guard →
  run_guarded_child request session s = Some (r, s') →
  ∃ ended watchdog s1 s2 s3,
    gp_execute_with_output request s = Some (ended, s1) ∧
    (join_once (gs_watchdog session) : io W GuardExecError _) s1 = Some (Ok watchdog, s2) ∧
    (gs_resource_observation session = None → s3 = s2) ∧
    let '(t, s4) := cp_token s3 in
    let '(released, s5) := cp_release guard s4 in
    exit_status r = under_guard_status ended watchdog released t (cp_token s5).1.
Proof.
  intros Hg Hr. unfold run_guarded_child, attempt in Hr. unfold mbind at 1, io_bind at 1 in Hr.
  destruct (gp_execute_with_output request s) as [[ended s1]|]; [|done].
  assert (G : ends (r ← io_map_err CliGuard (session_finish session (map_err ExecProcess ended)); cancellation ← call cp_token;
                    io_lift (map_err CliGuard (classify_guard_result r cancellation))) s1
            (λ r _, ∃ watchdog s2 s3, (join_once (gs_watchdog session) : io W GuardExecError _) s1 = Some (Ok watchdog, s2) ∧
               (gs_resource_observation session = None → s3 = s2) ∧
               let '(t, s4) := cp_token s3 in let '(released, s5) := cp_release guard s4 in
               exit_status r = under_guard_status ended watchdog released t (cp_token s5).1)).
  { apply ends_bind, ends_map_err. eapply ends_impl; [by apply session_finish_ends|]. clear Hr r.
    intros r s5 (s2 & s3 & s4 & watchdog & Hj & Hno & -> & -> & ->).
    assert (K : ∀ r, exit_status r = under_guard_status ended watchdog (cp_release guard (cp_token s3).2).1 (cp_token s3).1
                       (cp_token (cp_release guard (cp_token s3).2).2).1 →
      let '(t, s4) := cp_token s3 in let '(released, s5) := cp_release guard s4 in
      exit_status (A := ()) r = under_guard_status ended watchdog released t (cp_token s5).1).
    { intros r'. destruct (cp_token s3) as [t s4]. cbn. by destruct (cp_release guard s4). }
    destruct (cp_release guard _).1 as [[]|e] eqn:Erel.
    2: { exists watchdog, s2, s3. split_and!; [done..|]. by apply K. }
    destruct (guard_verdict _ _ _ _) as [x|e] eqn:Ev; cbn [map_err].
    - apply verdict_ok in Ev as (Hje & Htr & Hp & Hx). destruct ended as [y|]; [|done]. injection Hx as ->.
      apply ends_bind, ends_call, ends_lift. exists watchdog, s2, s3. split_and!; [done..|]. apply K.
      unfold under_guard_status. rewrite Hje, Htr, Hp. cbn [is_Some_b orb].
      rewrite <-classify_status. by destruct (classify_guard_result _ _) as [[]|].
    - exists watchdog, s2, s3. split_and!; [done..|]. apply K. unfold under_guard_status.
      cbn [exit_status cli_exit_code]. by apply verdict_status. }
  destruct (G _ _ Hr) as (watchdog & s2 & s3 & ? & ? & ?). by exists ended, watchdog, s1, s2, s3.
Qed.

Lemma finish_with_fails session guard e (s s' : W) :
  gs_admission session = Some guard → finish_with session e s ≠ Some (Ok (), s').
Proof.
  intros Hg Hr. unfold finish_with in Hr. apply bind_run in Hr as (r & s1 & Hf%map_err_run & _).
  destruct (session_finish_ends _ _ _ _ Hg _ _ Hf) as (s2 & s3 & s4 & watchdog & _ & _ & _ & _ & Hv).
  destruct (cp_release guard s4).1 as [[]|]; [|done]. symmetry in Hv. by apply verdict_ok in Hv as (_ & _ & _ & ?).
Qed.
Lemma or_finish_run {A} session guard (m : io W GuardExecError A) k (s s' : W) :
  gs_admission session = Some guard → or_finish session m k s = Some (Ok (), s') → ∃ x s1, m s = Some (Ok x, s1) ∧ k x s1 = Some (Ok (), s').
Proof.
  intros Hg Hr. unfold or_finish in Hr. apply bind_run in Hr as ([x|e] & s1 & Hm%attempt_run & Hr); [by exists x, s1|].
  by eapply finish_with_fails in Hr.
Qed.

(** C13.  A guarded execution exits with zero only when it did all it promises: the
    arguments were allowed, the slot was acquired and was released without error, the
    watchdog was joined and neither failed nor tripped, and the child was run with
    exactly the program, arguments and timeout that were asked for, ended by itself
    with success and code zero, and was not cancelled. *)
Theorem guard_exec_success (args : GuardExecArgs) (s s' : W) :
  print_guard_exec process os macos args s = Some (Ok (), s') →
  validate_guard_args args = Ok () ∧
  ∃ guard request ended session watchdog exit s0 s1 s2 s3 s4 s5 t t',
    (cp_acquire s0).1 = Ok guard ∧
    rq_program request :: rq_argv request = ga_argv args ∧ rq_timeout request = millis (1000 * ga_timeout_seconds args) ∧
    gp_execute_with_output request s1 = Some (Ok ended, s2) ∧
    (join_once (gs_watchdog session) : io W GuardExecError _) s2 = Some (Ok watchdog, s3) ∧
    wb_watchdog (gs_watchdog session) = macos ∧ wb_join_error watchdog = None ∧ wb_trip watchdog = None ∧
    (cp_release guard s4).1 = Ok () ∧
    pr_termination ended = Completed ∧ pr_exit ended = Some exit ∧ xo_success exit = true ∧ xo_code exit = Some 0 ∧
    cp_token s5 = (t, s4) ∧ reason t ≠ Some CancelledResourcePressure ∧
    t' = (cp_token (cp_release guard s4).2).1 ∧ reason t' ≠ Some User.
Proof.
  intros Hr. unfold print_guard_exec in Hr. apply bind_run in Hr as ([] & t1 & Ha & Hr). apply lift_run in Ha as [Ha%map_err_ok ->].
  split; [exact Ha|]. apply bind_run in Hr as (directory & t2 & _ & Hr). apply bind_run in Hr as (isdir & t3 & _ & Hr).
  apply bind_run in Hr as ([] & t4 & _ & Hr). apply bind_run in Hr as (root & t5 & _ & Hr). apply bind_run in Hr as ([] & t6 & _ & Hr).
  apply bind_run in Hr as (session & t7 & Hs & Hr). unfold session_acquire in Hs. apply bind_run in Hs as ([] & t8 & _ & Hs).
  apply bind_run in Hs as (guard & t9 & Hg%map_err_run & Hs). apply ret_run in Hs as [Hsess _].
  assert (Hadm : gs_admission session = Some guard) by by rewrite <-Hsess.
  assert (Hnone : wb_watchdog (gs_watchdog session) = false) by by rewrite <-Hsess.
  unfold guard_session in Hr. eapply or_finish_run in Hr as (cache & t10 & _ & Hr); [|exact Hadm].
  eapply or_finish_run in Hr as (baseline & t11 & _ & Hr); [|exact Hadm].
  apply bind_run in Hr as (session' & t12 & Hw%map_err_run & Hr).
  assert (gs_admission session' = Some guard ∧ wb_watchdog (gs_watchdog session') = macos) as [Hadm' Hwd].
  { clear Hr Hsess. unfold start_watchdog in Hw. destruct macos; cbn [negb] in Hw; [|by apply ret_run in Hw as [<- _]].
    apply bind_run in Hw as (observed & u1 & _ & Hw). apply bind_run in Hw as ([] & u2 & _ & Hw). destruct observed.
    - apply bind_run in Hw as (a & u3 & _ & Hw). apply bind_run in Hw as (b & u4 & _ & Hw). by apply ret_run in Hw as [<- _].
    - by apply ret_run in Hw as [<- _]. }
  apply bind_run in Hr as (environment & t13 & _ & Hr). cbv zeta in Hr. eapply or_finish_run in Hr as (pins & t14 & _ & Hr); [|exact Hadm'].
  apply bind_run in Hr as (r & t15 & Hc%attempt_run & Hr). apply bind_run in Hr as (u & t16 & _ & Hr). apply lift_run in Hr as [-> _].
  eapply or_finish_run in Hc as ([] & t17 & _ & Hc); [|exact Hadm']. set (request := guard_request _ _ _ _ _) in Hc.
  unfold run_guarded_child in Hc. apply bind_run in Hc as (ended & t18 & He%attempt_run & Hc).
  apply bind_run in Hc as (r & t19 & Hf%map_err_run & Hc). apply bind_run in Hc as (t' & t20 & Ht' & Hc). apply lift_run in Hc as [Hc%map_err_ok _].
  destruct (session_finish_ends _ _ _ _ Hadm' _ _ Hf) as (s3 & s5 & s4 & watchdog & Hj & _ & Hs4 & Hs6 & Hv).
  destruct (cp_release guard s4).1 as [[]|] eqn:Erel; [|done]. symmetry in Hv. apply verdict_ok in Hv as (Hje & Htr & Hp & Hx).
  apply bool_decide_eq_false in Hp. destruct ended as [x|]; [|done]. injection Hx as ->.
  unfold classify_guard_result in Hc. destruct (pr_termination r) eqn:Et; [|by destruct (reason t') as [[]|]|done].
  case_bool_decide as Hu; [discriminate Hc|]. destruct (pr_exit r) as [exit|] eqn:Ex; [|discriminate Hc].
  destruct (xo_success exit && bool_decide (xo_code exit = Some 0)) eqn:Eok; [|destruct (xo_code exit) as [code|]; [destruct (in_range 1 255 code)|]; discriminate Hc].
  apply andb_true_iff in Eok as [Hok Hcode%bool_decide_eq_true].
  exists guard, request, r, session', watchdog, exit, t8, t17, t18, s3, s4, s5, (cp_token s5).1, t'.
  split_and!; try done.
  3: { rewrite Hs4. by destruct (cp_token s5). }
  3: { unfold call in Ht'. rewrite <-Hs6. by destruct (cp_token t19); simplify_eq. }
  - unfold try_call in Hg. by destruct (cp_acquire t8); simplify_eq.
  - unfold validate_guard_args in Ha. repeat (apply bind_ok in Ha as ([] & ? & Ha)). by destruct (ga_argv args).
Qed.

(** The record that a guarded execution leaves in the resource history tells what
    it was classified as, when the watchdog was joined without error: the outcome and
    the detail of the record are those of the classification, and they fit together,
    so that the record is one that the history accepts.  The token is the same for
    all that read it; exit code zero is success, as on Unix; and a user who cancels
    is told of by an end of the child that was not a timeout. *)
Theorem history_tells_exit (ended : result ProcessError ProcessResult) (t : CancellationToken) (trip : option WatchdogTripReason) :
  let result := map_err ExecProcess ended in
  (∀ r x, ended = Ok r → pr_exit r = Some x → (xo_success x = true ↔ xo_code x = Some 0)) →
  (reason t = Some User → ∃ r, ended = Ok r ∧ pr_termination r ≠ TimedOut) →
  let outcome := resource_run_outcome result t trip in
  let detail := resource_terminal_detail result t trip in
  match guard_verdict result t None trip with
  | Ok r =>
    match classify_guard_result r t with
    | Ok () => outcome = RunCompleted ∧ detail = None
    | Err ExecUserCancelled => outcome = RunCancelled ∧ detail = Some UserCancelled
    | Err ExecTimedOut => outcome = RunTimedOut ∧ detail = Some DetailTimedOut
    | Err (ExecChildExit code) => outcome = RunFailed ∧ detail = Some (ChildExit code)
    | Err _ => outcome = RunFailed ∧ detail = Some InternalFailure
    end
  | Err (ExecProcess _) => outcome = RunFailed ∧ detail = Some ProcessSupervisionFailure
  | Err _ => outcome = RunResourcePressure ∧ detail = Some DetailResourcePressure
  end ∧ detail_matches outcome detail = true.
Proof.
  cbv zeta. intros Hexit Huser. unfold guard_verdict, resource_run_outcome, resource_terminal_detail.
  destruct trip as [reason|]; cbn [is_Some_b orb]; [by split|]. case_bool_decide as Hp; [by split|].
  destruct ended as [r|e]; cbn [map_err ended_with]; [|].
  2: { case_bool_decide as Hu; [by destruct (Huser Hu) as (? & [=] & _)|]. by split. }
  specialize (Hexit r). unfold classify_guard_result. destruct (pr_termination r) eqn:Et.
  - case_bool_decide as Hu; [by split|]. cbn. destruct (pr_exit r) as [[success code]|]; cbn; [|by split].
    specialize (Hexit _ eq_refl eq_refl). cbn in Hexit. destruct success; cbn.
    + rewrite (proj1 Hexit eq_refl). by split.
    + destruct code as [code|]; [|by split]. cbn. destruct (in_range 1 255 code) eqn:E; [|by split]. split; [done|]. cbn.
      unfold in_range in E. apply andb_true_iff in E as [?%Z.leb_le _]. apply Z.gtb_lt. lia.
  - rewrite orb_true_r. cbn. destruct (reason t) as [[]|]; by split.
  - case_bool_decide as Hu; [destruct (Huser Hu) as (? & [= <-] & ?); congruence|]. by split.
Qed.
End GuardClaims.

(** * Example *)

Module CommandExample.
Import PlanExample SnapshotExample RunExample.
Import JournalExample (marker_codec, source_codec, token, states, failures).
#[local] Existing Instance JournalExample.marker_codec.
#[local] Existing Instance JournalExample.source_codec.
#[local] Existing Instance JournalExample.failure_eq_dec.

(** Every entry that the code can make is written. *)
Definition write_entry (e : RunJournalEntryV1) : list string :=
  [je_schema_version e; je_run_id e; number (je_seq e); write_index states (je_state e); je_at_utc e]
  ++ match je_failure_kind e with Some f => [write_index failures f] | None => [] end.
Definition read_entry (fields : list string) : option RunJournalEntryV1 :=
  match fields with
  | v :: r :: n :: s :: t :: f =>
    seq ← read_number n; state ← read_index states s;
    kind ← match f with [] => Some None | k :: _ => Some <$> read_index failures k end;
    Some {| je_schema_version := v; je_run_id := r; je_seq := seq; je_state := state; je_at_utc := t; je_failure_kind := kind |}
  | _ => None
  end.
#[local] Instance entry_codec : Codec RunJournalEntryV1 :=
  {| to_vec e := if bool_decide (u64 (je_seq e)) then Some (flat_map write_field (write_entry e)) else None;
     from_slice l := read_entry (read_fields [] l) |}.
Lemma read_write_entry e : u64 (je_seq e) → read_entry (write_entry e) = Some e.
Proof.
  intros He. destruct e as [v r n s t k]. unfold read_entry, write_entry. cbn [app je_schema_version je_run_id je_seq je_state je_at_utc je_failure_kind] in *.
  rewrite read_number_number by (unfold u64, u64_max in He; lia).
  assert (Hs : read_index states (write_index states s) = Some s) by by destruct s; vm_compute. cbn [mbind option_bind]. rewrite Hs.
  destruct k as [k|]; [|done].
  assert (Hk : read_index failures (write_index failures k) = Some k) by by destruct k; vm_compute. cbn [mbind option_bind]. by rewrite Hk.
Qed.
#[local] Instance laws : JournalLaws.
Proof.
  constructor.
  - intros e b Hb. unfold to_vec, entry_codec in Hb. case_bool_decide as He; [|done]. apply (inj Some) in Hb as <-.
    unfold from_slice, entry_codec. by rewrite read_write_fields, read_write_entry.
  - apply (marker_roundtrip (JournalLaws := JournalExample.laws)).
  - apply (source_roundtrip (JournalLaws := JournalExample.laws)).
  - apply (marker_size (JournalLaws := JournalExample.laws)).
  - apply (source_size (JournalLaws := JournalExample.laws)).
Qed.
Lemma serialize : entries_serialize.
Proof. intros e He. cbn. rewrite bool_decide_eq_true_2 by done. by eexists. Qed.

(** Git answers by its objects, the daemon in the order of its answers. *)
Definition git_answer (argv : list string) (t : node) : list ascii :=
  if bool_decide (argv = ["rev-parse"; "--verify"; "HEAD"]) then bytes COMMIT ++ [line_feed]
  else if bool_decide (head argv = Some "status") then [] else git_text argv t.
Definition supervise (guard : GenerationGuard) : SupervisorPort (machine answers) := λ request _ '(w, (h, u)),
  if (rq_program request =? "git")%string then Some (Ok (output (git_answer (rq_argv request) (w_tree (h_world h)))), (w, (h, u)))
  else match u with a :: u => Some (a, (w, (h, u))) | [] => Some (Err StaleGeneration, (w, (h, []))) end.
Definition blobs (guard : GenerationGuard) : SourceBlobPort (machine answers) := λ request _ '(w, (h, u)),
  Some (Ok (output (git_answer (rq_argv request) (w_tree (h_world h)))), (w, (h, u))).
Definition docker : RuntimePort (machine answers) :=
  docker_runtime supervise view (ru_cache request) (λ _, None) ProcessGroup ProcessGroupSignal.
Definition ticket : AdmissionGuard := {| ag_ticket_id := "1"; ag_ticket_path := "tickets/1" |}.
Definition healthy : ResourceSnapshot :=
  {| sn_available_percent := 80; sn_reclaimable_uncompressed_bytes := 8 * 1024 ^ 3; sn_compressor_occupied_bytes := 0;
     sn_total_memory_bytes := 16 * 1024 ^ 3; sn_swap_used_bytes := 0; sn_swap_total_bytes := 0 |}.
Definition commands (released : result AdmissionError ()) : CommandPorts (machine answers) :=
  {| cp_install_handler s := (true, s); cp_token s := (token_default, s); cp_current_dir s := (Ok (absolute ["repo"]), s);
     cp_coordinator s := (Ok (), s); cp_acquire s := (Ok ticket, s); cp_release _ s := (released, s); cp_sample s := (Ok healthy, s);
     cp_start_watchdog s := ((), s); cp_stop_watchdog s := (Watching WatchdogState_default None, s) |}.
#[local] Instance clock : LocalPorts answers :=
  {| lp_now_utc := io_lift (Clock.now_utc (Some 1700000000)); lp_available_bytes s := (λ _, Ok 1000000, s);
     lp_unix_nanos s := (Some 1700000000000000000, s) |}.
Lemma ticking : clock_works (V := answers).
Proof. intros s. exists STARTED, s. split; [reflexivity|]. apply (mk_is_Some _ 1700000000). vm_compute. reflexivity. Qed.

(** The host, with the directory that the journal keeps for the run. *)
Definition host (run_id : string) : node :=
  Dir [("cache", Dir [(JOURNAL_DIR, Dir [(RUNS_DIR, Dir [(run_id, Dir [(RESOURCES_DIR, Dir [])])])])]);
       ("repo", Dir [(".ccp", Dir [("receipt.json", File (bytes "earlier"))])])].
Definition start (run_id : string) (shell : Shell) : machine (Shell * answers) :=
  (empty_world (Dir []),
   ({| h_world := empty_world (host run_id); h_executable := [] |}, (shell, check_answers "build" "built" ++ check_answers "test" "tested"))).
Definition shell_with (store : RunJournalStore) (guards : list AdmissionGuard) : Shell :=
  {| sh_journal := store; sh_barrier := barrier_new false; sh_guards := guards |}.

Definition capabilities : RuntimeCapabilityEvidenceV1 :=
  {| rt_schema_version := "1.0"; rt_context_digest := pe_plan_digest small_plan; rt_memory_limit_supported := true;
     rt_swap_limit_supported := true; rt_resolved_image_reference := nr_image (ep_runtime (pe_plan small_plan));
     rt_resolved_image_id := pe_plan_digest small_plan |}.
Definition runtime : RuntimePort (machine answers) :=
  {| rt_probe _ _ _ := io_lift (ok_or (rp_runtime_probe preflight) RuntimeTimedOut); rt_capability_probe _ _ _ _ := mret (Some capabilities);
     rt_dry_run := rt_dry_run (RuntimePort := docker); rt_execute_check := rt_execute_check (RuntimePort := docker) |}.
Definition capable : RuntimePreflight := {| rp_runtime_probe := rp_runtime_probe preflight; rp_capability_evidence := Some capabilities |}.
Definition named : string := JournalExample.run.
Definition unlocked : result AdmissionError () := Err AdmissionTimeout.
Definition nothing_yet (run_id : string) : machine (Shell * answers) := start run_id (shell_with (initial_store token) []).
Abbreviation journaled released := (journaled_run runtime (H5 := commands released) supervise blobs view process (λ _, None) "linux" "x86_64"
  alone nothing true named request capable (nothing_yet named)).
Lemma token_fine : validate_run_id token = Ok ().
Proof. reflexivity. Qed.

(** A run that is sealed, and one whose slot cannot be released. *)
Lemma run_is_accounted_witness :
  (∃ outcome s', journaled (Ok ()) = Some (Ok outcome, s') ∧ sh_guards (shell_of s') = [] ∧
     recorded_states s' named [Created; RunAdmitted; Prepared; Executing; Finalizing; Sealed]) ∧
  (∃ e s' states, journaled unlocked = Some (Err e, s') ∧ sh_guards (shell_of s') = [] ∧ recorded_states s' named states ∧
     (last states = Some RunJournal.Failed ∨ last states = Some CleanupPending ∨ states = [Created])).
Proof.
  split.
  - destruct (journaled (Ok ())) as [[[outcome|e] s']|] eqn:E; [|vm_compute in E; discriminate E..].
    pose proof (run_is_accounted runtime (H3 := commands (Ok ())) supervise blobs view process (λ _, None) "linux" "x86_64" alone nothing true
      token named request capable (nothing_yet named) (Ok outcome) s' ticking serialize token_fine (rtc_refl _ _) eq_refl) as G.
    specialize (G E). destruct G as (Hg & Hs & _). exists outcome, s'. split; [reflexivity|]. split; [exact Hg|exact Hs].
  - destruct (journaled unlocked) as [[[outcome|e] s']|] eqn:E; [vm_compute in E; discriminate E| |vm_compute in E; discriminate E].
    pose proof (run_is_accounted runtime (H3 := commands unlocked) supervise blobs view process (λ _, None) "linux" "x86_64" alone nothing true
      token named request capable (nothing_yet named) (Err e) s' ticking serialize token_fine (rtc_refl _ _) eq_refl) as G.
    specialize (G E). destruct G as (Hg & [Hn|(states & Hs & Hl)]).
    { exfalso. vm_compute in E. injection E as _ <-. vm_compute in Hn. discriminate Hn. }
    exists e, s', states. split; [reflexivity|]. split; [exact Hg|]. split; [exact Hs|].
    destruct Hl as [Hl|[Hl|[Hl _]]]; [left|right; left|right; right]; exact Hl.
Defined.

(** A run without a snapshot, from its admission: the receipt is published, and the
    slot cannot be released. *)
Definition written_store (r : result RunJournalError (RunJournalEntryV1 * RunJournalStore)) : RunJournalStore :=
  match r with Ok (_, store) => store | Err _ => initial_store token end.
Definition created : RunJournalStore := Eval vm_compute in written_store (create_run (initial_store token) named STARTED).
Definition admitted : RunJournalStore := Eval vm_compute in written_store (transition created named RunAdmitted STARTED None).
Lemma written_ok r store : is_ok r = true → written_store r = store → ∃ e, r = Ok (e, store).
Proof. destruct r as [[e x]|]; [|done]. intros _ <-. by exists e. Qed.
Lemma admitted_reachable : reachable token admitted.
Proof.
  destruct (written_ok (create_run (initial_store token) named STARTED) created) as [e H1]; [by vm_compute..|].
  destruct (written_ok (transition created named RunAdmitted STARTED None) admitted) as [e' H2]; [by vm_compute..|].
  eapply rtc_l; [eapply step_create, H1|]. eapply rtc_l; [eapply step_transition, H2|]. apply rtc_refl.
Qed.
Definition holding_slot : machine (Shell * answers) := start named (shell_with admitted [ticket]).
Abbreviation this_run released := (local_run runtime (H5 := commands released) supervise view process (λ _, None) "linux" "x86_64" alone nothing named
  request capable holding_slot).
Lemma admitted_recorded : recorded_states holding_slot named [Created; RunAdmitted].
Proof.
  unfold recorded_states. destruct (read_entries (sh_journal (shell_of holding_slot)) named) as [es|] eqn:R; [|vm_compute in R; discriminate R].
  exists es. split; [reflexivity|]. vm_compute in R. injection R as <-. reflexivity.
Qed.

(** A snapshot that somebody else has removed. *)
Definition lost : SourceSnapshot :=
  {| sn_root := absolute ["cache"; "lost"; "tree"]; sn_resource_root := absolute ["cache"; "lost"]; sn_repository := absolute ["repo"];
     sn_manifest := {| sm_schema_version := ""; sm_commit_sha := COMMIT; sm_strategy := ""; sm_entries := [] |};
     sn_evidence := {| sv_schema_version := ""; sv_strategy := ""; sv_manifest_digest := ""; sv_entry_count := 0 |};
     sn_cleaned := false; sn_overlay_files := []; sn_overlay_directories := [] |}.
Lemma published_receipt_fate_witness :
  (∃ outcome s1 (r : result CliError RunOutcome) (s2 : machine (Shell * answers)),
    this_run unlocked = Some (Ok outcome, s1) ∧ r1_overall_status (e1_receipt (uo_receipt outcome)) = Pass ∧
    r = Err (CliAdmission AdmissionTimeout) ∧ exit_status r = 5 ∧
    recorded_states s2 named [Created; RunAdmitted; Prepared; Executing; Finalizing; CleanupPending]) ∧
  ∃ outcome s1 (r : result CliError RunOutcome) (s3 : machine (Shell * answers)),
    this_run (Ok ()) = Some (Ok outcome, s1) ∧
    rest_of_run (H2 := commands (Ok ())) named ticket lost outcome s1 = Some (r, s3) ∧
    r = Err (source_error (SnapshotIo NotFound)) ∧ exit_status r = 70 ∧
    recorded_states s3 named [Created; RunAdmitted; Prepared; Executing; Finalizing; CleanupPending].
Proof.
  split.
  - destruct (this_run unlocked) as [[[outcome|e] s1]|] eqn:E; [|vm_compute in E; discriminate E..].
    pose proof (published_receipt_fate runtime (H3 := commands unlocked) supervise view process (λ _, None) "linux" "x86_64" alone nothing
      token named request capable ticket outcome holding_slot s1 ticking serialize token_fine eq_refl admitted_reachable eq_refl
      admitted_recorded E) as G.
    destruct G as (s0 & r & s2 & _ & Hr & Hs & _).
    assert (Hrel : (cp_release (CommandPorts := framed_commands (commands unlocked)) ticket s0).1 = unlocked) by reflexivity.
    rewrite Hrel in Hr, Hs.
    assert (Ho : r1_overall_status (e1_receipt (uo_receipt outcome)) = Pass) by (vm_compute in E; injection E as <- _; reflexivity).
    exists outcome, s1, r, s2. split; [reflexivity|]. split; [exact Ho|]. split; [exact Hr|]. split; [subst r; reflexivity|exact Hs].
  - destruct (this_run (Ok ())) as [[[outcome|e] s1]|] eqn:E; [|vm_compute in E; discriminate E..].
    pose proof (published_receipt_fate runtime (H3 := commands (Ok ())) supervise view process (λ _, None) "linux" "x86_64" alone nothing
      token named request capable ticket outcome holding_slot s1 ticking serialize token_fine eq_refl admitted_reachable eq_refl
      admitted_recorded E) as G.
    destruct (rest_of_run (H2 := commands (Ok ())) named ticket lost outcome s1) as [[r s3]|] eqn:R.
    2: { exfalso. vm_compute in E. injection E as <- <-. vm_compute in R. discriminate R. }
    destruct G as (s0 & r0 & s2 & _ & _ & _ & G & _). specialize (G lost r s3 R).
    assert (Hrel : (cp_release (CommandPorts := framed_commands (commands (Ok ()))) ticket s0).1 = Ok ()) by reflexivity.
    rewrite Hrel in G. destruct G as (cleaned & s2' & _ & G).
    assert (Hr : r = Err (source_error (SnapshotIo NotFound))) by (vm_compute in E; injection E as <- <-; vm_compute in R; injection R as <- _; reflexivity).
    exists outcome, s1, r, s3. split; [reflexivity|]. split; [exact R|]. split; [exact Hr|]. split; [subst r; reflexivity|].
    destruct cleaned as [cleaned|e]; destruct G as [G1 G2]; [|exact G2]. subst r. discriminate Hr.
Defined.

(** The whole command. *)
Definition this_journal : string := get (new_journal_id (pe_plan_digest small_plan) 1 (Some 1700000000000000000) 7 0) eq_refl.
Abbreviation whole_command := (print_run runtime (H5 := commands (Ok ())) supervise blobs view process (λ _, None) "linux" "x86_64" alone nothing true
  (λ _ t, t) (λ _ t, t) small_plan (absolute ["repo"]) (ru_cache request) "0.1.0" 1 0 true (nothing_yet this_journal)).
Lemma local_success_witness : ∃ s' run_id,
  whole_command = Some (Ok (), s') ∧ sh_guards (shell_of s') = [] ∧
  recorded_states s' run_id [Created; RunAdmitted; Prepared; Executing; Finalizing; Sealed].
Proof.
  destruct whole_command as [[[[]|e] s']|] eqn:E; [|vm_compute in E; discriminate E..].
  pose proof (local_success runtime (H3 := commands (Ok ())) supervise blobs view process (λ _, None) "linux" "x86_64" alone nothing true
    (λ _ t, t) (λ _ t, t) token small_plan (absolute ["repo"]) (ru_cache request) "0.1.0" 1 0 true (nothing_yet this_journal) s'
    ticking serialize token_fine (rtc_refl _ _) eq_refl) as G.
  specialize (G E). destruct G as (Hg & run_id & rq & pf & outcome & s1 & s2 & Hs & _). exists s', run_id.
  split; [reflexivity|]. split; [exact Hg|exact Hs].
Defined.
(** A matrix run over a log of what was done; its slot is released or it is not. *)
Definition logged {E A} (line : string) (r : result E A) : io (list string) E A := λ log, Some (r, log ++ [line]).
Definition matrix (released : result AdmissionError ()) :
    MatrixTerminalLifecyclePorts (S := list string) string string string AdmissionGuard :=
  {| mt_validate_before_admission := logged "validate" (Ok ()); mt_acquire := logged "acquire" (Ok ticket);
     mt_execute := logged "execute" (Ok "lanes"); mt_complete executed := logged "complete" executed;
     mt_release _ := logged "release" released; mt_journal _ := logged "journal" (Ok ());
     mt_cleanup_snapshot := logged "cleanup" (Ok ()); mt_seal material := logged "seal" (Ok material);
     mt_write sealed := logged "write" (Ok sealed) |}.
Lemma matrix_seals_last_witness :
  (∃ s6 s7, mt_seal (matrix (Ok ())) "lanes" s6 = Some (Ok "lanes", s7) ∧
     s6 = ["validate"; "acquire"; "execute"; "complete"; "release"; "cleanup"]) ∧
  orchestrate_matrix_terminal_lifecycle (matrix unlocked) [] =
    Some (Err (CliAdmission AdmissionTimeout), ["validate"; "acquire"; "execute"; "complete"; "release"; "journal"]).
Proof.
  split.
  - destruct (proj1 (matrix_seals_last (matrix (Ok ())) []
      ["validate"; "acquire"; "execute"; "complete"; "release"; "cleanup"; "seal"; "write"]) "lanes" eq_refl)
      as (s1 & s2 & s3 & s4 & s5 & s6 & s7 & guard & executed & material & sealed & H1 & H2 & H3 & H4 & H5 & H6 & H7 & H8).
    cbn in *. simplify_eq. by eexists _, _.
  - refine (proj1 (proj2 (matrix_seals_last (matrix unlocked) [] []) _ _ _ _ _ _ _ _ _ eq_refl eq_refl eq_refl eq_refl eq_refl) _ eq_refl).
Defined.

(** Guarded executions of a child that ends with a code. *)
Definition guard_ports (code : Z) : GuardPorts (machine answers) :=
  {| gp_canonical_dir s := (Ok (absolute ["repo"]), s); gp_is_dir _ s := (true, s);
     gp_resolve_cache _ root s := (Ok {| rr_path := root; rr_source := Explicit |}, s); gp_environment s := ([], s);
     gp_history_platform s := (false, s); gp_unix_seconds s := (1700000000, s); gp_now s := (0, s); gp_elapsed _ s := (5, s);
     gp_summary s := (None, s); gp_append _ s := (true, s);
     gp_execute_with_output _ s :=
       Some (Ok (without_code Completed Verified (Some {| xo_success := code =? 0; xo_code := Some code |})), s) |}.
Definition guard_args : GuardExecArgs :=
  {| ga_admission_timeout_seconds := 600; ga_timeout_seconds := 60; ga_resource_profile := "cargo"; ga_resource_workload_family := "unknown";
     ga_resource_executor := None; ga_resource_cache_state := CacheUnknown; ga_resource_execution_mode := ModeUnknown;
     ga_resource_target_platform := None; ga_resource_cpu_limit_millis := None; ga_resource_memory_limit_bytes := None;
     ga_no_resource_history := true; ga_managed_cache_root := []; ga_managed_cache_source := []; ga_argv := ["make"; "test"] |}.
Definition session : GuardExecSession :=
  {| gs_admission := Some ticket; gs_watchdog := barrier_new true; gs_resource_observation := None |}.
Definition make_test : ProcessRequest := guard_request guard_args (absolute ["repo"]) [] "make" ["test"].

Lemma guarded_exit_status_witness :
  (∃ r s', run_guarded_child (H0 := commands (Ok ())) (H1 := guard_ports 3) make_test session ready = Some (r, s') ∧ exit_status r = 3) ∧
  ∃ r s', run_guarded_child (H0 := commands unlocked) (H1 := guard_ports 3) make_test session ready = Some (r, s') ∧ exit_status r = 5.
Proof.
  split.
  - destruct (run_guarded_child (H0 := commands (Ok ())) (H1 := guard_ports 3) make_test session ready) as [[r s']|] eqn:E; [|vm_compute in E; discriminate E].
    exists r, s'. split; [reflexivity|].
    destruct (guarded_exit_status (H0 := commands (Ok ())) (H1 := guard_ports 3) make_test session ticket ready s' r eq_refl E)
      as (ended & watchdog & s1 & s2 & s3 & He & Hj & _ & Hs). cbn in He, Hj, Hs. injection He as <- <-. injection Hj as <- <-. exact Hs.
  - destruct (run_guarded_child (H0 := commands unlocked) (H1 := guard_ports 3) make_test session ready) as [[r s']|] eqn:E; [|vm_compute in E; discriminate E].
    exists r, s'. split; [reflexivity|].
    destruct (guarded_exit_status (H0 := commands unlocked) (H1 := guard_ports 3) make_test session ticket ready s' r eq_refl E)
      as (ended & watchdog & s1 & s2 & s3 & He & Hj & _ & Hs). exact Hs.
Defined.

Lemma guard_exec_success_witness : ∃ s' request ended s1 s2,
  print_guard_exec (H0 := commands (Ok ())) (H1 := guard_ports 0) process (plain_paths (Dir [])) true guard_args ready = Some (Ok (), s') ∧
  gp_execute_with_output (GuardPorts := guard_ports 0) request s1 = Some (Ok ended, s2) ∧
  rq_program request :: rq_argv request = ["make"; "test"] ∧ rq_timeout request = millis 60000 ∧ pr_termination ended = Completed.
Proof.
  destruct (print_guard_exec (H0 := commands (Ok ())) (H1 := guard_ports 0) process (plain_paths (Dir [])) true guard_args ready)
    as [[[[]|e] s']|] eqn:E; [|vm_compute in E; discriminate E..].
  destruct (guard_exec_success (H0 := commands (Ok ())) (H1 := guard_ports 0) process (plain_paths (Dir [])) true guard_args ready s' E)
    as (_ & guard & request & ended & session & watchdog & exit & s0 & s1 & s2 & s3 & s4 & s5 & t & t' & _ & Hargv & Ht & He & _ & _ & _ & _ & _ & Hc & _).
  exists s', request, ended, s1, s2. split; [reflexivity|]. split; [exact He|]. split; [exact Hargv|]. split; [exact Ht|exact Hc].
Defined.

(** A child that did not end in time. *)
Lemma history_tells_exit_witness :
  let ended := Ok (without_code TimedOut Verified None) in
  classify_guard_result (without_code TimedOut Verified None) token_default = Err ExecTimedOut ∧
  resource_run_outcome (map_err ExecProcess ended) token_default None = RunTimedOut ∧
  resource_terminal_detail (map_err ExecProcess ended) token_default None = Some DetailTimedOut.
Proof.
  cbv zeta. split; [reflexivity|].
  assert (Hx : ∀ r x, Ok (without_code TimedOut Verified None) = @Ok ProcessError _ r → pr_exit r = Some x →
    (xo_success x = true ↔ xo_code x = Some 0)).
  { intros r x Hr Hx. injection Hr as <-. discriminate Hx. }
  exact (proj1 (history_tells_exit (Ok (without_code TimedOut Verified None)) token_default None Hx (λ N, ltac:(discriminate N)))).
Defined.
End CommandExample.
